(* ===== verification/_CoqProject ===== *)
-Q . S2P
Prelude.v
Bytes.v
NrpePacket.v
NrpeServer.v
Strings.v
Permissions.v
Registry.v
Dispatch.v
Cron.v
RateLimit.v
AllowedHosts.v
Format.v
NumberText.v
NumberRoundtrip.v
Expression.v
PerfData.v
PerfDataRoundtrip.v
RegexGuard.v
Where.v
WhereTypes.v
WhereLogic.v
Filter.v
AccessPolicy.v
PathPolicy.v
ArgvQuote.v
Crypt.v
Nsca.v
Base64.v
PasswordHash.v
WebTokens.v
WebAuth.v
CoreStores.v
Ordering.v
Eviction.v
FactRepository.v
Samples.v
ResultStore.v
ResultStoreLaws.v
EventStore.v
Collectd.v
CollectdLaws.v
LogFile.v
LogRecords.v
LogFileLaws.v
Scheduler.v
SimpleIni.v
Settings.v
SettingsIni.v
OpenMetrics.v
OpenMetricsLaws.v
OpenMetricsRender.v
OpenMetricsRoundtrip.v
OpenMetricsExposition.v
FactsPacer.v
FleetSync.v
FleetPacing.v
DesiredState.v
DesiredStateLaws.v
FleetTrust.v
FleetTrustLaws.v
FleetApply.v
FleetAgent.v
HttpWire.v
HttpWireLaws.v
CheckMk.v
CheckMkLaws.v
MetricsStore.v
