(* ===== verification/Prelude.v ===== *)
(** * NSClient++ (nscp): verification development

    NSClient++ is a monitoring agent.  Servers (NRPE, NSCA, the web server) accept connections
    and turn packets and requests into queries; the core dispatches each query to the module
    that registered the command, if the permission policy lets the caller run it; a check module
    collects rows and hands them to the filter engine, which applies the where-expressions of
    the check ("filter", "warning", "critical", "ok") to every row and computes the verdict that
    travels back.  Schedules run checks on their own and send the results on; metrics are
    collected, stored and exposed; passive results are cached for a poller; a fleet server may
    hand the host signed configuration and scripts and ask for its facts.  The development
    models these paths and the utilities under them.

    ** Files and the code they model (paths under src/)

    Shared
    - Prelude: [result] for code that may throw, 8- to 64-bit wrap-around ([wrap_u], [wrap_s],
      [in_u], [in_s]), the tactics and the hint database [nscp], generic lemmas.
    - Bytes: byte buffers, big-endian fields, and include/bytes/crc32.cpp.
    - Strings: include/str/utils_no_boost.hpp and the prompt tokenizer of str/utils.hpp.
    - Ordering: the order of [std::string] keys and stable sorting by key.
    - Eviction: bounded maps that drop the lowest-ranked entry.
    - Format: include/str/format.hpp and str/saturate.hpp; a double is an IEEE 754 binary64 of
      the Standard Library ([spec_float]).
    - NumberText, NumberRoundtrip: include/str/number_format.hpp and the reading of decimals.
    - Expression: include/parsers/expression/expression.cpp (templates with placeholders).

    Protocols
    - NrpePacket, NrpeServer: include/net/nrpe/packet.hpp (the packet, its serialiser and
      decoder), server/parser.hpp and server/protocol.hpp (reassembly, the connection's states);
      the command handler is the class [handler].
    - Crypt, Nsca: libs/nscpcrypt/nscpcrypt.cpp, include/net/nsca, modules/NSCAServer.
    - Collectd, CollectdLaws: include/net/collectd/collectd_packet.hpp and .cpp, and a receiver.
    - AllowedHosts: include/net/socket/allowed_hosts.hpp and .cpp, over [asio].
    - RateLimit: include/net/auth_rate_limiter.hpp, the clock as an argument.
    - ArgvQuote: include/process/argv_quote.cpp (command lines of scripts on Windows).

    Core
    - Permissions: service/permissions.hpp (policy, glob matcher) and
      plugin_manager::load_permissions, over the class [settings_store] whose reads may throw.
    - Registry: service/commands.hpp and the listener lists of service/plugins/plugin_list.hpp.
    - Dispatch: plugin_manager::execute_query over the registry and the policy; modules are the
      class [modules].
    - CoreStores, FactRepository: service/failed_check_store.hpp, tag_repository.hpp and
      fact_repository.hpp.
    - SimpleIni: include/simpleini/simpleini.h, the text of INI files and the data read from it.
    - Settings, SettingsIni: include/settings/settings_interface_impl.hpp over [backend], and the
      backend of INI files, include/settings/impl/settings_ini.hpp, with the laws the store
      relies on: [in_memory] while an agent runs, [on_disk] when its files are read anew.
    - Cron, Scheduler: include/parsers/cron/cron_parser.hpp over [calendar], and
      include/scheduler/simple_scheduler.cpp with modules/Scheduler on top, as a step relation.

    Checks
    - RegexGuard, Where, WhereTypes, WhereLogic: the filter language
      (include/parsers/where/*, include/parsers/operators.cpp), evaluated in a monad that carries
      errors, the regular expression budget and exceptions; type inference and the theorems.
    - Filter: where/engine.cpp, filter_handler_impl.hpp and parsers/filter/modern_filter.hpp.
    - AccessPolicy, PathPolicy: include/check (what a caller may make a check read).
    - PerfData, PerfDataRoundtrip: include/parsers/perfdata.hpp and
      nscapi/protobuf/functions_perfdata.cpp.
    - Samples: the sample stores (rrd_buffer.hpp, sampling_state.hpp, trend/trend_buffer.hpp).
    - LogFile, LogRecords, LogFileLaws: modules/CheckLogFile.

    Fleet
    - FactsPacer, FleetSync, FleetPacing: include/onboarding/facts_pacer.hpp and the answers,
      uploads and sleeps of service/fleet_sync.cpp; the clock readings are arguments.
    - DesiredState, DesiredStateLaws: libs/onboarding/sync.cpp (the server's desired state, merged
      configurations, their INI text) and the signed bytes of verify.cpp, over [JsonLib].
    - FleetTrust, FleetTrustLaws: verify.cpp, bundle_crypto.cpp, the renewal of sync.cpp and the
      manifest of state.cpp, over [FleetCrypto].
    - FleetApply, FleetAgent: [apply_state] of fleet_sync.cpp: the swap of the files as a step
      relation with its recovery, and the staging from the download to fleet.ini.

    Checkmk and metrics
    - CheckMk, CheckMkLaws: include/net/check_mk: packets and both ends of a connection; the packet
      a script makes is an argument.
    - MetricsStore: include/nscapi/nscapi_metrics_helper.hpp (how a module declares a metric) and
      include/metrics/metrics_store_map.cpp (the last snapshot).

    HTTP client
    - HttpWire, HttpWireLaws: include/net/http: requests and forms, responses, chunked bodies, URLs
      and proxies; a body is the list of the pieces the socket gave.

    Web server
    - Base64, PasswordHash, WebTokens, WebAuth: encodings, stored passwords, sessions, grants and
      who may call the API (modules/WEBServer/session_manager_interface.cpp).
    - ResultStore, ResultStoreLaws, EventStore: the cache of passive results and its routes,
      and the events kept for clients (modules/WEBServer).
    - OpenMetrics, OpenMetricsLaws: include/metrics/openmetrics_parser.cpp; OpenMetricsRender,
      OpenMetricsRoundtrip, OpenMetricsExposition: modules/WEBServer/openmetrics_renderer.cpp and
      what the parser reads back.

    ** What the theorems show

    - Wire: serialise and decode are inverse (NRPE 2, 3 and 4, NSCA, Base64, command lines,
      performance data, metrics expositions, stored sessions and positions); decoders accept only
      checksummed packets of bounded size; input cut anywhere is reassembled; a collectd receiver
      gets exactly the value lists of a snapshot; every finite double is read back from its text.
    - Authorisation: only what the policy allows for the caller's subject reaches a module; a
      failed load of the policy fails closed; the gates of file and value arguments refine their
      specification; API access needs a live session, a valid token or a password that is not
      locked out.
    - State: registry, stores, limiter, repositories and caches keep their invariants under every
      operation; the settings in INI files behave as a map, and what is saved is read back by
      the next agent; no problem that recovers between two polls of the result cache goes unseen while
      results do not expire by age.
    - Time: the next run of a schedule is the earliest match; a task never runs twice at once and,
      while a next time can be computed, never stops being scheduled; stopping drains the pool.
    - Filter language: type inference terminates within the height of the expression; a sure
      verdict computed without a row holds for every row; every row is judged once and the
      verdict is never better than the worst row.
    - Logs: a line of a growing file is reported once when no limit on lines is set; limits only
      shorten the reading.
    - Fleet: nothing unsigned reaches the disk, and a signature covers one bundle of one tenant; the
      signing key moves only when endorsed; the last document that names a setting decides it; an
      interrupted apply restarts from whole trees; a server cannot draw one document of facts over
      and over, and no wait outlasts a day.
    - HTTP: a chunked body is its data, a cut one a beginning of it, and no body exceeds its limit;
      forms, responses and proxy URLs are read back as they were written.
    - Checkmk and metrics: a packet arrives as it was written over any fragmentation, its lines split
      at blanks; the store of metrics holds what the last message says.

    The files also hold statements about what the code does where a comment or a document says
    otherwise, each with a concrete input (for example [WhereLogic.convert_drops_no_value],
    [AllowedHosts.oversized_mask_opens_or_throws], [LogFileLaws.Demo.half_written_line_is_split],
    [DesiredStateLaws.key_can_look_like_a_section]).

    ** Interfaces

    Code outside the repository is a class with the facts the code relies on as its laws, and an
    instance that discharges them where a theorem needs one ([backend] and [lawful] are between
    two parts of the repository, and the INI files are their instances): [handler], [settings_store],
    [modules], [calendar], [asio], [regex_engine], [boost_regex], [regex_groups], [cryptopp],
    [openssl], [sha256], [runtime], [protobuf], [sample_type], [real], [clock], [backend] with
    [lawful] and [durable], [installation], [lexical_int], [lexical_double], [JsonLib] with [JsonLaws], [FleetCrypto] with
    [FleetCryptoLaws].  The file system, random bytes, clock readings and
    the outcome of a lock with a time-out are arguments.

    ** Loops and fuel

    A loop that is not structural takes fuel and is shown to have enough: the glob matcher
    [glob_fuel] ([glob_impl_correct]), [on_read] the length of the chunk
    ([nrpe_on_read_total]), [digest_v3] the length of the input, [queue_loop] the number of
    queued responses ([nrpe_connection_finishes]), [scan] of Cron 70 values, more than any field
    has, [infer_type] the height of the expression ([infer_total]), [paren_scan] and the string
    loops the length of the text ([replace_correct], [split_trimmed_correct]), the parsers of
    Expression and PerfData the length of the text ([parse_loop_fuel], [perf_loop_fuel]),
    [evict_loop] the number of entries ([evict_size]), the scale of a decimal the 330 powers of
    ten a double spans ([exponent10_spec]), the labels of OpenMetrics the length of the line
    ([labels_loop_plain]), the readers of LogFile the length of the file ([tail_loop_spec],
    [leading_loop_spec], [capped_loop_spec], [lines_of_spec]).
    [chunk_loop] of HttpWire has the length of the body ([chunk_loop_fuel]), [options_loop] of
    CheckMk the length of the header ([options_joined]).
    The readers of SimpleIni have the length of the text ([load_comment_items],
    [load_entries_items]).  [decimal_digits] has the twenty digits of a 64-bit number
    ([decimal_digits_value]).

    ** What is not modelled

    The Boost.Spirit grammar that produces expressions: theorems speak of every expression tree.
    Of the filter language, keywords with two types, functions and converters a module registers,
    warnings and message rendering.  Logging is left out throughout.  Locks: a method that holds
    its mutex for its whole body is one function on the state.  Sockets, TLS, the other
    settings backends, the script hosts, the web server's routing and JSON, the collectors of
    the check modules (they read the operating system), the installers and vendored code are not modelled:
    what they do is calls into libraries and the system, with little logic of their own. *)

From stdpp Require Import base list strings.
From Stdlib Require Import ZArith Lia.

Declare Scope nscp_scope.
Delimit Scope nscp_scope with nscp.

(** ** Fallible code

    A C++ function that may throw is a function into [result E A]: [Ok a] is a
    normal return, [Throw e] an exception of the component's error type. *)

Inductive result (E A : Type) : Type :=
| Ok (a : A)
| Throw (e : E).
Arguments Ok {E A} _.
Arguments Throw {E A} _.

Definition rbind {E A B} (m : result E A) (k : A -> result E B) : result E B :=
  match m with
  | Ok a => k a
  | Throw e => Throw e
  end.

Notation "'let*' x ':=' m 'in' k" := (rbind m (fun x => k))
  (at level 10, x pattern, m at level 100, k at level 200) : nscp_scope.
Notation "'guard!' c 'else' e 'in' k" := (if c then k else Throw e)
  (at level 10, c at level 100, e at level 100, k at level 200) : nscp_scope.
Open Scope nscp_scope.

Definition is_ok {E A} (m : result E A) : bool :=
  match m with Ok _ => true | Throw _ => false end.

Lemma rbind_Ok_inv {E A B} (m : result E A) (k : A -> result E B) b :
  rbind m k = Ok b -> exists a, m = Ok a /\ k a = Ok b.
Proof. destruct m; simpl; [eauto | discriminate]. Qed.

(** ** Machine integers

    A w-bit integer is a [Z]; conversions that the source performs, implicitly
    or with a cast, are written with [wrap_u] (unsigned) and [wrap_s] (signed,
    two's complement). *)

Definition wrap_u (w z : Z) : Z := (z mod 2 ^ w)%Z.
Definition wrap_s (w z : Z) : Z := ((z + 2 ^ (w - 1)) mod 2 ^ w - 2 ^ (w - 1))%Z.

Definition in_u (w z : Z) : Prop := (0 <= z < 2 ^ w)%Z.
Definition in_s (w z : Z) : Prop := (- 2 ^ (w - 1) <= z < 2 ^ (w - 1))%Z.

#[global] Instance in_u_dec w z : Decision (in_u w z).
Proof. unfold in_u. apply _. Defined.
#[global] Instance in_s_dec w z : Decision (in_s w z).
Proof. unfold in_s. apply _. Defined.

Section Words.
Local Open Scope Z_scope.

Lemma wrap_u_range w z : 0 <= w -> in_u w (wrap_u w z).
Proof. intros. apply Z.mod_pos_bound. apply Z.pow_pos_nonneg; lia. Qed.

Lemma wrap_u_id w z : in_u w z -> wrap_u w z = z.
Proof. apply Z.mod_small. Qed.

Lemma pow_half w : 0 < w -> 2 ^ w = 2 * 2 ^ (w - 1).
Proof. intros. rewrite <- Z.pow_succ_r by lia. f_equal; lia. Qed.

Lemma wrap_s_range w z : 0 < w -> in_s w (wrap_s w z).
Proof.
  intros Hw. unfold in_s, wrap_s.
  pose proof (pow_half w Hw).
  assert (0 < 2 ^ w) by (apply Z.pow_pos_nonneg; lia).
  pose proof (Z.mod_pos_bound (z + 2 ^ (w - 1)) (2 ^ w) ltac:(lia)). lia.
Qed.

Lemma wrap_s_id w z : 0 < w -> in_s w z -> wrap_s w z = z.
Proof.
  unfold in_s, wrap_s. intros Hw ?.
  pose proof (pow_half w Hw). rewrite Z.mod_small; lia.
Qed.

(** The bits of a signed value, read back as signed. *)
Lemma wrap_s_u w z : 0 < w -> in_s w z -> wrap_s w (wrap_u w z) = z.
Proof.
  intros Hw Hz. rewrite <- (wrap_s_id w z) at 2 by assumption.
  unfold wrap_s, wrap_u. rewrite Zplus_mod_idemp_l. reflexivity.
Qed.

Lemma wrap_u_s w z : 0 < w -> wrap_u w (wrap_s w z) = wrap_u w z.
Proof.
  intros Hw. unfold wrap_s, wrap_u.
  rewrite Zminus_mod_idemp_l. f_equal. lia.
Qed.
End Words.

(** ** Automation *)

Create HintDb nscp.
Create Rewrite HintDb nscp.
#[export] Hint Resolve wrap_u_range wrap_s_range : nscp.
#[export] Hint Rewrite @length_app @length_replicate @length_take @length_drop : nscp.

(** Case analysis on the outermost conditional or match of the goal. *)
Ltac case_if :=
  match goal with
  | |- context [if ?b then _ else _] => destruct b eqn:?
  end.
Ltac case_if_in H :=
  match type of H with
  | context [if ?b then _ else _] => destruct b eqn:?
  end.

(** Turn boolean tests on [Z], [nat] and connectives into propositions. *)
Ltac breflect :=
  repeat match goal with
  | H : andb _ _ = true |- _ => apply andb_prop in H; destruct H
  | H : andb _ _ = false |- _ => apply andb_false_iff in H
  | H : orb _ _ = true |- _ => apply orb_prop in H
  | H : orb _ _ = false |- _ => apply orb_false_iff in H; destruct H
  | H : negb _ = true |- _ => apply negb_true_iff in H
  | H : negb _ = false |- _ => apply negb_false_iff in H
  | H : Z.eqb _ _ = true |- _ => apply Z.eqb_eq in H
  | H : Z.eqb _ _ = false |- _ => apply Z.eqb_neq in H
  | H : Z.ltb _ _ = true |- _ => apply Z.ltb_lt in H
  | H : Z.ltb _ _ = false |- _ => apply Z.ltb_ge in H
  | H : Z.leb _ _ = true |- _ => apply Z.leb_le in H
  | H : Z.leb _ _ = false |- _ => apply Z.leb_gt in H
  | H : Z.geb _ _ = _ |- _ => rewrite Z.geb_leb in H
  | H : Z.gtb _ _ = _ |- _ => rewrite Z.gtb_ltb in H
  | H : Nat.eqb _ _ = true |- _ => apply Nat.eqb_eq in H
  | H : Nat.eqb _ _ = false |- _ => apply Nat.eqb_neq in H
  | H : Nat.ltb _ _ = true |- _ => apply Nat.ltb_lt in H
  | H : Nat.ltb _ _ = false |- _ => apply Nat.ltb_ge in H
  | H : Nat.leb _ _ = true |- _ => apply Nat.leb_le in H
  | H : Nat.leb _ _ = false |- _ => apply Nat.leb_gt in H
  end.

(** Invert a chain of [let*]s and [guard!]s that ends in [Ok]. *)
Ltac inv_ok :=
  repeat match goal with
  | H : rbind _ _ = Ok _ |- _ =>
      let x := fresh "x" in let H1 := fresh "Hok" in
      apply rbind_Ok_inv in H; destruct H as (x & H1 & H)
  | H : (if ?b then _ else Throw _) = Ok _ |- _ =>
      let Hb := fresh "Hg" in destruct b eqn:Hb; [| discriminate H]
  | H : Ok _ = Ok _ |- _ => injection H as H
  | H : Throw _ = Ok _ |- _ => discriminate H
  end.

(** A decidable closed proposition, by evaluating its decision. *)
Ltac vm_decide := refine (bool_decide_eq_true_1 _ _); vm_compute; reflexivity.

(** Size of a container as the [std::size_t] the source computes with. *)
Definition zlength {A} (l : list A) : Z := Z.of_nat (length l).

Lemma zlength_nonneg {A} (l : list A) : (0 <= zlength l)%Z.
Proof. unfold zlength. lia. Qed.
Lemma zlength_app {A} (l k : list A) : zlength (l ++ k) = (zlength l + zlength k)%Z.
Proof. unfold zlength. rewrite length_app. lia. Qed.
Lemma zlength_replicate {A} n (x : A) : zlength (replicate n x) = Z.of_nat n.
Proof. unfold zlength. by rewrite length_replicate. Qed.
Lemma zlength_cons {A} x (l : list A) : zlength (x :: l) = (1 + zlength l)%Z.
Proof. unfold zlength. simpl. lia. Qed.
#[export] Hint Rewrite @zlength_app @zlength_replicate @zlength_cons : nscp.

(** ** Text

    A [std::string] of text is a [list ascii]; [str "..."] is a literal. *)

Abbreviation cppstring := (list Ascii.ascii).
Definition str (s : String.string) : cppstring := String.list_ascii_of_string s.
#[global] Arguments str s%_string_scope.

Definition ch (n : nat) : Ascii.ascii := Ascii.ascii_of_nat n.

(** [s.c_str()] read as a C string: the characters before the first NUL. *)
Fixpoint c_str (s : cppstring) : cppstring :=
  match s with
  | [] => []
  | c :: s' => if bool_decide (c = Ascii.zero) then [] else c :: c_str s'
  end.

(** [std::tolower] in the "C" locale, and [boost::algorithm::to_lower_copy],
    which applies it to every character. *)
Definition tolower (c : Ascii.ascii) : Ascii.ascii :=
  let n := Ascii.nat_of_ascii c in
  if (Nat.leb 65 n && Nat.leb n 90)%bool then Ascii.ascii_of_nat (n + 32) else c.
Definition to_lower (s : cppstring) : cppstring := map tolower s.

(** [s.find(c) != npos] *)
Definition has_char (c : Ascii.ascii) (s : cppstring) : bool := bool_decide (c ∈ s).

Lemma to_lower_app s t : to_lower (s ++ t) = to_lower s ++ to_lower t.
Proof. apply map_app. Qed.
Lemma length_to_lower s : length (to_lower s) = length s.
Proof. apply length_map. Qed.

Lemma c_str_id s : Ascii.zero ∉ s -> c_str s = s.
Proof.
  induction s as [|c s IH]; simpl; [done|]. intros Hn.
  apply not_elem_of_cons in Hn as [Hc Hs].
  rewrite bool_decide_eq_false_2 by congruence. by rewrite IH.
Qed.

(** Lower-casing neither creates nor removes a character outside [A-Za-z]. *)
Lemma tolower_special c d :
  (forall n, n = Ascii.nat_of_ascii d -> n < 65 \/ 122 < n \/ 90 < n < 97)%nat -> tolower c = d <-> c = d.
Proof.
  intros Hd. specialize (Hd _ eq_refl). unfold tolower.
  destruct (Nat.leb 65 (Ascii.nat_of_ascii c) && Nat.leb (Ascii.nat_of_ascii c) 90)%bool eqn:E; [|done].
  apply andb_prop in E as [E1 E2]. apply Nat.leb_le in E1, E2.
  assert (Hn : Ascii.nat_of_ascii (Ascii.ascii_of_nat (Ascii.nat_of_ascii c + 32)) = Ascii.nat_of_ascii c + 32)
    by (apply Ascii.nat_ascii_embedding; lia).
  split; intros Heq; exfalso; subst; lia.
Qed.

Lemma elem_of_to_lower d s :
  (forall n, n = Ascii.nat_of_ascii d -> n < 65 \/ 122 < n \/ 90 < n < 97)%nat -> d ∈ to_lower s <-> d ∈ s.
Proof.
  intros Hd. unfold to_lower. rewrite list_elem_of_fmap. split.
  - intros (c & Hc & Hin). symmetry in Hc. apply (tolower_special c d Hd) in Hc. by subst c.
  - intros Hin. exists d. split; [|done]. symmetry. by apply tolower_special.
Qed.
