(* ===== verification/Bytes.v ===== *)
(** Wire bytes: byte buffers, big-endian fields, C strings in fixed buffers,
    and the CRC-32 of include/bytes/crc32.cpp that the NRPE and NSCA packets
    carry.

    A [char] buffer is a [list byte]; a [std::string] on the wire side is one
    too.  A store through a packed-struct pointer is [write_at]: the field's
    offset and the bytes the store leaves in memory.  [native_to_big] followed
    by a store leaves the big-endian bytes of the value, [be_bytes]. *)

From stdpp Require Import base list.
From coqutil Require Import Byte Word.LittleEndianList.
From Stdlib Require Import ZArith Lia.
From S2P Require Import Prelude.
Local Open Scope Z_scope.

Abbreviation byte := Byte.byte.
Abbreviation x00 := Byte.x00.

(** ** Big-endian fields *)

Definition be_bytes (n : nat) (v : Z) : list byte := rev (le_split n v).
Definition be_value (bs : list byte) : Z := le_combine (rev bs).

Lemma length_be_bytes n v : length (be_bytes n v) = n.
Proof. unfold be_bytes. by rewrite length_rev, length_le_split. Qed.

Lemma be_value_be_bytes n v : be_value (be_bytes n v) = wrap_u (Z.of_nat n * 8) v.
Proof. unfold be_value, be_bytes. rewrite rev_involutive. apply le_combine_split. Qed.

Lemma be_value_range bs : 0 <= be_value bs < 2 ^ (8 * zlength bs).
Proof.
  unfold be_value, zlength. rewrite <- (length_rev bs). apply le_combine_bound.
Qed.

(** ** Buffers *)

(** [memcpy(&buf[off], bs, bs.size())], inside the buffer. *)
Definition write_at (off : nat) (bs buf : list byte) : list byte :=
  take off buf ++ bs ++ drop (off + length bs) buf.

Definition read_at (off n : nat) (buf : list byte) : list byte := take n (drop off buf).

(** A big-endian field at an offset, converted to native. *)
Definition be_int16 (off : nat) (buf : list byte) : Z := wrap_s 16 (be_value (read_at off 2 buf)).
Definition be_int32 (off : nat) (buf : list byte) : Z := wrap_s 32 (be_value (read_at off 4 buf)).
Definition be_uint32 (off : nat) (buf : list byte) : Z := be_value (read_at off 4 buf).

Lemma length_write_at off bs buf :
  (off + length bs <= length buf)%nat -> length (write_at off bs buf) = length buf.
Proof.
  intros. unfold write_at. rewrite !length_app, length_take, length_drop. lia.
Qed.

Lemma read_write_same off bs buf :
  (off + length bs <= length buf)%nat -> read_at off (length bs) (write_at off bs buf) = bs.
Proof.
  intros. unfold read_at, write_at.
  rewrite drop_app_length' by (rewrite length_take; lia).
  by rewrite take_app_length.
Qed.

Lemma read_write_eq off n bs buf :
  length bs = n -> (off + n <= length buf)%nat -> read_at off n (write_at off bs buf) = bs.
Proof. intros <-. apply read_write_same. Qed.

Lemma read_write_prefix off n a b buf :
  length a = n -> (off + length (a ++ b) <= length buf)%nat ->
  read_at off n (write_at off (a ++ b) buf) = a.
Proof.
  intros <- H. unfold read_at, write_at. rewrite drop_app_length' by (rewrite length_take; lia).
  rewrite <- app_assoc. apply take_app_length.
Qed.

Lemma read_write_disjoint off n o bs buf :
  (o + length bs <= length buf)%nat ->
  (off + n <= o \/ o + length bs <= off)%nat ->
  read_at off n (write_at o bs buf) = read_at off n buf.
Proof.
  intros Hlen Hdis. apply list_eq. intros i. unfold read_at, write_at.
  destruct (decide (i < n)%nat) as [Hi|Hi].
  2: { rewrite !lookup_take_ge by lia. done. }
  rewrite !lookup_take_lt, !lookup_drop by lia.
  destruct Hdis.
  - rewrite lookup_app_l by (rewrite length_take; lia). by rewrite lookup_take_lt by lia.
  - rewrite app_assoc, lookup_app_r by (rewrite length_app, length_take; lia).
    rewrite lookup_drop. f_equal. rewrite length_app, length_take. lia.
Qed.

Lemma length_read_at off n buf :
  (off + n <= length buf)%nat -> length (read_at off n buf) = n.
Proof. intros. unfold read_at. rewrite length_take, length_drop. lia. Qed.

Lemma read_at_app_l off n buf junk :
  (off + n <= length buf)%nat -> read_at off n (buf ++ junk) = read_at off n buf.
Proof.
  intros. unfold read_at. rewrite drop_app_le by lia.
  rewrite take_app_le by (rewrite length_drop; lia). done.
Qed.

Lemma read_at_app_r n m a buf :
  length a = n -> read_at n m (a ++ buf) = take m buf.
Proof. intros <-. unfold read_at. by rewrite drop_app_length. Qed.

Lemma write_write_same off bs bs' buf :
  length bs = length bs' -> (off + length bs <= length buf)%nat ->
  write_at off bs' (write_at off bs buf) = write_at off bs' buf.
Proof.
  intros Hl Hb. unfold write_at.
  rewrite take_app_le by (rewrite length_take; lia).
  rewrite take_take, Nat.min_id. do 2 f_equal.
  rewrite app_assoc, drop_app_ge by (rewrite length_app, length_take; lia).
  rewrite drop_drop, length_app, length_take. f_equal. lia.
Qed.

Lemma write_read_id off n buf :
  (off + n <= length buf)%nat -> write_at off (read_at off n buf) buf = buf.
Proof.
  intros. unfold write_at. rewrite length_read_at by done.
  unfold read_at. rewrite <- drop_drop.
  by rewrite take_drop, take_drop.
Qed.

Lemma take_write_at k off bs buf :
  (off + length bs <= k)%nat -> (k <= length buf)%nat ->
  take k (write_at off bs buf) = write_at off bs (take k buf).
Proof.
  intros H1 H2. unfold write_at.
  rewrite take_take, Nat.min_l by lia.
  rewrite (take_app_ge (take off buf)) by (rewrite length_take; lia).
  f_equal. rewrite length_take, Nat.min_l by lia.
  rewrite take_app_ge by lia. f_equal.
  rewrite take_drop_commute. f_equal. f_equal. lia.
Qed.

(** ** C strings *)

(** The bytes before the first NUL: what [strlen] and [strncpy] see. *)
Fixpoint cstr (s : list byte) : list byte :=
  match s with
  | [] => []
  | c :: s' => if Byte.eqb c x00 then [] else c :: cstr s'
  end.

(** [strncpy(dst, s, n)]: the C string, zero-padded or cut to [n] bytes. *)
Definition strncpy (s : list byte) (n : nat) : list byte :=
  take n (cstr s ++ replicate n x00).

(** [std::string(data, strnlen(data, len))]. *)
Definition strn (data : list byte) (len : nat) : list byte := cstr (take len data).

Definition no_nul (s : list byte) : Prop := Forall (fun c => c <> x00) s.

#[global] Instance byte_eq_dec : EqDecision byte := Byte.byte_eq_dec.
#[global] Instance no_nul_dec s : Decision (no_nul s).
Proof. unfold no_nul. apply _. Defined.

Lemma cstr_length s : (length (cstr s) <= length s)%nat.
Proof. induction s; simpl; [lia|]. case_if; simpl; lia. Qed.

Lemma cstr_no_nul s : no_nul (cstr s).
Proof.
  induction s as [|c s IH]; simpl; [constructor|].
  destruct (Byte.eqb c x00) eqn:E; [constructor|].
  constructor; [|done]. intros ->. discriminate.
Qed.

Lemma cstr_id s : no_nul s -> cstr s = s.
Proof.
  induction 1 as [|c s Hc Hs IH]; simpl; [done|].
  destruct (Byte.eqb c x00) eqn:E; [|by rewrite IH].
  by apply Byte.byte_dec_bl in E.
Qed.

Lemma cstr_app_nul s t : no_nul s -> cstr (s ++ x00 :: t) = s.
Proof.
  induction 1 as [|c s Hc Hs IH]; simpl; [done|].
  destruct (Byte.eqb c x00) eqn:E; [|by rewrite IH].
  by apply Byte.byte_dec_bl in E.
Qed.

Lemma length_strncpy s n : length (strncpy s n) = n.
Proof. unfold strncpy. rewrite length_take, length_app, length_replicate. lia. Qed.

Lemma strncpy_no_nul s : no_nul s -> strncpy s (length s) = s.
Proof. intros. unfold strncpy. by rewrite cstr_id, take_app_length. Qed.

Lemma strn_app_nul s t n :
  no_nul s -> (length s < n)%nat -> strn (s ++ x00 :: t) n = s.
Proof.
  intros Hs Hn. unfold strn. rewrite take_app_ge by lia.
  destruct (n - length s)%nat eqn:E; [lia|]. simpl. by apply cstr_app_nul.
Qed.

Lemma strn_exact s t : no_nul s -> strn (s ++ t) (length s) = s.
Proof. intros. unfold strn. rewrite take_app_length. by apply cstr_id. Qed.

(** ** CRC-32 (include/bytes/crc32.cpp) *)

Definition crc32_step (crc : Z) : Z :=
  if Z.testbit crc 0 then Z.lxor (Z.shiftr crc 1) 0xEDB88320 else Z.shiftr crc 1.

Fixpoint iter_crc (n : nat) (crc : Z) : Z :=
  match n with O => crc | S n' => iter_crc n' (crc32_step crc) end.

Definition make_crc32_table : list Z := map (fun i => iter_crc 8 (Z.of_nat i)) (seq 0 256).
Definition crc32_table : list Z := Eval vm_compute in make_crc32_table.

Definition crc32_update (crc : Z) (c : byte) : Z :=
  Z.lxor (Z.land (Z.shiftr crc 8) 0x00FFFFFF)
         (nth (Z.to_nat (Z.land (Z.lxor crc (byte.unsigned c)) 0xFF)) crc32_table 0).

(** [calculate_crc32(buffer, size)], over the first [size] bytes. *)
Definition calculate_crc32 (buffer : list byte) (size : nat) : Z :=
  Z.lxor (fold_left crc32_update (take size buffer) 0xFFFFFFFF) 0xFFFFFFFF.

(** The bit-serial definition of the reflected CRC-32 the table abbreviates. *)
Definition crc32_bits (crc : Z) (c : byte) : Z := iter_crc 8 (Z.lxor crc (byte.unsigned c)).
Definition crc32_spec (bs : list byte) : Z :=
  Z.lxor (fold_left crc32_bits bs 0xFFFFFFFF) 0xFFFFFFFF.

(** *** The table-driven loop computes the bit-serial CRC *)

Lemma crc32_step_lxor a b : crc32_step (Z.lxor a b) = Z.lxor (crc32_step a) (crc32_step b).
Proof.
  unfold crc32_step. rewrite Z.lxor_spec, Z.shiftr_lxor.
  set (P := 0xEDB88320).
  destruct (Z.testbit a 0), (Z.testbit b 0); simpl xorb; cbn iota;
    apply Z.bits_inj'; intros n _; rewrite !Z.lxor_spec;
    destruct (Z.testbit (Z.shiftr a 1) n), (Z.testbit (Z.shiftr b 1) n), (Z.testbit P n); done.
Qed.

Lemma iter_crc_lxor n a b : iter_crc n (Z.lxor a b) = Z.lxor (iter_crc n a) (iter_crc n b).
Proof.
  revert a b. induction n as [|n IH]; intros; simpl; [done|].
  by rewrite crc32_step_lxor, IH.
Qed.

Lemma iter_crc_shift n x : iter_crc n (Z.shiftl x (Z.of_nat n)) = x.
Proof.
  induction n as [|n IH]; simpl iter_crc; [apply Z.shiftl_0_r|].
  unfold crc32_step. rewrite Z.shiftl_spec_low by lia. cbn iota.
  rewrite Z.shiftr_shiftl_l by lia.
  replace (Z.of_nat (S n) - 1) with (Z.of_nat n) by lia. apply IH.
Qed.

Lemma crc32_table_nth i : 0 <= i < 256 -> nth (Z.to_nat i) crc32_table 0 = iter_crc 8 i.
Proof.
  intros Hi. change crc32_table with make_crc32_table. unfold make_crc32_table.
  rewrite (nth_indep _ 0 (iter_crc 8 (Z.of_nat 0))) by (rewrite length_map, length_seq; lia).
  rewrite (map_nth (fun j => iter_crc 8 (Z.of_nat j)) (seq 0 256) 0%nat (Z.to_nat i)).
  rewrite seq_nth by lia. f_equal. lia.
Qed.

Lemma split_low_byte x : x = Z.lxor (Z.shiftl (Z.shiftr x 8) 8) (Z.land x 0xFF).
Proof.
  apply Z.bits_inj'. intros n Hn.
  rewrite Z.lxor_spec, Z.land_spec. change 0xFF with (Z.ones 8).
  destruct (Z.ltb_spec n 8).
  - rewrite Z.shiftl_spec_low by lia. rewrite Z.ones_spec_low by lia. by destruct (Z.testbit x n).
  - rewrite Z.shiftl_spec_high by lia. rewrite Z.shiftr_spec, Z.ones_spec_high by lia.
    replace (n - 8 + 8) with n by lia. by destruct (Z.testbit x n).
Qed.

Lemma land_ff_range x : 0 <= Z.land x 0xFF < 256.
Proof. change 0xFF with (Z.ones 8). rewrite Z.land_ones by lia. apply Z.mod_pos_bound. lia. Qed.

Lemma shiftr_lxor_byte x (c : byte) : Z.shiftr (Z.lxor x (byte.unsigned c)) 8 = Z.shiftr x 8.
Proof.
  rewrite Z.shiftr_lxor. pose proof (byte.unsigned_range c).
  rewrite (Z.shiftr_div_pow2 (byte.unsigned c)), Z.div_small by lia. apply Z.lxor_0_r.
Qed.

Lemma lxor_range w a b : 0 <= w -> 0 <= a < 2 ^ w -> 0 <= b < 2 ^ w -> 0 <= Z.lxor a b < 2 ^ w.
Proof.
  intros Hw Ha Hb. rewrite <- (Z.mod_small a (2 ^ w)), <- (Z.mod_small b (2 ^ w)) by lia.
  rewrite <- !Z.land_ones by lia.
  replace (Z.lxor (Z.land a (Z.ones w)) (Z.land b (Z.ones w))) with (Z.land (Z.lxor a b) (Z.ones w)).
  - rewrite Z.land_ones by lia. apply Z.mod_pos_bound. lia.
  - apply Z.bits_inj'. intros n _. rewrite Z.land_spec, !Z.lxor_spec, !Z.land_spec.
    by destruct (Z.testbit a n), (Z.testbit b n), (Z.testbit (Z.ones w) n).
Qed.

Lemma crc32_step_range x : in_u 32 x -> in_u 32 (crc32_step x).
Proof.
  unfold in_u, crc32_step. intros Hx.
  assert (0 <= Z.shiftr x 1 < 2 ^ 32).
  { rewrite Z.shiftr_div_pow2 by lia. change (2 ^ 1) with 2.
    pose proof (Z.div_pos x 2 ltac:(lia) ltac:(lia)).
    pose proof (Z.div_le_upper_bound x 2 x ltac:(lia) ltac:(lia)). lia. }
  case_if; [|done]. apply lxor_range; lia.
Qed.

Lemma iter_crc_range n x : in_u 32 x -> in_u 32 (iter_crc n x).
Proof. revert x. induction n; intros; simpl; auto using crc32_step_range. Qed.

Lemma crc32_bits_range crc c : in_u 32 crc -> in_u 32 (crc32_bits crc c).
Proof.
  intros. apply iter_crc_range. pose proof (byte.unsigned_range c).
  apply lxor_range; unfold in_u in *; lia.
Qed.

Lemma crc32_update_bits crc c : in_u 32 crc -> crc32_update crc c = crc32_bits crc c.
Proof.
  intros Hc. unfold crc32_update, crc32_bits.
  rewrite (split_low_byte (Z.lxor crc (byte.unsigned c))) at 2.
  rewrite iter_crc_lxor, (iter_crc_shift 8), shiftr_lxor_byte. f_equal.
  - change 0x00FFFFFF with (Z.ones 24). rewrite Z.land_ones by lia. apply Z.mod_small.
    unfold in_u in Hc. rewrite Z.shiftr_div_pow2 by lia. split.
    + apply Z.div_pos; lia.
    + apply Z.div_lt_upper_bound; lia.
  - apply crc32_table_nth, land_ff_range.
Qed.

Lemma crc32_fold bs crc :
  in_u 32 crc ->
  fold_left crc32_update bs crc = fold_left crc32_bits bs crc /\
  in_u 32 (fold_left crc32_bits bs crc).
Proof.
  revert crc. induction bs as [|c bs IH]; intros crc Hc; simpl; [done|].
  rewrite crc32_update_bits by done. apply IH, crc32_bits_range, Hc.
Qed.

Lemma calculate_crc32_spec buf n : calculate_crc32 buf n = crc32_spec (take n buf).
Proof.
  unfold calculate_crc32, crc32_spec. f_equal. apply crc32_fold. unfold in_u. lia.
Qed.

Lemma calculate_crc32_range buf n : in_u 32 (calculate_crc32 buf n).
Proof.
  rewrite calculate_crc32_spec. unfold crc32_spec.
  apply lxor_range; [lia| |lia]. apply crc32_fold. unfold in_u. lia.
Qed.

Lemma calculate_crc32_take buf n k :
  (n <= k)%nat -> calculate_crc32 (take k buf) n = calculate_crc32 buf n.
Proof. intros. rewrite !calculate_crc32_spec, take_take. by rewrite Nat.min_l by lia. Qed.
#[export] Hint Resolve calculate_crc32_range : nscp.

(** The table-driven CRC-32 loop equals the bit-serial reflected CRC-32 over the same bytes, for
    every buffer and length, and its value always fits 32 bits. *)
Theorem crc32_table_correct (buf : list byte) (n : nat) :
  calculate_crc32 buf n = crc32_spec (take n buf) /\ in_u 32 (calculate_crc32 buf n).
Proof. split; [apply calculate_crc32_spec | apply calculate_crc32_range]. Qed.

(** The check value of the CRC-32 standard: the digits "123456789". *)
Example crc32_check_value :
  calculate_crc32 (map (fun i => byte.of_Z (48 + Z.of_nat i)) (seq 1 9)) 9 = 0xCBF43926.
Proof. vm_compute. reflexivity. Qed.

(** *** Reading fields out of buffers built by [write_at] *)

Lemma read_at_take off n k buf :
  (off + n <= k)%nat -> read_at off n (take k buf) = read_at off n buf.
Proof.
  intros. unfold read_at. rewrite skipn_firstn_comm, take_take. f_equal. lia.
Qed.

Lemma write_at_noop off bs buf :
  read_at off (length bs) buf = bs -> (off + length bs <= length buf)%nat -> write_at off bs buf = buf.
Proof. intros H ?. rewrite <- H at 1. by apply write_read_id. Qed.

(** A sequence of stores, and a read of one of them that the later ones do not touch. *)
Fixpoint write_all (ws : list (nat * list byte)) (buf : list byte) : list byte :=
  match ws with [] => buf | (off, bs) :: ws' => write_all ws' (write_at off bs buf) end.
Definition fits (n : nat) (w : nat * list byte) : Prop := (w.1 + length w.2 <= n)%nat.
Definition apart (off n : nat) (w : nat * list byte) : Prop := (off + n <= w.1 \/ w.1 + length w.2 <= off)%nat.

Lemma length_write_all ws : forall buf, Forall (fits (length buf)) ws -> length (write_all ws buf) = length buf.
Proof.
  induction ws as [|[off bs] ws IH]; intros buf Hf; [done|]. apply Forall_cons in Hf as [Hw Hf]. cbn [write_all].
  unfold fits in Hw. cbn in Hw. rewrite IH; rewrite length_write_at by done; done.
Qed.

Lemma read_write_all_apart ws off n : forall buf, Forall (fits (length buf)) ws -> Forall (apart off n) ws ->
  read_at off n (write_all ws buf) = read_at off n buf.
Proof.
  induction ws as [|[o bs] ws IH]; intros buf Hf Ha; [done|]. apply Forall_cons in Hf as [Hw Hf], Ha as [Hx Ha].
  unfold fits, apart in *. cbn in *. rewrite IH by (rewrite ?length_write_at by done; done). by apply read_write_disjoint.
Qed.

Lemma read_write_all ws1 off bs ws2 buf : Forall (fits (length buf)) (ws1 ++ (off, bs) :: ws2) ->
  Forall (apart off (length bs)) ws2 -> read_at off (length bs) (write_all (ws1 ++ (off, bs) :: ws2) buf) = bs.
Proof.
  revert buf. induction ws1 as [|[o cs] ws1 IH]; intros buf Hf Ha; cbn [app] in *; apply Forall_cons in Hf as [Hw Hf];
    unfold fits in Hw; cbn in Hw; cbn [write_all].
  - rewrite read_write_all_apart; [by apply read_write_same | by rewrite length_write_at | done].
  - apply IH; [by rewrite length_write_at | done].
Qed.

(** Length of a nest of in-range writes. *)
Ltac blen :=
  repeat first
    [ rewrite length_be_bytes | rewrite length_strncpy | rewrite length_replicate
    | rewrite length_app | rewrite length_take | rewrite length_drop
    | rewrite length_write_at by blen ];
  simpl length in *; lia.

(** Resolve a read of a buffer built by a nest of writes. *)
Ltac rd :=
  repeat first
    [ rewrite read_write_eq by blen
    | rewrite read_write_disjoint by blen
    | rewrite read_at_take by blen ].
