(* ===== verification/NrpePacket.v ===== *)
(** The NRPE wire packet: include/net/nrpe/packet.hpp.

    [packet] is the class's state; [create_buffer] the serialiser with its v2
    and v3/v4 forms, [readFrom] the decoder.  Sizes are [std::size_t] (64 bits,
    arithmetic wraps), fields are stored big-endian, and the host is little
    endian (this only shows in the value [create_buffer] leaves in [crc32_]). *)

From stdpp Require Import base list.
From coqutil Require Import Byte Word.LittleEndianList.
From Stdlib Require Import ZArith Lia.
From S2P Require Import Prelude Bytes.
Local Open Scope Z_scope.

Module data.
Definition unknownPacket : Z := 0.
Definition queryPacket : Z := 1.
Definition responsePacket : Z := 2.
Definition moreResponsePacket : Z := 3.
Definition version2 : Z := 2.
Definition version3 : Z := 3.
Definition version4 : Z := 4.
Definition buffer_offset_v2 : nat := 10.
Definition buffer_offset_v3 : nat := 16.
(** Offsets and sizes of the packed structs: [packet_v2] ends in two bytes of
    padding, [packet_v3] in [buffer[1]] and three. *)
Definition off_version : nat := 0.
Definition off_type : nat := 2.
Definition off_crc32 : nat := 4.
Definition off_result : nat := 8.
Definition off_alignment : nat := 10.
Definition off_buffer_length : nat := 12.
Definition sizeof_packet_header : Z := 4.
Definition sizeof_packet_v2 : Z := 12.
Definition sizeof_packet_v3 : Z := 20.
End data.

Module length_.
Definition get_packet_length_v2 (payload_length : Z) : Z := wrap_u 64 (data.sizeof_packet_v2 + payload_length).
Definition get_packet_length_v3 (payload_length : Z) : Z := wrap_u 64 (data.sizeof_packet_v3 + payload_length - 1).
Definition get_packet_length_v4 (payload_length : Z) : Z := wrap_u 64 (data.sizeof_packet_v3 + payload_length - 4).
Definition get_payload_length (packet_length : Z) : Z :=
  if packet_length <? data.sizeof_packet_v2 then 0 else packet_length - data.sizeof_packet_v2.
End length_.

Inductive nrpe_exception :=
| NoBuffer
| PacketTooShort (len min : Z)
| InvalidPacketLength (len expected : Z)
| InvalidPacketType (t : Z)
| InvalidPacketVersion (v : Z)
| InvalidChecksum (crc calculated : Z)
| NegativePayloadLength (n : Z)
| InvalidLengthSpecified (n : Z)
| TooMuchData
| InvalidNrpeVersion (v : Z).

Record packet := mkPacket {
  payload_length_ : Z;
  type_ : Z;
  version_ : Z;
  result_ : Z;
  payload_ : list byte;
  crc32_ : Z;
  calculatedCRC32_ : Z
}.

Definition with_crc32 (c : Z) (p : packet) : packet :=
  mkPacket (payload_length_ p) (type_ p) (version_ p) (result_ p) (payload_ p) c (calculatedCRC32_ p).

(** ** Constructors *)

Definition empty_packet (payload_length : Z) : packet := mkPacket payload_length 0 0 0 [] 0 0.

Definition new_packet (type version result : Z) (payload : list byte) (payload_length : Z) : packet :=
  mkPacket payload_length type version result payload 0 0.

Definition unknown_response (message : list byte) : packet :=
  new_packet data.responsePacket data.version2 3 message 0.

Definition make_request (payload : list byte) (buffer_length version : Z) : result nrpe_exception packet :=
  if negb (version =? 2) && negb (version =? 4) then Throw (InvalidNrpeVersion version)
  else Ok (new_packet data.queryPacket version (-1) payload buffer_length).

Definition create_response (version ret : Z) (s : list byte) (buffer_length : Z) : packet :=
  new_packet data.responsePacket (wrap_s 16 version) (wrap_s 16 ret) s buffer_length.

Definition create_more_response (ret : Z) (s : list byte) (buffer_length : Z) : packet :=
  new_packet data.moreResponsePacket data.version2 (wrap_s 16 ret) s buffer_length.

(** ** Serialising *)

(** [strncpy(data, payload.c_str(), payload.length()); data[payload.length()] = 0;] *)
Definition update_payload (off : nat) (payload buf : list byte) : list byte :=
  write_at off (strncpy payload (length payload) ++ [x00]) buf.

(** [x = native_to_big(v)] as an integer of a little-endian host. *)
Definition native_to_big (n : nat) (v : Z) : Z := le_combine (be_bytes n v).

(** Zero the checksum field, compute the checksum over the packet, store it. *)
Definition store_crc32 (packet_length : nat) (buf : list byte) : Z * list byte :=
  let buf := write_at data.off_crc32 (be_bytes 4 0) buf in
  let crc := wrap_u 32 (calculate_crc32 buf packet_length) in
  (native_to_big 4 crc, write_at data.off_crc32 (be_bytes 4 crc) buf).

Definition create_buffer_v2 (p : packet) : result nrpe_exception (list byte * packet) :=
  let packet_length := Z.to_nat (length_.get_packet_length_v2 (payload_length_ p)) in
  let buf := replicate (packet_length + 1) x00 in
  let buf := write_at data.off_result (be_bytes 2 (result_ p)) buf in
  let buf := write_at data.off_type (be_bytes 2 (type_ p)) buf in
  let buf := write_at data.off_version (be_bytes 2 (version_ p)) buf in
  if payload_length_ p <=? zlength (payload_ p) then Throw TooMuchData
  else
    let buf := update_payload data.buffer_offset_v2 (payload_ p) buf in
    let '(crc, buf) := store_crc32 packet_length buf in
    Ok (take packet_length buf, with_crc32 crc p).

Definition create_buffer_v3 (p : packet) : result nrpe_exception (list byte * packet) :=
  let len := zlength (payload_ p) in
  let packet_length :=
    Z.to_nat (if version_ p =? data.version3 then length_.get_packet_length_v3 len
              else length_.get_packet_length_v4 len) in
  let buf := replicate (packet_length + 1) x00 in
  let buf := write_at data.off_result (be_bytes 2 (result_ p)) buf in
  let buf := write_at data.off_type (be_bytes 2 (type_ p)) buf in
  let buf := write_at data.off_version (be_bytes 2 (version_ p)) buf in
  let buf := write_at data.off_alignment (be_bytes 2 0) buf in
  let buf := write_at data.off_buffer_length (be_bytes 4 (wrap_s 32 len)) buf in
  let buf := update_payload data.buffer_offset_v3 (payload_ p) buf in
  let '(crc, buf) := store_crc32 packet_length buf in
  Ok (take packet_length buf, with_crc32 crc p).

Definition create_buffer (p : packet) : result nrpe_exception (list byte * packet) :=
  if version_ p =? data.version2 then create_buffer_v2 p else create_buffer_v3 p.

Definition get_buffer (p : packet) : result nrpe_exception (list byte) :=
  let* bp := create_buffer p in Ok (fst bp).

(** ** Decoding *)

(** [strnlen] bounded by [packet_length - offset]. *)
Definition fetch_payload (off : nat) (buf : list byte) (packet_length : nat) : list byte :=
  strn (drop off buf) (packet_length - off).

Definition known_type (t : Z) : bool :=
  (t =? data.queryPacket) || (t =? data.responsePacket) || (t =? data.moreResponsePacket).

Definition readFromV2 (p : packet) (buf : list byte) (len : nat) : result nrpe_exception packet :=
  let expected := length_.get_packet_length_v2 (payload_length_ p) in
  if negb (Z.of_nat len =? expected) then Throw (InvalidPacketLength (Z.of_nat len) expected) else
  let type := be_int16 data.off_type buf in
  if negb (known_type type) then Throw (InvalidPacketType type) else
  let version := be_int16 data.off_version buf in
  if negb (version =? data.version2) then Throw (InvalidPacketVersion version) else
  let crc32 := be_uint32 data.off_crc32 buf in
  let tb := write_at data.off_crc32 (be_bytes 4 0) (take len buf) in
  let calculated := wrap_u 32 (calculate_crc32 tb (Z.to_nat expected)) in
  if negb (crc32 =? calculated) then Throw (InvalidChecksum crc32 calculated) else
  Ok (mkPacket (payload_length_ p) type version (be_int16 data.off_result buf)
        (fetch_payload data.buffer_offset_v2 buf len) crc32 calculated).

Definition readFromV3 (p : packet) (buf : list byte) (len : nat) : result nrpe_exception packet :=
  if Z.of_nat len <? Z.of_nat data.buffer_offset_v3
  then Throw (InvalidPacketLength (Z.of_nat len) (Z.of_nat data.buffer_offset_v3)) else
  let type := be_int16 data.off_type buf in
  if negb (known_type type) then Throw (InvalidPacketType type) else
  let version := be_int16 data.off_version buf in
  if negb (version =? data.version3) && negb (version =? data.version4)
  then Throw (InvalidPacketVersion version) else
  let raw_payload_length := be_int32 data.off_buffer_length buf in
  if raw_payload_length <? 0 then Throw (NegativePayloadLength raw_payload_length) else
  let payload_length := raw_payload_length in
  if 1024 * 1024 <? payload_length then Throw (InvalidLengthSpecified payload_length) else
  let source_data_length :=
    if version =? data.version4 then length_.get_packet_length_v4 payload_length
    else length_.get_packet_length_v3 payload_length in
  if Z.of_nat len <? source_data_length
  then Throw (InvalidPacketLength (Z.of_nat len) source_data_length) else
  let crc32 := be_uint32 data.off_crc32 buf in
  let tb := write_at data.off_crc32 (be_bytes 4 0) (take len buf) in
  let tb := write_at data.off_alignment (be_bytes 2 0) tb in
  let calculated := wrap_u 32 (calculate_crc32 tb (Z.to_nat source_data_length)) in
  if negb (crc32 =? calculated) then Throw (InvalidChecksum crc32 calculated) else
  Ok (mkPacket (payload_length_ p) type version (be_int16 data.off_result buf)
        (fetch_payload data.buffer_offset_v3 buf (data.buffer_offset_v3 + Z.to_nat payload_length))
        crc32 calculated).

(** [buf] is the memory behind the pointer ([None] for a null one), [len] the
    number of bytes of it the caller vouches for. *)
Definition readFrom (p : packet) (buf : option (list byte)) (len : nat) : result nrpe_exception packet :=
  match buf with
  | None => Throw NoBuffer
  | Some buf =>
      if Z.of_nat len <? data.sizeof_packet_header
      then Throw (PacketTooShort (Z.of_nat len) data.sizeof_packet_header) else
      let version := be_int16 data.off_version buf in
      if (version =? data.version3) || (version =? data.version4)
      then readFromV3 p buf len else readFromV2 p buf len
  end.

(** [packet(std::vector<char> buffer, payload_length)] *)
Definition packet_of_vector (buffer : list byte) (payload_length : Z) : result nrpe_exception packet :=
  readFrom (empty_packet payload_length) (Some (buffer ++ [x00])) (length buffer).

(** [packet(const char* buffer, buffer_length)] *)
Definition packet_of_pointer (buffer : option (list byte)) (buffer_length : nat) : result nrpe_exception packet :=
  if Z.of_nat buffer_length <? data.sizeof_packet_v2
  then Throw (PacketTooShort (Z.of_nat buffer_length) data.sizeof_packet_v2)
  else readFrom (empty_packet (length_.get_payload_length (Z.of_nat buffer_length))) buffer buffer_length.

Definition verifyCRC (p : packet) : bool := calculatedCRC32_ p =? crc32_ p.

(** ** Round trip *)

(** What a packet must satisfy to survive the wire: a known type, a version the
    decoder knows, a 16-bit result, and a payload that is a C string within the
    version's limit. *)
Definition serialisable (p : packet) : Prop :=
  known_type (type_ p) = true /\ in_s 16 (result_ p) /\ no_nul (payload_ p) /\
  ((version_ p = data.version2 /\ zlength (payload_ p) < payload_length_ p < 2 ^ 32) \/
   ((version_ p = data.version3 \/ version_ p = data.version4) /\ zlength (payload_ p) <= 1024 * 1024)).

Lemma store_crc32_spec n buf crc out :
  store_crc32 n buf = (crc, out) -> (8 <= length buf)%nat ->
  length out = length buf /\
  write_at data.off_crc32 (be_bytes 4 0) out = write_at data.off_crc32 (be_bytes 4 0) buf /\
  read_at data.off_crc32 4 out =
    be_bytes 4 (wrap_u 32 (calculate_crc32 (write_at data.off_crc32 (be_bytes 4 0) buf) n)) /\
  (forall off k, (off + k <= 4 \/ 8 <= off)%nat -> read_at off k out = read_at off k buf).
Proof.
  unfold store_crc32, data.off_crc32. intros H Hb. injection H as <- <-.
  set (C := wrap_u 32 _). repeat split.
  - blen.
  - by rewrite !write_write_same by blen.
  - by rd.
  - intros off k Hd. rewrite !read_write_disjoint by (rewrite ?length_be_bytes; blen). done.
Qed.

Lemma be_int16_bytes off v buf :
  in_s 16 v -> read_at off 2 buf = be_bytes 2 v -> be_int16 off buf = v.
Proof.
  intros Hv H. unfold be_int16. rewrite H, be_value_be_bytes. by apply wrap_s_u.
Qed.

Lemma be_int32_bytes off v buf :
  in_s 32 v -> read_at off 4 buf = be_bytes 4 v -> be_int32 off buf = v.
Proof.
  intros Hv H. unfold be_int32. rewrite H, be_value_be_bytes. by apply wrap_s_u.
Qed.

Lemma be_uint32_bytes off v buf :
  in_u 32 v -> read_at off 4 buf = be_bytes 4 v -> be_uint32 off buf = v.
Proof.
  intros Hv H. unfold be_uint32. rewrite H, be_value_be_bytes. by apply wrap_u_id.
Qed.

Lemma known_type_range t : known_type t = true -> in_s 16 t.
Proof.
  unfold known_type, in_s, data.queryPacket, data.responsePacket, data.moreResponsePacket.
  intros H. destruct (t =? 1) eqn:E1, (t =? 2) eqn:E2, (t =? 3) eqn:E3; simpl in H;
    breflect; try lia; done.
Qed.

(** The layout of a serialised v2 packet. *)
Lemma create_buffer_v2_layout p buf p' :
  create_buffer_v2 p = Ok (buf, p') -> 0 <= payload_length_ p < 2 ^ 32 ->
  let n := (12 + Z.to_nat (payload_length_ p))%nat in
  length buf = n /\
  read_at data.off_version 2 buf = be_bytes 2 (version_ p) /\
  read_at data.off_type 2 buf = be_bytes 2 (type_ p) /\
  read_at data.off_result 2 buf = be_bytes 2 (result_ p) /\
  read_at data.off_crc32 4 buf =
    be_bytes 4 (wrap_u 32 (calculate_crc32 (write_at data.off_crc32 (be_bytes 4 0) buf) n)) /\
  read_at data.buffer_offset_v2 (length (payload_ p) + 1) buf =
    strncpy (payload_ p) (length (payload_ p)) ++ [x00].
Proof.
  intros H Hpl n. unfold create_buffer_v2 in H.
  assert (HL : Z.to_nat (length_.get_packet_length_v2 (payload_length_ p)) = n).
  { unfold length_.get_packet_length_v2, data.sizeof_packet_v2. rewrite wrap_u_id; unfold in_u; lia. }
  rewrite HL in H. case_if_in H; [done|]. breflect.
  destruct (store_crc32 _ _) as [crc out] eqn:Hs. injection H as <- <-.
  assert (Hp : (length (payload_ p) < Z.to_nat (payload_length_ p))%nat) by (unfold zlength in *; lia).
  assert (Hu : (data.buffer_offset_v2 + length (strncpy (payload_ p) (length (payload_ p)) ++ [x00]) <= n)%nat).
  { rewrite length_app, length_strncpy. simpl. lia. }
  unfold update_payload in Hs. set (pay := strncpy _ _ ++ [x00]) in *.
  assert (Hpay : length pay = (length (payload_ p) + 1)%nat) by (subst pay; blen).
  unfold data.off_result, data.off_type, data.off_version, data.buffer_offset_v2 in *.
  pose proof (store_crc32_spec _ _ _ _ Hs ltac:(subst n; blen)) as (Hlen & Hz & Hc & Hrd).
  assert (Hlen' : length out = (n + 1)%nat) by (rewrite Hlen; subst n; blen).
  assert (Hz' : write_at data.off_crc32 (be_bytes 4 0) (take n out) =
                take n (write_at data.off_crc32 (be_bytes 4 0) out))
    by (rewrite take_write_at; [done | simpl; subst n; lia | lia]).
  rewrite Hz', Hz, calculate_crc32_take by lia.
  rewrite !read_at_take by (subst n; unfold data.off_crc32; lia).
  rewrite Hc, !Hrd by lia. subst n. repeat split; try (rd; done). blen.
Qed.

Definition wire_length_v3 (version len : Z) : Z :=
  if version =? data.version3 then len + 19 else len + 16.

Lemma packet_length_v3_eq version len :
  0 <= len < 2 ^ 32 ->
  (if version =? data.version3 then length_.get_packet_length_v3 len else length_.get_packet_length_v4 len)
  = wire_length_v3 version len.
Proof.
  intros. unfold length_.get_packet_length_v3, length_.get_packet_length_v4, wire_length_v3, data.sizeof_packet_v3.
  case_if; rewrite wrap_u_id; unfold in_u; lia.
Qed.

Lemma create_buffer_v3_layout p buf p' :
  create_buffer_v3 p = Ok (buf, p') -> zlength (payload_ p) < 2 ^ 31 ->
  let n := Z.to_nat (wire_length_v3 (version_ p) (zlength (payload_ p))) in
  length buf = n /\
  read_at data.off_version 2 buf = be_bytes 2 (version_ p) /\
  read_at data.off_type 2 buf = be_bytes 2 (type_ p) /\
  read_at data.off_result 2 buf = be_bytes 2 (result_ p) /\
  read_at data.off_alignment 2 buf = be_bytes 2 0 /\
  read_at data.off_buffer_length 4 buf = be_bytes 4 (zlength (payload_ p)) /\
  read_at data.off_crc32 4 buf =
    be_bytes 4 (wrap_u 32 (calculate_crc32 (write_at data.off_crc32 (be_bytes 4 0) buf) n)) /\
  read_at data.buffer_offset_v3 (length (payload_ p)) buf = strncpy (payload_ p) (length (payload_ p)).
Proof.
  intros H Hpl n. unfold create_buffer_v3 in H. pose proof (zlength_nonneg (payload_ p)) as H0.
  rewrite packet_length_v3_eq in H by lia. fold n in H.
  rewrite (wrap_s_id 32) in H by (unfold in_s; lia).
  destruct (store_crc32 _ _) as [crc out] eqn:Hs. injection H as <- <-.
  assert (Hn : (length (payload_ p) + 16 <= n)%nat).
  { subst n. unfold wire_length_v3, zlength. case_if; lia. }
  unfold update_payload in Hs. set (sp := strncpy _ _) in *.
  assert (Hsp : length sp = length (payload_ p)) by (subst sp; blen).
  unfold data.off_result, data.off_type, data.off_version, data.buffer_offset_v3, data.off_alignment,
    data.off_buffer_length in *.
  pose proof (store_crc32_spec _ _ _ _ Hs ltac:(blen)) as (Hlen & Hz & Hc & Hrd).
  assert (Hlen' : length out = (n + 1)%nat) by (rewrite Hlen; blen).
  assert (Hz' : write_at data.off_crc32 (be_bytes 4 0) (take n out) =
                take n (write_at data.off_crc32 (be_bytes 4 0) out))
    by (rewrite take_write_at; [done | simpl; lia | lia]).
  rewrite Hz', Hz, calculate_crc32_take by lia.
  rewrite !read_at_take by (unfold data.off_crc32; lia).
  rewrite Hc, !Hrd by lia. repeat split; try (rd; done); [blen|].
  apply read_write_prefix; [done | blen].
Qed.

(** The fields of the decoded packet are those of the serialised one. *)
Definition same_packet (p q : packet) : Prop :=
  type_ q = type_ p /\ version_ q = version_ p /\ result_ q = result_ p /\ payload_ q = payload_ p.

Lemma drop_payload off n pay buf :
  read_at off n buf = pay -> length pay = n -> exists rest, drop off buf = pay ++ rest.
Proof.
  intros H Hl. exists (drop n (drop off buf)). rewrite <- H. unfold read_at. by rewrite take_drop.
Qed.

(** The decoder reads nothing past the length it is given. *)
Lemma be_fields_app off buf junk :
  (off + 4 <= length buf)%nat ->
  be_int16 off (buf ++ junk) = be_int16 off buf /\ be_int32 off (buf ++ junk) = be_int32 off buf /\
  be_uint32 off (buf ++ junk) = be_uint32 off buf.
Proof. intros. unfold be_int16, be_int32, be_uint32. by rewrite !read_at_app_l by lia. Qed.

Lemma fetch_payload_app off buf junk n :
  (n <= length buf)%nat -> fetch_payload off (buf ++ junk) n = fetch_payload off buf n.
Proof.
  intros. unfold fetch_payload, strn. f_equal.
  destruct (decide (off <= length buf)%nat).
  - rewrite drop_app_le, take_app_le by (rewrite ?length_drop; lia). done.
  - replace (n - off)%nat with 0%nat by lia. done.
Qed.

Lemma readFromV2_app p buf junk len :
  (12 <= len <= length buf)%nat -> readFromV2 p (buf ++ junk) len = readFromV2 p buf len.
Proof.
  intros. unfold readFromV2, data.off_type, data.off_version, data.off_crc32, data.off_result.
  destruct (be_fields_app 2 buf junk) as (-> & _ & _); [lia|].
  destruct (be_fields_app 0 buf junk) as (-> & _ & _); [lia|].
  destruct (be_fields_app 8 buf junk) as (-> & _ & _); [lia|].
  destruct (be_fields_app 4 buf junk) as (_ & _ & ->); [lia|].
  by rewrite take_app_le, fetch_payload_app by lia.
Qed.

Lemma readFromV3_app p buf junk len :
  (len <= length buf)%nat -> readFromV3 p (buf ++ junk) len = readFromV3 p buf len.
Proof.
  intros Hle. unfold readFromV3. case_if; [done|]. breflect.
  unfold data.off_type, data.off_version, data.off_crc32, data.off_result, data.off_buffer_length,
    data.buffer_offset_v3 in *.
  destruct (be_fields_app 2 buf junk) as (-> & _ & _); [lia|].
  destruct (be_fields_app 0 buf junk) as (-> & _ & _); [lia|].
  destruct (be_fields_app 8 buf junk) as (-> & _ & _); [lia|].
  destruct (be_fields_app 12 buf junk) as (_ & -> & _); [lia|].
  destruct (be_fields_app 4 buf junk) as (_ & _ & ->); [lia|].
  rewrite take_app_le by lia.
  destruct (negb (known_type _)); [done|]. destruct (negb _ && negb _) eqn:Ev; [done|].
  destruct (Z.ltb_spec (be_int32 12 buf) 0); [done|].
  destruct (Z.ltb_spec (1024 * 1024) (be_int32 12 buf)); [done|].
  set (src := if be_int16 0 buf =? data.version4 then _ else _).
  destruct (Z.ltb_spec (Z.of_nat len) src); [done|].
  rewrite fetch_payload_app; [done|].
  enough (16 + be_int32 12 buf <= src) by lia. subst src.
  unfold length_.get_packet_length_v4, length_.get_packet_length_v3, data.sizeof_packet_v3.
  case_if; rewrite wrap_u_id; unfold in_u; lia.
Qed.

Lemma packet_of_vector_V3 buf pl :
  (4 <= length buf)%nat ->
  (be_int16 data.off_version buf = data.version3 \/ be_int16 data.off_version buf = data.version4) ->
  packet_of_vector buf pl = readFromV3 (empty_packet pl) buf (length buf).
Proof.
  intros Hb Hv. unfold packet_of_vector, readFrom.
  destruct (be_fields_app data.off_version buf [x00]) as (-> & _ & _); [simpl; lia|].
  rewrite readFromV3_app by lia. unfold data.sizeof_packet_header.
  replace (Z.of_nat (length buf) <? 4) with false by (symmetry; apply Z.ltb_ge; lia).
  by destruct Hv as [-> | ->].
Qed.

Lemma packet_of_vector_V2 buf pl :
  (12 <= length buf)%nat -> be_int16 data.off_version buf = data.version2 ->
  packet_of_vector buf pl = readFromV2 (empty_packet pl) buf (length buf).
Proof.
  intros Hb Hv. unfold packet_of_vector, readFrom.
  destruct (be_fields_app data.off_version buf [x00]) as (-> & _ & _); [simpl; lia|].
  rewrite readFromV2_app by lia. unfold data.sizeof_packet_header.
  replace (Z.of_nat (length buf) <? 4) with false by (symmetry; apply Z.ltb_ge; lia).
  by rewrite Hv.
Qed.

Lemma read_vector_v2 p buf p' :
  serialisable p -> version_ p = data.version2 -> create_buffer_v2 p = Ok (buf, p') ->
  exists q, packet_of_vector buf (payload_length_ p) = Ok q /\ same_packet p q /\ verifyCRC q = true.
Proof.
  intros (Ht & Hr & Hn & [[Hv Hl]|[[Hv|Hv] _]]) Hv2 Hc; try (rewrite Hv in Hv2; discriminate).
  pose proof (zlength_nonneg (payload_ p)) as H0.
  destruct (create_buffer_v2_layout _ _ _ Hc ltac:(lia)) as (Hlen & Rv & Rt & Rr & Rc & Rp).
  rewrite Hv in Rv. apply be_int16_bytes in Rv; [|done].
  rewrite packet_of_vector_V2 by (done || lia). unfold readFromV2. simpl payload_length_.
  apply be_int16_bytes in Rt, Rr; auto using known_type_range.
  apply be_uint32_bytes in Rc; [|by apply wrap_u_range].
  rewrite Rv, Rt, Rr, Rc, Ht, firstn_all, <- Hlen.
  assert (HL : length_.get_packet_length_v2 (payload_length_ p) = Z.of_nat (length buf)).
  { unfold length_.get_packet_length_v2, data.sizeof_packet_v2. rewrite wrap_u_id; unfold in_u; lia. }
  rewrite HL, Nat2Z.id, !Z.eqb_refl. simpl negb. cbn iota.
  eexists. split; [reflexivity|]. unfold same_packet, verifyCRC. simpl.
  repeat split; [by rewrite Hv | | apply Z.eqb_refl].
  unfold fetch_payload. destruct (drop_payload _ _ _ _ Rp) as [rest Hd]; [blen|]. rewrite Hd.
  rewrite strncpy_no_nul, <- !app_assoc by done.
  apply strn_app_nul; [done|]. unfold zlength, data.buffer_offset_v2 in *. lia.
Qed.

Lemma read_vector_v3 p buf p' pl :
  serialisable p -> version_ p <> data.version2 -> create_buffer_v3 p = Ok (buf, p') ->
  exists q, packet_of_vector buf pl = Ok q /\ same_packet p q /\ verifyCRC q = true.
Proof.
  intros (Ht & Hr & Hn & [[Hv _]|[Hv Hl]]) Hv2 Hc; [done|].
  pose proof (zlength_nonneg (payload_ p)) as H0.
  destruct (create_buffer_v3_layout _ _ _ Hc ltac:(lia)) as (Hlen & Rv & Rt & Rr & Ra & Rl & Rc & Rp).
  assert (Hwl : Z.of_nat (length buf) = wire_length_v3 (version_ p) (zlength (payload_ p))).
  { rewrite Hlen. unfold wire_length_v3. case_if; lia. }
  assert (Hge : zlength (payload_ p) + 16 <= Z.of_nat (length buf)).
  { rewrite Hwl. unfold wire_length_v3. case_if; lia. }
  apply be_int16_bytes in Rv; [|destruct Hv as [-> | ->]; done].
  rewrite packet_of_vector_V3 by (rewrite ?Rv; auto; lia). unfold readFromV3. simpl payload_length_.
  apply be_int16_bytes in Rt, Rr; auto using known_type_range.
  apply be_int32_bytes in Rl; [|unfold in_s; lia].
  apply be_uint32_bytes in Rc; [|by apply wrap_u_range].
  assert (Hver : (version_ p =? data.version3) || (version_ p =? data.version4) = true)
    by (destruct Hv as [-> | ->]; reflexivity).
  assert (Hsrc : (if version_ p =? data.version4 then length_.get_packet_length_v4 (zlength (payload_ p))
                  else length_.get_packet_length_v3 (zlength (payload_ p))) = Z.of_nat (length buf)).
  { rewrite Hwl, <- packet_length_v3_eq by lia. destruct Hv as [-> | ->]; reflexivity. }
  rewrite Rv, Rt, Rr, Rl, Rc, Ht, firstn_all, <- negb_orb, Hver, Hsrc, Nat2Z.id, Z.ltb_irrefl.
  rewrite !(proj2 (Z.ltb_ge _ _)) by (unfold data.buffer_offset_v3; lia). simpl negb. cbn iota.
  rewrite (write_at_noop data.off_alignment) by
    (rewrite length_be_bytes; (rewrite read_write_disjoint;
       [done | |]) || idtac; unfold data.off_crc32, data.off_alignment; blen).
  rewrite <- Hlen, Z.eqb_refl. simpl negb. cbn iota.
  eexists. split; [reflexivity|]. unfold same_packet, verifyCRC. simpl type_. simpl payload_.
  repeat split; [|apply Z.eqb_refl].
  unfold fetch_payload. destruct (drop_payload _ _ _ _ Rp) as [rest Hd]; [blen|]. rewrite Hd.
  rewrite strncpy_no_nul by done.
  set (k := (_ - data.buffer_offset_v3)%nat).
  assert (k = length (payload_ p)) as -> by (subst k; unfold zlength, data.buffer_offset_v3; lia).
  by apply strn_exact.
Qed.

Lemma create_buffer_total p :
  serialisable p -> exists buf p', create_buffer p = Ok (buf, p').
Proof.
  intros (_ & _ & _ & Hv). unfold create_buffer.
  destruct (version_ p =? data.version2) eqn:E; breflect.
  - destruct Hv as [[_ Hl]|[[Hv|Hv] _]]; [|rewrite Hv in E; discriminate..].
    unfold create_buffer_v2. rewrite (proj2 (Z.leb_gt _ _)) by lia.
    destruct (store_crc32 _ _). eauto.
  - unfold create_buffer_v3. destruct (store_crc32 _ _). eauto.
Qed.

(** C3. Every serialisable NRPE packet (known type, version 2, 3 or 4, 16-bit result, a payload
    without NUL within the version limit) is encoded by get_buffer into bytes that the decoder
    accepts, giving back the same type, version, result and payload with a matching checksum. *)
Theorem nrpe_roundtrip (p : packet) :
  serialisable p ->
  exists buf q, get_buffer p = Ok buf /\ packet_of_vector buf (payload_length_ p) = Ok q /\
                same_packet p q /\ verifyCRC q = true.
Proof.
  intros Hp. destruct (create_buffer_total p Hp) as (buf & p' & Hc).
  exists buf. unfold get_buffer. rewrite Hc. simpl.
  unfold create_buffer in Hc. destruct (version_ p =? data.version2) eqn:E; breflect.
  - destruct (read_vector_v2 p buf p' Hp E Hc) as (q & ? & ? & ?). eauto 6.
  - destruct (read_vector_v3 p buf p' (payload_length_ p) Hp E Hc) as (q & ? & ? & ?). eauto 6.
Qed.

Lemma nrpe_roundtrip_witness :
  exists buf q, get_buffer (new_packet 1 2 0 [Byte.x5f; Byte.x4e] 1024) = Ok buf /\
    packet_of_vector buf 1024 = Ok q /\
    same_packet (new_packet 1 2 0 [Byte.x5f; Byte.x4e] 1024) q /\ verifyCRC q = true.
Proof.
  apply (nrpe_roundtrip (new_packet 1 2 0 [Byte.x5f; Byte.x4e] 1024)).
  unfold serialisable. repeat split; try (compute; congruence).
  - repeat constructor; discriminate.
  - left. repeat split; reflexivity.
Defined.

(** ** What the decoder accepts *)

(** The bytes the checksum of an accepted packet covers, with the checksum (and
    for v3/v4 the alignment) field zeroed. *)
Definition covered_v2 (buf : list byte) : list byte :=
  write_at data.off_crc32 (be_bytes 4 0) buf.
Definition covered_v3 (version : Z) (buf : list byte) : list byte :=
  write_at data.off_alignment (be_bytes 2 0)
    (write_at data.off_crc32 (be_bytes 4 0)
       (take (Z.to_nat (wire_length_v3 version (be_int32 data.off_buffer_length buf))) buf)).

Lemma readFromV3_inv p buf len q :
  readFromV3 p buf len = Ok q -> (len <= length buf)%nat ->
  let n := be_int32 data.off_buffer_length buf in
  let v := be_int16 data.off_version buf in
  (v = data.version3 \/ v = data.version4) /\ version_ q = v /\
  known_type (type_ q) = true /\ 0 <= n <= 1024 * 1024 /\ wire_length_v3 v n <= Z.of_nat len /\
  crc32_ q = crc32_spec (covered_v3 v buf) /\ verifyCRC q = true /\
  q = mkPacket (payload_length_ p) (be_int16 data.off_type buf) v (be_int16 data.off_result buf)
        (fetch_payload data.buffer_offset_v3 buf (data.buffer_offset_v3 + Z.to_nat n))
        (be_uint32 data.off_crc32 buf) (crc32_spec (covered_v3 v buf)).
Proof.
  intros H Hle n v. unfold readFromV3 in H. fold n v in H.
  case_if_in H; [done|]. destruct (negb (known_type _)) eqn:Et; [done|].
  destruct (negb (v =? _) && negb (v =? _)) eqn:Ev; [done|].
  destruct (n <? 0) eqn:En; [done|]. destruct (1024 * 1024 <? n) eqn:En2; [done|].
  assert (Hv : v = data.version3 \/ v = data.version4).
  { apply andb_false_iff in Ev. destruct Ev; breflect; auto. }
  breflect.
  assert (Hsrc : (if v =? data.version4 then length_.get_packet_length_v4 n
                  else length_.get_packet_length_v3 n) = wire_length_v3 v n).
  { rewrite <- packet_length_v3_eq by lia. destruct Hv as [-> | ->]; reflexivity. }
  rewrite Hsrc in H. destruct (Z.of_nat len <? _) eqn:El; [done|].
  assert (Hw : 16 <= wire_length_v3 v n) by (unfold wire_length_v3; case_if; lia).
  breflect. rewrite wrap_u_id in H by apply calculate_crc32_range.
  rewrite calculate_crc32_spec in H.
  rewrite !take_write_at, take_take, Nat.min_l in H by
    (unfold data.off_alignment, data.off_crc32; blen).
  fold (covered_v3 v buf) in H.
  destruct (negb (_ =? crc32_spec _)) eqn:Ec; [done|]. breflect.
  injection H as <-. unfold verifyCRC. simpl.
  rewrite Ec, Z.eqb_refl. by rewrite Et.
Qed.

Lemma readFromV3_intro p buf len :
  let n := be_int32 data.off_buffer_length buf in
  let v := be_int16 data.off_version buf in
  (v = data.version3 \/ v = data.version4) ->
  known_type (be_int16 data.off_type buf) = true -> 0 <= n <= 1024 * 1024 ->
  wire_length_v3 v n <= Z.of_nat len -> (len <= length buf)%nat ->
  be_uint32 data.off_crc32 buf = crc32_spec (covered_v3 v buf) ->
  readFromV3 p buf len =
  Ok (mkPacket (payload_length_ p) (be_int16 data.off_type buf) v (be_int16 data.off_result buf)
        (fetch_payload data.buffer_offset_v3 buf (data.buffer_offset_v3 + Z.to_nat n))
        (be_uint32 data.off_crc32 buf) (crc32_spec (covered_v3 v buf))).
Proof.
  intros n v Hv Ht Hn Hw Hle Hc. unfold readFromV3. fold n v.
  assert (H16 : 16 <= wire_length_v3 v n) by (unfold wire_length_v3; case_if; lia).
  assert (Hsrc : (if v =? data.version4 then length_.get_packet_length_v4 n
                  else length_.get_packet_length_v3 n) = wire_length_v3 v n).
  { rewrite <- packet_length_v3_eq by lia. destruct Hv as [-> | ->]; reflexivity. }
  assert (Hver : negb (v =? data.version3) && negb (v =? data.version4) = false)
    by (destruct Hv as [-> | ->]; reflexivity).
  rewrite Hsrc, Hver, Ht, !(proj2 (Z.ltb_ge _ _)) by (unfold data.buffer_offset_v3; lia).
  simpl negb. cbn iota.
  rewrite wrap_u_id by apply calculate_crc32_range. rewrite calculate_crc32_spec.
  rewrite !take_write_at, take_take, Nat.min_l by
    (unfold data.off_alignment, data.off_crc32; blen).
  fold (covered_v3 v buf). by rewrite Hc, Z.eqb_refl.
Qed.

Lemma readFromV2_inv p buf len q :
  readFromV2 p buf len = Ok q ->
  Z.of_nat len = length_.get_packet_length_v2 (payload_length_ p) /\
  version_ q = data.version2 /\ known_type (type_ q) = true /\ verifyCRC q = true /\
  crc32_ q = crc32_spec (take len (covered_v2 (take len buf))) /\
  payload_ q = fetch_payload data.buffer_offset_v2 buf len.
Proof.
  unfold readFromV2. intros H.
  destruct (negb (Z.of_nat len =? _)) eqn:El; [done|].
  destruct (negb (known_type _)) eqn:Et; [done|].
  destruct (negb (_ =? data.version2)) eqn:Ev; [done|]. breflect.
  rewrite <- El, Nat2Z.id, wrap_u_id, calculate_crc32_spec in H by apply calculate_crc32_range.
  destruct (negb (_ =? crc32_spec _)) eqn:Ec; [done|]. breflect.
  injection H as <-. unfold verifyCRC. simpl. rewrite Ec, Z.eqb_refl. repeat split; auto.
Qed.

Lemma packet_of_vector_inv buf pl q :
  packet_of_vector buf pl = Ok q ->
  (4 <= length buf)%nat /\
  (((be_int16 data.off_version buf = data.version3 \/ be_int16 data.off_version buf = data.version4) /\
    readFromV3 (empty_packet pl) buf (length buf) = Ok q) \/
   readFromV2 (empty_packet pl) (buf ++ [x00]) (length buf) = Ok q).
Proof.
  unfold packet_of_vector, readFrom, data.sizeof_packet_header. intros H.
  case_if_in H; [done|]. breflect. split; [lia|].
  destruct (be_fields_app data.off_version buf [x00]) as (E & _ & _); [simpl; lia|].
  rewrite E in H. case_if_in H; [left|right; done].
  apply orb_prop in Heqb0. rewrite readFromV3_app in H by lia.
  split; [|done]. destruct Heqb0; breflect; auto.
Qed.

(** Bytes that follow a complete v3/v4 packet in the receive buffer, which no checksum protects,
    never change what the decoder returns. *)
Theorem nrpe_trailing_bytes_ignored (buf junk : list byte) (pl : Z) (q : packet) :
  packet_of_vector buf pl = Ok q -> version_ q <> data.version2 ->
  packet_of_vector (buf ++ junk) pl = Ok q.
Proof.
  intros H Hv2. destruct (packet_of_vector_inv _ _ _ H) as [Hl [[Hv H3] | H2]].
  2: { apply readFromV2_inv in H2. tauto. }
  destruct (be_fields_app data.off_version buf junk) as (Ev & _ & _); [simpl; lia|].
  rewrite packet_of_vector_V3 by (rewrite ?length_app, ?Ev; auto; lia).
  pose proof (readFromV3_inv _ _ _ _ H3 (le_n _)) as (_ & _ & Ht & Hn & Hw & Hc & Hcrc & Hq).
  set (n := be_int32 data.off_buffer_length buf) in *. set (v := be_int16 data.off_version buf) in *.
  assert (H16 : n + 16 <= wire_length_v3 v n) by (unfold wire_length_v3; case_if; lia).
  destruct (be_fields_app data.off_type buf junk) as (Et & _ & _); [simpl; lia|].
  destruct (be_fields_app data.off_result buf junk) as (Er & _ & _); [simpl; lia|].
  destruct (be_fields_app data.off_buffer_length buf junk) as (_ & En & _); [simpl; lia|].
  destruct (be_fields_app data.off_crc32 buf junk) as (_ & _ & Ec); [simpl; lia|].
  fold n in En. fold v in Ev.
  assert (Hcov : covered_v3 v (buf ++ junk) = covered_v3 v buf).
  { unfold covered_v3. rewrite En. fold n. by rewrite take_app_le by lia. }
  rewrite readFromV3_intro; rewrite ?Ev, ?En, ?Et, ?Ec, ?Er, ?Hcov; auto.
  - rewrite fetch_payload_app by (unfold data.buffer_offset_v3; lia). by rewrite Hq.
  - rewrite Hq in Ht. done.
  - rewrite length_app. lia.
  - rewrite Hq in Hc. done.
Qed.

(** An empty v4 request packet (16 bytes on the wire) followed by unprotected bytes. *)
Definition tiny_v4 : list byte :=
  match get_buffer (new_packet 1 4 0 [] 0) with Ok b => b | Throw _ => [] end.

Lemma nrpe_trailing_bytes_ignored_witness :
  exists q, packet_of_vector tiny_v4 1024 = Ok q /\ version_ q <> data.version2 /\
            packet_of_vector (tiny_v4 ++ [Byte.x41; Byte.x42]) 1024 = Ok q.
Proof.
  assert (H : packet_of_vector tiny_v4 1024 =
              Ok (mkPacket 1024 1 4 0 [] (crc32_ (match packet_of_vector tiny_v4 1024 with Ok q => q | _ => empty_packet 0 end))
                    (crc32_ (match packet_of_vector tiny_v4 1024 with Ok q => q | _ => empty_packet 0 end))))
    by (vm_compute; reflexivity).
  eexists. split; [exact H|]. split; [discriminate|].
  apply (nrpe_trailing_bytes_ignored tiny_v4 [Byte.x41; Byte.x42] 1024 _ H). discriminate.
Defined.

(** C2. Every packet the decoder accepts has a known type, a payload without NUL and a checksum
    equal to the CRC-32 of the covered bytes with the checksum field zeroed; a v2 packet has
    exactly the configured length, and the payload of a v3/v4 packet lies inside the declared,
    checksummed region of at most 1 MiB. *)
Theorem nrpe_accepts_only_checksummed (buf : list byte) (pl : Z) (q : packet) :
  packet_of_vector buf pl = Ok q -> 0 <= pl < 2 ^ 32 ->
  known_type (type_ q) = true /\ verifyCRC q = true /\ no_nul (payload_ q) /\
  ((version_ q = data.version2 /\ zlength buf = 12 + pl /\
    crc32_ q = crc32_spec (covered_v2 buf) /\
    payload_ q = cstr (drop data.buffer_offset_v2 buf)) \/
   (exists n, (version_ q = data.version3 \/ version_ q = data.version4) /\
      be_int32 data.off_buffer_length buf = n /\ 0 <= n <= 1024 * 1024 /\
      wire_length_v3 (version_ q) n <= zlength buf /\
      crc32_ q = crc32_spec (covered_v3 (version_ q) buf) /\
      payload_ q = cstr (read_at data.buffer_offset_v3 (Z.to_nat n) buf))).
Proof.
  intros H Hpl. destruct (packet_of_vector_inv _ _ _ H) as [Hl [[Hv H3] | H2]].
  - apply readFromV3_inv in H3; [|done].
    destruct H3 as (_ & Hvq & Ht & Hn & Hw & Hc & Hcrc & Hq). rewrite Hvq.
    assert (Hp : payload_ q = cstr (read_at data.buffer_offset_v3
              (Z.to_nat (be_int32 data.off_buffer_length buf)) buf)).
    { rewrite Hq. unfold payload_, fetch_payload, strn, read_at. do 2 f_equal.
      unfold data.buffer_offset_v3. lia. }
    rewrite Hp. repeat split; auto using cstr_no_nul. right. eauto 10.
  - apply readFromV2_inv in H2. destruct H2 as (Hlen & Hvq & Ht & Hcrc & Hc & Hp).
    simpl payload_length_ in Hlen. unfold length_.get_packet_length_v2, data.sizeof_packet_v2 in Hlen.
    rewrite wrap_u_id in Hlen by (unfold in_u; lia).
    rewrite take_app_length, firstn_all2 in Hc
      by (unfold covered_v2; rewrite length_write_at; rewrite ?length_be_bytes; simpl; lia).
    assert (Hp' : payload_ q = cstr (drop data.buffer_offset_v2 buf)).
    { rewrite Hp, fetch_payload_app by lia. unfold fetch_payload, strn.
      rewrite firstn_all2; [done|]. rewrite length_drop. lia. }
    rewrite Hp'. repeat split; auto using cstr_no_nul; left; unfold zlength; auto.
Qed.

Lemma nrpe_accepts_only_checksummed_witness :
  exists q, packet_of_vector tiny_v4 0 = Ok q /\ known_type (type_ q) = true.
Proof.
  destruct (packet_of_vector tiny_v4 0) as [q|] eqn:H; [|vm_compute in H; discriminate].
  exists q. split; [done|]. apply (nrpe_accepts_only_checksummed tiny_v4 0 q H). split; reflexivity || done.
Defined.

(** Version 2: a payload as long as the buffer is refused rather than cut, exactly then. *)
Theorem nrpe_v2_oversized_payload_refused (p : packet) :
  version_ p = data.version2 ->
  (payload_length_ p <= zlength (payload_ p) <-> get_buffer p = Throw TooMuchData).
Proof.
  intros Hv. unfold get_buffer, create_buffer, create_buffer_v2. rewrite Hv, Z.eqb_refl.
  destruct (Z.leb_spec (payload_length_ p) (zlength (payload_ p))); [done|].
  destruct (store_crc32 _ _). split; [lia|done].
Qed.

Lemma nrpe_v2_oversized_payload_refused_witness :
  get_buffer (unknown_response [Byte.x41]) = Throw TooMuchData.
Proof.
  apply (nrpe_v2_oversized_payload_refused (unknown_response [Byte.x41])); [reflexivity|].
  vm_compute. discriminate.
Defined.
