(* ===== verification/NrpeServer.v ===== *)
(** The NRPE server side: the packet reassembler (include/net/nrpe/server/parser.hpp)
    and the connection state machine that drives it (server/protocol.hpp).

    [parser.digest] consumes bytes of a chunk into the parser's buffer and says
    whether a packet is complete; [on_read] loops it over a chunk, decodes the
    packet and queues the handler's answers; [queue_next] and [on_write] send
    them one by one.  Logging is left out; the socket's [on_accept] is the
    allowed-hosts check of AllowedHosts. *)

From stdpp Require Import base list.
From coqutil Require Import Byte Word.LittleEndianList.
From Stdlib Require Import ZArith Lia.
From S2P Require Import Prelude Bytes NrpePacket.
Local Open Scope Z_scope.

(** ** server::parser *)

Record parser := mkParser { p_payload_length_ : Z; buffer_ : list byte }.

Definition new_parser (payload_length : Z) : parser := mkParser payload_length [].

Definition read_version (buffer : list byte) : Z :=
  if zlength buffer <? data.sizeof_packet_header then -1 else be_int16 data.off_version buffer.

Definition read_len (buffer : list byte) : Z :=
  if zlength buffer <? Z.of_nat data.buffer_offset_v3 then -1 else be_int32 data.off_buffer_length buffer.

Definition has_v3_header (buffer : list byte) : bool := Z.of_nat data.buffer_offset_v3 <=? zlength buffer.

Definition parser_packet_length_v2 (payload_length : Z) : Z := length_.get_packet_length_v2 payload_length.

Definition parser_packet_length_v3 (payload_length : Z) (buffer : list byte) : Z :=
  if has_v3_header buffer then
    if read_version buffer =? data.version3 then length_.get_packet_length_v3 (read_len buffer)
    else length_.get_packet_length_v4 (read_len buffer)
  else length_.get_packet_length_v3 payload_length.

Definition kMaxPayloadBytes : Z := 1024 * 1024.
Definition kMaxBufferBytes : Z := data.sizeof_packet_v3 + kMaxPayloadBytes.

(** The v2 arm's loop: push bytes until the buffer reaches [target]. *)
Fixpoint fill_v2 (target : Z) (buffer input : list byte) : list byte * list byte :=
  match input with
  | [] => (buffer, [])
  | b :: rest => if zlength buffer <? target then fill_v2 target (buffer ++ [b]) rest else (buffer, input)
  end.

(** The v3 arm's inner loop; [true] when the buffer cap stops it. *)
Fixpoint fill_v3 (target : Z) (buffer input : list byte) : bool * list byte * list byte :=
  match input with
  | [] => (false, buffer, [])
  | b :: rest =>
      if zlength buffer <? target then
        if kMaxBufferBytes <=? zlength buffer then (true, buffer, input)
        else fill_v3 target (buffer ++ [b]) rest
      else (false, buffer, input)
  end.

(** The v3 arm's outer loop.  [true] is the early [return make_tuple(true, begin)].
    [fuel] bounds the iterations: each one that does not leave the loop consumes
    a byte ([digest_v3_enough]). *)
Fixpoint digest_v3 (fuel : nat) (pl : Z) (buffer input : list byte) : bool * list byte * list byte :=
  match fuel with
  | O => (false, buffer, input)
  | S fuel' =>
      match input with
      | [] => (false, buffer, input)
      | _ =>
          let step (target : Z) :=
            if target <=? zlength buffer then (false, buffer, input)
            else
              let '(capped, buffer', input') := fill_v3 target buffer input in
              if capped then (true, buffer', input') else digest_v3 fuel' pl buffer' input' in
          if has_v3_header buffer then
            if read_len buffer <? 0 then (true, buffer, input)
            else
              let target := parser_packet_length_v3 pl buffer in
              if kMaxBufferBytes <? target then (true, buffer, input) else step target
          else step (Z.of_nat data.buffer_offset_v3)
      end
  end.

(** Whether a whole packet is buffered: the tail of [digest]. *)
Definition packet_complete (pl : Z) (buffer : list byte) : bool :=
  let v := read_version buffer in
  let decide_length packet_length :=
    if kMaxBufferBytes <? packet_length then true else packet_length <=? zlength buffer in
  if (v =? data.version3) || (v =? data.version4) then
    if negb (has_v3_header buffer) then false
    else
      let packet_length := parser_packet_length_v3 pl buffer in
      if packet_length <? Z.of_nat data.buffer_offset_v3 then true else decide_length packet_length
  else if v =? data.version2 then decide_length (parser_packet_length_v2 pl)
  else if v =? -1 then false
  else true.

Definition digest (p : parser) (input : list byte) : bool * list byte * parser :=
  let pl := p_payload_length_ p in
  let v := read_version (buffer_ p) in
  if (v =? -1) || (v =? data.version2) then
    let '(buffer, rest) := fill_v2 (parser_packet_length_v2 pl) (buffer_ p) input in
    (packet_complete pl buffer, rest, mkParser pl buffer)
  else if (v =? data.version3) || (v =? data.version4) then
    let '(early, buffer, rest) := digest_v3 (S (length input)) pl (buffer_ p) input in
    if early then (true, rest, mkParser pl buffer)
    else (packet_complete pl buffer, rest, mkParser pl buffer)
  else (packet_complete pl (buffer_ p), input, p).

(** The buffer is cleared after the constructor ran, so an exception keeps it. *)
Definition parse (p : parser) : result nrpe_exception packet * parser :=
  match packet_of_vector (buffer_ p) (p_payload_length_ p) with
  | Ok q => (Ok q, new_parser (p_payload_length_ p))
  | Throw e => (Throw e, p)
  end.

(** ** read_protocol *)

Inductive state := none | connected | has_more | last_packet | done_.

#[global] Instance state_eq_dec : EqDecision state.
Proof. solve_decision. Defined.

(** The handler interface of server/handler.hpp; [handle] may throw. *)
Class handler := {
  handle : packet -> list byte -> option (list packet);
  create_error : list byte -> packet
}.

Record read_protocol := mkProtocol {
  parser_ : parser;
  current_state_ : state;
  data_ : list byte;
  responses_ : list packet;
  version_p : Z;
  peer_identity_ : list byte
}.

Definition set_state (s : state) (c : read_protocol) : read_protocol :=
  mkProtocol (parser_ c) s (data_ c) (responses_ c) (version_p c) (peer_identity_ c).
Definition set_output (s : state) (out : list byte) (rs : list packet) (c : read_protocol) : read_protocol :=
  mkProtocol (parser_ c) s out rs (version_p c) (peer_identity_ c).
Definition set_parser (p : parser) (c : read_protocol) : read_protocol :=
  mkProtocol p (current_state_ c) (data_ c) (responses_ c) (version_p c) (peer_identity_ c).

Definition new_protocol (payload_length : Z) : read_protocol :=
  mkProtocol (new_parser payload_length) none [] [] data.version2 [].

Definition on_connect (c : read_protocol) : bool * read_protocol := (true, set_state connected c).
Definition wants_data (c : read_protocol) : bool := bool_decide (current_state_ c = connected).
Definition has_data (c : read_protocol) : bool :=
  bool_decide (current_state_ c = has_more) || bool_decide (current_state_ c = last_packet).

Section Protocol.
Context `{handler}.

(** The messages the connection reports itself; their text is irrelevant here. *)
Variable msg_exception msg_return : list byte.

(** [queue_next]'s loop.  [fuel] bounds the iterations: every iteration takes a
    response off the queue and only the first failure puts one back
    ([queue_loop_enough]). *)
Fixpoint queue_loop (fuel : nat) (reported : bool) (rs : list packet) : option (state * list byte * list packet) :=
  match fuel with
  | O => None
  | S fuel' =>
      match rs with
      | [] => Some (done_, [], [])
      | r :: rs' =>
          match get_buffer r with
          | Ok buf => Some (match rs' with [] => last_packet | _ => has_more end, buf, rs')
          | Throw _ =>
              if reported then queue_loop fuel' true rs'
              else queue_loop fuel' true (create_error msg_return :: rs')
          end
      end
  end.

Definition queue_next (c : read_protocol) : option read_protocol :=
  match queue_loop (length (responses_ c) + 2) false (responses_ c) with
  | Some (s, out, rs) => Some (set_output s out rs c)
  | None => None
  end.

(** The handler's answers replace the queue; an exception adds an error answer. *)
Definition dispatch (request : packet) (c : read_protocol) : read_protocol :=
  let c := mkProtocol (parser_ c) (current_state_ c) (data_ c) (responses_ c)
             (wrap_u 16 (version_ request)) (peer_identity_ c) in
  match handle request (peer_identity_ c) with
  | Some rs => set_output (current_state_ c) (data_ c) rs c
  | None => set_output (current_state_ c) (data_ c) (responses_ c ++ [create_error msg_exception]) c
  end.

(** The request is decoded and handled; a decoding exception becomes an error answer. *)
Definition on_packet (c : read_protocol) : read_protocol :=
  let '(req, p) := parse (parser_ c) in
  let c := set_parser p c in
  match req with
  | Ok request => dispatch request c
  | Throw _ => set_output (current_state_ c) (data_ c) (responses_ c ++ [create_error msg_exception]) c
  end.

(** [on_read(begin, end)]: [fuel] bounds the digest rounds over the chunk; a
    round that neither completes a packet nor consumes a byte gives up. *)
Fixpoint on_read_loop (fuel : nat) (c : read_protocol) (input : list byte) : option (bool * read_protocol) :=
  match fuel with
  | O => None
  | S fuel' =>
      match input with
      | [] => Some (true, c)
      | _ =>
          let '(result, rest, p) := digest (parser_ c) input in
          let c := set_parser p c in
          if result then
            match queue_next (on_packet c) with
            | Some c' => Some (true, c')
            | None => None
            end
          else if Nat.eqb (length rest) (length input) then Some (false, c)
          else on_read_loop fuel' c rest
      end
  end.

Definition on_read (c : read_protocol) (input : list byte) : option (bool * read_protocol) :=
  on_read_loop (S (length input)) c input.

Definition on_write (c : read_protocol) : option read_protocol :=
  if bool_decide (current_state_ c = last_packet) then Some (set_state done_ c) else queue_next c.

(** A connection that receives its chunks one by one while it wants data. *)
Fixpoint on_reads (c : read_protocol) (chunks : list (list byte)) : option read_protocol :=
  match chunks with
  | [] => Some c
  | chunk :: rest =>
      match on_read c chunk with
      | Some (true, c') => on_reads c' rest
      | _ => None
      end
  end.
End Protocol.

(** ** The buffer loops *)

Definition room (target : Z) (buffer : list byte) : nat := Z.to_nat (target - zlength buffer).

Lemma fill_v2_spec target input buffer :
  fill_v2 target buffer input = (buffer ++ take (room target buffer) input, drop (room target buffer) input).
Proof.
  revert buffer. induction input as [|b rest IH]; intros buffer; simpl.
  { by rewrite take_nil, drop_nil, app_nil_r. }
  destruct (Z.ltb_spec (zlength buffer) target).
  - rewrite IH. unfold room. rewrite zlength_app, zlength_cons. change (zlength []) with 0.
    destruct (Z.to_nat (target - zlength buffer)) as [|k] eqn:E; [lia|].
    replace (Z.to_nat (target - (zlength buffer + (1 + 0)))) with k by lia.
    by rewrite <- app_assoc.
  - unfold room. replace (Z.to_nat (target - zlength buffer)) with 0%nat by lia.
    by rewrite take_0, drop_0, app_nil_r.
Qed.

Lemma fill_v3_spec target input buffer :
  target <= kMaxBufferBytes ->
  fill_v3 target buffer input = (false, buffer ++ take (room target buffer) input, drop (room target buffer) input).
Proof.
  intros Ht.
  enough (fill_v3 target buffer input = (false, fst (fill_v2 target buffer input), snd (fill_v2 target buffer input)))
    as -> by by rewrite fill_v2_spec.
  revert buffer. induction input as [|b rest IH]; intros buffer; simpl; [done|].
  destruct (Z.ltb_spec (zlength buffer) target); [|done].
  rewrite (proj2 (Z.leb_gt _ _)) by lia. apply IH.
Qed.

Lemma fill_v3_bound target input buffer :
  zlength (snd (fst (fill_v3 target buffer input))) <= Z.max (zlength buffer) kMaxBufferBytes.
Proof.
  revert buffer. induction input as [|b rest IH]; intros buffer; cbn [fill_v3 fst snd]; [lia|].
  destruct (Z.ltb_spec (zlength buffer) target); cbn [fst snd buffer_]; [|lia].
  destruct (Z.leb_spec kMaxBufferBytes (zlength buffer)); cbn [fst snd buffer_]; [lia|].
  specialize (IH (buffer ++ [b])). rewrite zlength_app in IH. change (zlength [b]) with 1 in IH. lia.
Qed.

Lemma digest_v3_bound fuel pl buffer input :
  zlength (snd (fst (digest_v3 fuel pl buffer input))) <= Z.max (zlength buffer) kMaxBufferBytes.
Proof.
  revert buffer input. induction fuel as [|fuel IH]; intros buffer input; cbn [digest_v3 fst snd]; [lia|].
  destruct input as [|b rest]; [simpl; lia|]. set (inp := b :: rest).
  assert (Hstep : forall target,
    zlength (snd (fst (if target <=? zlength buffer then (false, buffer, inp)
      else let '(capped, buffer', input') := fill_v3 target buffer inp in
           if capped then (true, buffer', input') else digest_v3 fuel pl buffer' input')))
    <= Z.max (zlength buffer) kMaxBufferBytes).
  { intros target. destruct (target <=? _); cbn [fst snd buffer_]; [lia|].
    pose proof (fill_v3_bound target inp buffer) as Hb.
    destruct (fill_v3 target buffer inp) as [[[] b'] i']; cbn [fst snd buffer_] in *; [lia|].
    specialize (IH b' i'). lia. }
  destruct (has_v3_header buffer); [|apply Hstep].
  destruct (read_len buffer <? 0); cbn [fst snd buffer_]; [lia|].
  destruct (kMaxBufferBytes <? _); cbn [fst snd buffer_]; [lia|apply Hstep].
Qed.

(** C28. Whatever bytes a peer sends, one digest call never grows the connection buffer past the
    larger of the 1 MiB packet cap and the configured v2 packet length. *)
Theorem digest_bounded_memory (p : parser) (input : list byte) :
  in_u 32 (p_payload_length_ p) ->
  zlength (buffer_ (snd (digest p input))) <=
  Z.max (zlength (buffer_ p)) (Z.max kMaxBufferBytes (12 + p_payload_length_ p)).
Proof.
  intros Hpl. unfold digest. case_if.
  - rewrite fill_v2_spec. simpl. rewrite zlength_app. unfold zlength at 2. rewrite length_take.
    unfold room, parser_packet_length_v2, length_.get_packet_length_v2, data.sizeof_packet_v2.
    rewrite wrap_u_id by (unfold in_u in *; lia). lia.
  - case_if; cbn [fst snd buffer_]; [|lia].
    pose proof (digest_v3_bound (S (length input)) (p_payload_length_ p) (buffer_ p) input) as Hb.
    destruct (digest_v3 _ _ _ _) as [[[] b'] i']; cbn [fst snd buffer_] in *; lia.
Qed.

Lemma digest_bounded_memory_witness :
  zlength (buffer_ (snd (digest (new_parser 1024) (replicate 3000 Byte.x41)))) <=
  Z.max 0 (Z.max kMaxBufferBytes (12 + 1024)).
Proof. apply (digest_bounded_memory (new_parser 1024)). unfold in_u. simpl. lia. Defined.

(** ** Reassembly *)

(** The bytes of one whole packet, as the parser sizes it: a v2 packet has the
    configured length, a v3/v4 packet the length its header declares. *)
Definition well_framed (pl : Z) (w : list byte) : Prop :=
  (be_int16 data.off_version w = data.version2 /\ zlength w = 12 + pl /\ pl <= kMaxPayloadBytes) \/
  ((be_int16 data.off_version w = data.version3 \/ be_int16 data.off_version w = data.version4) /\
   exists n, be_int32 data.off_buffer_length w = n /\ 0 <= n <= kMaxPayloadBytes /\
             zlength w = wire_length_v3 (be_int16 data.off_version w) n).

Section Reassembly.
Variables (pl : Z) (w : list byte).
Hypothesis Hpl : in_u 32 pl.
Hypothesis Hw : well_framed pl w.

Let len := length w.

Lemma framed_ge12 : (12 <= len)%nat.
Proof.
  unfold in_u in Hpl. destruct Hw as [(_ & Hl & _) | (_ & n & _ & Hn & Hl)].
  - unfold len, zlength in *. lia.
  - unfold wire_length_v3 in Hl. case_if_in Hl; unfold len, zlength in *; lia.
Qed.

Lemma zlength_take k : (k <= len)%nat -> zlength (take k w) = Z.of_nat k.
Proof. intros. unfold zlength. rewrite length_take. fold len. lia. Qed.

Lemma read_version_take k :
  (k <= len)%nat -> read_version (take k w) = if decide (k < 4)%nat then -1 else be_int16 data.off_version w.
Proof.
  intros Hk. unfold read_version, data.sizeof_packet_header. rewrite zlength_take by done.
  case_decide.
  - by rewrite (proj2 (Z.ltb_lt _ _)) by lia.
  - rewrite (proj2 (Z.ltb_ge _ _)) by lia. unfold be_int16.
    by rewrite read_at_take by (unfold data.off_version; lia).
Qed.

Lemma packet_length_v2_framed :
  parser_packet_length_v2 pl = 12 + pl.
Proof.
  unfold parser_packet_length_v2, length_.get_packet_length_v2, data.sizeof_packet_v2.
  unfold in_u in Hpl. rewrite wrap_u_id; unfold in_u; lia.
Qed.

Lemma read_len_take k :
  (16 <= k <= len)%nat -> read_len (take k w) = be_int32 data.off_buffer_length w.
Proof.
  intros Hk. unfold read_len. rewrite zlength_take by lia.
  rewrite (proj2 (Z.ltb_ge _ _)) by (unfold data.buffer_offset_v3; lia).
  unfold be_int32. by rewrite read_at_take by (unfold data.off_buffer_length; lia).
Qed.

Definition framed_v3 : Prop :=
  (be_int16 data.off_version w = data.version3 \/ be_int16 data.off_version w = data.version4) /\
  0 <= be_int32 data.off_buffer_length w <= kMaxPayloadBytes /\
  Z.of_nat len = wire_length_v3 (be_int16 data.off_version w) (be_int32 data.off_buffer_length w).

Lemma framed_v3_len : framed_v3 -> 16 <= Z.of_nat len <= kMaxPayloadBytes + 19.
Proof. intros (_ & Hr & ->). unfold wire_length_v3. case_if; lia. Qed.

Lemma packet_length_v3_take k :
  framed_v3 -> (16 <= k <= len)%nat -> parser_packet_length_v3 pl (take k w) = Z.of_nat len.
Proof.
  intros (Hv & Hr & Hl) Hk. unfold parser_packet_length_v3, has_v3_header.
  rewrite zlength_take, (proj2 (Z.leb_le _ _)) by (unfold data.buffer_offset_v3; lia).
  rewrite read_version_take, decide_False, read_len_take by lia.
  rewrite packet_length_v3_eq, Hl; [done|]. unfold kMaxPayloadBytes in Hr. lia.
Qed.

Lemma has_v3_header_take k :
  (k <= len)%nat -> has_v3_header (take k w) = bool_decide (16 <= k)%nat.
Proof.
  intros. unfold has_v3_header. rewrite zlength_take by done. unfold data.buffer_offset_v3.
  case_bool_decide; [apply Z.leb_le | apply Z.leb_gt]; lia.
Qed.

Lemma packet_complete_take k :
  (k <= len)%nat -> packet_complete pl (take k w) = bool_decide (k = len).
Proof.
  intros Hk. unfold packet_complete. rewrite read_version_take by done.
  pose proof framed_ge12 as H12. case_decide as Hk4.
  { rewrite bool_decide_eq_false_2 by lia. done. }
  unfold kMaxBufferBytes, kMaxPayloadBytes, data.sizeof_packet_v3 in *.
  destruct Hw as [(Hv & Hl & Hp) | (Hv & n & Hn & Hr & Hl)].
  - rewrite Hv, packet_length_v2_framed. simpl. rewrite (proj2 (Z.ltb_ge _ _)) by
      (unfold kMaxPayloadBytes in *; lia).
    rewrite zlength_take by done. unfold zlength in Hl. fold len in Hl.
    case_bool_decide; [apply Z.leb_le | apply Z.leb_gt]; lia.
  - assert (H3 : framed_v3) by (subst n; repeat split; auto; lia).
    assert (Hver : (be_int16 data.off_version w =? data.version3) ||
                   (be_int16 data.off_version w =? data.version4) = true)
      by (destruct Hv as [-> | ->]; reflexivity).
    pose proof (framed_v3_len H3) as Hlen. unfold kMaxPayloadBytes in Hlen.
    rewrite Hver, has_v3_header_take by done. case_bool_decide; simpl negb; cbn iota.
    + rewrite packet_length_v3_take, zlength_take by (done || lia).
      rewrite !(proj2 (Z.ltb_ge _ _)) by (unfold data.buffer_offset_v3; lia).
      case_bool_decide; [apply Z.leb_le | apply Z.leb_gt]; lia.
    + rewrite bool_decide_eq_false_2 by lia. done.
Qed.

(** The v3 arm takes everything of the packet it is offered. *)
Lemma digest_v3_take fuel k m :
  framed_v3 -> (4 <= k)%nat -> (k + m <= len)%nat -> (m < fuel)%nat ->
  digest_v3 fuel pl (take k w) (take m (drop k w)) = (false, take (k + m) w, []).
Proof.
  intros H3. pose proof (framed_v3_len H3) as Hlen. unfold kMaxPayloadBytes in Hlen.
  revert k m. induction fuel as [|fuel IH]; intros k m Hk Hkm Hf; [lia|].
  destruct m as [|m']; [rewrite take_0, Nat.add_0_r; done|].
  set (m := S m') in *. set (input := take m (drop k w)).
  assert (Hin : length input = m) by (unfold input; rewrite length_take, length_drop; fold len; lia).
  assert (Hstep : forall target : Z, Z.of_nat k < target <= kMaxBufferBytes ->
    (forall r, (0 < r <= m)%nat -> digest_v3 fuel pl (take (k + r) w) (take (m - r) (drop (k + r) w)) =
                                   (false, take (k + m) w, [])) ->
    (if target <=? zlength (take k w) then (false, take k w, input)
     else let '(capped, buffer', input') := fill_v3 target (take k w) input in
          if capped then (true, buffer', input') else digest_v3 fuel pl buffer' input') =
    (false, take (k + m) w, [])).
  { intros target Ht Hr. rewrite zlength_take, (proj2 (Z.leb_gt _ _)) by lia.
    rewrite fill_v3_spec by lia. unfold room. rewrite zlength_take by lia.
    set (r := Nat.min (Z.to_nat (target - Z.of_nat k)) m).
    replace (take (Z.to_nat (target - Z.of_nat k)) input) with (take r (drop k w))
      by (unfold input, r; rewrite take_take; f_equal; lia).
    replace (drop (Z.to_nat (target - Z.of_nat k)) input) with (take (m - r) (drop (k + r) w)).
    - rewrite take_take_drop. apply Hr. lia.
    - unfold input. rewrite skipn_firstn_comm, drop_drop.
      destruct (decide (Z.to_nat (target - Z.of_nat k) <= m)%nat).
      + replace r with (Z.to_nat (target - Z.of_nat k)) by lia. do 2 f_equal; lia.
      + replace (m - Z.to_nat (target - Z.of_nat k))%nat with 0%nat by lia.
        replace (m - r)%nat with 0%nat by lia. done. }
  assert (Hrec : forall r, (0 < r <= m)%nat ->
    digest_v3 fuel pl (take (k + r) w) (take (m - r) (drop (k + r) w)) = (false, take (k + m) w, [])).
  { intros r Hr. rewrite IH by lia. do 2 f_equal. f_equal. lia. }
  cbn [digest_v3]. destruct input as [|b rest] eqn:Ei; [simpl in Hin; lia|].
  rewrite has_v3_header_take by lia. case_bool_decide.
  - rewrite read_len_take, (proj2 (Z.ltb_ge _ _)) by (destruct H3; lia).
    rewrite packet_length_v3_take by (done || lia).
    rewrite (proj2 (Z.ltb_ge _ _)) by (unfold kMaxBufferBytes, kMaxPayloadBytes, data.sizeof_packet_v3; lia).
    apply Hstep; [|done]. unfold kMaxBufferBytes, kMaxPayloadBytes, data.sizeof_packet_v3. lia.
  - apply Hstep; [|done]. unfold kMaxBufferBytes, kMaxPayloadBytes, data.sizeof_packet_v3, data.buffer_offset_v3. lia.
Qed.

Lemma fill_v2_take target k m :
  (k + m <= len)%nat -> Z.of_nat k < target -> (0 < m)%nat ->
  exists r, (0 < r <= m)%nat /\
    fill_v2 target (take k w) (take m (drop k w)) = (take (k + r) w, take (m - r) (drop (k + r) w)).
Proof.
  intros Hkm Ht Hm. exists (Nat.min (Z.to_nat (target - Z.of_nat k)) m). split; [lia|].
  rewrite fill_v2_spec. unfold room. rewrite zlength_take by lia.
  rewrite take_take, take_take_drop, skipn_firstn_comm, drop_drop. f_equal.
  destruct (decide (Z.to_nat (target - Z.of_nat k) <= m)%nat).
  - by rewrite Nat.min_l by lia.
  - rewrite Nat.min_r, Nat.sub_diag by lia.
    by replace (m - Z.to_nat (target - Z.of_nat k))%nat with 0%nat by lia.
Qed.

(** One digest round over a piece of the packet: it makes progress, keeps the
    buffer a prefix of the packet and reports completeness exactly at the end. *)
Lemma digest_take k m :
  (k < len)%nat -> (k + m <= len)%nat -> (0 < m)%nat ->
  exists r, (0 < r <= m)%nat /\
    digest (mkParser pl (take k w)) (take m (drop k w)) =
    (bool_decide (k + r = len)%nat, take (m - r) (drop (k + r) w), mkParser pl (take (k + r) w)).
Proof.
  intros Hk Hkm Hm. unfold digest. cbn [p_payload_length_ buffer_].
  assert (Hfill : Z.of_nat k < parser_packet_length_v2 pl ->
    exists r, (0 < r <= m)%nat /\
    (let '(buffer, rest) := fill_v2 (parser_packet_length_v2 pl) (take k w) (take m (drop k w)) in
     (packet_complete pl buffer, rest, mkParser pl buffer)) =
    (bool_decide (k + r = len)%nat, take (m - r) (drop (k + r) w), mkParser pl (take (k + r) w))).
  { intros Ht. destruct (fill_v2_take _ k m Hkm Ht Hm) as (r & Hr & ->).
    exists r. split; [done|]. by rewrite packet_complete_take by lia. }
  rewrite read_version_take by lia. rewrite packet_length_v2_framed in *. unfold in_u in Hpl.
  case_decide; [apply Hfill; lia|].
  destruct Hw as [(Hv & Hl & Hp) | (Hv & n & Hn & Hr & Hl)].
  - rewrite Hv. apply Hfill. unfold zlength in Hl. fold len in Hl. lia.
  - assert (H3 : framed_v3) by (subst n; repeat split; auto; lia).
    exists m. split; [lia|].
    assert (Hin : length (take m (drop k w)) = m) by (rewrite length_take, length_drop; fold len; lia).
    rewrite Hin, digest_v3_take, packet_complete_take, Nat.sub_diag, take_0 by (done || lia).
    destruct Hv as [-> | ->]; reflexivity.
Qed.

Context `{handler}.
Variables msg_exception msg_return : list byte.

Lemma set_parser_twice p p' c : set_parser p (set_parser p' c) = set_parser p c.
Proof. done. Qed.

(** One chunk: short of the end the connection keeps waiting, at the end the
    whole packet is decoded. *)
Lemma on_read_loop_take fuel : forall k m c,
  (k < len)%nat -> (k + m <= len)%nat -> (m < fuel)%nat ->
  parser_ c = mkParser pl (take k w) ->
  on_read_loop msg_exception msg_return fuel c (take m (drop k w)) =
  if decide (k + m = len)%nat then
    match queue_next msg_return (on_packet msg_exception (set_parser (mkParser pl w) c)) with
    | Some c' => Some (true, c') | None => None end
  else Some (true, set_parser (mkParser pl (take (k + m) w)) c).
Proof.
  induction fuel as [|fuel IH]; intros k m c Hk Hkm Hf Hc; [lia|].
  destruct m as [|m'].
  { rewrite take_0, decide_False by lia. rewrite Nat.add_0_r, <- Hc. by destruct c. }
  set (m := S m') in *. cbn [on_read_loop]. set (input := take m (drop k w)).
  assert (Hin : length input = m) by (unfold input; rewrite length_take, length_drop; fold len; lia).
  destruct (digest_take k m Hk Hkm ltac:(lia)) as (r & Hr & Hd).
  rewrite Hc. fold input in Hd. rewrite Hd.
  destruct input as [|b rest] eqn:Ei; [simpl in Hin; lia|]. rewrite Hin.
  case_bool_decide as Hend.
  - rewrite decide_True by lia. rewrite Hend. unfold len. by rewrite firstn_all.
  - rewrite length_take, length_drop. fold len.
    rewrite (proj2 (Nat.eqb_neq _ _)) by lia. rewrite IH by (done || lia).
    replace (k + r + (m - r))%nat with (k + m)%nat by lia. done.
Qed.

Lemma on_reads_take chunks : forall k c,
  (k < len)%nat -> parser_ c = mkParser pl (take k w) ->
  Forall (fun x => x <> []) chunks -> concat chunks = drop k w ->
  on_reads msg_exception msg_return c chunks =
  queue_next msg_return (on_packet msg_exception (set_parser (mkParser pl w) c)).
Proof.
  induction chunks as [|x xs IH]; intros k c Hk Hc Hne Hcat.
  { exfalso. assert (H0 : length (drop k w) = 0%nat) by by rewrite <- Hcat.
    rewrite length_drop in H0. unfold len in Hk. lia. }
  inversion Hne as [|? ? Hx Hxs]; subst. simpl in Hcat.
  set (m := length x).
  assert (Hm : (0 < m)%nat) by (destruct x; [done | simpl in *; lia]).
  assert (Hkm : (k + m <= len)%nat).
  { assert (H0 : length (x ++ concat xs) = (len - k)%nat) by (rewrite Hcat, length_drop; done).
    rewrite length_app in H0. unfold m in *. lia. }
  assert (Hxt : x = take m (drop k w)) by (unfold m; rewrite <- Hcat; by rewrite take_app_length).
  assert (Hrest : concat xs = drop (k + m) w).
  { rewrite <- drop_drop, <- Hcat. unfold m. by rewrite drop_app_length. }
  assert (Hone : on_read msg_exception msg_return c x =
    on_read_loop msg_exception msg_return (S m) c (take m (drop k w))) by (unfold on_read; by rewrite <- Hxt).
  cbn [on_reads]. rewrite Hone, on_read_loop_take by (done || lia).
  case_decide as Hend.
  - assert (xs = []) as ->.
    { destruct xs as [|y ys]; [done|]. apply Forall_cons in Hxs as [Hy _].
      assert (length (concat (y :: ys)) = 0)%nat as H0 by (rewrite Hrest, length_drop; fold len; lia).
      destruct y; [done | simpl in H0; lia]. }
    destruct (queue_next _ _); done.
  - rewrite (IH (k + m)%nat) by (done || lia). by rewrite set_parser_twice.
Qed.
End Reassembly.

Lemma get_buffer_framed p w pl :
  serialisable p -> get_buffer p = Ok w -> in_u 32 pl ->
  (version_ p = data.version2 -> pl = payload_length_ p /\ pl <= kMaxPayloadBytes) ->
  well_framed pl w.
Proof.
  intros Hp Hg Hpl Hv2. pose proof (zlength_nonneg (payload_ p)) as H0.
  unfold get_buffer in Hg. destruct (create_buffer p) as [[buf p']|] eqn:Hc; [|done].
  injection Hg as ->. unfold create_buffer in Hc.
  destruct Hp as (Ht & Hr & Hn & Hv).
  destruct (version_ p =? data.version2) eqn:E; breflect.
  - left. destruct (Hv2 E) as [-> Hle]. unfold in_u in Hpl.
    destruct (create_buffer_v2_layout _ _ _ Hc ltac:(lia)) as (Hlen & Rv & _).
    rewrite E in Rv. apply be_int16_bytes in Rv; [|done].
    unfold zlength. rewrite Hlen. repeat split; [done | lia | done].
  - right. destruct Hv as [[Hv _]|[Hv Hl]]; [done|].
    destruct (create_buffer_v3_layout _ _ _ Hc ltac:(lia)) as (Hlen & Rv & _ & _ & _ & Rl & _).
    apply be_int16_bytes in Rv; [|destruct Hv as [-> | ->]; done].
    apply be_int32_bytes in Rl; [|unfold in_s; lia].
    rewrite Rv, Rl. split; [done|]. eexists. split; [done|].
    split; [unfold kMaxPayloadBytes; lia|]. unfold zlength at 1. rewrite Hlen.
    unfold wire_length_v3. case_if; lia.
Qed.

(** C27. However the bytes of a serialised request are cut into non-empty chunks, feeding the
    chunks to on_read decodes exactly one packet, on the last chunk, with the same fields, and
    hands it to the handler. *)
Theorem nrpe_reassembly `{handler} (msg_exception msg_return : list byte)
    (p : packet) (w : list byte) (pl : Z) (chunks : list (list byte)) (c : read_protocol) :
  serialisable p -> get_buffer p = Ok w -> in_u 32 pl ->
  (version_ p = data.version2 -> pl = payload_length_ p /\ pl <= kMaxPayloadBytes) ->
  parser_ c = new_parser pl -> Forall (fun x => x <> []) chunks -> concat chunks = w ->
  exists q, same_packet p q /\
    on_reads msg_exception msg_return c chunks = queue_next msg_return (dispatch msg_exception q c).
Proof.
  intros Hp Hg Hpl Hv2 Hc Hne Hcat.
  pose proof (get_buffer_framed p w pl Hp Hg Hpl Hv2) as Hw.
  assert (exists q, packet_of_vector w pl = Ok q /\ same_packet p q) as (q & Hq & Hsame).
  { unfold get_buffer in Hg. destruct (create_buffer p) as [[buf p']|] eqn:Hcb; [|done].
    injection Hg as ->. unfold create_buffer in Hcb.
    destruct (version_ p =? data.version2) eqn:E; breflect.
    - destruct (Hv2 E) as [-> _]. destruct (read_vector_v2 p w p' Hp E Hcb) as (q & ? & ? & _). eauto.
    - destruct (read_vector_v3 p w p' pl Hp E Hcb) as (q & ? & ? & _). eauto. }
  exists q. split; [done|].
  rewrite (on_reads_take pl w Hpl Hw msg_exception msg_return chunks 0 c); [| |done..].
  - unfold on_packet, parse. cbn [parser_ set_parser buffer_ p_payload_length_].
    rewrite Hq, set_parser_twice, <- Hc. by destruct c.
  - pose proof (framed_ge12 pl w Hpl Hw). lia.
Qed.

(** A v4 "_NRPE_CHECK"-style request of one byte, cut into single bytes, reaching
    a handler that echoes nothing. *)
Definition echo_handler : handler :=
  {| handle := fun _ _ => Some []; create_error := fun m => new_packet 2 2 3 m 1024 |}.
Definition one_byte_request : packet := new_packet 1 4 (-1) [Byte.x41] 0.
Definition one_byte_wire : list byte :=
  match get_buffer one_byte_request with Ok b => b | Throw _ => [] end.

Lemma nrpe_reassembly_witness :
  exists q, same_packet one_byte_request q /\
    @on_reads echo_handler [] [] (set_state connected (new_protocol 1024)) (map (fun b => [b]) one_byte_wire) =
    @queue_next echo_handler [] (@dispatch echo_handler [] q (set_state connected (new_protocol 1024))).
Proof.
  apply (@nrpe_reassembly echo_handler [] [] one_byte_request one_byte_wire 1024).
  - unfold serialisable. repeat split; try (compute; congruence).
    + repeat constructor; discriminate.
    + right. split; [right; reflexivity | compute; congruence].
  - vm_compute. reflexivity.
  - unfold in_u. lia.
  - discriminate.
  - reflexivity.
  - apply Forall_forall. intros x Hx. apply list_elem_of_fmap in Hx as (b & -> & _). discriminate.
  - vm_compute. reflexivity.
Defined.

(** A digest round never hands back more input than it was given. *)
Lemma fill_v3_consumes target input buffer :
  (length (snd (fill_v3 target buffer input)) <= length input)%nat.
Proof.
  revert buffer. induction input as [|b rest IH]; intros buffer; cbn [fill_v3]; [simpl; lia|].
  destruct (_ <? _); [|simpl; lia]. destruct (_ <=? _); [simpl; lia|].
  specialize (IH (buffer ++ [b])). simpl. lia.
Qed.

Lemma digest_v3_consumes fuel pl buffer input :
  (length (snd (digest_v3 fuel pl buffer input)) <= length input)%nat.
Proof.
  revert buffer input. induction fuel as [|fuel IH]; intros buffer input; cbn [digest_v3]; [simpl; lia|].
  destruct input as [|b rest]; [simpl; lia|]. set (inp := b :: rest).
  assert (Hstep : forall target : Z,
    (length (snd (if (target <=? zlength buffer)%Z then (false, buffer, inp)
      else let '(capped, buffer', input') := fill_v3 target buffer inp in
           if capped then (true, buffer', input') else digest_v3 fuel pl buffer' input'))
    <= length inp)%nat).
  { intros target. destruct (target <=? _); [simpl; lia|].
    pose proof (fill_v3_consumes target inp buffer) as Hb.
    destruct (fill_v3 target buffer inp) as [[[] b'] i']; cbn [snd] in *; [lia|].
    specialize (IH b' i'). lia. }
  destruct (has_v3_header buffer); [|apply Hstep].
  destruct (read_len buffer <? 0); [cbn [snd]; lia|].
  destruct (kMaxBufferBytes <? _); [cbn [snd]; lia|apply Hstep].
Qed.

Lemma digest_consumes p input : (length (snd (fst (digest p input))) <= length input)%nat.
Proof.
  unfold digest. case_if.
  - rewrite fill_v2_spec. cbn [fst snd]. rewrite length_drop. lia.
  - case_if; [|simpl; lia].
    pose proof (digest_v3_consumes (S (length input)) (p_payload_length_ p) (buffer_ p) input) as Hc.
    destruct (digest_v3 _ _ _ _) as [[[] b'] i']; cbn [fst snd] in *; lia.
Qed.

(** ** Sending the answers *)

Section Sending.
Context `{handler}.
Variables msg_exception msg_return : list byte.

(** The states between writes: [last_packet] is set exactly when the queue is
    empty, so a finished connection never re-sends. *)
Definition sending (c : read_protocol) : Prop :=
  match current_state_ c with
  | has_more => responses_ c <> []
  | last_packet | done_ => responses_ c = []
  | _ => False
  end.

Lemma queue_loop_reported fuel rs :
  (length rs < fuel)%nat ->
  exists s out rs', queue_loop msg_return fuel true rs = Some (s, out, rs') /\
    ((s = done_ /\ out = [] /\ rs' = []) \/
     ((length rs' < length rs)%nat /\ s = (match rs' with [] => last_packet | _ => has_more end) /\
      exists r, r ∈ rs /\ get_buffer r = Ok out)).
Proof.
  revert rs. induction fuel as [|fuel IH]; intros rs Hf; [lia|].
  destruct rs as [|r rs]; cbn [queue_loop]; [eauto 10|].
  destruct (get_buffer r) as [buf|e] eqn:Hg.
  - do 3 eexists. split; [done|]. right. simpl. repeat split; [lia|]. exists r. split; [left|done].
  - destruct (IH rs) as (s & out & rs' & -> & Hcase); [simpl in Hf; lia|].
    do 3 eexists. split; [done|]. destruct Hcase as [? | (? & ? & r' & ? & ?)]; [by left|right].
    simpl. repeat split; [lia|done|]. exists r'. split; [by right|done].
Qed.

Lemma queue_next_spec c :
  exists c', queue_next msg_return c = Some c' /\ parser_ c' = parser_ c /\ sending c' /\
    ((current_state_ c' = done_ /\ data_ c' = []) \/
     ((length (responses_ c') < length (responses_ c))%nat /\
      exists r, (r ∈ responses_ c \/ r = create_error msg_return) /\ get_buffer r = Ok (data_ c'))).
Proof.
  unfold queue_next. destruct (responses_ c) as [|r rs] eqn:Hr.
  { eexists. split; [reflexivity|]. repeat split. by left. }
  replace (length (r :: rs) + 2)%nat with (S (S (S (length rs)))) by (simpl; lia).
  remember (S (length rs)) as k eqn:Hk.
  cbn [queue_loop]. destruct (get_buffer r) as [buf|e] eqn:Hg.
  - eexists. split; [reflexivity|]. repeat split; [unfold sending; simpl; by destruct rs|].
    right. simpl. split; [lia|]. exists r. split; [left; left|done].
  - destruct (get_buffer (create_error msg_return)) as [buf|e'] eqn:Hg'.
    + eexists. split; [reflexivity|]. repeat split; [unfold sending; simpl; by destruct rs|].
      right. simpl. split; [lia|]. eauto.
    + destruct (queue_loop_reported k rs) as (s & out & rs' & -> & Hcase); [lia|].
      eexists. split; [reflexivity|]. split; [done|]. unfold sending. simpl.
      destruct Hcase as [(-> & -> & ->) | (Hl & -> & r' & Hin & Hok)]; [by auto|].
      split; [by destruct rs'|]. right. split; [lia|]. exists r'. split; [left; by right|done].
Qed.

Fixpoint on_writes (n : nat) (c : read_protocol) : option read_protocol :=
  match n with
  | O => Some c
  | S n' => match on_write msg_return c with Some c' => on_writes n' c' | None => None end
  end.

Lemma on_write_sending c :
  sending c ->
  exists c', on_write msg_return c = Some c' /\ sending c' /\
    (current_state_ c' = done_ \/ (length (responses_ c') < length (responses_ c))%nat).
Proof.
  intros Hs. unfold on_write. case_bool_decide as Hst.
  - eexists. split; [done|]. unfold sending in *. rewrite Hst in Hs. simpl. auto.
  - destruct (queue_next_spec c) as (c' & -> & _ & Hs' & [[? _]|[? _]]); eauto.
Qed.

Lemma on_writes_finish n : forall c,
  sending c -> (current_state_ c = done_ \/ length (responses_ c) < n)%nat ->
  exists c', on_writes n c = Some c' /\ current_state_ c' = done_.
Proof.
  induction n as [|n IH]; intros c Hs Hn; [destruct Hn; [eauto|lia]|].
  cbn [on_writes]. destruct (on_write_sending c Hs) as (c1 & Hw & Hs1 & Hd). rewrite Hw.
  apply IH; [done|]. destruct Hd as [?|Hlt]; [by left|]. destruct Hn as [Hdone|Hn]; [|right; lia].
  unfold sending in Hs. rewrite Hdone in Hs. rewrite Hs in Hlt. simpl in Hlt. lia.
Qed.

(** Whatever responses the handler queued, serialisable or not, queue_next ends in a sending
    state and at most one on_write per remaining response (plus one) brings the connection to
    done: no response is re-sent forever. *)
Theorem nrpe_connection_finishes (c : read_protocol) :
  exists c' c'', queue_next msg_return c = Some c' /\ sending c' /\
    on_writes (length (responses_ c') + 1) c' = Some c'' /\ current_state_ c'' = done_.
Proof.
  destruct (queue_next_spec c) as (c' & Hq & _ & Hs & _).
  destruct (on_writes_finish (length (responses_ c') + 1) c' Hs) as (c'' & ? & ?); [right; lia|].
  eauto 8.
Qed.

(** on_read returns for every connection state and every chunk: each digest round consumes
    input, completes a packet or gives up. *)
Theorem nrpe_on_read_total (c : read_protocol) (input : list byte) :
  exists ok c', on_read msg_exception msg_return c input = Some (ok, c').
Proof.
  unfold on_read.
  enough (forall fuel input c, (length input < fuel)%nat ->
            exists ok c', on_read_loop msg_exception msg_return fuel c input = Some (ok, c')) as Hall
    by (apply Hall; lia).
  clear. induction fuel as [|fuel IH]; intros input c Hf; [lia|]. cbn [on_read_loop].
  destruct input as [|b rest]; [eauto|].
  pose proof (digest_consumes (parser_ c) (b :: rest)) as Hd.
  destruct (digest (parser_ c) (b :: rest)) as [[res rest'] p'].
  destruct res.
  - destruct (queue_next_spec (on_packet msg_exception (set_parser p' c))) as (c' & -> & _). eauto.
  - destruct (Nat.eqb _ _) eqn:E; [eauto|]. apply Nat.eqb_neq in E. simpl in *. apply IH. lia.
Qed.
End Sending.
