(* ===== verification/Strings.v ===== *)
(** String utilities of the core: include/str/utils_no_boost.hpp and
    [parse_prompt_command] of include/str/utils.hpp.

    A position is a [nat] into the string, as [std::string::size_type] is, and
    [npos] is [None].  A [while] loop over positions takes fuel; the theorems say
    how much is enough. *)

From stdpp Require Import base list strings pretty.
From Stdlib Require Import Ascii ZArith Lia.
From Stdlib Require String.
From S2P Require Import Prelude.
Import String.StringSyntax.

(** ** std::string *)

Fixpoint is_prefix (key s : cppstring) : bool :=
  match key, s with
  | [], _ => true
  | k :: key', c :: s' => bool_decide (k = c) && is_prefix key' s'
  | _ :: _, [] => false
  end.

(** [find_at key s i]: the suffix [s] starts at position [i]. *)
Fixpoint find_at (key s : cppstring) (i : nat) : option nat :=
  if is_prefix key s then Some i
  else match s with [] => None | _ :: s' => find_at key s' (S i) end.

(** [s.find(key, pos)] *)
Definition find (s key : cppstring) (pos : nat) : option nat :=
  if Nat.leb pos (length s) then find_at key (drop pos s) pos else None.

(** [s.substr(pos, n)] and [s.substr(pos)], for [pos] in range. *)
Definition substr (s : cppstring) (pos n : nat) : cppstring := take n (drop pos s).
Definition substr_from (s : cppstring) (pos : nat) : cppstring := drop pos s.

Definition c_backslash : ascii := "092"%char.
Definition c_newline : ascii := "010"%char.
Definition c_return : ascii := "013"%char.
Definition c_tab : ascii := "009"%char.
Definition c_quote : ascii := "'"%char.
Definition c_dquote : ascii := "034"%char.
Definition c_blank : ascii := " "%char.
Definition c_equals : ascii := "="%char.

(** [std::isspace] in the "C" locale. *)
Definition isspace (c : ascii) : bool :=
  let n := nat_of_ascii c in Nat.eqb n 32 || (Nat.leb 9 n && Nat.leb n 13).

(** [std::isdigit]; the digits a text starts with; the value of a string of digits. *)
Definition isdigit (c : ascii) : bool := let n := nat_of_ascii c in Nat.leb 48 n && Nat.leb n 57.
Fixpoint digits_of (s : cppstring) : cppstring :=
  match s with c :: s' => if isdigit c then c :: digits_of s' else [] | [] => [] end.
Definition decimal (s : cppstring) : Z :=
  fold_left (fun v c => v * 10 + (Z.of_nat (nat_of_ascii c) - 48))%Z s 0%Z.

Lemma digits_of_app ds t : forallb isdigit ds = true -> (forall c t', t = c :: t' -> isdigit c = false) ->
  digits_of (ds ++ t) = ds.
Proof.
  induction ds as [|c ds IH]; cbn.
  - intros _ Ht. destruct t as [|c t]; [done|]. cbn. by rewrite (Ht c t eq_refl).
  - intros [Hc Hds]%andb_prop Ht. rewrite Hc. by rewrite IH.
Qed.

Lemma digits_of_digits s : forallb isdigit (digits_of s) = true.
Proof. induction s as [|c s IH]; cbn; [done|]. destruct (isdigit c) eqn:E; [|done]. cbn. by rewrite E. Qed.

(** A text is its leading digits and a rest that does not go on with one. *)
Lemma digits_of_split s : exists t, s = digits_of s ++ t /\ forall c t', t = c :: t' -> isdigit c = false.
Proof.
  induction s as [|c s (t & Hs & Ht)]; [by exists []|]. cbn. destruct (isdigit c) eqn:E.
  - exists t. split; [by rewrite Hs at 1 | done].
  - exists (c :: s). split; [done|]. by intros d t' [= <- <-].
Qed.

(** [str::xtos] of an integer. *)
Definition show (z : Z) : cppstring := str (pretty z).

(** ** replace *)

Fixpoint replace_loop (fuel : nat) (string replace_ with_ : cppstring) (pos : option nat) : option cppstring :=
  match pos with
  | None => Some string
  | Some pos =>
      match fuel with
      | O => None
      | S fuel' =>
          let string := substr string 0 pos ++ with_ ++ substr_from string (pos + length replace_) in
          let pos' := match find with_ replace_ 0 with
                      | Some _ => find string replace_ (pos + length with_)
                      | None => find string replace_ (pos + 1)
                      end in
          replace_loop fuel' string replace_ with_ pos'
      end
  end.

Definition replace (fuel : nat) (string replace_ with_ : cppstring) : option cppstring :=
  replace_loop fuel string replace_ with_ (find string replace_ 0).

(** ** unescape *)

Fixpoint unescape (s : cppstring) : cppstring :=
  match s with
  | [] => []
  | c :: s' =>
      if bool_decide (c = c_backslash) then
        match s' with
        | [] => [c]
        | d :: s'' =>
            (if bool_decide (d = "n"%char) then [c_newline]
             else if bool_decide (d = "r"%char) then [c_return]
             else if bool_decide (d = "t"%char) then [c_tab]
             else if bool_decide (d = c_backslash) then [c_backslash]
             else [c; d]) ++ unescape s''
        end
      else c :: unescape s'
  end.

(** ** split *)

Fixpoint skip_space (s : cppstring) : cppstring :=
  match s with
  | [] => []
  | c :: s' => if isspace c then skip_space s' else s
  end.

(** ** stoll *)

Definition digit_value (c : ascii) : Z := (Z.of_nat (nat_of_ascii c) - 48)%Z.

(** The digits at the front of the text, if any. *)
Fixpoint read_digits (s : cppstring) (acc : option Z) : option Z :=
  match s with
  | c :: s' => if isdigit c then read_digits s' (Some (default 0 acc * 10 + digit_value c)%Z) else acc
  | [] => acc
  end.

(** [std::stoll]: blanks, a sign, digits; what follows is ignored; no digits or a
    value that does not fit throws. *)
Definition stoll (s : cppstring) : option Z :=
  let s := skip_space s in
  let '(neg, s) := match s with
                   | c :: s' => if bool_decide (c = "-"%char) then (true, s')
                                else if bool_decide (c = "+"%char) then (false, s') else (false, s)
                   | [] => (false, s)
                   end in
  match read_digits s None with
  | None => None
  | Some n => let z := if neg then (- n)%Z else n in if bool_decide (in_s 64 z) then Some z else None
  end.

(** The two inner loops of [split_trimmed] on one piece. *)
Definition trim_space (s : cppstring) : cppstring := rev (skip_space (rev (skip_space s))).

Fixpoint split_trimmed_loop (fuel : nat) (s key : cppstring) (pos : nat) (ret : list cppstring)
    : option (list cppstring) :=
  if Nat.leb pos (length s) then
    match fuel with
    | O => None
    | S fuel' =>
        let step := if bool_decide (key = []) then 1 else length key in
        let e := match find s key pos with
                 | Some e => if bool_decide (key = []) then length s else e
                 | None => length s
                 end in
        let piece := trim_space (substr s pos (e - pos)) in
        let ret := if bool_decide (piece = []) then ret else ret ++ [piece] in
        split_trimmed_loop fuel' s key (e + step) ret
    end
  else Some ret.
Definition split_trimmed (s key : cppstring) : option (list cppstring) :=
  split_trimmed_loop (S (length s)) s key 0 [].

Fixpoint split_loop (fuel : nat) (s key : cppstring) (pos lpos : nat) (ret : list cppstring)
    : option (list cppstring) :=
  match find s key pos with
  | None => Some (if Nat.ltb lpos (length s) then ret ++ [substr_from s lpos] else ret)
  | Some pos =>
      match fuel with
      | O => None
      | S fuel' => split_loop fuel' s key (S pos) (S pos) (ret ++ [substr s lpos (pos - lpos)])
      end
  end.

(** One iteration per character is enough ([split_lst_total]). *)
Definition split_lst (s key : cppstring) : option (list cppstring) :=
  split_loop (S (length s)) s key 0 0 [].

Definition split2 (s key : cppstring) : cppstring * cppstring :=
  match find s key 0 with
  | None => (s, [])
  | Some pos => (substr s 0 pos, substr_from s (pos + length key))
  end.

Definition getToken (buffer : cppstring) (split : ascii) : cppstring * cppstring :=
  match find buffer [split] 0 with
  | None => (buffer, [])
  | Some pos =>
      if Nat.eqb pos (length buffer - 1) then (substr buffer 0 pos, [])
      else (substr buffer 0 pos, substr_from buffer (pos + 1))
  end.

(** ** parse_prompt_command *)

Record prompt := mkPrompt {
  args : list cppstring; current : cppstring; in_token : bool; equals : nat
}.

Definition flush (p : prompt) : prompt :=
  mkPrompt (if in_token p && negb (bool_decide (current p = [])) then args p ++ [current p] else args p)
           [] false 0.

(** Inside double quotes: the rest of the line after the closing quote (or the
    end), and the characters read. *)
Fixpoint read_dquoted (escapes : bool) (line : cppstring) : cppstring * cppstring :=
  match line with
  | [] => ([], [])
  | c :: line' =>
      if bool_decide (c = c_dquote) then (line', [])
      else if escapes && bool_decide (c = c_backslash) then
        match line' with
        | d :: line'' => let '(rest, t) := read_dquoted escapes line'' in (rest, d :: t)
        | [] => ([], [c])
        end
      else let '(rest, t) := read_dquoted escapes line' in (rest, c :: t)
  end.

Fixpoint read_quoted (line : cppstring) : cppstring * cppstring :=
  match line with
  | [] => ([], [])
  | c :: line' =>
      if bool_decide (c = c_quote) then (line', [])
      else let '(rest, t) := read_quoted line' in (rest, c :: t)
  end.

Definition put (t : cppstring) (eq : nat) (p : prompt) : prompt :=
  mkPrompt (args p) (current p ++ t) true (equals p + eq).

Definition value_start (p : prompt) : bool :=
  negb (in_token p) || (Nat.eqb (equals p) 1 && bool_decide (last (current p) = Some c_equals)).

(** One turn of the loop consumes at least one character: [fuel] counts characters. *)
Fixpoint prompt_loop (escapes : bool) (fuel : nat) (line : cppstring) (p : prompt) : prompt :=
  match fuel, line with
  | S fuel', c :: line' =>
      if bool_decide (c = c_blank) || bool_decide (c = c_tab) then prompt_loop escapes fuel' line' (flush p)
      else if bool_decide (c = c_dquote) then
        let '(rest, t) := read_dquoted escapes line' in prompt_loop escapes fuel' rest (put t 0 p)
      else if bool_decide (c = c_quote) && value_start p then
        let '(rest, t) := read_quoted line' in prompt_loop escapes fuel' rest (put t 0 p)
      else match line' with
           | d :: line'' =>
               if escapes && bool_decide (c = c_backslash) then prompt_loop escapes fuel' line'' (put [d] 0 p)
               else prompt_loop escapes fuel' line' (put [c] (if bool_decide (c = c_equals) then 1 else 0) p)
           | [] => prompt_loop escapes fuel' line' (put [c] (if bool_decide (c = c_equals) then 1 else 0) p)
           end
  | _, _ => p
  end.

Definition parse_prompt_command (line : cppstring) (backslash_escapes : bool) : list cppstring :=
  args (flush (prompt_loop backslash_escapes (length line) line (mkPrompt [] [] false 0))).

(** ** find *)

Section Find.
Implicit Types s key a b : cppstring.

Lemma is_prefix_iff key s : is_prefix key s = true <-> exists b, s = key ++ b.
Proof.
  revert s. induction key as [|k key IH]; intros s; simpl; [split; [eauto|done]|].
  destruct s as [|c s]; [split; [done|by intros []]|].
  rewrite andb_true_iff, bool_decide_eq_true, IH. split.
  - intros [-> [b ->]]. by exists b.
  - intros [b [= -> ->]]. eauto.
Qed.

Lemma find_at_Some key s i j :
  find_at key s i = Some j ->
  exists a b, s = a ++ key ++ b /\ j = i + length a /\
    forall a' b', s = a' ++ key ++ b' -> length a <= length a'.
Proof.
  revert i. induction s as [|c s IH]; intros i; simpl;
    destruct (is_prefix key _) eqn:E; intros H; try discriminate;
    try (injection H as <-; apply is_prefix_iff in E as [b Hb]; exists [], b; simpl; rewrite Hb;
         split_and!; [done | lia | intros; lia]).
  apply IH in H as (a & b & -> & -> & Hmin). exists (c :: a), b. split_and!; [done | simpl; lia |].
  intros [|c' a'] b' Hab; simpl in *.
  - assert (is_prefix key (c :: a ++ key ++ b) = true) by (apply is_prefix_iff; eauto). congruence.
  - injection Hab as <- Hab. apply Hmin in Hab. lia.
Qed.

Lemma find_at_None key s i : find_at key s i = None -> forall a b, s <> a ++ key ++ b.
Proof.
  revert i. induction s as [|c s IH]; intros i; simpl;
    destruct (is_prefix key _) eqn:E; intros H; try discriminate; intros a b Hab.
  - destruct a, key; done.
  - destruct a as [|c' a]; simpl in *.
    + assert (is_prefix key (c :: s) = true) by (apply is_prefix_iff; eauto). congruence.
    + injection Hab as <- Hab. by apply (IH _ H a b).
Qed.

Lemma find_range s key pos j : find s key pos = Some j -> pos <= j /\ j + length key <= length s.
Proof.
  unfold find. destruct (Nat.leb_spec pos (length s)) as [Hle|]; [|done].
  intros (a & b & Hs & -> & _)%find_at_Some.
  apply (f_equal length) in Hs. rewrite length_drop, !length_app in Hs. lia.
Qed.

(** A single character is found at its first occurrence. *)
Lemma find_char s c pre :
  match find (pre ++ s) [c] (length pre) with
  | Some j => exists a b, s = a ++ c :: b /\ c ∉ a /\ j = length pre + length a
  | None => c ∉ s
  end.
Proof.
  unfold find. rewrite length_app. destruct (Nat.leb_spec (length pre) (length pre + length s)); [|lia].
  rewrite drop_app_length. destruct (find_at [c] s (length pre)) as [j|] eqn:E.
  - apply find_at_Some in E as (a & b & -> & -> & Hmin). exists a, b. split_and!; [done| |done].
    intros Hin. apply list_elem_of_split in Hin as (a1 & a2 & ->).
    specialize (Hmin a1 (a2 ++ c :: b)). rewrite length_app in Hmin. simpl in Hmin.
    rewrite <- !app_assoc in Hmin. simpl in Hmin. specialize (Hmin eq_refl). lia.
  - intros Hin. apply list_elem_of_split in Hin as (a1 & a2 & ->). by eapply (find_at_None _ _ _ E a1 a2).
Qed.

Lemma first_split_unique c a b a' b' : c ∉ a -> c ∉ a' -> a ++ c :: b = a' ++ c :: b' -> a = a' /\ b = b'.
Proof.
  revert a'. induction a as [|x a IH]; intros [|x' a'] Ha Ha' E; injection E.
  - by intros ->.
  - intros _ <-. by destruct Ha'; left.
  - intros _ ->. by destruct Ha; left.
  - intros E' ->. apply not_elem_of_cons in Ha as [_ Ha], Ha' as [_ Ha']. destruct (IH a' Ha Ha' E') as [-> ->]. done.
Qed.

Lemma find_char_next pre a c b : c ∉ a -> find (pre ++ a ++ c :: b) [c] (length pre) = Some (length pre + length a).
Proof.
  intros Ha. pose proof (find_char (a ++ c :: b) c pre) as Hf. destruct (find _ _ _) as [j|].
  - destruct Hf as (a' & b' & E & Ha' & ->). by destruct (first_split_unique _ _ _ _ _ Ha Ha' E) as [-> _].
  - destruct Hf. apply elem_of_app. right. left.
Qed.

Lemma find_char_first a c b : c ∉ a -> find (a ++ c :: b) [c] 0 = Some (length a).
Proof. apply (find_char_next []). Qed.

Lemma find_char_None c s : c ∉ s -> find s [c] 0 = None.
Proof.
  intros Hs. pose proof (find_char s c []) as H. cbn [app length] in H. destruct (find s [c] 0) as [j|]; [|done].
  destruct H as (a & b & -> & _). destruct Hs. apply elem_of_app. right. left.
Qed.

(** What follows a separator *)
Lemma drop_separator a c b : drop (length a + 1) (a ++ c :: b) = b.
Proof. by rewrite <-drop_drop, drop_app_length. Qed.
End Find.

(** ** split *)

Section Split.
Implicit Types s a b : cppstring.

(** The pieces between separators; a trailing empty piece is dropped. *)
Fixpoint pieces (c : ascii) (s : cppstring) : list cppstring :=
  match s with
  | [] => []
  | x :: s' =>
      if bool_decide (x = c) then [] :: pieces c s'
      else match pieces c s' with [] => [[x]] | p :: ps => (x :: p) :: ps end
  end.

Fixpoint join_with (c : ascii) (ps : list cppstring) : cppstring :=
  match ps with
  | [] => []
  | [p] => p
  | p :: ps' => p ++ c :: join_with c ps'
  end.

Lemma pieces_cons c a b : c ∉ a -> pieces c (a ++ c :: b) = a :: pieces c b.
Proof.
  induction a as [|x a IH]; simpl; intros Ha.
  - by rewrite bool_decide_eq_true_2.
  - apply not_elem_of_cons in Ha as [Hx Ha]. rewrite bool_decide_eq_false_2 by congruence. by rewrite IH.
Qed.

Lemma pieces_last c a : c ∉ a -> pieces c a = if bool_decide (a = []) then [] else [a].
Proof.
  induction a as [|x a IH]; intros Ha; [done|]. apply not_elem_of_cons in Ha as [Hx Ha]. simpl.
  rewrite bool_decide_eq_false_2 by congruence. rewrite IH by done. by destruct a.
Qed.

Lemma split_loop_char c fuel : forall s pre ret, length s < fuel ->
  split_loop fuel (pre ++ s) [c] (length pre) (length pre) ret = Some (ret ++ pieces c s).
Proof.
  induction fuel as [|fuel IH]; intros s pre ret Hf; [lia|]. simpl.
  pose proof (find_char s c pre) as Hfind. destruct (find (pre ++ s) [c] (length pre)) as [j|].
  - destruct Hfind as (a & b & -> & Ha & ->).
    replace (S (length pre + length a)) with (length (pre ++ a ++ [c])) by (rewrite !length_app; simpl; lia).
    replace (pre ++ a ++ c :: b) with ((pre ++ a ++ [c]) ++ b) at 1 by (by rewrite <- !app_assoc).
    rewrite IH by (rewrite length_app in Hf; simpl in Hf; lia). rewrite pieces_cons by done.
    unfold substr. replace (length pre + length a - length pre) with (length a) by lia.
    rewrite drop_app_length, take_app_length. by rewrite <- app_assoc.
  - rewrite pieces_last by done. unfold substr_from. rewrite length_app, drop_app_length.
    destruct s as [|x s]; simpl.
    + destruct (Nat.ltb_spec (length pre) (length pre + 0)); [lia|]. by rewrite app_nil_r.
    + destruct (Nat.ltb_spec (length pre) (length pre + S (length s))); [done|lia].
Qed.

Lemma split_lst_char s c : split_lst s [c] = Some (pieces c s).
Proof. unfold split_lst. apply (split_loop_char c (S (length s)) s [] []). lia. Qed.

Lemma pieces_join c ps :
  Forall (fun p => c ∉ p) ps -> last ps <> Some [] -> pieces c (join_with c ps) = ps.
Proof.
  induction 1 as [|p ps Hp Hps IH]; intros Hl; [done|]. destruct ps as [|p' ps].
  - simpl in *. rewrite pieces_last by done. case_bool_decide; congruence.
  - change (join_with c (p :: p' :: ps)) with (p ++ c :: join_with c (p' :: ps)).
    rewrite pieces_cons by done. f_equal. apply IH. done.
Qed.

Lemma split_loop_total s key fuel : forall pos lpos ret,
  length s + 1 - pos <= fuel -> exists l, split_loop fuel s key pos lpos ret = Some l.
Proof.
  induction fuel as [|fuel IH]; intros pos lpos ret Hf; simpl;
    destruct (find s key pos) as [j|] eqn:E; eauto; apply find_range in E as [? ?]; [lia|].
  apply IH. lia.
Qed.
End Split.

(** split_lst terminates on every string and separator (the empty one too); with a one-character
    separator it gives back any list of separator-free pieces that was joined with it, unless
    the last piece is empty. *)
Theorem split_lst_roundtrip (c : ascii) (ps : list cppstring) :
  (forall s key, exists l, split_lst s key = Some l) /\
  (Forall (fun p => c ∉ p) ps -> last ps <> Some [] -> split_lst (join_with c ps) [c] = Some ps) /\
  (forall a b, c ∉ a -> split_lst (a ++ c :: b) [c] = (fun l => a :: l) <$> split_lst b [c]).
Proof.
  split_and!.
  - intros s key. apply split_loop_total. lia.
  - intros Hps Hl. rewrite split_lst_char. by rewrite pieces_join.
  - intros a b Ha. rewrite !split_lst_char. by rewrite pieces_cons.
Qed.

Lemma split_lst_roundtrip_witness :
  split_lst (join_with ","%char [str "nagios"; []; str "syslog"]) [","%char] = Some [str "nagios"; []; str "syslog"].
Proof.
  apply (proj1 (proj2 (split_lst_roundtrip ","%char [str "nagios"; []; str "syslog"]))).
  - repeat (apply Forall_cons_2; [vm_decide|]). apply Forall_nil_2.
  - discriminate.
Defined.

(** With a separator of two characters split_lst leaves the second one in the next piece; split2
    skips the whole separator. *)
Theorem split_lst_long_key_keeps_tail :
  split_lst (str "name::value") (str "::") = Some [str "name"; str ":value"] /\
  split2 (str "name::value") (str "::") = (str "name", str "value").
Proof. split; vm_compute; reflexivity. Qed.

(** ** replace *)

Section Replace.
Implicit Types s key a b : cppstring.

(** Every occurrence of one character replaced. *)
Definition subst_char (c : ascii) (w s : cppstring) : cppstring :=
  concat (map (fun x => if bool_decide (x = c) then w else [x]) s).

Lemma subst_char_cons c w a b : c ∉ a -> subst_char c w (a ++ c :: b) = a ++ w ++ subst_char c w b.
Proof.
  unfold subst_char. induction a as [|x a IH]; simpl; intros Ha.
  - by rewrite bool_decide_eq_true_2.
  - apply not_elem_of_cons in Ha as [Hx Ha]. rewrite bool_decide_eq_false_2 by congruence. by rewrite IH.
Qed.
Lemma subst_char_none c w a : c ∉ a -> subst_char c w a = a.
Proof.
  unfold subst_char. induction a as [|x a IH]; simpl; intros Ha; [done|].
  apply not_elem_of_cons in Ha as [Hx Ha]. rewrite bool_decide_eq_false_2 by congruence. by rewrite IH.
Qed.

(** From [pos], which lies inside the last replacement, the next occurrence is
    found after it. *)
Lemma next_char pre w s c :
  w <> [] ->
  match find w [c] 0 with
  | Some _ => find (pre ++ w ++ s) [c] (length pre + length w)
  | None => find (pre ++ w ++ s) [c] (length pre + 1)
  end = find ((pre ++ w) ++ s) [c] (length (pre ++ w)).
Proof.
  intros Hw. rewrite length_app, app_assoc. pose proof (find_char w c []) as Hf. simpl in Hf.
  destruct (find w [c] 0); [done|].
  destruct w as [|x w]; [done|]. clear Hw. apply not_elem_of_cons in Hf as [_ Hf].
  assert (Hskip : forall v i, c ∉ v -> find_at [c] (v ++ s) i = find_at [c] s (i + length v)).
  { clear. intros v. induction v as [|y v IH]; intros i Hv; simpl; [f_equal; lia|].
    apply not_elem_of_cons in Hv as [Hy Hv]. rewrite bool_decide_eq_false_2 by congruence. simpl.
    rewrite IH by done. f_equal. lia. }
  unfold find. rewrite !length_app. simpl.
  destruct (Nat.leb_spec (length pre + 1) (length pre + S (length w) + length s)); [|lia].
  destruct (Nat.leb_spec (length pre + S (length w)) (length pre + S (length w) + length s)); [|lia].
  replace (drop (length pre + 1) ((pre ++ x :: w) ++ s)) with (w ++ s)
    by (rewrite <- drop_drop, <- app_assoc, drop_app_length; done).
  replace (drop (length pre + S (length w)) ((pre ++ x :: w) ++ s)) with s.
  - rewrite Hskip by done. f_equal. lia.
  - replace (length pre + S (length w)) with (length (pre ++ x :: w)) by (rewrite length_app; done).
    by rewrite drop_app_length.
Qed.

Lemma replace_loop_char c w fuel : w <> [] -> forall s pre, length s <= fuel ->
  replace_loop fuel (pre ++ s) [c] w (find (pre ++ s) [c] (length pre)) = Some (pre ++ subst_char c w s).
Proof.
  intros Hw. induction fuel as [|fuel IH]; intros s pre Hf;
    pose proof (find_char s c pre) as Hc; destruct (find (pre ++ s) [c] (length pre)) as [j|]; simpl.
  - destruct Hc as (a & b & -> & _). rewrite length_app in Hf. simpl in Hf. lia.
  - by rewrite subst_char_none.
  - destruct Hc as (a & b & -> & Ha & ->). rewrite length_app in Hf. simpl in Hf.
    unfold substr, substr_from. rewrite drop_0, <- length_app.
    replace (pre ++ a ++ c :: b) with ((pre ++ a) ++ c :: b) by (by rewrite app_assoc).
    rewrite take_app_length, <- drop_drop, drop_app_length. change (drop 1 (c :: b)) with b.
    rewrite next_char by done. rewrite (app_assoc (pre ++ a) w b), (IH b ((pre ++ a) ++ w)) by lia.
    by rewrite subst_char_cons, <- !app_assoc.
  - by rewrite subst_char_none.
Qed.

Lemma sublist_inside (A B w a b key : cppstring) :
  A ++ w ++ B = a ++ key ++ b -> length A <= length a -> length a + length key <= length A + length w ->
  exists x y, w = x ++ key ++ y.
Proof.
  intros He Hl Hr. apply (f_equal (drop (length A))) in He.
  rewrite drop_app_length, drop_app_le, app_assoc in He by done.
  assert (Hlen : length (drop (length A) a ++ key) <= length w) by (rewrite length_app, length_drop; lia).
  apply (f_equal (take (length w))) in He. rewrite take_app_length, take_app_ge in He by done.
  rewrite <- app_assoc in He. eauto.
Qed.

(** With a non-empty key, a replacement consumes text that follows the previous
    one, so there is at most one per character. *)
Lemma replace_loop_total key w fuel : key <> [] -> forall string pos,
  (match pos with Some p => p + length key <= length string /\ length string - p - length key < fuel | None => True end) ->
  exists r, replace_loop fuel string key w pos = Some r.
Proof.
  intros Hk. assert (0 < length key) as Hk0 by (destruct key; simpl in *; [done|lia]).
  induction fuel as [|fuel IH]; intros string [p|] Hp; simpl; eauto; [lia|].
  destruct Hp as [Hp Hf]. unfold substr, substr_from. rewrite drop_0.
  set (new := take p string ++ w ++ drop (p + length key) string).
  assert (Hlen : length new = p + length w + (length string - (p + length key)))
    by (unfold new; rewrite !length_app, length_take, length_drop; lia).
  apply IH. destruct (find w key 0) eqn:Ew.
  - destruct (find new key (p + length w)) as [q|] eqn:Eq; [|done]. apply find_range in Eq. lia.
  - destruct (find new key (p + 1)) as [q|] eqn:Eq; [|done].
    apply find_range in Eq as Hr. split; [lia|].
    assert (p + length w < q + length key); [|lia].
    destruct (Nat.lt_ge_cases (p + length w) (q + length key)) as [|Hin]; [done|]. exfalso.
    unfold find in Eq. destruct (Nat.leb_spec (p + 1) (length new)); [|done].
    apply find_at_Some in Eq as (a & b & Hs & -> & _).
    unfold find in Ew. simpl in Ew. rewrite drop_0 in Ew.
    assert (Hnew : take p string ++ w ++ drop (p + length key) string = (take (p + 1) new ++ a) ++ key ++ b)
      by (rewrite <- app_assoc, <- Hs, take_drop; done).
    destruct (sublist_inside _ _ _ _ _ _ Hnew) as (x & y & Hxy); [rewrite ?length_app, ?length_take; lia..|].
    by apply (find_at_None _ _ _ Ew x y).
Qed.
End Replace.

(** replace terminates for every non-empty key, also when the replacement contains the key; for
    a one-character key and a non-empty replacement it substitutes every occurrence and nothing
    else. *)
Theorem replace_correct (s key w : cppstring) (c : ascii) :
  (key <> [] -> exists r, replace (S (length s)) s key w = Some r) /\
  (w <> [] -> replace (S (length s)) s [c] w = Some (subst_char c w s)).
Proof.
  split.
  - intros Hk. apply replace_loop_total; [done|]. destruct (find s key 0) as [p|] eqn:E; [|done].
    apply find_range in E. lia.
  - intros Hw. apply (replace_loop_char c w _ Hw s []). lia.
Qed.

Lemma replace_correct_witness :
  replace 12 (str "C:\a b(c)") [" "%char] (str "_") = Some (subst_char " "%char (str "_") (str "C:\a b(c)")).
Proof. apply (proj2 (replace_correct (str "C:\a b(c)") (str "x") (str "_") " "%char)). discriminate. Defined.

(** With an empty replacement, replace searches on from the character after the removed one and
    leaves the second of two adjacent occurrences in place, while separated occurrences are all
    removed. *)
Theorem replace_removal_skips_adjacent :
  replace 10 (str "aXXb") (str "X") [] = Some (str "aXb") /\
  replace 10 (str "aXbXc") (str "X") [] = Some (str "abc").
Proof. split; vm_compute; reflexivity. Qed.

(** ** unescape *)

(** How a literal text is written for [unescape]. *)
Definition escape_char (c : ascii) : cppstring :=
  if bool_decide (c = c_newline) then [c_backslash; "n"%char]
  else if bool_decide (c = c_return) then [c_backslash; "r"%char]
  else if bool_decide (c = c_tab) then [c_backslash; "t"%char]
  else if bool_decide (c = c_backslash) then [c_backslash; c_backslash]
  else [c].

(** Writing newlines, returns, tabs and backslashes of any text as escapes and decoding it with
    unescape gives the text back. *)
Theorem unescape_roundtrip (s : cppstring) : unescape (concat (map escape_char s)) = s.
Proof.
  induction s as [|c s IH]; [done|]. cbn [map concat].
  generalize dependent (concat (map escape_char s)). intros r IH. unfold escape_char.
  repeat case_bool_decide; try subst c; cbn [app unescape];
    repeat (rewrite bool_decide_eq_false_2 by (done || congruence) || rewrite bool_decide_eq_true_2 by done);
    by rewrite IH.
Qed.

(** ** parse_prompt_command *)

Section Prompt.
Implicit Types line rest a : cppstring.

Lemma read_quoted_app a rest : c_quote ∉ a -> read_quoted (a ++ c_quote :: rest) = (rest, a).
Proof.
  induction a as [|c a IH]; simpl; intros Ha.
  - done.
  - apply not_elem_of_cons in Ha as [Hc Ha]. rewrite bool_decide_eq_false_2 by congruence. by rewrite IH.
Qed.

Lemma read_dquoted_length escapes line :
  length (read_dquoted escapes line).1 <= length line.
Proof.
  induction line as [line IH] using (induction_ltof1 _ (@length _)). unfold ltof in IH.
  destruct line as [|c line]; [done|]. cbn [read_dquoted]. case_bool_decide; [simpl; lia|].
  destruct (escapes && bool_decide (c = c_backslash)).
  - destruct line as [|d line]; [simpl; lia|]. specialize (IH line ltac:(simpl; lia)).
    destruct (read_dquoted escapes line). simpl in *. lia.
  - specialize (IH line ltac:(simpl; lia)). destruct (read_dquoted escapes line). simpl in *. lia.
Qed.

Lemma read_quoted_length line : length (read_quoted line).1 <= length line.
Proof.
  induction line as [|c line IH]; [done|]. cbn [read_quoted]. case_bool_decide; [simpl; lia|].
  destruct (read_quoted line). simpl in *. lia.
Qed.

(** The line never outlives the fuel: more fuel changes nothing. *)
Lemma prompt_loop_fuel escapes fuel : forall fuel' line p,
  length line <= fuel -> length line <= fuel' -> prompt_loop escapes fuel line p = prompt_loop escapes fuel' line p.
Proof.
  induction fuel as [|fuel IH]; intros [|fuel'] [|c line] p H1 H2; simpl in *; try lia; try done.
  pose proof (read_dquoted_length escapes line). pose proof (read_quoted_length line).
  destruct (_ || _); [apply IH; lia|].
  destruct (bool_decide _); [destruct (read_dquoted escapes line); simpl in *; apply IH; lia|].
  destruct (_ && _); [destruct (read_quoted line); simpl in *; apply IH; lia|].
  clear H H0. destruct line as [|d line]; [apply IH; simpl; lia|]. simpl in *.
  destruct (_ && _); apply IH; simpl; lia.
Qed.

Definition quote_arg a : cppstring := c_quote :: a ++ [c_quote].

(** The command line with every argument in single quotes. *)
Fixpoint quoted_line (l : list cppstring) : cppstring :=
  match l with
  | [] => []
  | [a] => quote_arg a
  | a :: l' => quote_arg a ++ c_blank :: quoted_line l'
  end.

Lemma prompt_loop_quoted escapes fuel a rest done_ :
  c_quote ∉ a -> length rest <= fuel ->
  prompt_loop escapes (S fuel) (quote_arg a ++ rest) (mkPrompt done_ [] false 0)
  = prompt_loop escapes fuel rest (mkPrompt done_ a true 0).
Proof.
  intros Ha Hf. unfold quote_arg. cbn [app prompt_loop].
  rewrite !bool_decide_eq_false_2 by done. rewrite bool_decide_eq_true_2 by done. cbn [orb andb value_start negb in_token].
  rewrite <- app_assoc. cbn [app]. rewrite read_quoted_app by done. done.
Qed.

Lemma prompt_loop_line escapes l : forall done_ fuel,
  Forall (fun a => (c_quote ∉ a) /\ a <> []) l -> length (quoted_line l) <= fuel ->
  args (flush (prompt_loop escapes fuel (quoted_line l) (mkPrompt done_ [] false 0))) = done_ ++ l.
Proof.
  induction l as [|a l IH]; intros done_ fuel Hl Hf.
  { destruct fuel; simpl; by rewrite app_nil_r. }
  apply Forall_cons in Hl as [[Ha Hne] Hl]. destruct l as [|b l].
  - cbn [quoted_line] in *. rewrite <- (app_nil_r (quote_arg a)) in *.
    destruct fuel as [|fuel]; [simpl in Hf; lia|]. rewrite prompt_loop_quoted by (done || simpl; lia).
    assert (Hnil : forall p, prompt_loop escapes fuel [] p = p) by (by destruct fuel).
    rewrite Hnil. unfold flush. cbn [in_token current args andb]. by rewrite bool_decide_eq_false_2.
  - change (quoted_line (a :: b :: l)) with (quote_arg a ++ c_blank :: quoted_line (b :: l)) in *.
    rewrite length_app in Hf. cbn [length] in Hf. pose proof (length_app (c_quote :: a) [c_quote]) as Hq.
    unfold quote_arg in Hf at 1. rewrite app_comm_cons in Hf. cbn [length] in Hq.
    destruct fuel as [|fuel]; [lia|]. rewrite prompt_loop_quoted by (done || cbn [length]; lia).
    destruct fuel as [|fuel]; [lia|]. cbn [prompt_loop]. rewrite bool_decide_eq_true_2 by done. cbn [orb].
    unfold flush at 2. cbn [in_token current args andb]. rewrite bool_decide_eq_false_2 by done. cbn [negb].
    rewrite IH by (done || lia). by rewrite <- app_assoc.
Qed.
End Prompt.

(** A command line in which every non-empty argument is written in single quotes is tokenised
    back into exactly those arguments, with backslash escapes on or off: backslashes, blanks and
    double quotes inside are literal. *)
Theorem parse_prompt_roundtrip (l : list cppstring) (backslash_escapes : bool)
    (Hl : Forall (fun a => (c_quote ∉ a) /\ a <> []) l) :
  parse_prompt_command (quoted_line l) backslash_escapes = l.
Proof. by apply (prompt_loop_line backslash_escapes l []). Qed.

Lemma parse_prompt_roundtrip_witness :
  parse_prompt_command (quoted_line [str "check_files"; str "path=C:\temp\x y"]) true
  = [str "check_files"; str "path=C:\temp\x y"].
Proof.
  apply parse_prompt_roundtrip. repeat (apply Forall_cons_2; [split; [vm_decide | discriminate]|]). apply Forall_nil_2.
Defined.

(** ** split_trimmed *)

Section SplitTrimmed.
Implicit Types s key a b : cppstring.

Definition trimmed_pieces (ps : list cppstring) : list cppstring :=
  filter (fun p => p <> []) (map trim_space ps).

Lemma trimmed_pieces_cons a ps ret :
  (if bool_decide (trim_space a = []) then ret else ret ++ [trim_space a]) ++ trimmed_pieces ps
  = ret ++ trimmed_pieces (a :: ps).
Proof.
  unfold trimmed_pieces. cbn [map]. rewrite filter_cons.
  case_bool_decide; case_decide; try done. by rewrite <- app_assoc.
Qed.

Lemma trimmed_pieces_last c s : c ∉ s -> trimmed_pieces (pieces c s) = trimmed_pieces [s].
Proof. intros. rewrite pieces_last by done. by case_bool_decide; [subst|]. Qed.

Lemma split_trimmed_loop_char c fuel : forall s pre ret, length s < fuel ->
  split_trimmed_loop fuel (pre ++ s) [c] (length pre) ret = Some (ret ++ trimmed_pieces (pieces c s)).
Proof.
  induction fuel as [|fuel IH]; intros s pre ret Hf; [lia|]. cbn [split_trimmed_loop].
  destruct (Nat.leb_spec (length pre) (length (pre ++ s))) as [_|H]; [|rewrite length_app in H; lia].
  rewrite (bool_decide_eq_false_2 ([c] = [])) by done. pose proof (find_char s c pre) as Hfind.
  destruct (find (pre ++ s) [c] (length pre)) as [j|].
  - destruct Hfind as (a & b & -> & Ha & ->). unfold substr.
    replace (length pre + length a - length pre) with (length a) by lia.
    rewrite drop_app_length, take_app_length.
    replace (length pre + length a + length [c]) with (length (pre ++ a ++ [c])) by (rewrite !length_app; simpl; lia).
    replace (pre ++ a ++ c :: b) with ((pre ++ a ++ [c]) ++ b) at 1 by (by rewrite <- !app_assoc).
    rewrite IH by (rewrite length_app in Hf; simpl in Hf; lia).
    by rewrite pieces_cons, trimmed_pieces_cons.
  - unfold substr. rewrite drop_app_length, (take_ge s) by (rewrite length_app; lia).
    rewrite trimmed_pieces_last by done. rewrite <- trimmed_pieces_cons. change (trimmed_pieces []) with (@nil cppstring).
    rewrite app_nil_r. destruct fuel; cbn [split_trimmed_loop];
      (destruct (Nat.leb_spec (length (pre ++ s) + length [c]) (length (pre ++ s))); [simpl in *; lia | done]).
Qed.

Lemma split_trimmed_total s key : exists l, split_trimmed s key = Some l.
Proof.
  unfold split_trimmed.
  assert (H : forall fuel pos ret, length s < pos + fuel -> exists l, split_trimmed_loop fuel s key pos ret = Some l).
  { induction fuel as [|fuel IH]; intros pos ret Hf; cbn [split_trimmed_loop];
      (destruct (Nat.leb_spec pos (length s)); [|eauto]); [lia|].
    apply IH. destruct (find s key pos) as [j|] eqn:E; [apply find_range in E|];
      repeat case_bool_decide; destruct key; simpl in *; done || lia. }
  apply H. lia.
Qed.
End SplitTrimmed.

(** split_trimmed terminates for every separator, and for a one-character separator gives the
    non-empty trimmed pieces of the text in order. *)
Theorem split_trimmed_correct (s : cppstring) (c : ascii) :
  (forall key, exists l, split_trimmed s key = Some l) /\
  split_trimmed s [c] = Some (filter (fun p => p <> []) (map trim_space (pieces c s))).
Proof.
  split; [apply split_trimmed_total|]. apply (split_trimmed_loop_char c (S (length s)) s []). lia.
Qed.

(** ** Printed numbers *)

Lemma decimal_snoc ds c : decimal (ds ++ [c]) = (decimal ds * 10 + (Z.of_nat (nat_of_ascii c) - 48))%Z.
Proof. unfold decimal. by rewrite fold_left_app. Qed.

Lemma pretty_N_char_digit n : (n < 10)%N ->
  isdigit (pretty_N_char n) = true /\ Z.of_nat (nat_of_ascii (pretty_N_char n)) = (Z.of_N n + 48)%Z.
Proof. intros Hn. destruct n as [|[[[[]|[]|]|[[]|[]|]|]|[[[]|[]|]|[[]|[]|]|]|]]; try done; lia. Qed.

Lemma pretty_N_go_digits n : forall s, exists ds, str (pretty_N_go n s) = ds ++ str s /\
  forallb isdigit ds = true /\ decimal ds = Z.of_N n /\ (n <> 0%N -> ds <> []).
Proof.
  induction (N.lt_wf_0 n) as [n _ IH]. intros s. destruct (N.eq_dec n 0) as [->|Hn].
  - exists []. by rewrite pretty_N_go_0.
  - rewrite pretty_N_go_step by lia. destruct (pretty_N_char_digit (n mod 10)) as [Hd Hv]; [apply N.mod_upper_bound; lia|].
    destruct (IH (n / 10)%N ltac:(apply N.div_lt; lia) (String.String (pretty_N_char (n mod 10)) s)) as (ds & -> & Hds & Hdv & _).
    exists (ds ++ [pretty_N_char (n mod 10)]). rewrite <- app_assoc. split_and!; [done| | |by destruct ds].
    + by rewrite forallb_app, Hds; cbn; rewrite Hd.
    + rewrite decimal_snoc, Hdv, Hv. pose proof (N.div_mod n 10 ltac:(lia)). lia.
Qed.

(** A natural number is printed as digits that stand for it. *)
Lemma show_digits z : (0 <= z)%Z -> show z <> [] /\ forallb isdigit (show z) = true /\ decimal (show z) = z.
Proof.
  intros Hz. destruct z as [|p|p]; [done| |lia]. change (show (Z.pos p)) with (str (pretty_N_go (N.pos p) String.EmptyString)).
  destruct (pretty_N_go_digits (N.pos p) String.EmptyString) as (ds & -> & Hd & Hv & Hne). rewrite app_nil_r. split_and!; auto.
Qed.

Lemma show_not_in z c : (0 <= z)%Z -> isdigit c = false -> c ∉ show z.
Proof.
  intros Hz Hc Hin. destruct (show_digits z Hz) as (_ & Hd & _). rewrite forallb_forall in Hd.
  apply list_elem_of_In in Hin. rewrite (Hd _ Hin) in Hc. done.
Qed.

Lemma read_digits_decimal ds rest acc :
  forallb isdigit ds = true -> ds <> [] -> (forall c r, rest = c :: r -> isdigit c = false) ->
  read_digits (ds ++ rest) acc = Some (fold_left (fun v c => v * 10 + (Z.of_nat (nat_of_ascii c) - 48))%Z ds (default 0%Z acc)).
Proof.
  intros Hd Hne Hr. revert acc Hd Hne. induction ds as [|d ds IH]; intros acc Hd Hne; [done|]. cbn in Hd |- *.
  apply andb_prop in Hd as [Hc Hd]. rewrite Hc. destruct ds as [|d' ds].
  - cbn. destruct rest as [|c r]; [done|]. cbn. by rewrite (Hr c r).
  - rewrite IH by done. done.
Qed.

Lemma show_neg p : show (Z.neg p) = "-"%char :: show (Z.pos p).
Proof. done. Qed.
Lemma show_head z : exists c s, show z = c :: s /\ isspace c = false /\ c <> "+"%char /\ (c = "-"%char <-> (z < 0)%Z).
Proof.
  destruct (Z.ltb_spec z 0) as [Hz|Hz].
  - destruct z as [|p|p]; [lia|lia|]. rewrite show_neg. eexists _, _. split_and!; [done|done|done|]. split; [lia|done].
  - destruct (show_digits z Hz) as (Hne & Hd & _). destruct (show z) as [|c s]; [done|]. exists c, s. cbn in Hd.
    apply andb_prop in Hd as [Hc _]. split_and!; [done| | |].
    + revert Hc. clear. destruct c as [[] [] [] [] [] [] [] []]; vm_compute; done.
    + intros ->. done.
    + split; [intros ->; done|lia].
Qed.

(** A number of 64 bits is read back from its decimal form. *)
Lemma stoll_show z rest : in_s 64 z -> (forall c r, rest = c :: r -> isdigit c = false) -> stoll (show z ++ rest) = Some z.
Proof.
  intros Hz Hr. unfold stoll. destruct (show_head z) as (c & s & E & Hsp & Hplus & Hminus).
  assert (skip_space (show z ++ rest) = show z ++ rest) as ->. { rewrite E. cbn. by rewrite Hsp. }
  destruct (Z.ltb_spec z 0) as [Hneg|Hpos].
  - destruct z as [|p|p]; [lia|lia|]. rewrite show_neg. cbn [app]. rewrite bool_decide_eq_true_2 by done.
    destruct (show_digits (Z.pos p) ltac:(lia)) as (Hne & Hd & Hv). rewrite read_digits_decimal by done. unfold decimal in Hv.
    cbn [default]. rewrite Hv. by rewrite bool_decide_eq_true_2.
  - rewrite E. cbn [app]. rewrite bool_decide_eq_false_2 by (intros Hc; apply Hminus in Hc; lia).
    rewrite bool_decide_eq_false_2 by done. rewrite app_comm_cons, <-E.
    destruct (show_digits z Hpos) as (Hne & Hd & Hv). rewrite read_digits_decimal by done. unfold decimal in Hv. cbn [default].
    rewrite Hv. by rewrite bool_decide_eq_true_2.
Qed.
Lemma show_char z c : c ∈ show z -> isdigit c = true \/ c = "-"%char.
Proof.
  destruct (Z.ltb_spec z 0) as [Hz|Hz].
  - destruct z as [|p|p]; [lia|lia|]. rewrite show_neg, elem_of_cons. intros [->|Hin]; [auto|].
    destruct (show_digits (Z.pos p) ltac:(lia)) as (_ & Hd & _). rewrite forallb_forall in Hd. left. by apply Hd, list_elem_of_In.
  - destruct (show_digits z Hz) as (_ & Hd & _). rewrite forallb_forall in Hd. intros Hin. left. by apply Hd, list_elem_of_In.
Qed.
