(* ===== verification/Permissions.v ===== *)
(** The permission policy of the core: service/permissions.hpp.

    [perm_state] is [permissions::state]; the lock the methods take around it
    makes each of them atomic, so a method is one function on the state.
    [glob_impl] is the iterative matcher with its two back-tracking pointers; it
    is compared with the relation [glob_rel] that says what a glob means. *)

From stdpp Require Import base list.
From Stdlib Require Import Ascii ZArith Lia.
From Stdlib Require String.
From S2P Require Import Prelude.
Import String.StringSyntax.

Definition c_star : ascii := "*"%char.
Definition c_any : ascii := "?"%char.
Definition c_colon : ascii := ":"%char.
Definition c_dot : ascii := "."%char.
Definition c_comma : ascii := ","%char.

(** ** glob_impl *)

(** The trailing loop: the rest of the pattern must be stars. *)
Fixpoint only_stars (p : cppstring) : bool :=
  match p with
  | [] => true
  | c :: p' => bool_decide (c = c_star) && only_stars p'
  end.

(** The pointers are the suffixes they point at.  [star] holds the pattern after
    the last star seen ([star_p + 1]) and the text [star_t] it was met at. *)
Fixpoint glob_loop (fuel : nat) (p t : cppstring) (star : option (cppstring * cppstring)) : option bool :=
  match fuel with
  | O => None
  | S fuel' =>
      match t with
      | [] => Some (only_stars p)
      | ct :: t' =>
          let backtrack :=
            match star with
            | Some (sp, st) => glob_loop fuel' sp (tail st) (Some (sp, tail st))
            | None => Some false
            end in
          match p with
          | [] => backtrack
          | cp :: p' =>
              if bool_decide (cp = c_any) || bool_decide (cp = ct) then glob_loop fuel' p' t' star
              else if bool_decide (cp = c_star) then glob_loop fuel' p' t (Some (p', t))
              else backtrack
          end
      end
  end.

(** Enough iterations for any run ([glob_loop_terminates]). *)
Definition glob_fuel (p t : cppstring) : nat := S (length t) * (length p + length t + 2).
Definition glob_impl (p t : cppstring) : bool :=
  match glob_loop (glob_fuel p t) p t None with Some b => b | None => false end.

Definition glob (pattern text : cppstring) : bool :=
  glob_impl (c_str (to_lower pattern)) (c_str (to_lower text)).

(** ** Matching *)

Definition subject_matches (pattern subject : cppstring) : bool :=
  if bool_decide (pattern = subject) then true
  else if glob pattern subject then true
  else if negb (has_char c_colon pattern) && negb (has_char c_star pattern) &&
          (Nat.ltb (length pattern) (length subject)) &&
          bool_decide (subject !! length pattern = Some c_colon) &&
          bool_decide (to_lower (take (length pattern) subject) = to_lower pattern)
  then true
  else if negb (bool_decide (pattern = [])) && bool_decide (last pattern = Some c_colon) &&
          negb (has_char c_star pattern) && negb (has_char c_colon subject) &&
          bool_decide (to_lower (take (length pattern - 1) pattern) = to_lower subject)
  then true
  else false.

(** [object.substr(object.rfind('.') + 1)], or [None] when there is no dot. *)
Fixpoint after_last_dot (s : cppstring) : option cppstring :=
  match s with
  | [] => None
  | c :: s' =>
      match after_last_dot s' with
      | Some r => Some r
      | None => if bool_decide (c = c_dot) then Some s' else None
      end
  end.

Definition object_matches (pattern object : cppstring) : bool :=
  if glob pattern object then true
  else if negb (has_char c_dot pattern) then
    match after_last_dot object with
    | Some command => glob pattern command
    | None => false
    end
  else false.

(** ** The policy *)

Record rule := mkRule { r_subject : cppstring; r_objects : list cppstring }.

Record perm_state := mkPerm {
  enabled : bool;
  allow_exec : bool;
  log_denials : bool;
  log_allows : bool;
  rules : list rule
}.

Definition initial_state : perm_state := mkPerm false true true false [].

Definition set_enabled (v : bool) (s : perm_state) : perm_state :=
  mkPerm v (allow_exec s) (log_denials s) (log_allows s) (rules s).
Definition set_allow_exec (v : bool) (s : perm_state) : perm_state :=
  mkPerm (enabled s) v (log_denials s) (log_allows s) (rules s).
Definition set_log_denials (v : bool) (s : perm_state) : perm_state :=
  mkPerm (enabled s) (allow_exec s) v (log_allows s) (rules s).
Definition set_log_allows (v : bool) (s : perm_state) : perm_state :=
  mkPerm (enabled s) (allow_exec s) (log_denials s) v (rules s).
Definition is_exec_allowed (s : perm_state) : bool := negb (enabled s) || allow_exec s.

Definition is_blank (c : ascii) : bool := bool_decide (c = " "%char) || bool_decide (c = "009"%char).

Fixpoint drop_blank (s : cppstring) : cppstring :=
  match s with
  | [] => []
  | c :: s' => if is_blank c then drop_blank s' else s
  end.

(** [trim]: blanks off both ends. *)
Definition trim (s : cppstring) : cppstring := rev (drop_blank (rev (drop_blank s))).

(** The loop over [objects_csv], with the current token and the list so far. *)
Fixpoint parse_objects (csv token : cppstring) (objects : list cppstring) : list cppstring :=
  let flush := if bool_decide (trim token = []) then objects else objects ++ [trim token] in
  match csv with
  | [] => flush
  | c :: csv' => if bool_decide (c = c_comma) then parse_objects csv' [] flush
                 else parse_objects csv' (token ++ [c]) objects
  end.

Definition add_rule (subject_pattern objects_csv : cppstring) (s : perm_state) : perm_state :=
  let r := mkRule subject_pattern (parse_objects objects_csv [] []) in
  if bool_decide (r_objects r = []) then s
  else mkPerm (enabled s) (allow_exec s) (log_denials s) (log_allows s) (rules s ++ [r]).

Definition complete_failed_load (enabled_read exec_read previously_enabled : bool) (s : perm_state) : perm_state :=
  let s := if negb enabled_read then set_enabled previously_enabled s else s in
  if negb exec_read then set_allow_exec false s else s.

(** Everything of [other] replaces everything of the live table, in one step. *)
Definition replace_with (other s : perm_state) : perm_state :=
  mkPerm (enabled other) (allow_exec other) (log_denials other) (log_allows other) (rules other).

Definition is_allowed (s : perm_state) (subject object : cppstring) : bool :=
  if negb (enabled s) then true
  else existsb (fun r => subject_matches (r_subject r) subject &&
                         existsb (fun o => object_matches o object) (r_objects r)) (rules s).

Definition make_subject (module principal : cppstring) : cppstring :=
  if bool_decide (principal = []) then module else module ++ [c_colon] ++ principal.
Definition make_object (module command : cppstring) : cppstring :=
  if bool_decide (module = []) then command else module ++ [c_dot] ++ command.

(** ** Loading the policy: plugin_manager::load_permissions

    The settings store is the interface the core talks to; a read may throw. *)

Class settings_store := {
  get_string : cppstring -> cppstring -> cppstring -> result unit cppstring;
  get_keys : cppstring -> result unit (list cppstring)
}.

Definition permissions_section : cppstring := str "/settings/permissions".
Definition policies_section : cppstring := str "/settings/permissions/policies".

(** What the [try] block has done when it ends: the table built so far, the two
    "was read" flags and whether it ran to its end. *)
Record load_progress := mkLoad {
  fresh : perm_state; enabled_read : bool; exec_read : bool; completed : bool
}.

Section Load.
Context `{settings_store}.

Fixpoint read_policies (subjects : list cppstring) (fresh : perm_state) : perm_state * bool :=
  match subjects with
  | [] => (fresh, true)
  | subject :: subjects' =>
      match get_string policies_section subject [] with
      | Throw _ => (fresh, false)
      | Ok objects => read_policies subjects' (add_rule subject objects fresh)
      end
  end.

Definition try_load : load_progress :=
  let get key dflt := get_string permissions_section key dflt in
  let f0 := initial_state in
  match get (str "enabled") (str "false") with
  | Throw _ => mkLoad f0 false false false
  | Ok v =>
      let f1 := set_enabled (bool_decide (v = str "true") || bool_decide (v = str "1")) f0 in
      match get (str "log denials") (str "true") with
      | Throw _ => mkLoad f1 true false false
      | Ok v =>
          let f2 := set_log_denials (negb (bool_decide (v = str "false"))) f1 in
          match get (str "log allows") (str "false") with
          | Throw _ => mkLoad f2 true false false
          | Ok v =>
              let f3 := set_log_allows (bool_decide (v = str "true")) f2 in
              match get (str "allow exec") (str "true") with
              | Throw _ => mkLoad f3 true false false
              | Ok v =>
                  let f4 := set_allow_exec (negb (bool_decide (v = str "false"))) f3 in
                  match get_keys policies_section with
                  | Throw _ => mkLoad f4 true true false
                  | Ok subjects => let '(f5, ok) := read_policies subjects f4 in mkLoad f5 true true ok
                  end
              end
          end
      end
  end.

Definition load_permissions (permissions_ : perm_state) : perm_state :=
  let l := try_load in
  if completed l then replace_with (fresh l) permissions_
  else replace_with (complete_failed_load (enabled_read l) (exec_read l) (enabled permissions_) (fresh l)) permissions_.
End Load.

(** ** What a glob means *)

Inductive glob_rel : cppstring -> cppstring -> Prop :=
| g_nil : glob_rel [] []
| g_char c p t : c <> c_star -> c <> c_any -> glob_rel p t -> glob_rel (c :: p) (c :: t)
| g_any c p t : glob_rel p t -> glob_rel (c_any :: p) (c :: t)
| g_star0 p t : glob_rel p t -> glob_rel (c_star :: p) t
| g_starS c p t : glob_rel (c_star :: p) t -> glob_rel (c_star :: p) (c :: t).
#[export] Hint Constructors glob_rel : nscp.

Section Glob.
Implicit Types p q t u v : cppstring.

Lemma glob_nil_inv t : glob_rel [] t -> t = [].
Proof. by inversion 1. Qed.

Lemma glob_star_iff p t :
  glob_rel (c_star :: p) t <-> exists u v, t = u ++ v /\ glob_rel p v.
Proof.
  split.
  - remember (c_star :: p) as sp eqn:E. induction 1; simplify_eq.
    + by exists [], t.
    + destruct IHglob_rel as (u & v & -> & ?); [done|]. by exists (c :: u), v.
  - intros (u & v & -> & Hp). induction u as [|c u IH]; simpl; auto with nscp.
Qed.

Lemma glob_star_absorb p u v : glob_rel (c_star :: p) v -> glob_rel (c_star :: p) (u ++ v).
Proof.
  rewrite !glob_star_iff. intros (u' & v' & -> & Hp). exists (u ++ u'), v'.
  by rewrite app_assoc.
Qed.

Lemma glob_head_any p c t : glob_rel (c_any :: p) (c :: t) <-> glob_rel p t.
Proof. split; [by inversion 1 | auto with nscp]. Qed.

Lemma glob_head_char c p t :
  c <> c_star -> glob_rel (c :: p) (c :: t) <-> glob_rel p t.
Proof.
  intros Hc. destruct (decide (c = c_any)) as [->|Hq]; [apply glob_head_any|].
  split; [by inversion 1 | auto with nscp].
Qed.

Lemma glob_head_mismatch cp p ct t :
  cp <> c_any -> cp <> ct -> cp <> c_star -> ~ glob_rel (cp :: p) (ct :: t).
Proof. inversion 4; simplify_eq. Qed.

Lemma glob_only_stars p : glob_rel p [] <-> only_stars p = true.
Proof.
  induction p as [|c p IH]; simpl; [split; auto with nscp|].
  destruct (decide (c = c_star)) as [->|Hc].
  - rewrite bool_decide_eq_true_2 by done. simpl. rewrite <- IH. rewrite glob_star_iff.
    split; [|by exists [], []]. intros (u & v & He & Hp). symmetry in He. apply app_nil in He as [-> ->]. done.
  - rewrite bool_decide_eq_false_2 by done. split; [|done]. inversion 1; simplify_eq.
Qed.

(** A star-free prefix of the pattern consumes exactly its length of text. *)
Lemma glob_app_inv q p t :
  c_star ∉ q -> glob_rel (q ++ p) t -> exists u v, t = u ++ v /\ length u = length q /\ glob_rel p v.
Proof.
  revert t. induction q as [|c q IH]; intros t Hq Hg; simpl in *; [by exists [], t|].
  apply not_elem_of_cons in Hq as [Hc Hq].
  inversion Hg as [|? ? t' ? ? Hg'|d ? t' Hg'| |]; simplify_eq;
    destruct (IH _ Hq Hg') as (u & v & -> & Hu & Hp).
  - exists (c :: u), v. simpl. split_and!; congruence || done.
  - exists (d :: u), v. simpl. split_and!; congruence || done.
Qed.

(** ** The loop accepts what the pattern or a later start of the last star accepts *)

Definition later_start sp st : Prop := exists a b, st = a ++ b /\ a <> [] /\ glob_rel sp b.

Definition accepts p t (star : option (cppstring * cppstring)) : Prop :=
  glob_rel p t \/ match star with Some (sp, st) => later_start sp st | None => False end.

(** The current attempt has consumed the star-free part [q] of the pattern and
    as many characters of the text. *)
Definition in_attempt p t (star : option (cppstring * cppstring)) : Prop :=
  match star with
  | None => True
  | Some (sp, st) => exists q seg, sp = q ++ p /\ (c_star ∉ q) /\ st = seg ++ t /\ length seg = length q
  end.

Lemma in_attempt_refl p t : in_attempt p t (Some (p, t)).
Proof. exists [], []. split_and!; [done | apply not_elem_of_nil | done | done]. Qed.

Lemma suffix_split (st a b seg t u v : cppstring) :
  st = a ++ b -> st = seg ++ t -> b = u ++ v -> length u = length seg -> exists w, t = w ++ v.
Proof.
  intros -> Hst -> Hu. exists (drop (length seg) (a ++ u)).
  assert (length seg <= length (a ++ u)) as Hle by (rewrite length_app; lia).
  rewrite app_assoc in Hst. apply (f_equal (drop (length seg))) in Hst.
  rewrite drop_app_length, drop_app_le in Hst by done. done.
Qed.

Lemma accepts_new_star p t star :
  in_attempt (c_star :: p) t star ->
  accepts (c_star :: p) t star <-> accepts p t (Some (p, t)).
Proof.
  intros Hinv. unfold accepts. transitivity (glob_rel (c_star :: p) t).
  - split; [|tauto]. intros [Hg|Hl]; [done|].
    destruct star as [[sp st]|]; [|done].
    destruct Hinv as (q & seg & -> & Hq & Hst & Hlen), Hl as (a & b & Hab & _ & Hb).
    apply glob_app_inv in Hb as (u & v & Huv & Hu & Hv); [|done].
    destruct (suffix_split st a b seg t u v Hab Hst Huv) as [w ->]; [lia|].
    by apply glob_star_absorb.
  - rewrite glob_star_iff. split.
    + intros ([|c u] & v & -> & Hp); [by left|]. right. exists (c :: u), v. done.
    + intros [Hp|(a & b & -> & _ & Hb)]; [by exists [], t | eauto].
Qed.

Lemma accepts_at_end p star :
  in_attempt p [] star -> accepts p [] star <-> only_stars p = true.
Proof.
  intros Hinv. rewrite <- glob_only_stars. unfold accepts. split; [|tauto]. intros [Hg|Hl]; [done|].
  destruct star as [[sp st]|]; [|done].
  destruct Hinv as (q & seg & -> & Hq & Hst & Hlen), Hl as (a & b & Hab & Ha & Hb).
  exfalso. apply glob_app_inv in Hb as (u & v & -> & Hu & _); [|done].
  apply (f_equal length) in Hab. rewrite Hst, !length_app in Hab. simpl in Hab.
  destruct a; [done|]. simpl in Hab. lia.
Qed.

Lemma accepts_backtrack p t sp st :
  ~ glob_rel p t -> in_attempt p t (Some (sp, st)) -> t <> [] ->
  accepts p t (Some (sp, st)) <-> accepts sp (tail st) (Some (sp, tail st)).
Proof.
  intros Hno (q & seg & _ & _ & Hst & _) Ht.
  destruct st as [|c st']; [symmetry in Hst; apply app_nil in Hst as [_ ->]; done|].
  unfold accepts. simpl. split.
  - intros [?|(a & b & Hab & Ha & Hb)]; [done|]. destruct a as [|d a]; [done|].
    injection Hab as <- ->. destruct a as [|e a]; [left; exact Hb|]. right. exists (e :: a), b. done.
  - intros [Hg|(a & b & -> & Ha & Hb)]; right; [by exists [c], st'|].
    exists (c :: a), b. done.
Qed.

(** The measure: a back-track moves the star's text pointer, every other step
    shortens the pattern or the text. *)
Definition loop_measure (P T : nat) p t (star : option (cppstring * cppstring)) : nat :=
  (match star with Some (_, st) => length st | None => length t end) * (P + T + 1)
  + length p + length t.

Lemma glob_loop_spec P T fuel : forall p t star,
  c_star ∉ t -> in_attempt p t star ->
  (match star with Some (sp, st) => length sp <= P /\ length st <= T /\ c_star ∉ st | None => True end) ->
  length p <= P -> length t <= T -> loop_measure P T p t star < fuel ->
  exists b, glob_loop fuel p t star = Some b /\ (b = true <-> accepts p t star).
Proof.
  induction fuel as [|fuel IH]; intros p t star Ht Hinv Hstar HP HT Hm; [lia|].
  destruct t as [|ct t].
  { eexists. split; [reflexivity|]. symmetry. by apply accepts_at_end. }
  apply not_elem_of_cons in Ht as [Hct Ht].
  assert (Hback : ~ glob_rel p (ct :: t) ->
    exists b, match star with Some (sp, st) => glob_loop fuel sp (tail st) (Some (sp, tail st)) | None => Some false end
              = Some b /\ (b = true <-> accepts p (ct :: t) star)).
  { intros Hno. destruct star as [[sp st]|].
    - destruct Hstar as (Hsp & HstT & Hst). setoid_rewrite (accepts_backtrack p (ct :: t) sp st Hno Hinv); [|done].
      destruct Hinv as (q & seg & _ & _ & Hseg & _).
      assert (Hlst : length (tail st) < length st) by (rewrite Hseg; destruct seg; simpl; lia).
      assert (Hstt : c_star ∉ tail st) by (destruct st; [done|]; apply not_elem_of_cons in Hst; tauto).
      apply IH; [done | apply in_attempt_refl | split_and!; [lia|lia|done] | lia | lia |].
      unfold loop_measure in *. nia.
    - eexists. split; [reflexivity|]. unfold accepts. split; [done|tauto]. }
  destruct p as [|cp p].
  { cbn [glob_loop]. apply Hback. by inversion 1. }
  cbn [glob_loop]. destruct (decide (cp = c_any \/ cp = ct)) as [Hm1|Hm1].
  - replace (bool_decide (cp = c_any) || bool_decide (cp = ct)) with true
      by (symmetry; destruct Hm1; [rewrite bool_decide_eq_true_2 by done; done |
                                   rewrite orb_true_iff; right; by apply bool_decide_eq_true_2]).
    assert (Hns : cp <> c_star) by (destruct Hm1; congruence || (subst; discriminate)).
    assert (Hhd : accepts (cp :: p) (ct :: t) star <-> accepts p t star).
    { unfold accepts. destruct Hm1 as [->| ->]; [by rewrite glob_head_any | by rewrite glob_head_char]. }
    setoid_rewrite Hhd. apply IH; try done; simpl in *; try lia.
    + destruct star as [[sp st]|]; [|done]. destruct Hinv as (q & seg & -> & Hq & -> & Hl).
      exists (q ++ [cp]), (seg ++ [ct]). rewrite <- !app_assoc, !length_app.
      split_and!; [done | | done | simpl; lia].
      rewrite not_elem_of_app, list_elem_of_singleton. split; [done|congruence].
    + unfold loop_measure in *. destruct star as [[sp st]|]; simpl in *; nia.
  - replace (bool_decide (cp = c_any) || bool_decide (cp = ct)) with false
      by (symmetry; apply orb_false_iff; split; apply bool_decide_eq_false_2; tauto).
    destruct (decide (cp = c_star)) as [->|Hs].
    + rewrite bool_decide_eq_true_2 by done. setoid_rewrite (accepts_new_star p (ct :: t) star Hinv).
      apply IH; simpl in *; try lia.
      * apply not_elem_of_cons. done.
      * apply in_attempt_refl.
      * split_and!; [lia | lia | apply not_elem_of_cons; done].
      * unfold loop_measure in *. destruct star as [[sp st]|]; simpl in *; [|nia].
        destruct Hinv as (q & seg & _ & _ & -> & _). rewrite length_app in Hm. simpl in Hm. nia.
    + rewrite bool_decide_eq_false_2 by done. apply Hback.
      apply glob_head_mismatch; [tauto | tauto | done].
Qed.
End Glob.

(** ** Glob theorems *)

Lemma glob_loop_total P T fuel : forall p t star,
  (match star with Some (sp, st) => length sp <= P /\ length st <= T /\ exists seg, st = seg ++ t | None => True end) ->
  length p <= P -> length t <= T -> loop_measure P T p t star < fuel ->
  exists b, glob_loop fuel p t star = Some b.
Proof.
  induction fuel as [|fuel IH]; intros p t star Hstar HP HT Hm; [lia|].
  destruct t as [|ct t]; [by eexists|].
  assert (Hback : exists b,
    match star with Some (sp, st) => glob_loop fuel sp (tail st) (Some (sp, tail st)) | None => Some false end = Some b).
  { destruct star as [[sp st]|]; [|by eexists]. destruct Hstar as (Hsp & Hst & seg & ->).
    apply IH; try (destruct seg; simpl in *; rewrite ?length_app in *; simpl in *; lia).
    - split_and!; [lia | destruct seg; simpl in *; rewrite ?length_app in *; simpl in *; lia | by exists []].
    - unfold loop_measure in *. destruct seg; simpl in *; rewrite ?length_app in *; simpl in *; nia. }
  destruct p as [|cp p]; cbn [glob_loop]; [done|].
  destruct (_ || _).
  - apply IH; simpl in *; try lia.
    + destruct star as [[sp st]|]; [|done]. destruct Hstar as (? & ? & seg & ->).
      split_and!; [done..|]. exists (seg ++ [ct]). by rewrite <- app_assoc.
    + unfold loop_measure in *. destruct star as [[sp st]|]; simpl in *; nia.
  - destruct (bool_decide _); [|done]. apply IH; simpl in *; try lia.
    + split_and!; [lia | lia | by exists []].
    + unfold loop_measure in *. destruct star as [[sp st]|]; simpl in *; [|nia].
      destruct Hstar as (_ & _ & seg & ->). rewrite length_app in Hm. simpl in Hm. nia.
Qed.

Lemma glob_fuel_enough p t : loop_measure (length p) (length t) p t None < glob_fuel p t.
Proof. unfold loop_measure, glob_fuel. nia. Qed.

Lemma glob_impl_iff p t : c_star ∉ t -> glob_impl p t = true <-> glob_rel p t.
Proof.
  intros Ht. unfold glob_impl.
  destruct (glob_loop_spec (length p) (length t) (glob_fuel p t) p t None) as (b & -> & Hb);
    auto using glob_fuel_enough; [done|]. rewrite Hb. unfold accepts. tauto.
Qed.

(** C30. The iterative glob matcher with its back-tracking pointers always terminates within its
    bound, and on a text without a star it accepts exactly the texts the pattern denotes. *)
Theorem glob_impl_correct (p t : cppstring) :
  (exists b, glob_loop (glob_fuel p t) p t None = Some b) /\
  (c_star ∉ t -> glob_impl p t = true <-> glob_rel p t).
Proof.
  split; [|apply glob_impl_iff].
  apply (glob_loop_total (length p) (length t)); auto using glob_fuel_enough.
Qed.

Lemma glob_impl_correct_witness :
  glob_impl (str "check_*_x?") (str "check_cpu_xy") = true <->
  glob_rel (str "check_*_x?") (str "check_cpu_xy").
Proof.
  apply (proj2 (glob_impl_correct (str "check_*_x?") (str "check_cpu_xy"))).
  vm_decide.
Defined.

(** A star in the text is compared literally before the pattern star is tried as a wildcard, so
    a match that exists is missed. *)
Theorem glob_star_in_text_missed :
  glob_rel (str "*b") (str "*ab") /\ glob_impl (str "*b") (str "*ab") = false.
Proof.
  split; [|vm_compute; reflexivity].
  apply glob_star_iff. exists (str "*a"), (str "b"). split; [done|].
  apply g_char; [discriminate..|constructor].
Qed.

(** Characters of a module name: no separator, wildcard or NUL. *)
Definition plain_name (s : cppstring) : Prop :=
  (c_colon ∉ s) /\ (c_star ∉ s) /\ (c_any ∉ s) /\ (Ascii.zero ∉ s).
Definition plain_principal (s : cppstring) : Prop := (c_star ∉ s) /\ (Ascii.zero ∉ s).

Lemma glob_literal p t : c_star ∉ p -> c_any ∉ p -> glob_rel p t <-> p = t.
Proof.
  revert t. induction p as [|c p IH]; intros t Hs Ha.
  { split; [intros H%glob_nil_inv; done | intros <-; constructor]. }
  apply not_elem_of_cons in Hs as [Hc Hs], Ha as [Hc' Ha]. split.
  - inversion 1; simplify_eq. f_equal. by apply IH.
  - intros <-. apply g_char; [congruence..|]. by apply IH.
Qed.

#[local] Ltac special := intros ? ->; vm_compute; lia.

Lemma glob_lower pattern text :
  Ascii.zero ∉ pattern -> Ascii.zero ∉ text -> c_star ∉ text ->
  glob pattern text = true <-> glob_rel (to_lower pattern) (to_lower text).
Proof.
  intros Hp Ht Hs. unfold glob.
  rewrite !c_str_id by (rewrite elem_of_to_lower; [done | special]).
  apply glob_impl_iff. rewrite elem_of_to_lower; [done | special].
Qed.

Lemma glob_literal_lower pattern text :
  Ascii.zero ∉ pattern -> c_star ∉ pattern -> c_any ∉ pattern -> Ascii.zero ∉ text -> c_star ∉ text ->
  glob pattern text = true <-> to_lower pattern = to_lower text.
Proof.
  intros. rewrite glob_lower by done.
  apply glob_literal; (rewrite elem_of_to_lower; [done | special]).
Qed.

Lemma glob_trailing_star p t :
  c_star ∉ p -> c_any ∉ p -> glob_rel (p ++ [c_star]) t <-> exists v, t = p ++ v.
Proof.
  intros Hs Ha. revert t. induction p as [|c p IH]; intros t; simpl.
  { rewrite glob_star_iff. split; [eauto|]. intros _. exists t, []. rewrite app_nil_r. split; [done|constructor]. }
  apply not_elem_of_cons in Hs as [Hc Hs], Ha as [Hc' Ha]. split.
  - inversion 1 as [|? ? ? ? ? Hg| | |]; simplify_eq. apply IH in Hg as [v ->]; [|done..]. by exists v.
  - intros [v ->]. apply g_char; [congruence..|]. apply IH; eauto.
Qed.

(** ** Subjects *)

Section Subjects.
Implicit Types m principal : cppstring.

Lemma has_char_false c s : has_char c s = false <-> c ∉ s.
Proof. unfold has_char. apply bool_decide_eq_false. Qed.
Lemma has_char_true c s : has_char c s = true <-> c ∈ s.
Proof. unfold has_char. apply bool_decide_eq_true. Qed.

Lemma prefix_colon_inj (m m' x y : cppstring) :
  c_colon ∉ m -> c_colon ∉ m' -> m ++ c_colon :: x = m' ++ c_colon :: y -> m = m' /\ x = y.
Proof.
  revert m'. induction m as [|a c IH]; intros [|b d] Hc Hd Heq; simpl in *; simplify_eq; [done| | |].
  - exfalso. apply Hd. left.
  - exfalso. apply Hc. left.
  - apply not_elem_of_cons in Hc as [_ Hc], Hd as [_ Hd].
    destruct (IH d Hc Hd) as [-> ->]; done.
Qed.

Lemma lower_colon_free (m : cppstring) : c_colon ∉ m -> c_colon ∉ to_lower m.
Proof. intros. rewrite elem_of_to_lower; [done|special]. Qed.

Lemma lower_prefix_colon (m m' x y : cppstring) :
  c_colon ∉ m -> c_colon ∉ m' ->
  to_lower (m ++ c_colon :: x) = to_lower (m' ++ c_colon :: y) <->
  to_lower m = to_lower m' /\ to_lower x = to_lower y.
Proof.
  intros Hm Hm'. rewrite !to_lower_app. cbn [to_lower map].
  change (tolower c_colon) with c_colon. fold (to_lower x) (to_lower y).
  split; [|intros [-> ->]; done].
  apply prefix_colon_inj; by apply lower_colon_free.
Qed.

Lemma lower_no_colon (m m' x : cppstring) :
  c_colon ∉ m -> to_lower m <> to_lower (m' ++ c_colon :: x).
Proof.
  intros Hm He. apply Hm. apply (elem_of_to_lower c_colon); [special|].
  rewrite He. apply (elem_of_to_lower c_colon); [special|].
  apply elem_of_app. right. left.
Qed.

(** The four ways a subject pattern matches: verbatim, as a glob, as a bare module
    and as "module:". *)
Lemma subject_matches_iff pattern subject :
  subject_matches pattern subject = true <->
  pattern = subject \/ glob pattern subject = true \/
  ((c_colon ∉ pattern) /\ (c_star ∉ pattern) /\ subject !! length pattern = Some c_colon /\
   to_lower (take (length pattern) subject) = to_lower pattern) \/
  (last pattern = Some c_colon /\ (c_star ∉ pattern) /\ (c_colon ∉ subject) /\
   to_lower (take (length pattern - 1) pattern) = to_lower subject).
Proof.
  rewrite <- (has_char_false c_colon pattern), <- (has_char_false c_star pattern),
    <- (has_char_false c_colon subject).
  assert (E : forall b c : bool, (if b then true else c) = b || c) by (by intros [] []).
  unfold subject_matches. rewrite !E, orb_false_r, !orb_true_iff, !andb_true_iff, !negb_true_iff, !bool_decide_eq_true.
  rewrite bool_decide_eq_false, Nat.ltb_lt. split.
  - tauto.
  - intros [?|[?|[(?&?&Hl&?)|(Hl&?&?&?)]]]; [tauto | tauto | |].
    + apply lookup_lt_Some in Hl as Hlt. tauto.
    + assert (pattern <> []) by (by intros ->). tauto.
Qed.

(** The subject strings callers build, against each shape of pattern. *)
Section Scopes.
Context (m m' principal : cppstring).
Context (Hm : plain_name m) (Hm' : plain_name m') (Hp : plain_principal principal).

Lemma make_subject_clean : (c_star ∉ make_subject m' principal) /\ (Ascii.zero ∉ make_subject m' principal).
Proof.
  destruct Hm' as (_ & ? & _ & ?), Hp as [? ?]. unfold make_subject. case_bool_decide; [done|].
  simpl. rewrite !not_elem_of_app, !not_elem_of_cons. split_and!; done || discriminate.
Qed.

Lemma bare_module_scope :
  subject_matches m (make_subject m' principal) = true <-> to_lower m = to_lower m'.
Proof.
  destruct Hm as (Hmc & Hms & Hma & Hmz), Hm' as (Hmc' & _ & _ & _), make_subject_clean as [? ?].
  rewrite subject_matches_iff, glob_literal_lower by done. unfold make_subject. case_bool_decide as Hpr.
  - split; [|tauto]. intros [->|[?|[(_&_&Hl&_)|(Hl&_)]]]; [done..| |].
    + exfalso. apply Hmc'. by apply list_elem_of_lookup_2 in Hl.
    + exfalso. apply Hmc. apply last_Some in Hl as [l ->]. apply elem_of_app. right. left.
  - simpl. split.
    + intros [He|[He|[(_&_&Hl&He)|(Hl&_)]]].
      * exfalso. apply Hmc. rewrite He. apply elem_of_app. right. left.
      * by apply lower_no_colon in He.
      * assert (Hle : length m <= length m').
        { destruct (Nat.le_gt_cases (length m) (length m')); [done|]. exfalso. apply Hmc.
          apply (elem_of_to_lower c_colon); [special|]. rewrite <- He.
          apply (elem_of_to_lower c_colon); [special|].
          apply (list_elem_of_lookup_2 _ (length m')). rewrite lookup_take_lt by lia.
          by rewrite list_lookup_middle. }
        rewrite take_app_le in He by done.
        destruct (decide (length m = length m')) as [Hlen|]; [by rewrite <- He, Hlen, firstn_all|].
        rewrite lookup_app_l in Hl by lia. apply list_elem_of_lookup_2 in Hl. done.
      * exfalso. apply Hmc. apply last_Some in Hl as [l ->]. apply elem_of_app. right. left.
    + intros He. right. right. left. assert (Hlen : length m = length m').
      { apply (f_equal length) in He. by rewrite !length_to_lower in He. }
      split_and!; [done..| |]; rewrite Hlen; [by rewrite list_lookup_middle|].
      by rewrite take_app_length.
Qed.

Lemma module_colon_scope :
  subject_matches (m ++ [c_colon]) (make_subject m' principal) = true <->
  to_lower m = to_lower m' /\ principal = [].
Proof.
  destruct Hm as (Hmc & Hms & Hma & Hmz), Hm' as (Hmc' & _ & _ & _), make_subject_clean as [? ?].
  assert (Hin : c_colon ∈ m ++ [c_colon]) by (apply elem_of_app; right; left).
  rewrite subject_matches_iff, glob_literal_lower;
    [| rewrite ?not_elem_of_app, ?not_elem_of_cons; split_and!; done || discriminate || apply not_elem_of_nil .. | done | done].
  rewrite last_snoc, length_app, take_app_le by (simpl; lia). rewrite (take_ge m) by (simpl; lia).
  unfold make_subject. case_bool_decide as Hpr; simpl; split.
  - intros [He|[He|[(?&_)|(_&_&_&He)]]]; try done.
    + exfalso. apply Hmc'. by rewrite <- He.
    + symmetry in He. by apply lower_no_colon in He.
  - intros [He _]. right; right; right. split_and!; [done | | done | done].
    rewrite not_elem_of_app, not_elem_of_cons. split_and!; [done | discriminate | apply not_elem_of_nil].
  - intros [He|[He|[(?&_)|(_&_&He&_)]]]; [| |done|].
    + apply (f_equal to_lower) in He. apply lower_prefix_colon in He as [? He]; [|done..].
      destruct principal; done.
    + apply lower_prefix_colon in He as [? He]; [|done..]. destruct principal; done.
    + exfalso. apply He. apply elem_of_app; right; left.
  - by intros [_ ?].
Qed.

Lemma module_colon_star_scope :
  subject_matches (m ++ [c_colon; c_star]) (make_subject m' principal) = true <->
  to_lower m = to_lower m' /\ principal <> [].
Proof.
  destruct Hm as (Hmc & Hms & Hma & Hmz), Hm' as (Hmc' & _ & _ & _), make_subject_clean as [Hs Hz].
  assert (Hin : c_star ∈ m ++ [c_colon; c_star]) by (apply elem_of_app; right; right; left).
  assert (Hglob : glob (m ++ [c_colon; c_star]) (make_subject m' principal) = true <->
                  exists v, to_lower (make_subject m' principal) = to_lower (m ++ [c_colon]) ++ v).
  { rewrite glob_lower; [|rewrite ?not_elem_of_app, ?not_elem_of_cons; split_and!; done || discriminate || apply not_elem_of_nil | done | done].
    replace (to_lower (m ++ [c_colon; c_star])) with (to_lower (m ++ [c_colon]) ++ [c_star])
      by (rewrite !to_lower_app; rewrite <- app_assoc; done).
    apply glob_trailing_star; (rewrite elem_of_to_lower; [|special]);
      rewrite ?not_elem_of_app, ?not_elem_of_cons; split_and!; done || discriminate || apply not_elem_of_nil. }
  rewrite subject_matches_iff, Hglob. split.
  - intros [He|[[v He]|[(_&?&_)|(_&?&_)]]]; [by rewrite <- He in Hs | |done|done].
    unfold make_subject in He. case_bool_decide as Hpr.
    + exfalso. apply Hmc'. apply (elem_of_to_lower c_colon); [special|]. rewrite He, to_lower_app.
      rewrite !elem_of_app. left; right; left.
    + simpl in He. rewrite !to_lower_app, <- app_assoc in He. split; [|done].
      symmetry. apply (prefix_colon_inj _ _ _ _ (lower_colon_free _ Hmc') (lower_colon_free _ Hmc) He).
  - intros [He Hpr]. right. left. exists (to_lower principal). unfold make_subject.
    rewrite bool_decide_eq_false_2 by done. rewrite !to_lower_app, He, <- app_assoc. done.
Qed.
End Scopes.
End Subjects.

(** For module names and principals without wildcards, the pattern "M" matches the subject of
    module M with any principal, "M:" matches it only with an empty principal and "M:*" only
    with a non-empty one, ignoring case, and none of them matches another module. *)
Theorem subject_scopes (m m' principal : cppstring)
    (Hm : plain_name m) (Hm' : plain_name m') (Hp : plain_principal principal) :
  (subject_matches m (make_subject m' principal) = true <-> to_lower m = to_lower m') /\
  (subject_matches (m ++ [c_colon]) (make_subject m' principal) = true <->
   to_lower m = to_lower m' /\ principal = []) /\
  (subject_matches (m ++ [c_colon; c_star]) (make_subject m' principal) = true <->
   to_lower m = to_lower m' /\ principal <> []).
Proof.
  split_and!; auto using bare_module_scope, module_colon_scope, module_colon_star_scope.
Qed.

Lemma subject_scopes_witness :
  subject_matches (str "webserver" ++ [c_colon; c_star]) (make_subject (str "WEBServer") (str "operator")) = true.
Proof.
  apply (subject_scopes (str "webserver") (str "WEBServer") (str "operator")).
  - unfold plain_name. vm_decide.
  - unfold plain_name. vm_decide.
  - unfold plain_principal. vm_decide.
  - split; [vm_compute; reflexivity | discriminate].
Defined.

(** The wildcard subject pattern matches a named caller and an unresolved caller without
    principal, but not an unresolved caller that carries a principal: its subject starts with a
    star, which the matcher consumes literally before it tries the pattern star as a wildcard. *)
Theorem wildcard_misses_unresolved_caller :
  subject_matches (str "*") (make_subject (str "WEBServer") (str "operator")) = true /\
  subject_matches (str "*") (make_subject (str "*") []) = true /\
  subject_matches (str "*") (make_subject (str "*") (str "operator")) = false.
Proof. split_and!; vm_compute; reflexivity. Qed.

(** ** The decision *)

(** Entry [(p, csv)] of the policies section grants the call. *)
Definition grants (subject object : cppstring) (entry : cppstring * cppstring) : bool :=
  subject_matches (entry.1) subject &&
  existsb (fun o => object_matches o object) (parse_objects (entry.2) [] []).

Definition rule_grants (subject object : cppstring) (r : rule) : bool :=
  subject_matches (r_subject r) subject && existsb (fun o => object_matches o object) (r_objects r).

Definition rules_grant (s : perm_state) (subject object : cppstring) : bool :=
  existsb (rule_grants subject object) (rules s).

Lemma add_rule_grants p csv s subject object :
  rules_grant (add_rule p csv s) subject object = rules_grant s subject object || grants subject object (p, csv).
Proof.
  unfold add_rule, rules_grant, grants. cbn [r_objects fst snd]. case_bool_decide as E.
  - rewrite E. simpl. rewrite andb_false_r, orb_false_r. done.
  - cbn [rules]. rewrite existsb_app. cbn [existsb]. rewrite orb_false_r. done.
Qed.

Lemma add_rule_flags p csv s :
  enabled (add_rule p csv s) = enabled s /\ allow_exec (add_rule p csv s) = allow_exec s.
Proof. unfold add_rule. by case_bool_decide. Qed.

Lemma is_allowed_unfold s subject object :
  is_allowed s subject object = negb (enabled s) || rules_grant s subject object.
Proof. unfold is_allowed. by destruct (enabled s). Qed.

(** Adding a policy line never withdraws a permission: it grants exactly what the line grants on
    top of what was granted. *)
Theorem add_rule_additive p csv s subject object :
  is_allowed (add_rule p csv s) subject object
  = is_allowed s subject object || (enabled s && grants subject object (p, csv)).
Proof.
  rewrite !is_allowed_unfold, add_rule_grants, (proj1 (add_rule_flags p csv s)).
  by destruct (enabled s).
Qed.

Section LoadTheorems.
Context `{settings_store}.

(** Entry [(p, csv)] is one the settings store has. *)
Definition stored (keys : list cppstring) (entry : cppstring * cppstring) : Prop :=
  entry.1 ∈ keys /\ get_string policies_section (entry.1) [] = Ok (entry.2).

Lemma read_policies_flags keys s :
  enabled (read_policies keys s).1 = enabled s /\ allow_exec (read_policies keys s).1 = allow_exec s.
Proof.
  revert s. induction keys as [|k keys IH]; intros s; simpl; [done|].
  destruct (get_string _ _ _) as [csv|]; [|done].
  destruct (IH (add_rule k csv s)) as [-> ->]. apply add_rule_flags.
Qed.

Lemma read_policies_sound keys s subject object :
  rules_grant (read_policies keys s).1 subject object = true ->
  rules_grant s subject object = true \/ exists e, stored keys e /\ grants subject object e = true.
Proof.
  revert s. induction keys as [|k keys IH]; intros s; simpl; [tauto|].
  destruct (get_string policies_section k []) as [csv|] eqn:Hg; [|tauto].
  intros [Hr|(e & [Hin He] & Hgr)]%IH.
  - rewrite add_rule_grants in Hr. apply orb_true_iff in Hr as [?|Hr]; [tauto|].
    right. exists (k, csv). split; [|done]. split; [left | done].
  - right. exists e. split; [|done]. split; [by right | done].
Qed.

Lemma read_policies_keeps keys s subject object :
  rules_grant s subject object = true -> rules_grant (read_policies keys s).1 subject object = true.
Proof.
  revert s. induction keys as [|k keys IH]; intros s Hs; simpl; [done|].
  destruct (get_string _ _ _) as [csv|]; [|done]. apply IH. by rewrite add_rule_grants, Hs.
Qed.

Lemma read_policies_complete keys s e subject object :
  (read_policies keys s).2 = true -> stored keys e -> grants subject object e = true ->
  rules_grant (read_policies keys s).1 subject object = true.
Proof.
  destruct e as [p csv]. intros Hok [Hin He] Hgr. cbn [fst snd] in *. revert s Hok.
  induction keys as [|k keys IH]; intros s; simpl; [by apply not_elem_of_nil in Hin|].
  apply elem_of_cons in Hin as [<-|Hin].
  - rewrite He. intros _. assert (Hs : rules_grant (add_rule p csv s) subject object = true).
    { rewrite add_rule_grants, Hgr. apply orb_true_r. }
    by apply read_policies_keeps.
  - destruct (get_string _ k _) as [csv'|]; [|done]. by apply IH.
Qed.

Lemma read_policies_ok keys s :
  (forall k, k ∈ keys -> is_ok (get_string policies_section k []) = true) -> (read_policies keys s).2 = true.
Proof.
  revert s. induction keys as [|k keys IH]; intros s Hk; simpl; [done|].
  pose proof (Hk k ltac:(left)) as Hok. destruct (get_string _ k _); [|done].
  apply IH. intros k' ?. apply Hk. by right.
Qed.

(** What the settings store says of the two switches. *)
Definition enabled_value : result unit bool :=
  let* v := get_string permissions_section (str "enabled") (str "false") in
  Ok (bool_decide (v = str "true") || bool_decide (v = str "1")).
Definition exec_value : result unit bool :=
  let* v := get_string permissions_section (str "allow exec") (str "true") in
  Ok (negb (bool_decide (v = str "false"))).

(** What the [try] block has read agrees with the store. *)
Record load_ok (l : load_progress) : Prop := {
  lo_enabled : enabled_value = Ok (enabled (fresh l)) /\ enabled_read l = true
               \/ is_ok enabled_value = false /\ enabled_read l = false;
  lo_exec : exec_read l = true -> exec_value = Ok (allow_exec (fresh l));
  lo_sound subject object : rules_grant (fresh l) subject object = true ->
    exists keys e, get_keys policies_section = Ok keys /\ stored keys e /\ grants subject object e = true;
  lo_complete : completed l = true -> enabled_read l = true /\ exec_read l = true /\
    exists keys, get_keys policies_section = Ok keys /\
      forall e subject object, stored keys e -> grants subject object e = true ->
        rules_grant (fresh l) subject object = true
}.

Lemma load_ok_no_rules f er xr :
  rules f = [] ->
  (enabled_value = Ok (enabled f) /\ er = true \/ is_ok enabled_value = false /\ er = false) ->
  (xr = true -> exec_value = Ok (allow_exec f)) -> load_ok (mkLoad f er xr false).
Proof.
  intros Hr He Hx. split; simpl; [done | done | | done].
  intros subject object. unfold rules_grant. by rewrite Hr.
Qed.

Lemma load_ok_rules f keys :
  rules f = [] -> get_keys policies_section = Ok keys ->
  enabled_value = Ok (enabled f) -> exec_value = Ok (allow_exec f) ->
  load_ok (let '(f5, ok) := read_policies keys f in mkLoad f5 true true ok).
Proof.
  intros Hr Hk He Hx. destruct (read_policies_flags keys f) as [Hf1 Hf2].
  pose proof (read_policies_sound keys f) as Hs. pose proof (read_policies_complete keys f) as Hc.
  destruct (read_policies keys f) as [f5 ok]. cbn [fst snd] in *. split; cbn.
  - left. by rewrite Hf1.
  - by rewrite Hf2.
  - intros subject object Hg. destruct (Hs _ _ Hg) as [Hn|(e & ? & ?)]; [|eauto].
    unfold rules_grant in Hn. by rewrite Hr in Hn.
  - intros ->. split_and!; [done..|]. exists keys. eauto.
Qed.

Lemma try_load_ok : load_ok try_load.
Proof.
  unfold try_load.
  destruct (get_string _ (str "enabled") _) as [v|] eqn:E1;
    [|apply load_ok_no_rules; [done | right; unfold enabled_value; by rewrite E1 | done]].
  assert (He : enabled_value = Ok (bool_decide (v = str "true") || bool_decide (v = str "1")))
    by (unfold enabled_value; by rewrite E1).
  destruct (get_string _ (str "log denials") _) as [v2|]; [|apply load_ok_no_rules; [done | left; done | done]].
  destruct (get_string _ (str "log allows") _) as [v3|]; [|apply load_ok_no_rules; [done | left; done | done]].
  destruct (get_string _ (str "allow exec") _) as [v4|] eqn:E4; [|apply load_ok_no_rules; [done | left; done | done]].
  assert (Hx : exec_value = Ok (negb (bool_decide (v4 = str "false"))))
    by (unfold exec_value; by rewrite E4).
  destruct (get_keys _) as [keys|] eqn:E5; [|apply load_ok_no_rules; [done | left; done | done]].
  by apply load_ok_rules.
Qed.

(** Every read the loader makes succeeds. *)
Definition store_readable : Prop :=
  is_ok enabled_value = true /\
  is_ok (get_string permissions_section (str "log denials") (str "true")) = true /\
  is_ok (get_string permissions_section (str "log allows") (str "false")) = true /\
  is_ok exec_value = true /\
  exists keys, get_keys policies_section = Ok keys /\
    forall k, k ∈ keys -> is_ok (get_string policies_section k []) = true.

Lemma try_load_completes : store_readable -> completed try_load = true.
Proof.
  unfold store_readable, enabled_value, exec_value, try_load.
  intros (He & Hd & Ha & Hx & keys & Hk & Hall).
  destruct (get_string _ (str "enabled") _); [|done]. destruct (get_string _ (str "log denials") _); [|done].
  destruct (get_string _ (str "log allows") _); [|done]. destruct (get_string _ (str "allow exec") _); [|done].
  rewrite Hk. match goal with |- context [read_policies keys ?f] => pose proof (read_policies_ok keys f Hall) end.
  by destruct (read_policies keys _).
Qed.

(** C5. Whatever the settings store answers and wherever a read throws, a (re)load of the policy
    leaves the enabled switch as read, or as it was when it could not be read; under an enabled
    policy exec is allowed only if the exec switch was read as allowed, and a call is allowed
    only by an entry the store holds; when every read succeeds, every stored entry that grants a
    call is in force. *)
Theorem load_permissions_fails_closed (cur : perm_state) :
  let new := load_permissions cur in
  enabled new = match enabled_value with Ok b => b | Throw _ => enabled cur end /\
  (enabled new = true -> is_exec_allowed new = true -> exec_value = Ok true) /\
  (forall subject object, enabled new = true -> is_allowed new subject object = true ->
     exists keys e, get_keys policies_section = Ok keys /\ stored keys e /\ grants subject object e = true) /\
  (store_readable -> forall keys e subject object,
     get_keys policies_section = Ok keys -> stored keys e -> grants subject object e = true ->
     is_allowed new subject object = true).
Proof.
  cbv zeta. destruct try_load_ok as [He Hx Hs Hc]. unfold load_permissions.
  destruct (completed try_load) eqn:Hcomp.
  - destruct (Hc eq_refl) as (Her & Hxr & keys & Hk & Hall). specialize (Hx Hxr).
    destruct He as [[He _]|[_ He]]; [|congruence].
    unfold replace_with, is_exec_allowed; cbn [enabled allow_exec]. rewrite He. split_and!; [done| | |].
    + intros ->. cbn. by intros <-.
    + intros subject object Hen. rewrite is_allowed_unfold. cbn. rewrite Hen. apply Hs.
    + intros _ keys' e subject object Hk' ? ?. rewrite is_allowed_unfold. apply orb_true_iff. right.
      apply (Hall e); [|done]. congruence.
  - split_and!; [| | |intros ?%try_load_completes; congruence].
    + destruct He as [[-> ->]|[He ->]]; [by destruct (exec_read try_load)|].
      destruct enabled_value; [done|]. by destruct (exec_read try_load).
    + unfold complete_failed_load, is_exec_allowed, replace_with. cbn.
      destruct (exec_read try_load); [|cbn; by intros ->].
      specialize (Hx eq_refl). destruct (enabled_read try_load); cbn; intros ->; cbn; congruence.
    + intros subject object Hen. rewrite is_allowed_unfold, Hen. cbn [negb orb]. intros Hg. apply Hs. revert Hg.
      unfold complete_failed_load, replace_with, rules_grant. cbn.
      by destruct (enabled_read try_load), (exec_read try_load).
Qed.
End LoadTheorems.

(** A store that loses its lock while the switches are read. *)
Definition flaky_store : settings_store := {|
  get_string path key dflt :=
    if bool_decide (key = str "log denials") then Throw ()
    else if bool_decide (key = str "enabled") then Ok (str "true") else Ok dflt;
  get_keys _ := Ok [str "*"]
|}.

Lemma load_permissions_fails_closed_witness :
  enabled (load_permissions (H := flaky_store) initial_state) = true /\
  (is_exec_allowed (load_permissions (H := flaky_store) initial_state) = true ->
   exec_value (H := flaky_store) = Ok true) /\
  is_exec_allowed (load_permissions (H := flaky_store) initial_state) = false.
Proof.
  destruct (load_permissions_fails_closed (H := flaky_store) initial_state) as (H1 & H2 & _).
  split_and!; [rewrite H1; vm_compute; reflexivity | apply H2; vm_compute; reflexivity | vm_compute; reflexivity].
Defined.

(** ** Object lists *)

(** The list as an operator writes it. *)
Fixpoint join_csv (tokens : list cppstring) : cppstring :=
  match tokens with
  | [] => []
  | [t] => t
  | t :: tokens' => t ++ [c_comma] ++ join_csv tokens'
  end.

Definition nonempty_trimmed (tokens : list cppstring) : list cppstring :=
  filter (fun t => t <> []) (map trim tokens).

Lemma parse_objects_token t rest token objects :
  c_comma ∉ t -> parse_objects (t ++ rest) token objects = parse_objects rest (token ++ t) objects.
Proof.
  revert token. induction t as [|c t IH]; intros token Ht; simpl; [by rewrite app_nil_r|].
  apply not_elem_of_cons in Ht as [Hc Ht].
  rewrite bool_decide_eq_false_2 by congruence. rewrite IH by done. by rewrite <- app_assoc.
Qed.

Lemma nonempty_trimmed_cons t tokens :
  nonempty_trimmed (t :: tokens) =
  (if bool_decide (trim t = []) then [] else [trim t]) ++ nonempty_trimmed tokens.
Proof. unfold nonempty_trimmed. cbn [map]. rewrite filter_cons. by repeat case_decide; case_bool_decide. Qed.

Lemma parse_objects_join tokens objects :
  Forall (fun t => c_comma ∉ t) tokens ->
  parse_objects (join_csv tokens) [] objects = objects ++ nonempty_trimmed tokens.
Proof.
  intros Ht. revert objects. induction Ht as [|t tokens Ht Hts IH]; intros objects.
  { simpl. by rewrite app_nil_r. }
  assert (Hflush : (if bool_decide (trim t = []) then objects else objects ++ [trim t]) =
                   objects ++ (if bool_decide (trim t = []) then [] else [trim t]))
    by (case_bool_decide; [by rewrite app_nil_r | done]).
  rewrite nonempty_trimmed_cons. destruct tokens as [|t' tokens].
  - cbn [join_csv]. rewrite <- (app_nil_r t) at 1. rewrite parse_objects_token by done. cbn [parse_objects app]. change (nonempty_trimmed []) with (@nil cppstring). by rewrite Hflush, app_nil_r.
  - change (join_csv (t :: t' :: tokens)) with (t ++ c_comma :: join_csv (t' :: tokens)).
    rewrite parse_objects_token by done. cbn [parse_objects app]. rewrite bool_decide_eq_true_2 by done.
    rewrite Hflush, IH. by rewrite app_assoc.
Qed.

(** Adding a policy line to an enabled policy allows exactly what was allowed before plus the
    calls whose subject matches the line and whose object matches a non-blank, trimmed entry of
    its comma-separated list. *)
Theorem policy_line_decision subject_pattern tokens s subject object
    (Ht : Forall (fun t => c_comma ∉ t) tokens) (He : enabled s = true) :
  is_allowed (add_rule subject_pattern (join_csv tokens) s) subject object = true <->
  is_allowed s subject object = true \/
  subject_matches subject_pattern subject = true /\
  exists t, t ∈ tokens /\ trim t <> [] /\ object_matches (trim t) object = true.
Proof.
  rewrite !is_allowed_unfold, add_rule_grants, (proj1 (add_rule_flags _ _ s)), He. cbn [negb orb].
  unfold grants. cbn [fst snd]. rewrite parse_objects_join by done.
  rewrite orb_true_iff, andb_true_iff, existsb_exists. cbn [app].
  setoid_rewrite <- list_elem_of_In. unfold nonempty_trimmed. setoid_rewrite list_elem_of_filter.
  setoid_rewrite list_elem_of_fmap. split; [|naive_solver].
  intros [?|[? (o & [? (t & -> & ?)] & ?)]]; [tauto|]. right. split; [done|]. exists t. done.
Qed.

Lemma policy_line_decision_witness :
  is_allowed (add_rule (str "NRPEServer") (join_csv [str "check_cpu"; str " CheckDisk.* "; str " "])
    (set_enabled true initial_state)) (str "NRPEServer:10.0.0.5") (str "CheckDisk.check_files") = true.
Proof.
  apply policy_line_decision.
  - repeat (apply Forall_cons_2; [vm_decide|]). apply Forall_nil_2.
  - reflexivity.
  - right. split; [vm_compute; reflexivity|]. exists (str " CheckDisk.* "). split; [right; left|].
    split; [vm_compute; discriminate | vm_compute; reflexivity].
Defined.
