(* ===== verification/Registry.v ===== *)
(** The command and channel registries of the core: service/commands.hpp and the
    listener lists of service/plugins/plugin_list.hpp.

    The maps are [gmap]s.  Every operation takes the lock with a time-out first;
    its argument [lock] says whether it was had.  The log lines are left out. *)

From stdpp Require Import base gmap strings sorting.
From Stdlib Require Import Ascii ZArith Lia.
From Stdlib Require String.
From S2P Require Import Prelude Strings.
Import String.StringSyntax.

(** A loaded module, as the registries see it (plugin_interface). *)
Record plugin := mkPlugin {
  get_id : Z;
  getName : cppstring;
  hasCommandHandler : bool;
  hasNotificationHandler : bool
}.
#[global] Instance plugin_eq_dec : EqDecision plugin.
Proof. solve_decision. Defined.

Definition make_key (key : cppstring) : cppstring := to_lower key.

(** ** commands *)

Record command_info := mkInfo {
  description : cppstring; plugin_id : Z; info_name : cppstring; experimental : bool
}.

Record commands := mkCommands {
  plugins_ : gmap Z plugin;
  descriptions_ : gmap cppstring command_info;
  commands_ : gmap cppstring plugin;
  aliases_ : gmap cppstring plugin
}.

Definition no_commands : commands := mkCommands ∅ ∅ ∅ ∅.

(** [command_exception] *)
Inductive command_exception :=
| FailedToFindPlugin (id : Z)
| FailedToGetMutex.

Definition commands_add_plugin (lock : bool) (p : plugin) (s : commands) : commands :=
  if negb (hasCommandHandler p) then s
  else if negb lock then s
  else mkCommands (<[get_id p := p]> (plugins_ s)) (descriptions_ s) (commands_ s) (aliases_ s).

Definition commands_remove_all (lock : bool) (s : commands) : commands :=
  if negb lock then s else no_commands.

(** One of the two loops of [remove_plugin] over a command table: the entries of
    the module go, and with each its description while that is the module's own. *)
Definition owned (id : Z) (table : gmap cppstring plugin) (k : cppstring) : bool :=
  match table !! k with Some p => bool_decide (get_id p = id) | None => false end.
Definition drop_entries (id : Z) (table : gmap cppstring plugin) : gmap cppstring plugin :=
  filter (fun kp => get_id kp.2 <> id) table.
Definition drop_descriptions (id : Z) (table : gmap cppstring plugin) (ds : gmap cppstring command_info)
    : gmap cppstring command_info :=
  filter (fun kd => negb (owned id table kd.1 && bool_decide (plugin_id kd.2 = id)) = true) ds.

Definition commands_remove_plugin (lock : bool) (id : Z) (s : commands) : commands :=
  if negb lock then s
  else
    let ds := drop_descriptions id (commands_ s) (descriptions_ s) in
    let ds := drop_descriptions id (aliases_ s) ds in
    mkCommands (delete id (plugins_ s)) ds (drop_entries id (commands_ s)) (drop_entries id (aliases_ s)).

Definition register_command (lock : bool) (id : Z) (cmd desc : cppstring) (exp : bool) (s : commands)
    : result command_exception commands :=
  if negb lock then Ok s
  else
    let lc := make_key cmd in
    match plugins_ s !! id with
    | None => Throw (FailedToFindPlugin id)
    | Some p => Ok (mkCommands (plugins_ s) (<[lc := mkInfo desc id cmd exp]> (descriptions_ s))
                      (<[lc := p]> (commands_ s)) (aliases_ s))
    end.

Definition unregister_command (lock : bool) (id : Z) (cmd : cppstring) (s : commands)
    : result command_exception commands :=
  if negb lock then Ok s
  else
    let lc := make_key cmd in
    match plugins_ s !! id with
    | None => Throw (FailedToFindPlugin id)
    | Some _ =>
        match commands_ s !! lc with
        | None => Ok s
        | Some p =>
            if negb (bool_decide (get_id p = id)) then Ok s
            else
              let ds := match descriptions_ s !! lc with
                        | Some d => if bool_decide (plugin_id d = id) then delete lc (descriptions_ s) else descriptions_ s
                        | None => descriptions_ s
                        end in
              Ok (mkCommands (plugins_ s) ds (delete lc (commands_ s)) (aliases_ s))
        end
    end.

Definition register_alias (lock : bool) (id : Z) (cmd desc : cppstring) (exp : bool) (s : commands)
    : result command_exception commands :=
  if negb lock then Ok s
  else
    let lc := make_key cmd in
    match plugins_ s !! id with
    | None => Throw (FailedToFindPlugin id)
    | Some p => Ok (mkCommands (plugins_ s) (<[lc := mkInfo desc id cmd exp]> (descriptions_ s))
                      (commands_ s) (<[lc := p]> (aliases_ s)))
    end.

(** The names with a description that are in the given table. *)
Definition list_described (s : commands) (table : gmap cppstring plugin) : gset cppstring :=
  dom (filter (fun kd => is_Some (table !! kd.1)) (descriptions_ s)).
Definition list_commands (lock : bool) (s : commands) : gset cppstring :=
  if negb lock then ∅ else list_described s (commands_ s).
Definition list_aliases (lock : bool) (s : commands) : gset cppstring :=
  if negb lock then ∅ else list_described s (aliases_ s).

Definition get (lock : bool) (command : cppstring) (s : commands) : result command_exception (option plugin) :=
  if negb lock then Throw FailedToGetMutex
  else
    let lc := make_key command in
    Ok (match commands_ s !! lc with
        | Some p => Some p
        | None => aliases_ s !! lc
        end).

(** ** Listener lists (channels, event subscribers, routers) *)

Record listener_list := mkListeners {
  l_plugins : gmap Z plugin;
  listeners_ : gmap cppstring (gset Z)
}.

Definition no_listeners : listener_list := mkListeners ∅ ∅.

Definition listeners_add_plugin (lock : bool) (p : plugin) (s : listener_list) : listener_list :=
  if negb (hasNotificationHandler p) then s
  else if negb lock then s
  else mkListeners (<[get_id p := p]> (l_plugins s)) (listeners_ s).

(** Erase the id; drop the channel when nobody is left on it. *)
Definition without (id : Z) (ids : gset Z) : option (gset Z) :=
  let ids := ids ∖ {[id]} in if bool_decide (ids = ∅) then None else Some ids.

Definition listeners_remove_plugin (lock : bool) (id : Z) (s : listener_list) : listener_list :=
  if negb lock then s
  else mkListeners (delete id (l_plugins s)) (omap (without id) (listeners_ s)).

Definition subscribe (id : Z) (ls : gmap cppstring (gset Z)) (c : cppstring) : gmap cppstring (gset Z) :=
  <[c := {[id]} ∪ default ∅ (ls !! c)]> ls.
Definition unsubscribe (id : Z) (ls : gmap cppstring (gset Z)) (c : cppstring) : gmap cppstring (gset Z) :=
  match ls !! c with
  | None => ls
  | Some ids => match without id ids with Some ids => <[c := ids]> ls | None => delete c ls end
  end.

(** [split_lst(lower_case, ",")], which always returns ([split_lst_roundtrip]). *)
Definition channel_names (channel : cppstring) : list cppstring :=
  default [] (split_lst (make_key channel) [","%char]).

Definition register_listener (lock : bool) (id : Z) (channel : cppstring) (s : listener_list)
    : result command_exception listener_list :=
  if negb lock then Ok s
  else match l_plugins s !! id with
       | None => Throw (FailedToFindPlugin id)
       | Some _ => Ok (mkListeners (l_plugins s) (fold_left (subscribe id) (channel_names channel) (listeners_ s)))
       end.

Definition unregister_listener (lock : bool) (id : Z) (channel : cppstring) (s : listener_list) : listener_list :=
  if negb lock then s
  else mkListeners (l_plugins s) (fold_left (unsubscribe id) (channel_names channel) (listeners_ s)).

(** [std::set<unsigned long>] in iteration order. *)
Definition ascending (ids : gset Z) : list Z := merge_sort Z.le (elements ids).

Definition append_one (plugins : gmap Z plugin) (acc : gset Z * list plugin) (id : Z) : gset Z * list plugin :=
  match plugins !! id with
  | None => acc
  | Some p => if bool_decide (id ∈ acc.1) then acc else ({[id]} ∪ acc.1, acc.2 ++ [p])
  end.
Definition append_subscribers (plugins : gmap Z plugin) (ids : gset Z) (acc : gset Z * list plugin) : gset Z * list plugin :=
  fold_left (append_one plugins) (ascending ids) acc.

Definition listeners_get (lock : bool) (channel : cppstring) (s : listener_list) : result command_exception (list plugin) :=
  if negb lock then Throw FailedToGetMutex
  else
    let acc := append_subscribers (l_plugins s) (default ∅ (listeners_ s !! make_key channel)) (∅, []) in
    let acc := append_subscribers (l_plugins s) (default ∅ (listeners_ s !! str "*")) acc in
    Ok acc.2.

(** ** Theorems on commands *)

Section Commands.
Implicit Types s : commands.

Lemma drop_entries_lookup id table k p :
  drop_entries id table !! k = Some p <-> table !! k = Some p /\ get_id p <> id.
Proof. unfold drop_entries. by rewrite map_lookup_filter_Some. Qed.

Lemma drop_entries_None id table k :
  drop_entries id table !! k = None <-> table !! k = None \/ owned id table k = true.
Proof.
  unfold owned. destruct (drop_entries id table !! k) as [p|] eqn:E.
  - apply drop_entries_lookup in E as [E Hid]. rewrite E. split; [done|]. intros [?|H]; [done|].
    by apply bool_decide_eq_true in H.
  - split; [intros _|done]. destruct (table !! k) as [p|] eqn:Ht; [|by left]. right.
    apply bool_decide_eq_true. destruct (decide (get_id p = id)); [done|]. exfalso.
    assert (drop_entries id table !! k = Some p) by (by apply drop_entries_lookup). congruence.
Qed.

Lemma drop_descriptions_lookup id table ds k d :
  drop_descriptions id table ds !! k = Some d <->
  ds !! k = Some d /\ ~ (owned id table k = true /\ plugin_id d = id).
Proof.
  unfold drop_descriptions. rewrite map_lookup_filter_Some. cbn [fst snd].
  rewrite negb_true_iff, andb_false_iff, bool_decide_eq_false.
  destruct (owned id table k); naive_solver.
Qed.

Lemma owned_drop id j table k :
  j <> id -> owned j table k = true -> owned j (drop_entries id table) k = true.
Proof.
  unfold owned. intros Hj. destruct (table !! k) as [p|] eqn:E; [|done]. intros H%bool_decide_eq_true.
  assert (drop_entries id table !! k = Some p) as -> by (apply drop_entries_lookup; split; congruence).
  by apply bool_decide_eq_true.
Qed.

Lemma owned_insert id k k' p table :
  owned id (<[k' := p]> table) k = if decide (k = k') then bool_decide (get_id p = id) else owned id table k.
Proof.
  unfold owned. case_decide as H; [subst; by rewrite lookup_insert_eq|]. by rewrite lookup_insert_ne.
Qed.

Lemma get_Ok command s :
  get true command s = Ok (match commands_ s !! make_key command with
                           | Some p => Some p | None => aliases_ s !! make_key command end).
Proof. done. Qed.
End Commands.

(** After a module is removed no command or alias resolves to it any more, and every name that
    resolved to another module still resolves to that module with its description kept. *)
Theorem remove_plugin_isolated (id : Z) (s : commands) :
  let s' := commands_remove_plugin true id s in
  (forall c p, get true c s' = Ok (Some p) -> get_id p <> id) /\
  (forall c p, get true c s = Ok (Some p) -> get_id p <> id -> get true c s' = Ok (Some p)) /\
  (forall k d, descriptions_ s !! k = Some d -> plugin_id d <> id -> descriptions_ s' !! k = Some d).
Proof.
  cbv zeta. unfold commands_remove_plugin. cbn [negb]. split_and!.
  - intros c p. rewrite get_Ok. cbn [commands_ aliases_]. intros [= H].
    destruct (drop_entries id (commands_ s) !! make_key c) as [q|] eqn:E.
    + injection H as ->. by apply drop_entries_lookup in E as [_ ?].
    + by apply drop_entries_lookup in H as [_ ?].
  - intros c p. rewrite !get_Ok. cbn [commands_ aliases_]. intros [= H] Hid. f_equal.
    destruct (commands_ s !! make_key c) as [q|] eqn:E.
    + injection H as ->. assert (drop_entries id (commands_ s) !! make_key c = Some p) as -> by (by apply drop_entries_lookup).
      done.
    + assert (drop_entries id (commands_ s) !! make_key c = None) as -> by (apply drop_entries_None; by left).
      by apply drop_entries_lookup.
  - intros k d Hd Hid. cbn [descriptions_]. rewrite !drop_descriptions_lookup. naive_solver.
Qed.

(** One call on the registry; a call that throws leaves it as it was. *)
Inductive command_step (s : commands) : commands -> Prop :=
| st_add lock p : command_step s (commands_add_plugin lock p s)
| st_remove_all lock : command_step s (commands_remove_all lock s)
| st_remove lock id : command_step s (commands_remove_plugin lock id s)
| st_register lock id cmd desc exp s' : register_command lock id cmd desc exp s = Ok s' -> command_step s s'
| st_unregister lock id cmd s' : unregister_command lock id cmd s = Ok s' -> command_step s s'
| st_alias lock id cmd desc exp s' : register_alias lock id cmd desc exp s = Ok s' -> command_step s s'.

Definition commands_reachable (s : commands) : Prop := rtc command_step no_commands s.

Record commands_wf (s : commands) : Prop := {
  wf_ids i p : plugins_ s !! i = Some p -> get_id p = i;
  wf_commands k p : commands_ s !! k = Some p -> is_Some (plugins_ s !! get_id p);
  wf_aliases k p : aliases_ s !! k = Some p -> is_Some (plugins_ s !! get_id p);
  wf_descriptions k d : descriptions_ s !! k = Some d ->
    owned (plugin_id d) (commands_ s) k = true \/ owned (plugin_id d) (aliases_ s) k = true
}.

Section CommandsWf.
Implicit Types s : commands.

Lemma no_commands_wf : commands_wf no_commands.
Proof. split; intros ? ?; cbn; by rewrite lookup_empty. Qed.

Lemma add_plugin_wf lock p s : commands_wf s -> commands_wf (commands_add_plugin lock p s).
Proof.
  intros [H1 H2 H3 H4]. unfold commands_add_plugin. destruct (hasCommandHandler p), lock; cbn; try by split.
  split; cbn; [| | |done].
  - intros i q. rewrite lookup_insert_Some. intros [[<- <-]|[_ ?]]; eauto.
  - intros k q Hq. rewrite lookup_insert_is_Some'. right. eauto.
  - intros k q Hq. rewrite lookup_insert_is_Some'. right. eauto.
Qed.

Lemma remove_plugin_wf lock id s : commands_wf s -> commands_wf (commands_remove_plugin lock id s).
Proof.
  intros [H1 H2 H3 H4]. unfold commands_remove_plugin. destruct lock; cbn; [|by split]. split; cbn.
  - intros i p [_ ?]%lookup_delete_Some. eauto.
  - intros k p [? ?]%drop_entries_lookup. rewrite lookup_delete_ne by done. eauto.
  - intros k p [? ?]%drop_entries_lookup. rewrite lookup_delete_ne by done. eauto.
  - intros k d [[Hd Hc]%drop_descriptions_lookup Ha]%drop_descriptions_lookup.
    destruct (decide (plugin_id d = id)) as [<-|Hne].
    + destruct (H4 _ _ Hd); naive_solver.
    + destruct (H4 _ _ Hd); [left|right]; by apply owned_drop.
Qed.

Lemma register_wf lock id cmd desc exp s s' :
  register_command lock id cmd desc exp s = Ok s' -> commands_wf s -> commands_wf s'.
Proof.
  unfold register_command. intros Hr [H1 H2 H3 H4]. destruct lock; cbn in Hr; [|injection Hr as <-; by split].
  destruct (plugins_ s !! id) as [p|] eqn:Hp; [|done]. injection Hr as <-. split; cbn; [done| |done|].
  - intros k q. rewrite lookup_insert_Some. intros [[<- <-]|[_ ?]]; [|eauto]. rewrite (H1 _ _ Hp). eauto.
  - intros k d. rewrite owned_insert, lookup_insert_Some. intros [[<- <-]|[? Hd]].
    + left. rewrite decide_True by done. cbn. rewrite (H1 _ _ Hp). by apply bool_decide_eq_true.
    + rewrite decide_False by done. eauto.
Qed.

Lemma register_alias_wf lock id cmd desc exp s s' :
  register_alias lock id cmd desc exp s = Ok s' -> commands_wf s -> commands_wf s'.
Proof.
  unfold register_alias. intros Hr [H1 H2 H3 H4]. destruct lock; cbn in Hr; [|injection Hr as <-; by split].
  destruct (plugins_ s !! id) as [p|] eqn:Hp; [|done]. injection Hr as <-. split; cbn; [done|done| |].
  - intros k q. rewrite lookup_insert_Some. intros [[<- <-]|[_ ?]]; [|eauto]. rewrite (H1 _ _ Hp). eauto.
  - intros k d. rewrite owned_insert, lookup_insert_Some. intros [[<- <-]|[? Hd]].
    + right. rewrite decide_True by done. cbn. rewrite (H1 _ _ Hp). by apply bool_decide_eq_true.
    + rewrite decide_False by done. eauto.
Qed.

Lemma unregister_wf lock id cmd s s' :
  unregister_command lock id cmd s = Ok s' -> commands_wf s -> commands_wf s'.
Proof.
  unfold unregister_command. intros Hr Hwf. pose proof Hwf as [H1 H2 H3 H4].
  destruct lock; cbn in Hr; [|by injection Hr as <-]. destruct (plugins_ s !! id); [|done].
  destruct (commands_ s !! make_key cmd) as [q|] eqn:Hq; [|by injection Hr as <-].
  case_bool_decide as Hid; cbn in Hr; [|by injection Hr as <-]. injection Hr as <-. split; cbn; [done| |done|].
  - intros k r [_ ?]%lookup_delete_Some. eauto.
  - intros k d Hd. assert (Hold : descriptions_ s !! k = Some d /\ (k = make_key cmd -> plugin_id d <> id)).
    { destruct (descriptions_ s !! make_key cmd) as [d'|] eqn:Hd'.
      - case_bool_decide; [apply lookup_delete_Some in Hd as [? ?]; split; [done | congruence]|].
        split; [done|]. intros ->. congruence.
      - split; [done|]. intros ->. congruence. }
    destruct Hold as [Hold Hne]. destruct (H4 _ _ Hold) as [Ho|Ho]; [|by right]. left.
    unfold owned in *. destruct (decide (k = make_key cmd)) as [->|Hk].
    + rewrite Hq in Ho. apply bool_decide_eq_true in Ho. exfalso. apply Hne; congruence.
    + by rewrite lookup_delete_ne.
Qed.
End CommandsWf.

(** C26. In every state the registry can reach, each registered command and alias belongs to a
    loaded module, and each description belongs to a loaded module that still owns the command
    or the alias of that name: nothing outlives an unloaded module. *)
Theorem command_registry_invariant (s : commands) (Hs : commands_reachable s) :
  (forall k p, commands_ s !! k = Some p \/ aliases_ s !! k = Some p -> is_Some (plugins_ s !! get_id p)) /\
  (forall k d, descriptions_ s !! k = Some d ->
     is_Some (plugins_ s !! plugin_id d) /\
     (owned (plugin_id d) (commands_ s) k = true \/ owned (plugin_id d) (aliases_ s) k = true)).
Proof.
  assert (Hwf : commands_wf s).
  { revert s Hs. apply (rtc_ind_r (R := command_step) commands_wf no_commands); [apply no_commands_wf|].
    intros x y _ Hstep IH. destruct Hstep; eauto using add_plugin_wf, remove_plugin_wf, register_wf, unregister_wf, register_alias_wf.
    unfold commands_remove_all. destruct lock; cbn; auto using no_commands_wf. }
  destruct Hwf as [H1 H2 H3 H4]. split; [naive_solver|]. intros k d Hd. split; [|eauto].
  destruct (H4 _ _ Hd) as [Ho|Ho]; unfold owned in Ho; [destruct (commands_ s !! k) eqn:E | destruct (aliases_ s !! k) eqn:E];
    try done; apply bool_decide_eq_true in Ho; rewrite <- Ho; eauto.
Qed.

Definition demo_plugin (id : Z) : plugin := mkPlugin id (str "Demo") true true.

(** Two modules with a command and an alias each; one of them is unloaded *)
Definition demo_ok (r : result command_exception commands) : commands := match r with Ok s => s | Throw _ => no_commands end.
Definition demo_registered : commands :=
  let s := commands_add_plugin true (demo_plugin 8) (commands_add_plugin true (demo_plugin 7) no_commands) in
  let s := demo_ok (register_command true 7 (str "Check_CPU") (str "cpu load") false s) in
  let s := demo_ok (register_alias true 7 (str "cpu") (str "cpu load") false s) in
  demo_ok (register_command true 8 (str "check_disk") (str "disks") false s).
Definition demo_unloaded : commands := commands_remove_plugin true 8 demo_registered.
Lemma demo_unloaded_reachable : commands_reachable demo_unloaded.
Proof.
  eapply rtc_l; [apply (st_add _ true (demo_plugin 7))|]. eapply rtc_l; [apply (st_add _ true (demo_plugin 8))|].
  eapply rtc_l; [by apply (st_register _ true 7 (str "Check_CPU") (str "cpu load") false)|].
  eapply rtc_l; [by apply (st_alias _ true 7 (str "cpu") (str "cpu load") false)|].
  eapply rtc_l; [by apply (st_register _ true 8 (str "check_disk") (str "disks") false)|]. apply rtc_once, (st_remove _ true 8).
Qed.

Lemma command_registry_invariant_witness :
  (commands_ demo_unloaded !! str "check_cpu" = Some (demo_plugin 7) /\ aliases_ demo_unloaded !! str "cpu" = Some (demo_plugin 7) /\
   descriptions_ demo_unloaded !! str "cpu" = Some (mkInfo (str "cpu load") 7 (str "cpu") false) /\
   commands_ demo_registered !! str "check_disk" = Some (demo_plugin 8) /\ commands_ demo_unloaded !! str "check_disk" = None) /\
  is_Some (plugins_ demo_unloaded !! 7%Z) /\ (owned 7 (commands_ demo_unloaded) (str "cpu") = true \/ owned 7 (aliases_ demo_unloaded) (str "cpu") = true).
Proof.
  split; [split_and!; vm_compute; reflexivity|].
  apply (proj2 (command_registry_invariant demo_unloaded demo_unloaded_reachable) (str "cpu") (mkInfo (str "cpu load") 7 (str "cpu") false)). vm_compute. reflexivity.
Defined.

(** Registering a command makes it resolve to its module whatever the letter case and leaves
    every other name as it was; unregistering it by the owner removes exactly that entry again. *)
Theorem register_then_get lock id cmd desc exp (s s' : commands) (p : plugin)
    (Hp : plugins_ s !! id = Some p) (Hr : register_command true id cmd desc exp s = Ok s') :
  (forall c, make_key c = make_key cmd -> get true c s' = Ok (Some p) /\ descriptions_ s' !! make_key c = Some (mkInfo desc id cmd exp)) /\
  (forall c, make_key c <> make_key cmd -> get lock c s' = get lock c s) /\
  (forall s'', unregister_command true id cmd s' = Ok s'' -> get_id p = id ->
     commands_ s'' = delete (make_key cmd) (commands_ s)).
Proof.
  unfold register_command in Hr. cbn in Hr. rewrite Hp in Hr. injection Hr as <-. split_and!.
  - intros c Hc. rewrite get_Ok. cbn. rewrite Hc, !lookup_insert_eq. done.
  - intros c Hc. unfold get. cbn. by rewrite lookup_insert_ne.
  - intros s''. unfold unregister_command. cbn. rewrite Hp, lookup_insert_eq. intros Hu Hid.
    rewrite bool_decide_eq_true_2 in Hu by done. cbn in Hu. injection Hu as <-. cbn. apply delete_insert_eq.
Qed.

Lemma register_then_get_witness :
  exists s', register_command true 7 (str "Check_CPU") [] false (commands_add_plugin true (demo_plugin 7) no_commands) = Ok s' /\
    get true (str "check_cpu") s' = Ok (Some (demo_plugin 7)).
Proof.
  eexists. split; [reflexivity|].
  eapply (register_then_get true 7 (str "Check_CPU") [] false (commands_add_plugin true (demo_plugin 7) no_commands));
    [vm_compute; reflexivity | reflexivity | vm_compute; reflexivity].
Defined.

(** A reachable registry in which a command still resolves but is no longer listed: another
    module registered an alias of the same name, which took the description over, and was
    removed. *)
Theorem removed_alias_hides_command :
  exists s, commands_reachable s /\
    get true (str "check_cpu") s = Ok (Some (demo_plugin 1)) /\ list_commands true s = ∅.
Proof.
  set (s1 := commands_add_plugin true (demo_plugin 2) (commands_add_plugin true (demo_plugin 1) no_commands)).
  destruct (register_command true 1 (str "check_cpu") [] false s1) as [s2|] eqn:E2; [|vm_compute in E2; discriminate].
  destruct (register_alias true 2 (str "check_cpu") [] false s2) as [s3|] eqn:E3;
    [|vm_compute in E2; injection E2 as <-; vm_compute in E3; discriminate].
  exists (commands_remove_plugin true 2 s3). split_and!.
  - eapply rtc_l; [apply (st_add _ true (demo_plugin 1))|]. eapply rtc_l; [apply (st_add _ true (demo_plugin 2))|].
    eapply rtc_l; [by eapply st_register|]. eapply rtc_l; [by eapply st_alias|]. apply rtc_once, st_remove.
  - vm_compute in E2. injection E2 as <-. vm_compute in E3. injection E3 as <-. vm_compute. reflexivity.
  - vm_compute in E2. injection E2 as <-. vm_compute in E3. injection E3 as <-. vm_compute. reflexivity.
Qed.

(** ** Theorems on listeners *)

Section Listeners.
Implicit Types ls : gmap cppstring (gset Z).

Definition subscribed ls (c : cppstring) : gset Z := default ∅ (ls !! c).

Lemma subscribed_subscribe id ls c c' j :
  j ∈ subscribed (subscribe id ls c') c <-> (c = c' /\ j = id) \/ j ∈ subscribed ls c.
Proof.
  unfold subscribe, subscribed. destruct (decide (c = c')) as [->|Hc].
  - rewrite lookup_insert_eq. cbn. set_solver.
  - rewrite lookup_insert_ne by done. naive_solver.
Qed.

Lemma default_without id ids : default ∅ (without id ids) = ids ∖ {[id]}.
Proof. unfold without. by case_bool_decide as H; cbn; [rewrite H|]. Qed.

Lemma subscribed_unsubscribe id ls c c' j :
  j ∈ subscribed (unsubscribe id ls c') c <-> j ∈ subscribed ls c /\ ~ (c = c' /\ j = id).
Proof.
  unfold unsubscribe, subscribed. destruct (ls !! c') as [ids|] eqn:E.
  - destruct (decide (c = c')) as [->|Hc].
    + rewrite E. cbn. assert (He : default ∅ ((match without id ids with Some i => <[c':=i]> ls | None => delete c' ls end) !! c')
                             = ids ∖ {[id]}).
      { rewrite <- default_without. destruct (without id ids); [by rewrite lookup_insert_eq | by rewrite lookup_delete_eq]. }
      rewrite He. set_solver.
    + destruct (without id ids); [rewrite lookup_insert_ne by done | rewrite lookup_delete_ne by done]; naive_solver.
  - destruct (decide (c = c')) as [->|Hc]; [rewrite E; cbn; set_solver | naive_solver].
Qed.

Lemma subscribed_fold_subscribe id names : forall ls c j,
  j ∈ subscribed (fold_left (subscribe id) names ls) c <-> (c ∈ names /\ j = id) \/ j ∈ subscribed ls c.
Proof.
  induction names as [|n names IH]; intros ls c j; cbn; [set_solver|].
  rewrite IH, subscribed_subscribe, elem_of_cons. naive_solver.
Qed.

Lemma subscribed_fold_unsubscribe id names : forall ls c j,
  j ∈ subscribed (fold_left (unsubscribe id) names ls) c <-> j ∈ subscribed ls c /\ ~ (c ∈ names /\ j = id).
Proof.
  induction names as [|n names IH]; intros ls c j; cbn; [set_solver|].
  rewrite IH, subscribed_unsubscribe, elem_of_cons. naive_solver.
Qed.

Lemma subscribed_remove id ls c j :
  j ∈ subscribed (omap (without id) ls) c <-> j ∈ subscribed ls c /\ j <> id.
Proof.
  unfold subscribed. rewrite lookup_omap. destruct (ls !! c) as [ids|]; cbn; [|set_solver].
  rewrite default_without. set_solver.
Qed.

(** What [append_subscribers] adds: the loaded modules it has not seen. *)
Lemma fold_append_spec (ps : gmap Z plugin) ids : forall seen ret,
  (forall i p, ps !! i = Some p -> get_id p = i) ->
  NoDup (map get_id ret) -> (forall i, i ∈ seen <-> i ∈ map get_id ret) ->
  let r := fold_left (append_one ps) ids (seen, ret) in
  NoDup (map get_id r.2) /\ (forall i, i ∈ r.1 <-> i ∈ map get_id r.2) /\
  (forall p, p ∈ r.2 <-> p ∈ ret \/ exists i, i ∈ ids /\ ps !! i = Some p /\ i ∉ seen).
Proof.
  induction ids as [|i ids IH]; intros seen ret Hid Hnd Hseen; cbn; [split_and!; set_solver|].
  assert (Hone : append_one ps (seen, ret) i = match ps !! i with
      | None => (seen, ret)
      | Some p => if bool_decide (i ∈ seen) then (seen, ret) else ({[i]} ∪ seen, ret ++ [p])
      end) by reflexivity.
  rewrite Hone. clear Hone. destruct (ps !! i) as [p|] eqn:Ei.
  - case_bool_decide as Hin.
    + destruct (IH seen ret Hid Hnd Hseen) as (? & ? & Hp). split_and!; [done..|].
      intros q. rewrite Hp. setoid_rewrite elem_of_cons. naive_solver.
    + destruct (IH ({[i]} ∪ seen) (ret ++ [p])) as (? & Hs & Hp); [done| | |].
      * rewrite map_app. apply NoDup_app. split_and!; [done| |apply NoDup_singleton].
        cbn. rewrite (Hid _ _ Ei). intros x Hx. rewrite list_elem_of_singleton. intros ->. by apply Hin, Hseen.
      * intros x. rewrite map_app, elem_of_app, <- Hseen. cbn. rewrite (Hid _ _ Ei). set_solver.
      * split_and!; [done..|]. intros q. rewrite Hp, elem_of_app, list_elem_of_singleton. setoid_rewrite elem_of_cons. split.
        -- intros [[?| ->]|(j & ? & ? & ?)]; [by left | right; exists i; naive_solver | right; exists j; set_solver].
        -- intros [?|(j & [->|?] & Hj & ?)]; [naive_solver | left; right; congruence|].
           destruct (decide (j = i)) as [->|]; [left; right; congruence|]. right. exists j. set_solver.
  - destruct (IH seen ret Hid Hnd Hseen) as (? & ? & Hp). split_and!; [done..|].
    intros q. rewrite Hp. setoid_rewrite elem_of_cons. naive_solver.
Qed.

Lemma elem_of_ascending i ids : i ∈ ascending ids <-> i ∈ ids.
Proof. unfold ascending. by rewrite merge_sort_Permutation, elem_of_elements. Qed.
End Listeners.

(** The subscribers of a channel are each loaded module subscribed to it (in lower case) or to
    "*", each exactly once; ids of modules no longer loaded are skipped. *)
Theorem listeners_get_exact (channel : cppstring) (s : listener_list)
    (Hid : forall i p, l_plugins s !! i = Some p -> get_id p = i) :
  exists l, listeners_get true channel s = Ok l /\ NoDup (map get_id l) /\
    forall p, p ∈ l <-> l_plugins s !! get_id p = Some p /\
      (get_id p ∈ subscribed (listeners_ s) (make_key channel) \/ get_id p ∈ subscribed (listeners_ s) (str "*")).
Proof.
  unfold listeners_get. cbn [negb]. eexists. split; [reflexivity|]. unfold append_subscribers.
  destruct (fold_append_spec (l_plugins s) (ascending (subscribed (listeners_ s) (make_key channel))) ∅ [])
    as (Hn1 & Hs1 & Hp1); [done | apply NoDup_nil_2 | set_solver |].
  fold (subscribed (listeners_ s) (make_key channel)) (subscribed (listeners_ s) (str "*")).
  destruct (fold_left _ (ascending (subscribed (listeners_ s) (make_key channel))) _) as [seen ret]. cbn [fst snd] in *.
  destruct (fold_append_spec (l_plugins s) (ascending (subscribed (listeners_ s) (str "*"))) seen ret)
    as (Hn2 & _ & Hp2); [done..|]. split; [done|]. intros p. rewrite Hp2, Hp1.
  setoid_rewrite elem_of_ascending. split.
  - intros [[?|(i & ? & Hi & _)]|(i & ? & Hi & _)]; [set_solver | |]; rewrite (Hid _ _ Hi); auto.
  - intros [Hl [?|?]]; [left; right; exists (get_id p); set_solver|].
    destruct (decide (get_id p ∈ seen)) as [Hin|]; [|right; eauto]. left.
    apply Hs1 in Hin. apply list_elem_of_fmap in Hin as (q & Hq & Hin). apply Hp1 in Hin as [?|(i & ? & Hi & ?)]; [set_solver|].
    right. exists i. pose proof (Hid _ _ Hi). split_and!; [by apply elem_of_ascending | congruence | done].
Qed.

Lemma listeners_get_exact_witness :
  exists l, listeners_get true (str "syslog") (mkListeners {[7%Z := demo_plugin 7]} {[str "*" := {[7%Z]}]}) = Ok l /\
    NoDup (map get_id l).
Proof.
  destruct (listeners_get_exact (str "syslog") (mkListeners {[7%Z := demo_plugin 7]} {[str "*" := {[7%Z]}]})) as (l & Hl & Hn & _);
    [|by exists l].
  cbn. intros i p [<- <-]%lookup_singleton_Some. reflexivity.
Defined.

(** Subscribing, unsubscribing and unloading one module change only that module's subscriptions,
    on exactly the named channels (on all of them for an unload); every other subscription
    stays. *)
Theorem subscriptions_are_independent (id : Z) (channel : cppstring) (s : listener_list) :
  (forall s' c j, register_listener true id channel s = Ok s' ->
     j ∈ subscribed (listeners_ s') c <-> (c ∈ channel_names channel /\ j = id) \/ j ∈ subscribed (listeners_ s) c) /\
  (forall c j, j ∈ subscribed (listeners_ (unregister_listener true id channel s)) c <->
     j ∈ subscribed (listeners_ s) c /\ ~ (c ∈ channel_names channel /\ j = id)) /\
  (forall c j, j ∈ subscribed (listeners_ (listeners_remove_plugin true id s)) c <->
     j ∈ subscribed (listeners_ s) c /\ j <> id).
Proof.
  split_and!.
  - intros s' c j. unfold register_listener. cbn. destruct (l_plugins s !! id); [|done]. intros [= <-].
    apply subscribed_fold_subscribe.
  - intros c j. apply subscribed_fold_unsubscribe.
  - intros c j. apply subscribed_remove.
Qed.
