(* ===== verification/Dispatch.v ===== *)
(** Query dispatch: [plugin_manager::execute_query] and the subject it derives from
    the request header (service/plugins/plugin_manager.cpp), and the lookup of the
    calling module (service/plugins/plugin_cache.cpp).

    The protobuf messages are records of the fields the code reads and writes.  A
    module is reached through [handleCommand], a parameter ([modules]); parsing a
    number is boost's [lexical_cast], a parameter too.  [command_chunks] is an
    unordered map: here its entries are in order of first insertion, and the
    theorems do not depend on that order. *)

From stdpp Require Import base gmap strings.
From Stdlib Require Import Ascii ZArith Lia.
From Stdlib Require String.
From S2P Require Import Prelude Permissions Strings Registry.
Import String.StringSyntax.

(** ** Messages *)

Record query_payload := mkPayload { pl_command : cppstring; pl_arguments : list cppstring }.

Record query_request := mkRequest {
  rq_command : cppstring;                        (* header().command() *)
  rq_metadata : list (cppstring * cppstring);    (* header().metadata() *)
  rq_payload : list query_payload
}.

Record response_payload := mkResponse { rs_command : cppstring; rs_result : Z; rs_message : cppstring }.

Record query_response := mkReply {
  rp_header : option (list (cppstring * cppstring));   (* None: no header set *)
  rp_payload : list response_payload
}.

Definition UNKNOWN : Z := 3.
Definition set_response_bad (command message : cppstring) : response_payload :=
  mkResponse (if bool_decide (command = []) then str "unknown" else command) UNKNOWN message.

(** ** The plugin cache *)

Record plugin_cache_item := mkCacheItem { ci_id : Z; ci_dll : cppstring; ci_alias : cppstring }.

(** A lock that could not be had reads as an empty cache. *)
Definition find_plugin_info (cache : list plugin_cache_item) (id : Z) : option plugin_cache_item :=
  snd <$> list_find (fun i => ci_id i = id) cache.

Definition find_plugin_alias (print_id : Z -> cppstring) (cache : list plugin_cache_item) (id : Z) : cppstring :=
  match find_plugin_info cache id with
  | None => str "Failed to find plugin: " ++ print_id id
  | Some i => if bool_decide (ci_alias i = []) then ci_dll i else ci_alias i
  end.

(** ** What the core calls *)

Class modules := {
  (* plugin->handleCommand: None is a return code other than isSuccess *)
  handleCommand : plugin -> query_request -> result unit (option query_response);
  (* str::stox<long> and str::xtos *)
  stox_long : cppstring -> option Z;
  xtos : Z -> cppstring;
  (* command_hints::annotate with the registered providers *)
  annotate : cppstring -> cppstring
}.

Record core_state := mkCore {
  permissions_ : perm_state;
  registry_ : commands;
  plugin_cache_ : list plugin_cache_item
}.

Definition append_list (lst append : cppstring) : cppstring :=
  if bool_decide (append = []) then lst
  else if bool_decide (lst = []) then append else lst ++ str ", " ++ append.

Section Dispatch.
Context `{modules}.

(** ** extract_subject_from_header *)

Definition read_metadata (acc : cppstring * cppstring) (kv : cppstring * cppstring) : cppstring * cppstring :=
  if bool_decide (kv.1 = str "nscp.caller_plugin_id") then (kv.2, acc.2)
  else if bool_decide (kv.1 = str "nscp.principal") then (acc.1, kv.2)
  else acc.

Definition extract_subject_from_header (metadata : list (cppstring * cppstring)) (cache : list plugin_cache_item) : cppstring :=
  let '(plugin_id_str, principal) := fold_left read_metadata metadata ([], []) in
  let module :=
    if bool_decide (plugin_id_str = []) then []
    else match stox_long plugin_id_str with
         | None => []
         | Some l =>
             let m := find_plugin_alias xtos cache (wrap_u 32 l) in
             if bool_decide (take 21 m = str "Failed to find plugin") then [] else m
         end in
  make_subject (if bool_decide (module = []) then str "*" else module) principal.

(** ** execute_query *)

Definition max_query_depth : Z := 16.

Definition emit_denied_payload (r : query_response) (command subject : cppstring) : query_response :=
  mkReply (Some (default [] (rp_header r) ++ [(str "nscp.query_denied", command)]))
    (rp_payload r ++ [set_response_bad command
      (str "Permission denied: " ++ subject ++ str " is not allowed to run " ++ command)]).

Definition describe_requested_commands (rq : query_request) : cppstring :=
  if negb (bool_decide (rq_command rq = [])) then rq_command rq
  else
    let commands := fold_left (fun l p => append_list l (pl_command p)) (rq_payload rq) [] in
    if bool_decide (commands = []) then str "(no command)" else commands.

Definition too_deep_reply (rq : query_request) : query_response :=
  mkReply None [set_response_bad (describe_requested_commands rq)
    (str "Command nesting too deep (limit " ++ xtos max_query_depth ++
     str "): a check that runs other checks cannot recurse indefinitely")].

Record command_chunk := mkChunk { ck_plugin : plugin; ck_request : query_request }.

(** What the two collecting branches have built. *)
Record plan := mkPlan {
  pn_chunks : list (Z * command_chunk);
  pn_missing : list cppstring;
  pn_response : query_response
}.
Definition empty_plan : plan := mkPlan [] [] (mkReply None []).

Definition allowed (st : core_state) (subject : cppstring) (p : plugin) (command : cppstring) : bool :=
  is_allowed (permissions_ st) subject (make_object (getName p) command).

(** [command_chunks[id]...add_payload()] *)
Fixpoint add_to_chunk (p : plugin) (metadata : list (cppstring * cppstring)) (pl : query_payload)
    (chunks : list (Z * command_chunk)) : list (Z * command_chunk) :=
  match chunks with
  | [] => [(get_id p, mkChunk p (mkRequest [] metadata [pl]))]
  | (id, c) :: chunks' =>
      if bool_decide (id = get_id p)
      then (id, mkChunk (ck_plugin c) (mkRequest (rq_command (ck_request c)) (rq_metadata (ck_request c))
                                         (rq_payload (ck_request c) ++ [pl]))) :: chunks'
      else (id, c) :: add_to_chunk p metadata pl chunks'
  end.

(** One turn of the loop over the payloads. *)
Definition visit_payload (lock : bool) (st : core_state) (subject : cppstring) (metadata : list (cppstring * cppstring))
    (pl : query_payload) (n : plan) : result command_exception plan :=
  let pl := mkPayload (make_key (pl_command pl)) (pl_arguments pl) in
  let* found := get lock (pl_command pl) (registry_ st) in
  match found with
  | Some p =>
      if negb (allowed st subject p (pl_command pl))
      then Ok (mkPlan (pn_chunks n) (pn_missing n) (emit_denied_payload (pn_response n) (pl_command pl) subject))
      else Ok (mkPlan (add_to_chunk p metadata pl (pn_chunks n)) (pn_missing n) (pn_response n))
  | None => Ok (mkPlan (pn_chunks n) (pn_missing n ++ [pl_command pl]) (pn_response n))
  end.

Fixpoint visit_payloads (lock : bool) (st : core_state) (subject : cppstring) (metadata : list (cppstring * cppstring))
    (pls : list query_payload) (n : plan) : result command_exception plan :=
  match pls with
  | [] => Ok n
  | pl :: pls' => let* n := visit_payload lock st subject metadata pl n in visit_payloads lock st subject metadata pls' n
  end.

(** The branch for a command in the header: the whole request goes to its module.
    The boolean says that the call returns at once (denied). *)
Definition visit_header (lock : bool) (st : core_state) (subject : cppstring) (rq : query_request)
    : result command_exception (plan * bool) :=
  let command := rq_command rq in
  let* found := get lock command (registry_ st) in
  match found with
  | Some p =>
      if negb (allowed st subject p command)
      then Ok (mkPlan [] [] (emit_denied_payload (mkReply None []) command subject), true)
      else Ok (mkPlan [(get_id p, mkChunk p rq)] [] (mkReply None []), false)
  | None => Ok (mkPlan [] [command] (mkReply None []), false)
  end.

Definition plan_query (lock : bool) (st : core_state) (rq : query_request) : result command_exception (plan * bool) :=
  let subject := extract_subject_from_header (rq_metadata rq) (plugin_cache_ st) in
  if negb (bool_decide (rq_command rq = [])) then visit_header lock st subject rq
  else let* n := visit_payloads lock st subject (rq_metadata rq) (rq_payload rq) empty_plan in Ok (n, false).

(** The reply when nothing is dispatched. *)
Definition no_chunks_reply (n : plan) : query_response :=
  let missing_commands := fold_left append_list (pn_missing n) [] in
  if negb (bool_decide (missing_commands = [])) then
    let message := str "Unknown command(s): " ++ fold_left append_list (map annotate (pn_missing n)) [] in
    mkReply (rp_header (pn_response n)) (rp_payload (pn_response n) ++ [set_response_bad missing_commands message])
  else pn_response n.

Definition merge_reply (r l : query_response) : query_response :=
  mkReply (match rp_header r with Some h => Some h | None => Some (default [] (rp_header l)) end)
    (rp_payload r ++ rp_payload l).

Fixpoint run_chunks (chunks : list (Z * command_chunk)) (r : query_response) : result unit query_response :=
  match chunks with
  | [] => Ok r
  | (_, c) :: chunks' =>
      let* ret := handleCommand (ck_plugin c) (ck_request c) in
      run_chunks chunks' (match ret with None => r | Some l => merge_reply r l end)
  end.

(** [Ok r] is isSuccess with response [r], [Throw] is hasFailed.  [query_depth] is
    the thread's depth before this call; the guard counts the call itself. *)
Definition execute_query (lock : bool) (query_depth : Z) (st : core_state) (rq : query_request) : result unit query_response :=
  if Z.gtb (query_depth + 1) max_query_depth then Ok (too_deep_reply rq)
  else match plan_query lock st rq with
       | Throw _ => Throw ()
       | Ok (n, true) => Ok (pn_response n)
       | Ok (n, false) =>
           if bool_decide (pn_chunks n = []) then Ok (no_chunks_reply n)
           else run_chunks (pn_chunks n) (pn_response n)
       end.

(** ** What becomes of each payload *)

Definition keyed (pl : query_payload) : query_payload := mkPayload (make_key (pl_command pl)) (pl_arguments pl).

Definition resolve (st : core_state) (command : cppstring) : option plugin :=
  match commands_ (registry_ st) !! make_key command with
  | Some p => Some p
  | None => aliases_ (registry_ st) !! make_key command
  end.

(** The module a payload goes to, if it goes to one. *)
Definition goes_to (st : core_state) (subject : cppstring) (pl : query_payload) : option Z :=
  match resolve st (pl_command (keyed pl)) with
  | Some p => if allowed st subject p (pl_command (keyed pl)) then Some (get_id p) else None
  | None => None
  end.
Definition is_missing (st : core_state) (pl : query_payload) : Prop := resolve st (pl_command (keyed pl)) = None.
Definition is_denied (st : core_state) (subject : cppstring) (pl : query_payload) : Prop :=
  resolve st (pl_command (keyed pl)) <> None /\ goes_to st subject pl = None.
#[global] Instance is_missing_dec st pl : Decision (is_missing st pl).
Proof. unfold is_missing. apply _. Defined.
#[global] Instance is_denied_dec st subject pl : Decision (is_denied st subject pl).
Proof. unfold is_denied. apply _. Defined.

Definition denial (subject : cppstring) (pl : query_payload) : response_payload :=
  set_response_bad (pl_command (keyed pl))
    (str "Permission denied: " ++ subject ++ str " is not allowed to run " ++ pl_command (keyed pl)).

(** The payloads collected for a module. *)
Definition chunk_payloads (id : Z) (chunks : list (Z * command_chunk)) : list query_payload :=
  concat (map (fun ic => if bool_decide (ic.1 = id) then rq_payload (ck_request ic.2) else []) chunks).

Lemma chunk_payloads_add p md pl chunks id :
  NoDup (chunks.*1) ->
  chunk_payloads id (add_to_chunk p md pl chunks)
  = chunk_payloads id chunks ++ (if bool_decide (get_id p = id) then [pl] else []).
Proof.
  unfold chunk_payloads. induction chunks as [|[i c] chunks IH]; intros Hnd.
  - cbn. case_bool_decide; by rewrite ?app_nil_r.
  - apply NoDup_cons in Hnd as [Hi Hnd]. cbn [add_to_chunk]. destruct (decide (i = get_id p)) as [->|Hp];
      [rewrite (bool_decide_eq_true_2 (get_id p = get_id p)) by done | rewrite (bool_decide_eq_false_2 (i = get_id p)) by done]; cbn.
    + case_bool_decide as Hid; [|by rewrite app_nil_r]. subst id.
      rewrite <- !app_assoc. f_equal.
      assert (Hnone : concat (map (fun ic => if bool_decide (ic.1 = get_id p) then rq_payload (ck_request ic.2) else []) chunks) = []).
      { clear IH. induction chunks as [|[j d] chunks IH]; cbn in *; [done|]. apply not_elem_of_cons in Hi as [Hj Hi].
        apply NoDup_cons in Hnd as [_ Hnd]. rewrite bool_decide_eq_false_2 by congruence. by apply IH. }
      by rewrite Hnone.
    + rewrite IH by done. by rewrite app_assoc.
Qed.

Lemma add_to_chunk_ids p md pl chunks :
  (add_to_chunk p md pl chunks).*1 = chunks.*1 ++ (if bool_decide (get_id p ∈ chunks.*1) then [] else [get_id p]).
Proof.
  induction chunks as [|[i c] chunks IH].
  - cbn. rewrite bool_decide_eq_false_2; [done|]. set_solver.
  - cbn [add_to_chunk]. destruct (decide (i = get_id p)) as [->|Hp];
      [rewrite (bool_decide_eq_true_2 (get_id p = get_id p)) by done | rewrite (bool_decide_eq_false_2 (i = get_id p)) by done]; cbn.
    + rewrite bool_decide_eq_true_2 by set_solver. by rewrite app_nil_r.
    + rewrite IH. f_equal. f_equal. repeat case_bool_decide; set_solver.
Qed.

(** The plan after a batch, from any plan before it. *)
Record plan_of (st : core_state) (subject : cppstring) (pls : list query_payload) (n n' : plan) : Prop := {
  po_missing : pn_missing n' = pn_missing n ++ map (fun pl => pl_command (keyed pl)) (filter (is_missing st) pls);
  po_denied : rp_payload (pn_response n') =
    rp_payload (pn_response n) ++ map (denial subject) (filter (is_denied st subject) pls);
  po_chunks id : chunk_payloads id (pn_chunks n') =
    chunk_payloads id (pn_chunks n) ++ map keyed (filter (fun pl => goes_to st subject pl = Some id) pls);
  po_nodup : NoDup (pn_chunks n').*1
}.

Lemma visit_payload_plan st subject md pl n :
  NoDup (pn_chunks n).*1 ->
  exists n', visit_payload true st subject md pl n = Ok n' /\ plan_of st subject [pl] n n'.
Proof.
  intros Hnd. unfold visit_payload. rewrite get_Ok. cbn [rbind]. fold (keyed pl).
  fold (resolve st (pl_command (keyed pl))). destruct (resolve st (pl_command (keyed pl))) as [p|] eqn:Er.
  - destruct (allowed st subject p (pl_command (keyed pl))) eqn:Ea; cbn [negb]; eexists; (split; [reflexivity|]).
    + assert (Hg : goes_to st subject pl = Some (get_id p)) by (unfold goes_to; by rewrite Er, Ea).
      split; cbn [pn_missing pn_response pn_chunks].
      * rewrite filter_cons_False by (unfold is_missing; by rewrite Er). by rewrite app_nil_r.
      * rewrite filter_cons_False by (unfold is_denied; naive_solver). by rewrite app_nil_r.
      * intros id. rewrite chunk_payloads_add by done. f_equal. rewrite filter_cons.
        case_bool_decide; case_decide; try done; congruence.
      * rewrite add_to_chunk_ids. case_bool_decide; [by rewrite app_nil_r|].
        apply NoDup_app. split_and!; [done | | apply NoDup_singleton]. intros x ? ?%list_elem_of_singleton. by subst.
    + assert (Hg : goes_to st subject pl = None) by (unfold goes_to; by rewrite Er, Ea).
      split; cbn [pn_missing pn_response pn_chunks].
      * rewrite filter_cons_False by (unfold is_missing; by rewrite Er). by rewrite app_nil_r.
      * rewrite filter_cons_True by (unfold is_denied; rewrite Er; naive_solver). done.
      * intros id. rewrite filter_cons_False by congruence. by rewrite app_nil_r.
      * done.
  - assert (Hg : goes_to st subject pl = None) by (unfold goes_to; by rewrite Er).
    eexists; (split; [reflexivity|]). split; cbn [pn_missing pn_response pn_chunks].
    + by rewrite filter_cons_True by done.
    + rewrite filter_cons_False by (unfold is_denied; rewrite Er; naive_solver). by rewrite app_nil_r.
    + intros id. rewrite filter_cons_False by congruence. by rewrite app_nil_r.
    + done.
Qed.

Lemma visit_payloads_plan st subject md pls : forall n,
  NoDup (pn_chunks n).*1 ->
  exists n', visit_payloads true st subject md pls n = Ok n' /\ plan_of st subject pls n n'.
Proof.
  induction pls as [|pl pls IH]; intros n Hnd; cbn [visit_payloads].
  - exists n. split; [done|]. split; intros; rewrite ?app_nil_r; done.
  - destruct (visit_payload_plan st subject md pl n Hnd) as (n1 & -> & [Hm Hd Hc Hn]). cbn [rbind].
    destruct (IH n1 Hn) as (n2 & -> & [Hm2 Hd2 Hc2 Hn2]). exists n2. split; [done|].
    change (pl :: pls) with ([pl] ++ pls). split; [| | |done].
    + by rewrite Hm2, Hm, filter_app, map_app, app_assoc.
    + by rewrite Hd2, Hd, filter_app, map_app, app_assoc.
    + intros id. by rewrite Hc2, Hc, filter_app, map_app, app_assoc.
Qed.

Lemma query_batch_partition_aux (st : core_state) (rq : query_request) (Hbatch : rq_command rq = []) :
  let subject := extract_subject_from_header (rq_metadata rq) (plugin_cache_ st) in
  exists n, plan_query true st rq = Ok (n, false) /\
    (forall id, chunk_payloads id (pn_chunks n) =
       map keyed (filter (fun pl => goes_to st subject pl = Some id) (rq_payload rq))).
Proof.
  cbv zeta. unfold plan_query. rewrite Hbatch, bool_decide_eq_true_2 by done. cbn [negb].
  set (subject := extract_subject_from_header _ _).
  destruct (visit_payloads_plan st subject (rq_metadata rq) (rq_payload rq) empty_plan) as (n & -> & [_ _ Hc _]);
    [apply NoDup_nil_2|].
  exists n. split; done.
Qed.

(** Each payload of a batch query has exactly one fate, in request order: unknown commands are
    listed as missing, commands the policy refuses get one denial payload each, and all others
    are collected, lower-cased, in the single chunk of the module they resolve to. *)
Theorem query_batch_partition (st : core_state) (rq : query_request) (Hbatch : rq_command rq = []) :
  let subject := extract_subject_from_header (rq_metadata rq) (plugin_cache_ st) in
  exists n, plan_query true st rq = Ok (n, false) /\
    pn_missing n = map (fun pl => make_key (pl_command pl)) (filter (is_missing st) (rq_payload rq)) /\
    rp_payload (pn_response n) = map (denial subject) (filter (is_denied st subject) (rq_payload rq)) /\
    (forall id, chunk_payloads id (pn_chunks n) =
       map keyed (filter (fun pl => goes_to st subject pl = Some id) (rq_payload rq))) /\
    NoDup (pn_chunks n).*1.
Proof.
  cbv zeta. unfold plan_query. rewrite Hbatch, bool_decide_eq_true_2 by done. cbn [negb].
  set (subject := extract_subject_from_header _ _).
  destruct (visit_payloads_plan st subject (rq_metadata rq) (rq_payload rq) empty_plan) as (n & -> & [Hm Hd Hc Hn]);
    [apply NoDup_nil_2|].
  exists n. split_and!; done.
Qed.

Lemma chunk_payloads_elem id c chunks pl :
  (id, c) ∈ chunks -> pl ∈ rq_payload (ck_request c) -> pl ∈ chunk_payloads id chunks.
Proof.
  intros Hc Hpl. unfold chunk_payloads. induction chunks as [|ic chunks IH]; [by apply not_elem_of_nil in Hc|]. cbn.
  apply elem_of_cons in Hc as [<-|Hc]; apply elem_of_app; [left | right; by apply IH].
  cbn. by rewrite bool_decide_eq_true_2.
Qed.

(** The chunk of a module names a module that one of its payloads resolves to. *)
Definition led (st : core_state) (subject : cppstring) (id : Z) (c : command_chunk) : Prop :=
  exists pl, pl ∈ rq_payload (ck_request c) /\ get true (pl_command pl) (registry_ st) = Ok (Some (ck_plugin c)) /\
    get_id (ck_plugin c) = id /\ allowed st subject (ck_plugin c) (pl_command pl) = true.

Lemma add_to_chunk_led st subject p md pl chunks :
  get true (pl_command pl) (registry_ st) = Ok (Some p) -> allowed st subject p (pl_command pl) = true ->
  (forall id c, (id, c) ∈ chunks -> led st subject id c /\ rq_metadata (ck_request c) = md) ->
  forall id c, (id, c) ∈ add_to_chunk p md pl chunks -> led st subject id c /\ rq_metadata (ck_request c) = md.
Proof.
  intros Hg Ha. induction chunks as [|[i d] chunks IH]; intros Hch id c; cbn [add_to_chunk].
  - intros [= -> ->]%list_elem_of_singleton. split; [|done]. exists pl. cbn. split_and!; [left|done|done|done].
  - assert (Hhd : led st subject i d /\ rq_metadata (ck_request d) = md) by (apply Hch; left).
    assert (Htl : forall id c, (id, c) ∈ chunks -> led st subject id c /\ rq_metadata (ck_request c) = md) by (intros ? ? ?; apply Hch; by right).
    destruct (bool_decide_reflect (i = get_id p)) as [->|_]; intros [[= -> ->]|Hin]%elem_of_cons; auto.
    destruct Hhd as [(pl0 & H1 & H2) Hmd]. split; [|done]. exists pl0. cbn. split; [|done]. apply elem_of_app. by left.
Qed.

Lemma visit_payloads_led st subject md pls : forall n n', visit_payloads true st subject md pls n = Ok n' ->
  (forall id c, (id, c) ∈ pn_chunks n -> led st subject id c /\ rq_metadata (ck_request c) = md) ->
  forall id c, (id, c) ∈ pn_chunks n' -> led st subject id c /\ rq_metadata (ck_request c) = md.
Proof.
  induction pls as [|pl pls IH]; intros n n'; cbn [visit_payloads]; [by intros [= <-]|].
  unfold visit_payload. rewrite get_Ok. cbn [rbind]. intros Hv Hn.
  destruct (match commands_ (registry_ st) !! _ with Some p => Some p | None => _ end) as [p|] eqn:Er.
  - destruct (allowed st subject p (pl_command (keyed pl))) eqn:Ea.
    + unfold keyed in Ea. cbn [pl_command] in *. rewrite Ea in Hv. cbn [negb rbind] in Hv. eapply IH; [exact Hv|]. cbn [pn_chunks].
      apply add_to_chunk_led; [by rewrite get_Ok; cbn [pl_command]; rewrite Er|done|done].
    + unfold keyed in Ea. cbn [pl_command] in *. rewrite Ea in Hv. cbn [negb rbind] in Hv. by eapply IH.
  - cbn [rbind] in Hv. by eapply IH.
Qed.

(** A call the policy permits for a request: the module and the request it is given *)
Definition permitted_call (st : core_state) (rq : query_request) (p : plugin) (r : query_request) : Prop :=
  let subject := extract_subject_from_header (rq_metadata rq) (plugin_cache_ st) in
  let runs q command := get true command (registry_ st) = Ok (Some q) /\ is_allowed (permissions_ st) subject (make_object (getName q) command) = true in
  if bool_decide (rq_command rq = [])
  then rq_metadata r = rq_metadata rq /\
    (exists pl, pl ∈ rq_payload r /\ runs p (pl_command pl)) /\
    (forall pl, pl ∈ rq_payload r -> (exists q, runs q (pl_command pl) /\ get_id q = get_id p) /\ exists pl', pl' ∈ rq_payload rq /\ pl = keyed pl')
  else r = rq /\ runs p (rq_command rq).

(** What is dispatched, chunk by chunk *)
Lemma chunks_permitted (st : core_state) (rq : query_request) (n : plan) (id : Z) (c : command_chunk) :
  plan_query true st rq = Ok (n, false) -> (id, c) ∈ pn_chunks n -> permitted_call st rq (ck_plugin c) (ck_request c) /\ get_id (ck_plugin c) = id.
Proof.
  intros Hplan Hc. unfold permitted_call. case_bool_decide as Hb.
  - destruct (query_batch_partition_aux st rq Hb) as (n' & Hp & Hch). rewrite Hp in Hplan. injection Hplan as ->.
    assert (Hv : visit_payloads true st (extract_subject_from_header (rq_metadata rq) (plugin_cache_ st)) (rq_metadata rq) (rq_payload rq) empty_plan = Ok n).
    { unfold plan_query in Hp. rewrite bool_decide_eq_true_2 in Hp by done. cbn [negb] in Hp. destruct (visit_payloads _ _ _ _ _ _); cbn [rbind] in Hp; [congruence|done]. }
    destruct (visit_payloads_led _ _ _ _ _ _ Hv ltac:(intros ? ? []%not_elem_of_nil) _ _ Hc) as [(pl0 & H1 & H2 & H3 & H4) Hmd].
    split; [|done]. split_and!; [done|by exists pl0|]. clear dependent pl0. intros pl Hpl. pose proof (chunk_payloads_elem _ _ _ _ Hc Hpl) as Hin. rewrite Hch in Hin.
    apply list_elem_of_fmap in Hin as (pl' & -> & [Hg Hin]%list_elem_of_filter). split; [|by exists pl'].
    unfold goes_to, resolve in Hg. rewrite get_Ok.
    destruct (match commands_ (registry_ st) !! _ with Some p => Some p | None => _ end) as [p|]; [|done].
    destruct (allowed _ _ _ _) eqn:Ha; [|done]. injection Hg as Hg. exists p. split; [done|congruence].
  - unfold plan_query in Hplan. rewrite bool_decide_eq_false_2 in Hplan by done. cbn [negb] in Hplan.
    unfold visit_header in Hplan. rewrite get_Ok in Hplan. cbn [rbind] in Hplan. rewrite get_Ok.
    destruct (match commands_ (registry_ st) !! _ with Some p => Some p | None => _ end) as [p|].
    + destruct (allowed _ _ _ _) eqn:Ha; cbn [negb] in Hplan; [|done]. injection Hplan as <-.
      cbn [pn_chunks] in Hc. by apply list_elem_of_singleton in Hc as [= -> ->].
    + injection Hplan as <-. cbn in Hc. by apply not_elem_of_nil in Hc.
Qed.

(** A query nested sixteen deep on its thread is answered with a single UNKNOWN payload before
    anything is dispatched. *)
Theorem query_depth_limit (lock : bool) (query_depth : Z) (st : core_state) (rq : query_request) :
  (16 <= query_depth)%Z ->
  execute_query lock query_depth st rq = Ok (too_deep_reply rq) /\
  map rs_result (rp_payload (too_deep_reply rq)) = [UNKNOWN].
Proof.
  intros Hd. unfold execute_query, max_query_depth. rewrite Z.gtb_ltb.
  destruct (Z.ltb_spec 16 (query_depth + 1)); [done | lia].
Qed.
End Dispatch.

(** The same core with other modules behind it *)
Definition with_handler `{modules} (h : plugin -> query_request -> result unit (option query_response)) : modules :=
  {| handleCommand := h; stox_long := stox_long; xtos := xtos; annotate := annotate |}.

Lemma run_chunks_agree `{modules} h chunks : (forall id c, (id, c) ∈ chunks -> h (ck_plugin c) (ck_request c) = handleCommand (ck_plugin c) (ck_request c)) ->
  forall r, @run_chunks (with_handler h) chunks r = run_chunks chunks r.
Proof.
  induction chunks as [|[i c] chunks IH]; intros Hh r; [done|]. cbn [run_chunks]. change (@handleCommand (with_handler h)) with h.
  rewrite (Hh i c) by left. destruct (handleCommand _ _) as [ret|]; [|done]. cbn [rbind]. apply IH. intros id d Hd. apply (Hh id d). by right.
Qed.


(** ** A core with one module *)

#[local] Instance demo_modules : modules := {|
  handleCommand p rq := Ok (Some (mkReply None (map (fun pl => mkResponse (pl_command pl) 0 (str "OK")) (rq_payload rq))));
  stox_long s := if bool_decide (s = str "7") then Some 7%Z else None;
  xtos _ := str "7";
  annotate c := c
|}.

Definition demo_registry : commands :=
  match register_command true 7 (str "check_ok") [] false (commands_add_plugin true (demo_plugin 7) no_commands) with
  | Ok s => s | Throw _ => no_commands
  end.
Definition demo_core (policy : perm_state) : core_state :=
  mkCore policy demo_registry [mkCacheItem 7 (str "CheckHelpers") []].
Definition demo_request (names : list cppstring) : query_request :=
  mkRequest [] [(str "nscp.caller_plugin_id", str "7"); (str "nscp.principal", str "op")] (map (fun c => mkPayload c []) names).

Lemma query_batch_partition_witness :
  exists n, plan_query true (demo_core initial_state) (demo_request [str "Check_OK"; str "nosuch"]) = Ok (n, false) /\
    pn_missing n = [str "nosuch"].
Proof.
  destruct (query_batch_partition (demo_core initial_state) (demo_request [str "Check_OK"; str "nosuch"]) eq_refl)
    as (n & Hn & Hm & _). exists n. split; [exact Hn|]. rewrite Hm. vm_compute. reflexivity.
Defined.


Lemma query_depth_limit_witness :
  execute_query true 16 (demo_core initial_state) (demo_request [str "check_ok"])
  = Ok (too_deep_reply (demo_request [str "check_ok"])).
Proof. apply (query_depth_limit true 16 (demo_core initial_state) (demo_request [str "check_ok"])). lia. Defined.

(** A batch of one unknown command is answered with an "Unknown command(s)" payload, but the
    same unknown command next to a known one gets no payload at all. *)
Theorem unknown_command_in_batch_unanswered :
  execute_query true 0 (demo_core initial_state) (demo_request [str "nosuch"])
    = Ok (mkReply None [set_response_bad (str "nosuch") (str "Unknown command(s): nosuch")]) /\
  execute_query true 0 (demo_core initial_state) (demo_request [str "check_ok"; str "nosuch"])
    = Ok (mkReply (Some []) [mkResponse (str "check_ok") 0 (str "OK")]).
Proof. split; vm_compute; reflexivity. Qed.
