(* ===== verification/Cron.v ===== *)
(** The cron schedules of the scheduler: include/parsers/cron/cron_parser.hpp.

    Dates are boost's: the interface [calendar] has the operations the code calls
    and the facts of the calendar it relies on.  A time is kept to the minute: the
    code never reads the seconds.  The nested [for] loops over [find_next] are one
    combinator, [scan]. *)

From stdpp Require Import base list strings pretty.
From Stdlib Require Import Ascii ZArith Lia.
From Stdlib Require String.
From S2P Require Import Prelude Strings.
Import String.StringSyntax.

Local Open Scope Z_scope.

Inductive cron_error := InvalidValue | ValueOutOfRange | FailedToFindMatch | NoMatchWithin4Years | InvalidSyntax.

(** ** schedule_item *)

Record schedule_item := mkItem { value_ : list Z; min_ : Z; max_ : Z; star_ : bool }.

Definition is_valid_for (it : schedule_item) (v : Z) : bool :=
  if star_ it then true else existsb (fun x => Z.eqb x v) (value_ it).

Record next_value := mkNext { value : Z; overflow : bool }.

(** [for (i = from; n iterations; i++) if (is_valid_for(i)) return i] *)
Fixpoint first_valid (it : schedule_item) (n : nat) (i : Z) : option Z :=
  match n with
  | O => None
  | S n' => if is_valid_for it i then Some i else first_valid it n' (i + 1)
  end.

Definition find_next (it : schedule_item) (v : Z) : result cron_error next_value :=
  match first_valid it (Z.to_nat (max_ it - v + 1)) v with
  | Some i => Ok (mkNext i false)
  | None =>
      match first_valid it (Z.to_nat (v - min_ it)) (min_ it) with
      | Some i => Ok (mkNext i true)
      | None => Throw FailedToFindMatch
      end
  end.

(** ** schedule::find_next *)

Record ptime := mkTime { year : Z; month : Z; day : Z; hours : Z; minutes : Z }.

Record schedule := mkSchedule {
  s_min : schedule_item; s_hour : schedule_item; s_dom : schedule_item; s_mon : schedule_item; s_dow : schedule_item
}.

(** A time as one number, in chronological order. *)
Definition stamp (t : ptime) : Z :=
  (((year t * 13 + month t) * 32 + day t) * 24 + hours t) * 60 + minutes t.

Class calendar := {
  date_ok : Z -> Z -> Z -> bool;            (* date(y, m, d) does not throw *)
  day_of_week : Z -> Z -> Z -> Z;
  add_minute : ptime -> ptime;              (* now_time += minutes(1) *)
}.

Definition time_ok `{calendar} (t : ptime) : Prop :=
  date_ok (year t) (month t) (day t) = true /\ 0 <= hours t <= 23 /\ 0 <= minutes t <= 59.

(** What the code relies on of the calendar. *)
Class calendar_laws `{calendar} := {
  date_range y m d : date_ok y m d = true -> 1 <= m <= 12 /\ 1 <= d <= 31;
  date_downward y m d d' : date_ok y m d = true -> 1 <= d' <= d -> date_ok y m d' = true;
  dow_range y m d : date_ok y m d = true -> 0 <= day_of_week y m d <= 6;
  add_minute_next t : time_ok t -> year t < 9999 ->
    time_ok (add_minute t) /\ stamp t < stamp (add_minute t) /\
    forall t', time_ok t' -> stamp t < stamp t' -> stamp (add_minute t) <= stamp t'
}.

(** What the body of a loop does with one value. *)
Inductive outcome (A : Type) :=
| Return (a : A)
| Continue
| Break
| Raise (e : cron_error)
| OutOfFuel.
Arguments Return {A} _.
Arguments Continue {A}.
Arguments Break {A}.
Arguments Raise {A} _.
Arguments OutOfFuel {A}.

(** [for (n = item.find_next(start); !n.overflow; n = item.find_next(n.value + 1)) body]:
    [Continue] as a result means the loop ended without returning. *)
Fixpoint scan {A} (fuel : nat) (it : schedule_item) (start : Z) (body : Z -> outcome A) : outcome A :=
  match find_next it start with
  | Throw e => Raise e
  | Ok n =>
      if overflow n then Continue
      else match fuel with
           | O => OutOfFuel
           | S fuel' =>
               match body (value n) with
               | Continue => scan fuel' it (value n + 1) body
               | Break => Continue
               | r => r
               end
           end
  end.

(** Enough turns for any item of a schedule ([scan_spec]). *)
Definition scan_fuel : nat := 70.

Section FindNext.
Context `{calendar}.

Definition schedule_is_valid_for (s : schedule) (t : ptime) : bool :=
  is_valid_for (s_mon s) (month t) && is_valid_for (s_dom s) (day t) &&
  is_valid_for (s_dow s) (day_of_week (year t) (month t) (day t)) &&
  is_valid_for (s_hour s) (hours t) && is_valid_for (s_min s) (minutes t).

Definition same_date (y m d : Z) (t : ptime) : bool := Z.eqb y (year t) && Z.eqb m (month t) && Z.eqb d (day t).

Definition hour_body (s : schedule) (now : ptime) (y m d nhour : Z) : outcome ptime :=
  let min_start := if same_date y m d now && Z.eqb nhour (hours now) then minutes now else min_ (s_min s) in
  match find_next (s_min s) min_start with
  | Throw e => Raise e
  | Ok nmin => if overflow nmin then Continue else Return (mkTime y m d nhour (value nmin))
  end.

Definition dom_body (s : schedule) (now : ptime) (y m ndom : Z) : outcome ptime :=
  if negb (date_ok y m ndom) then Break
  else if negb (is_valid_for (s_dow s) (day_of_week y m ndom)) then Continue
  else
    let hour_start := if same_date y m ndom now then hours now else min_ (s_hour s) in
    scan scan_fuel (s_hour s) hour_start (hour_body s now y m ndom).

Definition mon_body (s : schedule) (now : ptime) (y nmon : Z) : outcome ptime :=
  let dom_start := if Z.eqb y (year now) && Z.eqb nmon (month now) then day now else min_ (s_dom s) in
  scan scan_fuel (s_dom s) dom_start (dom_body s now y nmon).

Definition year_body (s : schedule) (now : ptime) (y : Z) : outcome ptime :=
  let mon_start := if Z.eqb y (year now) then month now else min_ (s_mon s) in
  scan scan_fuel (s_mon s) mon_start (mon_body s now y).

Fixpoint year_loop (n : nat) (s : schedule) (now : ptime) (y : Z) : result cron_error ptime :=
  match n with
  | O => Throw NoMatchWithin4Years
  | S n' =>
      match year_body s now y with
      | Return t => Ok t
      | Raise e => Throw e
      | OutOfFuel => Throw FailedToFindMatch
      | _ => year_loop n' s now (y + 1)
      end
  end.

Definition schedule_find_next (s : schedule) (now_time : ptime) : result cron_error ptime :=
  let now_time := if schedule_is_valid_for s now_time then add_minute now_time else now_time in
  year_loop 5 s now_time (year now_time).
End FindNext.

(** ** Text *)

(** [boost::algorithm::split(.., is_any_of(","))] *)
Class boost_split := {
  split_commas : cppstring -> list cppstring;
  split_commas_join ps : ps <> [] -> Forall (fun p => ","%char ∉ p) ps -> split_commas (join_with ","%char ps) = ps;
  split_commas_nonempty s : split_commas s <> []
}.

Section Parse.
Context `{boost_split}.

Fixpoint parse_values (lo hi : Z) (parts : list cppstring) : result cron_error (list Z) :=
  match parts with
  | [] => Ok []
  | val :: parts' =>
      match stoll val with
      | None => Throw InvalidValue
      | Some i =>
          if Z.ltb i lo || Z.gtb i hi then Throw ValueOutOfRange
          else let* r := parse_values lo hi parts' in Ok (i :: r)
      end
  end.

Definition item_parse (value : cppstring) (min_value max_value : Z) : result cron_error schedule_item :=
  if bool_decide (value = str "*") then Ok (mkItem [] min_value max_value true)
  else let* vs := parse_values min_value max_value (split_commas value) in Ok (mkItem vs min_value max_value false).

Definition cron_parse (s : cppstring) : result cron_error schedule :=
  match split_lst s [" "%char] with
  | Some [v0; v1; v2; v3; v4] =>
      let* mi := item_parse v0 0 59 in
      let* ho := item_parse v1 0 23 in
      let* dm := item_parse v2 1 31 in
      let* mo := item_parse v3 1 12 in
      let* dw := item_parse v4 0 6 in
      Ok (mkSchedule mi ho dm mo dw)
  | _ => Throw InvalidSyntax
  end.
End Parse.

Definition item_to_string (it : schedule_item) : cppstring :=
  if star_ it then str "*" else join_with ","%char (map show (value_ it)).
Definition schedule_to_string (s : schedule) : cppstring :=
  join_with " "%char [item_to_string (s_min s); item_to_string (s_hour s); item_to_string (s_dom s);
                      item_to_string (s_mon s); item_to_string (s_dow s)].

(** ** Items *)

(** What [item_parse] produces. *)
Record wf_item (lo hi : Z) (it : schedule_item) : Prop := {
  wf_min : min_ it = lo;
  wf_max : max_ it = hi;
  wf_vals : star_ it = true /\ value_ it = [] \/ star_ it = false /\ value_ it <> [] /\ Forall (fun v => lo <= v <= hi) (value_ it)
}.

Record wf_schedule (s : schedule) : Prop := {
  wf_minutes : wf_item 0 59 (s_min s);
  wf_hours : wf_item 0 23 (s_hour s);
  wf_dom : wf_item 1 31 (s_dom s);
  wf_mon : wf_item 1 12 (s_mon s);
  wf_dow : wf_item 0 6 (s_dow s)
}.

Section Items.
Context (lo hi : Z) (Hlh : lo <= hi) (it : schedule_item) (Hwf : wf_item lo hi it).

Lemma wf_has_valid : exists v, lo <= v <= hi /\ is_valid_for it v = true.
Proof.
  destruct Hwf as [_ _ [[Hs _]|(Hs & Hne & Hall)]]; unfold is_valid_for; rewrite Hs.
  - exists lo. split; [lia | done].
  - destruct (value_ it) as [|v vs]; [done|]. apply Forall_cons in Hall as [Hv _]. exists v. split; [done|].
    cbn. by rewrite Z.eqb_refl.
Qed.

Lemma first_valid_Some n : forall i v,
  first_valid it n i = Some v ->
  i <= v < i + Z.of_nat n /\ is_valid_for it v = true /\ forall u, i <= u < v -> is_valid_for it u = false.
Proof.
  induction n as [|n IH]; intros i v; cbn [first_valid]; [done|].
  destruct (is_valid_for it i) eqn:E.
  - intros [= <-]. split_and!; [lia | lia | done | lia].
  - intros (? & ? & Hu)%IH. split_and!; [lia | lia | done |]. intros u ?.
    destruct (decide (u = i)) as [->|]; [done|]. apply Hu. lia.
Qed.

Lemma first_valid_None n : forall i,
  first_valid it n i = None -> forall u, i <= u < i + Z.of_nat n -> is_valid_for it u = false.
Proof.
  induction n as [|n IH]; intros i; cbn [first_valid]; [lia|].
  destruct (is_valid_for it i) eqn:E; [done|]. intros Hn u ?.
  destruct (decide (u = i)) as [->|]; [done|]. apply (IH (i + 1)); [done | lia].
Qed.

(** [find_next] never throws and finds the least valid value from [v] on. *)
Lemma find_next_spec v :
  lo <= v ->
  (exists i, find_next it v = Ok (mkNext i false) /\ v <= i <= hi /\ is_valid_for it i = true /\
     forall u, v <= u < i -> is_valid_for it u = false) \/
  (exists i, find_next it v = Ok (mkNext i true) /\ forall u, v <= u <= hi -> is_valid_for it u = false).
Proof.
  intros Hv. unfold find_next. rewrite (wf_max _ _ _ Hwf), (wf_min _ _ _ Hwf).
  destruct (first_valid it (Z.to_nat (hi - v + 1)) v) as [i|] eqn:E1.
  - left. exists i. apply first_valid_Some in E1 as (? & ? & ?). split_and!; [done | lia | lia | done | done].
  - right. pose proof (first_valid_None _ _ E1) as Hnone.
    destruct (first_valid it (Z.to_nat (v - lo)) lo) as [i|] eqn:E2; [exists i; split; [done|]; intros; apply Hnone; lia|].
    exfalso. pose proof (first_valid_None _ _ E2) as Hnone2. destruct wf_has_valid as (w & Hw & Hvw).
    destruct (Z.lt_ge_cases w v).
    + rewrite Hnone2 in Hvw by lia. done.
    + rewrite Hnone in Hvw by lia. done.
Qed.
End Items.

(** ** The loops find the least candidate *)

(** The outcome of a loop (or a body) that is to find the least of [C]. *)
Definition finds (r : outcome ptime) (C : ptime -> Prop) : Prop :=
  match r with
  | Return t => C t /\ forall t', C t' -> stamp t <= stamp t'
  | Continue => forall t, ~ C t
  | _ => False
  end.

Section Scan.
Context (lo hi : Z) (Hlh : lo <= hi) (it : schedule_item) (Hwf : wf_item lo hi it).
Context (comp : ptime -> Z) (C : ptime -> Prop) (body : Z -> outcome ptime).
Context (Hmono : forall t t', C t -> C t' -> comp t < comp t' -> stamp t < stamp t').
Context (Hvalid : forall t, C t -> comp t <= hi /\ is_valid_for it (comp t) = true).

Lemma scan_spec fuel : forall start,
  lo <= start -> hi - start < Z.of_nat fuel ->
  (forall t, C t -> start <= comp t) ->
  (forall u, start <= u <= hi -> is_valid_for it u = true ->
     finds (body u) (fun t => C t /\ comp t = u) \/ body u = Break /\ forall t, C t -> comp t < u) ->
  finds (scan fuel it start body) C.
Proof.
  induction fuel as [|fuel IH]; intros start Hlo Hf Hstart Hbody; cbn [scan];
    destruct (find_next_spec lo hi Hlh it Hwf start Hlo) as [(i & -> & Hi & Hvi & Hskip)|(i & -> & Hnone)];
    cbn [overflow value]; try lia.
  1, 3: intros t Ht; destruct (Hvalid t Ht) as [? Hv]; pose proof (Hstart t Ht);
        rewrite Hnone in Hv by lia; discriminate.
  assert (Hge : forall t, C t -> i <= comp t).
  { intros t Ht. destruct (Hvalid t Ht) as [_ Hv]. pose proof (Hstart t Ht).
    destruct (Z.lt_ge_cases (comp t) i); [|done]. rewrite Hskip in Hv by lia. done. }
  destruct (Hbody i ltac:(lia) Hvi) as [Hb|[-> Hbr]].
  - destruct (body i) as [t| | | |]; try done.
    + destruct Hb as [[HC Hc] Hmin]. split; [done|]. intros t' Ht'. pose proof (Hge t' Ht').
      destruct (decide (comp t' = i)) as [He|He]; [by apply Hmin|].
      pose proof (Hmono t t' HC Ht' ltac:(lia)). lia.
    + apply IH; [lia | lia | |].
      * intros t Ht. pose proof (Hge t Ht). destruct (decide (comp t = i)) as [He|]; [|lia].
        by destruct (Hb t).
      * intros u ?. apply Hbody. lia.
  - intros t Ht. pose proof (Hge t Ht). pose proof (Hbr t Ht). lia.
Qed.
End Scan.

Section Search.
Context `{calendar_laws}.
Context (s : schedule) (Hs : wf_schedule s) (now : ptime) (Hnow : time_ok now).

(** A time the search may return. *)
Definition candidate (t : ptime) : Prop :=
  time_ok t /\ schedule_is_valid_for s t = true /\ stamp now <= stamp t.

Lemma time_ok_range t : time_ok t ->
  1 <= month t <= 12 /\ 1 <= day t <= 31 /\ 0 <= hours t <= 23 /\ 0 <= minutes t <= 59.
Proof. intros (Hd & ? & ?). apply date_range in Hd. lia. Qed.

Lemma candidate_valid t : candidate t ->
  is_valid_for (s_mon s) (month t) = true /\ is_valid_for (s_dom s) (day t) = true /\
  is_valid_for (s_dow s) (day_of_week (year t) (month t) (day t)) = true /\
  is_valid_for (s_hour s) (hours t) = true /\ is_valid_for (s_min s) (minutes t) = true.
Proof. intros (_ & Hv & _). unfold schedule_is_valid_for in Hv. breflect. auto. Qed.

(** Replace the candidates by the arithmetic facts about them. *)
Ltac ranges :=
  repeat match goal with
  | Hc : candidate ?t |- _ =>
      pose proof (time_ok_range t (proj1 Hc)); pose proof (proj2 (proj2 Hc)); clear Hc
  end;
  pose proof (time_ok_range now Hnow); unfold stamp in *; cbn [year month day hours minutes] in *.

Lemma same_date_true y m d t : same_date y m d t = true <-> y = year t /\ m = month t /\ d = day t.
Proof. unfold same_date. rewrite !andb_true_iff, !Z.eqb_eq. tauto. Qed.

Lemma hour_level y m d h :
  date_ok y m d = true -> is_valid_for (s_mon s) m = true -> is_valid_for (s_dom s) d = true ->
  is_valid_for (s_dow s) (day_of_week y m d) = true -> is_valid_for (s_hour s) h = true -> 0 <= h <= 23 ->
  stamp now <= stamp (mkTime y m d h 59) ->
  finds (hour_body s now y m d h)
    (fun t => (((candidate t /\ year t = y) /\ month t = m) /\ day t = d) /\ hours t = h).
Proof.
  intros Hd Hm Hdm Hdw Hh Hhr Hlow. unfold hour_body. pose proof (date_range _ _ _ Hd).
  set (start := if same_date y m d now && Z.eqb h (hours now) then minutes now else min_ (s_min s)).
  assert (Hstart : (start = minutes now /\ y = year now /\ m = month now /\ d = day now /\ h = hours now) \/
                   (start = 0 /\ stamp now <= stamp (mkTime y m d h 0))).
  { unfold start. rewrite (wf_min _ _ _ (wf_minutes _ Hs)).
    destruct (same_date y m d now && Z.eqb h (hours now)) eqn:E; breflect.
    - apply same_date_true in H2. left. lia.
    - right. split; [done|]. ranges. destruct E as [E|E]; breflect; [|lia].
      assert (~ (y = year now /\ m = month now /\ d = day now)) by (rewrite <- same_date_true; congruence). lia. }
  assert (0 <= start) by (ranges; lia).
  destruct (find_next_spec 0 59 ltac:(lia) _ (wf_minutes _ Hs) start ltac:(done)) as [(i & -> & Hi & Hvi & Hskip)|(i & -> & Hnone)];
    cbn [overflow value finds].
  - split.
    + assert (Hc : candidate (mkTime y m d h i)).
      { split; [|split].
        - split; [done|]. cbn. lia.
        - unfold schedule_is_valid_for; cbn. by rewrite Hm, Hdm, Hdw, Hh, Hvi.
        - ranges. lia. }
      done.
    + intros t ((((Hc & <-) & <-) & <-) & <-). destruct (candidate_valid t Hc) as (_ & _ & _ & _ & Hmin).
      destruct (Z.lt_ge_cases (minutes t) i); [|ranges; lia].
      rewrite Hskip in Hmin; [done|]. ranges. lia.
  - intros t ((((Hc & <-) & <-) & <-) & <-). destruct (candidate_valid t Hc) as (_ & _ & _ & _ & Hmin).
    rewrite Hnone in Hmin; [done|]. ranges. lia.
Qed.

Lemma dom_level y m d :
  is_valid_for (s_mon s) m = true -> 1 <= m <= 12 -> is_valid_for (s_dom s) d = true ->
  stamp now <= stamp (mkTime y m d 23 59) ->
  1 <= d <= 31 ->
  finds (dom_body s now y m d) (fun t => ((candidate t /\ year t = y) /\ month t = m) /\ day t = d) \/
  dom_body s now y m d = Break /\ forall t, (candidate t /\ year t = y) /\ month t = m -> day t < d.
Proof.
  intros Hm Hmr Hdm Hlow Hdr. unfold dom_body. destruct (date_ok y m d) eqn:Hd; cbn [negb].
  2: { right. split; [done|]. intros t ((Hc & <-) & <-). destruct (Z.lt_ge_cases (day t) d); [done|].
       pose proof (proj1 (proj1 Hc)) as Ht. rewrite (date_downward _ _ _ d Ht) in Hd by lia. done. }
  left. destruct (is_valid_for (s_dow s) (day_of_week y m d)) eqn:Hdw; cbn [negb finds].
  2: { intros t (((Hc & <-) & <-) & <-). apply candidate_valid in Hc as (_ & _ & Hw & _). congruence. }
  apply (scan_spec 0 23 ltac:(lia) _ (wf_hours _ Hs) hours).
  - intros t t' (((Hc & ?) & ?) & ?) (((Hc' & ?) & ?) & ?) ?. ranges. lia.
  - intros t (((Hc & ?) & ?) & ?). pose proof (candidate_valid t Hc). ranges. split; [lia | tauto].
  - destruct (same_date _ _ _ _); [pose proof (time_ok_range now Hnow); lia | by rewrite (wf_min _ _ _ (wf_hours _ Hs))].
  - destruct (same_date _ _ _ _); [pose proof (time_ok_range now Hnow) | rewrite (wf_min _ _ _ (wf_hours _ Hs))];
      change (Z.of_nat scan_fuel) with 70; lia.
  - intros t (((Hc & <-) & <-) & <-). destruct (same_date _ _ _ _) eqn:E.
    + apply same_date_true in E. ranges. lia.
    + rewrite (wf_min _ _ _ (wf_hours _ Hs)). ranges. lia.
  - intros u Hu Hvu. left. apply hour_level; try done.
    + destruct (same_date _ _ _ _); [pose proof (time_ok_range now Hnow) | rewrite (wf_min _ _ _ (wf_hours _ Hs)) in Hu]; lia.
    + destruct (same_date y m d now) eqn:E.
      * apply same_date_true in E. ranges. lia.
      * assert (~ (y = year now /\ m = month now /\ d = day now)) by (rewrite <- same_date_true; congruence).
        rewrite (wf_min _ _ _ (wf_hours _ Hs)) in Hu. ranges. lia.
Qed.

Lemma mon_level y m :
  is_valid_for (s_mon s) m = true -> 1 <= m <= 12 -> stamp now <= stamp (mkTime y m 31 23 59) ->
  finds (mon_body s now y m) (fun t => (candidate t /\ year t = y) /\ month t = m).
Proof.
  intros Hm Hmr Hlow. unfold mon_body.
  set (start := if Z.eqb y (year now) && Z.eqb m (month now) then day now else min_ (s_dom s)).
  assert (Hstart : (start = day now /\ y = year now /\ m = month now) \/
                   (start = 1 /\ stamp now <= stamp (mkTime y m 1 0 0))).
  { unfold start. rewrite (wf_min _ _ _ (wf_dom _ Hs)).
    destruct (Z.eqb y (year now) && Z.eqb m (month now)) eqn:E; breflect; [lia|].
    right. split; [done|]. ranges. destruct E; breflect; lia. }
  pose proof (time_ok_range now Hnow). assert (1 <= start) by lia.
  apply (scan_spec 1 31 ltac:(lia) _ (wf_dom _ Hs) day).
  - intros t t' ((Hc & ?) & ?) ((Hc' & ?) & ?) ?. ranges. lia.
  - intros t ((Hc & ?) & ?). pose proof (candidate_valid t Hc). ranges. split; [lia | tauto].
  - lia.
  - change (Z.of_nat scan_fuel) with 70. lia.
  - intros t ((Hc & <-) & <-). ranges. lia.
  - intros u Hu Hvu. apply dom_level; try done; [|lia]. ranges. lia.
Qed.

Lemma year_level y : year now <= y -> finds (year_body s now y) (fun t => candidate t /\ year t = y).
Proof.
  intros Hy. unfold year_body.
  set (start := if Z.eqb y (year now) then month now else min_ (s_mon s)).
  assert (Hstart : (start = month now /\ y = year now) \/ (start = 1 /\ year now < y)).
  { unfold start. rewrite (wf_min _ _ _ (wf_mon _ Hs)). destruct (Z.eqb y (year now)) eqn:E; breflect; lia. }
  pose proof (time_ok_range now Hnow). assert (1 <= start) by lia.
  apply (scan_spec 1 12 ltac:(lia) _ (wf_mon _ Hs) month).
  - intros t t' (Hc & ?) (Hc' & ?) ?. ranges. lia.
  - intros t (Hc & ?). pose proof (candidate_valid t Hc). ranges. split; [lia | tauto].
  - lia.
  - change (Z.of_nat scan_fuel) with 70. lia.
  - intros t (Hc & <-). ranges. lia.
  - intros u Hu Hvu. left. apply mon_level; try done; [lia|]. ranges. lia.
Qed.

Lemma year_loop_spec n : forall y, year now <= y -> (forall t, candidate t -> y <= year t) ->
  match year_loop n s now y with
  | Ok t => candidate t /\ forall t', candidate t' -> stamp t <= stamp t'
  | Throw e => e = NoMatchWithin4Years /\ forall t, candidate t -> y + Z.of_nat n <= year t
  end.
Proof.
  induction n as [|n IH]; intros y Hy Hge; cbn [year_loop].
  - split; [done|]. intros t Ht. apply Hge in Ht. lia.
  - pose proof (year_level y Hy) as Hl. destruct (year_body s now y) as [t| | | |]; try done.
    + destruct Hl as [[Hc <-] Hmin]. split; [done|]. intros t' Hc'.
      destruct (decide (year t' = year t)); [by apply Hmin|]. pose proof (Hge t' Hc'). ranges. lia.
    + specialize (IH (y + 1) ltac:(lia)).
      assert (Hge' : forall t, candidate t -> y + 1 <= year t).
      { intros t Ht. pose proof (Hge t Ht). destruct (decide (year t = y)); [by destruct (Hl t)|lia]. }
      specialize (IH Hge'). destruct (year_loop n s now (y + 1)); [done|]. destruct IH as [-> IH].
      split; [done|]. intros t Ht. apply IH in Ht. lia.
Qed.
End Search.

(** C29. For every parsed schedule and every time, find_next returns the earliest time strictly
    after it (to the minute) that matches the schedule; it throws only its "within 4 years"
    error, and only when no match exists up to the end of the fourth following year. *)
Theorem cron_next_is_least `{calendar_laws} (s : schedule) (now : ptime)
    (Hs : wf_schedule s) (Hnow : time_ok now) (Hyear : year now < 9999) :
  let from := if schedule_is_valid_for s now then add_minute now else now in
  match schedule_find_next s now with
  | Ok t => time_ok t /\ schedule_is_valid_for s t = true /\ stamp now < stamp t /\
            forall t', time_ok t' -> schedule_is_valid_for s t' = true -> stamp now < stamp t' -> stamp t <= stamp t'
  | Throw e => e = NoMatchWithin4Years /\
            forall t', time_ok t' -> schedule_is_valid_for s t' = true -> stamp now < stamp t' -> year from + 5 <= year t'
  end.
Proof.
  cbv zeta. unfold schedule_find_next. destruct (add_minute_next now Hnow Hyear) as (Hok & Hlt & Hnext).
  assert (Hcand : forall t, let from := if schedule_is_valid_for s now then add_minute now else now in
    time_ok t -> schedule_is_valid_for s t = true -> stamp now < stamp t <-> stamp from <= stamp t).
  { intros t from Ht Hv. unfold from. destruct (schedule_is_valid_for s now) eqn:E.
    - split; [by apply Hnext | lia].
    - split; [lia|]. intros Hle. destruct (decide (stamp now = stamp t)) as [He|]; [|lia]. exfalso.
      assert (now = t); [|congruence]. pose proof (time_ok_range now Hnow). pose proof (time_ok_range t Ht).
      unfold stamp in He. destruct now, t; cbn in *. f_equal; lia. }
  set (from := if schedule_is_valid_for s now then add_minute now else now) in *.
  assert (Hfrom : time_ok from) by (unfold from; by destruct (schedule_is_valid_for s now)).
  pose proof (year_loop_spec s Hs from Hfrom 5 (year from) ltac:(lia)) as Hspec.
  assert (Hge : forall t, candidate s from t -> year from <= year t).
  { intros t (Ht & _ & Hle). pose proof (time_ok_range from Hfrom). pose proof (time_ok_range t Ht). unfold stamp in Hle. lia. }
  specialize (Hspec Hge). destruct (year_loop 5 s from (year from)) as [t|e].
  - destruct Hspec as ((Ht & Hv & Hle) & Hmin). split_and!; [done | done | by apply Hcand |].
    intros t' Ht' Hv' Hlt'. apply Hmin. split_and!; [done | done | by apply Hcand].
  - destruct Hspec as [-> Hspec]. split; [done|]. intros t' Ht' Hv' Hlt'. apply Hspec. split_and!; [done | done | by apply Hcand].
Qed.

(** ** The Gregorian calendar *)

Definition leap_year (y : Z) : bool := (y mod 4 =? 0) && (negb (y mod 100 =? 0) || (y mod 400 =? 0)).
Definition days_in_month (y m : Z) : Z :=
  if m =? 2 then (if leap_year y then 29 else 28)
  else if (m =? 4) || (m =? 6) || (m =? 9) || (m =? 11) then 30 else 31.

(** Sunday is 0; the years of boost's [date] are 1400 to 9999. *)
#[export] Instance gregorian : calendar := {|
  date_ok y m d := (1400 <=? y) && (y <=? 9999) && (1 <=? m) && (m <=? 12) && (1 <=? d) && (d <=? days_in_month y m);
  day_of_week y m d :=
    let y' := if m <? 3 then y - 1 else y in
    (y' + y' / 4 - y' / 100 + y' / 400 + nth (Z.to_nat (m - 1)) [0; 3; 2; 5; 0; 3; 5; 1; 4; 6; 2; 4] 0 + d) mod 7;
  add_minute t :=
    if minutes t <? 59 then mkTime (year t) (month t) (day t) (hours t) (minutes t + 1)
    else if hours t <? 23 then mkTime (year t) (month t) (day t) (hours t + 1) 0
    else if day t <? days_in_month (year t) (month t) then mkTime (year t) (month t) (day t + 1) 0 0
    else if month t <? 12 then mkTime (year t) (month t + 1) 1 0 0
    else mkTime (year t + 1) 1 1 0 0
|}.

Lemma days_in_month_range y m : 28 <= days_in_month y m <= 31.
Proof. unfold days_in_month. repeat case_match; lia. Qed.

Lemma gregorian_date_ok y m d :
  date_ok y m d = true <-> 1400 <= y <= 9999 /\ 1 <= m <= 12 /\ 1 <= d <= days_in_month y m.
Proof. cbn. rewrite !andb_true_iff, !Z.leb_le. lia. Qed.

Lemma gregorian_add_minute t : time_ok t -> year t < 9999 ->
  time_ok (add_minute t) /\ stamp t < stamp (add_minute t) /\
  forall t', time_ok t' -> stamp t < stamp t' -> stamp (add_minute t) <= stamp t'.
Proof.
  destruct t as [y m d h mi]. unfold time_ok. rewrite gregorian_date_ok. cbn [year month day hours minutes].
  intros (Hd & Hh & Hm) Hy. pose proof (days_in_month_range y m). pose proof (days_in_month_range (y + 1) 1).
  pose proof (days_in_month_range y (m + 1)).
  assert (Hnext : forall t', time_ok t' -> stamp (mkTime y m d h mi) < stamp t' ->
    (year t' = y /\ month t' = m /\ day t' <= days_in_month y m \/ (y * 13 + m < year t' * 13 + month t')) /\
    1 <= month t' <= 12 /\ 1 <= day t' <= 31 /\ 0 <= hours t' <= 23 /\ 0 <= minutes t' <= 59).
  { intros [y' m' d' h' mi'] (Hd' & ? & ?) Hlt. apply gregorian_date_ok in Hd'. cbn [year month day hours minutes] in *.
    pose proof (days_in_month_range y' m'). unfold stamp in Hlt. cbn [year month day hours minutes] in Hlt.
    split; [|lia]. destruct (decide (y' = y /\ m' = m)) as [[-> ->]|]; [left; lia | right; lia]. }
  cbn -[Z.mul days_in_month stamp].
  repeat match goal with |- context [?a <? ?b] => destruct (Z.ltb_spec a b) end;
    cbn [year month day hours minutes]; rewrite ?andb_true_iff, ?Z.leb_le;
    (split_and!; [unfold stamp; cbn [year month day hours minutes]; lia.. | intros t' Ht' Hlt; pose proof (Hnext t' Ht' Hlt); unfold stamp in *; cbn [year month day hours minutes] in *; lia]).
Qed.

#[export] Instance gregorian_laws : calendar_laws.
Proof.
  split.
  - intros y m d Hd. apply gregorian_date_ok in Hd. pose proof (days_in_month_range y m). lia.
  - intros y m d d' Hd ?. apply gregorian_date_ok in Hd. apply gregorian_date_ok. lia.
  - intros y m d _. cbn -[Z.modulo]. pose proof (Z.mod_pos_bound). cbv zeta.
    match goal with |- _ <= ?x mod 7 <= _ => pose proof (Z.mod_pos_bound x 7 ltac:(lia)) end. lia.
  - apply gregorian_add_minute.
Qed.

Definition leap_day_schedule : schedule :=
  mkSchedule (mkItem [0] 0 59 false) (mkItem [6] 0 23 false) (mkItem [29] 1 31 false) (mkItem [2] 1 12 false) (mkItem [] 0 6 true).

Lemma leap_day_schedule_wf : wf_schedule leap_day_schedule.
Proof.
  split; (split; [reflexivity | reflexivity |]); cbn; (by left) || (right; split_and!; [done | done |]);
    (apply Forall_cons_2; [lia | apply Forall_nil_2]).
Qed.

Lemma cron_next_is_least_witness :
  schedule_find_next leap_day_schedule (mkTime 2023 3 1 0 0) = Ok (mkTime 2024 2 29 6 0) /\
  forall t', time_ok t' -> schedule_is_valid_for leap_day_schedule t' = true ->
    stamp (mkTime 2023 3 1 0 0) < stamp t' -> stamp (mkTime 2024 2 29 6 0) <= stamp t'.
Proof.
  split; [vm_compute; reflexivity|].
  pose proof (cron_next_is_least leap_day_schedule (mkTime 2023 3 1 0 0) leap_day_schedule_wf) as H.
  replace (schedule_find_next leap_day_schedule (mkTime 2023 3 1 0 0)) with (@Ok cron_error _ (mkTime 2024 2 29 6 0)) in H
    by (vm_compute; reflexivity).
  apply H; [|reflexivity]. split; [vm_compute; reflexivity | cbn; lia].
Defined.

(** ** Printing and parsing *)

Definition shows_well (z : Z) : bool :=
  bool_decide (stoll (show z) = Some z) && negb (has_char ","%char (show z)) && negb (has_char " "%char (show z)).

Lemma show_field z : 0 <= z <= 59 ->
  stoll (show z) = Some z /\ (","%char ∉ show z) /\ (" "%char ∉ show z).
Proof.
  intros Hz. assert (Hall : forallb shows_well (map Z.of_nat (seq 0 60)) = true) by (vm_compute; reflexivity).
  rewrite forallb_forall in Hall. specialize (Hall z). unfold shows_well in Hall.
  rewrite !andb_true_iff, !negb_true_iff, bool_decide_eq_true in Hall. unfold has_char in Hall.
  rewrite !bool_decide_eq_false in Hall.
  assert (In z (map Z.of_nat (seq 0 60))) as Hin.
  { apply in_map_iff. exists (Z.to_nat z). split; [lia|]. apply in_seq. lia. }
  destruct (Hall Hin) as [[? ?] ?]. done.
Qed.

Lemma elem_of_join_with x c ps : x ∈ join_with c ps -> x = c \/ exists p, p ∈ ps /\ x ∈ p.
Proof.
  induction ps as [|p ps IH]; cbn; [by intros ?%not_elem_of_nil|]. destruct ps as [|q ps].
  - intros. right. exists p. split; [left | done].
  - intros [?|[->|[->|(r & ? & ?)]%IH]%elem_of_cons]%elem_of_app; [right | by left | by left | right].
    + exists p. split; [left | done].
    + exists r. split; [by right | done].
Qed.

Section RoundTrip.
Context `{boost_split}.

Lemma parse_values_show lo hi vs : 0 <= lo -> hi <= 59 ->
  Forall (fun v => lo <= v <= hi) vs -> parse_values lo hi (map show vs) = Ok vs.
Proof.
  intros Hlo Hhi. induction 1 as [|v vs Hv _ IH]; [done|]. cbn [map parse_values].
  destruct (show_field v) as (-> & _ & _); [lia|]. rewrite Z.gtb_ltb.
  destruct (Z.ltb_spec v lo), (Z.ltb_spec hi v); try lia. cbn [orb]. by rewrite IH.
Qed.

Lemma item_roundtrip lo hi it : 0 <= lo -> hi <= 59 -> wf_item lo hi it ->
  item_parse (item_to_string it) lo hi = Ok it /\ (" "%char ∉ item_to_string it) /\ item_to_string it <> [].
Proof.
  intros Hlo Hhi [Hmin Hmax Hv]. destruct it as [vs mi ma st]. cbn in *. subst mi ma. unfold item_parse, item_to_string. cbn [star_ value_].
  destruct Hv as [[-> ->]|(-> & Hne & Hall)]; [split_and!; [done | vm_decide | done]|].
  assert (Hcomma : Forall (fun p => ","%char ∉ p) (map show vs)).
  { apply Forall_forall. intros p (v & -> & Hin)%list_elem_of_fmap.
    apply show_field. eapply Forall_forall in Hall; [|exact Hin]. cbn in Hall. lia. }
  assert (Hmap : map show vs <> []) by (by destruct vs).
  assert (Hstar : join_with ","%char (map show vs) <> str "*").
  { intros Hj. pose proof (split_commas_join _ Hmap Hcomma) as Hs1. rewrite Hj in Hs1.
    pose proof (split_commas_join [str "*"] ltac:(done) ltac:(apply Forall_cons_2; [vm_decide | apply Forall_nil_2])) as Hs2.
    change (join_with ","%char [str "*"]) with (str "*") in Hs2. rewrite Hs2 in Hs1.
    destruct vs as [|v vs]; [done|]. injection Hs1 as Hs1 _. apply Forall_cons in Hall as [Hv _].
    destruct (show_field v) as (Hst & _ & _); [lia|]. rewrite <- Hs1 in Hst. vm_compute in Hst. done. }
  rewrite bool_decide_eq_false_2 by done. rewrite split_commas_join by done.
  rewrite parse_values_show by done. split_and!; [done| |].
  - intros [?|(p & (v & -> & Hin)%list_elem_of_fmap & Hp)]%elem_of_join_with; [done|].
    eapply Forall_forall in Hall; [|exact Hin]. cbn in Hall. destruct (show_field v) as (_ & _ & ?); [lia | done].
  - destruct vs as [|v vs]; [done|]. apply Forall_cons in Hall as [Hv _].
    assert (show v <> []). { intros He. destruct (show_field v) as (Hst & _); [lia|]. by rewrite He in Hst. }
    destruct vs; cbn; [done|]. destruct (show v); done.
Qed.

(** Printing a schedule and parsing the text gives the schedule back. *)
Theorem cron_parse_roundtrip (s : schedule) (Hs : wf_schedule s) :
  cron_parse (schedule_to_string s) = Ok s.
Proof.
  destruct Hs as [H1 H2 H3 H4 H5].
  apply item_roundtrip in H1 as (E1 & S1 & N1), H2 as (E2 & S2 & N2), H3 as (E3 & S3 & N3), H4 as (E4 & S4 & N4),
    H5 as (E5 & S5 & N5); try lia.
  unfold cron_parse, schedule_to_string. rewrite split_lst_char, pieces_join; [| by repeat (apply Forall_cons_2; [done|]) | cbn; congruence].
  rewrite E1, E2, E3, E4, E5. by destruct s.
Qed.

Lemma parse_values_range lo hi parts vs : parse_values lo hi parts = Ok vs ->
  length vs = length parts /\ Forall (fun v => lo <= v <= hi) vs.
Proof.
  revert vs. induction parts as [|p parts IH]; intros vs; cbn [parse_values]; [intros [= <-]; split; [done | apply Forall_nil_2]|].
  destruct (stoll p) as [i|]; [|done]. destruct (_ || _) eqn:E; [done|]. breflect. intros Hp. inv_ok. subst vs.
  apply IH in Hok as [? ?]. split; [cbn; lia|]. apply Forall_cons_2; [lia | done].
Qed.

Lemma item_parse_wf lo hi text it : item_parse text lo hi = Ok it -> wf_item lo hi it.
Proof.
  unfold item_parse. case_bool_decide; intros Hp; inv_ok; subst it; [by split; [..|left]|].
  apply parse_values_range in Hok as [Hlen Hall]. split; [done | done | right]. split_and!; [done| |done].
  cbn. intros ->. pose proof (split_commas_nonempty text). by destruct (split_commas text).
Qed.

(** C40. Whatever text is accepted, each of the five fields of the parsed schedule is a star or
    a non-empty list of values within the limits of the field, which is what the search relies
    on: minutes 0-59, hours 0-23, days of the month 1-31, months 1-12 and days of the week 0-6. *)
Theorem cron_parse_wf (text : cppstring) (s : schedule) (Hp : cron_parse text = Ok s) : wf_schedule s.
Proof.
  unfold cron_parse in Hp. destruct (split_lst text _) as [[|? [|? [|? [|? [|? [|? ?]]]]]]|]; try done.
  inv_ok. subst s. split; by eapply item_parse_wf.
Qed.
End RoundTrip.

(** Splitting at commas as boost documents it: at least one piece. *)
#[export] Instance plain_split : boost_split.
Proof.
  refine {| split_commas s := match split_lst (s ++ [","%char]) [","%char] with Some l => l | None => [] end |}.
  2: { intros s. rewrite split_lst_char. destruct s as [|c s]; cbn; [done|].
       case_bool_decide; [done|]. by destruct (pieces _ _). }
  intros ps Hne Hps. rewrite split_lst_char.
  induction Hps as [|p ps Hp Hps IH]; [done|]. destruct ps as [|q ps].
  - cbn. by rewrite pieces_cons.
  - change (join_with ","%char (p :: q :: ps)) with (p ++ ","%char :: join_with ","%char (q :: ps)).
    rewrite <- app_assoc. cbn [app]. rewrite pieces_cons by done. f_equal. by apply IH.
Defined.

Lemma cron_parse_roundtrip_witness : cron_parse (schedule_to_string leap_day_schedule) = Ok leap_day_schedule.
Proof. apply cron_parse_roundtrip. apply leap_day_schedule_wf. Defined.

Lemma cron_parse_wf_witness : exists s, cron_parse (str "0,30 6 * * 1") = Ok s /\ wf_schedule s.
Proof. eexists. split; [vm_compute; reflexivity|]. apply (cron_parse_wf (str "0,30 6 * * 1")). vm_compute. reflexivity. Defined.

(** A range such as 8-18 is accepted and read as its first value only, and a step such as */15
    is refused. *)
Theorem cron_range_keeps_first_value :
  cron_parse (str "0 8-18 * * 1-5") = cron_parse (str "0 8 * * 1") /\
  cron_parse (str "*/15 8 * * 1") = Throw InvalidValue.
Proof. split; vm_compute; reflexivity. Qed.
