(* ===== verification/RateLimit.v ===== *)
(** The failed-login limiter: include/net/auth_rate_limiter.hpp.

    The table is a [gmap] from the address to its entry; the clock is an argument,
    as in [record_failure_at].  Each method holds the lock for its whole body. *)

From stdpp Require Import base gmap strings.
From Stdlib Require Import ZArith Lia.
From S2P Require Import Prelude.
From Stdlib Require String.
Import String.StringSyntax.

Local Open Scope Z_scope.

Definition kMaxBackoffShift : Z := 6.
Definition kMaxBlockSeconds : Z := 3600.
Definition kOffenseDecaySeconds : Z := 3600.
Definition kBurstGapSeconds : Z := 2.

Record entry := mkEntry { failures : Z; offenses : Z; first_failure : Z; entry_blocked_until : Z }.
Definition new_entry : entry := mkEntry 0 0 0 0.

Record auth_rate_limiter := mkLimiter {
  entries : gmap cppstring entry; max_failures_ : Z; block_seconds_ : Z
}.

Definition limiter_is_blocked (l : auth_rate_limiter) (ip : cppstring) (now : Z) : bool :=
  if max_failures_ l <=? 0 then false
  else match entries l !! ip with
       | None => false
       | Some e => entry_blocked_until e >? now
       end.

Definition is_burst (l : auth_rate_limiter) (elapsed : Z) : bool :=
  let gaps := if max_failures_ l >? 1 then max_failures_ l - 1 else 1 in
  elapsed <? gaps * kBurstGapSeconds.

(** [for (i = 0; i < doublings && delay < kMaxBlockSeconds; ++i) delay *= 2] *)
Fixpoint double_delay (doublings : nat) (delay : Z) : Z :=
  match doublings with
  | O => delay
  | S n => if delay <? kMaxBlockSeconds then double_delay n (delay * 2) else delay
  end.

Definition block_duration_seconds (base_seconds offenses : Z) : Z :=
  if base_seconds <=? 0 then 0
  else if base_seconds >=? kMaxBlockSeconds then base_seconds
  else
    let doublings := if offenses >? 0 then offenses - 1 else 0 in
    let doublings := if doublings >? kMaxBackoffShift then kMaxBackoffShift else doublings in
    let delay := double_delay (Z.to_nat doublings) base_seconds in
    if delay >? kMaxBlockSeconds then kMaxBlockSeconds else delay.

(** The body of [record_failure_at] on the entry of the address. *)
Definition fail_entry (l : auth_rate_limiter) (now : Z) (e : entry) : entry :=
  let off := if negb (entry_blocked_until e =? 0) && (now >? entry_blocked_until e + kOffenseDecaySeconds)
             then 0 else offenses e in
  let first := if failures e =? 0 then now else first_failure e in
  let fs := failures e + 1 in
  if fs >=? max_failures_ l then
    let off := if is_burst l (now - first)
               then (if off <? kMaxBackoffShift + 1 then off + 1 else off)
               else 1 in
    mkEntry 0 off 0 (now + block_duration_seconds (block_seconds_ l) off)
  else mkEntry fs off first (entry_blocked_until e).

Definition record_failure_at (ip : cppstring) (now : Z) (l : auth_rate_limiter) : auth_rate_limiter :=
  if max_failures_ l <=? 0 then l
  else mkLimiter (<[ip := fail_entry l now (default new_entry (entries l !! ip))]> (entries l))
         (max_failures_ l) (block_seconds_ l).

Definition record_success (ip : cppstring) (l : auth_rate_limiter) : auth_rate_limiter :=
  mkLimiter (delete ip (entries l)) (max_failures_ l) (block_seconds_ l).

Definition blocked_until (ip : cppstring) (l : auth_rate_limiter) : Z :=
  match entries l !! ip with None => 0 | Some e => entry_blocked_until e end.

(** ** The escalation curve *)

Lemma double_delay_spec n d : 0 < d ->
  d <= double_delay n d /\ Z.min (double_delay n d) kMaxBlockSeconds = Z.min (d * 2 ^ Z.of_nat n) kMaxBlockSeconds.
Proof.
  revert d. induction n as [|n IH]; intros d Hd; cbn [double_delay].
  - change (2 ^ Z.of_nat 0) with 1. rewrite Z.mul_1_r. lia.
  - assert (Hp : 1 <= 2 ^ Z.of_nat n) by (pose proof (Z.pow_pos_nonneg 2 (Z.of_nat n)); lia).
    replace (2 ^ Z.of_nat (S n)) with (2 * 2 ^ Z.of_nat n) by (rewrite Nat2Z.inj_succ, Z.pow_succ_r; lia).
    destruct (Z.ltb_spec d kMaxBlockSeconds) as [Hlt|Hge].
    + destruct (IH (d * 2) ltac:(lia)) as [? ->]. split; [lia|]. f_equal. lia.
    + split; [lia|]. rewrite !Z.min_r by nia. done.
Qed.

Lemma block_duration_min (base offenses : Z) :
  block_duration_seconds base offenses =
  if base <=? 0 then 0 else Z.max base (Z.min (base * 2 ^ Z.min (Z.max (offenses - 1) 0) kMaxBackoffShift) kMaxBlockSeconds).
Proof.
  unfold block_duration_seconds. destruct (Z.leb_spec base 0) as [|Hb]; [done|]. rewrite Z.geb_leb.
  destruct (Z.leb_spec kMaxBlockSeconds base) as [Hc|Hc];
    [rewrite Z.max_l; [done|]; etransitivity; [apply Z.le_min_r | done]|].
  set (k := if (if offenses >? 0 then offenses - 1 else 0) >? kMaxBackoffShift then kMaxBackoffShift
            else if offenses >? 0 then offenses - 1 else 0).
  assert (Hk : k = Z.min (Z.max (offenses - 1) 0) kMaxBackoffShift).
  { unfold k, kMaxBackoffShift. rewrite !Z.gtb_ltb.
    destruct (Z.ltb_spec 0 offenses); [destruct (Z.ltb_spec 6 (offenses - 1)) | cbn]; lia. }
  rewrite <- Hk. assert (0 <= k) by (unfold kMaxBackoffShift in Hk; lia).
  destruct (double_delay_spec (Z.to_nat k) base Hb) as [Hge Hmin]. rewrite Z2Nat.id in Hmin by done. rewrite <- Hmin.
  rewrite Z.gtb_ltb. fold k. destruct (Z.ltb_spec kMaxBlockSeconds (double_delay (Z.to_nat k) base)); lia.
Qed.

Lemma block_duration_first base : 0 < base ->
  block_duration_seconds base 1 = base.
Proof.
  intros. rewrite block_duration_min. destruct (Z.leb_spec base 0); [lia|].
  change (Z.min (Z.max (1 - 1) 0) kMaxBackoffShift) with 0. rewrite Z.pow_0_r, Z.mul_1_r. lia.
Qed.

Lemma block_duration_le base offenses : block_duration_seconds base offenses <= Z.max base kMaxBlockSeconds.
Proof.
  rewrite block_duration_min. destruct (Z.leb_spec base 0).
  - unfold kMaxBlockSeconds. lia.
  - apply Z.max_le_compat_l, Z.le_min_r.
Qed.

(** A base time under one hour doubles with each offense, at most six times and never past one
    hour; a base of an hour or more is kept as configured; the duration never shrinks with more
    offenses. *)
Theorem block_duration_curve (base offenses offenses' : Z) :
  (0 < base < kMaxBlockSeconds ->
   block_duration_seconds base offenses = Z.min (base * 2 ^ Z.min (Z.max (offenses - 1) 0) kMaxBackoffShift) kMaxBlockSeconds) /\
  (kMaxBlockSeconds <= base -> block_duration_seconds base offenses = base) /\
  (offenses <= offenses' -> block_duration_seconds base offenses <= block_duration_seconds base offenses').
Proof.
  split_and!.
  - intros Hb. rewrite block_duration_min. destruct (Z.leb_spec base 0); [lia|]. apply Z.max_r, Z.min_glb; [|lia].
    pose proof (Z.pow_pos_nonneg 2 (Z.min (Z.max (offenses - 1) 0) kMaxBackoffShift)). unfold kMaxBackoffShift in *. nia.
  - intros Hb. rewrite block_duration_min. unfold kMaxBlockSeconds in *. destruct (Z.leb_spec base 0); [lia|].
    apply Z.max_l. etransitivity; [apply Z.le_min_r | done].
  - intros Hle. rewrite !block_duration_min. destruct (Z.leb_spec base 0); [done|].
    apply Z.max_le_compat_l, Z.min_le_compat_r, Z.mul_le_mono_nonneg_l; [lia|].
    apply Z.pow_le_mono_r; [lia|]. unfold kMaxBackoffShift. lia.
Qed.

(** ** The table *)

(** A run of failures of one address at the given times. *)
Definition record_failures (ip : cppstring) (times : list Z) (l : auth_rate_limiter) : auth_rate_limiter :=
  fold_left (fun l t => record_failure_at ip t l) times l.

Lemma record_failure_other ip ip' now l : ip <> ip' -> entries (record_failure_at ip now l) !! ip' = entries l !! ip'.
Proof. intros. unfold record_failure_at. case_if; [done|]. cbn. by rewrite lookup_insert_ne. Qed.

Lemma record_failure_config ip now l :
  max_failures_ (record_failure_at ip now l) = max_failures_ l /\ block_seconds_ (record_failure_at ip now l) = block_seconds_ l.
Proof. unfold record_failure_at. by case_if. Qed.

Definition entry_of (l : auth_rate_limiter) (ip : cppstring) : entry := default new_entry (entries l !! ip).

Lemma record_failure_entry ip now l : 0 < max_failures_ l ->
  entries (record_failure_at ip now l) !! ip = Some (fail_entry l now (entry_of l ip)).
Proof.
  intros. unfold record_failure_at. destruct (Z.leb_spec (max_failures_ l) 0); [lia|]. cbn. by rewrite lookup_insert_eq.
Qed.

Lemma fail_entry_config l l' now e :
  max_failures_ l = max_failures_ l' -> block_seconds_ l = block_seconds_ l' -> fail_entry l now e = fail_entry l' now e.
Proof. intros H1 H2. unfold fail_entry, is_burst. by rewrite H1, H2. Qed.

(** The state of one address that every sequence of failures keeps. *)
Definition entry_inv (l : auth_rate_limiter) (e : entry) : Prop :=
  0 <= failures e < Z.max 1 (max_failures_ l) /\ 0 <= offenses e <= kMaxBackoffShift + 1.

Lemma fail_entry_inv l now e : 0 < max_failures_ l -> entry_inv l e -> entry_inv l (fail_entry l now e).
Proof.
  unfold entry_inv, fail_entry, kMaxBackoffShift. intros Hm [Hf Ho]. rewrite Z.geb_leb.
  set (off := if _ && _ then 0 else offenses e). assert (0 <= off <= 7) by (unfold off; case_if; lia).
  destruct (Z.leb_spec (max_failures_ l) (failures e + 1)); cbn; [|lia].
  split; [lia|]. destruct (is_burst l _); [|lia]. destruct (Z.ltb_spec off (6 + 1)); lia.
Qed.

(** A failure that does not complete a run leaves the block alone. *)
Lemma fail_entry_counts l now e : failures e + 1 < max_failures_ l ->
  failures (fail_entry l now e) = failures e + 1 /\ entry_blocked_until (fail_entry l now e) = entry_blocked_until e /\
  (failures e <> 0 -> first_failure (fail_entry l now e) = first_failure e) /\
  (failures e = 0 -> first_failure (fail_entry l now e) = now).
Proof.
  intros Hlt. unfold fail_entry. rewrite Z.geb_leb. destruct (Z.leb_spec (max_failures_ l) (failures e + 1)); [lia|]. cbn.
  destruct (Z.eqb_spec (failures e) 0); naive_solver.
Qed.

Lemma record_failures_config ip times l :
  max_failures_ (record_failures ip times l) = max_failures_ l /\ block_seconds_ (record_failures ip times l) = block_seconds_ l.
Proof.
  unfold record_failures. revert l. induction times as [|t times IH]; intros l; cbn; [done|].
  destruct (IH (record_failure_at ip t l)) as [-> ->]. apply record_failure_config.
Qed.

Lemma record_failures_snoc ip times t l :
  record_failures ip (times ++ [t]) l = record_failure_at ip t (record_failures ip times l).
Proof. unfold record_failures. by rewrite fold_left_app. Qed.

(** A first run of failures, up to the one that completes it. *)
Lemma first_run ip t0 times l :
  entries l !! ip = None -> 1 + zlength times < max_failures_ l ->
  let e := entry_of (record_failures ip (t0 :: times) l) ip in
  failures e = 1 + zlength times /\ offenses e = 0 /\ first_failure e = t0 /\ entry_blocked_until e = 0.
Proof.
  intros Hnone. induction times as [|t times IH] using rev_ind; intros Hlt.
  - unfold zlength in *. cbn in *. unfold entry_of. rewrite record_failure_entry by lia. unfold entry_of. rewrite Hnone. cbn.
    unfold fail_entry. cbn -[Z.add Z.geb]. rewrite Z.geb_leb. destruct (Z.leb_spec (max_failures_ l) (0 + 1)); [lia|]. done.
  - rewrite zlength_app in *. change (zlength [t]) with 1 in *. pose proof (zlength_nonneg times).
    specialize (IH ltac:(lia)). cbv zeta in *. destruct IH as (Hf & Ho & Hff & Hb).
    rewrite app_comm_cons, record_failures_snoc. destruct (record_failures_config ip (t0 :: times) l) as [Hm Hs].
    assert (He : entry_of (record_failure_at ip t (record_failures ip (t0 :: times) l)) ip =
      fail_entry (record_failures ip (t0 :: times) l) t (entry_of (record_failures ip (t0 :: times) l) ip))
      by (unfold entry_of at 1; by rewrite record_failure_entry by lia).
    rewrite He. clear He. set (e := entry_of (record_failures ip (t0 :: times) l) ip) in *.
    destruct (fail_entry_counts (record_failures ip (t0 :: times) l) t e) as (Hf' & Hb' & Hff' & _); [lia|].
    rewrite Hf', Hb', Hff' by lia. split_and!; [lia | | done | done].
    unfold fail_entry. rewrite Hb, Z.geb_leb. destruct (Z.leb_spec (max_failures_ (record_failures ip (t0 :: times) l)) (failures e + 1)); [lia|].
    done.
Qed.

Lemma record_failures_other ip ip' times l : ip <> ip' -> entries (record_failures ip times l) !! ip' = entries l !! ip'.
Proof.
  intros Hne. induction times as [|t times IH] using rev_ind; [done|].
  rewrite record_failures_snoc. by rewrite record_failure_other.
Qed.

(** The failure that completes the first run of max_failures blocks exactly that address for the
    configured base time; no earlier failure of the run blocks it, no other address is affected,
    and a successful login clears it. *)
Theorem first_lockout (l : auth_rate_limiter) (ip : cppstring) (t0 tn : Z) (times : list Z)
    (Hfresh : entries l !! ip = None) (Hmax : max_failures_ l = 2 + zlength times) (Hbase : 0 < block_seconds_ l) :
  let before := record_failures ip (t0 :: times) l in
  let after := record_failure_at ip tn before in
  (forall t, 0 <= t -> limiter_is_blocked before ip t = false) /\
  (forall t, limiter_is_blocked after ip t = (t <? tn + block_seconds_ l)) /\
  (forall ip' t, ip' <> ip -> limiter_is_blocked after ip' t = limiter_is_blocked l ip' t) /\
  (forall t, limiter_is_blocked (record_success ip after) ip t = false).
Proof.
  cbv zeta. pose proof (zlength_nonneg times) as Hz.
  destruct (first_run ip t0 times l Hfresh ltac:(lia)) as (Hf & Ho & Hff & Hb).
  destruct (record_failures_config ip (t0 :: times) l) as [Hm Hs].
  set (before := record_failures ip (t0 :: times) l) in *.
  destruct (record_failure_config ip tn before) as [Hm' _].
  split_and!.
  - intros t Ht. unfold limiter_is_blocked. destruct (Z.leb_spec (max_failures_ before) 0); [done|].
    unfold entry_of in Hb. destruct (entries before !! ip) as [e|]; [|done]. cbn in Hb. rewrite Hb. rewrite Z.gtb_ltb.
    by apply Z.ltb_ge.
  - intros t. unfold limiter_is_blocked. rewrite Hm'. destruct (Z.leb_spec (max_failures_ before) 0); [lia|].
    rewrite record_failure_entry by lia. unfold fail_entry. rewrite Hf, Hff, Ho, Hb, Z.geb_leb. cbn [Z.eqb negb andb].
    destruct (Z.leb_spec (max_failures_ before) (1 + zlength times + 1)); [|lia]. cbn [entry_blocked_until].
    assert (Hoff : (if is_burst before (tn - (if 1 + zlength times =? 0 then tn else t0))
                    then if 0 <? kMaxBackoffShift + 1 then 0 + 1 else 0 else 1) = 1) by (case_if; done).
    rewrite Hoff, block_duration_first, Z.gtb_ltb, Hs by lia. done.
  - intros ip' t Hne. unfold limiter_is_blocked. rewrite Hm', Hm, record_failure_other by congruence.
    unfold before. by rewrite record_failures_other by congruence.
  - intros t. unfold limiter_is_blocked, record_success. cbn. rewrite lookup_delete_eq. by case_if.
Qed.

Lemma first_lockout_witness :
  let l := mkLimiter ∅ 3 60 in
  limiter_is_blocked (record_failure_at (str "10.0.0.5") 102 (record_failures (str "10.0.0.5") [100; 101] l)) (str "10.0.0.5") 161 = true.
Proof.
  cbv zeta.
  destruct (first_lockout (mkLimiter ∅ 3 60) (str "10.0.0.5") 100 102 [101] (lookup_empty _) eq_refl ltac:(cbn; lia)) as (_ & H & _).
  rewrite H. reflexivity.
Defined.

(** Under any sequence of failures the counters of an address stay within bounds (fewer failures
    than the limit, at most seven offenses), and a block set by a failure ends at most
    max(configured base, one hour) after it. *)
Theorem limiter_invariant (l : auth_rate_limiter) (ip : cppstring) (times : list Z)
    (Hmax : 0 < max_failures_ l) (Hinv : entry_inv l (entry_of l ip)) :
  let l' := record_failures ip times l in
  entry_inv l' (entry_of l' ip) /\
  (forall t now, entry_blocked_until (entry_of l' ip) <> entry_blocked_until (entry_of (record_failure_at ip now l') ip) ->
     limiter_is_blocked (record_failure_at ip now l') ip t = true -> t - now < Z.max (block_seconds_ l) kMaxBlockSeconds).
Proof.
  cbv zeta. destruct (record_failures_config ip times l) as [Hm Hs]. split.
  - induction times as [|t times IH] using rev_ind; [done|]. rewrite record_failures_snoc in *.
    destruct (record_failures_config ip times l) as [Hm0 Hs0]. specialize (IH Hm0 Hs0).
    unfold entry_of at 1. rewrite record_failure_entry by lia. cbn [default from_option].
    pose proof (fail_entry_inv (record_failures ip times l) t _ ltac:(lia) IH) as [H1 H2].
    split; [|done]. by rewrite (proj1 (record_failure_config _ _ _)).
  - set (l' := record_failures ip times l) in *. intros t now Hne Hbl.
    unfold limiter_is_blocked in Hbl. rewrite (proj1 (record_failure_config _ _ _)) in Hbl.
    destruct (Z.leb_spec (max_failures_ l') 0); [lia|].
    unfold entry_of at 2 in Hne. rewrite record_failure_entry in Hbl, Hne by lia. cbn in Hne.
    unfold fail_entry in *. rewrite Z.geb_leb in *. destruct (Z.leb_spec (max_failures_ l') (failures (entry_of l' ip) + 1)); [|done].
    cbn [entry_blocked_until] in *. rewrite Z.gtb_ltb in Hbl. apply Z.ltb_lt in Hbl.
    match type of Hbl with _ < _ + block_duration_seconds ?b ?o => pose proof (block_duration_le b o) end.
    rewrite Hs in *. lia.
Qed.

Lemma limiter_invariant_witness :
  let l := record_failures (str "10.0.0.5") [100; 101; 102; 103] (mkLimiter ∅ 3 60) in
  entry_inv l (entry_of l (str "10.0.0.5")).
Proof.
  cbv zeta. apply (limiter_invariant (mkLimiter ∅ 3 60) (str "10.0.0.5") [100; 101; 102; 103]); [cbn; lia|].
  vm_compute. intuition discriminate.
Defined.
Lemma block_duration_curve_witness : block_duration_seconds 60 3 = 240 /\ block_duration_seconds 60 7 = 3600.
Proof.
  split; [rewrite (proj1 (block_duration_curve 60 3 3)) | rewrite (proj1 (block_duration_curve 60 7 7))];
    try reflexivity; unfold kMaxBlockSeconds; lia.
Defined.
