(* ===== verification/AllowedHosts.v ===== *)
(** The allowed-hosts check of every listener: include/net/socket/allowed_hosts.hpp
    and allowed_hosts.cpp.

    An address is its bytes, each a [Z].  Parsing and resolving addresses are
    boost::asio's and number conversion is boost's [lexical_cast]: the interfaces
    [asio] and [lexical]. *)

From stdpp Require Import base list strings pretty.
From Stdlib Require Import Ascii ZArith Lia.
From Stdlib Require String.
From S2P Require Import Prelude Strings.
Import String.StringSyntax.

Local Open Scope Z_scope.

Abbreviation addr_bytes := (list Z).

Inductive address := V4 (bytes : addr_bytes) | V6 (bytes : addr_bytes).

Inductive host_error :=
| WildcardWithMask (record : cppstring)
| BadWildcard (record : cppstring)
| BadAddress (record : cppstring)
| ResolveFailed (record : cppstring).

(** ** Text of a mask *)

(** [str::stox<std::size_t>] on a string of digits; [None] is the exception. *)
Class lexical := {
  stox_size : cppstring -> option Z;
  stox_size_spec s : s <> [] -> forallb isdigit s = true ->
    stox_size s = if decimal s <? 2 ^ 64 then Some (decimal s) else None
}.

(** [find_first_of] the digits: the suffix from there. *)
Fixpoint from_digit (s : cppstring) : cppstring :=
  match s with [] => [] | c :: s' => if isdigit c then s else from_digit s' end.

(** The result of the cast to [unsigned int] is 32 bits wide; [None] is the
    exception of the conversion, which leaves [refresh]. *)
Definition extract_mask `{lexical} (mask : cppstring) (mask_length : Z) : option Z :=
  match digits_of (from_digit mask) with
  | [] => Some (wrap_u 32 mask_length)
  | ds => wrap_u 32 <$> stox_size ds
  end.

(** [calculate_mask] for an address of [size] bytes, once the length is known. *)
Definition mask_bytes (size : nat) (mask : Z) : addr_bytes :=
  let index := mask / 8 in
  let reminder := mask mod 8 in
  let value := 255 - Z.shiftr 255 reminder in
  map (fun i => if Z.of_nat i <? index then 255 else if Z.of_nat i =? index then value else 0) (seq 0 size).

Definition calculate_mask `{lexical} (size : nat) (mask_as_string : cppstring) : option addr_bytes :=
  mask_bytes size <$> extract_mask mask_as_string (8 * Z.of_nat size).

(** ** Matching *)

Fixpoint match_host (allowed mask remote : addr_bytes) : bool :=
  match allowed, mask, remote with
  | a :: allowed', m :: mask', r :: remote' =>
      if negb (Z.land a m =? Z.land r m) then false else match_host allowed' mask' remote'
  | _, _, _ => true
  end.

Record host_record := mkHost { host : cppstring; addr : addr_bytes; hmask : addr_bytes }.

Record allowed_hosts_manager := mkManager {
  entries_v4 : list host_record;
  entries_v6 : list host_record;
  sources : list cppstring;
  cached : bool
}.

(** boost::asio and boost::trim *)
Class asio := {
  make_address : cppstring -> option address;
  resolve : cppstring -> option (list address);       (* None: the resolver throws *)
  v4_mapped : addr_bytes -> option addr_bytes;        (* is_v4_mapped, make_address_v4 *)
  boost_trim : cppstring -> cppstring
}.

(** ** The [*] ranges *)

Definition octet_ok (part : cppstring) : bool :=
  negb (bool_decide (part = [])) && Nat.leb (length part) 3 && forallb isdigit part && (decimal part <=? 255).

(** The first loop: the number of octets before the star, or [None] for a
    malformed range.  [stox<unsigned int>] of at most three digits cannot throw. *)
Fixpoint count_octets (parts : list cppstring) (seen_star : bool) (significant : nat) : option (bool * nat) :=
  match parts with
  | [] => Some (seen_star, significant)
  | part :: parts' =>
      if bool_decide (part = str "*") then count_octets parts' true significant
      else if seen_star then None
      else if negb (octet_ok part) then None
      else count_octets parts' false (S significant)
  end.

Definition expand_wildcard_v4 (addr : cppstring) : option (cppstring * cppstring) :=
  let parts := default [] (split_lst addr ["."%char]) in
  if bool_decide (parts = []) || Nat.ltb 4 (length parts) then None
  else match count_octets parts false 0 with
       | Some (true, significant) =>
           Some (join_with "."%char (take significant parts ++ replicate (4 - significant) (str "0")),
                 str "/" ++ str (pretty (Z.of_nat (significant * 8))))
       | _ => None
       end.

(** ** refresh *)

Section Refresh.
Context `{lexical} `{asio}.

Record building := mkBuilding { b_v4 : list host_record; b_v6 : list host_record; b_errors : list host_error }.

(** [entries.emplace_back(record, bytes, calculate_mask(mask))]; [None] when the
    mask conversion throws. *)
Definition add_address (record mask : cppstring) (b : building) (a : address) : option building :=
  match a with
  | V4 bytes => m ← calculate_mask 4 mask; Some (mkBuilding (b_v4 b ++ [mkHost record bytes m]) (b_v6 b) (b_errors b))
  | V6 bytes => m ← calculate_mask 16 mask; Some (mkBuilding (b_v4 b) (b_v6 b ++ [mkHost record bytes m]) (b_errors b))
  end.

Definition add_error (e : host_error) (b : building) : building :=
  mkBuilding (b_v4 b) (b_v6 b) (b_errors b ++ [e]).

Definition add_numeric (record addr mask : cppstring) (b : building) : option building :=
  match make_address addr with
  | None => Some (add_error (BadAddress record) b)
  | Some a => add_address record mask b a
  end.

(** The resolver branch: what throws inside the [try] is reported, and the
    addresses added before it stay. *)
Fixpoint add_resolved (record mask : cppstring) (l : list address) (b : building) : building :=
  match l with
  | [] => b
  | a :: l' =>
      match add_address record mask b a with
      | None => add_error (ResolveFailed record) b
      | Some b => add_resolved record mask l' b
      end
  end.

(** One record of [sources]; [None] when an exception leaves [refresh]. *)
Definition refresh_record (b : building) (record : cppstring) : option building :=
  let '(addr, mask) := match find record ["/"%char] 0 with
                       | None => (record, [])
                       | Some pos => (substr record 0 pos, substr_from record pos)
                       end in
  match addr with
  | [] => Some b
  | c0 :: _ =>
      let is_wildcard := has_char "*"%char addr in
      let is_numeric := isdigit c0 || has_char ":"%char addr in
      if is_wildcard then
        if negb (bool_decide (mask = [])) then Some (add_error (WildcardWithMask record) b)
        else match expand_wildcard_v4 addr with
             | None => Some (add_error (BadWildcard record) b)
             | Some (addr, mask) => add_numeric record addr mask b
             end
      else if is_numeric then add_numeric record addr mask b
      else match resolve addr with
           | None => Some (add_error (ResolveFailed record) b)
           | Some l => Some (add_resolved record mask l b)
           end
  end.

Fixpoint refresh_records (rs : list cppstring) (b : building) : option building :=
  match rs with
  | [] => Some b
  | r :: rs' => b ← refresh_record b r; refresh_records rs' b
  end.

(** The new manager and the errors; [None] when an exception leaves it. *)
Definition refresh (m : allowed_hosts_manager) : option (allowed_hosts_manager * list host_error) :=
  b ← refresh_records (sources m) (mkBuilding [] [] []);
  Some (mkManager (b_v4 b) (b_v6 b) (sources m) (cached m), b_errors b).

Definition set_source (source : cppstring) (m : allowed_hosts_manager) : allowed_hosts_manager :=
  let parts := map boost_trim (default [] (split_lst source [","%char])) in
  mkManager (entries_v4 m) (entries_v6 m) (filter (fun s => s <> []) parts) (cached m).

Definition is_allowed_v4 (m : allowed_hosts_manager) (remote : addr_bytes) : bool :=
  existsb (fun r => match_host (addr r) (hmask r) remote) (entries_v4 m).
Definition is_allowed_v6 (m : allowed_hosts_manager) (remote : addr_bytes) : bool :=
  existsb (fun r => match_host (addr r) (hmask r) remote) (entries_v6 m).

Definition host_allowed (m : allowed_hosts_manager) (a : address) : option bool :=
  m ← (if negb (cached m) then fst <$> refresh m else Some m);
  Some (if bool_decide (entries_v4 m = []) && bool_decide (entries_v6 m = []) then false
        else match a with
             | V4 b => is_allowed_v4 m b
             | V6 b => match v4_mapped b with
                       | Some b4 => is_allowed_v6 m b || is_allowed_v4 m b4
                       | None => is_allowed_v6 m b
                       end
             end).
End Refresh.

(** ** Prefix lengths *)

(** The address as one number, first byte most significant. *)
Fixpoint addr_value (bytes : addr_bytes) : Z :=
  match bytes with
  | [] => 0
  | b :: bytes' => b * 2 ^ (8 * zlength bytes') + addr_value bytes'
  end.

Definition bytes_ok (bytes : addr_bytes) : Prop := Forall (fun b => 0 <= b < 256) bytes.

Lemma addr_value_range bytes : bytes_ok bytes -> 0 <= addr_value bytes < 2 ^ (8 * zlength bytes).
Proof.
  induction 1 as [|b bytes Hb _ IH]; [done|]. cbn [addr_value]. rewrite zlength_cons.
  pose proof (zlength_nonneg bytes). replace (8 * (1 + zlength bytes)) with (8 + 8 * zlength bytes) by lia.
  rewrite Z.pow_add_r by lia. change (2 ^ 8) with 256. nia.
Qed.

(** Masking one byte with [k] leading ones. *)
Lemma land_high_bits k : 0 <= k < 8 -> forall a, 0 <= a < 256 ->
  Z.land a (255 - Z.shiftr 255 k) = a / 2 ^ (8 - k) * 2 ^ (8 - k).
Proof.
  intros Hk a Ha.
  assert (Hall : forallb (fun k => forallb (fun a => Z.land a (255 - Z.shiftr 255 k) =? a / 2 ^ (8 - k) * 2 ^ (8 - k))
    (map Z.of_nat (seq 0 256))) (map Z.of_nat (seq 0 8)) = true) by (vm_compute; reflexivity).
  rewrite forallb_forall in Hall. specialize (Hall k ltac:(apply in_map_iff; exists (Z.to_nat k); rewrite in_seq; lia)).
  rewrite forallb_forall in Hall. specialize (Hall a ltac:(apply in_map_iff; exists (Z.to_nat a); rewrite in_seq; lia)).
  by apply Z.eqb_eq in Hall.
Qed.

Lemma land_255 a : 0 <= a < 256 -> Z.land a 255 = a.
Proof. intros. change 255 with (Z.ones 8). rewrite Z.land_ones by lia. apply Z.mod_small. lia. Qed.

Lemma mask_bytes_cons size n : 0 <= n ->
  mask_bytes (S size) n =
  if n <? 8 then (255 - Z.shiftr 255 n) :: replicate size 0 else 255 :: mask_bytes size (n - 8).
Proof.
  intros Hn. unfold mask_bytes. cbn [seq map]. rewrite <- seq_shift, map_map. change (Z.of_nat 0) with 0.
  destruct (Z.ltb_spec n 8).
  - rewrite (Z.div_small n 8), (Z.mod_small n 8) by lia. cbn [Z.ltb Z.eqb]. f_equal.
    apply list_eq. intros i. rewrite list_lookup_fmap.
    destruct (decide (i < size)%nat) as [Hi|Hi].
    + rewrite lookup_seq_lt, lookup_replicate_2 by lia. cbn [fmap option_fmap option_map].
      destruct (Z.ltb_spec (Z.of_nat (S (0 + i))) 0), (Z.eqb_spec (Z.of_nat (S (0 + i))) 0); lia || done.
    + rewrite lookup_seq_ge by lia. symmetry. apply lookup_replicate_None. lia.
  - replace (n / 8) with ((n - 8) / 8 + 1) by (rewrite <- Z.div_add by lia; f_equal; lia).
    replace (n mod 8) with ((n - 8) mod 8) by (rewrite <- (Z.mod_add (n - 8) 1 8) by lia; f_equal; lia).
    pose proof (Z.div_pos (n - 8) 8 ltac:(lia) ltac:(lia)).
    destruct (Z.ltb_spec 0 ((n - 8) / 8 + 1)); [|lia]. f_equal. apply map_ext. intros i.
    destruct (Z.ltb_spec (Z.of_nat (S i)) ((n - 8) / 8 + 1)), (Z.ltb_spec (Z.of_nat i) ((n - 8) / 8)); try lia.
    destruct (Z.eqb_spec (Z.of_nat (S i)) ((n - 8) / 8 + 1)), (Z.eqb_spec (Z.of_nat i) ((n - 8) / 8)); lia || done.
Qed.

Lemma match_host_zero allowed remote :
  length allowed = length remote -> match_host allowed (replicate (length allowed) 0) remote = true.
Proof.
  revert remote. induction allowed as [|a allowed IH]; intros [|r remote] Hl; try done. cbn.
  rewrite !Z.land_0_r. cbn. apply IH. cbn in Hl. lia.
Qed.

(** The leading [n] bits of two numbers, split after the first byte. *)
Lemma prefix_split a r A R l n : 0 <= a < 256 -> 0 <= r < 256 -> 0 <= A < 2 ^ (8 * l) -> 0 <= R < 2 ^ (8 * l) ->
  0 <= l -> 8 <= n <= 8 * (1 + l) ->
  (a * 2 ^ (8 * l) + A) / 2 ^ (8 * (1 + l) - n) = (r * 2 ^ (8 * l) + R) / 2 ^ (8 * (1 + l) - n) <->
  a = r /\ A / 2 ^ (8 * l - (n - 8)) = R / 2 ^ (8 * l - (n - 8)).
Proof.
  intros Ha Hr HA HR Hl Hn. replace (8 * (1 + l) - n) with (8 * l - (n - 8)) by lia.
  set (k := 8 * l - (n - 8)). assert (Hp : 2 ^ (8 * l) = 2 ^ (n - 8) * 2 ^ k) by (rewrite <- Z.pow_add_r by lia; f_equal; lia).
  assert (0 < 2 ^ k) by (apply Z.pow_pos_nonneg; lia). assert (0 < 2 ^ (n - 8)) by (apply Z.pow_pos_nonneg; lia).
  rewrite !Hp, !Z.mul_assoc, !(Z.add_comm (_ * _ * _)), !Z.div_add by lia.
  assert (0 <= A / 2 ^ k < 2 ^ (n - 8)) by (split; [apply Z.div_pos; lia | apply Z.div_lt_upper_bound; lia]).
  assert (0 <= R / 2 ^ k < 2 ^ (n - 8)) by (split; [apply Z.div_pos; lia | apply Z.div_lt_upper_bound; lia]).
  split; [|intros [-> ->]; done]. intros He. assert (a = r) by nia. split; [done | nia].
Qed.

Lemma match_host_prefix allowed : forall remote n,
  length allowed = length remote -> bytes_ok allowed -> bytes_ok remote -> 0 <= n <= 8 * zlength allowed ->
  match_host allowed (mask_bytes (length allowed) n) remote = true <->
  addr_value allowed / 2 ^ (8 * zlength allowed - n) = addr_value remote / 2 ^ (8 * zlength allowed - n).
Proof.
  induction allowed as [|a allowed IH]; intros [|r remote] n Hl Ha Hr Hn; try done.
  apply Forall_cons in Ha as [Ha Has], Hr as [Hr Hrs]. cbn in Hl. assert (Hlen : length allowed = length remote) by lia.
  rewrite zlength_cons in *. pose proof (zlength_nonneg allowed) as Hz.
  assert (Hzl : zlength remote = zlength allowed) by (unfold zlength; lia).
  pose proof (addr_value_range _ Has). pose proof (addr_value_range _ Hrs). rewrite Hzl in *.
  cbn [length addr_value]. rewrite Hzl, mask_bytes_cons by lia. destruct (Z.ltb_spec n 8) as [H8|H8]; cbn [match_host].
  - rewrite !land_high_bits by lia. rewrite match_host_zero by done.
    replace (8 * (1 + zlength allowed) - n) with (8 * zlength allowed + (8 - n)) by lia.
    rewrite Z.pow_add_r, <- !Z.div_div by (try apply Z.pow_pos_nonneg; try apply Z.pow_nonzero; lia).
    assert (0 < 2 ^ (8 * zlength allowed)) by (apply Z.pow_pos_nonneg; lia).
    rewrite !(Z.add_comm (_ * _)), !Z.div_add, !(Z.div_small (addr_value _)) by lia. rewrite !Z.add_0_l.
    assert (0 < 2 ^ (8 - n)) by (apply Z.pow_pos_nonneg; lia).
    destruct (Z.eqb_spec (a / 2 ^ (8 - n) * 2 ^ (8 - n)) (r / 2 ^ (8 - n) * 2 ^ (8 - n))) as [He|He]; cbn [negb];
      (split; [intros; try done | intros; try done]); [nia | congruence].
  - rewrite !land_255 by lia. rewrite prefix_split by lia. destruct (Z.eqb_spec a r) as [->|Hne]; cbn [negb].
    + rewrite IH by (try done; lia). tauto.
    + split; [done | tauto].
Qed.

(** ** Masks from their text *)

Definition prefix_text (n : Z) : cppstring := "/"%char :: str (pretty n).

Lemma prefix_text_digits n : 0 <= n <= 128 ->
  exists c s, digits_of (from_digit (prefix_text n)) = c :: s /\ forallb isdigit (c :: s) = true /\ decimal (c :: s) = n.
Proof.
  intros Hn. assert (Hall : forallb (fun n => match digits_of (from_digit (prefix_text n)) with
      | [] => false | s => forallb isdigit s && (decimal s =? n) end) (map Z.of_nat (seq 0 129)) = true)
    by (vm_compute; reflexivity).
  rewrite forallb_forall in Hall. specialize (Hall n ltac:(apply in_map_iff; exists (Z.to_nat n); rewrite in_seq; lia)).
  destruct (digits_of _) as [|c s]; [done|]. apply andb_prop in Hall as [? ?]. exists c, s. split_and!; [done | done |].
  by apply Z.eqb_eq.
Qed.

Section Masks.
Context `{lexical}.

Lemma calculate_mask_prefix size n : 0 <= n <= 128 -> calculate_mask size (prefix_text n) = Some (mask_bytes size n).
Proof.
  intros Hn. unfold calculate_mask, extract_mask. destruct (prefix_text_digits n Hn) as (c & s & -> & Hd & Hv).
  rewrite stox_size_spec by done. rewrite Hv. destruct (Z.ltb_spec n (2 ^ 64)); [|lia]. cbn [fmap option_fmap option_map].
  rewrite wrap_u_id; [done | unfold in_u; lia].
Qed.

Lemma calculate_mask_none size : (size <= 16)%nat -> calculate_mask size [] = Some (mask_bytes size (8 * Z.of_nat size)).
Proof. intros Hs. unfold calculate_mask. cbn [extract_mask from_digit digits_of fmap option_fmap option_map]. rewrite wrap_u_id; [done | unfold in_u; lia]. Qed.
End Masks.

(** For an IPv4 or IPv6 entry with prefix length n, the byte-wise mask comparison accepts
    exactly the addresses whose leading n bits equal those of the entry; without a prefix it
    accepts exactly the entry itself. *)
Theorem cidr_match `{lexical} (allowed remote : addr_bytes) (n : Z)
    (Hlen : length allowed = length remote) (Hsize : (length allowed <= 16)%nat)
    (Ha : bytes_ok allowed) (Hr : bytes_ok remote) (Hn : 0 <= n <= 8 * zlength allowed) :
  (exists m, calculate_mask (length allowed) (prefix_text n) = Some m /\
    (match_host allowed m remote = true <->
     addr_value allowed / 2 ^ (8 * zlength allowed - n) = addr_value remote / 2 ^ (8 * zlength allowed - n))) /\
  (exists m, calculate_mask (length allowed) [] = Some m /\ (match_host allowed m remote = true <-> addr_value allowed = addr_value remote)).
Proof.
  split; eexists.
  - split; [apply calculate_mask_prefix; unfold zlength in *; lia|]. by apply match_host_prefix.
  - split; [by apply calculate_mask_none|].
    rewrite (match_host_prefix allowed remote (8 * Z.of_nat (length allowed)) Hlen Ha Hr) by (unfold zlength; lia).
    change (Z.of_nat (length allowed)) with (zlength allowed). by rewrite Z.sub_diag, Z.pow_0_r, !Z.div_1_r.
Qed.

(** [lexical_cast] as boost documents it. *)
#[export] Instance plain_lexical : lexical.
Proof.
  refine {| stox_size s := if bool_decide (s = []) || negb (forallb isdigit s) then None
                           else if decimal s <? 2 ^ 64 then Some (decimal s) else None |}.
  intros s Hs Hd. rewrite bool_decide_eq_false_2 by done. by rewrite Hd.
Defined.

Lemma cidr_match_witness :
  exists m, calculate_mask 4 (prefix_text 20) = Some m /\
    (match_host [172; 16; 16; 1] m [172; 16; 31; 200] = true <->
     addr_value [172; 16; 16; 1] / 2 ^ 12 = addr_value [172; 16; 31; 200] / 2 ^ 12).
Proof.
  apply (cidr_match [172; 16; 16; 1] [172; 16; 31; 200] 20); [done | cbn; lia | | | unfold zlength; cbn; lia];
    repeat (apply Forall_cons_2; [lia|]); apply Forall_nil_2.
Defined.

(** ** Where an entry comes from *)

Section Justified.
Context `{lexical} `{asio}.

Definition hosts_of (b : building) : list cppstring := map host (b_v4 b ++ b_v6 b).

Lemma add_address_hosts record mask b a b' :
  add_address record mask b a = Some b' -> forall h, h ∈ hosts_of b' -> h ∈ hosts_of b \/ h = record.
Proof.
  unfold add_address, hosts_of. destruct a; destruct (calculate_mask _ mask); cbn; try done; intros [= <-] h; cbn;
    rewrite !map_app, !elem_of_app; cbn; rewrite list_elem_of_singleton; tauto.
Qed.

Lemma add_resolved_hosts record mask l : forall b h,
  h ∈ hosts_of (add_resolved record mask l b) -> h ∈ hosts_of b \/ h = record.
Proof.
  induction l as [|a l IH]; intros b h; cbn; [tauto|].
  destruct (add_address record mask b a) as [b'|] eqn:E; [|by left].
  intros [Hh|?]%IH; [|tauto]. by apply (add_address_hosts _ _ _ _ _ E).
Qed.

Lemma add_numeric_hosts record a mask b b' :
  add_numeric record a mask b = Some b' -> forall h, h ∈ hosts_of b' -> h ∈ hosts_of b \/ h = record.
Proof.
  unfold add_numeric. destruct (make_address a); [apply add_address_hosts|]. intros [= <-] h. by left.
Qed.

Lemma refresh_record_hosts b record b' :
  refresh_record b record = Some b' -> forall h, h ∈ hosts_of b' -> h ∈ hosts_of b \/ h = record.
Proof.
  unfold refresh_record. destruct (match find record _ _ with None => _ | Some _ => _ end) as [a mask].
  destruct a as [|c0 a]; [intros [= <-]; tauto|].
  destruct (has_char _ _).
  - destruct (negb _); [intros [= <-] h; by left|].
    destruct (expand_wildcard_v4 _) as [[a' m']|]; [apply add_numeric_hosts|]. intros [= <-] h; by left.
  - destruct (isdigit c0 || _); [apply add_numeric_hosts|]. destruct (resolve _); intros [= <-] h; [apply add_resolved_hosts | by left].
Qed.

Lemma refresh_records_hosts rs : forall b b',
  refresh_records rs b = Some b' -> forall h, h ∈ hosts_of b' -> h ∈ hosts_of b \/ h ∈ rs.
Proof.
  induction rs as [|r rs IH]; intros b b'; cbn [refresh_records]; [intros [= <-]; tauto|].
  destruct (refresh_record b r) as [b1|] eqn:E; cbn; [|done]. intros Hb h Hh.
  destruct (IH _ _ Hb h Hh) as [Hh1|?]; [|right; by right].
  destruct (refresh_record_hosts _ _ _ E h Hh1) as [?| ->]; [by left | right; left].
Qed.

(** After a refresh, a connection is admitted only if some entry built from a configured source
    matches the peer address (or the IPv4 address it maps); with no usable entry everything is
    refused. *)
Theorem allowed_hosts_fail_closed (m m' : allowed_hosts_manager) (errors : list host_error) (a : address)
    (Hrefresh : refresh m = Some (m', errors)) (Hcached : cached m = true) :
  (entries_v4 m' = [] -> entries_v6 m' = [] -> host_allowed m' a = Some false) /\
  (host_allowed m' a = Some true ->
     exists r remote, (a = V4 remote \/ a = V6 remote \/ exists b6, a = V6 b6 /\ v4_mapped b6 = Some remote) /\
       host r ∈ sources m /\ r ∈ entries_v4 m' ++ entries_v6 m' /\ match_host (addr r) (hmask r) remote = true).
Proof.
  unfold refresh in Hrefresh. destruct (refresh_records (sources m) _) as [b|] eqn:E; [|done]. cbn in Hrefresh.
  injection Hrefresh as <- _. unfold host_allowed. cbn [cached entries_v4 entries_v6]. rewrite Hcached. cbn.
  assert (Hsrc : forall r, r ∈ b_v4 b ++ b_v6 b -> host r ∈ sources m).
  { intros r Hr. destruct (refresh_records_hosts _ _ _ E (host r)) as [Hn|?]; [| |done].
    - unfold hosts_of. apply list_elem_of_fmap. eauto.
    - by apply not_elem_of_nil in Hn. }
  split; [intros -> ->; done|]. destruct (_ && _); [done|]. intros [= Hal].
  assert (Hfind : forall l remote, existsb (fun r => match_host (addr r) (hmask r) remote) l = true ->
                    exists r, r ∈ l /\ match_host (addr r) (hmask r) remote = true).
  { intros l remote Hl. apply existsb_exists in Hl as (r & Hr & ?). exists r. by rewrite list_elem_of_In. }
  destruct a as [b4|b6]; [|destruct (v4_mapped b6) as [b4|] eqn:Em; [apply orb_true_iff in Hal as [Hal|Hal]|]];
    apply Hfind in Hal as (r & Hr & Hmatch); exists r; eexists; (split; [|split; [apply Hsrc | split; [|exact Hmatch]]]);
    try (apply elem_of_app; (by left) || (by right)); eauto.
Qed.
End Justified.

(** An [asio] that knows one address. *)
#[export] Instance demo_asio : asio := {|
  make_address s := if bool_decide (s = str "10.0.0.0") then Some (V4 [10; 0; 0; 0]) else None;
  resolve _ := None;
  v4_mapped _ := None;
  boost_trim s := trim_space s
|}.

Lemma allowed_hosts_fail_closed_witness :
  exists m' errors, refresh (mkManager [] [] [str "10.0.0.0/8"; str "nosuch"] true) = Some (m', errors) /\
    host_allowed m' (V4 [10; 1; 2; 3]) = Some true /\
    exists r remote, host r ∈ [str "10.0.0.0/8"; str "nosuch"] /\ match_host (addr r) (hmask r) remote = true.
Proof.
  eexists _, _. split; [vm_compute; reflexivity|]. split; [vm_compute; reflexivity|].
  edestruct (allowed_hosts_fail_closed (mkManager [] [] [str "10.0.0.0/8"; str "nosuch"] true)) with (a := V4 [10; 1; 2; 3])
    as [_ Hj]; [vm_compute; reflexivity | reflexivity |].
  destruct Hj as (r & remote & _ & Hs & _ & Hm); [vm_compute; reflexivity|]. exists r, remote. split; [exact Hs | exact Hm].
Defined.

(** The prefix length 4294967296 is truncated to zero, so such an entry matches every address,
    and a length past 64 bits makes the conversion throw out of refresh. *)
Theorem oversized_mask_opens_or_throws :
  (forall allowed remote, length allowed = 4%nat -> length remote = 4%nat ->
     exists m, calculate_mask 4 (str "/4294967296") = Some m /\ match_host allowed m remote = true) /\
  refresh (mkManager [] [] [str "10.0.0.0/99999999999999999999"] true) = None.
Proof.
  split; [|vm_compute; reflexivity]. intros allowed remote Ha Hr. exists (replicate 4 0).
  split; [vm_compute; reflexivity|]. rewrite <- Ha. apply match_host_zero. lia.
Qed.

(** ** Ranges *)

Lemma count_octets_ok octets rest significant :
  Forall (fun o => octet_ok o = true) octets ->
  count_octets (octets ++ rest) false significant = count_octets rest false (length octets + significant).
Proof.
  intros Ho. revert significant. induction Ho as [|o octets Ho _ IH]; intros significant; [done|]. cbn [app count_octets].
  assert (o <> str "*") by (intros ->; vm_compute in Ho; done).
  rewrite bool_decide_eq_false_2 by done. rewrite Ho. cbn [negb]. rewrite IH. f_equal. cbn. lia.
Qed.

Lemma octet_no_dot o : octet_ok o = true -> "."%char ∉ o.
Proof.
  unfold octet_ok. rewrite !andb_true_iff. intros [[_ Hd] _] Hin. rewrite forallb_forall in Hd.
  apply list_elem_of_In in Hin. apply Hd in Hin. vm_compute in Hin. done.
Qed.

(** A range of up to three octets followed by a star becomes the zero-padded network address
    with the matching prefix length, and a star followed by another octet is refused. *)
Theorem wildcard_expansion (octets : list cppstring)
    (Ho : Forall (fun o => octet_ok o = true) octets) (Hn : (length octets <= 3)%nat) :
  expand_wildcard_v4 (join_with "."%char (octets ++ [str "*"])) =
    Some (join_with "."%char (octets ++ replicate (4 - length octets) (str "0")), prefix_text (8 * zlength octets)) /\
  forall part, part <> str "*" -> "."%char ∉ part -> part <> [] ->
    expand_wildcard_v4 (join_with "."%char (octets ++ [str "*"; part])) = None.
Proof.
  assert (Hdots : Forall (fun p => "."%char ∉ p) (octets ++ [str "*"])).
  { apply Forall_app. split; [eapply Forall_impl; [exact Ho | intros; by apply octet_no_dot]|].
    apply Forall_cons_2; [vm_decide | apply Forall_nil_2]. }
  split.
  - unfold expand_wildcard_v4. rewrite split_lst_char, pieces_join by (done || (rewrite last_snoc; done)).
    cbn [default from_option id]. rewrite bool_decide_eq_false_2 by (by destruct octets).
    rewrite length_app. cbn [length]. destruct (Nat.ltb_spec 4 (length octets + 1)); [lia|]. cbn [orb].
    rewrite count_octets_ok by done. cbn [count_octets]. rewrite bool_decide_eq_true_2 by done. rewrite Nat.add_0_r.
    rewrite take_app_length. unfold prefix_text, zlength. do 2 f_equal. f_equal. f_equal. f_equal. lia.
  - intros part Hp Hd Hne. unfold expand_wildcard_v4.
    change (octets ++ [str "*"; part]) with (octets ++ ([str "*"] ++ [part])). rewrite app_assoc.
    rewrite split_lst_char, pieces_join.
    + cbn [default from_option id]. destruct (_ || _); [done|]. rewrite <- app_assoc. rewrite count_octets_ok by done.
      cbn [app count_octets]. rewrite bool_decide_eq_true_2 by done. by rewrite bool_decide_eq_false_2.
    + apply Forall_app. split; [done|]. by apply Forall_cons_2; [|apply Forall_nil_2].
    + rewrite last_snoc. congruence.
Qed.

Lemma wildcard_expansion_witness :
  expand_wildcard_v4 (str "192.168.*") = Some (str "192.168.0.0", str "/16").
Proof.
  apply (wildcard_expansion [str "192"; str "168"]); [|cbn; lia].
  repeat (apply Forall_cons_2; [vm_compute; reflexivity|]). apply Forall_nil_2.
Defined.
