(* ===== verification/Format.v ===== *)
(** Numbers, durations, sizes and dates as text: include/str/format.hpp and
    include/str/saturate.hpp.

    A [double] is Stdlib's [spec_float] (IEEE 754 binary64); an integral template
    argument is its pair of limits.  Number conversion of boost ([lexical_cast]) is the
    interface [lexical_int]. *)

From stdpp Require Import base list strings pretty.
From Stdlib Require Import Ascii ZArith Lia SpecFloat.
From Stdlib Require String.
From S2P Require Import Prelude Strings Cron.
Import String.StringSyntax.

Local Open Scope Z_scope.

(** ** Doubles *)

Definition double : Type := spec_float.
Definition d_normalize (m e : Z) : double := binary_normalize 53 1024 m e false.
(** [static_cast<double>] of an integer: round to nearest, ties to even. *)
Definition to_double (z : Z) : double := d_normalize z 0.
Definition d_mul : double -> double -> double := SFmul 53 1024.
Definition d_div : double -> double -> double := SFdiv 53 1024.
Definition d_eq : double -> double -> bool := SFeqb.
Definition d_lt : double -> double -> bool := SFltb.
Definition d_le : double -> double -> bool := SFleb.
Definition isnan (v : double) : bool := match v with S754_nan => true | _ => false end.
(** [numeric_limits<double>::max()] *)
Definition d_max : double := d_normalize (2 ^ 53 - 1) 971.
Definition two63 : double := to_double (2 ^ 63).
Definition neg_two63 : double := to_double (- 2 ^ 63).

Definition signed (s : bool) (z : Z) : Z := if s then - z else z.

(** The cast of a finite value to an integer: towards zero. *)
Definition d_trunc (v : double) : Z :=
  match v with
  | S754_finite s m e => signed s (if e >=? 0 then Zpos m * 2 ^ e else Zpos m / 2 ^ (- e))
  | _ => 0
  end.

(** [std::round]: to the nearest integer, halves away from zero. *)
Definition d_round (v : double) : double :=
  match v with
  | S754_finite s m e =>
      if e >=? 0 then v
      else let q := (2 * Zpos m + 2 ^ (- e)) / 2 ^ (1 - e) in
           if q =? 0 then S754_zero s else to_double (signed s q)
  | _ => v
  end.

Definition fits_int64 (v : double) : bool :=
  negb (isnan v) && d_lt v two63 && d_le neg_two63 v.

Definition to_int64_saturating (v : double) : Z :=
  if isnan v then 0
  else if d_le two63 v then 2 ^ 63 - 1
  else if d_le v neg_two63 then - 2 ^ 63
  else d_trunc v.

(** [llround]: where the result does not fit, glibc gives the smallest value. *)
Definition llround (v : double) : Z :=
  if fits_int64 (d_round v) then d_trunc (d_round v) else - 2 ^ 63.

(** ** A double as text

    A stream's default format: [p] significant digits, fixed or scientific by the
    exponent, without trailing zeros.  A positive value is the fraction [n / d].
    [str::xtos<double>] leaves the precision at six. *)

Fixpoint log10_up (fuel : nat) (n d : Z) (k : Z) : Z :=
  match fuel with O => k | S f => if n >=? d * 10 ^ (k + 1) then log10_up f n d (k + 1) else k end.
Fixpoint log10_down (fuel : nat) (n d : Z) (k : Z) : Z :=
  match fuel with O => k | S f => if n * 10 ^ (- k) <? d then log10_down f n d (k - 1) else k end.

(** [n / d] to the nearest integer, ties to even *)
Definition div_half_even (n d : Z) : Z :=
  let q := n / d in let r := n mod d in
  if (2 * r <? d) || ((2 * r =? d) && Z.even q) then q else q + 1.

Fixpoint strip_zeros_rev (s : cppstring) : cppstring :=
  match s with c :: s' => if bool_decide (c = "0"%char) then strip_zeros_rev s' else s | [] => [] end.
Definition strip_zeros (s : cppstring) : cppstring := rev (strip_zeros_rev (rev s)).
Definition with_fraction (whole frac : cppstring) : cppstring :=
  match strip_zeros frac with [] => whole | f => whole ++ str "." ++ f end.

Definition positive_text (p n d : Z) : cppstring :=
  let x0 := if n >=? d then log10_up 320 n d 0 else log10_down 330 n d 0 in
  let digits0 := if x0 <=? p - 1 then div_half_even (n * 10 ^ (p - 1 - x0)) d else div_half_even n (d * 10 ^ (x0 - (p - 1))) in
  let '(x, digits) := if digits0 =? 10 ^ p then (x0 + 1, 10 ^ (p - 1)) else (x0, digits0) in
  let ds := show digits in
  if (x <? -4) || (x >=? p) then
    let ex := show (Z.abs x) in
    with_fraction (take 1 ds) (drop 1 ds) ++ str "e" ++ (if x <? 0 then str "-" else str "+") ++
    replicate (2 - length ex) "0"%char ++ ex
  else if x <? 0 then with_fraction (str "0") (replicate (Z.to_nat (- x - 1)) "0"%char ++ ds)
  else with_fraction (take (Z.to_nat (x + 1)) ds) (drop (Z.to_nat (x + 1)) ds).

Definition double_text (p : Z) (v : double) : cppstring :=
  match v with
  | S754_nan => str "nan"
  | S754_infinity s => if s then str "-inf" else str "inf"
  | S754_zero s => if s then str "-0" else str "0"
  | S754_finite s m e =>
      (if s then str "-" else []) ++
      (if e >=? 0 then positive_text p (Zpos m * 2 ^ e) 1 else positive_text p (Zpos m) (2 ^ (- e)))
  end.
Definition xtos_double : double -> cppstring := double_text 6.

Example xtos_double_examples :
  map xtos_double [to_double 80; d_div (to_double 5) (to_double 2); d_div (to_double (-1)) (to_double 3);
                   to_double 1234567; d_div (to_double 1) (to_double 100000)] =
  [str "80"; str "2.5"; str "-0.333333"; str "1.23457e+06"; str "1e-05"].
Proof. vm_compute. reflexivity. Qed.

(** ** Checked arithmetic *)

Inductive format_error := OutOfRange | InvalidArgument | BadCast.

(** [T mul_checked(T, long long)] for an integral [T] between [lo] and [hi]. *)
Definition mul_checked (lo hi value factor : Z) : result format_error Z :=
  if factor <=? 0 then Ok (value * factor)
  else if factor >? hi then Throw OutOfRange
  else if value >? Z.quot hi factor then Throw OutOfRange
  else if value <? Z.quot lo factor then Throw OutOfRange
  else Ok (value * factor).

(** [mul_checked<double>] *)
Definition mul_checked_double (value : double) (factor : Z) : result format_error double :=
  let f := to_double factor in
  if (factor >? 0) && (d_lt (d_div d_max f) value || d_lt value (d_div (SFopp d_max) f)) then Throw OutOfRange
  else Ok (d_mul value f).

Definition llong_min : Z := - 2 ^ 63.
Definition llong_max : Z := 2 ^ 63 - 1.

Definition add_checked (a b : Z) : result format_error Z :=
  if (b >? 0) && (a >? llong_max - b) then Throw OutOfRange
  else if (b <? 0) && (a <? llong_min - b) then Throw OutOfRange
  else Ok (a + b).

Definition negate_checked (a : Z) : result format_error Z :=
  if a =? llong_min then Throw OutOfRange else Ok (- a).

Definition llround_checked (v : double) : result format_error Z :=
  let r := d_round v in
  if negb (fits_int64 r) then Throw OutOfRange else Ok (d_trunc r).

(** ** Durations *)

Definition is_time_unit (c : ascii) : bool :=
  bool_decide (c ∈ str "sSmMhHdDwW").

(** [time.find_first_of("sSmMhHdDwW")]: the text from there. *)
Fixpoint from_time_unit (s : cppstring) : cppstring :=
  match s with
  | [] => []
  | c :: s' => if is_time_unit c then s else from_time_unit s'
  end.

Definition validate_time_spec (time : cppstring) : bool :=
  let t := skip_space time in
  let ds := digits_of t in
  negb (bool_decide (ds = [])) &&
  let t := drop (length ds) t in
  let t := match t with c :: t' => if is_time_unit c then t' else t | [] => [] end in
  bool_decide (skip_space t = []).

(** [boost::lexical_cast<T>] for an integral [T]; [None] is bad_lexical_cast. *)
Class lexical_int := {
  lexical_cast : Z -> Z -> cppstring -> option Z;
  lexical_cast_digits lo hi s : s <> [] -> forallb isdigit s = true ->
    lexical_cast lo hi s = if decimal s <=? hi then Some (decimal s) else None;
  lexical_cast_nil lo hi : lexical_cast lo hi [] = None
}.

Definition time_unit_multiplier (unit : cppstring) : Z :=
  let u := match unit with [] => " "%char | c :: _ => c end in
  if bool_decide (u = "m"%char) || bool_decide (u = "M"%char) then 60
  else if bool_decide (u = "h"%char) || bool_decide (u = "H"%char) then 60 * 60
  else if bool_decide (u = "d"%char) || bool_decide (u = "D"%char) then 24 * 60 * 60
  else if bool_decide (u = "w"%char) || bool_decide (u = "W"%char) then 7 * 24 * 60 * 60
  else 1.

Section Durations.
Context `{lexical_int}.

(** The digits before the first other character, which is where both functions cut. *)
Definition time_digits (lo hi : Z) (time : cppstring) : result format_error Z :=
  match lexical_cast lo hi (digits_of time) with Some v => Ok v | None => Throw BadCast end.

Definition decode_time (lo hi : Z) (time : cppstring) (factor : Z) : result format_error Z :=
  guard! validate_time_spec time else InvalidArgument in
  let* value := time_digits lo hi time in
  match from_time_unit time with
  | [] => mul_checked lo hi value factor
  | c :: _ =>
      if bool_decide (c = "s"%char) || bool_decide (c = "S"%char) then mul_checked lo hi value factor
      else if bool_decide (c = "m"%char) || bool_decide (c = "M"%char) then mul_checked lo hi value (60 * factor)
      else if bool_decide (c = "h"%char) || bool_decide (c = "H"%char) then mul_checked lo hi value (60 * 60 * factor)
      else if bool_decide (c = "d"%char) || bool_decide (c = "D"%char) then mul_checked lo hi value (24 * 60 * 60 * factor)
      else if bool_decide (c = "w"%char) || bool_decide (c = "W"%char) then mul_checked lo hi value (7 * 24 * 60 * 60 * factor)
      else mul_checked lo hi value factor
  end.

Definition stox_as_time_sec (lo hi : Z) (time default_unit : cppstring) : result format_error Z :=
  guard! validate_time_spec time else InvalidArgument in
  let* value := time_digits lo hi time in
  let unit := match from_time_unit time with [] => default_unit | u => u end in
  mul_checked lo hi value (time_unit_multiplier unit).

(** ** Sizes *)

(** The multiplier of a size unit. *)
Definition byte_factor (unit : cppstring) : Z :=
  match unit with
  | [] => 1
  | c :: _ =>
      if bool_decide (c = "B"%char) || bool_decide (c = "b"%char) then 1
      else if bool_decide (c = "K"%char) || bool_decide (c = "k"%char) then 1024
      else if bool_decide (c = "M"%char) || bool_decide (c = "m"%char) then 1024 * 1024
      else if bool_decide (c = "G"%char) || bool_decide (c = "g"%char) then 1024 * 1024 * 1024
      else if bool_decide (c = "T"%char) || bool_decide (c = "t"%char) then 1024 * 1024 * 1024 * 1024
      else 1
  end.

(** [decode_byte_units<long long>] and [decode_byte_units<double>]: a factor of one is
    returned unchanged, not multiplied. *)
Definition decode_byte_units (value : Z) (unit : cppstring) : result format_error Z :=
  let f := byte_factor unit in if f =? 1 then Ok value else mul_checked llong_min llong_max value f.
Definition decode_byte_units_double (value : double) (unit : cppstring) : result format_error double :=
  let f := byte_factor unit in if f =? 1 then Ok value else mul_checked_double value f.

Definition decode_byte_text (s : cppstring) : result format_error Z :=
  let numbers := digits_of s in
  let unit := drop (length numbers) s in
  if bool_decide (unit = []) || bool_decide (numbers = []) then
    match lexical_cast llong_min llong_max s with Some v => Ok v | None => Throw BadCast end
  else match lexical_cast llong_min llong_max numbers with
       | Some v => decode_byte_units v unit
       | None => Throw BadCast
       end.
End Durations.

Definition BKMG_RANGE : cppstring := str "BKMGTPE?".
Definition BKMG_SIZE : nat := 7.

Definition toupper (c : ascii) : ascii :=
  let n := nat_of_ascii c in if Nat.leb 97 n && Nat.leb n 122 then ascii_of_nat (n - 32) else c.

Fixpoint index_of (c : ascii) (l : cppstring) (i : Z) : Z :=
  match l with [] => -1 | d :: l' => if bool_decide (d = c) then i else index_of c l' (i + 1) end.

Definition byte_unit_index (unit : cppstring) : Z :=
  match unit with [] => -1 | u :: _ => index_of (toupper u) (take BKMG_SIZE BKMG_RANGE) 0 end.

Definition byte_unit_name (idx : nat) : cppstring :=
  let ret := take 1 (drop (if Nat.ltb BKMG_SIZE idx then BKMG_SIZE else idx) BKMG_RANGE) in
  if Nat.ltb 0 idx then ret ++ str "B" else ret.

(** The scaling loop: one division per round, at most [BKMG_SIZE] rounds. *)
Fixpoint auto_scale_loop (fuel : nat) (rest : double) (idx : nat) : nat :=
  match fuel with
  | O => idx
  | S fuel' => if d_lt (to_double 999) rest then auto_scale_loop fuel' (d_div rest (to_double 1024)) (S idx) else idx
  end.
Definition auto_scale_index (value : double) : nat :=
  auto_scale_loop BKMG_SIZE (if d_lt value (S754_zero false) then SFopp value else value) 0.

Fixpoint div_1024 (n : nat) (v : double) : double :=
  match n with O => v | S n' => div_1024 n' (d_div v (to_double 1024)) end.

Definition convert_to_byte_units (i : Z) (unit : cppstring) : double :=
  let idx := byte_unit_index unit in
  if idx <=? 0 then to_double i else div_1024 (Z.to_nat idx) (to_double i).

(** ** Uptime text *)

Inductive itos_as_time_unit := unit_second | unit_minute | unit_hour | unit_day | unit_week.
Definition unit_rank (u : itos_as_time_unit) : Z :=
  match u with unit_second => 0 | unit_minute => 1 | unit_hour => 2 | unit_day => 3 | unit_week => 4 end.

Definition parse_itos_as_time_unit (s : cppstring) : result format_error itos_as_time_unit :=
  match s with
  | [c] =>
      let l := tolower c in
      if bool_decide (l = "s"%char) then Ok unit_second
      else if bool_decide (l = "m"%char) then Ok unit_minute
      else if bool_decide (l = "h"%char) then Ok unit_hour
      else if bool_decide (l = "d"%char) then Ok unit_day
      else if bool_decide (l = "w"%char) then Ok unit_week
      else Throw InvalidArgument
  | _ => Throw InvalidArgument
  end.

Definition WEEK : Z := 7 * 24 * 60 * 60 * 1000.
Definition DAY : Z := 24 * 60 * 60 * 1000.
Definition HOUR : Z := 60 * 60 * 1000.
Definition MINUTE : Z := 60 * 1000.
Definition SEC : Z := 1000.

(** [std::setw(2)] with fill character 0 *)
Definition two_digits (z : Z) : cppstring :=
  let s := show z in replicate (2 - length s) "0"%char ++ s.

(** One step of the split: the count of a unit (an [unsigned int]) and what is left
    (an [unsigned long long]). *)
Definition take_unit (rest unit : Z) : Z * Z :=
  let n := wrap_u 32 (rest / unit) in (n, wrap_u 64 (rest - n * unit)).

Definition itos_as_time (time : Z) (max_unit : itos_as_time_unit) : cppstring :=
  if (time >? WEEK) && (unit_rank max_unit >=? unit_rank unit_week) then
    let '(w, rest) := take_unit time WEEK in
    let '(d, rest) := take_unit rest DAY in
    let '(h, rest) := take_unit rest HOUR in
    let m := wrap_u 32 (rest / MINUTE) in
    show w ++ str "w " ++ show d ++ str "d " ++ two_digits h ++ str ":" ++ two_digits m
  else if (time >? DAY) && (unit_rank max_unit >=? unit_rank unit_day) then
    let '(d, rest) := take_unit time DAY in
    let '(h, rest) := take_unit rest HOUR in
    let m := wrap_u 32 (rest / MINUTE) in
    show d ++ str "d " ++ two_digits h ++ str ":" ++ two_digits m
  else if (time >? HOUR) && (unit_rank max_unit >=? unit_rank unit_hour) then
    let '(h, rest) := take_unit time HOUR in
    let m := wrap_u 32 (rest / MINUTE) in
    two_digits h ++ str ":" ++ two_digits m
  else if (time >? MINUTE) && (unit_rank max_unit >=? unit_rank unit_minute) then
    str "0:" ++ two_digits (wrap_u 32 (time / (60 * 1000)))
  else if time >? SEC then show (wrap_u 32 (time / 1000)) ++ str "s"
  else show (wrap_u 32 time).

(** ** Dates *)

(** The [unsigned] arithmetic is 32 bits wide; division of [long long] truncates. *)
Definition days_from_civil (y m d : Z) : Z :=
  let y := y - (if m <=? 2 then 1 else 0) in
  let era := Z.quot (if y >=? 0 then y else y - 399) 400 in
  let yoe := wrap_u 32 (y - era * 400) in
  let doy := wrap_u 32 (wrap_u 32 (153 * wrap_u 32 (m + wrap_u 32 (if m >? 2 then -3 else 9)) + 2) / 5 + d - 1) in
  let doe := wrap_u 32 (yoe * 365 + yoe / 4 - yoe / 100 + doy) in
  era * 146097 + doe - 719468.

Definition has_digits (v : cppstring) (off n : nat) : bool :=
  Nat.leb (off + n) (length v) && forallb isdigit (substr v off n).
(** [std::stoi] of digits *)
Definition num (v : cppstring) (off n : nat) : Z := decimal (substr v off n).

Definition parse_cim_datetime (s : cppstring) : Z :=
  if negb (has_digits s 0 14) then 0
  else
    let year := num s 0 4 in let month := num s 4 2 in let day := num s 6 2 in
    let hour := num s 8 2 in let minute := num s 10 2 in let second := num s 12 2 in
    if (year <? 1980) || (month <? 1) || (month >? 12) || (day <? 1) || (day >? 31) || (hour >? 23) || (minute >? 59) || (second >? 60) then 0
    else
      let epoch := days_from_civil year month day * 86400 + hour * 3600 + minute * 60 + second in
      match find s (str ".") 0 with
      | None => epoch
      | Some dot =>
          match s !! (dot + 7)%nat with
          | Some sign =>
              if (bool_decide (sign = "+"%char) || bool_decide (sign = "-"%char)) && has_digits s (dot + 8) 3 then
                let off_min := num s (dot + 8) 3 in
                epoch - (if bool_decide (sign = "-"%char) then - off_min else off_min) * 60
              else epoch
          | None => epoch
          end
      end.

(** ** Checked arithmetic is exact or refused *)

Section Checked.

(** The quotient tests of the source decide whether the product fits. *)
Lemma quot_bounds lo hi v f : lo <= 0 <= hi -> 0 < f ->
  (v <= Z.quot hi f <-> v * f <= hi) /\ (Z.quot lo f <= v <-> lo <= v * f).
Proof.
  intros Hlh Hf. split.
  - rewrite Z.quot_div_nonneg by lia. pose proof (Z.div_mod hi f ltac:(lia)) as E.
    pose proof (Z.mod_pos_bound hi f Hf) as M. split; intros; nia.
  - rewrite <- (Z.opp_involutive lo), Z.quot_opp_l by lia. rewrite Z.quot_div_nonneg by lia.
    pose proof (Z.div_mod (- lo) f ltac:(lia)) as E. pose proof (Z.mod_pos_bound (- lo) f Hf) as M.
    split; intros; nia.
Qed.

Lemma mul_checked_correct lo hi v f : lo <= 0 < hi -> lo <= v <= hi -> 0 < f ->
  mul_checked lo hi v f =
    if (f <=? hi) && (lo <=? v * f) && (v * f <=? hi) then Ok (v * f) else Throw OutOfRange.
Proof.
  intros Hlh Hv Hf. unfold mul_checked. destruct (Z.leb_spec f 0); [lia|].
  rewrite !Z.gtb_ltb. destruct (Z.ltb_spec hi f), (Z.leb_spec f hi); try lia; [done|]. cbn [andb].
  destruct (quot_bounds lo hi v f) as [Q1 Q2]; [lia | lia |].
  destruct (Z.ltb_spec (Z.quot hi f) v), (Z.leb_spec (v * f) hi), (Z.ltb_spec v (Z.quot lo f)), (Z.leb_spec lo (v * f));
    try lia; done.
Qed.

(** The checked multiplication, addition and negation of 64-bit integers return the exact result
    when it fits and raise out_of_range when it does not, for every pair of operands. *)
Theorem checked_arithmetic_exact (a b f : Z) (Ha : in_s 64 a) (Hb : in_s 64 b) (Hf : 0 < f < 2 ^ 63) :
  mul_checked llong_min llong_max a f = (if decide (in_s 64 (a * f)) then Ok (a * f) else Throw OutOfRange) /\
  add_checked a b = (if decide (in_s 64 (a + b)) then Ok (a + b) else Throw OutOfRange) /\
  negate_checked a = (if decide (in_s 64 (- a)) then Ok (- a) else Throw OutOfRange).
Proof.
  unfold in_s in *. change (64 - 1) with 63 in *. split_and!.
  - rewrite mul_checked_correct by (unfold llong_min, llong_max; lia).
    unfold llong_min, llong_max. destruct (decide _) as [Hd|Hd].
    + by rewrite !(proj2 (Z.leb_le _ _)) by lia.
    + destruct (_ && _) eqn:E; [breflect; exfalso; lia | done].
  - unfold add_checked, llong_min, llong_max. destruct (decide _) as [Hd|Hd].
    + rewrite !Z.gtb_ltb. destruct (Z.ltb_spec 0 b), (Z.ltb_spec b 0), (Z.ltb_spec (2 ^ 63 - 1 - b) a),
        (Z.ltb_spec a (- 2 ^ 63 - b)); cbn; try done; lia.
    + rewrite !Z.gtb_ltb. destruct (Z.ltb_spec 0 b), (Z.ltb_spec b 0), (Z.ltb_spec (2 ^ 63 - 1 - b) a),
        (Z.ltb_spec a (- 2 ^ 63 - b)); cbn; try done; lia.
  - unfold negate_checked, llong_min. destruct (Z.eqb_spec a (- 2 ^ 63)), (decide _); try done; lia.
Qed.
End Checked.

Lemma checked_arithmetic_exact_witness :
  mul_checked llong_min llong_max 5000000 604800 = Ok 3024000000000 /\
  add_checked 1 (2 ^ 63 - 1) = Throw OutOfRange /\ negate_checked 1 = Ok (-1).
Proof.
  destruct (checked_arithmetic_exact 5000000 (2 ^ 63 - 1) 604800) as (H1 & _ & _); [vm_decide | vm_decide | lia |].
  destruct (checked_arithmetic_exact 1 (2 ^ 63 - 1) 604800) as (_ & H2 & H3); [vm_decide | vm_decide | lia |].
  split_and!; [rewrite H1 | rewrite H2 | rewrite H3]; vm_compute; reflexivity.
Defined.

(** ** Conversion of doubles to integers *)

Section Saturate.

(** A double is an integer multiple of a power of two; [d_val_le] compares it with an integer. *)
(** 2^63 and its negation have the same mantissa, kept abstract below: the comparison of
    mantissas must not be unfolded on a numeral. *)
Lemma two63_value : exists b, Zpos b = 2 ^ 52 /\
  two63 = S754_finite false b 11 /\ neg_two63 = S754_finite true b 11.
Proof. exists 4503599627370496%positive. split_and!; reflexivity. Qed.

(** The mantissa range of a binary64 number. *)
Definition d_valid (v : double) : Prop := valid_binary 53 1024 v = true.

Lemma digits2_pos_log2 p : Zpos (digits2_pos p) = Z.log2 (Zpos p) + 1.
Proof.
  induction p as [p IH|p IH|]; cbn [digits2_pos]; [| | done].
  - rewrite Pos2Z.inj_succ, IH. rewrite (Pos2Z.inj_xI p), Z.log2_succ_double by lia. lia.
  - rewrite Pos2Z.inj_succ, IH. rewrite (Pos2Z.inj_xO p), Z.log2_double by lia. lia.
Qed.

Lemma d_valid_finite s m e : d_valid (S754_finite s m e) ->
  Zpos m < 2 ^ 53 /\ -1074 <= e /\ (-1074 < e -> 2 ^ 52 <= Zpos m).
Proof.
  unfold d_valid. cbn [valid_binary]. unfold bounded, canonical_mantissa. intros [H _]%andb_prop.
  apply Zeq_bool_eq in H. unfold fexp, emin in H. change (3 - 1024 - 53) with (-1074) in H.
  rewrite digits2_pos_log2 in H. pose proof (Z.log2_spec (Zpos m) ltac:(lia)) as [L1 L2].
  assert (Z.log2 (Zpos m) <= 52) by lia. split_and!; [| lia |].
  - eapply Z.lt_le_trans; [exact L2|]. apply Z.pow_le_mono_r; lia.
  - intros He. assert (Z.log2 (Zpos m) = 52) as E by lia. rewrite E in L1. exact L1.
Qed.

Lemma trunc_mag_small (m : positive) e : Zpos m < 2 ^ 53 -> (e < 11 \/ e = 11 /\ Zpos m < 2 ^ 52) ->
  0 <= (if e >=? 0 then Zpos m * 2 ^ e else Zpos m / 2 ^ (- e)) < 2 ^ 63.
Proof.
  intros Hm He. rewrite Z.geb_leb. destruct (Z.leb_spec 0 e).
  - destruct He as [He|[-> Hm']]; [|lia].
    assert (1 <= 2 ^ e <= 2 ^ 10) by (split; [apply (Z.pow_le_mono_r 2 0 e) | apply Z.pow_le_mono_r]; lia). nia.
  - assert (0 < 2 ^ (- e)) by (apply Z.pow_pos_nonneg; lia). split; [apply Z.div_pos; lia|].
    eapply Z.le_lt_trans; [apply Z.div_le_upper_bound with (q := Zpos m)|]; nia.
Qed.

(** Comparing with 2^63: by exponent, then by mantissa. *)
Lemma cmp_cont a b : Pos.compare_cont Eq a b = Pos.compare a b.
Proof. reflexivity. Qed.

Lemma d_cmp_two63 (b m : positive) e : Zpos b = 2 ^ 52 ->
  (match Z.compare e 11 with Lt => Lt | Gt => Gt | Eq => Pos.compare m b end = Lt <->
  e < 11 \/ e = 11 /\ Zpos m < 2 ^ 52).
Proof.
  intros Hb. destruct (Z.compare_spec e 11).
  - rewrite Pos.compare_lt_iff. lia.
  - split; [lia | done].
  - split; [done | lia].
Qed.

Lemma to_int64_finite s m e : d_valid (S754_finite s m e) ->
  d_le two63 (S754_finite s m e) = false -> d_le (S754_finite s m e) neg_two63 = false ->
  - 2 ^ 63 < d_trunc (S754_finite s m e) < 2 ^ 63.
Proof.
  intros (Hm & _ & _)%d_valid_finite H1 H2. pose proof (trunc_mag_small m e Hm) as Hs.
  destruct two63_value as (b & Hb & E1 & E2). rewrite E1 in H1. rewrite E2 in H2. unfold d_le, SFleb in H1, H2.
  enough (e < 11 \/ e = 11 /\ Zpos m < 2 ^ 52) as He by (cbn [d_trunc]; destruct s; cbn [signed]; specialize (Hs He); lia).
  apply (d_cmp_two63 b m e Hb). destruct s; cbn [SFcompare] in H1, H2; rewrite cmp_cont in *.
  - destruct (Z.compare e 11); [| reflexivity | discriminate].
    destruct (Pos.compare m b); [discriminate H2 | reflexivity | discriminate H2].
  - rewrite (Z.compare_antisym e 11), (Pos.compare_antisym m b) in H1.
    destruct (Z.compare e 11); cbn [CompOpp] in H1; [| reflexivity | discriminate].
    destruct (Pos.compare m b); [discriminate H1 | reflexivity | discriminate H1].
Qed.

Lemma fits_int64_strict v : fits_int64 v = true ->
  isnan v = false /\ d_le two63 v = false /\ (d_le v neg_two63 = false \/ d_trunc v = - 2 ^ 63).
Proof.
  unfold fits_int64. intros [[Hn H1]%andb_prop H2]%andb_prop. apply negb_true_iff in Hn. split; [done|].
  destruct two63_value as (b & Hb & E1 & E2). rewrite E1 in *. rewrite E2 in *. unfold d_lt, SFltb, d_le, SFleb in *.
  destruct v as [s|[]| |s m e]; try discriminate; [split; [|left]; reflexivity|].
  destruct s; cbn [SFcompare] in *; (split; [|try (left; reflexivity)]); try reflexivity; rewrite !cmp_cont in *.
  - rewrite (Z.compare_antisym e 11), (Pos.compare_antisym m b) in H2.
    destruct (Z.compare_spec e 11) as [->|?|?]; cbn [CompOpp] in *; [|left; reflexivity|discriminate].
    destruct (Pos.compare_spec m b) as [->|?|?]; cbn [CompOpp] in *; [|left; reflexivity|discriminate].
    right. cbn [d_trunc signed]. rewrite Hb. reflexivity.
  - rewrite (Z.compare_antisym e 11), (Pos.compare_antisym m b).
    destruct (Z.compare e 11); cbn [CompOpp]; [| reflexivity | discriminate].
    destruct (Pos.compare m b); cbn [CompOpp]; [discriminate | reflexivity | discriminate].
Qed.

Lemma to_int64_saturating_range v : d_valid v -> in_s 64 (to_int64_saturating v).
Proof.
  intros Hv. unfold to_int64_saturating, in_s. change (64 - 1) with 63. destruct (isnan v) eqn:Hn; [lia|].
  destruct (d_le two63 v) eqn:H1; [lia|]. destruct (d_le v neg_two63) eqn:H2; [lia|].
  destruct v as [s|[]| |s m e]; [cbn [d_trunc]; lia | discriminate | discriminate | discriminate |].
  pose proof (to_int64_finite s m e Hv H1 H2). lia.
Qed.

(** Converting any double (NaN and infinities included) gives a value of the 64-bit range, and a
    double that fits is truncated toward zero, never rounded or clamped. *)
Theorem to_int64_saturating_correct (v : double) (Hv : valid_binary 53 1024 v = true) :
  in_s 64 (to_int64_saturating v) /\ (fits_int64 v = true -> to_int64_saturating v = d_trunc v).
Proof.
  split.
  - by apply to_int64_saturating_range.
  - intros (Hn & H1 & H2)%fits_int64_strict. unfold to_int64_saturating. rewrite Hn, H1.
    destruct H2 as [->| ->]; [reflexivity|]. destruct (d_le v neg_two63); reflexivity.
Qed.
End Saturate.

Lemma to_int64_saturating_correct_witness :
  to_int64_saturating (d_div (to_double (-97)) (to_double 10)) = -9 /\
  in_s 64 (to_int64_saturating (S754_infinity true)).
Proof.
  split.
  - rewrite (proj2 (to_int64_saturating_correct (d_div (to_double (-97)) (to_double 10)) ltac:(vm_compute; reflexivity)));
      vm_compute; reflexivity.
  - apply (to_int64_saturating_correct (S754_infinity true)). reflexivity.
Defined.

(** ** Durations *)

Section DurationProofs.
Context `{lexical_int}.

Definition is_digits (ds : cppstring) : Prop := ds <> [] /\ forallb isdigit ds = true.

Lemma isdigit_not_space c : isdigit c = true -> isspace c = false /\ is_time_unit c = false.
Proof. destruct c as [[] [] [] [] [] [] [] []]; try discriminate; intros _; split; reflexivity. Qed.

Lemma skip_space_digits ds t : is_digits ds -> skip_space (ds ++ t) = ds ++ t.
Proof.
  intros [Hne Hds]. destruct ds as [|c ds]; [done|]. cbn in Hds. apply andb_prop in Hds as [Hc _].
  apply isdigit_not_space in Hc as [Hc _]. cbn. by rewrite Hc.
Qed.

Lemma from_time_unit_app ds t : forallb isdigit ds = true -> from_time_unit (ds ++ t) = from_time_unit t.
Proof.
  induction ds as [|c ds IH]; [done|]. cbn. intros [Hc Hds]%andb_prop.
  apply isdigit_not_space in Hc as [_ ->]. by apply IH.
Qed.

(** The written form of a duration: digits and at most one unit letter. *)
Definition duration_text (ds : cppstring) (u : option ascii) : cppstring :=
  ds ++ match u with Some c => [c] | None => [] end.

Lemma time_unit_not_digit c : is_time_unit c = true -> isdigit c = false.
Proof. intros Hc. destruct (isdigit c) eqn:E; [|done]. apply isdigit_not_space in E as [_ E]. congruence. Qed.

Lemma duration_text_parts ds u : is_digits ds -> (forall c, u = Some c -> is_time_unit c = true) ->
  validate_time_spec (duration_text ds u) = true /\ digits_of (duration_text ds u) = ds /\
  from_time_unit (duration_text ds u) = match u with Some c => [c] | None => [] end.
Proof.
  intros Hds Hu. pose proof Hds as [Hne Hall]. unfold duration_text.
  assert (Hdig : digits_of (ds ++ match u with Some c => [c] | None => [] end) = ds).
  { apply digits_of_app; [done|]. intros c t' Ht. destruct u as [c'|]; [|done]. injection Ht as <- _.
    apply time_unit_not_digit. by apply Hu. }
  split_and!; [|done|].
  - unfold validate_time_spec. rewrite skip_space_digits by done. rewrite Hdig, drop_app_length.
    rewrite bool_decide_eq_false_2 by done. cbn [negb andb]. destruct u as [c|]; [|done].
    by rewrite (Hu c eq_refl).
  - rewrite from_time_unit_app by done. destruct u as [c|]; [|done]. cbn. by rewrite (Hu c eq_refl).
Qed.

(** A duration written as digits and at most one unit letter is read as its number times the
    seconds of the unit; a product that does not fit the integral type is out_of_range and
    digits that do not fit are a bad cast, never a wrapped value. *)
Theorem stox_as_time_sec_correct (lo hi : Z) (ds : cppstring) (u : option ascii) (default_unit : cppstring)
    (Hlh : lo <= 0 /\ 604800 <= hi) (Hds : is_digits ds) (Hu : forall c, u = Some c -> is_time_unit c = true) :
  let unit := match u with Some c => [c] | None => default_unit end in
  stox_as_time_sec lo hi (duration_text ds u) default_unit =
    (if decimal ds >? hi then Throw BadCast
     else if decimal ds * time_unit_multiplier unit >? hi then Throw OutOfRange
     else Ok (decimal ds * time_unit_multiplier unit)) /\
  In (time_unit_multiplier unit) [1; 60; 3600; 86400; 604800].
Proof.
  cbv zeta. destruct (duration_text_parts ds u Hds Hu) as (Hv & Hd & Hf). destruct Hds as [Hne Hall].
  set (unit := match u with Some c => [c] | None => default_unit end).
  assert (Hm : In (time_unit_multiplier unit) [1; 60; 3600; 86400; 604800]).
  { unfold time_unit_multiplier. repeat case_match; cbn; tauto. }
  split; [|done]. assert (0 < time_unit_multiplier unit <= 604800) as Hpos by (cbn in Hm; lia).
  assert (Hdn : forall l v, 0 <= v -> forallb isdigit l = true ->
    0 <= fold_left (fun v c => v * 10 + (Z.of_nat (nat_of_ascii c) - 48)) l v).
  { clear. induction l as [|c l IH]; cbn; [done|]. intros v Hv [Hc Hl]%andb_prop. apply IH; [|done].
    unfold isdigit in Hc. breflect. lia. }
  specialize (Hdn ds 0 ltac:(lia) Hall). fold (decimal ds) in Hdn.
  unfold stox_as_time_sec, time_digits. rewrite Hv, Hd, Hf. rewrite lexical_cast_digits by done. rewrite !Z.gtb_ltb.
  destruct (Z.leb_spec (decimal ds) hi), (Z.ltb_spec hi (decimal ds)); try lia; [|done]. cbn [rbind].
  assert (Hunit : match match u with Some c => [c] | None => [] end with [] => default_unit | u0 => u0 end = unit) by (by destruct u).
  rewrite Hunit, mul_checked_correct by lia.
  destruct (Z.ltb_spec hi (decimal ds * time_unit_multiplier unit)).
  - rewrite (proj2 (Z.leb_gt (decimal ds * time_unit_multiplier unit) hi)) by lia. by rewrite andb_false_r.
  - rewrite (proj2 (Z.leb_le (time_unit_multiplier unit) hi)), (proj2 (Z.leb_le lo _)), (proj2 (Z.leb_le _ hi)) by lia. done.
Qed.
End DurationProofs.

(** [lexical_cast] as boost documents it, on digits. *)
#[export] Instance plain_lexical_int : lexical_int.
Proof.
  refine {| lexical_cast lo hi s :=
    if bool_decide (s = []) || negb (forallb isdigit s) then None
    else if decimal s <=? hi then Some (decimal s) else None |}.
  - intros lo hi s Hne Hd. rewrite bool_decide_eq_false_2 by done. by rewrite Hd.
  - done.
Defined.

Lemma stox_as_time_sec_correct_witness :
  stox_as_time_sec llong_min llong_max (str "90m") (str "s") = Ok 5400 /\
  stox_as_time_sec (- 2 ^ 31) (2 ^ 31 - 1) (str "5000000w") (str "s") = Throw OutOfRange.
Proof.
  split.
  - change (str "90m") with (duration_text (str "90") (Some "m"%char)).
    rewrite (proj1 (stox_as_time_sec_correct llong_min llong_max (str "90") (Some "m"%char) (str "s") ltac:(unfold llong_min, llong_max; lia)
      ltac:(split; [done | reflexivity]) ltac:(intros c [= <-]; vm_compute; reflexivity))). reflexivity.
  - change (str "5000000w") with (duration_text (str "5000000") (Some "w"%char)).
    rewrite (proj1 (stox_as_time_sec_correct (- 2 ^ 31) (2 ^ 31 - 1) (str "5000000") (Some "w"%char) (str "s") ltac:(lia)
      ltac:(split; [done | reflexivity]) ltac:(intros c [= <-]; vm_compute; reflexivity))). reflexivity.
Defined.

(** A leading blank passes the validation, which documents it as allowed, and is then
    refused by the number conversion, because the digits are cut at the first character
    that is not one. *)
Theorem leading_blank_validates_then_fails :
  validate_time_spec (str " 5m") = true /\
  stox_as_time_sec llong_min llong_max (str " 5m") (str "s") = Throw BadCast /\
  decode_time llong_min llong_max (str " 5m") 1 = Throw BadCast.
Proof. split_and!; vm_compute; reflexivity. Qed.

(** ** Dates *)

Section Dates.

(** The calendar's next day. *)
Definition next_date (y m d : Z) : Z * Z * Z :=
  if d <? days_in_month y m then (y, m, d + 1)
  else if m <? 12 then (y, m + 1, 1) else (y + 1, 1, 1).

Definition valid_date (y m d : Z) : Prop := 1 <= m <= 12 /\ 1 <= d <= days_in_month y m.

(** Without the wrap-arounds, none of which happens on a date. *)
Lemma days_from_civil_plain y m d : 1 <= m <= 12 -> 1 <= d <= 31 ->
  days_from_civil y m d =
    let y' := y - (if m <=? 2 then 1 else 0) in
    let era := y' / 400 in
    let yoe := y' mod 400 in
    era * 146097 + (yoe * 365 + yoe / 4 - yoe / 100 + ((153 * (if m <=? 2 then m + 9 else m - 3) + 2) / 5 + d - 1)) - 719468.
Proof.
  intros Hm Hd. unfold days_from_civil. cbv zeta. set (y' := y - _).
  assert (Era : Z.quot (if y' >=? 0 then y' else y' - 399) 400 = y' / 400).
  { rewrite Z.geb_leb. destruct (Z.leb_spec 0 y'); [by rewrite Z.quot_div_nonneg by lia|].
    rewrite <- (Z.opp_involutive (y' - 399)), Z.quot_opp_l, Z.quot_div_nonneg by lia.
    pose proof (Z.div_mod y' 400 ltac:(lia)). pose proof (Z.mod_pos_bound y' 400 ltac:(lia)).
    apply Z.div_unique with (r := y' + 400 * (- (y' - 399) / 400)); [|lia].
    pose proof (Z.div_mod (- (y' - 399)) 400 ltac:(lia)). pose proof (Z.mod_pos_bound (- (y' - 399)) 400 ltac:(lia)). lia. }
  rewrite Era. assert (Yoe : y' - y' / 400 * 400 = y' mod 400) by (pose proof (Z.div_mod y' 400 ltac:(lia)); lia).
  rewrite Yoe. pose proof (Z.mod_pos_bound y' 400 ltac:(lia)).
  rewrite (wrap_u_id 32 (y' mod 400)) by (unfold in_u; lia).
  assert (Mp : wrap_u 32 (m + wrap_u 32 (if m >? 2 then -3 else 9)) = if m <=? 2 then m + 9 else m - 3).
  { rewrite Z.gtb_ltb. unfold wrap_u. rewrite Zplus_mod_idemp_r.
    destruct (Z.ltb_spec 2 m), (Z.leb_spec m 2); try lia; rewrite Z.mod_small; lia. }
  rewrite Mp. set (mp := if m <=? 2 then m + 9 else m - 3).
  assert (0 <= mp <= 11) by (unfold mp; destruct (Z.leb_spec m 2); lia).
  rewrite (wrap_u_id 32 (153 * mp + 2)) by (unfold in_u; lia).
  assert (0 <= (153 * mp + 2) / 5 <= 337) by (split; [apply Z.div_pos | apply Z.div_le_upper_bound]; lia).
  rewrite (wrap_u_id 32 ((153 * mp + 2) / 5 + d - 1)) by (unfold in_u; lia).
  assert (0 <= y' mod 400 / 100 <= y' mod 400 / 4 /\ y' mod 400 / 4 <= 100)
    by (clear -H; generalize dependent (y' mod 400); intros; Z.to_euclidean_division_equations; lia).
  rewrite wrap_u_id by (unfold in_u; lia). lia.
Qed.

(** Days of the years before March of year [y], as the algorithm and as the calendar count them. *)
Lemma era_closed_form y :
  y / 400 * 146097 + (y mod 400 * 365 + y mod 400 / 4 - y mod 400 / 100) = 365 * y + y / 4 - y / 100 + y / 400.
Proof. Z.to_euclidean_division_equations. lia. Qed.

Lemma year_step y : (y + 1) / 4 - (y + 1) / 100 + (y + 1) / 400 =
  y / 4 - y / 100 + y / 400 + (if leap_year (y + 1) then 1 else 0).
Proof.
  unfold leap_year.
  destruct (Z.eqb_spec ((y + 1) mod 4) 0), (Z.eqb_spec ((y + 1) mod 100) 0), (Z.eqb_spec ((y + 1) mod 400) 0); cbn;
    Z.to_euclidean_division_equations; lia.
Qed.

(** Days from the first of March to the first of month [m]. *)
Definition march_days (m : Z) : Z := (153 * (if m <=? 2 then m + 9 else m - 3) + 2) / 5.

Lemma march_days_step y m : 1 <= m <= 11 -> m <> 2 -> march_days (m + 1) = march_days m + days_in_month y m.
Proof.
  intros Hm H2.
  assert (m = 1 \/ m = 3 \/ m = 4 \/ m = 5 \/ m = 6 \/ m = 7 \/ m = 8 \/ m = 9 \/ m = 10 \/ m = 11) as Hcase by lia.
  destruct Hcase as [->|[->|[->|[->|[->|[->|[->|[->|[->| ->]]]]]]]]]; reflexivity.
Qed.

Definition years_days (y : Z) : Z := 365 * y + y / 4 - y / 100 + y / 400.

Lemma days_from_civil_closed y m d : 1 <= m <= 12 -> 1 <= d <= 31 ->
  days_from_civil y m d = years_days (if m <=? 2 then y - 1 else y) + march_days m + d - 719469.
Proof.
  intros Hm Hd. rewrite days_from_civil_plain by done. cbv zeta. unfold years_days, march_days.
  destruct (Z.leb_spec m 2).
  - rewrite <- era_closed_form. lia.
  - rewrite Z.sub_0_r, <- era_closed_form. lia.
Qed.

(** The day number of a date is one less than that of the next day of the Gregorian calendar
    (leap years, month and year ends, years before the epoch), and the epoch is day zero, so it
    counts days exactly. *)
Theorem days_from_civil_counts_days (y m d : Z) (Hd : valid_date y m d) :
  (let '(y', m', d') := next_date y m d in days_from_civil y' m' d' = days_from_civil y m d + 1) /\
  days_from_civil 1970 1 1 = 0.
Proof.
  split; [|reflexivity]. destruct Hd as [Hm Hd]. pose proof (days_in_month_range y m) as Hr.
  unfold next_date. destruct (Z.ltb_spec d (days_in_month y m)) as [Hlt|Hge]; [rewrite !days_from_civil_closed by lia; lia|].
  assert (d = days_in_month y m) as -> by lia. destruct (Z.ltb_spec m 12).
  - rewrite !days_from_civil_closed by lia. destruct (decide (m = 2)) as [->|Hne].
    + pose proof (year_step (y - 1)) as Hs. replace (y - 1 + 1) with y in Hs by lia.
      change (march_days (2 + 1)) with 0. change (march_days 2) with 337. change (2 + 1 <=? 2) with false. change (2 <=? 2) with true.
      unfold years_days, days_in_month. change (2 =? 2) with true. cbv iota. destruct (leap_year y); lia.
    + rewrite (march_days_step y) by lia. destruct (Z.leb_spec m 2), (Z.leb_spec (m + 1) 2); lia.
  - assert (m = 12) as -> by lia. rewrite !days_from_civil_closed by lia.
    change (march_days 1) with 306. change (march_days 12) with 275. change (days_in_month y 12) with 31.
    change (1 <=? 2) with true. change (12 <=? 2) with false. cbv iota. replace (y + 1 - 1) with y by lia. lia.
Qed.
End Dates.

Lemma days_from_civil_counts_days_witness :
  days_from_civil 2024 2 29 = 19782 /\ days_from_civil 2024 3 1 = days_from_civil 2024 2 29 + 1.
Proof. split; [reflexivity|]. apply (days_from_civil_counts_days 2024 2 29). vm_decide. Defined.

(** ** Uptime text *)

Section Uptime.

Lemma take_unit_exact rest unit : 0 <= rest < 2 ^ 64 -> 0 < unit -> rest / unit < 2 ^ 32 ->
  take_unit rest unit = (rest / unit, rest mod unit).
Proof.
  intros Hr Hu Hq. unfold take_unit. assert (0 <= rest / unit) by (apply Z.div_pos; lia).
  rewrite (wrap_u_id 32) by (unfold in_u; lia).
  pose proof (Z.div_mod rest unit ltac:(lia)) as E. pose proof (Z.mod_pos_bound rest unit Hu) as M.
  rewrite wrap_u_id by (unfold in_u; nia). f_equal. lia.
Qed.

(** What is left after a larger unit is less than that unit. *)
Lemma take_unit_small rest unit bound : 0 <= rest < bound -> 0 < unit -> bound < 2 ^ 32 ->
  take_unit rest unit = (rest / unit, rest mod unit) /\ wrap_u 32 (rest / unit) = rest / unit.
Proof.
  intros Hr Hu Hb. assert (0 <= rest / unit <= rest) by (split; [apply Z.div_pos; lia | apply Z.div_le_upper_bound; nia]).
  split; [apply take_unit_exact; lia|]. apply wrap_u_id. unfold in_u. lia.
Qed.

(** The text of a duration over a week splits it into weeks, days, hours and minutes in range
    whose sum is the duration down to the minute. *)
Theorem itos_as_time_weeks (time : Z) (Ht : WEEK < time < 2 ^ 32 * WEEK) :
  exists w d h m,
    itos_as_time time unit_week =
      show w ++ str "w " ++ show d ++ str "d " ++ two_digits h ++ str ":" ++ two_digits m /\
    1 <= w /\ 0 <= d < 7 /\ 0 <= h < 24 /\ 0 <= m < 60 /\
    w * WEEK + d * DAY + h * HOUR + m * MINUTE <= time < w * WEEK + d * DAY + h * HOUR + m * MINUTE + MINUTE.
Proof.
  exists (time / WEEK), (time mod WEEK / DAY), ((time mod WEEK) mod DAY / HOUR), (((time mod WEEK) mod DAY) mod HOUR / MINUTE).
  split.
  - unfold itos_as_time. rewrite (proj2 (Z.gtb_lt time WEEK)) by lia. cbn [andb unit_rank Z.geb Z.compare].
    assert (time / WEEK < 2 ^ 32) by (apply Z.div_lt_upper_bound; unfold WEEK in *; lia).
    rewrite take_unit_exact; [| unfold WEEK in *; lia | unfold WEEK; lia | done].
    pose proof (Z.mod_pos_bound time WEEK ltac:(unfold WEEK; lia)).
    destruct (take_unit_small (time mod WEEK) DAY WEEK) as [-> _]; [done | unfold DAY; lia | unfold WEEK; lia |].
    pose proof (Z.mod_pos_bound (time mod WEEK) DAY ltac:(unfold DAY; lia)).
    destruct (take_unit_small ((time mod WEEK) mod DAY) HOUR DAY) as [-> _]; [done | unfold HOUR; lia | unfold DAY; lia |].
    pose proof (Z.mod_pos_bound ((time mod WEEK) mod DAY) HOUR ltac:(unfold HOUR; lia)).
    destruct (take_unit_small (((time mod WEEK) mod DAY) mod HOUR) MINUTE HOUR) as [_ ->]; [done | unfold MINUTE; lia | unfold HOUR; lia |].
    reflexivity.
  - unfold WEEK, DAY, HOUR, MINUTE in *. cbn [Z.mul Pos.mul] in *. Z.to_euclidean_division_equations. lia.
Qed.
End Uptime.

Lemma itos_as_time_weeks_witness : exists w d h m,
  itos_as_time 3783600000 unit_week = show w ++ str "w " ++ show d ++ str "d " ++ two_digits h ++ str ":" ++ two_digits m /\
  itos_as_time 3783600000 unit_week = str "6w 1d 19:00" /\ w * WEEK + d * DAY + h * HOUR + m * MINUTE <= 3783600000.
Proof.
  destruct (itos_as_time_weeks 3783600000) as (w & d & h & m & E & _ & _ & _ & _ & B & _); [unfold WEEK; lia|].
  exists w, d, h, m. split_and!; [exact E | vm_compute; reflexivity | exact B].
Defined.

(** ** WMI timestamps *)

(** A WMI timestamp with valid fields is the epoch second of its local time less its signed
    offset in minutes. *)
Theorem parse_cim_datetime_correct (date frac off : cppstring) (sign : ascii) (tail : cppstring)
    (Hd : length date = 14%nat /\ forallb isdigit date = true)
    (Hf : length frac = 6%nat /\ forallb isdigit frac = true)
    (Ho : length off = 3%nat /\ forallb isdigit off = true)
    (Hs : sign = "+"%char \/ sign = "-"%char)
    (Hr : 1980 <= num date 0 4 /\ 1 <= num date 4 2 <= 12 /\ 1 <= num date 6 2 <= 31 /\
          num date 8 2 <= 23 /\ num date 10 2 <= 59 /\ num date 12 2 <= 60) :
  parse_cim_datetime (date ++ "."%char :: frac ++ sign :: off ++ tail) =
    days_from_civil (num date 0 4) (num date 4 2) (num date 6 2) * 86400 +
    num date 8 2 * 3600 + num date 10 2 * 60 + num date 12 2 -
    (if bool_decide (sign = "-"%char) then - decimal off else decimal off) * 60.
Proof.
  destruct Hd as [Ld Dd], Hf as [Lf Df], Ho as [Lo Do].
  assert (Hnum : forall t a n, (a + n <= 14)%nat -> num (date ++ t) a n = num date a n).
  { intros t a n Hn. unfold num, substr. rewrite drop_app_le, take_app_le by (rewrite ?length_drop; lia). done. }
  assert (Hdig : forall t, has_digits (date ++ t) 0 14 = true).
  { intros t. unfold has_digits, substr. rewrite drop_0, <- Ld, take_app_length, Dd, length_app. cbn [Nat.add].
    rewrite (proj2 (Nat.leb_le _ _)) by lia. done. }
  assert (Hdot : "."%char ∉ date).
  { intros Hin. rewrite forallb_forall in Dd. apply list_elem_of_In, Dd in Hin. discriminate. }
  unfold parse_cim_datetime. rewrite Hdig. cbn [negb]. rewrite !Hnum by lia. cbv zeta.
  set (y := num date 0 4) in *. set (mo := num date 4 2) in *. set (d := num date 6 2) in *.
  set (h := num date 8 2) in *. set (mi := num date 10 2) in *. set (sec := num date 12 2) in *.
  replace ((y <? 1980) || (mo <? 1) || (mo >? 12) || (d <? 1) || (d >? 31) || (h >? 23) || (mi >? 59) || (sec >? 60)) with false
    by (symmetry; rewrite !Z.gtb_ltb; repeat (apply orb_false_iff; split); apply Z.ltb_ge; lia).
  change (str ".") with ["."%char]. rewrite (find_char_first date "."%char (frac ++ sign :: off ++ tail) Hdot), Ld.
  replace (date ++ "."%char :: frac ++ sign :: off ++ tail) with ((date ++ "."%char :: frac) ++ sign :: off ++ tail)
    by (rewrite <- app_assoc; done).
  assert (Hl : length (date ++ "."%char :: frac) = 21%nat) by (rewrite length_app; cbn; lia).
  change (14 + 7)%nat with 21%nat. change (14 + 8)%nat with 22%nat.
  rewrite lookup_app_r, Hl by lia. cbn [Nat.sub lookup list_lookup].
  replace (bool_decide (sign = "+"%char) || bool_decide (sign = "-"%char)) with true by (destruct Hs as [-> | ->]; reflexivity).
  assert (Hoff : substr ((date ++ "."%char :: frac) ++ sign :: off ++ tail) 22 3 = off).
  { unfold substr. rewrite drop_app_ge, Hl by lia. cbn [Nat.sub drop]. by apply take_app_length'. }
  unfold has_digits. unfold num. rewrite Hoff, Do, andb_true_r. rewrite (proj2 (Nat.leb_le _ _)); [reflexivity|].
  rewrite length_app, Hl. cbn [length]. rewrite length_app, Lo. lia.
Qed.

Lemma parse_cim_datetime_correct_witness : parse_cim_datetime (str "20240229120000.000000+060") = 1709204400.
Proof.
  change (str "20240229120000.000000+060") with (str "20240229120000" ++ "."%char :: str "000000" ++ "+"%char :: str "060" ++ []).
  rewrite parse_cim_datetime_correct; [reflexivity | by split | by split | by split | by left | vm_decide].
Defined.
