(* ===== verification/NumberText.v ===== *)
(** Numbers as text: [strtod] of the C library, read on decimal text, and
    include/str/number_format.hpp.

    [strtod] gives the double nearest to the number its text spells (ties to even).  Of its
    subject sequences only the decimal ones are modelled: every caller has held its text to a
    decimal grammar before. *)

From stdpp Require Import base list strings pretty.
From Stdlib Require Import Ascii ZArith Lia SpecFloat.
From Stdlib Require String.
From S2P Require Import Prelude Strings Format.
Import String.StringSyntax.

Local Open Scope Z_scope.

(** ** Scanning *)

(** The longest prefix of characters of a class, and what follows it. *)
Fixpoint span (p : ascii -> bool) (s : cppstring) : cppstring * cppstring :=
  match s with
  | c :: s' => if p c then let '(a, b) := span p s' in (c :: a, b) else ([], s)
  | [] => ([], [])
  end.

Lemma span_app p s : let '(a, b) := span p s in s = a ++ b.
Proof. induction s as [|c s IH]; simpl; [done|]. destruct (p c); [|done]. destruct (span p s). by subst. Qed.
Lemma span_all p s : Forall (fun c => p c = true) (span p s).1.
Proof. induction s as [|c s IH]; simpl; [constructor|]. destruct (p c) eqn:E; [|constructor]. destruct (span p s). by constructor. Qed.
Lemma span_stop p s c r : (span p s).2 = c :: r -> p c = false.
Proof. induction s as [|d s IH]; simpl; [done|]. destruct (p d) eqn:E; [destruct (span p s); auto|]. by intros [= -> ->]. Qed.

(** A prefix in the class that is followed by a character outside it, or by nothing. *)
Lemma span_exact p a b : Forall (fun c => p c = true) a -> (forall c r, b = c :: r -> p c = false) -> span p (a ++ b) = (a, b).
Proof.
  intros Ha Hb. induction Ha as [|c a Hc Ha IH]; simpl.
  - destruct b as [|c r]; [done|]. simpl. by rewrite (Hb c r eq_refl).
  - by rewrite Hc, IH.
Qed.

(** ** strtod *)

Definition is_sign (c : ascii) : bool := bool_decide (c = "+"%char) || bool_decide (c = "-"%char).
Definition skip_sign (s : cppstring) : cppstring := match s with c :: s' => if is_sign c then s' else s | [] => [] end.
Definition negative (s : cppstring) : bool := match s with c :: _ => bool_decide (c = "-"%char) | [] => false end.

(** The double nearest to [digits * 10 ^ exponent]. *)
Definition decimal_double (neg : bool) (digits exponent : Z) : double :=
  match digits * 10 ^ Z.max exponent 0, 10 ^ Z.max (- exponent) 0 with
  | Zpos m, Zpos d => SFdiv 53 1024 (S754_finite neg m 0) (S754_finite false d 0)
  | _, _ => S754_zero neg
  end.

(** An exponent part counts only when it has a digit. *)
Definition read_exponent (s : cppstring) : Z * cppstring :=
  match s with
  | c :: s' =>
      if bool_decide (c = "e"%char) || bool_decide (c = "E"%char) then
        let '(ds, rest) := span isdigit (skip_sign s') in
        match ds with
        | [] => (0, s)
        | _ => (if negative s' then - decimal ds else decimal ds, rest)
        end
      else (0, s)
  | [] => (0, [])
  end.

Definition read_fraction (s : cppstring) : cppstring * cppstring :=
  match s with c :: s' => if bool_decide (c = "."%char) then span isdigit s' else ([], s) | [] => ([], []) end.

(** The value and where reading stopped; text that spells no number stops where it begins. *)
Definition strtod (text : cppstring) : double * cppstring :=
  let '(whole, r1) := span isdigit (skip_sign text) in
  let '(frac, r2) := read_fraction r1 in
  match whole ++ frac with
  | [] => (S754_zero false, text)
  | ds => let '(e, rest) := read_exponent r2 in
          (decimal_double (negative text) (decimal ds) (e - zlength frac), rest)
  end.

Definition isfinite (v : double) : bool := match v with S754_zero _ | S754_finite _ _ _ => true | _ => false end.

Example strtod_examples :
  map strtod [str "42"; str "-0.5"; str "1e3x"; str "1e400"; str "."] =
  [(to_double 42, []); (d_div (to_double (-1)) (to_double 2), []); (to_double 1000, str "x"); (S754_infinity false, []); (S754_zero false, str ".")].
Proof. vm_compute. reflexivity. Qed.

(** ** Rendering *)

(** [std::fixed << std::setprecision(k)] of the fraction [n / d] *)
Definition pad_zeros (width : nat) (s : cppstring) : cppstring := replicate (width - length s) "0"%char ++ s.
Definition fixed_text (k : Z) (n d : Z) : cppstring :=
  let q := div_half_even (n * 10 ^ k) d in
  if k =? 0 then show q else show (q / 10 ^ k) ++ str "." ++ pad_zeros (Z.to_nat k) (show (q mod 10 ^ k)).
Definition double_fixed (k : Z) (v : double) : cppstring :=
  match v with
  | S754_nan => str "nan"
  | S754_infinity s => if s then str "-inf" else str "inf"
  | S754_zero s => (if s then str "-" else []) ++ fixed_text k 0 1
  | S754_finite s m e =>
      (if s then str "-" else []) ++ (if e >=? 0 then fixed_text k (Zpos m * 2 ^ e) 1 else fixed_text k (Zpos m) (2 ^ (- e)))
  end.

Definition max_decimals : Z := 15.
Definition render_fixed (value : double) (decimals : Z) : cppstring :=
  let precision := if decimals <? 0 then 3 else if decimals >? max_decimals then max_decimals else decimals in
  let ret := double_fixed precision value in
  if decimals >=? 0 then ret
  else match rev (strip_zeros ret) with
  | [] => ret
  | c :: before =>
      if negb (bool_decide (c = "."%char)) then rev (c :: before)
      else match before with [] => str "0" | _ => rev before end
  end.

Record number_format := mkFormat { decimals : Z; byte_unit : cppstring; decimal_separator : cppstring; thousands_separator : cppstring }.
Definition is_default (fmt : number_format) : bool :=
  (decimals fmt =? -1) && bool_decide (byte_unit fmt = []) && bool_decide (decimal_separator fmt = str ".") && bool_decide (thousands_separator fmt = []).

(** The separator goes in before every third digit from the end of the integer part. *)
Fixpoint group_digits (fuel : nat) (sep : cppstring) (first_digit i : nat) (int_part : cppstring) : cppstring :=
  match fuel with
  | O => int_part
  | S fuel =>
      if Nat.ltb (first_digit + 3) i
      then group_digits fuel sep first_digit (i - 3) (take (i - 3) int_part ++ sep ++ drop (i - 3) int_part)
      else int_part
  end.

Definition apply_separators (plain : cppstring) (fmt : number_format) : cppstring :=
  if bool_decide (decimal_separator fmt = str ".") && bool_decide (thousands_separator fmt = []) then plain
  else
    let '(int_part, fraction) := match find plain (str ".") 0 with
                                 | Some dot => (take dot plain, drop (S dot) plain)
                                 | None => (plain, [])
                                 end in
    let grouped := match thousands_separator fmt with
                   | [] => int_part
                   | sep => let first_digit := match int_part with c :: _ => if is_sign c then 1%nat else 0%nat | [] => 0%nat end in
                            group_digits (length int_part) sep first_digit (length int_part) int_part
                   end in
    match fraction with
    | [] => grouped
    | _ => grouped ++ (match decimal_separator fmt with [] => str "." | s => s end) ++ fraction
    end.
Definition render_number (value : double) (fmt : number_format) : cppstring := apply_separators (render_fixed value (decimals fmt)) fmt.

(** [back >> parsed]: the stream fails where no number begins and where it overflows. *)
Definition read_back (candidate : cppstring) : option double :=
  let '(v, rest) := strtod candidate in
  if bool_decide (rest = candidate) then None else if isfinite v then Some v else None.

Definition reads_as (candidate : cppstring) (value : double) : bool :=
  match read_back candidate with Some parsed => d_eq parsed value | None => false end.

Definition render_shortest (value : double) : cppstring :=
  if negb (isfinite value) then double_text 6 value
  else if fits_int64 value && d_eq (to_double (d_trunc value)) value then show (d_trunc value)
  else if reads_as (double_text 15 value) value then double_text 15 value
  else if reads_as (double_text 16 value) value then double_text 16 value
  else double_text 17 value.

Definition european : number_format := mkFormat 2 [] (str ",") (str ".").
Example render_examples :
  [render_fixed (to_double 1) (-1); render_fixed (d_div (to_double 70874) (to_double 1000)) (-1);
   render_number (d_div (to_double 123456789) (to_double 100)) european; render_number (to_double (-1000)) european;
   render_shortest (d_div (to_double 1) (to_double 10)); render_shortest (to_double 12592123904);
   render_shortest (d_div (to_double 1) (to_double 3)); render_shortest d_max] =
  [str "1"; str "70.874"; str "1.234.567,89"; str "-1.000,00"; str "0.1"; str "12592123904"; str "0.3333333333333333";
   str "1.7976931348623157e+308"].
Proof. vm_compute. reflexivity. Qed.
