(* ===== verification/NumberRoundtrip.v ===== *)
(** Seventeen significant digits identify a double: what [render_shortest] writes is read back
    as the number it was written from.

    The first part is about the rounding of [strtod] (a division of integers, rounded to
    binary64), the second about the digits of the text, the third puts them together. *)

From stdpp Require Import base list strings pretty.
From Stdlib Require Import Ascii ZArith Lia SpecFloat.
From Stdlib Require String.
From S2P Require Import Prelude Strings Format NumberText.
Import String.StringSyntax.

Local Open Scope Z_scope.

(** ** Rounding *)

(** The record is the integer part of [a / b], and its bits say where the rest lies: at zero,
    below a half, at a half, above. *)
Definition denotes (mrs : shr_record) (a b : Z) : Prop :=
  0 <= a /\ 0 < b /\ shr_m mrs = a / b /\ shr_r mrs = (b <=? 2 * (a mod b)) /\
  shr_s mrs = negb ((a mod b =? 0) || (2 * (a mod b) =? b)).

Lemma div_mod_double a b : 0 <= a -> 0 < b ->
  a / (2 * b) = a / b / 2 /\ a mod (2 * b) = b * ((a / b) mod 2) + a mod b.
Proof.
  intros Ha Hb. rewrite (Z.mul_comm 2 b). rewrite <-Z.div_div by lia. split; [done|].
  rewrite Z.rem_mul_r by lia. lia.
Qed.

Lemma shr_1_spec m r s : 0 <= m -> shr_1 (Build_shr_record m r s) = Build_shr_record (m / 2) (Z.odd m) (r || s).
Proof.
  intros Hm. destruct m as [|[p|p|]|p]; try done; try lia; cbn [shr_1 Z.odd]; f_equal.
  - rewrite (Pos2Z.inj_xI p). apply Z.div_unique with 1; lia.
  - rewrite (Pos2Z.inj_xO p). symmetry. rewrite Z.mul_comm. apply Z.div_mul. lia.
Qed.

Lemma denotes_shr_1 mrs a b : denotes mrs a b -> denotes (shr_1 mrs) a (2 * b).
Proof.
  destruct mrs as [m r s]. intros (Ha & Hb & Hm & Hr & Hs). cbn [shr_m shr_r shr_s] in *. subst m r s.
  assert (0 <= a / b) by (apply Z.div_pos; lia). rewrite shr_1_spec by done. destruct (div_mod_double a b Ha Hb) as [E1 E2].
  pose proof (Z.mod_pos_bound a b Hb). unfold denotes. cbn [shr_m shr_r shr_s]. rewrite E1, E2. split_and!; [done|lia|done| |].
  - rewrite Zodd_mod. destruct (Z.mod_pos_bound (a / b) 2 ltac:(lia)). assert ((a / b) mod 2 = 0 \/ (a / b) mod 2 = 1) as [->| ->] by lia; simpl.
    + symmetry. apply Z.leb_gt. lia.
    + symmetry. apply Z.leb_le. lia.
  - destruct (Z.mod_pos_bound (a / b) 2 ltac:(lia)). assert ((a / b) mod 2 = 0 \/ (a / b) mod 2 = 1) as [->| ->] by lia.
    + destruct (Z.leb_spec b (2 * (a mod b))), (Z.eqb_spec (a mod b) 0), (Z.eqb_spec (2 * (a mod b)) b),
        (Z.eqb_spec (b * 0 + a mod b) 0), (Z.eqb_spec (2 * (b * 0 + a mod b)) (2 * b)); simpl; lia.
    + destruct (Z.leb_spec b (2 * (a mod b))), (Z.eqb_spec (a mod b) 0), (Z.eqb_spec (2 * (a mod b)) b),
        (Z.eqb_spec (b * 1 + a mod b) 0), (Z.eqb_spec (2 * (b * 1 + a mod b)) (2 * b)); simpl; lia.
Qed.

Lemma denotes_iter p : forall mrs a b, denotes mrs a b -> denotes (iter_pos shr_1 p mrs) a (b * 2 ^ Zpos p).
Proof.
  induction p as [p IH|p IH|]; intros mrs a b H; cbn [iter_pos].
  - apply denotes_shr_1 in H. apply IH, IH in H. replace (b * 2 ^ Z.pos p~1) with (2 * b * 2 ^ Zpos p * 2 ^ Zpos p); [done|].
    rewrite (Pos2Z.inj_xI p), Z.pow_add_r, Z.pow_1_r by lia. rewrite (Z.mul_comm 2 (Zpos p)), Z.pow_mul_r by lia. lia.
  - apply IH, IH in H. replace (b * 2 ^ Z.pos p~0) with (b * 2 ^ Zpos p * 2 ^ Zpos p); [done|].
    rewrite (Pos2Z.inj_xO p), (Z.mul_comm 2 (Zpos p)), Z.pow_mul_r by lia. lia.
  - apply denotes_shr_1 in H. replace (b * 2 ^ 1) with (2 * b) by lia. done.
Qed.

Lemma denotes_shr mrs a b e k : denotes mrs a b -> denotes (shr mrs e k).1 a (b * 2 ^ Z.max k 0) /\ (shr mrs e k).2 = e + Z.max k 0.
Proof.
  intros H. unfold shr. destruct k as [|p|p].
  - rewrite Z.max_id, Z.pow_0_r, Z.mul_1_r, Z.add_0_r. done.
  - rewrite Z.max_l by lia. split; [by apply denotes_iter|done].
  - rewrite Z.max_r, Z.pow_0_r, Z.mul_1_r, Z.add_0_r by lia. done.
Qed.

(** Rounding to the nearest integer finds an integer that is closer than a half. *)
Lemma denotes_round mrs a b m : denotes mrs a b -> 2 * Z.abs (a - m * b) < b -> round_nearest_even (shr_m mrs) (loc_of_shr_record mrs) = m.
Proof.
  destruct mrs as [q r s]. intros (Ha & Hb & Hm & Hr & Hs) C. cbn [shr_m shr_r shr_s] in *.
  pose proof (Z.div_mod a b ltac:(lia)) as E. pose proof (Z.mod_pos_bound a b Hb) as Rb. rewrite <-Hm in E.
  assert (q = m /\ 2 * (a mod b) < b \/ q + 1 = m /\ b < 2 * (a mod b)) as K.
  { assert (q = m \/ q = m - 1) as [->| ->] by nia; [left|right]; nia. }
  destruct K as [[-> K]|[<- K]].
  - rewrite (proj2 (Z.leb_gt b (2 * (a mod b)))) in Hr by lia. subst r. by destruct s.
  - rewrite (proj2 (Z.leb_le b (2 * (a mod b)))) in Hr by lia. subst r.
    destruct (Z.eqb_spec (a mod b) 0), (Z.eqb_spec (2 * (a mod b)) b); simpl in Hs; subst s; try lia; done.
Qed.

(** The remainder of a division, as the record that rounds it. *)
Lemma new_location_eq b k : new_location b k =
  if k =? 0 then loc_Exact
  else loc_Inexact (if Z.even b then 2 * k ?= b else match 2 * k + 1 ?= b with Gt => Gt | _ => Lt end).
Proof. unfold new_location, new_location_even, new_location_odd. by destruct (Z.even b), k. Qed.

Lemma denotes_division a b : 0 <= a -> 0 < b -> denotes (shr_record_of_loc (a / b) (new_location b (a mod b))) a b.
Proof.
  intros Ha Hb. pose proof (Z.mod_pos_bound a b Hb). rewrite new_location_eq. unfold denotes.
  assert (Z.even b = true \/ 2 * (a mod b) <> b) as Odd.
  { destruct (Z.even b) eqn:Ev; [by left|right]. intros E. rewrite <-E in Ev. by rewrite Z.even_mul in Ev. }
  split; [done|]. split; [done|]. destruct (Z.eqb_spec (a mod b) 0) as [Ez|Nz].
  { rewrite Ez. split; [done|]. split; [|done]. symmetry. apply Z.leb_gt. lia. }
  destruct (Z.even b).
  - destruct (Z.compare_spec (2 * (a mod b)) b) as [E|E|E]; cbn [shr_record_of_loc shr_m shr_r shr_s].
    all: split; [done|]. all: destruct (Z.leb_spec b (2 * (a mod b))), (Z.eqb_spec (2 * (a mod b)) b); simpl; auto; lia.
  - assert (2 * (a mod b) <> b) as Nb by (by destruct Odd).
    destruct (Z.compare_spec (2 * (a mod b) + 1) b) as [E|E|E]; cbn [shr_record_of_loc shr_m shr_r shr_s].
    all: split; [done|]. all: destruct (Z.leb_spec b (2 * (a mod b))), (Z.eqb_spec (2 * (a mod b)) b); simpl; auto; lia.
Qed.

(** ** Digits *)

Lemma digits_bounds p : 2 ^ (Zdigits2 (Zpos p) - 1) <= Zpos p < 2 ^ Zdigits2 (Zpos p).
Proof.
  cbn [Zdigits2]. induction p as [p IH|p IH|]; cbn [digits2_pos]; [..|done].
  - rewrite Pos2Z.inj_succ. replace (Z.succ (Zpos (digits2_pos p)) - 1) with (Z.succ (Zpos (digits2_pos p) - 1)) by lia.
    rewrite !Z.pow_succ_r by lia. lia.
  - rewrite Pos2Z.inj_succ. replace (Z.succ (Zpos (digits2_pos p)) - 1) with (Z.succ (Zpos (digits2_pos p) - 1)) by lia.
    rewrite !Z.pow_succ_r by lia. lia.
Qed.
Lemma digits_le z k : 0 <= k -> 0 <= z < 2 ^ k -> Zdigits2 z <= k.
Proof.
  intros Hk Hz. destruct z as [|p|p]; [done| |lia]. pose proof (digits_bounds p). destruct (Z.le_gt_cases (Zdigits2 (Zpos p)) k); [done|].
  assert (2 ^ k <= 2 ^ (Zdigits2 (Zpos p) - 1)) by (apply Z.pow_le_mono_r; lia). lia.
Qed.
Lemma digits_gt z k : 0 <= k -> 2 ^ k <= z -> k < Zdigits2 z.
Proof.
  intros Hk Hz. assert (0 < 2 ^ k) by (by apply Z.pow_pos_nonneg). destruct z as [|p|p]; [lia| |lia].
  pose proof (digits_bounds p). destruct (Z.le_gt_cases (Zdigits2 (Zpos p)) k); [|done].
  assert (2 ^ Zdigits2 (Zpos p) <= 2 ^ k) by (apply Z.pow_le_mono_r; lia). lia.
Qed.
Lemma digits_nonneg z : 0 <= Zdigits2 z.
Proof. by destruct z. Qed.

(** ** Division *)

(** The mantissa and exponent of a double, as the fraction they stand for. *)
Definition v_num (m : positive) (e : Z) : Z := Zpos m * 2 ^ Z.max e 0.
Definition v_den (e : Z) : Z := 2 ^ Z.max (- e) 0.

(** [n / d] is within one part in [2 * 10^16] of the double. *)
Definition near (n d : Z) (m : positive) (e : Z) : Prop :=
  2 * 10 ^ 16 * Z.abs (n * v_den e - v_num m e * d) <= v_num m e * d.

Lemma bounded_cases m e : bounded 53 1024 m e = true ->
  -1074 <= e <= 971 /\ Zpos m < 2 ^ 53 /\ (2 ^ 52 <= Zpos m \/ e = -1074) /\ fexp 53 1024 (Zdigits2 (Zpos m) + e) = e.
Proof.
  unfold bounded, canonical_mantissa. rewrite andb_true_iff. intros [Hc He]. apply Z.leb_le in He.
  assert (fexp 53 1024 (Zdigits2 (Zpos m) + e) = e) as F by (by apply Z.eqb_eq in Hc). clear Hc.
  pose proof (digits_bounds m) as [B1 B2]. pose proof F as F'. unfold fexp, emin in F'.
  assert (Zdigits2 (Zpos m) <= 53) by lia. assert (2 ^ Zdigits2 (Zpos m) <= 2 ^ 53) by (apply Z.pow_le_mono_r; lia).
  split_and!; try lia. destruct (decide (Zdigits2 (Zpos m) = 53)) as [E|N]; [|right; lia]. left. rewrite E in B1. done.
Qed.

Section quotient.
Context (n d m : positive) (e : Z).
Hypothesis Hm : bounded 53 1024 m e = true.
Hypothesis Hn : near (Zpos n) (Zpos d) m e.

Let e' := Z.min (fexp 53 1024 (Zdigits2 (Zpos n) - Zdigits2 (Zpos d))) 0.
Let A := Zpos n * 2 ^ (- e').
Let q := A / Zpos d.
Let E := fexp 53 1024 (Zdigits2 q + e').

Lemma core_division : SFdiv_core_binary 53 1024 (Zpos n) 0 (Zpos d) 0 = (q, e', new_location (Zpos d) (A mod Zpos d)).
Proof using.
    unfold SFdiv_core_binary. rewrite !Z.add_0_r, Z.sub_diag. fold e'.
    assert (0 - e' = - e') as -> by lia. assert (0 <= - e') by lia.
    assert (match - e' with 0 => Zpos n | Zpos _ => Z.shiftl (Zpos n) (- e') | Zneg _ => 0 end = A) as ->.
    { unfold A. destruct (- e') eqn:Q; [by rewrite Z.pow_0_r, Z.mul_1_r|by rewrite Z.shiftl_mul_pow2|lia]. }
    unfold q. rewrite (surjective_pairing (Z.div_eucl A (Zpos d))). done.
Qed.

  (** The first guess at the exponent is not above the one that is used. *)
Lemma guess_below : e' <= E.
Proof using.
    unfold E. destruct (Z.le_gt_cases e' (-1074)) as [L|G]; [unfold fexp, emin; lia|].
    pose proof (digits_bounds n) as [N1 _]. pose proof (digits_bounds d) as [_ D2]. unfold e' in G. unfold fexp, emin in G.
    set (d1 := Zdigits2 (Zpos n)) in *. set (d2 := Zdigits2 (Zpos d)) in *. assert (e' <= d1 - d2 - 53) as L by (unfold e', fexp, emin; lia).
    assert (d1 - 1 - d2 - e' < Zdigits2 q); [|unfold fexp, emin; lia].
    assert (0 < d2) by (unfold d2; cbn; lia). assert (0 < d1) by (unfold d1; cbn; lia).
    apply digits_gt; [lia|]. unfold q. apply Z.div_le_lower_bound; [lia|]. unfold A.
    assert (2 ^ d2 * 2 ^ (d1 - 1 - d2 - e') = 2 ^ (d1 - 1) * 2 ^ (- e')) as K by (rewrite <-!Z.pow_add_r by lia; f_equal; lia).
    assert (0 < 2 ^ (d1 - 1 - d2 - e')) by (apply Z.pow_pos_nonneg; lia). assert (0 < 2 ^ (- e')) by (apply Z.pow_pos_nonneg; lia). nia.
Qed.

Lemma near_below : Zpos n * v_den e < 2 ^ 53 * 2 ^ Z.max e 0 * Zpos d.
Proof using Hm Hn.
    destruct (bounded_cases m e Hm) as (_ & H53 & _ & _). unfold near, v_num in Hn. assert (0 < 2 ^ Z.max e 0) by (apply Z.pow_pos_nonneg; lia).
    set (u := 2 ^ Z.max e 0 * Zpos d). assert (0 < u) by (unfold u; lia). replace (Zpos m * 2 ^ Z.max e 0 * Zpos d) with (Zpos m * u) in Hn by (unfold u; lia).
    replace (2 ^ 53 * 2 ^ Z.max e 0 * Zpos d) with (2 ^ 53 * u) by (unfold u; lia).
    assert (Zpos m * u <= (2 ^ 53 - 1) * u) by (apply Z.mul_le_mono_nonneg_r; lia). lia.
Qed.

Lemma guess_small : e' <= e.
Proof using Hm Hn.
    pose proof near_below as L. unfold v_den in L. pose proof (digits_bounds n) as [N1 _]. pose proof (digits_bounds d) as [_ D2].
    set (d1 := Zdigits2 (Zpos n)) in *. set (d2 := Zdigits2 (Zpos d)) in *. assert (0 < d2) by (unfold d2; cbn; lia). assert (0 < d1) by (unfold d1; cbn; lia).
    assert (0 < 2 ^ Z.max (- e) 0) by (apply Z.pow_pos_nonneg; lia). assert (0 < 2 ^ Z.max e 0) by (apply Z.pow_pos_nonneg; lia).
    assert (2 ^ (d1 - 1) * 2 ^ Z.max (- e) 0 < 2 ^ 53 * 2 ^ Z.max e 0 * 2 ^ d2) as K by nia. rewrite <-!Z.pow_add_r in K by lia.
    apply Z.pow_lt_mono_r_iff in K; [|lia..]. destruct (bounded_cases m e Hm) as (? & _). unfold e', fexp, emin. fold d1 d2. lia.
Qed.

  (** What is divided, in units of the last place of the double. *)
Let U := Zpos d * 2 ^ (e - e').
Lemma near_scaled : 2 * 10 ^ 16 * Z.abs (A - Zpos m * U) <= Zpos m * U.
Proof using Hm Hn.
    pose proof guess_small. assert (e' <= 0) by (unfold e'; lia). unfold near, v_num, v_den in Hn. set (t := - e' - Z.max (- e) 0).
    assert (0 < 2 ^ t) by (apply Z.pow_pos_nonneg; lia).
    assert (A = Zpos n * 2 ^ Z.max (- e) 0 * 2 ^ t) as ->. { unfold A. rewrite <-Z.mul_assoc, <-Z.pow_add_r by lia. do 2 f_equal. lia. }
    assert (Zpos m * U = Zpos m * 2 ^ Z.max e 0 * Zpos d * 2 ^ t) as ->.
    { unfold U. replace (e - e') with (Z.max e 0 + t) by lia. rewrite Z.pow_add_r by lia. lia. }
    rewrite <-Z.mul_sub_distr_r, Z.abs_mul, (Z.abs_eq (2 ^ t)) by lia. rewrite !Z.mul_assoc. apply Z.mul_le_mono_nonneg_r; [lia|done].
Qed.

Lemma scale_pos : 0 < U /\ 0 < 2 ^ (e - e') /\ 0 <= A.
Proof using Hm Hn.
    pose proof guess_small. assert (e' <= 0) by (unfold e'; lia). assert (0 < 2 ^ (e - e')) by (apply Z.pow_pos_nonneg; lia).
    assert (0 < 2 ^ (- e')) by (apply Z.pow_pos_nonneg; lia). unfold U, A. lia.
Qed.
Lemma quotient_below k : 0 <= k -> A < 2 ^ k * U -> Zdigits2 q <= k + (e - e').
Proof using Hm Hn.
    intros Hk H. pose proof guess_small. destruct scale_pos as (_ & _ & HA). apply digits_le; [lia|].
    unfold q. split; [apply Z.div_pos; lia|]. apply Z.div_lt_upper_bound; [lia|]. unfold U in H. rewrite Z.pow_add_r by lia. lia.
Qed.
Lemma quotient_above k : 0 <= k -> 2 ^ k * U <= A -> k + (e - e') < Zdigits2 q.
Proof using Hm Hn.
    intros Hk H. pose proof guess_small. apply digits_gt; [lia|]. unfold q. apply Z.div_le_lower_bound; [lia|].
    unfold U in H. rewrite Z.pow_add_r by lia. lia.
Qed.

  (** The exponent of the quotient is that of the double, or the one below it at the least
      mantissa. *)
Lemma exponent_cases : E = e \/ E = e - 1 /\ Zpos m = 2 ^ 52.
Proof using Hm Hn.
    pose proof near_scaled as N. destruct scale_pos as (HU & _ & HA). destruct (bounded_cases m e Hm) as (He & H53 & Hmin & _).
    assert (Zpos m * U <= (2 ^ 53 - 1) * U) by (apply Z.mul_le_mono_nonneg_r; lia).
    assert (Zdigits2 q <= 53 + (e - e')) by (apply quotient_below; lia). assert (E <= e) by (unfold E, fexp, emin; lia).
    assert (-1074 <= E) by (unfold E, fexp, emin; lia). destruct Hmin as [Hmin|Hmin]; [|left; lia].
    destruct (decide (Zpos m = 2 ^ 52)) as [Em|Nm].
    - rewrite Em in N. assert (51 + (e - e') < Zdigits2 q) by (apply quotient_above; lia).
      destruct (decide (E = e)); [by left|right]. split; [|done]. unfold E, fexp, emin in *. lia.
    - left. assert ((2 ^ 52 + 1) * U <= Zpos m * U) by (apply Z.mul_le_mono_nonneg_r; lia).
      assert (52 + (e - e') < Zdigits2 q) by (apply quotient_above; lia). unfold E, fexp, emin in *. lia.
Qed.

Lemma shr_none mant ex : fexp 53 1024 (Zdigits2 mant + ex) = ex -> shr_fexp 53 1024 mant ex loc_Exact = (Build_shr_record mant false false, ex).
Proof using. intros F. unfold shr_fexp. rewrite F, Z.sub_diag. done. Qed.

  (** A quotient near the double is rounded to it. *)
Lemma division_rounds s : SFdiv 53 1024 (S754_finite s n 0) (S754_finite false d 0) = S754_finite s m e.
Proof using Hm Hn.
    cbn [SFdiv]. rewrite core_division, xorb_false_r. unfold binary_round_aux.
    assert (0 <= A) as HA by apply scale_pos. unfold shr_fexp at 1. fold E.
    destruct (denotes_shr _ _ _ e' (E - e') (denotes_division A (Zpos d) HA ltac:(lia))) as [Dn Ex]. fold q in Dn, Ex.
    destruct (shr _ e' (E - e')) as [mrs ex]. cbn [fst snd] in Dn, Ex. subst ex. pose proof guess_below. fold E e' q A in H.
    rewrite Z.max_l in * by lia. replace (e' + (E - e')) with E by lia.
    pose proof near_scaled as N. destruct scale_pos as (HU & _ & _). destruct (bounded_cases m e Hm) as (He & H53 & _ & F).
    assert (Zpos m * U <= (2 ^ 53 - 1) * U) by (apply Z.mul_le_mono_nonneg_r; lia).
    destruct exponent_cases as [EE|[EE Em]]; fold E in EE; rewrite EE in *.
    - rewrite (denotes_round mrs A U (Zpos m)); [|done|lia]. rewrite shr_none by done. cbn [shr_m].
      by rewrite (proj2 (Z.leb_le e (1024 - 53))) by lia.
    - assert (U = Zpos d * 2 ^ (e - 1 - e') * 2) as EU.
      { unfold U. replace (e - e') with (Z.succ (e - 1 - e')) by lia. rewrite Z.pow_succ_r by lia. lia. }
      rewrite (denotes_round mrs A _ (2 ^ 53) Dn); [|rewrite Em in N; lia].
      unfold shr_fexp. replace (fexp 53 1024 (Zdigits2 (2 ^ 53) + (e - 1)) - (e - 1)) with 1 by (change (Zdigits2 (2 ^ 53)) with 54; unfold fexp, emin; lia).
      cbn [shr]. replace (e - 1 + 1) with e by lia. rewrite (proj2 (Z.leb_le e (1024 - 53))) by lia.
      change (shr_m (iter_pos shr_1 1 (shr_record_of_loc (2 ^ 53) loc_Exact))) with (2 ^ 52). rewrite <-Em. done.
Qed.
End quotient.

(** A quotient that is not large does not overflow. *)
Lemma round_step q l : round_nearest_even q l = q \/ round_nearest_even q l = q + 1.
Proof. unfold round_nearest_even. destruct l as [|[]]; try destruct (Z.even q); auto. Qed.

Lemma shr_m_nonneg r e : 0 <= r -> forall k, 0 <= shr_m (shr (shr_record_of_loc r loc_Exact) e k).1.
Proof.
  intros Hr k. assert (denotes (shr_record_of_loc r loc_Exact) r 1) as Dn.
  { unfold denotes. cbn [shr_record_of_loc shr_m shr_r shr_s]. rewrite Z.div_1_r, Z.mod_1_r. done. }
  destruct (denotes_shr _ _ _ e k Dn) as [(_ & Hb & -> & _) _]. apply Z.div_pos; lia.
Qed.

Lemma quotient_finite s n d : Zpos n < Zpos d * 2 ^ 1000 -> isfinite (SFdiv 53 1024 (S754_finite s n 0) (S754_finite false d 0)) = true.
Proof.
  intros Hb. cbn [SFdiv]. rewrite core_division. unfold binary_round_aux.
  set (e' := Z.min (fexp 53 1024 (Zdigits2 (Zpos n) - Zdigits2 (Zpos d))) 0). set (A := Zpos n * 2 ^ (- e')). set (q := A / Zpos d).
  assert (0 < 2 ^ (- e')) by (apply Z.pow_pos_nonneg; lia). assert (0 <= A) as HA by (unfold A; lia).
  assert (Zdigits2 q <= 1000 - e') as Hq.
  { apply digits_le; [lia|]. unfold q. split; [apply Z.div_pos; lia|]. apply Z.div_lt_upper_bound; [lia|].
    replace (1000 - e') with (1000 + - e') by lia. rewrite Z.pow_add_r by lia. unfold A. nia. }
  unfold shr_fexp at 1. set (E := fexp 53 1024 (Zdigits2 q + e')). pose proof (guess_below n d) as Gb. fold e' A q E in Gb.
  destruct (denotes_shr _ _ _ e' (E - e') (denotes_division A (Zpos d) HA ltac:(lia))) as [(_ & _ & Em & _) Ex]. fold q in Em, Ex.
  destruct (shr _ e' (E - e')) as [mrs ex]. cbn [fst snd] in Em, Ex. rewrite Z.max_l in Em, Ex by lia.
  assert (ex = E) as -> by lia. assert (0 < 2 ^ (E - e')) by (apply Z.pow_pos_nonneg; lia).
  assert (E <= 947) by (unfold E, fexp, emin; lia). assert (-1074 <= E) by (unfold E, fexp, emin; lia).
  assert (0 <= shr_m mrs < 2 ^ 53) as Bm.
  { rewrite Em, <-Z.div_div by lia. fold q. assert (0 <= q) by (apply Z.div_pos; lia). split; [apply Z.div_pos; lia|].
    apply Z.div_lt_upper_bound; [lia|]. destruct (decide (q = 0)) as [->|Nq]; [lia|]. destruct q as [|p|p]; [lia| |lia].
    pose proof (digits_bounds p) as [_ B]. eapply Z.lt_le_trans; [exact B|]. rewrite <-Z.pow_add_r by lia. apply Z.pow_le_mono_r; [lia|]. unfold E, fexp, emin. lia. }
  set (r := round_nearest_even (shr_m mrs) (loc_of_shr_record mrs)).
  assert (0 <= r <= 2 ^ 53) as Br by (unfold r; destruct (round_step (shr_m mrs) (loc_of_shr_record mrs)) as [->| ->]; lia).
  clearbody r. unfold shr_fexp. pose proof (shr_m_nonneg r E (proj1 Br) (fexp 53 1024 (Zdigits2 r + E) - E)) as Pm.
  assert (Zdigits2 r <= 54) by (apply digits_le; lia).
  assert (denotes (shr_record_of_loc r loc_Exact) r 1) as Dn.
  { unfold denotes. cbn [shr_record_of_loc shr_m shr_r shr_s]. rewrite Z.div_1_r, Z.mod_1_r. lia. }
  destruct (denotes_shr _ _ _ E (fexp 53 1024 (Zdigits2 r + E) - E) Dn) as [_ Ex'].
  destruct (shr _ E _) as [mrs'' e'']. cbn [fst snd] in Pm, Ex'. destruct (shr_m mrs'') as [|p|p]; [done| |lia].
  rewrite (proj2 (Z.leb_le e'' (1024 - 53))); [done|]. subst e''. unfold fexp, emin. lia.
Qed.

(** ** Decimal numbers *)

(** Powers of ten are compared at a scale at which none of the exponents is negative. *)
Definition scale : Z := 1000.
Definition at_scale (x : Z) : Z := 10 ^ (x + scale).

Lemma at_scale_pos x : - scale <= x -> 0 < at_scale x.
Proof. intros. apply Z.pow_pos_nonneg; unfold scale in *; lia. Qed.
Lemma at_scale_add x k : - scale <= x -> 0 <= k -> at_scale (x + k) = at_scale x * 10 ^ k.
Proof. intros. unfold at_scale. rewrite <-Z.pow_add_r by (unfold scale in *; lia). f_equal. lia. Qed.

Lemma decimal_double_rounds s D ex m e : bounded 53 1024 m e = true -> 0 < D -> - scale <= ex ->
  2 * 10 ^ 16 * Z.abs (D * at_scale ex * v_den e - v_num m e * at_scale 0) <= v_num m e * at_scale 0 ->
  decimal_double s D ex = S754_finite s m e.
Proof.
  intros Hm HD Hex N. unfold decimal_double. assert (0 < 10 ^ Z.max ex 0) by (apply Z.pow_pos_nonneg; lia).
  assert (0 < 10 ^ Z.max (- ex) 0) by (apply Z.pow_pos_nonneg; lia).
  assert (D * 10 ^ Z.max ex 0 * at_scale 0 = D * at_scale ex * 10 ^ Z.max (- ex) 0) as S.
  { rewrite <-!Z.mul_assoc. f_equal. rewrite Z.mul_comm, <-!at_scale_add by (unfold scale in *; lia). f_equal. lia. }
  pose proof (at_scale_pos 0 ltac:(unfold scale; lia)). set (T := at_scale 0) in *. clearbody T. set (x := D * at_scale ex) in *. clearbody x.
  set (n := D * 10 ^ Z.max ex 0) in *. assert (0 < n) by (unfold n; lia). clearbody n. set (d := 10 ^ Z.max (- ex) 0) in *. clearbody d.
  destruct n as [|n|n]; [lia| |lia]. destruct d as [|d|d]; [lia| |lia].
  apply division_rounds; [done|]. unfold near. apply (Z.mul_le_mono_pos_r _ _ T); [done|].
  rewrite <-Z.mul_assoc. rewrite <-(Z.abs_eq T) at 1 by lia. rewrite <-Z.abs_mul.
  replace ((Z.pos n * v_den e - v_num m e * Z.pos d) * T) with ((x * v_den e - v_num m e * T) * Zpos d)
    by (rewrite !Z.mul_sub_distr_r; f_equal; [rewrite <-(Z.mul_assoc x), (Z.mul_comm (v_den e)), Z.mul_assoc, <-S; lia|lia]).
  rewrite Z.abs_mul, (Z.abs_eq (Zpos d)), Z.mul_assoc by lia. replace (v_num m e * Zpos d * T) with (v_num m e * T * Zpos d) by lia.
  apply Z.mul_le_mono_nonneg_r; [lia|done].
Qed.

(** ** The decimal exponent *)

Lemma log10_up_spec fuel n d : 0 < d -> forall k, 0 <= k -> d * 10 ^ k <= n -> n < d * 10 ^ (k + Z.of_nat fuel) ->
  let r := log10_up fuel n d k in k <= r < k + Z.of_nat fuel /\ d * 10 ^ r <= n < d * 10 ^ (r + 1).
Proof.
  intros Hd. induction fuel as [|fuel IH]; intros k Hk L U; cbn [log10_up]; [rewrite Z.add_0_r in U; lia|].
  rewrite Z.geb_leb. destruct (Z.leb_spec (d * 10 ^ (k + 1)) n) as [H|H]; [|lia].
  assert (n < d * 10 ^ (k + 1 + Z.of_nat fuel)) by (replace (k + 1 + Z.of_nat fuel) with (k + Z.of_nat (S fuel)) by lia; done).
  destruct (IH (k + 1) ltac:(lia) H H0) as [? ?]. lia.
Qed.
Lemma log10_down_spec fuel n d : 0 < n -> forall k, k <= 0 -> n * 10 ^ (- k) < d * 10 -> d <= n * 10 ^ (- k + Z.of_nat fuel) ->
  let r := log10_down fuel n d k in k - Z.of_nat fuel <= r <= k /\ d <= n * 10 ^ (- r) < d * 10.
Proof.
  intros Hn. induction fuel as [|fuel IH]; intros k Hk U L; cbn [log10_down]; [rewrite Z.add_0_r in L; lia|].
  destruct (Z.ltb_spec (n * 10 ^ (- k)) d) as [H|H]; [|lia].
  assert (- (k - 1) = Z.succ (- k)) as E by lia.
  destruct (IH (k - 1) ltac:(lia)) as [? ?]; [rewrite E, Z.pow_succ_r by lia; lia| |lia].
  replace (- (k - 1) + Z.of_nat fuel) with (- k + Z.of_nat (S fuel)) by lia. done.
Qed.

Definition exponent10 (n d : Z) : Z := if n >=? d then log10_up 320 n d 0 else log10_down 330 n d 0.

(** The decimal exponent of a number between 10^-330 and 10^320. *)
Lemma exponent10_spec n d : 0 < d -> 0 < n -> n < d * 10 ^ 320 -> d <= n * 10 ^ 330 ->
  -330 <= exponent10 n d < 320 /\
  d * at_scale (exponent10 n d) <= n * at_scale 0 < d * at_scale (exponent10 n d + 1).
Proof.
  intros Hd Hn U L. unfold exponent10. rewrite Z.geb_leb. destruct (Z.leb_spec d n) as [H|H].
  - destruct (log10_up_spec 320 n d Hd 0) as [B1 B2]; [lia|lia|done|]. set (r := log10_up 320 n d 0) in *. clearbody r.
    split; [lia|]. replace r with (0 + r) by lia. rewrite <-Z.add_assoc, !at_scale_add by (unfold scale; lia). cbn [Z.add] in *.
    pose proof (at_scale_pos 0 ltac:(unfold scale; lia)). nia.
  - destruct (log10_down_spec 330 n d Hn 0) as [B1 B2]; [lia|lia|done|]. set (r := log10_down 330 n d 0) in *. clearbody r.
    split; [lia|]. pose proof (at_scale_pos r ltac:(unfold scale; lia)). assert (at_scale 0 = at_scale r * 10 ^ (- r)) as ->.
    { rewrite <-at_scale_add by (unfold scale; lia). f_equal. lia. }
    rewrite at_scale_add, Z.pow_1_r by (unfold scale; lia). nia.
Qed.

(** ** The digits *)

Lemma div_half_even_near n d : 0 < d -> 2 * Z.abs (div_half_even n d * d - n) <= d.
Proof.
  intros Hd. unfold div_half_even. pose proof (Z.div_mod n d ltac:(lia)) as E. pose proof (Z.mod_pos_bound n d Hd).
  destruct (Z.ltb_spec (2 * (n mod d)) d), (Z.eqb_spec (2 * (n mod d)) d), (Z.even (n / d)); cbn [orb andb]; nia.
Qed.

Definition digits17 (n d : Z) : Z :=
  let x0 := exponent10 n d in
  if x0 <=? 17 - 1 then div_half_even (n * 10 ^ (17 - 1 - x0)) d else div_half_even n (d * 10 ^ (x0 - (17 - 1))).

Lemma digits17_near n d : 0 < d -> -330 <= exponent10 n d < 320 ->
  2 * Z.abs (digits17 n d * at_scale (exponent10 n d - 16) * d - n * at_scale 0) <= d * at_scale (exponent10 n d - 16).
Proof.
  intros Hd Hx. unfold digits17. set (x := exponent10 n d) in *. clearbody x. pose proof (at_scale_pos (x - 16) ltac:(unfold scale; lia)) as P.
  destruct (Z.leb_spec x (17 - 1)).
  - assert (at_scale 0 = 10 ^ (17 - 1 - x) * at_scale (x - 16)) as ->.
    { rewrite Z.mul_comm, <-at_scale_add by (unfold scale; lia). f_equal. lia. }
    pose proof (div_half_even_near (n * 10 ^ (17 - 1 - x)) d Hd) as N. set (D := div_half_even _ _) in *. clearbody D.
    replace (D * at_scale (x - 16) * d - n * (10 ^ (17 - 1 - x) * at_scale (x - 16))) with ((D * d - n * 10 ^ (17 - 1 - x)) * at_scale (x - 16)) by lia.
    rewrite Z.abs_mul, (Z.abs_eq (at_scale (x - 16))) by lia. nia.
  - assert (0 < 10 ^ (x - (17 - 1))) by (apply Z.pow_pos_nonneg; lia).
    pose proof (div_half_even_near n (d * 10 ^ (x - (17 - 1))) ltac:(lia)) as N. set (D := div_half_even _ _) in *. clearbody D.
    pose proof (at_scale_pos 0 ltac:(unfold scale; lia)) as P0.
    assert (at_scale (x - 16) = 10 ^ (x - (17 - 1)) * at_scale 0) as E.
    { rewrite Z.mul_comm, <-at_scale_add by (unfold scale; lia). f_equal; lia. }
    rewrite E. set (W := 10 ^ (x - (17 - 1))) in *. clearbody W.
    replace (D * (W * at_scale 0) * d - n * at_scale 0) with ((D * (d * W) - n) * at_scale 0) by lia.
    rewrite Z.abs_mul, (Z.abs_eq (at_scale 0)) by lia. nia.
Qed.

Lemma digits17_range n d : 0 < d -> 0 < n -> n < d * 10 ^ 320 -> d <= n * 10 ^ 330 -> 10 ^ 16 <= digits17 n d <= 10 ^ 17.
Proof.
  intros Hd Hn U L. destruct (exponent10_spec n d Hd Hn U L) as [Hx Hb]. pose proof (digits17_near n d Hd Hx) as N.
  set (x := exponent10 n d) in *. pose proof (at_scale_pos (x - 16) ltac:(unfold scale; lia)) as P.
  assert (at_scale x = at_scale (x - 16) * 10 ^ 16) as E1 by (rewrite <-at_scale_add by (unfold scale; lia); f_equal; lia).
  assert (at_scale (x + 1) = at_scale (x - 16) * 10 ^ 17) as E2 by (rewrite <-at_scale_add by (unfold scale; lia); f_equal; lia).
  rewrite E1, E2 in Hb. set (D := digits17 n d) in *. clearbody D. set (S := at_scale (x - 16)) in *. clearbody S. set (T := n * at_scale 0) in *. clearbody T.
  set (dS := d * S) in *. assert (0 < dS) by (unfold dS; nia). replace (D * S * d) with (D * dS) in N by (unfold dS; lia).
  replace (d * (S * 10 ^ 16)) with (10 ^ 16 * dS) in Hb by (unfold dS; lia). replace (d * (S * 10 ^ 17)) with (10 ^ 17 * dS) in Hb by (unfold dS; lia). clearbody dS. split.
  - destruct (Z.le_gt_cases (10 ^ 16) D) as [|G]; [done|]. assert (D * dS <= (10 ^ 16 - 1) * dS) by (apply Z.mul_le_mono_nonneg_r; lia). lia.
  - destruct (Z.le_gt_cases D (10 ^ 17)) as [|G]; [done|]. assert ((10 ^ 17 + 1) * dS <= D * dS) by (apply Z.mul_le_mono_nonneg_r; lia). lia.
Qed.

Lemma pretty_N_go_length n : n <> 0%N -> forall s, exists ds, str (pretty_N_go n s) = ds ++ str s /\
  ds <> [] /\ 10 ^ (zlength ds - 1) <= Z.of_N n < 10 ^ zlength ds.
Proof.
  induction (N.lt_wf_0 n) as [n _ IH]. intros Hn s. rewrite pretty_N_go_step by lia. pose proof (N.div_mod n 10 ltac:(lia)) as E.
  pose proof (N.mod_upper_bound n 10 ltac:(lia)). destruct (N.eq_dec (n / 10) 0) as [Hz|Hnz].
  - rewrite Hz, pretty_N_go_0. exists [pretty_N_char (n mod 10)]. rewrite Hz in E. split; [done|]. split; [done|].
    change (zlength [pretty_N_char (n `mod` 10)]) with 1. change (10 ^ (1 - 1)) with 1. rewrite Z.pow_1_r. lia.
  - destruct (IH (n / 10)%N ltac:(apply N.div_lt; lia) Hnz (String.String (pretty_N_char (n mod 10)) s)) as (ds & -> & Hne & Hb).
    exists (ds ++ [pretty_N_char (n mod 10)]). rewrite <-app_assoc. split; [done|]. split; [by destruct ds|].
    destruct ds as [|c ds]; [done|]. rewrite zlength_app. change (zlength [pretty_N_char (n `mod` 10)]) with 1. rewrite zlength_cons in *.
    pose proof (zlength_nonneg ds). set (k := zlength ds) in *. clearbody k. replace (1 + k - 1) with k in Hb by lia.
    replace (1 + k + 1 - 1) with (Z.succ k) by lia. replace (1 + k + 1) with (Z.succ (1 + k)) by lia. rewrite !Z.pow_succ_r by lia.
    clear IH. revert E H Hb. generalize (n / 10)%N, (n mod 10)%N, (10 ^ k), (10 ^ (1 + k)). intros. lia.
Qed.
Lemma show_length z k : 0 <= k -> 10 ^ k <= z < 10 ^ (k + 1) -> zlength (show z) = k + 1.
Proof.
  intros Hk Hz. assert (0 < 10 ^ k) by (apply Z.pow_pos_nonneg; lia). destruct z as [|p|p]; [lia| |lia].
  change (show (Z.pos p)) with (str (pretty_N_go (N.pos p) String.EmptyString)).
  destruct (pretty_N_go_length (N.pos p) ltac:(done) String.EmptyString) as (ds & -> & Hne & Hb). rewrite app_nil_r.
  cbn [Z.of_N] in Hb. destruct ds as [|c ds]; [done|]. rewrite zlength_cons in *. pose proof (zlength_nonneg ds).
  assert (1 + zlength ds - 1 < k + 1) by (apply (Z.pow_lt_mono_r_iff 10); lia).
  assert (k < 1 + zlength ds) by (apply (Z.pow_lt_mono_r_iff 10); lia). lia.
Qed.

(** ** Reading the text *)

Lemma decimal_app a b : decimal (a ++ b) = decimal a * 10 ^ zlength b + decimal b.
Proof.
  induction b as [|c b IH] using rev_ind; [rewrite app_nil_r; change (zlength (@nil ascii)) with 0; change (decimal []) with 0; lia|].
  rewrite app_assoc, !decimal_snoc, IH, zlength_app. change (zlength [c]) with 1. pose proof (zlength_nonneg b).
  replace (zlength b + 1) with (Z.succ (zlength b)) by lia. rewrite Z.pow_succ_r by lia. lia.
Qed.
Lemma decimal_zeros k : decimal (replicate k "0"%char) = 0.
Proof. induction k as [|k IH]; [done|]. rewrite replicate_S_end, decimal_snoc, IH. done. Qed.
Lemma zeros_are_digits k : forallb isdigit (replicate k "0"%char) = true.
Proof. by induction k. Qed.

Lemma strip_zeros_rev_spec s : exists k, s = replicate k "0"%char ++ strip_zeros_rev s.
Proof.
  induction s as [|c s [k IH]]; [by exists 0%nat|]. cbn [strip_zeros_rev]. case_bool_decide as E; [|by exists 0%nat].
  exists (S k). rewrite IH at 1. by subst.
Qed.
Lemma strip_zeros_spec s : exists k, s = strip_zeros s ++ replicate k "0"%char.
Proof.
  destruct (strip_zeros_rev_spec (rev s)) as [k E]. exists k. unfold strip_zeros. apply (f_equal (@rev ascii)) in E.
  rewrite rev_involutive, rev_app_distr in E. rewrite E at 1. f_equal. clear. induction k as [|k IH]; [done|].
  cbn [replicate rev]. rewrite IH. by rewrite <-replicate_S_end.
Qed.

(** What may follow the digits of a number: nothing, or its exponent. *)
Definition no_digit_first (s : cppstring) : Prop := forall c r, s = c :: r -> isdigit c = false /\ c <> "."%char.

Lemma forallb_Forall_digits ds : forallb isdigit ds = true -> Forall (fun c => isdigit c = true) ds.
Proof. rewrite forallb_forall, Forall_forall. intros H c Hc. by apply H, list_elem_of_In. Qed.

Lemma digit_no_sign ds c rest : forallb isdigit (c :: ds) = true -> skip_sign (c :: rest) = c :: rest /\ negative (c :: rest) = false.
Proof.
  cbn. intros [Hc _]%andb_prop. unfold is_sign. split; [|by rewrite bool_decide_eq_false_2 by (by intros ->)].
  rewrite !bool_decide_eq_false_2; [done|by intros ->..].
Qed.

Lemma strtod_fraction (neg : bool) whole frac tail : forallb isdigit whole = true -> forallb isdigit frac = true -> whole <> [] -> no_digit_first tail ->
  exists f k, frac = f ++ replicate k "0"%char /\
  strtod ((if neg then str "-" else []) ++ with_fraction whole frac ++ tail) =
  (decimal_double neg (decimal (whole ++ f)) ((read_exponent tail).1 - zlength f), (read_exponent tail).2).
Proof.
  intros Hw Hf Hne Ht. destruct (strip_zeros_spec frac) as [k E]. exists (strip_zeros frac), k. split; [done|].
  assert (forallb isdigit (strip_zeros frac) = true) as Hf'. { rewrite E, forallb_app in Hf. by apply andb_prop in Hf as [? _]. }
  assert (exists sep, with_fraction whole frac ++ tail = whole ++ sep /\ (forall c r, sep = c :: r -> isdigit c = false) /\
          read_fraction sep = (strip_zeros frac, tail)) as (sep & -> & Hsep & Hread).
  { unfold with_fraction. destruct (strip_zeros frac) as [|c f] eqn:Es.
    - exists tail. split; [done|]. split; [intros; by eapply Ht|]. destruct tail as [|t tail]; [done|]. cbn.
      rewrite bool_decide_eq_false_2; [done|]. by apply (Ht t tail).
    - exists (str "." ++ (c :: f) ++ tail). rewrite <-!app_assoc. split; [done|]. split; [by intros ?? [= <- _]|].
      change (read_fraction (str "." ++ (c :: f) ++ tail)) with (span isdigit ((c :: f) ++ tail)).
      apply span_exact; [by apply forallb_Forall_digits|]. intros; by eapply Ht. }
  unfold strtod. destruct whole as [|w ws]; [done|].
  assert (skip_sign ((if neg then str "-" else []) ++ (w :: ws) ++ sep) = (w :: ws) ++ sep) as ->.
  { destruct neg; [done|]. by apply (digit_no_sign ws). }
  assert (negative ((if neg then str "-" else []) ++ (w :: ws) ++ sep) = neg) as ->.
  { destruct neg; [done|]. by apply (digit_no_sign ws). }
  rewrite (span_exact isdigit (w :: ws) sep) by (done || by apply forallb_Forall_digits). rewrite Hread. cbn [app].
  by destruct (read_exponent tail).
Qed.

(** Text whose number is near a double is read as that double. *)
Lemma strtod_rounds (neg : bool) whole frac tail x m e : forallb isdigit whole = true -> forallb isdigit frac = true -> whole <> [] -> no_digit_first tail ->
  bounded 53 1024 m e = true -> 0 < decimal (whole ++ frac) -> (read_exponent tail).1 - zlength frac = x -> - scale <= x ->
  2 * 10 ^ 16 * Z.abs (decimal (whole ++ frac) * at_scale x * v_den e - v_num m e * at_scale 0) <= v_num m e * at_scale 0 ->
  strtod ((if neg then str "-" else []) ++ with_fraction whole frac ++ tail) = (S754_finite neg m e, (read_exponent tail).2).
Proof.
  intros Hw Hf Hne Ht Hm Hpos Hx Hs N. destruct (strtod_fraction neg whole frac tail Hw Hf Hne Ht) as (f & k & E & ->). f_equal.
  assert (decimal (whole ++ frac) = decimal (whole ++ f) * 10 ^ Z.of_nat k) as ED.
  { rewrite E, app_assoc, decimal_app, decimal_zeros, zlength_replicate. lia. }
  assert (zlength frac = zlength f + Z.of_nat k) as El by (by rewrite E, zlength_app, zlength_replicate).
  assert (0 < 10 ^ Z.of_nat k) by (apply Z.pow_pos_nonneg; lia).
  apply decimal_double_rounds; [done|nia|lia|]. rewrite ED in N.
  assert (at_scale ((read_exponent tail).1 - zlength f) = at_scale x * 10 ^ Z.of_nat k) as ->.
  { rewrite <-at_scale_add by lia. f_equal. lia. }
  by replace (decimal (whole ++ f) * (at_scale x * 10 ^ Z.of_nat k)) with (decimal (whole ++ f) * 10 ^ Z.of_nat k * at_scale x) by lia.
Qed.

Lemma read_exponent_text x : let tail := str "e" ++ (if x <? 0 then str "-" else str "+") ++ replicate (2 - length (show (Z.abs x))) "0"%char ++ show (Z.abs x) in
  no_digit_first tail /\ read_exponent tail = (x, []).
Proof.
  cbn zeta. split; [by intros c r [= <- _]|]. destruct (show_digits (Z.abs x) ltac:(lia)) as (Hne & Hd & Hv).
  set (z := replicate (2 - length (show (Z.abs x))) "0"%char). set (ds := show (Z.abs x)) in *.
  assert (forallb isdigit (z ++ ds) = true) as Hz by (unfold z; by rewrite forallb_app, zeros_are_digits, Hd).
  assert (decimal (z ++ ds) = Z.abs x) as Hx by (rewrite decimal_app; unfold z; rewrite decimal_zeros; lia).
  assert (z ++ ds <> []) as Hn by (destruct z; [by destruct ds|done]). clearbody ds z. generalize dependent (z ++ ds). intros l Hl Hx Hn.
  unfold read_exponent. change (str "e" ++ ?a) with ("e"%char :: a). cbn [bool_decide]. rewrite bool_decide_eq_true_2 by done. cbn [orb].
  assert (skip_sign ((if x <? 0 then str "-" else str "+") ++ l) = l) as -> by (by destruct (x <? 0)).
  assert (negative ((if x <? 0 then str "-" else str "+") ++ l) = (x <? 0)) as -> by (by destruct (x <? 0)).
  rewrite <-(app_nil_r l), (span_exact isdigit l []) by (by intros || by apply forallb_Forall_digits). rewrite Hx.
  destruct l; [done|]. destruct (Z.ltb_spec x 0); f_equal; lia.
Qed.

Lemma forallb_take_drop k ds : forallb isdigit ds = true -> forallb isdigit (take k ds) = true /\ forallb isdigit (drop k ds) = true.
Proof. intros H. rewrite <-(take_drop k ds), forallb_app in H. by apply andb_prop in H. Qed.

(** The seventeen digits of a number near a double, in each of the three layouts. *)
Lemma layouts_read_back (neg : bool) x D m e : bounded 53 1024 m e = true -> 10 ^ 16 <= D < 10 ^ 17 -> -330 <= x <= 320 ->
  2 * 10 ^ 16 * Z.abs (D * at_scale (x - 16) * v_den e - v_num m e * at_scale 0) <= v_num m e * at_scale 0 ->
  strtod ((if neg then str "-" else []) ++
    (let ds := show D in
     if (x <? -4) || (x >=? 17) then
       let ex := show (Z.abs x) in
       with_fraction (take 1 ds) (drop 1 ds) ++ str "e" ++ (if x <? 0 then str "-" else str "+") ++ replicate (2 - length ex) "0"%char ++ ex
     else if x <? 0 then with_fraction (str "0") (replicate (Z.to_nat (- x - 1)) "0"%char ++ ds)
     else with_fraction (take (Z.to_nat (x + 1)) ds) (drop (Z.to_nat (x + 1)) ds))) = (S754_finite neg m e, []).
Proof.
  intros Hm HD Hx N. cbn zeta. destruct (show_digits D ltac:(lia)) as (Hne & Hd & Hv). pose proof (show_length D 16 ltac:(lia) ltac:(lia)) as Hl.
  set (ds := show D) in *. clearbody ds. subst D. assert (no_digit_first []) as H0 by (by intros ??).
  destruct (read_exponent_text x) as [Ht Hr]. unfold zlength in Hl. rewrite Z.geb_leb.
  destruct (Z.ltb_spec x (-4)) as [L|L]; [|destruct (Z.leb_spec 17 x) as [G|G]]; cbn [orb].
  1,2: destruct (forallb_take_drop 1 ds Hd).
  1,2: erewrite strtod_rounds; [rewrite Hr; reflexivity|done..|by destruct ds|done|done|rewrite take_drop; lia|rewrite Hr; cbn [fst]; unfold zlength; rewrite length_drop; reflexivity|unfold scale; lia|].
  1,2: rewrite take_drop; replace (x - Z.of_nat (length ds - 1)) with (x - 16) by lia; done.
  rewrite <-(app_nil_r (if x <? 0 then _ else _)). destruct (Z.ltb_spec x 0) as [Sg|Sg].
  - erewrite (strtod_rounds neg (str "0") _ [] (x - 16) m e); [reflexivity|done|by rewrite forallb_app, zeros_are_digits|done..| | | |].
    + rewrite !decimal_app, decimal_zeros. change (decimal (str "0")) with 0. lia.
    + rewrite zlength_app, zlength_replicate. unfold zlength. cbn [read_exponent fst]. lia.
    + unfold scale; lia.
    + rewrite !decimal_app, decimal_zeros. change (decimal (str "0")) with 0. by rewrite !Z.mul_0_l, !Z.add_0_l.
  - destruct (forallb_take_drop (Z.to_nat (x + 1)) ds Hd).
    erewrite (strtod_rounds neg _ _ [] (x - 16) m e); [reflexivity|done..| |done|done| | | |].
    + replace (Z.to_nat (x + 1)) with (S (Z.to_nat x)) by lia. by destruct ds.
    + rewrite take_drop. lia.
    + unfold zlength. rewrite length_drop. cbn [read_exponent fst]. lia.
    + unfold scale; lia.
    + by rewrite take_drop.
Qed.

(** ** Doubles *)

Lemma v_range m e : bounded 53 1024 m e = true -> 0 < v_num m e /\ 0 < v_den e /\ v_num m e < v_den e * 10 ^ 320 /\ v_den e <= v_num m e * 10 ^ 330.
Proof.
  intros Hm. destruct (bounded_cases m e Hm) as (He & H53 & _ & _). unfold v_num, v_den.
  assert (0 < 2 ^ Z.max e 0) by (apply Z.pow_pos_nonneg; lia). assert (0 < 2 ^ Z.max (- e) 0) by (apply Z.pow_pos_nonneg; lia).
  assert (2 ^ Z.max e 0 <= 2 ^ 971) by (apply Z.pow_le_mono_r; lia). assert (2 ^ Z.max (- e) 0 <= 2 ^ 1074) by (apply Z.pow_le_mono_r; lia).
  assert (2 ^ 53 * 2 ^ 971 <= 10 ^ 320) by (vm_compute; discriminate). assert (2 ^ 1074 <= 10 ^ 330) by (vm_compute; discriminate).
  set (a := 2 ^ Z.max e 0) in *. set (b := 2 ^ Z.max (- e) 0) in *. set (A := 2 ^ 971) in *. set (B := 2 ^ 1074) in *.
  set (P := 10 ^ 320) in *. set (Q := 10 ^ 330) in *. clearbody a b A B P Q. split; [lia|]. split; [done|]. split.
  - assert (Zpos m * a < 2 ^ 53 * A) by nia. nia.
  - assert (b <= Q) by lia. assert (1 <= Zpos m * a) by nia. assert (1 * Q <= Zpos m * a * Q) by (apply Z.mul_le_mono_nonneg_r; lia). lia.
Qed.

Lemma positive_text_reads_back (neg : bool) m e : bounded 53 1024 m e = true ->
  strtod ((if neg then str "-" else []) ++ positive_text 17 (v_num m e) (v_den e)) = (S754_finite neg m e, []).
Proof.
  intros Hm. destruct (v_range m e Hm) as (Hn & Hd & U & L). unfold positive_text.
  change (if v_num m e >=? v_den e then log10_up 320 (v_num m e) (v_den e) 0 else log10_down 330 (v_num m e) (v_den e) 0) with (exponent10 (v_num m e) (v_den e)).
  change (if exponent10 (v_num m e) (v_den e) <=? 17 - 1 then _ else _) with (digits17 (v_num m e) (v_den e)).
  destruct (exponent10_spec _ _ Hd Hn U L) as [Hx Hb]. pose proof (digits17_near _ _ Hd Hx) as N. pose proof (digits17_range _ _ Hd Hn U L) as R.
  set (x := exponent10 (v_num m e) (v_den e)) in *. set (D := digits17 (v_num m e) (v_den e)) in *. clearbody x D.
  assert (2 * 10 ^ 16 * Z.abs (D * at_scale (x - 16) * v_den e - v_num m e * at_scale 0) <= v_num m e * at_scale 0) as Nr.
  { assert (at_scale x = at_scale (x - 16) * 10 ^ 16) as Ex by (rewrite <-at_scale_add by (unfold scale; lia); f_equal; lia). rewrite Ex in Hb. lia. }
  destruct (Z.eqb_spec D (10 ^ 17)) as [Ec|Nc].
  - apply (layouts_read_back neg (x + 1) (10 ^ (17 - 1)) m e); [done|split; [done|vm_compute; done]|lia|].
    replace (10 ^ (17 - 1) * at_scale (x + 1 - 16)) with (D * at_scale (x - 16)); [done|].
    replace (x + 1 - 16) with (x - 16 + 1) by lia. rewrite at_scale_add by (unfold scale; lia). rewrite Ec. change (10 ^ 17) with (10 * 10 ^ 16). change (17 - 1) with 16. lia.
  - apply (layouts_read_back neg x D m e); [done|lia|lia|done].
Qed.

(** ** Integers as doubles *)

Lemma iter_double p d : Zpos (Pos.iter xO p d) = Zpos p * 2 ^ Zpos d.
Proof.
  induction d as [|d IH] using Pos.peano_ind; [cbn; lia|]. rewrite Pos.iter_succ, Pos2Z.inj_xO, IH, Pos2Z.inj_succ, Z.pow_succ_r by lia. lia.
Qed.
Lemma digits_exact z k : 0 < k -> 2 ^ (k - 1) <= z < 2 ^ k -> Zdigits2 z = k.
Proof.
  intros Hk Hz. assert (0 < 2 ^ (k - 1)) by (apply Z.pow_pos_nonneg; lia).
  pose proof (digits_le z k ltac:(lia) ltac:(lia)). pose proof (digits_gt z (k - 1) ltac:(lia) ltac:(lia)). lia.
Qed.
Lemma shl_align_eq p k : k <= 0 -> exists P, shl_align p 0 k = (P, k) /\ Zpos P = Zpos p * 2 ^ (- k).
Proof.
  intros Hk. unfold shl_align. rewrite Z.sub_0_r. destruct k as [|k|k]; [|lia|].
  - exists p. split; [done|]. cbn. lia.
  - eexists. split; [done|]. by rewrite iter_double.
Qed.
Lemma exact_53 z e : 2 ^ 52 <= z < 2 ^ 53 -> -1074 <= e -> shr_fexp 53 1024 z e loc_Exact = (Build_shr_record z false false, e).
Proof. intros Hz He. apply shr_none. rewrite (digits_exact z 53) by lia. unfold fexp, emin. lia. Qed.
Lemma bounded_53 m e : 2 ^ 52 <= Zpos m < 2 ^ 53 -> -1074 <= e <= 971 -> bounded 53 1024 m e = true.
Proof.
  intros Hm He. unfold bounded, canonical_mantissa. pose proof (digits_exact (Zpos m) 53 ltac:(lia) Hm) as E. cbn [Zdigits2] in E. rewrite E.
  apply andb_true_intro. split; [apply Z.eqb_eq; unfold fexp, emin; lia|apply Z.leb_le; lia].
Qed.

(** An integer of at most 53 bits has a double of its own. *)
Lemma round_small s p : Zpos p < 2 ^ 53 -> exists P, Zpos P = Zpos p * 2 ^ (53 - Zdigits2 (Zpos p)) /\ 2 ^ 52 <= Zpos P < 2 ^ 53 /\
  binary_round 53 1024 s p 0 = S754_finite s P (Zdigits2 (Zpos p) - 53).
Proof.
  intros Hp. pose proof (digits_bounds p) as B. pose proof (digits_le (Zpos p) 53 ltac:(lia) ltac:(lia)) as L.
  assert (0 < Zdigits2 (Zpos p)) as L0 by (cbn; lia). unfold binary_round. change (Zpos (digits2_pos p)) with (Zdigits2 (Zpos p)). set (D := Zdigits2 (Zpos p)) in *.
  replace (fexp 53 1024 (D + 0)) with (D - 53) by (unfold fexp, emin; lia). destruct (shl_align_eq p (D - 53)) as (P & -> & EP); [lia|].
  replace (- (D - 53)) with (53 - D) in EP by lia. exists P. split; [done|].
  assert (2 ^ 52 <= Zpos P < 2 ^ 53) as BP.
  { assert (2 ^ (D - 1) * 2 ^ (53 - D) = 2 ^ 52) by (rewrite <-Z.pow_add_r by lia; f_equal; lia).
    assert (2 ^ D * 2 ^ (53 - D) = 2 ^ 53) by (rewrite <-Z.pow_add_r by lia; f_equal; lia).
    assert (0 < 2 ^ (53 - D)) by (apply Z.pow_pos_nonneg; lia). rewrite EP. nia. }
  split; [done|]. unfold binary_round_aux. rewrite exact_53 by lia. cbn [shr_m loc_of_shr_record round_nearest_even]. rewrite exact_53 by lia. cbn [shr_m].
  by rewrite (proj2 (Z.leb_le (D - 53) (1024 - 53))) by lia.
Qed.

(** The double of an integer is one. *)
Lemma round_valid s p : Zpos p < 2 ^ 1000 -> valid_binary 53 1024 (binary_round 53 1024 s p 0) = true.
Proof.
  intros Hp. pose proof (digits_bounds p) as B. pose proof (digits_le (Zpos p) 1000 ltac:(lia) ltac:(lia)) as L.
  assert (0 < Zdigits2 (Zpos p)) as L0 by (cbn; lia). destruct (Z.ltb_spec (Zpos p) (2 ^ 53)) as [S|G].
  { destruct (round_small s p S) as (P & _ & BP & ->). cbn [valid_binary]. pose proof (digits_le (Zpos p) 53 ltac:(lia) ltac:(lia)). apply bounded_53; lia. }
  pose proof (digits_gt (Zpos p) 53 ltac:(lia) G) as G'. unfold binary_round. change (Zpos (digits2_pos p)) with (Zdigits2 (Zpos p)).
  set (D := Zdigits2 (Zpos p)) in *. replace (fexp 53 1024 (D + 0)) with (D - 53) by (unfold fexp, emin; lia).
  assert (shl_align p 0 (D - 53) = (p, 0)) as -> by (unfold shl_align; rewrite Z.sub_0_r; destruct (D - 53) eqn:?; [done|done|lia]).
  unfold binary_round_aux, shr_fexp at 1. fold D. replace (fexp 53 1024 (D + 0) - 0) with (D - 53) by (unfold fexp, emin; lia).
  assert (denotes (shr_record_of_loc (Zpos p) loc_Exact) (Zpos p) 1) as Dn.
  { unfold denotes. cbn [shr_record_of_loc shr_m shr_r shr_s]. rewrite Z.div_1_r, Z.mod_1_r. done. }
  destruct (denotes_shr _ _ _ 0 (D - 53) Dn) as [(_ & _ & Em & _) Ex]. destruct (shr _ 0 (D - 53)) as [mrs ex]. cbn [fst snd] in Em, Ex. subst ex.
  rewrite Z.max_l in * by lia. rewrite Z.mul_1_l in Em. rewrite Z.add_0_l.
  assert (0 < 2 ^ (D - 53)) by (apply Z.pow_pos_nonneg; lia).
  assert (2 ^ 52 <= shr_m mrs < 2 ^ 53) as Bq.
  { assert (2 ^ 52 * 2 ^ (D - 53) = 2 ^ (D - 1)) by (rewrite <-Z.pow_add_r by lia; f_equal; lia).
    assert (2 ^ 53 * 2 ^ (D - 53) = 2 ^ D) by (rewrite <-Z.pow_add_r by lia; f_equal; lia).
    rewrite Em. split; [apply Z.div_le_lower_bound; lia|apply Z.div_lt_upper_bound; lia]. }
  destruct (round_step (shr_m mrs) (loc_of_shr_record mrs)) as [Er|Er]; rewrite Er; clear Er.
  all: set (r := shr_m mrs) in *; clearbody r.
  2: destruct (decide (r + 1 = 2 ^ 53)) as [->|Nr].
  2: { unfold shr_fexp. replace (fexp 53 1024 (Zdigits2 (2 ^ 53) + (D - 53)) - (D - 53)) with 1 by (change (Zdigits2 (2 ^ 53)) with 54; unfold fexp, emin; lia).
       cbn [shr]. change (shr_m (iter_pos shr_1 1 (shr_record_of_loc (2 ^ 53) loc_Exact))) with (2 ^ 52).
       cbn [valid_binary]. change (2 ^ 52) with (Zpos 4503599627370496). destruct (D - 53 + 1 <=? 1024 - 53) eqn:Q; [|done]. apply bounded_53; [done|]. apply Z.leb_le in Q. lia. }
  all: rewrite exact_53 by lia; cbn [shr_m].
  - destruct r as [|r|r]; [lia| |lia]. destruct (D - 53 <=? 1024 - 53) eqn:Q; [|done]. cbn [valid_binary]. apply Z.leb_le in Q. apply bounded_53; lia.
  - destruct (r + 1) as [|r'|r'] eqn:E; [lia| |lia]. destruct (D - 53 <=? 1024 - 53) eqn:Q; [|done]. cbn [valid_binary]. apply Z.leb_le in Q. apply bounded_53; lia.
Qed.

Lemma to_double_valid z : Z.abs z < 2 ^ 1000 -> valid_binary 53 1024 (to_double z) = true.
Proof. intros Hz. unfold to_double, d_normalize, binary_normalize. destruct z; [done|apply round_valid; lia..]. Qed.

Lemma d_eq_finite s m e s' m' e' : d_eq (S754_finite s m e) (S754_finite s' m' e') = true -> m = m' /\ e = e' /\ s = s'.
Proof.
  unfold d_eq, SFeqb, SFcompare. change (Pos.compare_cont Eq m m') with (m ?= m')%positive.
  destruct s, s', (Z.compare_spec e e'), (Pos.compare_spec m m'); done.
Qed.
Lemma d_eq_refl v : isnan v = false -> d_eq v v = true.
Proof.
  destruct v as [s|s| |s m e]; intros Hn; try done; [by destruct s|]. unfold d_eq, SFeqb, SFcompare.
  rewrite Z.compare_refl. change (Pos.compare_cont Eq m m) with (m ?= m)%positive. rewrite Pos.compare_refl. by destruct s.
Qed.

(** The integer a double was recognised as is the double. *)
Lemma integral_double s m e q : bounded 53 1024 m e = true -> q = (if e >=? 0 then Zpos m * 2 ^ e else Zpos m / 2 ^ (- e)) ->
  d_eq (to_double (signed s q)) (S754_finite s m e) = true -> 0 < q /\ q * v_den e = v_num m e.
Proof.
  intros Hm Eq H. unfold v_den, v_num. rewrite Z.geb_leb in Eq. destruct (Z.leb_spec 0 e) as [He|He].
  { rewrite (Z.max_l e), (Z.max_r (- e)), Z.pow_0_r by lia. assert (0 < 2 ^ e) by (apply Z.pow_pos_nonneg; lia). lia. }
  rewrite (Z.max_r e), (Z.max_l (- e)), Z.pow_0_r by lia. destruct (bounded_cases m e Hm) as (_ & H53 & _ & _).
  assert (1 <= 2 ^ (- e)) by (assert (0 < 2 ^ (- e)) by (apply Z.pow_pos_nonneg; lia); lia).
  assert (0 <= q <= Zpos m) as Bq. { rewrite Eq. split; [apply Z.div_pos; lia|apply Z.div_le_upper_bound; nia]. }
  destruct q as [|p|p]; [by destruct s| |lia]. destruct (round_small s p ltac:(lia)) as (P & EP & _ & R).
  assert (to_double (signed s (Zpos p)) = S754_finite s P (Zdigits2 (Zpos p) - 53)) as T by (rewrite <-R; by destruct s).
  rewrite T in H. apply d_eq_finite in H as (-> & E & _). rewrite EP. replace (53 - Zdigits2 (Zpos p)) with (- e) by lia. lia.
Qed.

Lemma strtod_integer s m e : bounded 53 1024 m e = true -> d_eq (to_double (d_trunc (S754_finite s m e))) (S754_finite s m e) = true ->
  strtod (show (d_trunc (S754_finite s m e))) = (S754_finite s m e, []).
Proof.
  intros Hm H. cbn [d_trunc] in *. set (q := if e >=? 0 then Zpos m * 2 ^ e else Zpos m / 2 ^ (- e)) in *.
  destruct (integral_double s m e q Hm eq_refl H) as [Hq Ev]. clearbody q. destruct (show_digits q ltac:(lia)) as (Hne & Hd & Hv).
  assert (show (signed s q) = (if s then str "-" else []) ++ with_fraction (show q) [] ++ []) as ->.
  { rewrite app_nil_r. destruct q as [|p|p]; [lia| |lia]. by destruct s. }
  apply (strtod_rounds s (show q) [] [] 0 m e); try done; rewrite ?app_nil_r, ?Hv; [done|].
  replace (q * at_scale 0 * v_den e) with (q * v_den e * at_scale 0) by lia. rewrite Ev, Z.sub_diag, Z.abs_0, Z.mul_0_r.
  destruct (v_range m e Hm) as (? & _). pose proof (at_scale_pos 0 ltac:(done)). nia.
Qed.

Lemma double_text_reads_back s m e : bounded 53 1024 m e = true -> strtod (double_text 17 (S754_finite s m e)) = (S754_finite s m e, []).
Proof.
  intros Hm. pose proof (positive_text_reads_back s m e Hm) as R. unfold v_num, v_den in R. cbn [double_text]. rewrite Z.geb_leb.
  destruct (Z.leb_spec 0 e) as [H|H].
  - rewrite (Z.max_l e), (Z.max_r (- e)) in R by lia. done.
  - rewrite (Z.max_r e), (Z.max_l (- e)), Z.pow_0_r, Z.mul_1_r in R by lia. done.
Qed.

Lemma reads_as_whole text v w : strtod text = (w, []) -> text <> [] -> isfinite w = true -> d_eq w v = true -> reads_as text v = true.
Proof.
  intros H Hne Hf He. unfold reads_as, read_back. rewrite H, bool_decide_eq_false_2 by (intros E; by apply Hne). by rewrite Hf.
Qed.

(** Whatever its precision, the text of a double is one number from end to end. *)
Lemma with_fraction_whole (neg : bool) whole frac tail : forallb isdigit whole = true -> forallb isdigit frac = true -> whole <> [] ->
  no_digit_first tail -> (read_exponent tail).2 = [] -> (strtod ((if neg then str "-" else []) ++ with_fraction whole frac ++ tail)).2 = [].
Proof. intros Hw Hf Hne Ht Hr. destruct (strtod_fraction neg whole frac tail Hw Hf Hne Ht) as (f & k & _ & ->). done. Qed.

Lemma div_half_even_nonneg n d : 0 <= n -> 0 < d -> 0 <= div_half_even n d.
Proof. intros Hn Hd. unfold div_half_even. assert (0 <= n / d) by (apply Z.div_pos; lia). destruct (_ || _); lia. Qed.

Lemma positive_text_whole (neg : bool) p n d : 0 <= n -> 0 < d -> (strtod ((if neg then str "-" else []) ++ positive_text p n d)).2 = [].
Proof.
  intros Hn Hd. unfold positive_text. set (x0 := if n >=? d then _ else _). clearbody x0.
  set (D0 := if x0 <=? p - 1 then _ else _).
  assert (0 <= D0) as H0.
  { unfold D0. destruct (Z.leb_spec x0 (p - 1)); apply div_half_even_nonneg;
      [apply Z.mul_nonneg_nonneg; [lia|apply Z.pow_nonneg; lia]|lia|lia|apply Z.mul_pos_pos; [lia|apply Z.pow_pos_nonneg; lia]]. }
  clearbody D0. destruct (if D0 =? 10 ^ p then _ else _) as [x D] eqn:E.
  assert (0 <= D) as HD. { destruct (D0 =? 10 ^ p); injection E as _ <-; [apply Z.pow_nonneg|]; lia. }
  clear E. destruct (show_digits D HD) as (Hne & Hds & _). cbn zeta. set (ds := show D) in *. clearbody ds. destruct (read_exponent_text x) as [Ht Hr].
  destruct (_ || _).
  - destruct (forallb_take_drop 1 ds Hds). apply with_fraction_whole; [done|done|by destruct ds|done|by rewrite Hr].
  - rewrite <-(app_nil_r (if x <? 0 then _ else _)). destruct (Z.ltb_spec x 0).
    + by apply with_fraction_whole; [|rewrite forallb_app, zeros_are_digits| |intros ??|].
    + destruct (forallb_take_drop (Z.to_nat (x + 1)) ds Hds). apply with_fraction_whole; [done|done| |by intros ??|done].
      replace (Z.to_nat (x + 1)) with (S (Z.to_nat x)) by lia. by destruct ds.
Qed.
Lemma double_text_whole p s m e : (strtod (double_text p (S754_finite s m e))).2 = [].
Proof.
  cbn [double_text]. rewrite Z.geb_leb. destruct (Z.leb_spec 0 e); apply positive_text_whole;
    [apply Z.mul_nonneg_nonneg; [lia|apply Z.pow_nonneg; lia]|lia|lia|apply Z.pow_pos_nonneg; lia].
Qed.

Lemma reads_as_value text v : reads_as text v = true -> text <> [] /\ isfinite (strtod text).1 = true /\ d_eq (strtod text).1 v = true.
Proof.
  unfold reads_as, read_back. intros H. split; [by intros ->|]. destruct (strtod text) as [w rest]. cbn [fst]. destruct (bool_decide _); [done|]. by destruct (isfinite w).
Qed.

Lemma render_shortest_spec (v : double) : valid_binary 53 1024 v = true -> isfinite v = true ->
  render_shortest v <> [] /\ exists w, strtod (render_shortest v) = (w, []) /\ isfinite w = true /\ d_eq w v = true.
Proof.
  intros Hv Hf.
  destruct v as [s|s| |s m e]; [|done|done|]; [destruct s; vm_compute; (split; [done|by eexists])|]. cbn [valid_binary] in Hv.
  assert (d_eq (S754_finite s m e) (S754_finite s m e) = true) as Er by (by apply d_eq_refl).
  unfold render_shortest. cbn [isfinite negb]. destruct (_ && _) eqn:I.
  { apply andb_prop in I as [_ I]. pose proof (strtod_integer s m e Hv I) as R. split; [by intros E; rewrite E in R|eauto]. }
  destruct (reads_as (double_text 15 _) _) eqn:R15; [|destruct (reads_as (double_text 16 _) _) eqn:R16].
  1,2: match goal with H : reads_as (double_text ?p _) _ = true |- _ => pose proof (double_text_whole p s m e); apply reads_as_value in H as (? & ? & ?) end;
       split; [done|]; destruct (strtod (double_text _ _)) as [w rest]; cbn [fst snd] in *; subst; eauto.
  pose proof (double_text_reads_back s m e Hv) as R. split; [by intros E; rewrite E in R|eauto].
Qed.

(** C14. What render_shortest writes for any finite double, whichever of its four forms it
    picks, is one number from end to end and strtod reads it back as a number equal to the
    double; and seventeen significant digits identify the double itself, for every mantissa and
    exponent, subnormal ones included. *)
Theorem render_shortest_reads_back (v : double) (Hv : valid_binary 53 1024 v = true) (Hf : isfinite v = true) :
  reads_as (render_shortest v) v = true /\ (exists w, strtod (render_shortest v) = (w, [])) /\
  (strtod (double_text 17 v)).1 = v /\ (strtod (double_text 17 v)).2 = [].
Proof.
  destruct (render_shortest_spec v Hv Hf) as (Hne & w & R & Fw & Ew). split; [by apply (reads_as_whole _ v w)|]. split; [eauto|].
  destruct v as [s|s| |s m e]; [by destruct s|done..|]. by rewrite double_text_reads_back.
Qed.

Module Demo.
Definition third : double := d_div (to_double (-1)) (to_double 3).
Lemma render_shortest_witness : valid_binary 53 1024 third = true /\ isfinite third = true /\
  render_shortest third = str "-0.3333333333333333" /\ reads_as (render_shortest third) third = true /\ (strtod (double_text 17 third)).1 = third.
Proof.
  split; [vm_compute; reflexivity|]. split; [vm_compute; reflexivity|]. split; [vm_compute; reflexivity|].
  destruct (render_shortest_reads_back third) as (H1 & _ & H2 & _); [vm_compute; reflexivity|vm_compute; reflexivity|]. split; assumption.
Defined.
End Demo.
