(* ===== verification/Expression.v ===== *)
(** Text with placeholders: include/parsers/expression/expression.cpp.

    [${name}] runs to the first closing brace; [%(expr)] runs to the parenthesis that balances
    it, quoted strings aside, and failing that to the first one.  The paths of the agent, the
    keys of the result caches and the metric templates of collectd are written in it. *)

From stdpp Require Import base list sets strings.
From Stdlib Require Import Ascii Lia.
From Stdlib Require String.
From S2P Require Import Prelude.
Import String.StringSyntax.

(** ** The parser *)

Record entry := mkEntry { is_variable : bool; name : cppstring }.
#[global] Instance entry_eq_dec : EqDecision entry. Proof. solve_decision. Defined.
Definition literal (s : cppstring) : entry := mkEntry false s.
Definition variable (s : cppstring) : entry := mkEntry true s.

Definition quote : ascii := "'"%char.

(** The offset of a character *)
Fixpoint index_of (c : ascii) (s : cppstring) : option nat :=
  match s with x :: s' => if bool_decide (x = c) then Some O else S <$> index_of c s' | [] => None end.

(** The offset of the parenthesis that closes [depth] open ones; [quoted] inside a string
    literal. *)
Fixpoint balanced_close (depth : nat) (quoted : bool) (s : cppstring) : option nat :=
  match s with
  | [] => None
  | c :: s' =>
      if quoted then S <$> balanced_close depth (negb (bool_decide (c = quote))) s'
      else if bool_decide (c = quote) then S <$> balanced_close depth true s'
      else if bool_decide (c = "("%char) then S <$> balanced_close (S depth) false s'
      else if bool_decide (c = ")"%char) then
        match depth with
        | S (S d) => S <$> balanced_close (S d) false s'
        | _ => Some O
        end
      else S <$> balanced_close depth false s'
  end.

Definition find_placeholder_close (body : cppstring) : option nat :=
  match balanced_close 1 false body with Some j => Some j | None => index_of ")"%char body end.

(** A body is only taken when it is not empty. *)
Definition nonempty_body (close : option nat) : option nat := match close with Some (S j) => Some (S j) | _ => None end.

(** The body of the placeholder the text begins with, if it begins with one. *)
Inductive opening := No_placeholder | Unclosed | Body (body rest : cppstring).
Definition opening_of (s : cppstring) : opening :=
  let take_body body close :=
    match nonempty_body close with Some j => Body (take j body) (drop (S j) body) | None => Unclosed end in
  match s with
  | a :: b :: body =>
      if bool_decide (a = "$"%char) && bool_decide (b = "{"%char) then take_body body (index_of "}"%char body)
      else if bool_decide (a = "%"%char) && bool_decide (b = "("%char) then take_body body (find_placeholder_close body)
      else No_placeholder
  | _ => No_placeholder
  end.

Definition flush_literal (lit : cppstring) : list entry := match lit with [] => [] | _ => [literal lit] end.

Fixpoint parse_loop (fuel : nat) (s lit : cppstring) : list entry :=
  match fuel with
  | O => flush_literal lit
  | S fuel =>
      match s with
      | [] => flush_literal lit
      | c :: s' =>
          match opening_of s with
          | Body body rest => flush_literal lit ++ variable body :: parse_loop fuel rest []
          | Unclosed => flush_literal lit ++ literal [c] :: parse_loop fuel s' []
          | No_placeholder => parse_loop fuel s' (lit ++ [c])
          end
      end
  end.

(** Every step takes a character, so the length of the text is fuel enough
    ([parse_loop_fuel]). *)
Definition parse (s : cppstring) : list entry := parse_loop (length s) s [].

(** ** Offsets *)

Lemma index_of_split c s j : index_of c s = Some j -> s = take j s ++ c :: drop (S j) s /\ c ∉ take j s.
Proof.
  revert j. induction s as [|x s IH]; intros j; simpl; [done|]. case_bool_decide as E.
  - intros [= <-]. subst. split; [done|set_solver].
  - destruct (index_of c s) as [k|]; [|done]. intros [= <-]. destruct (IH k eq_refl) as [E1 N]. simpl. split; [by rewrite E1 at 1|set_solver].
Qed.
Lemma index_of_app c a b : c ∉ a -> index_of c (a ++ c :: b) = Some (length a).
Proof.
  induction a as [|x a IH]; intros N; simpl; [by rewrite bool_decide_eq_true_2|].
  rewrite bool_decide_eq_false_2 by set_solver. rewrite IH by set_solver. done.
Qed.
Lemma balanced_close_split s : forall d q j, balanced_close d q s = Some j -> s = take j s ++ ")"%char :: drop (S j) s.
Proof.
  induction s as [|c s IH]; intros d q j; simpl; [done|].
  assert (forall d q, S <$> balanced_close d q s = Some j -> c :: s = take j (c :: s) ++ ")"%char :: drop (S j) (c :: s)) as K.
  { intros d' q'. destruct (balanced_close d' q' s) as [k|] eqn:B; [|done]. intros [= <-]. simpl. by rewrite (IH _ _ _ B) at 1. }
  destruct q; [apply K|]. case_bool_decide; [apply K|]. case_bool_decide; [apply K|]. case_bool_decide as E; [|apply K].
  destruct d as [|[|d]]; [..|apply K]; intros [= <-]; simpl; by subst.
Qed.
Lemma close_split s j : find_placeholder_close s = Some j -> s = take j s ++ ")"%char :: drop (S j) s.
Proof.
  unfold find_placeholder_close. destruct (balanced_close 1 false s) as [k|] eqn:B; [intros [= <-]; by eapply balanced_close_split|].
  intros H. by apply index_of_split in H as [? _].
Qed.

(** ** Placeholders *)

(** How an entry may have been written. *)
Inductive spelled : entry -> cppstring -> Prop :=
  | spelled_literal t : t <> [] -> spelled (literal t) t
  | spelled_brace n : n <> [] -> "}"%char ∉ n -> spelled (variable n) (str "${" ++ n ++ str "}")
  | spelled_paren n : n <> [] -> spelled (variable n) (str "%(" ++ n ++ str ")").

Lemma opening_spelled s body rest : opening_of s = Body body rest -> exists t, spelled (variable body) t /\ s = t ++ rest.
Proof.
  unfold opening_of. destruct s as [|a [|b s]]; try done.
  destruct (bool_decide (a = "$"%char) && bool_decide (b = "{"%char)) eqn:E1; [|destruct (bool_decide (a = "%"%char) && bool_decide (b = "("%char)) eqn:E2; [|done]].
  - apply andb_prop in E1 as [->%bool_decide_eq_true ->%bool_decide_eq_true]. destruct (index_of "}"%char s) as [[|j]|] eqn:I; try done.
    apply index_of_split in I as [Es N]. intros H. unfold nonempty_body in H. injection H as <- <-. eexists. split.
    + apply spelled_brace; [|exact N]. by destruct s.
    + simpl. rewrite <-app_assoc. simpl. by rewrite <-Es.
  - apply andb_prop in E2 as [->%bool_decide_eq_true ->%bool_decide_eq_true]. destruct (find_placeholder_close s) as [[|j]|] eqn:I; try done.
    apply close_split in I as Es. intros H. unfold nonempty_body in H. injection H as <- <-. eexists. split.
    + apply spelled_paren. by destruct s.
    + simpl. rewrite <-app_assoc. simpl. by rewrite <-Es.
Qed.
Lemma spelled_length e t : spelled e t -> t <> [].
Proof. by intros []. Qed.

Lemma opening_shorter s body rest : opening_of s = Body body rest -> (length rest < length s)%nat.
Proof.
  intros H. apply opening_spelled in H as (t & S & ->). apply spelled_length in S. rewrite length_app. destruct t; [done|]. simpl. lia.
Qed.

(** More fuel than characters changes nothing. *)
Lemma parse_loop_fuel f g : forall s lit, (length s <= f)%nat -> (length s <= g)%nat -> parse_loop f s lit = parse_loop g s lit.
Proof.
  revert g. induction f as [|f IH]; intros g s lit Hf Hg.
  - destruct s; [by destruct g|simpl in Hf; lia].
  - destruct g as [|g]; [destruct s; [done|simpl in Hg; lia]|]. cbn [parse_loop]. destruct s as [|c s]; [done|].
    destruct (opening_of (c :: s)) as [| |body rest] eqn:O; simpl in Hf, Hg.
    + apply IH; lia.
    + do 2 f_equal. apply IH; lia.
    + apply opening_shorter in O. simpl in O. do 2 f_equal. apply IH; lia.
Qed.

(** ** The equations of the parser *)

Definition parse_with (lit s : cppstring) : list entry := parse_loop (length s) s lit.
Lemma parse_with_nil lit : parse_with lit [] = flush_literal lit.
Proof. done. Qed.
Lemma parse_with_cons lit c s : parse_with lit (c :: s) =
  match opening_of (c :: s) with
  | Body body rest => flush_literal lit ++ variable body :: parse rest
  | Unclosed => flush_literal lit ++ literal [c] :: parse s
  | No_placeholder => parse_with (lit ++ [c]) s
  end.
Proof.
  unfold parse_with. change (length (c :: s)) with (S (length s)). cbn [parse_loop]. destruct (opening_of (c :: s)) as [| |body rest] eqn:O; [done|done|].
  do 2 f_equal. apply opening_shorter in O. simpl in O. by apply parse_loop_fuel; lia.
Qed.

Lemma flush_spelled lit : exists ts, Forall2 spelled (flush_literal lit) ts /\ concat ts = lit.
Proof.
  destruct lit as [|c lit]; [by exists []|]. exists [c :: lit]. simpl. rewrite app_nil_r. split; [|done]. constructor; [by constructor|constructor].
Qed.
Lemma parse_with_spelled n : forall s lit, (length s <= n)%nat -> exists ts, Forall2 spelled (parse_with lit s) ts /\ concat ts = lit ++ s.
Proof.
  induction n as [|n IH]; intros s lit Hn.
  { destruct s; [|simpl in Hn; lia]. rewrite app_nil_r. apply flush_spelled. }
  destruct s as [|c s]; [rewrite app_nil_r; apply flush_spelled|]. simpl in Hn. rewrite parse_with_cons.
  destruct (flush_spelled lit) as (fs & Ff & <-).
  destruct (opening_of (c :: s)) as [| |body rest] eqn:O.
  - destruct (IH s (concat fs ++ [c]) ltac:(lia)) as (ts & F & E). exists ts. split; [done|]. by rewrite E, <-app_assoc.
  - destruct (IH s [] ltac:(lia)) as (ts & F & E). exists (fs ++ [c] :: ts). split; [|by rewrite concat_app; simpl; rewrite E].
    apply Forall2_app; [done|]. constructor; [by constructor|done].
  - pose proof (opening_shorter _ _ _ O) as L. simpl in L. apply opening_spelled in O as (t & S & ->). destruct (IH rest [] ltac:(lia)) as (ts & F & E).
    exists (fs ++ t :: ts). split; [|by rewrite concat_app; simpl; rewrite E]. apply Forall2_app; [done|]. by constructor.
Qed.

(** Every text is parsed, and the entries with the marks of their placeholders put back spell
    exactly the text again: literals are never empty, a name in braces holds no closing brace,
    and no name is empty. *)
Theorem parse_is_lossless (s : cppstring) : exists spellings, Forall2 spelled (parse s) spellings /\ concat spellings = s.
Proof. apply (parse_with_spelled (length s) s []). done. Qed.

(** ** Printing *)

Definition print_entry (e : entry) : cppstring := if is_variable e then str "${" ++ name e ++ str "}" else name e.
Definition print (es : list entry) : cppstring := concat (map print_entry es).

(** Text that opens no placeholder, names a brace can close, and no two texts in a row. *)
Definition plain (c : ascii) : Prop := c <> "$"%char /\ c <> "%"%char.
Fixpoint printable (es : list entry) : Prop :=
  match es with
  | [] => True
  | e :: es' =>
      name e <> [] /\ printable es' /\
      if is_variable e then "}"%char ∉ name e
      else Forall plain (name e) /\ match es' with f :: _ => is_variable f = true | [] => True end
  end.

Lemma parse_with_plain t : forall lit s, Forall plain t -> parse_with lit (t ++ s) = parse_with (lit ++ t) s.
Proof.
  induction t as [|c t IH]; intros lit s F; [by rewrite app_nil_r|]. apply Forall_cons in F as [[N1 N2] F]. cbn [app]. rewrite parse_with_cons.
  assert (opening_of (c :: t ++ s) = No_placeholder) as ->.
  { unfold opening_of. destruct (t ++ s); [done|]. rewrite (bool_decide_eq_false_2 (c = "$"%char)), (bool_decide_eq_false_2 (c = "%"%char)) by done. done. }
  rewrite IH by done. by rewrite <-app_assoc.
Qed.
Lemma parse_with_brace lit n s : n <> [] -> "}"%char ∉ n -> parse_with lit (str "${" ++ n ++ str "}" ++ s) = flush_literal lit ++ variable n :: parse s.
Proof.
  intros Hn Nb. change (str "${" ++ n ++ str "}" ++ s) with ("$"%char :: "{"%char :: n ++ "}"%char :: s). rewrite parse_with_cons. unfold opening_of.
  rewrite !bool_decide_eq_true_2 by done. cbn [andb]. rewrite index_of_app by done. destruct n as [|c n]; [done|]. cbn [length nonempty_body].
  change (S (length n)) with (length (c :: n)). rewrite take_app_length, drop_app_ge by lia. by replace (S (length (c :: n)) - length (c :: n))%nat with 1%nat by lia.
Qed.

(** Entries that are printed with braces are parsed back as the same list, for names without a
    closing brace and literals without $ and %, no two of which are adjacent. *)
Theorem parse_print (es : list entry) (H : printable es) : parse (print es) = es.
Proof.
  induction es as [|[v n] es IH]; [done|]. destruct H as (Hn & Hes & H). specialize (IH Hes). cbn [is_variable name] in *.
  unfold print. cbn [map concat]. fold (print es). destruct v; unfold print_entry; cbn [is_variable name].
  - rewrite <-!app_assoc. change (parse ?x) with (parse_with [] x) at 1. rewrite parse_with_brace by done. cbn [flush_literal app]. by rewrite IH.
  - destruct H as [F Hf]. change (parse ?x) with (parse_with [] x) at 1. rewrite parse_with_plain by done. cbn [app].
    destruct es as [|[w m] es]; [simpl; by destruct n|]. simpl in Hf. subst w. destruct Hes as (Hm & _ & Nb). cbn [is_variable name] in *.
    unfold print in IH |- *. cbn [map concat print_entry is_variable name] in IH |- *. rewrite <-!app_assoc in IH |- *.
    change (parse ?x) with (parse_with [] x) in IH at 1. rewrite parse_with_brace in IH |- * by done. cbn [flush_literal app] in IH. rewrite IH. by destruct n.
Qed.

(** ** Examples *)

Module Demo.
Example parse_examples :
  map parse [str "${host}/x"; str "%(format(value, '(MB'))!"; str "%(test((2)"; str "a${}b"; str "100%"] =
  [[variable (str "host"); literal (str "/x")];
   [variable (str "format(value, '(MB')"); literal (str "!")];
   [variable (str "test((2")];
   [literal (str "a"); literal (str "$"); literal (str "{}b")];
   [literal (str "100%")]].
Proof. vm_compute. reflexivity. Qed.

Definition sample : list entry := [variable (str "host"); literal (str "/"); variable (str "alias-or-command")].
Lemma parse_print_witness : printable sample /\ parse (print sample) = sample.
Proof.
  assert (printable sample) as H by (simpl; split_and!; try done; first [vm_decide|by repeat constructor]).
  split; [exact H|]. exact (parse_print sample H).
Defined.
End Demo.
