(* ===== verification/PerfData.v ===== *)
(** Performance data: include/parsers/perfdata.hpp, the builder and the formatter of
    include/nscapi/protobuf/functions_perfdata.cpp, and [str::xtos_non_sci].

    The parser talks to a builder through virtual calls.  It is modelled as the sequence of
    calls it makes, and a builder as a fold over them. *)

From stdpp Require Import base list sets strings.
From Stdlib Require Import Ascii ZArith Lia SpecFloat.
From Stdlib Require String.
From S2P Require Import Prelude Strings Format NumberText NumberRoundtrip.
Import String.StringSyntax.

Local Open Scope Z_scope.

(** ** Numbers *)

Definition precision_of (v : double) : Z := if d_lt v (to_double 10) then 20 else 6.

Definition xtos_non_sci (v : double) : cppstring :=
  let s := double_fixed (precision_of v) v in
  match find s (str ".") 0 with
  | None => s
  | Some pos =>
      let s := if Nat.ltb 6 (length s - pos) then take (pos + 6) s else s in
      let kept := strip_zeros s in
      if Nat.ltb (pos + 1) (length kept) then kept else take (length kept - 1) s
  end.

(** [boost::lexical_cast<double>]: text that is one decimal number from end to end and does not
    overflow is cast to it; what else is accepted is left open. *)
Class lexical_double := {
  cast_double : cppstring -> option double;
  cast_double_number s v : s <> [] -> strtod s = (v, []) -> isfinite v = true ->
    Forall (fun c => isdigit c = true \/ c = "."%char \/ c = "-"%char) s -> cast_double s = Some v }.

(** ** The messages *)

Record FloatValue := mkFloat {
  value : double; unit : cppstring;
  warning : option double; critical : option double; minimum : option double; maximum : option double;
  warning_range : cppstring; critical_range : cppstring }.
Definition empty_float : FloatValue := mkFloat (S754_zero false) [] None None None None [] [].

Inductive perf_value := no_value | string_value (s : cppstring) | float_value (f : FloatValue).
Record PerformanceData := mkPerf { alias : cppstring; data : perf_value }.

(** ** The parser *)

Inductive builder_call :=
  | add (alias : cppstring)
  | add_string (alias value : cppstring)
  | set_value (v : double) | set_warning (v : double) | set_critical (v : double)
  | set_minimum (v : double) | set_maximum (v : double)
  | set_unit (u : cppstring) | set_warning_range (r : cppstring) | set_critical_range (r : cppstring)
  | next.

Definition valid_number (c : ascii) : bool := isdigit c || bool_decide (c ∈ [","%char; "."%char; "-"%char]).
Definition is_separator (c : ascii) : bool := bool_decide (c = " "%char).
Definition head_is (c : ascii) (s : cppstring) : bool := match s with x :: _ => bool_decide (x = c) | [] => false end.

Definition commas_to_points (s : cppstring) : cppstring := default s (replace (S (length s)) s (str ",") (str ".")).

Section parser.
Context `{lexical_double}.

Definition trim_to_double (s : cppstring) : double :=
  let s := commas_to_points (span valid_number s).1 in
  match s with
  | [] => S754_zero false
  | _ => default (S754_zero false) (cast_double s)
  end.

Definition is_threshold_range (s : cppstring) : bool :=
  head_is "@"%char s || head_is "~"%char s || bool_decide (":"%char ∈ s).

(** The label without its quotes *)
Definition unquote (a : cppstring) : cppstring :=
  match a, last a with
  | c :: _, Some d => if bool_decide (c = c_quote) && bool_decide (d = c_quote) then take (length a - 2) (drop 1 a) else a
  | _, _ => a
  end.

Definition is_undefined (v : cppstring) : bool := bool_decide (v ∈ [str "U"; str "u"; str "U%"; str "u%"]).

(** A field that is there and not empty *)
Definition field (items : list cppstring) (i : nat) (f : cppstring -> list builder_call) : list builder_call :=
  match items !! i with Some s => match s with [] => [] | _ => f s end | None => [] end.
Definition threshold (set : double -> builder_call) (set_range : cppstring -> builder_call) (s : cppstring) : list builder_call :=
  set (trim_to_double s) :: if is_threshold_range s then [set_range s] else [].

(** One item of the text: the calls it makes, and whether parsing goes on. *)
Definition parse_chunk (chunk : cppstring) : list builder_call * bool :=
  match default [] (split_lst chunk (str ";")) with
  | [] => ([add_string (str "invalid") (str "invalid performance data"); next], false)
  | (first :: _) as items =>
      let '(label, second) := split2 first (str "=") in
      match unquote label with
      | [] => ([], true)
      | a =>
          match (span (fun c => negb (valid_number c)) second).2 with
          | [] =>
              if is_undefined second then ([add_string a (str "U"); next], true)
              else ([add a; set_value (S754_zero false); next], true)
          | number =>
              let '(digits, rest) := span valid_number number in
              (add a :: set_value (trim_to_double digits) :: (match rest with [] => [] | u => [set_unit u] end) ++
               field items 1 (threshold set_warning set_warning_range) ++
               field items 2 (threshold set_critical set_critical_range) ++
               field items 3 (fun s => [set_minimum (trim_to_double s)]) ++
               field items 4 (fun s => [set_maximum (trim_to_double s)]) ++ [next], true)
          end
      end
  end.

(** Where the separator after the first item is looked for: behind the closing quote of a
    quoted label, and else at the offset [p] that is left from skipping the blanks.  [None]
    for a label whose quote is not closed. *)
Definition search_start (perf : cppstring) (p : nat) : option nat :=
  if head_is c_quote perf then S <$> find perf [c_quote] 1 else Some p.

Fixpoint parse_loop (fuel : nat) (perf : cppstring) : list builder_call :=
  match fuel with
  | O => []
  | S fuel =>
      let '(blanks, perf) := span is_separator perf in
      match perf with
      | [] => []
      | _ =>
          match search_start perf (length blanks) with
          | None => []
          | Some p =>
              match find perf (str " ") p with
              | Some O => []
              | Some q =>
                  let '(calls, go_on) := parse_chunk (take q perf) in
                  calls ++ if go_on then parse_loop fuel (span is_separator (drop q perf)).2 else []
              | None => (parse_chunk perf).1
              end
          end
      end
  end.

(** Every item has a character of its own ([perf_loop_fuel]). *)
Definition parse (perff : cppstring) : list builder_call := parse_loop (S (length perff)) perff.

(** ** The builder *)

(** The lines built so far, and which one [lastPerf] points to *)
Record perf_builder := mkBuilder { payload : list PerformanceData; lastPerf : option nat }.
Definition mutable_float (p : PerformanceData) : FloatValue := match data p with float_value f => f | _ => empty_float end.
Definition on_last (f : FloatValue -> FloatValue) (b : perf_builder) : perf_builder :=
  match lastPerf b with
  | Some i => mkBuilder (alter (fun p => mkPerf (alias p) (float_value (f (mutable_float p)))) i (payload b)) (lastPerf b)
  | None => b
  end.

Definition build_call (b : perf_builder) (c : builder_call) : perf_builder :=
  match c with
  | add a => mkBuilder (payload b ++ [mkPerf a no_value]) (Some (length (payload b)))
  | add_string a v => mkBuilder (payload b ++ [mkPerf a (string_value v)]) (lastPerf b)
  | set_value v => on_last (fun f => mkFloat v (unit f) (warning f) (critical f) (minimum f) (maximum f) (warning_range f) (critical_range f)) b
  | set_unit u => on_last (fun f => mkFloat (value f) u (warning f) (critical f) (minimum f) (maximum f) (warning_range f) (critical_range f)) b
  | set_warning v => on_last (fun f => mkFloat (value f) (unit f) (Some v) (critical f) (minimum f) (maximum f) (warning_range f) (critical_range f)) b
  | set_critical v => on_last (fun f => mkFloat (value f) (unit f) (warning f) (Some v) (minimum f) (maximum f) (warning_range f) (critical_range f)) b
  | set_minimum v => on_last (fun f => mkFloat (value f) (unit f) (warning f) (critical f) (Some v) (maximum f) (warning_range f) (critical_range f)) b
  | set_maximum v => on_last (fun f => mkFloat (value f) (unit f) (warning f) (critical f) (minimum f) (Some v) (warning_range f) (critical_range f)) b
  | set_warning_range r => on_last (fun f => mkFloat (value f) (unit f) (warning f) (critical f) (minimum f) (maximum f) r (critical_range f)) b
  | set_critical_range r => on_last (fun f => mkFloat (value f) (unit f) (warning f) (critical f) (minimum f) (maximum f) (warning_range f) r) b
  | next => b
  end.

Definition parse_performance_data (line : list PerformanceData) (perf : cppstring) : list PerformanceData :=
  payload (fold_left build_call (parse perf) (mkBuilder line None)).
End parser.

(** ** The formatter *)

Definition is_some {A} (o : option A) : bool := match o with Some _ => true | None => false end.
Definition is_set (s : cppstring) : bool := match s with [] => false | _ => true end.
Definition optional_text (o : option double) : cppstring := match o with Some v => xtos_non_sci v | None => [] end.
Definition threshold_text (range : cppstring) (o : option double) : cppstring := match range with [] => optional_text o | r => r end.

Definition parse_float_perf_value (v : FloatValue) : cppstring :=
  let has_warning := is_some (warning v) || is_set (warning_range v) in
  let has_critical := is_some (critical v) || is_set (critical_range v) in
  let has_minimum := is_some (minimum v) in
  let has_maximum := is_some (maximum v) in
  xtos_non_sci (value v) ++ unit v ++
  if negb has_warning && negb has_critical && negb has_minimum && negb has_maximum then []
  else str ";" ++ threshold_text (warning_range v) (warning v) ++
  if negb has_critical && negb has_minimum && negb has_maximum then []
  else str ";" ++ threshold_text (critical_range v) (critical v) ++
  if negb has_minimum && negb has_maximum then []
  else str ";" ++ optional_text (minimum v) ++
  if negb has_maximum then [] else str ";" ++ optional_text (maximum v).

Definition perf_text (p : PerformanceData) : cppstring :=
  c_quote :: alias p ++ str "'=" ++
  match data p with float_value v => parse_float_perf_value v | string_value s => s | no_value => [] end.

(** [no_truncation] is a length of 0. *)
Definition no_truncation : Z := 0.
Definition append_perf (max_length : Z) (acc : cppstring * bool) (p : PerformanceData) : cppstring * bool :=
  let '(ret, first) := acc in
  let tmp := (if first then [] else str " ") ++ perf_text p in
  (if (max_length =? no_truncation) || (zlength ret + zlength tmp <=? max_length) then ret ++ tmp else ret, false).
Definition build_performance_data (line : list PerformanceData) (max_length : Z) : cppstring :=
  (fold_left (append_perf max_length) line ([], true)).1.

(** ** Extracting values *)

Definition get_multiplier (u : cppstring) : Z :=
  match u with
  | c :: _ =>
      if bool_decide (c = "K"%char) then 1024
      else if bool_decide (c = "M"%char) then 1024 ^ 2
      else if bool_decide (c = "G"%char) then 1024 ^ 3
      else if bool_decide (c = "T"%char) then 1024 ^ 4
      else 1
  | [] => 1
  end.
Definition extract_perf_value_as_string (p : PerformanceData) : cppstring :=
  match data p with
  | float_value v => xtos_non_sci (d_mul (value v) (to_double (get_multiplier (unit v))))
  | string_value s => s
  | no_value => str "unknown"
  end.
(** The maximum of a value without one is the default of the message, zero. *)
Definition extract_perf_maximum_as_string (p : PerformanceData) : cppstring :=
  match data p with
  | float_value v =>
      let m := default (S754_zero false) (maximum v) in
      xtos_non_sci (match unit v with [] => m | u => d_mul m (to_double (get_multiplier u)) end)
  | _ => str "unknown"
  end.
(** The cast to a 64-bit integer, of a value that fits one. *)
Definition extract_perf_value_as_int (p : PerformanceData) : Z :=
  match data p with
  | float_value v => d_trunc (match unit v with [] => value v | u => d_mul (value v) (to_double (get_multiplier u)) end)
  | _ => 0
  end.

(** ** Examples *)

Module Demo.
Definition strict_cast (s : cppstring) : option double :=
  match s with [] => None | _ => let '(v, rest) := strtod s in if bool_decide (rest = []) && isfinite v then Some v else None end.
Lemma strict_cast_number s v : s <> [] -> strtod s = (v, []) -> isfinite v = true ->
  Forall (fun c => isdigit c = true \/ c = "."%char \/ c = "-"%char) s -> strict_cast s = Some v.
Proof. intros Hne R Hf _. unfold strict_cast. destruct s; [done|]. rewrite R, bool_decide_eq_true_2 by done. by rewrite Hf. Qed.
#[local] Instance strict_double : lexical_double := {| cast_double := strict_cast; cast_double_number := strict_cast_number |}.

Definition relay (s : String.string) : cppstring := build_performance_data (parse_performance_data [] (str s)) no_truncation.
Example relay_examples :
  map relay ["aaa=1g;0;4;2;5 'b b'=2g"; "'x'=10;4:5;@6:9"; "label=U%;;;; label2=100%"; "aaa=1g;;;0;5"; "   "; "'open=1"]%string =
  [str "'aaa'=1g;0;4;2;5 'b b'=2g"; str "'x'=10;4:5;@6:9"; str "'label'=U 'label2'=100%"; str "'aaa'=1g;;;0;5"; []; []].
Proof. vm_compute. reflexivity. Qed.

(** The offset of the first item is still used after the blanks before it were cut: with four
    of them, the blank behind a short first item is overlooked. *)
Example leading_blanks_swallow_an_item :
  relay "    a=1 b=2" = str "'a'=1 b=2" /\ length (parse_performance_data [] (str "    a=1 b=2")) = 1%nat /\
  length (parse_performance_data [] (str "a=1 b=2")) = 2%nat.
Proof. vm_compute. done. Qed.

(** Digits beyond the fifth are cut off, not rounded, and the next relay may cut again. *)
Example relayed_value_drifts :
  relay "a=0.3" = str "'a'=0.29999" /\ relay "a=0.29999" = str "'a'=0.29998".
Proof. vm_compute. done. Qed.

(** A label may hold blanks, but neither an equals sign nor a semicolon, whatever its quotes. *)
Example quoted_label_is_cut :
  relay "'a=b'=1" = str "''a'=1" /\ relay "'a;b'=1" = str "''a'=0".
Proof. vm_compute. done. Qed.
End Demo.
