(* ===== verification/PerfDataRoundtrip.v ===== *)
(** Performance data that is written and read again. *)

From stdpp Require Import base list sets strings pretty.
From Stdlib Require Import Ascii ZArith Lia SpecFloat.
From Stdlib Require String.
From S2P Require Import Prelude Strings Format NumberText NumberRoundtrip PerfData.
Import String.StringSyntax.

Local Open Scope Z_scope.

(** ** The shape of a number *)

Lemma strip_zeros_rev_app f c r : c <> "0"%char -> strip_zeros_rev (f ++ c :: r) = strip_zeros_rev f ++ c :: r.
Proof.
  intros Hc. induction f as [|x f IH]; cbn [app strip_zeros_rev]; [by rewrite bool_decide_eq_false_2|]. case_bool_decide; [done|done].
Qed.
Lemma strip_zeros_point a f : strip_zeros (a ++ "."%char :: f) = a ++ "."%char :: strip_zeros f.
Proof.
  unfold strip_zeros. rewrite rev_app_distr. cbn [rev]. rewrite <-app_assoc. cbn [app]. rewrite strip_zeros_rev_app by done.
  rewrite rev_app_distr. cbn [rev]. by rewrite rev_involutive, <-app_assoc.
Qed.

Lemma show_short z k : 0 < k -> 0 <= z < 10 ^ k -> zlength (show z) <= k.
Proof.
  intros Hk Hz. destruct z as [|p|p]; [change (zlength (show 0)) with 1; lia| |lia]. change (show (Z.pos p)) with (str (pretty_N_go (N.pos p) String.EmptyString)).
  destruct (pretty_N_go_length (N.pos p) ltac:(done) String.EmptyString) as (ds & -> & Hne & Hb). rewrite app_nil_r. cbn [Z.of_N] in Hb.
  destruct ds as [|c ds]; [done|]. rewrite zlength_cons in *. pose proof (zlength_nonneg ds).
  assert (1 + zlength ds - 1 < k) by (apply (Z.pow_lt_mono_r_iff 10); lia). lia.
Qed.

(** The digits before and behind the point. *)
Definition whole_part (k n d : Z) : cppstring := show (div_half_even (n * 10 ^ k) d / 10 ^ k).
Definition fraction_part (k n d : Z) : cppstring := pad_zeros (Z.to_nat k) (show (div_half_even (n * 10 ^ k) d mod 10 ^ k)).

Section fixed.
Context (k n d : Z) (Hk : 0 < k) (Hn : 0 <= n) (Hd : 0 < d).
Let q := div_half_even (n * 10 ^ k) d.

Lemma fixed_q : 0 <= q /\ 0 < 10 ^ k.
Proof using Hk Hn Hd.
    assert (0 < 10 ^ k) by (apply Z.pow_pos_nonneg; lia). split; [|done]. apply div_half_even_nonneg; nia.
Qed.
Lemma fixed_text_parts : fixed_text k n d = whole_part k n d ++ str "." ++ fraction_part k n d.
Proof using Hk. unfold fixed_text. by destruct (Z.eqb_spec k 0); [lia|]. Qed.
Lemma whole_digits : whole_part k n d <> [] /\ forallb isdigit (whole_part k n d) = true /\ decimal (whole_part k n d) = q / 10 ^ k.
Proof using Hk Hn Hd. destruct fixed_q as [Hq Hp]. apply show_digits. by apply Z.div_pos. Qed.
Lemma fraction_digits : forallb isdigit (fraction_part k n d) = true /\ decimal (fraction_part k n d) = q mod 10 ^ k /\ length (fraction_part k n d) = Z.to_nat k.
Proof using Hk Hn Hd.
    destruct fixed_q as [Hq Hp]. pose proof (Z.mod_pos_bound q (10 ^ k) Hp) as B. destruct (show_digits (q mod 10 ^ k) ltac:(lia)) as (_ & Hds & Hv).
    pose proof (show_short (q mod 10 ^ k) k Hk B) as L. unfold fraction_part, pad_zeros. fold q. set (ds := show (q mod 10 ^ k)) in *. clearbody ds. split_and!.
    - by rewrite forallb_app, zeros_are_digits.
    - rewrite decimal_app, decimal_zeros. lia.
    - rewrite length_app, length_replicate. unfold zlength in L. lia.
Qed.
End fixed.

(** ** [xtos_non_sci] *)

Definition sign_text (s : bool) : cppstring := if s then str "-" else [].
Definition cut_fraction (k n d : Z) : cppstring := take 5 (fraction_part k n d).

Lemma precision_cases v : precision_of v = 20 \/ precision_of v = 6.
Proof. unfold precision_of. destruct (d_lt v (to_double 10)); auto. Qed.

Lemma digits_no_point ds : forallb isdigit ds = true -> "."%char ∉ ds.
Proof. intros H Hin. rewrite forallb_forall in H. apply list_elem_of_In, H in Hin. done. Qed.

(** Five digits behind the point at most, without the zeros at the end. *)
Lemma non_sci_parts s k n d : 5 < k -> 0 <= n -> 0 < d ->
  let t := sign_text s ++ fixed_text k n d in
  match find t (str ".") 0 with
  | None => t
  | Some pos =>
      let t := if Nat.ltb 6 (length t - pos) then take (pos + 6) t else t in
      let kept := strip_zeros t in
      if Nat.ltb (pos + 1) (length kept) then kept else take (length kept - 1) t
  end = sign_text s ++ with_fraction (whole_part k n d) (cut_fraction k n d).
Proof.
  intros Hk Hn Hd. cbn zeta. rewrite fixed_text_parts by lia. destruct (whole_digits k n d) as (_ & Hw & _); [lia|done|done|].
  destruct (fraction_digits k n d) as (_ & _ & Hl); [lia|done|done|]. unfold cut_fraction. set (w := whole_part k n d) in *. set (f := fraction_part k n d) in *.
  clearbody w f. rewrite app_assoc. change (str "." ++ f) with ("."%char :: f). set (a := sign_text s ++ w).
  assert ("."%char ∉ a) as Na. { unfold a. apply not_elem_of_app. split; [by destruct s; vm_decide|by apply digits_no_point]. }
  change (str ".") with ["."%char]. rewrite find_char_first by done.
  assert (length (a ++ "."%char :: f) - length a = S (length f))%nat as -> by (rewrite length_app; simpl; lia).
  assert (Nat.ltb 6 (S (length f)) = true) as -> by (apply Nat.ltb_lt; lia).
  rewrite take_app_ge by lia. replace (length a + 6 - length a)%nat with 6%nat by lia. cbn [take]. rewrite strip_zeros_point.
  unfold with_fraction. destruct (strip_zeros (take 5 f)) as [|c g] eqn:Ef.
  - assert (Nat.ltb (length a + 1) (length (a ++ ["."%char])) = false) as -> by (apply Nat.ltb_ge; rewrite length_app; simpl; lia).
    rewrite length_app. simpl. rewrite take_app_le by lia. by rewrite take_ge by lia.
  - assert (Nat.ltb (length a + 1) (length (a ++ "."%char :: c :: g)) = true) as -> by (apply Nat.ltb_lt; rewrite length_app; simpl; lia).
    unfold a. by rewrite <-app_assoc.
Qed.

Lemma xtos_non_sci_parts s m e : let k := precision_of (S754_finite s m e) in
  xtos_non_sci (S754_finite s m e) = sign_text s ++ with_fraction (whole_part k (v_num m e) (v_den e)) (cut_fraction k (v_num m e) (v_den e)).
Proof.
  intros k. assert (5 < k) as Hk by (unfold k; destruct (precision_cases (S754_finite s m e)); lia).
  assert (0 < 2 ^ Z.max e 0) by (apply Z.pow_pos_nonneg; lia). assert (0 < 2 ^ Z.max (- e) 0) by (apply Z.pow_pos_nonneg; lia).
  rewrite <-non_sci_parts; [|done|unfold v_num; lia|unfold v_den; lia]. unfold xtos_non_sci. fold k.
  assert (double_fixed k (S754_finite s m e) = sign_text s ++ fixed_text k (v_num m e) (v_den e)) as ->; [|done].
  cbn [double_fixed]. unfold v_num, v_den, sign_text. rewrite Z.geb_leb. f_equal. destruct (Z.leb_spec 0 e).
  - by rewrite Z.max_l, (Z.max_r (- e)) by lia.
  - by rewrite (Z.max_r e), (Z.max_l (- e)), Z.pow_0_r, Z.mul_1_r by lia.
Qed.

Lemma decimal_double_finite s D ex : 0 <= D -> D * 10 ^ Z.max ex 0 < 10 ^ Z.max (- ex) 0 * 2 ^ 1000 -> isfinite (decimal_double s D ex) = true.
Proof.
  intros HD Hb. unfold decimal_double. assert (0 < 10 ^ Z.max ex 0) by (apply Z.pow_pos_nonneg; lia).
  destruct (D * 10 ^ Z.max ex 0) as [|n|n] eqn:E; [done| |lia]. assert (0 < 10 ^ Z.max (- ex) 0) as Hd by (apply Z.pow_pos_nonneg; lia).
  destruct (10 ^ Z.max (- ex) 0) as [|d|d]; [lia| |lia]. by apply quotient_finite.
Qed.

Lemma decimal_range ds : forallb isdigit ds = true -> 0 <= decimal ds < 10 ^ zlength ds.
Proof.
  induction ds as [|c ds IH] using rev_ind; [done|]. rewrite forallb_app, decimal_snoc, zlength_app. intros [H Hc]%andb_prop. specialize (IH H).
  cbn in Hc. rewrite andb_true_r in Hc. unfold isdigit in Hc. apply andb_prop in Hc as [H1%Nat.leb_le H2%Nat.leb_le].
  change (zlength [c]) with 1. rewrite Z.add_1_r, Z.pow_succ_r by apply zlength_nonneg. lia.
Qed.

Section number.
Context (s : bool) (m : positive) (e : Z) (Hm : bounded 53 1024 m e = true).
Let v := S754_finite s m e.
Let k := precision_of v.
Let w := whole_part k (v_num m e) (v_den e).
Let c := cut_fraction k (v_num m e) (v_den e).

Lemma number_parts : w <> [] /\ forallb isdigit w = true /\ forallb isdigit c = true /\ length c = 5%nat /\ 5 < k /\ 0 < v_num m e /\ 0 < v_den e.
Proof using Hm.
    destruct (v_range m e Hm) as (Hn & Hd & _). assert (5 < k) as Hk by (unfold k; destruct (precision_cases v); lia).
    destruct (whole_digits k (v_num m e) (v_den e)) as (H1 & H2 & _); [lia..|]. destruct (fraction_digits k (v_num m e) (v_den e)) as (H3 & _ & H4); [lia..|].
    split_and!; try done; [|unfold c, cut_fraction; rewrite length_take; lia]. unfold c, cut_fraction. by apply forallb_take_drop.
Qed.
Lemma number_text : xtos_non_sci v = sign_text s ++ with_fraction w c.
Proof using. apply xtos_non_sci_parts. Qed.
Lemma number_strtod : exists f j, c = f ++ replicate j "0"%char /\ strtod (xtos_non_sci v) = (decimal_double s (decimal (w ++ f)) (0 - zlength f), []).
Proof using Hm.
    destruct number_parts as (Hne & Hw & Hc & _). rewrite number_text.
    destruct (strtod_fraction s w c [] Hw Hc Hne) as (f & j & Ef & R); [by intros ??|]. exists f, j. split; [done|]. rewrite app_nil_r in R. exact R.
Qed.
Lemma number_chars : xtos_non_sci v <> [] /\ Forall (fun x => isdigit x = true \/ x = "."%char \/ x = "-"%char) (xtos_non_sci v).
Proof using Hm.
    destruct number_parts as (Hne & Hw & Hc & _). rewrite number_text.
    assert (forall ds, forallb isdigit ds = true -> Forall (fun x => isdigit x = true \/ x = "."%char \/ x = "-"%char) ds) as D.
    { intros ds Hds. eapply Forall_impl; [by apply forallb_Forall_digits|]. intros x. by left. }
    unfold with_fraction. destruct (strip_zeros_spec c) as [j Ec]. rewrite Ec, forallb_app in Hc. apply andb_prop in Hc as [Hc _].
    assert (Forall (fun x => isdigit x = true \/ x = "."%char \/ x = "-"%char) (sign_text s)) as Fs by (destruct s; [apply Forall_singleton; auto|constructor]).
    assert (forall r, sign_text s ++ w ++ r <> []) as N by (intros r E; apply app_eq_nil in E as [_ E]; by apply app_eq_nil in E as [? _]).
    destruct (strip_zeros c) as [|x xs].
    - split; [rewrite <-(app_nil_r w); apply N|]. apply Forall_app. auto.
    - split; [apply N|]. apply Forall_app. split; [done|]. apply Forall_app. split; [auto|]. apply Forall_app. split; [apply Forall_singleton; auto|auto].
Qed.

  (** A number below 2^53 stays finite. *)
Lemma small_number_finite : e < 0 -> isfinite (strtod (xtos_non_sci v)).1 = true.
Proof using Hm.
    intros He. destruct number_strtod as (f & j & Ec & ->). cbn [fst]. destruct number_parts as (_ & Hw & Hc & _ & Hk & Hn & Hd).
    rewrite Ec, forallb_app in Hc. apply andb_prop in Hc as [Hf _]. pose proof (decimal_range f Hf) as Bf. pose proof (decimal_range w Hw) as Bw.
    pose proof (zlength_nonneg f). apply decimal_double_finite; rewrite decimal_app; [nia|]. rewrite Z.max_r, Z.max_l by lia.
    replace (- (0 - zlength f)) with (zlength f) by lia. assert (decimal w + 1 <= 2 ^ 1000) as L; [|nia].
    destruct (whole_digits k (v_num m e) (v_den e)) as (_ & _ & Ew); [lia..|]. fold w in Ew. rewrite Ew.
    destruct (bounded_cases m e Hm) as (_ & H53 & _ & _). unfold v_num, v_den in *. rewrite (Z.max_r e), Z.pow_0_r, Z.mul_1_r in * by lia.
    set (d := 2 ^ Z.max (- e) 0) in *. assert (0 < 10 ^ k) by (apply Z.pow_pos_nonneg; lia).
    pose proof (div_half_even_near (Zpos m * 10 ^ k) d Hd) as N. set (q := div_half_even (Zpos m * 10 ^ k) d) in *.
    assert (q <= Zpos m * 10 ^ k + 1) by nia. assert (q / 10 ^ k <= Zpos m + 1).
    { apply Z.div_le_upper_bound; [lia|]. nia. }
    assert (2 ^ 54 <= 2 ^ 1000) by (apply Z.pow_le_mono_r; lia). lia.
Qed.

  (** A whole number is read back as itself. *)
Lemma whole_number_reads_back : (v_den e | v_num m e) -> strtod (xtos_non_sci v) = (v, []).
Proof using Hm.
    intros [z Ez]. destruct number_parts as (Hne & Hw & Hc & Hl & Hk & Hn & Hd). rewrite number_text.
    assert (0 < 10 ^ k) as Hp by (apply Z.pow_pos_nonneg; lia). assert (0 < z) by nia.
    assert (div_half_even (v_num m e * 10 ^ k) (v_den e) = z * 10 ^ k) as Eq.
    { unfold div_half_even. rewrite Ez. replace (z * v_den e * 10 ^ k) with (z * 10 ^ k * v_den e) by lia. rewrite Z.div_mul, Z.mod_mul by lia.
      rewrite Z.mul_0_r. by rewrite (proj2 (Z.ltb_lt 0 (v_den e)) Hd). }
    assert (decimal w = z) as Dw. { destruct (whole_digits k (v_num m e) (v_den e)) as (_ & _ & E); [lia..|]. unfold w. rewrite E, Eq. apply Z.div_mul. lia. }
    assert (decimal c = 0) as Dc.
    { destruct (fraction_digits k (v_num m e) (v_den e)) as (F1 & F2 & F3); [lia..|]. rewrite Eq, Z.mod_mul in F2 by lia.
      unfold c, cut_fraction. set (f := fraction_part k (v_num m e) (v_den e)) in *. rewrite <-(take_drop 5 f), forallb_app in F1. apply andb_prop in F1 as [G1 G2].
      rewrite <-(take_drop 5 f), decimal_app in F2. pose proof (decimal_range _ G1). pose proof (decimal_range _ G2).
      assert (0 < 10 ^ zlength (drop 5 f)) by (apply Z.pow_pos_nonneg; [lia|apply zlength_nonneg]). nia. }
    assert (zlength c = 5) as Lc by (unfold zlength; rewrite Hl; done).
    pose proof (strtod_rounds s w c [] (-5) m e Hw Hc Hne) as R. rewrite app_nil_r in R. apply R; [by intros ??|done| |cbn [read_exponent fst]; lia|unfold scale; lia|].
    - rewrite decimal_app, Dw, Dc, Lc. lia.
    - rewrite decimal_app, Dw, Dc, Lc, Z.add_0_r. assert (at_scale 0 = at_scale (-5) * 10 ^ 5) as -> by (rewrite <-at_scale_add by (unfold scale; lia); done).
      replace (z * 10 ^ 5 * at_scale (-5) * v_den e - v_num m e * (at_scale (-5) * 10 ^ 5)) with 0 by (rewrite Ez; lia).
      rewrite Z.abs_0, Z.mul_0_r. pose proof (at_scale_pos (-5) ltac:(unfold scale; lia)). nia.
Qed.
End number.

(** What a number is read back as. *)
Definition reread (v : double) : double := (strtod (xtos_non_sci v)).1.
Definition is_whole (v : double) : Prop := match v with S754_finite _ m e => (v_den e | v_num m e) | _ => True end.

Lemma reread_whole v : valid_binary 53 1024 v = true -> isfinite v = true -> is_whole v -> reread v = v.
Proof.
  intros Hv Hf Hw. destruct v as [s|s| |s m e]; [by destruct s|done|done|]. unfold reread. by rewrite whole_number_reads_back.
Qed.

Lemma xtos_reads_back v : valid_binary 53 1024 v = true -> isfinite v = true ->
  strtod (xtos_non_sci v) = (reread v, []) /\ isfinite (reread v) = true /\ xtos_non_sci v <> [] /\
  Forall (fun x => isdigit x = true \/ x = "."%char \/ x = "-"%char) (xtos_non_sci v).
Proof.
  intros Hv Hf. unfold reread. destruct v as [s|s| |s m e]; [|done|done|].
  - destruct s; vm_compute; (split; [done|]; split; [done|]; split; [done|]); repeat (apply Forall_cons_2; [auto|]); constructor.
  - cbn [valid_binary] in Hv. destruct (number_chars s m e Hv) as [Hne Fc]. destruct (Z.ltb_spec e 0) as [L|G].
    + pose proof (small_number_finite s m e Hv L). destruct (number_strtod s m e Hv) as (f & j & _ & R). rewrite R in *. done.
    + rewrite whole_number_reads_back; [done|done|]. exists (v_num m e). unfold v_den. rewrite Z.max_r, Z.pow_0_r by lia. lia.
Qed.

(** ** What can be written *)

Definition clean (s : cppstring) : Prop := " "%char ∉ s /\ ";"%char ∉ s.
Definition number_ok (v : double) : Prop := valid_binary 53 1024 v = true /\ isfinite v = true.
Definition label_ok (a : cppstring) : Prop := a <> [] /\ c_quote ∉ a /\ "="%char ∉ a /\ ";"%char ∉ a.
Definition unit_ok (u : cppstring) : Prop := clean u /\ forall c r, u = c :: r -> valid_number c = false.
Definition range_ok (r : cppstring) : Prop := clean r /\ (r <> [] -> is_threshold_range r = true).
Definition optional_ok (o : option double) : Prop := forall v, o = Some v -> number_ok v.

Definition float_ok (f : FloatValue) : Prop :=
  number_ok (value f) /\ unit_ok (unit f) /\ optional_ok (warning f) /\ optional_ok (critical f) /\ optional_ok (minimum f) /\ optional_ok (maximum f) /\
  range_ok (warning_range f) /\ range_ok (critical_range f).
(** Of the texts, only the marker of an undefined value is kept. *)
Definition perf_ok (p : PerformanceData) : Prop :=
  label_ok (alias p) /\ match data p with float_value f => float_ok f | string_value s => s = str "U" | no_value => False end.

Lemma number_clean v : number_ok v -> clean (xtos_non_sci v) /\ Forall (fun c => valid_number c = true) (xtos_non_sci v) /\ ","%char ∉ xtos_non_sci v /\ xtos_non_sci v <> [].
Proof.
  intros [Hv Hf]. destruct (xtos_reads_back v Hv Hf) as (_ & _ & Hne & F). rewrite Forall_forall in F.
  assert (forall x, isdigit x = false -> x <> "."%char -> x <> "-"%char -> x ∉ xtos_non_sci v) as N by (intros x ??? Hin; destruct (F x Hin) as [?|[?|?]]; congruence).
  split; [split; by apply N|]. split; [|split; [by apply N|done]].
  apply Forall_forall. intros c Hc. destruct (F c Hc) as [H|[->| ->]]; [|done..]. unfold valid_number. by rewrite H.
Qed.

Section roundtrip.
Context `{lexical_double}.

Lemma trim_number v : number_ok v -> trim_to_double (xtos_non_sci v) = reread v.
Proof.
  intros Hv. pose proof (number_clean v Hv) as (_ & Fv & Nc & Hne). destruct Hv as [Hv Hf]. destruct (xtos_reads_back v Hv Hf) as (R & Fr & _ & Fc).
  unfold trim_to_double. rewrite <-(app_nil_r (xtos_non_sci v)), (span_exact valid_number _ []) by (done || by intros). cbn [fst].
  assert (commas_to_points (xtos_non_sci v) = xtos_non_sci v) as ->.
  { unfold commas_to_points. change (str ",") with [","%char]. rewrite (proj2 (replace_correct (xtos_non_sci v) [] (str ".") ","%char)) by done.
    cbn [default]. by apply subst_char_none. }
  rewrite (cast_double_number _ (reread v)) by done. by destruct (xtos_non_sci v).
Qed.

(** What is read for a threshold: the text of a range stands, with the number it begins with. *)
Definition reread_threshold (range : cppstring) (o : option double) : option double :=
  match range with [] => reread <$> o | r => Some (trim_to_double r) end.
Definition reread_float (f : FloatValue) : FloatValue :=
  mkFloat (reread (value f)) (unit f) (reread_threshold (warning_range f) (warning f)) (reread_threshold (critical_range f) (critical f))
    (reread <$> minimum f) (reread <$> maximum f) (warning_range f) (critical_range f).
Definition reread_perf (p : PerformanceData) : PerformanceData :=
  mkPerf (alias p) (match data p with float_value f => float_value (reread_float f) | d => d end).

(** ** The fields of a value *)

Definition empty (s : cppstring) : bool := negb (is_set s).
Definition fields (a b c d : cppstring) : list cppstring :=
  if empty a && empty b && empty c && empty d then []
  else a :: if empty b && empty c && empty d then [] else b :: if empty c && empty d then [] else c :: if empty d then [] else [d].

Lemma optional_empty o : optional_ok o -> empty (optional_text o) = negb (is_some o).
Proof.
  intros Ho. destruct o as [v|]; [|done]. pose proof (number_clean v (Ho v eq_refl)) as (_ & _ & _ & Hne). cbn [optional_text is_some negb].
  by destruct (xtos_non_sci v).
Qed.
Lemma threshold_empty r o : optional_ok o -> empty (threshold_text r o) = negb (is_some o || is_set r).
Proof. intros Ho. destruct r; [cbn [threshold_text is_set]; rewrite orb_false_r; by apply optional_empty|]. by destruct o. Qed.

Definition float_fields (f : FloatValue) : list cppstring :=
  fields (threshold_text (warning_range f) (warning f)) (threshold_text (critical_range f) (critical f)) (optional_text (minimum f)) (optional_text (maximum f)).

Lemma float_text f : float_ok f -> forall first, first = xtos_non_sci (value f) ++ unit f ->
  parse_float_perf_value f = join_with ";"%char (first :: float_fields f).
Proof.
  intros (_ & _ & Hw & Hc & Hmi & Hma & _ & _) first ->. unfold parse_float_perf_value, float_fields, fields.
  pose proof (threshold_empty (warning_range f) _ Hw) as Ew. pose proof (threshold_empty (critical_range f) _ Hc) as Ec.
  pose proof (optional_empty _ Hmi) as Emi. pose proof (optional_empty _ Hma) as Ema. rewrite <-Ew, <-Ec, <-Emi, <-Ema. cbn zeta.
  set (a := threshold_text _ _). set (b := threshold_text _ _). set (c := optional_text (minimum f)). set (d := optional_text (maximum f)).
  clearbody a b c d. destruct a, b, c, d; cbn [empty is_set negb andb join_with app]; by rewrite ?app_nil_r, <-?app_assoc.
Qed.

(** ** The builder *)

Definition building (l : list PerformanceData) (a : cppstring) (f : FloatValue) : perf_builder :=
  mkBuilder (l ++ [mkPerf a (float_value f)]) (Some (length l)).

Lemma on_last_app g l p : on_last g (mkBuilder (l ++ [p]) (Some (length l))) = building l (alias p) (g (mutable_float p)).
Proof. unfold on_last, building. cbn [lastPerf payload]. f_equal. by rewrite alter_app_r_alt, Nat.sub_diag by lia. Qed.

Definition apply_threshold (set : FloatValue -> double -> cppstring -> FloatValue) (text : cppstring) (f : FloatValue) : FloatValue :=
  match text with [] => f | _ => set f (trim_to_double text) (if is_threshold_range text then text else []) end.

Definition with_warning (f : FloatValue) (v : double) (r : cppstring) : FloatValue :=
  mkFloat (value f) (unit f) (Some v) (critical f) (minimum f) (maximum f) (match r with [] => warning_range f | _ => r end) (critical_range f).
Definition with_critical (f : FloatValue) (v : double) (r : cppstring) : FloatValue :=
  mkFloat (value f) (unit f) (warning f) (Some v) (minimum f) (maximum f) (warning_range f) (match r with [] => critical_range f | _ => r end).
Definition with_minimum (f : FloatValue) (v : double) (_ : cppstring) : FloatValue :=
  mkFloat (value f) (unit f) (warning f) (critical f) (Some v) (maximum f) (warning_range f) (critical_range f).
Definition with_maximum (f : FloatValue) (v : double) (_ : cppstring) : FloatValue :=
  mkFloat (value f) (unit f) (warning f) (critical f) (minimum f) (Some v) (warning_range f) (critical_range f).

(** The calls for one field, when it is there *)
Definition nonempty_calls (s : cppstring) (f : cppstring -> list builder_call) : list builder_call := match s with [] => [] | _ => f s end.

Lemma field_1 first a b c d f : field (first :: fields a b c d) 1 f = nonempty_calls a f.
Proof. unfold fields, field, nonempty_calls. by destruct a, b, c, d. Qed.
Lemma field_2 first a b c d f : field (first :: fields a b c d) 2 f = nonempty_calls b f.
Proof. unfold fields, field, nonempty_calls. by destruct a, b, c, d. Qed.
Lemma field_3 first a b c d f : field (first :: fields a b c d) 3 f = nonempty_calls c f.
Proof. unfold fields, field, nonempty_calls. by destruct a, b, c, d. Qed.
Lemma field_4 first a b c d f : field (first :: fields a b c d) 4 f = nonempty_calls d f.
Proof. unfold fields, field, nonempty_calls. by destruct a, b, c, d. Qed.

Lemma build_warning l a f s : fold_left build_call (nonempty_calls s (threshold set_warning set_warning_range)) (building l a f) = building l a (apply_threshold with_warning s f).
Proof.
  unfold nonempty_calls, threshold, apply_threshold. destruct s as [|c s]; [done|]. destruct (is_threshold_range (c :: s)); cbn [fold_left build_call];
    unfold building at 1; rewrite on_last_app; [unfold building at 1; rewrite on_last_app|]; done.
Qed.
Lemma build_critical l a f s : fold_left build_call (nonempty_calls s (threshold set_critical set_critical_range)) (building l a f) = building l a (apply_threshold with_critical s f).
Proof.
  unfold nonempty_calls, threshold, apply_threshold. destruct s as [|c s]; [done|]. destruct (is_threshold_range (c :: s)); cbn [fold_left build_call];
    unfold building at 1; rewrite on_last_app; [unfold building at 1; rewrite on_last_app|]; done.
Qed.
Lemma build_minimum l a f s : fold_left build_call (nonempty_calls s (fun s => [set_minimum (trim_to_double s)])) (building l a f) = building l a (apply_threshold with_minimum s f).
Proof. destruct s as [|c s]; [done|]. cbn [nonempty_calls fold_left build_call apply_threshold]. unfold building at 1. by rewrite on_last_app. Qed.
Lemma build_maximum l a f s : fold_left build_call (nonempty_calls s (fun s => [set_maximum (trim_to_double s)])) (building l a f) = building l a (apply_threshold with_maximum s f).
Proof. destruct s as [|c s]; [done|]. cbn [nonempty_calls fold_left build_call apply_threshold]. unfold building at 1. by rewrite on_last_app. Qed.

(** The calls of a value with its fields *)
Definition float_calls (a : cppstring) (v : double) (u w c mi ma : cppstring) : list builder_call :=
  add a :: set_value v :: (match u with [] => [] | _ => [set_unit u] end) ++
  nonempty_calls w (threshold set_warning set_warning_range) ++ nonempty_calls c (threshold set_critical set_critical_range) ++
  nonempty_calls mi (fun s => [set_minimum (trim_to_double s)]) ++ nonempty_calls ma (fun s => [set_maximum (trim_to_double s)]) ++ [next].

Lemma build_float b a v u w c mi ma : fold_left build_call (float_calls a v u w c mi ma) b =
  building (payload b) a (apply_threshold with_maximum ma (apply_threshold with_minimum mi (apply_threshold with_critical c
    (apply_threshold with_warning w (mkFloat v u None None None None [] []))))).
Proof.
  unfold float_calls. cbn [fold_left build_call]. rewrite on_last_app. cbn [alias mutable_float data empty_float unit warning critical minimum maximum warning_range critical_range].
  rewrite !fold_left_app.
  assert (fold_left build_call (match u with [] => [] | _ => [set_unit u] end) (building (payload b) a (mkFloat v [] None None None None [] [])) =
          building (payload b) a (mkFloat v u None None None None [] [])) as ->.
  { destruct u; [done|]. cbn [fold_left build_call]. unfold building at 1. by rewrite on_last_app. }
  rewrite build_warning, build_critical, build_minimum, build_maximum. done.
Qed.

Lemma reread_thresholds r o : range_ok r -> optional_ok o -> match threshold_text r o with
  | [] => reread_threshold r o = None /\ r = []
  | t => reread_threshold r o = Some (trim_to_double t) /\ (if is_threshold_range t then t else []) = r end.
Proof.
  intros [_ Hr] Ho. destruct r as [|c r].
  - cbn [threshold_text reread_threshold]. destruct o as [v|]; [|done]. cbn [optional_text fmap option_fmap option_map].
    pose proof (number_clean v (Ho v eq_refl)) as (_ & Fv & _ & Hne). rewrite <-(trim_number v (Ho v eq_refl)).
    destruct (xtos_non_sci v) as [|x xs] eqn:E; [done|]. split; [done|].
    assert (is_threshold_range (x :: xs) = false) as ->; [|done]. rewrite Forall_forall in Fv. unfold is_threshold_range, head_is.
    apply orb_false_intro; [apply orb_false_intro|]; apply bool_decide_eq_false_2.
    + intros ->. by assert (valid_number "@"%char = true) by (apply Fv; left).
    + intros ->. by assert (valid_number "~"%char = true) by (apply Fv; left).
    + intros Hin. by specialize (Fv _ Hin).
  - cbn [threshold_text reread_threshold]. rewrite Hr by done. done.
Qed.

Lemma apply_fields f : float_ok f ->
  apply_threshold with_maximum (optional_text (maximum f)) (apply_threshold with_minimum (optional_text (minimum f))
    (apply_threshold with_critical (threshold_text (critical_range f) (critical f)) (apply_threshold with_warning (threshold_text (warning_range f) (warning f))
      (mkFloat (reread (value f)) (unit f) None None None None [] [])))) = reread_float f.
Proof.
  intros (_ & _ & Hw & Hc & Hmi & Hma & Rw & Rc). pose proof (reread_thresholds _ _ Rw Hw) as Tw. pose proof (reread_thresholds _ _ Rc Hc) as Tc.
  assert (forall o, optional_ok o -> match optional_text o with [] => o = None | t => reread <$> o = Some (trim_to_double t) end) as Op.
  { intros o Ho. destruct o as [v|]; [|done]. cbn [optional_text].
    pose proof (number_clean v (Ho v eq_refl)) as (_ & _ & _ & Hne). pose proof (trim_number v (Ho v eq_refl)) as T. destruct (xtos_non_sci v); [done|]. by rewrite T. }
  pose proof (Op _ Hmi) as Tmi. pose proof (Op _ Hma) as Tma. unfold reread_float.
  destruct (threshold_text (warning_range f) (warning f)) as [|x1 t1]; destruct Tw as [-> Ew];
  destruct (threshold_text (critical_range f) (critical f)) as [|x2 t2]; destruct Tc as [-> Ec];
  (destruct (optional_text (minimum f)) as [|x3 t3]; rewrite Tmi); (destruct (optional_text (maximum f)) as [|x4 t4]; rewrite Tma);
  cbn [apply_threshold with_warning with_critical with_minimum with_maximum value unit warning critical minimum maximum warning_range critical_range fmap option_fmap option_map];
  rewrite ?Ew, ?Ec; f_equal; by destruct (warning_range f), (critical_range f).
Qed.

(** ** The parser on one item *)

Definition quoted (a : cppstring) : cppstring := c_quote :: a ++ [c_quote].
Lemma unquote_quoted a : unquote (quoted a) = a.
Proof.
  unfold unquote, quoted. change (c_quote :: a ++ [c_quote]) with ((c_quote :: a) ++ [c_quote]) at 1. rewrite last_snoc.
  rewrite !bool_decide_eq_true_2 by done. cbn [andb drop length]. rewrite length_app. cbn [length].
  replace (S (length a + 1) - 2)%nat with (length a) by lia. change (skipn 0 ?x) with x. by rewrite take_app_length.
Qed.
Lemma split2_char c a b : c ∉ a -> split2 (a ++ c :: b) [c] = (a, b).
Proof.
  intros N. unfold split2. rewrite find_char_first by done. unfold substr, substr_from. rewrite drop_0, take_app_length. cbn [length].
  rewrite drop_app_ge by lia. by replace (length a + 1 - length a)%nat with 1%nat by lia.
Qed.

(** The text of an item, as its label and its fields *)
Lemma parse_chunk_fields a first rest : label_ok a -> Forall (fun x => ";"%char ∉ x) (first :: rest) -> last rest <> Some [] ->
  default [] (split_lst (quoted a ++ "="%char :: join_with ";"%char (first :: rest)) (str ";")) = (quoted a ++ "="%char :: first) :: rest.
Proof.
  intros (_ & Nq & Ne & Ns) F Hl. change (str ";") with [";"%char]. rewrite split_lst_char. cbn [default].
  assert (";"%char ∉ quoted a ++ "="%char :: first) as N1.
  { apply Forall_cons in F as [F _]. unfold quoted. intros [[?|[?|?]%elem_of_app]%elem_of_cons|[?|?]%elem_of_cons]%elem_of_app; try done. by apply list_elem_of_singleton in H0. }
  replace (quoted a ++ "="%char :: join_with ";"%char (first :: rest)) with (join_with ";"%char ((quoted a ++ "="%char :: first) :: rest)).
  - apply pieces_join; [|destruct rest; [simpl; by destruct (quoted a)|done]]. apply Forall_cons in F as [_ F]. by constructor.
  - destruct rest; [done|]. cbn [join_with]. by rewrite <-app_assoc.
Qed.
Lemma quoted_no_equals a : "="%char ∉ a -> "="%char ∉ quoted a.
Proof. intros N. unfold quoted. rewrite elem_of_cons, elem_of_app, list_elem_of_singleton. intros [?|[?|?]]; done. Qed.

Lemma fields_ok a b c d : Forall (fun x => ";"%char ∉ x) [a; b; c; d] -> Forall (fun x => ";"%char ∉ x) (fields a b c d) /\ last (fields a b c d) <> Some [].
Proof.
  intros F. rewrite !Forall_cons in F. destruct F as (Fa & Fb & Fc & Fd & _). unfold fields.
  destruct a, b, c, d; cbn [empty is_set negb andb last]; (split; [by repeat constructor|done]).
Qed.

Lemma optional_clean o : optional_ok o -> clean (optional_text o).
Proof. intros Ho. destruct o as [v|]; [by apply number_clean, Ho|split; apply not_elem_of_nil]. Qed.
Lemma threshold_clean r o : range_ok r -> optional_ok o -> clean (threshold_text r o).
Proof. intros [Hr _] Ho. destruct r; [by apply optional_clean|done]. Qed.

Lemma parse_chunk_float a f : label_ok a -> float_ok f ->
  parse_chunk (quoted a ++ "="%char :: parse_float_perf_value f) =
  (float_calls a (reread (value f)) (unit f) (threshold_text (warning_range f) (warning f)) (threshold_text (critical_range f) (critical f))
     (optional_text (minimum f)) (optional_text (maximum f)), true).
Proof.
  intros Ha Hf. pose proof Hf as (Hv & [[Ub Us] Uv] & Hw & Hc & Hmi & Hma & Rw & Rc). set (first := xtos_non_sci (value f) ++ unit f).
  rewrite (float_text f Hf first eq_refl). destruct (number_clean _ Hv) as ((_ & Ns) & Fv & _ & Hne).
  destruct (fields_ok (threshold_text (warning_range f) (warning f)) (threshold_text (critical_range f) (critical f)) (optional_text (minimum f)) (optional_text (maximum f))) as [F L].
  { by repeat apply Forall_cons_2; [apply threshold_clean|apply threshold_clean|apply optional_clean|apply optional_clean|]. }
  unfold parse_chunk, float_fields. rewrite parse_chunk_fields; [|done|constructor; [unfold first; by apply not_elem_of_app|done]|done].
  change (str "=") with ["="%char]. rewrite (split2_char "="%char (quoted a) first) by (apply quoted_no_equals; by destruct Ha as (_ & _ & ? & _)).
  rewrite unquote_quoted. destruct Ha as (Hane & _). destruct a as [|x xs] eqn:Ea; [done|]. rewrite <-Ea in *.
  assert (span (fun c => negb (valid_number c)) first = ([], first)) as ->.
  { unfold first. destruct (xtos_non_sci (value f)) as [|y ys]; [done|]. apply Forall_cons in Fv as [Vy _]. cbn [app span]. by rewrite Vy. }
  cbn [snd]. assert (first <> []) by (unfold first; by destruct (xtos_non_sci (value f))). destruct first as [|y ys] eqn:Ef; [done|]. rewrite <-Ef.
  unfold first. rewrite (span_exact valid_number) by done. rewrite (trim_number _ Hv).
  rewrite field_1, field_2, field_3, field_4. reflexivity.
Qed.

Lemma parse_chunk_undefined a : label_ok a -> parse_chunk (quoted a ++ "="%char :: str "U") = ([add_string a (str "U"); next], true).
Proof.
  intros Ha. unfold parse_chunk. pose proof (parse_chunk_fields a (str "U") [] Ha) as E. cbn [join_with] in E.
  rewrite E; [|apply Forall_singleton; vm_decide|done].
  change (str "=") with ["="%char]. rewrite split2_char by (apply quoted_no_equals; by destruct Ha as (_ & _ & ? & _)).
  rewrite unquote_quoted. destruct Ha as (Hne & _). by destruct a.
Qed.

(** What an item calls for, and what its builder makes of it *)
Lemma item_calls p : perf_ok p -> exists calls, parse_chunk (perf_text p) = (calls, true) /\
  forall b, payload (fold_left build_call calls b) = payload b ++ [reread_perf p].
Proof.
  intros [Ha Hd]. unfold perf_text.
  assert (forall t, c_quote :: alias p ++ str "'=" ++ t = quoted (alias p) ++ "="%char :: t) as ->.
  { intros t. unfold quoted. cbn [app]. f_equal. by rewrite <-app_assoc. }
  destruct p as [a d]. cbn [alias data] in *. destruct d as [|t|f]; [done| |].
  - subst t. eexists. split; [by apply parse_chunk_undefined|]. intros b. cbn [fold_left build_call payload]. done.
  - eexists. split; [by apply parse_chunk_float|]. intros b. rewrite build_float, apply_fields by done. done.
Qed.

Lemma item_clean p : perf_ok p -> exists body, perf_text p = quoted (alias p) ++ body /\ " "%char ∉ body.
Proof.
  intros [Ha Hd]. exists ("="%char :: match data p with float_value v => parse_float_perf_value v | string_value s => s | no_value => [] end).
  split. { unfold perf_text, quoted. cbn [app]. f_equal. by rewrite <-app_assoc. }
  apply not_elem_of_cons. split; [done|]. destruct (data p) as [|t|f]; [done|subst; vm_decide|].
  pose proof Hd as (Hv & [[Ub _] _] & Hw & Hc & Hmi & Hma & Rw & Rc). unfold parse_float_perf_value.
  pose proof (threshold_clean _ _ Rw Hw) as [Cw _]. pose proof (threshold_clean _ _ Rc Hc) as [Cc _]. pose proof (optional_clean _ Hmi) as [Cmi _].
  pose proof (optional_clean _ Hma) as [Cma _]. pose proof (number_clean _ Hv) as ((Cv & _) & _).
  assert (" "%char ∉ str ";") by vm_decide.
  repeat first [apply not_elem_of_nil | done | apply not_elem_of_app; split | match goal with |- _ ∉ (if ?b then _ else _) => destruct b end].
Qed.

(** ** The whole text *)

Definition rest_text (l : list PerformanceData) : cppstring := concat (map (fun p => " "%char :: perf_text p) l).

Lemma build_append l : forall ret, (fold_left (append_perf no_truncation) l (ret, false)).1 = ret ++ rest_text l.
Proof.
  induction l as [|p l IH]; intros ret; cbn [fold_left]; [by rewrite app_nil_r|]. unfold append_perf at 2. cbn [no_truncation Z.eqb orb]. rewrite IH.
  unfold rest_text. cbn [map concat]. by rewrite <-app_assoc.
Qed.
Lemma build_text p l : build_performance_data (p :: l) no_truncation = perf_text p ++ rest_text l.
Proof. unfold build_performance_data. cbn [fold_left]. unfold append_perf at 2. cbn [no_truncation Z.eqb orb app]. apply build_append. Qed.

Lemma rest_text_head l : rest_text l = [] /\ l = [] \/ exists p l', l = p :: l' /\ rest_text l = " "%char :: perf_text p ++ rest_text l'.
Proof. destruct l as [|p l]; [by left|right]. exists p, l. done. Qed.

Lemma quoted_text_start a body : span is_separator (quoted a ++ body) = ([], quoted a ++ body).
Proof. done. Qed.
Lemma parse_loop_quoted fuel a body : c_quote ∉ a -> parse_loop (S fuel) (quoted a ++ body) =
  match find (quoted a ++ body) (str " ") (length (quoted a)) with
  | Some O => []
  | Some q => let '(calls, go_on) := parse_chunk (take q (quoted a ++ body)) in
              calls ++ if go_on then parse_loop fuel (span is_separator (drop q (quoted a ++ body))).2 else []
  | None => (parse_chunk (quoted a ++ body)).1
  end.
Proof.
  intros Nq. cbn [parse_loop]. rewrite quoted_text_start.
  assert (search_start (quoted a ++ body) (length (@nil ascii)) = Some (length (quoted a))) as Es.
  { unfold search_start, quoted, head_is. cbn [app]. rewrite bool_decide_eq_true_2 by done. rewrite <-app_assoc.
    change (c_quote :: a ++ [c_quote] ++ body) with ([c_quote] ++ a ++ c_quote :: body).
    rewrite (find_char_next [c_quote]) by done. cbn [fmap option_fmap option_map length]. f_equal. rewrite length_app. simpl. lia. }
  rewrite Es. done.
Qed.

(** Each item is found: behind the quotes of its label, up to the blank before the next. *)
Lemma parse_loop_items l : forall p fuel, perf_ok p -> Forall perf_ok l -> (length l < fuel)%nat ->
  exists calls, parse_loop fuel (perf_text p ++ rest_text l) = calls /\
  forall b, payload (fold_left build_call calls b) = payload b ++ map reread_perf (p :: l).
Proof.
  induction l as [|p' l IH]; intros p fuel Hp Hl Hf; (destruct fuel as [|fuel]; [simpl in Hf; lia|]);
    destruct (item_clean p Hp) as (body & Et & Nb); destruct (item_calls p Hp) as (calls & Ec & Hc);
    pose proof Hp as [(_ & Nq & _) _]; rewrite Et in *; rewrite <-?app_assoc, parse_loop_quoted by done.
  - change (rest_text []) with (@nil ascii). rewrite app_nil_r.
    assert (find (quoted (alias p) ++ body) (str " ") (length (quoted (alias p))) = None) as ->.
    { pose proof (find_char body " "%char (quoted (alias p))) as F. change (str " ") with [" "%char]. destruct (find _ _ _); [|done].
      destruct F as (x & y & -> & _). destruct Nb. apply elem_of_app. right. left. }
    exists calls. split; [by rewrite Ec|]. intros b. by rewrite Hc.
  - apply Forall_cons in Hl as [Hp' Hl]. change (rest_text (p' :: l)) with (" "%char :: perf_text p' ++ rest_text l).
    change (str " ") with [" "%char]. rewrite find_char_next by done.
    destruct (length (quoted (alias p)) + length body)%nat as [|n] eqn:En; [simpl in En; lia|]. rewrite <-En.
    rewrite app_assoc, <-length_app, take_app_length, drop_app_length, Ec.
    destruct (item_clean p' Hp') as (body' & Et' & _).
    assert ((span is_separator (" "%char :: perf_text p' ++ rest_text l)).2 = perf_text p' ++ rest_text l) as ->.
    { rewrite Et', <-app_assoc. change (span is_separator (" "%char :: ?x)) with (let '(a, b) := span is_separator x in (" "%char :: a, b)).
      by rewrite quoted_text_start. }
    destruct (IH p' fuel Hp' Hl ltac:(simpl in Hf; lia)) as (calls' & -> & Hc').
    eexists. split; [done|]. intros b. rewrite fold_left_app, Hc', Hc, <-app_assoc. done.
Qed.

Lemma rest_length l : (length l <= length (rest_text l))%nat.
Proof. induction l as [|p l IH]; [done|]. change (rest_text (p :: l)) with ((" "%char :: perf_text p) ++ rest_text l). rewrite length_app. simpl. lia. Qed.

(** Whatever the text, an iteration takes at least a character of it. *)
Lemma span_rest_shorter q s : (length (span q s).2 <= length s)%nat.
Proof. pose proof (span_app q s) as E. destruct (span q s) as [a b]. subst s. rewrite length_app. simpl. lia. Qed.
Lemma perf_loop_fuel f : forall g perf, (length perf < f)%nat -> (length perf < g)%nat -> parse_loop f perf = parse_loop g perf.
Proof.
  induction f as [|f IH]; intros g perf Hf Hg; [lia|]. destruct g as [|g]; [lia|]. cbn [parse_loop].
  pose proof (span_rest_shorter is_separator perf) as L. destruct (span is_separator perf) as [blanks rest]. cbn [snd] in L. destruct rest as [|c rest]; [done|].
  destruct (search_start _ _) as [p|]; [|done]. destruct (find (c :: rest) (str " ") p) as [[|q]|]; [done| |done].
  destruct (parse_chunk _) as [calls []]; [|done]. f_equal. pose proof (span_rest_shorter is_separator (drop (S q) (c :: rest))) as L'.
  rewrite length_drop in L'. cbn [length] in L, L'. apply IH; lia.
Qed.

(** A limit on the length is kept. *)
Lemma append_within n l : 0 < n -> forall ret first, zlength ret <= n -> zlength (fold_left (append_perf n) l (ret, first)).1 <= n.
Proof.
  intros Hn. induction l as [|p l IH]; intros ret first Hr; cbn [fold_left]; [done|]. unfold append_perf at 2. apply IH.
  unfold no_truncation. rewrite (proj2 (Z.eqb_neq n 0)) by lia. cbn [orb]. destruct (Z.leb_spec (zlength ret + zlength ((if first then [] else str " ") ++ perf_text p)) n); [|done].
  rewrite zlength_app. done.
Qed.
Lemma build_within line n : 0 < n -> zlength (build_performance_data line n) <= n.
Proof. intros Hn. apply append_within; [done|]. change (zlength (@nil ascii)) with 0. lia. Qed.

(** An item whose numbers are whole and whose thresholds are plain numbers. *)
Definition whole_optional (o : option double) : Prop := forall v, o = Some v -> is_whole v.
Definition exact_perf (p : PerformanceData) : Prop :=
  match data p with
  | float_value f => is_whole (value f) /\ whole_optional (warning f) /\ whole_optional (critical f) /\ whole_optional (minimum f) /\
      whole_optional (maximum f) /\ warning_range f = [] /\ critical_range f = []
  | _ => True
  end.

Lemma reread_optional o : optional_ok o -> whole_optional o -> reread <$> o = o.
Proof. destruct o as [v|]; [|done]. intros Ho Hw. cbn. f_equal. destruct (Ho v eq_refl) as [Hv Hf]. apply reread_whole; [done|done|by apply Hw]. Qed.
Lemma reread_exact line : Forall perf_ok line -> Forall exact_perf line -> map reread_perf line = line.
Proof.
  induction 1 as [|p l Hp Hl IH]; intros He; [done|]. apply Forall_cons in He as [Hx He]. cbn [map]. rewrite IH by done. f_equal.
  unfold reread_perf. destruct p as [al d]. cbn [alias data] in *. f_equal. destruct d as [| |f]; try done. f_equal.
  destruct Hp as [_ Hp]. cbn [data] in Hp. destruct Hp as ((Hv & Hf) & _ & O1 & O2 & O3 & O4 & _). destruct Hx as (W0 & W1 & W2 & W3 & W4 & R1 & R2).
  unfold reread_float. rewrite R1, R2. cbn [reread_threshold]. rewrite !reread_optional, reread_whole by done. destruct f. cbn in *. by subst.
Qed.

End roundtrip.

Module Demo.
#[local] Existing Instance PerfData.Demo.strict_double.
Definition disk : PerformanceData :=
  mkPerf (str "C: used") (float_value (mkFloat (to_double 80) (str "%") None (Some (to_double 90)) (Some (to_double 0)) (Some (to_double 100)) (str "@10:20") [])).
Definition line : list PerformanceData := [disk; mkPerf (str "age") (string_value (str "U"))].

Lemma line_ok : Forall perf_ok line.
Proof.
  assert (forall z, Z.abs z < 2 ^ 100 -> isfinite (to_double z) = true -> number_ok (to_double z)) as N.
  { intros z Hz Hf. split; [|done]. apply to_double_valid. assert (2 ^ 100 <= 2 ^ 1000) by (apply Z.pow_le_mono_r; lia). lia. }
  assert (forall z o, o = Some (to_double z) -> Z.abs z < 2 ^ 100 -> isfinite (to_double z) = true -> optional_ok o) as O.
  { intros z o -> H1 H2 v [= <-]. by apply N. }
  apply Forall_cons_2; [|apply Forall_cons_2; [|constructor]]; split; try (split_and!; vm_decide); [|done].
  split; [by apply N|]. split; [split; [split; vm_decide|by intros ?? [= <- _]]|]. split; [done|].
  split; [by eapply (O 90)|]. split; [by eapply (O 0)|]. split; [by eapply (O 100)|]. split; (split; [split; vm_decide|done]).
Qed.
Definition whole_line : list PerformanceData :=
  [mkPerf (str "C: used") (float_value (mkFloat (to_double 80) (str "%") (Some (to_double 85)) (Some (to_double 90)) (Some (to_double 0)) (Some (to_double 100)) [] []))].
Lemma whole_line_ok : Forall perf_ok whole_line.
Proof.
  assert (forall z, Z.abs z < 2 ^ 100 -> isfinite (to_double z) = true -> number_ok (to_double z)) as N.
  { intros z Hz Hf. split; [|done]. apply to_double_valid. assert (2 ^ 100 <= 2 ^ 1000) by (apply Z.pow_le_mono_r; lia). lia. }
  assert (forall z o, o = Some (to_double z) -> Z.abs z < 2 ^ 100 -> isfinite (to_double z) = true -> optional_ok o) as O.
  { intros z o -> H1 H2 v [= <-]. by apply N. }
  constructor; [|constructor]. split; [split_and!; vm_decide|]. split; [by apply N|]. split; [split; [split; vm_decide|by intros ?? [= <- _]]|].
  split; [by eapply (O 85)|]. split; [by eapply (O 90)|]. split; [by eapply (O 0)|]. split; [by eapply (O 100)|]. split; (split; [split; vm_decide|done]).
Qed.
Lemma whole_line_exact : Forall exact_perf whole_line.
Proof.
  assert (forall z o, o = Some (to_double z) -> is_whole (to_double z) -> whole_optional o) as O by (intros z o -> Hw v [= <-]; done).
  constructor; [|constructor]. split; [exists 80; reflexivity|].
  split; [eapply (O 85); [done|exists 85; reflexivity]|]. split; [eapply (O 90); [done|exists 90; reflexivity]|].
  split; [by eapply (O 0)|]. split; [eapply (O 100); [done|exists 100; reflexivity]|]. done.
Qed.
End Demo.
