(* ===== verification/RegexGuard.v ===== *)
(** The bounds on regular expression matching: include/parsers/where/regex_guard.cpp
    (the time budget of a check) and the pattern cache and guarded match of
    include/parsers/operators.cpp.

    Boost.Regex is the interface [regex_engine]: whether a pattern compiles, and how a
    match ends.  The time each match takes is given in advance, in the state. *)

From stdpp Require Import base list.
From Stdlib Require Import Ascii ZArith Lia.
From S2P Require Import Prelude.

Local Open Scope Z_scope.

(** How [boost::regex_match] ends: an answer, a [regex_error] raised while matching
    (error_complexity, error_stack or another code), a [std::runtime_error], or
    anything else. *)
Inductive match_outcome :=
| Answer (matched : bool)
| RegexError (too_complex : bool)
| RuntimeError
| OtherError.

Class regex_engine := {
  regex : Type;
  (** [None]: the constructor raises bad_expression *)
  compile : cppstring -> option regex;
  regex_match : cppstring -> regex -> match_outcome
}.

(** Why a match gave no answer; each is reported as an error of the context. *)
Inductive regex_failure := BudgetExhausted | SubjectTooLong | TooExpensive | InvalidSyntax.

Definition default_regex_budget_ms : Z := 30000.
Definition regex_subject_cap : Z := 1024 * 1024.
Definition regex_cache_entries : nat := 16.

(** The thread's state. *)
Record regex_state `{regex_engine} := mkRegex {
  regex_cache : list (cppstring * regex);
  regex_spent_ms : Z;
  regex_budget_ms : Z;
  regex_clock : list Z
}.

Section Guard.
Context `{regex_engine}.

Definition reset_regex_budget (st : regex_state) : regex_state :=
  mkRegex _ (regex_cache st) 0 (regex_budget_ms st) (regex_clock st).
Definition set_regex_budget_ms (budget_ms : Z) (st : regex_state) : regex_state :=
  mkRegex _ (regex_cache st) (regex_spent_ms st) budget_ms (regex_clock st).
Definition regex_budget_exhausted (st : regex_state) : bool := regex_spent_ms st >=? regex_budget_ms st.
Definition max_regex_subject_bytes : Z := regex_subject_cap.
(** [unsigned long] arithmetic *)
Definition charge_regex_time_ms (spent_ms : Z) (st : regex_state) : regex_state :=
  mkRegex _ (regex_cache st) (wrap_u 64 (regex_spent_ms st + spent_ms)) (regex_budget_ms st) (regex_clock st).

(** The entry of a pattern and the list without it. *)
Fixpoint cache_find (pattern : cppstring) (l : list (cppstring * regex)) : option (regex * list (cppstring * regex)) :=
  match l with
  | [] => None
  | (p, r) :: l' =>
      if bool_decide (p = pattern) then Some (r, l')
      else match cache_find pattern l' with Some (r', l'') => Some (r', (p, r) :: l'') | None => None end
  end.

Definition set_cache (l : list (cppstring * regex)) (st : regex_state) : regex_state :=
  mkRegex _ l (regex_spent_ms st) (regex_budget_ms st) (regex_clock st).

(** [None]: the pattern does not compile, and the exception leaves the function. *)
Definition compiled_regex (pattern : cppstring) (st : regex_state) : option regex * regex_state :=
  match cache_find pattern (regex_cache st) with
  | Some (r, rest) => (Some r, set_cache ((pattern, r) :: rest) st)
  | None =>
      match compile pattern with
      | None => (None, st)
      | Some r =>
          let l := (pattern, r) :: regex_cache st in
          (Some r, set_cache (if Nat.ltb regex_cache_entries (length l) then take (length l - 1) l else l) st)
      end
  end.

(** The elapsed time of this match. *)
Definition tick (st : regex_state) : Z * regex_state :=
  match regex_clock st with
  | [] => (0, st)
  | t :: ts => (t, mkRegex _ (regex_cache st) (regex_spent_ms st) (regex_budget_ms st) ts)
  end.
Definition charge (st : regex_state) : regex_state :=
  let '(t, st') := tick st in charge_regex_time_ms t st'.

(** The body of [regex_match_to_container] once the pattern is a string. *)
Definition guarded_match (subject regexp : cppstring) (st : regex_state) : result regex_failure bool * regex_state :=
  if regex_budget_exhausted st then (Throw BudgetExhausted, st)
  else if zlength subject >? max_regex_subject_bytes then (Throw SubjectTooLong, st)
  else
    let '(re, st') := compiled_regex regexp st in
    match re with
    | None => (Throw InvalidSyntax, charge st')
    | Some re =>
        (match regex_match subject re with
         | Answer matched => Ok matched
         | RegexError true => Throw TooExpensive
         | RegexError false => Throw InvalidSyntax
         | RuntimeError => Throw TooExpensive
         | OtherError => Throw InvalidSyntax
         end, charge st')
    end.

(** ** The cache *)

Record cache_ok (l : list (cppstring * regex)) : Prop := {
  cache_small : (length l <= regex_cache_entries)%nat;
  cache_keys : NoDup (map fst l);
  cache_compiled : forall p r, In (p, r) l -> compile p = Some r
}.

Lemma cache_find_Some p l r l' : cache_find p l = Some (r, l') ->
  exists a b, l = a ++ (p, r) :: b /\ l' = a ++ b.
Proof.
  revert r l'. induction l as [|[q s] l IH]; intros r l' Hf; cbn in Hf; [done|]. case_bool_decide as E.
  - injection Hf as -> ->. subst q. by exists [], l'.
  - destruct (cache_find p l) as [[r' l'']|]; [|done]. injection Hf as -> <-.
    destruct (IH _ _ eq_refl) as (a & b & -> & ->). by exists ((q, s) :: a), b.
Qed.

Lemma cache_find_None p l : cache_find p l = None -> p ∉ map fst l.
Proof.
  induction l as [|[q s] l IH]; cbn; [intros _ Hin; by apply elem_of_nil in Hin|]. case_bool_decide; [done|].
  destruct (cache_find p l) as [[]|]; [done|]. intros _. apply not_elem_of_cons. split; [congruence | by apply IH].
Qed.

Lemma cache_ok_take l n : (length l <= S regex_cache_entries)%nat -> (n <= regex_cache_entries)%nat ->
  NoDup (map fst l) -> (forall p r, In (p, r) l -> compile p = Some r) -> cache_ok (take n l).
Proof.
  intros Hl Hn Hk Hc. split.
  - rewrite length_take. lia.
  - rewrite <- firstn_map. rewrite <- (take_drop n (map fst l)) in Hk. apply NoDup_app in Hk as [Hk _]. exact Hk.
  - intros p r Hin. apply Hc. rewrite <- (take_drop n l). apply in_app_iff. by left.
Qed.

(** The pattern cache stays at most 16 patterns, each once and with its own compiled form; a
    lookup gives what compiling gives and makes the pattern the most recent; a pattern that does
    not compile changes nothing. *)
Theorem compiled_regex_correct (pattern : cppstring) (st : regex_state) (Hok : cache_ok (regex_cache st)) :
  let '(re, st') := compiled_regex pattern st in
  re = compile pattern /\ cache_ok (regex_cache st') /\
  (re = None -> st' = st) /\
  (forall r, re = Some r -> head (regex_cache st') = Some (pattern, r)) /\
  regex_spent_ms st' = regex_spent_ms st /\ regex_budget_ms st' = regex_budget_ms st.
Proof.
  unfold compiled_regex. destruct (cache_find _ _) as [[r rest]|] eqn:E.
  - apply cache_find_Some in E as (a & b & Hl & ->). destruct Hok as [Hs Hk Hc]. rewrite Hl in Hs, Hk, Hc.
    split_and!; [symmetry; apply Hc, in_app_iff; right; by left | | done | by intros ? [= <-] | done | done].
    split; cbn [set_cache regex_cache].
    + rewrite length_app in *. cbn in *. rewrite length_app. lia.
    + rewrite map_app in Hk. cbn [map fst] in *. rewrite map_app. by rewrite <- Permutation_middle in Hk.
    + intros p r' [[= <- <-]|Hin]; apply Hc; rewrite in_app_iff in *; cbn; [by right; left | tauto].
  - apply cache_find_None in E. destruct (compile pattern) as [r|] eqn:Ec; [|by split_and!].
    destruct Hok as [Hs Hk Hc].
    assert (Hk' : NoDup (map fst ((pattern, r) :: regex_cache st))) by (by apply NoDup_cons).
    assert (Hc' : forall p r', In (p, r') ((pattern, r) :: regex_cache st) -> compile p = Some r').
    { intros p r' [[= <- <-]|Hin]; [done | by apply Hc]. }
    split_and!; [done | | done | | done | done]; cbn [set_cache regex_cache].
    + destruct (Nat.ltb_spec regex_cache_entries (length ((pattern, r) :: regex_cache st))) as [Hlt|Hge]; cbn [length] in *.
      * apply cache_ok_take; cbn [length]; [lia | lia | done | done].
      * split; [cbn; lia | done | done].
    + intros ? [= <-]. case_if; [|done]. cbn [length Nat.sub]. rewrite Nat.sub_0_r. destruct (regex_cache st); [|done].
      unfold regex_cache_entries in Heqb. cbn in Heqb. discriminate.
Qed.

(** ** The budget *)

Lemma guarded_match_budget subject regexp st :
  regex_budget_ms (guarded_match subject regexp st).2 = regex_budget_ms st.
Proof.
  unfold guarded_match. repeat case_if; [done | done |].
  assert (Hc : regex_budget_ms (compiled_regex regexp st).2 = regex_budget_ms st)
    by (unfold compiled_regex; repeat case_match; done).
  destruct (compiled_regex regexp st) as [[re|] st']; cbn in *; unfold charge, tick; destruct (regex_clock st'); done.
Qed.

(** The state after a sequence of matches. *)
Fixpoint run_matches (ms : list (cppstring * cppstring)) (st : regex_state) : regex_state :=
  match ms with [] => st | (s, p) :: ms' => run_matches ms' (guarded_match s p st).2 end.

Lemma guarded_match_spent subject regexp st T :
  0 <= regex_spent_ms st -> regex_budget_ms st + T < 2 ^ 64 -> 0 <= T -> Forall (fun t => 0 <= t <= T) (regex_clock st) ->
  let st' := (guarded_match subject regexp st).2 in
  (regex_budget_exhausted st = true /\ st' = st \/
   regex_spent_ms st <= regex_spent_ms st' <= regex_spent_ms st + T /\ regex_spent_ms st < regex_budget_ms st) /\
  Forall (fun t => 0 <= t <= T) (regex_clock st').
Proof.
  intros H0 Hb HT Hc. unfold guarded_match. destruct (regex_budget_exhausted st) eqn:E; [by split; [left|]|].
  unfold regex_budget_exhausted in E. breflect. case_if; [split; [right; cbn; lia | done]|].
  assert (Hs : regex_spent_ms (compiled_regex regexp st).2 = regex_spent_ms st /\ regex_clock (compiled_regex regexp st).2 = regex_clock st)
    by (unfold compiled_regex; repeat case_match; done).
  destruct Hs as [Hs Hk]. destruct (compiled_regex regexp st) as [re st']. cbn [snd] in Hs, Hk.
  assert (Hch : regex_spent_ms st <= regex_spent_ms (charge st') <= regex_spent_ms st + T /\
    Forall (fun t => 0 <= t <= T) (regex_clock (charge st'))).
  { unfold charge, tick. rewrite Hk. destruct (regex_clock st) as [|t ts] eqn:Ek.
    - cbn. rewrite Hs, Hk, wrap_u_id by (unfold in_u; lia). split; [lia | done].
    - apply Forall_cons in Hc as [Ht Hts]. cbn. rewrite Hs, wrap_u_id by (unfold in_u; lia). split; [lia | done]. }
  destruct re; cbn [snd]; (split; [right; split; [tauto | lia] | tauto]).
Qed.

(** Over any sequence of matches of one check the time charged stays below the budget plus one
    match; once it is spent every match is refused without running, and a reset opens a new
    budget. *)
Theorem regex_budget_bounds_time (ms : list (cppstring * cppstring)) (st : regex_state) (T : Z)
    (Hb : 0 <= regex_budget_ms st) (HT : 0 <= T) (Hfit : regex_budget_ms st + T < 2 ^ 64)
    (Hclock : Forall (fun t => 0 <= t <= T) (regex_clock st)) :
  let st' := run_matches ms (reset_regex_budget st) in
  regex_spent_ms st' <= Z.max 0 (regex_budget_ms st - 1 + T) /\
  (regex_budget_exhausted st' = true ->
   forall s p, guarded_match s p st' = (Throw BudgetExhausted, st')) /\
  regex_budget_exhausted (reset_regex_budget st') = (regex_budget_ms st <=? 0).
Proof.
  cbv zeta. set (st0 := reset_regex_budget st).
  assert (Hinv : forall l s, 0 <= regex_spent_ms s <= Z.max 0 (regex_budget_ms st - 1 + T) -> regex_budget_ms s = regex_budget_ms st ->
    Forall (fun t => 0 <= t <= T) (regex_clock s) ->
    regex_spent_ms (run_matches l s) <= Z.max 0 (regex_budget_ms st - 1 + T) /\ regex_budget_ms (run_matches l s) = regex_budget_ms st).
  { induction l as [|[a b] l IH]; intros s Hs Hbs Hc; cbn [run_matches]; [by split; [lia|]|].
    destruct (guarded_match_spent a b s T) as [Hsp Hc']; [lia | lia | done | done |].
    pose proof (guarded_match_budget a b s) as Hbg. apply IH; [|congruence|done].
    destruct Hsp as [[_ ->]|Hsp]; [done | lia]. }
  destruct (Hinv ms st0) as [H1 H2]; [cbn; lia | done | done |].
  split_and!; [done | |].
  - intros He s p. unfold guarded_match. by rewrite He.
  - unfold regex_budget_exhausted. cbn. rewrite H2, Z.geb_leb. done.
Qed.
End Guard.

(** An engine on which every pattern compiles and matches equal text, each match taking
    20 s: the second match is the last one allowed. *)
#[local] Instance literal_engine : regex_engine := {|
  regex := cppstring; compile := Some; regex_match s r := Answer (bool_decide (s = r)) |}.
Definition slow_state : regex_state := mkRegex _ [] 7 default_regex_budget_ms [20000; 20000; 20000].

Lemma compiled_regex_correct_witness :
  (compiled_regex [zero] slow_state).1 = Some [zero] /\ cache_ok (regex_cache (compiled_regex [zero] slow_state).2).
Proof.
  pose proof (compiled_regex_correct [zero] slow_state) as H. cbn in H |- *.
  destruct H as (H1 & H2 & _); [split; [cbn; lia | apply NoDup_nil_2 | done]|]. split; [exact H1 | exact H2].
Defined.

Lemma regex_budget_bounds_time_witness :
  regex_spent_ms (run_matches [([], []); ([], []); ([], [])] (reset_regex_budget slow_state)) = 40000 /\
  regex_spent_ms (run_matches [([], []); ([], []); ([], [])] (reset_regex_budget slow_state)) <= 49999.
Proof.
  split; [reflexivity|].
  apply (regex_budget_bounds_time [([], []); ([], []); ([], [])] slow_state 20000); [vm_decide | lia | vm_decide | vm_decide].
Defined.
