(* ===== verification/Where.v ===== *)
(** The where-filter language: values, nodes and operators.  Sources:
    include/parsers/where/node.hpp and node.cpp (values, factory), value_node.cpp,
    list_node.cpp, variable.hpp, binary_op.cpp, unary_op.cpp, unary_fun.cpp,
    helpers.cpp and include/parsers/operators.cpp.

    An evaluation is a computation [M]: it reads and extends the errors of the
    evaluation context, spends the regular expression budget, and may raise.  The
    context's warnings are only logged and are left out; an error is the constant head
    of its message.  A node is denoted by a [view]: the methods of [any_node] that the
    operators call.  Number parsing of boost is the interface [number_text]; a filter has
    no converters registered by its module. *)

From stdpp Require Import base list strings pretty.
From Stdlib Require Import Ascii ZArith Lia SpecFloat.
From Stdlib Require String.
From S2P Require Import Prelude Strings Cron Format RegexGuard.
Import String.StringSyntax.

Local Open Scope Z_scope.

(** ** Types and values *)

Definition value_type : Type := Z.
Definition type_invalid : value_type := 99.
Definition type_tbd : value_type := 66.
Definition type_multi : value_type := 88.
Definition type_int : value_type := 1.
Definition type_bool : value_type := 2.
Definition type_float : value_type := 3.
Definition type_string : value_type := 10.
Definition type_date : value_type := 20.
Definition type_size : value_type := 30.
Definition type_custom_int : value_type := 1024.
Definition type_custom_int_end : value_type := 1024 + 100.
Definition type_custom_string : value_type := 2048.
Definition type_custom_string_end : value_type := 2048 + 100.
Definition type_custom_float : value_type := 3096.
Definition type_custom_float_end : value_type := 3096 + 100.

Inductive operators :=
| op_eq | op_le | op_lt | op_gt | op_ge | op_ne | op_in | op_nin | op_or | op_and | op_inv | op_not
| op_like | op_not_like | op_binand | op_binor | op_regexp | op_not_regexp.

#[global] Instance operators_eq_dec : EqDecision operators.
Proof. solve_decision. Defined.

Definition type_is_int (type : value_type) : bool :=
  (type =? type_int) || (type =? type_bool) || (type =? type_date) || (type =? type_size) ||
  ((type >=? type_custom_int) && (type <? type_custom_int_end)).
Definition type_is_float (type : value_type) : bool :=
  (type =? type_float) || (type =? type_int) || (type =? type_bool) || (type =? type_date) || (type =? type_size) ||
  ((type >=? type_custom_int) && (type <? type_custom_int_end)) ||
  ((type >=? type_custom_float) && (type <? type_custom_float_end)).

Definition get_return_type (op : operators) (type : value_type) : value_type :=
  match op with op_inv | op_binor | op_binand => type | _ => type_bool end.

Record value_container := mkValue {
  i_value : option Z;
  f_value : option double;
  s_value : option cppstring;
  is_unsure : bool;
  is_no_value : bool
}.

Definition create_int (value : Z) (unsure : bool) : value_container := mkValue (Some value) None None unsure false.
Definition create_float (value : double) (unsure : bool) : value_container := mkValue None (Some value) None unsure false.
Definition create_bool (value unsure : bool) : value_container := create_int (if value then 1 else 0) unsure.
Definition create_string (value : cppstring) (unsure : bool) : value_container := mkValue None None (Some value) unsure false.
Definition create_nil : value_container := mkValue None None None false false.
Definition create_no_value : value_container := mkValue (Some 0) (Some (to_double 0)) None false true.

Definition vc_is (v : value_container) (type : value_type) : bool :=
  if type =? type_int then bool_decide (is_Some (i_value v))
  else if type =? type_float then bool_decide (is_Some (f_value v))
  else if type =? type_string then bool_decide (is_Some (s_value v))
  else false.

Definition is_true (v : value_container) : bool :=
  match i_value v with Some i => i =? 1 | None => false end.

(** ** Evaluation *)

(** Exceptions: [filter_exception], another [std::exception], or anything else. *)
Inductive wexn := FilterException | StdException | NonStdException.
Definition is_std (e : wexn) : bool := match e with NonStdException => false | _ => true end.

(** [boost::lexical_cast] to a number; [None] is bad_lexical_cast. *)
Class number_text := {
  stox_double : cppstring -> option double;
  stox_llong : cppstring -> option Z
}.

Record wstate `{regex_engine} := mkState {
  errors : list cppstring;
  regexes : regex_state
}.

Definition M `{regex_engine} (A : Type) : Type := wstate -> result wexn A * wstate.
#[global] Instance M_ret `{regex_engine} : MRet M := fun A a s => (Ok a, s).
#[global] Instance M_bind `{regex_engine} : MBind M := fun A B k m s =>
  match m s with (Ok a, s') => k a s' | (Throw e, s') => (Throw e, s') end.

Section Monad.
Context `{regex_engine}.
Definition raise {A} (e : wexn) : M A := fun s => (Throw e, s).
(** [context->error] *)
Definition error (msg : cppstring) : M unit := fun s => (Ok (), mkState _ (errors s ++ [msg]) (regexes s)).
(** Report and go on with a value. *)
Definition fail_with {A} (msg : cppstring) (a : A) : M A := _ ← error msg; mret a.

(** [value_container::get_int()] and the like, with and without a default *)
Definition int_of (v : value_container) : option Z :=
  match i_value v with Some i => Some i | None => to_int64_saturating <$> f_value v end.
Definition float_of (v : value_container) : option double :=
  match i_value v with Some i => Some (to_double i) | None => f_value v end.
Definition string_of (v : value_container) : option cppstring :=
  match i_value v with
  | Some i => Some (show i)
  | None => match f_value v with Some f => Some (xtos_double f) | None => s_value v end
  end.
Definition lift {A} (o : option A) : M A := match o with Some a => mret a | None => raise FilterException end.
Definition get_int (v : value_container) : M Z := lift (int_of v).
Definition get_float (v : value_container) : M double := lift (float_of v).
Definition get_string (v : value_container) : M cppstring := lift (string_of v).
Definition get_int_or (v : value_container) (def : Z) : Z := default def (int_of v).
Definition get_float_or (v : value_container) (def : double) : double := default def (float_of v).
Definition get_string_or (v : value_container) (def : cppstring) : cppstring := default def (string_of v).

(** ** Literals *)

Inductive literal := int_value (v : Z) | float_value (v : double) | string_value (v : cppstring).

(** The [get_value] of a node that is an argument of an operator. *)
Definition getter : Type := value_type -> M value_container.

Context `{number_text}.

Definition literal_get (l : literal) (unsure : bool) : getter := fun new_type =>
  match l with
  | string_value v =>
      if new_type =? type_float then
        match stox_double v with
        | Some f => mret (create_float f unsure)
        | None => fail_with (str "Failed to convert string to number") create_nil
        end
      else if new_type =? type_int then
        match stox_llong v with
        | Some i => mret (create_int i unsure)
        | None => fail_with (str "Failed to convert string to number") create_nil
        end
      else if new_type =? type_string then mret (create_string v unsure)
      else fail_with (str "Failed to convert string to") create_nil
  | int_value v =>
      if new_type =? type_float then mret (create_float (to_double v) unsure)
      else if new_type =? type_int then mret (create_int v unsure)
      else if new_type =? type_string then mret (create_string (show v) unsure)
      else fail_with (str "Failed to convert int to") create_nil
  | float_value v =>
      if new_type =? type_float then mret (create_float v unsure)
      else if new_type =? type_int then
        if negb (fits_int64 v) then
          fail_with (str "Value is out of range for an integer") (create_int (to_int64_saturating v) true)
        else mret (create_int (to_int64_saturating v) unsure)
      else if new_type =? type_string then mret (create_string (xtos_double v) unsure)
      else fail_with (str "Failed to convert float to") create_nil
  end.

Definition create_false : getter := literal_get (int_value 0) false.
Definition create_num (value : value_container) : getter :=
  if vc_is value type_int then literal_get (int_value (get_int_or value 0)) (is_unsure value)
  else if vc_is value type_float then literal_get (float_value (get_float_or value (to_double 0))) (is_unsure value)
  else if vc_is value type_string then literal_get (string_value (get_string_or value (str "0"))) (is_unsure value)
  else literal_get (int_value 0) false.

(** [return factory::create_num(eval_...)] *)
Definition num_of (m : M value_container) : M getter := v ← m; mret (create_num v).

Definition get_int_value (g : getter) : M Z := v ← g type_int; mret (get_int_or v 0).
Definition get_float_value (g : getter) : M double := v ← g type_float; mret (get_float_or v (to_double 0)).
Definition get_string_value (g : getter) : M cppstring := v ← g type_string; mret (get_string_or v []).

(** ** Nodes as the operators see them *)

Record view := mkView {
  v_type : value_type;
  v_eval : M getter;
  v_get : getter;
  v_items : M (list getter)
}.

(** [is_int] and [is_float] of [any_node] *)
Definition v_is_int (v : view) : bool := type_is_int (v_type v).
Definition v_is_float (v : view) : bool := type_is_float (v_type v).

(** ** Comparison operators *)

(** [std::string] order: by unsigned character *)
Fixpoint str_ltb (a b : cppstring) : bool :=
  match a, b with
  | _, [] => false
  | [], _ :: _ => true
  | x :: a', y :: b' =>
      if Nat.ltb (nat_of_ascii x) (nat_of_ascii y) then true
      else if Nat.ltb (nat_of_ascii y) (nat_of_ascii x) then false else str_ltb a' b'
  end.

(** A comparison operator on each kind of operand. *)
Record comparison := mkCmp {
  c_int : Z -> Z -> bool;
  c_float : double -> double -> bool;
  c_string : cppstring -> cppstring -> bool
}.
Definition operator_eq : comparison := mkCmp Z.eqb d_eq (fun a b => bool_decide (a = b)).
Definition operator_ne : comparison :=
  mkCmp (fun a b => negb (a =? b)) (fun a b => negb (d_eq a b)) (fun a b => negb (bool_decide (a = b))).
Definition operator_gt : comparison := mkCmp Z.gtb (fun a b => d_lt b a) (fun a b => str_ltb b a).
Definition operator_lt : comparison := mkCmp Z.ltb d_lt str_ltb.
Definition operator_le : comparison := mkCmp Z.leb d_le (fun a b => negb (str_ltb b a)).
Definition operator_ge : comparison := mkCmp Z.geb (fun a b => d_le b a) (fun a b => negb (str_ltb a b)).

(** [eval_int], [eval_float] and [eval_string] of [even_simpler_bool_binary_operator_impl]:
    fetch both operands at a type, refuse what is not of it, and compare. *)
Definition even_simpler_eval {A} (type : value_type) (get : value_container -> M A) (cmp : A -> A -> bool)
    (left right : view) : M value_container :=
  lhs ← v_get left type;
  rhs ← v_get right type;
  if negb (vc_is lhs type) || negb (vc_is rhs type) then fail_with (str "invalid type") (create_int 0 true)
  else if is_no_value lhs || is_no_value rhs then mret (create_int 0 false)
  else a ← get lhs; b ← get rhs; mret (create_bool (cmp a b) (is_unsure lhs || is_unsure rhs)).

(** [simple_bool_binary_operator_impl::evaluate]: the kind of operation by the types of
    the operands. *)
Definition simple_bool_evaluate (eval_int eval_float eval_string : M value_container) (left right : view) : M getter :=
  let ltype := v_type left in
  let rtype := v_type right in
  if type_is_int ltype && type_is_int rtype then num_of eval_int
  else if type_is_float ltype && type_is_float rtype then num_of eval_float
  else if negb (ltype =? rtype) && negb (rtype =? type_tbd) then
    fail_with (str "Invalid types (not same) for binary operator") create_false
  else if type_is_int ltype then num_of eval_int
  else if type_is_float ltype then num_of eval_float
  else if ltype =? type_string then num_of eval_string
  else fail_with (str "missing impl for simple bool binary operator") create_false.

Definition compare_evaluate (c : comparison) (left right : view) : M getter :=
  simple_bool_evaluate (even_simpler_eval type_int get_int (c_int c) left right)
    (even_simpler_eval type_float get_float (c_float c) left right)
    (even_simpler_eval type_string get_string (c_string c) left right) left right.

(** ** and, or *)

Definition truthy (i : Z) : bool := negb (i =? 0).

Definition operator_and (left right : view) : M value_container :=
  lhs ← v_get left type_int; lhsi ← get_int lhs;
  if negb (truthy lhsi) && negb (is_unsure lhs) then mret (create_bool false false) else
  rhs ← v_get right type_int; rhsi ← get_int rhs;
  if negb (truthy rhsi) && negb (is_unsure rhs) then mret (create_bool false false) else
  mret (create_bool (truthy lhsi && truthy rhsi) (is_unsure lhs || is_unsure rhs)).

Definition operator_or (left right : view) : M value_container :=
  lhs ← v_get left type_int; lhsi ← get_int lhs;
  if truthy lhsi && negb (is_unsure lhs) then mret (create_bool true false) else
  rhs ← v_get right type_int; rhsi ← get_int rhs;
  if truthy rhsi && negb (is_unsure rhs) then mret (create_bool true false) else
  mret (create_bool (truthy lhsi || truthy rhsi) (is_unsure lhs || is_unsure rhs)).

(** [simple_int_binary_operator_impl::evaluate] *)
Definition simple_int_evaluate (eval_int : M value_container) (left right : view) : M getter :=
  if type_is_int (v_type left) && type_is_int (v_type right) then num_of eval_int
  else if negb (v_type left =? v_type right) && negb (v_type right =? type_tbd) then
    fail_with (str "Incompatible types in binary operator: ") create_false
  else fail_with (str "Invalid types in binary operator ") create_false.

(** ** like, regexp *)

Definition like_match (subject pattern : cppstring) : bool :=
  let s1 := to_lower subject in
  let s2 := to_lower pattern in
  if bool_decide (s1 = []) && bool_decide (s2 = []) then true
  else if bool_decide (s1 = []) || bool_decide (s2 = []) then false
  else if Nat.ltb (length s2) (length s1) then bool_decide (is_Some (find s1 s2 0))
  else bool_decide (is_Some (find s2 s1 0)).

Definition like_match_to_container (subject : cppstring) (pattern : value_container) (negate unsure : bool) : M value_container :=
  if negb (vc_is pattern type_string) then fail_with (str "invalid type") (create_int 0 true)
  else p ← get_string pattern; mret (create_bool (xorb negate (like_match subject p)) unsure).

(** The guarded match with its answer or its error. *)
Definition run_regex (subject p : cppstring) (negate unsure : bool) : M value_container := fun s =>
  let '(r, st) := guarded_match subject p (regexes s) in
  match r with
  | Ok matched => (Ok (create_bool (xorb negate matched) unsure), mkState _ (errors s) st)
  | Throw _ => fail_with (str "Regular expression") (create_int 0 true) (mkState _ (errors s) st)
  end.

Definition regex_match_to_container (subject : cppstring) (pattern : value_container) (negate unsure : bool) : M value_container :=
  if negb (vc_is pattern type_string) then fail_with (str "invalid type") (create_int 0 true)
  else p ← get_string pattern; run_regex subject p negate unsure.

(** [pattern_binary_operator_impl::evaluate] with the three evaluations of the four
    pattern operators, which differ in the matcher only. *)
Definition pattern_evaluate (matcher : cppstring -> value_container -> bool -> M value_container) (left right : view) : M getter :=
  let ltype := v_type left in
  if type_is_int ltype then
    num_of (lhs ← v_get left type_int; rhs ← v_get right type_string;
                    i ← get_int lhs; matcher (show i) rhs (is_unsure lhs || is_unsure rhs))
  else if type_is_float ltype then
    num_of (lhs ← v_get left type_float; rhs ← v_get right type_string;
                    f ← get_float lhs; matcher (xtos_double f) rhs (is_unsure lhs || is_unsure rhs))
  else if ltype =? type_string then
    num_of (lhs ← v_get left type_string; rhs ← v_get right type_string;
                    if negb (vc_is lhs type_string) || negb (vc_is rhs type_string) then
                      fail_with (str "invalid type") (create_int 0 true)
                    else t ← get_string lhs; matcher t rhs (is_unsure lhs || is_unsure rhs))
  else fail_with (str "missing impl for pattern binary operator: ") create_false.

(** ** in, not in *)

(** The first item that equals the value. *)
Fixpoint any_item {A} (get : getter -> M A) (eq : A -> A -> bool) (val : A) (items : list getter) : M bool :=
  match items with
  | [] => mret false
  | itm :: items' => x ← get itm; if eq x val then mret true else any_item get eq val items'
  end.

Definition in_eval {A} (type : value_type) (get : value_container -> M A) (get_item : getter -> M A) (eq : A -> A -> bool)
    (negate : bool) (left right : view) : M value_container :=
  lhs ← v_get left type;
  if negb (vc_is lhs type) then fail_with (str "invalid type") (create_int 0 true)
  else if is_no_value lhs then mret (create_int 0 false)
  else
    val ← get lhs; items ← v_items right; found ← any_item get_item eq val items;
    mret (create_bool (xorb negate found) (is_unsure lhs)).

Definition in_evaluate (negate : bool) (left right : view) : M getter :=
  simple_bool_evaluate (in_eval type_int get_int get_int_value Z.eqb negate left right)
    (in_eval type_float get_float get_float_value d_eq negate left right)
    (in_eval type_string get_string get_string_value (fun a b => bool_decide (a = b)) negate left right) left right.

(** The pattern and membership operators *)
Definition operator_like : view -> view -> M getter := pattern_evaluate (fun t p u => like_match_to_container t p false u).
Definition operator_not_like : view -> view -> M getter := pattern_evaluate (fun t p u => like_match_to_container t p true u).
Definition operator_regexp : view -> view -> M getter := pattern_evaluate (fun t p u => regex_match_to_container t p false u).
Definition operator_not_regexp : view -> view -> M getter := pattern_evaluate (fun t p u => regex_match_to_container t p true u).
Definition operator_in : view -> view -> M getter := in_evaluate false.
Definition operator_not_in : view -> view -> M getter := in_evaluate true.

(** [op_factory::get_binary_operator] and the operator's [evaluate] *)
Definition binary_operator (op : operators) (left right : view) : M getter :=
  match op with
  | op_eq => compare_evaluate operator_eq left right
  | op_gt => compare_evaluate operator_gt left right
  | op_lt => compare_evaluate operator_lt left right
  | op_le => compare_evaluate operator_le left right
  | op_ge => compare_evaluate operator_ge left right
  | op_ne => compare_evaluate operator_ne left right
  | op_like => operator_like left right
  | op_not_like => operator_not_like left right
  | op_regexp => operator_regexp left right
  | op_not_regexp => operator_not_regexp left right
  | op_and | op_binand => simple_int_evaluate (operator_and left right) left right
  | op_or | op_binor => simple_int_evaluate (operator_or left right) left right
  | op_in => operator_in left right
  | op_nin => operator_not_in left right
  | op_inv | op_not => fail_with (str "missing impl for FALSE") create_false
  end.

(** ** not, neg, convert *)

(** Conversion helpers raise out_of_range, a [std::exception]. *)
Definition checked {A} (r : result format_error A) : M A :=
  match r with Ok a => mret a | Throw _ => raise StdException end.

(** [operator_not::evaluate] with the subject's [get_value]; [now] is constants::get_now(). *)
Definition operator_not (now : Z) (type : value_type) (subject : getter) : M getter :=
  if type =? type_bool then
    v ← subject type_int;
    mret (if negb (vc_is v type_int) then literal_get (int_value 0) true
          else literal_get (int_value (if truthy (get_int_or v 0) then 0 else 1)) (is_unsure v))
  else if type =? type_int then
    v ← subject type_int;
    if negb (vc_is v type_int) then mret (literal_get (int_value 0) true)
    else if get_int_or v 0 =? llong_min then raise StdException
    else mret (literal_get (int_value (- get_int_or v 0)) (is_unsure v))
  else if type =? type_date then
    v ← subject type_int;
    if negb (vc_is v type_int) then mret (literal_get (int_value now) true)
    else
      twice ← checked (add_checked now now);
      minus ← checked (negate_checked (get_int_or v 0));
      r ← checked (add_checked twice minus);
      mret (literal_get (int_value r) (is_unsure v))
  else fail_with (str "missing impl for NOT operator") (literal_get (int_value 0) true).

Definition convert_with_unit (now : Z) (type : value_type) (v : view) (unit_s : cppstring) : M getter :=
  if type =? type_date then
    if v_is_float v then
      vc ← v_get v type_float;
      offset ← checked (llround_checked (d_mul (get_float_or vc (to_double 0)) (to_double (time_unit_multiplier unit_s))));
      r ← checked (add_checked now offset);
      mret (literal_get (int_value r) (is_unsure vc))
    else
      vc ← v_get v type_int;
      offset ← checked (mul_checked llong_min llong_max (get_int_or vc 0) (time_unit_multiplier unit_s));
      r ← checked (add_checked now offset);
      mret (literal_get (int_value r) (is_unsure vc))
  else if v_is_float v && negb (v_is_int v) then
    vc ← v_get v type_float;
    d ← checked (decode_byte_units_double (get_float_or vc (to_double 0)) unit_s);
    r ← checked (llround_checked d);
    mret (literal_get (int_value r) (is_unsure vc))
  else
    vc ← v_get v type_int;
    r ← checked (decode_byte_units (get_int_or vc 0) unit_s);
    mret (literal_get (int_value r) (is_unsure vc)).

(** [function_convert::evaluate]; the argument it is applied to is not used. *)
Definition function_convert (now : Z) (value unit : option view) (type : value_type) : M getter :=
  match value with
  | None => fail_with (str "no arguments for convert(): ") (literal_get (int_value 0) true)
  | Some v =>
      match unit with
      | Some u =>
          if (type =? type_date) || (type =? type_size) then
            unit_s ← get_string_value (v_get u); convert_with_unit now type v unit_s
          else fail_with (str "could not convert to ") (literal_get (int_value 0) true)
      | None =>
          if type_is_int type && v_is_int v then mret (v_get v)
          else if type_is_int type && v_is_float v then
            vc ← v_get v type_float;
            mret (literal_get (int_value (llround (get_float_or vc (to_double 0)))) (is_unsure vc))
          else if type_is_float type && v_is_int v then
            vc ← v_get v type_int;
            mret (literal_get (float_value (to_double (get_int_or vc 0))) (is_unsure vc))
          else mret (v_get v)
      end
  end.
End Monad.

(** ** Nodes *)

(** What [unary_fun::bind] stored: nothing, convert with its arguments, or neg. *)
Inductive binding (N : Type) := Unbound | BoundConvert (value unit : option N) | BoundNeg.
Arguments Unbound {N}.
Arguments BoundConvert {N} _ _.
Arguments BoundNeg {N}.

Inductive fun_name := convert_name | auto_convert_name | neg_name.

(** [type] is the mutable type of [any_node]; the functions are those a check binds to
    its keywords. *)
Inductive node (obj summary : Type) :=
| literal_node (type : value_type) (l : literal) (unsure : bool)
| int_variable_node (type : value_type) (f : obj -> result wexn Z)
| float_variable_node (type : value_type) (f : obj -> result wexn double)
| str_variable_node (type : value_type) (f : obj -> result wexn cppstring)
| optional_int_variable_node (type numeric_type : value_type) (no_value : cppstring) (f : obj -> result wexn (option Z))
| summary_int_variable_node (type : value_type) (f : summary -> result wexn Z)
| summary_string_variable_node (type : value_type) (f : summary -> result wexn cppstring)
| list_node (type : value_type) (value : list (node obj summary))
| binary_op (type : value_type) (op : operators) (left right : node obj summary)
| unary_op (type : value_type) (op : operators) (subject : node obj summary)
| unary_fun (type : value_type) (name : fun_name) (function : binding (node obj summary)) (subject : node obj summary).
Arguments literal_node {obj summary} _ _ _.
Arguments int_variable_node {obj summary} _ _.
Arguments float_variable_node {obj summary} _ _.
Arguments str_variable_node {obj summary} _ _.
Arguments optional_int_variable_node {obj summary} _ _ _ _.
Arguments summary_int_variable_node {obj summary} _ _.
Arguments summary_string_variable_node {obj summary} _ _.
Arguments list_node {obj summary} _ _.
Arguments binary_op {obj summary} _ _ _ _.
Arguments unary_op {obj summary} _ _ _.
Arguments unary_fun {obj summary} _ _ _ _.

(** The evaluation context: the current object, if there is one, the summary and the
    time the expression was parsed. *)
Record env (obj summary : Type) := mkEnv {
  object : option obj;
  the_summary : summary;
  now : Z
}.
Arguments mkEnv {obj summary} _ _ _.
Arguments object {obj summary} _.
Arguments the_summary {obj summary} _.
Arguments now {obj summary} _.

Section Nodes.
Context `{regex_engine} `{number_text} {obj summary : Type}.
Notation node := (node obj summary).
Notation env := (env obj summary).

(** A bound function called in a block that catches [std::exception]. *)
Definition catching {A B} (r : result wexn A) (bad : B) (k : A -> M B) : M B :=
  match r with
  | Ok a => k a
  | Throw x => if is_std x then fail_with (str "Failed to evaluate ") bad else raise x
  end.

Definition no_object (vt : value_type) : M value_container :=
  mret (if type_is_int vt then create_int 0 true else if type_is_float vt then create_float (to_double 0) true
        else create_string [] true).

Definition int_variable_get (e : env) (f : obj -> result wexn Z) : getter := fun vt =>
  if type_is_int vt || type_is_float vt then
    match object e with
    | Some o => catching (f o) create_nil (fun v => mret (if type_is_int vt then create_int v false else create_float (to_double v) false))
    | None => no_object vt
    end
  else fail_with (str "Invalid type ") create_nil.

Definition float_variable_get (e : env) (f : obj -> result wexn double) : getter := fun vt =>
  if type_is_int vt || type_is_float vt then
    match object e with
    | Some o => catching (f o) create_nil (fun v =>
        mret (if type_is_int vt then create_int (to_int64_saturating v) (negb (fits_int64 v)) else create_float v false))
    | None => no_object vt
    end
  else fail_with (str "Invalid type ") create_nil.

Definition str_variable_get (e : env) (f : obj -> result wexn cppstring) : getter := fun vt =>
  match object e with
  | None => no_object vt
  | Some o => catching (f o) create_nil (fun value =>
      if vt =? type_string then mret (create_string value false)
      else if type_is_int vt || type_is_float vt then
        match stox_double (trim_space value) with
        | Some parsed => mret (if type_is_int vt then create_int (llround parsed) false else create_float parsed false)
        | None => mret create_no_value
        end
      else fail_with (str "Invalid type ") create_nil)
  end.

Definition optional_int_variable_get (e : env) (no_value : cppstring) (f : obj -> result wexn (option Z)) : getter := fun vt =>
  match object e with
  | None => no_object vt
  | Some o => catching (f o) create_nil (fun v =>
      if type_is_int vt then mret (match v with Some i => create_int i false | None => create_no_value end)
      else if type_is_float vt then mret (match v with Some i => create_float (to_double i) false | None => create_no_value end)
      else if vt =? type_string then mret (create_string (match v with Some i => show i | None => no_value end) false)
      else fail_with (str "Invalid type ") create_nil)
  end.

Definition summary_int_variable_get (e : env) (f : summary -> result wexn Z) : getter := fun wanted_type =>
  if wanted_type =? type_int then catching (f (the_summary e)) create_nil (fun i => mret (create_int i false))
  else fail_with (str "Unknown type: ") create_nil.

(** There is no try block here: what the function raises leaves the node. *)
Definition summary_string_variable_get (e : env) (f : summary -> result wexn cppstring) : getter := fun tpe =>
  if (tpe =? type_int) || (tpe =? type_float) then fail_with (str "Function not numeric: ") create_nil
  else if tpe =? type_string then
    match f (the_summary e) with Ok t => mret (create_string t false) | Throw x => raise x end
  else fail_with (str "Unknown type: ") create_nil.

Fixpoint list_text (l : list getter) (s : cppstring) : M cppstring :=
  match l with
  | [] => mret s
  | n :: l' => t ← get_string_value n; list_text l' ((if bool_decide (s = []) then s else s ++ str ", ") ++ t)
  end.

Definition list_node_get (l : list getter) : getter := fun new_type =>
  if new_type =? type_int then fail_with (str "Cant get number from a list") create_nil
  else if new_type =? type_float then fail_with (str "Cant get number from a list") create_nil
  else if new_type =? type_string then s ← list_text l []; mret (create_string s false)
  else fail_with (str "Invalid type") create_nil.

(** Run every element for its effects. *)
Fixpoint run_all {A} (l : list (M A)) : M unit :=
  match l with [] => mret () | m :: l' => _ ← m; run_all l' end.

Fixpoint map_m {A B} (f : A -> M B) (l : list A) : M (list B) :=
  match l with [] => mret [] | a :: l' => b ← f a; bs ← map_m f l'; mret (b :: bs) end.

(** The [evaluate] of a node, when its object is needed: the value or [create_false]. *)
Definition variable_eval {A} (e : env) (f : obj -> result wexn A) (lit : A -> literal) (reports : bool) : M getter :=
  match object e with
  | Some o => catching (f o) create_false (fun v => mret (literal_get (lit v) false))
  | None => if reports then fail_with (str "Failed to evaluate ") create_false else mret create_false
  end.
Definition summary_eval {A} (e : env) (f : summary -> result wexn A) (lit : A -> literal) : M getter :=
  catching (f (the_summary e)) create_false (fun v => mret (literal_get (lit v) false)).

(** [op_factory::get_unary_operator] and the operator's [evaluate] *)
Definition unary_operator (e : env) (op : operators) (subject : view) : M getter :=
  if type_is_int (get_return_type op type_invalid) then
    if bool_decide (op = op_not) then operator_not (now e) (v_type subject) (v_get subject)
    else fail_with (str "missing impl for FALSE") create_false
  else fail_with (str "Missing operator implementation") create_false.

(** [binary_op::evaluate] *)
Definition type_is_string (type : value_type) : bool :=
  (type =? type_string) || ((type >=? type_custom_string) && (type <? type_custom_string_end)).
Definition binary_op_evaluate (type : value_type) (op : operators) (left right : view) : M getter :=
  if type_is_int type || type_is_string type then binary_operator op left right
  else fail_with (str "Binary operator does not work with ") create_false.

(** A node whose [get_value] is that of what it evaluates to. *)
Definition evaluated (type : value_type) (ev : M getter) (items : M (list getter)) : view :=
  mkView type ev (fun vt => g ← ev; g vt) items.

Fixpoint view_of (e : env) (n : node) : view :=
  match n with
  | literal_node ty l u =>
      mkView ty (mret create_false) (literal_get l u) (mret [literal_get l false])
  | int_variable_node ty f => mkView ty (variable_eval e f int_value true) (int_variable_get e f) (mret [])
  | float_variable_node ty f => mkView ty (variable_eval e f float_value true) (float_variable_get e f) (mret [])
  | str_variable_node ty f => mkView ty (variable_eval e f string_value false) (str_variable_get e f) (mret [])
  | optional_int_variable_node ty _ nv f =>
      mkView ty (variable_eval e f (fun v => match v with Some i => int_value i | None => string_value nv end) false)
        (optional_int_variable_get e nv f) (mret [])
  | summary_int_variable_node ty f => mkView ty (summary_eval e f int_value) (summary_int_variable_get e f) (mret [])
  | summary_string_variable_node ty f => mkView ty (summary_eval e f string_value) (summary_string_variable_get e f) (mret [])
  | list_node ty l =>
      let vs := map (view_of e) l in
      mkView ty (_ ← run_all (map v_eval vs); mret create_false) (list_node_get (map v_get vs)) (mret (map v_get vs))
  | binary_op ty op l r =>
      evaluated ty (binary_op_evaluate ty op (view_of e l) (view_of e r)) (mret [])
  | unary_op ty op s => evaluated ty (unary_operator e op (view_of e s)) (mret [])
  | unary_fun ty _ Unbound s =>
      evaluated ty (fail_with (str "Missing function binding: ") create_false)
        (items ← v_items (view_of e s); mret (map (fun _ => create_false) items))
  | unary_fun ty _ (BoundConvert value unit) s =>
      let conv := function_convert (now e) (match value with Some v => Some (view_of e v) | None => None end)
                    (match unit with Some u => Some (view_of e u) | None => None end) ty in
      evaluated ty conv (items ← v_items (view_of e s); map_m (fun _ => conv) items)
  | unary_fun ty _ BoundNeg s =>
      evaluated ty (operator_not (now e) ty (v_get (view_of e s)))
        (items ← v_items (view_of e s); map_m (operator_not (now e) ty) items)
  end.

Definition get_value (e : env) (n : node) : getter := v_get (view_of e n).

(** [parser::evaluate]: every exception becomes an unsure false and an error. *)
Definition parser_evaluate (e : env) (n : node) : wstate -> value_container * wstate := fun s =>
  match (g ← v_eval (view_of e n); g type_int) s with
  | (Ok v, s') => (v, s')
  | (Throw _, s') => (create_int 0 true, (error (str "Evaluate exception: ") s').2)
  end.
End Nodes.
