(* ===== verification/WhereTypes.v ===== *)
(** Type inference and binding of a where-filter, and the limits on its text:
    include/parsers/where/helpers.cpp (infer_binary_type and what it uses), the
    infer_type, bind and require_object of the nodes, and include/parsers/where.cpp.

    Inference re-types nodes in place and may wrap an operand in a conversion; here it
    returns the new node.  A comparison may infer an operand again after it changed, so
    the recursion is by fuel; [infer_total] shows that the height of the expression is
    enough. *)

From stdpp Require Import base list strings.
From Stdlib Require Import Ascii ZArith Lia SpecFloat.
From Stdlib Require String.
From S2P Require Import Prelude Strings Cron Format RegexGuard Where.
Import String.StringSyntax.

Local Open Scope Z_scope.

Definition can_convert (src dst : value_type) : bool :=
  if (src =? type_invalid) || (dst =? type_invalid) then false
  else if dst =? type_tbd then false
  else if src =? type_tbd then true
  else ((src =? type_int) && ((dst =? type_float) || (dst =? type_string) || (dst =? type_bool) || (dst =? type_size))) ||
       ((src =? type_float) && ((dst =? type_int) || (dst =? type_string) || (dst =? type_bool))) ||
       ((src =? type_string) && ((dst =? type_int) || (dst =? type_float))) ||
       ((src =? type_bool) && ((dst =? type_int) || (dst =? type_float))) ||
       ((src >=? type_custom_float) && (src <? type_custom_float_end) && (dst =? type_float)) ||
       ((src >=? type_custom_int) && (src <? type_custom_int_end) && (dst =? type_int)) ||
       ((src >=? type_custom_string) && (src <? type_custom_string_end) && ((dst =? type_float) || (dst =? type_int))).

Definition is_comparison_operator (op : operators) : bool :=
  match op with op_eq | op_ne | op_lt | op_le | op_gt | op_ge => true | _ => false end.

Section Types.
Context `{number_text} {obj summary : Type}.
Notation node := (node obj summary).

Definition get_type (n : node) : value_type :=
  match n with
  | literal_node ty _ _ | int_variable_node ty _ | float_variable_node ty _ | str_variable_node ty _
  | optional_int_variable_node ty _ _ _ | summary_int_variable_node ty _ | summary_string_variable_node ty _
  | list_node ty _ | binary_op ty _ _ _ | unary_op ty _ _ | unary_fun ty _ _ _ => ty
  end.

Definition set_type (t : value_type) (n : node) : node :=
  match n with
  | literal_node _ l u => literal_node t l u
  | int_variable_node _ f => int_variable_node t f
  | float_variable_node _ f => float_variable_node t f
  | str_variable_node _ f => str_variable_node t f
  | optional_int_variable_node _ nt nv f => optional_int_variable_node t nt nv f
  | summary_int_variable_node _ f => summary_int_variable_node t f
  | summary_string_variable_node _ f => summary_string_variable_node t f
  | list_node _ l => list_node t l
  | binary_op _ op l r => binary_op t op l r
  | unary_op _ op s => unary_op t op s
  | unary_fun _ name b s => unary_fun t name b s
  end.

Definition create_conversion (n : node) : node := unary_fun type_tbd convert_name Unbound n.

Definition add_convert_node (subject : node) (new_type : value_type) : node :=
  let type := get_type subject in
  if type =? new_type then subject
  else if negb (type =? type_tbd) then set_type new_type (create_conversion subject)
  else set_type new_type subject.

(** [infer_type(converter, suggestion)] of the leaves; [None] for the other nodes. *)
Definition suggest_leaf (n : node) (vt : value_type) : option (value_type * node) :=
  match n with
  | literal_node ty (string_value v) u =>
      if ((vt =? type_int) || (vt =? type_float)) && bool_decide (is_Some (stox_double v))
      then Some (type_float, set_type type_float n) else Some (type_string, n)
  | literal_node ty (int_value v) u =>
      if type_is_int vt then Some (type_int, n)
      else if type_is_float vt then Some (vt, set_type vt n) else Some (type_int, n)
  | literal_node ty (float_value v) u =>
      (* every integer type passes type_is_float *)
      if type_is_float vt then Some (type_float, n)
      else if type_is_int vt then Some (vt, set_type vt n) else Some (type_float, n)
  | int_variable_node ty _ =>
      if type_is_int vt then Some (ty, n)
      else if type_is_float vt then Some (vt, set_type vt n) else Some (ty, n)
  | float_variable_node ty _ => if type_is_int vt then Some (vt, set_type vt n) else Some (ty, n)
  | str_variable_node ty _ =>
      if (vt =? type_int) || (vt =? type_float) then Some (type_float, set_type type_float n) else Some (ty, n)
  | optional_int_variable_node ty nt _ _ =>
      if type_is_int vt || type_is_float vt then Some (nt, set_type nt n)
      else if vt =? type_string then Some (type_string, set_type type_string n)
      else if vt =? type_tbd then Some (nt, set_type nt n) else Some (ty, n)
  | summary_int_variable_node ty _ | summary_string_variable_node ty _ => Some (ty, n)
  | unary_fun _ _ _ _ => Some (type_tbd, n)
  | _ => None
  end.

(** [infer_type(converter)] of the leaves *)
Definition infer_leaf (n : node) : option (value_type * node) :=
  match n with
  | literal_node _ (int_value _) _ => Some (type_int, n)
  | literal_node _ (float_value _) _ => Some (type_float, n)
  | literal_node _ (string_value _) _ => Some (type_string, n)
  | int_variable_node ty _ | float_variable_node ty _ | str_variable_node ty _ | optional_int_variable_node ty _ _ _
  | summary_int_variable_node ty _ | summary_string_variable_node ty _ => Some (ty, n)
  | unary_fun _ _ _ _ => Some (type_tbd, n)
  | _ => None
  end.

(** Type and node of both operands, and the type of the operation.  [infer] and
    [suggest] are the two [infer_type]s of the operands. *)
Section Binary.
Context (infer : node -> value_type * node) (suggest : node -> value_type -> value_type * node).

(** What follows the suggestions: conversions, or no common type. *)
Definition convert_operands (op : operators) (lt rt : value_type) (l r : node) : value_type * node * node :=
  if lt =? rt then (lt, l, r)
  else if (rt =? type_invalid) || (lt =? type_invalid) then (type_invalid, l, r)
  else if (rt =? type_tbd) && (lt =? type_tbd) then (type_tbd, l, r)
  else if is_comparison_operator op && (lt =? type_int) && (rt =? type_float) then
    (type_float, add_convert_node l type_float, r)
  else if is_comparison_operator op && (lt =? type_float) && (rt =? type_int) then
    (type_float, l, add_convert_node r type_float)
  else if can_convert rt lt then (lt, l, add_convert_node r lt)
  else if can_convert lt rt then (rt, add_convert_node l rt, r)
  else (type_invalid, l, r).

(** A number invites a string into its domain, in a comparison. *)
Definition invite_string (op : operators) (lt rt : value_type) (l r : node) : value_type * value_type * node * node :=
  if is_comparison_operator op then
    if (lt =? type_string) && ((rt =? type_int) || (rt =? type_float)) then
      let '(lt, l) := suggest l type_float in (lt, rt, l, r)
    else if (rt =? type_string) && ((lt =? type_int) || (lt =? type_float)) then
      let '(rt, r) := suggest r type_float in (lt, rt, l, r)
    else (lt, rt, l, r)
  else (lt, rt, l, r).

(** Two numeric operands suggest their types to each other. *)
Definition suggest_numeric (lt rt : value_type) (l r : node) : value_type * value_type * node * node :=
  let '(rt, r) := if type_is_float lt && type_is_int rt then suggest r lt else (rt, r) in
  let '(lt, l) := if type_is_float rt && type_is_int lt then suggest l rt else (lt, l) in
  (lt, rt, l, r).

Definition infer_binary_type (op : operators) (l r : node) : value_type * node * node :=
  let '(rt, r) := infer r in
  let '(lt, l) := infer l in
  if ((lt =? type_multi) || (rt =? type_multi)) && (lt =? rt) then (type_tbd, l, r)
  else
    let '(lt, rt, l, r) :=
      if lt =? type_multi then let '(lt, l) := suggest l rt in (lt, rt, l, r)
      else if rt =? type_multi then let '(rt, r) := suggest r lt in (lt, rt, l, r)
      else (lt, rt, l, r) in
    if lt =? rt then (lt, l, r)
    else
      let '(lt, rt, l, r) := invite_string op lt rt l r in
      if lt =? rt then (lt, l, r)
      else
        let '(lt, rt, l, r) := suggest_numeric lt rt l r in
        convert_operands op lt rt l r.

(** The fold of [list_node::infer_type] *)
Fixpoint infer_items (first : bool) (types : value_type) (l : list node) : value_type * list node :=
  match l with
  | [] => (types, [])
  | n :: l' =>
      let '(t, n') := infer n in
      let types' := if first then t else if types =? t then types else type_tbd in
      let '(r, l'') := infer_items false types' l' in (r, n' :: l'')
  end.
End Binary.

(** [suggestion]: [None] for [infer_type(converter)].  Without fuel the expression is
    reported as invalid. *)
Fixpoint infer_type (fuel : nat) (n : node) (suggestion : option value_type) : value_type * node :=
  match fuel with
  | O => (type_invalid, n)
  | S fuel' =>
      match n, suggestion with
      | list_node ty l, None =>
          let '(types, l') := infer_items (fun x => infer_type fuel' x None) true type_tbd l in
          (types, list_node (if types =? type_tbd then ty else types) l')
      | list_node ty l, Some vt => (type_tbd, list_node ty (map (fun x => (infer_type fuel' x (Some vt)).2) l))
      | binary_op ty op l r, _ =>
          let '(t, l', r') := infer_binary_type (fun x => infer_type fuel' x None)
                                (fun x vt => infer_type fuel' x (Some vt)) op l r in
          if t =? type_invalid then (t, binary_op ty op l' r')
          else let t' := get_return_type op t in (t', binary_op t' op l' r')
      | unary_op ty op s, None =>
          let '(t, s') := infer_type fuel' s None in
          if t =? type_invalid then (t, unary_op ty op s')
          else let t' := get_return_type op t in (t', unary_op t' op s')
      | unary_op ty op s, Some vt =>
          let '(t, s') := infer_type fuel' s (Some vt) in (get_return_type op t, unary_op ty op s')
      | _, None => default (type_tbd, n) (infer_leaf n)
      | _, Some vt => default (type_tbd, n) (suggest_leaf n vt)
      end
  end.

(** The depth to which inference descends; it stops at functions. *)
Fixpoint infer_height (n : node) : nat :=
  match n with
  | list_node _ l => S (list_max (map infer_height l))
  | binary_op _ _ l r => S (Nat.max (infer_height l) (infer_height r))
  | unary_op _ _ s => S (infer_height s)
  | _ => O
  end.

(** ** Binding *)

(** [get_list_value] at the time of binding, when no function is bound yet *)
Fixpoint list_nodes (n : node) : list node :=
  match n with
  | literal_node _ (int_value v) _ => [literal_node type_int (int_value v) false]
  | literal_node _ (float_value v) _ => [literal_node type_float (float_value v) false]
  | literal_node _ (string_value v) _ => [literal_node type_string (string_value v) false]
  | list_node _ l => l
  | unary_fun _ _ _ s => map (fun _ => literal_node type_int (int_value 0) false) (list_nodes s)
  | _ => []
  end.

(** The constructor of [function_convert] *)
Definition convert_arguments (subject : node) : option node * option node :=
  match list_nodes subject with
  | [] => (match subject with list_node _ _ => None | _ => Some subject end, None)
  | [v] => (Some v, None)
  | v :: u :: _ => (Some v, Some u)
  end.

(** A function does not bind its subject. *)
Fixpoint bind (n : node) : node :=
  match n with
  | list_node ty l => list_node ty (map bind l)
  | binary_op ty op l r => binary_op ty op (bind l) (bind r)
  | unary_op ty op s => unary_op ty op (bind s)
  | unary_fun ty neg_name _ s => unary_fun ty neg_name BoundNeg s
  | unary_fun ty name _ s => let '(value, unit) := convert_arguments s in unary_fun ty name (BoundConvert value unit) s
  | _ => n
  end.

(** [require_object] *)
Fixpoint require_object (n : node) : bool :=
  match n with
  | literal_node _ _ _ | summary_int_variable_node _ _ | summary_string_variable_node _ _ => false
  | int_variable_node _ _ | float_variable_node _ _ | str_variable_node _ _ | optional_int_variable_node _ _ _ _ => true
  | list_node _ _ => true
  | binary_op _ _ l r => require_object l || require_object r
  | unary_op _ _ s | unary_fun _ _ _ s => require_object s
  end.

(** [derive_types] and [bind] of the parser *)
Definition derive_types (n : node) : value_type * node := infer_type (S (infer_height n)) n None.
Definition prepare (n : node) : node := bind (derive_types n).2.
End Types.

(** ** Limits on the text of an expression *)

Definition max_expression_length : Z := 1024.
Definition max_expression_depth : Z := 64.

Definition is_ident (c : ascii) : bool :=
  let n := nat_of_ascii c in
  (Nat.leb 97 n && Nat.leb n 122) || (Nat.leb 65 n && Nat.leb n 90) || isdigit c || bool_decide (c = "_"%char).

Definition c_open : ascii := "("%char.
Definition c_close : ascii := ")"%char.

(** The text after the first [c], or nothing: where the scan goes on after a literal. *)
Fixpoint after_char (c : ascii) (s : cppstring) : cppstring :=
  match s with [] => [] | d :: s' => if bool_decide (d = c) then s' else after_char c s' end.

(** [str] directly before the parenthesis and not the tail of a longer word; [before] is
    the text already read, nearest character first. *)
Definition opens_str_literal (before : cppstring) : bool :=
  match before with
  | c1 :: c2 :: c3 :: rest =>
      bool_decide (c1 = "r"%char) && bool_decide (c2 = "t"%char) && bool_decide (c3 = "s"%char) &&
      match rest with [] => true | c4 :: _ => negb (is_ident c4) end
  | _ => false
  end.

(** The scan of [max_paren_depth]; a skipped literal is read at once, [fuel] bounds the
    characters left. *)
Fixpoint paren_scan (fuel : nat) (before expr : cppstring) (depth max_depth : Z) : Z :=
  match fuel, expr with
  | S fuel', c :: expr' =>
      if bool_decide (c = c_quote) then
        let rest := after_char c_quote expr' in
        paren_scan fuel' (rev (take (length expr - length rest) expr) ++ before) rest depth max_depth
      else if bool_decide (c = c_open) then
        if opens_str_literal before then
          let rest := after_char c_close expr' in
          paren_scan fuel' (rev (take (length expr - length rest) expr) ++ before) rest depth max_depth
        else if depth + 1 >? max_depth then
          if depth + 1 >? max_expression_depth then depth + 1
          else paren_scan fuel' (c :: before) expr' (depth + 1) (depth + 1)
        else paren_scan fuel' (c :: before) expr' (depth + 1) max_depth
      else if bool_decide (c = c_close) then
        paren_scan fuel' (c :: before) expr' (if depth >? 0 then depth - 1 else depth) max_depth
      else paren_scan fuel' (c :: before) expr' depth max_depth
  | _, _ => max_depth
  end.
Definition max_paren_depth (expr : cppstring) : Z := paren_scan (length expr) [] expr 0 0.

(** Why [parser::parse] refuses an expression before it is parsed. *)
Inductive refusal := TooLong | TooDeep.
Definition check_limits (expr : cppstring) : result refusal unit :=
  if zlength expr >? max_expression_length then Throw TooLong
  else if max_paren_depth expr >? max_expression_depth then Throw TooDeep
  else Ok ().

(** ** Inference terminates *)

Section Inference.
Context `{number_text} {obj summary : Type}.
Notation node := (node obj summary).

Lemma set_type_height t (n : node) : infer_height (set_type t n) = infer_height n.
Proof. by destruct n. Qed.

Lemma add_convert_height (n : node) t : (infer_height (add_convert_node n t) <= infer_height n)%nat.
Proof. unfold add_convert_node. repeat case_if; rewrite ?set_type_height; cbn; lia. Qed.

Lemma infer_leaf_height (n : node) r : infer_leaf n = Some r -> infer_height r.2 = infer_height n.
Proof. intros Hr. destruct n; cbn in Hr; repeat case_match; simplify_eq; done. Qed.
Lemma suggest_leaf_height (n : node) vt r : suggest_leaf n vt = Some r -> infer_height r.2 = infer_height n.
Proof. intros Hr. destruct n; cbn in Hr; repeat case_match; simplify_eq; done. Qed.

(** Two inference functions that agree on nodes of height at most [h] and do not make
    them higher. *)
Definition agree (h : nat) (i i' : node -> value_type * node) : Prop :=
  forall n, (infer_height n <= h)%nat -> i n = i' n /\ (infer_height (i n).2 <= infer_height n)%nat.
Definition agree_suggest (h : nat) (g g' : node -> value_type -> value_type * node) : Prop :=
  forall n vt, (infer_height n <= h)%nat -> g n vt = g' n vt /\ (infer_height (g n vt).2 <= infer_height n)%nat.

Section Binary.
Context (h : nat) (i i' : node -> value_type * node) (g g' : node -> value_type -> value_type * node)
  (Hi : agree h i i') (Hg : agree_suggest h g g').

Lemma convert_operands_height op lt rt (l r : node) :
  (infer_height (convert_operands op lt rt l r).1.2 <= infer_height l)%nat /\
  (infer_height (convert_operands op lt rt l r).2 <= infer_height r)%nat.
Proof.
  unfold convert_operands. pose proof (add_convert_height l). pose proof (add_convert_height r). repeat case_if; cbn; auto.
Qed.

Lemma suggest_step n vt (k : nat) : (infer_height n <= k)%nat -> (k <= h)%nat ->
  g n vt = g' n vt /\ (infer_height (g n vt).2 <= k)%nat.
Proof. intros Hn Hk. destruct (Hg n vt) as [-> Hh]; [lia|]. split; [done | lia]. Qed.

Lemma invite_string_agree op lt rt (l r : node) (a b : nat) : (infer_height l <= a <= h)%nat -> (infer_height r <= b <= h)%nat ->
  invite_string g op lt rt l r = invite_string g' op lt rt l r /\
  (infer_height (invite_string g op lt rt l r).1.2 <= a)%nat /\ (infer_height (invite_string g op lt rt l r).2 <= b)%nat.
Proof.
  intros Hl Hr. unfold invite_string.
  destruct (suggest_step l type_float a) as [El Hl']; [lia | lia |]. destruct (suggest_step r type_float b) as [Er Hr']; [lia | lia |].
  rewrite <- El, <- Er. destruct (g l type_float) as [t1 l1], (g r type_float) as [t2 r2]. cbn in Hl', Hr'.
  repeat case_if; cbn; (split; [done | lia]).
Qed.

Lemma suggest_numeric_agree lt rt (l r : node) (a b : nat) : (infer_height l <= a <= h)%nat -> (infer_height r <= b <= h)%nat ->
  suggest_numeric g lt rt l r = suggest_numeric g' lt rt l r /\
  (infer_height (suggest_numeric g lt rt l r).1.2 <= a)%nat /\ (infer_height (suggest_numeric g lt rt l r).2 <= b)%nat.
Proof.
  intros Hl Hr. unfold suggest_numeric. destruct (suggest_step r lt b) as [Er Hr']; [lia | lia |]. rewrite <- Er.
  destruct (g r lt) as [t1 r1]. cbn in Hr'.
  assert (Hrest : forall rt (r : node), (infer_height r <= b)%nat ->
    (let '(lt, l) := if type_is_float rt && type_is_int lt then g l rt else (lt, l) in (lt, rt, l, r)) =
    (let '(lt, l) := if type_is_float rt && type_is_int lt then g' l rt else (lt, l) in (lt, rt, l, r)) /\
    (infer_height (let '(lt, l) := if type_is_float rt && type_is_int lt then g l rt else (lt, l) in (lt, rt, l, r)).1.2 <= a)%nat /\
    (infer_height (let '(lt, l) := if type_is_float rt && type_is_int lt then g l rt else (lt, l) in (lt, rt, l, r)).2 <= b)%nat).
  { clear -Hg Hl. intros rt r Hr. destruct (suggest_step l rt a) as [El Hl']; [lia | lia |]. rewrite <- El.
    case_if; [destruct (g l rt) as [t2 l2]|]; cbn in *; (split; [done | lia]). }
  case_if; apply Hrest; [done | lia].
Qed.

Lemma infer_binary_agree op (l r : node) : (infer_height l <= h)%nat -> (infer_height r <= h)%nat ->
  infer_binary_type i g op l r = infer_binary_type i' g' op l r /\
  (infer_height (infer_binary_type i g op l r).1.2 <= infer_height l)%nat /\
  (infer_height (infer_binary_type i g op l r).2 <= infer_height r)%nat.
Proof.
  intros Hl Hr. unfold infer_binary_type. destruct (Hi l Hl) as [El Hl1], (Hi r Hr) as [Er Hr1]. rewrite <- El, <- Er.
  destruct (i l) as [lt l1], (i r) as [rt r1]. cbn in Hl1, Hr1. case_if; [done|].
  assert (Htail : forall lt rt (l2 r2 : node), (infer_height l2 <= infer_height l)%nat -> (infer_height r2 <= infer_height r)%nat ->
    let tail g := if lt =? rt then (lt, l2, r2)
      else let '(lt, rt, l, r) := invite_string g op lt rt l2 r2 in
        if lt =? rt then (lt, l, r) else let '(lt, rt, l, r) := suggest_numeric g lt rt l r in convert_operands op lt rt l r in
    tail g = tail g' /\ (infer_height (tail g).1.2 <= infer_height l)%nat /\ (infer_height (tail g).2 <= infer_height r)%nat).
  { clear -Hg Hl Hr. intros lt rt l2 r2 Hl2 Hr2. cbv zeta. case_if; [done|].
    destruct (invite_string_agree op lt rt l2 r2 (infer_height l) (infer_height r)) as (E & A & B); [lia | lia |]. rewrite <- E.
    destruct (invite_string g op lt rt l2 r2) as [[[lt3 rt3] l3] r3]. cbn in A, B. case_if; [done|].
    destruct (suggest_numeric_agree lt3 rt3 l3 r3 (infer_height l) (infer_height r)) as (E' & A' & B'); [lia | lia |]. rewrite <- E'.
    destruct (suggest_numeric g lt3 rt3 l3 r3) as [[[lt4 rt4] l4] r4]. cbn in A', B'.
    destruct (convert_operands_height op lt4 rt4 l4 r4) as [P Q].
    destruct (convert_operands op lt4 rt4 l4 r4) as [[t5 l5] r5]. cbn in *. split; [done | lia]. }
  cbv zeta in Htail.
  destruct (suggest_step l1 rt (infer_height l)) as [E1 H1]; [done | done |]. destruct (suggest_step r1 lt (infer_height r)) as [E2 H2]; [done | done |].
  rewrite <- E1, <- E2. destruct (g l1 rt) as [t1 l5], (g r1 lt) as [t2 r5]. cbn in H1, H2.
  case_if; [by apply Htail|]. case_if; by apply Htail.
Qed.

Lemma infer_items_agree l : Forall (fun n => infer_height n <= h)%nat l -> forall first t,
  infer_items i first t l = infer_items i' first t l /\
  (list_max (map infer_height (infer_items i first t l).2) <= list_max (map infer_height l))%nat.
Proof.
  induction 1 as [|n l Hn _ IH]; intros first t; cbn [infer_items]; [done|].
  destruct (Hi n Hn) as [E Hh]. rewrite <- E. destruct (i n) as [t1 n1]. cbn in Hh.
  destruct (IH false (if first then t1 else if t =? t1 then t else type_tbd)) as [E' Hh']. rewrite <- E'.
  destruct (infer_items i false _ l) as [t2 l2]. split; [done|]. unfold list_max in *. cbn in *. lia.
Qed.
End Binary.

Lemma list_max_Forall (l : list node) h : (list_max (map infer_height l) <= h)%nat <-> Forall (fun n => infer_height n <= h)%nat l.
Proof.
  induction l as [|n l IH]; cbn; [split; [intros; apply Forall_nil_2 | lia]|].
  rewrite Nat.max_lub_iff, Forall_cons, IH. done.
Qed.

(** One level of inference, with the operands' results given. *)
Lemma infer_type_step h f f' (n : node) sg : (infer_height n <= S h)%nat ->
  agree h (fun n : node => infer_type f n None) (fun n : node => infer_type f' n None) ->
  agree_suggest h (fun (n : node) vt => infer_type f n (Some vt)) (fun (n : node) vt => infer_type f' n (Some vt)) ->
  infer_type (S f) n sg = infer_type (S f') n sg /\ (infer_height (infer_type (S f) n sg).2 <= infer_height n)%nat.
Proof.
  intros Hn Hi Hg. destruct n as [| | | | | | |ty l|ty op l r|ty op s|]; cbn [infer_height] in Hn.
  8: { destruct sg as [vt|]; cbn [infer_type].
    - assert (Hl : Forall (fun n => infer_height n <= h)%nat l) by (apply list_max_Forall; lia). clear Hn Hi.
      induction Hl as [|n l Hn Hl IH]; [done|]. cbn [map]. destruct (Hg n vt Hn) as [E Hh]. cbn beta in E, Hh. destruct IH as [E' Hh'].
      injection E' as E'. rewrite <- E, <- E'. split; [done|]. cbn in *. unfold list_max in *. cbn in *. lia.
    - destruct (infer_items_agree h _ _ Hi l ltac:(apply list_max_Forall; lia) true type_tbd) as [E Hh]. rewrite <- E.
      destruct (infer_items _ true type_tbd l) as [t l1]. cbn in Hh |- *. unfold list_max in *. split; [done | lia]. }
  8: { assert (Hb := infer_binary_agree h _ _ _ _ Hi Hg op l r ltac:(lia) ltac:(lia)). cbn [infer_type].
    destruct Hb as (E & A & B). rewrite <- E. destruct (infer_binary_type _ _ op l r) as [[t l1] r1]. cbn in A, B.
    case_if; cbn; (split; [done | lia]). }
  8: { destruct sg as [vt|]; cbn [infer_type].
    - destruct (Hg s vt) as [E Hh]; [lia|]. cbn beta in E, Hh. rewrite <- E. destruct (infer_type f s (Some vt)) as [t s1]. cbn in Hh |- *. split; [done | lia].
    - destruct (Hi s) as [E Hh]; [lia|]. cbn beta in E, Hh. rewrite <- E. destruct (infer_type f s None) as [t s1]. cbn in Hh |- *.
      case_if; cbn; (split; [done | lia]). }
  all: (split; [done|]); destruct sg as [vt|]; cbn -[suggest_leaf infer_leaf];
    match goal with |- context [default _ ?x] => destruct x as [r'|] eqn:E end; cbn; try lia;
    first [apply infer_leaf_height in E | apply suggest_leaf_height in E]; cbn in E; lia.
Qed.

(** Type inference, which may infer an operand again after changing it, needs no more steps than
    the height of the expression: any larger bound gives the same result, and the expression
    never grows higher. *)
Theorem infer_total (n : node) (sg : option value_type) (f : nat) (Hf : (infer_height n < f)%nat) :
  infer_type f n sg = infer_type (S (infer_height n)) n sg /\
  (infer_height (infer_type f n sg).2 <= infer_height n)%nat.
Proof.
  assert (Hall : forall h f f', (h < f)%nat -> (h < f')%nat ->
    agree h (fun n : node => infer_type f n None) (fun n : node => infer_type f' n None) /\
    agree_suggest h (fun (n : node) vt => infer_type f n (Some vt)) (fun (n : node) vt => infer_type f' n (Some vt))).
  { clear. induction h as [|h IH]; intros [|f] [|f'] Hf Hf'; try lia.
    - split; intros m; [|intros vt]; intros Hm.
      + destruct m; cbn in Hm; try lia; (split; [done|]); cbn -[infer_leaf]; match goal with |- context [default _ ?x] => destruct x eqn:E end; try (cbn; lia);
          apply infer_leaf_height in E; cbn in E |- *; lia.
      + destruct m; cbn in Hm; try lia; (split; [done|]); cbn -[suggest_leaf]; match goal with |- context [default _ ?x] => destruct x eqn:E end; try (cbn; lia);
          apply suggest_leaf_height in E; cbn in E |- *; lia.
    - destruct (IH f f') as [A B]; [lia | lia |]. split; intros m; [|intros vt]; intros Hm; by apply (infer_type_step h). }
  destruct (Hall (infer_height n) f (S (infer_height n))) as [A B]; [done | lia |].
  destruct sg as [vt|]; [apply (B n vt) | apply (A n)]; lia.
Qed.
End Inference.

(** ** The depth limit *)

Section Depth.

(** The expression without its quoted and [str(...)] literals. *)
Fixpoint strip_literals (fuel : nat) (before expr : cppstring) : cppstring :=
  match fuel, expr with
  | S fuel', c :: expr' =>
      let skip rest := strip_literals fuel' (rev (take (length expr - length rest) expr) ++ before) rest in
      if bool_decide (c = c_quote) then skip (after_char c_quote expr')
      else if bool_decide (c = c_open) && opens_str_literal before then skip (after_char c_close expr')
      else c :: strip_literals fuel' (c :: before) expr'
  | _, _ => []
  end.

(** The deepest nesting of parentheses, a stray closing one counting for nothing. *)
Definition depth_step (d : Z) (c : ascii) : Z :=
  if bool_decide (c = c_open) then d + 1 else if bool_decide (c = c_close) then (if d >? 0 then d - 1 else d) else d.
Fixpoint nesting (s : cppstring) (d : Z) : Z :=
  match s with [] => d | c :: s' => Z.max d (nesting s' (depth_step d c)) end.

Lemma nesting_ge s d : d <= nesting s d.
Proof. destruct s; cbn; lia. Qed.

Lemma depth_step_nonneg d c : 0 <= d -> 0 <= depth_step d c <= d + 1.
Proof. intros Hd. unfold depth_step. rewrite Z.gtb_ltb. repeat case_bool_decide; try lia. destruct (Z.ltb_spec 0 d); lia. Qed.

Lemma after_char_length c s : (length (after_char c s) <= length s)%nat.
Proof. induction s as [|d s IH]; cbn; [done|]. case_bool_decide; cbn; lia. Qed.

(** The scan stops at the first parenthesis past the limit, and gives the depth otherwise. *)
Lemma paren_scan_nesting fuel : forall before expr d m,
  (length expr <= fuel)%nat -> 0 <= d <= m -> m <= max_expression_depth ->
  paren_scan fuel before expr d m = Z.min (max_expression_depth + 1) (Z.max m (nesting (strip_literals fuel before expr) d)).
Proof.
  unfold max_expression_depth. induction fuel as [|fuel IH]; intros before expr d m Hl Hd Hm.
  { destruct expr; [cbn; lia | cbn in Hl; lia]. }
  destruct expr as [|c expr]; [cbn; lia|]. cbn [length] in Hl. cbn [paren_scan strip_literals].
  pose proof (after_char_length c_quote expr). pose proof (after_char_length c_close expr).
  destruct (bool_decide_reflect (c = c_quote)) as [Hq|Hq]; [apply IH; lia|].
  destruct (bool_decide_reflect (c = c_open)) as [->|Ho]; cbn [andb].
  - destruct (opens_str_literal before); [apply IH; lia|]. cbn [nesting]. unfold depth_step at 1. rewrite bool_decide_eq_true_2 by done.
    unfold max_expression_depth. rewrite !Z.gtb_ltb. set (rest := strip_literals fuel (c_open :: before) expr).
    pose proof (nesting_ge rest (d + 1)).
    destruct (Z.ltb_spec m (d + 1)); [|rewrite IH by lia; fold rest; lia].
    destruct (Z.ltb_spec 64 (d + 1)); [lia|]. rewrite IH by lia. fold rest. lia.
  - cbn [nesting]. pose proof (depth_step_nonneg d c ltac:(lia)) as Hs. unfold depth_step in *.
    assert (bool_decide (c = c_open) = false) as Hb by (by apply bool_decide_eq_false_2).
    rewrite Hb in *. clear Hb. destruct (bool_decide_reflect (c = c_close)) as [->|Hc].
    + rewrite IH by (destruct (d >? 0) eqn:E; rewrite Z.gtb_ltb in E; breflect; lia). rewrite Z.gtb_ltb in *. destruct (Z.ltb_spec 0 d); lia.
    + rewrite IH by lia. lia.
Qed.

(** The scan of an expression refuses exactly those longer than the limit or nested deeper than
    the limit outside quoted and str() literals, although it stops at the first parenthesis too
    deep; below the limit it computes the exact depth. *)
Theorem check_limits_correct (expr : cppstring) :
  let depth := nesting (strip_literals (length expr) [] expr) 0 in
  check_limits expr =
    (if zlength expr >? max_expression_length then Throw TooLong
     else if depth >? max_expression_depth then Throw TooDeep else Ok ()) /\
  (depth <= max_expression_depth -> max_paren_depth expr = depth).
Proof.
  cbv zeta. assert (Hscan : max_paren_depth expr =
    Z.min (max_expression_depth + 1) (Z.max 0 (nesting (strip_literals (length expr) [] expr) 0)))
    by (apply paren_scan_nesting; unfold max_expression_depth; [done | lia | lia]).
  pose proof (nesting_ge (strip_literals (length expr) [] expr) 0) as H0.
  split; [|intros Hd; rewrite Hscan; lia]. unfold check_limits. case_if; [done|]. rewrite Hscan. rewrite !Z.gtb_ltb.
  destruct (Z.ltb_spec max_expression_depth (nesting (strip_literals (length expr) [] expr) 0)),
    (Z.ltb_spec max_expression_depth (Z.min (max_expression_depth + 1) (Z.max 0 (nesting (strip_literals (length expr) [] expr) 0)))); try lia; done.
Qed.
End Depth.

Example paren_depth_example : max_paren_depth (str "a((b) and ')))(' or str((((( x) and ((c))") = 3.
Proof. reflexivity. Qed.

(** Text that is never a number, for an example without text. *)
#[local] Instance no_numbers : number_text := {| stox_double _ := None; stox_llong _ := None |}.

Lemma infer_total_witness :
  let n : node Z Z := binary_op type_tbd op_lt (summary_int_variable_node type_int (fun c => Ok c))
             (literal_node type_float (float_value (to_double 3)) false) in
  (infer_type 50 n None).1 = type_bool /\ infer_type 50 n None = infer_type 2 n None.
Proof.
  cbv zeta. split; [reflexivity|].
  apply (proj1 (infer_total (binary_op type_tbd op_lt (summary_int_variable_node type_int (fun c : Z => Ok c))
    (literal_node type_float (float_value (to_double 3)) false) : node Z Z) None 50 ltac:(cbn; lia))).
Defined.
