(* ===== verification/WhereLogic.v ===== *)
(** The logic of the where-filter: what "unsure" and "no value" mean, and the laws of the
    operators. *)

From stdpp Require Import base list strings.
From Stdlib Require Import Ascii ZArith Lia SpecFloat.
From Stdlib Require String.
From S2P Require Import Prelude Strings Cron Format RegexGuard Where WhereTypes.
Import String.StringSyntax.

Local Open Scope Z_scope.

(** ** Two evaluations of the same expression

    [rel P m m'] compares what two computations return, whatever the states they start
    from: when both return, the results are related.  It composes like the monad.  The
    only thing asked of a state is that the pattern cache holds what its patterns compile
    to, which every computation keeps. *)

Section Relation.
Context `{regex_engine} `{number_text}.

Definition state_ok (s : wstate) : Prop := cache_ok (regex_cache (regexes s)).

Definition rel {A} (P : A -> A -> Prop) (m m' : M A) : Prop := forall s s', state_ok s -> state_ok s' ->
  match m s, m' s' with
  | (Ok a, t), (Ok a', t') => P a a' /\ state_ok t /\ state_ok t'
  | _, _ => True
  end.
(** A computation that keeps the states well formed. *)
Definition keeps {A} (m : M A) : Prop := rel (fun _ _ => True) m m.

Lemma rel_ret {A} (P : A -> A -> Prop) a a' : P a a' -> rel P (mret a) (mret a').
Proof. intros Hp s s' Hs Hs'. by split_and!. Qed.

Lemma rel_bind {A B} (P : A -> A -> Prop) (Q : B -> B -> Prop) m m' (k k' : A -> M B) :
  rel P m m' -> (forall a a', P a a' -> rel Q (k a) (k' a')) -> rel Q (m ≫= k) (m' ≫= k').
Proof.
  intros Hm Hk s s' Hs Hs'. specialize (Hm s s' Hs Hs'). unfold mbind, M_bind.
  destruct (m s) as [[a|e] t], (m' s') as [[a'|e'] t']; try done.
  - destruct Hm as (Hp & Ht & Ht'). exact (Hk a a' Hp t t' Ht Ht').
  - by destruct (k a t) as [[] ?].
Qed.

Lemma rel_bind_l {A B} (Q : B -> B -> Prop) (m : M A) (k : A -> M B) m' :
  keeps m -> (forall a, rel Q (k a) m') -> rel Q (m ≫= k) m'.
Proof.
  intros Hm Hk s s' Hs Hs'. specialize (Hm s s Hs Hs). unfold mbind, M_bind.
  destruct (m s) as [[a|] t]; [|done]. apply (Hk a t s'); [apply Hm | done].
Qed.
Lemma rel_bind_r {A B} (Q : B -> B -> Prop) m (m' : M A) (k' : A -> M B) :
  keeps m' -> (forall a, rel Q m (k' a)) -> rel Q m (m' ≫= k').
Proof.
  intros Hm Hk s s' Hs Hs'. specialize (Hm s' s' Hs' Hs'). unfold mbind, M_bind. destruct (m' s') as [[a|] t].
  - apply (Hk a s t); [done | apply Hm].
  - by destruct (m s) as [[] ?].
Qed.

Lemma rel_raise_l {A} (P : A -> A -> Prop) e m : rel P (raise e) m.
Proof. intros s s' _ _. done. Qed.
Lemma rel_raise_r {A} (P : A -> A -> Prop) e m : rel P m (raise e).
Proof. intros s s' _ _. cbn. destruct (m s) as [[] ?]; done. Qed.

Lemma rel_fail {A} (P : A -> A -> Prop) msg msg' a a' : P a a' -> rel P (fail_with msg a) (fail_with msg' a').
Proof. intros Hp s s' Hs Hs'. by split_and!. Qed.

Lemma rel_mono {A} (P Q : A -> A -> Prop) (m m' : M A) : (forall a a', P a a' -> Q a a') -> rel P m m' -> rel Q m m'.
Proof.
  intros Hpq Hm s s' Hs Hs'. specialize (Hm s s' Hs Hs'). destruct (m s) as [[] ?], (m' s') as [[] ?]; naive_solver.
Qed.

Lemma keeps_lift {A} (o : option A) : keeps (lift o).
Proof. destruct o; [by apply rel_ret | apply rel_raise_l]. Qed.

(** ** Sure values *)

(** A missing value is certain. *)
Definition wf_value (v : value_container) : Prop := is_no_value v = true -> is_unsure v = false.

(** The second evaluation gives what the first one gave for certain, or is unsure. *)
Definition refines (v v' : value_container) : Prop :=
  wf_value v /\ wf_value v' /\ (is_unsure v = false -> v' = v \/ is_unsure v' = true).

(** The types at which operators fetch operands. *)
Definition fetch_type (vt : value_type) : Prop := vt = type_int \/ vt = type_float \/ vt = type_string.

Definition rel_get (g g' : getter) : Prop := forall vt, fetch_type vt -> rel refines (g vt) (g' vt).
(** Two getters that give the same value, in every state. *)
Definition same_get (g g' : getter) : Prop := forall vt, rel eq (g vt) (g' vt).

Lemma refines_refl v : wf_value v -> refines v v.
Proof. intros. split_and!; auto. Qed.

Lemma wf_plain v : is_no_value v = false -> wf_value v.
Proof. unfold wf_value. congruence. Qed.

(** Values that carry no "no value" flag are related when they are equal or when one of
    the two is unsure. *)
Lemma refines_cases v v' : is_no_value v = false -> is_no_value v' = false ->
  v' = v \/ is_unsure v = true \/ is_unsure v' = true -> refines v v'.
Proof. intros Hv Hv' Hc. split_and!; [by apply wf_plain | by apply wf_plain |]. intros Hs. intuition congruence. Qed.

Definition is_number (l : literal) : bool := match l with string_value _ => false | _ => true end.

Lemma literal_get_same l u : same_get (literal_get l u) (literal_get l u).
Proof.
  intros vt. unfold literal_get. destruct l; repeat case_if; try (by apply rel_ret); try (by apply rel_fail);
    match goal with |- context [match ?x with Some _ => _ | None => _ end] => destruct x end;
    first [by apply rel_ret | by apply rel_fail].
Qed.

Lemma literal_get_plain l u vt s v t : literal_get l u vt s = (Ok v, t) ->
  is_no_value v = false /\ (is_number l = true -> fetch_type vt -> u = true -> is_unsure v = true).
Proof.
  unfold literal_get. intros Hl.
  destruct l as [i|f|x]; repeat (case_if_in Hl); try (destruct (stox_double x)); try (destruct (stox_llong x));
    unfold fail_with in Hl; cbn in Hl; injection Hl as <- <-; (split; [done | intros Hn Ht ->]); try done;
    exfalso; breflect; destruct Ht as [->|[->| ->]]; done.
Qed.

(** A relation between the values of two literals, from what is known of each. *)
Lemma literal_get_rel l u l' u' : (forall vt v v' s t s' t', fetch_type vt ->
    literal_get l u vt s = (Ok v, t) -> literal_get l' u' vt s' = (Ok v', t') -> refines v v') ->
  rel_get (literal_get l u) (literal_get l' u').
Proof.
  intros Hr vt Ht s s' Hs Hs'. pose proof (literal_get_same l u vt s s Hs Hs) as H1.
  pose proof (literal_get_same l' u' vt s' s' Hs' Hs') as H2.
  destruct (literal_get l u vt s) as [[v|] t] eqn:E; [|done]. destruct (literal_get l' u' vt s') as [[v'|] t'] eqn:E'; [|done].
  split_and!; [by eapply Hr | apply H1 | apply H2].
Qed.

Lemma literal_value_unique l u vt v v' s t s' t' : literal_get l u vt s = (Ok v, t) -> literal_get l u vt s' = (Ok v', t') -> v' = v.
Proof.
  unfold literal_get. destruct l as [i|f|x]; repeat case_if; try (destruct (stox_double x)); try (destruct (stox_llong x));
    intros [= <- <-] [= <- <-]; done.
Qed.

Lemma literal_get_refl l u : rel_get (literal_get l u) (literal_get l u).
Proof.
  apply literal_get_rel. intros vt v v' s t s' t' _ E E'. pose proof (literal_value_unique _ _ _ _ _ _ _ _ _ E E') as ->.
  apply refines_refl, wf_plain. by eapply literal_get_plain.
Qed.

(** An unsure number tells nothing. *)
Lemma literal_unsure_l l l' u' : is_number l = true -> rel_get (literal_get l true) (literal_get l' u').
Proof.
  intros Hnum. apply literal_get_rel. intros vt v v' s t s' t' Ht E E'. apply literal_get_plain in E as [Hn Hu], E' as [Hn' _].
  apply refines_cases; [done | done |]. right. left. by apply Hu.
Qed.
Lemma literal_unsure_r l l' u : is_number l' = true -> rel_get (literal_get l u) (literal_get l' true).
Proof.
  intros Hnum. apply literal_get_rel. intros vt v v' s t s' t' Ht E E'. apply literal_get_plain in E as [Hn _], E' as [Hn' Hu'].
  apply refines_cases; [done | done |]. right. right. by apply Hu'.
Qed.

(** A result of an operator is a boolean with its certainty; [rel_bool] relates two. *)
Definition rel_bool (v v' : value_container) : Prop :=
  exists b u b' u', v = create_bool b u /\ v' = create_bool b' u' /\ (u = false -> u' = true \/ (b' = b /\ u' = false)).

Lemma create_num_bool b u : create_num (create_bool b u) = literal_get (int_value (if b then 1 else 0)) u.
Proof. reflexivity. Qed.

Lemma rel_num m m' : rel rel_bool m m' -> rel rel_get (num_of m) (num_of m').
Proof.
  intros Hm. unfold num_of. eapply rel_bind; [exact Hm|]. intros v v' (b & u & b' & u' & -> & -> & Hu).
  apply rel_ret. rewrite !create_num_bool. destruct u.
  - by apply literal_unsure_l.
  - destruct (Hu eq_refl) as [->|[-> ->]]; [by apply literal_unsure_r | apply literal_get_refl].
Qed.

Lemma rel_bool_intro b u b' u' : (u = false -> u' = true \/ (b' = b /\ u' = false)) -> rel_bool (create_bool b u) (create_bool b' u').
Proof. intros. by exists b, u, b', u'. Qed.

Lemma rel_bool_unsure_l b b' u' : rel_bool (create_bool b true) (create_bool b' u').
Proof. by apply rel_bool_intro. Qed.
Lemma rel_bool_unsure_r b b' u : rel_bool (create_bool b u) (create_bool b' true).
Proof. apply rel_bool_intro. by left. Qed.

Lemma rel_bool_fail : rel_bool (create_int 0 true) (create_int 0 true).
Proof. exact (rel_bool_unsure_l false false true). Qed.

(** ** Operators

    The value part of an operator is a pure function to an optional pair of truth and
    uncertainty, [None] being an exception. *)
Definition outcome := option (bool * bool).
Definition outcome_rel (r r' : outcome) : Prop :=
  match r, r' with
  | Some (b, u), Some (b', u') => u = false -> u' = true \/ (b' = b /\ u' = false)
  | _, _ => True
  end.
Definition returns (m : M value_container) (r : outcome) : Prop := forall s, state_ok s ->
  match m s, r with
  | (Ok v, t), Some (b, u) => v = create_bool b u /\ state_ok t
  | (Ok _, _), None => False
  | (Throw _, _), _ => True
  end.

Lemma rel_outcome m m' r r' : returns m r -> returns m' r' -> outcome_rel r r' -> rel rel_bool m m'.
Proof.
  intros Hm Hm' Hr s s' Hs Hs'. specialize (Hm s Hs). specialize (Hm' s' Hs').
  destruct (m s) as [[v|] ?], (m' s') as [[v'|] ?]; try done.
  destruct r as [[b u]|], r' as [[b' u']|]; try done. destruct Hm as [-> ?], Hm' as [-> ?].
  split_and!; [by apply rel_bool_intro | done | done].
Qed.

Lemma outcome_rel_unsure_l b r : outcome_rel (Some (b, true)) r.
Proof. by destruct r as [[]|]. Qed.
Lemma outcome_rel_unsure_r b r : outcome_rel r (Some (b, true)).
Proof. destruct r as [[]|]; cbn; auto. Qed.

(** A value of the first evaluation, as the second one sees it. *)
Lemma refines_present v v' : refines v v' ->
  is_unsure v = true /\ is_no_value v = false \/ v' = v /\ is_unsure v = false \/
  is_unsure v = false /\ is_unsure v' = true /\ is_no_value v' = false.
Proof.
  intros (Hw & Hw' & Hr). unfold wf_value in *. destruct (is_unsure v) eqn:E, (is_no_value v), (is_unsure v'), (is_no_value v');
    intuition congruence.
Qed.

Definition compare_outcome {A} (type : value_type) (o : value_container -> option A) (cmp : A -> A -> bool)
    (lhs rhs : value_container) : outcome :=
  if negb (vc_is lhs type) || negb (vc_is rhs type) then Some (false, true)
  else if is_no_value lhs || is_no_value rhs then Some (false, false)
  else match o lhs, o rhs with Some a, Some b => Some (cmp a b, is_unsure lhs || is_unsure rhs) | _, _ => None end.

Lemma compare_outcome_rel {A} type (o : value_container -> option A) cmp lhs rhs lhs' rhs' :
  refines lhs lhs' -> refines rhs rhs' ->
  outcome_rel (compare_outcome type o cmp lhs rhs) (compare_outcome type o cmp lhs' rhs').
Proof.
  intros Hl Hr. unfold compare_outcome.
  destruct (vc_is lhs type) eqn:L1; [|apply outcome_rel_unsure_l].
  destruct (vc_is rhs type) eqn:R1; [|apply outcome_rel_unsure_l].
  destruct (vc_is lhs' type) eqn:L2; [|apply outcome_rel_unsure_r].
  destruct (vc_is rhs' type) eqn:R2; [|apply outcome_rel_unsure_r]. cbn [negb orb].
  destruct (refines_present _ _ Hl) as [[Ul Nl]|[[-> Ul]|(Ul & Ul' & Nl')]],
    (refines_present _ _ Hr) as [[Ur Nr]|[[-> Ur]|(Ur & Ur' & Nr')]];
    rewrite ?Ul, ?Nl, ?Ul', ?Nl', ?Ur, ?Nr, ?Ur', ?Nr'; cbn; rewrite ?orb_true_r;
    repeat case_match; simplify_eq; cbn; rewrite ?orb_true_r; auto; try (intros; by auto);
    cbn in *; rewrite ?orb_true_r, ?orb_false_r in *; breflect; auto; try congruence; intuition congruence.
Qed.

Lemma even_simpler_returns {A} type (o : value_container -> option A) cmp lhs rhs :
  returns (if negb (vc_is lhs type) || negb (vc_is rhs type) then fail_with (str "invalid type") (create_int 0 true)
           else if is_no_value lhs || is_no_value rhs then mret (create_int 0 false)
           else a ← lift (o lhs); b ← lift (o rhs); mret (create_bool (cmp a b) (is_unsure lhs || is_unsure rhs)))
          (compare_outcome type o cmp lhs rhs).
Proof.
  intros s Hs. unfold compare_outcome. case_if; [by split|]. case_if; [by split|].
  destruct (o lhs) as [a|]; [|done]. destruct (o rhs) as [b|]; [by split | done].
Qed.

Context (L L' R R' : view) (HL : rel_get (v_get L) (v_get L')) (HR : rel_get (v_get R) (v_get R'))
  (KR : keeps (v_get R type_int)) (KR' : keeps (v_get R' type_int))
  (HtL : v_type L' = v_type L) (HtR : v_type R' = v_type R).

Lemma rel_even_simpler {A} type (o : value_container -> option A) cmp :
  fetch_type type ->
  rel rel_bool (even_simpler_eval type (fun v => lift (o v)) cmp L R) (even_simpler_eval type (fun v => lift (o v)) cmp L' R').
Proof.
  intros Ht. unfold even_simpler_eval. eapply rel_bind; [by apply HL|]. intros lhs lhs' Hl. eapply rel_bind; [by apply HR|]. intros rhs rhs' Hr.
  eapply rel_outcome; [apply even_simpler_returns | apply even_simpler_returns | by apply compare_outcome_rel].
Qed.

Lemma rel_create_false msg msg' : rel rel_get (fail_with msg create_false) (fail_with msg' create_false).
Proof. apply rel_fail, literal_get_refl. Qed.

Lemma rel_simple_bool mi mf ms mi' mf' ms' : rel rel_bool mi mi' -> rel rel_bool mf mf' -> rel rel_bool ms ms' ->
  rel rel_get (simple_bool_evaluate mi mf ms L R) (simple_bool_evaluate mi' mf' ms' L' R').
Proof.
  intros Hi Hf Hs. unfold simple_bool_evaluate. rewrite HtL, HtR. cbv zeta.
  repeat case_if; try (by apply rel_num); apply rel_create_false.
Qed.

Lemma rel_compare c : rel rel_get (compare_evaluate c L R) (compare_evaluate c L' R').
Proof. apply rel_simple_bool; apply rel_even_simpler; unfold fetch_type; auto. Qed.

(** An operand that was read. *)
Lemma refines_read {A} (o : value_container -> option A) v v' a a' : refines v v' -> o v = Some a -> o v' = Some a' ->
  is_unsure v = true \/ is_unsure v = false /\ is_unsure v' = false /\ v' = v /\ a' = a \/ is_unsure v = false /\ is_unsure v' = true.
Proof.
  intros (_ & _ & Hr) Ha Ha'. destruct (is_unsure v) eqn:E; [by left|]. right.
  destruct (Hr eq_refl) as [->|Hs]; [left | by right]. rewrite Ha in Ha'. injection Ha' as ->. auto.
Qed.

Lemma rel_lift {A B} (Q : B -> B -> Prop) (o o' : option A) (k k' : A -> M B) :
  (forall a a', o = Some a -> o' = Some a' -> rel Q (k a) (k' a')) -> rel Q (lift o ≫= k) (lift o' ≫= k').
Proof.
  intros Hk. destruct o as [a|]; [|apply rel_raise_l]. destruct o' as [a'|]; [|apply rel_raise_r]. by apply (Hk a a').
Qed.

(** Both logical connectives stop at a sure operand that decides them. *)
Lemma rel_connective (decides : Z -> bool) (d : bool) (f : bool -> bool -> bool) :
  let conn (L R : view) : M value_container :=
    lhs ← v_get L type_int; lhsi ← get_int lhs;
    if decides lhsi && negb (is_unsure lhs) then mret (create_bool d false) else
    rhs ← v_get R type_int; rhsi ← get_int rhs;
    if decides rhsi && negb (is_unsure rhs) then mret (create_bool d false) else
    mret (create_bool (f (truthy lhsi) (truthy rhsi)) (is_unsure lhs || is_unsure rhs)) in
  rel rel_bool (conn L R) (conn L' R').
Proof.
  cbv zeta. eapply rel_bind; [apply HL; by left|]. intros lhs lhs' Hl. apply rel_lift. intros i i' Hi Hi'.
  pose proof (refines_read int_of lhs lhs' i i' Hl Hi Hi') as Fl.
  destruct (decides i) eqn:Ei, (is_unsure lhs) eqn:Ul, (decides i') eqn:Ei', (is_unsure lhs') eqn:Ul';
    cbn [negb andb]; try (apply rel_ret, rel_bool_intro; by auto).
  all: try (apply rel_bind_r; [apply KR'|]; intros rhs'; apply rel_bind_r; [apply keeps_lift|]; intros j'; case_if; apply rel_ret, rel_bool_intro; by auto).
  all: try (apply rel_bind_l; [apply KR|]; intros rhs; apply rel_bind_l; [apply keeps_lift|]; intros j; case_if; apply rel_ret, rel_bool_intro; by auto).
  all: try (exfalso; clear -Fl Ei Ei'; intuition congruence).
  all: eapply rel_bind; [apply HR; by left|]; intros rhs rhs' Hr; apply rel_lift; intros j j' Hj Hj';
    pose proof (refines_read int_of rhs rhs' j j' Hr Hj Hj') as Fr;
    destruct (decides j) eqn:Ej, (is_unsure rhs) eqn:Ur, (decides j') eqn:Ej', (is_unsure rhs') eqn:Ur';
    cbn [negb andb orb]; apply rel_ret, rel_bool_intro; auto.
  all: try (exfalso; clear -Fr Ej Ej'; intuition congruence).
  all: intros _; right; split; [|done].
  all: assert (i' = i) as -> by (clear -Fl; intuition congruence); assert (j' = j) as -> by (clear -Fr; intuition congruence); done.
Qed.

Lemma rel_and : rel rel_bool (operator_and L R) (operator_and L' R').
Proof. exact (rel_connective (fun i => negb (truthy i)) false andb). Qed.
Lemma rel_or : rel rel_bool (operator_or L R) (operator_or L' R').
Proof. exact (rel_connective truthy true orb). Qed.

Lemma rel_simple_int m m' : rel rel_bool m m' -> rel rel_get (simple_int_evaluate m L R) (simple_int_evaluate m' L' R').
Proof.
  intros Hm. unfold simple_int_evaluate. rewrite HtL, HtR. repeat case_if; [by apply rel_num | apply rel_create_false | apply rel_create_false].
Qed.

(** ** Patterns *)

(** The answer of a matcher depends on its texts only, or is unsure. *)
Definition stable_core (core : cppstring -> cppstring -> bool -> M value_container) : Prop :=
  forall t q u t' q' u', (u = false -> u' = true \/ u' = false /\ t' = t /\ q' = q) ->
    rel rel_bool (core t q u) (core t' q' u').

Lemma like_stable negate : stable_core (fun t q u => mret (create_bool (xorb negate (like_match t q)) u)).
Proof.
  intros t q u t' q' u' Hu. apply rel_ret, rel_bool_intro. intros E. destruct (Hu E) as [?|(? & -> & ->)]; auto.
Qed.

(** A guarded match keeps the cache and gives the engine's answer, or none. *)
Lemma guarded_match_answer t q st : cache_ok (regex_cache st) ->
  cache_ok (regex_cache (guarded_match t q st).2) /\
  forall b, (guarded_match t q st).1 = Ok b -> exists r, compile q = Some r /\ regex_match t r = Answer b.
Proof.
  intros Hc. unfold guarded_match. case_if; [done|]. case_if; [done|].
  pose proof (compiled_regex_correct q st Hc) as Hq. destruct (compiled_regex q st) as [re st']. destruct Hq as (Hre & Hok & _).
  assert (Hch : cache_ok (regex_cache (charge st'))) by (unfold charge, tick; by destruct (regex_clock st')).
  destruct re as [r|]; [|done]. split; [done|]. intros b Hb. exists r. split; [done|].
  cbn in Hb. repeat case_match; simplify_eq; done.
Qed.

Lemma regex_stable negate : stable_core (fun t q u => run_regex t q negate u).
Proof.
  intros t q u t' q' u' Hu s s' Hs Hs'. unfold run_regex.
  destruct (guarded_match_answer t q _ Hs) as [Hk Ha], (guarded_match_answer t' q' _ Hs') as [Hk' Ha'].
  destruct (guarded_match t q (regexes s)) as [[b|e] st], (guarded_match t' q' (regexes s')) as [[b'|e'] st']; cbn in Hk, Hk', Ha, Ha'.
  - split_and!; [|done|done]. apply rel_bool_intro. intros E. destruct (Hu E) as [?|(? & -> & ->)]; [by auto|].
    destruct (Ha b eq_refl) as (r & Hr & Hm), (Ha' b' eq_refl) as (r' & Hr' & Hm'). rewrite Hr in Hr'. injection Hr' as <-.
    rewrite Hm in Hm'. injection Hm' as <-. auto.
  - split_and!; [apply (rel_bool_unsure_r _ false) | done | done].
  - split_and!; [apply (rel_bool_unsure_l false) | done | done].
  - split_and!; [apply (rel_bool_unsure_l false false) | done | done].
Qed.

(** An unsure answer is related to every boolean answer. *)
Lemma rel_unsure_l msg m : rel rel_bool m m -> rel rel_bool (fail_with msg (create_int 0 true)) m.
Proof.
  intros Hm s s' Hs Hs'. specialize (Hm s' s' Hs' Hs'). cbn. destruct (m s') as [[v|] t]; [|done].
  destruct Hm as ((b & u & _ & _ & -> & _) & Ht & _). split_and!; [apply (rel_bool_unsure_l false) | done | done].
Qed.
Lemma rel_unsure_r msg m : rel rel_bool m m -> rel rel_bool m (fail_with msg (create_int 0 true)).
Proof.
  intros Hm s s' Hs Hs'. specialize (Hm s s Hs Hs). cbn. destruct (m s) as [[v|] t]; [|done].
  destruct Hm as ((b & u & _ & _ & -> & _) & Ht & _). split_and!; [apply (rel_bool_unsure_r _ false) | done | done].
Qed.

Section Matcher.
Context (core : cppstring -> cppstring -> bool -> M value_container) (Hcore : stable_core core).

Definition matcher_of (t : cppstring) (p : value_container) (u : bool) : M value_container :=
  if negb (vc_is p type_string) then fail_with (str "invalid type") (create_int 0 true)
  else q ← get_string p; core t q u.

Lemma matcher_self t p u : rel rel_bool (matcher_of t p u) (matcher_of t p u).
Proof.
  unfold matcher_of. case_if; [apply rel_fail, rel_bool_fail|]. apply rel_lift. intros q q' Hq Hq'.
  rewrite Hq in Hq'. injection Hq' as <-. apply Hcore. destruct u; auto.
Qed.

Lemma rel_matcher t t' ul ul' p p' : refines p p' -> (ul = false -> ul' = true \/ ul' = false /\ t' = t) ->
  rel rel_bool (matcher_of t p (ul || is_unsure p)) (matcher_of t' p' (ul' || is_unsure p')).
Proof.
  intros Hp Hu. pose proof (matcher_self t p (ul || is_unsure p)) as Hself. pose proof (matcher_self t' p' (ul' || is_unsure p')) as Hself'.
  unfold matcher_of in *.
  destruct (vc_is p type_string) eqn:E; [|by apply rel_unsure_l].
  destruct (vc_is p' type_string) eqn:E'; [|by apply rel_unsure_r]. cbn [negb].
  apply rel_lift. intros q q' Hq Hq'. apply Hcore. intros [-> Up]%orb_false_iff.
  destruct (Hu eq_refl) as [-> |[-> ->]]; [by left|]. cbn [orb].
  destruct (refines_present _ _ Hp) as [[? _]|[[-> _]|(_ & -> & _)]]; [congruence | | by left].
  right. rewrite Hq in Hq'. by injection Hq' as ->.
Qed.

Lemma rel_pattern : rel rel_get (pattern_evaluate matcher_of L R) (pattern_evaluate matcher_of L' R').
Proof.
  unfold pattern_evaluate. rewrite HtL. cbv zeta. repeat case_if; [| | |apply rel_create_false]; apply rel_num.
  - eapply rel_bind; [apply HL; unfold fetch_type; by auto|]. intros lhs lhs' Hl.
    eapply rel_bind; [apply HR; unfold fetch_type; by auto|]. intros rhs rhs' Hr.
    apply rel_lift. intros i i' Hi Hi'. apply rel_matcher; [done|]. intros Ul.
    destruct (refines_read int_of lhs lhs' i i' Hl Hi Hi') as [?|[(_ & ? & -> & ->)|[_ ?]]]; [congruence | auto | auto].
  - eapply rel_bind; [apply HL; unfold fetch_type; by auto|]. intros lhs lhs' Hl.
    eapply rel_bind; [apply HR; unfold fetch_type; by auto|]. intros rhs rhs' Hr.
    apply rel_lift. intros i i' Hi Hi'. apply rel_matcher; [done|]. intros Ul.
    destruct (refines_read float_of lhs lhs' i i' Hl Hi Hi') as [?|[(_ & ? & -> & ->)|[_ ?]]]; [congruence | auto | auto].
  - eapply rel_bind; [apply HL; unfold fetch_type; by auto|]. intros lhs lhs' Hl.
    eapply rel_bind; [apply HR; unfold fetch_type; by auto|]. intros rhs rhs' Hr.
    assert (Hself : forall (x : value_container) y u, rel rel_bool
      (if negb (vc_is x type_string) || negb (vc_is y type_string) then fail_with (str "invalid type") (create_int 0 true)
       else t ← get_string x; matcher_of t y u)
      (if negb (vc_is x type_string) || negb (vc_is y type_string) then fail_with (str "invalid type") (create_int 0 true)
       else t ← get_string x; matcher_of t y u)).
    { intros x y u. case_if; [apply rel_fail, rel_bool_fail|]. apply rel_lift. intros t t' Ht Ht'.
      rewrite Ht in Ht'. injection Ht' as <-. apply matcher_self. }
    destruct (negb (vc_is lhs type_string) || negb (vc_is rhs type_string)) eqn:E; [by apply rel_unsure_l|].
    destruct (negb (vc_is lhs' type_string) || negb (vc_is rhs' type_string)) eqn:E'; [apply rel_unsure_r; specialize (Hself lhs rhs (is_unsure lhs || is_unsure rhs)); by rewrite E in Hself|].
    apply rel_lift. intros t t' Ht Ht'. apply rel_matcher; [done|]. intros Ul.
    destruct (refines_read string_of lhs lhs' t t' Hl Ht Ht') as [?|[(_ & ? & -> & ->)|[_ ?]]]; [congruence | auto | auto].
Qed.
End Matcher.

(** ** in, not in *)

(** The items of a list give the same values in both evaluations. *)
Definition same_items (l l' : list getter) : Prop :=
  Forall2 same_get l l' /\ Forall2 same_get l l /\ Forall2 same_get l' l'.
Context (HI : rel same_items (v_items R) (v_items R'))
  (KI : rel same_items (v_items R) (v_items R)) (KI' : rel same_items (v_items R') (v_items R')).

Lemma rel_true {A} (m m' : M A) : keeps m -> keeps m' -> rel (fun _ _ => True) m m'.
Proof.
  intros Hm Hm' s s' Hs Hs'. specialize (Hm s s Hs Hs). specialize (Hm' s' s' Hs' Hs').
  destruct (m s) as [[] ?], (m' s') as [[] ?]; naive_solver.
Qed.

Lemma keeps_of {A} (P : A -> A -> Prop) m : rel P m m -> keeps m.
Proof. by apply rel_mono. Qed.

Section In.
Context {A : Type} (type : value_type) (o : value_container -> option A) (d : value_container -> A)
 (Hty : fetch_type type) (eq_a : A -> A -> bool) (negate : bool).
Let get_item (g : getter) : M A := v ← g type; mret (d v).

Lemma rel_any_item val items items' : Forall2 same_get items items' ->
  rel eq (any_item get_item eq_a val items) (any_item get_item eq_a val items').
Proof.
  induction 1 as [|g g' items items' Hg _ IH]; cbn [any_item]; [by apply rel_ret|].
  eapply rel_bind; [eapply rel_bind; [apply (Hg type)|]; intros v v' ->; by apply (rel_ret eq)|].
  intros a a' ->. case_if; [by apply rel_ret | apply IH].
Qed.

(** The search, once the left operand is present. *)
Definition in_search (lhs : value_container) (X : view) : M value_container :=
  val ← lift (o lhs); items ← v_items X; found ← any_item get_item eq_a val items;
  mret (create_bool (xorb negate found) (is_unsure lhs)).

Lemma rel_in_search lhs lhs' X X' : rel same_items (v_items X) (v_items X') ->
  (is_unsure lhs = false -> is_unsure lhs' = true \/ lhs' = lhs) ->
  rel rel_bool (in_search lhs X) (in_search lhs' X').
Proof.
  intros Hi Hu. apply rel_lift. intros a a' Ha Ha'. eapply rel_bind; [exact Hi|]. intros items items' (Hii' & Hii & Hi'i').
  destruct (is_unsure lhs) eqn:E.
  - eapply rel_bind; [apply rel_true; eapply keeps_of, rel_any_item; eassumption|].
    intros b b' _. apply rel_ret, rel_bool_unsure_l.
  - destruct (Hu eq_refl) as [E'| ->].
    + rewrite E'. eapply rel_bind; [apply rel_true; eapply keeps_of, rel_any_item; eassumption|].
      intros b b' _. apply rel_ret, rel_bool_unsure_r.
    + rewrite Ha in Ha'. injection Ha' as <-. rewrite E. eapply rel_bind; [by apply rel_any_item|].
      intros b b' ->. apply rel_ret, rel_bool_intro. auto.
Qed.

Definition in_body (lhs : value_container) (X : view) : M value_container :=
  if negb (vc_is lhs type) then fail_with (str "invalid type") (create_int 0 true)
  else if is_no_value lhs then mret (create_int 0 false) else in_search lhs X.

Lemma in_body_self lhs X : rel same_items (v_items X) (v_items X) -> rel rel_bool (in_body lhs X) (in_body lhs X).
Proof.
  intros Hi. unfold in_body. case_if; [apply rel_fail, rel_bool_fail|]. case_if.
  - apply rel_ret. apply (rel_bool_intro false false false false). auto.
  - apply rel_in_search; auto.
Qed.

Lemma in_search_unsure lhs X s v t : in_search lhs X s = (Ok v, t) -> exists b, v = create_bool b (is_unsure lhs).
Proof.
  unfold in_search, mbind, M_bind. destruct (lift (o lhs) s) as [[val|] s1]; [|done]. destruct (v_items X s1) as [[items|] s2]; [|done].
  destruct (any_item get_item eq_a val items s2) as [[b|] s3]; [|done]. intros [= <- <-]. by eexists.
Qed.

(** A sure false and a search from an unsure value. *)
Lemma rel_false_search lhs' : is_unsure lhs' = true -> rel rel_bool (mret (create_int 0 false)) (in_search lhs' R').
Proof.
  intros Hu s s' Hs Hs'. pose proof (rel_in_search lhs' lhs' R' R' KI' ltac:(auto) s' s' Hs' Hs') as Hself.
  destruct (in_search lhs' R' s') as [[v|] t] eqn:E; [|done]. apply in_search_unsure in E as [b ->]. rewrite Hu.
  split_and!; [apply (rel_bool_unsure_r false) | done | apply Hself].
Qed.

Lemma rel_in_eval :
  rel rel_bool (in_eval type (fun v => lift (o v)) get_item eq_a negate L R) (in_eval type (fun v => lift (o v)) get_item eq_a negate L' R').
Proof.
  unfold in_eval. eapply rel_bind; [by apply HL|]. intros lhs lhs' Hl.
  change (rel rel_bool (in_body lhs R) (in_body lhs' R')).
  pose proof (in_body_self lhs R KI) as Hself. pose proof (in_body_self lhs' R' KI') as Hself'. unfold in_body in *.
  destruct (vc_is lhs type) eqn:E; [|by apply rel_unsure_l].
  destruct (vc_is lhs' type) eqn:E'; [|by apply rel_unsure_r]. cbn [negb].
  destruct (refines_present _ _ Hl) as [[U N]|[[-> U]|(U & U' & N')]].
  - rewrite N. destruct (is_no_value lhs') eqn:N'.
    + intros s s' Hs Hs'. pose proof (rel_in_search lhs lhs R R KI ltac:(auto) s s Hs Hs) as Hs2.
      destruct (in_search lhs R s) as [[v|] t] eqn:Es; [|done]. apply in_search_unsure in Es as [b ->]. rewrite U.
      split_and!; [apply (rel_bool_unsure_l b false false) | apply Hs2 | done].
    + apply rel_in_search; [done|]. congruence.
  - case_if; [apply rel_ret, (rel_bool_intro false false false false); auto|]. apply rel_in_search; auto.
  - rewrite N'. destruct (is_no_value lhs); [by apply rel_false_search|]. apply rel_in_search; auto.
Qed.
End In.

Lemma rel_in negate : rel rel_get (in_evaluate negate L R) (in_evaluate negate L' R').
Proof.
  apply rel_simple_bool; apply rel_in_eval; unfold fetch_type; auto.
Qed.

Lemma rel_binary_operator op : rel rel_get (binary_operator op L R) (binary_operator op L' R').
Proof.
  destruct op; cbn [binary_operator]; try apply rel_compare; try apply rel_in; try apply rel_create_false.
  - apply rel_simple_int, rel_or.
  - apply rel_simple_int, rel_and.
  - apply (rel_pattern (fun t q u => mret (create_bool (xorb false (like_match t q)) u))), like_stable.
  - apply (rel_pattern (fun t q u => mret (create_bool (xorb true (like_match t q)) u))), like_stable.
  - apply rel_simple_int, rel_and.
  - apply rel_simple_int, rel_or.
  - apply (rel_pattern (fun t q u => run_regex t q false u)), regex_stable.
  - apply (rel_pattern (fun t q u => run_regex t q true u)), regex_stable.
Qed.
End Relation.

(** ** Functions *)

Section Functions.
Context `{regex_engine} `{number_text}.

Lemma refines_literal v v' l l' : refines v v' -> is_number l = true -> is_number l' = true -> (v' = v -> l' = l) ->
  rel_get (literal_get l (is_unsure v)) (literal_get l' (is_unsure v')).
Proof.
  intros (_ & _ & Hr) Hl Hl' Heq. destruct (is_unsure v) eqn:E; [by apply literal_unsure_l|].
  destruct (Hr eq_refl) as [->|E'].
  - rewrite E, Heq by done. apply literal_get_refl.
  - rewrite E'. by apply literal_unsure_r.
Qed.

Lemma rel_checked {A B} (Q : B -> B -> Prop) (r r' : result format_error A) (k k' : A -> M B) :
  (forall a a', r = Ok a -> r' = Ok a' -> rel Q (k a) (k' a')) -> rel Q (checked r ≫= k) (checked r' ≫= k').
Proof.
  intros Hk. destruct r as [a|]; [|apply rel_raise_l]. destruct r' as [a'|]; [|apply rel_raise_r]. by apply (Hk a a').
Qed.

Lemma keeps_checked {A} (r : result format_error A) : keeps (checked r).
Proof. destruct r; [by apply rel_ret | apply rel_raise_l]. Qed.

Lemma rel_not now type g g' : rel_get g g' -> rel rel_get (operator_not now type g) (operator_not now type g').
Proof.
  intros Hg. specialize (Hg type_int ltac:(by left)). unfold operator_not.
  repeat case_if; [| | |apply rel_fail, literal_get_refl]; (eapply rel_bind; [exact Hg|]; intros v v' Hv).
  - apply rel_ret. destruct (vc_is v type_int) eqn:E, (vc_is v' type_int) eqn:E'; cbn [negb];
      try (by apply literal_unsure_l); try (by apply literal_unsure_r). apply refines_literal; try done. by intros ->.
  - destruct (vc_is v type_int) eqn:E, (vc_is v' type_int) eqn:E'; cbn [negb].
    + case_if; [apply rel_raise_l|]. case_if; [apply rel_raise_r|]. apply rel_ret, refines_literal; try done. by intros ->.
    + case_if; [apply rel_raise_l|]. by apply rel_ret, literal_unsure_r.
    + case_if; [apply rel_raise_r|]. by apply rel_ret, literal_unsure_l.
    + by apply rel_ret, literal_unsure_l.
  - destruct (vc_is v type_int) eqn:E, (vc_is v' type_int) eqn:E'; cbn [negb].
    + apply rel_checked. intros a a' Ha Ha'. apply rel_checked. intros b b' Hb Hb'. apply rel_checked. intros c c' Hc Hc'.
      apply rel_ret, refines_literal; try done. intros ->. congruence.
    + do 3 (apply rel_bind_l; [apply keeps_checked|]; intros ?). by apply rel_ret, literal_unsure_r.
    + do 3 (apply rel_bind_r; [apply keeps_checked|]; intros ?). by apply rel_ret, literal_unsure_l.
    + by apply rel_ret, literal_unsure_l.
Qed.

Lemma rel_convert_with_unit now type v v' unit_s : v_type v' = v_type v -> rel_get (v_get v) (v_get v') ->
  rel rel_get (convert_with_unit now type v unit_s) (convert_with_unit now type v' unit_s).
Proof.
  intros Ht Hg. unfold convert_with_unit, v_is_float, v_is_int. rewrite Ht.
  repeat case_if; (eapply rel_bind; [apply Hg; unfold fetch_type; by auto|]; intros vc vc' Hvc;
    apply rel_checked; intros a a' Ha Ha'; apply rel_checked || apply rel_ret);
    try (intros b b' Hb Hb'; apply rel_ret); apply refines_literal; try done; intros ->; congruence.
Qed.

Definition opt_rel {A} (P : A -> A -> Prop) (o o' : option A) : Prop :=
  match o, o' with Some a, Some a' => P a a' | None, None => True | _, _ => False end.

Lemma rel_convert now value value' unit unit' type :
  opt_rel (fun v v' => v_type v' = v_type v /\ rel_get (v_get v) (v_get v')) value value' ->
  opt_rel (fun u u' => same_get (v_get u) (v_get u')) unit unit' ->
  rel rel_get (function_convert now value unit type) (function_convert now value' unit' type).
Proof.
  intros Hv Hu. unfold function_convert. destruct value as [v|], value' as [v'|]; try done; [|apply rel_fail, literal_get_refl].
  destruct Hv as [Ht Hg], unit as [u|], unit' as [u'|]; try done.
  - case_if; [|apply rel_fail, literal_get_refl]. unfold get_string_value.
    eapply rel_bind; [eapply rel_bind; [apply Hu|]; intros x x' ->; by apply (rel_ret eq)|].
    intros x x' ->. by apply rel_convert_with_unit.
  - unfold v_is_int, v_is_float. rewrite Ht. repeat case_if; try (by apply rel_ret).
    + eapply rel_bind; [apply Hg; unfold fetch_type; by auto|]. intros vc vc' Hvc. apply rel_ret, refines_literal; try done. by intros ->.
    + eapply rel_bind; [apply Hg; unfold fetch_type; by auto|]. intros vc vc' Hvc. apply rel_ret, refines_literal; try done. by intros ->.
Qed.

(** The same functions on arguments that give the same values. *)
Lemma same_not now type g g' : same_get g g' -> rel same_get (operator_not now type g) (operator_not now type g').
Proof.
  intros Hg. specialize (Hg type_int). unfold operator_not.
  repeat case_if; [| | |apply rel_fail, literal_get_same]; (eapply rel_bind; [exact Hg|]; intros v v' ->).
  - apply rel_ret. case_if; apply literal_get_same.
  - case_if; [apply rel_ret, literal_get_same|]. case_if; [apply rel_raise_l | apply rel_ret, literal_get_same].
  - case_if; [apply rel_ret, literal_get_same|]. apply rel_checked. intros a a' Ha Ha'. apply rel_checked. intros b b' Hb Hb'.
    apply rel_checked. intros c c' Hc Hc'. assert (c' = c) as -> by congruence. apply rel_ret, literal_get_same.
Qed.

Lemma same_convert now value value' unit unit' type :
  opt_rel (fun v v' => v_type v' = v_type v /\ same_get (v_get v) (v_get v')) value value' ->
  opt_rel (fun u u' => same_get (v_get u) (v_get u')) unit unit' ->
  rel same_get (function_convert now value unit type) (function_convert now value' unit' type).
Proof.
  intros Hv Hu. unfold function_convert. destruct value as [v|], value' as [v'|]; try done; [|apply rel_fail, literal_get_same].
  destruct Hv as [Ht Hg], unit as [u|], unit' as [u'|]; try done.
  - case_if; [|apply rel_fail, literal_get_same]. unfold get_string_value.
    eapply rel_bind; [eapply rel_bind; [apply Hu|]; intros x x' ->; by apply (rel_ret eq)|]. intros x x' ->.
    unfold convert_with_unit, v_is_float, v_is_int. rewrite Ht.
    repeat case_if; (eapply rel_bind; [apply Hg|]; intros vc vc' ->;
      apply rel_checked; intros a a' Ha Ha'; apply rel_checked || apply rel_ret);
      try (intros b b' Hb Hb'; assert (b' = b) as -> by congruence; apply rel_ret);
      try (assert (a' = a) as -> by congruence); apply literal_get_same.
  - unfold v_is_int, v_is_float. rewrite Ht. repeat case_if; try (by apply rel_ret);
      (eapply rel_bind; [apply Hg|]; intros vc vc' ->; apply rel_ret, literal_get_same).
Qed.
End Functions.

(** ** Expressions *)

Section Expressions.
Context `{regex_engine} `{number_text} {obj summary : Type}.
Notation node := (node obj summary).
Notation env := (env obj summary).

Definition opt_all {A} (P : A -> Prop) (o : option A) : Prop := match o with Some a => P a | None => True end.

(** Induction on a node, through lists and bound arguments. *)
Lemma node_nested_ind (P : node -> Prop) :
  (forall ty l u, P (literal_node ty l u)) ->
  (forall ty f, P (int_variable_node ty f)) -> (forall ty f, P (float_variable_node ty f)) ->
  (forall ty f, P (str_variable_node ty f)) -> (forall ty nt nv f, P (optional_int_variable_node ty nt nv f)) ->
  (forall ty f, P (summary_int_variable_node ty f)) -> (forall ty f, P (summary_string_variable_node ty f)) ->
  (forall ty l, Forall P l -> P (list_node ty l)) ->
  (forall ty op l r, P l -> P r -> P (binary_op ty op l r)) ->
  (forall ty op s, P s -> P (unary_op ty op s)) ->
  (forall ty name b s, P s -> match b with BoundConvert v u => opt_all P v /\ opt_all P u | _ => True end -> P (unary_fun ty name b s)) ->
  forall n, P n.
Proof.
  intros H1 H2 H3 H4 H5 H6 H7 H8 H9 H10 H11. fix IH 1. intros [].
  - apply H1.
  - apply H2.
  - apply H3.
  - apply H4.
  - apply H5.
  - apply H6.
  - apply H7.
  - apply H8. induction value as [|n l IHl]; [apply Forall_nil_2 | apply Forall_cons_2; [apply IH | apply IHl]].
  - apply H9; apply IH.
  - apply H10; apply IH.
  - apply H11; [apply IH|]. destruct function as [|v u|]; [exact I | | exact I].
    split; [destruct v | destruct u]; cbn; first [apply IH | exact I].
Qed.

Definition is_literal (n : node) : bool := match n with literal_node _ _ _ => true | _ => false end.
Definition opt_literal (o : option node) : bool := match o with Some n => is_literal n | None => true end.
(** Nodes with an empty list value *)
Definition no_items (n : node) : bool :=
  match n with literal_node _ _ _ | list_node _ _ | unary_fun _ _ _ _ => false | _ => true end.

(** Lists hold literals, and so do the arguments of a conversion of a list: what [in]
    compares with does not depend on the object. *)
Fixpoint plain_lists (n : node) : bool :=
  match n with
  | list_node _ l => forallb is_literal l
  | binary_op _ _ l r => plain_lists l && plain_lists r
  | unary_op _ _ s => plain_lists s
  | unary_fun _ _ (BoundConvert v u) s =>
      plain_lists s && match v with Some n => plain_lists n | None => true end && opt_literal u && (no_items s || opt_literal v)
  | unary_fun _ _ _ s => plain_lists s
  | _ => true
  end.

(** The same summary and time; the first has no object, or the same one. *)
Definition env_rel (e e' : env) : Prop :=
  the_summary e' = the_summary e /\ now e' = now e /\ (object e = None \/ object e' = object e).

Lemma env_rel_refl e : env_rel e e.
Proof. by split_and!; auto. Qed.
Lemma env_rel_right e e' : env_rel e e' -> env_rel e' e'.
Proof. intros _. apply env_rel_refl. Qed.

Definition view_rel (X X' : view) : Prop :=
  v_type X' = v_type X /\ rel_get (v_get X) (v_get X') /\ rel same_items (v_items X) (v_items X').

Lemma rel_no_items : rel same_items (mret []) (mret []).
Proof. apply rel_ret. split_and!; apply Forall2_nil_2. Qed.

(** What is asked of the value a bound function gives. *)
Lemma rel_catching {A} (r : result wexn A) (k : A -> M value_container) :
  (forall a, rel refines (k a) (k a)) -> rel refines (catching r create_nil k) (catching r create_nil k).
Proof.
  intros Hk. unfold catching. destruct r as [a|x]; [apply Hk|]. case_if; [apply rel_fail, refines_refl; done | apply rel_raise_l].
Qed.

Lemma rel_ret_refl v : wf_value v -> rel refines (mret v) (mret v).
Proof. intros Hw. by apply rel_ret, refines_refl. Qed.

(** Without an object every value is an unsure default. *)
Lemma rel_no_object vt m : fetch_type vt -> rel refines m m -> rel refines (no_object vt) m.
Proof.
  intros Ht Hm s s' Hs Hs'. specialize (Hm s' s' Hs' Hs'). unfold no_object. cbn. destruct (m s') as [[v|] t]; [|done].
  destruct Hm as ((Hw & _ & _) & Hok & _). split_and!; [|done|done]. repeat case_if; (split_and!; [done | done | discriminate]).
Qed.

(** A variable: no object in the first evaluation, or the same object in both. *)
Lemma rel_variable (e e' : env) vt (get : env -> getter) : env_rel e e' -> fetch_type vt ->
  (forall x y, object x = object y -> get x vt = get y vt) ->
  (forall x, rel refines (get x vt) (get x vt)) ->
  (forall x, object x = None -> get x vt = no_object vt \/ forall y, get y vt = get x vt) ->
  rel refines (get e vt) (get e' vt).
Proof.
  intros (_ & _ & Ho) Ht Hsame Hself Hnone. destruct Ho as [Ho|Ho].
  - destruct (Hnone e Ho) as [->|Hy]; [by apply rel_no_object | rewrite (Hy e'); apply Hself].
  - rewrite (Hsame e' e Ho). apply Hself.
Qed.

(** Close a goal about the value of one variable. *)
Ltac variable_self :=
  repeat first
    [ apply rel_catching; intros ? | case_if
    | match goal with |- context [match ?x with Some _ => _ | None => _ end] => destruct x end
    | by apply rel_ret_refl | by (apply rel_fail, refines_refl) ].

Lemma rel_int_variable e e' f : env_rel e e' -> rel_get (int_variable_get e f) (int_variable_get e' f).
Proof.
  intros He vt Ht. apply (rel_variable e e' vt (fun x => int_variable_get x f)); [done | done | | |].
  - intros x y Hxy. unfold int_variable_get. by rewrite Hxy.
  - intros x. unfold int_variable_get, no_object. variable_self.
  - intros x Hx. unfold int_variable_get. rewrite Hx. case_if; [by left | right; done].
Qed.

Lemma rel_float_variable e e' f : env_rel e e' -> rel_get (float_variable_get e f) (float_variable_get e' f).
Proof.
  intros He vt Ht. apply (rel_variable e e' vt (fun x => float_variable_get x f)); [done | done | | |].
  - intros x y Hxy. unfold float_variable_get. by rewrite Hxy.
  - intros x. unfold float_variable_get, no_object. variable_self.
  - intros x Hx. unfold float_variable_get. rewrite Hx. case_if; [by left | right; done].
Qed.

Lemma rel_str_variable e e' f : env_rel e e' -> rel_get (str_variable_get e f) (str_variable_get e' f).
Proof.
  intros He vt Ht. apply (rel_variable e e' vt (fun x => str_variable_get x f)); [done | done | | |].
  - intros x y Hxy. unfold str_variable_get. by rewrite Hxy.
  - intros x. unfold str_variable_get, no_object. variable_self.
  - intros x Hx. unfold str_variable_get. rewrite Hx. by left.
Qed.

Lemma rel_optional_variable e e' nv f : env_rel e e' -> rel_get (optional_int_variable_get e nv f) (optional_int_variable_get e' nv f).
Proof.
  intros He vt Ht. apply (rel_variable e e' vt (fun x => optional_int_variable_get x nv f)); [done | done | | |].
  - intros x y Hxy. unfold optional_int_variable_get. by rewrite Hxy.
  - intros x. unfold optional_int_variable_get, no_object. variable_self.
  - intros x Hx. unfold optional_int_variable_get. rewrite Hx. by left.
Qed.

Lemma rel_summary_int e e' f : env_rel e e' -> rel_get (summary_int_variable_get e f) (summary_int_variable_get e' f).
Proof. intros (Hs & _ & _) vt Ht. unfold summary_int_variable_get. rewrite Hs. variable_self. Qed.

Lemma rel_summary_string e e' f : env_rel e e' -> rel_get (summary_string_variable_get e f) (summary_string_variable_get e' f).
Proof.
  intros (Hs & _ & _) vt Ht. unfold summary_string_variable_get. rewrite Hs. variable_self.
  destruct (f (the_summary e)); [by apply rel_ret_refl | apply rel_raise_l].
Qed.

(** Literals, as items of a list *)
Lemma literal_views e e' (l : list node) : forallb is_literal l = true ->
  map v_get (map (view_of e') l) = map v_get (map (view_of e) l) /\ Forall2 same_get (map v_get (map (view_of e) l)) (map v_get (map (view_of e) l)).
Proof.
  induction l as [|n l IH]; cbn [forallb map]; [split; [done | apply Forall2_nil_2]|]. intros [Hn Hl]%andb_prop.
  destruct (IH Hl) as [E F]. destruct n; try discriminate. cbn. split; [by rewrite E|]. apply Forall2_cons_2; [apply literal_get_same | done].
Qed.

Lemma same_items_refl l : Forall2 same_get l l -> same_items l l.
Proof. by intros. Qed.

Lemma list_text_same l l' s : Forall2 same_get l l' -> rel eq (list_text l s) (list_text l' s).
Proof.
  intros Hl. revert s. induction Hl as [|g g' l l' Hg _ IH]; intros s; cbn [list_text]; [by apply rel_ret|].
  unfold get_string_value. eapply rel_bind; [eapply rel_bind; [apply Hg|]; intros v v' ->; by apply (rel_ret eq)|].
  intros t t' ->. apply IH.
Qed.

Lemma rel_list_get l : Forall2 same_get l l -> rel_get (list_node_get l) (list_node_get l).
Proof.
  intros Hl vt Ht. unfold list_node_get. repeat case_if; try (by (apply rel_fail, refines_refl)).
  eapply rel_bind; [by apply list_text_same|]. intros t t' ->. by apply rel_ret_refl.
Qed.

Lemma map_m_same (f f' : getter -> M getter) l l' :
  (forall g g', same_get g g' -> rel same_get (f g) (f' g')) -> Forall2 same_get l l' ->
  rel (Forall2 same_get) (map_m f l) (map_m f' l').
Proof.
  intros Hf. induction 1 as [|g g' l l' Hg _ IH]; cbn [map_m]; [apply rel_ret, Forall2_nil_2|].
  eapply rel_bind; [by apply Hf|]. intros a a' Ha. eapply rel_bind; [exact IH|]. intros b b' Hb. apply rel_ret. by apply Forall2_cons_2.
Qed.

(** Three statements about items at once: across the evaluations and within each. *)
Lemma rel_same_items m m' : rel (Forall2 same_get) m m' -> rel (Forall2 same_get) m m -> rel (Forall2 same_get) m' m' ->
  rel same_items m m'.
Proof.
  intros H1 H2 H3 s s' Hs Hs'. specialize (H1 s s' Hs Hs'). specialize (H2 s s Hs Hs). specialize (H3 s' s' Hs' Hs').
  destruct (m s) as [[] ?], (m' s') as [[] ?]; try done. unfold same_items. naive_solver.
Qed.

Lemma no_items_view e (n : node) : no_items n = true -> v_items (view_of e n) = mret [].
Proof. by destruct n. Qed.

(** The items of a function: the function on each item of its subject. *)
Lemma rel_fun_items (m m' : M (list getter)) (f f' : getter -> M getter) :
  rel same_items m m' -> rel same_items m m -> rel same_items m' m' ->
  (forall g g', same_get g g' -> rel same_get (f g) (f' g')) ->
  (forall g g', same_get g g' -> rel same_get (f g) (f g')) ->
  (forall g g', same_get g g' -> rel same_get (f' g) (f' g')) ->
  rel same_items (m ≫= map_m f) (m' ≫= map_m f').
Proof.
  intros H1 H2 H3 F1 F2 F3. apply rel_same_items; (eapply rel_bind; [eassumption|]; intros l l' (Hl & _ & _); by apply map_m_same).
Qed.

Lemma opt_view_rel e e' (v : option node) :
  opt_all (fun n => forall e e', env_rel e e' -> plain_lists n = true -> view_rel (view_of e n) (view_of e' n)) v ->
  env_rel e e' -> match v with Some n => plain_lists n | None => true end = true ->
  opt_rel (fun x x' => v_type x' = v_type x /\ rel_get (v_get x) (v_get x'))
    (match v with Some n => Some (view_of e n) | None => None end) (match v with Some n => Some (view_of e' n) | None => None end).
Proof. intros Hv He Hp. destruct v as [n|]; [|done]. destruct (Hv e e' He Hp) as (Ht & Hg & _). by split. Qed.

Lemma opt_literal_same e e' (v : option node) : opt_literal v = true ->
  opt_rel (fun x x' => v_type x' = v_type x /\ same_get (v_get x) (v_get x'))
    (match v with Some n => Some (view_of e n) | None => None end) (match v with Some n => Some (view_of e' n) | None => None end).
Proof. intros Hv. destruct v as [[]|]; try done. split; [done | apply literal_get_same]. Qed.

Lemma opt_literal_unit e e' (v : option node) : opt_literal v = true ->
  opt_rel (fun x x' => same_get (v_get x) (v_get x'))
    (match v with Some n => Some (view_of e n) | None => None end) (match v with Some n => Some (view_of e' n) | None => None end).
Proof. intros Hv. destruct v as [[]|]; try done. apply literal_get_same. Qed.

Lemma rel_evaluated m m' : rel rel_get m m' -> rel_get (fun vt => g ← m; g vt) (fun vt => g ← m'; g vt).
Proof. intros Hm vt Ht. eapply rel_bind; [exact Hm|]. intros g g' Hg. by apply Hg. Qed.

Theorem view_of_rel (n : node) : forall e e', env_rel e e' -> plain_lists n = true -> view_rel (view_of e n) (view_of e' n).
Proof.
  induction n as [ty l u|ty f|ty f|ty f|ty nt nv f|ty f|ty f|ty l IH|ty op l r IHl IHr|ty op s IHs|ty name b s IHs IHb]
    using node_nested_ind; intros e e' He Hp; cbn [view_of].
  - split_and!; [done | apply literal_get_refl |]. apply rel_ret, same_items_refl, Forall2_cons_2; [apply literal_get_same | apply Forall2_nil_2].
  - split_and!; [done | by apply rel_int_variable | apply rel_no_items].
  - split_and!; [done | by apply rel_float_variable | apply rel_no_items].
  - split_and!; [done | by apply rel_str_variable | apply rel_no_items].
  - split_and!; [done | by apply rel_optional_variable | apply rel_no_items].
  - split_and!; [done | by apply rel_summary_int | apply rel_no_items].
  - split_and!; [done | by apply rel_summary_string | apply rel_no_items].
  - cbn in Hp. destruct (literal_views e e' l Hp) as [E F]. split_and!; [done | |]; cbn [v_get v_items]; rewrite E.
    + by apply rel_list_get.
    + by apply rel_ret, same_items_refl.
  - cbn in Hp. apply andb_prop in Hp as [Hl Hr]. destruct (IHl e e' He Hl) as (Tl & Gl & Il), (IHr e e' He Hr) as (Tr & Gr & Ir).
    destruct (IHr e e (env_rel_refl e) Hr) as (_ & Gr1 & Ir1), (IHr e' e' (env_rel_refl e') Hr) as (_ & Gr2 & Ir2).
    split_and!; [done | | apply rel_no_items]. apply rel_evaluated. unfold binary_op_evaluate. case_if; [|apply rel_create_false].
    apply rel_binary_operator; try done; eapply keeps_of; [apply Gr1 | apply Gr2]; by left.
  - cbn in Hp. destruct (IHs e e' He Hp) as (Ts & Gs & _). split_and!; [done | | apply rel_no_items]. apply rel_evaluated.
    unfold unary_operator. destruct He as (_ & Hnow & _). rewrite Hnow, Ts.
    case_if; [|apply rel_create_false]. case_if; [by apply rel_not | apply rel_create_false].
  - destruct b as [|v u|].
    + cbn in Hp. destruct (IHs e e' He Hp) as (_ & _ & I). split_and!; [done | apply rel_evaluated, rel_create_false|].
      cbn [v_items evaluated]. eapply rel_bind; [exact I|]. intros l l' (Hl & Hl1 & Hl2). apply rel_ret.
      assert (Hc : forall k k' : list getter, Forall2 same_get k k' -> Forall2 same_get (map (fun _ => create_false) k) (map (fun _ => create_false) k')).
      { induction 1; cbn; [apply Forall2_nil_2 | apply Forall2_cons_2; [apply literal_get_same | done]]. }
      by split_and!; apply Hc.
    + cbn in Hp. apply andb_prop in Hp as [Hp Hitems]. apply andb_prop in Hp as [Hp Hu]. apply andb_prop in Hp as [Hs Hv].
      destruct IHb as [IHv _]. destruct (IHs e e' He Hs) as (_ & _ & I), (IHs e e (env_rel_refl e) Hs) as (_ & _ & I1),
        (IHs e' e' (env_rel_refl e') Hs) as (_ & _ & I2).
      pose proof He as (_ & Hnow & _). split_and!; [done | |].
      * apply rel_evaluated. rewrite Hnow. apply rel_convert; [by apply opt_view_rel | by apply opt_literal_unit].
      * cbn [v_items evaluated]. apply orb_prop in Hitems as [Hn|Hlit]; [rewrite !no_items_view by done; apply rel_no_items|].
        apply rel_fun_items; try done; intros g g' _; rewrite ?Hnow; apply same_convert;
          (by apply opt_literal_same) || (by apply opt_literal_unit).
    + cbn in Hp. destruct (IHs e e' He Hp) as (_ & G & I), (IHs e e (env_rel_refl e) Hp) as (_ & _ & I1),
        (IHs e' e' (env_rel_refl e') Hp) as (_ & _ & I2).
      pose proof He as (_ & Hnow & _). split_and!; [done | |].
      * apply rel_evaluated. rewrite Hnow. by apply rel_not.
      * cbn [v_items evaluated]. apply rel_fun_items; try done; intros g g' Hg; rewrite ?Hnow; by apply same_not.
Qed.

(** The root of an expression is an operator or a function, not a bare keyword. *)
Definition is_operation (n : node) : bool :=
  match n with binary_op _ _ _ _ | unary_op _ _ _ | unary_fun _ _ _ _ => true | _ => false end.

Lemma operation_eval e (n : node) : is_operation n = true ->
  (g ← v_eval (view_of e n); g type_int) = v_get (view_of e n) type_int.
Proof. destruct n; try discriminate; intros _; [done | done |]. by destruct function. Qed.

(** C1. The no-rows verdict is sound: an expression (operators over keywords, literals and lists
    of literals) that evaluates to a sure value without a current object evaluates, with the
    same summary and any object, to the same value or to an unsure one (and never to the
    opposite sure verdict), for all operators, conversions and regular expressions, whatever the
    state of the pattern cache and the budget. *)
Theorem sure_verdict_independent_of_object (n : node) (e e' : env) (s s' : wstate)
    (Hop : is_operation n = true) (Hlists : plain_lists n = true) (Hnone : object e = None)
    (Hsummary : the_summary e' = the_summary e) (Hnow : now e' = now e) (Hs : state_ok s) (Hs' : state_ok s')
    (Hsure : is_unsure (parser_evaluate e n s).1 = false) :
  (parser_evaluate e' n s').1 = (parser_evaluate e n s).1 \/ is_unsure (parser_evaluate e' n s').1 = true.
Proof.
  assert (He : env_rel e e') by (by split_and!; auto).
  destruct (view_of_rel n e e' He Hlists) as (_ & Hg & _). specialize (Hg type_int ltac:(by left) s s' Hs Hs').
  unfold parser_evaluate in *. rewrite !operation_eval in * by done.
  destruct (v_get (view_of e n) type_int s) as [[v|x] t]; [|discriminate].
  destruct (v_get (view_of e' n) type_int s') as [[v'|x'] t']; [|by right]. destruct Hg as ((_ & _ & Hr) & _). by apply Hr.
Qed.
End Expressions.

(** ** Laws of the operators *)

Section Laws.
Context `{regex_engine} `{number_text} {obj summary : Type}.
Notation node := (node obj summary).
Notation env := (env obj summary).

(** [a] occurs in [b]. *)
Definition infix_of (a b : cppstring) : Prop := exists x y, b = x ++ a ++ y.

Lemma find_infix b a : bool_decide (is_Some (find b a 0)) = true <-> infix_of a b.
Proof.
  unfold find. cbn [Nat.leb drop]. rewrite bool_decide_eq_true. split.
  - intros [j Hj]. apply find_at_Some in Hj as (x & y & E & _). by exists x, y.
  - intros (x & y & E). destruct (find_at a b 0) as [j|] eqn:Ef; [by eexists|]. by destruct (find_at_None _ _ _ Ef x y).
Qed.

Lemma infix_length a b : infix_of a b -> (length a <= length b)%nat.
Proof. intros (x & y & ->). rewrite !length_app. lia. Qed.

Lemma infix_same_length a b : infix_of a b -> length a = length b -> a = b.
Proof.
  intros (x & y & ->) Hl. rewrite !length_app in Hl. assert (length x = 0 /\ length y = 0)%nat as [Hx Hy] by lia.
  apply length_zero_iff_nil in Hx, Hy. subst. by rewrite app_nil_r.
Qed.

(** like matches when one of the two texts, compared without case, occurs in the other, both
    being non-empty or both empty; it is symmetric. *)
Theorem like_match_correct (a b : cppstring) :
  (like_match a b = true <->
    (a = [] /\ b = []) \/ (a <> [] /\ b <> [] /\ (infix_of (to_lower a) (to_lower b) \/ infix_of (to_lower b) (to_lower a)))) /\
  like_match a b = like_match b a.
Proof.
  assert (Hnil : forall x, to_lower x = [] <-> x = []) by (intros [|]; cbn; split; congruence).
  assert (Hspec : forall a b, like_match a b = true <->
    (a = [] /\ b = []) \/ (a <> [] /\ b <> [] /\ (infix_of (to_lower a) (to_lower b) \/ infix_of (to_lower b) (to_lower a)))).
  { clear a b. intros a b. unfold like_match.
    destruct (bool_decide_reflect (to_lower a = [])) as [Ha|Ha], (bool_decide_reflect (to_lower b = [])) as [Hb|Hb]; cbn [andb orb];
      rewrite Hnil in Ha, Hb; try (intuition congruence).
    destruct (Nat.ltb_spec (length (to_lower b)) (length (to_lower a))); rewrite find_infix; split; intros Hi.
    - right. by auto.
    - destruct Hi as [[? _]|(_ & _ & [Hi|Hi])]; [done | apply infix_length in Hi; lia | done].
    - right. by auto.
    - destruct Hi as [[? _]|(_ & _ & [Hi|Hi])]; [done | done |].
      pose proof (infix_length _ _ Hi). rewrite (infix_same_length _ _ Hi) by lia. by exists [], []; rewrite app_nil_r. }
  split; [apply Hspec|]. destruct (like_match b a) eqn:E.
  - apply Hspec. apply Hspec in E. tauto.
  - apply not_true_iff_false. rewrite Hspec. rewrite <- not_true_iff_false, Hspec in E. tauto.
Qed.

(** A comparison (any of the six, either way round) of an optional number that has no value with
    a whole number is a sure false, from the parsed expression through type inference, binding
    and evaluation. *)
Theorem missing_value_never_fires (op : operators) (o : obj) (sm : summary) (t : Z) (nv : cppstring) (c : Z) (swap : bool)
    (f : obj -> result wexn (option Z)) (s : wstate)
    (Hop : is_comparison_operator op = true) (Hf : f o = Ok None) :
  let var := optional_int_variable_node type_multi type_int nv f in
  let lit := literal_node type_int (int_value c) false in
  parser_evaluate (mkEnv (Some o) sm t) (prepare (if swap then binary_op type_tbd op lit var else binary_op type_tbd op var lit)) s =
    (create_int 0 false, s).
Proof.
  destruct op; try discriminate; destruct swap; cbv zeta; unfold parser_evaluate; cbn -[to_double]; rewrite ?Hf; reflexivity.
Qed.

(** A list of whole numbers, as the grammar builds it. *)
Definition int_list (cs : list Z) : node := list_node type_tbd (map (fun c => literal_node type_int (int_value c) false) cs).

Lemma infer_int_list fuel cs first t : (first = true \/ t = type_int) -> (first = false \/ cs <> []) ->
  infer_items (fun x : node => infer_type (S fuel) x None) first t (map (fun c => literal_node type_int (int_value c) false) cs) =
    (type_int, map (fun c => literal_node type_int (int_value c) false) cs).
Proof.
  revert first t. induction cs as [|c cs IH]; intros first t Ht Hne.
  - destruct Ht as [->| ->], Hne as [?|?]; done.
  - assert (E : infer_type (S fuel) (literal_node type_int (int_value c) false : node) None = (type_int, literal_node type_int (int_value c) false)) by done.
    cbn [map infer_items]. rewrite E. rewrite IH; [done | right | by left].
    destruct Ht as [->| ->]; [done|]. by destruct first.
Qed.

Lemma int_items_search val cs s :
  any_item get_int_value Z.eqb val (map (fun c => literal_get (int_value c) false) cs) s = (Ok (bool_decide (val ∈ cs)), s).
Proof.
  induction cs as [|c cs IH]; [done|].
  change ((if c =? val then mret true else any_item get_int_value Z.eqb val (map (fun c => literal_get (int_value c) false) cs)) s =
    (Ok (bool_decide (val ∈ c :: cs)), s)).
  destruct (Z.eqb_spec c val) as [->|Hne].
  - by rewrite bool_decide_eq_true_2 by (by left).
  - rewrite IH. rewrite (bool_decide_ext (val ∈ c :: cs) (val ∈ cs)); [done|]. rewrite elem_of_cons. intuition congruence.
Qed.

Definition typed_list (cs : list Z) : node := list_node type_int (map (fun c => literal_node type_int (int_value c) false) cs).

Lemma infer_typed_list k cs : cs <> [] -> infer_type (S (S k)) (int_list cs) None = (type_int, typed_list cs).
Proof.
  intros Hcs. unfold int_list.
  change (infer_type (S (S k)) (list_node type_tbd ?l) None) with
    (let '(types, l') := infer_items (fun x => infer_type (S k) x None) true type_tbd l in
     (types, list_node (if types =? type_tbd then type_tbd else types) l')).
  rewrite infer_int_list by auto. done.
Qed.

Lemma prepare_membership op f cs : op = op_in \/ op = op_nin -> cs <> [] ->
  prepare (binary_op type_tbd op (int_variable_node type_int f) (int_list cs)) =
  binary_op type_bool op (int_variable_node type_int f) (typed_list cs).
Proof.
  intros Hop Hcs. unfold prepare, derive_types.
  change (infer_height (binary_op type_tbd op (int_variable_node type_int f) (int_list cs))) with
    (S (S (list_max (map infer_height (map (fun c => literal_node type_int (int_value c) false : node) cs))))).
  generalize (list_max (map infer_height (map (fun c => literal_node type_int (int_value c) false : node) cs))). intros k.
  set (F := S (S k)). cbn [infer_type]. unfold infer_binary_type. subst F. rewrite infer_typed_list by done.
  destruct Hop as [-> | ->]; cbn -[map]; unfold typed_list; f_equal; f_equal; rewrite map_map; apply map_ext; done.
Qed.

(** An integer keyword in (not in) a list of whole numbers is surely true exactly when its value
    is (is not) one of them, from type inference to evaluation. *)
Theorem in_is_membership (o : obj) (sm : summary) (t v : Z) (cs : list Z) (f : obj -> result wexn Z) (s : wstate)
    (Hcs : cs <> []) (Hf : f o = Ok v) :
  let ask op := parser_evaluate (mkEnv (Some o) sm t) (prepare (binary_op type_tbd op (int_variable_node type_int f) (int_list cs))) s in
  ask op_in = (create_bool (bool_decide (v ∈ cs)) false, s) /\
  ask op_nin = (create_bool (bool_decide (v ∉ cs)) false, s).
Proof.
  assert (Hv : forall e, map v_get (map (view_of e) (map (fun c => literal_node type_int (int_value c) false : node) cs)) =
    map (fun c => literal_get (int_value c) false) cs) by (intros e; rewrite !map_map; by apply map_ext).
  cbv beta zeta. rewrite !prepare_membership by auto. unfold parser_evaluate. rewrite !operation_eval by done.
  cbn -[in_eval any_item map]. unfold binary_op_evaluate, in_evaluate, simple_bool_evaluate. cbn -[in_eval any_item map].
  rewrite Hv. unfold num_of, in_eval, mbind, M_bind. cbn -[any_item map]. unfold int_variable_get. cbn -[any_item map].
  rewrite Hf. cbn -[any_item map]. rewrite int_items_search. cbn.
  rewrite (bool_decide_not (v ∈ cs)). by destruct (bool_decide (v ∈ cs)).
Qed.
End Laws.

(** ** Examples

    Keywords of a check whose objects and summaries are integers; an engine whose patterns
    are literal text and numbers written in digits. *)

#[local] Instance text_engine : regex_engine := {|
  regex := cppstring; compile := Some; regex_match s r := Answer (bool_decide (s = r)) |}.
#[local] Instance digit_text : number_text := {|
  stox_double s := if forallb isdigit s && negb (bool_decide (s = [])) then Some (to_double (decimal s)) else None;
  stox_llong s := if forallb isdigit s && negb (bool_decide (s = [])) then Some (decimal s) else None |}.

Definition start_state : wstate := mkState _ [] (mkRegex _ [] 0 default_regex_budget_ms []).
Definition num_lit (z : Z) : node Z Z := literal_node type_int (int_value z) false.
Definition ivar : node Z Z := int_variable_node type_int (fun o => Ok o).
Definition fvar : node Z Z := float_variable_node type_float (fun o => Ok (to_double o)).
Definition scount : node Z Z := summary_int_variable_node type_int (fun c => Ok c).
(** An optional number that has no value now *)
Definition missing : node Z Z := optional_int_variable_node type_multi type_int (str "unknown") (fun _ => Ok None).

Lemma start_state_ok : state_ok start_state.
Proof. split; [cbn; unfold regex_cache_entries; lia | apply NoDup_nil_2 | done]. Qed.

(** ivar > 5 or scount = 0 *)
Definition busy_or_empty : node Z Z :=
  prepare (binary_op type_tbd op_or (binary_op type_tbd op_gt ivar (num_lit 5)) (binary_op type_tbd op_eq scount (num_lit 0))).

Lemma sure_verdict_independent_of_object_witness :
  parser_evaluate (mkEnv None 0 0) busy_or_empty start_state = (create_int 1 false, start_state) /\
  ((parser_evaluate (mkEnv (Some 3) 0 0) busy_or_empty start_state).1 = create_int 1 false \/
   is_unsure (parser_evaluate (mkEnv (Some 3) 0 0) busy_or_empty start_state).1 = true).
Proof.
  split; [vm_compute; reflexivity|].
  apply (sure_verdict_independent_of_object busy_or_empty (mkEnv None 0 0) (mkEnv (Some 3) 0 0) start_state start_state);
    first [reflexivity | apply start_state_ok].
Defined.

(** The certainty of the items of a list is ignored: with no object, 5 in (ivar) is a sure
    false, although an object can make it true. *)
Theorem in_ignores_unsure_items :
  let n := prepare (binary_op type_tbd op_in (num_lit 5) (list_node type_tbd [ivar])) in
  (parser_evaluate (mkEnv None 0 0) n start_state).1 = create_int 0 false /\
  (parser_evaluate (mkEnv (Some 5) 0 0) n start_state).1 = create_int 1 false.
Proof. split; vm_compute; reflexivity. Qed.

(** A list whose items need a conversion is wrapped in one convert, which takes the first
    item as its value and the second as its unit: a decimal keyword never equals the items
    of a list of whole numbers, and equals zero, which is not in it. *)
Theorem in_converts_list_as_arguments :
  let n := prepare (binary_op type_tbd op_in fvar (list_node type_tbd [num_lit 1; num_lit 2])) in
  (parser_evaluate (mkEnv (Some 2) 0 0) n start_state).1 = create_int 0 false /\
  (parser_evaluate (mkEnv (Some 0) 0 0) n start_state).1 = create_int 1 false /\
  errors (parser_evaluate (mkEnv (Some 2) 0 0) n start_state).2 = [str "could not convert to "; str "could not convert to "].
Proof. split_and!; vm_compute; reflexivity. Qed.

(** A conversion drops the "no value" mark: a missing number compared with a decimal is
    taken as zero, and the comparison is surely true. *)
Theorem convert_drops_no_value :
  let n := prepare (binary_op type_tbd op_lt missing (literal_node type_float (float_value (d_div (to_double 5) (to_double 2))) false)) in
  (parser_evaluate (mkEnv (Some 0) 0 0) n start_state).1 = create_int 1 false.
Proof. vm_compute. reflexivity. Qed.

(** A whole number of seconds goes through double, although the comment keeps it in
    integers: an offset above 2^53 is rounded. *)
Theorem date_offset_rounded :
  let v := view_of (mkEnv (None : option Z) 0 0) (num_lit (2 ^ 53 + 1)) in
  match convert_with_unit 0 type_date v (str "s") start_state with
  | (Ok g, s) => (g type_int s).1 = Ok (create_int (2 ^ 53) false)
  | _ => False
  end.
Proof. vm_compute. reflexivity. Qed.


Lemma missing_value_never_fires_witness :
  parser_evaluate (mkEnv (Some 0) 0 0) (prepare (binary_op type_tbd op_ne missing (num_lit 7))) start_state = (create_int 0 false, start_state).
Proof. apply (missing_value_never_fires op_ne 0 0 0 (str "unknown") 7 false (fun _ => Ok None)); reflexivity. Defined.

Lemma in_is_membership_witness :
  parser_evaluate (mkEnv (Some 2) 0 0) (prepare (binary_op type_tbd op_in ivar (int_list [1; 2]))) start_state = (create_int 1 false, start_state).
Proof.
  pose proof (in_is_membership (summary := Z) 2 0 0 2 [1; 2] (fun o : Z => Ok o) start_state ltac:(done) eq_refl) as Hin.
  cbv beta zeta in Hin. destruct Hin as [Hin _]. etransitivity; [exact Hin | reflexivity].
Defined.
