(* ===== verification/Filter.v ===== *)
(** The filter engine of the checks: include/parsers/where/engine.cpp (a filter and a set
    of filters), include/parsers/where/filter_handler_impl.hpp (generic_summary) and
    include/parsers/filter/modern_filter.hpp (the rows of a check and its verdict).

    The texts of a row (detail-syntax and unique-index) are functions of the row.
    Performance data, the hash output of real-time checks and debug traces are left
    out. *)

From stdpp Require Import base list strings.
From Stdlib Require Import Ascii ZArith Lia SpecFloat.
From Stdlib Require String.
From S2P Require Import Prelude Strings Cron Format RegexGuard Where WhereTypes.
Import String.StringSyntax.

Local Open Scope Z_scope.

Definition returnOK : Z := 0.
Definition returnWARN : Z := 1.
Definition returnCRIT : Z := 2.
Definition returnUNKNOWN : Z := 3.

Definition escalteReturnCodeToCRIT (currentReturnCode : Z) : Z := returnCRIT.
Definition escalteReturnCodeToWARN (currentReturnCode : Z) : Z :=
  if negb (currentReturnCode =? returnCRIT) then returnWARN else currentReturnCode.
Definition escalateReturnCodeToUNKNOWN (currentReturnCode : Z) : Z :=
  if currentReturnCode =? returnOK then returnUNKNOWN else currentReturnCode.

Definition maxState (a b : Z) : Z :=
  if (a =? returnUNKNOWN) || (b =? returnUNKNOWN) then returnUNKNOWN
  else if (a =? returnCRIT) || (b =? returnCRIT) then returnCRIT
  else if (a =? returnWARN) || (b =? returnWARN) then returnWARN
  else if (a =? returnOK) || (b =? returnOK) then returnOK
  else returnUNKNOWN.

Definition append_list (lst append sep : cppstring) : cppstring :=
  if bool_decide (append = []) then lst
  else (if bool_decide (lst = []) then lst else lst ++ sep) ++ append.

(** ** The summary *)

Record generic_summary := mkSummary {
  count_match : Z;
  count_ok : Z;
  count_warn : Z;
  count_crit : Z;
  count_total : Z;
  list_match : cppstring;
  list_ok : cppstring;
  list_crit : cppstring;
  list_warn : cppstring;
  list_problem : cppstring;
  returnCode : Z;
  list_separator : cppstring
}.

Definition new_summary (sep : cppstring) : generic_summary := mkSummary 0 0 0 0 0 [] [] [] [] [] returnOK sep.
Definition reset (s : generic_summary) : generic_summary := new_summary (list_separator s).
(** [returnCode = code] *)
Definition set_code (code : Z) (s : generic_summary) : generic_summary :=
  mkSummary (count_match s) (count_ok s) (count_warn s) (count_crit s) (count_total s)
    (list_match s) (list_ok s) (list_crit s) (list_warn s) (list_problem s) code (list_separator s).
Definition count (s : generic_summary) : generic_summary :=
  mkSummary (count_match s) (count_ok s) (count_warn s) (count_crit s) (count_total s + 1)
    (list_match s) (list_ok s) (list_crit s) (list_warn s) (list_problem s) (returnCode s) (list_separator s).
Definition matched_unique (s : generic_summary) : generic_summary :=
  mkSummary (count_match s + 1) (count_ok s) (count_warn s) (count_crit s) (count_total s)
    (list_match s) (list_ok s) (list_crit s) (list_warn s) (list_problem s) (returnCode s) (list_separator s).
Definition matched (line : cppstring) (s : generic_summary) : generic_summary :=
  mkSummary (count_match s + 1) (count_ok s) (count_warn s) (count_crit s) (count_total s)
    (append_list (list_match s) line (list_separator s)) (list_ok s) (list_crit s) (list_warn s) (list_problem s) (returnCode s) (list_separator s).
Definition matched_ok_unique (s : generic_summary) : generic_summary :=
  mkSummary (count_match s) (count_ok s + 1) (count_warn s) (count_crit s) (count_total s)
    (list_match s) (list_ok s) (list_crit s) (list_warn s) (list_problem s) (returnCode s) (list_separator s).
Definition matched_ok (line : cppstring) (s : generic_summary) : generic_summary :=
  mkSummary (count_match s) (count_ok s + 1) (count_warn s) (count_crit s) (count_total s)
    (list_match s) (append_list (list_ok s) line (list_separator s)) (list_crit s) (list_warn s) (list_problem s) (returnCode s) (list_separator s).
Definition matched_warn_unique (s : generic_summary) : generic_summary :=
  mkSummary (count_match s) (count_ok s) (count_warn s + 1) (count_crit s) (count_total s)
    (list_match s) (list_ok s) (list_crit s) (list_warn s) (list_problem s) (returnCode s) (list_separator s).
Definition matched_warn (line : cppstring) (s : generic_summary) : generic_summary :=
  mkSummary (count_match s) (count_ok s) (count_warn s + 1) (count_crit s) (count_total s)
    (list_match s) (list_ok s) (list_crit s) (append_list (list_warn s) line (list_separator s))
    (append_list (list_problem s) line (list_separator s)) (returnCode s) (list_separator s).
Definition matched_crit_unique (s : generic_summary) : generic_summary :=
  mkSummary (count_match s) (count_ok s) (count_warn s) (count_crit s + 1) (count_total s)
    (list_match s) (list_ok s) (list_crit s) (list_warn s) (list_problem s) (returnCode s) (list_separator s).
Definition matched_crit (line : cppstring) (s : generic_summary) : generic_summary :=
  mkSummary (count_match s) (count_ok s) (count_warn s) (count_crit s + 1) (count_total s)
    (list_match s) (list_ok s) (append_list (list_crit s) line (list_separator s)) (list_warn s)
    (append_list (list_problem s) line (list_separator s)) (returnCode s) (list_separator s).
Definition move_hits_crit (s : generic_summary) : generic_summary :=
  mkSummary (count_match s) (count_ok s) (count_warn s) (count_crit s) (count_total s)
    (list_match s) (list_ok s) (list_match s) (list_warn s) (list_match s) (returnCode s) (list_separator s).
Definition move_hits_warn (s : generic_summary) : generic_summary :=
  mkSummary (count_match s) (count_ok s) (count_warn s) (count_crit s) (count_total s)
    (list_match s) (list_ok s) (list_crit s) (list_match s) (list_match s) (returnCode s) (list_separator s).
Definition has_matched_rows (s : generic_summary) : bool := count_match s >? 0.

(** ** Filters and sets of filters *)

Section Filters.
Context `{regex_engine} `{number_text} {obj : Type}.
Notation fnode := (node obj generic_summary).
Notation fenv := (env obj generic_summary).

(** [context->clear()] *)
Definition clear_errors (s : wstate) : wstate := mkState _ [] (regexes s).

(** [engine_filter::match] *)
Definition filter_match (n : fnode) (e : fenv) (expect_object : bool) (s : wstate) : bool * wstate :=
  if expect_object && negb (require_object n) then (false, s)
  else if negb expect_object && require_object n then (false, s)
  else let '(v, s') := parser_evaluate e n s in (is_true v, clear_errors s').

(** [engine_filter::match_force]: the truth of the expression and whether it is unsure *)
Definition filter_match_force (n : fnode) (e : fenv) (s : wstate) : (bool * bool) * wstate :=
  let '(v, s') := parser_evaluate e n s in ((is_true v, is_unsure v), clear_errors s').

(** [engine::match] *)
Fixpoint engine_match (filters : list fnode) (e : fenv) (expect_object : bool) (s : wstate) : bool * wstate :=
  match filters with
  | [] => (false, s)
  | f :: fs =>
      let '(b, s') := filter_match f e expect_object s in
      if b then (true, s') else engine_match fs e expect_object s'
  end.

(** [engine::match_force] *)
Fixpoint engine_match_force (filters : list fnode) (e : fenv) (any_unsure : bool) (s : wstate) : (bool * bool) * wstate :=
  match filters with
  | [] => ((false, any_unsure), s)
  | f :: fs =>
      let '((m, u), s') := filter_match_force f e s in
      if m && negb u then ((true, false), s')
      else engine_match_force fs e (any_unsure || u) s'
  end.

(** ** The rows of a check *)

(** What the options of a check set up; an engine that was not given is [None]. *)
Record filter_config := mkConfig {
  engine_filter : option (list fnode);
  engine_warn : option (list fnode);
  engine_crit : option (list fnode);
  engine_ok : option (list fnode);
  renderer_detail : obj -> cppstring;
  renderer_unique : option (obj -> cppstring);
  parsed_at : Z
}.

(** A row that passed the filter, waiting for its verdict. *)
Record deferred_record := mkDeferred {
  record : obj;
  current : cppstring;
  second_unique_match : bool
}.

Record filter_state := mkFilter {
  summary : generic_summary;
  unique_index : list cppstring;
  has_matched : bool;
  deferred_records : list deferred_record;
  context : wstate
}.

Context (cfg : filter_config).

Definition row_env (o : option obj) (s : generic_summary) : fenv := mkEnv o s (parsed_at cfg).

Definition start_match (st : filter_state) : filter_state :=
  mkFilter (reset (summary st)) (unique_index st) false [] (mkState _ (errors (context st)) (reset_regex_budget (regexes (context st)))).

(** [engine && engine->match(context, expect_object)] *)
Definition opt_match (engine : option (list fnode)) (o : option obj) (expect_object : bool) (sm : generic_summary) (s : wstate) : bool * wstate :=
  match engine with None => (false, s) | Some fs => engine_match fs (row_env o sm) expect_object s end.

(** The unique index: whether the key was seen, and the index with it. *)
Definition unique_lookup (index : list cppstring) (o : obj) : bool * list cppstring :=
  match renderer_unique cfg with
  | None => (false, index)
  | Some key => if bool_decide (key o ∈ index) then (true, index) else (false, key o :: index)
  end.

(** [modern_filters::match] *)
Definition match_row (o : obj) (st : filter_state) : bool * filter_state :=
  let sm := count (summary st) in
  let '(b, s) := match engine_filter cfg with
                 | None => (true, context st)
                 | Some fs => engine_match fs (row_env (Some o) sm) true (context st)
                 end in
  if b then
    let cur := renderer_detail cfg o in
    let '(second, index) := unique_lookup (unique_index st) o in
    (true, mkFilter (if second then matched_unique sm else matched cur sm) index (has_matched st)
             (deferred_records st ++ [mkDeferred o cur second]) s)
  else (false, mkFilter sm (unique_index st) (has_matched st) (deferred_records st) s).

(** One row of [evaluate_deferred_records]: the new summary, whether an engine decided the
    row, and the state. *)
Definition replay_row (d : deferred_record) (sm : generic_summary) (s : wstate) : generic_summary * bool * wstate :=
  let second := second_unique_match d in
  let '(c, s1) := opt_match (engine_crit cfg) (Some (record d)) true sm s in
  if c then
    let sm1 := if second then matched_crit_unique sm else matched_crit (current d) sm in
    (set_code (escalteReturnCodeToCRIT (returnCode sm1)) sm1, true, s1)
  else
    let '(w, s2) := opt_match (engine_warn cfg) (Some (record d)) true sm s1 in
    if w then
      let sm1 := if second then matched_warn_unique sm else matched_warn (current d) sm in
      (set_code (escalteReturnCodeToWARN (returnCode sm1)) sm1, true, s2)
    else
      let '(k, s3) := opt_match (engine_ok cfg) (Some (record d)) true sm s2 in
      (if second then matched_ok_unique sm else matched_ok (current d) sm, k, s3).

Fixpoint replay_rows (ds : list deferred_record) (sm : generic_summary) (any_bound : bool) (s : wstate) : generic_summary * bool * wstate :=
  match ds with
  | [] => (sm, any_bound, s)
  | d :: ds' => let '(sm', b, s') := replay_row d sm s in replay_rows ds' sm' (any_bound || b) s'
  end.

Definition evaluate_deferred_records (st : filter_state) : filter_state :=
  let '(sm, any_bound, s) := replay_rows (deferred_records st) (summary st) false (context st) in
  mkFilter sm (unique_index st) (has_matched st || any_bound) [] s.

(** The force-evaluation of an engine when no row matched: a sure true, and whether an
    unsure answer was seen. *)
Definition force_sure_true (engine : option (list fnode)) (no_rows : bool) (sm : generic_summary) (s : wstate) : bool * bool * wstate :=
  match engine with
  | None => (false, false, s)
  | Some fs =>
      if no_rows then
        let '((m, u), s') := engine_match_force fs (row_env None sm) false s in (m && negb u, u, s')
      else (false, false, s)
  end.

(** [engine && (engine->match(context, false) || force_sure_true(engine))] *)
Definition post_engine (engine : option (list fnode)) (no_rows : bool) (sm : generic_summary) (s : wstate) : bool * bool * wstate :=
  let '(m, s1) := opt_match engine None false sm s in
  if m then (true, false, s1) else force_sure_true engine no_rows sm s1.

(** [match_post]: what it returns and the final state *)
Definition match_post (st : filter_state) : bool * filter_state :=
  let st := evaluate_deferred_records st in
  let sm := summary st in
  let finish b sm s := (b, mkFilter sm (unique_index st) (has_matched st) (deferred_records st) s) in
  let no_rows := negb (has_matched_rows sm) in
  let '(c, uc, s1) := post_engine (engine_crit cfg) no_rows sm (context st) in
  if c then finish true (move_hits_crit (set_code (escalteReturnCodeToCRIT (returnCode sm)) sm)) s1
  else
    let '(w, uw, s2) := post_engine (engine_warn cfg) no_rows sm s1 in
    if w then finish true (move_hits_warn (set_code (escalteReturnCodeToWARN (returnCode sm)) sm)) s2
    else
      let '(k, s3) := opt_match (engine_ok cfg) None false sm s2 in
      if k then finish true sm s3
      else if uc || uw then finish (has_matched_rows sm) (set_code (escalateReturnCodeToUNKNOWN (returnCode sm)) sm) s3
      else finish (has_matched_rows sm) sm s3.

(** A check: the rows in order, then the verdict. *)
Fixpoint match_rows (os : list obj) (st : filter_state) : filter_state :=
  match os with [] => st | o :: os' => match_rows os' (match_row o st).2 end.
Definition run_check (os : list obj) (st : filter_state) : bool * filter_state := match_post (match_rows os (start_match st)).
End Filters.

(** ** The counters and the verdict *)

Section Verdict.
Context `{regex_engine} `{number_text} {obj : Type} (cfg : filter_config (obj := obj)).

(** The verdict of the rows alone. *)
Definition row_code (s : generic_summary) : Z :=
  if count_crit s >? 0 then returnCRIT else if count_warn s >? 0 then returnWARN else returnOK.

(** While rows are collected. *)
Record collecting (rows : list obj) (st : filter_state) : Prop := {
  col_total : count_total (summary st) = zlength rows;
  col_match : count_match (summary st) = zlength (deferred_records st);
  col_rows : map record (deferred_records st) `sublist_of` rows;
  col_none : count_ok (summary st) = 0 /\ count_warn (summary st) = 0 /\ count_crit (summary st) = 0;
  col_code : returnCode (summary st) = returnOK
}.

Lemma start_collecting st : collecting [] (start_match st).
Proof. split; try done; apply sublist_nil. Qed.

Lemma match_row_collecting rows o st : collecting rows st -> collecting (rows ++ [o]) (match_row cfg o st).2.
Proof.
  intros [Ht Hm Hr Hn Hc]. unfold match_row.
  destruct (match engine_filter cfg with None => _ | Some fs => _ end) as [b s]. destruct b.
  - destruct (unique_lookup cfg (unique_index st) o) as [second index].
    destruct second; split; cbn; rewrite ?zlength_app, ?map_app; cbn; try done; try (unfold zlength in *; cbn in *; lia);
      by apply sublist_app.
  - split; cbn; try done; [rewrite zlength_app; unfold zlength in *; cbn in *; lia|]. by apply sublist_inserts_r.
Qed.

Lemma match_rows_collecting os : forall rows st, collecting rows st -> collecting (rows ++ os) (match_rows cfg os st).
Proof.
  induction os as [|o os IH]; intros rows st Hc; cbn [match_rows]; [by rewrite app_nil_r|].
  rewrite cons_middle, app_assoc. apply IH. by apply match_row_collecting.
Qed.

(** While the rows are judged: [n] of them so far. *)
Record judged (sm0 sm : generic_summary) (n : Z) : Prop := {
  jud_total : count_total sm = count_total sm0;
  jud_match : count_match sm = count_match sm0;
  jud_sum : count_ok sm + count_warn sm + count_crit sm = n;
  jud_nonneg : 0 <= count_ok sm /\ 0 <= count_warn sm /\ 0 <= count_crit sm;
  jud_code : returnCode sm = row_code sm
}.

Lemma replay_row_judged sm0 sm n d s : judged sm0 sm n -> judged sm0 (replay_row cfg d sm s).1.1 (n + 1).
Proof.
  intros [Ht Hm Hs Hn Hc]. unfold replay_row. unfold row_code in Hc. rewrite !Z.gtb_ltb in Hc.
  destruct (opt_match cfg (engine_crit cfg) _ true sm s) as [c s1]. destruct c.
  { destruct (second_unique_match d); split; cbn; try done; try lia; unfold row_code, escalteReturnCodeToCRIT; cbn;
      rewrite Z.gtb_ltb; destruct (Z.ltb_spec 0 (count_crit sm + 1)); try lia; done. }
  destruct (opt_match cfg (engine_warn cfg) _ true sm s1) as [w s2]. destruct w.
  { destruct (second_unique_match d); split; cbn; try done; try lia; unfold row_code, escalteReturnCodeToWARN; cbn; rewrite Hc, !Z.gtb_ltb;
      destruct (Z.ltb_spec 0 (count_crit sm)), (Z.ltb_spec 0 (count_warn sm)), (Z.ltb_spec 0 (count_warn sm + 1)); try lia; done. }
  destruct (opt_match cfg (engine_ok cfg) _ true sm s2) as [k s3].
  destruct (second_unique_match d); split; cbn; try done; try lia; unfold row_code; cbn; by rewrite !Z.gtb_ltb.
Qed.

Lemma replay_rows_judged sm0 ds : forall sm n any s, judged sm0 sm n ->
  judged sm0 (replay_rows cfg ds sm any s).1.1 (n + zlength ds).
Proof.
  induction ds as [|d ds IH]; intros sm n any s Hj; cbn [replay_rows].
  { unfold zlength. cbn. by rewrite Z.add_0_r. }
  pose proof (replay_row_judged sm0 sm n d s Hj) as Hj1. destruct (replay_row cfg d sm s) as [[sm1 b] s1].
  rewrite zlength_cons, Z.add_assoc. by apply IH.
Qed.

(** After the rows are judged. *)
Lemma judged_check os st : let st1 := evaluate_deferred_records cfg (match_rows cfg os (start_match st)) in
  let sm := summary st1 in
  count_total sm = zlength os /\ 0 <= count_match sm <= zlength os /\ deferred_records st1 = [] /\
  count_ok sm + count_warn sm + count_crit sm = count_match sm /\
  (0 <= count_ok sm /\ 0 <= count_warn sm /\ 0 <= count_crit sm) /\ returnCode sm = row_code sm.
Proof.
  cbv zeta. pose proof (match_rows_collecting os [] _ (start_collecting st)) as Hc. cbn [app] in Hc.
  set (st0 := match_rows cfg os (start_match st)) in *. destruct Hc as [Ht Hm Hr (H1 & H2 & H3) Hcode].
  assert (Hj : judged (summary st0) (summary st0) 0).
  { split; try done; try lia. unfold row_code. by rewrite H2, H3. }
  unfold evaluate_deferred_records.
  pose proof (replay_rows_judged (summary st0) (deferred_records st0) (summary st0) 0 false (context st0) Hj) as Hf.
  destruct (replay_rows cfg (deferred_records st0) (summary st0) false (context st0)) as [[sm any] s]. cbn in Hf |- *.
  destruct Hf as [F1 F2 F3 F4 F5]. apply sublist_length in Hr. rewrite length_map in Hr. unfold zlength in *.
  split_and!; try done; lia.
Qed.

(** A check counts every row it was given; the rows that passed the filter are judged once each,
    so the ok, warning and critical counts add up to the matches, and no row is left waiting. *)
Theorem check_counts_every_row (os : list obj) (st : filter_state) :
  let sm := summary (run_check cfg os st).2 in
  count_total sm = zlength os /\ 0 <= count_match sm <= count_total sm /\
  count_ok sm + count_warn sm + count_crit sm = count_match sm /\
  deferred_records (run_check cfg os st).2 = [].
Proof.
  cbv zeta. destruct (judged_check os st) as (H1 & H2 & H3 & H4 & _). unfold run_check, match_post.
  destruct (post_engine cfg (engine_crit cfg) _ _ _) as [[c uc] s1]. destruct c; [cbn; split_and!; (done || lia)|].
  destruct (post_engine cfg (engine_warn cfg) _ _ _) as [[w uw] s2]. destruct w; [cbn; split_and!; (done || lia)|].
  destruct (opt_match cfg (engine_ok cfg) _ _ _ _) as [k s3]. destruct k; [cbn; split_and!; (done || lia)|].
  destruct (uc || uw); cbn; split_and!; (done || lia).
Qed.

(** An unsure answer is only looked for when no row matched. *)
Lemma post_engine_unsure engine sm s : (post_engine cfg engine false sm s).1.2 = false.
Proof.
  unfold post_engine, force_sure_true. destruct (opt_match cfg engine None false sm s) as [[] s1]; [done|]. by destruct engine.
Qed.

(** The last step: which engine decided, and the code it leads to. *)
Lemma match_post_code st : let sm := summary (evaluate_deferred_records cfg st) in
  exists c w k u : bool, (u = true -> count_match sm <= 0) /\
  let final := summary (match_post cfg st).2 in
  count_match final = count_match sm /\ count_warn final = count_warn sm /\ count_crit final = count_crit sm /\
  returnCode final =
    if c then returnCRIT else if w then escalteReturnCodeToWARN (returnCode sm) else if k then returnCode sm
    else if u then escalateReturnCodeToUNKNOWN (returnCode sm) else returnCode sm.
Proof.
  cbv zeta. unfold match_post. set (st1 := evaluate_deferred_records cfg st). set (sm := summary st1).
  assert (Hno : forall engine s, (post_engine cfg engine (negb (has_matched_rows sm)) sm s).1.2 = true -> count_match sm <= 0).
  { intros engine s Hu. destruct (has_matched_rows sm) eqn:E; [by rewrite post_engine_unsure in Hu|].
    unfold has_matched_rows in E. rewrite Z.gtb_ltb in E. by breflect. }
  pose proof (Hno (engine_crit cfg) (context st1)) as Hc.
  destruct (post_engine cfg (engine_crit cfg) _ sm (context st1)) as [[c uc] s1]. cbn in Hc.
  destruct c; [by exists true, false, false, false|]. pose proof (Hno (engine_warn cfg) s1) as Hw.
  destruct (post_engine cfg (engine_warn cfg) _ sm s1) as [[w uw] s2]. cbn in Hw. destruct w; [by exists false, true, false, false|].
  destruct (opt_match cfg (engine_ok cfg) _ _ _ _) as [k s3]. destruct k; [by exists false, false, true, false|].
  exists false, false, false, (uc || uw). split; [intros [?|?]%orb_prop; auto|]. by destruct (uc || uw).
Qed.

(** What the engines say of a row, when that depends on the row alone, and of no row: nothing,
    their expressions need one. *)
Record described (Pf Pw Pc : obj -> bool) : Prop := {
  de_filter o sm s : (match engine_filter cfg with None => (true, s) | Some fs => engine_match fs (row_env cfg (Some o) sm) true s end).1 = Pf o;
  de_warn o sm s : (opt_match cfg (engine_warn cfg) (Some o) true sm s).1 = Pw o;
  de_crit o sm s : (opt_match cfg (engine_crit cfg) (Some o) true sm s).1 = Pc o;
  de_warn_none sm s : (opt_match cfg (engine_warn cfg) None false sm s).1 = false;
  de_crit_none sm s : (opt_match cfg (engine_crit cfg) None false sm s).1 = false
}.
Definition how_many (P : obj -> bool) (os : list obj) : Z := zlength (List.filter P os).
Lemma how_many_cons P o os : how_many P (o :: os) = (if P o then 1 else 0) + how_many P os.
Proof. unfold how_many. cbn. destruct (P o); [apply zlength_cons|]. lia. Qed.
Lemma how_many_pos P os : (how_many P os >? 0) = existsb P os.
Proof.
  induction os as [|o os IH]; [done|]. rewrite how_many_cons. cbn [existsb]. rewrite <-IH. assert (0 <= how_many P os) by (unfold how_many, zlength; lia).
  rewrite !Z.gtb_ltb. destruct (P o); cbn [orb]; [apply Z.ltb_lt; lia|done].
Qed.

Lemma described_rows Pf Pw Pc os : described Pf Pw Pc -> forall st,
  map record (deferred_records (match_rows cfg os st)) = map record (deferred_records st) ++ List.filter Pf os.
Proof.
  intros D. induction os as [|o os IH]; intros st; cbn [match_rows List.filter]; [by rewrite app_nil_r|]. rewrite IH. unfold match_row.
  pose proof (de_filter _ _ _ D o (count (summary st)) (context st)) as Hf.
  destruct (match engine_filter cfg with None => _ | Some fs => _ end) as [b s1]. cbn in Hf. subst b. destruct (Pf o); [|done].
  destruct (unique_lookup cfg (unique_index st) o). cbn. by rewrite map_app, <-app_assoc.
Qed.
Lemma described_counts Pf Pw Pc ds : described Pf Pw Pc -> forall sm any s,
  let sm' := (replay_rows cfg ds sm any s).1.1 in
  count_crit sm' = count_crit sm + how_many Pc (map record ds) /\
  count_warn sm' = count_warn sm + how_many (fun o => negb (Pc o) && Pw o) (map record ds).
Proof.
  intros D. induction ds as [|d ds IH]; intros sm any s; cbn [replay_rows map]; [unfold how_many, zlength; cbn; lia|]. rewrite !how_many_cons. unfold replay_row.
  pose proof (de_crit _ _ _ D (record d) sm s) as Hc. destruct (opt_match cfg (engine_crit cfg) _ true sm s) as [c s1]. cbn in Hc. subst c.
  destruct (Pc (record d)); cbn [negb andb].
  - match goal with |- context [replay_rows cfg ds ?m ?a ?t] => destruct (IH m a t) as [E1 E2] end. cbn zeta in *. rewrite E1, E2. destruct (second_unique_match d); cbn; lia.
  - pose proof (de_warn _ _ _ D (record d) sm s1) as Hw. destruct (opt_match cfg (engine_warn cfg) _ true sm s1) as [w s2]. cbn in Hw. subst w. destruct (Pw (record d)).
    + match goal with |- context [replay_rows cfg ds ?m ?a ?t] => destruct (IH m a t) as [E1 E2] end. cbn zeta in *. rewrite E1, E2. destruct (second_unique_match d); cbn; lia.
    + destruct (opt_match cfg (engine_ok cfg) _ true sm s2) as [k s3].
      match goal with |- context [replay_rows cfg ds ?m ?a ?t] => destruct (IH m a t) as [E1 E2] end. cbn zeta in *. rewrite E1, E2. destruct (second_unique_match d); cbn; lia.
Qed.

(** With a matching row, the last step changes the verdict of the rows only for an expression
    that needs no row. *)
Lemma described_post Pf Pw Pc st : described Pf Pw Pc -> let sm := summary (evaluate_deferred_records cfg st) in
  0 < count_match sm -> summary (match_post cfg st).2 = sm.
Proof.
  intros D sm Hm. unfold match_post. fold sm. assert (Hno : negb (has_matched_rows sm) = false) by (unfold has_matched_rows; rewrite Z.gtb_ltb, (proj2 (Z.ltb_lt _ _)) by lia; done).
  rewrite Hno. unfold post_engine, force_sure_true.
  pose proof (de_crit_none _ _ _ D sm (context (evaluate_deferred_records cfg st))) as Hc.
  destruct (opt_match cfg (engine_crit cfg) None false sm _) as [c s1]. cbn in Hc. subst c.
  pose proof (fun s => de_warn_none _ _ _ D sm s) as Hw. destruct (engine_crit cfg), (engine_warn cfg) eqn:Ew; cbn iota;
    (destruct (opt_match cfg _ None false sm s1) as [w s2] eqn:Eo; specialize (Hw s1); rewrite Eo in Hw; cbn in Hw; subst w);
    destruct (opt_match cfg (engine_ok cfg) None false sm s2) as [[] s3]; done.
Qed.


(** With no rows, a critical expression that needs a row is CRITICAL when it is surely true
    without one, UNKNOWN when it could not be decided, and OK otherwise. *)
Theorem empty_check_verdict (n : node obj generic_summary) (st : filter_state)
    (Hcrit : engine_crit cfg = Some [n]) (Hwarn : engine_warn cfg = None) (Hok : engine_ok cfg = None)
    (Hobj : require_object n = true) :
  let st1 := start_match st in
  let v := (parser_evaluate (row_env cfg None (summary st1)) n (context st1)).1 in
  returnCode (summary (run_check cfg [] st).2) =
    if is_unsure v then returnUNKNOWN else if is_true v then returnCRIT else returnOK.
Proof.
  cbv zeta. unfold run_check, match_post, evaluate_deferred_records. cbn [match_rows start_match deferred_records replay_rows].
  cbn -[parser_evaluate post_engine opt_match]. unfold post_engine, opt_match, force_sure_true. rewrite Hcrit, Hwarn, Hok.
  cbn -[parser_evaluate]. unfold filter_match, filter_match_force. rewrite Hobj. cbn -[parser_evaluate].
  destruct (parser_evaluate _ n _) as [v s]. cbn. by destruct (is_true v), (is_unsure v).
Qed.
End Verdict.

(** ** Examples *)

#[local] Instance text_matcher : regex_engine := {|
  regex := cppstring; compile := Some; regex_match s r := Answer (bool_decide (s = r)) |}.
#[local] Instance no_number_text : number_text := {| stox_double _ := None; stox_llong _ := None |}.

Definition blank_state : filter_state (obj := Z) :=
  mkFilter (new_summary (str ", ")) [] false [] (mkState _ [] (mkRegex _ [] 0 default_regex_budget_ms [])).
(** A keyword of the row, and the number of matching rows *)
Definition value_kw : node Z generic_summary := int_variable_node type_int (fun o => Ok o).
Definition count_kw : node Z generic_summary := summary_int_variable_node type_int (fun s => Ok (count_match s)).
Definition int_lit (z : Z) : node Z generic_summary := literal_node type_int (int_value z) false.
(** value > 90 or count = 0 *)
Definition over_90_or_none : node Z generic_summary :=
  prepare (binary_op type_tbd op_or (binary_op type_tbd op_gt value_kw (int_lit 90)) (binary_op type_tbd op_eq count_kw (int_lit 0))).
(** value > 90 *)
Definition over_90 : node Z generic_summary := prepare (binary_op type_tbd op_gt value_kw (int_lit 90)).

Definition crit_only (n : node Z generic_summary) (unique : option (Z -> cppstring)) : filter_config :=
  mkConfig None None (Some [n]) None (fun o => show o) unique 0.

(** value > 80 as the warning beside value > 90 as the critical expression, under value >= 0 *)
Definition over (z : Z) : node Z generic_summary := prepare (binary_op type_tbd op_gt value_kw (int_lit z)).
Definition two_levels : filter_config := mkConfig (Some [over (-1)]) (Some [over 80]) (Some [over 90]) None (fun o => show o) None 0.
Lemma two_levels_described : described two_levels (fun o => o >? -1) (fun o => o >? 80) (fun o => o >? 90).
Proof. split; intros; vm_compute; try done; match goal with |- _ = ?b => by destruct b end. Qed.

Lemma empty_check_verdict_witness :
  returnCode (summary (run_check (crit_only over_90_or_none None) [] blank_state).2) = returnCRIT /\
  returnCode (summary (run_check (crit_only over_90 None) [] blank_state).2) = returnUNKNOWN.
Proof.
  split.
  - rewrite (empty_check_verdict (crit_only over_90_or_none None) over_90_or_none blank_state eq_refl eq_refl eq_refl eq_refl). vm_compute. reflexivity.
  - rewrite (empty_check_verdict (crit_only over_90 None) over_90 blank_state eq_refl eq_refl eq_refl eq_refl). vm_compute. reflexivity.
Defined.

(** The unique index is not cleared when a batch starts: in a filter that is used again, the
    same row counts as a duplicate and is missing from the lists. *)
Theorem unique_index_survives_batches :
  let cfg := crit_only over_90 (Some (fun o => show o)) in
  let first := (run_check cfg [95] blank_state).2 in
  let second := (run_check cfg [95] first).2 in
  list_crit (summary first) = str "95" /\ count_crit (summary second) = 1 /\ list_crit (summary second) = [].
Proof. cbv zeta. split_and!; vm_compute; reflexivity. Qed.

