(* ===== verification/AccessPolicy.v ===== *)
(** The gate in front of the checks whose argument names what data is read:
    include/check/access_policy.hpp (class [policy]) and
    include/check/prefix_access_policy.hpp (class [prefix_policy]).

    A policy holds a mode, an allow list of globs compiled to regular expressions, and
    the entries the operator predefined.  Boost.Regex is the interface [boost_regex]:
    its law says what the expressions built of the few atoms that [glob_to_regex]
    emits match.  Every method holds the policy's mutex for its whole body, so it is
    one function on the state. *)

From stdpp Require Import base list gmap strings.
From Stdlib Require Import Ascii ZArith Lia.
From Stdlib Require String.
From S2P Require Import Prelude Strings Permissions Cron.
Import String.StringSyntax.

(** ** Modes *)

Inductive mode := mode_any | mode_allowed | mode_predefined.
#[global] Instance mode_eq_dec : EqDecision mode.
Proof. solve_decision. Defined.

Definition is_one_of (v : cppstring) (words : list cppstring) : bool := bool_decide (v ∈ words).

(** [parse_mode]: [None] is [false]. *)
Definition parse_mode (value : cppstring) : option mode :=
  let v := to_lower (trim_space value) in
  if bool_decide (v = []) || is_one_of v [str "any"; str "all"; str "unrestricted"] then Some mode_any
  else if is_one_of v [str "allowed"; str "allow"; str "list"] then Some mode_allowed
  else if is_one_of v [str "predefined"; str "defined"; str "named"] then Some mode_predefined
  else None.

(** ** glob_to_regex *)

Definition is_meta (c : ascii) : bool :=
  bool_decide (c ∈ [c_dot; c_backslash; "+"%char; "^"%char; "$"%char; "("%char; ")"%char; "["%char; "]"%char;
                    "{"%char; "}"%char; "|"%char]).

Fixpoint glob_to_regex (glob : cppstring) : cppstring :=
  match glob with
  | [] => []
  | c :: glob' =>
      (if bool_decide (c = c_star) then str ".*"
       else if bool_decide (c = c_any) then str "."
       else if is_meta c then [c_backslash; c]
       else [c]) ++ glob_to_regex glob'
  end.

Definition has_nul (s : cppstring) : bool := has_char Ascii.zero s.

(** ** Regular expressions *)

(** The atoms of the expressions the policies build. *)
Inductive charset := cs_char (c : ascii) | cs_any | cs_not_slash.
Inductive atom := one (s : charset) | many (s : charset).

Definition in_set (icase : bool) (d : ascii) (s : charset) : bool :=
  match s with
  | cs_char c => if icase then bool_decide (tolower c = tolower d) else bool_decide (c = d)
  | cs_any => true
  | cs_not_slash => negb (bool_decide (d = "/"%char))
  end.

(** The text of an atom; a literal is escaped when it is a metacharacter. *)
Definition print_set (s : charset) : cppstring :=
  match s with
  | cs_char c => if is_meta c then [c_backslash; c] else [c]
  | cs_any => str "."
  | cs_not_slash => str "[^/]"
  end.
Definition print_atom (a : atom) : cppstring :=
  match a with one s => print_set s | many s => print_set s ++ str "*" end.
Definition print_atoms (l : list atom) : cppstring := concat (map print_atom l).

(** A text is matched when it is a concatenation of texts matched by the atoms. *)
Fixpoint atoms_match (icase : bool) (l : list atom) (s : cppstring) : bool :=
  match l with
  | [] => bool_decide (s = [])
  | one cs :: l' => match s with d :: s' => in_set icase d cs && atoms_match icase l' s' | [] => false end
  | many cs :: l' =>
      (fix go (s : cppstring) : bool :=
         atoms_match icase l' s || match s with d :: s' => in_set icase d cs && go s' | [] => false end) s
  end.

(** A literal star or question mark would be a quantifier; [glob_to_regex] emits none. *)
Definition plain_set (s : charset) : Prop :=
  match s with cs_char c => c <> c_star /\ c <> c_any | _ => True end.
Definition plain_atom (a : atom) : Prop := match a with one s | many s => plain_set s end.

(** boost::regex and boost::regex_match.  [rx_compile] is [None] when the constructor
    throws, [rx_match] is [None] when the matcher gives up with an exception. *)
Class boost_regex := {
  rx : Type;
  rx_compile : bool -> cppstring -> option rx;
  rx_match : cppstring -> rx -> option bool;
  rx_compile_atoms icase l : Forall plain_atom l -> is_Some (rx_compile icase (print_atoms l));
  rx_match_atoms icase l r s b : Forall plain_atom l -> rx_compile icase (print_atoms l) = Some r ->
    rx_match s r = Some b -> b = atoms_match icase l s
}.

(** ** Decisions *)

Inductive decision := accept (value : cppstring) | refuse (error : cppstring).
Definition is_accept (d : decision) : bool := match d with accept _ => true | refuse _ => false end.

(** ** policy *)

Section Policy.
Context `{boost_regex} `{boost_split}.

Record policy := mkPolicy {
  noun_ : cppstring;
  nouns_ : cppstring;
  settings_path_ : cppstring;
  case_sensitive_ : bool;
  mode_ : mode;
  config_error_ : cppstring;
  patterns_ : list rx;
  raw_patterns_ : list cppstring;
  predefined_ : gmap cppstring cppstring
}.

Definition new_policy (noun nouns settings_path : cppstring) (case_sensitive : bool) : policy :=
  mkPolicy noun nouns settings_path case_sensitive mode_any [] [] [] ∅.

Definition invalid_mode (p : policy) (value : cppstring) : cppstring :=
  str "invalid '" ++ noun_ p ++ str " access' in [" ++ settings_path_ p ++ str "]: '" ++ value ++
  str "' (expected any, allowed or predefined)".

Definition set_mode (value : cppstring) (p : policy) : policy :=
  let '(m, error) := match parse_mode value with
                     | Some m => (m, [])
                     | None => (mode_predefined, invalid_mode p value)
                     end in
  mkPolicy (noun_ p) (nouns_ p) (settings_path_ p) (case_sensitive_ p) m error (patterns_ p) (raw_patterns_ p) (predefined_ p).

(** The loop of [set_allow_list]: an entry that does not compile is dropped. *)
Fixpoint compile_entries (icase : bool) (entries : list cppstring) : list rx * list cppstring :=
  match entries with
  | [] => ([], [])
  | entry :: entries' =>
      let entry := trim_space entry in
      let '(rs, raws) := compile_entries icase entries' in
      if bool_decide (entry = []) then (rs, raws)
      else match rx_compile icase (glob_to_regex entry) with
           | Some r => (r :: rs, entry :: raws)
           | None => (rs, raws)
           end
  end.

Definition set_allow_list (value : cppstring) (p : policy) : policy :=
  let '(rs, raws) := compile_entries (negb (case_sensitive_ p)) (split_commas value) in
  mkPolicy (noun_ p) (nouns_ p) (settings_path_ p) (case_sensitive_ p) (mode_ p) (config_error_ p) rs raws (predefined_ p).

Definition with_predefined (m : gmap cppstring cppstring) (p : policy) : policy :=
  mkPolicy (noun_ p) (nouns_ p) (settings_path_ p) (case_sensitive_ p) (mode_ p) (config_error_ p) (patterns_ p) (raw_patterns_ p) m.
Definition add_predefined (name value : cppstring) (p : policy) : policy :=
  with_predefined (<[name := value]> (predefined_ p)) p.
Definition clear_predefined (p : policy) : policy := with_predefined ∅ p.
Definition policy_reset (p : policy) : policy := clear_predefined p.

Definition is_restricted (p : policy) : bool :=
  negb (bool_decide (mode_ p = mode_any)) || negb (bool_decide (config_error_ p = [])).
Definition lookup_predefined (name : cppstring) (p : policy) : option cppstring := predefined_ p !! name.

(** [None]: the matcher threw. *)
Fixpoint any_pattern (value : cppstring) (rs : list rx) : option bool :=
  match rs with
  | [] => Some false
  | r :: rs' =>
      match rx_match value r with
      | None => None
      | Some true => Some true
      | Some false => any_pattern value rs'
      end
  end.
Definition matches_allow_list (value : cppstring) (p : policy) : option bool := any_pattern value (patterns_ p).

Definition refusal (p : policy) (token why : cppstring) : cppstring :=
  str "Refusing " ++ noun_ p ++ str " '" ++ token ++ str "': " ++ why ++ str " (see [" ++ settings_path_ p ++ str "] in the configuration)".

Definition why_nul : cppstring := str "it contains a NUL character".
Definition why_not_listed (p : policy) : cppstring := str "it is not in 'allowed " ++ nouns_ p ++ str "'".
Definition why_predefined (p : policy) : cppstring :=
  str "'" ++ noun_ p ++ str " access' is set to predefined, so only a configured " ++ noun_ p ++ str " name may be used".

(** [resolve], with the test against the allow list as an argument, since
    [prefix_policy] has its own. *)
Definition resolve_with (matches : cppstring -> option bool) (token : cppstring) (p : policy) : option decision :=
  match lookup_predefined token p with
  | Some v => Some (accept v)
  | None =>
      if negb (bool_decide (config_error_ p = [])) then Some (refuse (config_error_ p))
      else match mode_ p with
           | mode_any => Some (accept token)
           | mode_allowed =>
               if has_nul token then Some (refuse (refusal p token why_nul))
               else m ← matches token;
                    Some (if (m : bool) then accept token else refuse (refusal p token (why_not_listed p)))
           | mode_predefined => Some (refuse (refusal p token (why_predefined p)))
           end
  end.

Definition resolve (token : cppstring) (p : policy) : option decision :=
  resolve_with (fun t => matches_allow_list t p) token p.

Definition check_value (value what : cppstring) (p : policy) : option decision :=
  if has_nul value then Some (refuse (str "Refusing " ++ what ++ str " '" ++ value ++ str "': it contains a NUL character"))
  else m ← matches_allow_list value p;
       Some (if (m : bool) then accept value
             else refuse (str "Refusing " ++ what ++ str " '" ++ value ++ str "': it is not in 'allowed " ++ nouns_ p ++
                          str "' in [" ++ settings_path_ p ++ str "]")).

(** ** prefix_policy *)

Record prefix_entry := mkPrefixEntry { is_glob : bool; text : cppstring; pattern : option rx }.

Record prefix_policy := mkPrefixPolicy {
  base_ : policy;
  separator_ : ascii;
  normalize_ : option (cppstring -> cppstring);
  entries_ : list prefix_entry
}.

Definition new_prefix_policy (noun nouns path : cppstring) (sep : ascii) (f : option (cppstring -> cppstring)) : prefix_policy :=
  mkPrefixPolicy (new_policy noun nouns path false) sep f [].

Definition normalize (p : prefix_policy) (value : cppstring) : cppstring :=
  match normalize_ p with Some f => f value | None => value end.

(** [while (s.size() > 1 && s.back() == separator_) s.pop_back()], on the reversed string *)
Fixpoint trim_back (sep : ascii) (rs : cppstring) : cppstring :=
  match rs with
  | c :: ((_ :: _) as rs') => if bool_decide (c = sep) then trim_back sep rs' else rs
  | _ => rs
  end.
Definition trim_separators (sep : ascii) (s : cppstring) : cppstring := rev (trim_back sep (rev s)).

(** [None]: the constructor of the expression threw, out of [set_allow_list]. *)
Definition make_entry (p : prefix_policy) (item : cppstring) : option prefix_entry :=
  let g := has_char c_star item || has_char c_any item in
  let t := trim_separators (separator_ p) item in
  if g then r ← rx_compile true (glob_to_regex t); Some (mkPrefixEntry g t (Some r))
  else Some (mkPrefixEntry g t None).

Fixpoint prefix_entries (p : prefix_policy) (raw : list cppstring) : option (list prefix_entry) :=
  match raw with
  | [] => Some []
  | item :: raw' =>
      let item := trim_space item in
      if bool_decide (item = []) then prefix_entries p raw'
      else e ← make_entry p (normalize p item); es ← prefix_entries p raw'; Some (e :: es)
  end.

(** The new list is swapped in only when it is complete. *)
Definition prefix_set_allow_list (value : cppstring) (p : prefix_policy) : prefix_policy * bool :=
  match prefix_entries p (split_commas value) with
  | Some es => (mkPrefixPolicy (base_ p) (separator_ p) (normalize_ p) es, true)
  | None => (p, false)
  end.

Definition on_base (f : policy -> policy) (p : prefix_policy) : prefix_policy :=
  mkPrefixPolicy (f (base_ p)) (separator_ p) (normalize_ p) (entries_ p).

Definition iequals (a b : cppstring) : bool := bool_decide (to_lower a = to_lower b).

Definition is_at_or_under (sep : ascii) (prefix value : cppstring) : bool :=
  let subject := trim_separators sep value in
  if iequals subject prefix then true
  else if Nat.leb (length subject) (length prefix) then false
  else if negb (iequals (substr subject 0 (length prefix)) prefix) then false
  else bool_decide (subject !! length prefix = Some sep).

Fixpoint any_entry (sep : ascii) (subject : cppstring) (es : list prefix_entry) : option bool :=
  match es with
  | [] => Some false
  | e :: es' =>
      match (if is_glob e then match pattern e with Some r => rx_match subject r | None => Some false end
             else Some (is_at_or_under sep (text e) subject)) with
      | None => None
      | Some true => Some true
      | Some false => any_entry sep subject es'
      end
  end.
Definition prefix_matches (value : cppstring) (p : prefix_policy) : option bool :=
  any_entry (separator_ p) (normalize p value) (entries_ p).

Definition prefix_resolve (token : cppstring) (p : prefix_policy) : option decision :=
  resolve_with (fun t => prefix_matches t p) token (base_ p).
End Policy.

(** ** What the expressions mean *)

Definition fold_case (icase : bool) (s : cppstring) : cppstring := if icase then to_lower s else s.

(** The atoms [glob_to_regex] spells. *)
Definition glob_atom (c : ascii) : atom :=
  if bool_decide (c = c_star) then many cs_any
  else if bool_decide (c = c_any) then one cs_any
  else one (cs_char c).
Definition glob_atoms (glob : cppstring) : list atom := map glob_atom glob.

Lemma glob_to_regex_atoms glob : glob_to_regex glob = print_atoms (glob_atoms glob).
Proof.
  induction glob as [|c glob IH]; [done|]. cbn [glob_to_regex glob_atoms map]. unfold print_atoms in *. cbn [map concat].
  rewrite IH. f_equal. unfold glob_atom. by repeat case_bool_decide.
Qed.

Lemma glob_atoms_plain glob : Forall plain_atom (glob_atoms glob).
Proof.
  apply Forall_map, Forall_true. intros c. unfold glob_atom. repeat case_bool_decide; cbn; auto.
Qed.

(** A repeated set absorbs a prefix of its members. *)
Lemma atoms_match_many icase cs l s :
  atoms_match icase (many cs :: l) s = true <->
  exists u v, s = u ++ v /\ Forall (fun d => in_set icase d cs = true) u /\ atoms_match icase l v = true.
Proof.
  induction s as [|d s IH].
  - cbn. rewrite orb_false_r. split; [by exists [], []|]. intros (u & v & He & _ & Hv).
    symmetry in He. by apply app_nil in He as [-> ->].
  - transitivity (atoms_match icase l (d :: s) = true \/ (in_set icase d cs = true /\ atoms_match icase (many cs :: l) s = true)).
    { cbn [atoms_match]. rewrite orb_true_iff, andb_true_iff. tauto. }
    rewrite IH. split.
    + intros [Hl|(Hd & u & v & -> & Hu & Hv)]; [by exists [], (d :: s)|]. exists (d :: u), v. split_and!; [done|by constructor|done].
    + intros ([|d' u] & v & He & Hu & Hv); cbn in He; [subst v; auto|]. injection He as <- ->.
      inversion Hu; subst. right. split; [done|]. by exists u, v.
Qed.

Lemma fold_case_inj_special (icase : bool) c d :
  (forall n, n = nat_of_ascii d -> n < 65 \/ 122 < n \/ 90 < n < 97)%nat ->
  (if icase then tolower c else c) = d <-> c = d.
Proof. intros Hd. destruct icase; [by apply tolower_special|done]. Qed.

Lemma glob_head_plain x p t :
  x <> c_star -> x <> c_any -> glob_rel (x :: p) t <-> exists t', t = x :: t' /\ glob_rel p t'.
Proof.
  intros Hs Ha. split.
  - inversion 1; subst; try congruence. eauto.
  - intros (t' & -> & Hg). by constructor.
Qed.

(** The expression of a glob matches what the glob denotes. *)
Lemma glob_atoms_correct icase glob s :
  atoms_match icase (glob_atoms glob) s = true <-> glob_rel (fold_case icase glob) (fold_case icase s).
Proof.
  assert (Hf : forall t, fold_case icase t = map (fun c => if icase then tolower c else c) t).
  { intros t. destruct icase; cbn; [done|]. by rewrite map_id. }
  rewrite !Hf. clear Hf. set (f := fun c => if icase then tolower c else c). revert s. induction glob as [|c glob IH]; intros s.
  { cbn. rewrite bool_decide_eq_true. split; [intros ->; constructor|]. intros Hg%glob_nil_inv. by destruct s. }
  cbn [glob_atoms map]. unfold glob_atom at 1.
  assert (Hstar : f c = c_star <-> c = c_star) by (apply fold_case_inj_special; intros ? ->; cbv; lia).
  assert (Hany : f c = c_any <-> c = c_any) by (apply fold_case_inj_special; intros ? ->; cbv; lia).
  case_bool_decide as Hc1; [|case_bool_decide as Hc2].
  - rewrite (proj2 Hstar Hc1), atoms_match_many, glob_star_iff. split.
    + intros (u & v & -> & _ & Hv). exists (map f u), (map f v). by rewrite map_app, <- IH.
    + intros (u & v & He & Hv). apply map_eq_app in He as (u' & v' & -> & <- & <-). exists u', v'.
      rewrite IH. split_and!; [done| |done]. by apply Forall_true.
  - rewrite (proj2 Hany Hc2). cbn [atoms_match]. destruct s as [|d s]; cbn [map].
    + split; [done|]. inversion 1; simplify_eq.
    + cbn. rewrite glob_head_any. apply IH.
  - rewrite glob_head_plain by tauto. cbn [atoms_match]. destruct s as [|d s]; cbn [map].
    { split; [done|]. by intros (t' & ? & _). }
    rewrite andb_true_iff, IH. assert (Hd : in_set icase d (cs_char c) = true <-> f c = f d).
    { unfold f. cbn. destruct icase; by rewrite bool_decide_eq_true. }
    rewrite Hd. split; [intros [-> Hg]; eauto | intros (t' & [= -> <-] & Hg); auto].
Qed.

(** ** A matcher for the atoms *)

(** Reading an expression back: one set, then an optional star. *)
Definition read_set (text : cppstring) : option (charset * cppstring) :=
  match text with
  | [] => None
  | c :: t =>
      if bool_decide (c = c_backslash) then match t with d :: t' => Some (cs_char d, t') | [] => None end
      else if bool_decide (c = c_dot) then Some (cs_any, t)
      else if is_prefix (str "[^/]") text then Some (cs_not_slash, drop 4 text)
      else if is_meta c || bool_decide (c = c_star) || bool_decide (c = c_any) then None
      else Some (cs_char c, t)
  end.

Fixpoint read_atoms (fuel : nat) (text : cppstring) : option (list atom) :=
  match text, fuel with
  | [], _ => Some []
  | _, O => None
  | _, S fuel' =>
      '(s, t) ← read_set text;
      match t with
      | c :: t' => if bool_decide (c = c_star) then l ← read_atoms fuel' t'; Some (many s :: l)
                   else l ← read_atoms fuel' t; Some (one s :: l)
      | [] => Some [one s]
      end
  end.

Lemma read_set_print s t : plain_set s -> read_set (print_set s ++ t) = Some (s, t).
Proof.
  destruct s as [c| |]; cbn [print_set plain_set]; [|done|].
  2: { intros _. vm_compute. done. }
  intros [Hs Ha]. destruct (is_meta c) eqn:Hm; [done|]. cbn [app read_set].
  assert (Hc : forall d, is_meta d = true -> c <> d) by (intros d Hd ->; congruence).
  rewrite !bool_decide_eq_false_2 by (done || by apply Hc). rewrite Hm. cbn [is_prefix str String.list_ascii_of_string].
  rewrite bool_decide_eq_false_2 by (intros <-; by apply (Hc "["%char)). done.
Qed.

Lemma print_set_head s : plain_set s -> exists c t, print_set s = c :: t /\ c <> c_star.
Proof.
  destruct s as [c| |]; cbn [print_set plain_set]; intros Hp; [|by eexists _, _..].
  destruct Hp as [Hs _]. case_if; by eexists _, _.
Qed.

Lemma read_atoms_print l : Forall plain_atom l -> forall fuel, (length (print_atoms l) <= fuel)%nat ->
  read_atoms fuel (print_atoms l) = Some l.
Proof.
  induction 1 as [|a l Ha Hl IH]; intros fuel Hf; [by destruct fuel|].
  unfold print_atoms in *. cbn [map concat] in *. fold (print_atoms l) in *. rewrite length_app in Hf.
  destruct (print_set_head match a with one s | many s => s end) as (c & t & Hc & Hstar); [by destruct a|].
  destruct fuel as [|fuel]; [destruct a; cbn in Hf; rewrite Hc in Hf; cbn in Hf; lia|].
  assert (Hne : print_atom a ++ print_atoms l <> []) by (destruct a; cbn; rewrite Hc; done).
  assert (Hunfold : forall text, text <> [] -> read_atoms (S fuel) text = '(s, t) ← read_set text;
    match t with
    | c :: t' => if bool_decide (c = c_star) then l ← read_atoms fuel t'; Some (many s :: l)
                 else l ← read_atoms fuel t; Some (one s :: l)
    | [] => Some [one s]
    end) by (by intros []).
  apply (f_equal length) in Hc. cbn [length] in Hc.
  rewrite Hunfold by done. destruct a as [s|s]; cbn [print_atom plain_atom] in *.
  - rewrite read_set_print by done. cbn. destruct l as [|b l]; [done|].
    destruct (print_set_head match b with one s | many s => s end) as (c' & t' & Hc' & Hstar'); [by apply Forall_cons in Hl as [? _]; destruct b|].
    assert (exists rest, print_atoms (b :: l) = c' :: rest) as [rest Hr].
    { unfold print_atoms. cbn [map concat]. destruct b; cbn [print_atom]; rewrite Hc'; by eexists. }
    rewrite Hr, bool_decide_eq_false_2, <- Hr by done. rewrite IH; [done|]. lia.
  - rewrite <- app_assoc, read_set_print by done. cbn. rewrite IH; [done|]. rewrite length_app in Hf. lia.
Qed.

#[export] Instance plain_regex : boost_regex.
Proof.
  refine {| rx := bool * list atom;
            rx_compile icase text := (fun l => (icase, l)) <$> read_atoms (length text) text;
            rx_match s r := Some (atoms_match r.1 r.2 s) |}.
  - intros icase l Hl. rewrite read_atoms_print by done. by eexists.
  - intros icase l r s b Hl. rewrite read_atoms_print by done. by intros [= <-] [= <-].
Defined.

(** ** The gate a policy implements *)

(** A mode that is not understood is [None]: the gate is shut, but for the names. *)
Record gate := mkGate { g_mode : option mode; g_list : list cppstring; g_named : gmap cppstring cppstring }.
Definition new_gate : gate := mkGate (Some mode_any) [] ∅.

Inductive gate_op :=
| op_mode (value : cppstring)
| op_list (value : cppstring)
| op_name (name value : cppstring)
| op_reset.

Definition gate_step (listed : cppstring -> list cppstring) (g : gate) (o : gate_op) : gate :=
  match o with
  | op_mode v => mkGate (parse_mode v) (g_list g) (g_named g)
  | op_list v => mkGate (g_mode g) (listed v) (g_named g)
  | op_name n v => mkGate (g_mode g) (g_list g) (<[n := v]> (g_named g))
  | op_reset => mkGate (g_mode g) (g_list g) ∅
  end.

(** [permits covers g token v]: the gate lets [token] through, as the value [v]. *)
Inductive permits (covers : cppstring -> cppstring -> Prop) (g : gate) (token : cppstring) : cppstring -> Prop :=
| by_name v : g_named g !! token = Some v -> permits covers g token v
| by_any : g_named g !! token = None -> g_mode g = Some mode_any -> permits covers g token token
| by_list e : g_named g !! token = None -> g_mode g = Some mode_allowed -> Ascii.zero ∉ token ->
    e ∈ g_list g -> covers e token -> permits covers g token token.

Section Refinement.
Context `{boost_regex} `{boost_split}.

(** A policy stands for a gate, its own allow list apart. *)
Record stands_for (p : policy) (g : gate) : Prop := {
  same_named : predefined_ p = g_named g;
  same_mode : if bool_decide (config_error_ p = []) then g_mode g = Some (mode_ p) else g_mode g = None
}.

Lemma resolve_with_correct covers matches p g token :
  stands_for p g ->
  (forall b, matches token = Some b -> b = true <-> exists e, e ∈ g_list g /\ covers e token) ->
  (forall d, resolve_with matches token p = Some d -> forall v, d = accept v <-> permits covers g token v) /\
  (resolve_with matches token p = None -> g_mode g = Some mode_allowed /\ matches token = None).
Proof.
  intros [Hn Hm] Hmatch. unfold resolve_with, lookup_predefined. rewrite Hn.
  destruct (g_named g !! token) as [w|] eqn:Hw.
  { split; [|done]. intros d [= <-] v. split; [intros [= ->]; by apply by_name | inversion 1; congruence]. }
  destruct (bool_decide (config_error_ p = [])); cbn [negb].
  2: { split; [|done]. intros d [= <-] v. split; [done | inversion 1; congruence]. }
  destruct (mode_ p).
  - split; [|done]. intros d [= <-] v. split; [intros [= <-]; by apply by_any | inversion 1; congruence].
  - unfold has_nul. destruct (has_char Ascii.zero token) eqn:Hz; unfold has_char in Hz.
    { apply bool_decide_eq_true in Hz. split; [|done]. intros d [= <-] v. split; [done | inversion 1; congruence || done]. }
    apply bool_decide_eq_false in Hz. destruct (matches token) as [m|] eqn:Hmt; cbn; [|split; done].
    specialize (Hmatch m eq_refl). split; [|done]. intros d [= <-] v. destruct m.
    + destruct Hmatch as [Hmatch _]. destruct Hmatch as (e & He & Hc); [done|].
      split; [intros [= <-]; by eapply by_list | inversion 1; congruence].
    + split; [done|]. inversion 1 as [|?|e ? ? ? He Hc]; subst; try congruence. assert (false = true); [|done]. apply Hmatch. by exists e.
  - split; [|done]. intros d [= <-] v. split; [done | inversion 1; congruence].
Qed.

(** *** policy *)

Definition policy_step (p : policy) (o : gate_op) : policy :=
  match o with
  | op_mode v => set_mode v p
  | op_list v => set_allow_list v p
  | op_name n v => add_predefined n v p
  | op_reset => policy_reset p
  end.

(** The entries of a configured list: trimmed, the empty ones left out. *)
Definition listed (value : cppstring) : list cppstring := filter (fun e => e <> []) (map trim_space (split_commas value)).

Lemma set_mode_stands v p g listed : stands_for p g -> stands_for (set_mode v p) (gate_step listed g (op_mode v)).
Proof.
  intros [Hn Hm]. unfold set_mode. destruct (parse_mode v) as [m|] eqn:E; constructor; cbn; rewrite ?E; try done.
Qed.

Lemma compile_entries_correct icase entries :
  let es := filter (fun e => e <> []) (map trim_space entries) in
  Forall2 (fun e r => rx_compile icase (print_atoms (glob_atoms e)) = Some r) es (compile_entries icase entries).1 /\
  (compile_entries icase entries).2 = es.
Proof.
  induction entries as [|entry entries [IH1 IH2]]; cbn [compile_entries map]; [split; constructor|].
  destruct (compile_entries icase entries) as [rs raws]. cbn [fst snd] in *. rewrite filter_cons.
  repeat case_decide; case_bool_decide; try congruence; try done.
  destruct (rx_compile_atoms icase (glob_atoms (trim_space entry))) as [r Hr]; [apply glob_atoms_plain|].
  rewrite glob_to_regex_atoms, Hr. cbn. split; [by constructor | by f_equal].
Qed.

Definition same_patterns (p : policy) (g : gate) : Prop :=
  Forall2 (fun e r => rx_compile (negb (case_sensitive_ p)) (print_atoms (glob_atoms e)) = Some r) (g_list g) (patterns_ p).

Lemma any_pattern_correct icase es rs s b :
  Forall2 (fun e r => rx_compile icase (print_atoms (glob_atoms e)) = Some r) es rs ->
  any_pattern s rs = Some b ->
  b = true <-> exists e, e ∈ es /\ glob_rel (fold_case icase e) (fold_case icase s).
Proof.
  induction 1 as [|e r es rs Hr Hes IH]; cbn [any_pattern].
  { intros [= <-]. split; [done|]. intros (e & He & _). by apply not_elem_of_nil in He. }
  destruct (rx_match s r) as [m|] eqn:Hm; [|done]. pose proof Hm as Hm'.
  apply (rx_match_atoms _ _ _ _ _ (glob_atoms_plain e) Hr) in Hm'.
  assert (Hx : m = true <-> glob_rel (fold_case icase e) (fold_case icase s)) by (by rewrite Hm', glob_atoms_correct).
  setoid_rewrite elem_of_cons. destruct m.
  - intros [= <-]. split; [|done]. intros _. exists e. tauto.
  - intros Hb. rewrite (IH Hb). split; [intros (e' & ? & ?); eauto|].
    intros (e' & [->|He] & Hg); [|eauto]. by apply Hx in Hg.
Qed.

Lemma any_pattern_throws s rs : any_pattern s rs = None -> Exists (fun r => rx_match s r = None) rs.
Proof.
  induction rs as [|r rs IH]; cbn; [done|]. destruct (rx_match s r) as [[]|] eqn:E; try done; auto.
Qed.

Lemma policy_step_stands p g o :
  stands_for p g -> same_patterns p g ->
  stands_for (policy_step p o) (gate_step listed g o) /\ same_patterns (policy_step p o) (gate_step listed g o) /\
  case_sensitive_ (policy_step p o) = case_sensitive_ p.
Proof.
  intros Hs Hp. destruct Hs as [Hn Hm] eqn:Es. clear Es. destruct o as [v|v|n v|]; cbn [policy_step].
  - split; [by apply set_mode_stands|]. unfold set_mode. by destruct (parse_mode v).
  - unfold set_allow_list. pose proof (compile_entries_correct (negb (case_sensitive_ p)) (split_commas v)) as [H1 _].
    destruct (compile_entries _ _) as [rs raws]. split_and!; [by constructor | done | done].
  - split_and!; [|done|done]. constructor; cbn; [by rewrite Hn | done].
  - split_and!; [by constructor | done | done].
Qed.

Lemma policy_run_stands ops p g :
  stands_for p g -> same_patterns p g ->
  stands_for (fold_left policy_step ops p) (fold_left (gate_step listed) ops g) /\
  same_patterns (fold_left policy_step ops p) (fold_left (gate_step listed) ops g) /\
  case_sensitive_ (fold_left policy_step ops p) = case_sensitive_ p.
Proof.
  revert p g. induction ops as [|o ops IH]; intros p g Hs Hp; [done|]. cbn [fold_left].
  destruct (policy_step_stands p g o Hs Hp) as (Hs' & Hp' & Hc). destruct (IH _ _ Hs' Hp') as (? & ? & ?).
  split_and!; congruence || done.
Qed.

(** C32. Whatever the sequence of configuration calls, a policy lets a token through exactly as
    the abstract gate does: a predefined name stands for its value in every mode, one that is
    not understood included; mode any passes everything, mode allowed passes a token without NUL
    that one of the trimmed entries covers as a glob (ignoring case unless case sensitive),
    predefined and a mode that is not understood pass no other token; only a matcher that gives
    up leaves no answer. *)
Theorem policy_refines_gate (noun nouns path : cppstring) (case_sensitive : bool) (ops : list gate_op) (token : cppstring) :
  let p := fold_left policy_step ops (new_policy noun nouns path case_sensitive) in
  let g := fold_left (gate_step listed) ops new_gate in
  let covers e t := glob_rel (fold_case (negb case_sensitive) e) (fold_case (negb case_sensitive) t) in
  (forall d, resolve token p = Some d -> forall v, d = accept v <-> permits covers g token v) /\
  (resolve token p = None -> g_mode g = Some mode_allowed /\ Exists (fun r => rx_match token r = None) (patterns_ p)).
Proof.
  cbv zeta. destruct (policy_run_stands ops (new_policy noun nouns path case_sensitive) new_gate) as (Hs & Hp & Hc);
    [by constructor | constructor |]. unfold same_patterns in Hp. rewrite Hc in Hp. cbn [case_sensitive_ new_policy] in Hp.
  set (p := fold_left policy_step ops _) in *. set (g := fold_left _ ops new_gate) in *.
  destruct (resolve_with_correct
    (fun e t => glob_rel (fold_case (negb case_sensitive) e) (fold_case (negb case_sensitive) t))
    (fun t => matches_allow_list t p) p g token Hs (fun b => any_pattern_correct _ _ _ _ b Hp)) as [H1 H2].
  split; [exact H1|]. intros [Hm Hx]%H2. split; [done|]. by apply any_pattern_throws.
Qed.

(** A mode that is not understood still lets the predefined names through. *)
Example misspelt_mode_passes_names :
  let p := fold_left policy_step [op_name (str "mem") (str "Memory"); op_mode (str "allwed")]
             (new_policy (str "counter") (str "counters") (str "/settings/system") false) in
  resolve (str "mem") p = Some (accept (str "Memory")) /\ config_error_ p <> [].
Proof. split; [reflexivity | discriminate]. Qed.

(** *** prefix_policy *)

Definition prefix_step (p : prefix_policy) (o : gate_op) : prefix_policy :=
  match o with
  | op_list v => (prefix_set_allow_list v p).1
  | op_mode v => on_base (set_mode v) p
  | op_name n v => on_base (add_predefined n v) p
  | op_reset => on_base policy_reset p
  end.

Definition has_wild (e : cppstring) : bool := has_char c_star e || has_char c_any e.

(** What an entry of the list covers: a glob by its meaning, a plain name itself and what
    follows it after a separator. *)
Definition prefix_covers (sep : ascii) (f : option (cppstring -> cppstring)) (e token : cppstring) : Prop :=
  let norm v := match f with Some f => f v | None => v end in
  let t := trim_separators sep (norm e) in
  if has_wild (norm e) then glob_rel (to_lower t) (to_lower (norm token))
  else let s := trim_separators sep (norm token) in
       to_lower s = to_lower t \/ exists u rest, s = u ++ sep :: rest /\ to_lower u = to_lower t.

Lemma is_at_or_under_correct sep prefix value :
  is_at_or_under sep prefix value = true <->
  let s := trim_separators sep value in
  to_lower s = to_lower prefix \/ exists u rest, s = u ++ sep :: rest /\ to_lower u = to_lower prefix.
Proof.
  unfold is_at_or_under, iequals, substr. cbv zeta. set (s := trim_separators sep value). rewrite drop_0.
  case_bool_decide as H1; [tauto|]. destruct (Nat.leb_spec (length s) (length prefix)) as [Hle|Hlt].
  - split; [done|]. intros [?|(u & rest & Hs & Hu)]; [done|]. apply (f_equal length) in Hu. rewrite !length_to_lower in Hu.
    rewrite Hs, length_app in Hle. cbn in Hle. lia.
  - case_bool_decide as H2; cbn [negb].
    + rewrite bool_decide_eq_true. split.
      * intros Hx. right. exists (take (length prefix) s), (drop (S (length prefix)) s). split; [|done].
        by rewrite take_drop_middle.
      * intros [?|(u & rest & Hs & Hu)]; [done|]. apply (f_equal length) in Hu. rewrite !length_to_lower in Hu.
        rewrite Hs, <- Hu. by apply list_lookup_middle.
    + split; [done|]. intros [?|(u & rest & Hs & Hu)]; [done|]. exfalso. apply H2.
      pose proof (f_equal length Hu) as Hl. rewrite !length_to_lower in Hl. by rewrite Hs, <- Hl, take_app_length.
Qed.

Definition entry_ok (sep : ascii) (f : option (cppstring -> cppstring)) (e : cppstring) (x : prefix_entry) : Prop :=
  let n := match f with Some f => f e | None => e end in
  is_glob x = has_wild n /\ text x = trim_separators sep n /\
  (is_glob x = true -> exists r, pattern x = Some r /\ rx_compile true (print_atoms (glob_atoms (text x))) = Some r).

Lemma prefix_entries_ok p raw :
  exists es, prefix_entries p raw = Some es /\
    Forall2 (entry_ok (separator_ p) (normalize_ p)) (filter (fun e => e <> []) (map trim_space raw)) es.
Proof.
  induction raw as [|item raw (es & He & Hes)]; [exists []; by constructor|]. cbn [prefix_entries map]. rewrite filter_cons.
  repeat case_decide; case_bool_decide; try congruence; try (by eexists).
  unfold make_entry, normalize. set (n := match normalize_ p with Some f => f (trim_space item) | None => trim_space item end).
  destruct (has_char c_star n || has_char c_any n) eqn:Hw.
  - destruct (rx_compile_atoms true (glob_atoms (trim_separators (separator_ p) n))) as [r Hr]; [apply glob_atoms_plain|].
    rewrite glob_to_regex_atoms, Hr. cbn. rewrite He. cbn. eexists. split; [done|]. constructor; [|done].
    split_and!; [by cbn; rewrite <- Hw | done | by eexists].
  - cbn. rewrite He. cbn. eexists. split; [done|]. constructor; [|done]. split_and!; [by cbn; rewrite <- Hw | done | done].
Qed.

Lemma any_entry_correct sep f es xs v b :
  Forall2 (entry_ok sep f) es xs ->
  any_entry sep (match f with Some f => f v | None => v end) xs = Some b ->
  b = true <-> exists e, e ∈ es /\ prefix_covers sep f e v.
Proof.
  set (s := match f with Some f => f v | None => v end).
  induction 1 as [|e x es xs (Hg & Ht & Hp) Hes IH]; cbn [any_entry].
  { intros [= <-]. split; [done|]. intros (e & He & _). by apply not_elem_of_nil in He. }
  set (hit := if is_glob x then _ else _).
  assert (Hx : forall m, hit = Some m -> m = true <-> prefix_covers sep f e v).
  { intros m Hm. unfold prefix_covers. fold s. subst hit. rewrite <- Hg, <- Ht. destruct (is_glob x).
    - destruct Hp as (r & Hr & Hc); [done|]. rewrite Hr in Hm.
      apply (rx_match_atoms _ _ _ _ _ (glob_atoms_plain (text x)) Hc) in Hm. rewrite Hm. apply (glob_atoms_correct true).
    - injection Hm as <-. apply is_at_or_under_correct. }
  setoid_rewrite elem_of_cons. destruct hit as [[]|]; [| |done].
  - intros [= <-]. split; [|done]. intros _. exists e. split; [auto|]. by apply (Hx true).
  - intros Hb. rewrite (IH Hb). split; [intros (e' & ? & ?); eauto|].
    intros (e' & [->|He] & Hcov); [|eauto]. by apply (Hx false) in Hcov.
Qed.

Definition prefix_stands (p : prefix_policy) (g : gate) : Prop :=
  stands_for (base_ p) g /\ Forall2 (entry_ok (separator_ p) (normalize_ p)) (g_list g) (entries_ p).

Lemma prefix_run_stands ops p g : prefix_stands p g ->
  let p' := fold_left prefix_step ops p in
  prefix_stands p' (fold_left (gate_step listed) ops g) /\ separator_ p' = separator_ p /\ normalize_ p' = normalize_ p.
Proof.
  revert p g. induction ops as [|o ops IH]; intros p g Hp; [done|]. cbn [fold_left].
  assert (Hstep : prefix_stands (prefix_step p o) (gate_step listed g o) /\
    separator_ (prefix_step p o) = separator_ p /\ normalize_ (prefix_step p o) = normalize_ p).
  { destruct Hp as [[Hn Hm] He]. destruct o as [v|v|n v|]; cbn [prefix_step].
    - split_and!; [|done|done]. split; [by apply set_mode_stands | done].
    - unfold prefix_set_allow_list. destruct (prefix_entries_ok p (split_commas v)) as (es & -> & Hes).
      split_and!; [|done|done]. split; [by constructor | done].
    - split_and!; [|done|done]. split; [constructor; cbn; [by rewrite Hn | done] | done].
    - split_and!; [|done|done]. split; [by constructor | done]. }
  destruct Hstep as (H1 & H2 & H3). destruct (IH _ _ H1) as (? & ? & ?). split_and!; congruence || done.
Qed.

(** Whatever the sequence of configuration calls, a prefix policy lets a token through exactly
    as the gate does in which an entry without wildcard covers itself and what lies below it
    after a separator, never a longer name, and an entry with a wildcard what the glob denotes,
    all in normalised spelling and ignoring case. *)
Theorem prefix_policy_refines_gate (noun nouns path : cppstring) (sep : ascii) (f : option (cppstring -> cppstring))
    (ops : list gate_op) (token : cppstring) :
  let p := fold_left prefix_step ops (new_prefix_policy noun nouns path sep f) in
  let g := fold_left (gate_step listed) ops new_gate in
  (forall d, prefix_resolve token p = Some d -> forall v, d = accept v <-> permits (prefix_covers sep f) g token v) /\
  (prefix_resolve token p = None -> g_mode g = Some mode_allowed /\ prefix_matches token p = None).
Proof.
  cbv zeta. destruct (prefix_run_stands ops (new_prefix_policy noun nouns path sep f) new_gate) as ([Hs He] & Hsep & Hf);
    [by repeat constructor|]. set (p := fold_left prefix_step ops _) in *. set (g := fold_left _ ops new_gate) in *.
  apply (resolve_with_correct _ (fun t => prefix_matches t p) _ g token Hs). intros b Hb.
  unfold prefix_matches, normalize in Hb. rewrite Hsep, Hf in Hb, He. exact (any_entry_correct _ _ _ _ _ _ He Hb).
Qed.
(** *** A reload *)

Definition name_ops (names : list (cppstring * cppstring)) : list gate_op := map (fun '(n, v) => op_name n v) names.

Lemma name_ops_run names p token : token ∉ map fst names ->
  let p' := fold_left policy_step (name_ops names) p in
  predefined_ p' !! token = predefined_ p !! token /\ mode_ p' = mode_ p /\ config_error_ p' = config_error_ p /\ patterns_ p' = patterns_ p.
Proof.
  revert p. induction names as [|[n v] names IH]; intros p Ht; [done|]. cbn in Ht. apply not_elem_of_cons in Ht as [Hn Ht].
  cbn [name_ops map fold_left policy_step]. fold (name_ops names).
  destruct (IH (add_predefined n v p) Ht) as (-> & -> & -> & ->). split_and!; [|done..]. cbn. by apply lookup_insert_ne.
Qed.

(** Between the start of a reload and the moment the new mode and list are written, a token that
    is not one of the re-added names is accepted only if it was accepted before the reload. *)
Theorem reload_never_opens (p : policy) (names : list (cppstring * cppstring)) (token : cppstring) (d : decision) :
  token ∉ map fst names ->
  resolve token (fold_left policy_step (op_reset :: name_ops names) p) = Some d -> is_accept d = true ->
  exists v, resolve token p = Some (accept v).
Proof.
  intros Ht. cbn [fold_left policy_step]. destruct (name_ops_run names (policy_reset p) token Ht) as (Hn & Hm & Hc & Hp).
  unfold resolve, resolve_with, lookup_predefined, matches_allow_list. rewrite Hn, Hm, Hc, Hp. cbn.
  destruct (predefined_ p !! token); [by eauto|]. destruct (bool_decide (config_error_ p = [])); cbn; [|by intros [= <-]].
  destruct (mode_ p); [by eauto| |by intros [= <-]]. destruct (has_nul token); [by intros [= <-]|].
  destruct (any_pattern token (patterns_ p)) as [[]|]; cbn; [by eauto | by intros [= <-] | done].
Qed.
End Refinement.

(** A counter policy with one glob, and a registry policy with one key. *)
Definition counter_ops : list gate_op :=
  [op_mode (str " Allowed "); op_list (str "\Processor(*)\% Processor Time, ,\Memory\*"); op_name (str "cpu") (str "\System\Threads")].

Definition counter_token : cppstring := str "\processor(_Total)\% Processor Time".

Lemma policy_refines_gate_witness :
  permits (fun e t => glob_rel (fold_case (negb false) e) (fold_case (negb false) t))
    (fold_left (gate_step listed) counter_ops new_gate) counter_token counter_token.
Proof.
  pose proof (policy_refines_gate (str "counter") (str "counters") (str "/settings/pdh") false counter_ops counter_token) as [H _].
  apply (H (accept counter_token)); [vm_compute; reflexivity | reflexivity].
Defined.

Definition key_ops : list gate_op := [op_mode (str "allowed"); op_list (str "HKLM\SOFTWARE\App")].

Lemma prefix_policy_refines_gate_witness :
  permits (prefix_covers c_backslash None) (fold_left (gate_step listed) key_ops new_gate)
    (str "hklm\software\app\Key") (str "hklm\software\app\Key") /\
  ~ permits (prefix_covers c_backslash None) (fold_left (gate_step listed) key_ops new_gate)
      (str "HKLM\SOFTWARE\AppEvil") (str "HKLM\SOFTWARE\AppEvil").
Proof.
  pose proof (prefix_policy_refines_gate (str "key") (str "keys") (str "/settings/registry") c_backslash None key_ops) as H.
  split.
  - apply (proj1 (H _) (accept (str "hklm\software\app\Key"))); [vm_compute; reflexivity | reflexivity].
  - intros Hp. apply (proj1 (H _) (refuse (refusal (new_policy (str "key") (str "keys") (str "/settings/registry") false)
      (str "HKLM\SOFTWARE\AppEvil") (str "it is not in 'allowed keys'")))) in Hp; [discriminate | vm_compute; reflexivity].
Defined.

Definition counter_policy : policy := fold_left policy_step counter_ops (new_policy [] [] [] false).

Lemma reload_never_opens_witness : exists v, resolve (str "\Memory\Free") counter_policy = Some (accept v).
Proof.
  apply (reload_never_opens counter_policy [(str "x", str "y")] (str "\Memory\Free") (accept (str "\Memory\Free"))).
  - intros Hx. apply list_elem_of_singleton in Hx. discriminate.
  - vm_compute. reflexivity.
  - reflexivity.
Defined.
