(* ===== verification/PathPolicy.v ===== *)
(** The gate in front of the checks that read a named file:
    include/check/path_access_policy.hpp (class [path_policy]).

    The file system is a record of answers, an argument of the functions that ask it:
    the allow list is built under one file system and a token may be resolved under
    another.  [win32] says which of the two builds is meant.  The expressions of the
    globs are those of AccessPolicy. *)

From stdpp Require Import base list gmap strings.
From Stdlib Require Import Ascii ZArith Lia Sorted.
From Stdlib Require String.
From S2P Require Import Prelude Strings Permissions Cron AccessPolicy.
Import String.StringSyntax.

Definition c_slash : ascii := "/"%char.

(** ** boost::filesystem *)

Inductive file_type := status_error | file_not_found | regular_file | directory_file | symlink_file | type_unknown.
#[global] Instance file_type_eq_dec : EqDecision file_type.
Proof. solve_decision. Defined.

(** A status query gives a value and whether the [error_code] was set; [inr] is the
    message of the code. *)
Record filesystem := mkFs {
  weakly_canonical : cppstring -> cppstring + cppstring;
  lexically_normal : cppstring -> cppstring;
  symlink_status : cppstring -> file_type * bool;
  status : cppstring -> file_type * bool;
  is_absolute : cppstring -> bool
}.

(** ** Paths as text *)

(** The pieces between separators, empty ones included; there is always one. *)
Fixpoint elements (s : cppstring) : list cppstring :=
  match s with
  | [] => [[]]
  | c :: s' =>
      if bool_decide (c = c_slash) then [] :: elements s'
      else match elements s' with e :: es => (c :: e) :: es | [] => [[c]] end
  end.

Definition has_parent_element (path : cppstring) : bool :=
  existsb (fun element => bool_decide (element = str "..")) (elements path).

Definition win32_would_trim (element : cppstring) : bool :=
  negb (bool_decide (element = [])) && negb (bool_decide (element = str ".")) && negb (bool_decide (element = str "..")) &&
  (bool_decide (last element = Some " "%char) || bool_decide (last element = Some "."%char)).
Definition has_element_win32_would_trim (path : cppstring) : bool := existsb win32_would_trim (elements path).

Definition is_root (s : cppstring) : bool :=
  bool_decide (s = str "/") ||
  (bool_decide (length s = 3) && bool_decide (s !! 1 = Some ":"%char) && bool_decide (s !! 2 = Some c_slash)).

(** On the reversed string. *)
Fixpoint trim_slashes (rs : cppstring) : cppstring :=
  match rs with
  | c :: ((_ :: _) as rs') => if bool_decide (c = c_slash) && negb (is_root (rev rs)) then trim_slashes rs' else rs
  | _ => rs
  end.
Definition trim_trailing_separator (s : cppstring) : cppstring := rev (trim_slashes (rev s)).

Definition has_wildcard (s : cppstring) : bool := has_char c_star s || has_char c_any s.

(** The prefixes [has_symlink_element] examines: up to each separator but a leading one,
    then the whole path.  [before] is what was passed, reversed. *)
Fixpoint prefixes_from (before s : cppstring) : list cppstring :=
  match s with
  | [] => [rev before]
  | c :: s' =>
      if bool_decide (c = c_slash) then rev before :: prefixes_from (c :: before) s'
      else prefixes_from (c :: before) s'
  end.
Definition prefixes (path : cppstring) : list cppstring :=
  match path with c :: s' => prefixes_from [c] s' | [] => [[]] end.

Definition is_root_name (prefix : cppstring) : bool :=
  bool_decide (prefix = []) || bool_decide (prefix = str "/") || is_root prefix || bool_decide (last prefix = Some ":"%char) ||
  (Nat.ltb 2 (length prefix) && bool_decide (prefix !! 0 = Some c_slash) && bool_decide (prefix !! 1 = Some c_slash) &&
   bool_decide (find prefix [c_slash] 2 = None)).

Fixpoint walk_prefixes (fs : filesystem) (l : list cppstring) : bool :=
  match l with
  | [] => false
  | prefix :: l' =>
      if is_root_name prefix then walk_prefixes fs l'
      else
        let '(st, ec) := symlink_status fs prefix in
        if bool_decide (st = file_not_found) then false
        else if ec || bool_decide (st = status_error) then true
        else if bool_decide (st = symlink_file) then true
        else walk_prefixes fs l'
  end.
Definition has_symlink_element (fs : filesystem) (path : cppstring) : bool := walk_prefixes fs (prefixes path).

Fixpoint path_glob_to_regex (glob : cppstring) : cppstring :=
  match glob with
  | [] => []
  | c :: glob' =>
      if bool_decide (c = c_star) then
        match glob' with
        | d :: glob'' =>
            if bool_decide (d = c_star) then str ".*" ++ path_glob_to_regex glob''
            else str "[^/]*" ++ path_glob_to_regex glob'
        | [] => str "[^/]*"
        end
      else (if bool_decide (c = c_any) then str "[^/]" else if is_meta c then [c_backslash; c] else [c]) ++ path_glob_to_regex glob'
  end.

Section PathPolicy.
Context `{boost_regex} `{boost_split} (win32 : bool).

Definition to_separators (s : cppstring) : cppstring :=
  if win32 then map (fun c => if bool_decide (c = c_backslash) then c_slash else c) s else s.

Definition canonical (fs : filesystem) (path : cppstring) : cppstring :=
  let input := to_separators path in
  let out := match weakly_canonical fs input with inl resolved => resolved | inr _ => lexically_normal fs input end in
  trim_trailing_separator (to_separators out).

Definition same_text (a b : cppstring) : bool := if win32 then iequals a b else bool_decide (a = b).

Definition is_under (dir file : cppstring) : bool :=
  if bool_decide (dir = []) then false
  else if same_text file dir then true
  else if Nat.leb (length file) (length dir) then false
  else if negb (same_text (substr file 0 (length dir)) dir) then false
  else if bool_decide (last dir = Some c_slash) then true
  else bool_decide (file !! length dir = Some c_slash).

(** [inr why] is [false] with its reason. *)
Definition resolve_physical (fs : filesystem) (token : cppstring) : cppstring + cppstring :=
  if has_nul token then inr why_nul
  else
    let input := to_separators token in
    let trimmed := str "it contains a path element ending in a space or a period, which Windows would silently rewrite" in
    if win32 && has_element_win32_would_trim input then inr trimmed
    else
      match weakly_canonical fs input with
      | inr message => inr (str "it could not be resolved (" ++ message ++ str ")")
      | inl canonical_path =>
        let resolved := trim_trailing_separator (to_separators canonical_path) in
        if bool_decide (resolved = []) || negb (is_absolute fs resolved) then inr (str "it is not an absolute path")
        else if has_parent_element resolved then inr (str "it could not be resolved to a path without a '..' element")
        else if win32 && has_element_win32_would_trim resolved then inr trimmed
        else if has_symlink_element fs resolved then inr (str "it passes through a symbolic link the resolver did not follow")
        else inl resolved
      end.

(** [s.rfind(c, pos)]: the last position up to [pos]. *)
Fixpoint rfind_upto (c : ascii) (s : cppstring) (pos i : nat) (best : option nat) : option nat :=
  match s with
  | [] => best
  | d :: s' => rfind_upto c s' pos (S i) (if bool_decide (d = c) && Nat.leb i pos then Some i else best)
  end.
(** [s.find_first_of("*?")] *)
Fixpoint first_wild (s : cppstring) (i : nat) : option nat :=
  match s with
  | [] => None
  | c :: s' => if bool_decide (c = c_star) || bool_decide (c = c_any) then Some i else first_wild s' (S i)
  end.

Definition resolve_glob_prefix (fs : filesystem) (item : cppstring) : cppstring :=
  let normalised := trim_trailing_separator (to_separators item) in
  let wild := default (length normalised) (first_wild normalised 0) in
  match rfind_upto c_slash normalised wild 0 None with
  | None | Some O => normalised
  | Some slash =>
      let prefix := substr normalised 0 slash in
      let rest := substr_from normalised slash in
      if has_wildcard prefix then normalised else canonical fs prefix ++ rest
  end.

Record path_entry := mkPathEntry { is_directory : bool; entry_text : cppstring; entry_pattern : option rx }.

(** [exists(status) && !is_directory(status)] without an error *)
Definition is_file (fs : filesystem) (item : cppstring) : bool :=
  let '(st, ec) := status fs item in
  negb ec && negb (bool_decide (st = status_error)) && negb (bool_decide (st = file_not_found)) &&
  negb (bool_decide (st = directory_file)).

(** [None]: the constructor of the expression threw, out of [set_allow_list]. *)
Definition make_path_entry (fs : filesystem) (item : cppstring) : option path_entry :=
  if negb (has_wildcard item) && negb (is_file fs item) then Some (mkPathEntry true (canonical fs item) None)
  else
    let t := if negb (has_wildcard item) then canonical fs item else resolve_glob_prefix fs item in
    r ← rx_compile win32 (path_glob_to_regex t); Some (mkPathEntry false t (Some r)).

Fixpoint path_entries (fs : filesystem) (raw : list cppstring) : option (list path_entry) :=
  match raw with
  | [] => Some []
  | item :: raw' =>
      let item := trim_space item in
      if bool_decide (item = []) then path_entries fs raw'
      else e ← make_path_entry fs item; es ← path_entries fs raw'; Some (e :: es)
  end.

Record path_policy := mkPathPolicy { path_base : policy; path_list : list path_entry }.

Definition new_path_policy (noun nouns settings_path : cppstring) : path_policy :=
  mkPathPolicy (new_policy noun nouns settings_path (negb win32)) [].

(** The new list is swapped in only when it is complete. *)
Definition path_set_allow_list (fs : filesystem) (value : cppstring) (p : path_policy) : path_policy * bool :=
  match path_entries fs (split_commas value) with
  | Some es => (mkPathPolicy (path_base p) es, true)
  | None => (p, false)
  end.
Definition on_path_base (f : policy -> policy) (p : path_policy) : path_policy := mkPathPolicy (f (path_base p)) (path_list p).

(** [None]: the matcher threw. *)
Fixpoint path_matches (resolved : cppstring) (es : list path_entry) : option bool :=
  match es with
  | [] => Some false
  | e :: es' =>
      match (if is_directory e then Some (is_under (entry_text e) resolved)
             else match entry_pattern e with Some r => rx_match resolved r | None => Some false end) with
      | None => None
      | Some true => Some true
      | Some false => path_matches resolved es'
      end
  end.

Definition path_refusal (p : path_policy) (token why : cppstring) : cppstring :=
  str "Refusing file '" ++ token ++ str "': " ++ why ++ str " (see [" ++ settings_path_ (path_base p) ++ str "] in the configuration)".

Definition path_resolve (fs : filesystem) (token : cppstring) (p : path_policy) : option decision :=
  match lookup_predefined token (path_base p) with
  | Some configured => Some (accept configured)
  | None =>
      if negb (bool_decide (config_error_ (path_base p) = [])) then Some (refuse (config_error_ (path_base p)))
      else match mode_ (path_base p) with
           | mode_any => Some (accept token)
           | mode_allowed =>
               match resolve_physical fs token with
               | inr why => Some (refuse (path_refusal p token why))
               | inl resolved =>
                   m ← path_matches resolved (path_list p);
                   Some (if (m : bool) then accept resolved
                         else refuse (path_refusal p token (str "it is not in 'allowed files'")))
               end
           | mode_predefined =>
               Some (refuse (path_refusal p token
                 (str "'file access' is set to predefined, so only a configured file name may be used")))
           end
  end.
End PathPolicy.

(** ** What the checks establish *)

(** [q] is the path itself or ends before one of its separators. *)
Definition path_prefix (q path : cppstring) : Prop := q = path \/ exists r, path = q ++ c_slash :: r.

(** Going down the path, no element that exists is a link or cannot be examined. *)
Definition link_free (fs : filesystem) (path : cppstring) : Prop :=
  forall q, path_prefix q path -> is_root_name q = false ->
    (forall q', path_prefix q' path -> is_root_name q' = false -> (length q' <= length q)%nat ->
      (symlink_status fs q').1 <> file_not_found) ->
    symlink_status fs q <> (symlink_file, false) /\ (symlink_status fs q).1 <> status_error /\ (symlink_status fs q).2 = false.

Lemma prefixes_from_spec before s q :
  q ∈ prefixes_from before s <->
  q = rev before ++ s \/ exists u r, s = u ++ c_slash :: r /\ q = rev before ++ u.
Proof.
  revert before. induction s as [|c s IH]; intros before; cbn [prefixes_from].
  { rewrite list_elem_of_singleton, app_nil_r. split; [auto|]. intros [?|(u & r & Hu & _)]; [done|]. by destruct u. }
  assert (Hr : rev (c :: before) = rev before ++ [c]) by done.
  case_bool_decide as Hc; [rewrite elem_of_cons|]; rewrite IH, Hr, <- !app_assoc; cbn [app].
  - subst c. split.
    + intros [->|[->|(u & r & -> & ->)]]; [|auto|].
      * right. exists [], s. by rewrite app_nil_r.
      * right. exists (c_slash :: u), r. by rewrite <- app_assoc.
    + intros [->|([|d u] & r & Hs & ->)]; [auto| |].
      * left. by rewrite app_nil_r.
      * injection Hs as <- ->. right. right. exists u, r. by rewrite <- app_assoc.
  - split.
    + intros [->|(u & r & -> & ->)]; [auto|]. right. exists (c :: u), r. by rewrite <- app_assoc.
    + intros [->|([|d u] & r & Hs & ->)]; [auto| |].
      * injection Hs as -> _. done.
      * injection Hs as <- ->. right. exists u, r. by rewrite <- app_assoc.
Qed.

Lemma prefixes_sorted before s : StronglySorted (fun q q' : cppstring => (length q < length q')%nat) (prefixes_from before s).
Proof.
  revert before. induction s as [|c s IH]; intros before; cbn [prefixes_from]; [by repeat constructor|].
  case_bool_decide; [|apply IH]. constructor; [apply IH|]. apply Forall_forall. intros q Hq%prefixes_from_spec.
  destruct Hq as [->|(u & r & _ & ->)]; rewrite !length_app, !length_rev; cbn; lia.
Qed.

(** A prefix that is not a root name is examined. *)
Lemma prefixes_complete path q : path_prefix q path -> is_root_name q = false -> q ∈ prefixes path.
Proof.
  intros Hq Hr. assert (Hne : q <> []) by (intros ->; done).
  destruct path as [|c s]; [destruct Hq as [->|[r Hr']]; [done | by destruct q]|].
  cbn [prefixes]. apply prefixes_from_spec. cbn [rev app]. destruct Hq as [->|[r Hp]]; [auto|].
  right. destruct q as [|d q]; [done|]. injection Hp as <- ->. by exists q, r.
Qed.
Lemma prefixes_sound path q : q ∈ prefixes path -> path_prefix q path.
Proof.
  destruct path as [|c s]; cbn [prefixes]; [intros ->%list_elem_of_singleton; by left|].
  intros [->|(u & r & -> & ->)]%prefixes_from_spec; [by left|]. right. exists r. cbn. done.
Qed.

Lemma walk_prefixes_false fs l : StronglySorted (fun q q' : cppstring => (length q < length q')%nat) l ->
  walk_prefixes fs l = false ->
  forall q, q ∈ l -> is_root_name q = false ->
    (forall q', q' ∈ l -> is_root_name q' = false -> (length q' <= length q)%nat -> (symlink_status fs q').1 <> file_not_found) ->
    symlink_status fs q <> (symlink_file, false) /\ (symlink_status fs q).1 <> status_error /\ (symlink_status fs q).2 = false.
Proof.
  induction 1 as [|p l Hs IH Hp]; [by intros _ q ?%not_elem_of_nil|]. cbn [walk_prefixes].
  rewrite Forall_forall in Hp. intros Hw q Hq Hr Hex. apply elem_of_cons in Hq as [->|Hq].
  - rewrite Hr in Hw. specialize (Hex p ltac:(left) Hr (le_n _)). destruct (symlink_status fs p) as [st ec]. cbn in *.
    rewrite bool_decide_eq_false_2 in Hw by done. destruct ec; [done|]. cbn in Hw.
    repeat case_bool_decide; try done. split_and!; [intros [= ->]; congruence | done | done].
  - assert (Hpq := Hp q Hq). destruct (is_root_name p) eqn:Hrp.
    { apply IH; auto. intros q' Hq'. apply Hex. by right. }
    assert (Hpe : (symlink_status fs p).1 <> file_not_found) by (apply Hex; [left | done | lia]).
    destruct (symlink_status fs p) as [st ec]. cbn in *. rewrite bool_decide_eq_false_2 in Hw by done.
    destruct (ec || bool_decide (st = status_error)); [done|]. case_bool_decide; [done|].
    apply IH; auto. intros q' Hq'. apply Hex. by right.
Qed.

Lemma has_symlink_element_sound fs path : has_symlink_element fs path = false -> link_free fs path.
Proof.
  intros Hw q Hq Hr Hex. unfold has_symlink_element in Hw.
  apply (walk_prefixes_false fs (prefixes path)); auto using prefixes_complete.
  - destruct path; [by repeat constructor | apply prefixes_sorted].
  - intros q' Hq'. apply Hex. by apply prefixes_sound.
Qed.

(** ** What a path glob means *)

Inductive path_glob : cppstring -> cppstring -> Prop :=
| pg_nil : path_glob [] []
| pg_char c p t : c <> c_star -> c <> c_any -> path_glob p t -> path_glob (c :: p) (c :: t)
| pg_any d p t : d <> c_slash -> path_glob p t -> path_glob (c_any :: p) (d :: t)
| pg_star p u t : head p <> Some c_star -> c_slash ∉ u -> path_glob p t -> path_glob (c_star :: p) (u ++ t)
| pg_stars p u t : path_glob p t -> path_glob (c_star :: c_star :: p) (u ++ t).

Fixpoint path_atoms (glob : cppstring) : list atom :=
  match glob with
  | [] => []
  | c :: glob' =>
      if bool_decide (c = c_star) then
        match glob' with
        | d :: glob'' => if bool_decide (d = c_star) then many cs_any :: path_atoms glob'' else many cs_not_slash :: path_atoms glob'
        | [] => [many cs_not_slash]
        end
      else (if bool_decide (c = c_any) then one cs_not_slash else one (cs_char c)) :: path_atoms glob'
  end.

(** Induction that follows the two-character step of the translation. *)
Lemma glob_ind2 (P : cppstring -> Prop) :
  P [] ->
  (forall p, head p <> Some c_star -> P p -> P (c_star :: p)) ->
  (forall p, P p -> P (c_star :: c_star :: p)) ->
  (forall c p, c <> c_star -> P p -> P (c :: p)) ->
  forall p, P p.
Proof.
  intros H0 H1 H2 H3 p. assert (HP : P p /\ forall c, P (c :: p)); [|apply HP].
  induction p as [|d p [IH1 IH2]].
  - split; [done|]. intros c. destruct (decide (c = c_star)) as [->|]; auto.
  - split; [auto|]. intros c. destruct (decide (c = c_star)) as [->|]; [|auto].
    destruct (decide (d = c_star)) as [->|]; [auto|]. apply H1; [cbn; congruence | auto].
Qed.

Lemma path_atoms_star p : head p <> Some c_star -> path_atoms (c_star :: p) = many cs_not_slash :: path_atoms p.
Proof.
  destruct p as [|d p]; cbn [head path_atoms]; [done|]. intros Hd.
  assert (Hb : bool_decide (d = c_star) = false) by (apply bool_decide_eq_false_2; congruence). by rewrite Hb.
Qed.
Lemma path_atoms_char c p : c <> c_star ->
  path_atoms (c :: p) = (if bool_decide (c = c_any) then one cs_not_slash else one (cs_char c)) :: path_atoms p.
Proof. intros. cbn [path_atoms]. by rewrite bool_decide_eq_false_2. Qed.

Lemma path_glob_to_regex_atoms glob : path_glob_to_regex glob = print_atoms (path_atoms glob).
Proof.
  induction glob as [|p Hp IH|p IH|c p Hc IH] using glob_ind2; [done| | |].
  - rewrite path_atoms_star by done. destruct p as [|d p]; [done|].
    cbn [path_glob_to_regex] in *. assert (Hd : bool_decide (d = c_star) = false) by (apply bool_decide_eq_false_2; cbn in Hp; congruence).
    rewrite Hd in *. rewrite IH. reflexivity.
  - cbn [path_glob_to_regex path_atoms]. rewrite !bool_decide_eq_true_2 by done. rewrite IH. reflexivity.
  - rewrite path_atoms_char by done. cbn [path_glob_to_regex]. rewrite bool_decide_eq_false_2 by done. rewrite IH.
    by case_bool_decide.
Qed.

Lemma path_atoms_plain glob : Forall plain_atom (path_atoms glob).
Proof.
  induction glob as [|p Hp IH|p IH|c p Hc IH] using glob_ind2; [constructor| | |].
  - rewrite path_atoms_star by done. by constructor.
  - cbn [path_atoms]. rewrite !bool_decide_eq_true_2 by done. by constructor.
  - rewrite path_atoms_char by done. constructor; [|done]. case_bool_decide; cbn; auto.
Qed.

Lemma not_slash_forall icase u : Forall (fun d => in_set icase d cs_not_slash = true) u <-> c_slash ∉ u.
Proof.
  induction u as [|d u IH]; [split; [by intros _ ?%not_elem_of_nil | done]|]. rewrite Forall_cons, IH, not_elem_of_cons. cbn.
  rewrite negb_true_iff, bool_decide_eq_false. change "/"%char with c_slash. intuition congruence.
Qed.

Lemma path_glob_star_iff p t : head p <> Some c_star ->
  path_glob (c_star :: p) t <-> exists u v, t = u ++ v /\ c_slash ∉ u /\ path_glob p v.
Proof.
  intros Hp. split; [|intros (u & v & -> & ? & ?); by constructor]. inversion 1; simplify_eq; try done. eauto.
Qed.
Lemma path_glob_stars_iff p t : path_glob (c_star :: c_star :: p) t <-> exists u v, t = u ++ v /\ path_glob p v.
Proof. split; [|intros (u & v & -> & ?); by constructor]. inversion 1; simplify_eq; cbn in *; try done; eauto. Qed.
Lemma path_glob_any_iff p t : path_glob (c_any :: p) t <-> exists d t', t = d :: t' /\ d <> c_slash /\ path_glob p t'.
Proof. split; [|intros (d & t' & -> & ? & ?); by constructor]. inversion 1; simplify_eq; eauto. Qed.
Lemma path_glob_char_iff c p t : c <> c_star -> c <> c_any -> path_glob (c :: p) t <-> exists t', t = c :: t' /\ path_glob p t'.
Proof. intros. split; [|intros (t' & -> & ?); by constructor]. inversion 1; simplify_eq; eauto. Qed.

Lemma path_atoms_correct icase glob s :
  atoms_match icase (path_atoms glob) s = true <-> path_glob (fold_case icase glob) (fold_case icase s).
Proof.
  assert (Hf : forall t, fold_case icase t = map (fun c => if icase then tolower c else c) t).
  { intros t. destruct icase; cbn; [done|]. by rewrite map_id. }
  rewrite !Hf. clear Hf. set (f := fun c => if icase then tolower c else c). revert s.
  assert (Hsp : forall d, d = c_star \/ d = c_any \/ d = c_slash -> forall c, f c = d <-> c = d).
  { intros d Hd c. apply fold_case_inj_special. intros n ->. destruct Hd as [->|[->| ->]]; cbv; lia. }
  assert (Hfix : f c_star = c_star /\ f c_any = c_any) by (split; apply Hsp; auto). destruct Hfix as [Hs1 Ha1].
  assert (Hsl : forall u, c_slash ∉ map f u <-> c_slash ∉ u).
  { intros u. rewrite list_elem_of_fmap. split; intros Hn Hin; apply Hn; [exists c_slash; split; [symmetry; apply Hsp; auto | done]|].
    destruct Hin as (y & Hy & Hin). symmetry in Hy. rewrite (Hsp c_slash) in Hy by auto. by rewrite Hy in Hin. }
  assert (Hhd : forall p, head (map f p) <> Some c_star <-> head p <> Some c_star).
  { intros [|d p]; cbn; [done|]. split; intros Hn [= Hd]; apply Hn; f_equal; apply (Hsp c_star); auto. }
  induction glob as [|p Hp IH|p IH|c p Hc IH] using glob_ind2; intros s.
  - cbn. rewrite bool_decide_eq_true. split; [intros ->; constructor|]. inversion 1. by destruct s.
  - rewrite path_atoms_star, atoms_match_many by done. cbn [map]. rewrite Hs1, path_glob_star_iff by (by apply Hhd). split.
    + intros (u & v & -> & Hu & Hv). exists (map f u), (map f v). rewrite map_app, Hsl, <- IH. by rewrite <- (not_slash_forall icase).
    + intros (u & v & He & Hu & Hv). apply map_eq_app in He as (u' & v' & -> & <- & <-). exists u', v'.
      by rewrite IH, not_slash_forall, <- Hsl.
  - cbn [path_atoms]. rewrite !bool_decide_eq_true_2 by done. rewrite atoms_match_many. cbn [map]. rewrite Hs1, path_glob_stars_iff. split.
    + intros (u & v & -> & _ & Hv). exists (map f u), (map f v). by rewrite map_app, <- IH.
    + intros (u & v & He & Hv). apply map_eq_app in He as (u' & v' & -> & <- & <-). exists u', v'. rewrite IH.
      split_and!; [done| |done]. by apply Forall_true.
  - rewrite path_atoms_char by done. cbn [map]. case_bool_decide as Ha.
    + subst c. rewrite Ha1, path_glob_any_iff. cbn [atoms_match]. destruct s as [|d s]; cbn [map].
      { split; [done|]. by intros (? & ? & ? & _). }
      rewrite andb_true_iff, IH. cbn [in_set]. rewrite negb_true_iff, bool_decide_eq_false. change "/"%char with c_slash.
      rewrite <- (Hsp c_slash) by auto. split; [intros [? ?]; eauto | intros (? & ? & [= <- <-] & ? & ?); auto].
    + rewrite path_glob_char_iff by (rewrite Hsp; auto). cbn [atoms_match]. destruct s as [|d s]; cbn [map].
      { split; [done|]. by intros (? & ? & _). }
      rewrite andb_true_iff, IH. assert (Hd : in_set icase d (cs_char c) = true <-> f c = f d).
      { unfold f. cbn. destruct icase; by rewrite bool_decide_eq_true. }
      rewrite Hd. split; [intros [-> ?]; eauto | intros (? & [= -> <-] & ?); auto].
Qed.

(** ** The gate *)

Lemma walk_prefixes_true fs l : StronglySorted (fun q q' : cppstring => (length q < length q')%nat) l ->
  walk_prefixes fs l = true ->
  exists q, q ∈ l /\ is_root_name q = false /\
    (forall q', q' ∈ l -> is_root_name q' = false -> (length q' <= length q)%nat -> (symlink_status fs q').1 <> file_not_found) /\
    ~ (symlink_status fs q <> (symlink_file, false) /\ (symlink_status fs q).1 <> status_error /\ (symlink_status fs q).2 = false).
Proof.
  induction 1 as [|p l Hs IH Hp]; [done|]. cbn [walk_prefixes]. rewrite Forall_forall in Hp.
  assert (Hhere : is_root_name p = false -> (symlink_status fs p).1 <> file_not_found ->
    forall q', q' ∈ p :: l -> is_root_name q' = false -> (length q' <= length p)%nat -> (symlink_status fs q').1 <> file_not_found).
  { intros _ Hx q' [->|Hq']%elem_of_cons _ Hl; [done|]. specialize (Hp q' Hq'). lia. }
  assert (Hlater : walk_prefixes fs l = true -> (is_root_name p = true \/ (symlink_status fs p).1 <> file_not_found) ->
    exists q, q ∈ p :: l /\ is_root_name q = false /\
      (forall q', q' ∈ p :: l -> is_root_name q' = false -> (length q' <= length q)%nat -> (symlink_status fs q').1 <> file_not_found) /\
      ~ (symlink_status fs q <> (symlink_file, false) /\ (symlink_status fs q).1 <> status_error /\ (symlink_status fs q).2 = false)).
  { intros Hw Hx. destruct (IH Hw) as (q & Hq & Hr & Hex & Hbad). exists q. split_and!; [by right | done | | done].
    intros q' [->|Hq']%elem_of_cons Hr' Hl; [destruct Hx; congruence || done | by apply Hex]. }
  destruct (is_root_name p) eqn:Hrp; [intros Hw; apply Hlater; auto|].
  remember (symlink_status fs p) as x eqn:Est. destruct x as [st ec]. symmetry in Est. cbn [fst] in *. case_bool_decide as H1; [done|].
  destruct (ec || bool_decide (st = status_error)) eqn:H2; [|apply orb_false_iff in H2 as [-> _]; case_bool_decide as H3].
  - intros _. exists p. split_and!; [left | done | by apply Hhere |]. rewrite Est. cbn. intros (_ & Hn & ->). cbn in H2.
    by apply bool_decide_eq_true in H2.
  - intros _. exists p. split_and!; [left | done | by apply Hhere | rewrite Est; subst st; tauto].
  - intros Hw. apply Hlater; [done | by right].
Qed.

Lemma link_free_iff fs path : has_symlink_element fs path = false <-> link_free fs path.
Proof.
  split; [apply has_symlink_element_sound|]. intros Hl. apply not_true_iff_false. intros Hw.
  apply walk_prefixes_true in Hw as (q & Hq & Hr & Hex & Hbad); [|destruct path; [by repeat constructor | apply prefixes_sorted]].
  apply Hbad, Hl; [by apply prefixes_sound | done|]. intros q' Hq' Hr'. apply Hex; [by apply prefixes_complete | done].
Qed.

Section Refines.
Context `{boost_regex} `{boost_split} (win32 : bool).

(** The path a token stands for: what the resolver makes of it, absolute, without a
    parent element and without a link left in it. *)
Record physical (fs : filesystem) (token v : cppstring) : Prop := {
  ph_no_nul : Ascii.zero ∉ token;
  ph_resolved : exists c, weakly_canonical fs (to_separators win32 token) = inl c /\
    v = trim_trailing_separator (to_separators win32 c);
  ph_absolute : v <> [] /\ is_absolute fs v = true;
  ph_no_parent : str ".." ∉ elements v;
  ph_links : link_free fs v;
  ph_win32 : win32 = true ->
    Forall (fun e => win32_would_trim e = false) (elements (to_separators win32 token) ++ elements v)
}.

Lemma existsb_false {A} (f : A -> bool) l : existsb f l = false <-> Forall (fun x => f x = false) l.
Proof.
  induction l as [|x l IH]; cbn; [done|]. rewrite orb_false_iff, IH, Forall_cons. done.
Qed.

Lemma has_parent_element_false path : has_parent_element path = false <-> str ".." ∉ elements path.
Proof.
  unfold has_parent_element. rewrite existsb_false, Forall_forall. split.
  - intros Hx Hin. specialize (Hx _ Hin). by rewrite bool_decide_eq_false in Hx.
  - intros Hx e He. apply bool_decide_eq_false_2. by intros ->.
Qed.

Lemma resolve_physical_correct fs token v : resolve_physical win32 fs token = inl v <-> physical fs token v.
Proof.
  unfold resolve_physical, has_nul. destruct (has_char Ascii.zero token) eqn:Hz.
  { split; [done|]. intros []. unfold has_char in Hz. by rewrite bool_decide_eq_true in Hz. }
  unfold has_char in Hz. rewrite bool_decide_eq_false in Hz. cbv zeta.
  assert (Hw : forall path, win32 && has_element_win32_would_trim path = false <->
    (win32 = true -> Forall (fun e => win32_would_trim e = false) (elements path))).
  { intros path. unfold has_element_win32_would_trim. rewrite <- existsb_false. destruct win32; cbn; [tauto | split; done]. }
  destruct (win32 && has_element_win32_would_trim (to_separators win32 token)) eqn:Hw1.
  { split; [done|]. intros [? ? ? ? ? Hx]. apply not_false_iff_true in Hw1. destruct Hw1. apply Hw.
    intros Hwin. by apply Hx, Forall_app in Hwin as [? _]. }
  destruct (weakly_canonical fs (to_separators win32 token)) as [c|m] eqn:Hc.
  2: { split; [done|]. intros [? (c & Hc' & _)]. congruence. }
  set (r := trim_trailing_separator (to_separators win32 c)).
  assert (Hphys : forall v, physical fs token v <-> v = r /\ r <> [] /\ is_absolute fs r = true /\ str ".." ∉ elements r /\
    win32 && has_element_win32_would_trim r = false /\ link_free fs r).
  { intros w. rewrite Hw. rewrite Hw in Hw1. split.
    - intros [? (c' & Hc' & ->) [? ?] ? ? Hx]. rewrite Hc in Hc'. injection Hc' as <-. split_and!; try done.
      intros Hwin. by apply Hx, Forall_app in Hwin as [_ ?].
    - intros (-> & ? & ? & ? & Hx & ?). constructor; try done; [by exists c|]. intros Hwin. apply Forall_app. auto. }
  rewrite Hphys. case_bool_decide as Hr; cbn [orb]; [split; [done | tauto]|].
  destruct (is_absolute fs r) eqn:Ha; cbn [negb]; [|split; [done | intuition congruence]].
  destruct (has_parent_element r) eqn:Hp.
  { split; [done|]. intros (_ & _ & _ & Hx & _). apply has_parent_element_false in Hx. congruence. }
  destruct (win32 && has_element_win32_would_trim r) eqn:Hw2; [split; [done | intuition congruence]|].
  destruct (has_symlink_element fs r) eqn:Hl.
  { split; [done|]. intros (_ & _ & _ & _ & _ & Hx). apply link_free_iff in Hx. congruence. }
  apply link_free_iff in Hl. apply has_parent_element_false in Hp. split; [by intros [= <-] | by intros (-> & _)].
Qed.

(** [file] is [dir] or lies below it. *)
Definition under (dir file : cppstring) : Prop :=
  dir <> [] /\ (fold_case win32 file = fold_case win32 dir \/
    exists u rest, file = u ++ rest /\ rest <> [] /\ fold_case win32 u = fold_case win32 dir /\
      (last dir = Some c_slash \/ head rest = Some c_slash)).

Lemma same_text_iff a b : same_text win32 a b = true <-> fold_case win32 a = fold_case win32 b.
Proof. unfold same_text, iequals, fold_case. by destruct win32; rewrite bool_decide_eq_true. Qed.
Lemma length_fold_case s : length (fold_case win32 s) = length s.
Proof. unfold fold_case. destruct win32; [apply length_to_lower | done]. Qed.

Lemma is_under_correct dir file : is_under win32 dir file = true <-> under dir file.
Proof.
  unfold is_under, under, substr. rewrite drop_0. case_bool_decide as Hd; [split; [done | tauto]|].
  destruct (same_text win32 file dir) eqn:Hs; [apply same_text_iff in Hs; tauto|].
  assert (Hne : fold_case win32 file <> fold_case win32 dir) by (rewrite <- same_text_iff; congruence). clear Hs.
  assert (Hcut : forall u rest, file = u ++ rest -> fold_case win32 u = fold_case win32 dir ->
    u = take (length dir) file /\ rest = drop (length dir) file /\ length u = length dir).
  { intros u rest -> Hu. apply (f_equal length) in Hu. rewrite !length_fold_case in Hu. rewrite <- Hu.
    by rewrite take_app_length, drop_app_length. }
  destruct (Nat.leb_spec (length file) (length dir)) as [Hl|Hl].
  { split; [done|]. intros (_ & [?|(u & rest & Hf & Hr & Hu & _)]); [done|].
    destruct (Hcut u rest Hf Hu) as (_ & _ & Hlen). rewrite Hf, length_app, Hlen in Hl. destruct rest; [done | cbn in Hl; lia]. }
  destruct (same_text win32 (take (length dir) file) dir) eqn:Hp; cbn [negb].
  2: { split; [done|]. intros (_ & [?|(u & rest & Hf & Hr & Hu & _)]); [done|].
       destruct (Hcut u rest Hf Hu) as (-> & _ & _). apply same_text_iff in Hu. congruence. }
  apply same_text_iff in Hp.
  assert (Hhd : head (drop (length dir) file) = file !! length dir).
  { rewrite <- (Nat.add_0_r (length dir)) at 2. rewrite <- lookup_drop. by destruct (drop _ file). }
  transitivity (last dir = Some c_slash \/ file !! length dir = Some c_slash).
  { case_bool_decide; [tauto|]. rewrite bool_decide_eq_true. tauto. }
  split.
  - intros Hx. split; [done|]. right. exists (take (length dir) file), (drop (length dir) file). rewrite take_drop, Hhd.
    split_and!; [done| |done|done]. intros He. apply (f_equal length) in He. rewrite length_drop in He. cbn in He. lia.
  - intros (_ & [?|(u & rest & Hf & Hr & Hu & Hx)]); [done|]. destruct (Hcut u rest Hf Hu) as (_ & -> & _). by rewrite Hhd in Hx.
Qed.

(** What an entry of the list covers, read under the file system of the load. *)
Definition path_covers (fs : filesystem) (e v : cppstring) : Prop :=
  if has_wildcard e then path_glob (fold_case win32 (resolve_glob_prefix win32 fs e)) (fold_case win32 v)
  else if is_file fs e then path_glob (fold_case win32 (canonical win32 fs e)) (fold_case win32 v)
  else under (canonical win32 fs e) v.

Record path_gate := mkPathGate { pg_gate : gate; pg_fs : filesystem }.
Definition path_gate_step (g : path_gate) (fo : filesystem * gate_op) : path_gate :=
  let '(fs, o) := fo in
  mkPathGate (gate_step listed (pg_gate g) o) (match o with op_list _ => fs | _ => pg_fs g end).

Inductive path_permits (fs : filesystem) (g : path_gate) (token : cppstring) : cppstring -> Prop :=
| path_by_name v : g_named (pg_gate g) !! token = Some v -> path_permits fs g token v
| path_by_any : g_named (pg_gate g) !! token = None -> g_mode (pg_gate g) = Some mode_any -> path_permits fs g token token
| path_by_list e v : g_named (pg_gate g) !! token = None -> g_mode (pg_gate g) = Some mode_allowed ->
    physical fs token v -> e ∈ g_list (pg_gate g) -> path_covers (pg_fs g) e v -> path_permits fs g token v.

Definition path_step (p : path_policy) (fo : filesystem * gate_op) : path_policy :=
  let '(fs, o) := fo in
  match o with
  | op_list v => (path_set_allow_list win32 fs v p).1
  | op_mode v => on_path_base (set_mode v) p
  | op_name n v => on_path_base (add_predefined n v) p
  | op_reset => on_path_base policy_reset p
  end.

Definition path_entry_ok (fs : filesystem) (e : cppstring) (x : path_entry) : Prop :=
  if negb (has_wildcard e) && negb (is_file fs e) then is_directory x = true /\ entry_text x = canonical win32 fs e
  else is_directory x = false /\ exists r, entry_pattern x = Some r /\
    rx_compile win32 (print_atoms (path_atoms
      (if has_wildcard e then resolve_glob_prefix win32 fs e else canonical win32 fs e))) = Some r.

Lemma path_entries_ok fs raw :
  exists es, path_entries win32 fs raw = Some es /\
    Forall2 (path_entry_ok fs) (filter (fun e => e <> []) (map trim_space raw)) es.
Proof.
  induction raw as [|item raw (es & He & Hes)]; [exists []; by constructor|]. cbn [path_entries map]. rewrite filter_cons.
  repeat case_decide; case_bool_decide; try congruence; try (by eexists).
  unfold make_path_entry, path_entry_ok. set (t := trim_space item).
  destruct (negb (has_wildcard t) && negb (is_file fs t)) eqn:Hd; cbn [mbind option_bind].
  { rewrite He. cbn. eexists. split; [done|]. constructor; [|done]. unfold path_entry_ok. by rewrite Hd. }
  set (g := if negb (has_wildcard t) then _ else _).
  destruct (rx_compile_atoms win32 (path_atoms g)) as [r Hr]; [apply path_atoms_plain|].
  rewrite path_glob_to_regex_atoms, Hr. cbn. rewrite He. cbn. eexists. split; [done|]. constructor; [|done].
  unfold path_entry_ok. rewrite Hd. split; [done|]. exists r. split; [done|]. subst g. by destruct (has_wildcard t).
Qed.

Lemma path_matches_correct fs es xs v b : Forall2 (path_entry_ok fs) es xs -> path_matches win32 v xs = Some b ->
  b = true <-> exists e, e ∈ es /\ path_covers fs e v.
Proof.
  induction 1 as [|e x es xs Hx Hes IH]; cbn [path_matches].
  { intros [= <-]. split; [done|]. intros (e & He & _). by apply not_elem_of_nil in He. }
  set (hit := if is_directory x then _ else _).
  assert (Hh : forall m, hit = Some m -> m = true <-> path_covers fs e v).
  { intros m Hm. subst hit. unfold path_entry_ok in Hx. unfold path_covers.
    destruct (negb (has_wildcard e) && negb (is_file fs e)) eqn:Hd.
    - destruct Hx as [Hdir Ht]. rewrite Hdir, Ht in Hm. injection Hm as <-. apply andb_prop in Hd as [H1%negb_true_iff H2%negb_true_iff].
      rewrite H1, H2. apply is_under_correct.
    - destruct Hx as (Hdir & r & Hr & Hc). rewrite Hdir, Hr in Hm.
      apply (rx_match_atoms _ _ _ _ _ (path_atoms_plain _) Hc) in Hm. rewrite Hm, path_atoms_correct.
      destruct (has_wildcard e); [done|]. cbn in Hd. apply negb_false_iff in Hd. by rewrite Hd. }
  setoid_rewrite elem_of_cons. destruct hit as [[]|]; [| |done].
  - intros [= <-]. split; [|done]. intros _. exists e. split; [auto|]. by apply (Hh true).
  - intros Hb. rewrite (IH Hb). split; [intros (e' & ? & ?); eauto|].
    intros (e' & [->|He] & Hcov); [|eauto]. by apply (Hh false) in Hcov.
Qed.

Definition path_stands (p : path_policy) (g : path_gate) : Prop :=
  stands_for (path_base p) (pg_gate g) /\ Forall2 (path_entry_ok (pg_fs g)) (g_list (pg_gate g)) (path_list p).

Lemma path_run_stands ops p g : path_stands p g ->
  path_stands (fold_left path_step ops p) (fold_left path_gate_step ops g).
Proof.
  revert p g. induction ops as [|[fs o] ops IH]; intros p g Hp; [done|]. cbn [fold_left]. apply IH. clear IH.
  destruct Hp as [[Hn Hm] He]. destruct o as [v|v|n v|]; cbn [path_step path_gate_step].
  - split; [by apply set_mode_stands | done].
  - unfold path_set_allow_list. destruct (path_entries_ok fs (split_commas v)) as (es & -> & Hes). split; [by constructor | done].
  - split; [constructor; cbn; [by rewrite Hn | done] | done].
  - split; [by constructor | done].
Qed.

(** C33. A file argument is let through exactly as the gate does: a predefined name as its
    configured path in every mode, one that is not understood included; anything in mode any;
    and in mode allowed the path the resolver gives for a token without NUL when it is absolute,
    has no parent element, no element that exists along it is a link or unreadable, on Windows
    no element of the token or the path ends in a blank or period that Windows would drop, and
    an entry of the list covers it: a directory with everything below it element by element, an
    existing file, or a glob in which * and ? stay within one directory and ** crosses
    directories; the path let through is the one that was examined. Only a matcher that gives
    up, in mode allowed, leaves no answer. *)
Theorem path_policy_refines_gate (noun nouns path : cppstring) (fs0 fs : filesystem)
    (ops : list (filesystem * gate_op)) (token : cppstring) :
  let p := fold_left path_step ops (new_path_policy win32 noun nouns path) in
  let g := fold_left path_gate_step ops (mkPathGate new_gate fs0) in
  (forall d, path_resolve win32 fs token p = Some d -> forall v, d = accept v <-> path_permits fs g token v) /\
  (path_resolve win32 fs token p = None -> g_mode (pg_gate g) = Some mode_allowed).
Proof.
  cbv zeta. destruct (path_run_stands ops (new_path_policy win32 noun nouns path) (mkPathGate new_gate fs0)) as [[Hn Hm] He];
    [by repeat constructor|]. set (p := fold_left path_step ops _) in *. set (g := fold_left _ ops (mkPathGate _ _)) in *.
  unfold path_resolve, lookup_predefined. rewrite Hn. destruct (g_named (pg_gate g) !! token) as [w|] eqn:Hw.
  { split; [|done]. intros d [= <-] v. split; [intros [= ->]; by apply path_by_name | inversion 1; congruence]. }
  destruct (bool_decide (config_error_ (path_base p) = [])); cbn [negb].
  2: { split; [|done]. intros d [= <-] v. split; [done | inversion 1; congruence]. }
  destruct (mode_ (path_base p)).
  - split; [|done]. intros d [= <-] v. split; [intros [= <-]; by apply path_by_any | inversion 1; congruence].
  - destruct (resolve_physical win32 fs token) as [r|why] eqn:Hr.
    2: { split; [|done]. intros d [= <-] v. split; [done|]. inversion 1 as [| |? ? ? ? Hph]; try congruence.
         apply resolve_physical_correct in Hph. congruence. }
    destruct (path_matches win32 r (path_list p)) as [m|] eqn:Hmt; cbn; [|split; done].
    pose proof (path_matches_correct _ _ _ _ _ He Hmt) as Hiff. split; [|done]. intros d [= <-] v.
    assert (Hv : path_permits fs g token v <-> v = r /\ m = true).
    { rewrite Hiff. split.
      - inversion 1 as [| |e v' ? ? Hph Hin Hc]; subst; try congruence. apply resolve_physical_correct in Hph. rewrite Hr in Hph.
        injection Hph as ->. split; [done|]. by exists e.
      - intros (-> & e & Hin & Hc). apply resolve_physical_correct in Hr. by eapply path_by_list. }
    rewrite Hv. destruct m; [split; [intros [= <-]; done | intros [-> _]; done] | split; [done | by intros [_ ?]]].
  - split; [|done]. intros d [= <-] v. split; [done | inversion 1; congruence].
Qed.
End Refines.

(** A Linux machine with /var/log, and a link /var/log/out in it; the resolver cancels
    [nonexist/..] without looking at what follows. *)
Definition demo_fs : filesystem := {|
  weakly_canonical p := if bool_decide (p = str "/var/log/nonexist/../out/shadow") then inl (str "/var/log/out/shadow") else inl p;
  lexically_normal p := p;
  symlink_status p := if bool_decide (p = str "/var/log/out") then (symlink_file, false)
                      else if bool_decide (p = str "/var/log/new/app.log") then (file_not_found, true) else (directory_file, false);
  status p := if bool_decide (p = str "/var/log") then (directory_file, false) else (file_not_found, true);
  is_absolute p := bool_decide (head p = Some c_slash)
|}.
Definition log_ops : list (filesystem * gate_op) := [(demo_fs, op_mode (str "allowed")); (demo_fs, op_list (str "/var/log"))].

Lemma path_policy_refines_gate_witness :
  path_permits false demo_fs (fold_left path_gate_step log_ops (mkPathGate new_gate demo_fs))
    (str "/var/log/new/app.log") (str "/var/log/new/app.log") /\
  ~ path_permits false demo_fs (fold_left path_gate_step log_ops (mkPathGate new_gate demo_fs))
      (str "/var/log/nonexist/../out/shadow") (str "/var/log/out/shadow") /\
  ~ path_permits false demo_fs (fold_left path_gate_step log_ops (mkPathGate new_gate demo_fs))
      (str "/var/logger/x") (str "/var/logger/x").
Proof.
  pose proof (path_policy_refines_gate false (str "file") (str "files") (str "/settings/logfile") demo_fs demo_fs log_ops) as H.
  split_and!.
  - apply (proj1 (H _) (accept (str "/var/log/new/app.log"))); [vm_compute; reflexivity | reflexivity].
  - intros Hp. apply (proj1 (H (str "/var/log/nonexist/../out/shadow")) _ ltac:(vm_compute; reflexivity)) in Hp. discriminate.
  - intros Hp. apply (proj1 (H (str "/var/logger/x")) _ ltac:(vm_compute; reflexivity)) in Hp. discriminate.
Defined.
