(* ===== verification/ArgvQuote.v ===== *)
(** The command line of an external script on Windows: include/process/argv_quote.cpp.

    A [std::wstring] is a list of code units.  [parse_command_line] is the reader at the
    other end, as Microsoft documents it for the C runtime and CommandLineToArgvW; the
    quoting is correct when it gives the arguments back.  The conversion from UTF-8 and
    the path operations of boost::filesystem are parameters. *)

From stdpp Require Import base list.
From Stdlib Require Import Ascii ZArith Lia.
From Stdlib Require String.
From S2P Require Import Prelude Strings.
Import String.StringSyntax.

Local Open Scope Z_scope.

Abbreviation wstring := (list Z).
Definition w_backslash : Z := 92.
Definition w_quote : Z := 34.
Definition w_blank : Z := 32.
Definition w_tab : Z := 9.

(** ** quote_argv_w *)

(** Blank, tab, newline, vertical tab and the double quote. *)
Definition needs_quotes (c : Z) : bool := bool_decide (c ∈ [w_blank; w_tab; 10; 11; w_quote]).

(** The loop; [backslashes] is the length of the run just passed. *)
Fixpoint quote_loop (arg : wstring) (backslashes : nat) : wstring :=
  match arg with
  | [] => replicate (backslashes * 2) w_backslash
  | c :: arg' =>
      if c =? w_backslash then quote_loop arg' (S backslashes)
      else if c =? w_quote then
        replicate (backslashes * 2) w_backslash ++ [w_backslash; w_quote] ++ quote_loop arg' 0
      else replicate backslashes w_backslash ++ [c] ++ quote_loop arg' 0
  end.

Definition quote_argv_w (arg : wstring) : wstring :=
  if negb (bool_decide (arg = [])) && negb (existsb needs_quotes arg) then arg
  else [w_quote] ++ quote_loop arg 0 ++ [w_quote].

Fixpoint join_quoted (args : list wstring) : wstring :=
  match args with
  | [] => []
  | arg :: args' => (w_blank :: quote_argv_w arg) ++ join_quoted args'
  end.
(** [build_command_line_w], with [utf8::cvt<std::wstring>] as an argument. *)
Definition build_command_line_w (cvt : cppstring -> wstring) (argv : list cppstring) : wstring :=
  match map cvt argv with
  | [] => []
  | arg :: args => quote_argv_w arg ++ join_quoted args
  end.

(** ** resolve_command_line *)

Section Rooting.
(** [names_a_root], [path::has_parent_path] and [path / path] of boost::filesystem. *)
Context (names_a_root has_parent_path : cppstring -> bool) (join_path : cppstring -> cppstring -> cppstring).

Definition resolve_application_path (root_path argv0 : cppstring) : cppstring :=
  if bool_decide (argv0 = []) || bool_decide (root_path = []) then argv0
  else if names_a_root argv0 then argv0
  else if negb (has_parent_path argv0) then argv0
  else join_path root_path argv0.

Definition is_gap (c : ascii) : bool := bool_decide (c = c_blank) || bool_decide (c = c_tab).

(** [find_first_of] a blank or tab, as the text before it and from it. *)
Fixpoint span_token (s : cppstring) : cppstring * cppstring :=
  match s with
  | c :: s' => if is_gap c then ([], s) else let '(t, r) := span_token s' in (c :: t, r)
  | [] => ([], [])
  end.
Fixpoint span_gaps (s : cppstring) : cppstring * cppstring :=
  match s with
  | c :: s' => if is_gap c then let '(g, r) := span_gaps s' in (c :: g, r) else ([], s)
  | [] => ([], [])
  end.
(** The text before a quote and after it; [None] when there is none. *)
Fixpoint span_quote (s : cppstring) : option (cppstring * cppstring) :=
  match s with
  | c :: s' => if bool_decide (c = c_dquote) then Some ([], s') else '(t, r) ← span_quote s'; Some (c :: t, r)
  | [] => None
  end.

Definition resolve_command_line (root_path command : cppstring) : cppstring :=
  let '(lead, body) := span_gaps command in
  match body with
  | [] => command
  | c :: body' =>
      match (if bool_decide (c = c_dquote) then span_quote body' else Some (span_token body)) with
      | None => command
      | Some (token, rest) =>
          let rooted := resolve_application_path root_path token in
          if bool_decide (rooted = token) then command
          else
            let quoted := if existsb is_gap rooted then [c_dquote] ++ rooted ++ [c_dquote] else rooted in
            lead ++ quoted ++ rest
      end
  end.
End Rooting.

(** ** The reader *)

Definition is_wgap (c : Z) : bool := (c =? w_blank) || (c =? w_tab).

(** An argument in progress; [None] between arguments. *)
Definition so_far (cur : option wstring) : wstring := match cur with Some a => a | None => [] end.
Definition emit (cur : option wstring) (rest : list wstring) : list wstring :=
  match cur with Some a => a :: rest | None => rest end.

(** The arguments after the first: a run of backslashes is literal unless a quote follows;
    then every pair is one backslash, and an odd one makes the quote literal.  A quote
    toggles quoting, and a doubled quote inside quotes is a literal quote. *)
Fixpoint parse_args (s : wstring) (in_quotes : bool) (backslashes : nat) (cur : option wstring) : list wstring :=
  match s with
  | [] => emit (if bool_decide (backslashes = 0%nat) then cur else Some (so_far cur ++ replicate backslashes w_backslash)) []
  | c :: s' =>
      if c =? w_backslash then parse_args s' in_quotes (S backslashes) (Some (so_far cur))
      else if c =? w_quote then
        let cur' := so_far cur ++ replicate (Nat.div2 backslashes) w_backslash in
        if Nat.odd backslashes then parse_args s' in_quotes 0 (Some (cur' ++ [w_quote]))
        else if in_quotes then
          match s' with
          | d :: s'' => if d =? w_quote then parse_args s'' true 0 (Some (cur' ++ [w_quote])) else parse_args s' false 0 (Some cur')
          | [] => parse_args s' false 0 (Some cur')
          end
        else parse_args s' true 0 (Some cur')
      else
        let cur' := if bool_decide (backslashes = 0%nat) then cur else Some (so_far cur ++ replicate backslashes w_backslash) in
        if is_wgap c && negb in_quotes then emit cur' (parse_args s' false 0 None)
        else parse_args s' in_quotes 0 (Some (so_far cur' ++ [c]))
  end.

(** The first argument is a path: quotes only protect blanks, and nothing is escaped. *)
Fixpoint parse_program (s : wstring) (in_quotes : bool) (cur : wstring) : wstring * wstring :=
  match s with
  | [] => (cur, [])
  | c :: s' =>
      if c =? w_quote then parse_program s' (negb in_quotes) cur
      else if is_wgap c && negb in_quotes then (cur, s')
      else parse_program s' in_quotes (cur ++ [c])
  end.

Definition parse_command_line (s : wstring) : list wstring :=
  let '(program, rest) := parse_program s false [] in program :: parse_args rest false 0 None.

(** ** Quoting is read back *)

Lemma parse_backslashes n s q b cur :
  parse_args (replicate n w_backslash ++ s) q b (Some cur) = parse_args s q (n + b) (Some cur).
Proof.
  revert b. induction n as [|n IH]; intros b; [done|]. cbn [replicate app parse_args].
  rewrite Z.eqb_refl. cbn [so_far]. rewrite IH. f_equal. lia.
Qed.

Lemma replicate_shift {A} n (x : A) l : replicate (S n) x ++ l = replicate n x ++ x :: l.
Proof. change (replicate (S n) x) with (x :: replicate n x). by rewrite replicate_cons_app, <- app_assoc. Qed.

Lemma so_far_flush b cur :
  so_far (if bool_decide (b = 0%nat) then Some cur else Some (cur ++ replicate b w_backslash)) = cur ++ replicate b w_backslash.
Proof. case_bool_decide; subst; cbn; [by rewrite app_nil_r | done]. Qed.

Lemma div2_double n : Nat.div2 (n * 2 + 0) = n.
Proof. rewrite Nat.add_0_r, Nat.mul_comm. apply Nat.div2_double. Qed.
Lemma odd_double n : Nat.odd (n * 2 + 0) = false.
Proof. rewrite Nat.add_0_r, Nat.mul_comm. by rewrite Nat.odd_mul. Qed.
Lemma odd_double_S n : Nat.odd (1 + (n * 2 + 0)) = true.
Proof. rewrite Nat.add_1_l, Nat.odd_succ, <- Nat.negb_odd, odd_double. done. Qed.
Lemma div2_double_S n : Nat.div2 (1 + (n * 2 + 0)) = n.
Proof. rewrite Nat.add_0_r, Nat.mul_comm. apply Nat.div2_succ_double. Qed.

(** A quoted argument is read up to its closing quote. *)
Lemma parse_quoted arg : forall b cur rest, head rest <> Some w_quote ->
  parse_args (quote_loop arg b ++ w_quote :: rest) true 0 (Some cur)
  = parse_args rest false 0 (Some (cur ++ replicate b w_backslash ++ arg)).
Proof.
  induction arg as [|c arg IH]; intros b cur rest Hr; cbn [quote_loop].
  - rewrite parse_backslashes. cbn [parse_args so_far]. change (w_quote =? w_backslash) with false. rewrite Z.eqb_refl.
    cbv zeta. rewrite odd_double, div2_double, app_nil_r. destruct rest as [|d rest]; [done|].
    cbn in Hr. destruct (Z.eqb_spec d w_quote); [congruence | done].
  - destruct (Z.eqb_spec c w_backslash) as [->|H1]; [|destruct (Z.eqb_spec c w_quote) as [->|H2]].
    + by rewrite IH, replicate_shift by done.
    + rewrite <- !app_assoc, parse_backslashes. cbn [app parse_args so_far]. rewrite Z.eqb_refl.
      change (w_quote =? w_backslash) with false. rewrite (Z.eqb_refl w_quote). cbv zeta. cbn [so_far].
      change (S (b * 2 + 0)) with (1 + (b * 2 + 0))%nat. rewrite odd_double_S, div2_double_S, IH by done.
      cbn [replicate app]. by rewrite <- !app_assoc.
    + rewrite <- !app_assoc, parse_backslashes. cbn [app parse_args]. rewrite (proj2 (Z.eqb_neq _ _) H1), (proj2 (Z.eqb_neq _ _) H2).
      cbv zeta. rewrite andb_false_r. cbn [so_far]. rewrite so_far_flush, Nat.add_0_r, IH by done. cbn [replicate app].
      by rewrite <- !app_assoc.
Qed.

(** An argument that needs no quotes is read up to the blank after it. *)
Lemma parse_plain arg : Forall (fun c => needs_quotes c = false) arg -> forall b cur,
  parse_args arg false b (Some cur) = [cur ++ replicate b w_backslash ++ arg] /\
  forall rest, parse_args (arg ++ w_blank :: rest) false b (Some cur)
    = (cur ++ replicate b w_backslash ++ arg) :: parse_args rest false 0 None.
Proof.
  induction 1 as [|c arg Hc Ha IH]; intros b cur.
  - cbn [app parse_args]. change (w_blank =? w_backslash) with false. change (w_blank =? w_quote) with false.
    cbv zeta. cbn [is_wgap negb andb so_far]. rewrite app_nil_r. case_bool_decide; subst; cbn; [by rewrite app_nil_r | done].
  - assert (Hq : c =? w_quote = false /\ is_wgap c = false).
    { unfold needs_quotes in Hc. apply bool_decide_eq_false in Hc. rewrite !not_elem_of_cons in Hc.
      unfold is_wgap. rewrite orb_false_iff, !Z.eqb_neq. tauto. }
    destruct Hq as [Hq Hg]. cbn [app parse_args]. rewrite Hq, Hg. cbv zeta. cbn [andb so_far].
    destruct (Z.eqb_spec c w_backslash) as [->|Hb].
    + destruct (IH (S b) cur) as [H1 H2]. split; [|intros rest]; by rewrite ?H1, ?H2, replicate_shift.
    + destruct (IH 0%nat (cur ++ replicate b w_backslash ++ [c])) as [H1 H2]. rewrite so_far_flush.
      split; [|intros rest]; rewrite <- app_assoc, ?H1, ?H2; cbn [replicate app]; by rewrite <- !app_assoc.
Qed.

Lemma parse_start c s : is_wgap c = false -> parse_args (c :: s) false 0 None = parse_args (c :: s) false 0 (Some []).
Proof. intros Hg. cbn [parse_args so_far]. rewrite Hg. repeat case_if; done. Qed.

Lemma join_quoted_head args : head (join_quoted args) <> Some w_quote.
Proof. by destruct args. Qed.

Lemma parse_next a args :
  parse_args (join_quoted args) false 0 (Some a) = a :: match args with [] => [] | b :: args' => parse_args (quote_argv_w b ++ join_quoted args') false 0 None end.
Proof. by destruct args. Qed.

Lemma plain_chars arg : existsb needs_quotes arg = false -> Forall (fun c => needs_quotes c = false) arg.
Proof. induction arg as [|c arg IH]; cbn; [done|]. intros [? ?]%orb_false_iff. auto. Qed.

Lemma parse_args_quoted a args : parse_args (quote_argv_w a ++ join_quoted args) false 0 None = a :: args.
Proof.
  revert a. induction args as [|b args IH]; intros a; unfold quote_argv_w at 1;
    destruct (negb (bool_decide (a = [])) && negb (existsb needs_quotes a)) eqn:Hq.
  1, 3: apply andb_prop in Hq as [Hne%negb_true_iff Hpl%negb_true_iff]; apply bool_decide_eq_false in Hne;
    apply plain_chars in Hpl; pose proof (parse_plain a Hpl 0 []) as [H1 H2]; destruct a as [|c a]; [done|];
    assert (Hg : is_wgap c = false) by
      (apply Forall_cons in Hpl as [Hc _]; unfold needs_quotes in Hc; apply bool_decide_eq_false in Hc;
       rewrite !not_elem_of_cons in Hc; unfold is_wgap; rewrite orb_false_iff, !Z.eqb_neq; tauto).
  - cbn [join_quoted]. rewrite app_nil_r, parse_start by done. exact H1.
  - change ((c :: a) ++ join_quoted (b :: args)) with (c :: (a ++ w_blank :: quote_argv_w b ++ join_quoted args)).
    rewrite parse_start by done. etransitivity; [exact (H2 _)|]. cbn [replicate app]. f_equal. apply IH.
  - rewrite <- !app_assoc. cbn [app]. rewrite parse_start by done. cbn [parse_args so_far]. change (w_quote =? w_backslash) with false.
    rewrite Z.eqb_refl. cbn [replicate app Nat.div2 Nat.odd Nat.even negb].
    rewrite (parse_quoted a 0 [] (join_quoted [])) by apply join_quoted_head. by rewrite parse_next.
  - rewrite <- !app_assoc. cbn [app]. rewrite parse_start by done. cbn [parse_args so_far]. change (w_quote =? w_backslash) with false.
    rewrite Z.eqb_refl. cbn [replicate app Nat.div2 Nat.odd Nat.even negb].
    rewrite (parse_quoted a 0 [] (join_quoted (b :: args))) by apply join_quoted_head. rewrite parse_next, IH. done.
Qed.

(** What a program name has to be: a path without quotes, and without a backslash at its
    end when it has a blank in it. *)
Definition program_ok (p : wstring) : Prop :=
  w_quote ∉ p /\ (existsb needs_quotes p = true \/ p = [] -> last p <> Some w_backslash).

Lemma parse_program_app p q cur rest : w_quote ∉ p -> (q = true \/ Forall (fun c => is_wgap c = false) p) ->
  parse_program (p ++ rest) q cur = parse_program rest q (cur ++ p).
Proof.
  revert cur. induction p as [|c p IH]; intros cur Hp Hq; [by rewrite app_nil_r|]. apply not_elem_of_cons in Hp as [Hc Hp].
  cbn [app parse_program]. rewrite (proj2 (Z.eqb_neq _ _)) by congruence.
  assert (Hg : is_wgap c && negb q = false) by (destruct Hq as [->|Hq]; [apply andb_false_r | by apply Forall_cons in Hq as [-> _]]).
  rewrite Hg, IH, <- app_assoc; [done | done|]. destruct Hq as [?|Hq]; [auto|]. apply Forall_cons in Hq as [_ ?]. auto.
Qed.

(** Without quotes inside and backslashes at the end, quoting adds only the quotes. *)
Lemma quote_loop_plain p : w_quote ∉ p -> forall b, (p = [] -> b = 0%nat) -> last p <> Some w_backslash ->
  quote_loop p b = replicate b w_backslash ++ p.
Proof.
  induction p as [|c p IH]; intros Hp b Hb Hl; [by rewrite Hb|]. apply not_elem_of_cons in Hp as [Hc Hp]. cbn [quote_loop].
  rewrite (proj2 (Z.eqb_neq c w_quote)) by congruence. destruct (Z.eqb_spec c w_backslash) as [->|Hn].
  - destruct p as [|d p]; [done|]. rewrite IH; [by rewrite replicate_shift | done | done | done].
  - rewrite IH; [done | done | done |]. by destruct p.
Qed.

Lemma parse_program_quoted p rest : program_ok p -> rest = [] \/ head rest = Some w_blank ->
  parse_program (quote_argv_w p ++ rest) false [] = (p, tail rest).
Proof.
  intros [Hq Hl] Hr. assert (Hend : forall cur, parse_program rest false cur = (cur, tail rest)).
  { intros cur. destruct rest as [|c rest]; [done|]. destruct Hr as [?|[= ->]]; [done|]. cbn. done. }
  unfold quote_argv_w. destruct (negb (bool_decide (p = [])) && negb (existsb needs_quotes p)) eqn:Hn.
  - apply andb_prop in Hn as [_ Hn%negb_true_iff]. rewrite parse_program_app, Hend; [done | done|]. right.
    apply plain_chars in Hn. eapply Forall_impl; [exact Hn|]. cbn. intros c Hc. unfold needs_quotes in Hc.
    apply bool_decide_eq_false in Hc. rewrite !not_elem_of_cons in Hc. unfold is_wgap. rewrite orb_false_iff, !Z.eqb_neq. tauto.
  - assert (Hl' : last p <> Some w_backslash).
    { apply Hl. apply andb_false_iff in Hn as [Hn|Hn]; apply negb_false_iff in Hn; [right; by apply bool_decide_eq_true in Hn | by left]. }
    rewrite (quote_loop_plain p Hq 0) by done. cbn [replicate app]. rewrite <- app_assoc. cbn [app parse_program]. rewrite Z.eqb_refl.
    cbn [negb]. rewrite parse_program_app by auto. cbn [app parse_program]. rewrite Z.eqb_refl. apply Hend.
Qed.

(** C34. The command line built from an argument vector is read back, by the documented rules of
    the C runtime and CommandLineToArgvW, as exactly that vector: empty arguments, blanks,
    quotes and runs of backslashes included; the program name must be a path without quotes, and
    without a backslash at its end when it is quoted. *)
Theorem command_line_roundtrip (cvt : cppstring -> wstring) (program : cppstring) (args : list cppstring)
    (Hp : program_ok (cvt program)) :
  parse_command_line (build_command_line_w cvt (program :: args)) = map cvt (program :: args).
Proof.
  unfold parse_command_line, build_command_line_w. cbn [map].
  rewrite parse_program_quoted; [|done | destruct (map cvt args); auto].
  f_equal. destruct (map cvt args) as [|b bs]; [done|]. cbn [join_quoted tail app]. apply parse_args_quoted.
Qed.

Definition ascii_cvt (s : cppstring) : wstring := map (fun c => Z.of_nat (nat_of_ascii c)) s.

Lemma command_line_roundtrip_witness :
  parse_command_line (build_command_line_w ascii_cvt [str "C:\Program Files\x.exe"; []; str "a\\"; str "b c\"; [c_dquote; c_backslash; c_dquote]])
  = map ascii_cvt [str "C:\Program Files\x.exe"; []; str "a\\"; str "b c\"; [c_dquote; c_backslash; c_dquote]].
Proof. apply command_line_roundtrip. split; [vm_decide | intros _; vm_decide]. Defined.

(** ** Rooting the program of a command *)

Lemma span_token_app s : let '(t, r) := span_token s in s = t ++ r.
Proof. induction s as [|c s IH]; cbn; [done|]. case_if; [done|]. destruct (span_token s). by rewrite IH. Qed.
Lemma span_gaps_app s : let '(g, r) := span_gaps s in s = g ++ r.
Proof. induction s as [|c s IH]; cbn; [done|]. case_if; [|done]. destruct (span_gaps s). by rewrite IH. Qed.
Lemma span_quote_app s t r : span_quote s = Some (t, r) -> s = t ++ c_dquote :: r.
Proof.
  revert t. induction s as [|c s IH]; intros t; cbn; [done|]. case_bool_decide as Hc; [subst c; by intros [= <- <-]|].
  destruct (span_quote s) as [[t' r']|]; cbn; [|done]. intros [= <- <-]. by rewrite (IH t').
Qed.

(** Only the program of a command line is ever rewritten: the rest of the line is kept byte for
    byte. *)
Theorem resolve_command_line_only_roots names_a_root has_parent_path join_path (root_path command : cppstring) :
  let resolve := resolve_application_path names_a_root has_parent_path join_path root_path in
  let out := resolve_command_line names_a_root has_parent_path join_path root_path command in
  out = command \/
  exists lead token rest,
    (command = lead ++ token ++ rest \/ command = lead ++ [c_dquote] ++ token ++ [c_dquote] ++ rest) /\
    resolve token <> token /\
    out = lead ++ (if existsb is_gap (resolve token) then [c_dquote] ++ resolve token ++ [c_dquote] else resolve token) ++ rest.
Proof.
  cbv zeta. unfold resolve_command_line. pose proof (span_gaps_app command) as Hg. destruct (span_gaps command) as [lead body].
  destruct body as [|c body]; [by left|].
  destruct (if bool_decide (c = c_dquote) then _ else _) as [[token rest]|] eqn:Ht; [|by left].
  destruct (bool_decide (resolve_application_path _ _ _ root_path token = token)) eqn:Hr; [by left|].
  apply bool_decide_eq_false in Hr. right. exists lead, token, rest. split; [|done]. rewrite Hg.
  case_bool_decide as Hc; [right; subst c; apply span_quote_app in Ht as -> | left]; [by cbn|].
  pose proof (span_token_app (c :: body)) as Hs. assert (Ht' : span_token (c :: body) = (token, rest)) by congruence.
  rewrite Ht' in Hs. by rewrite Hs.
Qed.
