(* ===== verification/Crypt.v ===== *)
(** The payload encryption of NSCA: libs/nscpcrypt/nscpcrypt.cpp.

    The XOR cipher and the selection of an algorithm are the repository's own; the block
    ciphers are Crypto++'s, in CFB mode and one byte at a time: the interface
    [cryptopp], whose law is that decryption follows encryption. *)

From stdpp Require Import base list.
From coqutil Require Import Byte.
From Stdlib Require Import Ascii ZArith Lia.
From Stdlib Require String.
From S2P Require Import Prelude Bytes Strings.
Import String.StringSyntax.

Local Open Scope Z_scope.

Inductive crypt_error := UnknownAlgorithm (name : cppstring) | NoModule (method : Z) | NoCore | BadIv | SetupFailed.

(** ** Algorithms *)

Definition ENCRYPT_NONE : Z := 0.
Definition ENCRYPT_XOR : Z := 1.
(** The algorithms of a build with Crypto++, by name and id. *)
Definition cryptopp_names : list (list cppstring * Z) :=
  [([str "des"], 2); ([str "3des"], 3); ([str "cast128"], 4); ([str "xtea"], 6); ([str "3way"], 7); ([str "blowfish"], 8);
   ([str "twofish"], 9); ([str "rc2"], 11); ([str "rijndael128"; str "aes128"], 14); ([str "rijndael192"; str "aes192"], 15);
   ([str "rijndael256"; str "aes256"; str "aes"], 16); ([str "serpent"], 20); ([str "gost"], 23)].

Fixpoint lookup_name (l : list (list cppstring * Z)) (name : cppstring) : option Z :=
  match l with
  | [] => None
  | (names, id) :: l' => if bool_decide (name ∈ names) then Some id else lookup_name l' name
  end.

(** Control characters removed from a value that is echoed in an error. *)
Definition safe_name (s : cppstring) : cppstring :=
  List.filter (fun c => Nat.leb 32 (nat_of_ascii c) && negb (Nat.eqb (nat_of_ascii c) 127)) s.

(** [have_libcryptopp] is HAVE_LIBCRYPTOPP.  [atoi] of a text that starts with a digit
    reads its leading digits; a value past 32 bits is undefined and reads as no
    algorithm here. *)
Definition encryption_to_int (have_libcryptopp : bool) (encryption_raw : cppstring) : result crypt_error Z :=
  let encryption := trim_space (to_lower encryption_raw) in
  let fail := Throw (UnknownAlgorithm (safe_name encryption_raw)) in
  let by_number :=
    if match encryption with
       | [c] => isdigit c
       | c :: d :: _ => isdigit c && isdigit d
       | [] => false
       end
    then
      let enc := decimal (digits_of encryption) in
      if (enc =? ENCRYPT_NONE) || (enc =? ENCRYPT_XOR) || (have_libcryptopp && existsb (fun '(_, id) => enc =? id) cryptopp_names)
      then Ok enc else fail
    else fail in
  if bool_decide (encryption = []) || bool_decide (encryption = str "none") then Ok ENCRYPT_NONE
  else if bool_decide (encryption = str "xor") then Ok ENCRYPT_XOR
  else if have_libcryptopp then match lookup_name cryptopp_names encryption with Some id => Ok id | None => by_number end
  else by_number.

Definition encryption_to_string (have_libcryptopp : bool) (encryption : Z) : cppstring :=
  if encryption =? ENCRYPT_XOR then str "xor"
  else
    let rest := if encryption =? ENCRYPT_NONE then str "none" else str "unknown" in
    if have_libcryptopp then
      match encryption with
      | 2 => str "des" | 3 => str "3des" | 4 => str "cast128" | 6 => str "xtea" | 7 => str "3way" | 8 => str "blowfish"
      | 9 => str "twofish" | 11 => str "rc2" | 14 => str "aes128" | 15 => str "aes192" | 16 => str "aes"
      | 20 => str "serpent" | 23 => str "gost" | _ => rest
      end
    else rest.

Definition hasEncryption (have_libcryptopp : bool) (method : Z) : bool :=
  (method =? ENCRYPT_NONE) || (method =? ENCRYPT_XOR) ||
  (have_libcryptopp && bool_decide (method ∈ [2; 3; 4; 6; 8; 9; 11; 14; 15; 16; 20; 23])).

(** ** Ciphers *)

Definition xor_byte (a b : byte) : byte := byte.of_Z (Z.lxor (byte.unsigned a) (byte.unsigned b)).

Inductive cipher := no_encryption | xor_encryption | cfb_encryption (method : Z) (keysize : nat).

(** [engine::get_encryption_core]; the key sizes are those the constructor is given, the
    default of the algorithm otherwise. *)
Definition get_encryption_core (have_libcryptopp : bool) (default_keysize : Z -> nat) (method : Z) : option cipher :=
  if method =? ENCRYPT_NONE then Some no_encryption
  else if method =? ENCRYPT_XOR then Some xor_encryption
  else if negb have_libcryptopp then None
  else if bool_decide (method ∈ [2; 3; 4; 6; 7; 23]) then Some (cfb_encryption method (default_keysize method))
  else if method =? 8 then Some (cfb_encryption method 56)
  else if method =? 9 then Some (cfb_encryption method 32)
  else if method =? 11 then Some (cfb_encryption method 128)
  else if method =? 14 then Some (cfb_encryption method 16)
  else if method =? 15 then Some (cfb_encryption method 24)
  else if method =? 16 then Some (cfb_encryption method 32)
  else if method =? 20 then Some (cfb_encryption method 32)
  else None.

(** Crypto++: a block size, the feedback register set up with key and IV, and one byte
    through it. *)
Class cryptopp := {
  have_cryptopp : bool;
  default_keysize : Z -> nat;
  blocksize : Z -> nat;
  register : Type;
  set_cipher : Z -> list byte -> list byte -> option register;
  enc_byte : register -> byte -> byte * register;
  dec_byte : register -> byte -> byte * register;
  dec_enc_byte r b : dec_byte r (enc_byte r b).1 = (b, (enc_byte r b).2)
}.

Section Engine.
Context `{cryptopp}.

(** A cipher set up for one direction of one session. *)
Inductive core :=
| core_none
| core_xor (password iv : list byte)
| core_cfb (crypto decrypto : register).

(** The key buffer: the password cut or padded with NULs to the key size. *)
Definition make_key_buffer (keysize : nat) (password : list byte) : list byte :=
  take keysize (password ++ replicate keysize x00).

Definition cipher_init (c : cipher) (password iv : list byte) : result crypt_error core :=
  match c with
  | no_encryption => Ok core_none
  | xor_encryption => Ok (core_xor password iv)
  | cfb_encryption method keysize =>
      if Nat.ltb (length iv) (blocksize method) then Throw BadIv
      else match set_cipher method (make_key_buffer keysize password) iv with
           | Some r => Ok (core_cfb r r)
           | None => Throw SetupFailed
           end
  end.

(** A wrapping index into the IV or the password; an empty string reads as NUL. *)
Definition rotate (x len : nat) : nat := if Nat.leb len x then 0 else x.
Definition char_at (s : list byte) (i : nat) : byte := nth i s x00.

Fixpoint xor_encrypt (password iv buffer : list byte) (x z : nat) : list byte :=
  match buffer with
  | [] => []
  | b :: buffer' =>
      let x := rotate x (length iv) in
      let b := xor_byte b (char_at iv x) in
      let z := rotate z (length password) in
      let b := xor_byte b (char_at password z) in
      b :: xor_encrypt password iv buffer' (S x) (S z)
  end.
Fixpoint xor_decrypt (password iv buffer : list byte) (x z : nat) : list byte :=
  match buffer with
  | [] => []
  | b :: buffer' =>
      let z := rotate z (length password) in
      let b := xor_byte b (char_at password z) in
      let x := rotate x (length iv) in
      let b := xor_byte b (char_at iv x) in
      b :: xor_decrypt password iv buffer' (S x) (S z)
  end.

Fixpoint cfb_run (step : register -> byte -> byte * register) (r : register) (buffer : list byte) : list byte * register :=
  match buffer with
  | [] => ([], r)
  | b :: buffer' =>
      let '(b', r1) := step r b in
      let '(bs, r2) := cfb_run step r1 buffer' in (b' :: bs, r2)
  end.

Definition core_encrypt (c : core) (buffer : list byte) : list byte * core :=
  match c with
  | core_none => (buffer, c)
  | core_xor password iv => (xor_encrypt password iv buffer 0 0, c)
  | core_cfb crypto decrypto => let '(bs, r) := cfb_run enc_byte crypto buffer in (bs, core_cfb r decrypto)
  end.
Definition core_decrypt (c : core) (buffer : list byte) : list byte * core :=
  match c with
  | core_none => (buffer, c)
  | core_xor password iv => (xor_decrypt password iv buffer 0 0, c)
  | core_cfb crypto decrypto => let '(bs, r) := cfb_run dec_byte decrypto buffer in (bs, core_cfb crypto r)
  end.

(** [engine]: [None] is a null core.  [fresh_iv] is what generate_transmitted_iv gives. *)
Definition engine : Type := option core.
Definition encrypt_init (password : list byte) (method : Z) (received_iv fresh_iv : list byte) : result crypt_error engine :=
  match get_encryption_core have_cryptopp default_keysize method with
  | None => Throw (NoModule method)
  | Some c => let* k := cipher_init c password (if bool_decide (received_iv = []) then fresh_iv else received_iv) in Ok (Some k)
  end.
Definition encrypt_buffer (e : engine) (buffer : list byte) : result crypt_error (list byte * engine) :=
  match e with None => Throw NoCore | Some c => let '(b, c') := core_encrypt c buffer in Ok (b, Some c') end.
Definition decrypt_buffer (e : engine) (buffer : list byte) : result crypt_error (list byte * engine) :=
  match e with None => Throw NoCore | Some c => let '(b, c') := core_decrypt c buffer in Ok (b, Some c') end.

(** ** Decryption undoes encryption *)

Lemma unsigned_inj a b : byte.unsigned a = byte.unsigned b -> a = b.
Proof. intros Hu. rewrite <- (byte.of_Z_unsigned a), <- (byte.of_Z_unsigned b). by rewrite Hu. Qed.

Lemma unsigned_xor a b : byte.unsigned (xor_byte a b) = Z.lxor (byte.unsigned a) (byte.unsigned b).
Proof.
  unfold xor_byte. rewrite byte.unsigned_of_Z. apply Z.mod_small.
  apply (lxor_range 8); [lia | apply byte.unsigned_range..].
Qed.

Lemma xor_byte_twice a b : xor_byte (xor_byte a b) b = a.
Proof. apply unsigned_inj. rewrite !unsigned_xor, Z.lxor_assoc, Z.lxor_nilpotent. apply Z.lxor_0_r. Qed.

Lemma xor_roundtrip password iv buffer : forall x z,
  xor_decrypt password iv (xor_encrypt password iv buffer x z) x z = buffer.
Proof.
  induction buffer as [|b buffer IH]; intros x z; [done|]. cbn [xor_encrypt xor_decrypt]. cbv zeta.
  by rewrite !xor_byte_twice, IH.
Qed.

Lemma cfb_roundtrip buffer : forall r, cfb_run dec_byte r (cfb_run enc_byte r buffer).1 = (buffer, (cfb_run enc_byte r buffer).2).
Proof.
  induction buffer as [|b buffer IH]; intros r; [done|]. cbn [cfb_run]. pose proof (dec_enc_byte r b) as Hd.
  destruct (enc_byte r b) as [b' r1]. cbn [fst snd] in *. specialize (IH r1).
  destruct (cfb_run enc_byte r1 buffer) as [bs r2]. cbn [fst snd cfb_run] in *. by rewrite Hd, IH.
Qed.

(** The sender's core and the receiver's are in step. *)
Definition in_step (sender receiver : core) : Prop :=
  match sender, receiver with
  | core_none, core_none => True
  | core_xor p iv, core_xor p' iv' => p = p' /\ iv = iv'
  | core_cfb crypto _, core_cfb _ decrypto => crypto = decrypto
  | _, _ => False
  end.

Lemma in_step_refl c : (forall crypto decrypto, c = core_cfb crypto decrypto -> crypto = decrypto) -> in_step c c.
Proof. destruct c; cbn; intros Hc; eauto. Qed.

Lemma core_in_step c d buffer : in_step c d ->
  let '(bytes, c') := core_encrypt c buffer in
  (core_decrypt d bytes).1 = buffer /\ in_step c' (core_decrypt d bytes).2.
Proof.
  destruct c as [|p iv|crypto x], d as [|p' iv'|y decrypto]; cbn [in_step]; try done.
  - intros [<- <-]. cbn. by rewrite xor_roundtrip.
  - intros <-. cbn. pose proof (cfb_roundtrip buffer crypto) as Hr. destruct (cfb_run enc_byte crypto buffer) as [bs r].
    cbn [fst snd] in *. by rewrite Hr.
Qed.

Lemma cipher_init_in_step c password iv k : cipher_init c password iv = Ok k -> in_step k k.
Proof.
  intros Hk. apply in_step_refl. intros crypto decrypto ->. destruct c as [| |method keysize]; cbn in Hk; try done.
  case_if_in Hk; [done|]. destruct (set_cipher _ _ _); congruence.
Qed.

(** Buffers sent one after the other through one engine, and received through another. *)
Fixpoint send_all (e : engine) (buffers : list (list byte)) : result crypt_error (list (list byte)) :=
  match buffers with
  | [] => Ok []
  | b :: buffers' => let* be := encrypt_buffer e b in let* r := send_all be.2 buffers' in Ok (be.1 :: r)
  end.
Fixpoint receive_all (e : engine) (buffers : list (list byte)) : result crypt_error (list (list byte)) :=
  match buffers with
  | [] => Ok []
  | b :: buffers' => let* be := decrypt_buffer e b in let* r := receive_all be.2 buffers' in Ok (be.1 :: r)
  end.

Lemma send_receive_in_step buffers : forall c d, in_step c d ->
  exists sent, send_all (Some c) buffers = Ok sent /\ receive_all (Some d) sent = Ok buffers.
Proof.
  induction buffers as [|b buffers IH]; intros c d Hs; [by exists []|]. cbn [send_all]. pose proof (core_in_step c d b Hs) as Hc.
  cbn [encrypt_buffer]. destruct (core_encrypt c b) as [bytes c'] eqn:E. destruct Hc as [Hb Hs'].
  destruct (IH c' (core_decrypt d bytes).2 Hs') as (sent & H1 & H2). exists (bytes :: sent).
  cbn [rbind snd]. rewrite H1. split; [done|]. cbn [receive_all decrypt_buffer].
  destruct (core_decrypt d bytes) as [b' d']. cbn [fst snd] in *. cbn. by rewrite H2, Hb.
Qed.

(** Two engines set up with the same password, algorithm and IV stay in step: any sequence of
    buffers encrypted one after the other by the one is decrypted to the same buffers by the
    other, with the XOR cipher, with no encryption and with every block cipher in CFB mode. *)
Theorem encryption_roundtrip (password iv fresh fresh' : list byte) (method : Z) (e e' : engine) (buffers : list (list byte))
    (Hiv : iv <> []) (He : encrypt_init password method iv fresh = Ok e) (He' : encrypt_init password method iv fresh' = Ok e') :
  exists sent, send_all e buffers = Ok sent /\ receive_all e' sent = Ok buffers.
Proof.
  unfold encrypt_init in *. rewrite bool_decide_eq_false_2 in * by done.
  destruct (get_encryption_core _ _ _) as [c|]; [|done]. apply rbind_Ok_inv in He as (k & Hk & [= <-]).
  apply rbind_Ok_inv in He' as (k' & Hk' & [= <-]). assert (k' = k) as -> by congruence.
  apply send_receive_in_step. by eapply cipher_init_in_step.
Qed.
End Engine.

(** ** No silent downgrade *)

Definition all_zero (s : cppstring) : Prop := Forall (fun c => c = "0"%char) s.

Lemma decimal_zero ds : forallb isdigit ds = true -> decimal ds = 0 -> all_zero ds.
Proof.
  unfold decimal, all_zero. assert (Hgen : forall l v, 0 <= v -> forallb isdigit l = true ->
    let r := fold_left (fun v c => v * 10 + (Z.of_nat (nat_of_ascii c) - 48)) l v in
    v <= r /\ (r = 0 -> v = 0 /\ Forall (fun c => c = "0"%char) l)).
  { induction l as [|c l IH]; intros v Hv Hd; cbn in *; [split; [lia | auto]|]. apply andb_prop in Hd as [Hc Hl].
    unfold isdigit in Hc. apply andb_prop in Hc as [H1%Nat.leb_le H2%Nat.leb_le].
    destruct (IH (v * 10 + (Z.of_nat (nat_of_ascii c) - 48)) ltac:(lia) Hl) as [H3 H4]. split; [lia|].
    intros Hr. destruct (H4 Hr) as [H5 H6]. assert (nat_of_ascii c = 48%nat) as Hn by lia. split; [lia|]. constructor; [|done].
    rewrite <- (ascii_nat_embedding c), Hn. done. }
  intros Hd Hz. apply (Hgen ds 0); [lia | done | done].
Qed.

Lemma lookup_name_id name id : lookup_name cryptopp_names name = Some id -> id <> 0.
Proof. cbn. repeat case_bool_decide; congruence. Qed.

(** What an algorithm may be called, and the number NSCA has for it. *)
Definition algorithms : list (cppstring * Z) :=
  [(str "des", 2); (str "3des", 3); (str "cast128", 4); (str "xtea", 6); (str "3way", 7); (str "blowfish", 8);
   (str "twofish", 9); (str "rc2", 11); (str "rijndael128", 14); (str "aes128", 14); (str "rijndael192", 15);
   (str "aes192", 15); (str "rijndael256", 16); (str "aes256", 16); (str "aes", 16); (str "serpent", 20); (str "gost", 23)].

Definition supported (have : bool) (id : Z) : Prop :=
  id = 0 \/ id = 1 \/ have = true /\ exists name, (name, id) ∈ algorithms.

(** A digit alone, or two digits and more with anything behind them. *)
Definition leading_number (s ds : cppstring) : Prop :=
  exists rest, s = ds ++ rest /\ forallb isdigit ds = true /\ (forall c t, rest = c :: t -> isdigit c = false) /\
    (length ds = 1%nat /\ rest = [] \/ (2 <= length ds)%nat).

Inductive selects (have : bool) : cppstring -> Z -> Prop :=
| selects_empty : selects have [] 0
| selects_none : selects have (str "none") 0
| selects_xor : selects have (str "xor") 1
| selects_name s id : have = true -> (s, id) ∈ algorithms -> selects have s id
| selects_number s ds : leading_number s ds -> supported have (decimal ds) -> selects have s (decimal ds).

Lemma lookup_name_spec s id : lookup_name cryptopp_names s = Some id <-> (s, id) ∈ algorithms.
Proof.
  split.
  - intros Hs. assert (Hin : exists names, (names, id) ∈ cryptopp_names /\ s ∈ names).
    { revert Hs. generalize cryptopp_names. induction l as [|[names i] l IH]; cbn; [done|].
      case_bool_decide as Hd; [intros [= <-]; exists names; split; [constructor | done]|].
      intros (ns & ? & ?)%IH. exists ns. split; [by constructor | done]. }
    clear Hs. destruct Hin as (names & Hn & Hs). apply list_elem_of_In in Hn, Hs.
    apply list_elem_of_In. cbn in Hn |- *.
    repeat (destruct Hn as [[= <- <-]|Hn]; [cbn in Hs; repeat (destruct Hs as [<-|Hs]; [tauto|]); done|]). done.
  - unfold algorithms. rewrite !elem_of_cons. intros Hs. repeat (destruct Hs as [[= -> ->]|Hs]; [reflexivity|]). by apply elem_of_nil in Hs.
Qed.

Lemma supported_spec have id :
  (id =? ENCRYPT_NONE) || (id =? ENCRYPT_XOR) || (have && existsb (fun '(_, i) => id =? i) cryptopp_names) = true <->
  supported have id.
Proof.
  unfold supported. rewrite !orb_true_iff, andb_true_iff, !Z.eqb_eq. split.
  - intros [[->| ->]|[-> Hx]]; [by left | by right; left |]. right; right. split; [done|].
    apply existsb_exists in Hx as ([names i] & Hin & ->%Z.eqb_eq). apply list_elem_of_In in Hin.
    unfold cryptopp_names in Hin. rewrite !elem_of_cons in Hin.
    repeat (destruct Hin as [[= -> ->]|Hin]; [eexists; apply list_elem_of_In; cbn; tauto|]). by apply elem_of_nil in Hin.
  - intros [->|[->|[-> [n Hn]]]]; [by left; left | by left; right | right; split; [done|]].
    unfold algorithms in Hn. rewrite !elem_of_cons in Hn.
    repeat (destruct Hn as [[= -> ->]|Hn]; [reflexivity|]). by apply elem_of_nil in Hn.
Qed.

Definition numeric (s : cppstring) : bool :=
  match s with [c] => isdigit c | c :: d :: _ => isdigit c && isdigit d | [] => false end.

Lemma leading_number_spec s ds : leading_number s ds <-> numeric s = true /\ ds = digits_of s.
Proof.
  split.
  - intros (rest & -> & Hds & Hr & Hl). rewrite (digits_of_app ds rest Hds Hr). split; [|done].
    destruct ds as [|c [|d ds]]; cbn in *; [destruct Hl as [[? _]|?]; lia| |].
    + destruct Hl as [[_ ->]|?]; [|lia]. by rewrite andb_true_r in Hds.
    + apply andb_prop in Hds as [-> Hds]. by apply andb_prop in Hds as [-> _].
  - intros [Hn ->]. destruct (digits_of_split s) as (t & Hs & Ht). exists t. split; [done|].
    split; [apply digits_of_digits|]. split; [done|]. destruct s as [|c [|d s]]; [done| |].
    + cbn in Hn, Hs |- *. rewrite Hn in *. left. split; [done|]. cbn in Hs. congruence.
    + cbn in Hn |- *. apply andb_prop in Hn as [-> ->]. cbn. right. lia.
Qed.

Lemma algorithm_not_special s id : (s, id) ∈ algorithms -> s <> [] /\ s <> str "none" /\ s <> str "xor" /\ numeric s = false.
Proof.
  unfold algorithms. rewrite !elem_of_cons. intros Hs.
  repeat (destruct Hs as [[= -> ->]|Hs]; [by vm_compute|]). by apply elem_of_nil in Hs.
Qed.

(** The algorithm the code picks is the one selected, and a text that selects none throws. *)
Lemma encryption_to_int_spec have name id :
  encryption_to_int have name = Ok id <-> selects have (trim_space (to_lower name)) id.
Proof.
  unfold encryption_to_int. set (s := trim_space (to_lower name)). cbv zeta. fold (numeric s).
  assert (Hnum : forall e, (if numeric s then
      (if (decimal (digits_of s) =? ENCRYPT_NONE) || (decimal (digits_of s) =? ENCRYPT_XOR) ||
          (have && existsb (fun '(_, i) => decimal (digits_of s) =? i) cryptopp_names)
       then Ok (decimal (digits_of s)) else Throw e) else Throw e) = (Ok id : result crypt_error Z) <->
      exists ds, leading_number s ds /\ supported have (decimal ds) /\ id = decimal ds).
  { intros e. split.
    - destruct (numeric s) eqn:En; [|done]. destruct (_ || _ || _) eqn:Hc; [|done]. intros [= <-]. exists (digits_of s).
      split; [by apply leading_number_spec|]. split; [by apply supported_spec | done].
    - intros (ds & [-> ->]%leading_number_spec & ->%supported_spec & ->). done. }
  case_bool_decide as H1; [|case_bool_decide as H2; [|case_bool_decide as H3]]; cbn [orb].
  - rewrite H1. split; [intros [= <-]; constructor|]. inversion 1 as [| | |? ? ? Ha|? ? Hl]; subst; [done| |].
    + by apply algorithm_not_special in Ha as [? _].
    + by apply leading_number_spec in Hl as [? _].
  - rewrite H2. split; [intros [= <-]; constructor|]. inversion 1 as [| | |? ? ? Ha|? ? Hl]; subst; [done| |].
    + by apply algorithm_not_special in Ha as (_ & ? & _).
    + by apply leading_number_spec in Hl as [? _].
  - rewrite H3. split; [intros [= <-]; constructor|]. inversion 1 as [| | |? ? ? Ha|? ? Hl]; subst; [done| |].
    + by apply algorithm_not_special in Ha as (_ & _ & ? & _).
    + by apply leading_number_spec in Hl as [? _].
  - assert (Hsel : selects have s id <-> have = true /\ lookup_name cryptopp_names s = Some id \/
      exists ds, leading_number s ds /\ supported have (decimal ds) /\ id = decimal ds).
    { rewrite lookup_name_spec. split.
      - inversion 1; subst; try done; eauto.
      - intros [[? ?]|(ds & ? & ? & ->)]; [by apply selects_name | by apply selects_number]. }
    rewrite Hsel. destruct have; [|rewrite Hnum; naive_solver].
    destruct (lookup_name cryptopp_names s) as [i|] eqn:El; [|rewrite Hnum; naive_solver].
    split; [intros [= <-]; by left|]. intros [[_ [= <-]]|(ds & [Hn _]%leading_number_spec & _)]; [done|].
    apply lookup_name_spec, algorithm_not_special in El as (_ & _ & _ & Hx). congruence.
Qed.

Lemma encryption_to_int_refuses have name e :
  encryption_to_int have name = Throw e -> e = UnknownAlgorithm (safe_name name).
Proof.
  unfold encryption_to_int. generalize (lookup_name cryptopp_names (trim_space (to_lower name))) as found. cbv zeta.
  intros found Hx. destruct (_ || _); [done|]. destruct (bool_decide _); [done|].
  destruct have; [destruct found; [done|]|]; (destruct (match trim_space _ with [] => _ | _ => _ end); [|congruence]);
    destruct (_ || _); congruence.
Qed.



(** A value that starts with two digits is read as its leading number, so a misspelt
    algorithm can still switch the encryption off or select another one. *)
Theorem zeros_select_none :
  encryption_to_int true (str "00aes256") = Ok ENCRYPT_NONE /\
  encryption_to_int true (str "01foo") = Ok ENCRYPT_XOR /\ encryption_to_int true (str "16typo") = Ok 16.
Proof. by vm_compute. Qed.

(** The name of every supported algorithm selects it again. *)
Theorem encryption_names_roundtrip (have : bool) (keysize : Z -> nat) (method : Z) : hasEncryption have method = true ->
  encryption_to_int have (encryption_to_string have method) = Ok method /\
  is_Some (get_encryption_core have keysize method).
Proof.
  unfold hasEncryption. intros [[Hm|Hm]%orb_prop|[-> Hm]%andb_prop]%orb_prop.
  - apply Z.eqb_eq in Hm as ->. destruct have; split; try reflexivity; by eexists.
  - apply Z.eqb_eq in Hm as ->. destruct have; split; try reflexivity; by eexists.
  - apply bool_decide_eq_true in Hm. rewrite !elem_of_cons in Hm.
    repeat (destruct Hm as [->|Hm]; [split; [reflexivity | by eexists]|]). by apply not_elem_of_nil in Hm.
Qed.

(** A build without Crypto++, and an engine with the XOR cipher. *)
#[export] Instance no_cryptopp : cryptopp.
Proof.
  refine {| have_cryptopp := false; default_keysize _ := 0%nat; blocksize _ := 0%nat; register := unit;
            set_cipher _ _ _ := None; enc_byte r b := (b, r); dec_byte r b := (b, r) |}. done.
Defined.

Lemma encryption_roundtrip_witness :
  exists sent, send_all (Some (core_xor [Byte.x61] [Byte.x62; Byte.x63])) [[Byte.x61; x00; Byte.x64]; [Byte.x65]] = Ok sent /\
    receive_all (Some (core_xor [Byte.x61] [Byte.x62; Byte.x63])) sent = Ok [[Byte.x61; x00; Byte.x64]; [Byte.x65]].
Proof. apply (encryption_roundtrip [Byte.x61] [Byte.x62; Byte.x63] [] [] ENCRYPT_XOR); [discriminate | reflexivity | reflexivity]. Defined.
