(* ===== verification/Nsca.v ===== *)
(** NSCA: the packets (include/net/nsca/nsca_packet.hpp), the server's connection
    (server/parser.hpp, server/protocol.hpp), the client's (client/nsca_client_protocol.hpp)
    and what NSCAServer makes of a packet (modules/NSCAServer/NSCAServer.cpp).

    The struct [data_packet] has its natural alignment: the version at 0, the checksum at
    4, the timestamp at 8, the return code at 12 and the flexible array right behind it at
    14, while its size is rounded up to 16.  Random bytes and clock readings are
    arguments.  Log lines are left out; [on_accept] is the allowed-hosts check. *)

From stdpp Require Import base list.
From coqutil Require Import Byte.
From Stdlib Require Import ZArith Lia.
From S2P Require Import Prelude Bytes Crypt.

Local Open Scope Z_scope.

Module data.
Definition transmitted_iuv_size : nat := 128.
Definition version3 : Z := 3.
Definition off_version : nat := 0.
Definition off_crc32 : nat := 4.
Definition off_timestamp : nat := 8.
Definition off_return_code : nat := 12.
Definition off_data : nat := 14.
Definition sizeof_packet : nat := 16.
Definition host_length : nat := 64.
Definition desc_length : nat := 128.
Definition off_desc : nat := off_data + host_length.
Definition off_result : nat := off_data + host_length + desc_length.
Definition sizeof_iv_packet : nat := 132.
End data.

Inductive nsca_exception :=
| PacketTooShort (got min_size : Z)
| UnsupportedVersion (version : Z)
| InvalidCrc (crc calculated : Z)
| FieldTooLong (length_ max_length : Z)
| BufferTooShort (got need : Z)
| InvalidIvSize (got need : Z)
| Encryption (e : crypt_error).

(** ** The data packet *)

Record packet := mkPacket {
  service : list byte;
  result_ : list byte;
  host : list byte;
  code : Z;
  time : Z;
  payload_length_ : Z
}.

Definition sanitize_identity (field : list byte) : list byte :=
  List.filter (fun c => (32 <=? byte.unsigned c) && negb (byte.unsigned c =? 127)) field.

(** [length::get_packet_length], in [unsigned int]. *)
Definition packet_length (output_length : Z) : Z :=
  wrap_u 32 (Z.of_nat data.sizeof_packet + output_length + Z.of_nat data.host_length + Z.of_nat data.desc_length).

Definition min_packet_size : nat := data.sizeof_packet + data.host_length + data.desc_length.

(** [parse_data] on a packet with the given payload length. *)
Definition parse_data (payload_length : Z) (buffer : list byte) : result nsca_exception packet :=
  if Nat.ltb (length buffer) min_packet_size then Throw (PacketTooShort (zlength buffer) (Z.of_nat min_packet_size)) else
  let version := be_int16 data.off_version buffer in
  if negb (version =? data.version3) then Throw (UnsupportedVersion version) else
  let time := be_uint32 data.off_timestamp buffer in
  let code := wrap_u 32 (be_int16 data.off_return_code buffer) in
  let payload_available := (length buffer - data.sizeof_packet - data.host_length - data.desc_length)%nat in
  let host := strn (drop data.off_data buffer) data.host_length in
  let service := strn (drop data.off_desc buffer) data.desc_length in
  let result := strn (drop data.off_result buffer) payload_available in
  let crc32 := be_uint32 data.off_crc32 buffer in
  let tmp := write_at data.off_crc32 (be_bytes 4 0) buffer in
  let calculated_crc32 := calculate_crc32 tmp (length buffer) in
  if negb (crc32 =? calculated_crc32) then Throw (InvalidCrc crc32 calculated_crc32) else
  Ok (mkPacket service result host code time payload_length).

Definition validate_lengths (p : packet) : result nsca_exception unit :=
  if Nat.leb data.desc_length (length (service p)) then Throw (FieldTooLong (zlength (service p)) (Z.of_nat data.desc_length)) else
  if Nat.leb data.host_length (length (host p)) then Throw (FieldTooLong (zlength (host p)) (Z.of_nat data.host_length)) else
  if payload_length_ p <=? zlength (result_ p) then Throw (FieldTooLong (zlength (result_ p)) (payload_length_ p)) else
  Ok tt.

(** [memset] and a copy of at most [max_length] bytes. *)
Definition copy_string (value : list byte) (max_length : nat) : list byte :=
  take max_length (value ++ replicate max_length x00).

(** [get_buffer(buffer, servertime)], into a buffer given by the caller; one of 2 GB or
    more, whose size is not an [int], is left out. *)
Definition get_buffer (p : packet) (buffer : list byte) (servertime : Z) : result nsca_exception (list byte) :=
  if zlength buffer <? packet_length (payload_length_ p)
  then Throw (BufferTooShort (zlength buffer) (packet_length (payload_length_ p))) else
  let b := write_at data.off_version (be_bytes 2 data.version3) buffer in
  let b := write_at data.off_timestamp (be_bytes 4 (if servertime =? 0 then time p else wrap_u 32 servertime)) b in
  let b := write_at data.off_return_code (be_bytes 2 (wrap_s 16 (code p))) b in
  let b := write_at data.off_crc32 (be_bytes 4 0) b in
  let b := write_at data.off_data (copy_string (host p) data.host_length) b in
  let b := write_at data.off_desc (copy_string (service p) data.desc_length) b in
  let b := write_at data.off_result (copy_string (result_ p) (Z.to_nat (payload_length_ p))) b in
  let calculated_crc32 := calculate_crc32 b (length b) in
  Ok (write_at data.off_crc32 (be_bytes 4 calculated_crc32) b).

(** ** The IV packet *)

Record iv_packet := mkIv { iv : list byte; iv_time : Z }.

Definition iv_get_buffer (p : iv_packet) : result nsca_exception (list byte) :=
  if negb (Nat.eqb (length (iv p)) data.transmitted_iuv_size)
  then Throw (InvalidIvSize (zlength (iv p)) (Z.of_nat data.transmitted_iuv_size)) else
  let b := replicate data.sizeof_iv_packet x00 in
  let b := write_at 0 (iv p) b in
  Ok (write_at data.transmitted_iuv_size (be_bytes 4 (iv_time p)) b).

Definition iv_parse (buffer : list byte) : result nsca_exception iv_packet :=
  if Nat.ltb (length buffer) data.sizeof_iv_packet then Throw (BufferTooShort (zlength buffer) (Z.of_nat data.sizeof_iv_packet)) else
  Ok (mkIv (read_at 0 data.transmitted_iuv_size buffer) (be_uint32 data.transmitted_iuv_size buffer)).

(** ** The server's parser *)

Record parser := mkParser { parser_payload_length_ : Z; packet_length_ : Z; buffer_ : list byte }.
Definition new_parser (payload_length : Z) : parser := mkParser payload_length (packet_length payload_length) [].

(** [digest]: what is missing of a packet, from the front of the input. *)
Definition digest (p : parser) (input : list byte) : bool * list byte * parser :=
  let count := Z.to_nat (wrap_u 64 (packet_length_ p - zlength (buffer_ p))) in
  let buffer := buffer_ p ++ take count input in
  (packet_length_ p <=? zlength buffer, drop count input, mkParser (parser_payload_length_ p) (packet_length_ p) buffer).

Section Connection.
Context `{cryptopp}.

Definition lift_crypt {A} (r : result crypt_error A) : result nsca_exception A :=
  match r with Ok a => Ok a | Throw e => Throw (Encryption e) end.

Definition parser_decrypt (p : parser) (e : engine) : result nsca_exception (parser * engine) :=
  let* be := lift_crypt (decrypt_buffer e (buffer_ p)) in
  Ok (mkParser (parser_payload_length_ p) (packet_length_ p) be.1, be.2).

(** [parse] clears the buffer when it succeeds. *)
Definition parser_parse (p : parser) : result nsca_exception (packet * parser) :=
  let* q := parse_data (parser_payload_length_ p) (buffer_ p) in
  Ok (q, mkParser (parser_payload_length_ p) (packet_length_ p) []).

(** ** The server's connection *)

Inductive state := none | connected | sent_iv | done_.

(** What the connection asks of its handler. *)
Record handler := mkHandler { h_payload_length : Z; h_encryption : Z; h_password : list byte }.

(** [submitted] is what was handed to [handler_->handle], in order. *)
Record read_protocol := mkProtocol {
  handler_ : handler;
  parser_ : parser;
  current_state_ : state;
  data_ : list byte;
  encryption_instance_ : engine;
  submitted : list packet
}.

Definition new_read_protocol (h : handler) : read_protocol :=
  mkProtocol h (new_parser (h_payload_length h)) none [] None [].

Definition set_state (s : state) (c : read_protocol) : read_protocol :=
  mkProtocol (handler_ c) (parser_ c) s (data_ c) (encryption_instance_ c) (submitted c).

(** [on_connect]: [random_iv] is the generated IV, [now] the clock in the handler's zone. *)
Definition on_connect (random_iv : list byte) (now : Z) (c : read_protocol) : result nsca_exception read_protocol :=
  let c := set_state connected c in
  let* e := lift_crypt (encrypt_init (h_password (handler_ c)) (h_encryption (handler_ c)) random_iv random_iv) in
  let* out := iv_get_buffer (mkIv random_iv (wrap_u 32 now)) in
  Ok (mkProtocol (handler_ c) (parser_ c) (current_state_ c) out e (submitted c)).

Definition wants_data (c : read_protocol) : bool := match current_state_ c with sent_iv => true | _ => false end.
Definition has_data (c : read_protocol) : bool := match current_state_ c with connected => true | _ => false end.
Definition on_write (c : read_protocol) : read_protocol := set_state sent_iv c.

Definition kMaxClockSkewSeconds : Z := 5 * 60.

(** The [try] block: decrypt, parse, check the clock, hand over; an exception is logged. *)
Definition process_packet (now : Z) (c : read_protocol) : read_protocol :=
  match parser_decrypt (parser_ c) (encryption_instance_ c) with
  | Throw _ => c
  | Ok (p, e) =>
      match parser_parse p with
      | Throw _ => mkProtocol (handler_ c) p (current_state_ c) (data_ c) e (submitted c)
      | Ok (request, p') =>
          let skew := wrap_u 32 now - time request in
          mkProtocol (handler_ c) p' (current_state_ c) (data_ c) e
            (if (kMaxClockSkewSeconds <? skew) || (skew <? - kMaxClockSkewSeconds) then submitted c else submitted c ++ [request])
      end
  end.

(** [on_read]: whether to go on reading, and the connection. *)
Fixpoint on_read_loop (fuel : nat) (now : Z) (c : read_protocol) (input : list byte) : bool * read_protocol :=
  match input, fuel with
  | [], _ => (true, c)
  | _, O => (true, c)
  | _, S fuel' =>
      let '(result, rest, p) := digest (parser_ c) input in
      let c := mkProtocol (handler_ c) p (current_state_ c) (data_ c) (encryption_instance_ c) (submitted c) in
      if Nat.eqb (length rest) (length input) then (false, c)
      else if (result : bool) then (false, process_packet now (set_state done_ c))
      else on_read_loop fuel' now c rest
  end.
Definition on_read (now : Z) (c : read_protocol) (input : list byte) : bool * read_protocol :=
  on_read_loop (length input) now c input.

(** ** The client's connection *)

Inductive client_state := c_none | c_connected | c_got_iv | c_sent_request | c_has_request | c_done.

(** [time_] is not set until the IV packet is read: [None]. *)
Record client_protocol := mkClient {
  iv_buffer_ : list byte;
  crypto_ : engine;
  client_time_ : option Z;
  packet_ : option packet;
  client_current_state_ : client_state
}.
Definition new_client : client_protocol := mkClient [] None None None c_none.

Definition client_on_connect (c : client_protocol) : client_protocol :=
  mkClient (iv_buffer_ c) (crypto_ c) (client_time_ c) (packet_ c) c_connected.
Definition prepare_request (p : packet) (c : client_protocol) : client_protocol :=
  mkClient (iv_buffer_ c) (crypto_ c) (client_time_ c) (Some p)
    (match client_current_state_ c with c_sent_request => c_has_request | _ => c_connected end).

(** The bytes read into [get_inbound()]'s buffer. *)
Definition client_fill (bytes : list byte) (c : client_protocol) : client_protocol :=
  mkClient bytes (crypto_ c) (client_time_ c) (packet_ c) (client_current_state_ c).

Definition client_on_read (password : list byte) (method : Z) (c : client_protocol) : result nsca_exception client_protocol :=
  let* p := iv_parse (iv_buffer_ c) in
  let* e := lift_crypt (encrypt_init password method (iv p) (iv p)) in
  Ok (mkClient (iv_buffer_ c) e (Some (wrap_s 32 (iv_time p))) (packet_ c) c_got_iv).

(** [get_outbound]; [random] is [get_rand_buffer].  [None]: read before it was set. *)
Definition get_outbound (random : list byte) (c : client_protocol) : option (result nsca_exception (list byte * client_protocol)) :=
  match packet_ c, client_time_ c with
  | Some p, Some t =>
      Some (let* str := get_buffer p random t in
            let* be := lift_crypt (encrypt_buffer (crypto_ c) str) in
            Ok (be.1, mkClient (iv_buffer_ c) be.2 (client_time_ c) (packet_ c) (client_current_state_ c)))
  | _, _ => None
  end.
Definition client_on_write (c : client_protocol) : client_protocol :=
  mkClient (iv_buffer_ c) (crypto_ c) (client_time_ c) (packet_ c) c_sent_request.
End Connection.

(** ** NSCAServer::handle *)

Record submission := mkSubmission { s_host : list byte; s_service : list byte; s_code : Z; s_message : list byte; s_perf : list byte }.

Definition c_bar : byte := Byte.x7c.
(** [result.find('|')] as the text before and after it *)
Fixpoint cut_bar (s : list byte) : list byte * option (list byte) :=
  match s with
  | [] => ([], None)
  | b :: s' => if Byte.eqb b c_bar then ([], Some s') else let '(m, r) := cut_bar s' in (b :: m, r)
  end.

Definition nsca_handle (noPerfData : bool) (p : packet) : submission :=
  let code := if code p >? 3 then 3 else code p in
  let '(msg, perf) := cut_bar (result_ p) in
  mkSubmission (sanitize_identity (host p)) (sanitize_identity (service p)) code msg
    (match perf with Some s => if noPerfData then [] else s | None => [] end).

(** ** Round trip of a packet *)

Lemma length_copy_string v n : length (copy_string v n) = n.
Proof. unfold copy_string. rewrite length_take, length_app, length_replicate. lia. Qed.

(** A field that is shorter than its room is read back. *)
Lemma strn_field off n m v buf : read_at off n buf = copy_string v n -> no_nul v -> (length v < n <= m)%nat ->
  strn (drop off buf) m = v.
Proof.
  intros Hr Hv Hn. rewrite <- (take_drop n (drop off buf)). unfold read_at in Hr. rewrite Hr.
  unfold copy_string. rewrite take_app_ge, take_replicate, Nat.min_l by lia.
  replace (n - length v)%nat with (S (n - length v - 1)) by lia. cbn [replicate]. rewrite <- app_assoc. cbn [app].
  apply strn_app_nul; [done | lia].
Qed.
Lemma cstr_zeros v k : cstr (v ++ replicate k x00) = cstr v.
Proof. induction v as [|b v IH]; cbn; [by destruct k|]. by rewrite IH. Qed.

(** A field is read back as what was copied into it. *)
Lemma strn_copied off n v buf : read_at off n buf = copy_string v n -> strn (drop off buf) n = cstr (take n v).
Proof.
  unfold read_at, strn. intros ->. unfold copy_string. destruct (Nat.le_gt_cases n (length v)).
  - by rewrite take_app_le by lia.
  - rewrite take_app_ge, (take_ge v), take_replicate by lia. apply cstr_zeros.
Qed.

(** What a serialised packet looks like. *)
Record encodes (p : packet) (stamp : Z) (out : list byte) : Prop := {
  enc_long : packet_length (payload_length_ p) <= zlength out;
  enc_version : read_at data.off_version 2 out = be_bytes 2 data.version3;
  enc_time : read_at data.off_timestamp 4 out = be_bytes 4 stamp;
  enc_code : read_at data.off_return_code 2 out = be_bytes 2 (wrap_s 16 (code p));
  enc_host : read_at data.off_data data.host_length out = copy_string (host p) data.host_length;
  enc_desc : read_at data.off_desc data.desc_length out = copy_string (service p) data.desc_length;
  enc_result : read_at data.off_result (Z.to_nat (payload_length_ p)) out = copy_string (result_ p) (Z.to_nat (payload_length_ p));
  enc_crc : be_uint32 data.off_crc32 out = calculate_crc32 (write_at data.off_crc32 (be_bytes 4 0) out) (length out)
}.

(** The payload length leaves room for the header in an [int], the type the checksum counts with. *)
Definition sane_length (payload_length : Z) : Prop := 0 <= payload_length < 2 ^ 31 - 208.

Lemma packet_length_sane n : sane_length n -> packet_length n = n + 208.
Proof.
  unfold sane_length, packet_length. change (Z.of_nat data.sizeof_packet) with 16. change (Z.of_nat data.host_length) with 64.
  change (Z.of_nat data.desc_length) with 128. intros. rewrite wrap_u_id; unfold in_u; lia.
Qed.

#[local] Opaque be_bytes copy_string Z.to_nat.

(** The stores of [get_buffer] before the checksum. *)
Definition stores (p : packet) (stamp : Z) : list (nat * list byte) :=
  [(data.off_version, be_bytes 2 data.version3); (data.off_timestamp, be_bytes 4 stamp);
   (data.off_return_code, be_bytes 2 (wrap_s 16 (code p))); (data.off_crc32, be_bytes 4 0);
   (data.off_data, copy_string (host p) data.host_length); (data.off_desc, copy_string (service p) data.desc_length);
   (data.off_result, copy_string (result_ p) (Z.to_nat (payload_length_ p)))].

Ltac in_buffer := repeat (apply Forall_cons; split); try (apply Forall_nil; exact I); unfold fits, apart; cbn [fst snd];
  rewrite ?length_be_bytes, ?length_copy_string; unfold data.off_result, data.off_desc, data.off_data, data.host_length,
    data.desc_length, data.off_crc32, data.off_return_code, data.off_timestamp, data.off_version; lia.

Lemma stores_fit p stamp n : (Z.to_nat (payload_length_ p) + 206 <= n)%nat -> Forall (fits n) (stores p stamp).
Proof. intros. unfold stores. in_buffer. Qed.

(** Store number [k] is read back. *)
Lemma read_store p stamp buffer k off bs : (Z.to_nat (payload_length_ p) + 206 <= length buffer)%nat ->
  stores p stamp !! k = Some (off, bs) -> read_at off (length bs) (write_all (stores p stamp) buffer) = bs.
Proof.
  intros Hl Hk. pose proof (take_drop_middle _ _ _ Hk) as Hsplit. rewrite <- Hsplit at 1. apply read_write_all.
  - rewrite Hsplit. by apply stores_fit.
  - clear Hsplit. unfold stores in *.
    destruct k as [|[|[|[|[|[|[|]]]]]]]; cbn [lookup list_lookup] in Hk; try (injection Hk as <- <-; cbn [drop]; in_buffer).
    done.
Qed.

Lemma get_buffer_encodes p buffer servertime out : sane_length (payload_length_ p) ->
  get_buffer p buffer servertime = Ok out ->
  length out = length buffer /\ encodes p (if servertime =? 0 then time p else wrap_u 32 servertime) out.
Proof.
  intros Hs. unfold get_buffer. destruct (Z.ltb_spec (zlength buffer) (packet_length (payload_length_ p))) as [|Hl]; [done|].
  rewrite packet_length_sane in Hl by done. unfold zlength, sane_length in *.
  set (stamp := if servertime =? 0 then _ else _). intros [= <-].
  change (write_at data.off_result _ _) with (write_all (stores p stamp) buffer). set (b := write_all _ _).
  assert (Hb : length b = length buffer) by (apply length_write_all, stores_fit; lia).
  pose proof (read_store p stamp buffer) as Hrs. fold b in Hrs.
  assert (Hz : write_at data.off_crc32 (be_bytes 4 0) b = b).
  { apply write_at_noop; [apply (Hrs 3%nat); [lia | done] | rewrite length_be_bytes; unfold data.off_crc32; lia]. }
  set (crc := calculate_crc32 b (length b)).
  assert (Hlen : length (write_at data.off_crc32 (be_bytes 4 crc) b) = length b)
    by (apply length_write_at; rewrite length_be_bytes; unfold data.off_crc32; lia).
  assert (Hrd : forall k off bs n, stores p stamp !! k = Some (off, bs) -> n = length bs -> (off + n <= 4 \/ 8 <= off)%nat ->
    read_at off n (write_at data.off_crc32 (be_bytes 4 crc) b) = bs).
  { intros k off bs n Hk -> Hd. rewrite read_write_disjoint by (rewrite length_be_bytes; unfold data.off_crc32; lia).
    apply (Hrs k); [lia | done]. }
  split; [lia|]. constructor;
    [unfold zlength; rewrite Hlen, packet_length_sane by done; lia
    | apply (Hrd 0%nat) | apply (Hrd 1%nat) | apply (Hrd 2%nat) | apply (Hrd 4%nat) | apply (Hrd 5%nat) | apply (Hrd 6%nat) |].
  all: try first [done | by rewrite length_be_bytes | by rewrite length_copy_string
    | unfold data.off_result, data.off_desc, data.off_data, data.off_timestamp, data.off_return_code, data.off_version; lia].
  - assert (Hin : (data.off_crc32 + 4 <= length b)%nat) by (unfold data.off_crc32; lia).
    unfold be_uint32. rewrite read_write_eq by (rewrite ?length_be_bytes; done || lia). rewrite be_value_be_bytes.
    rewrite wrap_u_id by apply calculate_crc32_range.
    rewrite write_write_same, Hz, Hlen by (rewrite ?length_be_bytes; done || lia). done.
Qed.

(** The packet a serialised one stands for. *)
Definition received (p : packet) (stamp payload_length : Z) : packet :=
  mkPacket (service p) (result_ p) (host p) (code p) stamp payload_length.

(** What the fields of a packet hold of its strings: the bytes before the first NUL, as far as
    the field reaches.  The client sends longer strings too, and cuts them. *)
Definition carried (p : packet) (stamp payload_length : Z) : packet :=
  mkPacket (cstr (take data.desc_length (service p))) (cstr (take (Z.to_nat (payload_length_ p)) (result_ p)))
    (cstr (take data.host_length (host p))) (wrap_u 32 (wrap_s 16 (code p))) stamp payload_length.

(** A packet that fits: no field is cut, by the limits of [validate_lengths] (which the client
    does not call) and by NULs. *)
Record sendable (p : packet) : Prop := {
  ok_lengths : validate_lengths p = Ok tt;
  ok_payload : sane_length (payload_length_ p);
  ok_service : no_nul (service p);
  ok_result : no_nul (result_ p);
  ok_host : no_nul (host p);
  ok_code : 0 <= code p < 2 ^ 15
}.

Lemma validate_lengths_ok p : validate_lengths p = Ok tt ->
  (length (service p) < data.desc_length)%nat /\ (length (host p) < data.host_length)%nat /\ zlength (result_ p) < payload_length_ p.
Proof. unfold validate_lengths. do 3 (case_if; [done|]). intros _. split_and!; [by apply Nat.leb_gt..|by apply Z.leb_gt]. Qed.

Lemma parse_carries p stamp out n : sane_length (payload_length_ p) -> in_u 32 stamp -> encodes p stamp out ->
  zlength out = packet_length (payload_length_ p) -> parse_data n out = Ok (carried p stamp n).
Proof.
  intros Hs Hst [_ Hver Htime Hcode Hhost Hdesc Hres Hcrc] Hl. rewrite packet_length_sane in Hl by done.
  unfold zlength, sane_length in *. unfold parse_data.
  assert (min_packet_size = 208)%nat as -> by done. destruct (Nat.ltb_spec (length out) 208) as [|_]; [lia|].
  unfold be_int16. rewrite Hver, Hcode, !be_value_be_bytes. change (Z.of_nat 2 * 8) with 16.
  change (wrap_s 16 (wrap_u 16 data.version3)) with data.version3.
  cbn [negb Z.eqb Pos.eqb data.version3]. rewrite Hcrc, Z.eqb_refl. cbn [negb].
  replace (length out - data.sizeof_packet - data.host_length - data.desc_length)%nat with (Z.to_nat (payload_length_ p))
    by (unfold data.sizeof_packet, data.host_length, data.desc_length; lia).
  rewrite (strn_copied _ _ _ _ Hhost), (strn_copied _ _ _ _ Hdesc), (strn_copied _ _ _ _ Hres).
  unfold be_uint32. rewrite Htime, be_value_be_bytes, (wrap_u_id _ stamp) by done. unfold carried.
  by rewrite wrap_s_u by first [lia | apply wrap_s_range; lia].
Qed.

Lemma parse_encodes p stamp out n : sendable p -> in_u 32 stamp -> encodes p stamp out ->
  parse_data n out = Ok (received p stamp n).
Proof.
  intros [Hv Hs Hsv Hrs Hh Hc] Hst [Hlong Hver Htime Hcode Hhost Hdesc Hres Hcrc].
  destruct (validate_lengths_ok p Hv) as (Ls & Lh & Lr). rewrite packet_length_sane in Hlong by done.
  unfold zlength, sane_length in *. unfold parse_data.
  assert (min_packet_size = 208)%nat as -> by done. destruct (Nat.ltb_spec (length out) 208) as [|Hl]; [lia|].
  unfold be_int16. rewrite Hver, Hcode, !be_value_be_bytes. change (Z.of_nat 2 * 8) with 16.
  change (wrap_s 16 (wrap_u 16 data.version3)) with data.version3.
  cbn [negb Z.eqb Pos.eqb data.version3]. rewrite Hcrc, Z.eqb_refl. cbn [negb].
  rewrite (strn_field _ _ _ _ _ Hhost), (strn_field _ _ _ _ _ Hdesc), (strn_field _ _ _ _ _ Hres) by
    first [done | unfold data.sizeof_packet, data.host_length, data.desc_length in *; lia].
  unfold be_uint32. rewrite Htime, be_value_be_bytes, (wrap_u_id _ stamp) by done. unfold received.
  rewrite (wrap_s_id 16 (code p)), wrap_s_u, wrap_u_id by (unfold in_s, in_u; lia). done.
Qed.

(** A serialised packet is parsed back to the same host, service, text and return code, with the
    given server time (or its own when that is 0), into any buffer that is long enough and
    whatever it held. *)
Theorem nsca_roundtrip (p : packet) (buffer : list byte) (servertime payload_length : Z) (Hp : sendable p)
    (Ht : in_u 32 (time p)) (Hb : packet_length (payload_length_ p) <= zlength buffer) :
  exists out, get_buffer p buffer servertime = Ok out /\ length out = length buffer /\
    parse_data payload_length out = Ok (received p (if servertime =? 0 then time p else wrap_u 32 servertime) payload_length).
Proof.
  destruct (get_buffer p buffer servertime) as [out|e] eqn:E.
  - destruct (get_buffer_encodes p buffer servertime out (ok_payload p Hp) E) as [Hl He]. exists out. split_and!; [done..|].
    apply parse_encodes; [done | | done]. case_if; auto with nscp lia.
  - unfold get_buffer in E. destruct (Z.ltb_spec (zlength buffer) (packet_length (payload_length_ p))); [lia | done].
Qed.

Definition sample : packet := mkPacket [Byte.x73; Byte.x76] [Byte.x6f; Byte.x6b] [Byte.x68] 2 1000 8.

Lemma sample_sendable : sendable sample.
Proof. constructor; [reflexivity | unfold sane_length; cbn; lia | by apply (bool_decide_unpack _).. | cbn; lia]. Qed.

Lemma nsca_roundtrip_witness :
  exists out, get_buffer sample (replicate 216 Byte.x2a) 0 = Ok out /\ length out = length (replicate 216 Byte.x2a) /\
    parse_data 8 out = Ok (received sample (if 0 =? 0 then time sample else wrap_u 32 0) 8).
Proof. apply (nsca_roundtrip sample); [exact sample_sendable | unfold in_u; cbn; lia | vm_compute; discriminate]. Defined.

(** ** The submitted report *)

Definition printable (c : byte) : Prop := 32 <= byte.unsigned c /\ byte.unsigned c <> 127.

Lemma sanitize_identity_printable s : Forall printable (sanitize_identity s).
Proof.
  induction s as [|c s IH]; cbn; [done|]. case_if; [|done]. constructor; [|done].
  apply andb_prop in Heqb as [?%Z.leb_le ?%negb_true_iff%Z.eqb_neq]. by split.
Qed.

Lemma sanitize_identity_id s : Forall printable s -> sanitize_identity s = s.
Proof.
  induction 1 as [|c s [H1 H2] _ IH]; cbn; [done|]. apply Z.leb_le in H1. apply Z.eqb_neq in H2. rewrite H1, H2. cbn. by f_equal.
Qed.

Lemma cut_bar_spec s : let '(m, r) := cut_bar s in
  Forall (fun c => c <> c_bar) m /\ s = m ++ match r with Some t => c_bar :: t | None => [] end.
Proof.
  induction s as [|b s IH]; cbn [cut_bar]; [done|]. destruct (Byte.eqb b c_bar) eqn:E.
  - apply Byte.byte_dec_bl in E as ->. done.
  - destruct (cut_bar s) as [m r]. destruct IH as [Hm ->]. split; [|done]. constructor; [|done]. intros ->. by rewrite Byte.byte_dec_lb in E.
Qed.

Lemma cut_bar_none s : Forall (fun c => c <> c_bar) s -> cut_bar s = (s, None).
Proof.
  induction 1 as [|b s Hb _ IH]; cbn [cut_bar]; [done|]. rewrite IH. destruct (Byte.eqb b c_bar) eqn:E; [|done].
  by apply Byte.byte_dec_bl in E.
Qed.

(** A packet that says what it means: names without control characters, a state of Nagios and a
    text without performance data. *)
Definition plain (p : packet) : Prop :=
  Forall printable (host p) /\ Forall printable (service p) /\ 0 <= code p <= 3 /\ Forall (fun c => c <> c_bar) (result_ p).

Lemma cstr_fits n s : no_nul s -> (length s < n)%nat -> cstr (take n s) = s.
Proof. intros Hn Hl. rewrite take_ge by lia. by apply cstr_id. Qed.
Lemma carried_whole p stamp n : sendable p -> carried p stamp n = received p stamp n.
Proof.
  intros [Hv Hs Hsv Hrs Hh Hc]. destruct (validate_lengths_ok p Hv) as (Ls & Lh & Lr). unfold carried, received, zlength in *.
  by rewrite !cstr_fits, (wrap_s_id 16 (code p)), wrap_u_id by (done || (unfold in_s, in_u; lia)).
Qed.
Lemma plain_report noPerfData p stamp n : plain p ->
  nsca_handle noPerfData (received p stamp n) = mkSubmission (host p) (service p) (code p) (result_ p) [].
Proof.
  intros (Hh & Hs & Hc & Hb). unfold nsca_handle, received. cbn [host service code result_].
  rewrite cut_bar_none, !sanitize_identity_id by done. rewrite Z.gtb_ltb, (proj2 (Z.ltb_ge _ _)) by lia. done.
Qed.

(** ** The server's connection *)

Section Server.
Context `{cryptopp}.

Lemma length_decrypt_buffer e b be : decrypt_buffer e b = Ok be -> length be.1 = length b.
Proof.
  destruct e as [c|]; cbn; [|done]. assert (Hx : forall password iv l x z, length (xor_decrypt password iv l x z) = length l)
    by (induction l; intros; cbn; [done | by rewrite IHl]).
  assert (Hr : forall l r, length (cfb_run dec_byte r l).1 = length l).
  { induction l as [|a l IH]; intros r; cbn; [done|]. destruct (dec_byte r a) as [a' r1]. specialize (IH r1).
    destruct (cfb_run dec_byte r1 l). cbn in *. by rewrite IH. }
  destruct c as [| |crypto decrypto]; cbn; [by intros [= <-] | intros [= <-]; apply Hx|].
  specialize (Hr b decrypto). destruct (cfb_run dec_byte decrypto b). by intros [= <-].
Qed.

Lemma strn_length l n : (length (strn l n) <= n)%nat.
Proof. unfold strn. etrans; [apply cstr_length|]. rewrite length_take. lia. Qed.

(** What [parse_data] lets through. *)
Lemma parse_data_bounds n b q : parse_data n b = Ok q ->
  (length (host q) <= data.host_length)%nat /\ (length (service q) <= data.desc_length)%nat /\
  zlength (result_ q) <= zlength b - 208 /\ in_u 32 (code q) /\ in_u 32 (time q) /\ payload_length_ q = n.
Proof.
  unfold parse_data. destruct (Nat.ltb_spec (length b) min_packet_size) as [|Hl]; [done|]. case_if; [done|]. case_if; [done|].
  intros [= <-]. cbn [host service result_ code time payload_length_]. unfold min_packet_size in Hl.
  split_and!; [apply strn_length..| | by apply wrap_u_range | | done].
  - unfold zlength. pose proof (strn_length (drop data.off_result b) (length b - data.sizeof_packet - data.host_length - data.desc_length)).
    change data.sizeof_packet with 16%nat in *. change data.host_length with 64%nat in *. change data.desc_length with 128%nat in *. lia.
  - unfold be_uint32, in_u. pose proof (be_value_range (read_at data.off_timestamp 4 b)) as Hr.
    unfold zlength in Hr. rewrite length_read_at in Hr; [exact Hr|]. unfold data.off_timestamp.
    change data.sizeof_packet with 16%nat in Hl. lia.
Qed.

Definition with_buffer (b : list byte) (c : read_protocol) : read_protocol :=
  mkProtocol (handler_ c) (mkParser (parser_payload_length_ (parser_ c)) (packet_length_ (parser_ c)) b)
    (current_state_ c) (data_ c) (encryption_instance_ c) (submitted c).

(** The bytes the parser is still waiting for. *)
Definition missing (c : read_protocol) : nat := Z.to_nat (packet_length_ (parser_ c)) - length (buffer_ (parser_ c)).

Definition reading (c : read_protocol) : Prop :=
  in_u 32 (packet_length_ (parser_ c)) /\ zlength (buffer_ (parser_ c)) <= packet_length_ (parser_ c).

(** [on_read] takes what is missing: it stores a short chunk, and processes the packet when it is whole. *)
Lemma on_read_spec now c input : reading c ->
  on_read now c input =
    if Nat.ltb (length input) (missing c) || Nat.eqb (length input) 0 then (true, with_buffer (buffer_ (parser_ c) ++ input) c)
    else if Nat.eqb (missing c) 0 then (false, c)
    else (false, process_packet now (set_state done_ (with_buffer (buffer_ (parser_ c) ++ take (missing c) input) c))).
Proof.
  intros [Hu Hl]. unfold on_read, missing, zlength, in_u in *. destruct c as [h [n L b] st d e sub]. cbn [parser_ packet_length_ buffer_] in *.
  destruct input as [|a input]; [cbn; unfold with_buffer; cbn; rewrite app_nil_r; by rewrite orb_true_r|].
  cbn [length on_read_loop]. unfold digest. cbn [parser_ packet_length_ buffer_ parser_payload_length_].
  unfold zlength. rewrite wrap_u_id by (unfold in_u; lia). replace (Z.to_nat (L - Z.of_nat (length b))) with (Z.to_nat L - length b)%nat by lia.
  set (k := (Z.to_nat L - length b)%nat). rewrite length_drop. cbn [length].
  destruct (Nat.ltb_spec (S (length input)) k) as [Hk|Hk]; cbn [orb Nat.eqb].
  - rewrite drop_ge, take_ge by (cbn; lia). destruct (Nat.eqb_spec (S (length input) - k) (S (length input))) as [|_]; [lia|].
    rewrite length_app. cbn [length]. destruct (Z.leb_spec L (Z.of_nat (length b + S (length input)))) as [|_]; [lia|].
    destruct (length input); done.
  - destruct (Nat.eqb_spec k 0) as [->|Hk0].
    + rewrite Nat.sub_0_r, Nat.eqb_refl. cbn. by rewrite app_nil_r.
    + destruct (Nat.eqb_spec (S (length input) - k) (S (length input))) as [|_]; [lia|].
      rewrite length_app, length_take. cbn [length]. rewrite Nat.min_l by lia.
      destruct (Z.leb_spec L (Z.of_nat (length b + k))) as [_|]; [done | lia].
Qed.

(** The chunks a connection reads, each with the clock at that moment, until it is told to stop. *)
Fixpoint serve (c : read_protocol) (reads : list (Z * list byte)) : bool * read_protocol :=
  match reads with
  | [] => (true, c)
  | (now, chunk) :: reads' => let '(more, c) := on_read now c chunk in if more then serve c reads' else (false, c)
  end.

(** A packet the server may hand over: whole, with a correct checksum, near the clock. *)
Definition admissible (h : handler) (reads : list (Z * list byte)) (q : packet) : Prop :=
  (exists now chunk, (now, chunk) ∈ reads /\ Z.abs (wrap_u 32 now - time q) <= kMaxClockSkewSeconds) /\
  (exists buffer, zlength buffer = packet_length (h_payload_length h) /\ parse_data (h_payload_length h) buffer = Ok q) /\
  (length (host q) <= data.host_length)%nat /\ (length (service q) <= data.desc_length)%nat /\
  zlength (result_ q) <= h_payload_length h.

(** Whole packets are processed at most once: the parser belongs to the handler. *)
Definition fresh_for (h : handler) (c : read_protocol) : Prop :=
  handler_ c = h /\ parser_payload_length_ (parser_ c) = h_payload_length h /\
  packet_length_ (parser_ c) = packet_length (h_payload_length h) /\ reading c /\ submitted c = [].

Lemma packet_length_range n : in_u 32 (packet_length n).
Proof. unfold packet_length. by apply wrap_u_range. Qed.

Lemma packet_length_le n : 0 <= n -> packet_length n - 208 <= n.
Proof.
  intros. unfold packet_length, wrap_u. change (Z.of_nat data.sizeof_packet) with 16. change (Z.of_nat data.host_length) with 64.
  change (Z.of_nat data.desc_length) with 128. pose proof (Z.mod_le (16 + n + 64 + 128) (2 ^ 32)). lia.
Qed.

Lemma process_packet_admissible h reads now chunk c : 0 <= h_payload_length h -> (now, chunk) ∈ reads -> submitted c = [] ->
  parser_payload_length_ (parser_ c) = h_payload_length h -> zlength (buffer_ (parser_ c)) = packet_length (h_payload_length h) ->
  (length (submitted (process_packet now c)) <= 1)%nat /\ Forall (admissible h reads) (submitted (process_packet now c)).
Proof.
  intros Hn Hin Hs Hp Hb. unfold process_packet, parser_decrypt. destruct (decrypt_buffer _ _) as [be|x] eqn:Ed; cbn [lift_crypt rbind];
    [|rewrite Hs; auto]. apply length_decrypt_buffer in Ed. unfold parser_parse. cbn [buffer_ parser_payload_length_].
  destruct (parse_data _ _) as [q|x] eqn:Eq; cbn [rbind submitted]; [|rewrite Hs; auto].
  case_if; rewrite Hs; [auto|]. split; [done|]. rewrite Hp in Eq. apply Forall_singleton. unfold admissible. split_and!.
  - exists now, chunk. split; [done|]. unfold kMaxClockSkewSeconds in *. apply orb_false_iff in Heqb as [?%Z.ltb_ge ?%Z.ltb_ge]. lia.
  - exists be.1. split; [|done]. unfold zlength in *. by rewrite Ed.
  - by apply (parse_data_bounds _ _ _ Eq).
  - by apply (parse_data_bounds _ _ _ Eq).
  - destruct (parse_data_bounds _ _ _ Eq) as (_ & _ & Hr & _). unfold zlength in *. rewrite Ed, Hb in Hr.
    pose proof (packet_length_le _ Hn). lia.
Qed.

Lemma serve_admissible h all reads : 0 <= h_payload_length h -> forall c, reads ⊆ all -> fresh_for h c ->
  (length (submitted (serve c reads).2) <= 1)%nat /\ Forall (admissible h all) (submitted (serve c reads).2).
Proof.
  intros Hn. induction reads as [|[now chunk] reads IH]; intros c Hall (Hh & Hp & Hl & Hr & Hs); cbn [serve].
  { cbn. rewrite Hs. auto. }
  rewrite on_read_spec by done. assert (Hin : (now, chunk) ∈ all) by (apply Hall; left).
  destruct Hr as [Hu Hle]. unfold missing, zlength, in_u in *.
  case_if; [|destruct (Nat.eqb_spec (Z.to_nat (packet_length_ (parser_ c)) - length (buffer_ (parser_ c))) 0)].
  - apply IH; [intros x Hx; apply Hall; by right|]. unfold fresh_for, with_buffer, reading. cbn. split_and!; auto.
    unfold zlength. rewrite length_app. apply orb_prop in Heqb as [?%Nat.ltb_lt|?%Nat.eqb_eq]; lia.
  - cbn. rewrite Hs. auto.
  - cbn [snd]. apply orb_false_iff in Heqb as [?%Nat.ltb_ge ?]. eapply process_packet_admissible; eauto.
    cbn. unfold zlength. rewrite length_app, length_take, Nat.min_l by lia. rewrite <- Hl. lia.
Qed.

(** Whatever bytes arrive in whatever chunks, one connection submits at most one packet, and
    only one that is whole, whose checksum is right after decryption, whose timestamp is within
    five minutes of the clock and whose host, service and text fit their fields. *)
Theorem nsca_server_submissions (h : handler) (random_iv : list byte) (now : Z) (c : read_protocol) (reads : list (Z * list byte))
    (Hn : 0 <= h_payload_length h) (Hc : on_connect random_iv now (new_read_protocol h) = Ok c) :
  let submitted := submitted (serve (on_write c) reads).2 in
  (length submitted <= 1)%nat /\ Forall (admissible h reads) submitted.
Proof.
  cbv zeta. apply serve_admissible; [done | done |]. unfold on_connect in Hc. apply rbind_Ok_inv in Hc as (e & He & Hc).
  apply rbind_Ok_inv in Hc as (out & Ho & [= <-]). unfold fresh_for, reading. cbn.
  split_and!; try done; [apply packet_length_range | apply packet_length_range].
Qed.

(** ** From the client to the server *)

Lemma iv_roundtrip riv t : length riv = data.transmitted_iuv_size -> in_u 32 t ->
  exists bytes, iv_get_buffer (mkIv riv t) = Ok bytes /\ iv_parse bytes = Ok (mkIv riv t).
Proof.
  intros Hl Ht. unfold iv_get_buffer, iv_parse. cbn [iv iv_time]. rewrite Hl, Nat.eqb_refl. cbn [negb]. eexists; split; [done|].
  set (b := write_at 0 riv _). assert (Hb : length b = data.sizeof_iv_packet) by
    (unfold b; rewrite length_write_at; rewrite length_replicate; [done | rewrite Hl; unfold data.transmitted_iuv_size, data.sizeof_iv_packet; lia]).
  assert (Hw : (data.transmitted_iuv_size + length (be_bytes 4 t) <= length b)%nat)
    by (rewrite Hb, length_be_bytes; unfold data.transmitted_iuv_size, data.sizeof_iv_packet; lia).
  rewrite length_write_at, Hb, Nat.ltb_irrefl by done. unfold be_uint32.
  rewrite read_write_eq by (rewrite ?length_be_bytes in *; done || lia). rewrite be_value_be_bytes, wrap_u_id by done.
  rewrite read_write_disjoint by lia. unfold b. rewrite read_write_eq; [done | by rewrite Hl |].
  rewrite length_replicate. unfold data.transmitted_iuv_size, data.sizeof_iv_packet. lia.
Qed.

(** What the client sends for one packet, given the server's first bytes. *)
Definition client_session (password : list byte) (method : Z) (p : packet) (iv_bytes random : list byte) :
    option (result nsca_exception (list byte)) :=
  let c := client_fill iv_bytes (prepare_request p (client_on_connect new_client)) in
  match client_on_read password method c with
  | Throw e => Some (Throw e)
  | Ok c => match get_outbound random c with
            | Some r => Some (let* bc := r in Ok bc.1)
            | None => None
            end
  end.

Lemma encrypt_init_core password method v f e : encrypt_init password method v f = Ok e -> exists k, e = Some k /\ in_step k k.
Proof.
  unfold encrypt_init. destruct (get_encryption_core _ _ _); [|done]. intros (k & Hk & [= <-])%rbind_Ok_inv.
  exists k. split; [done|]. by eapply cipher_init_in_step.
Qed.

Lemma client_session_ok password method p riv t random k : sane_length (payload_length_ p) -> length riv = data.transmitted_iuv_size ->
  in_u 32 t -> t <> 0 -> packet_length (payload_length_ p) <= zlength random -> encrypt_init password method riv riv = Ok (Some k) ->
  exists iv_bytes out, iv_get_buffer (mkIv riv t) = Ok iv_bytes /\ encodes p t out /\ length out = length random /\
    client_session password method p iv_bytes random = Some (Ok (core_encrypt k out).1).
Proof.
  intros Hp Hiv Ht Ht0 Hr He. destruct (iv_roundtrip riv t Hiv Ht) as (iv_bytes & Hg & Hpa).
  destruct (get_buffer p random (wrap_s 32 t)) as [out|x] eqn:Eg.
  2:{ unfold get_buffer in Eg. destruct (Z.ltb_spec (zlength random) (packet_length (payload_length_ p))); [lia | done]. }
  destruct (get_buffer_encodes _ _ _ _ Hp Eg) as [Hl Henc]. exists iv_bytes, out.
  assert (Hstamp : (if wrap_s 32 t =? 0 then time p else wrap_u 32 (wrap_s 32 t)) = t).
  { destruct (Z.eqb_spec (wrap_s 32 t) 0) as [E|_]; [|by rewrite wrap_u_s, wrap_u_id by done].
    apply (f_equal (wrap_u 32)) in E. rewrite wrap_u_s, wrap_u_id in E by done. done. }
  rewrite Hstamp in Henc. split_and!; try done. unfold client_session, client_on_read. cbn [client_fill iv_buffer_].
  rewrite Hpa. cbn [rbind iv]. rewrite He. cbn. rewrite Eg. cbn. by destruct (core_encrypt k out).
Qed.

(** However the bytes of one packet are cut, they are processed once, whole. *)
Lemma serve_cut reads : forall c, reading c -> (0 < missing c)%nat -> length (concat (map snd reads)) = missing c ->
  exists now chunk, (now, chunk) ∈ reads /\
    serve c reads = (false, process_packet now (set_state done_ (with_buffer (buffer_ (parser_ c) ++ concat (map snd reads)) c))).
Proof.
  induction reads as [|[now chunk] reads IH]; intros c Hr Hm Hl; cbn [map concat] in Hl; [cbn in Hl; lia|].
  rewrite length_app in Hl. cbn [snd] in Hl. cbn [serve map concat snd]. rewrite on_read_spec by done.
  destruct (Nat.ltb_spec (length chunk) (missing c)) as [Hc|Hc]; cbn [orb].
  - destruct (IH (with_buffer (buffer_ (parser_ c) ++ chunk) c)) as (now' & chunk' & Hin & ->).
    + destruct Hr as [Hu Hle]. split; [done|]. unfold missing, zlength, in_u in *. cbn. rewrite length_app. lia.
    + unfold missing in *. cbn. rewrite length_app. lia.
    + unfold missing in *. cbn. rewrite length_app. lia.
    + exists now', chunk'. split; [by right|]. unfold with_buffer. cbn. by rewrite <- app_assoc.
  - exists now, chunk. split; [left|]. destruct (Nat.eqb_spec (length chunk) 0); [lia|]. destruct (Nat.eqb_spec (missing c) 0); [lia|].
    assert (concat (map snd reads) = []) as -> by (apply nil_length_inv; lia). by rewrite app_nil_r, take_ge by lia.
Qed.

(** C19. For a client and a server with the same password, algorithm and payload length,
    whatever the random bytes and however the network cuts the stream into chunks, and while the
    clock of the server stays within five minutes of the time it sent: the server hands exactly
    one packet to its handler, stamped with that time, whose host, service and text are those of
    the client up to the first NUL and the length of the field (64 and 128 bytes and the payload
    length; the client cuts and does not refuse) and whose return code is that of the client in
    16 bits. When the fields fit and hold no NUL and the code is below 2^15 it is the packet
    itself, and when moreover host and service have no control characters, the code is at most 3
    and the text has no bar, the report the handler submits has exactly that host, service, code
    and text. *)
Theorem nsca_end_to_end (h : handler) (p : packet) (random_iv random : list byte) (now : Z) (e : engine)
    (Hp : sane_length (payload_length_ p)) (Hpl : payload_length_ p = h_payload_length h) (Hiv : length random_iv = data.transmitted_iuv_size)
    (Hnow : wrap_u 32 now <> 0) (Hrand : zlength random = packet_length (payload_length_ p))
    (He : encrypt_init (h_password h) (h_encryption h) random_iv random_iv = Ok e) :
  exists c bytes, on_connect random_iv now (new_read_protocol h) = Ok c /\
    client_session (h_password h) (h_encryption h) p (data_ c) random = Some (Ok bytes) /\
    forall reads, concat (map snd reads) = bytes ->
      Forall (fun '(t, _) => Z.abs (wrap_u 32 t - wrap_u 32 now) <= kMaxClockSkewSeconds) reads ->
      submitted (serve (on_write c) reads).2 = [carried p (wrap_u 32 now) (h_payload_length h)] /\
      (sendable p -> submitted (serve (on_write c) reads).2 = [received p (wrap_u 32 now) (h_payload_length h)]) /\
      (sendable p -> plain p -> forall noPerfData,
         map (nsca_handle noPerfData) (submitted (serve (on_write c) reads).2) =
         [mkSubmission (host p) (service p) (code p) (result_ p) []]).
Proof.
  destruct (encrypt_init_core _ _ _ _ _ He) as (k & -> & Hk). pose proof (wrap_u_range 32 now ltac:(lia)) as Ht.
  destruct (client_session_ok _ _ p random_iv _ random k Hp Hiv Ht Hnow ltac:(lia) He) as (iv_bytes & out & Hg & Henc & Hlo & Hcs).
  pose proof (core_in_step k k out Hk) as Hd. destruct (core_encrypt k out) as [bytes k'] eqn:Ek. destruct Hd as [Hd _].
  assert (Hlb : length bytes = length out).
  { rewrite <- Hd. symmetry. apply (length_decrypt_buffer (Some k) _ ((core_decrypt k bytes).1, Some (core_decrypt k bytes).2)).
    cbn. by destruct (core_decrypt k bytes). }
  unfold on_connect. cbn [set_state handler_ new_read_protocol]. rewrite He. cbn [lift_crypt rbind]. rewrite Hg. cbn [rbind].
  eexists _, bytes. split_and!; [done | done|]. intros reads Hcat Hskew.
  match goal with |- submitted (serve (on_write ?x) reads).2 = _ /\ _ =>
    enough (submitted (serve (on_write x) reads).2 = [carried p (wrap_u 32 now) (h_payload_length h)]) as Hsub end.
  { split; [exact Hsub|]. split; [intros Hw; by rewrite Hsub, carried_whole|]. intros Hw Hpn noPerfData.
    rewrite Hsub, carried_whole by done. cbn [map]. by rewrite plain_report. }
  set (c := on_write _). pose proof (packet_length_range (payload_length_ p)) as Hu.
  assert (Hpos : 0 < packet_length (payload_length_ p)) by (rewrite packet_length_sane by done; destruct Hp; lia).
  assert (Hrc : reading c) by (unfold reading, c; cbn; rewrite <- Hpl; unfold zlength; cbn; split; [done | lia]).
  assert (Hm : missing c = length bytes).
  { unfold missing, c. cbn. rewrite <- Hpl, Nat.sub_0_r, Hlb, Hlo. unfold zlength in Hrand. lia. }
  destruct (serve_cut reads c Hrc) as (t & chunk & Hin & ->).
  { rewrite Hm, Hlb, Hlo. unfold zlength in Hrand. lia. }
  { by rewrite Hcat, Hm. }
  rewrite Forall_forall in Hskew. specialize (Hskew _ Hin). cbn in Hskew. rewrite Hcat. unfold process_packet, parser_decrypt, c. cbn.
  destruct (core_decrypt k bytes) as [out' d] eqn:Ed. cbn in Hd. subst out'. cbn. unfold parser_parse. cbn.
  rewrite (parse_carries p (wrap_u 32 now)) by (done || (unfold zlength in *; lia)). cbn. case_if; [|done].
  apply orb_prop in Heqb as [?%Z.ltb_lt|?%Z.ltb_lt]; unfold kMaxClockSkewSeconds in *; lia.
Qed.
End Server.

Definition sample_handler : handler := mkHandler 8 ENCRYPT_XOR [Byte.x61].
Definition sample_iv : list byte := replicate 128 Byte.x07.
Definition sample_random : list byte := replicate 216 Byte.x2a.
Definition sample_connection : read_protocol :=
  match on_connect sample_iv 1000 (new_read_protocol sample_handler) with Ok c => c | Throw _ => new_read_protocol sample_handler end.
Definition sample_bytes : list byte :=
  match client_session [Byte.x61] ENCRYPT_XOR sample (data_ sample_connection) sample_random with Some (Ok b) => b | _ => [] end.

(** One packet in two chunks is submitted. *)
Definition sample_reads : list (Z * list byte) := [(1200, take 100 sample_bytes); (1210, drop 100 sample_bytes)].

Lemma nsca_server_submissions_witness :
  submitted (serve (on_write sample_connection) sample_reads).2 = [received sample 1000 8] /\
  (length (submitted (serve (on_write sample_connection) sample_reads).2) <= 1)%nat /\
  Forall (admissible sample_handler sample_reads) (submitted (serve (on_write sample_connection) sample_reads).2).
Proof.
  split; [vm_compute; reflexivity|]. apply (nsca_server_submissions sample_handler sample_iv 1000 sample_connection).
  - cbn. lia.
  - vm_compute. reflexivity.
Defined.

Lemma nsca_end_to_end_witness :
  exists c bytes, on_connect sample_iv 1000 (new_read_protocol sample_handler) = Ok c /\
    client_session (h_password sample_handler) (h_encryption sample_handler) sample (data_ c) sample_random = Some (Ok bytes) /\
    forall reads, concat (map snd reads) = bytes ->
      Forall (fun '(t, _) => Z.abs (wrap_u 32 t - wrap_u 32 1000) <= kMaxClockSkewSeconds) reads ->
      map (nsca_handle false) (submitted (serve (on_write c) reads).2) =
      [mkSubmission (host sample) (service sample) (code sample) (result_ sample) []].
Proof.
  destruct (nsca_end_to_end sample_handler sample sample_iv sample_random 1000 (Some (core_xor [Byte.x61] sample_iv)))
    as (c & bytes & Hc & Hb & Hr); [by split | reflexivity | reflexivity | discriminate | reflexivity | reflexivity|].
  exists c, bytes. split; [exact Hc|]. split; [exact Hb|]. intros reads Hcat Hskew.
  apply (Hr reads Hcat Hskew); [exact sample_sendable|]. split_and!; repeat constructor; done.
Defined.

(** A report made from an accepted packet has a host and service without control characters, a
    return code between 0 and 3, and a message that stops at the first bar; the performance data
    is the text behind it, or dropped when the server is told to. *)
Theorem nsca_report (noPerfData : bool) (n : Z) (buffer : list byte) (q : packet) (Hq : parse_data n buffer = Ok q) :
  let s := nsca_handle noPerfData q in
  Forall printable (s_host s) /\ Forall printable (s_service s) /\ 0 <= s_code s <= 3 /\
  Forall (fun c => c <> c_bar) (s_message s) /\
  exists perf, result_ q = s_message s ++ perf /\ s_perf s = (if noPerfData then [] else tail perf) /\
    (perf = [] \/ head perf = Some c_bar).
Proof.
  destruct (parse_data_bounds _ _ _ Hq) as (_ & _ & _ & Hc & _ & _). unfold in_u in Hc. unfold nsca_handle.
  pose proof (cut_bar_spec (result_ q)) as Hb. destruct (cut_bar (result_ q)) as [m r]. destruct Hb as [Hm Hr].
  cbn. split_and!; try apply sanitize_identity_printable; try done.
  - case_if; lia.
  - case_if; [lia|]. rewrite Z.gtb_ltb in Heqb. apply Z.ltb_ge in Heqb. lia.
  - exists (match r with Some t => c_bar :: t | None => [] end). destruct r; split_and!; try done; [by right | by destruct noPerfData | by left].
Qed.

Lemma nsca_report_witness :
  let s := nsca_handle false (received sample 1000 8) in
  Forall printable (s_host s) /\ Forall printable (s_service s) /\ 0 <= s_code s <= 3 /\
  Forall (fun c => c <> c_bar) (s_message s) /\
  exists perf, result_ (received sample 1000 8) = s_message s ++ perf /\ s_perf s = (if false then [] else tail perf) /\
    (perf = [] \/ head perf = Some c_bar).
Proof.
  apply (nsca_report false 8 (match get_buffer sample sample_random 0 with Ok b => b | Throw _ => [] end)).
  vm_compute. reflexivity.
Defined.
