(* ===== verification/Base64.v ===== *)
(** Base64: include/bytes/base64.c, base64.hpp and [Helpers::decode_b64] of
    libs/mongoose-cpp/Helpers.cpp.

    Octets are [ascii].  [b64_decode] returns what it has written when it succeeds and the
    empty text when it returns 0; a [size_t] is 64 bits wide. *)

From stdpp Require Import base list.
From Stdlib Require Import Ascii ZArith Lia.
From Stdlib Require String.
From S2P Require Import Prelude Strings.
Import String.StringSyntax.

Local Open Scope Z_scope.

Definition octet (c : ascii) : Z := Z.of_nat (nat_of_ascii c).
Definition of_octet (z : Z) : ascii := ascii_of_nat (Z.to_nat (wrap_u 8 z)).

Definition b64_alphabet : cppstring := str "ABCDEFGHIJKLMNOPQRSTUVWXYZabcdefghijklmnopqrstuvwxyz0123456789+/".
Definition pad : ascii := "="%char.

(** [None] is -1. *)
Definition b64_sextet (c : ascii) : option Z :=
  let n := octet c in
  if (65 <=? n) && (n <=? 90) then Some (n - 65)
  else if (97 <=? n) && (n <=? 122) then Some (n - 97 + 26)
  else if (48 <=? n) && (n <=? 57) then Some (n - 48 + 52)
  else if bool_decide (c = "+"%char) then Some 62
  else if bool_decide (c = "/"%char) then Some 63
  else None.

(** [b64_alphabet[(v >> s) & 0x3f]] *)
Definition letter (v s : Z) : ascii := nth (Z.to_nat (Z.land (Z.shiftr v s) 63)) b64_alphabet zero.

Fixpoint encode_groups (src : cppstring) : cppstring :=
  match src with
  | [] => []
  | [a] => let v := Z.shiftl (octet a) 16 in [letter v 18; letter v 12; pad; pad]
  | [a; b] => let v := Z.lor (Z.shiftl (octet a) 16) (Z.shiftl (octet b) 8) in [letter v 18; letter v 12; letter v 6; pad]
  | a :: b :: c :: rest =>
      let v := Z.lor (Z.lor (Z.shiftl (octet a) 16) (Z.shiftl (octet b) 8)) (octet c) in
      [letter v 18; letter v 12; letter v 6; letter v 0] ++ encode_groups rest
  end.

Definition size_max : Z := 2 ^ 64 - 1.

(** [b64_encode] with a destination of [destLen]; the empty text when it returns 0. *)
Definition b64_encode_size (src : cppstring) : Z := if zlength src >? size_max / 2 then 0 else (zlength src + 2) / 3 * 4.
Definition b64_encode (src : cppstring) (destLen : Z) : cppstring :=
  if zlength src >? size_max / 2 then [] else if destLen <? (zlength src + 2) / 3 * 4 then [] else encode_groups src.

Definition base64_encode (input : cppstring) : cppstring :=
  if bool_decide (input = []) then [] else b64_encode input (b64_encode_size input).

Definition is_pad (c : ascii) : bool := bool_decide (c = pad) || bool_decide (c = zero).

(** The bytes dropped for the padding of the last quantum. *)
Fixpoint padding_drop (last : cppstring) (k : nat) : nat :=
  match last with
  | [] => 0
  | c :: last' => if is_pad c then Nat.min 3 (4 - k) else padding_drop last' (S k)
  end.

Definition decoded_total (src : cppstring) : nat :=
  let whole_chunks := (length src / 4)%nat in
  if Nat.eqb whole_chunks 0 || negb (Nat.eqb (length src mod 4) 0) then 0
  else whole_chunks * 3 - padding_drop (drop (length src - 4) src) 0.

Definition sextet_at (is_last : bool) (c : ascii) : option Z := if is_last && is_pad c then Some 0 else b64_sextet c.

Definition triple (v0 v1 v2 v3 : Z) : cppstring :=
  [of_octet (Z.lor (Z.shiftl v0 2) (Z.shiftr v1 4));
   of_octet (Z.lor (Z.shiftl (Z.land v1 15) 4) (Z.shiftr v2 2));
   of_octet (Z.lor (Z.shiftl (Z.land v2 3) 6) v3)].

(** The loop over the quanta; [None] is the early [return 0]. *)
Fixpoint decode_loop (src : cppstring) (total produced : nat) : option cppstring :=
  match src with
  | a :: b :: c :: d :: rest =>
      let is_last := bool_decide (rest = []) in
      match sextet_at is_last a, sextet_at is_last b, sextet_at is_last c, sextet_at is_last d with
      | Some v0, Some v1, Some v2, Some v3 =>
          let emit := Nat.min 3 (total - produced) in
          match decode_loop rest total (produced + emit) with
          | Some out => Some (take emit (triple v0 v1 v2 v3) ++ out)
          | None => None
          end
      | _, _, _, _ => None
      end
  | _ => Some []
  end.
Definition b64_decode (src : cppstring) (destSize : nat) : cppstring :=
  let total := decoded_total src in
  if Nat.eqb (length src / 4) 0 || negb (Nat.eqb (length src mod 4) 0) then [] else
  if Nat.ltb destSize total then [] else default [] (decode_loop src total 0).

Definition is_blank (c : ascii) : bool := bool_decide (c = c_newline) || bool_decide (c = c_return) || bool_decide (c = c_blank) || bool_decide (c = c_tab).
Definition base64_decode (encoded : cppstring) : cppstring :=
  let compact := List.filter (fun c => negb (is_blank c)) encoded in
  if bool_decide (compact = []) then [] else
  let needed := decoded_total compact in
  if Nat.eqb needed 0 then [] else b64_decode compact needed.

(** [Helpers::decode_b64] does not skip blanks. *)
Definition decode_b64 (s : cppstring) : cppstring :=
  if bool_decide (s = []) then [] else
  let needed := decoded_total s in
  if Nat.eqb needed 0 then [] else b64_decode s needed.

(** ** Round trip *)

Lemma octet_range c : 0 <= octet c < 256.
Proof. unfold octet. pose proof (nat_ascii_bounded c). lia. Qed.

Lemma of_octet_octet c : of_octet (octet c) = c.
Proof.
  unfold of_octet. rewrite wrap_u_id by (unfold in_u; pose proof (octet_range c); lia). unfold octet. rewrite Nat2Z.id. apply ascii_nat_embedding.
Qed.

(** Bits that do not overlap add up. *)
Lemma lor_add x y n : 0 <= n -> 0 <= y < 2 ^ n -> Z.lor (Z.shiftl x n) y = x * 2 ^ n + y.
Proof.
  intros Hn Hy. assert (Hd : Z.land (Z.shiftl x n) y = 0).
  { apply Z.bits_inj'. intros i Hi. rewrite Z.land_spec, Z.bits_0. destruct (Z.lt_ge_cases i n) as [Hlt|Hge].
    - by rewrite Z.shiftl_spec_low.
    - rewrite <- (Z.mod_small y (2 ^ n)), Z.mod_pow2_bits_high by lia. apply andb_false_r. }
  rewrite <- Z.lxor_lor by done. rewrite <- Z.add_nocarry_lxor by done. by rewrite Z.shiftl_mul_pow2.
Qed.

Lemma sextet_letter n : 0 <= n < 64 -> b64_sextet (nth (Z.to_nat n) b64_alphabet zero) = Some n /\
  is_pad (nth (Z.to_nat n) b64_alphabet zero) = false /\ is_blank (nth (Z.to_nat n) b64_alphabet zero) = false.
Proof.
  intros Hn. assert (Hall : forallb (fun i => bool_decide (b64_sextet (nth i b64_alphabet zero) = Some (Z.of_nat i)) &&
    negb (is_pad (nth i b64_alphabet zero)) && negb (is_blank (nth i b64_alphabet zero))) (seq 0 64) = true) by (vm_compute; reflexivity).
  rewrite forallb_forall in Hall. specialize (Hall (Z.to_nat n) ltac:(apply in_seq; lia)).
  apply andb_prop in Hall as [[H1%bool_decide_eq_true H2%negb_true_iff]%andb_prop H3%negb_true_iff]. rewrite Z2Nat.id in H1 by lia. done.
Qed.

Lemma letter_spec v s : 0 <= v -> 0 <= s ->
  b64_sextet (letter v s) = Some (v / 2 ^ s mod 64) /\ is_pad (letter v s) = false /\ is_blank (letter v s) = false.
Proof.
  intros Hv Hs. unfold letter. change 63 with (Z.ones 6). rewrite Z.land_ones, Z.shiftr_div_pow2 by lia.
  apply sextet_letter. change (2 ^ 6) with 64. apply Z.mod_pos_bound. lia.
Qed.

Lemma sextet_at_letter l v s : 0 <= v -> 0 <= s -> sextet_at l (letter v s) = Some (v / 2 ^ s mod 64).
Proof. intros Hv Hs. destruct (letter_spec v s Hv Hs) as (H1 & H2 & _). unfold sextet_at. by rewrite H2, andb_false_r. Qed.

(** The three bytes of a value that was cut into sextets. *)
Lemma triple_value a b c v : 0 <= a < 256 -> 0 <= b < 256 -> 0 <= c < 256 -> v = a * 65536 + b * 256 + c ->
  triple (v / 2 ^ 18 mod 64) (v / 2 ^ 12 mod 64) (v / 2 ^ 6 mod 64) (v / 2 ^ 0 mod 64) = [of_octet a; of_octet b; of_octet c].
Proof.
  intros Ha Hb Hc ->. unfold triple. change 15 with (Z.ones 4). change 3 with (Z.ones 2).
  rewrite !Z.land_ones, !Z.shiftr_div_pow2 by lia. change (2 ^ 18) with 262144. change (2 ^ 12) with 4096. change (2 ^ 6) with 64.
  change (2 ^ 0) with 1. change (2 ^ 4) with 16. change (2 ^ 2) with 4.
  rewrite !lor_add by (Z.to_euclidean_division_equations; lia). change (2 ^ 2) with 4. change (2 ^ 4) with 16. change (2 ^ 6) with 64.
  repeat f_equal; Z.to_euclidean_division_equations; lia.
Qed.

Fixpoint list_ind3 {A} (P : list A -> Prop) (H0 : P []) (H1 : forall a, P [a]) (H2 : forall a b, P [a; b])
    (H3 : forall a b c l, P l -> P (a :: b :: c :: l)) (l : list A) : P l :=
  match l with
  | [] => H0
  | [a] => H1 a
  | [a; b] => H2 a b
  | a :: b :: c :: l' => H3 a b c l' (list_ind3 P H0 H1 H2 H3 l')
  end.

Lemma length_encode_groups s : length (encode_groups s) = (4 * ((length s + 2) / 3))%nat.
Proof.
  induction s as [|a|a b|a b c s IH] using list_ind3; [done..|]. cbn [encode_groups]. rewrite length_app, IH. cbn [length].
  replace (S (S (S (length s))) + 2)%nat with (1 * 3 + (length s + 2))%nat by lia. rewrite Nat.div_add_l by lia. lia.
Qed.

Lemma encode_groups_nil s : encode_groups s = [] -> s = [].
Proof. intros E. apply (f_equal length) in E. rewrite length_encode_groups in E. destruct s; [done|]. cbn [length] in E.
  pose proof (Nat.div_le_mono 3 (S (length s) + 2) 3 ltac:(lia) ltac:(lia)). cbn in *. lia. Qed.

Lemma last_quantum s : s <> [] -> exists pre q, encode_groups s = pre ++ q /\ length q = 4%nat /\
  (padding_drop q 0 + length s = 3 * ((length s + 2) / 3))%nat.
Proof.
  assert (Hl : forall v s, 0 <= v -> 0 <= s -> is_pad (letter v s) = false) by (intros; by apply letter_spec).
  induction s as [|a|a b|a b c s IH] using list_ind3; intros Hs; [done| | |].
  - exists [], (encode_groups [a]). pose proof (octet_range a). split_and!; [done..|]. cbn [encode_groups padding_drop].
    rewrite !Hl by (rewrite ?Z.shiftl_nonneg; lia). done.
  - exists [], (encode_groups [a; b]). pose proof (octet_range a). pose proof (octet_range b). split_and!; [done..|]. cbn [encode_groups padding_drop].
    rewrite !Hl by (rewrite ?Z.lor_nonneg, ?Z.shiftl_nonneg; lia). done.
  - cbn [length]. replace (S (S (S (length s))) + 2)%nat with (1 * 3 + (length s + 2))%nat by lia. rewrite Nat.div_add_l by lia.
    pose proof (octet_range a). pose proof (octet_range b). pose proof (octet_range c).
    destruct (decide (s = [])) as [->|Hn].
    + exists [], (encode_groups [a; b; c]). split_and!; [done..|]. cbn [encode_groups padding_drop app].
      rewrite !Hl by (rewrite ?Z.lor_nonneg, ?Z.shiftl_nonneg; lia). done.
    + destruct (IH Hn) as (pre & q & E & Hq & Hd). cbn [encode_groups]. rewrite E. eexists (_ ++ pre), q. rewrite <- app_assoc.
      split_and!; [done | done | lia].
Qed.

Lemma decoded_total_encode s : s <> [] -> decoded_total (encode_groups s) = length s.
Proof.
  intros Hs. unfold decoded_total. rewrite length_encode_groups. set (k := ((length s + 2) / 3)%nat).
  assert (Hk : k <> 0%nat). { unfold k. intros E. apply Nat.div_small_iff in E; [|lia]. destruct s; [done|]. cbn in E. lia. }
  rewrite Nat.mul_comm, Nat.div_mul, Nat.Div0.mod_mul by lia. destruct (Nat.eqb_spec k 0); [done|]. cbn [orb negb Nat.eqb].
  destruct (last_quantum s Hs) as (pre & q & E & Hq & Hd). rewrite E.
  assert (Hp : length pre = (k * 4 - 4)%nat).
  { apply (f_equal length) in E. rewrite length_encode_groups, length_app in E. fold k in E. lia. }
  rewrite <- Hp, drop_app_length. fold k in Hd. lia.
Qed.

Lemma decode_loop_encode s : forall total produced, (total = produced + length s)%nat ->
  decode_loop (encode_groups s) total produced = Some s.
Proof.
  induction s as [|a|a b|a b c s IH] using list_ind3; intros total produced Ht; cbn [length] in Ht.
  - done.
  - cbn [encode_groups decode_loop]. pose proof (octet_range a). rewrite bool_decide_eq_true_2 by done.
    set (v := Z.shiftl (octet a) 16). assert (Hv : v = octet a * 65536 + 0 * 256 + 0) by (unfold v; rewrite Z.shiftl_mul_pow2 by lia; lia).
    rewrite !sextet_at_letter by lia. change (sextet_at true pad) with (Some 0).
    pose proof (triple_value (octet a) 0 0 v ltac:(lia) ltac:(lia) ltac:(lia) Hv) as T.
    replace (v / 2 ^ 6 mod 64) with 0 in T by (rewrite Hv; Z.to_euclidean_division_equations; lia).
    replace (v / 2 ^ 0 mod 64) with 0 in T by (rewrite Hv; Z.to_euclidean_division_equations; lia). cbv beta iota. rewrite T. replace (Nat.min 3 (total - produced)) with 1%nat by lia. cbn. by rewrite of_octet_octet.
  - cbn [encode_groups decode_loop]. pose proof (octet_range a). pose proof (octet_range b). rewrite bool_decide_eq_true_2 by done.
    set (v := Z.lor _ _). assert (Hv : v = octet a * 65536 + octet b * 256 + 0).
    { unfold v. rewrite (lor_add _ _ 16); rewrite ?Z.shiftl_mul_pow2; lia. }
    rewrite !sextet_at_letter by lia. change (sextet_at true pad) with (Some 0).
    pose proof (triple_value (octet a) (octet b) 0 v ltac:(lia) ltac:(lia) ltac:(lia) Hv) as T.
    replace (v / 2 ^ 0 mod 64) with 0 in T by (rewrite Hv; Z.to_euclidean_division_equations; lia). cbv beta iota. rewrite T. replace (Nat.min 3 (total - produced)) with 2%nat by lia. cbn. by rewrite !of_octet_octet.
  - cbn [encode_groups app decode_loop]. pose proof (octet_range a). pose proof (octet_range b). pose proof (octet_range c).
    set (v := Z.lor _ _). assert (Hv : v = octet a * 65536 + octet b * 256 + octet c).
    { unfold v. rewrite <- Z.lor_assoc, (lor_add (octet b) _ 8), (lor_add _ _ 16) by lia. lia. }
    rewrite !sextet_at_letter by lia. cbv beta iota. rewrite (triple_value (octet a) (octet b) (octet c) v) by lia.
    replace (Nat.min 3 (total - produced)) with 3%nat by lia. rewrite (IH total) by lia. cbn. by rewrite !of_octet_octet.
Qed.

Lemma decode_encode s n : s <> [] -> (length s <= n)%nat -> b64_decode (encode_groups s) n = s.
Proof.
  intros Hs Hn. unfold b64_decode. rewrite decoded_total_encode by done. rewrite length_encode_groups, Nat.mul_comm, Nat.div_mul, Nat.Div0.mod_mul by lia.
  destruct (Nat.eqb_spec ((length s + 2) / 3) 0) as [E|_].
  { apply Nat.div_small_iff in E; [|lia]. destruct s; [done|]. cbn in E. lia. }
  cbn [orb negb Nat.eqb]. destruct (Nat.ltb_spec n (length s)); [lia|]. by rewrite (decode_loop_encode s).
Qed.

Lemma encode_groups_no_blank s : List.filter (fun c => negb (is_blank c)) (encode_groups s) = encode_groups s.
Proof.
  assert (Hl : forall v s, 0 <= v -> 0 <= s -> is_blank (letter v s) = false) by (intros; by apply letter_spec).
  induction s as [|a|a b|a b c s IH] using list_ind3; [done|..]; pose proof (octet_range a); try pose proof (octet_range b); try pose proof (octet_range c);
    cbn [encode_groups List.filter app]; rewrite !Hl by (rewrite ?Z.lor_nonneg, ?Z.shiftl_nonneg; lia); cbn [negb]; [done..|]. by rewrite IH.
Qed.

Lemma base64_encode_groups s : zlength s <= size_max / 2 -> base64_encode s = encode_groups s.
Proof.
  intros Hs. unfold base64_encode. case_bool_decide as H0; [by subst|]. unfold b64_encode, b64_encode_size. rewrite !Z.gtb_ltb.
  destruct (Z.ltb_spec (size_max / 2) (zlength s)); [lia|]. by rewrite Z.ltb_irrefl.
Qed.

(** Decoding an encoded text gives it back, with both decoders and for every text up to half the
    address space, and the encoding is four characters for every three bytes begun. *)
Theorem base64_roundtrip (s : cppstring) (Hs : zlength s <= size_max / 2) :
  base64_decode (base64_encode s) = s /\ decode_b64 (base64_encode s) = s /\
  length (base64_encode s) = (4 * ((length s + 2) / 3))%nat.
Proof.
  rewrite base64_encode_groups, length_encode_groups by done. destruct (decide (s = [])) as [->|Hn]; [done|].
  unfold base64_decode, decode_b64. rewrite encode_groups_no_blank, decoded_total_encode by done.
  rewrite bool_decide_eq_false_2 by (intros E%encode_groups_nil; done).
  destruct (Nat.eqb_spec (length s) 0) as [E|_]; [by destruct s|]. by rewrite decode_encode by (done || lia).
Qed.

Lemma base64_roundtrip_witness :
  base64_decode (base64_encode (str "user:pass")) = str "user:pass" /\ decode_b64 (base64_encode (str "user:pass")) = str "user:pass" /\
  length (base64_encode (str "user:pass")) = (4 * ((length (str "user:pass") + 2) / 3))%nat.
Proof. apply (base64_roundtrip (str "user:pass")). vm_compute. discriminate. Defined.

(** ** What the decoder refuses *)

Lemma padding_drop_le q k : (padding_drop q k <= 3)%nat.
Proof. revert k. induction q as [|c q IH]; intros k; cbn [padding_drop]; [lia|]. case_if; [lia | apply IH]. Qed.

Lemma decode_loop_length src : forall total produced out, decode_loop src total produced = Some out ->
  (length out <= total - produced)%nat.
Proof.
  assert (Hgen : forall n src, (length src <= n)%nat -> forall total produced out, decode_loop src total produced = Some out ->
    (length out <= total - produced)%nat).
  { induction n as [|n IH]; intros [|a [|b [|c [|d rest]]]] Hn total produced out; cbn [length decode_loop] in *;
      try (intros [= <-]; cbn; lia); try lia.
    destruct (sextet_at _ a); [|done]. destruct (sextet_at _ b); [|done]. destruct (sextet_at _ c); [|done]. destruct (sextet_at _ d); [|done].
    destruct (decode_loop rest _ _) as [o|] eqn:E; [|done]. intros Ho. apply IH in E; [|lia]. apply (inj Some) in Ho as <-.
    rewrite length_app, length_take. lia. }
  by apply (Hgen (length src)).
Qed.

(** The decoder never writes past the size it asked for, which is at most three bytes for four. *)
Lemma b64_decode_bounded src n : (length (b64_decode src n) <= decoded_total src <= length src / 4 * 3)%nat.
Proof.
  split; [|unfold decoded_total; case_if; lia]. unfold b64_decode. case_if; [cbn; lia|]. case_if; [cbn; lia|].
  destruct (decode_loop src _ 0) as [o|] eqn:E; cbn; [|lia]. apply decode_loop_length in E. lia.
Qed.

Lemma decode_loop_chars n : forall src total produced out, length src = (4 * n)%nat -> decode_loop src total produced = Some out ->
  Forall (fun c => is_Some (b64_sextet c)) (take (length src - 4) src) /\
  Forall (fun c => is_Some (b64_sextet c) \/ is_pad c = true) src.
Proof.
  assert (Hsx : forall l c v, sextet_at l c = Some v -> (is_Some (b64_sextet c) \/ is_pad c = true) /\ (l = false -> is_Some (b64_sextet c))).
  { intros l c v. unfold sextet_at. destruct l, (is_pad c); cbn; intros Hv; eauto; (split; [eauto | done]). }
  induction n as [|n IH]; intros src total produced out Hl; [by destruct src|].
  destruct src as [|a [|b [|c [|d rest]]]]; cbn [length] in Hl; try lia. cbn [decode_loop].
  destruct (sextet_at _ a) eqn:Ea; [|done]. destruct (sextet_at _ b) eqn:Eb; [|done]. destruct (sextet_at _ c) eqn:Ec; [|done].
  destruct (sextet_at _ d) eqn:Ed; [|done]. apply Hsx in Ea as [Ea Ea'], Eb as [Eb Eb'], Ec as [Ec Ec'], Ed as [Ed Ed'].
  destruct (decode_loop rest _ _) as [o|] eqn:E; [|done]. intros _. destruct (IH rest _ _ _ ltac:(lia) E) as [H1 H2].
  split; [|by rewrite !Forall_cons]. destruct rest as [|e rest]; [constructor|].
  rewrite bool_decide_eq_false_2 in * by done. destruct n as [|n]; [cbn in Hl; lia|].
  replace (length (a :: b :: c :: d :: e :: rest) - 4)%nat with (S (S (S (S (length (e :: rest) - 4))))) by (cbn [length] in *; lia).
  cbn [take]. rewrite !Forall_cons. auto 10.
Qed.

(** Whatever the header decoder accepts is a multiple of four characters of the alphabet, with
    padding in the last four only, and it writes at most three bytes for four characters;
    anything else decodes to nothing. *)
Theorem base64_refuses (s : cppstring) (Hd : decode_b64 s <> []) :
  (length s mod 4 = 0)%nat /\ (length (decode_b64 s) <= length s / 4 * 3)%nat /\
  Forall (fun c => is_Some (b64_sextet c)) (take (length s - 4) s) /\
  Forall (fun c => is_Some (b64_sextet c) \/ is_pad c = true) s.
Proof.
  unfold decode_b64 in *. case_bool_decide as H0; [done|]. destruct (Nat.eqb_spec (decoded_total s) 0); [done|].
  pose proof (b64_decode_bounded s (decoded_total s)) as Hb. unfold b64_decode in Hd. case_if_in Hd; [done|].
  apply orb_false_iff in Heqb as [_ Hm%negb_false_iff%Nat.eqb_eq]. case_if_in Hd; [done|].
  destruct (decode_loop s _ 0) as [out|] eqn:E; [|done]. clear Hd. split; [done|]. split; [lia|].
  apply (decode_loop_chars (length s / 4) s _ _ _) in E; [done|]. pose proof (Nat.div_mod_eq (length s) 4). lia.
Qed.

Lemma base64_refuses_witness :
  (length (str "YWI=") mod 4 = 0)%nat /\ (length (decode_b64 (str "YWI=")) <= length (str "YWI=") / 4 * 3)%nat /\
  Forall (fun c => is_Some (b64_sextet c)) (take (length (str "YWI=") - 4) (str "YWI=")) /\
  Forall (fun c => is_Some (b64_sextet c) \/ is_pad c = true) (str "YWI=").
Proof. apply (base64_refuses (str "YWI=")). vm_compute. discriminate. Defined.
