(* ===== verification/PasswordHash.v ===== *)
(** Stored passwords (include/nscp/password_hash.cpp, include/nscp/sha256.hpp,
    include/str/constant_time.hpp) and the users of the web server
    (modules/WEBServer/user_manager.cpp).

    OpenSSL is the interface [openssl]: whether the build has it, and its PBKDF2, which
    fails or returns as many bytes as it was asked for.  The salt [RAND_bytes] gives is an
    argument, [None] when it fails.  Octets are [ascii]. *)

From stdpp Require Import base list gmap strings.
From Stdlib Require Import Ascii ZArith Lia.
From Stdlib Require String.
From S2P Require Import Prelude Strings.
Import String.StringSyntax.

Local Open Scope nat_scope.

(** ** Comparison and hex *)

Definition xor_ascii (a b : ascii) : nat := Nat.lxor (nat_of_ascii a) (nat_of_ascii b).
Definition octet_at (s : cppstring) (i : nat) : ascii := nth i s zero.

(** [diff] accumulates over the longer length; a missing character reads as 0. *)
Definition constant_time_eq (a b : cppstring) : bool :=
  let diff := Nat.land (Nat.lxor (length a) (length b)) 255 in
  let n := Nat.max (length a) (length b) in
  let diff := fold_left (fun d i => Nat.lor d (xor_ascii (octet_at a i) (octet_at b i))) (seq 0 n) diff in
  Nat.eqb diff 0 && Nat.eqb (length a) (length b).

Definition hex_digits : cppstring := str "0123456789abcdef".
Definition to_hex_char (c : ascii) : cppstring :=
  [nth (nat_of_ascii c / 16) hex_digits zero; nth (nat_of_ascii c mod 16) hex_digits zero].
Definition to_hex (data : cppstring) : cppstring := concat (map to_hex_char data).

(** [None] is -1. *)
Definition hex_digit (c : ascii) : option nat :=
  let n := nat_of_ascii c in
  if Nat.leb 48 n && Nat.leb n 57 then Some (n - 48)
  else if Nat.leb 97 n && Nat.leb n 102 then Some (n - 97 + 10)
  else if Nat.leb 65 n && Nat.leb n 70 then Some (n - 65 + 10)
  else None.

Fixpoint from_hex_loop (hex : cppstring) : option cppstring :=
  match hex with
  | [] => Some []
  | [_] => None
  | h :: l :: rest =>
      match hex_digit h, hex_digit l with
      | Some hi, Some lo => match from_hex_loop rest with Some out => Some (ascii_of_nat (16 * hi + lo) :: out) | None => None end
      | _, _ => None
      end
  end.
Definition from_hex (hex : cppstring) : option cppstring :=
  if bool_decide (hex = []) || negb (Nat.eqb (length hex mod 2) 0) then None else from_hex_loop hex.

(** ** Hashes *)

Definition kPbkdf2Iterations : Z := 100000.
Definition kPbkdf2HashBytes : nat := 32.
Definition kPbkdf2SaltBytes : nat := 16.
Definition kPbkdf2Prefix : cppstring := str "pbkdf2-sha256$".

Definition c_dollar : ascii := "$"%char.

Definition has_prefix (s : cppstring) : bool := is_prefix kPbkdf2Prefix s.

Record hash := mkHash { iter : Z; salt : cppstring; expected : cppstring }.

Definition parse_hash (stored : cppstring) : option hash :=
  if negb (has_prefix stored) then None else
  let body := substr_from stored (length kPbkdf2Prefix) in
  match find body [c_dollar] 0 with
  | None => None
  | Some p1 =>
      match find body [c_dollar] (p1 + 1) with
      | None => None
      | Some p2 =>
          let iterations := substr body 0 p1 in
          if bool_decide (iterations = []) || Nat.ltb 7 (length iterations) then None else
          if negb (forallb isdigit iterations) then None else
          let iter := decimal iterations in
          if (iter <=? 0)%Z || (1000000 <? iter)%Z then None else
          match from_hex (substr body (p1 + 1) (p2 - p1 - 1)), from_hex (substr_from body (p2 + 1)) with
          | Some salt, Some expected => Some (mkHash iter salt expected)
          | _, _ => None
          end
      end
  end.

Definition is_hashed (s : cppstring) : bool := match parse_hash s with Some _ => true | None => false end.

Class openssl := {
  use_ssl : bool;
  (** [PKCS5_PBKDF2_HMAC(password, salt, iterations, sha256, length)] *)
  pbkdf2 : cppstring -> cppstring -> Z -> nat -> option cppstring;
  pbkdf2_length : forall password salt iter n out, pbkdf2 password salt iter n = Some out -> length out = n
}.

Section Passwords.
Context `{openssl}.

(** The empty string is a failure. *)
Definition hash_password (rand_salt : option cppstring) (password : cppstring) : cppstring :=
  if use_ssl then
    match rand_salt with
    | None => []
    | Some salt =>
        match pbkdf2 password salt kPbkdf2Iterations kPbkdf2HashBytes with
        | None => []
        | Some out => kPbkdf2Prefix ++ str "100000" ++ [c_dollar] ++ to_hex salt ++ [c_dollar] ++ to_hex out
        end
    end
  else password.

Definition verify_password (password stored : cppstring) : bool :=
  if use_ssl then
    match parse_hash stored with
    | None => if has_prefix stored then false else constant_time_eq password stored
    | Some h =>
        match pbkdf2 password (salt h) (iter h) (length (expected h)) with
        | None => false
        | Some got => constant_time_eq got (expected h)
        end
    end
  else constant_time_eq password stored.

(** ** The users *)

Definition user_manager : Type := gmap cppstring cppstring.

Definition kDecoyHash : cppstring :=
  str "pbkdf2-sha256$100000$00000000000000000000000000000000$0000000000000000000000000000000000000000000000000000000000000000".

Definition users_validate_user (users : user_manager) (user password : cppstring) : bool :=
  if bool_decide (password = []) then false else
  match users !! user with
  | None => let _ := verify_password password kDecoyHash in false
  | Some stored => verify_password password stored
  end.

Definition users_add_user (rand_salt : option cppstring) (user password : cppstring) (users : user_manager) : user_manager :=
  if bool_decide (password = []) || is_hashed password then <[user := password]> users else
  let h := hash_password rand_salt password in
  <[user := if bool_decide (h = []) then password else h]> users.

Definition users_has_user (users : user_manager) (user : cppstring) : bool :=
  match users !! user with Some _ => true | None => false end.
Definition users_get_hash (users : user_manager) (user : cppstring) : cppstring := default [] (users !! user).
Definition users_remove_user (user : cppstring) (users : user_manager) : user_manager := delete user users.
End Passwords.

(** ** Comparison in constant time is equality *)

Lemma fold_lor_0 {A} (f : A -> nat) l : forall d,
  fold_left (fun d i => Nat.lor d (f i)) l d = 0 <-> d = 0 /\ Forall (fun i => f i = 0) l.
Proof.
  induction l as [|x l IH]; intros d; cbn; [naive_solver|]. rewrite IH, Nat.lor_eq_0_iff, Forall_cons. naive_solver.
Qed.

Lemma xor_ascii_0 a b : xor_ascii a b = 0 <-> a = b.
Proof.
  unfold xor_ascii. rewrite Nat.lxor_eq_0_iff. split; [|by intros ->].
  intros He. rewrite <- (ascii_nat_embedding a), <- (ascii_nat_embedding b). by rewrite He.
Qed.

Lemma constant_time_eq_iff a b : constant_time_eq a b = true <-> a = b.
Proof.
  unfold constant_time_eq. rewrite andb_true_iff, !Nat.eqb_eq, fold_lor_0. split.
  - intros [[_ Hf] Hl]. apply (nth_ext _ _ zero zero Hl). intros i Hi. rewrite Forall_forall in Hf.
    apply xor_ascii_0. apply Hf. apply elem_of_seq. lia.
  - intros ->. rewrite Nat.lxor_nilpotent. split_and!; try done. apply Forall_forall. intros i _. by apply xor_ascii_0.
Qed.

(** ** Hex *)

Lemma hex_char_roundtrip c rest : from_hex_loop (to_hex_char c ++ rest) = match from_hex_loop rest with Some out => Some (c :: out) | None => None end.
Proof. destruct c as [[] [] [] [] [] [] [] []]; reflexivity. Qed.

Lemma from_hex_loop_to_hex s : from_hex_loop (to_hex s) = Some s.
Proof. induction s as [|c s IH]; [done|]. unfold to_hex in *. cbn [map concat]. by rewrite hex_char_roundtrip, IH. Qed.

Lemma length_to_hex s : length (to_hex s) = 2 * length s.
Proof. induction s as [|c s IH]; [done|]. unfold to_hex in *. cbn [map concat]. rewrite length_app, IH. cbn. lia. Qed.

Lemma from_hex_to_hex s : s <> [] -> from_hex (to_hex s) = Some s.
Proof.
  intros Hs. unfold from_hex. rewrite bool_decide_eq_false_2, length_to_hex.
  - rewrite Nat.mul_comm, Nat.Div0.mod_mul. apply from_hex_loop_to_hex.
  - intros E. apply (f_equal length) in E. rewrite length_to_hex in E. destruct s; [done|]. cbn in E. lia.
Qed.

Lemma hex_no_dollar s : c_dollar ∉ to_hex s.
Proof.
  unfold to_hex. intros (l & Hl & Hc)%list_elem_of_In%in_concat. apply in_map_iff in Hl as (c & <- & _).
  revert Hc. destruct c as [[] [] [] [] [] [] [] []]; cbn; intros [|[|[]]]; discriminate.
Qed.

(** A well-formed hash is read back field by field. *)
Lemma parse_hash_format its s e : its <> [] -> length its <= 7 -> forallb isdigit its = true -> c_dollar ∉ its ->
  (0 < decimal its <= 1000000)%Z -> s <> [] -> e <> [] ->
  parse_hash (kPbkdf2Prefix ++ its ++ c_dollar :: to_hex s ++ c_dollar :: to_hex e) = Some (mkHash (decimal its) s e).
Proof.
  intros Hi Hl Hd Hn Hr Hs He. unfold parse_hash, has_prefix.
  rewrite (proj2 (is_prefix_iff _ _)) by (by eexists). unfold substr_from. cbn [negb]. rewrite drop_app_length.
  rewrite find_char_first by done. replace (length its + 1) with (length (its ++ [c_dollar])) by (rewrite length_app; cbn; lia).
  replace (its ++ c_dollar :: to_hex s ++ c_dollar :: to_hex e) with ((its ++ [c_dollar]) ++ to_hex s ++ c_dollar :: to_hex e)
    by (by rewrite <- app_assoc).
  rewrite find_char_next by apply hex_no_dollar. unfold substr. rewrite <- (app_assoc its), drop_0, take_app_length.
  rewrite bool_decide_eq_false_2 by done. destruct (Nat.ltb_spec 7 (length its)) as [|_]; [lia|]. cbn [orb].
  rewrite Hd. cbn [negb]. destruct (Z.leb_spec (decimal its) 0) as [|_]; [lia|].
  destruct (Z.ltb_spec 1000000 (decimal its)) as [|_]; [lia|]. cbn [orb].
  rewrite (app_assoc its), drop_app_length. rewrite length_app at 1. cbn [length].
  replace (length its + 1 + length (to_hex s) - length its - 1) with (length (to_hex s)) by lia. rewrite take_app_length.
  replace (length (its ++ [c_dollar]) + length (to_hex s) + 1) with (length ((its ++ [c_dollar]) ++ to_hex s ++ [c_dollar]))
    by (rewrite !length_app; cbn; lia).
  replace ((its ++ [c_dollar]) ++ to_hex s ++ c_dollar :: to_hex e) with (((its ++ [c_dollar]) ++ to_hex s ++ [c_dollar]) ++ to_hex e)
    by (by rewrite <- !app_assoc). rewrite drop_app_length. by rewrite !from_hex_to_hex.
Qed.

Section Verify.
Context `{openssl}.

(** The password a hash was made for is accepted, and any other only on a PBKDF2 collision. *)
Lemma verify_hash_password rand_salt pw pw' : use_ssl = true -> (forall salt, rand_salt = Some salt -> salt <> []) ->
  hash_password rand_salt pw <> [] ->
  is_hashed (hash_password rand_salt pw) = true /\
  exists salt, rand_salt = Some salt /\
    (verify_password pw' (hash_password rand_salt pw) = true <->
     pbkdf2 pw' salt kPbkdf2Iterations kPbkdf2HashBytes = pbkdf2 pw salt kPbkdf2Iterations kPbkdf2HashBytes).
Proof.
  intros Hssl Hsalt. unfold hash_password, verify_password, is_hashed. rewrite Hssl. destruct rand_salt as [s|]; [|done].
  destruct (pbkdf2 pw s _ _) as [out|] eqn:Eo; [|done]. intros _. pose proof (pbkdf2_length _ _ _ _ _ Eo) as Hlen.
  assert (Hout : out <> []) by (intros ->; done).
  assert (parse_hash (kPbkdf2Prefix ++ str "100000" ++ [c_dollar] ++ to_hex s ++ [c_dollar] ++ to_hex out) =
    Some (mkHash kPbkdf2Iterations s out)) as ->.
  { apply (parse_hash_format (str "100000")); try done; [cbn; lia | | by apply Hsalt].
    intros Hin%list_elem_of_In. cbn in Hin. intuition discriminate. }
  split; [done|]. exists s. split; [done|]. cbn [PasswordHash.salt iter expected]. rewrite Hlen, Eo.
  destruct (pbkdf2 pw' s _ _) as [got|]; [|by split]. rewrite constant_time_eq_iff. split; congruence.
Qed.

Lemma from_hex_nonempty s out : from_hex s = Some out -> out <> [].
Proof.
  unfold from_hex. destruct s as [|a [|b s]]; [done..|]. cbn [orb bool_decide]. case_if; [done|]. cbn [from_hex_loop].
  destruct (hex_digit a), (hex_digit b); try done. destruct (from_hex_loop s); [|done]. by intros [= <-].
Qed.

(** What a stored value has to look like before it counts as a hash. *)
Lemma parse_hash_sound stored h : parse_hash stored = Some h ->
  has_prefix stored = true /\ (0 < iter h <= 1000000)%Z /\ salt h <> [] /\ expected h <> [].
Proof.
  unfold parse_hash. destruct (has_prefix stored); [|done]. cbn [negb]. destruct (find _ _ 0) as [p1|]; [|done].
  destruct (find _ _ _) as [p2|]; [|done]. do 3 (case_if; [done|]). apply orb_false_iff in Heqb1 as [H1%Z.leb_gt H2%Z.ltb_ge].
  destruct (from_hex (substr _ _ _)) eqn:E1; [|done]. destruct (from_hex (substr_from _ _)) eqn:E2; [|done].
  intros [= <-]. split_and!; cbn; try done; by eapply from_hex_nonempty.
Qed.

(** What a password has to be for a stored value. *)
Inductive accepts (password : cppstring) : cppstring -> Prop :=
| accepts_plain stored : use_ssl = false \/ has_prefix stored = false -> password = stored -> accepts password stored
| accepts_hash stored h : use_ssl = true -> parse_hash stored = Some h -> (0 < iter h <= 1000000)%Z -> expected h <> [] ->
    pbkdf2 password (salt h) (iter h) (length (expected h)) = Some (expected h) -> accepts password stored.

Lemma verify_password_iff password stored : verify_password password stored = true <-> accepts password stored.
Proof.
  unfold verify_password. destruct use_ssl eqn:Hssl.
  - destruct (parse_hash stored) as [h|] eqn:Eh.
    + destruct (parse_hash_sound _ _ Eh) as (Hp & Hi & _ & He). split.
      * destruct (pbkdf2 _ _ _ _) as [got|] eqn:Eg; [|done]. intros ->%constant_time_eq_iff. by eapply accepts_hash.
      * destruct 1 as [stored Hn _|stored h' _ Eh' _ _ Hg]; [destruct Hn; congruence|].
        rewrite Eh' in Eh. injection Eh as ->. rewrite Hg. by apply constant_time_eq_iff.
    + destruct (has_prefix stored) eqn:Hp; [split; [done|]; destruct 1 as [? []|]; congruence|].
      rewrite constant_time_eq_iff. split; [intros ->; apply accepts_plain; auto|]. destruct 1; congruence.
  - rewrite constant_time_eq_iff. split; [intros ->; apply accepts_plain; auto|]. destruct 1; congruence.
Qed.

(** A password is accepted exactly when it is not empty, the user exists and either the stored
    value is a well-formed hash that PBKDF2 with its salt and iteration count reproduces, or it
    carries no hash prefix and is that password; a damaged hash is never compared as clear text,
    and the comparison in constant time is equality. *)
Theorem validate_user_iff (users : user_manager) (user password : cppstring) :
  users_validate_user users user password = true <->
  password <> [] /\ exists stored, users !! user = Some stored /\ accepts password stored.
Proof.
  unfold users_validate_user. case_bool_decide as Hp; [split; [done | by intros []]|].
  destruct (users !! user) as [stored|]; [|naive_solver]. rewrite verify_password_iff. naive_solver.
Qed.

(** A user added with a clear-text password is stored as a hash and accepted with that password;
    an empty password is refused, another one is accepted only if PBKDF2 collides, and no other
    user changes. *)
Theorem add_then_validate (users : user_manager) (user password guess s : cppstring)
    (Hssl : use_ssl = true) (Hp : password <> []) (Hplain : is_hashed password = false) (Hs : s <> [])
    (Hok : is_Some (pbkdf2 password s kPbkdf2Iterations kPbkdf2HashBytes)) :
  let users' := users_add_user (Some s) user password users in
  users_validate_user users' user password = true /\ is_hashed (users_get_hash users' user) = true /\
  users_validate_user users' user [] = false /\
  (users_validate_user users' user guess = true ->
   pbkdf2 guess s kPbkdf2Iterations kPbkdf2HashBytes = pbkdf2 password s kPbkdf2Iterations kPbkdf2HashBytes) /\
  (forall other, other <> user -> users' !! other = users !! other).
Proof.
  cbv zeta. unfold users_add_user. rewrite Hplain, bool_decide_eq_false_2 by done. cbn [orb].
  assert (Hh : hash_password (Some s) password <> []).
  { unfold hash_password. rewrite Hssl. destruct (pbkdf2 _ _ _ _); [done | by destruct Hok]. }
  rewrite bool_decide_eq_false_2 by done.
  destruct (verify_hash_password (Some s) password password Hssl ltac:(by intros ? [= <-]) Hh) as (Hi & s' & [= <-] & Hv).
  destruct (verify_hash_password (Some s) password guess Hssl ltac:(by intros ? [= <-]) Hh) as (_ & s' & [= <-] & Hg).
  unfold users_validate_user, users_get_hash, user_manager in *. rewrite lookup_insert_eq, (bool_decide_eq_false_2 (password = [])) by done.
  split_and!; [by apply Hv | done | done | |].
  - case_bool_decide; [done|]. apply Hg.
  - intros other Ho. by rewrite lookup_insert_ne.
Qed.
End Verify.

(** A build whose PBKDF2 is a toy, to run the definitions. *)
Definition toy_openssl : openssl.
Proof.
  refine {| use_ssl := true; pbkdf2 password salt _ n := Some (take n (password ++ salt ++ replicate n zero)) |}.
  intros. simplify_eq. rewrite length_take, !length_app, length_replicate. lia.
Defined.

Lemma add_then_validate_witness :
  let H := toy_openssl in
  let users' := users_add_user (Some (str "salt")) (str "admin") (str "secret") ∅ in
  users_validate_user users' (str "admin") (str "secret") = true /\ is_hashed (users_get_hash users' (str "admin")) = true /\
  users_validate_user users' (str "admin") [] = false /\
  (users_validate_user users' (str "admin") (str "guess") = true ->
   pbkdf2 (str "guess") (str "salt") kPbkdf2Iterations kPbkdf2HashBytes = pbkdf2 (str "secret") (str "salt") kPbkdf2Iterations kPbkdf2HashBytes) /\
  (forall other, other <> str "admin" -> users' !! other = (∅ : user_manager) !! other).
Proof.
  apply (@add_then_validate toy_openssl ∅ (str "admin") (str "secret") (str "guess") (str "salt")).
  - reflexivity.
  - discriminate.
  - reflexivity.
  - discriminate.
  - by eexists.
Defined.
