(* ===== verification/WebTokens.v ===== *)
(** Sessions and grants of the web server: modules/WEBServer/grant_store.cpp,
    token_store.hpp and token_store.cpp.

    Every method of [token_store] holds the lock for its whole body.  The hash tables are
    [gmap]s; where the code walks one, the order is that of [map_to_list].  The clock, the
    random bytes, and whether the digest works at that moment are arguments; SHA-256 is
    the interface [sha256], of which only the shape of the result is assumed. *)

From stdpp Require Import base list gmap strings.
From Stdlib Require Import Ascii ZArith Lia.
From Stdlib Require String.
From S2P Require Import Prelude Strings PasswordHash.
Import String.StringSyntax.

Local Open Scope Z_scope.

(** ** Grants *)

Record grant_store := mkGrants { roles : gmap cppstring (list cppstring); users : gmap cppstring cppstring }.
Definition no_grants : grant_store := mkGrants ∅ ∅.

(** [str::utils::split]; its loop ends, so the default is never used. *)
Definition split (s : cppstring) (c : ascii) : list cppstring := default [] (split_lst s [c]).

Definition add_role (role grant : cppstring) (g : grant_store) : grant_store :=
  fold_left (fun g r => mkGrants (<[role := default [] (roles g !! role) ++ [r]]> (roles g)) (users g)) (split grant ","%char) g.
Definition add_user (user role : cppstring) (g : grant_store) : grant_store := mkGrants (roles g) (<[user := role]> (users g)).
Definition get_role (g : grant_store) (user : cppstring) : cppstring := default [] (users g !! user).
Definition remove_role (role : cppstring) (g : grant_store) : grant_store := mkGrants (delete role (roles g)) (users g).
Definition remove_user (uid : cppstring) (g : grant_store) : grant_store := mkGrants (roles g) (delete uid (users g)).
Definition clear (g : grant_store) : grant_store := no_grants.

Definition star : cppstring := str "*".

Fixpoint validate_grants (grant need : list cppstring) : bool :=
  match need with
  | [] => bool_decide (grant = [])
  | n :: need' =>
      match grant with
      | [] => false
      | g :: grant' => if bool_decide (g = star) then true else if bool_decide (n = g) then validate_grants grant' need' else false
      end
  end.

Definition fetch_role (g : grant_store) (uid : cppstring) : list cppstring :=
  let role := get_role g uid in
  if bool_decide (role = []) then [] else default [] (roles g !! role).

Definition grants_validate (g : grant_store) (uid check : cppstring) : bool :=
  let need := split check "."%char in
  existsb (fun rule => validate_grants (split rule "."%char) need) (fetch_role g uid).

(** ** Tokens *)

Definition alphanum : cppstring := str "0123456789ABCDEFGHIJKLMNOPQRSTUVWXYZabcdefghijklmnopqrstuvwxyz".
Definition alphanum_size : nat := length alphanum.
Definition reject_limit : nat := 256 - 256 mod alphanum_size.

(** The inner [for]: the accepted bytes of one draw, up to [len] characters. *)
Fixpoint map_bytes (len : nat) (buf : list nat) (ret : cppstring) : cppstring :=
  match buf with
  | [] => ret
  | b :: buf' =>
      if Nat.ltb (length ret) len
      then map_bytes len buf' (if Nat.ltb b reject_limit then ret ++ [nth (b mod alphanum_size) alphanum zero] else ret)
      else ret
  end.

(** [generate_token]: [draws] are the results of [csprng_bytes], the code and the buffer;
    [None] when they are used up. *)
Fixpoint generate_loop (len : nat) (fallback : cppstring) (draws : list (Z * list nat)) (ret : cppstring) : option cppstring :=
  if Nat.ltb (length ret) len then
    match draws with
    | [] => None
    | (rc, buf) :: draws' =>
        if rc <? 0 then Some fallback
        else if negb (rc =? 1) then Some []
        else generate_loop len fallback draws' (map_bytes len buf ret)
    end
  else Some ret.
Definition generate_token (len : Z) (fallback : cppstring) (draws : list (Z * list nat)) : option cppstring :=
  if len <=? 0 then Some [] else generate_loop (Z.to_nat len) fallback draws [].

Definition TOKEN_EXPIRATION_SECONDS : Z := 8 * 60 * 60.
Definition has_token_expired (created_time now : Z) : bool :=
  (created_time >? now) || (now >? created_time + TOKEN_EXPIRATION_SECONDS).

Definition is_lower_hex (c : ascii) : bool := let n := nat_of_ascii c in (Nat.leb 48 n && Nat.leb n 57) || (Nat.leb 97 n && Nat.leb n 102).
Definition is_hash (key : cppstring) : bool := Nat.eqb (length key) 64 && forallb is_lower_hex key.

Class sha256 := {
  has_sha256 : bool;
  sha256_hex : cppstring -> cppstring;
  sha256_hex_shape : forall s, is_hash (sha256_hex s) = true
}.

Record token_entry := mkToken { t_user : cppstring; t_created : Z; t_fingerprint : cppstring }.
Record token_store := mkStore { tokens : gmap cppstring token_entry; grants : grant_store }.
Record persisted_session := mkSession { hash : cppstring; p_user : cppstring; p_created : Z; p_fingerprint : cppstring }.

Definition kMaxTokens : nat := 4096.

Definition set_tokens (f : gmap cppstring token_entry -> gmap cppstring token_entry) (s : token_store) : token_store :=
  mkStore (f (tokens s)) (grants s).

(** The first entry with the least creation time. *)
Definition oldest (m : gmap cppstring token_entry) : option cppstring :=
  match map_to_list m with
  | [] => None
  | e :: l => Some (fold_left (fun o e => if t_created e.2 <? t_created o.2 then e else o) l e).1
  end.
Fixpoint drop_oldest (fuel : nat) (m : gmap cppstring token_entry) : gmap cppstring token_entry :=
  match fuel with
  | O => m
  | S fuel' =>
      if Nat.leb kMaxTokens (size m) then
        match oldest m with None => m | Some k => drop_oldest fuel' (delete k m) end
      else m
  end.
Definition unexpired (now : Z) (m : gmap cppstring token_entry) : gmap cppstring token_entry :=
  filter (fun '(_, e) => has_token_expired (t_created e) now = false) m.
Definition sweep_expired (now : Z) (m : gmap cppstring token_entry) : gmap cppstring token_entry :=
  let m := unexpired now m in
  if Nat.ltb (size m) kMaxTokens then m else drop_oldest (size m) m.

Section Store.
Context `{sha256}.

(** [ok]: the digest works. *)
Definition hash_token (ok : bool) (s : cppstring) : cppstring := if has_sha256 && ok then sha256_hex s else [].
Definition key_for (ok : bool) (token : cppstring) : cppstring := if has_sha256 then hash_token ok token else token.

Definition validate (ok : bool) (token : cppstring) (now : Z) (s : token_store) : option cppstring * token_store :=
  let key := key_for ok token in
  match tokens s !! key with
  | None => (None, s)
  | Some e => if has_token_expired (t_created e) now then (None, set_tokens (delete key) s) else (Some (t_user e), s)
  end.
Definition is_valid (ok : bool) (token : cppstring) (now : Z) (s : token_store) : bool * token_store :=
  let key := key_for ok token in
  match tokens s !! key with
  | None => (false, s)
  | Some e => if has_token_expired (t_created e) now then (false, set_tokens (delete key) s) else (true, s)
  end.
Definition get_user (ok : bool) (token : cppstring) (now : Z) (s : token_store) : cppstring :=
  match tokens s !! key_for ok token with
  | Some e => if has_token_expired (t_created e) now then [] else t_user e
  | None => []
  end.

(** [generate_for]; [token] is what [generate_token(32)] gave.  The result is empty on failure. *)
Definition generate_for (ok : bool) (token : cppstring) (now : Z) (user fingerprint : cppstring) (s : token_store) : cppstring * token_store :=
  if bool_decide (token = []) then (token, s) else
  let key := key_for ok token in
  if bool_decide (key = []) then ([], s) else
  (token, set_tokens (fun m => <[key := mkToken user now fingerprint]> (sweep_expired now m)) s).

Definition snapshot (now : Z) (s : token_store) : list persisted_session :=
  if negb has_sha256 then [] else
  map (fun '(k, e) => mkSession k (t_user e) (t_created e) (t_fingerprint e))
    (List.filter (fun '(_, e) => negb (has_token_expired (t_created e) now) && negb (bool_decide (t_fingerprint e = []))) (map_to_list (tokens s))).

Definition restore (session : persisted_session) (now : Z) (s : token_store) : bool * token_store :=
  if bool_decide (hash session = []) || bool_decide (p_user session = []) then (false, s) else
  if has_token_expired (p_created session) now then (false, s) else
  match tokens s !! hash session with
  | Some _ => (false, s)
  | None =>
      let s := if Nat.leb kMaxTokens (size (tokens s)) then set_tokens (sweep_expired now) s else s in
      if Nat.leb kMaxTokens (size (tokens s)) then (false, s)
      else (true, set_tokens <[hash session := mkToken (p_user session) (p_created session) (p_fingerprint session)]> s)
  end.

Definition revoke (ok : bool) (token : cppstring) (s : token_store) : token_store := set_tokens (delete (key_for ok token)) s.
Definition revoke_tokens_for_user (user : cppstring) (s : token_store) : token_store :=
  set_tokens (filter (fun '(_, e) => t_user e <> user)) s.

Definition store_can (s : token_store) (uid grant : cppstring) : bool := grants_validate (grants s) uid grant.
Definition store_add_user (user role : cppstring) (s : token_store) : token_store := mkStore (tokens s) (add_user user role (grants s)).
Definition store_get_role (s : token_store) (user : cppstring) : cppstring := get_role (grants s) user.
Definition store_add_grant (role grant : cppstring) (s : token_store) : token_store := mkStore (tokens s) (add_role role grant (grants s)).
End Store.

(** ** The stored session table *)

Definition kVersion : cppstring := str "1".

Definition has_delimiter (s : cppstring) : bool := has_char c_tab s || has_char c_newline s.

Definition llong_max : Z := 2 ^ 63 - 1.

Definition parse_record (line : cppstring) : option persisted_session :=
  match find line [c_tab] 0 with None => None | Some p1 =>
  match find line [c_tab] (p1 + 1) with None => None | Some p2 =>
  match find line [c_tab] (p2 + 1) with None => None | Some p3 =>
    let hash := substr line 0 p1 in
    let user := substr line (p1 + 1) (p2 - p1 - 1) in
    let created := substr line (p2 + 1) (p3 - p2 - 1) in
    let fingerprint := substr_from line (p3 + 1) in
    if has_char c_tab fingerprint then None else
    if negb (is_hash hash) then None else
    if bool_decide (user = []) then None else
    if bool_decide (created = []) || negb (forallb isdigit created) then None else
    let epoch := Z.min (decimal created) llong_max in
    if epoch <=? 0 then None else Some (mkSession hash user epoch fingerprint)
  end end end.

Definition record_line (s : persisted_session) : cppstring :=
  hash s ++ [c_tab] ++ p_user s ++ [c_tab] ++ show (p_created s) ++ [c_tab] ++ p_fingerprint s.
Definition representable (s : persisted_session) : bool :=
  is_hash (hash s) && negb (bool_decide (p_user s = [])) && negb (has_delimiter (p_user s) || has_delimiter (p_fingerprint s)).

Fixpoint serialize_loop (sessions : list persisted_session) (any : bool) : cppstring :=
  match sessions with
  | [] => []
  | s :: l =>
      if representable s
      then (if any then [] else kVersion) ++ [c_newline] ++ record_line s ++ serialize_loop l true
      else serialize_loop l any
  end.
Definition serialize_sessions (sessions : list persisted_session) : cppstring := serialize_loop sessions false.

(** The text up to the next line break, and what follows one. *)
Fixpoint cut_line (s : cppstring) : cppstring * option cppstring :=
  match s with
  | [] => ([], None)
  | c :: s' => if bool_decide (c = c_newline) then ([], Some s') else let '(l, r) := cut_line s' in (c :: l, r)
  end.
(** [if (!line.empty() && line.back() == '\r') line.pop_back()] *)
Definition chomp (s : cppstring) : cppstring := if bool_decide (last s = Some c_return) then take (length s - 1) s else s.

Fixpoint parse_lines (fuel : nat) (rest : option cppstring) : list persisted_session :=
  match rest, fuel with
  | None, _ => []
  | _, O => []
  | Some s, S fuel' =>
      let '(line, next) := cut_line s in
      let line := chomp line in
      (if bool_decide (line = []) then [] else match parse_record line with Some x => [x] | None => [] end) ++ parse_lines fuel' next
  end.
Definition parse_sessions (value : cppstring) : list persisted_session :=
  if bool_decide (value = []) then [] else
  let '(version, rest) := cut_line value in
  if negb (bool_decide (chomp version = kVersion)) then [] else parse_lines (length value) rest.

(** ** Grants: what a rule confers *)

(** A rule is a path; a [*] in it stands for everything below that point. *)
Definition confers (grant need : list cppstring) : Prop :=
  grant = need \/ exists p rest below, grant = p ++ star :: rest /\ need = p ++ below /\ below <> [].

Lemma validate_grants_iff grant : forall need, validate_grants grant need = true <-> confers grant need.
Proof.
  unfold confers. induction grant as [|g grant IH]; intros [|n need]; cbn [validate_grants].
  - rewrite bool_decide_eq_true. naive_solver.
  - split; [done|]. intros [|(p & rest & below & Hp & _)]; [done|]. by destruct p.
  - rewrite bool_decide_eq_true. split; [done|]. intros [|(p & rest & below & _ & Hn & Hb)]; [done|].
    destruct p, below; done.
  - case_bool_decide as Hg; [subst g; split; [intros _; right; by exists [], grant, (n :: need)|done]|].
    case_bool_decide as Hn.
    + subst n. rewrite IH. split.
      * intros [->|(p & rest & below & -> & -> & Hb)]; [by left|]. right. by exists (g :: p), rest, below.
      * intros [[= ->]|(p & rest & below & Hp & Hq & Hb)]; [by left|]. right. destruct p as [|x p]; [naive_solver|].
        injection Hp as -> ->. injection Hq as ->. by exists p, rest, below.
    + split; [done|]. intros [[= ->]|(p & rest & below & Hp & Hq & Hb)]; [done|]. destruct p; naive_solver.
Qed.

(** A user has a privilege exactly when the user has a role with a rule that is that privilege,
    or that agrees with it up to a star and the privilege goes on below that point. *)
Theorem grant_check_iff (g : grant_store) (uid check : cppstring) :
  grants_validate g uid check = true <->
  exists role rules rule, users g !! uid = Some role /\ role <> [] /\ roles g !! role = Some rules /\ rule ∈ rules /\
    confers (pieces "."%char rule) (pieces "."%char check).
Proof.
  unfold grants_validate, fetch_role, get_role, split. rewrite !split_lst_char. cbn [default]. split.
  - intros (rule & Hin & Hv)%existsb_exists. apply list_elem_of_In in Hin.
    destruct (users g !! uid) as [role|] eqn:Eu; cbn in Hin; [|by apply not_elem_of_nil in Hin].
    case_bool_decide; [by apply not_elem_of_nil in Hin|].
    destruct (roles g !! role) as [rules|] eqn:Er; cbn in Hin; [|by apply not_elem_of_nil in Hin].
    exists role, rules, rule. split_and!; try done. rewrite split_lst_char in Hv. by apply validate_grants_iff.
  - intros (role & rules & rule & Hu & Hr & Hro & Hin & Hc). rewrite Hu. change (default [] (Some role)) with role. rewrite bool_decide_eq_false_2, Hro by done.
    apply existsb_exists. exists rule. split; [by apply list_elem_of_In|]. rewrite split_lst_char. by apply validate_grants_iff.
Qed.

(** ** Random tokens *)

Definition is_alphanum (c : ascii) : Prop := c ∈ alphanum.

(** Of the 256 bytes each character of the alphabet gets exactly four; the other eight are redrawn. *)
Lemma reject_limit_unbiased c : c ∈ alphanum ->
  length (List.filter (fun b => Nat.ltb b reject_limit && bool_decide (nth (b mod alphanum_size) alphanum zero = c)) (seq 0 256)) = 4%nat.
Proof.
  intros Hc. assert (Hall : forallb (fun c => Nat.eqb (length (List.filter (fun b => Nat.ltb b reject_limit &&
    bool_decide (nth (b mod alphanum_size) alphanum zero = c)) (seq 0 256))) 4) alphanum = true) by (vm_compute; reflexivity).
  rewrite forallb_forall in Hall. by apply Nat.eqb_eq, Hall, list_elem_of_In.
Qed.

Definition accepted (buf : list nat) : nat := length (List.filter (fun b => Nat.ltb b reject_limit) buf).

Lemma map_bytes_spec len buf : forall ret, Forall is_alphanum ret -> (length ret <= len)%nat ->
  Forall is_alphanum (map_bytes len buf ret) /\ length (map_bytes len buf ret) = Nat.min len (length ret + accepted buf).
Proof.
  induction buf as [|b buf IH]; intros ret Hr Hl; cbn [map_bytes]; [unfold accepted; cbn; split; [done | lia]|].
  destruct (Nat.ltb_spec (length ret) len) as [Hlt|]; [|unfold accepted; split; [done | lia]].
  unfold accepted in *. cbn [List.filter]. destruct (Nat.ltb b reject_limit).
  - destruct (IH (ret ++ [nth (b mod alphanum_size) alphanum zero])) as [H1 H2].
    + apply Forall_app. split; [done|]. apply Forall_singleton. apply list_elem_of_In, nth_In.
      change (length alphanum) with alphanum_size. apply Nat.mod_upper_bound. done.
    + rewrite length_app. cbn. lia.
    + split; [done|]. rewrite H2, length_app. cbn. lia.
  - destruct (IH ret Hr Hl) as [H1 H2]. split; [done|]. by rewrite H2.
Qed.

Lemma generate_loop_spec len fallback draws : forall ret tok, Forall is_alphanum ret -> (length ret <= len)%nat ->
  generate_loop len fallback draws ret = Some tok ->
  tok = [] \/ (Forall is_alphanum tok /\ length tok = len) \/ (tok = fallback /\ exists rc buf, (rc, buf) ∈ draws /\ rc < 0).
Proof.
  induction draws as [|[rc buf] draws IH]; intros ret tok Hr Hl; cbn [generate_loop].
  - destruct (Nat.ltb_spec (length ret) len); [done|]. intros [= <-]. right. left. split; [done | lia].
  - destruct (Nat.ltb_spec (length ret) len); [|intros [= <-]; right; left; split; [done | lia]].
    destruct (Z.ltb_spec rc 0); [intros [= <-]; right; right; split; [done|]; exists rc, buf; split; [left | done]|].
    destruct (Z.eqb_spec rc 1); cbn [negb]; [|intros [= <-]; by left].
    destruct (map_bytes_spec len buf ret Hr Hl) as [H1 H2]. intros Hg.
    destruct (IH _ tok H1 ltac:(lia) Hg) as [|[|(-> & rc' & buf' & Hin & Hrc)]]; auto.
    right. right. split; [done|]. exists rc', buf'. split; [by right | done].
Qed.

(** Enough accepted bytes end the loop. *)
Lemma generate_loop_total len fallback draws : forall ret, Forall is_alphanum ret -> (length ret <= len)%nat ->
  (len <= length ret + accepted (concat (map snd draws)))%nat -> is_Some (generate_loop len fallback draws ret).
Proof.
  induction draws as [|[rc buf] draws IH]; intros ret Hr Hl Ha; cbn [generate_loop].
  - destruct (Nat.ltb_spec (length ret) len); [cbn in Ha; lia | done].
  - destruct (Nat.ltb_spec (length ret) len); [|done]. do 2 (case_if; [done|]).
    destruct (map_bytes_spec len buf ret Hr Hl) as [H1 H2]. apply IH; [done | lia|].
    unfold accepted in *. cbn [map concat snd] in Ha. rewrite List.filter_app, length_app in Ha. rewrite H2. lia.
Qed.

(** A drawn token is empty or has exactly the asked number of alphanumeric characters when the
    random generator works; the loop ends as soon as enough bytes are accepted; and every
    character of the alphabet stands for exactly four of the 256 byte values. *)
Theorem generate_token_strong (len : Z) (fallback : cppstring) (draws : list (Z * list nat)) :
  (forall tok, Forall (fun d => 0 <= d.1) draws -> generate_token len fallback draws = Some tok ->
     tok = [] \/ Forall is_alphanum tok /\ zlength tok = len) /\
  (len <= Z.of_nat (accepted (concat (map snd draws))) -> is_Some (generate_token len fallback draws)) /\
  (forall c, is_alphanum c ->
     length (List.filter (fun b => Nat.ltb b reject_limit && bool_decide (nth (b mod alphanum_size) alphanum zero = c)) (seq 0 256)) = 4%nat).
Proof.
  unfold generate_token. split_and!; [| |apply reject_limit_unbiased].
  - intros tok Hd. destruct (Z.leb_spec len 0); [intros [= <-]; by left|]. intros Hg.
    apply generate_loop_spec in Hg as [|[[H1 H2]|(_ & rc & buf & Hin & Hrc)]]; [by left | | | done | cbn; lia].
    + right. split; [done|]. unfold zlength. lia.
    + rewrite Forall_forall in Hd. apply Hd in Hin. cbn in Hin. lia.
  - intros Ha. destruct (Z.leb_spec len 0); [done|]. apply generate_loop_total; [done | cbn; lia|]. cbn. lia.
Qed.

(** ** The sweep *)

Lemma fold_oldest l : forall o : cppstring * token_entry,
  let r := fold_left (fun o e => if t_created e.2 <? t_created o.2 then e else o) l o in
  r ∈ o :: l /\ forall x, x ∈ o :: l -> t_created r.2 <= t_created x.2.
Proof.
  induction l as [|e l IH]; intros o; cbn [fold_left]; [split; [left | intros x ->%list_elem_of_singleton; lia]|].
  destruct (Z.ltb_spec (t_created e.2) (t_created o.2)) as [Hlt|Hge].
  - destruct (IH e) as [H1 H2]. split; [by right|]. intros x [->|Hx]%elem_of_cons; [|by apply H2].
    specialize (H2 e (list_elem_of_here _ _)). lia.
  - destruct (IH o) as [H1 H2]. split; [apply elem_of_cons in H1 as [->|H1]; [left | right; by right]|].
    intros x [->|[->|Hx]%elem_of_cons]%elem_of_cons; [apply H2; left | | apply H2; by right].
    specialize (H2 o (list_elem_of_here _ _)). lia.
Qed.

Lemma oldest_spec m : match oldest m with
  | Some k => exists e, m !! k = Some e /\ forall k' e', m !! k' = Some e' -> t_created e <= t_created e'
  | None => m = ∅
  end.
Proof.
  unfold oldest. destruct (map_to_list m) as [|o l] eqn:E; [by apply map_to_list_empty_iff|].
  destruct (fold_oldest l o) as [H1 H2]. set (r := fold_left _ _ _) in *. exists r.2. rewrite <- E in H1, H2. split.
  - apply elem_of_map_to_list. by destruct r.
  - intros k' e' Hk. apply (H2 (k', e')). by apply elem_of_map_to_list.
Qed.

Lemma drop_oldest_spec fuel : forall m, (size m <= fuel)%nat ->
  drop_oldest fuel m ⊆ m /\ (size (drop_oldest fuel m) < kMaxTokens)%nat /\
  ((size m < kMaxTokens)%nat -> drop_oldest fuel m = m) /\
  forall k e k' e', m !! k = Some e -> drop_oldest fuel m !! k = None -> drop_oldest fuel m !! k' = Some e' -> t_created e <= t_created e'.
Proof.
  induction fuel as [|fuel IH]; intros m Hf; cbn [drop_oldest].
  { split_and!; [done | unfold kMaxTokens; lia | done |]. intros. congruence. }
  destruct (Nat.leb_spec kMaxTokens (size m)) as [Hm|Hm]; [|split_and!; [done | lia | done |]; intros; congruence].
  pose proof (oldest_spec m) as Ho. destruct (oldest m) as [o|]; [|subst m; rewrite map_size_empty in Hm; unfold kMaxTokens in Hm; lia].
  destruct Ho as (eo & Heo & Hmin). assert (Hs : size (delete o m) = (size m - 1)%nat) by (rewrite map_size_delete_Some by done; lia).
  destruct (IH (delete o m)) as (H1 & H2 & H3 & H4); [lia|]. split_and!; [|done|lia|].
  - etrans; [done|]. apply delete_subseteq.
  - intros k e k' e' Hk Hn Hk'. destruct (decide (k = o)) as [->|Hko].
    + rewrite Heo in Hk. injection Hk as <-. apply (Hmin k'). eapply lookup_weaken; [done|]. etrans; [done|]. apply delete_subseteq.
    + apply (H4 k e k' e'); [by rewrite lookup_delete_ne | done | done].
Qed.

Lemma unexpired_lookup now m k e : unexpired now m !! k = Some e <-> m !! k = Some e /\ has_token_expired (t_created e) now = false.
Proof. unfold unexpired. by rewrite map_lookup_filter_Some. Qed.

(** The sweep keeps live entries only, less than the cap of them, all of them when they are few,
    and drops no entry that is newer than one it keeps. *)
Lemma sweep_spec now m :
  sweep_expired now m ⊆ unexpired now m /\ (size (sweep_expired now m) < kMaxTokens)%nat /\
  ((size (unexpired now m) < kMaxTokens)%nat -> sweep_expired now m = unexpired now m) /\
  forall k e k' e', unexpired now m !! k = Some e -> sweep_expired now m !! k = None -> sweep_expired now m !! k' = Some e' ->
    t_created e <= t_created e'.
Proof.
  unfold sweep_expired. destruct (Nat.ltb_spec (size (unexpired now m)) kMaxTokens); [split_and!; try done; intros; congruence|].
  by apply drop_oldest_spec.
Qed.

Lemma sweep_lookup now m k e : sweep_expired now m !! k = Some e -> m !! k = Some e.
Proof. intros Hk. destruct (sweep_spec now m) as [Hs _]. by apply (unexpired_lookup now), (lookup_weaken _ _ _ _ Hk Hs). Qed.

(** ** Histories of the store *)

Inductive op :=
| Issue (ok : bool) (token : cppstring) (now : Z) (user fingerprint : cppstring)
| Validate (ok : bool) (token : cppstring) (now : Z)
| IsValid (ok : bool) (token : cppstring) (now : Z)
| Restore (session : persisted_session) (now : Z)
| Revoke (ok : bool) (token : cppstring)
| RevokeUser (user : cppstring)
| AddUser (user role : cppstring)
| AddGrant (role grant : cppstring).

Section History.
Context `{sha256}.

Definition exec (s : token_store) (o : op) : token_store :=
  match o with
  | Issue ok token now user fp => (generate_for ok token now user fp s).2
  | Validate ok token now => (validate ok token now s).2
  | IsValid ok token now => (is_valid ok token now s).2
  | Restore session now => (restore session now s).2
  | Revoke ok token => revoke ok token s
  | RevokeUser user => revoke_tokens_for_user user s
  | AddUser user role => store_add_user user role s
  | AddGrant role grant => store_add_grant role grant s
  end.
Definition run (ops : list op) : token_store := fold_left exec ops (mkStore ∅ no_grants).

(** The operations that create and that end the session [k] of a user. *)
Definition creates (o : op) (k : cppstring) (e : token_entry) : Prop :=
  match o with
  | Issue ok token now user fp => token <> [] /\ k = key_for ok token /\ e = mkToken user now fp
  | Restore session now =>
      k = hash session /\ e = mkToken (p_user session) (p_created session) (p_fingerprint session) /\ has_token_expired (p_created session) now = false
  | _ => False
  end.
Definition ends (o : op) (k user : cppstring) : Prop :=
  match o with Revoke ok token => k = key_for ok token | RevokeUser u => u = user | _ => False end.

(** Every entry was there before and was not ended, or has just been created. *)
Lemma exec_origin s o k e : tokens (exec s o) !! k = Some e ->
  (k <> [] /\ creates o k e) \/ (tokens s !! k = Some e /\ ~ ends o k (t_user e)).
Proof.
  destruct o as [ok token now user fp|ok token now|ok token now|session now|ok token|user|user role|role grant]; cbn [exec creates ends].
  - unfold generate_for. case_bool_decide as Ht; [auto|]. case_bool_decide as Hk; [auto|]. cbn. intros He.
    apply lookup_insert_Some in He as [[<- <-]|[_ He%sweep_lookup]]; auto.
  - unfold validate. destruct (tokens s !! key_for ok token); [|auto]. case_if; cbn; [|auto]. intros [_ ?]%lookup_delete_Some. auto.
  - unfold is_valid. destruct (tokens s !! key_for ok token); [|auto]. case_if; cbn; [|auto]. intros [_ ?]%lookup_delete_Some. auto.
  - unfold restore. case_if; [auto|]. apply orb_false_iff in Heqb as [Hh%bool_decide_eq_false _].
    case_if; [auto|]. destruct (tokens s !! hash session); [auto|]. cbv zeta. set (s' := if Nat.leb _ _ then _ else s).
    assert (Hs' : forall k e, tokens s' !! k = Some e -> tokens s !! k = Some e)
      by (subst s'; intros k' e'; case_if; [apply sweep_lookup | done]).
    case_if; cbn; [auto|]. intros [[<- <-]|[_ He%Hs']]%lookup_insert_Some; auto.
  - cbn. intros [Hk He]%lookup_delete_Some. auto.
  - cbn. intros [He Hu]%map_lookup_filter_Some. right. split; [done|]. intros ->. done.
  - cbn. auto.
  - cbn. auto.
Qed.

Lemma run_snoc ops o : run (ops ++ [o]) = exec (run ops) o.
Proof. unfold run. by rewrite fold_left_app. Qed.

Lemma run_origin ops k e : tokens (run ops) !! k = Some e ->
  exists pre o post, ops = pre ++ o :: post /\ creates o k e /\ Forall (fun x => ~ ends x k (t_user e)) post.
Proof.
  induction ops as [|o ops IH] using rev_ind; [done|]. rewrite run_snoc. intros [[_ Hc]|[He Hn]]%exec_origin.
  - by exists ops, o, [].
  - destruct (IH He) as (pre & o' & post & -> & Hc & Hp). exists pre, o', (post ++ [o]). rewrite <- app_assoc. split_and!; try done.
    apply Forall_app. split; [done|]. by apply Forall_singleton.
Qed.

(** A token names a user only if, in the history of the store, a login or a restore made that
    session for that user at most eight hours ago, and neither the token nor the user has been
    revoked since. *)
Theorem session_has_origin (ops : list op) (ok : bool) (token user : cppstring) (now : Z)
    (Hv : (validate ok token now (run ops)).1 = Some user) :
  exists pre o post e, ops = pre ++ o :: post /\ creates o (key_for ok token) e /\ t_user e = user /\
    Forall (fun x => ~ ends x (key_for ok token) user) post /\ t_created e <= now <= t_created e + TOKEN_EXPIRATION_SECONDS.
Proof.
  unfold validate in Hv. destruct (tokens (run ops) !! key_for ok token) as [e|] eqn:He; [|done].
  destruct (has_token_expired (t_created e) now) eqn:Hx; [done|]. injection Hv as <-.
  destruct (run_origin _ _ _ He) as (pre & o & post & -> & Hc & Hp). exists pre, o, post, e. split_and!; try done;
    unfold has_token_expired in Hx; apply orb_false_iff in Hx as [H1 H2]; rewrite Z.gtb_ltb in H1, H2; [apply Z.ltb_ge in H1 | apply Z.ltb_ge in H2]; lia.
Qed.

Definition bounded (s : token_store) : Prop := (size (tokens s) <= kMaxTokens)%nat /\ tokens s !! [] = None.

Lemma size_subseteq (m1 m2 : gmap cppstring token_entry) : m1 ⊆ m2 -> (size m1 <= size m2)%nat.
Proof. intros Hs. rewrite <- !size_dom. by apply subseteq_size, subseteq_dom. Qed.

Lemma size_insert_le (k : cppstring) (e : token_entry) (m : gmap cppstring token_entry) : (size (<[k := e]> m) <= S (size m))%nat.
Proof. destruct (m !! k) eqn:E; [rewrite map_size_insert_Some by eauto | rewrite map_size_insert_None by done]; lia. Qed.

Lemma exec_bounded s o : bounded s -> bounded (exec s o).
Proof.
  intros [Hs Hn]. split.
  2:{ destruct (tokens (exec s o) !! []) as [e|] eqn:E; [|done]. apply exec_origin in E as [[]|[]]; congruence. }
  destruct o as [ok token now user fp|ok token now|ok token now|session now|ok token|user|user role|role grant]; cbn [exec].
  - unfold generate_for. do 2 (case_bool_decide; [done|]). cbn. destruct (sweep_spec now (tokens s)) as (_ & Hlt & _).
    etrans; [apply size_insert_le|]. lia.
  - unfold validate. destruct (tokens s !! key_for ok token); [|done]. case_if; [|done]. etrans; [apply size_subseteq, delete_subseteq | done].
  - unfold is_valid. destruct (tokens s !! key_for ok token); [|done]. case_if; [|done]. etrans; [apply size_subseteq, delete_subseteq | done].
  - unfold restore. do 2 (case_if; [done|]). destruct (tokens s !! hash session); [done|]. cbv zeta. set (s' := if Nat.leb _ _ then _ else s).
    assert (Hs' : (size (tokens s') <= kMaxTokens)%nat).
    { subst s'. case_if; [|done]. destruct (sweep_spec now (tokens s)) as (_ & Hlt & _). cbn. lia. }
    destruct (Nat.leb_spec kMaxTokens (size (tokens s'))); [done|]. cbn. etrans; [apply size_insert_le|]. lia.
  - etrans; [apply size_subseteq, delete_subseteq | done].
  - etrans; [apply size_subseteq, map_filter_subseteq | done].
  - done.
  - done.
Qed.

(** Whatever sequence of logins, lookups, restores and revocations runs, the store never holds
    more than 4096 sessions and never one under the empty key. *)
Theorem token_store_bounded (ops : list op) :
  (size (tokens (run ops)) <= kMaxTokens)%nat /\ tokens (run ops) !! [] = None.
Proof.
  change (bounded (run ops)). induction ops as [|o ops IH] using rev_ind; [split; [apply Nat.le_0_l | done]|]. rewrite run_snoc. by apply exec_bounded.
Qed.

(** A session that is issued is valid for its user for eight hours, not after, and not once the
    token or the user is revoked; issuing it ends no other live session while the store is below
    its cap. *)
Theorem issue_then_validate (s : token_store) (ok : bool) (token user fp : cppstring) (t now : Z) (Htoken : token <> [])
    (Hkey : key_for ok token <> []) (Hnow : t <= now <= t + TOKEN_EXPIRATION_SECONDS) :
  let r := generate_for ok token t user fp s in
  r.1 = token /\ (validate ok token now r.2).1 = Some user /\ (validate ok token now (revoke ok token r.2)).1 = None /\
  (validate ok token now (revoke_tokens_for_user user r.2)).1 = None /\
  (validate ok token (t + TOKEN_EXPIRATION_SECONDS + 1) r.2).1 = None /\
  (forall k e, k <> key_for ok token -> (size (unexpired t (tokens s)) < kMaxTokens)%nat -> tokens s !! k = Some e ->
     has_token_expired (t_created e) t = false -> tokens r.2 !! k = Some e).
Proof.
  cbv zeta. unfold generate_for. rewrite !bool_decide_eq_false_2 by done. cbn [fst snd].
  assert (Hm : tokens (set_tokens (fun m => <[key_for ok token := mkToken user t fp]> (sweep_expired t m)) s) !! key_for ok token = Some (mkToken user t fp))
    by (cbn; by rewrite lookup_insert_eq).
  assert (Hlive : has_token_expired t now = false).
  { unfold has_token_expired. rewrite !Z.gtb_ltb. apply orb_false_iff. split; apply Z.ltb_ge; lia. }
  unfold validate. rewrite Hm. cbn [t_created t_user]. rewrite Hlive. split_and!; try done.
  - cbn. by rewrite lookup_delete_eq.
  - cbn. rewrite map_lookup_filter, lookup_insert_eq. cbn. case_guard; [by destruct H0 | done].
  - replace (has_token_expired t (t + TOKEN_EXPIRATION_SECONDS + 1)) with true; [done|]. symmetry. unfold has_token_expired.
    apply orb_true_iff. right. rewrite Z.gtb_ltb. apply Z.ltb_lt. lia.
  - intros k e Hk Hsz He Hx. cbn. rewrite lookup_insert_ne by done. destruct (sweep_spec t (tokens s)) as (_ & _ & -> & _); [|done].
    by apply unexpired_lookup.
Qed.
End History.

(** ** The stored table is read back *)

Lemma cut_line_app a b : c_newline ∉ a -> cut_line (a ++ c_newline :: b) = (a, Some b).
Proof.
  induction a as [|c a IH]; intros Ha; cbn; [done|]. apply not_elem_of_cons in Ha as [Hc Ha].
  rewrite bool_decide_eq_false_2 by congruence. by rewrite IH.
Qed.
Lemma cut_line_last a : c_newline ∉ a -> cut_line a = (a, None).
Proof.
  induction a as [|c a IH]; intros Ha; cbn; [done|]. apply not_elem_of_cons in Ha as [Hc Ha].
  rewrite bool_decide_eq_false_2 by congruence. by rewrite IH.
Qed.

Lemma hash_not_in h c : is_hash h = true -> is_lower_hex c = false -> c ∉ h.
Proof.
  intros [_ Hh]%andb_prop Hc Hin. rewrite forallb_forall in Hh. apply list_elem_of_In in Hin. by rewrite (Hh _ Hin) in Hc.
Qed.

(** A session whose record can be read back. *)
Definition storable (s : persisted_session) : Prop := 0 < p_created s <= llong_max /\ last (p_fingerprint s) <> Some c_return.

Lemma representable_fields s : representable s = true ->
  is_hash (hash s) = true /\ p_user s <> [] /\ (c_tab ∉ p_user s) /\ (c_newline ∉ p_user s) /\
  (c_tab ∉ p_fingerprint s) /\ (c_newline ∉ p_fingerprint s).
Proof.
  unfold representable, has_delimiter, has_char. intros [[Hh Hu]%andb_prop Hd]%andb_prop.
  apply negb_true_iff in Hu, Hd. apply orb_false_iff in Hd as [[]%orb_false_iff []%orb_false_iff].
  repeat match goal with H : bool_decide _ = false |- _ => apply bool_decide_eq_false in H end. done.
Qed.

Lemma record_line_one_line s : representable s = true -> storable s -> (c_newline ∉ record_line s) /\ chomp (record_line s) = record_line s.
Proof.
  intros (Hh & Hu & Hut & Hun & Hft & Hfn)%representable_fields [Hc Hl]. unfold record_line. split.
  - rewrite !elem_of_app, !list_elem_of_singleton.
    pose proof (hash_not_in _ c_newline Hh eq_refl). pose proof (show_not_in (p_created s) c_newline ltac:(lia) eq_refl). naive_solver.
  - unfold chomp. rewrite bool_decide_eq_false_2; [done|]. rewrite !app_assoc, last_app. destruct (last (p_fingerprint s)) eqn:E; [congruence|].
    rewrite last_snoc. discriminate.
Qed.

Lemma parse_record_line s : representable s = true -> storable s -> parse_record (record_line s) = Some s.
Proof.
  intros (Hh & Hu & Hut & Hun & Hft & Hfn)%representable_fields [Hc Hl].
  destruct (show_digits (p_created s)) as (Hne & Hdig & Hdec); [lia|].
  pose proof (hash_not_in _ c_tab Hh eq_refl) as Hht. pose proof (show_not_in (p_created s) c_tab ltac:(lia) eq_refl) as Hst.
  unfold parse_record, record_line. destruct s as [h u c f]. cbn [hash p_user p_created p_fingerprint] in *. cbn [app].
  set (sc := show c) in *. rewrite find_char_first by done.
  replace (length h + 1)%nat with (length (h ++ [c_tab])) by (rewrite length_app; done).
  rewrite (cons_middle c_tab h), (app_assoc h). rewrite find_char_next by done.
  replace (length (h ++ [c_tab]) + length u + 1)%nat with (length ((h ++ [c_tab]) ++ u ++ [c_tab])) by (rewrite !length_app; cbn; lia).
  rewrite (cons_middle c_tab u), (app_assoc u), (app_assoc (h ++ [c_tab])). rewrite find_char_next by done.
  set (pre := (h ++ [c_tab]) ++ u ++ [c_tab]).
  replace (length pre + length sc + 1)%nat with (length (pre ++ sc ++ [c_tab])) by (rewrite !length_app; cbn; lia).
  assert (E1 : substr (pre ++ sc ++ c_tab :: f) 0 (length h) = h)
    by (unfold substr, pre; rewrite drop_0, <- !app_assoc; apply take_app_length).
  assert (E2 : substr (pre ++ sc ++ c_tab :: f) (length (h ++ [c_tab])) (length (h ++ [c_tab]) + length u - length h - 1) = u).
  { unfold substr, pre. rewrite <- (app_assoc (h ++ [c_tab])), drop_app_length, <- app_assoc.
    replace (length (h ++ [c_tab]) + length u - length h - 1)%nat with (length u) by (rewrite length_app; cbn; lia). apply take_app_length. }
  assert (E3 : substr (pre ++ sc ++ c_tab :: f) (length pre) (length pre + length sc - (length (h ++ [c_tab]) + length u) - 1) = sc).
  { unfold substr. rewrite drop_app_length.
    replace (length pre + length sc - (length (h ++ [c_tab]) + length u) - 1)%nat with (length sc) by (unfold pre; rewrite !length_app; cbn; lia).
    apply take_app_length. }
  assert (E4 : substr_from (pre ++ sc ++ c_tab :: f) (length (pre ++ sc ++ [c_tab])) = f)
    by (unfold substr_from; replace (pre ++ sc ++ c_tab :: f) with ((pre ++ sc ++ [c_tab]) ++ f) by (by rewrite <- !app_assoc);
        apply drop_app_length).
  rewrite E1, E2, E3, E4. unfold has_char. rewrite Hh, !bool_decide_eq_false_2, Hdig, Hdec by done. cbn [orb negb].
  rewrite Z.min_l by lia. destruct (Z.leb_spec c 0); [lia | done].
Qed.

Definition body (rs : list persisted_session) : cppstring := concat (map (fun s => c_newline :: record_line s) rs).

Lemma serialize_loop_spec l any : serialize_loop l any =
  (if any || bool_decide (List.filter representable l = []) then [] else kVersion) ++ body (List.filter representable l).
Proof.
  revert any. induction l as [|s l IH]; intros any; cbn [serialize_loop List.filter]; [by destruct any|].
  destruct (representable s); [|apply IH]. rewrite IH. cbn [orb]. rewrite bool_decide_eq_false_2 by done.
  unfold body. cbn [map concat app]. by destruct any.
Qed.

Definition next_line (rs : list persisted_session) : option cppstring :=
  match rs with [] => None | s :: rs' => Some (record_line s ++ body rs') end.

Lemma cut_line_body a rs : c_newline ∉ a -> cut_line (a ++ body rs) = (a, next_line rs).
Proof. intros Ha. destruct rs; [cbn; rewrite app_nil_r; by apply cut_line_last | by apply cut_line_app]. Qed.

Lemma parse_lines_body rs : forall fuel, (length rs <= fuel)%nat -> Forall (fun s => representable s = true /\ storable s) rs ->
  parse_lines fuel (next_line rs) = rs.
Proof.
  induction rs as [|s rs IH]; intros fuel Hf Hall; [by destruct fuel|]. destruct fuel as [|fuel]; [cbn in Hf; lia|].
  apply Forall_cons in Hall as [[Hr Hs] Hall]. destruct (record_line_one_line s Hr Hs) as [Hn Hch].
  cbn [next_line parse_lines]. rewrite cut_line_body, Hch by done. rewrite bool_decide_eq_false_2, parse_record_line by
    (done || (unfold record_line; destruct (representable_fields s Hr) as ([Hl _]%andb_prop & _); by destruct (hash s))).
  cbn [app]. f_equal. apply IH; [cbn in Hf; lia | done].
Qed.

Lemma parse_serialize l : Forall storable l -> parse_sessions (serialize_sessions l) = List.filter representable l.
Proof.
  intros Hl.
  unfold serialize_sessions, parse_sessions. rewrite serialize_loop_spec. cbn [orb]. set (rs := List.filter representable l).
  assert (Hall : Forall (fun s => representable s = true /\ storable s) rs).
  { apply Forall_forall. intros s Hin%list_elem_of_In. unfold rs in Hin. apply List.filter_In in Hin as [Hin Hr]. split; [done|].
    rewrite Forall_forall in Hl. by apply Hl, list_elem_of_In. }
  destruct (decide (rs = [])) as [Hrs|Hrs]; [by rewrite Hrs|]. rewrite (bool_decide_eq_false_2 (rs = [])), bool_decide_eq_false_2 by done.
  rewrite cut_line_body by (intros Hin%list_elem_of_singleton; discriminate).
  change (chomp kVersion) with kVersion. rewrite bool_decide_eq_true_2 by done. cbn [negb]. apply parse_lines_body; [|done].
  rewrite length_app. unfold body. clear. induction rs as [|s rs IH]; cbn; [lia|]. rewrite length_app. cbn in *. lia.
Qed.

(** The stored session table is read back as the sessions it could represent, in order, and
    writing what was read gives the same table. *)
Theorem sessions_roundtrip (l : list persisted_session) (Hl : Forall storable l) :
  parse_sessions (serialize_sessions l) = List.filter representable l /\
  parse_sessions (serialize_sessions (parse_sessions (serialize_sessions l))) = parse_sessions (serialize_sessions l).
Proof.
  rewrite (parse_serialize l) by done. split; [done|]. rewrite parse_serialize.
  - induction l as [|s l IH]; cbn; [done|]. apply Forall_cons in Hl as [_ Hl]. destruct (representable s) eqn:E; cbn; rewrite ?E, IH; done.
  - apply Forall_forall. intros s [Hin _]%list_elem_of_In%List.filter_In. rewrite Forall_forall in Hl. by apply Hl, list_elem_of_In.
Qed.

(** A stand-in for SHA-256, to run the definitions. *)
Lemma hex_char_lower c : forallb is_lower_hex (to_hex_char c) = true.
Proof. destruct c as [[] [] [] [] [] [] [] []]; reflexivity. Qed.

Definition toy_sha256 : sha256.
Proof.
  refine {| has_sha256 := true; sha256_hex s := take 64 (to_hex s ++ replicate 64 "0"%char) |}. intros s. unfold is_hash.
  apply andb_true_iff. split; [apply Nat.eqb_eq; rewrite length_take, length_app, length_replicate; lia|].
  apply forallb_forall. intros c Hc%list_elem_of_In. assert (Hi : c ∈ to_hex s ++ replicate 64 "0"%char)
    by (rewrite <- (take_drop 64 (to_hex s ++ _)); apply elem_of_app; by left).
  apply elem_of_app in Hi as [Hi|[-> _]%elem_of_replicate]; [|done]. unfold to_hex in Hi. apply list_elem_of_In, in_concat in Hi as (x & Hx & Hcx).
  apply in_map_iff in Hx as (a & <- & _). pose proof (hex_char_lower a) as Hf. rewrite forallb_forall in Hf. by apply Hf.
Defined.

Definition sample_session : persisted_session := mkSession (replicate 64 "a"%char) (str "admin") 1700000000 (str "f00").

Lemma sessions_roundtrip_witness :
  let l := [sample_session; mkSession [] (str "x") 5 []] in
  parse_sessions (serialize_sessions l) = List.filter representable l /\
  parse_sessions (serialize_sessions (parse_sessions (serialize_sessions l))) = parse_sessions (serialize_sessions l).
Proof. apply (sessions_roundtrip [sample_session; mkSession [] (str "x") 5 []]). repeat constructor; cbn; try lia; discriminate. Defined.

Lemma session_has_origin_witness :
  let _ := toy_sha256 in
  exists pre o post e, [Issue true (str "tok") 100 (str "admin") []; RevokeUser (str "guest")] = pre ++ o :: post /\
    creates o (key_for true (str "tok")) e /\ t_user e = str "admin" /\
    Forall (fun x => ~ ends x (key_for true (str "tok")) (str "admin")) post /\ t_created e <= 200 <= t_created e + TOKEN_EXPIRATION_SECONDS.
Proof.
  apply (@session_has_origin toy_sha256 [Issue true (str "tok") 100 (str "admin") []; RevokeUser (str "guest")]). vm_compute. reflexivity.
Defined.

Lemma issue_then_validate_witness :
  let _ := toy_sha256 in
  let s := mkStore ∅ no_grants in
  let r := generate_for true (str "tok") 100 (str "admin") [] s in
  r.1 = str "tok" /\ (validate true (str "tok") 200 r.2).1 = Some (str "admin") /\
  (validate true (str "tok") 200 (revoke true (str "tok") r.2)).1 = None /\
  (validate true (str "tok") 200 (revoke_tokens_for_user (str "admin") r.2)).1 = None /\
  (validate true (str "tok") (100 + TOKEN_EXPIRATION_SECONDS + 1) r.2).1 = None /\
  (forall k e, k <> key_for true (str "tok") -> (size (unexpired 100 (tokens s)) < kMaxTokens)%nat -> tokens s !! k = Some e ->
     has_token_expired (t_created e) 100 = false -> tokens r.2 !! k = Some e).
Proof.
  apply (@issue_then_validate toy_sha256 (mkStore ∅ no_grants) true (str "tok") (str "admin") [] 100 200).
  - discriminate.
  - discriminate.
  - unfold TOKEN_EXPIRATION_SECONDS. lia.
Defined.
