(* ===== verification/WebAuth.v ===== *)
(** Who may call the web API: modules/WEBServer/session_manager_interface.cpp.

    The manager composes the components it owns: the session and grant tables
    (WebTokens), the users (PasswordHash), the failed-login limiter (RateLimit) and the
    allowed hosts (AllowedHosts).  A request is its remote address, its headers and its
    decoded query variables; a response is its code and the request-scoped context.  The
    clock, the drawn token and whether the digest works are the [moment] of the call. *)

From stdpp Require Import base list gmap strings.
From Stdlib Require Import Ascii ZArith Lia.
From Stdlib Require String.
From S2P Require Import Prelude Strings RateLimit AllowedHosts PasswordHash WebTokens Base64.
Import String.StringSyntax.

Local Open Scope Z_scope.

Record session_manager := mkSessions {
  tokens_ : token_store;
  allowed_hosts : allowed_hosts_manager;
  users_ : user_manager;
  rate_limiter : auth_rate_limiter;
  allow_anonymous_ : bool;
  legacy_query_auth_user_agents_ : list cppstring
}.

Record request := mkRequest { getRemoteIp : cppstring; headers : gmap cppstring cppstring; query : gmap cppstring cppstring }.
Record response := mkResponse { code : Z; context : gmap cppstring cppstring }.
Record moment := mkMoment { now : Z; digest_ok : bool; drawn : cppstring }.

Definition readHeader (r : request) (key : cppstring) : cppstring := default [] (headers r !! key).
Definition hasVariable (r : request) (key : cppstring) : bool := bool_decide (is_Some (headers r !! key)).
Definition request_get (r : request) (key : cppstring) : cppstring := default [] (query r !! key).
Definition getContext (r : response) (key : cppstring) : cppstring := default [] (context r !! key).
Definition setContext (key value : cppstring) (r : response) : response := mkResponse (code r) (<[key := value]> (context r)).
Definition setCodeForbidden (r : response) : response := mkResponse 403 (context r).
Definition setCodeServerError (r : response) : response := mkResponse 500 (context r).

Definition set_sm_tokens (t : token_store) (m : session_manager) : session_manager :=
  mkSessions t (allowed_hosts m) (users_ m) (rate_limiter m) (allow_anonymous_ m) (legacy_query_auth_user_agents_ m).
Definition set_limiter (l : auth_rate_limiter) (m : session_manager) : session_manager :=
  mkSessions (tokens_ m) (allowed_hosts m) (users_ m) l (allow_anonymous_ m) (legacy_query_auth_user_agents_ m).

Definition HTTP_HDR_AUTH : cppstring := str "Authorization".
Definition HTTP_HDR_AUTH_LC : cppstring := str "authorization".

Definition starts_with (s prefix : cppstring) : bool := is_prefix prefix s.
Definition is_basic_auth (auth : cppstring) : bool := starts_with auth (str "Basic ").
Definition is_bearer_auth (auth : cppstring) : bool := starts_with auth (str "Bearer ").
Definition has_auth_header (r : request) : bool := hasVariable r HTTP_HDR_AUTH || hasVariable r HTTP_HDR_AUTH_LC.
Definition get_auth_header (r : request) : cppstring :=
  let auth := readHeader r HTTP_HDR_AUTH in
  if bool_decide (auth = []) then readHeader r HTTP_HDR_AUTH_LC else auth.

Definition set_legacy_query_auth_user_agents (csv : cppstring) (m : session_manager) : session_manager :=
  mkSessions (tokens_ m) (allowed_hosts m) (users_ m) (rate_limiter m) (allow_anonymous_ m) (default [] (split_trimmed csv (str ","))).

Definition client_allows_legacy_query_auth (m : session_manager) (user_agent : cppstring) : bool :=
  if bool_decide (user_agent = []) || bool_decide (legacy_query_auth_user_agents_ m = []) then false else
  let ua_lower := to_lower user_agent in
  existsb (fun pat => if bool_decide (pat = []) then false else
                      match find ua_lower (to_lower pat) 0 with Some _ => true | None => false end)
    (legacy_query_auth_user_agents_ m).

Definition find_token (r : request) (m : session_manager) : cppstring :=
  let header_token := readHeader r (str "TOKEN") in
  if negb (bool_decide (header_token = [])) then header_token else
  let x_token := readHeader r (str "X-Auth-Token") in
  if negb (bool_decide (x_token = [])) then x_token else
  let query_token := if negb (bool_decide (request_get r (str "TOKEN") = [])) then request_get r (str "TOKEN") else request_get r (str "__TOKEN") in
  if bool_decide (query_token = []) then [] else
  if client_allows_legacy_query_auth m (readHeader r (str "User-Agent")) then query_token else [].

(** The result of a call: what it returned, the grant that matched, and the changed objects. *)
Record outcome := mkOutcome { granted : bool; matched_grant : option cppstring; reply : response; manager : session_manager }.

Definition deny (r : response) (m : session_manager) : outcome := mkOutcome false None (setCodeForbidden r) m.
Definition deny_failure (ip : cppstring) (t : moment) (r : response) (m : session_manager) : outcome :=
  deny r (set_limiter (record_failure_at ip (now t) (rate_limiter m)) m).

Definition kMaxAuthHeaderBytes : nat := 8 * 1024.
Definition kImplicitUser : cppstring := str "admin".
Definition anonymous : cppstring := str "anonymous".

Section Sessions.
Context `{openssl} `{sha256} `{lexical} `{asio}.

Definition has_grant (m : session_manager) (grant : cppstring) (r : response) : bool :=
  let uid := getContext r (str "uid") in
  if bool_decide (uid = []) then allow_anonymous_ m && store_can (tokens_ m) anonymous grant
  else store_can (tokens_ m) uid grant.

Fixpoint can (grants : list cppstring) (r : response) (m : session_manager) : outcome :=
  match grants with
  | [] => deny r m
  | g :: grants' => if has_grant m g r then mkOutcome true (Some g) r m else can grants' r m
  end.

Definition fingerprint_for_user (ok : bool) (m : session_manager) (user : cppstring) : cppstring :=
  if bool_decide (user = []) || negb (users_has_user (users_ m) user) then [] else
  hash_token ok (store_get_role (tokens_ m) user ++ [c_newline] ++ users_get_hash (users_ m) user).

Definition store_user_in_response (t : moment) (user : cppstring) (issue_token : bool) (r : response) (m : session_manager) :
    bool * response * session_manager :=
  if negb issue_token then (true, setContext (str "uid") user r, m) else
  let '(token, tokens') := generate_for (digest_ok t) (drawn t) (now t) user (fingerprint_for_user (digest_ok t) m user) (tokens_ m) in
  let m := set_sm_tokens tokens' m in
  if bool_decide (token = []) then (false, r, m)
  else (true, setContext (str "uid") user (setContext (str "token") token r), m).

Definition store_session_in_response (token user : cppstring) (r : response) : response :=
  setContext (str "uid") user (setContext (str "token") token r).

(** The part the [Basic] and the [password] branches share, once the password is checked. *)
Definition authenticate_password (t : moment) (ip user : cppstring) (grants : list cppstring) (issue_token : bool) (r : response) (m : session_manager) : outcome :=
  let m := set_limiter (record_success ip (rate_limiter m)) m in
  let '(ok, r, m) := store_user_in_response t user issue_token r m in
  if negb ok then mkOutcome false None (setCodeServerError r) m else can grants r m.

Definition process_auth_header (t : moment) (grants : list cppstring) (req : request) (issue_token : bool) (r : response) (m : session_manager) : outcome :=
  let remote_ip := getRemoteIp req in
  if limiter_is_blocked (rate_limiter m) remote_ip (now t) then deny r m else
  let auth := get_auth_header req in
  if Nat.ltb kMaxAuthHeaderBytes (length auth) then deny_failure remote_ip t r m else
  if is_basic_auth auth then
    let '(user, password) := split2 (decode_b64 (substr_from auth 6)) (str ":") in
    if negb (users_validate_user (users_ m) user password) then deny_failure remote_ip t r m
    else authenticate_password t remote_ip user grants issue_token r m
  else if is_bearer_auth auth then
    let token := substr_from auth 7 in
    let '(user, tokens') := validate (digest_ok t) token (now t) (tokens_ m) in
    let m := set_sm_tokens tokens' m in
    match user with
    | None => deny_failure remote_ip t r m
    | Some user =>
        let m := set_limiter (record_success remote_ip (rate_limiter m)) m in
        can grants (store_session_in_response token user r) m
    end
  else deny r m.

Definition process_password_header (t : moment) (grants : list cppstring) (req : request) (password : cppstring) (issue_token : bool)
    (r : response) (m : session_manager) : outcome :=
  let remote_ip := getRemoteIp req in
  if limiter_is_blocked (rate_limiter m) remote_ip (now t) then deny r m else
  if Nat.ltb kMaxAuthHeaderBytes (length password) then deny_failure remote_ip t r m else
  if negb (users_validate_user (users_ m) kImplicitUser password) then deny_failure remote_ip t r m
  else authenticate_password t remote_ip kImplicitUser grants issue_token r m.

(** [None]: an exception of [make_address] or of the allowed hosts leaves the call. *)
Definition is_logged_in (t : moment) (grants : list cppstring) (req : request) (issue_token : bool) (r : response) (m : session_manager) : option outcome :=
  remote ← make_address (getRemoteIp req);
  allowed ← host_allowed (allowed_hosts m) remote;
  Some (
    if negb allowed then deny r m else
    if has_auth_header req then process_auth_header t grants req issue_token r m else
    let password_header := readHeader req (str "password") in
    if negb (bool_decide (password_header = [])) then process_password_header t grants req password_header issue_token r m else
    let token := find_token req m in
    if bool_decide (token = []) then deny r m else
    let '(user, tokens') := validate (digest_ok t) token (now t) (tokens_ m) in
    let m := set_sm_tokens tokens' m in
    match user with
    | None => deny r m
    | Some user =>
        let o := can grants (store_session_in_response token user r) m in
        if granted o then o else mkOutcome false (matched_grant o) (setCodeForbidden (reply o)) (manager o)
    end).
Definition log_in (t : moment) (grant : cppstring) (req : request) (r : response) (m : session_manager) : option outcome :=
  is_logged_in t [grant] req true r m.

(** ** Configuration and revocation *)

Definition sm_add_user (salt : option cppstring) (user role password : cppstring) (m : session_manager) : session_manager :=
  mkSessions (store_add_user user role (revoke_tokens_for_user user (tokens_ m))) (allowed_hosts m)
    (users_add_user salt user password (users_ m)) (rate_limiter m) (allow_anonymous_ m) (legacy_query_auth_user_agents_ m).

Definition sm_add_grant (role grant : cppstring) (m : session_manager) : session_manager :=
  if bool_decide (role = anonymous) && negb (allow_anonymous_ m) then m
  else set_sm_tokens (store_add_grant role grant (tokens_ m)) m.

Definition revoke_token (ok : bool) (token : cppstring) (m : session_manager) : session_manager := set_sm_tokens (revoke ok token (tokens_ m)) m.
Definition sm_revoke_tokens_for_user (user : cppstring) (m : session_manager) : session_manager :=
  set_sm_tokens (revoke_tokens_for_user user (tokens_ m)) m.
Definition sm_generate_token (t : moment) (user : cppstring) (m : session_manager) : cppstring * session_manager :=
  let '(token, tokens') := generate_for (digest_ok t) (drawn t) (now t) user (fingerprint_for_user (digest_ok t) m user) (tokens_ m) in
  (token, set_sm_tokens tokens' m).

(** ** Sessions across a restart *)

Definition export_sessions (t : moment) (m : session_manager) : list persisted_session := snapshot (now t) (tokens_ m).

(** The loop of [import_sessions], with the fingerprints it has computed. *)
Fixpoint import_loop (t : moment) (sessions : list persisted_session) (fingerprints : gmap cppstring cppstring) (restored : nat) (m : session_manager) :
    nat * session_manager :=
  match sessions with
  | [] => (restored, m)
  | session :: sessions' =>
      let current := match fingerprints !! p_user session with Some f => f | None => fingerprint_for_user (digest_ok t) m (p_user session) end in
      let fingerprints := <[p_user session := current]> fingerprints in
      if bool_decide (current = []) || negb (bool_decide (p_fingerprint session = current))
      then import_loop t sessions' fingerprints restored m
      else
        let record := if p_created session >? now t then mkSession (hash session) (p_user session) (now t) (p_fingerprint session) else session in
        let '(ok, tokens') := restore record (now t) (tokens_ m) in
        import_loop t sessions' fingerprints (if (ok : bool) then S restored else restored) (set_sm_tokens tokens' m)
  end.
Definition import_sessions (t : moment) (sessions : list persisted_session) (m : session_manager) : nat * session_manager :=
  import_loop t sessions ∅ 0 m.
End Sessions.

(** ** Access *)

Section Access.
Context `{openssl} `{sha256} `{lexical} `{asio}.

(** Who the request comes from, and by which credential. *)
Inductive authenticated (t : moment) (req : request) (m : session_manager) : cppstring -> Prop :=
| by_basic user password : has_auth_header req = true -> limiter_is_blocked (rate_limiter m) (getRemoteIp req) (now t) = false ->
    (length (get_auth_header req) <= kMaxAuthHeaderBytes)%nat -> is_basic_auth (get_auth_header req) = true ->
    split2 (decode_b64 (substr_from (get_auth_header req) 6)) (str ":") = (user, password) ->
    users_validate_user (users_ m) user password = true -> authenticated t req m user
| by_bearer user : has_auth_header req = true -> limiter_is_blocked (rate_limiter m) (getRemoteIp req) (now t) = false ->
    (length (get_auth_header req) <= kMaxAuthHeaderBytes)%nat -> is_basic_auth (get_auth_header req) = false ->
    is_bearer_auth (get_auth_header req) = true ->
    (validate (digest_ok t) (substr_from (get_auth_header req) 7) (now t) (tokens_ m)).1 = Some user -> authenticated t req m user
| by_password : has_auth_header req = false -> readHeader req (str "password") <> [] ->
    limiter_is_blocked (rate_limiter m) (getRemoteIp req) (now t) = false ->
    (length (readHeader req (str "password")) <= kMaxAuthHeaderBytes)%nat ->
    users_validate_user (users_ m) kImplicitUser (readHeader req (str "password")) = true -> authenticated t req m kImplicitUser
| by_token user : has_auth_header req = false -> readHeader req (str "password") = [] -> find_token req m <> [] ->
    (validate (digest_ok t) (find_token req m) (now t) (tokens_ m)).1 = Some user -> authenticated t req m user.

(** What the roles let a user do; no user is [anonymous], when that is allowed. *)
Definition authorised (m : session_manager) (uid grant : cppstring) : Prop :=
  if bool_decide (uid = []) then allow_anonymous_ m = true /\ store_can (tokens_ m) anonymous grant = true
  else store_can (tokens_ m) uid grant = true.

Lemma has_grant_iff m g r : has_grant m g r = true <-> authorised m (getContext r (str "uid")) g.
Proof. unfold has_grant, authorised. case_bool_decide; [apply andb_true_iff | done]. Qed.

Lemma can_spec grants r m :
  manager (can grants r m) = m /\ context (reply (can grants r m)) = context r /\
  (granted (can grants r m) = true -> exists g, matched_grant (can grants r m) = Some g /\ g ∈ grants /\ has_grant m g r = true) /\
  ((exists g, g ∈ grants /\ has_grant m g r = true) -> granted (can grants r m) = true).
Proof.
  induction grants as [|g grants IH]; cbn [can]; [split_and!; try done; by intros (g & Hg%not_elem_of_nil & _)|].
  destruct (has_grant m g r) eqn:Hg; cbn; [split_and!; try done; intros _; exists g; split_and!; [done | left | done]|].
  destruct IH as (C1 & C2 & C3 & C4). split_and!; [done | done | |].
  - intros (g' & Hm & Hin & Hh)%C3. exists g'. split_and!; [done | by right | done].
  - intros (g' & [->|Hin]%elem_of_cons & Hh); [congruence|]. eauto.
Qed.

Lemma getContext_set k v r : getContext (setContext k v r) k = v.
Proof. unfold getContext, setContext. cbn. by rewrite lookup_insert_eq. Qed.

(** The tables a login changes do not matter for the grants. *)
Definition same_grants (m m' : session_manager) : Prop := grants (tokens_ m) = grants (tokens_ m') /\ allow_anonymous_ m = allow_anonymous_ m'.

Lemma authorised_same m m' uid g : same_grants m m' -> authorised m uid g -> authorised m' uid g.
Proof. intros [Hg Ha]. unfold authorised, store_can. by rewrite Hg, Ha. Qed.

Lemma generate_for_grants ok token t user fp s : grants (generate_for ok token t user fp s).2 = grants s.
Proof. unfold generate_for. by repeat case_bool_decide. Qed.
Lemma validate_grants_kept ok token t s : grants (validate ok token t s).2 = grants s.
Proof. unfold validate. destruct (tokens s !! _); [|done]. by case_if. Qed.

(** [can] on a response that names the user. *)
Lemma can_user grants r m m' user : getContext r (str "uid") = user -> same_grants m m' ->
  (granted (can grants r m') = true -> exists g, matched_grant (can grants r m') = Some g /\ g ∈ grants /\ authorised m user g /\
     getContext (reply (can grants r m')) (str "uid") = user) /\
  ((exists g, g ∈ grants /\ authorised m user g) -> granted (can grants r m') = true).
Proof.
  intros Hu Hs. destruct (can_spec grants r m') as (C1 & C2 & C3 & C4). split.
  - intros (g & Hm & Hin & Hh)%C3. exists g. apply has_grant_iff in Hh. rewrite Hu in Hh. split_and!; try done.
    + eapply authorised_same; [|exact Hh]. destruct Hs; split; congruence.
    + unfold getContext. by rewrite C2.
  - intros (g & Hin & Ha). apply C4. exists g. split; [done|]. apply has_grant_iff. rewrite Hu. by eapply authorised_same.
Qed.

Definition access (t : moment) (grants : list cppstring) (req : request) (m : session_manager) (o : outcome) : Prop :=
  exists user, authenticated t req m user /\ exists g, matched_grant o = Some g /\ g ∈ grants /\ authorised m user g /\
    getContext (reply o) (str "uid") = user.

Lemma authenticate_password_spec t ip user grants issue r m :
  let o := authenticate_password t ip user grants issue r m in
  (granted o = true -> exists g, matched_grant o = Some g /\ g ∈ grants /\ authorised m user g /\ getContext (reply o) (str "uid") = user) /\
  (issue = false -> (exists g, g ∈ grants /\ authorised m user g) -> granted o = true).
Proof.
  cbv zeta. unfold authenticate_password, store_user_in_response. destruct issue; cbn [negb].
  - set (m1 := set_limiter _ m). pose proof (generate_for_grants (digest_ok t) (drawn t) (now t) user (fingerprint_for_user (digest_ok t) m1 user) (tokens_ m1)) as Hg.
    destruct (generate_for _ _ _ _ _ _) as [token tokens']. cbn in Hg. case_bool_decide; cbn [negb]; [done|]. split; [|done].
    apply can_user; [apply getContext_set | by split].
  - destruct (can_user grants (setContext (str "uid") user r) m (set_limiter (record_success ip (rate_limiter m)) m) user) as [H1' H2'];
      [apply getContext_set | done |]. auto.
Qed.

Lemma process_auth_header_spec t grants req issue r m : has_auth_header req = true ->
  let o := process_auth_header t grants req issue r m in
  (granted o = true -> access t grants req m o) /\
  (issue = false -> forall user, authenticated t req m user -> (exists g, g ∈ grants /\ authorised m user g) -> granted o = true).
Proof.
  intros Ha. cbv zeta. unfold process_auth_header. destruct (limiter_is_blocked _ _ _) eqn:Hb.
  { split; [done|]. intros _ user [] _; congruence. }
  destruct (Nat.ltb_spec kMaxAuthHeaderBytes (length (get_auth_header req))) as [Hl|Hl].
  { split; [done|]. intros _ user [] _; congruence || lia. }
  destruct (is_basic_auth (get_auth_header req)) eqn:Hba.
  - destruct (split2 _ _) as [user password] eqn:Es. destruct (users_validate_user (users_ m) user password) eqn:Ev; cbn [negb].
    + destruct (authenticate_password_spec t (getRemoteIp req) user grants issue r m) as [H1' H2']. split.
      * intros (g & Hg)%H1'. exists user. split; [by eapply by_basic | by exists g].
      * intros Hi user' [] Hg; try congruence. apply H2'; [done|]. naive_solver congruence.
    + split; [done|]. intros _ user' [] _; congruence.
  - destruct (is_bearer_auth (get_auth_header req)) eqn:Hbe; [|split; [done|]; intros _ user [] _; congruence].
    destruct (validate _ _ _ _) as [user tokens'] eqn:Ev. pose proof (validate_grants_kept (digest_ok t) (substr_from (get_auth_header req) 7) (now t) (tokens_ m)) as Hk.
    rewrite Ev in Hk. cbn in Hk. destruct user as [user|]; [|split; [done|]; intros _ user [] _; try congruence; rewrite Ev in *; done].
    set (m' := set_limiter _ _). set (r' := store_session_in_response _ _ _).
    destruct (can_user grants r' m m' user) as [H1' H2']; [apply getContext_set | by split|]. split.
    + intros (g & Hg)%H1'. exists user. split; [|by exists g]. apply by_bearer; try done. by rewrite Ev.
    + intros _ user' [] Hg; try congruence. rewrite Ev in *. naive_solver.
Qed.

Lemma process_password_header_spec t grants req issue r m : has_auth_header req = false -> readHeader req (str "password") <> [] ->
  let o := process_password_header t grants req (readHeader req (str "password")) issue r m in
  (granted o = true -> access t grants req m o) /\
  (issue = false -> forall user, authenticated t req m user -> (exists g, g ∈ grants /\ authorised m user g) -> granted o = true).
Proof.
  intros Ha Hp. cbv zeta. unfold process_password_header. destruct (limiter_is_blocked _ _ _) eqn:Hb.
  { split; [done|]. intros _ user [] _; congruence. }
  destruct (Nat.ltb_spec kMaxAuthHeaderBytes (length (readHeader req (str "password")))) as [Hl|Hl].
  { split; [done|]. intros _ user [] _; congruence || lia. }
  destruct (users_validate_user _ _ _) eqn:Ev; cbn [negb]; [|split; [done|]; intros _ user [] _; congruence].
  destruct (authenticate_password_spec t (getRemoteIp req) kImplicitUser grants issue r m) as [P1 P2]. split.
  - intros (g & Hg)%P1. exists kImplicitUser. split; [by apply by_password | by exists g].
  - intros Hi user [] Hg; try congruence. by apply P2.
Qed.

(** C6. An API call is let in only from an allowed host, for a user authenticated by a verified
    Basic or password header from an address that is not locked out or by a live session token,
    and only with a grant on the list that the role of that user confers; and every such call is
    let in when no session has to be issued. *)
Theorem api_access (t : moment) (grants : list cppstring) (req : request) (issue : bool) (r : response) (m : session_manager) (o : outcome)
    (Ho : is_logged_in t grants req issue r m = Some o) :
  (granted o = true ->
     (exists remote, make_address (getRemoteIp req) = Some remote /\ host_allowed (allowed_hosts m) remote = Some true) /\
     access t grants req m o) /\
  (issue = false -> forall remote user g, make_address (getRemoteIp req) = Some remote -> host_allowed (allowed_hosts m) remote = Some true ->
     authenticated t req m user -> g ∈ grants -> authorised m user g -> granted o = true).
Proof.
  unfold is_logged_in in Ho. destruct (make_address (getRemoteIp req)) as [remote|] eqn:Em; [|done]. cbn [mbind option_bind] in Ho.
  destruct (host_allowed (allowed_hosts m) remote) as [allowed|] eqn:Eh; [|done]. cbn [mbind option_bind] in Ho. apply (inj Some) in Ho as <-.
  destruct allowed; cbn [negb]; [|split; [done|]; congruence].
  assert (Hgo : forall o, (granted o = true -> access t grants req m o) /\
      (issue = false -> forall user, authenticated t req m user -> (exists g, g ∈ grants /\ authorised m user g) -> granted o = true) ->
    (granted o = true -> (exists remote0, Some remote = Some remote0 /\ host_allowed (allowed_hosts m) remote0 = Some true) /\ access t grants req m o) /\
    (issue = false -> forall remote0 user g, Some remote = Some remote0 -> host_allowed (allowed_hosts m) remote0 = Some true ->
       authenticated t req m user -> g ∈ grants -> authorised m user g -> granted o = true)) by naive_solver.
  apply Hgo. clear Hgo. destruct (has_auth_header req) eqn:Ha; [by apply process_auth_header_spec|].
  case_bool_decide as Hp; cbn [negb]; [|by apply process_password_header_spec].
  case_bool_decide as Ht; [split; [done|]; intros _ user [] _; congruence|].
  destruct (validate _ _ _ _) as [user tokens'] eqn:Ev. pose proof (validate_grants_kept (digest_ok t) (find_token req m) (now t) (tokens_ m)) as Hk.
  rewrite Ev in Hk. cbn in Hk. destruct user as [user|]; [|split; [done|]; intros _ user [] _; try congruence; rewrite Ev in *; done].
  destruct (can_user grants (store_session_in_response (find_token req m) user r) m (set_sm_tokens tokens' m) user) as [P1 P2];
    [apply getContext_set | by split|].
  set (o := can _ _ _) in *. split.
  - destruct (granted o) eqn:Eo; [|done]. intros _. destruct (P1 eq_refl) as (g & Hg). exists user. split; [|by exists g].
    apply by_token; try done. by rewrite Ev.
  - intros _ user' [] Hg; try congruence. rewrite Ev in *. cbn in *. simplify_eq. rewrite (P2 Hg). by apply P2.
Qed.

(** While an address is locked out by the login limiter, a request from it that carries an
    Authorization or password header is refused with nothing changed, even with the right
    password. *)
Theorem blocked_address_denied (t : moment) (grants : list cppstring) (req : request) (issue : bool) (r : response) (m : session_manager) (o : outcome)
    (Hb : limiter_is_blocked (rate_limiter m) (getRemoteIp req) (now t) = true)
    (Hc : has_auth_header req = true \/ readHeader req (str "password") <> [])
    (Ho : is_logged_in t grants req issue r m = Some o) :
  o = deny r m.
Proof.
  unfold is_logged_in in Ho. destruct (make_address _); [|done]. cbn [mbind option_bind] in Ho.
  destruct (host_allowed _ _) as [allowed|]; [|done]. cbn [mbind option_bind] in Ho. apply (inj Some) in Ho as <-.
  destruct allowed; cbn [negb]; [|done]. destruct (has_auth_header req).
  - unfold process_auth_header. by rewrite Hb.
  - destruct Hc as [|Hp]; [done|]. rewrite bool_decide_eq_false_2 by done. cbn [negb]. unfold process_password_header. by rewrite Hb.
Qed.

(** ** Sessions are only made by a login *)

Lemma can_manager grants r m : manager (can grants r m) = m.
Proof. apply can_spec. Qed.

Lemma validate_subseteq ok token t s : tokens (validate ok token t s).2 ⊆ tokens s.
Proof. unfold validate. destruct (tokens s !! _); [|done]. case_if; [apply delete_subseteq | done]. Qed.

Lemma authenticate_password_keeps t ip user grants r m :
  tokens_ (manager (authenticate_password t ip user grants false r m)) = tokens_ m.
Proof. unfold authenticate_password, store_user_in_response. cbn. by rewrite can_manager. Qed.

(** An authenticated call that is not a login adds no session to the store and changes no user. *)
Theorem api_call_mints_no_session (t : moment) (grants : list cppstring) (req : request) (r : response) (m : session_manager) (o : outcome)
    (Ho : is_logged_in t grants req false r m = Some o) :
  tokens (tokens_ (manager o)) ⊆ tokens (tokens_ m) /\ users_ (manager o) = users_ m.
Proof.
  unfold is_logged_in in Ho. destruct (make_address _); [|done]. cbn [mbind option_bind] in Ho.
  destruct (host_allowed _ _) as [allowed|]; [|done]. cbn [mbind option_bind] in Ho. apply (inj Some) in Ho as <-.
  assert (Hkeep : forall ip user gs r m, users_ (manager (authenticate_password t ip user gs false r m)) = users_ m)
    by (intros; unfold authenticate_password, store_user_in_response; cbn; by rewrite can_manager).
  destruct allowed; cbn [negb]; [|done]. destruct (has_auth_header req).
  - unfold process_auth_header. do 2 (case_if; [done|]). case_if.
    + destruct (split2 _ _) as [user password]. case_if; [done|]. by rewrite authenticate_password_keeps, Hkeep.
    + case_if; [|done]. pose proof (validate_subseteq (digest_ok t) (substr_from (get_auth_header req) 7) (now t) (tokens_ m)) as Hs.
      destruct (validate _ _ _ _) as [[user|] tokens']; cbn in Hs; [by rewrite can_manager | done].
  - case_if; [unfold process_password_header; do 3 (case_if; [done|]); by rewrite authenticate_password_keeps, Hkeep|].
    case_if; [done|]. pose proof (validate_subseteq (digest_ok t) (find_token req m) (now t) (tokens_ m)) as Hs.
    destruct (validate _ _ _ _) as [[user|] tokens']; cbn in Hs; [|done]. case_if; cbn; by rewrite can_manager.
Qed.

(** Once a user is added again with new credentials no token names that user any more, and the
    sessions of the other users go on. *)
Theorem new_credentials_end_sessions (salt : option cppstring) (user role password token : cppstring) (ok : bool) (t : Z) (m : session_manager) :
  let m' := sm_add_user salt user role password m in
  (validate ok token t (tokens_ m')).1 <> Some user /\
  forall other, other <> user -> (validate ok token t (tokens_ m)).1 = Some other -> (validate ok token t (tokens_ m')).1 = Some other.
Proof.
  cbv zeta. unfold validate. cbn [tokens_ sm_add_user store_add_user revoke_tokens_for_user set_tokens tokens].
  rewrite map_lookup_filter. destruct (tokens (tokens_ m) !! key_for ok token) as [e|]; cbn [mbind option_bind]; [|done].
  case_guard as Hu; cbn [mbind mret option_bind option_ret]; destruct (has_token_expired (t_created e) t); cbn [fst].
  - by split.
  - split; [congruence | done].
  - by split.
  - split; [done|]. intros other Hne [= <-]. by destruct Hu.
Qed.

(** ** Sessions across a restart *)

Lemma restore_grants session t s : grants (restore session t s).2 = grants s.
Proof. unfold restore. do 2 (case_if; [done|]). destruct (tokens s !! _); [done|]. cbv zeta. case_if; case_if; done. Qed.

Lemma fingerprint_same ok m m' user : users_ m = users_ m' -> grants (tokens_ m) = grants (tokens_ m') ->
  fingerprint_for_user ok m user = fingerprint_for_user ok m' user.
Proof. intros Hu Hg. unfold fingerprint_for_user, store_get_role. by rewrite Hu, Hg. Qed.

(** The entry a stored session comes back as, and whether its credentials are current. *)
Definition restored_entry (t : moment) (s : persisted_session) : token_entry :=
  mkToken (p_user s) (Z.min (p_created s) (now t)) (p_fingerprint s).
Definition current (t : moment) (m : session_manager) (s : persisted_session) : Prop :=
  p_fingerprint s <> [] /\ p_fingerprint s = fingerprint_for_user (digest_ok t) m (p_user s).

(** What [import_loop] restores, for one session whose credentials are current. *)
Definition import_record (t : moment) (s : persisted_session) : persisted_session :=
  mkSession (hash s) (p_user s) (Z.min (p_created s) (now t)) (p_fingerprint s).

Definition cached_ok (t : moment) (m : session_manager) (fps : gmap cppstring cppstring) : Prop :=
  forall u f, fps !! u = Some f -> f = fingerprint_for_user (digest_ok t) m u.

(** One turn of the loop. *)
Lemma import_loop_cons t s sessions fps n m : cached_ok t m fps -> exists fps' n',
  (current t m s /\ cached_ok t (set_sm_tokens (restore (import_record t s) (now t) (tokens_ m)).2 m) fps' /\
   import_loop t (s :: sessions) fps n m = import_loop t sessions fps' n' (set_sm_tokens (restore (import_record t s) (now t) (tokens_ m)).2 m)) \/
  (~ current t m s /\ cached_ok t m fps' /\ import_loop t (s :: sessions) fps n m = import_loop t sessions fps' n' m).
Proof.
  intros Hc. cbn [import_loop]. set (f := match fps !! p_user s with Some f => f | None => _ end).
  assert (Hf : f = fingerprint_for_user (digest_ok t) m (p_user s)).
  { unfold f. destruct (fps !! p_user s) as [x|] eqn:E; [by apply Hc | done]. }
  assert (Hc' : cached_ok t m (<[p_user s := f]> fps)) by (intros u x [[<- <-]|[_ Hx]]%lookup_insert_Some; [done | by apply Hc]).
  destruct (bool_decide (f = []) || negb (bool_decide (p_fingerprint s = f))) eqn:E.
  - exists (<[p_user s := f]> fps), n. right. split_and!; [|done|done]. intros [H3 H4].
    apply orb_prop in E as [E%bool_decide_eq_true|E%negb_true_iff%bool_decide_eq_false]; congruence.
  - apply orb_false_iff in E as [E1%bool_decide_eq_false E2%negb_false_iff%bool_decide_eq_true].
    assert (Hr : (if p_created s >? now t then mkSession (hash s) (p_user s) (now t) (p_fingerprint s) else s) = import_record t s).
    { unfold import_record. rewrite Z.gtb_ltb. destruct (Z.ltb_spec (now t) (p_created s)); [by rewrite Z.min_r by lia|].
      rewrite Z.min_l by lia. by destruct s. }
    rewrite Hr. destruct (restore _ _ _) as [okr tokens'] eqn:Er. eexists _, _. left. split; [split; congruence|]. split; [|done].
    cbn [snd]. intros u x Hx%Hc'. rewrite Hx. apply fingerprint_same; [done|]. cbn.
    pose proof (restore_grants (import_record t s) (now t) (tokens_ m)) as Hg. by rewrite Er in Hg.
Qed.

Lemma import_loop_sound t sessions : forall fps n m, cached_ok t m fps ->
  let m' := (import_loop t sessions fps n m).2 in
  users_ m' = users_ m /\ grants (tokens_ m') = grants (tokens_ m) /\
  forall k e, tokens (tokens_ m') !! k = Some e ->
    tokens (tokens_ m) !! k = Some e \/
    exists s, s ∈ sessions /\ hash s = k /\ e = restored_entry t s /\ current t m s /\ has_token_expired (t_created e) (now t) = false.
Proof.
  induction sessions as [|s sessions IH]; intros fps n m Hc; cbv zeta; [split_and!; try done; auto|].
  destruct (import_loop_cons t s sessions fps n m Hc) as (fps' & n' & [(Hcur & Hc' & ->)|(_ & Hc' & ->)]).
  - set (m1 := set_sm_tokens _ m) in *. destruct (IH fps' n' m1 Hc') as (Hu & Hg & Hk).
    assert (Hg1 : grants (tokens_ m1) = grants (tokens_ m)) by apply restore_grants.
    split_and!; [done | congruence|]. intros k e [He|(s' & Hin & Hh & -> & Hcs & Hx)]%Hk.
    + apply (exec_origin (tokens_ m) (Restore (import_record t s) (now t))) in He as [[_ (-> & -> & Hx)]|[He _]]; [|by left].
      right. exists s. split_and!; try done. left.
    + right. exists s'. split_and!; try done; [by right|]. unfold current in *. by rewrite (fingerprint_same _ m m1) by done.
  - destruct (IH fps' n' m Hc') as (Hu & Hg & Hk). split_and!; [done..|].
    intros k e [He|(s' & Hin & Hs')]%Hk; [by left|]. right. exists s'. split; [by right | done].
Qed.

(** After the stored sessions are imported every session was there before or comes from an
    unexpired record whose fingerprint is that of the present role and password of its user; one
    from the future counts from now. *)
Theorem import_only_current_credentials (t : moment) (sessions : list persisted_session) (m : session_manager) (k : cppstring) (e : token_entry)
    (He : tokens (tokens_ (import_sessions t sessions m).2) !! k = Some e) :
  tokens (tokens_ m) !! k = Some e \/
  exists s, s ∈ sessions /\ hash s = k /\ e = mkToken (p_user s) (Z.min (p_created s) (now t)) (p_fingerprint s) /\
    p_fingerprint s <> [] /\ p_fingerprint s = fingerprint_for_user (digest_ok t) m (t_user e) /\
    has_token_expired (t_created e) (now t) = false.
Proof.
  destruct (import_loop_sound t sessions ∅ 0 m) as (_ & _ & Hk); [done|]. destruct (Hk k e He) as [|(s & Hin & Hh & -> & [H3 H4] & Hx)]; [by left|].
  right. exists s. done.
Qed.

Lemma restore_room s t (m : token_store) : hash s <> [] -> p_user s <> [] -> has_token_expired (p_created s) t = false ->
  tokens m !! hash s = None -> (size (tokens m) < kMaxTokens)%nat ->
  (restore s t m).2 = set_tokens <[hash s := mkToken (p_user s) (p_created s) (p_fingerprint s)]> m.
Proof.
  intros Hh Hu Hx Hn Hs. unfold restore. rewrite !bool_decide_eq_false_2 by done. cbn [orb]. rewrite Hx, Hn. cbv zeta.
  destruct (Nat.leb_spec kMaxTokens (size (tokens m))); [lia|]. destruct (Nat.leb_spec kMaxTokens (size (tokens m))); [lia | done].
Qed.

(** A restore below the cap only adds its own entry. *)
Lemma restore_step s t (m : token_store) : (size (tokens m) < kMaxTokens)%nat ->
  (size (tokens (restore s t m).2) <= S (size (tokens m)))%nat /\
  (forall k e, tokens m !! k = Some e -> tokens (restore s t m).2 !! k = Some e) /\
  (forall k, k <> hash s -> tokens (restore s t m).2 !! k = tokens m !! k).
Proof.
  intros Hs. unfold restore. do 2 (case_if; [split_and!; auto with lia; cbn; lia|]).
  destruct (tokens m !! hash s) eqn:Eh; [split_and!; auto with lia; cbn; lia|]. cbv zeta.
  destruct (Nat.leb_spec kMaxTokens (size (tokens m))); [lia|]. destruct (Nat.leb_spec kMaxTokens (size (tokens m))); [lia|]. cbn.
  split_and!; [apply size_insert_le | |]; intros k; intros; rewrite lookup_insert_ne; congruence.
Qed.

Lemma import_loop_complete t sessions : forall fps n m, cached_ok t m fps -> NoDup (map hash sessions) ->
  (forall s, s ∈ sessions -> tokens (tokens_ m) !! hash s = None) -> (size (tokens (tokens_ m)) + length sessions <= kMaxTokens)%nat ->
  let m' := (import_loop t sessions fps n m).2 in
  (forall k e, tokens (tokens_ m) !! k = Some e -> tokens (tokens_ m') !! k = Some e) /\
  (forall s, s ∈ sessions -> current t m s -> hash s <> [] -> p_user s <> [] ->
     has_token_expired (Z.min (p_created s) (now t)) (now t) = false -> tokens (tokens_ m') !! hash s = Some (restored_entry t s)).
Proof.
  induction sessions as [|s sessions IH]; intros fps n m Hc Hnd Hfree Hsz; cbv zeta; [split; [done|]; by intros s Hs%not_elem_of_nil|].
  cbn [map length] in *. apply NoDup_cons in Hnd as [Hnin Hnd].
  assert (Hother : forall x, x ∈ sessions -> hash x <> hash s).
  { intros x Hx E. apply Hnin. rewrite <- E. by apply list_elem_of_fmap_2. }
  destruct (import_loop_cons t s sessions fps n m Hc) as (fps' & n' & [(Hcur & Hc' & ->)|(Hcur & Hc' & ->)]).
  - destruct (restore_step (import_record t s) (now t) (tokens_ m)) as (R1 & R2 & R3); [lia|].
    set (m1 := set_sm_tokens _ m) in *. assert (Hg1 : grants (tokens_ m1) = grants (tokens_ m)) by apply restore_grants.
    destruct (IH fps' n' m1 Hc' Hnd) as [I1 I2].
    { intros x Hx. cbn. rewrite R3 by (cbn; auto). apply Hfree. by right. }
    { cbn in *. lia. }
    split; [intros k e Hk; apply I1, R2, Hk|]. intros x [->|Hx]%elem_of_cons Hcx Hh Hu Hex.
    + apply I1. cbn. rewrite restore_room; [cbn; by rewrite lookup_insert_eq | done.. | apply (Hfree s); left | lia].
    + apply I2; try done. unfold current in *. by rewrite (fingerprint_same _ m1 m).
  - destruct (IH fps' n' m Hc' Hnd) as [I1 I2]; [intros x Hx; apply Hfree; by right | lia|]. split; [done|].
    intros x [->|Hx]%elem_of_cons Hcx; [done | by apply I2].
Qed.

Lemma NoDup_map_filter {A B} (f : A -> B) (p : A -> bool) l : NoDup (map f l) -> NoDup (map f (List.filter p l)).
Proof.
  induction l as [|x l IH]; cbn; [done|]. intros [Hx Hl]%NoDup_cons. destruct (p x); cbn; [|auto]. apply NoDup_cons. split; [|auto].
  intros Hin. apply Hx. apply list_elem_of_In, in_map_iff in Hin as (y & <- & Hy). apply List.filter_In in Hy as [Hy _].
  by apply list_elem_of_In, in_map.
Qed.

Lemma length_filter_le {A} (p : A -> bool) l : (length (List.filter p l) <= length l)%nat.
Proof. induction l; cbn; [lia|]. case_if; cbn; lia. Qed.

(** The exported table: one record per key, no more than the store holds. *)
Lemma export_spec t m : has_sha256 = true ->
  NoDup (map hash (export_sessions t m)) /\ (length (export_sessions t m) <= size (tokens (tokens_ m)))%nat /\
  forall k e, tokens (tokens_ m) !! k = Some e -> has_token_expired (t_created e) (now t) = false -> t_fingerprint e <> [] ->
    mkSession k (t_user e) (t_created e) (t_fingerprint e) ∈ export_sessions t m.
Proof.
  intros Hh. unfold export_sessions, snapshot. rewrite Hh. cbn [negb]. split_and!.
  - rewrite map_map. rewrite (map_ext _ fst) by (by intros []). apply NoDup_map_filter, NoDup_fst_map_to_list.
  - rewrite length_map. etrans; [apply length_filter_le|]. by rewrite length_map_to_list.
  - intros k e Hk Hx Hf. apply list_elem_of_In, in_map_iff. exists (k, e). split; [done|]. apply List.filter_In. split.
    + by apply list_elem_of_In, elem_of_map_to_list.
    + by rewrite Hx, bool_decide_eq_false_2.
Qed.

(** A live session whose user keeps the role and password is valid after a restart: exported,
    written to the table, read back and imported into a manager that starts empty, it names the
    same user. *)
Theorem sessions_survive_restart (t t' : moment) (m m' : session_manager) (k : cppstring) (e : token_entry)
    (Hh : has_sha256 = true) (Hm : (size (tokens (tokens_ m)) <= kMaxTokens)%nat) (Hfresh : tokens (tokens_ m') = ∅)
    (Hst : Forall storable (export_sessions t m))
    (Hk : tokens (tokens_ m) !! k = Some e) (Hx : has_token_expired (t_created e) (now t) = false) (Hf : t_fingerprint e <> [])
    (Hr : representable (mkSession k (t_user e) (t_created e) (t_fingerprint e)) = true)
    (Hc : t_fingerprint e = fingerprint_for_user (digest_ok t') m' (t_user e))
    (Hx' : has_token_expired (Z.min (t_created e) (now t')) (now t') = false) :
  let row := serialize_sessions (export_sessions t m) in
  let m'' := (import_sessions t' (parse_sessions row) m').2 in
  tokens (tokens_ m'') !! k = Some (mkToken (t_user e) (Z.min (t_created e) (now t')) (t_fingerprint e)).
Proof.
  cbv zeta. rewrite parse_serialize by done. destruct (export_spec t m Hh) as (E1 & E2 & E3).
  destruct (import_loop_complete t' (List.filter representable (export_sessions t m)) ∅ 0 m') as [_ I2].
  - done.
  - by apply NoDup_map_filter.
  - intros s _. by rewrite Hfresh.
  - rewrite Hfresh, map_size_empty. pose proof (length_filter_le representable (export_sessions t m)). lia.
  - destruct (representable_fields _ Hr) as ([Hl%Nat.eqb_eq _]%andb_prop & Hu & _). cbn in Hl, Hu.
    apply (I2 (mkSession k (t_user e) (t_created e) (t_fingerprint e))); try done; [|cbn; by destruct k].
    apply list_elem_of_In, List.filter_In. split; [|done]. by apply list_elem_of_In, E3.
Qed.
End Access.

(** ** A manager with one user, to run the definitions *)

#[local] Instance demo_openssl : openssl := toy_openssl.
#[local] Instance demo_sha256 : sha256 := toy_sha256.

Definition demo_manager : session_manager :=
  mkSessions (store_add_grant (str "full") (str "queries.*") (store_add_user (str "admin") (str "full") (mkStore ∅ no_grants)))
    (mkManager [mkHost (str "10.0.0.0") [10; 0; 0; 0] [255; 255; 255; 255]] [] [] true)
    (users_add_user (Some (str "salt")) (str "admin") (str "secret") ∅)
    (mkLimiter ∅ 5 60) false [].
Definition demo_request : request :=
  mkRequest (str "10.0.0.0") {[HTTP_HDR_AUTH := str "Basic " ++ base64_encode (str "admin:secret")]} ∅.
Definition demo_moment : moment := mkMoment 1000 true (str "tok").
Definition demo_response : response := mkResponse 200 ∅.
Definition demo_outcome : outcome :=
  default (deny demo_response demo_manager) (is_logged_in demo_moment [str "queries.list"] demo_request false demo_response demo_manager).

Lemma api_access_witness :
  granted demo_outcome = true /\
  (granted demo_outcome = true ->
     (exists remote, make_address (getRemoteIp demo_request) = Some remote /\ host_allowed (allowed_hosts demo_manager) remote = Some true) /\
     access demo_moment [str "queries.list"] demo_request demo_manager demo_outcome).
Proof.
  split; [vm_compute; reflexivity|].
  apply (api_access demo_moment [str "queries.list"] demo_request false demo_response demo_manager demo_outcome). vm_compute. reflexivity.
Defined.

Definition blocked_manager : session_manager :=
  set_limiter (mkLimiter {[str "10.0.0.0" := mkEntry 0 1 0 2000]} 5 60) demo_manager.

Lemma blocked_address_denied_witness :
  is_logged_in demo_moment [str "queries.list"] demo_request false demo_response blocked_manager = Some (deny demo_response blocked_manager) /\
  deny demo_response blocked_manager = deny demo_response blocked_manager.
Proof.
  split; [vm_compute; reflexivity|].
  apply (blocked_address_denied demo_moment [str "queries.list"] demo_request false demo_response blocked_manager).
  - vm_compute. reflexivity.
  - left. vm_compute. reflexivity.
  - vm_compute. reflexivity.
Defined.

Lemma api_call_mints_no_session_witness :
  tokens (tokens_ (manager demo_outcome)) ⊆ tokens (tokens_ demo_manager) /\ users_ (manager demo_outcome) = users_ demo_manager.
Proof.
  apply (api_call_mints_no_session demo_moment [str "queries.list"] demo_request demo_response demo_manager demo_outcome). vm_compute. reflexivity.
Defined.

(** The manager after a login, and one that has just started. *)
Definition logged_in_manager : session_manager := (sm_generate_token demo_moment (str "admin") demo_manager).2.
Definition demo_key : cppstring := key_for true (str "tok").
Definition demo_entry : token_entry := mkToken (str "admin") 1000 (fingerprint_for_user true demo_manager (str "admin")).
Definition later : moment := mkMoment 2000 true [].

Lemma import_only_current_credentials_witness :
  tokens (tokens_ demo_manager) !! demo_key = Some demo_entry \/
  exists s, s ∈ export_sessions later logged_in_manager /\ hash s = demo_key /\
    demo_entry = mkToken (p_user s) (Z.min (p_created s) (now later)) (p_fingerprint s) /\
    p_fingerprint s <> [] /\ p_fingerprint s = fingerprint_for_user (digest_ok later) demo_manager (t_user demo_entry) /\
    has_token_expired (t_created demo_entry) (now later) = false.
Proof.
  apply (import_only_current_credentials later (export_sessions later logged_in_manager) demo_manager demo_key demo_entry).
  vm_compute. reflexivity.
Defined.

Lemma sessions_survive_restart_witness :
  let row := serialize_sessions (export_sessions later logged_in_manager) in
  let m'' := (import_sessions later (parse_sessions row) demo_manager).2 in
  tokens (tokens_ m'') !! demo_key = Some (mkToken (t_user demo_entry) (Z.min (t_created demo_entry) (now later)) (t_fingerprint demo_entry)).
Proof.
  apply (sessions_survive_restart later later logged_in_manager demo_manager demo_key demo_entry).
  - reflexivity.
  - apply Nat.leb_le. vm_compute. reflexivity.
  - reflexivity.
  - replace (export_sessions later logged_in_manager) with [mkSession demo_key (str "admin") 1000 (t_fingerprint demo_entry)] by (vm_compute; reflexivity).
    apply Forall_singleton. split; [split; [cbn; lia | vm_compute; discriminate] | vm_compute; discriminate].
  - vm_compute. reflexivity.
  - vm_compute. reflexivity.
  - vm_compute. discriminate.
  - vm_compute. reflexivity.
  - vm_compute. reflexivity.
  - vm_compute. reflexivity.
Defined.
