(* ===== verification/CoreStores.v ===== *)
(** The in-memory stores of the core: the failed-check log
    (service/failed_check_store.hpp) and the host tags (service/tag_repository.hpp).

    Messages are the protobuf ones with the fields the store looks at; performance data
    is opaque.  The methods hold the lock for their whole body except [record], which
    copies the payload between two critical sections: it is two steps of the relation
    [step], with other calls in between. *)

From stdpp Require Import base list gmap strings.
From Stdlib Require Import Ascii ZArith Lia.
From Stdlib Require String.
From S2P Require Import Prelude Strings.
Import String.StringSyntax.

Local Open Scope Z_scope.

Inductive ResultCode := OK | WARNING | CRITICAL | UNKNOWN.
Definition code_number (c : ResultCode) : Z := match c with OK => 0 | WARNING => 1 | CRITICAL => 2 | UNKNOWN => 3 end.

Record Line (perf : Type) := mkLine { message : cppstring; l_perf : list perf }.
Record Response (perf : Type) := mkResponse {
  command : cppstring; result : ResultCode; lines : list (Line perf); arguments : list cppstring; data : cppstring
}.
Arguments mkLine {perf}. Arguments message {perf}. Arguments l_perf {perf}.
Arguments mkResponse {perf}. Arguments command {perf}. Arguments result {perf}. Arguments lines {perf}.
Arguments arguments {perf}. Arguments data {perf}.

Record Request := mkReq { r_command : cppstring; r_arguments : list cppstring }.
Record entry (perf : Type) := mkEntry { index : Z; timestamp : Z; subject : cppstring; depth : Z; response : Response perf }.
Arguments mkEntry {perf}. Arguments index {perf}. Arguments timestamp {perf}. Arguments subject {perf}.
Arguments depth {perf}. Arguments response {perf}.

(** ** Bounds and statuses *)

Definition status_bit (code : Z) : Z := if (0 <=? code) && (code <? 32) then Z.shiftl 1 code else 0.
Definition default_statuses : Z := Z.lor (Z.lor (Z.shiftl 1 1) (Z.shiftl 1 2)) (Z.shiftl 1 3).
Definition default_max_entries : nat := 50.
Definition max_max_entries : nat := Z.to_nat 10000.
Definition max_lines : nat := 100.
Definition max_line_length : nat := 4096.
Definition max_perf_per_line : nat := 100.
Definition max_arguments : nat := 100.
Definition max_argument_length : nat := 1024.
Definition max_subject_length : nat := 256.

Record options := mkOptions { enabled : bool; max_entries : nat; record_arguments : bool; statuses : Z }.
Definition default_options : options := mkOptions true default_max_entries false default_statuses.

Definition clip (text : cppstring) (length_ : nat) : cppstring :=
  if Nat.leb (length text) length_ then text
  else if Nat.leb length_ 3 then substr text 0 length_
  else substr text 0 (length_ - 3) ++ str "...".

(** One token of the list, lower-cased and trimmed. *)
Definition status_of (token : cppstring) : option Z :=
  if bool_decide (token = str "warning") || bool_decide (token = str "warn") || bool_decide (token = str "1") then Some (status_bit 1)
  else if bool_decide (token = str "critical") || bool_decide (token = str "crit") || bool_decide (token = str "2") then Some (status_bit 2)
  else if bool_decide (token = str "unknown") || bool_decide (token = str "3") then Some (status_bit 3)
  else None.
Fixpoint parse_statuses_loop (tokens : list cppstring) (mask : Z) : option Z :=
  match tokens with
  | [] => Some mask
  | t :: tokens' =>
      let token := to_lower (trim_space t) in
      if bool_decide (token = []) then parse_statuses_loop tokens' mask
      else match status_of token with None => None | Some b => parse_statuses_loop tokens' (Z.lor mask b) end
  end.
(** The text between commas; the trailing empty piece that [pieces] drops is skipped by the loop anyway. *)
Definition parse_statuses (text : cppstring) : option Z :=
  match parse_statuses_loop (default [] (split_lst text (str ","))) 0 with
  | Some mask => if mask =? 0 then None else Some mask
  | None => None
  end.
Definition has_status (statuses code : Z) : bool := negb (Z.land statuses (status_bit code) =? 0).
Definition format_statuses (statuses : Z) : cppstring :=
  let out := if has_status statuses 1 then str "warning" else [] in
  let out := if has_status statuses 2 then out ++ (if bool_decide (out = []) then [] else str ",") ++ str "critical" else out in
  if has_status statuses 3 then out ++ (if bool_decide (out = []) then [] else str ",") ++ str "unknown" else out.

(** ** Redaction *)

Definition is_boundary (c : ascii) : bool := bool_decide (c ∈ [c_blank; c_tab; c_newline; c_return; c_quote; c_dquote; ","%char; ";"%char]).

Fixpoint skip_dashes (s : cppstring) : cppstring := match s with c :: s' => if bool_decide (c = "-"%char) then skip_dashes s' else s | [] => [] end.
Definition contains (s key : cppstring) : bool := match find s key 0 with Some _ => true | None => false end.
Definition is_sensitive_argument (key : cppstring) : bool :=
  match skip_dashes (to_lower key) with
  | [] => false
  | lower => contains lower (str "password") || contains lower (str "token")
  end.

Definition redacted : cppstring := str "***".

(** [while (start > 0 && !is_boundary(out[start - 1])) --start] *)
Fixpoint key_start (out : cppstring) (start : nat) : nat :=
  match start with
  | O => O
  | S start' => match out !! start' with Some c => if is_boundary c then start else key_start out start' | None => start end
  end.
(** [while (end < out.size() && !is_boundary(out[end])) ++end], on the text from [end] *)
Fixpoint word_length (s : cppstring) : nat := match s with c :: s' => if is_boundary c then O else S (word_length s') | [] => O end.

Fixpoint redact_loop (fuel : nat) (out : cppstring) (pos : nat) : option cppstring :=
  match find out [c_equals] pos with
  | None => Some out
  | Some pos =>
      match fuel with
      | O => None
      | S fuel' =>
          let start := key_start out pos in
          let end_ := (pos + 1 + word_length (substr_from out (pos + 1)))%nat in
          if Nat.ltb (pos + 1) end_ && is_sensitive_argument (substr out start (pos - start))
          then redact_loop fuel' (take (pos + 1) out ++ redacted ++ drop end_ out) (pos + 4)
          else redact_loop fuel' out end_
      end
  end.
Definition redact_message (msg : cppstring) : cppstring := default [] (redact_loop (length msg) msg 0).

Fixpoint redact_arguments (redact_next : bool) (args : list cppstring) : list cppstring :=
  match args with
  | [] => []
  | a :: args' =>
      if redact_next then redacted :: redact_arguments false args'
      else match find a [c_equals] 0 with
           | None => a :: redact_arguments (is_sensitive_argument a) args'
           | Some eq =>
               (if is_sensitive_argument (substr a 0 eq) then substr a 0 (eq + 1) ++ redacted else a) :: redact_arguments false args'
           end
  end.

Definition same_command (lhs rhs : cppstring) : bool := bool_decide (to_lower lhs = to_lower rhs).

(** ** The store *)

Section Store.
Context {perf : Type}.
Implicit Types r : Response perf.

Definition sanitize_line (l : Line perf) : Line perf :=
  let m := if Nat.ltb max_line_length (length (message l)) then clip (message l) max_line_length else message l in
  mkLine (redact_message m) (take max_perf_per_line (l_perf l)).
Definition sanitize (args : option (list cppstring)) r : Response perf :=
  mkResponse (command r) (result r) (map sanitize_line (take max_lines (lines r)))
    (match args with
     | None => []
     | Some args => redact_arguments false (map (fun a => if Nat.ltb max_argument_length (length a) then clip a max_argument_length else a) (take max_arguments args))
     end) [].

Record failed_check_store := mkStore { entries_ : list (entry perf); options_ : options; next_index_ : Z; dropped_ : Z }.
Definition new_store : failed_check_store := mkStore [] default_options 1 0.

(** [trim_locked]: the front goes, and is counted. *)
Fixpoint trim (entries : list (entry perf)) (max : nat) (dropped : Z) : list (entry perf) * Z :=
  match entries with
  | [] => ([], dropped)
  | _ :: rest => if Nat.ltb max (length entries) then trim rest max (wrap_u 64 (dropped + 1)) else (entries, dropped)
  end.
Definition trim_locked (s : failed_check_store) : failed_check_store :=
  let '(e, d) := trim (entries_ s) (max_entries (options_ s)) (dropped_ s) in mkStore e (options_ s) (next_index_ s) d.

Definition clamp (value : options) : options :=
  let n := if Nat.ltb (max_entries value) 1 then 1%nat else max_entries value in
  let n := if Nat.ltb max_max_entries n then max_max_entries else n in
  mkOptions (enabled value) n (record_arguments value) (Z.land (statuses value) default_statuses).
Definition configure (value : options) (s : failed_check_store) : failed_check_store :=
  let o := clamp value in
  if negb (enabled o) then mkStore [] o (next_index_ s) (dropped_ s)
  else trim_locked (mkStore (entries_ s) o (next_index_ s) (dropped_ s)).

Definition records (s : failed_check_store) (code : Z) : bool := enabled (options_ s) && has_status (statuses (options_ s)) code.

(** The first critical section of [record] and the copy: the item, not yet numbered. *)
Definition record_begin r (args : option (list cppstring)) (subj : cppstring) (d now : Z) (s : failed_check_store) : option (entry perf) :=
  if negb (enabled (options_ s)) || negb (has_status (statuses (options_ s)) (code_number (result r))) then None
  else Some (mkEntry 0 now (clip subj max_subject_length) (if d <? 0 then 0 else d)
               (sanitize (if record_arguments (options_ s) then args else None) r)).
(** The second critical section. *)
Definition record_commit (item : entry perf) (s : failed_check_store) : bool * failed_check_store :=
  if negb (enabled (options_ s)) then (false, s)
  else (true, trim_locked (mkStore (entries_ s ++ [mkEntry (next_index_ s) (timestamp item) (subject item) (depth item) (response item)])
                             (options_ s) (wrap_u 64 (next_index_ s + 1)) (dropped_ s))).
(** [record] with nothing in between. *)
Definition record r args subj d now (s : failed_check_store) : bool * failed_check_store :=
  match record_begin r args subj d now s with None => (false, s) | Some item => record_commit item s end.

(** The arguments of the first unused request of the same command. *)
Fixpoint take_request (requests : list (bool * Request)) (cmd : cppstring) : option (list cppstring) * list (bool * Request) :=
  match requests with
  | [] => (None, [])
  | (used, q) :: rest =>
      if negb used && same_command (r_command q) cmd then (Some (r_arguments q), (true, q) :: rest)
      else let '(a, rest') := take_request rest cmd in (a, (used, q) :: rest')
  end.
Fixpoint record_payloads (requests : list (bool * Request)) (payloads : list (Response perf)) subj d now (stored : nat) (s : failed_check_store) :
    nat * failed_check_store :=
  match payloads with
  | [] => (stored, s)
  | p :: payloads' =>
      let '(args, requests) := take_request requests (command p) in
      let '(ok, s) := record p args subj d now s in
      record_payloads requests payloads' subj d now (if (ok : bool) then S stored else stored) s
  end.
Definition record_message (requests : list Request) payloads subj d now (s : failed_check_store) : nat * failed_check_store :=
  record_payloads (map (pair false) requests) payloads subj d now 0 s.

(** The reverse iteration of [list], with its two breaks. *)
Fixpoint list_loop (rev_entries : list (entry perf)) (since : Z) (limit : nat) (out : list (entry perf)) : list (entry perf) :=
  match rev_entries with
  | [] => out
  | e :: rest =>
      if index e <=? since then out
      else if Nat.ltb 0 limit && Nat.leb limit (length out) then out
      else list_loop rest since limit (out ++ [e])
  end.
Definition list_ (since : Z) (limit : nat) (s : failed_check_store) : list (entry perf) := list_loop (rev (entries_ s)) since limit [].
Definition clear (s : failed_check_store) : nat * failed_check_store :=
  (length (entries_ s), mkStore [] (options_ s) (next_index_ s) (dropped_ s)).
Definition last_index (s : failed_check_store) : Z := wrap_u 64 (next_index_ s - 1).
End Store.
Arguments failed_check_store : clear implicits.

(** ** Tags *)

Definition max_key_length : nat := 128.
Definition max_value_length : nat := 1024.
Definition max_tags : nat := 256.

Inductive set_result := changed | unchanged | rejected.

Record tag_repository := mkTags { tags_ : gmap cppstring cppstring; revision_ : Z }.

Definition set_tag (key value : cppstring) (t : tag_repository) : set_result * tag_repository :=
  if bool_decide (key = []) || Nat.ltb max_key_length (length key) then (rejected, t) else
  if Nat.ltb max_value_length (length value) then (rejected, t) else
  let bump m := (changed, mkTags m (wrap_u 64 (revision_ t + 1))) in
  match tags_ t !! key with
  | None =>
      if bool_decide (value = []) then (unchanged, t)
      else if Nat.leb max_tags (size (tags_ t)) then (rejected, t)
      else bump (<[key := value]> (tags_ t))
  | Some old =>
      if bool_decide (value = []) then bump (delete key (tags_ t))
      else if bool_decide (old = value) then (unchanged, t)
      else bump (<[key := value]> (tags_ t))
  end.

(** ** Redaction, word by word *)

(** A word loses what follows its first [=] when what precedes it names a credential. *)
Definition redact_word (w : cppstring) : cppstring :=
  match find w [c_equals] 0 with
  | None => w
  | Some eq => if Nat.ltb (eq + 1) (length w) && is_sensitive_argument (take eq w) then take (eq + 1) w ++ redacted else w
  end.
(** The words of a text and what separates them; [w] is the word being read. *)
Fixpoint redact_words (w s : cppstring) : cppstring :=
  match s with
  | [] => redact_word w
  | c :: s' => if is_boundary c then redact_word w ++ c :: redact_words [] s' else redact_words (w ++ [c]) s'
  end.

Definition solid (s : cppstring) : Prop := Forall (fun c => is_boundary c = false) s.
(** A text that does not go on a word that came before it. *)
Definition at_boundary (s : cppstring) : Prop := match s with [] => True | c :: _ => is_boundary c = true end.

Lemma redact_word_plain w : c_equals ∉ w -> redact_word w = w.
Proof.
  intros Hw. unfold redact_word. pose proof (find_char w c_equals []) as Hf. cbn [app length Nat.add] in Hf.
  destruct (find w [c_equals] 0); [|done]. destruct Hf as (a & b & -> & _). destruct Hw. apply elem_of_app. right. left.
Qed.

Lemma redact_words_plain s : forall w, c_equals ∉ w ++ s -> redact_words w s = w ++ s.
Proof.
  induction s as [|c s IH]; intros w Hn; cbn [redact_words]; [rewrite app_nil_r in *; by apply redact_word_plain|].
  rewrite elem_of_app, elem_of_cons in Hn. destruct (is_boundary c).
  - rewrite redact_word_plain, (IH []) by (cbn; tauto). done.
  - rewrite IH by (rewrite !elem_of_app, list_elem_of_singleton; tauto). by rewrite <- app_assoc.
Qed.

Lemma redact_words_boundary x c t : is_boundary c = true -> forall w, redact_words w (x ++ c :: t) = redact_words w (x ++ [c]) ++ redact_words [] t.
Proof.
  intros Hc. induction x as [|d x IH]; intros w; cbn [app redact_words].
  - rewrite Hc. cbn [redact_words]. rewrite (redact_word_plain []) by apply not_elem_of_nil. by rewrite <- app_assoc.
  - destruct (is_boundary d); [rewrite IH, <- app_assoc; done | apply IH].
Qed.

Lemma redact_words_solid k t : solid k -> forall w, redact_words w (k ++ t) = redact_words (w ++ k) t.
Proof.
  induction 1 as [|c k Hc _ IH]; intros w; cbn [app redact_words]; [by rewrite app_nil_r|]. rewrite Hc, IH. by rewrite <- app_assoc.
Qed.

Lemma redact_words_end w r : at_boundary r -> redact_words w r = redact_word w ++ redact_words [] r.
Proof.
  destruct r as [|c r]; cbn [redact_words at_boundary].
  - intros _. by rewrite (redact_word_plain []), app_nil_r by apply not_elem_of_nil.
  - intros ->. by rewrite (redact_word_plain []) by apply not_elem_of_nil.
Qed.

(** The first word of a text, and a text cut after its last boundary. *)
Lemma word_cut b : exists v r, b = v ++ r /\ word_length b = length v /\ solid v /\ at_boundary r.
Proof.
  induction b as [|c b (v & r & -> & Hl & Hv & Hr)]; [exists [], []; by split_and!; [| |constructor|]|]. cbn [word_length]. destruct (is_boundary c) eqn:E.
  - exists [], (c :: v ++ r). by split_and!; [| |constructor|].
  - exists (c :: v), r. split_and!; try done; [cbn; lia | by constructor].
Qed.

Lemma last_cut a : exists a1 k, a = a1 ++ k /\ solid k /\ (a1 = [] \/ exists x c, a1 = x ++ [c] /\ is_boundary c = true).
Proof.
  induction a as [|c a (a1 & k & -> & Hk & Ha)] using rev_ind; [exists [], []; by split_and!; [|constructor|left]|].
  destruct (is_boundary c) eqn:E.
  - exists ((a1 ++ k) ++ [c]), []. split_and!; [by rewrite app_nil_r | constructor|]. right. eauto.
  - exists a1, (k ++ [c]). rewrite app_assoc. split_and!; try done. apply Forall_app. split; [done|]. by constructor.
Qed.

Lemma key_start_spec p k t : solid k -> (p = [] \/ exists x c, p = x ++ [c] /\ is_boundary c = true) ->
  key_start (p ++ k ++ t) (length p + length k) = length p.
Proof.
  intros Hk Hp. revert t. induction k as [|c k IH] using rev_ind; intros t.
  - rewrite Nat.add_0_r. destruct Hp as [->|(x & c & -> & Hc)]; [done|]. rewrite length_app. cbn [length].
    rewrite Nat.add_1_r. cbn [key_start app]. rewrite <- app_assoc, lookup_app_r, Nat.sub_diag by lia. cbn. by rewrite Hc.
  - apply Forall_app in Hk as [Hk Hc]. rewrite Forall_singleton in Hc. rewrite length_app. cbn [length].
    replace (length p + (length k + 1))%nat with (S (length p + length k)) by lia. cbn [key_start].
    rewrite (app_assoc p), lookup_app_l by (rewrite !length_app; cbn; lia). rewrite lookup_app_r by lia.
    replace (length p + length k - length p)%nat with (length k) by lia. rewrite lookup_app_r, Nat.sub_diag by lia. cbn [lookup list_lookup].
    rewrite Hc. rewrite <- (app_assoc p), <- (app_assoc k). by apply IH.
Qed.

Definition equals_in (s : cppstring) : nat := length (List.filter (fun c => bool_decide (c = c_equals)) s).
Lemma equals_in_app s t : equals_in (s ++ t) = (equals_in s + equals_in t)%nat.
Proof. unfold equals_in. by rewrite List.filter_app, length_app. Qed.
Lemma equals_in_cons s : equals_in (c_equals :: s) = S (equals_in s).
Proof. done. Qed.

Lemma redact_loop_spec fuel : forall done_ rest, (done_ = [] \/ at_boundary rest) -> (equals_in rest <= fuel)%nat ->
  redact_loop fuel (done_ ++ rest) (length done_) = Some (done_ ++ redact_words [] rest).
Proof.
  induction fuel as [|fuel IH]; intros done_ rest Hd Hf; cbn [redact_loop]; pose proof (find_char rest c_equals done_) as Hfind;
    destruct (find (done_ ++ rest) [c_equals] (length done_)) as [pos|].
  - destruct Hfind as (a & b & -> & _). exfalso. rewrite equals_in_app, equals_in_cons in Hf. lia.
  - by rewrite redact_words_plain.
  - destruct Hfind as (a & b & -> & Ha & ->). destruct (last_cut a) as (a1 & k & -> & Hk & Ha1). destruct (word_cut b) as (v & r & -> & Hv & Hvs & Hr).
    assert (Hkey : key_start (done_ ++ (a1 ++ k) ++ c_equals :: v ++ r) (length done_ + length (a1 ++ k)) = length (done_ ++ a1)).
    { replace (done_ ++ (a1 ++ k) ++ c_equals :: v ++ r) with ((done_ ++ a1) ++ k ++ c_equals :: v ++ r) by (by rewrite <- !app_assoc).
      replace (length done_ + length (a1 ++ k))%nat with (length (done_ ++ a1) + length k)%nat by (rewrite !length_app; lia).
      apply key_start_spec; [done|]. destruct Ha1 as [->|(x & c & -> & Hc)]; [|right; exists (done_ ++ x), c; by rewrite app_assoc].
      rewrite app_nil_r. left. destruct Hd as [->|Hb]; [done|]. destruct k as [|c k]; cbn in Hb; [done|].
      apply Forall_cons in Hk as [Hc _]. cbv beta in Hc. congruence. }
    rewrite Hkey. unfold substr_from, substr.
    replace (length done_ + length (a1 ++ k) + 1)%nat with (length (done_ ++ (a1 ++ k) ++ [c_equals])) by (rewrite !length_app; cbn; lia).
    replace (done_ ++ (a1 ++ k) ++ c_equals :: v ++ r) with ((done_ ++ (a1 ++ k) ++ [c_equals]) ++ v ++ r) by (by rewrite <- !app_assoc).
    rewrite drop_app_length, Hv.
    assert (Hk2 : take (length done_ + length (a1 ++ k) - length (done_ ++ a1)) (drop (length (done_ ++ a1)) ((done_ ++ (a1 ++ k) ++ [c_equals]) ++ v ++ r)) = k).
    { replace ((done_ ++ (a1 ++ k) ++ [c_equals]) ++ v ++ r) with ((done_ ++ a1) ++ k ++ [c_equals] ++ v ++ r) by (by rewrite <- !app_assoc).
      rewrite drop_app_length. replace (length done_ + length (a1 ++ k) - length (done_ ++ a1))%nat with (length k) by (rewrite !length_app; lia).
      apply take_app_length. }
    rewrite Hk2. set (pre := done_ ++ (a1 ++ k) ++ [c_equals]) in *.
    assert (Hspec : done_ ++ redact_words [] ((a1 ++ k) ++ c_equals :: v ++ r) =
      done_ ++ a1 ++ redact_word (k ++ c_equals :: v) ++ redact_words [] r).
    { f_equal. rewrite <- app_assoc. assert (E : redact_words [] (a1 ++ k ++ c_equals :: v ++ r) = a1 ++ redact_words [] (k ++ c_equals :: v ++ r)).
      { destruct Ha1 as [->|(x & c & -> & Hc)]; [done|]. rewrite <- app_assoc. cbn [app]. rewrite redact_words_boundary by done.
        rewrite redact_words_plain; [by rewrite <- app_assoc|]. cbn [app]. rewrite !elem_of_app in Ha. rewrite elem_of_app. tauto. }
      rewrite E. f_equal. replace (k ++ c_equals :: v ++ r) with ((k ++ c_equals :: v) ++ r) by (by rewrite <- app_assoc).
      rewrite redact_words_solid; [by apply redact_words_end|]. apply Forall_app. split; [done|]. by constructor. }
    assert (Hke : c_equals ∉ k) by (rewrite elem_of_app in Ha; tauto).
    assert (Hword : redact_word (k ++ c_equals :: v) = k ++ c_equals :: (if Nat.ltb 0 (length v) && is_sensitive_argument k then redacted else v)).
    { unfold redact_word. rewrite find_char_first by done. rewrite take_app_length, length_app. cbn [length].
      replace (Nat.ltb (length k + 1) (length k + S (length v))) with (Nat.ltb 0 (length v))
        by (destruct (Nat.ltb_spec 0 (length v)), (Nat.ltb_spec (length k + 1) (length k + S (length v))); (done || lia)).
      case_if; [|done]. replace (k ++ c_equals :: v) with ((k ++ [c_equals]) ++ v) by (by rewrite <- app_assoc).
      replace (length k + 1)%nat with (length (k ++ [c_equals])) by (rewrite length_app; done). rewrite take_app_length. by rewrite <- app_assoc. }
    assert (Hcount : (equals_in r <= fuel)%nat).
    { rewrite equals_in_app, equals_in_cons, !equals_in_app in Hf. lia. }
    rewrite Hspec, Hword. replace (Nat.ltb (length pre) (length pre + length v)) with (Nat.ltb 0 (length v))
      by (destruct (Nat.ltb_spec 0 (length v)), (Nat.ltb_spec (length pre) (length pre + length v)); (done || lia)).
    case_if.
    + rewrite take_app_length. replace (length pre + length v)%nat with (length (pre ++ v)) by (by rewrite length_app).
      rewrite (app_assoc pre v r), drop_app_length, (app_assoc pre).
      replace (length done_ + length (a1 ++ k) + 4)%nat with (length (pre ++ redacted)) by (unfold pre; rewrite !length_app; cbn; lia).
      rewrite IH by auto. unfold pre. by rewrite <- !app_assoc.
    + replace (length pre + length v)%nat with (length (pre ++ v)) by (by rewrite length_app). rewrite (app_assoc pre v r).
      rewrite IH by auto. unfold pre. by rewrite <- !app_assoc.
  - by rewrite redact_words_plain.
Qed.

Lemma redact_loop_total msg : redact_loop (length msg) msg 0 = Some (redact_words [] msg).
Proof.
  apply (redact_loop_spec (length msg) [] msg); [by left|]. unfold equals_in. induction msg as [|c msg IH]; cbn; [lia|]. case_if; cbn; lia.
Qed.

(** The in-place redaction of a message is the word-by-word one: each run of characters between
    boundaries loses what follows its first equals sign when what precedes it names a password
    or token, everything else stays, and the loop ends within as many turns as the message has
    characters. *)
Theorem redact_message_words (msg : cppstring) :
  redact_loop (length msg) msg 0 = Some (redact_words [] msg) /\ redact_message msg = redact_words [] msg.
Proof. split; [apply redact_loop_total|]. unfold redact_message. by rewrite redact_loop_total. Qed.

(** A pair inside the value of another one keeps its value. *)
Theorem nested_pair_kept : redact_message (str "bad option --arg=password=hunter2") = str "bad option --arg=password=hunter2".
Proof. vm_compute. reflexivity. Qed.

Lemma redact_word_length w : (length (redact_word w) <= 3 * length w)%nat.
Proof.
  unfold redact_word. destruct (find w [c_equals] 0) as [eq|]; [|lia]. case_if; [|lia]. apply andb_prop in Heqb as [Hl%Nat.ltb_lt _].
  rewrite length_app, length_take. cbn. lia.
Qed.

Lemma redact_words_length s : forall w, (length (redact_words w s) <= 3 * (length w + length s))%nat.
Proof.
  induction s as [|c s IH]; intros w; cbn [redact_words length]; [pose proof (redact_word_length w); lia|]. case_if.
  - rewrite length_app. cbn [length]. pose proof (redact_word_length w). specialize (IH []). cbn in IH. lia.
  - specialize (IH (w ++ [c])). rewrite length_app in IH. cbn in IH. lia.
Qed.

(** ** Arguments *)

Definition discloses (a : cppstring) : Prop :=
  exists eq, find a [c_equals] 0 = Some eq /\ is_sensitive_argument (take eq a) = true /\ drop (eq + 1) a <> redacted.

Lemma redact_arguments_spec args : forall b, length (redact_arguments b args) = length args /\
  (b = true -> forall a, head (redact_arguments b args) = Some a -> a = redacted) /\
  forall i a, redact_arguments b args !! i = Some a -> ~ discloses a /\
    (find a [c_equals] 0 = None -> is_sensitive_argument a = true -> forall next, redact_arguments b args !! S i = Some next -> next = redacted).
Proof.
  assert (Hred : ~ discloses redacted) by (intros (eq & He & _); done).
  induction args as [|a args IH]; intros b; cbn [redact_arguments]; [by split_and!|].
  destruct b; [|destruct (find a [c_equals] 0) as [eq|] eqn:Ea].
  - destruct (IH false) as (I1 & _ & I3). split_and!; [cbn; lia | by intros _ x [= <-]|]. intros [|i] x Hx; [|by apply (I3 i)].
    injection Hx as <-. by split.
  - destruct (IH false) as (I1 & _ & I3). split_and!; [cbn; lia | done|]. intros [|i] x Hx; [|by apply (I3 i)].
    cbn [lookup list_lookup] in Hx. apply (inj Some) in Hx as <-. pose proof (find_char a c_equals []) as Hf. cbn [app length Nat.add] in Hf. rewrite Ea in Hf.
    destruct Hf as (k & v & -> & Hk & ->). unfold substr. rewrite !drop_0, take_app_length.
    destruct (is_sensitive_argument k) eqn:Es.
    + replace (length k + 1)%nat with (length (k ++ [c_equals])) by (rewrite length_app; done).
      replace (k ++ c_equals :: v) with ((k ++ [c_equals]) ++ v) by (by rewrite <- app_assoc). rewrite take_app_length, <- app_assoc. change ([c_equals] ++ redacted) with (c_equals :: redacted).
      rewrite find_char_first by done. split; [|done]. intros (eq & He & _ & Hd). rewrite find_char_first in He by done. apply (inj Some) in He as <-.
      apply Hd. replace (length k + 1)%nat with (length (k ++ [c_equals])) by (rewrite length_app; done).
      replace (k ++ c_equals :: redacted) with ((k ++ [c_equals]) ++ redacted) by (by rewrite <- app_assoc). apply drop_app_length.
    + rewrite find_char_first by done. split; [|done]. intros (eq & He & Hs & _). rewrite find_char_first in He by done. apply (inj Some) in He as <-.
      rewrite take_app_length in Hs. congruence.
  - destruct (IH (is_sensitive_argument a)) as (I1 & I2 & I3). split_and!; [cbn; lia | done|]. intros [|i] x Hx; [|by apply (I3 i)].
    injection Hx as <-. split; [intros (eq & He & _); congruence|]. intros _ Hs next Hn. cbn in Hn. apply I2; [done|].
    destruct (redact_arguments _ args); [done|]. by injection Hn as ->.
Qed.

(** No recorded argument discloses a credential: a sensitive key keeps no value but stars, and
    the argument after a bare sensitive key is stars. *)
Theorem redact_arguments_hide (args : list cppstring) :
  let out := redact_arguments false args in
  length out = length args /\
  forall i a, out !! i = Some a -> ~ discloses a /\
    (find a [c_equals] 0 = None -> is_sensitive_argument a = true -> forall next, out !! S i = Some next -> next = redacted).
Proof. destruct (redact_arguments_spec args false) as (H1 & _ & H2). by split. Qed.

(** ** Statuses *)

(** Every set of recordable statuses is read back from its canonical spelling. *)
Theorem statuses_roundtrip (mask : Z) : Z.land mask default_statuses <> 0 ->
  parse_statuses (format_statuses (Z.land mask default_statuses)) = Some (Z.land mask default_statuses).
Proof.
  assert (E : Z.land mask default_statuses = Z.land (mask mod 16) default_statuses).
  { change (mask mod 16) with (mask mod 2 ^ 4). rewrite <- Z.land_ones, <- Z.land_assoc by lia. done. }
  rewrite E. pose proof (Z.mod_pos_bound mask 16 ltac:(lia)) as Hr. set (k := mask mod 16) in *. clearbody k. clear E.
  assert (Hall : forallb (fun k => bool_decide (Z.land k default_statuses = 0) ||
    bool_decide (parse_statuses (format_statuses (Z.land k default_statuses)) = Some (Z.land k default_statuses))) (map Z.of_nat (seq 0 16)) = true)
    by (vm_compute; reflexivity).
  rewrite forallb_forall in Hall. specialize (Hall k). intros Hm. apply orb_prop in Hall as [H0|H0]; [| |].
  - by apply bool_decide_eq_true in H0.
  - by apply bool_decide_eq_true in H0.
  - apply in_map_iff. exists (Z.to_nat k). split; [lia|]. apply in_seq. lia.
Qed.

Lemma statuses_roundtrip_witness : parse_statuses (format_statuses (Z.land 7 default_statuses)) = Some (Z.land 7 default_statuses).
Proof. apply (statuses_roundtrip 7). vm_compute. discriminate. Defined.

(** ** Calls from several threads *)

Section Threads.
Context {perf : Type}.

(** The store and the records between their two critical sections. *)
Record state := mkState { store : failed_check_store perf; pending : list (entry perf) }.

Inductive call :=
| Configure (value : options)
| Begin (r : Response perf) (args : option (list cppstring)) (subj : cppstring) (d now : Z)
| Commit (i : nat)
| Clear.

Definition step (s : state) (c : call) : state :=
  match c with
  | Configure value => mkState (configure value (store s)) (pending s)
  | Begin r args subj d now =>
      match record_begin r args subj d now (store s) with
      | Some item => mkState (store s) (pending s ++ [item])
      | None => s
      end
  | Commit i =>
      match pending s !! i with
      | Some item => mkState (record_commit item (store s)).2 (take i (pending s) ++ drop (S i) (pending s))
      | None => s
      end
  | Clear => mkState (clear (store s)).2 (pending s)
  end.
Definition start : state := mkState new_store [].
Definition run (calls : list call) : state := fold_left step calls start.

(** What may be in the log: a failure, within its bounds. *)
Definition capped (e : entry perf) : Prop :=
  result (response e) <> OK /\ (length (lines (response e)) <= max_lines)%nat /\
  Forall (fun l => (length (message l) <= 3 * max_line_length)%nat /\ (length (l_perf l) <= max_perf_per_line)%nat) (lines (response e)) /\
  (length (arguments (response e)) <= max_arguments)%nat /\ data (response e) = [] /\
  (length (subject e) <= max_subject_length)%nat /\ 0 <= depth e /\
  (exists args, arguments (response e) = redact_arguments false args).

Definition consecutive (s : failed_check_store perf) : Prop :=
  map index (entries_ s) = map (fun i => next_index_ s - zlength (entries_ s) + Z.of_nat i) (seq 0 (length (entries_ s))).

Record log_ok (s : failed_check_store perf) : Prop := {
  ok_size : (length (entries_ s) <= max_entries (options_ s))%nat;
  ok_max : (1 <= max_entries (options_ s) <= max_max_entries)%nat;
  ok_off : enabled (options_ s) = false -> entries_ s = [];
  ok_statuses : Z.land (statuses (options_ s)) default_statuses = statuses (options_ s);
  ok_index : consecutive s;
  ok_next : zlength (entries_ s) < next_index_ s;
  ok_entries : Forall capped (entries_ s)
}.

Lemma length_clip text n : (3 <= n)%nat -> (length (clip text n) <= n)%nat.
Proof.
  intros Hn. unfold clip. destruct (Nat.leb_spec (length text) n); [done|]. destruct (Nat.leb_spec n 3).
  - unfold substr. rewrite length_take. lia.
  - unfold substr. rewrite length_app, length_take. cbn. lia.
Qed.

Lemma record_begin_capped r args subj d now (s : failed_check_store perf) item : Z.land (statuses (options_ s)) default_statuses = statuses (options_ s) ->
  record_begin r args subj d now s = Some item -> capped item.
Proof.
  intros Hst. unfold record_begin. case_if; [done|]. apply orb_false_iff in Heqb as [_ Hc%negb_false_iff]. intros [= <-].
  unfold capped. cbn [response sanitize result lines arguments data subject depth]. split_and!.
  - intros E. rewrite E in Hc. unfold has_status in Hc. change (status_bit (code_number OK)) with 1 in Hc.
    rewrite <- Hst, <- Z.land_assoc in Hc. change (Z.land default_statuses 1) with 0 in Hc. by rewrite Z.land_0_r in Hc.
  - rewrite length_map, length_take. lia.
  - apply Forall_map, Forall_forall. intros l _. unfold sanitize_line. cbn [message l_perf]. split; [|rewrite length_take; lia].
    unfold redact_message. rewrite redact_loop_total. cbn [default from_option id]. etrans; [apply redact_words_length|]. cbn [length Nat.add]. apply Nat.mul_le_mono_l.
    destruct (Nat.ltb_spec max_line_length (length (message l))); [apply length_clip; unfold max_line_length; lia | done].
  - destruct (if record_arguments (options_ s) then args else None); [|cbn; lia].
    rewrite (proj1 (redact_arguments_spec _ false)), length_map, length_take. lia.
  - done.
  - apply length_clip. unfold max_subject_length. lia.
  - case_if; lia.
  - destruct (if record_arguments (options_ s) then args else None); [eauto | by exists []].
Qed.

Lemma trim_spec (l : list (entry perf)) max : forall d, (trim l max d).1 = drop (length l - max) l.
Proof.
  induction l as [|e l IH]; intros d; cbn [trim]; [by rewrite drop_nil|]. destruct (Nat.ltb_spec max (length (e :: l))) as [Hl|Hl].
  - rewrite IH. cbn [length] in *. replace (S (length l) - max)%nat with (S (length l - max)) by lia. done.
  - by replace (length (e :: l) - max)%nat with 0%nat by lia.
Qed.

(** Dropping from the front keeps the numbering. *)
Lemma drop_numbered (l : list (entry perf)) n k :
  map index l = map (fun i => n - zlength l + Z.of_nat i) (seq 0 (length l)) ->
  map index (drop k l) = map (fun i => n - zlength (drop k l) + Z.of_nat i) (seq 0 (length (drop k l))).
Proof.
  intros Hm. destruct (Nat.le_gt_cases (length l) k) as [Hk|Hk]; [by rewrite drop_ge|].
  change (map index (drop k l)) with (index <$> drop k l). rewrite fmap_drop. change (index <$> l) with (map index l). rewrite Hm.
  apply list_eq. intros i. rewrite lookup_drop. rewrite !list_lookup_fmap. unfold zlength. rewrite length_drop. destruct (Nat.lt_ge_cases i (length l - k)) as [Hi|Hi].
  - rewrite !lookup_seq_lt by lia. cbn. f_equal. lia.
  - rewrite !lookup_seq_ge by lia. done.
Qed.

Lemma trim_locked_ok (s : failed_check_store perf) : (1 <= max_entries (options_ s) <= max_max_entries)%nat -> enabled (options_ s) = true ->
  Z.land (statuses (options_ s)) default_statuses = statuses (options_ s) -> consecutive s -> zlength (entries_ s) < next_index_ s ->
  Forall capped (entries_ s) -> log_ok (trim_locked s).
Proof.
  intros Hm He Hst Hi Hn Hf. unfold trim_locked. pose proof (trim_spec (entries_ s) (max_entries (options_ s)) (dropped_ s)) as Ht.
  destruct (trim _ _ _) as [l d]. cbn in Ht. subst l. constructor; cbn; try done; try congruence.
  - rewrite length_drop. lia.
  - unfold consecutive. cbn. by apply drop_numbered.
  - unfold zlength in *. rewrite length_drop. lia.
  - by apply Forall_drop.
Qed.

Definition state_ok (s : state) : Prop := log_ok (store s) /\ Forall capped (pending s).

Lemma commit_ok (s : failed_check_store perf) item : log_ok s -> capped item -> in_u 64 (next_index_ s + 1) -> log_ok (record_commit item s).2.
Proof.
  intros [H1 H2 H3 H4 H5 H6 H7] Hc Hn. unfold record_commit. destruct (enabled (options_ s)) eqn:He; cbn [negb snd].
  2:{ constructor; auto. }
  apply trim_locked_ok; cbn; try done.
  - unfold consecutive in *. cbn. rewrite map_app, H5, wrap_u_id by done. unfold zlength. rewrite length_app. cbn [length map].
    rewrite Nat.add_1_r, seq_S, map_app. cbn [map]. f_equal; [apply map_ext; intros; lia | apply (f_equal (fun x => [x])); cbn; lia].
  - unfold zlength in *. rewrite wrap_u_id, length_app by done. cbn. lia.
  - apply Forall_app. split; [done|]. by apply Forall_singleton.
Qed.

Lemma step_ok s c : state_ok s -> in_u 64 (next_index_ (store s) + 1) ->
  state_ok (step s c) /\ next_index_ (store (step s c)) <= next_index_ (store s) + 1.
Proof.
  intros [Hs Hp] Hn. destruct c as [value|r args subj d now|i|]; cbn [step].
  - split; [split; [|done]|].
    + cbn [store]. unfold configure. assert (Hcl : (1 <= max_entries (clamp value) <= max_max_entries)%nat).
      { assert (1 <= max_max_entries)%nat by (unfold max_max_entries; lia). unfold clamp. cbn [max_entries].
        destruct (Nat.ltb_spec (max_entries value) 1).
        - destruct (Nat.ltb_spec max_max_entries 1); lia.
        - destruct (Nat.ltb_spec max_max_entries (max_entries value)); lia. }
      assert (Hst : Z.land (statuses (clamp value)) default_statuses = statuses (clamp value)) by (cbn; by rewrite <- Z.land_assoc, Z.land_diag).
      destruct Hs. destruct (enabled (clamp value)) eqn:He; cbn [negb].
      * by apply trim_locked_ok.
      * constructor; cbn; try done; try lia. unfold zlength in *. cbn. lia.
    + cbn [store]. unfold configure. case_if; cbn; [lia|]. unfold trim_locked. destruct (trim _ _ _). cbn. lia.
  - destruct (record_begin _ _ _ _ _ _) as [item|] eqn:E; [|split; [done | lia]]. split; [split; [done|]|cbn; lia].
    apply Forall_app. split; [done|]. apply Forall_singleton. eapply record_begin_capped; [|exact E]. apply Hs.
  - destruct (pending s !! i) as [item|] eqn:E; [|split; [done | lia]]. split; [split|].
    + cbn. apply commit_ok; try done. by eapply Forall_lookup_1.
    + cbn. apply Forall_app. split; [by apply Forall_take | by apply Forall_drop].
    + cbn. unfold record_commit. case_if; cbn; [lia|]. unfold trim_locked. cbn. destruct (trim _ _ _). cbn. rewrite wrap_u_id by done. lia.
  - split; [split; [|done]|cbn; lia]. destruct Hs. constructor; cbn; try done; try lia. unfold zlength in *. cbn. lia.
Qed.

Lemma run_ok calls : zlength calls < 2 ^ 64 - 2 -> state_ok (run calls) /\ 1 <= next_index_ (store (run calls)) <= 1 + zlength calls.
Proof.
  induction calls as [|c calls IH] using rev_ind; intros Hl.
  - split; [|unfold zlength; cbn; lia]. split; [|constructor]. constructor; try done; cbn -[max_max_entries]; unfold max_max_entries, default_max_entries; lia.
  - rewrite zlength_app in Hl. change (zlength [c]) with 1 in Hl. destruct (IH ltac:(lia)) as [Hok Hn]. unfold run. rewrite fold_left_app.
    cbn [fold_left]. fold (run calls). destruct (step_ok (run calls) c Hok ltac:(unfold in_u; unfold zlength in *; lia)) as [H1 H2].
    split; [done|]. rewrite zlength_app. change (zlength [c]) with 1. split; [|lia]. destruct H1 as [[_ _ _ _ _ H3 _] _]. unfold zlength in *. lia.
Qed.

(** However the calls of several threads interleave, between the two critical sections of a
    record too, the log never holds more entries than its cap, is empty while it is switched
    off, numbers its entries consecutively up to the last index, and holds only failures within
    their bounds with redacted arguments. *)
Theorem failed_log_invariant (calls : list call) (Hl : zlength calls < 2 ^ 64 - 2) :
  let s := store (run calls) in
  (length (entries_ s) <= max_entries (options_ s) <= max_max_entries)%nat /\
  (enabled (options_ s) = false -> entries_ s = []) /\
  map index (entries_ s) = map (fun i => next_index_ s - zlength (entries_ s) + Z.of_nat i) (seq 0 (length (entries_ s))) /\
  Forall capped (entries_ s).
Proof. destruct (run_ok calls Hl) as [[[] _] _]. split_and!; auto; lia. Qed.

(** ** Reading the log *)

Lemma list_loop_spec since limit (l : list (entry perf)) : forall out, (forall i e, l !! i = Some e -> forall j f, (i < j)%nat -> l !! j = Some f -> index f < index e) ->
  list_loop l since limit out = out ++ (if Nat.ltb 0 limit then take (limit - length out) else (fun x => x)) (List.filter (fun e => since <? index e) l).
Proof.
  induction l as [|e l IH]; intros out Hs; cbn [list_loop List.filter]; [case_if; rewrite ?take_nil; by rewrite app_nil_r|].
  assert (Hs' : forall i e, l !! i = Some e -> forall j f, (i < j)%nat -> l !! j = Some f -> index f < index e)
    by (intros i x Hx j f Hj Hf; apply (Hs (S i) x Hx (S j) f); [lia | done]).
  assert (Hless : forall f, f ∈ l -> index f < index e).
  { intros f [j Hj]%list_elem_of_lookup. apply (Hs 0%nat e eq_refl (S j) f); [lia | done]. }
  destruct (Z.leb_spec (index e) since) as [Hle|Hgt].
  - assert (List.filter (fun e => since <? index e) (e :: l) = []) as E.
    { cbn. destruct (Z.ltb_spec since (index e)); [lia|]. clear -Hless Hle. induction l as [|f l IH]; [done|]. cbn.
      assert (index f < index e) by (apply Hless; left). destruct (Z.ltb_spec since (index f)); [lia|]. apply IH. intros x Hx. apply Hless. by right. }
    cbn in E. rewrite E. case_if; rewrite ?take_nil; by rewrite app_nil_r.
  - destruct (Z.ltb_spec since (index e)); [|lia]. destruct (Nat.ltb_spec 0 limit) as [Hlim|Hlim]; cbn [andb].
    + destruct (Nat.leb_spec limit (length out)) as [Hfull|Hroom].
      * replace (limit - length out)%nat with 0%nat by lia. cbn. by rewrite app_nil_r.
      * rewrite IH by done. destruct (Nat.ltb_spec 0 limit); [|lia]. rewrite length_app. cbn [length].
        replace (limit - length out)%nat with (S (limit - (length out + 1))) by lia. cbn [take]. by rewrite <- app_assoc.
    + rewrite IH by done. destruct (Nat.ltb_spec 0 limit); [lia|]. by rewrite <- app_assoc.
Qed.

(** Reading the log gives exactly the kept entries newer than the given index, newest first, up
    to the limit, in every state the calls can reach, and no entry is newer than the last index. *)
Theorem failed_log_poll (calls : list call) (since : Z) (limit : nat) (Hl : zlength calls < 2 ^ 64 - 2) :
  let s := store (run calls) in
  list_ since limit s = (if Nat.ltb 0 limit then take limit else (fun x => x)) (List.filter (fun e => since <? index e) (rev (entries_ s))) /\
  (forall e, e ∈ entries_ s -> index e <= last_index s).
Proof.
  cbv zeta. destruct (run_ok calls Hl) as [[[_ _ _ _ Hi Hn _] _] Hx]. set (s := store (run calls)) in *. clearbody s. unfold consecutive in Hi.
  assert (Hidx : forall i e, entries_ s !! i = Some e -> index e = next_index_ s - zlength (entries_ s) + Z.of_nat i /\ (i < length (entries_ s))%nat).
  { intros i e He. pose proof (lookup_lt_Some _ _ _ He) as Hlt. split; [|done].
    assert (Hm : map index (entries_ s) !! i = Some (index e)) by (change (index <$> entries_ s) with (map index (entries_ s)); by rewrite list_lookup_fmap, He).
    rewrite Hi in Hm. change (map ?f ?l) with (f <$> l) in Hm. rewrite list_lookup_fmap, lookup_seq_lt in Hm by done. cbn in Hm. by injection Hm. }
  split.
  - unfold list_. rewrite list_loop_spec; [cbn [length app]; by rewrite Nat.sub_0_r|]. intros i e He j f Hj Hf.
    pose proof (lookup_lt_Some _ _ _ He) as L1. pose proof (lookup_lt_Some _ _ _ Hf) as L2. rewrite length_rev in L1, L2.
    rewrite rev_alt in He, Hf. change (rev_append (entries_ s) []) with (reverse (entries_ s)) in *. rewrite reverse_lookup in He, Hf by done. destruct (Hidx _ _ He), (Hidx _ _ Hf). lia.
  - intros e [i He]%list_elem_of_lookup. destruct (Hidx _ _ He). unfold last_index, zlength in *. rewrite wrap_u_id; unfold in_u; lia.
Qed.
End Threads.

(** A failure in two lines, one of which carries a token. *)
Definition demo_response : Response unit :=
  mkResponse (str "check_sql") CRITICAL [mkLine (str "bad option password=hunter2") [tt]] [] (str "blob").
Definition demo_calls : list call :=
  [Configure (mkOptions true 2 true default_statuses); Begin demo_response (Some [str "--token"; str "abc"]) (str "NRPEServer") 0 7;
   Begin demo_response None (str "NRPEServer") 0 8; Commit 1; Commit 0].

Lemma failed_log_invariant_witness :
  let s := store (run demo_calls) in
  map index (entries_ s) = [1; 2] /\
  (length (entries_ s) <= max_entries (options_ s) <= max_max_entries)%nat /\
  (enabled (options_ s) = false -> entries_ s = []) /\
  map index (entries_ s) = map (fun i => next_index_ s - zlength (entries_ s) + Z.of_nat i) (seq 0 (length (entries_ s))) /\
  Forall capped (entries_ s).
Proof. split; [vm_compute; reflexivity|]. apply (failed_log_invariant demo_calls). vm_compute. reflexivity. Defined.

Lemma failed_log_poll_witness :
  let s := store (run demo_calls) in
  list_ 1 0 s = (if Nat.ltb 0 0 then take 0 else (fun x => x)) (List.filter (fun e => 1 <? index e) (rev (entries_ s))) /\
  (forall e, e ∈ entries_ s -> index e <= last_index s).
Proof. apply (failed_log_poll demo_calls 1 0). vm_compute. reflexivity. Defined.

(** The redaction comes after the cut, so a stored line can be longer than the cap. *)
Theorem redaction_outgrows_cap :
  let l : Line unit := mkLine (concat (replicate 512 (str "token=a "))) [] in
  length (message l) = max_line_length /\ (max_line_length < length (message (sanitize_line l)))%nat.
Proof. cbv zeta. split; [vm_compute; reflexivity|]. apply Nat.ltb_lt. vm_compute. reflexivity. Qed.

(** ** Tags *)

Definition tag_ok (k v : cppstring) : Prop := (1 <= length k <= max_key_length)%nat /\ (1 <= length v <= max_value_length)%nat.
Definition no_tags : tag_repository := mkTags ∅ 0.
Definition set_all (sets : list (cppstring * cppstring)) (t : tag_repository) : tag_repository :=
  fold_left (fun t '(k, v) => (set_tag k v t).2) sets t.

(** One call, on every branch. *)
Lemma set_tag_spec k v t : let '(r, t') := set_tag k v t in
  match r with
  | changed => revision_ t' = wrap_u 64 (revision_ t + 1) /\ tags_ t' <> tags_ t /\ (length k <= max_key_length)%nat /\ k <> [] /\
      tags_ t' = (if bool_decide (v = []) then delete k (tags_ t) else <[k := v]> (tags_ t)) /\
      ((v <> []) -> (length v <= max_value_length)%nat /\ (size (tags_ t') <= Nat.max max_tags (size (tags_ t)))%nat)
  | unchanged => t' = t /\ tags_ t !! k = (if bool_decide (v = []) then None else Some v)
  | rejected => t' = t
  end.
Proof.
  unfold set_tag. case_if; [done|]. apply orb_false_iff in Heqb as [Hk%bool_decide_eq_false Hkl%Nat.ltb_ge]. case_if; [done|]. apply Nat.ltb_ge in Heqb.
  cbv zeta. destruct (tags_ t !! k) as [old|] eqn:E; case_bool_decide as Hv.
  - cbn. split_and!; try done. intros Hd. apply (f_equal (lookup k)) in Hd. rewrite lookup_delete_eq in Hd. congruence.
  - case_bool_decide as Ho; [by subst|]. cbn. split_and!; try done.
    + intros Hd. apply (f_equal (lookup k)) in Hd. rewrite lookup_insert_eq in Hd. congruence.
    + intros _. split; [done|]. rewrite map_size_insert_Some by eauto. lia.
  - done.
  - destruct (Nat.leb_spec max_tags (size (tags_ t))); [done|]. cbn. split_and!; try done.
    + intros Hd. apply (f_equal (lookup k)) in Hd. rewrite lookup_insert_eq in Hd. congruence.
    + intros _. split; [done|]. rewrite map_size_insert_None by done. lia.
Qed.

(** Whatever tags are set there are at most 256, each with a key of 1 to 128 and a value of 1 to
    1024 characters. *)
Theorem tags_bounded (sets : list (cppstring * cppstring)) :
  let t := set_all sets no_tags in
  (size (tags_ t) <= max_tags)%nat /\ forall k v, tags_ t !! k = Some v -> tag_ok k v.
Proof.
  cbv zeta. unfold set_all. induction sets as [|[k v] sets IH] using rev_ind; [split; [apply Nat.le_0_l | done]|].
  rewrite fold_left_app. cbn [fold_left]. set (t := fold_left _ sets no_tags) in *. destruct IH as [Hs Ht].
  pose proof (set_tag_spec k v t) as Hst. destruct (set_tag k v t) as [[] t']; cbn [snd]; [|by destruct Hst as [-> _]|by subst t'].
  destruct Hst as (_ & _ & Hkl & Hk & -> & Hv). case_bool_decide as Hv0.
  - split.
    + etrans; [|exact Hs]. rewrite <- !size_dom. apply subseteq_size, subseteq_dom, delete_subseteq.
    + intros k' v' [_ ?]%lookup_delete_Some. by apply Ht.
  - destruct (Hv Hv0) as [Hvl Hsz]. split; [etrans; [exact Hsz|]; by rewrite Nat.max_l|].
    intros k' v' [[<- <-]|[_ ?]]%lookup_insert_Some; [|by apply Ht]. split; [destruct k; [done|]; cbn in *; lia | destruct v; [done|]; cbn in *; lia].
Qed.

(** A run of sets moves the revision by the number of changes. *)
Lemma set_all_revision sets : forall t, 0 <= revision_ t < 2 ^ 64 -> exists n, 0 <= n <= zlength sets /\
  revision_ (set_all sets t) = wrap_u 64 (revision_ t + n) /\ (n = 0 -> set_all sets t = t).
Proof.
  unfold set_all. induction sets as [|[k v] sets IH]; intros t Ht; cbn [fold_left].
  - exists 0. split_and!; try done. rewrite Z.add_0_r, wrap_u_id; done.
  - pose proof (set_tag_spec k v t) as Hst. rewrite zlength_cons. destruct (set_tag k v t) as [[] t']; cbn [snd].
    + destruct Hst as (Hr & _). destruct (IH t') as (n & Hn & Hrn & _); [rewrite Hr; by apply (wrap_u_range 64)|].
      exists (n + 1). split_and!; [lia | lia | | lia]. rewrite Hrn, Hr. unfold wrap_u. rewrite Zplus_mod_idemp_l. f_equal. lia.
    + destruct Hst as [-> _]. destruct (IH t Ht) as (n & Hn & Hrn & H0). exists n. split_and!; auto; lia.
    + subst t'. destruct (IH t Ht) as (n & Hn & Hrn & H0). exists n. split_and!; auto; lia.
Qed.

(** A poller that sees the same revision twice sees the same tags: the revision moves exactly
    when the map changes. *)
Theorem tag_revision_tracks (before after : list (cppstring * cppstring)) (Hl : zlength after < 2 ^ 64) :
  let t := set_all before no_tags in
  revision_ (set_all after t) = revision_ t -> set_all after t = t.
Proof.
  cbv zeta. set (t := set_all before no_tags). assert (Ht : 0 <= revision_ t < 2 ^ 64).
  { destruct (set_all_revision before no_tags) as (n & _ & Hr & _); [done|]. fold t in Hr. rewrite Hr. by apply (wrap_u_range 64). }
  destruct (set_all_revision after t Ht) as (n & Hn & Hr & H0). intros E. apply H0. rewrite Hr in E. unfold wrap_u in E.
  assert (Hm : (revision_ t + n) mod 2 ^ 64 = revision_ t) by done.
  destruct (Z_lt_ge_dec (revision_ t + n) (2 ^ 64)) as [Hlt|Hge]; [rewrite Z.mod_small in Hm by lia; lia|].
  replace (revision_ t + n) with (revision_ t + n - 2 ^ 64 + 1 * 2 ^ 64) in Hm by lia. rewrite Z.mod_add in Hm by lia. rewrite Z.mod_small in Hm by lia. lia.
Qed.

Lemma tag_revision_tracks_witness :
  let t := set_all [(str "os", str "linux")] no_tags in
  revision_ (set_all [(str "os", str "linux"); (str "none", [])] t) = revision_ t -> set_all [(str "os", str "linux"); (str "none", [])] t = t.
Proof. apply (tag_revision_tracks [(str "os", str "linux")] [(str "os", str "linux"); (str "none", [])]). vm_compute. reflexivity. Defined.
