(* ===== verification/Ordering.v ===== *)
(** Byte order of strings and stable sorting by key, as [std::sort], [std::map] and
    [std::set] over [std::string] use them. *)

From stdpp Require Import base list sets strings sorting.
From Stdlib Require Import Ascii Lia.
From S2P Require Import Prelude.

(** [std::string::operator<=] *)
Fixpoint key_leb (a b : cppstring) : bool :=
  match a, b with
  | [], _ => true
  | _ :: _, [] => false
  | x :: a', y :: b' =>
      if Nat.ltb (nat_of_ascii x) (nat_of_ascii y) then true
      else if Nat.eqb (nat_of_ascii x) (nat_of_ascii y) then key_leb a' b' else false
  end.

(** A stable insertion sort by key. *)
Fixpoint insert_by_key {A} (x : cppstring * A) (l : list (cppstring * A)) : list (cppstring * A) :=
  match l with
  | [] => [x]
  | y :: l' => if key_leb x.1 y.1 then x :: l else y :: insert_by_key x l'
  end.
Fixpoint sort_by_key {A} (l : list (cppstring * A)) : list (cppstring * A) :=
  match l with [] => [] | x :: l' => insert_by_key x (sort_by_key l') end.

Lemma key_leb_total a b : key_leb a b = true \/ key_leb b a = true.
Proof.
  revert b. induction a as [|x a IH]; intros [|y b]; simpl; auto.
  destruct (Nat.ltb_spec (nat_of_ascii x) (nat_of_ascii y)), (Nat.ltb_spec (nat_of_ascii y) (nat_of_ascii x)); auto.
  assert (nat_of_ascii x = nat_of_ascii y) as -> by lia. rewrite Nat.eqb_refl. apply IH.
Qed.
Lemma key_leb_antisym a b : key_leb a b = true -> key_leb b a = true -> a = b.
Proof.
  revert b. induction a as [|x a IH]; intros [|y b]; simpl; try done.
  destruct (Nat.ltb_spec (nat_of_ascii x) (nat_of_ascii y)), (Nat.ltb_spec (nat_of_ascii y) (nat_of_ascii x)); try lia.
  - destruct (Nat.eqb_spec (nat_of_ascii y) (nat_of_ascii x)); [lia|done].
  - destruct (Nat.eqb_spec (nat_of_ascii x) (nat_of_ascii y)); [lia|done].
  - destruct (Nat.eqb_spec (nat_of_ascii x) (nat_of_ascii y)) as [E|]; [|done]. rewrite E, Nat.eqb_refl. intros A B.
    f_equal; [|auto]. rewrite <-(ascii_nat_embedding x), <-(ascii_nat_embedding y). by f_equal.
Qed.
Lemma key_leb_trans a b c : key_leb a b = true -> key_leb b c = true -> key_leb a c = true.
Proof.
  revert b c. induction a as [|x a IH]; intros [|y b] [|z c]; simpl; try done.
  destruct (Nat.ltb_spec (nat_of_ascii x) (nat_of_ascii y)), (Nat.ltb_spec (nat_of_ascii y) (nat_of_ascii z)),
    (Nat.ltb_spec (nat_of_ascii x) (nat_of_ascii z)); try done; try lia;
    destruct (Nat.eqb_spec (nat_of_ascii x) (nat_of_ascii y)), (Nat.eqb_spec (nat_of_ascii y) (nat_of_ascii z)); try done; try lia.
  rewrite (proj2 (Nat.eqb_eq _ _)) by congruence. apply IH.
Qed.
Definition by_key {A} (x y : cppstring * A) : Prop := key_leb x.1 y.1 = true.
Lemma insert_by_key_perm {A} (x : cppstring * A) l : insert_by_key x l ≡ₚ x :: l.
Proof. induction l as [|y l IH]; simpl; [done|]. destruct (key_leb x.1 y.1); [done|]. rewrite IH. constructor. Qed.
Lemma sort_by_key_perm {A} (l : list (cppstring * A)) : sort_by_key l ≡ₚ l.
Proof. induction l as [|x l IH]; simpl; [done|]. by rewrite insert_by_key_perm, IH. Qed.
Lemma insert_by_key_sorted {A} (x : cppstring * A) l : StronglySorted by_key l -> StronglySorted by_key (insert_by_key x l).
Proof.
  induction 1 as [|y l S IH F]; simpl; [by repeat constructor|]. destruct (key_leb x.1 y.1) eqn:E.
  - constructor; [by constructor|]. constructor; [done|]. eapply Forall_impl; [done|]. intros z. by apply key_leb_trans.
  - constructor; [done|]. rewrite insert_by_key_perm. constructor; [|done]. unfold by_key.
    destruct (key_leb_total x.1 y.1); congruence.
Qed.
Lemma sort_by_key_sorted {A} (l : list (cppstring * A)) : StronglySorted by_key (sort_by_key l).
Proof. induction l; simpl; [constructor|]. by apply insert_by_key_sorted. Qed.

Lemma nodup_fst_inj {A B} (l : list (A * B)) a x y : NoDup l.*1 -> (a, x) ∈ l -> (a, y) ∈ l -> x = y.
Proof.
  induction l as [|[b z] l IH]; simpl; [set_solver|]. intros [N1 N2]%NoDup_cons.
  assert (forall w, (a, w) ∈ l -> a ∈ l.*1) by (intros w Hw; apply list_elem_of_fmap; by exists (a, w)).
  rewrite !elem_of_cons. intros [E1|I1] [E2|I2]; simplify_eq; auto; exfalso; eauto.
Qed.
(** Fields with distinct keys have one sorted order. *)
Lemma sort_by_key_canonical {A} (l k : list (cppstring * A)) : NoDup l.*1 -> l ≡ₚ k -> sort_by_key l = sort_by_key k.
Proof.
  intros N P. apply (StronglySorted_unique_strong by_key).
  - intros [a x] [b y] Ha Hb A1 A2. rewrite sort_by_key_perm in Ha, Hb. rewrite <-P in Hb.
    pose proof (key_leb_antisym _ _ A1 A2) as E. simpl in E. subst b. f_equal. by eapply nodup_fst_inj.
  - apply sort_by_key_sorted.
  - apply sort_by_key_sorted.
  - by rewrite !sort_by_key_perm.
Qed.

(** Whether two neighbours of a sorted list have one key: [std::adjacent_find]. *)
Fixpoint adjacent_find (l : list cppstring) : option cppstring :=
  match l with
  | x :: ((y :: _) as l') => if bool_decide (x = y) then Some x else adjacent_find l'
  | _ => None
  end.
Definition sort_strings (l : list cppstring) : list cppstring := (sort_by_key (map (fun s => (s, tt)) l)).*1.

Lemma sort_strings_perm l : sort_strings l ≡ₚ l.
Proof.
  unfold sort_strings. rewrite sort_by_key_perm. induction l; simpl; [done|]. by constructor.
Qed.
Lemma sort_strings_sorted l : StronglySorted (fun a b => key_leb a b = true) (sort_strings l).
Proof.
  unfold sort_strings. pose proof (sort_by_key_sorted (map (fun s => (s, tt)) l)) as S.
  induction S as [|x k S IH F]; simpl; constructor; [done|]. apply Forall_fmap. exact F.
Qed.

(** A sorted list without equal neighbours has no repetition at all. *)
Lemma adjacent_find_None l : StronglySorted (fun a b => key_leb a b = true) l -> adjacent_find l = None <-> NoDup l.
Proof.
  induction 1 as [|x l S IH F]; [split; [constructor|done]|].
  destruct l as [|y l]; [split; [intros; apply NoDup_singleton|done]|].
  change (adjacent_find (x :: y :: l)) with (if bool_decide (x = y) then Some x else adjacent_find (y :: l)).
  rewrite NoDup_cons, <-IH. case_bool_decide as E.
  - split; [done|]. intros [N _]. exfalso. apply N. subst. apply elem_of_cons. by left.
  - split; [|tauto]. intros Hn. split; [|done]. intros [->|Hin]%elem_of_cons; [done|].
    apply Forall_cons in F as [Hxy _]. apply StronglySorted_inv in S as [_ Fy].
    rewrite Forall_forall in Fy. apply E, key_leb_antisym; auto.
Qed.
Lemma adjacent_find_Some l x : adjacent_find l = Some x -> x ∈ l.
Proof.
  induction l as [|y l IH]; [done|]. destruct l as [|z l]; [done|].
  change (adjacent_find (y :: z :: l)) with (if bool_decide (y = z) then Some y else adjacent_find (z :: l)).
  case_bool_decide; [intros [= ->]; apply elem_of_cons; by left|]. intros E%IH. apply elem_of_cons. by right.
Qed.
Lemma sorted_repeats l : adjacent_find (sort_strings l) = None <-> NoDup l.
Proof. rewrite (adjacent_find_None _ (sort_strings_sorted l)). by rewrite sort_strings_perm. Qed.
