(* ===== verification/Eviction.v ===== *)
(** Bounded maps that drop their lowest-ranked entry: what the result cache and the store of
    log file positions have in common.  The rank is the counter of the last update or use. *)

From stdpp Require Import base list gmap sets strings sorting.
From Stdlib Require Import Ascii ZArith Lia.
From S2P Require Import Prelude Ordering.

Local Open Scope Z_scope.

Section eviction.
Context {A : Type} (rank : A -> Z).
Implicit Types m : gmap cppstring A.

(** The first entry, in the order of the keys, that none is ranked below *)
Definition oldest_by m : option cppstring :=
  match sort_by_key (map_to_list m) with
  | [] => None
  | kv :: l => Some (fold_left (fun o it => if rank it.2 <? rank o.2 then it else o) l kv).1
  end.

Fixpoint evict_loop (fuel : nat) (max : Z) m : gmap cppstring A :=
  match fuel with
  | O => m
  | S fuel =>
      if Z.of_nat (size m) >? max then match oldest_by m with Some k => evict_loop fuel max (delete k m) | None => m end else m
  end.

Lemma in_sorted m (k : cppstring) (e : A) : (k, e) ∈ sort_by_key (map_to_list m) <-> m !! k = Some e.
Proof. by rewrite sort_by_key_perm, elem_of_map_to_list. Qed.

Lemma fold_oldest_by l : forall o : cppstring * A, let r := fold_left (fun o it => if rank it.2 <? rank o.2 then it else o) l o in
  r ∈ o :: l /\ rank r.2 <= rank o.2 /\ Forall (fun it => rank r.2 <= rank it.2) l.
Proof.
  induction l as [|it l IH]; intros o; cbn [fold_left]; [split; [left|split; [lia|constructor]]|].
  destruct (Z.ltb_spec (rank it.2) (rank o.2)) as [L|G].
  - destruct (IH it) as (H1 & H2 & H3). split; [by right|]. split; [lia|]. by constructor.
  - destruct (IH o) as (H1 & H2 & H3). split; [set_solver|]. split; [lia|]. constructor; [lia|done].
Qed.

(** The entry that goes is there, and none is ranked below it. *)
Lemma oldest_by_spec m k : oldest_by m = Some k -> exists e, m !! k = Some e /\ forall k' e', m !! k' = Some e' -> rank e <= rank e'.
Proof.
  unfold oldest_by. destruct (sort_by_key (map_to_list m)) as [|kv l] eqn:E; [done|]. intros [= <-]. destruct (fold_oldest_by l kv) as (H1 & H2 & H3).
  set (r := fold_left _ l kv) in *. clearbody r. destruct r as [k e]. cbn [fst snd] in *. exists e. rewrite <-E, in_sorted in H1. split; [done|].
  intros k' e' He. apply in_sorted in He. rewrite E in He. apply elem_of_cons in He as [<-|Hin]; [done|]. rewrite Forall_forall in H3. by apply (H3 (k', e')).
Qed.
Lemma oldest_by_none m : oldest_by m = None -> m = ∅.
Proof.
  unfold oldest_by. destruct (sort_by_key (map_to_list m)) as [|kv l] eqn:E; [|done]. intros _. apply map_to_list_empty_iff.
  apply Permutation_nil_r. by rewrite <-E, sort_by_key_perm.
Qed.

Lemma evict_subset fuel max : forall m, evict_loop fuel max m ⊆ m.
Proof.
  induction fuel as [|fuel IH]; intros m; cbn [evict_loop]; [done|]. destruct (_ >? _); [|done]. destruct (oldest_by m) as [k|]; [|done].
  etrans; [apply IH|apply delete_subseteq].
Qed.
Lemma evict_size fuel max : 0 <= max -> forall m, (size m <= fuel)%nat -> Z.of_nat (size (evict_loop fuel max m)) <= max.
Proof.
  intros Hm. induction fuel as [|fuel IH]; intros m Hf; cbn [evict_loop]; [lia|]. rewrite Z.gtb_ltb. destruct (Z.ltb_spec max (Z.of_nat (size m))); [|lia].
  destruct (oldest_by m) as [k|] eqn:O; [|apply oldest_by_none in O as ->; rewrite map_size_empty; lia].
  apply oldest_by_spec in O as (e & He & _). apply IH. rewrite map_size_delete_Some by (by exists e). lia.
Qed.
(** Nothing goes while there is room. *)
Lemma evict_room fuel max m : Z.of_nat (size m) <= max -> evict_loop fuel max m = m.
Proof. intros H. destruct fuel; [done|]. cbn [evict_loop]. rewrite Z.gtb_ltb. by rewrite (proj2 (Z.ltb_ge max (Z.of_nat (size m)))). Qed.

(** What goes is ranked no higher than what stays. *)
Lemma evict_oldest fuel max : forall m k e k' e', m !! k = Some e -> evict_loop fuel max m !! k = None ->
  evict_loop fuel max m !! k' = Some e' -> rank e <= rank e'.
Proof.
  induction fuel as [|fuel IH]; intros m k e k' e' Hk Hn Hk'; cbn [evict_loop] in *; [congruence|]. destruct (_ >? _); [|congruence].
  destruct (oldest_by m) as [o|] eqn:O; [|congruence]. destruct (decide (k = o)) as [->|Ne].
  - apply oldest_by_spec in O as (e0 & He0 & Hmin). simplify_eq. apply (Hmin k' e'). pose proof (evict_subset fuel max (delete o m)) as S.
    eapply lookup_weaken in Hk'; [|exact S]. by apply lookup_delete_Some in Hk' as [_ ?].
  - apply (IH (delete o m) k e k' e'); try done. by rewrite lookup_delete_ne.
Qed.

Lemma evict_nonempty fuel max : 1 <= max -> forall m, m <> ∅ -> evict_loop fuel max m <> ∅.
Proof.
  intros Hm. induction fuel as [|fuel IH]; intros m Hne; cbn [evict_loop]; [done|]. rewrite Z.gtb_ltb. destruct (Z.ltb_spec max (Z.of_nat (size m))); [|done].
  destruct (oldest_by m) as [k|] eqn:O; [|done]. apply oldest_by_spec in O as (e & He & _). apply IH. intros E.
  apply (f_equal size) in E. rewrite map_size_delete_Some, map_size_empty in E by (by exists e). lia.
Qed.

(** With one entry too many, an entry goes only if no other is ranked below it. *)
Lemma evict_one max m k e : Z.of_nat (size m) <= max + 1 -> m !! k = Some e -> evict_loop (size m) max m !! k = None ->
  Z.of_nat (size m) = max + 1 /\ forall k' e', m !! k' = Some e' -> rank e <= rank e'.
Proof.
  intros Hs Hk Hn. destruct (size m) as [|n] eqn:En; [cbn in Hn; congruence|]. cbn [evict_loop] in Hn. rewrite En in Hn. rewrite Z.gtb_ltb in Hn.
  destruct (Z.ltb_spec max (Z.of_nat (S n))) as [L|]; [|congruence]. split; [lia|]. destruct (oldest_by m) as [o|] eqn:O; [|congruence].
  apply oldest_by_spec in O as (e0 & He0 & Hmin). rewrite evict_room in Hn by (rewrite map_size_delete_Some by (by exists e0); lia).
  apply lookup_delete_None in Hn as [->|]; [|congruence]. by simplify_eq.
Qed.
End eviction.
