(* ===== verification/FactRepository.v ===== *)
(** The inventory document: service/fact_repository.hpp and the tree functions of
    include/nscapi/protobuf/facts.hpp.

    An object is its list of fields, as the repeated field of the message is.  The
    serialisation of protobuf, the text of a double and SHA-256 are the interface
    [runtime]; whether the digest works is an argument of the calls that hash.  Every
    method holds the lock for its whole body.  A [std::map] is a [gmap] that is walked in
    key order; sizes are far below the range of [size_t]. *)

From stdpp Require Import base list gmap strings sorting.
From Stdlib Require Import Ascii ZArith Lia.
From Stdlib Require String.
From S2P Require Import Prelude Strings Ordering.
Import String.StringSyntax.

Local Open Scope Z_scope.

(** ** Keys *)

Definition is_lower (c : ascii) : bool := let n := nat_of_ascii c in Nat.leb 97 n && Nat.leb n 122.
Definition key_char (c : ascii) : bool := is_lower c || isdigit c || bool_decide (c = "_"%char).
Definition max_key_length : nat := 64.
Definition is_valid_key (key : cppstring) : bool :=
  match key with
  | [] => false
  | c :: _ => Nat.leb (length key) max_key_length && is_lower c && forallb key_char key
  end.

(** ** The tree *)

Class runtime := {
  double : Type;
  (** a stream with the given precision, and reading the text back *)
  print_double : nat -> double -> cppstring;
  read_double : cppstring -> option double;
  double_eqb : double -> double -> bool;
  has_openssl : bool;
  sha256_hex : cppstring -> cppstring
}.

Section Tree.
Context `{runtime}.

Inductive Value :=
| VNone
| VString (s : cppstring)
| VInt (z : Z)
| VUint (z : Z)
| VDouble (d : double)
| VBool (b : bool)
| VObject (fields : list (cppstring * Value))
| VList (values : list Value).
Abbreviation Object := (list (cppstring * Value)).

Definition tree_get (object : Object) (key : cppstring) : option Value :=
  match List.find (fun f => bool_decide (f.1 = key)) object with Some f => Some f.2 | None => None end.

(** [sort_fields]: the fields are sorted after their values here; the sort looks at keys only.
    Of a list only the objects in it are sorted. *)
Fixpoint sort_value (v : Value) : Value :=
  match v with
  | VObject fields => VObject (sort_by_key (map (fun f => (f.1, sort_value f.2)) fields))
  | VList values => VList (map (fun v => match v with VObject _ => sort_value v | _ => v end) values)
  | _ => v
  end.
Definition sort_fields (o : Object) : Object := sort_by_key (map (fun f => (f.1, sort_value f.2)) o).

(** ** JSON *)

Fixpoint format_double_loop (fuel precision : nat) (d : double) : cppstring :=
  match fuel with
  | O => str "0"
  | S fuel' =>
      let text := print_double precision d in
      match read_double text with
      | Some r => if double_eqb r d then text else format_double_loop fuel' (S precision) d
      | None => format_double_loop fuel' (S precision) d
      end
  end.
Definition format_double (d : double) : cppstring := format_double_loop 3 15 d.

Definition hex_digit_char (n : nat) : ascii := nth n (str "0123456789abcdef") zero.
Definition json_char (c : ascii) : cppstring :=
  let n := nat_of_ascii c in
  if bool_decide (c = c_dquote) then [c_backslash; c_dquote]
  else if bool_decide (c = c_backslash) then [c_backslash; c_backslash]
  else if Nat.eqb n 8 then [c_backslash; "b"%char]
  else if Nat.eqb n 12 then [c_backslash; "f"%char]
  else if Nat.eqb n 10 then [c_backslash; "n"%char]
  else if Nat.eqb n 13 then [c_backslash; "r"%char]
  else if Nat.eqb n 9 then [c_backslash; "t"%char]
  else if Nat.ltb n 32 then [c_backslash; "u"%char; "0"%char; "0"%char; hex_digit_char (n / 16); hex_digit_char (n mod 16)]
  else [c].
Definition write_json_string (text : cppstring) : cppstring := [c_dquote] ++ concat (map json_char text) ++ [c_dquote].

Definition commas (l : list cppstring) : cppstring := join_with ","%char l.
Fixpoint write_json (v : Value) : cppstring :=
  match v with
  | VNone => str "null"
  | VString s => write_json_string s
  | VInt z => show z
  | VUint z => show z
  | VDouble d => format_double d
  | VBool b => if b then str "true" else str "false"
  | VObject fields => str "{" ++ commas (map (fun f => write_json_string f.1 ++ str ":" ++ write_json f.2) fields) ++ str "}"
  | VList values => str "[" ++ commas (map write_json values) ++ str "]"
  end.
Definition to_json (o : Object) : cppstring := write_json (VObject o).

(** ** Validation *)

Definition max_depth : nat := 6.
Definition max_list_length : nat := Z.to_nat 5000.

Fixpoint no_duplicate (keys : list cppstring) : bool :=
  match keys with [] => true | k :: keys' => negb (bool_decide (k ∈ keys')) && no_duplicate keys' end.

Definition has_object_value (v : Value) : bool := match v with VObject _ => true | _ => false end.
(** The id of a record; [None] when it has no non-empty string id. *)
Definition record_id (v : Value) : option cppstring :=
  match v with
  | VObject fields => match tree_get fields (str "id") with Some (VString (c :: s)) => Some (c :: s) | _ => None end
  | _ => None
  end.

(** [validate] on a value at a depth; the checks of an object and of a list are its branches.
    The order of the tests only decides which error is reported, which is left out. *)
Fixpoint validate (depth : nat) (v : Value) : bool :=
  match v with
  | VNone => false
  | VObject fields =>
      Nat.leb depth max_depth && forallb (fun f => is_valid_key f.1) fields && no_duplicate (map fst fields) &&
      forallb (fun f => validate (S depth) f.2) fields
  | VList values =>
      Nat.leb (length values) max_list_length &&
      match values with
      | [] => true
      | first :: _ =>
          if has_object_value first
          then forallb has_object_value values && forallb (fun v => bool_decide (is_Some (record_id v))) values &&
               no_duplicate (map (fun v => default [] (record_id v)) values) && forallb (validate (S depth)) values
          else forallb (fun v => match v with VString _ => true | _ => false end) values
      end
  | _ => true
  end.
Definition validate_object (o : Object) : bool := validate 1 (VObject o).
End Tree.
Abbreviation Object := (list (cppstring * Value)).

(** ** The repository *)

Inductive set_result := changed | unchanged | rejected.
Definition default_max_size : Z := 1048576.
Definition min_max_size : Z := 2.

(** [SerializeAsString] *)
Class protobuf `{runtime} := serialize : Object -> cppstring.

Record frozen_state := mkFrozen { f_collected : cppstring; f_json : option cppstring; f_revision : Z; f_hash : cppstring }.
Record snapshot := mkSnapshot { json : cppstring; hash : cppstring; revision : Z; collected : cppstring }.

Section Repository.
Context `{protobuf}.

Record fact_repository := mkFacts {
  sets_ : gmap cppstring Object;
  encoded_ : gmap cppstring cppstring;
  size_ : Z;
  owners_ : gmap cppstring Z;
  declared_ : gmap Z (list cppstring);
  errors_ : gmap cppstring cppstring;
  gathered_ : gmap cppstring cppstring;
  collected_ : cppstring;
  hash_ : cppstring;
  hash_dirty_ : bool;
  revision_ : Z;
  rounds_ : Z;
  frozen_ : option frozen_state;
  max_size_ : Z
}.
Definition new_facts : fact_repository := mkFacts ∅ ∅ 0 ∅ ∅ ∅ ∅ [] [] true 0 0 None default_max_size.

Definition build_document (sets : gmap cppstring Object) : Object := map (fun e => (e.1, VObject e.2)) (sort_by_key (map_to_list sets)).
Definition document (r : fact_repository) : cppstring := to_json (build_document (sets_ r)).

Definition with_sets sets encoded size owners gathered (r : fact_repository) : fact_repository :=
  mkFacts sets encoded size owners (declared_ r) (errors_ r) gathered (collected_ r) (hash_ r) (hash_dirty_ r) (revision_ r) (rounds_ r) (frozen_ r) (max_size_ r).
Definition with_owners owners (r : fact_repository) : fact_repository :=
  with_sets (sets_ r) (encoded_ r) (size_ r) owners (gathered_ r) r.
Definition with_frozen frozen (r : fact_repository) : fact_repository :=
  mkFacts (sets_ r) (encoded_ r) (size_ r) (owners_ r) (declared_ r) (errors_ r) (gathered_ r) (collected_ r) (hash_ r) (hash_dirty_ r) (revision_ r) (rounds_ r) frozen (max_size_ r).
Definition with_hash h dirty (r : fact_repository) : fact_repository :=
  mkFacts (sets_ r) (encoded_ r) (size_ r) (owners_ r) (declared_ r) (errors_ r) (gathered_ r) (collected_ r) h dirty (revision_ r) (rounds_ r) (frozen_ r) (max_size_ r).
Definition with_rounds n frozen (r : fact_repository) : fact_repository :=
  mkFacts (sets_ r) (encoded_ r) (size_ r) (owners_ r) (declared_ r) (errors_ r) (gathered_ r) (collected_ r) (hash_ r) (hash_dirty_ r) (revision_ r) n frozen (max_size_ r).
Definition with_notes declared errors max_size (r : fact_repository) : fact_repository :=
  mkFacts (sets_ r) (encoded_ r) (size_ r) (owners_ r) declared errors (gathered_ r) (collected_ r) (hash_ r) (hash_dirty_ r) (revision_ r) (rounds_ r) (frozen_ r) max_size.

Definition touch (r : fact_repository) : fact_repository :=
  mkFacts (sets_ r) (encoded_ r) (size_ r) (owners_ r) (declared_ r) (errors_ r) (gathered_ r) (collected_ r) (hash_ r) true
    (wrap_u 64 (revision_ r + 1)) (rounds_ r) (frozen_ r) (max_size_ r).

(** Called before every change: inside a round, keep what the round started from. *)
Definition freeze_locked (sets_change : bool) (r : fact_repository) : fact_repository :=
  if rounds_ r =? 0 then r else
  let state := match frozen_ r with Some s => s | None => mkFrozen (collected_ r) None 0 [] end in
  if negb sets_change || bool_decide (is_Some (f_json state)) then with_frozen (Some state) r
  else with_frozen (Some (mkFrozen (f_collected state) (Some (document r)) (revision_ r) (if hash_dirty_ r then f_hash state else hash_ r))) r.

Definition set_facts (fact_set : cppstring) (plugin_id : Z) (value : Object) (r : fact_repository) : set_result * fact_repository :=
  if negb (is_valid_key fact_set) then (rejected, r) else
  if negb (validate_object value) then (rejected, r) else
  let candidate := sort_fields value in
  let encoded := serialize candidate in
  if match owners_ r !! fact_set with Some o => negb (o =? plugin_id) | None => false end then (rejected, r) else
  let stored := encoded_ r !! fact_set in
  if bool_decide (stored = Some encoded) then (unchanged, with_owners (<[fact_set := plugin_id]> (owners_ r)) r) else
  let would_be := size_ r - (match stored with Some e => zlength e | None => 0 end) + zlength encoded in
  if would_be >? max_size_ r then (rejected, r) else
  let r := freeze_locked true r in
  (changed, touch (with_sets (<[fact_set := candidate]> (sets_ r)) (<[fact_set := encoded]> (encoded_ r)) would_be
                     (<[fact_set := plugin_id]> (owners_ r)) (gathered_ r) r)).

Definition erase_locked (fact_set : cppstring) (r : fact_repository) : bool * fact_repository :=
  let r := with_owners (delete fact_set (owners_ r)) r in
  match encoded_ r !! fact_set with
  | None => (false, r)
  | Some e =>
      let r := freeze_locked true r in
      (true, with_sets (delete fact_set (sets_ r)) (delete fact_set (encoded_ r)) (size_ r - zlength e) (owners_ r) (delete fact_set (gathered_ r)) r)
  end.
(** [for (fact_set : owned) changed = erase_locked(fact_set) || changed] *)
Fixpoint erase_all (owned : list cppstring) (changed_ : bool) (r : fact_repository) : bool * fact_repository :=
  match owned with
  | [] => (changed_, r)
  | s :: owned' => let '(c, r) := erase_locked s r in erase_all owned' (c || changed_) r
  end.
Definition touch_if (c : bool) (r : fact_repository) : fact_repository := if c then touch r else r.

Definition remove (fact_set : cppstring) (r : fact_repository) : set_result * fact_repository :=
  let '(c, r) := erase_locked fact_set r in
  if negb c then (unchanged, r) else (changed, touch r).

Definition owned_by (plugin_id : Z) (keep : cppstring -> bool) (r : fact_repository) : list cppstring :=
  map fst (List.filter (fun o => (o.2 =? plugin_id) && negb (keep o.1)) (sort_by_key (map_to_list (owners_ r)))).
Definition remove_owned_by (plugin_id : Z) (r : fact_repository) : fact_repository :=
  let r := with_notes (delete plugin_id (declared_ r)) (errors_ r) (max_size_ r) r in
  let '(c, r) := erase_all (owned_by plugin_id (fun _ => false) r) false r in touch_if c r.

Definition mentions (ids : list cppstring) (fact_set : cppstring) : bool :=
  bool_decide (fact_set ∈ ids) ||
  existsb (fun id => Nat.ltb (length (fact_set ++ str ".")) (length id) && is_prefix (fact_set ++ str ".") id) ids.
Definition retain_only (plugin_id : Z) (produced : list cppstring) (r : fact_repository) : fact_repository :=
  let r := with_notes (<[plugin_id := produced]> (declared_ r)) (errors_ r) (max_size_ r) r in
  let '(c, r) := erase_all (owned_by plugin_id (mentions produced) r) false r in touch_if c r.

(** [path] cut at its dots *)
Fixpoint get_path (current : Value) (segments : list cppstring) : option Value :=
  match segments with
  | [] => Some current
  | s :: segments' =>
      if bool_decide (s = []) then None else
      match current with
      | VObject fields => match tree_get fields s with Some child => get_path child segments' | None => None end
      | _ => None
      end
  end.
(** Every piece between dots, a trailing empty one too. *)
Fixpoint dotted (s : cppstring) : list cppstring :=
  match s with
  | [] => [[]]
  | c :: s' => if bool_decide (c = "."%char) then [] :: dotted s' else match dotted s' with p :: ps => (c :: p) :: ps | [] => [[c]] end
  end.
Definition get_facts (path : cppstring) (r : fact_repository) : option Value :=
  match dotted path with
  | head :: segments =>
      if bool_decide (head = []) then None else
      match sets_ r !! head with Some o => get_path (VObject o) segments | None => None end
  | [] => None
  end.

(** ** Hash and snapshot *)

(** [ok]: the digest works. *)
Definition digest (ok : bool) (bytes : cppstring) : cppstring := if has_openssl && ok then sha256_hex bytes else [].

Definition hash_locked (ok : bool) (text : cppstring) (r : fact_repository) : cppstring * fact_repository :=
  if negb has_openssl then ([], r) else
  if negb (hash_dirty_ r) then (hash_ r, r) else
  let d := digest ok text in
  if bool_decide (d = []) then (d, r) else (d, with_hash d false r).

Definition build_snapshot_locked (ok : bool) (r : fact_repository) : snapshot * fact_repository :=
  let text := document r in
  let '(h, r') := hash_locked ok text r in (mkSnapshot text h (revision_ r) (collected_ r), r').

Definition frozen_hash_locked (ok : bool) (state : frozen_state) (r : fact_repository) : cppstring * fact_repository :=
  match f_json state with
  | None => if has_openssl && hash_dirty_ r then hash_locked ok (document r) r else (hash_ r, r)
  | Some text =>
      let h := if bool_decide (f_hash state = []) && has_openssl then digest ok text else f_hash state in
      (h, with_frozen (Some (mkFrozen (f_collected state) (f_json state) (f_revision state) h)) r)
  end.
Definition frozen_snapshot_locked (ok : bool) (state : frozen_state) (r : fact_repository) : snapshot * fact_repository :=
  match f_json state with
  | None => let '(s, r) := build_snapshot_locked ok r in (mkSnapshot (json s) (hash s) (revision s) (f_collected state), r)
  | Some text => let '(h, r) := frozen_hash_locked ok state r in (mkSnapshot text h (f_revision state) (f_collected state), r)
  end.

Definition get_hash (ok : bool) (r : fact_repository) : cppstring * fact_repository :=
  match frozen_ r with
  | Some state => frozen_hash_locked ok state r
  | None => if negb has_openssl || negb (hash_dirty_ r) then (hash_ r, r) else hash_locked ok (document r) r
  end.
Definition get_snapshot (ok : bool) (r : fact_repository) : snapshot * fact_repository :=
  match frozen_ r with Some state => frozen_snapshot_locked ok state r | None => build_snapshot_locked ok r end.

Definition begin_round (r : fact_repository) : fact_repository := with_rounds (wrap_u 32 (rounds_ r + 1)) (frozen_ r) r.
Definition end_round (r : fact_repository) : fact_repository :=
  if rounds_ r =? 0 then r else
  let n := rounds_ r - 1 in with_rounds n (if n =? 0 then None else frozen_ r) r.

Definition mark_collected (timestamp : cppstring) (r : fact_repository) : fact_repository :=
  if bool_decide (collected_ r = timestamp) then r else
  let r := freeze_locked false r in
  mkFacts (sets_ r) (encoded_ r) (size_ r) (owners_ r) (declared_ r) (errors_ r) (gathered_ r) timestamp (hash_ r) (hash_dirty_ r) (revision_ r)
    (rounds_ r) (frozen_ r) (max_size_ r).
Definition mark_gathered (fact_set timestamp : cppstring) (r : fact_repository) : fact_repository :=
  match sets_ r !! fact_set with
  | None => r
  | Some _ =>
      with_sets (sets_ r) (encoded_ r) (size_ r) (owners_ r)
        (if bool_decide (timestamp = []) then delete fact_set (gathered_ r) else <[fact_set := timestamp]> (gathered_ r)) r
  end.
Definition get_enabled (r : fact_repository) : gset cppstring := list_to_set (concat (map snd (map_to_list (declared_ r)))).
Definition set_errors (errors : gmap cppstring cppstring) (r : fact_repository) : fact_repository := with_notes (declared_ r) errors (max_size_ r) r.

(** The first set of the largest size, in key order. *)
Definition largest (m : gmap cppstring cppstring) : option cppstring :=
  match sort_by_key (map_to_list m) with
  | [] => None
  | e :: l => Some (fold_left (fun b e => if zlength b.2 <? zlength e.2 then e else b) l e).1
  end.
Definition not_kept (max_size : Z) : cppstring :=
  str "not kept: the facts document no longer fits the lowered max size of " ++ show max_size ++ str " bytes".
Fixpoint drop_largest (fuel : nat) (dropped : list cppstring) (r : fact_repository) : list cppstring * fact_repository :=
  match fuel with
  | O => (dropped, r)
  | S fuel' =>
      if (max_size_ r <? size_ r) then
        match largest (encoded_ r) with
        | None => (dropped, r)
        | Some name =>
            let r := (erase_locked name r).2 in
            drop_largest fuel' (dropped ++ [name]) (with_notes (declared_ r) (<[name := not_kept (max_size_ r)]> (errors_ r)) (max_size_ r) r)
        end
      else (dropped, r)
  end.
Definition set_max_size (max_size : Z) (r : fact_repository) : list cppstring * fact_repository :=
  if max_size <? min_max_size then ([], r) else
  let r := with_notes (declared_ r) (errors_ r) max_size r in
  let '(dropped, r) := drop_largest (size (encoded_ r)) [] r in
  (dropped, if bool_decide (dropped = []) then r else touch r).

(** ** Sorting *)

Lemma largest_in m name : largest m = Some name -> is_Some (m !! name).
Proof.
  unfold largest. destruct (sort_by_key (map_to_list m)) as [|e l] eqn:E; [done|]. intros Hl.
  set (f := fun _ _ => _) in Hl.
  assert (fold_left f l e ∈ e :: l) as Hin.
  { clear. revert e. induction l as [|x l IH]; intros e; simpl; [set_solver|]. destruct (zlength e.2 <? zlength x.2) eqn:E.
    - assert (f e x = x) as -> by (unfold f; by rewrite E). specialize (IH x). set_solver.
    - assert (f e x = e) as -> by (unfold f; by rewrite E). specialize (IH e). set_solver. }
  rewrite <-E, sort_by_key_perm in Hin. destruct (fold_left f l e) as [k v]. simpl in Hl. apply (inj Some) in Hl as ->.
  exists v. by apply elem_of_map_to_list.
Qed.

(** ** What a reader of the hash and the snapshot is shown *)

Record published := mkPublished { p_json : cppstring; p_revision : Z; p_collected : cppstring }.
Definition live (r : fact_repository) : published := mkPublished (document r) (revision_ r) (collected_ r).
Definition shown (r : fact_repository) : published :=
  match frozen_ r with
  | None => live r
  | Some s =>
      match f_json s with
      | None => mkPublished (document r) (revision_ r) (f_collected s)
      | Some text => mkPublished text (f_revision s) (f_collected s)
      end
  end.

Inductive operation :=
| OSet (fact_set : cppstring) (plugin_id : Z) (value : Object)
| ORemove (fact_set : cppstring)
| ORemoveOwnedBy (plugin_id : Z)
| ORetainOnly (plugin_id : Z) (produced : list cppstring)
| OBeginRound
| OEndRound
| OMarkCollected (timestamp : cppstring)
| OMarkGathered (fact_set timestamp : cppstring)
| OSetErrors (errors : gmap cppstring cppstring)
| OSetMaxSize (max_size : Z)
| OGetHash (ok : bool)
| OGetSnapshot (ok : bool).

Definition perform (o : operation) (r : fact_repository) : fact_repository :=
  match o with
  | OSet s p v => (set_facts s p v r).2
  | ORemove s => (remove s r).2
  | ORemoveOwnedBy p => remove_owned_by p r
  | ORetainOnly p l => retain_only p l r
  | OBeginRound => begin_round r
  | OEndRound => end_round r
  | OMarkCollected t => mark_collected t r
  | OMarkGathered s t => mark_gathered s t r
  | OSetErrors e => set_errors e r
  | OSetMaxSize m => (set_max_size m r).2
  | OGetHash ok => (get_hash ok r).2
  | OGetSnapshot ok => (get_snapshot ok r).2
  end.

(** The specification of a reader: the live document as it was when last no round was
    running. *)
Definition publish (r : fact_repository) (p : published) : published := if rounds_ r =? 0 then live r else p.
Fixpoint run (ops : list operation) (r : fact_repository) (p : published) : fact_repository * published :=
  match ops with
  | [] => (r, p)
  | o :: ops' => let r' := perform o r in run ops' r' (publish r' p)
  end.

(** A step that leaves the rounds alone, and inside a round what a reader is shown. *)
Definition keeps (r r' : fact_repository) : Prop :=
  rounds_ r' = rounds_ r /\ (rounds_ r = 0 -> frozen_ r = None -> frozen_ r' = None) /\ (rounds_ r <> 0 -> shown r' = shown r).
#[local] Instance keeps_preorder : PreOrder keeps.
Proof.
  split; [by intros r|]. intros a b c (A1 & A2 & A3) (B1 & B2 & B3). split_and!.
  - congruence.
  - intros Z F. apply B2; [congruence|auto].
  - intros N. rewrite B3 by congruence. auto.
Qed.

(** Inside a round the document is held. *)
Definition pinned (r : fact_repository) : Prop :=
  rounds_ r <> 0 -> match frozen_ r with Some s => is_Some (f_json s) | None => False end.

Lemma freeze_keeps b r : keeps r (freeze_locked b r).
Proof.
  unfold keeps, freeze_locked. destruct (Z.eqb_spec (rounds_ r) 0); [done|].
  unfold shown, live. destruct (frozen_ r) as [[fc [t|] fr fh]|]; destruct b; simpl; split_and!; try done.
Qed.
Lemma freeze_pinned r : pinned (freeze_locked true r).
Proof.
  unfold pinned, freeze_locked. destruct (Z.eqb_spec (rounds_ r) 0); [done|].
  destruct (frozen_ r) as [[fc [t|] fr fh]|]; simpl; eauto.
Qed.
Lemma freeze_fields b r :
  sets_ (freeze_locked b r) = sets_ r /\ encoded_ (freeze_locked b r) = encoded_ r /\ size_ (freeze_locked b r) = size_ r /\
  owners_ (freeze_locked b r) = owners_ r /\ gathered_ (freeze_locked b r) = gathered_ r /\ max_size_ (freeze_locked b r) = max_size_ r /\
  hash_ (freeze_locked b r) = hash_ r /\ hash_dirty_ (freeze_locked b r) = hash_dirty_ r.
Proof. unfold freeze_locked. by repeat case_match. Qed.

(** Once the document is held, nothing but the round bookkeeping decides what is shown. *)
Lemma pinned_keeps r r' : pinned r -> rounds_ r' = rounds_ r -> frozen_ r' = frozen_ r -> keeps r r'.
Proof.
  intros P R F. split_and!; [done|by rewrite F|]. intros N. specialize (P N). unfold shown. rewrite F.
  destruct (frozen_ r) as [[fc [t|] fr fh]|]; try done. destruct P; done.
Qed.
Lemma pinned_frozen r r' : rounds_ r' = rounds_ r -> frozen_ r' = frozen_ r -> pinned r -> pinned r'.
Proof. unfold pinned. intros -> ->. done. Qed.

(** ** The hash *)

(** A digest that is kept is the digest of the document; without OpenSSL there is none. *)
Definition live_hash (r : fact_repository) : Prop := hash_dirty_ r = false -> has_openssl = true /\ hash_ r = sha256_hex (document r).
Definition no_hash (r : fact_repository) : Prop := has_openssl = false -> hash_ r = [].
Definition held_hash (r : fact_repository) : Prop :=
  match frozen_ r with
  | None => True
  | Some s =>
      f_hash s = [] \/ (has_openssl = true /\ match f_json s with Some text => f_hash s = sha256_hex text | None => False end)
  end.
(** Inside a method, between two erasures. *)
Definition mid_hash (r : fact_repository) : Prop := no_hash r /\ held_hash r /\ (pinned r \/ live_hash r).
Definition hashed (r : fact_repository) : Prop := no_hash r /\ held_hash r /\ live_hash r.

Lemma document_sets r r' : sets_ r' = sets_ r -> document r' = document r.
Proof. unfold document. by intros ->. Qed.

Lemma freeze_hash b r : mid_hash r -> mid_hash (freeze_locked b r).
Proof.
  intros (N & K & P). pose proof (freeze_fields b r) as (Es & _ & _ & _ & _ & _ & Eh & Ed).
  unfold mid_hash, no_hash, live_hash in *. rewrite Eh, Ed, (document_sets _ _ Es). split_and!; [done| |].
  - unfold held_hash, freeze_locked, pinned in *. destruct (Z.eqb_spec (rounds_ r) 0); [done|].
    destruct (frozen_ r) as [[fc [t|] fr fh]|]; destruct b; simpl in *; try tauto;
      destruct (hash_dirty_ r); simpl; try tauto;
      (destruct P as [P|P]; [by destruct (P n)|]); right; by apply P.
  - destruct P as [P|P]; [left|by right]. unfold pinned, freeze_locked in *.
    destruct (Z.eqb_spec (rounds_ r) 0); [done|]. specialize (P n).
    destruct (frozen_ r) as [[fc [t|] fr fh]|]; destruct b; simpl; eauto; done.
Qed.

Definition erased (c : bool) (r r' : fact_repository) : Prop :=
  keeps r r' /\ (mid_hash r -> mid_hash r') /\ (pinned r -> pinned r') /\ (c = true -> pinned r') /\
  (c = false -> sets_ r' = sets_ r /\ hash_ r' = hash_ r /\ hash_dirty_ r' = hash_dirty_ r).

Lemma erased_true r r' :
  rounds_ r' = rounds_ r -> frozen_ r' = frozen_ r -> hash_ r' = hash_ r -> pinned r -> mid_hash r -> mid_hash r'.
Proof.
  intros R F Hh P (N & K & _). unfold mid_hash, no_hash, held_hash. rewrite F, Hh. split_and!; [done|done|].
  left. by eapply pinned_frozen.
Qed.

Lemma erase_locked_erased s r : erased (erase_locked s r).1 r (erase_locked s r).2.
Proof.
  unfold erase_locked. set (r0 := with_owners _ r). assert (keeps r r0) as K0 by done.
  change (encoded_ r0) with (encoded_ r). destruct (encoded_ r !! s) as [e|]; simpl; [|by split_and!].
  set (r1 := freeze_locked true r0). pose proof (freeze_pinned r0) as P1. fold r1 in P1.
  set (r2 := with_sets _ _ _ _ _ r1). split_and!; try done.
  - rewrite K0. etransitivity; [apply (freeze_keeps true)|]. by apply pinned_keeps.
  - intros M. apply (erased_true r1); try done. by apply freeze_hash.
Qed.
Lemma erase_locked_found s r : is_Some (encoded_ r !! s) -> (erase_locked s r).1 = true.
Proof. intros [e E]. unfold erase_locked. change (encoded_ (with_owners _ r)) with (encoded_ r). by rewrite E. Qed.
Lemma erase_all_erased l b r : (b = true -> pinned r) -> erased (erase_all l b r).1 r (erase_all l b r).2.
Proof.
  revert b r. induction l as [|s l IH]; intros b r Hb; simpl; [by split_and!|].
  pose proof (erase_locked_erased s r) as E. destruct (erase_locked s r) as [c r1]. simpl in E.
  destruct E as (K & M & P & Pt & Pf). specialize (IH (c || b) r1).
  destruct IH as (K' & M' & P' & Pt' & Pf'). { destruct c, b; simpl; auto; done. }
  split_and!; auto; [by etransitivity|].
  intros Hf. destruct (Pf' Hf) as (-> & -> & ->). apply Pf.
  assert (forall l b r, (erase_all l b r).1 = false -> b = false) as Hm.
  { clear. induction l as [|x l IH]; intros b r; simpl; [done|]. destruct (erase_locked x r) as [c r']. intros Hf.
    apply IH in Hf. by destruct c, b. }
  apply Hm in Hf. by destruct c.
Qed.

(** Closing a method that erased: [touch] when something went. *)
Lemma touch_keeps r : pinned r -> keeps r (touch r).
Proof. intros P. by apply pinned_keeps. Qed.
Lemma touch_hashed r : mid_hash r -> hashed (touch r).
Proof. intros (N & K & _). by split_and!. Qed.
Lemma hashed_mid r : hashed r -> mid_hash r.
Proof. intros (? & ? & ?). split_and!; auto. Qed.
Lemma touch_if_erased c r r' : erased c r r' -> keeps r (touch_if c r') /\ (hashed r -> hashed (touch_if c r')).
Proof.
  intros (K & M & P & Pt & Pf). destruct c; simpl.
  - split; [etransitivity; [done|]; by apply touch_keeps, Pt|]. intros Hh. by apply touch_hashed, M, hashed_mid.
  - split; [done|]. intros Hh. destruct (M (hashed_mid _ Hh)) as (N' & K' & _). destruct Hh as (N & _ & L).
    destruct Pf as (Es & Eh & Ed); [done|]. split_and!; auto. unfold live_hash. by rewrite Ed, Eh, (document_sets _ _ Es).
Qed.

(** ** Every operation *)

(** Outside rounds nothing is held. *)
Definition settled (r : fact_repository) : Prop := 0 <= rounds_ r /\ (rounds_ r = 0 -> frozen_ r = None).

Lemma set_facts_step s p v r : keeps r (set_facts s p v r).2 /\ (hashed r -> hashed (set_facts s p v r).2).
Proof.
  unfold set_facts. destruct (negb (is_valid_key s)); [by split_and!|]. destruct (negb (validate_object v)); [by split_and!|].
  destruct (match owners_ r !! s with Some _ => _ | None => _ end); [by split_and!|].
  destruct (bool_decide _); [by split_and!|]. destruct (_ >? _); [by split_and!|]. set (r1 := freeze_locked true r).
  set (r2 := with_sets _ _ _ _ _ r1). pose proof (freeze_pinned r) as P. fold r1 in P. simpl. split.
  - etransitivity; [apply (freeze_keeps true)|]. by apply pinned_keeps.
  - intros Hh. apply touch_hashed, (erased_true r1); try done. by apply freeze_hash, hashed_mid.
Qed.

Lemma drop_largest_grows n l r : l <> [] -> (drop_largest n l r).1 <> [].
Proof.
  revert l r. induction n as [|n IH]; intros l r Hl; simpl; [done|]. destruct (_ <? _); [|done].
  destruct (largest _); [|done]. apply IH. by destruct l.
Qed.
Lemma drop_largest_erased fuel l r :
  (l <> [] -> pinned r) -> erased (negb (bool_decide ((drop_largest fuel l r).1 = []))) r (drop_largest fuel l r).2.
Proof.
  revert l r. induction fuel as [|fuel IH]; intros l r Hl; simpl.
  { split_and!; try done. intros Hb. apply Hl. by case_bool_decide. }
  assert (erased (negb (bool_decide (l = []))) r r) as Hdone.
  { split_and!; try done. intros Hb. apply Hl. by case_bool_decide. }
  destruct (max_size_ r <? size_ r); [|done]. destruct (largest (encoded_ r)) as [name|] eqn:El; [|done].
  pose proof (erase_locked_erased name r) as E. rewrite (erase_locked_found name r) in E by (by apply largest_in).
  set (r1 := (erase_locked name r).2) in *. set (r2 := with_notes _ _ _ r1). destruct E as (K & M & P & Pt & Pf).
  assert (pinned r2) as P2 by by apply Pt.
  destruct (IH (l ++ [name]) r2 (fun _ => P2)) as (K' & M' & P' & Pt' & Pf'). split_and!; auto.
  - etransitivity; [exact K|]. etransitivity; [|exact K']. by apply pinned_keeps; [apply Pt| |].
  - intros Hf. exfalso. apply (drop_largest_grows fuel (l ++ [name]) r2); [by destruct l|]. by case_bool_decide.
Qed.
Lemma set_max_size_step m r : keeps r (set_max_size m r).2 /\ (hashed r -> hashed (set_max_size m r).2).
Proof.
  unfold set_max_size. destruct (m <? min_max_size); [by split|]. set (r1 := with_notes _ _ _ r).
  pose proof (drop_largest_erased (size (encoded_ r1)) [] r1 ltac:(done)) as E.
  destruct (drop_largest _ [] r1) as [l r2]. simpl in *. apply touch_if_erased in E.
  by destruct (bool_decide (l = [])).
Qed.

Lemma remove_step s r : keeps r (remove s r).2 /\ (hashed r -> hashed (remove s r).2).
Proof.
  unfold remove. pose proof (erase_locked_erased s r) as E. destruct (erase_locked s r) as [c r1].
  apply touch_if_erased in E. by destruct c.
Qed.
Lemma erase_owned_step l r :
  let '(c, r') := erase_all l false r in keeps r (touch_if c r') /\ (hashed r -> hashed (touch_if c r')).
Proof.
  pose proof (erase_all_erased l false r ltac:(done)) as E. destruct (erase_all l false r) as [c r']. by apply touch_if_erased.
Qed.
Lemma remove_owned_by_step p r : keeps r (remove_owned_by p r) /\ (hashed r -> hashed (remove_owned_by p r)).
Proof.
  unfold remove_owned_by. set (r0 := with_notes _ _ _ r). pose proof (erase_owned_step (owned_by p (fun _ => false) r0) r0) as E.
  by destruct (erase_all _ false r0).
Qed.
Lemma retain_only_step p l r : keeps r (retain_only p l r) /\ (hashed r -> hashed (retain_only p l r)).
Proof.
  unfold retain_only. set (r0 := with_notes _ _ _ r). pose proof (erase_owned_step (owned_by p (mentions l) r0) r0) as E.
  by destruct (erase_all _ false r0).
Qed.

Lemma mark_collected_step t r : keeps r (mark_collected t r) /\ (hashed r -> hashed (mark_collected t r)).
Proof.
  unfold mark_collected. destruct (bool_decide _); [by split|]. set (r1 := freeze_locked false r). set (r2 := mkFacts _ _ _ _ _ _ _ _ _ _ _ _ _ _).
  pose proof (freeze_fields false r) as (Es & _ & _ & _ & _ & _ & Eh & Ed). fold r1 in Es, Eh, Ed. split.
  - etransitivity; [apply (freeze_keeps false)|]. fold r1. split_and!; [done|done|]. intros N. unfold shown.
    assert (frozen_ r1 <> None) as Hn.
    { unfold r1, freeze_locked in *. destruct (Z.eqb_spec (rounds_ r) 0); [done|].
      destruct (frozen_ r) as [[fc [x|] fr fh]|]; done. }
    unfold r2 at 1. simpl. by destruct (frozen_ r1).
  - intros Hh. destruct (freeze_hash false r (hashed_mid _ Hh)) as (N & K & _). fold r1 in N, K. destruct Hh as (_ & _ & L).
    split_and!; [done|done|]. unfold live_hash. change (hash_dirty_ r2) with (hash_dirty_ r1). change (hash_ r2) with (hash_ r1).
    change (document r2) with (document r1). by rewrite Ed, Eh, (document_sets _ _ Es).
Qed.
Lemma mark_gathered_step s t r : keeps r (mark_gathered s t r) /\ (hashed r -> hashed (mark_gathered s t r)).
Proof. unfold mark_gathered. by destruct (sets_ r !! s). Qed.

(** A hash that is handed out for a document. *)
Definition hash_of (text h : cppstring) : Prop :=
  h = [] \/ (has_openssl = true /\ h = sha256_hex text).
Definition sure_hash (ok : bool) (text h : cppstring) : Prop := has_openssl = true -> ok = true -> h = sha256_hex text.

Lemma hash_locked_step ok r :
  let '(h, r') := hash_locked ok (document r) r in
  keeps r r' /\ (hashed r -> hashed r' /\ hash_of (document r) h /\ sure_hash ok (document r) h).
Proof.
  unfold hash_locked, hash_of, sure_hash. destruct has_openssl eqn:O; simpl; [|split; [done|]; intros; split_and!; auto; done].
  destruct (hash_dirty_ r) eqn:D; simpl.
  - unfold digest. rewrite O. simpl. destruct ok; simpl.
    + destruct (bool_decide_reflect (sha256_hex (document r) = [])); [split; [done|tauto]|]. split; [done|].
      intros (N & K & L). split; [|tauto]. split_and!; [|done|done]. unfold no_hash. congruence.
    + split; [done|]. intros Hh. split_and!; auto. done.
  - split; [done|]. intros (N & K & L). destruct (L D) as [_ E]. split_and!; auto. by split_and!.
Qed.

(** The hash and the snapshot of a reader agree with what it is shown. *)
Lemma get_hash_step ok r :
  keeps r (get_hash ok r).2 /\
  (hashed r -> hashed (get_hash ok r).2 /\ hash_of (p_json (shown r)) (get_hash ok r).1 /\ sure_hash ok (p_json (shown r)) (get_hash ok r).1).
Proof.
  unfold get_hash, shown, frozen_hash_locked. pose proof (hash_locked_step ok r) as L.
  assert (hash_dirty_ r = false \/ has_openssl = false -> hashed r -> hashed r /\ hash_of (document r) (hash_ r) /\ sure_hash ok (document r) (hash_ r)) as Q.
  { intros C Hh. split; [done|]. destruct Hh as (N & _ & L'). unfold hash_of, sure_hash. destruct C as [C|C].
    - destruct (L' C). auto.
    - rewrite (N C). split; [auto|congruence]. }
  destruct (frozen_ r) as [[fc [t|] fr fh]|] eqn:F; simpl.
  - set (h := if bool_decide (fh = []) && has_openssl then digest ok t else fh). split.
    + split_and!; [done|by rewrite F|]. intros _. unfold shown. by rewrite F.
    + intros (N & K & L'). unfold held_hash in K. rewrite F in K. simpl in K.
      assert (hash_of t h /\ sure_hash ok t h) as [H1' H2'].
      { unfold h, hash_of, sure_hash, digest. destruct (bool_decide_reflect (fh = [])) as [->|]; simpl.
        - destruct has_openssl, ok; simpl; auto; split; auto; done.
        - destruct K as [|[O E]]; [done|]. auto. }
      split_and!; auto. split_and!; [done| |done]. unfold held_hash. simpl. exact H1'.
  - destruct has_openssl eqn:O, (hash_dirty_ r) eqn:D; simpl; try (split; [done|]; apply Q; auto).
    destruct (hash_locked ok (document r) r). simpl. apply L.
  - destruct has_openssl eqn:O, (hash_dirty_ r) eqn:D; simpl; try (split; [done|]; apply Q; auto).
    destruct (hash_locked ok (document r) r). simpl. apply L.
Qed.
Lemma get_snapshot_step ok r :
  keeps r (get_snapshot ok r).2 /\
  let s := (get_snapshot ok r).1 in
  mkPublished (json s) (revision s) (collected s) = shown r /\
  (hashed r -> hashed (get_snapshot ok r).2 /\ hash_of (json s) (hash s) /\ sure_hash ok (json s) (hash s)).
Proof.
  unfold get_snapshot, frozen_snapshot_locked, build_snapshot_locked. pose proof (hash_locked_step ok r) as L.
  pose proof (get_hash_step ok r) as G. unfold get_hash, shown in *.
  destruct (frozen_ r) as [[fc [t|] fr fh]|] eqn:F; simpl in *.
  - destruct G as [G1 G2]. split; [exact G1|]. split; [done|]. exact G2.
  - destruct (hash_locked ok (document r) r) as [h r']. simpl. tauto.
  - destruct (hash_locked ok (document r) r) as [h r']. simpl. tauto.
Qed.

Definition moves_round (o : operation) : bool := match o with OBeginRound | OEndRound => true | _ => false end.
Lemma perform_step o r : moves_round o = false -> keeps r (perform o r) /\ (hashed r -> hashed (perform o r)).
Proof.
  destruct o; intros M; simpl; try done;
    auto using set_facts_step, remove_step, remove_owned_by_step, retain_only_step, mark_collected_step, mark_gathered_step, set_max_size_step.
  - destruct (get_hash_step ok r) as [? L]. split; [done|]. by intros [? _]%L.
  - destruct (get_snapshot_step ok r) as (? & _ & L). split; [done|]. by intros [? _]%L.
Qed.

(** The simulation: below 2^32 rounds, what is shown is what was published. *)
Definition simulates (r : fact_repository) (p : published) : Prop :=
  hashed r /\ shown r = p /\ 0 <= rounds_ r /\ (rounds_ r = 0 -> frozen_ r = None).
Lemma with_rounds_hashed n f r : f = None \/ f = frozen_ r -> hashed r -> hashed (with_rounds n f r).
Proof. intros C (N & K & L). split_and!; [done| |done]. unfold held_hash. simpl. by destruct C as [-> | ->]. Qed.
Lemma perform_simulates o r p :
  rounds_ r < 2 ^ 32 - 1 -> simulates r p ->
  let r' := perform o r in simulates r' (publish r' p) /\ rounds_ r' <= rounds_ r + 1.
Proof.
  intros B (Hh & Hs & Hr & Hf). destruct (moves_round o) eqn:M.
  - destruct o; try done; simpl; unfold simulates, publish.
    + unfold begin_round. rewrite wrap_u_id by (unfold in_u; lia). simpl. rewrite (proj2 (Z.eqb_neq _ _)) by lia.
      split; [|lia]. split; [by apply with_rounds_hashed; auto|]. split; [done|lia].
    + unfold end_round. destruct (Z.eqb_spec (rounds_ r) 0) as [Z0|N0].
      * rewrite Z0. simpl. split; [|lia]. split; [done|]. unfold shown. rewrite Hf by done. split; [done|by split].
      * simpl. destruct (Z.eqb_spec (rounds_ r - 1) 0); simpl; (split; [|lia]);
          (split; [by apply with_rounds_hashed; auto|]); (split; [done|]); (split; [lia|]); done || lia.
  - destruct (perform_step o r M) as [(K1 & K2 & K3) Hh']. simpl. set (r' := perform o r) in *. unfold publish.
    split; [|lia]. split; [auto|]. destruct (Z.eqb_spec (rounds_ r') 0) as [Z0|N0].
    + assert (frozen_ r' = None) as E by (apply K2; [congruence|apply Hf; congruence]). unfold shown. rewrite E. repeat split; lia || done.
    + rewrite K3 by congruence. repeat split; lia || done.
Qed.
Lemma run_simulates ops r p :
  rounds_ r + zlength ops < 2 ^ 32 -> simulates r p -> simulates (run ops r p).1 (run ops r p).2.
Proof.
  revert r p. induction ops as [|o ops IH]; intros r p B S; simpl; [done|]. rewrite zlength_cons in B.
  pose proof (zlength_nonneg ops). destruct (perform_simulates o r p) as [S' B']; [lia|done|]. apply IH; [lia|done].
Qed.
Lemma new_simulates : simulates new_facts (live new_facts).
Proof. by split_and!. Qed.

(** C12. After any sequence of fewer than 2^32 calls, a reader of the snapshot is served the
    document, revision and collection time as they were when last no round was running, whatever
    the rounds in progress stored or dropped since; the hash that comes with it is empty or the
    digest of exactly those bytes, and it is the digest, equal to what get_hash answers,
    whenever OpenSSL works. *)
Theorem snapshot_is_last_complete_round (ops : list operation) (ok : bool) :
  zlength ops < 2 ^ 32 ->
  let '(r, p) := run ops new_facts (live new_facts) in
  let s := (get_snapshot ok r).1 in
  json s = p_json p /\ revision s = p_revision p /\ collected s = p_collected p /\
  (hash s = [] \/ (has_openssl = true /\ hash s = sha256_hex (json s))) /\
  (has_openssl = true -> ok = true -> hash s = sha256_hex (json s) /\ (get_hash ok r).1 = hash s).
Proof.
  intros B. pose proof (run_simulates ops new_facts (live new_facts) ltac:(simpl; lia) new_simulates) as S.
  destruct (run ops new_facts _) as [r p]. simpl in S. destruct S as (Hh & <- & _).
  destruct (get_snapshot_step ok r) as (_ & E & Q). destruct (get_hash_step ok r) as (_ & G).
  destruct (Q Hh) as (_ & Q1 & Q2), (G Hh) as (_ & _ & G2). unfold hash_of, sure_hash in *. rewrite <-E in *. simpl in *.
  split_and!; auto. intros A C. split; [by apply Q2|]. rewrite Q2, G2; done.
Qed.

(** ** What is stored *)

Definition total (m : gmap cppstring cppstring) : Z := map_fold (fun _ e n => zlength e + n) 0 m.
Lemma total_insert k e m : m !! k = None -> total (<[k := e]> m) = zlength e + total m.
Proof. intros N. unfold total. rewrite map_fold_insert_L; [done| |done]. intros. lia. Qed.
Lemma total_delete k e m : m !! k = Some e -> total m = zlength e + total (delete k m).
Proof. intros E. rewrite <-(total_insert k) by apply lookup_delete_eq. by rewrite insert_delete_id. Qed.
Lemma total_nonneg m : 0 <= total m.
Proof. unfold total. apply (map_fold_weak_ind (fun n _ => 0 <= n)); [lia|]. intros k e m' n _ I. pose proof (zlength_nonneg e). lia. Qed.

(** A set that the document rules admit, in its sorted form. *)
Definition admitted (name : cppstring) (o : Object) : Prop := is_valid_key name = true /\ exists v, validate_object v = true /\ o = sort_fields v.
Record sound (r : fact_repository) : Prop := {
  sound_encoded : encoded_ r = serialize <$> sets_ r;
  sound_size : size_ r = total (encoded_ r);
  sound_owners : dom (owners_ r) = dom (sets_ r);
  sound_gathered : dom (gathered_ r) ⊆ dom (sets_ r);
  sound_sets : map_Forall admitted (sets_ r)
}.
Definition fits (r : fact_repository) : Prop := size_ r <= max_size_ r.

Lemma sound_same r r' :
  sets_ r' = sets_ r -> encoded_ r' = encoded_ r -> size_ r' = size_ r -> owners_ r' = owners_ r -> gathered_ r' = gathered_ r ->
  sound r -> sound r'.
Proof. intros E1 E2 E3 E4 E5 []. by split; rewrite ?E1, ?E2, ?E3, ?E4, ?E5. Qed.
Lemma freeze_sound b r : sound r -> sound (freeze_locked b r).
Proof. pose proof (freeze_fields b r) as (E1 & E2 & E3 & E4 & E5 & _). by apply sound_same. Qed.

Lemma erase_locked_sound s r : sound r -> sound (erase_locked s r).2 /\ size_ (erase_locked s r).2 <= size_ r /\ max_size_ (erase_locked s r).2 = max_size_ r.
Proof.
  intros W. unfold erase_locked. set (r0 := with_owners _ r). change (encoded_ r0) with (encoded_ r).
  pose proof (freeze_fields true r0) as (E1 & E2 & E3 & E4 & E5 & E6 & _).
  change (sets_ r0) with (sets_ r) in E1. change (encoded_ r0) with (encoded_ r) in E2. change (size_ r0) with (size_ r) in E3.
  change (owners_ r0) with (delete s (owners_ r)) in E4. change (gathered_ r0) with (gathered_ r) in E5. change (max_size_ r0) with (max_size_ r) in E6.
  destruct W as [We Wz Wo Wg Ws]. destruct (encoded_ r !! s) as [e|] eqn:Es; simpl.
  - pose proof (total_delete s e _ Es) as T. pose proof (zlength_nonneg e). rewrite E3, E6. split; [|lia].
    split; simpl; rewrite ?E1, ?E2, ?E3, ?E4, ?E5.
    + by rewrite We, fmap_delete.
    + lia.
    + rewrite !dom_delete_L. by rewrite Wo.
    + rewrite !dom_delete_L. set_solver.
    + by apply map_Forall_delete.
  - split; [|done]. split; simpl; try done. rewrite dom_delete_L, Wo.
    assert (s ∉ dom (sets_ r)); [|set_solver]. rewrite not_elem_of_dom. rewrite We, lookup_fmap in Es. by destruct (sets_ r !! s).
Qed.
Lemma erase_all_sound l b r : sound r -> sound (erase_all l b r).2 /\ size_ (erase_all l b r).2 <= size_ r /\ max_size_ (erase_all l b r).2 = max_size_ r.
Proof.
  revert b r. induction l as [|s l IH]; intros b r W; simpl; [split; [done|lia]|].
  pose proof (erase_locked_sound s r W) as (W' & S' & M'). destruct (erase_locked s r) as [c r1]. simpl in *.
  destruct (IH (c || b) r1 W') as (? & ? & ?). split; [done|]. split; [lia|congruence].
Qed.
Lemma touch_if_sound c r : sound r -> sound (touch_if c r) /\ size_ (touch_if c r) = size_ r /\ max_size_ (touch_if c r) = max_size_ r.
Proof. intros W. destruct c; [|done]. split; [by apply (sound_same r)|done]. Qed.

Lemma set_facts_sound s p v r :
  sound r -> fits r ->
  let r' := (set_facts s p v r).2 in sound r' /\ fits r' /\ max_size_ r' = max_size_ r.
Proof.
  intros W F. unfold set_facts. destruct (is_valid_key s) eqn:Ks; [simpl|done]. destruct (validate_object v) eqn:Vv; [simpl|done].
  destruct (match owners_ r !! s with Some _ => _ | None => _ end); [done|].
  case_bool_decide as U.
  - split; [|done]. destruct W as [We Wz Wo Wg Ws]. split; simpl; try done. rewrite dom_insert_L, Wo.
    assert (s ∈ dom (sets_ r)); [|set_solver]. apply elem_of_dom. rewrite We, lookup_fmap in U. by destruct (sets_ r !! s).
  - destruct (_ >? _) eqn:B; [done|]. rewrite Z.gtb_ltb in B. apply Z.ltb_ge in B. simpl.
    pose proof (freeze_fields true r) as (E1 & E2 & E3 & E4 & E5 & E6 & _). unfold fits. simpl. rewrite E6. split; [|done].
    destruct W as [We Wz Wo Wg Ws]. split; simpl; rewrite ?E1, ?E2, ?E3, ?E4, ?E5.
    + by rewrite We, fmap_insert.
    + destruct (encoded_ r !! s) as [e|] eqn:Es.
      * rewrite <-insert_delete_eq, total_insert by apply lookup_delete_eq. pose proof (total_delete s e _ Es). lia.
      * rewrite total_insert by done. lia.
    + rewrite !dom_insert_L. by rewrite Wo.
    + rewrite dom_insert_L. set_solver.
    + apply map_Forall_insert_2; [|done]. split; [done|]. by exists v.
Qed.

(** Dropping ends with a document that fits. *)
Lemma largest_none m : largest m = None -> m = ∅.
Proof.
  unfold largest. destruct (sort_by_key (map_to_list m)) eqn:E; [|done]. intros _. apply map_to_list_empty_iff.
  apply Permutation_nil_r. by rewrite <-E, sort_by_key_perm.
Qed.
Lemma erase_locked_smaller s r : is_Some (encoded_ r !! s) -> size (encoded_ (erase_locked s r).2) = pred (size (encoded_ r)).
Proof.
  intros [e E]. unfold erase_locked. change (encoded_ (with_owners _ r)) with (encoded_ r). rewrite E. simpl.
  pose proof (freeze_fields true (with_owners (delete s (owners_ r)) r)) as (_ & E2 & _). rewrite E2. simpl.
  by apply map_size_delete_Some.
Qed.
Lemma drop_largest_sound fuel l r :
  0 <= max_size_ r -> (size (encoded_ r) <= fuel)%nat -> sound r ->
  let r' := (drop_largest fuel l r).2 in sound r' /\ fits r' /\ max_size_ r' = max_size_ r.
Proof.
  revert l r. induction fuel as [|fuel IH]; intros l r P F W; simpl.
  - split; [done|]. split; [|done]. unfold fits. rewrite (sound_size _ W).
    assert (encoded_ r = ∅) as -> by (apply map_size_empty_iff; lia). done.
  - destruct (Z.ltb_spec (max_size_ r) (size_ r)) as [B|B]; [|by split_and!].
    destruct (largest (encoded_ r)) as [name|] eqn:L.
    + apply largest_in in L. destruct (erase_locked_sound name r W) as (W' & _ & M').
      pose proof (erase_locked_smaller name r L). set (r1 := (erase_locked name r).2) in *. set (r2 := with_notes _ _ _ r1).
      assert (0 < size (encoded_ r))%nat. { destruct L as [e L]. apply Nat.neq_0_lt_0. intros E%map_size_empty_iff. by rewrite E in L. }
      destruct (IH (l ++ [name]) r2) as (A & B' & C).
      * simpl. lia.
      * change (encoded_ r2) with (encoded_ r1). lia.
      * by apply (sound_same r1).
      * split; [done|]. split; [done|]. rewrite C. exact M'.
    + split; [done|]. split; [|done]. unfold fits. simpl. rewrite (sound_size _ W), (largest_none _ L). done.
Qed.

Definition within (r : fact_repository) : Prop := sound r /\ fits r /\ min_max_size <= max_size_ r.
Lemma within_same r r' :
  sets_ r' = sets_ r -> encoded_ r' = encoded_ r -> size_ r' = size_ r -> owners_ r' = owners_ r -> gathered_ r' = gathered_ r ->
  max_size_ r' = max_size_ r -> within r -> within r'.
Proof. intros E1 E2 E3 E4 E5 E6 (W & F & M). unfold within, fits. rewrite E3, E6. split; [|done]. by apply (sound_same r). Qed.
Lemma erase_within l r :
  within r -> let '(c, r') := erase_all l false r in within (touch_if c r').
Proof.
  intros (W & F & M). destruct (erase_all_sound l false r W) as (W' & S' & M'). destruct (erase_all l false r) as [c r']. simpl in *.
  destruct (touch_if_sound c r' W') as (W'' & S'' & M''). split; [done|]. unfold fits in *. rewrite S'', M'', M'. split; [lia|done].
Qed.
Lemma query_within ok r : within r -> within (get_hash ok r).2 /\ within (get_snapshot ok r).2.
Proof.
  intros W. assert (forall r' : fact_repository, sets_ r' = sets_ r /\ encoded_ r' = encoded_ r /\ size_ r' = size_ r /\ owners_ r' = owners_ r /\
    gathered_ r' = gathered_ r /\ max_size_ r' = max_size_ r -> within r') as Q.
  { intros r' (? & ? & ? & ? & ? & ?). by apply (within_same r). }
  split; apply Q; unfold get_hash, get_snapshot, frozen_snapshot_locked, frozen_hash_locked, build_snapshot_locked, hash_locked;
    repeat (case_match; simplify_eq/=; try done).
Qed.

Lemma perform_within o r : within r -> within (perform o r).
Proof.
  intros W. pose proof W as (S & F & M). destruct o; simpl.
  - destruct (set_facts_sound fact_set plugin_id value r S F) as (? & ? & E). split; [done|]. split; [done|]. by rewrite E.
  - pose proof (erase_within [fact_set] r W) as E. unfold remove. simpl in E. destruct (erase_locked fact_set r) as [[] r1]; done.
  - unfold remove_owned_by. set (r0 := with_notes _ _ _ r).
    pose proof (erase_within (owned_by plugin_id (fun _ => false) r0) r0) as E. destruct (erase_all _ false r0). apply E.
    by apply (within_same r).
  - unfold retain_only. set (r0 := with_notes _ _ _ r).
    pose proof (erase_within (owned_by plugin_id (mentions produced) r0) r0) as E. destruct (erase_all _ false r0). apply E.
    by apply (within_same r).
  - by apply (within_same r).
  - unfold end_round. destruct (rounds_ r =? 0); [done|]. by apply (within_same r).
  - unfold mark_collected. destruct (bool_decide _); [done|]. pose proof (freeze_fields false r) as (? & ? & ? & ? & ? & ? & _).
    by apply (within_same r).
  - unfold mark_gathered. destruct (sets_ r !! fact_set) eqn:E; [|done]. split; [|done]. destruct S as [We Wz Wo Wg Ws]. split; simpl; try done.
    apply elem_of_dom_2 in E. destruct (bool_decide _); rewrite ?dom_delete_L, ?dom_insert_L; set_solver.
  - by apply (within_same r).
  - unfold set_max_size. destruct (Z.ltb_spec max_size min_max_size); [done|]. set (r0 := with_notes _ _ _ r).
    pose proof (drop_largest_sound (size (encoded_ r0)) [] r0) as D. destruct (drop_largest _ [] r0) as [l r1]. simpl in *.
    destruct D as (S1 & F1 & M1); [lia || (unfold min_max_size in *; lia)|done|by apply (sound_same r)|].
    assert (within r1) by (split; [done|]; split; [done|]; by rewrite M1). destruct (bool_decide _); [done|]. by apply (within_same r1).
  - by apply query_within.
  - by apply query_within.
Qed.
Lemma run_within ops r p : within r -> within (run ops r p).1.
Proof. revert r p. induction ops as [|o ops IH]; intros r p W; simpl; [done|]. by apply IH, perform_within. Qed.

(** After any sequence of calls the stored encodings are those of the stored sets, their total
    is the size the budget is checked against and it is within the budget (a lowered budget
    included, whose loop ends), each set has an owner and only sets have owners and gathered
    times, and every set is the sorted form of a value that obeys the document rules. *)
Theorem repository_invariant (ops : list operation) :
  let r := (run ops new_facts (live new_facts)).1 in
  encoded_ r = serialize <$> sets_ r /\ size_ r = total (encoded_ r) /\ size_ r <= max_size_ r /\
  dom (owners_ r) = dom (sets_ r) /\ dom (gathered_ r) ⊆ dom (sets_ r) /\
  forall name o, sets_ r !! name = Some o -> is_valid_key name = true /\ exists v, validate_object v = true /\ o = sort_fields v.
Proof.
  destruct (run_within ops new_facts (live new_facts)) as ([] & F & _); [|by split_and!].
  split; [|done]. split; try done.
Qed.

(** ** Field order does not matter *)

(** Two values that differ in the order of the fields of their objects. *)
Inductive reordered : Value -> Value -> Prop :=
| ro_refl v : reordered v v
| ro_trans u v w : reordered u v -> reordered v w -> reordered u w
| ro_fields a b : NoDup a.*1 -> a ≡ₚ b -> reordered (VObject a) (VObject b)
| ro_field a k v w b : reordered v w -> reordered (VObject (a ++ (k, v) :: b)) (VObject (a ++ (k, w) :: b))
| ro_record a x y b : reordered (VObject x) (VObject y) -> reordered (VList (a ++ VObject x :: b)) (VList (a ++ VObject y :: b)).

Lemma reordered_sorts v w : reordered v w -> sort_value v = sort_value w.
Proof.
  induction 1 as [v|u v w _ IH1 _ IH2|a b N P|a k v w b _ IH|a x y b _ IH]; simpl.
  - done.
  - congruence.
  - f_equal. apply sort_by_key_canonical; [|by rewrite P]. rewrite <-list_fmap_compose. done.
  - do 2 f_equal. rewrite !map_app. simpl. by rewrite IH.
  - simpl in IH. rewrite !map_app. simpl. by rewrite IH.
Qed.

Lemma set_facts_stored s p v r :
  (set_facts s p v r).1 <> rejected ->
  let r' := (set_facts s p v r).2 in
  is_valid_key s = true /\ owners_ r' !! s = Some p /\ encoded_ r' !! s = Some (serialize (sort_fields v)).
Proof.
  unfold set_facts. destruct (is_valid_key s); [simpl|done]. destruct (validate_object v); [simpl|done].
  destruct (match owners_ r !! s with Some _ => _ | None => _ end); [done|].
  case_bool_decide as U; [by simpl; rewrite lookup_insert_eq|]. destruct (_ >? _); [done|]. simpl. by rewrite !lookup_insert_eq.
Qed.

(** Offering a set again with the fields of its objects in another order, at any depth, changes
    nothing and is reported as unchanged. *)
Theorem reordered_set_is_unchanged (s : cppstring) (p : Z) (v w : Object) (r : fact_repository) :
  (set_facts s p v r).1 <> rejected -> reordered (VObject v) (VObject w) -> validate_object w = true ->
  let r' := (set_facts s p v r).2 in set_facts s p w r' = (unchanged, r').
Proof.
  intros A R V. destruct (set_facts_stored s p v r A) as (K & O & E). set (r' := (set_facts s p v r).2) in *.
  unfold set_facts. rewrite K, V, O, Z.eqb_refl. simpl. apply reordered_sorts in R. simpl in R.
  assert (sort_fields v = sort_fields w) as <- by (by injection R). rewrite E, bool_decide_eq_true_2 by done. f_equal.
  unfold with_owners, with_sets. rewrite insert_id by done. by destruct r'.
Qed.
End Repository.

(** ** Witnesses *)

Module Demo.
#[local] Instance demo_runtime : runtime := {|
  double := Z; print_double := fun _ z => show z; read_double := fun _ => None; double_eqb := Z.eqb;
  has_openssl := true; sha256_hex := fun text => str "sha:" ++ show (zlength text) |}.
#[local] Instance demo_protobuf : protobuf := to_json.

Definition os : Object := [(str "name", VString (str "linux")); (str "cpus", VInt 4)].
Definition os' : Object := [(str "cpus", VInt 4); (str "name", VString (str "linux"))].
Definition mid_round : list operation :=
  [OSet (str "os") 1 os; OMarkCollected (str "t1"); OBeginRound; OSet (str "os") 1 []; OMarkCollected (str "t2")].

Lemma snapshot_witness :
  let r := (run mid_round new_facts (live new_facts)).1 in
  collected_ r = str "t2" /\
  json (get_snapshot true r).1 = document (perform (OSet (str "os") 1 os) new_facts) /\ collected (get_snapshot true r).1 = str "t1".
Proof.
  assert (p_json (run mid_round new_facts (live new_facts)).2 = document (perform (OSet (str "os") 1 os) new_facts)) as E1 by (vm_compute; reflexivity).
  assert (p_collected (run mid_round new_facts (live new_facts)).2 = str "t1") as E2 by (vm_compute; reflexivity).
  assert (collected_ (run mid_round new_facts (live new_facts)).1 = str "t2") as E3 by (vm_compute; reflexivity).
  pose proof (snapshot_is_last_complete_round mid_round true ltac:(reflexivity)) as S.
  destruct (run mid_round new_facts (live new_facts)) as [r p]. destruct S as (S1 & _ & S3 & _). cbv zeta.
  change ((r, p).1) with r in *. change ((r, p).2) with p in *. by rewrite S1, S3.
Defined.

Lemma reordered_witness :
  let r' := (set_facts (str "os") 1 os new_facts).2 in set_facts (str "os") 1 os' r' = (unchanged, r').
Proof.
  apply (reordered_set_is_unchanged (str "os") 1 os os' new_facts); [by vm_compute| |by vm_compute].
  apply ro_fields; [|by apply Permutation_swap]. apply NoDup_cons; split; [by rewrite list_elem_of_singleton|apply NoDup_singleton].
Defined.
End Demo.
