(* ===== verification/Samples.v ===== *)
(** The sample stores of the collectors: the round-robin buffer of include/rrd_buffer.hpp,
    the readiness tracker of include/sampling_state.hpp, the windows of
    include/time_windows.hpp and the trend ring of include/trend/trend_buffer.hpp.

    The sample type of the round-robin buffer is the interface [sample_type], the doubles of
    the regression the interface [real].  Times and values are integers: the code adds only
    times and intervals, far from the ends of their range, except while it reads a stored row,
    where it tests for the overflow and the model does too. *)

From stdpp Require Import base list gmap strings sorting.
From Stdlib Require Import Ascii ZArith QArith Lia Lqa.
From Stdlib Require String.
From S2P Require Import Prelude Strings Format.
Import String.StringSyntax.

Local Open Scope Z_scope.

(** ** The round-robin buffer *)

(** A value-initialised sample, [add] and [normalize] by a count. *)
Class sample_type := {
  value_type : Type;
  blank : value_type;
  add : value_type -> value_type -> value_type;
  normalize : value_type -> Z -> value_type
}.

Inductive rrd_error := SizeLargerThanBuffer.

Section Rrd.
Context `{sample_type}.

Record rrd_buffer := mkRrd {
  seconds : list value_type; minutes : list value_type; hours : list value_type;
  second_counter : Z; minute_counter : Z; sample_count : Z
}.
Definition new_rrd : rrd_buffer := mkRrd (replicate 60 blank) (replicate 60 blank) (replicate 24 blank) 0 0 0.

(** [circular_buffer::push_back] on a full ring *)
Definition push_back {A} (l : list A) (x : A) : list A := drop 1 l ++ [x].
(** The elements from [end() - n] on. *)
Definition latest {A} (n : nat) (l : list A) : list A := drop (length l - n) l.

Definition average (l : list value_type) (n : Z) : value_type := normalize (fold_left add l blank) n.
Definition calculate_avg (buffer : list value_type) : value_type := average buffer (zlength buffer).

Definition has_data (b : rrd_buffer) : bool := 0 <? sample_count b.
Definition sampled_seconds (b : rrd_buffer) : Z := sample_count b.

Definition get_average (time : Z) (b : rrd_buffer) : result rrd_error value_type :=
  if time <? 0 then Ok blank else
  let time := if time =? 0 then 1 else time in
  if zlength (hours b) * 60 * 60 <=? time then Throw SizeLargerThanBuffer else
  if sample_count b =? 0 then Ok blank else
  let time := if sample_count b <? time then sample_count b else time in
  if time <=? zlength (seconds b) then Ok (average (latest (Z.to_nat time) (seconds b)) time) else
  let time := time / 60 in
  if time <=? zlength (minutes b) then Ok (average (latest (Z.to_nat time) (minutes b)) time) else
  let time := time / 60 in
  Ok (average (latest (Z.to_nat time) (hours b)) time).

Definition push (value : value_type) (b : rrd_buffer) : rrd_buffer :=
  let count := if sample_count b <? zlength (hours b) * 60 * 60 then sample_count b + 1 else sample_count b in
  let seconds' := push_back (seconds b) value in
  if 59 <=? second_counter b then
    let minutes' := push_back (minutes b) (calculate_avg seconds') in
    if 59 <=? minute_counter b then mkRrd seconds' minutes' (push_back (hours b) (calculate_avg minutes')) 0 0 count
    else mkRrd seconds' minutes' (hours b) 0 (minute_counter b + 1) count
  else mkRrd seconds' (minutes b) (hours b) (second_counter b + 1) (minute_counter b) count.
Definition pushes (h : list value_type) : rrd_buffer := fold_left (fun b v => push v b) h new_rrd.
End Rrd.

(** ** Readiness *)

Inductive readiness := ready | warming_up | failed.
Record status := mkStatus { state : readiness; error : cppstring; recovering : bool }.
Record tracker := mkTracker { attempts : Z; consecutive_failures : Z; last_error : cppstring; baseline_pending : bool }.
Definition new_tracker : tracker := mkTracker 0 0 [] false.
Definition stale_after : Z := 5.

Definition tracker_succeeded (t : tracker) : tracker := mkTracker (attempts t + 1) 0 [] false.
Definition tracker_failed (e : cppstring) (t : tracker) : tracker :=
  mkTracker (attempts t + 1) (consecutive_failures t + 1) (if bool_decide (e = []) then str "unknown error" else e) false.
Definition tracker_baseline (t : tracker) : tracker :=
  if attempts t =? 0 then t else mkTracker (attempts t + 1) 0 [] true.
Definition tracker_get (has_data : bool) (t : tracker) : status :=
  if stale_after <=? consecutive_failures t then mkStatus failed (last_error t) false
  else if has_data then mkStatus ready [] false
  else if attempts t =? 0 then mkStatus warming_up [] false
  else mkStatus failed (last_error t) (baseline_pending t).

(** ** Windows *)

Section Windows.
Context `{lexical_int}.
Inductive window_error := InvalidTime (time : cppstring) (why : format_error) | TooShort (time : cppstring).
(** [T] is [long], which has 64 bits here. *)
Fixpoint decode_windows (times : list cppstring) : result window_error (list (cppstring * Z)) :=
  match times with
  | [] => Ok []
  | time :: times' =>
      match decode_time llong_min llong_max time 1 with
      | Throw e => Throw (InvalidTime time e)
      | Ok s => if s <=? 0 then Throw (TooShort time) else
                match decode_windows times' with Ok l => Ok ((time, s) :: l) | Throw e => Throw e end
      end
  end.
End Windows.

(** ** The trend ring *)

Record sample := mkSample { ts : Z; value : Z }.
Record trend_buffer := mkTrend { samples_ : list sample; interval_ : Z; retention_ : Z; context_ : Z; has_context_ : bool }.
Definition new_trend (interval_sec retention_sec : Z) : trend_buffer :=
  mkTrend [] (if 0 <? interval_sec then interval_sec else 1) (if 0 <? retention_sec then retention_sec else 1) 0 false.
Definition min_span (b : trend_buffer) : Z := 3 * interval_ b.
Definition newest_ts (b : trend_buffer) : Z := match last (samples_ b) with Some s => ts s | None => 0 end.

Fixpoint trim (cutoff : Z) (l : list sample) : list sample :=
  match l with s :: l' => if ts s <? cutoff then trim cutoff l' else l | [] => [] end.

(** [!samples_.empty() && ts < samples_.back().ts + interval_] *)
Definition too_soon (interval t : Z) (l : list sample) : bool :=
  match last l with Some s => t <? ts s + interval | None => false end.
Definition append (t v context : Z) (b : trend_buffer) : trend_buffer :=
  let l := if has_context_ b && negb (context =? context_ b) then [] else samples_ b in
  if too_soon (interval_ b) t l then mkTrend l (interval_ b) (retention_ b) context true
  else mkTrend (trim (t - retention_ b) (l ++ [mkSample t v])) (interval_ b) (retention_ b) context true.

(** The doubles of the regression. *)
Class real := {
  R : Type;
  of_Z : Z -> R;
  radd : R -> R -> R; rsub : R -> R -> R; rmul : R -> R -> R; rdiv : R -> R -> R;
  rle : R -> R -> bool; rlt : R -> R -> bool;
  trunc : R -> Z
}.
Record slope_result `{real} := mkSlope { valid : bool; slope : R; span : Z; samples : Z }.

Section Slope.
Context `{real}.
Definition in_window (now window : Z) (s : sample) : bool := negb ((ts s <? now - window) || (now <? ts s)).
Definition slope_over (now window : Z) (b : trend_buffer) : slope_result :=
  let used := List.filter (in_window now window) (samples_ b) in
  let n := zlength used in
  let first_ts := match used with s :: _ => ts s | [] => 0 end in
  let last_ts := match last used with Some s => ts s | None => 0 end in
  let sp := last_ts - first_ts in
  if (n <? 3) || (sp <? min_span b) then mkSlope _ false (of_Z 0) sp n else
  let sum_t := fold_left (fun a s => radd a (of_Z (ts s))) used (of_Z 0) in
  let sum_y := fold_left (fun a s => radd a (of_Z (value s))) used (of_Z 0) in
  let mean_t := rdiv sum_t (of_Z n) in
  let mean_y := rdiv sum_y (of_Z n) in
  let stt := fold_left (fun a s => let dt := rsub (of_Z (ts s)) mean_t in radd a (rmul dt dt)) used (of_Z 0) in
  let sty := fold_left (fun a s => let dt := rsub (of_Z (ts s)) mean_t in radd a (rmul dt (rsub (of_Z (value s)) mean_y))) used (of_Z 0) in
  if rle stt (of_Z 0) then mkSlope _ false (of_Z 0) sp n else mkSlope _ true (rdiv sty stt) sp n.

Definition max_projection : Z := 100 * 365 * 24 * 3600.
Definition project_zero (current : Z) (r : slope_result) : option Z :=
  if negb (valid r) || rle (slope r) (of_Z 0) then None else
  if current <=? 0 then Some 0 else
  let secs := rdiv (of_Z current) (slope r) in
  if rlt (of_Z max_projection) secs then None else Some (trunc secs).
End Slope.

(** ** The stored row *)

Definition row (t v : Z) : cppstring := show t ++ str ":" ++ show v.
(** The loop of [encode] after its first sample; [prev] is the sample written last. *)
Fixpoint encode_loop (granularity : Z) (prev : sample) (l : list sample) : cppstring :=
  match l with
  | [] => []
  | s :: l' =>
      if negb (bool_decide (l' = [])) && (ts s - ts prev <? granularity) then encode_loop granularity prev l'
      else str "|" ++ row (ts s - ts prev) (value s - value prev) ++ encode_loop granularity s l'
  end.
Definition encode (granularity : Z) (b : trend_buffer) : cppstring :=
  str "1|" ++ show (context_ b) ++
  match samples_ b with [] => [] | s :: l => str "|" ++ row (ts s) (value s) ++ encode_loop granularity s l end.

Definition llmax : Z := 2 ^ 63 - 1.
Definition llmin : Z := - 2 ^ 63.
Definition add_overflows (a b : Z) : bool := ((0 <? b) && (llmax - b <? a)) || ((b <? 0) && (a <? llmin - b)).

(** [field.find(':')] and the two numbers around it; [None] where the parse is abandoned. *)
Definition decode_field (field : cppstring) : option (Z * Z) :=
  match find field (str ":") 0 with
  | None => None
  | Some sep =>
      match stoll (substr field 0 sep), stoll (substr_from field (sep + 1)) with
      | Some f1, Some f2 => Some (f1, f2)
      | _, _ => None
      end
  end.
(** The loop of [decode]; [prev] is the running sample, [None] before the first. *)
Fixpoint decode_loop (interval retention_sec now : Z) (fields : list cppstring) (prev : option sample) (kept : list sample) : option (list sample) :=
  match fields with
  | [] => Some kept
  | field :: fields' =>
      match decode_field field with
      | None => None
      | Some (f1, f2) =>
          match (match prev with
                 | None => Some (mkSample f1 f2)
                 | Some p =>
                     if f1 <=? 0 then None else
                     if add_overflows (ts p) f1 || add_overflows (value p) f2 then None
                     else Some (mkSample (ts p + f1) (value p + f2))
                 end) with
          | None => None
          | Some s =>
              let skip := (now <? ts s) || (ts s <? now - retention_sec) || too_soon interval (ts s) kept in
              decode_loop interval retention_sec now fields' (Some s) (if skip then kept else kept ++ [s])
          end
      end
  end.
Definition decode (data : cppstring) (interval_sec retention_sec now : Z) : trend_buffer :=
  let fresh := new_trend interval_sec retention_sec in
  match pieces "|"%char data with
  | version :: context :: fields =>
      if bool_decide (version = str "1") then
        match stoll context with
        | None => fresh
        | Some c =>
            match decode_loop (interval_ fresh) retention_sec now fields None [] with
            | None => fresh
            | Some l => mkTrend l (interval_ fresh) (retention_ fresh) c true
            end
        end
      else fresh
  | _ => fresh
  end.

(** ** The round-robin buffer is the history *)

Section RrdSpec.
Context `{sample_type}.

(** The averages of the complete groups of sixty, oldest first. *)
Definition groups (l : list value_type) : list value_type :=
  map (fun i => average (take 60 (drop (60 * i) l)) 60) (seq 0 (length l / 60)).

Lemma latest_app {A} n (k l : list A) : (n <= length l)%nat -> latest n (k ++ l) = latest n l.
Proof. intros L. unfold latest. rewrite length_app, drop_app_ge by lia. f_equal. lia. Qed.
Lemma latest_length {A} n (l : list A) : (n <= length l)%nat -> length (latest n l) = n.
Proof. intros L. unfold latest. rewrite length_drop. lia. Qed.
Lemma latest_latest {A} n m (l : list A) : (n <= m)%nat -> (m <= length l)%nat -> latest n (latest m l) = latest n l.
Proof. intros L M. unfold latest. rewrite length_drop, drop_drop. f_equal. lia. Qed.
Lemma push_back_latest {A} n (l : list A) x : (0 < n <= length l)%nat -> push_back (latest n l) x = latest n (l ++ [x]).
Proof.
  intros L. unfold push_back, latest. rewrite drop_drop, length_app. simpl. rewrite drop_app_le by lia. do 2 f_equal. lia.
Qed.
Lemma latest_full {A} (k : list A) l x n :
  length k = n -> (0 < n)%nat -> push_back (latest n (k ++ l)) x = latest n (k ++ l ++ [x]).
Proof. intros <- L. rewrite push_back_latest, <-app_assoc; [done|]. rewrite length_app. lia. Qed.

Lemma groups_length l : length (groups l) = (length l / 60)%nat.
Proof. unfold groups. by rewrite length_map, length_seq. Qed.
Lemma groups_keep l x n : (n * 60 <= length l)%nat ->
  map (fun i => average (take 60 (drop (60 * i) (l ++ [x]))) 60) (seq 0 n) = map (fun i => average (take 60 (drop (60 * i) l)) 60) (seq 0 n).
Proof.
  intros L. apply map_ext_in. intros i [_ I]%in_seq. f_equal. rewrite drop_app_le by lia. apply take_app_le. rewrite length_drop. lia.
Qed.
Lemma groups_snoc l x :
  groups (l ++ [x]) = if bool_decide ((length l + 1) mod 60 = 0)%nat then groups l ++ [average (latest 60 (l ++ [x])) 60] else groups l.
Proof.
  unfold groups at 1. rewrite length_app. change (length [x]) with 1%nat. pose proof (Nat.div_mod (length l + 1) 60 ltac:(lia)) as D.
  pose proof (Nat.div_mod (length l) 60 ltac:(lia)) as D'. pose proof (Nat.mod_upper_bound (length l) 60 ltac:(lia)).
  pose proof (Nat.mod_upper_bound (length l + 1) 60 ltac:(lia)). case_bool_decide as M.
  - assert ((length l + 1) / 60 = S (length l / 60))%nat as -> by lia. rewrite seq_S, map_app, groups_keep by lia. do 2 f_equal.
    change (map ?f [?n]) with [f n]. f_equal. f_equal. unfold latest. rewrite length_app. change (length [x]) with 1%nat.
    replace (60 * (0 + length l / 60))%nat with (length l + 1 - 60)%nat by lia.
    apply take_ge. rewrite length_drop, length_app. simpl. lia.
  - assert ((length l + 1) / 60 = length l / 60)%nat as -> by lia. by apply groups_keep; lia.
Qed.

Definition reflects (h : list value_type) (b : rrd_buffer) : Prop :=
  seconds b = latest 60 (replicate 60 blank ++ h) /\ minutes b = latest 60 (replicate 60 blank ++ groups h) /\
  hours b = latest 24 (replicate 24 blank ++ groups (groups h)) /\
  second_counter b = Z.of_nat (length h mod 60) /\ minute_counter b = Z.of_nat ((length h / 60) mod 60) /\
  sample_count b = Z.min (zlength h) 86400.

Lemma padded_length {A} n (x : A) l : length (latest n (replicate n x ++ l)) = n.
Proof. apply latest_length. rewrite length_app, length_replicate. lia. Qed.

Lemma push_reflects h b x : reflects h b -> reflects (h ++ [x]) (push x b).
Proof.
  intros (Es & Em & Eh & Cs & Cm & Cn). unfold push. rewrite Es, Em, Eh, Cs, Cm, Cn.
  assert (zlength (latest 24 (replicate 24 blank ++ groups (groups h))) * 60 * 60 = 86400) as ->
    by (unfold zlength; rewrite padded_length; done).
  rewrite !latest_full by (rewrite ?length_replicate; lia).
  set (count := if _ <? _ then _ else _). assert (count = Z.min (zlength (h ++ [x])) 86400) as Hc.
  { unfold count. rewrite zlength_app. change (zlength [x]) with 1. destruct (Z.ltb_spec (Z.min (zlength h) 86400) 86400); lia. }
  clearbody count. pose proof (Nat.div_mod (length h) 60 ltac:(lia)) as D. pose proof (Nat.mod_upper_bound (length h) 60 ltac:(lia)).
  pose proof (Nat.div_mod (length h + 1) 60 ltac:(lia)) as D'. pose proof (Nat.mod_upper_bound (length h + 1) 60 ltac:(lia)).
  unfold reflects. rewrite length_app. change (length [x]) with 1%nat. rewrite (groups_snoc h x).
  destruct (Z.leb_spec 59 (Z.of_nat (length h mod 60))) as [F|F].
  - rewrite bool_decide_eq_true_2 by lia. assert ((length h + 1) / 60 = S (length h / 60))%nat as -> by lia.
    assert ((length h + 1) mod 60 = 0)%nat as -> by lia.
    assert (calculate_avg (latest 60 (replicate 60 blank ++ h ++ [x])) = average (latest 60 (h ++ [x])) 60) as ->.
    { unfold calculate_avg, zlength. rewrite padded_length, latest_app; [done|]. rewrite length_app. change (length [x]) with 1%nat. lia. }
    set (m := average (latest 60 (h ++ [x])) 60). rewrite (groups_snoc (groups h) m), groups_length.
    rewrite ?latest_full by (rewrite ?length_replicate; lia).
    set (q := (length h / 60)%nat) in *. pose proof (Nat.div_mod q 60 ltac:(lia)) as Dq. pose proof (Nat.mod_upper_bound q 60 ltac:(lia)).
    replace (q + 1)%nat with (S q) by lia.
    pose proof (Nat.div_mod (S q) 60 ltac:(lia)) as Dq'. pose proof (Nat.mod_upper_bound (S q) 60 ltac:(lia)).
    destruct (Z.leb_spec 59 (Z.of_nat (q mod 60))) as [G|G].
    + rewrite bool_decide_eq_true_2 by lia. assert (S q mod 60 = 0)%nat as -> by lia.
      assert (calculate_avg (latest 60 (replicate 60 blank ++ groups h ++ [m])) = average (latest 60 (groups h ++ [m])) 60) as ->.
      { unfold calculate_avg, zlength. rewrite padded_length, latest_app; [done|]. rewrite length_app, groups_length. fold q.
        change (length [m]) with 1%nat. lia. }
      rewrite ?latest_full by (rewrite ?length_replicate; lia). by split_and!.
    + rewrite bool_decide_eq_false_2 by lia. split_and!; try done. cbn [minute_counter]. lia.
  - rewrite bool_decide_eq_false_2 by lia. assert ((length h + 1) / 60 = length h / 60)%nat as -> by lia.
    split_and!; try done. cbn [second_counter]. lia.
Qed.
Lemma pushes_reflects h : reflects h (pushes h).
Proof.
  induction h as [|x h IH] using rev_ind; [by split_and!|]. unfold pushes. rewrite fold_left_app. by apply push_reflects.
Qed.

(** The average of the last [t] seconds of a history, from its seconds, minutes or hours. *)
Definition history_average (t : Z) (h : list value_type) : value_type :=
  if t <=? 60 then average (latest (Z.to_nat t) h) t
  else if t / 60 <=? 60 then average (latest (Z.to_nat (t / 60)) (groups h)) (t / 60)
  else average (latest (Z.to_nat (t / 60 / 60)) (groups (groups h))) (t / 60 / 60).

Lemma latest_padded {A} n k (x : A) l : (n <= length l)%nat -> (n <= k)%nat -> latest n (latest k (replicate k x ++ l)) = latest n l.
Proof. intros L K. rewrite latest_latest, latest_app; [done|done|done|]. rewrite length_app, length_replicate. lia. Qed.

(** After any history of samples an average over a window is the average of the last samples of
    that history, of its last complete minutes or of its last complete hours: an empty slot of a
    ring is never averaged in, however short the history is; a negative window and an empty
    history give the blank value, a window of a day or more is refused. *)
Theorem rrd_average (h : list value_type) (time : Z) :
  get_average time (pushes h) =
    if time <? 0 then Ok blank
    else if 86400 <=? time then Throw SizeLargerThanBuffer
    else if bool_decide (h = []) then Ok blank
    else Ok (history_average (Z.min (Z.max 1 time) (zlength h)) h).
Proof.
  destruct (pushes_reflects h) as (Es & Em & Eh & _ & _ & Cn). unfold get_average. rewrite Es, Em, Eh, Cn.
  assert (forall n (l : list value_type), zlength (latest n (replicate n blank ++ l)) = Z.of_nat n) as Hz
    by (intros; unfold zlength; by rewrite padded_length).
  rewrite !Hz. destruct (Z.ltb_spec time 0) as [|T0]; [done|].
  replace (if time =? 0 then 1 else time) with (Z.max 1 time) by (destruct (Z.eqb_spec time 0); lia).
  change (Z.of_nat 24 * 60 * 60) with 86400. destruct (Z.leb_spec 86400 (Z.max 1 time)), (Z.leb_spec 86400 time); try lia; [done|].
  case_bool_decide as E; [by subst h|]. assert (1 <= zlength h) by (destruct h; [done|rewrite zlength_cons; pose proof (zlength_nonneg h); lia]).
  rewrite (proj2 (Z.eqb_neq _ _)) by lia. f_equal.
  replace (if Z.min (zlength h) 86400 <? Z.max 1 time then Z.min (zlength h) 86400 else Z.max 1 time) with (Z.min (Z.max 1 time) (zlength h))
    by (destruct (Z.ltb_spec (Z.min (zlength h) 86400) (Z.max 1 time)); lia).
  set (t := Z.min _ _). assert (1 <= t <= zlength h /\ t < 86400) as Ht by lia. clearbody t. unfold history_average.
  change (Z.of_nat 60) with 60. unfold zlength in Ht.
  assert (length (groups h) = length h / 60)%nat as G1 by apply groups_length.
  assert (length (groups (groups h)) = length h / 60 / 60)%nat as G2 by by rewrite groups_length, G1.
  destruct (Z.leb_spec t 60); [by rewrite latest_padded by lia|].
  assert (Z.of_nat (length h / 60) = Z.of_nat (length h) / 60) as E1 by apply Nat2Z.inj_div.
  assert (Z.of_nat (length h / 60 / 60) = Z.of_nat (length h) / 60 / 60) as E2 by by rewrite Nat2Z.inj_div, E1.
  assert (t / 60 <= Z.of_nat (length h) / 60) by (apply Z.div_le_mono; lia).
  assert (t / 60 / 60 <= Z.of_nat (length h) / 60 / 60) by (apply Z.div_le_mono; lia).
  assert (0 <= t / 60 / 60) by (apply Z.div_pos; [apply Z.div_pos|]; lia).
  assert (t / 60 / 60 < 24) by (rewrite Z.div_div by lia; apply Z.div_lt_upper_bound; lia).
  destruct (Z.leb_spec (t / 60) 60); rewrite latest_padded by lia; done.
Qed.
End RrdSpec.

(** ** Readiness *)

Inductive event := Succeeded | Failed (e : cppstring) | Baseline.
Definition track (t : tracker) (e : event) : tracker :=
  match e with Succeeded => tracker_succeeded t | Failed m => tracker_failed m t | Baseline => tracker_baseline t end.
Definition tracked (events : list event) : tracker := fold_left track events new_tracker.
Definition is_attempt (e : event) : bool := match e with Baseline => false | _ => true end.

Lemma tracked_counts events :
  0 <= attempts (tracked events) /\ 0 <= consecutive_failures (tracked events) /\
  (attempts (tracked events) = 0 <-> existsb is_attempt events = false) /\ (attempts (tracked events) = 0 -> consecutive_failures (tracked events) = 0).
Proof.
  induction events as [|e l IH] using rev_ind; [done|]. unfold tracked in *. rewrite fold_left_app. simpl.
  set (t := fold_left track l new_tracker) in *. rewrite existsb_app. destruct IH as (I1 & I2 & I3 & I4).
  destruct e; simpl; rewrite ?orb_true_r, ?orb_false_r.
  - split_and!; [lia|lia| |lia]. split; [lia|done].
  - split_and!; [lia|lia| |lia]. split; [lia|done].
  - unfold tracker_baseline. destruct (Z.eqb_spec (attempts t) 0) as [E|E]; [done|]. simpl. split_and!; try lia.
    split; [lia|]. intros X%I3. lia.
Qed.
Lemma tracked_failures es events : 0 <= consecutive_failures (tracked events) ->
  zlength es <= consecutive_failures (tracked (events ++ map Failed es)).
Proof.
  intros Hp. induction es as [|e es IH] using rev_ind; [simpl; rewrite app_nil_r; done|].
  rewrite map_app, app_assoc. unfold tracked in *. rewrite fold_left_app. simpl. rewrite zlength_app, zlength_cons. change (zlength (@nil cppstring)) with 0. lia.
Qed.

(** A source is reported as warming up exactly when it has neither data nor any attempt behind
    it, as ready only with data, and as failed after five failures in a row whatever its buffer
    holds. *)
Theorem tracker_never_hides_failure (events : list event) (has : bool) :
  (state (tracker_get has (tracked events)) = warming_up <-> has = false /\ existsb is_attempt events = false) /\
  (state (tracker_get has (tracked events)) = ready -> has = true) /\
  (forall es, 5 <= zlength es -> state (tracker_get has (tracked (events ++ map Failed es))) = failed).
Proof.
  destruct (tracked_counts events) as (A & C & E & F). unfold tracker_get. split_and!.
  - rewrite <-E. destruct (Z.leb_spec stale_after (consecutive_failures (tracked events))) as [L|L]; simpl.
    + split; [done|]. intros [_ Z0]. unfold stale_after in L. specialize (F Z0). lia.
    + destruct has; simpl; [split; [done|by intros []]|]. destruct (Z.eqb_spec (attempts (tracked events)) 0); simpl; [done|]. split; [done|by intros []].
  - destruct (_ <=? _); [done|]. destruct has; [done|]. by destruct (_ =? _).
  - intros es L. pose proof (tracked_failures es events C). rewrite (proj2 (Z.leb_le _ _)); [done|]. unfold stale_after. lia.
Qed.

(** ** The ring keeps its cadence and its retention *)

(** Each sample at least an interval after the one before it. *)
Definition spaced (interval : Z) (l : list sample) : Prop :=
  forall i a b, l !! i = Some a -> l !! S i = Some b -> ts a + interval <= ts b.

Lemma spaced_tail i s l : spaced i (s :: l) -> spaced i l.
Proof. intros S k a b A B. apply (S (Datatypes.S k) a b); done. Qed.
Lemma spaced_snoc i l s : spaced i l -> too_soon i (ts s) l = false -> spaced i (l ++ [s]).
Proof.
  intros S T k a b A B. pose proof (lookup_lt_Some _ _ _ B) as L. rewrite length_app in L. simpl in L.
  rewrite lookup_app_l in A by lia. destruct (decide (Datatypes.S k < length l)%nat) as [L'|L'].
  - rewrite lookup_app_l in B by done. by apply (S k).
  - rewrite lookup_app_r in B by lia. replace (Datatypes.S k - length l)%nat with 0%nat in B by lia. simpl in B. apply (inj Some) in B as <-.
    unfold too_soon in T. rewrite last_lookup in T. replace (pred (length l)) with k in T by lia. rewrite A in T. apply Z.ltb_ge in T. lia.
Qed.
Lemma spaced_gap i l j k a b : 0 <= i -> spaced i l -> (j <= k)%nat -> l !! j = Some a -> l !! k = Some b -> ts a + Z.of_nat (k - j) * i <= ts b.
Proof.
  intros I S L A. revert b. induction L as [|k L IH]; intros b B.
  - rewrite A in B. apply (inj Some) in B as ->. rewrite Nat.sub_diag. lia.
  - destruct (l !! k) as [c|] eqn:C; [|apply lookup_ge_None in C; apply lookup_lt_Some in B; lia].
    pose proof (IH c eq_refl). pose proof (S k c b C B). replace (Datatypes.S k - j)%nat with (Datatypes.S (k - j)) by lia. lia.
Qed.
Lemma trim_suffix c l : exists k, l = k ++ trim c l /\ Forall (fun s => ts s < c) k.
Proof.
  induction l as [|s l [k [E F]]]; [by exists []|]. simpl. destruct (Z.ltb_spec (ts s) c) as [L|L]; [|by exists []].
  exists (s :: k). split; [by rewrite E at 1|by constructor].
Qed.
Lemma spaced_suffix i k l : spaced i (k ++ l) -> spaced i l.
Proof. induction k; simpl; [done|]. intros S. apply spaced_tail in S. auto. Qed.

(** The samples of a ring: spaced, and the oldest within the retention of the newest. *)
Record ring (b : trend_buffer) : Prop := {
  ring_interval : 0 < interval_ b;
  ring_retention : 0 < retention_ b;
  ring_spaced : spaced (interval_ b) (samples_ b);
  ring_recent : forall a z, head (samples_ b) = Some a -> last (samples_ b) = Some z -> ts z - retention_ b <= ts a
}.
Lemma new_trend_ring i r : ring (new_trend i r).
Proof. unfold new_trend. split; simpl; try done; [by destruct (Z.ltb_spec 0 i)|by destruct (Z.ltb_spec 0 r)]. Qed.

Lemma ring_bounded b : ring b -> zlength (samples_ b) <= retention_ b / interval_ b + 1.
Proof.
  intros [I R S F]. destruct (samples_ b) as [|a l] eqn:E.
  { change (zlength (@nil sample)) with 0. assert (0 <= retention_ b / interval_ b) by (apply Z.div_pos; lia). lia. }
  destruct (last (a :: l)) as [z|] eqn:L; [|apply last_None in L; done]. specialize (F a z eq_refl eq_refl).
  rewrite last_lookup in L. pose proof (spaced_gap (interval_ b) (a :: l) 0 (pred (length (a :: l))) a z ltac:(lia) S ltac:(lia) eq_refl L) as G.
  unfold zlength. simpl length in *. simpl pred in G. assert (Z.of_nat (length l) <= retention_ b / interval_ b); [|lia].
  apply Z.div_le_lower_bound; [done|]. replace (length l - 0)%nat with (length l) in G by lia. lia.
Qed.

Lemma append_ring t v c b : ring b -> ring (append t v c b).
Proof.
  intros [I R S F]. unfold append. set (l := if has_context_ b && negb (c =? context_ b) then [] else samples_ b).
  assert (spaced (interval_ b) l /\ forall a z, head l = Some a -> last l = Some z -> ts z - retention_ b <= ts a) as [S' F'].
  { unfold l. destruct (has_context_ b && _); [|by split]. split; [|done]. by intros k x y X. }
  clearbody l. destruct (too_soon (interval_ b) t l) eqn:T; [by split|]. split; simpl; try done.
  - destruct (trim_suffix (t - retention_ b) (l ++ [mkSample t v])) as (k & E & _). apply (spaced_suffix _ k). rewrite <-E. by apply spaced_snoc.
  - intros a z A Z. destruct (trim_suffix (t - retention_ b) (l ++ [mkSample t v])) as (k & E & _).
    set (u := trim _ _) in *. assert (last u = Some (mkSample t v)) as L.
    { destruct u as [|s u]; [done|]. apply (f_equal last) in E. rewrite last_snoc, last_app in E.
      destruct (last (s :: u)) eqn:X; [done|by apply last_None in X]. }
    rewrite L in Z. apply (inj Some) in Z as <-. simpl. assert (trim (t - retention_ b) (l ++ [mkSample t v]) = u) as U by done.
    clear -U A. revert A U. generalize (l ++ [mkSample t v]) as w. intros w. revert u. induction w as [|s w IH]; intros u A; simpl; [by intros <-|].
    destruct (Z.ltb_spec (ts s) (t - retention_ b)); [by apply IH|]. intros <-. simpl in A. apply (inj Some) in A as <-. lia.
Qed.

(** What the loop of [decode] keeps. *)
Definition kept_ok (interval retention_sec now : Z) (l : list sample) : Prop :=
  spaced interval l /\ Forall (fun s => now - retention_sec <= ts s <= now) l.
Lemma decode_loop_kept i r now fields prev kept l :
  kept_ok i r now kept -> decode_loop i r now fields prev kept = Some l -> kept_ok i r now l.
Proof.
  revert prev kept. induction fields as [|f fields IH]; intros prev kept K; simpl; [by intros E; apply (inj Some) in E as <-|].
  destruct (decode_field f) as [[f1 f2]|]; [|done]. destruct (match prev with None => _ | Some _ => _ end) as [s|]; [|done].
  apply IH. destruct (Z.ltb_spec now (ts s)); [done|]. destruct (Z.ltb_spec (ts s) (now - r)); [done|]. simpl.
  destruct (too_soon i (ts s) kept) eqn:T; [done|]. destruct K as [S F]. split; [by apply spaced_snoc|]. apply Forall_app. split; [done|].
  constructor; [lia|done].
Qed.
Lemma decode_ring data i r now : ring (decode data i r now).
Proof.
  unfold decode. pose proof (new_trend_ring i r) as N. destruct (pieces _ data) as [|v [|c fields]]; [done|done|].
  destruct (bool_decide _); [|done]. destruct (stoll c) as [ctx|]; [|done].
  destruct (decode_loop _ r now fields None []) as [l|] eqn:E; [|done].
  apply decode_loop_kept in E as [S F]; [|by split]. destruct N as [I R _ _]. split; simpl; try done.
  intros a z A Z. rewrite Forall_forall in F. pose proof (F a ltac:(destruct l; [done|]; simpl in A; apply (inj Some) in A as ->; set_solver)).
  rewrite last_lookup in Z. apply list_elem_of_lookup_2, F in Z. destruct (Z.ltb_spec 0 r); lia.
Qed.

(** Everything that can be done to a ring. *)
Inductive trend_op := Append (t v context : Z) | Reload (data : cppstring) (now : Z) | Save (granularity now : Z).
Definition trend_step (interval retention : Z) (b : trend_buffer) (o : trend_op) : trend_buffer :=
  match o with
  | Append t v c => append t v c b
  | Reload data now => decode data interval retention now
  | Save g now => decode (encode g b) interval retention now
  end.
Lemma append_settings t v c b : interval_ (append t v c b) = interval_ b /\ retention_ (append t v c b) = retention_ b.
Proof. unfold append. by destruct (too_soon _ _ _). Qed.
Lemma decode_settings data i r now : interval_ (decode data i r now) = interval_ (new_trend i r) /\ retention_ (decode data i r now) = retention_ (new_trend i r).
Proof.
  unfold decode. destruct (pieces _ data) as [|v [|c fields]]; [done|done|]. destruct (bool_decide _); [|done].
  destruct (stoll c); [|done]. by destruct (decode_loop _ _ _ _ _ _).
Qed.

Lemma trend_reachable interval retention ops :
  0 < interval -> 0 < retention ->
  let b := fold_left (trend_step interval retention) ops (new_trend interval retention) in
  ring b /\ interval_ b = interval /\ retention_ b = retention.
Proof.
  intros I R.
  assert (interval_ (new_trend interval retention) = interval /\ retention_ (new_trend interval retention) = retention) as [N1 N2]
    by (unfold new_trend; simpl; by rewrite !(proj2 (Z.ltb_lt _ _))).
  induction ops as [|o ops IH] using rev_ind; [split; [apply new_trend_ring|done]|].
  rewrite fold_left_app. simpl. set (b := fold_left _ _ _) in *. destruct IH as (G & Ei & Er).
  destruct o; simpl; (split; [by auto using append_ring, decode_ring|]).
  - destruct (append_settings t v context b) as [-> ->]. done.
  - destruct (decode_settings data interval retention now) as [-> ->]. done.
  - destruct (decode_settings (encode granularity b) interval retention now) as [-> ->]. done.
Qed.

(** Whatever is appended, reloaded from any text or saved and reloaded, the ring holds at most
    retention/interval + 1 samples, each an interval after the one before it and all within the
    retention of the newest. *)
Theorem trend_ring_bounded (interval retention : Z) (ops : list trend_op) :
  0 < interval -> 0 < retention ->
  let b := fold_left (trend_step interval retention) ops (new_trend interval retention) in
  zlength (samples_ b) <= retention / interval + 1 /\
  (forall i x y, samples_ b !! i = Some x -> samples_ b !! S i = Some y -> ts x + interval <= ts y) /\
  (forall x, x ∈ samples_ b -> newest_ts b - retention <= ts x <= newest_ts b).
Proof.
  intros I R. destruct (trend_reachable interval retention ops I R) as (G & Ei & Er). set (b := fold_left _ _ _) in *. clearbody b.
  pose proof (ring_bounded b G) as B. destruct G as [_ _ S F]. rewrite Ei, Er in *. split; [done|]. split; [done|].
  intros x X. apply list_elem_of_lookup_1 in X as [k K]. unfold newest_ts.
  destruct (last (samples_ b)) as [z|] eqn:L; [|by apply last_None in L; rewrite L in K].
  destruct (samples_ b) as [|a l]; [done|]. specialize (F a z eq_refl eq_refl). rewrite last_lookup in L.
  pose proof (lookup_lt_Some _ _ _ K). pose proof (spaced_gap interval _ 0 k a x ltac:(lia) S ltac:(lia) eq_refl K).
  pose proof (spaced_gap interval _ k (pred (length (a :: l))) x z ltac:(lia) S ltac:(lia) K L). nia.
Qed.

(** ** The stored row is read back *)

(** The samples that [encode] writes. *)
Fixpoint thin_loop (granularity : Z) (prev : sample) (l : list sample) : list sample :=
  match l with
  | [] => []
  | s :: l' =>
      if negb (bool_decide (l' = [])) && (ts s - ts prev <? granularity) then thin_loop granularity prev l'
      else s :: thin_loop granularity s l'
  end.
Definition thin (granularity : Z) (l : list sample) : list sample :=
  match l with [] => [] | s :: l' => s :: thin_loop granularity s l' end.

Fixpoint rows (prev : sample) (l : list sample) : list cppstring :=
  match l with [] => [] | s :: l' => row (ts s - ts prev) (value s - value prev) :: rows s l' end.
Lemma encode_loop_rows g p l : encode_loop g p l = concat (map (fun f => str "|" ++ f) (rows p (thin_loop g p l))).
Proof.
  revert p. induction l as [|s l IH]; intros p; simpl; [done|]. destruct (negb _ && _); [apply IH|]. simpl. by rewrite IH, ?app_assoc.
Qed.
Lemma join_bars p ps : join_with "|"%char (p :: ps) = p ++ concat (map (fun f => str "|" ++ f) ps).
Proof.
  revert p. induction ps as [|q ps IH]; intros p; [simpl; by rewrite app_nil_r|].
  change (join_with "|"%char (p :: q :: ps)) with (p ++ "|"%char :: join_with "|"%char (q :: ps)). by rewrite IH.
Qed.
Definition all_rows (l : list sample) : list cppstring := match l with [] => [] | s :: l' => row (ts s) (value s) :: rows s l' end.
Lemma encode_joined g b : encode g b = join_with "|"%char (str "1" :: show (context_ b) :: all_rows (thin g (samples_ b))).
Proof.
  rewrite join_bars. unfold encode. simpl. destruct (samples_ b) as [|s l]; simpl; rewrite ?encode_loop_rows, ?app_assoc; done.
Qed.

Lemma row_no_bar t v : "|"%char ∉ row t v /\ row t v <> [].
Proof.
  unfold row. split; [|by destruct (show t)]. rewrite !elem_of_app. intros [I|[I|I]].
  - by apply show_char in I as [|].
  - by apply list_elem_of_singleton in I.
  - by apply show_char in I as [|].
Qed.
Lemma rows_no_bar p l : Forall (fun f => "|"%char ∉ f) (rows p l) /\ last (rows p l) <> Some [].
Proof.
  revert p. induction l as [|s l IH]; intros p; [done|]. simpl. destruct (IH s) as [F L]. split; [constructor; [apply row_no_bar|done]|].
  destruct (rows s l); [|done]. simpl. intros E. apply (inj Some) in E. by destruct (row_no_bar (ts s - ts p) (value s - value p)).
Qed.
Lemma encode_pieces g b : pieces "|"%char (encode g b) = str "1" :: show (context_ b) :: all_rows (thin g (samples_ b)).
Proof.
  rewrite encode_joined. apply pieces_join.
  - constructor; [by intros I%list_elem_of_singleton|]. constructor; [by intros [|]%show_char|].
    destruct (thin g (samples_ b)); [constructor|]. constructor; [apply row_no_bar|apply rows_no_bar].
  - destruct (thin g (samples_ b)) as [|s l]; cbn [all_rows last].
    + intros E. apply (inj Some) in E. destruct (show_head (context_ b)) as (c & r & X & _). congruence.
    + destruct (rows s l) as [|f fs] eqn:E; [|rewrite last_cons_cons, <-E; apply rows_no_bar]. intros X. apply (inj Some) in X. by destruct (row_no_bar (ts s) (value s)).
Qed.

Lemma decode_row t v : in_s 64 t -> in_s 64 v -> decode_field (row t v) = Some (t, v).
Proof.
  intros T V. unfold decode_field, row. assert (":"%char ∉ show t) as N by (by intros [|]%show_char).
  change (str ":") with [":"%char]. cbn [app]. rewrite (find_char_first (show t) ":"%char (show v) N).
  unfold substr, substr_from. rewrite drop_0, take_app_length.
  replace (drop (length (show t) + 1) (show t ++ ":"%char :: show v)) with (show v).
  - rewrite <-(app_nil_r (show t)), stoll_show by done. rewrite <-(app_nil_r (show v)), stoll_show by done. done.
  - rewrite drop_app_ge by lia. by replace (length (show t) + 1 - length (show t))%nat with 1%nat by lia.
Qed.

(** A sample that is stored without loss: neither time nor value is negative. *)
Definition plain (retention now : Z) (s : sample) : Prop := 0 <= ts s < 2 ^ 63 /\ 0 <= value s < 2 ^ 63 /\ now - retention <= ts s <= now.
Definition after (i : Z) (a b : sample) : Prop := ts a + i <= ts b.

Lemma decode_rows i r now p l kept :
  0 < i -> StronglySorted (after i) (p :: l) -> Forall (plain r now) (p :: l) -> last kept = Some p ->
  decode_loop i r now (rows p l) (Some p) kept = Some (kept ++ l).
Proof.
  intros I. revert p kept. induction l as [|s l IH]; intros p kept S F K; [simpl; by rewrite app_nil_r|].
  apply StronglySorted_inv in S as [S A]. apply Forall_cons in F as [P F]. pose proof F as [Q _]%Forall_cons. apply Forall_cons in A as [A _].
  unfold plain, after in *. simpl. rewrite decode_row by (unfold in_s; lia). rewrite (proj2 (Z.leb_gt _ 0)) by lia.
  assert (add_overflows (ts p) (ts s - ts p) || add_overflows (value p) (value s - value p) = false) as ->.
  { apply orb_false_iff. unfold add_overflows, llmax, llmin. split; apply orb_false_iff; split; apply andb_false_iff;
      rewrite ?Z.ltb_ge; lia. }
  replace (ts p + (ts s - ts p)) with (ts s) by lia. replace (value p + (value s - value p)) with (value s) by lia.
  assert ((now <? ts s) || (ts s <? now - r) || too_soon i (ts s) kept = false) as E.
  { unfold too_soon. rewrite K, !orb_false_iff, !Z.ltb_ge. lia. }
  simpl. rewrite E. replace (mkSample (ts s) (value s)) with s by by destruct s.
  rewrite IH; [by rewrite <-app_assoc|done|done|by rewrite last_snoc].
Qed.

Lemma thin_loop_sub g p l : sublist (thin_loop g p l) l.
Proof. revert p. induction l as [|s l IH]; intros p; simpl; [constructor|]. destruct (_ && _); constructor; apply IH. Qed.
Lemma thin_sub g l : sublist (thin g l) l.
Proof. destruct l; simpl; constructor. apply thin_loop_sub. Qed.
Lemma sorted_sub {A} (R : relation A) k l : sublist k l -> StronglySorted R l -> StronglySorted R k.
Proof.
  induction 1 as [|x k l S IH|x k l S IH]; intros T; [done| |]; apply StronglySorted_inv in T as [T F]; [|auto].
  constructor; [auto|]. rewrite Forall_forall in *. intros y Y. apply F. by eapply elem_of_sublist.
Qed.
Lemma spaced_sorted i l : 0 <= i -> spaced i l -> StronglySorted (after i) l.
Proof.
  intros I. induction l as [|a l IH]; intros S; [constructor|]. constructor; [by apply IH, (spaced_tail i a)|].
  apply Forall_forall. intros b [k K]%list_elem_of_lookup_1. pose proof (spaced_gap i (a :: l) 0 (Datatypes.S k) a b I S ltac:(lia) eq_refl K).
  unfold after. nia.
Qed.

Lemma thin_last g l : last (thin g l) = last l.
Proof.
  destruct l as [|s l]; [done|]. simpl thin. assert (forall p, last (p :: thin_loop g p l) = last (p :: l)) as L; [|done].
  clear s. induction l as [|s l IH]; intros p; [done|]. simpl thin_loop. destruct (bool_decide (l = [])) eqn:E; simpl negb.
  - apply bool_decide_eq_true in E as ->. done.
  - apply bool_decide_eq_false in E. destruct (_ && _).
    + rewrite IH. by destruct l.
    + rewrite !last_cons_cons. apply IH.
Qed.
Lemma thin_all i g l : g <= i -> StronglySorted (after i) l -> thin g l = l.
Proof.
  intros G. destruct l as [|s l]; [done|]. simpl. revert s. induction l as [|t l IH]; intros s [S F]%StronglySorted_inv; [done|]. simpl.
  apply Forall_cons in F as [A F]. unfold after in A. rewrite (proj2 (Z.ltb_ge _ _)), andb_false_r by lia. f_equal. by apply IH.
Qed.

Lemma trend_reload g b now :
  ring b -> in_s 64 (context_ b) -> Forall (plain (retention_ b) now) (samples_ b) ->
  decode (encode g b) (interval_ b) (retention_ b) now = mkTrend (thin g (samples_ b)) (interval_ b) (retention_ b) (context_ b) true.
Proof.
  intros [I R S _] C F. unfold decode. rewrite encode_pieces. rewrite bool_decide_eq_true_2 by done.
  rewrite <-(app_nil_r (show (context_ b))), stoll_show by done. unfold new_trend. cbn [interval_ retention_].
  rewrite !(proj2 (Z.ltb_lt 0 _)) by done. apply spaced_sorted in S; [|lia].
  pose proof (sorted_sub _ _ _ (thin_sub g (samples_ b)) S) as S'.
  assert (Forall (plain (retention_ b) now) (thin g (samples_ b))) as F'.
  { rewrite Forall_forall in *. intros x X. apply F. eapply elem_of_sublist; [done|apply thin_sub]. }
  destruct (thin g (samples_ b)) as [|s l]; [done|]. cbn [all_rows decode_loop]. pose proof F' as [P _]%Forall_cons. unfold plain in P.
  rewrite decode_row by (unfold in_s; lia). cbn [ts value].
  rewrite (proj2 (Z.ltb_ge now _)), (proj2 (Z.ltb_ge _ (now - _))) by lia. cbn [orb too_soon last app].
  replace (mkSample (ts s) (value s)) with s by by destruct s. by rewrite (decode_rows _ _ _ _ _ [s] I S' F').
Qed.

(** A reachable ring is read back from the text it is stored as: the same context, a subsequence
    of its samples with the first and the newest, and all of them unless the granularity is
    coarser than the cadence. *)
Theorem trend_roundtrip (interval retention : Z) (ops : list trend_op) (g now : Z) :
  0 < interval -> 0 < retention ->
  let b := fold_left (trend_step interval retention) ops (new_trend interval retention) in
  in_s 64 (context_ b) -> Forall (fun s => 0 <= ts s < 2 ^ 63 /\ 0 <= value s < 2 ^ 63 /\ now - retention <= ts s <= now) (samples_ b) ->
  let b' := decode (encode g b) interval retention now in
  context_ b' = context_ b /\ sublist (samples_ b') (samples_ b) /\ head (samples_ b') = head (samples_ b) /\
  last (samples_ b') = last (samples_ b) /\ (g <= interval -> samples_ b' = samples_ b).
Proof.
  intros I R. destruct (trend_reachable interval retention ops I R) as (G & Ei & Er). set (b := fold_left _ _ _) in *. clearbody b.
  simpl. intros C F. subst interval retention. rewrite (trend_reload g b now G C F). simpl.
  split; [done|]. split; [apply thin_sub|]. split; [by destruct (samples_ b)|]. split; [apply thin_last|].
  intros L. apply (thin_all (interval_ b)); [done|]. apply spaced_sorted; [lia|apply G].
Qed.

(** ** A linear series *)

Section Linear.
#[local] Instance exact_real : real := {|
  R := Q; of_Z := inject_Z; radd := Qplus; rsub := Qminus; rmul := Qmult; rdiv := Qdiv;
  rle := Qle_bool; rlt x y := negb (Qle_bool y x); trunc q := Z.quot (Qnum q) (Zpos (Qden q)) |}.

Fixpoint qsum (f : sample -> Q) (l : list sample) : Q := match l with [] => 0%Q | s :: l' => (f s + qsum f l')%Q end.
Lemma fold_qsum f l a : (fold_left (fun a s => a + f s) l a == a + qsum f l)%Q.
Proof. revert a. induction l as [|s l IH]; intros a; simpl; [ring|]. rewrite IH. ring. Qed.
Lemma qsum_ext f g l : Forall (fun s => f s == g s)%Q l -> (qsum f l == qsum g l)%Q.
Proof. induction 1 as [|s l E F IH]; simpl; [done|]. by rewrite E, IH. Qed.
Lemma qsum_linear a c l (f : sample -> Q) : (qsum (fun s => a * f s + c) l == a * qsum f l + c * inject_Z (zlength l))%Q.
Proof.
  induction l as [|s l IH]; simpl; [change (zlength (@nil sample)) with 0; ring|]. rewrite IH, zlength_cons, inject_Z_plus. ring.
Qed.
Lemma qsum_scale a l (f : sample -> Q) : (qsum (fun s => a * f s) l == a * qsum f l)%Q.
Proof. induction l as [|s l IH]; simpl; [ring|]. rewrite IH. ring. Qed.
Lemma qsum_squares f l : (0 <= qsum (fun s => f s * f s) l)%Q /\ ((qsum (fun s => f s * f s) l == 0)%Q -> Forall (fun s => f s == 0)%Q l).
Proof.
  induction l as [|s l [IH1 IH2]]; simpl; [split; [apply Qle_refl|constructor]|].
  assert (0 <= f s * f s)%Q as P by (destruct (f s) as [n d]; unfold Qle; simpl; nia).
  split; [by apply (Qplus_le_compat 0 _ 0)|]. intros E.
  assert (f s * f s == 0 /\ qsum (fun s => f s * f s) l == 0)%Q as [E1 E2] by (split; lra).
  constructor; [|auto]. by apply Qmult_integral in E1 as [|].
Qed.

(** In exact arithmetic the regression of a series that lies on a line is the slope of that
    line, and it is reported as valid exactly with three samples that span three intervals. *)
Theorem linear_series_slope (b : trend_buffer) (now window a c : Z) :
  let used := List.filter (in_window now window) (samples_ b) in
  0 < interval_ b -> Forall (fun s => value s = a * ts s + c) used ->
  let r := slope_over now window b in
  samples r = zlength used /\
  (valid r = true <-> 3 <= samples r /\ 3 * interval_ b <= span r) /\
  (valid r = true -> (slope r == inject_Z a)%Q).
Proof.
  intros used I F. unfold slope_over. fold used. set (n := zlength used). set (sp := _ - _). cbn -[used n sp fold_left].
  destruct (Z.ltb_spec n 3) as [N|N]; [cbn; split; [done|]; split; [|done]; split; [done|lia]|].
  destruct (Z.ltb_spec sp (min_span b)) as [P|P]; unfold min_span in P; [cbn; split; [done|]; split; [|done]; split; [done|lia]|].
  cbn [orb]. set (mt := (fold_left _ used (inject_Z 0) / inject_Z n)%Q). set (my := (fold_left _ used (inject_Z 0) / inject_Z n)%Q).
  assert (my == inject_Z a * mt + inject_Z c)%Q as Hm.
  { unfold my, mt. rewrite !fold_qsum.
    rewrite (qsum_ext (fun s => inject_Z (value s)) (fun s => inject_Z a * inject_Z (ts s) + inject_Z c)%Q).
    2: { eapply Forall_impl; [exact F|]. intros s E. cbn. rewrite E, inject_Z_plus, inject_Z_mult. reflexivity. }
    rewrite qsum_linear. change (inject_Z 0) with 0%Q. fold n. field. intros Z0. assert (n = 0) by (unfold Qeq in Z0; simpl in Z0; lia). lia. }
  set (dt := fun s => (inject_Z (ts s) - mt)%Q). set (stt := fold_left _ used (inject_Z 0)). set (sty := fold_left _ used (inject_Z 0)).
  assert (stt == qsum (fun s => dt s * dt s) used)%Q as Htt by (unfold stt; rewrite fold_qsum; apply Qplus_0_l).
  assert (sty == inject_Z a * stt)%Q as Hty.
  { rewrite Htt. unfold sty. rewrite fold_qsum, <-qsum_scale. change (inject_Z 0) with 0%Q. rewrite Qplus_0_l. apply qsum_ext.
    eapply Forall_impl; [exact F|]. intros s E. cbn. rewrite E, inject_Z_plus, inject_Z_mult, Hm. unfold dt. ring. }
  destruct (qsum_squares dt used) as [Q1 Q2]. assert (~ (stt <= 0)%Q) as Hpos.
  { intros L. assert (qsum (fun s => dt s * dt s) used == 0)%Q as E by (apply Qle_antisym; [by rewrite <-Htt|done]). apply Q2 in E.
    unfold sp in P. rewrite Forall_forall in E. destruct used as [|x u] eqn:U; [by cbn in N|].
    destruct (last (x :: u)) as [z|] eqn:Z; [|by apply last_None in Z]. rewrite last_lookup in Z. apply list_elem_of_lookup_2, E in Z.
    pose proof (E x ltac:(set_solver)) as X. unfold dt in X, Z.
    assert (inject_Z (ts x) == inject_Z (ts z))%Q as W by lra. unfold Qeq in W. simpl in W. lia. }
  assert (Qle_bool stt (inject_Z 0) = false) as ->.
  { apply not_true_iff_false. intros L%Qle_bool_imp_le. done. }
  cbn. split; [done|]. split; [split; [lia|done]|]. intros _. rewrite Hty. field. intros Z0. apply Hpos. rewrite Z0. apply Qle_refl.
Qed.

Definition growth : trend_buffer := mkTrend [mkSample 0 7; mkSample 300 607; mkSample 600 1207; mkSample 900 1807] 300 604800 5 true.
Lemma linear_series_witness :
  let r := slope_over 900 86400 growth in samples r = 4 /\ valid r = true /\ (slope r == 2)%Q.
Proof.
  destruct (linear_series_slope growth 900 86400 2 7) as (S & V & E); [done|by repeat constructor|].
  split; [by rewrite S|]. assert (valid (slope_over 900 86400 growth) = true) as T by (apply V; vm_compute; done).
  split; [exact T|exact (E T)].
Defined.
End Linear.

(** ** Witnesses *)

Definition two_days : list trend_op :=
  [Append 1000 5 100; Append 1100 6 100; Append 1400 9 100; Append 90000 40 100; Save 0 90000; Append 90300 41 100].
Lemma trend_ring_witness :
  let b := fold_left (trend_step 300 86400) two_days (new_trend 300 86400) in
  zlength (samples_ b) <= 86400 / 300 + 1 /\ zlength (samples_ b) = 2 /\ forall x, x ∈ samples_ b -> newest_ts b - 86400 <= ts x <= newest_ts b.
Proof.
  destruct (trend_ring_bounded 300 86400 two_days) as (A & _ & C); [done|done|]. split; [exact A|]. split; [vm_compute; reflexivity|exact C].
Defined.
Lemma trend_roundtrip_witness :
  let b := fold_left (trend_step 300 86400) two_days (new_trend 300 86400) in
  samples_ (decode (encode 60 b) 300 86400 90400) = samples_ b.
Proof.
  assert (fold_left (trend_step 300 86400) two_days (new_trend 300 86400) = mkTrend [mkSample 90000 40; mkSample 90300 41] 300 86400 100 true) as E
    by (vm_compute; reflexivity).
  apply (trend_roundtrip 300 86400 two_days 60 90400); [done|done| | |done]; rewrite E; unfold in_s; repeat constructor; cbn; lia.
Defined.
