(* ===== verification/ResultStore.v ===== *)
(** The cache of passive results: modules/WEBServer/result_store.cpp, the submission handler
    of modules/WEBServer/WEBServer.cpp that fills it and the part of
    modules/WEBServer/results_controller.cpp that polls it.

    Every operation waits for the lock of the store for a limited time.  Whether it got it is
    an argument, [owns_lock]. *)

From stdpp Require Import base list gmap sets strings.
From Stdlib Require Import Ascii ZArith Lia SpecFloat.
From Stdlib Require String.
From S2P Require Import Prelude Strings Format NumberText PerfData Expression Ordering Eviction AccessPolicy.
Import String.StringSyntax.

Local Open Scope Z_scope.

(** ** Entries *)

Record result_entry := mkResult {
  key : cppstring; channel : cppstring; host : cppstring; source : cppstring; command : cppstring; alias : cppstring;
  status : Z; message : cppstring; perf : cppstring;
  index : Z; count : Z; first_seen : Z; last_seen : Z; result_seen : Z }.

Inductive cache_mode := mode_last | mode_worst.
#[global] Instance cache_mode_eq_dec : EqDecision cache_mode. Proof. solve_decision. Defined.

Record result_filter := mkFilter { f_channel : cppstring; f_host : cppstring; f_command : cppstring; f_alias : cppstring; statuses : list Z }.
Definition any : result_filter := mkFilter [] [] [] [] [].

(** A field that is not set matches everything. *)
Definition field_matches (wanted actual : cppstring) : bool := match wanted with [] => true | _ => iequals wanted actual end.
Definition matches (f : result_filter) (e : result_entry) : bool :=
  field_matches (f_channel f) (channel e) && field_matches (f_host f) (host e) && field_matches (f_command f) (command e) &&
  field_matches (f_alias f) (alias e) && match statuses f with [] => true | l => bool_decide (status e ∈ l) end.

(** ** The store *)

Record result_store := mkStore {
  entries_ : gmap cppstring result_entry; enabled_ : bool; mode_ : cache_mode; clear_on_poll_ : bool;
  next_index_ : Z; max_entries_ : Z; max_age_ : Z }.
Definition kDefaultMaxEntries : Z := 1000.
Definition new_store : result_store := mkStore ∅ false mode_last true 0 kDefaultMaxEntries 0.
Definition with_entries (m : gmap cppstring result_entry) (s : result_store) : result_store :=
  mkStore m (enabled_ s) (mode_ s) (clear_on_poll_ s) (next_index_ s) (max_entries_ s) (max_age_ s).

Definition too_old (s : result_store) (now : Z) (e : result_entry) : bool := (max_age_ s >? 0) && (now - last_seen e >? max_age_ s).

Definition expire (now : Z) (s : result_store) : result_store :=
  if max_age_ s <=? 0 then s else with_entries (filter (fun kv => too_old s now kv.2 = false) (entries_ s)) s.

(** The entry with the lowest index; the map is walked in the order of its keys. *)
Definition oldest (m : gmap cppstring result_entry) : option cppstring := oldest_by index m.
Definition trim_loop (fuel : nat) (max : Z) (m : gmap cppstring result_entry) : gmap cppstring result_entry := evict_loop index fuel max m.
(** One entry goes per round, so there are at most as many rounds as entries. *)
Definition trim (s : result_store) : result_store := with_entries (trim_loop (size (entries_ s)) (max_entries_ s) (entries_ s)) s.

Definition stamp (e : result_entry) (idx cnt first last result : Z) : result_entry :=
  mkResult (key e) (channel e) (host e) (source e) (command e) (alias e) (status e) (message e) (perf e) idx cnt first last result.
Definition next_index (s : result_store) : Z * result_store :=
  (next_index_ s, mkStore (entries_ s) (enabled_ s) (mode_ s) (clear_on_poll_ s) (wrap_u 64 (next_index_ s + 1)) (max_entries_ s) (max_age_ s)).

Definition submit (owns_lock : bool) (entry : result_entry) (now : Z) (s : result_store) : bool * result_store :=
  if negb owns_lock then (false, s)
  else if negb (enabled_ s) then (false, s)
  else
    let s := expire now s in
    match entries_ s !! key entry with
    | None =>
        let '(idx, s) := next_index s in
        let stored := stamp entry idx 1 now now now in
        (true, trim (with_entries (<[key stored := stored]> (entries_ s)) s))
    | Some current =>
        let keep_current := bool_decide (mode_ s = mode_worst) && (status entry <? status current) in
        let winner := if keep_current then current else entry in
        let seen := if keep_current then result_seen current else now in
        let '(idx, s) := next_index s in
        (true, with_entries (<[key entry := stamp winner idx (wrap_u 64 (count current + 1)) (first_seen current) now seen]> (entries_ s)) s)
    end.

(** The entries in the order of their keys *)
Definition in_order (m : gmap cppstring result_entry) : list result_entry := (sort_by_key (map_to_list m)).*2.

Definition list_results (owns_lock : bool) (f : result_filter) (now : Z) (s : result_store) : list result_entry :=
  if negb owns_lock then [] else List.filter (fun e => negb (too_old s now e) && matches f e) (in_order (entries_ s)).

Definition drain (owns_lock : bool) (f : result_filter) (now : Z) (s : result_store) : list result_entry * result_store :=
  if negb owns_lock then ([], s)
  else (List.filter (fun e => negb (too_old s now e) && matches f e) (in_order (entries_ s)),
        with_entries (filter (fun kv => too_old s now kv.2 = false /\ matches f kv.2 = false) (entries_ s)) s).

Definition get (owns_lock : bool) (k : cppstring) (now : Z) (s : result_store) : option result_entry :=
  if negb owns_lock then None
  else match entries_ s !! k with Some e => if too_old s now e then None else Some e | None => None end.

Definition remove (owns_lock : bool) (k : cppstring) (now : Z) (s : result_store) : bool * result_store :=
  if negb owns_lock then (false, s)
  else match entries_ s !! k with
  | None => (false, s)
  | Some e => (negb (too_old s now e), with_entries (delete k (entries_ s)) s)
  end.

Definition clear (owns_lock : bool) (s : result_store) : Z * result_store :=
  if negb owns_lock then (0, s) else (Z.of_nat (size (entries_ s)), with_entries ∅ s).

Definition size_of (owns_lock : bool) (now : Z) (s : result_store) : Z :=
  if negb owns_lock then 0
  else if max_age_ s <=? 0 then Z.of_nat (size (entries_ s))
  else zlength (List.filter (fun e => now - last_seen e <=? max_age_ s) (in_order (entries_ s))).

Definition set_enabled (owns_lock : bool) (v : bool) (s : result_store) : result_store :=
  if negb owns_lock then s
  else mkStore (if v then entries_ s else ∅) v (mode_ s) (clear_on_poll_ s) (next_index_ s) (max_entries_ s) (max_age_ s).
Definition is_enabled (owns_lock : bool) (s : result_store) : bool := owns_lock && enabled_ s.
Definition set_mode (owns_lock : bool) (v : cache_mode) (s : result_store) : result_store :=
  if negb owns_lock then s else mkStore (entries_ s) (enabled_ s) v (clear_on_poll_ s) (next_index_ s) (max_entries_ s) (max_age_ s).
Definition get_mode (owns_lock : bool) (s : result_store) : cache_mode := if owns_lock then mode_ s else mode_last.
Definition set_clear_on_poll (owns_lock : bool) (v : bool) (s : result_store) : result_store :=
  if negb owns_lock then s else mkStore (entries_ s) (enabled_ s) (mode_ s) v (next_index_ s) (max_entries_ s) (max_age_ s).
Definition clear_on_poll (owns_lock : bool) (s : result_store) : bool := if owns_lock then clear_on_poll_ s else true.
Definition set_max_entries (owns_lock : bool) (v : Z) (s : result_store) : result_store :=
  if negb owns_lock then s
  else trim (mkStore (entries_ s) (enabled_ s) (mode_ s) (clear_on_poll_ s) (next_index_ s) (if v =? 0 then 1 else v) (max_age_ s)).
Definition set_max_age (owns_lock : bool) (seconds : Z) (s : result_store) : result_store :=
  if negb owns_lock then s
  else mkStore (entries_ s) (enabled_ s) (mode_ s) (clear_on_poll_ s) (next_index_ s) (max_entries_ s) (if seconds <? 0 then 0 else seconds).

(** [boost::algorithm::trim] and [to_lower] *)
Definition parse_mode (value : cppstring) : option cache_mode :=
  let name := to_lower (trim_space value) in
  if bool_decide (name = str "last") then Some mode_last else if bool_decide (name = str "worst") then Some mode_worst else None.
Definition mode_name (m : cache_mode) : cppstring := match m with mode_worst => str "worst" | mode_last => str "last" end.

(** ** Keys in a URL *)

Definition in_chars (lo hi c : ascii) : bool := Nat.leb (nat_of_ascii lo) (nat_of_ascii c) && Nat.leb (nat_of_ascii c) (nat_of_ascii hi).
Definition is_unreserved (c : ascii) : bool :=
  in_chars "a"%char "z"%char c || in_chars "A"%char "Z"%char c || in_chars "0"%char "9"%char c ||
  bool_decide (c ∈ ["-"%char; "_"%char; "."%char; "~"%char; "/"%char]).
(** -1 in the source is [None]. *)
Definition hex_value (c : ascii) : option nat :=
  if in_chars "0"%char "9"%char c then Some (nat_of_ascii c - 48)%nat
  else if in_chars "a"%char "f"%char c then Some (nat_of_ascii c - 87)%nat
  else if in_chars "A"%char "F"%char c then Some (nat_of_ascii c - 55)%nat
  else None.
Definition hex_digit (n : nat) : ascii := nth n (str "0123456789ABCDEF") "0"%char.

Definition encode_char (c : ascii) : cppstring :=
  if is_unreserved c then [c]
  else ["%"%char; hex_digit (nat_of_ascii c / 16); hex_digit (nat_of_ascii c mod 16)].
Definition result_key_encode (key : cppstring) : cppstring := concat (map encode_char key).

Fixpoint result_key_decode (encoded : cppstring) : cppstring :=
  match encoded with
  | [] => []
  | c :: rest =>
      match rest with
      | h :: l :: rest' =>
          if bool_decide (c = "%"%char) then
            match hex_value h, hex_value l with
            | Some hi, Some lo => ascii_of_nat (hi * 16 + lo) :: result_key_decode rest'
            | _, _ => c :: result_key_decode rest
            end
          else c :: result_key_decode rest
      | _ => c :: result_key_decode rest
      end
  end.

(** ** The key of a result *)

Definition kDefaultExpression : cppstring := str "${host}/${alias-or-command}".
Definition key_variables : list cppstring := map str ["host"; "source"; "channel"; "command"; "alias"; "alias-or-command"]%string.

(** A token is a text or the name of a variable; a variable has no text. *)
Record token := mkToken { text : cppstring; tvariable : cppstring }.
Definition token_of (e : Expression.entry) : token := if is_variable e then mkToken [] (name e) else mkToken (name e) [].

(** The tokens of an expression, or the error it has *)
Fixpoint tokens_of (es : list Expression.entry) : list token + cppstring :=
  match es with
  | [] => inl []
  | e :: es' =>
      if negb (is_variable e) || bool_decide (name e ∈ key_variables)
      then match tokens_of es' with inl ts => inl (token_of e :: ts) | inr err => inr err end
      else inr (str "Invalid primary index variable: " ++ name e)
  end.
Definition default_tokens : list token := map token_of (Expression.parse kDefaultExpression).

(** The tokens that are used from now on, and the error *)
Definition formatter_parse (expression : cppstring) : list token * cppstring :=
  let source := match expression with [] => kDefaultExpression | _ => expression end in
  match tokens_of (Expression.parse source) with
  | inl ts => (ts, [])
  | inr err => (default_tokens, err)
  end.

Definition format_token (e : result_entry) (t : token) : cppstring :=
  match tvariable t with
  | [] => text t
  | v =>
      if bool_decide (v = str "host") then host e
      else if bool_decide (v = str "source") then source e
      else if bool_decide (v = str "channel") then channel e
      else if bool_decide (v = str "command") then command e
      else if bool_decide (v = str "alias") then alias e
      else if bool_decide (v = str "alias-or-command") then match alias e with [] => command e | a => a end
      else []
  end.
Definition format_key (ts : list token) (e : result_entry) : cppstring := concat (map (format_token e) ts).

(** ** Submissions *)

Record Host := mkHost { host_id : cppstring; host_name : cppstring; host_address : cppstring }.
Record Header := mkHeader { sender_id : cppstring; hosts : list Host }.
Inductive ResultCode := OK | WARNING | CRITICAL | UNKNOWN.
Record Line := mkLine { line_message : cppstring; line_perf : list PerformanceData }.
Record Response := mkResponse { r_command : cppstring; r_alias : cppstring; r_result : ResultCode; r_lines : list Line }.

Definition gbp_to_nagios_status (r : ResultCode) : Z := match r with OK => 0 | WARNING => 1 | CRITICAL => 2 | UNKNOWN => 3 end.

Definition host_text (h : Host) : cppstring := match host_name h with [] => host_address h | n => n end.
Fixpoint resolve_loop (sender : cppstring) (hs : list Host) : cppstring :=
  match hs with
  | [] => sender
  | h :: hs' =>
      if negb (bool_decide (host_id h = sender)) then resolve_loop sender hs'
      else match host_text h with [] => resolve_loop sender hs' | t => t end
  end.
Definition resolve_host (hd : Header) : cppstring := resolve_loop (sender_id hd) (hosts hd).

(** The messages of the lines, one per line of text, and their performance data in a row *)
Definition append_line (acc : cppstring * cppstring) (l : Line) : cppstring * cppstring :=
  let '(msg, prf) := acc in
  let msg := (match msg with [] => [] | _ => msg ++ [c_newline] end) ++ line_message l in
  let text := match line_perf l with [] => [] | ps => build_performance_data ps no_truncation end in
  (msg, match text with [] => prf | _ => (match prf with [] => [] | _ => prf ++ str " " end) ++ text end).

Record result_config := mkConfig { local_hostname_ : cppstring; result_key_ : list token }.

Definition entry_of (cfg : result_config) (chan : cppstring) (request : Response) (hd : Header) : result_entry :=
  let '(msg, prf) := fold_left append_line (r_lines request) ([], []) in
  let h := match resolve_host hd with [] => local_hostname_ cfg | h => h end in
  let e := mkResult [] chan h (sender_id hd) (r_command request) (r_alias request) (gbp_to_nagios_status (r_result request)) msg prf 0 0 0 0 0 in
  mkResult (format_key (result_key_ cfg) e) chan h (sender_id hd) (r_command request) (r_alias request) (gbp_to_nagios_status (r_result request)) msg prf 0 0 0 0 0.

(** The answer to the submitter and the store.  The lock is taken twice: to ask whether the
    cache is on, and to store. *)
Definition handleNotification (owns_first owns_second : bool) (cfg : result_config) (now : Z) (chan : cppstring) (request : Response) (hd : Header)
    (s : result_store) : (bool * cppstring) * result_store :=
  if negb (is_enabled owns_first s) then ((false, str "Passive result cache is disabled"), s)
  else
    let entry := entry_of cfg chan request hd in
    match key entry with
    | [] => ((false, str "Result has no cache key, ignoring it"), s)
    | _ =>
        let '(stored, s) := submit owns_second entry now s in
        if stored then ((true, str "Result has been cached"), s) else ((false, str "Result was not cached"), s)
    end.

(** ** Polling *)

Definition parse_status (tok : cppstring) : option Z :=
  let v := to_lower (trim_space tok) in
  if bool_decide (v ∈ [str "ok"; str "0"]) then Some 0
  else if bool_decide (v ∈ [str "warning"; str "warn"; str "1"]) then Some 1
  else if bool_decide (v ∈ [str "critical"; str "crit"; str "2"]) then Some 2
  else if bool_decide (v ∈ [str "unknown"; str "3"]) then Some 3
  else None.

Definition status_name (status : Z) : cppstring :=
  if status =? 0 then str "OK" else if status =? 1 then str "WARNING" else if status =? 2 then str "CRITICAL" else str "UNKNOWN".

(** The statuses of a query, or the first that is none *)
Fixpoint parse_statuses (toks : list cppstring) : list Z + cppstring :=
  match toks with
  | [] => inl []
  | t :: ts =>
      match parse_status t with
      | None => inr t
      | Some st => match parse_statuses ts with inl l => inl (st :: l) | inr e => inr e end
      end
  end.

Record locks := mkLocks { l_enabled : bool; l_flag : bool; l_read : bool }.
Inductive poll_answer :=
  | Disabled
  | BadRequest (msg : cppstring)
  | Results (entries : list result_entry) (drained : bool).

(** [list_results] of the controller, after the session has been checked *)
Definition poll (lk : locks) (f : result_filter) (status_query : cppstring) (now : Z) (s : result_store) : poll_answer * result_store :=
  if negb (is_enabled (l_enabled lk) s) then (Disabled, s)
  else
    match parse_statuses (default [] (split_lst status_query (str ","))) with
    | inr t => (BadRequest (str "Invalid status filter: " ++ t), s)
    | inl sts =>
        let f := mkFilter (f_channel f) (f_host f) (f_command f) (f_alias f) sts in
        if clear_on_poll (l_flag lk) s
        then let '(l, s) := drain (l_read lk) f now s in (Results l true, s)
        else (Results (list_results (l_read lk) f now s) false, s)
    end.

(** The other routes; [captured] is the part of the path behind the base. *)
Inductive item_answer :=
  | ItemDisabled
  | NotFound (msg : cppstring)
  | Found (e : result_entry) (age : Z) (url_key : cppstring)
  | Removed (n : Z).

Definition age_of (now : Z) (e : result_entry) : Z := if now >? last_seen e then now - last_seen e else 0.

Definition get_result (lk : locks) (captured : cppstring) (now : Z) (s : result_store) : item_answer :=
  if negb (is_enabled (l_enabled lk) s) then ItemDisabled
  else
    let key := result_key_decode captured in
    match get (l_read lk) key now s with
    | None => NotFound (str "Result not found: " ++ key)
    | Some e => Found e (age_of now e) (result_key_encode (e.(ResultStore.key)))
    end.
Definition clear_results (lk : locks) (s : result_store) : item_answer * result_store :=
  if negb (is_enabled (l_enabled lk) s) then (ItemDisabled, s)
  else let '(n, s) := clear (l_read lk) s in (Removed n, s).
Definition delete_result (lk : locks) (captured : cppstring) (now : Z) (s : result_store) : item_answer * result_store :=
  if negb (is_enabled (l_enabled lk) s) then (ItemDisabled, s)
  else
    let key := result_key_decode captured in
    let '(removed, s) := remove (l_read lk) key now s in
    (if removed then Removed 1 else NotFound (str "Result not found: " ++ key), s).
