(* ===== verification/ResultStoreLaws.v ===== *)
(** What the cache of passive results guarantees. *)

From stdpp Require Import base list gmap sets strings sorting.
From Stdlib Require Import Ascii ZArith Lia.
From Stdlib Require String.
From S2P Require Import Prelude Strings Format PerfData Expression Ordering Eviction AccessPolicy ResultStore.
Import String.StringSyntax.

Local Open Scope Z_scope.

(** ** Eviction *)

Lemma trim_loop_subset fuel max m : trim_loop fuel max m ⊆ m.
Proof. apply evict_subset. Qed.
Lemma trim_loop_size fuel max m : 0 <= max -> (size m <= fuel)%nat -> Z.of_nat (size (trim_loop fuel max m)) <= max.
Proof. intros. by apply evict_size. Qed.
Lemma trim_loop_room fuel max m : Z.of_nat (size m) <= max -> trim_loop fuel max m = m.
Proof. apply evict_room. Qed.
Lemma trim_loop_oldest fuel max m k e k' e' : m !! k = Some e -> trim_loop fuel max m !! k = None ->
  trim_loop fuel max m !! k' = Some e' -> index e <= index e'.
Proof. apply (evict_oldest index). Qed.
Lemma trim_loop_nonempty fuel max m : 1 <= max -> m <> ∅ -> trim_loop fuel max m <> ∅.
Proof. intros. by apply evict_nonempty. Qed.

(** ** The operations *)

Inductive op :=
  | op_submit (e : result_entry) (now : Z) | op_drain (f : result_filter) (now : Z) | op_remove (k : cppstring) (now : Z) | op_clear
  | op_enabled (b : bool) | op_mode (m : cache_mode) | op_clear_on_poll (b : bool) | op_max_entries (n : N) | op_max_age (z : Z).
Definition step (s : result_store) (o : bool * op) : result_store :=
  let owns := o.1 in
  match o.2 with
  | op_submit e now => (submit owns e now s).2
  | op_drain f now => (drain owns f now s).2
  | op_remove k now => (remove owns k now s).2
  | op_clear => (clear owns s).2
  | op_enabled b => set_enabled owns b s
  | op_mode m => set_mode owns m s
  | op_clear_on_poll b => set_clear_on_poll owns b s
  | op_max_entries n => set_max_entries owns (Z.of_N n) s
  | op_max_age z => set_max_age owns z s
  end.

Definition entry_inv (n : Z) (k : cppstring) (e : result_entry) : Prop := key e = k /\ 0 <= index e < n /\ 1 <= count e <= n.
Record entries_inv (n : Z) (m : gmap cppstring result_entry) : Prop := {
  ei_entry k e : m !! k = Some e -> entry_inv n k e;
  ei_distinct k1 k2 e1 e2 : m !! k1 = Some e1 -> m !! k2 = Some e2 -> index e1 = index e2 -> k1 = k2 }.
Record store_inv (s : result_store) : Prop := {
  si_entries : entries_inv (next_index_ s) (entries_ s);
  si_size : Z.of_nat (size (entries_ s)) <= max_entries_ s;
  si_max : 1 <= max_entries_ s;
  si_age : 0 <= max_age_ s;
  si_off : enabled_ s = false -> entries_ s = ∅ }.

Lemma entries_inv_subset n m m' : entries_inv n m -> m' ⊆ m -> entries_inv n m'.
Proof.
  intros [I D] S. split; [intros k e H|intros k1 k2 e1 e2 H1 H2]; eauto using lookup_weaken.
Qed.
Lemma entries_inv_insert n m e : entries_inv n m -> 0 <= n -> index e = n -> 1 <= count e <= n + 1 -> entries_inv (n + 1) (<[key e := e]> m).
Proof.
  intros [I D] Hn Hi Hc. split.
  - intros k x [[<- <-]|[Ne Hx]]%lookup_insert_Some; [split_and!; [done|lia..]|]. destruct (I k x Hx) as (? & ? & ?). split_and!; [done|lia..].
  - intros k1 k2 e1 e2 [[<- <-]|[N1 H1]]%lookup_insert_Some [[<- <-]|[N2 H2]]%lookup_insert_Some E; [done|..].
    + destruct (I k2 e2 H2) as (_ & ? & _). lia.
    + destruct (I k1 e1 H1) as (_ & ? & _). lia.
    + by eapply D.
Qed.
Lemma size_subset (m m' : gmap cppstring result_entry) max : m' ⊆ m -> Z.of_nat (size m) <= max -> Z.of_nat (size m') <= max.
Proof. intros S%map_subseteq_size H. lia. Qed.

Lemma subset_empty (m : gmap cppstring result_entry) : m ⊆ ∅ -> m = ∅.
Proof. intros H. apply map_empty. intros k. destruct (m !! k) as [e|] eqn:E; [|done]. eapply lookup_weaken in E; [|exact H]. done. Qed.

(** Dropping entries keeps the invariant. *)
Lemma with_entries_inv m s : store_inv s -> m ⊆ entries_ s -> store_inv (with_entries m s).
Proof.
  intros [E S M A O] H. split; simpl; [by eapply entries_inv_subset|by eapply size_subset|done|done|].
  intros Hf. specialize (O Hf). rewrite O in H. by apply subset_empty.
Qed.
Lemma expire_inv now s : store_inv s -> store_inv (expire now s).
Proof. intros I. unfold expire. destruct (_ <=? _); [done|]. apply with_entries_inv; [done|]. apply map_filter_subseteq. Qed.
Lemma expire_fields now s : next_index_ (expire now s) = next_index_ s /\ max_entries_ (expire now s) = max_entries_ s /\ max_age_ (expire now s) = max_age_ s /\
  enabled_ (expire now s) = enabled_ s /\ mode_ (expire now s) = mode_ s.
Proof. unfold expire. by destruct (_ <=? _). Qed.

Lemma next_index_step s : 0 <= next_index_ s < 2 ^ 64 - 1 -> next_index_ (next_index s).2 = next_index_ s + 1.
Proof. intros H. unfold next_index. simpl. apply wrap_u_id. unfold in_u. lia. Qed.

Lemma submit_inv owns e now s : store_inv s -> 0 <= next_index_ s < 2 ^ 64 - 1 ->
  store_inv (submit owns e now s).2 /\ next_index_ (submit owns e now s).2 <= next_index_ s + 1 /\ next_index_ s <= next_index_ (submit owns e now s).2.
Proof.
  intros I Hn. unfold submit. destruct owns; [|simpl; split; [done|lia]]. destruct (enabled_ s) eqn:En; [|simpl; split; [done|lia]].
  pose proof (expire_inv now s I) as Ie. destruct (expire_fields now s) as (E1 & E2 & E3 & E4 & E5). simpl negb. cbv iota. set (x := expire now s) in *. clearbody x.
  assert (wrap_u 64 (next_index_ x + 1) = next_index_ s + 1) as Ew by (rewrite E1; apply wrap_u_id; unfold in_u; lia).
  destruct Ie as [[IE ID] IS IM IA IO]. destruct (entries_ x !! key e) as [cur|] eqn:Ec; cbn [next_index snd]; simpl next_index_; rewrite Ew; (split; [|lia]).
  - destruct (IE _ _ Ec) as (Ek & _ & Hc). set (win := if _ && _ then cur else e). assert (key win = key e) as Kw by (unfold win; by destruct (_ && _)).
    split; simpl; try done; [| |rewrite E4; congruence].
    + rewrite ?Ew. set (st := stamp win _ _ _ _ _). replace (key e) with (key st) by (unfold st; simpl; done). rewrite <-E1.
      apply entries_inv_insert; [done|lia|done|]. simpl. rewrite wrap_u_id by (unfold in_u; lia). lia.
    + rewrite map_size_insert_Some by (by exists cur). done.
  - set (st := stamp e _ _ _ _ _). assert (entries_inv (next_index_ s + 1) (<[key st := st]> (entries_ x))) as II.
    { rewrite <-E1. apply entries_inv_insert; [done|lia|done|]. simpl. lia. }
    split; simpl; try done; [| |rewrite E4; congruence].
    + rewrite ?Ew. eapply entries_inv_subset; [exact II|]. apply trim_loop_subset.
    + apply trim_loop_size; lia.
Qed.

Lemma step_inv s o : store_inv s -> 0 <= next_index_ s < 2 ^ 64 - 1 ->
  store_inv (step s o) /\ next_index_ (step s o) <= next_index_ s + 1 /\ next_index_ s <= next_index_ (step s o).
Proof.
  intros I Hn. destruct o as [owns o]. unfold step. cbn [fst snd]. destruct o as [e now|f now|k now| |b|m|b|n|z]; [by apply submit_inv|..].
  - unfold drain. destruct owns; (split; [|simpl; lia]); [|done]. apply with_entries_inv; [done|]. apply map_filter_subseteq.
  - unfold remove. destruct owns; [|split; [done|simpl; lia]]. simpl. destruct (entries_ s !! k); (split; [|simpl; lia]); [|done].
    apply with_entries_inv; [done|]. apply delete_subseteq.
  - unfold clear. destruct owns; (split; [|simpl; lia]); [|done]. apply with_entries_inv; [done|]. apply map_empty_subseteq.
  - unfold set_enabled. destruct owns; (split; [|simpl; lia]); [|done]. destruct I as [E S M A O]. destruct b; split; simpl; try done. rewrite map_size_empty. lia.
  - unfold set_mode. destruct owns; (split; [|simpl; lia]); [|done]. destruct I as [E S M A O]. by split.
  - unfold set_clear_on_poll. destruct owns; (split; [|simpl; lia]); [|done]. destruct I as [E S M A O]. by split.
  - unfold set_max_entries. destruct owns; (split; [|simpl; lia]); [|done]. destruct I as [E S M A O].
    assert (1 <= (if Z.of_N n =? 0 then 1 else Z.of_N n)) by (destruct (Z.eqb_spec (Z.of_N n) 0); lia).
    split; simpl; try done.
    + eapply entries_inv_subset; [exact E|]. apply trim_loop_subset.
    + apply trim_loop_size; lia.
    + intros Hf. rewrite (O Hf). apply subset_empty, trim_loop_subset.
  - unfold set_max_age. destruct owns; (split; [|simpl; lia]); [|done]. destruct I as [E S M A O]. split; simpl; try done. destruct (Z.ltb_spec z 0); lia.
Qed.

Definition run (ops : list (bool * op)) : result_store := fold_left step ops new_store.
Lemma run_inv ops : zlength ops < 2 ^ 64 -> store_inv (run ops) /\ 0 <= next_index_ (run ops) <= zlength ops.
Proof.
  induction ops as [|o ops IH] using rev_ind; intros L.
  { split; [|done]. split; simpl; [split; intros *; by rewrite lookup_empty|by rewrite map_size_empty|done..]. }
  rewrite zlength_app in L. change (zlength [o]) with 1 in L. destruct (IH ltac:(lia)) as (I & Hn). unfold run. rewrite fold_left_app. cbn [fold_left]. fold (run ops).
  destruct (step_inv (run ops) o I ltac:(lia)) as (I' & N1 & N2). split; [done|]. rewrite zlength_app. change (zlength [o]) with 1. lia.
Qed.

(** What a result says, less the stamps of the store *)
Definition payload_of (e : result_entry) : result_entry := stamp e 0 0 0 0 0.

(** The entry a submission leaves: its own, or in the mode that keeps the worst a worse one. *)
Definition left_by (s : result_store) (e : result_entry) (now : Z) (x : result_entry) : Prop :=
  index x = next_index_ s /\ last_seen x = now /\ (payload_of x = payload_of e \/ mode_ s = mode_worst /\ status e < status x).

(** A new key: what makes room for it was updated less recently than all that stays, and is
    never the new entry itself. *)
Lemma submit_evicts e now s : store_inv s -> 0 <= next_index_ s < 2 ^ 64 - 1 -> enabled_ s = true ->
  let s' := (submit true e now s).2 in
  (exists x, entries_ s' !! key e = Some x /\ left_by s e now x) /\
  (forall k x k' x', entries_ (expire now s) !! k = Some x -> entries_ s' !! k = None -> entries_ s' !! k' = Some x' -> index x < index x').
Proof.
  intros I Hn En. unfold submit. rewrite En. simpl negb. cbv iota. pose proof (expire_inv now s I) as Ie. destruct (expire_fields now s) as (E1 & E2 & _ & _ & E5).
  set (x := expire now s) in *. clearbody x. destruct Ie as [[IE ID] _ IM _ _]. destruct (entries_ x !! key e) as [cur|] eqn:Ec; cbn [next_index snd].
  - simpl. split.
    { eexists. rewrite lookup_insert_eq. split; [done|]. unfold left_by. simpl. split; [lia|]. split; [done|]. rewrite <-E5. destruct (_ && _) eqn:K; [right|by left].
      by apply andb_prop in K as [?%bool_decide_eq_true ?%Z.ltb_lt]. }
    intros k y k' y' Hy [? ?]%lookup_insert_None. congruence.
  - set (st := stamp e _ _ _ _ _). simpl. set (m := <[key e := st]> (entries_ x)). assert (m <> ∅) as Hne by (apply insert_non_empty).
    pose proof (trim_loop_nonempty (size m) (max_entries_ x) m IM Hne) as Ht. set (t := trim_loop (size m) (max_entries_ x) m) in *.
    assert (forall k y, m !! k = Some y -> k <> key e -> index y < next_index_ s) as Hold.
    { intros k y [[<- _]|[_ Hy]]%lookup_insert_Some N; [done|]. destruct (IE k y Hy) as (_ & ? & _). lia. }
    assert (t ⊆ m) as St by apply trim_loop_subset.
    assert (t !! key e = Some st) as Hst.
    { destruct (t !! key e) as [y|] eqn:Et; [f_equal; eapply lookup_weaken in Et; [|exact St]; unfold m in Et; rewrite lookup_insert_eq in Et; by simplify_eq|].
      exfalso. destruct (map_choose t Ht) as (k & y & Hy). pose proof (trim_loop_oldest _ _ m (key e) st k y ltac:(apply lookup_insert_eq) Et Hy) as L.
      assert (k <> key e) by congruence. eapply lookup_weaken in Hy; [|exact St]. specialize (Hold k y Hy ltac:(done)). simpl in L. lia. }
    split; [exists st; split; [done|]; unfold left_by; simpl; split; [lia|]; split; [done|by left]|]. intros k y k' y' Hy Hno Hy'.
    assert (k <> key e) as Nk by congruence. assert (m !! k = Some y) as Hm by (unfold m; by rewrite lookup_insert_ne).
    pose proof (trim_loop_oldest _ _ m k y k' y' Hm Hno Hy') as L. destruct (decide (k' = key e)) as [->|Nk'].
    + rewrite Hst in Hy'. simplify_eq. specialize (Hold k y Hm Nk). simpl. lia.
    + assert (m !! k' = Some y') as Hm' by (eapply lookup_weaken; [exact Hy'|done]). unfold m in Hm'. rewrite lookup_insert_ne in Hm' by done.
      assert (index y <> index y') as N by (intros E; rewrite (ID _ _ _ _ Hy Hm' E) in Hno; congruence). lia.
Qed.

(** However the cache is used, entries are filed under their own key with distinct update
    numbers, there are never more than the limit, none while the cache is off, and a submission
    is never evicted by its own arrival: what goes was updated less recently than all that
    stays. *)
Theorem result_store_invariant (ops : list (bool * op)) (L : zlength ops < 2 ^ 64 - 1) :
  let s := run ops in
  (forall k e, entries_ s !! k = Some e -> key e = k /\ 1 <= count e) /\
  (forall k1 k2 e1 e2, entries_ s !! k1 = Some e1 -> entries_ s !! k2 = Some e2 -> index e1 = index e2 -> k1 = k2) /\
  Z.of_nat (size (entries_ s)) <= max_entries_ s /\ (enabled_ s = false -> entries_ s = ∅) /\
  (forall e now, enabled_ s = true -> let s' := (submit true e now s).2 in
     is_Some (entries_ s' !! key e) /\
     forall k x k' x', entries_ (expire now s) !! k = Some x -> entries_ s' !! k = None -> entries_ s' !! k' = Some x' -> index x < index x').
Proof.
  intros s. destruct (run_inv ops ltac:(lia)) as [I Hn]. fold s in I, Hn. split_and!.
  - intros k e He. by destruct (ei_entry _ _ (si_entries _ I) k e He) as (? & _ & ? & _).
  - apply (ei_distinct _ _ (si_entries _ I)).
  - apply (si_size _ I).
  - apply (si_off _ I).
  - intros e now En. destruct (submit_evicts e now s I ltac:(lia) En) as [(x & Hx & _) Hl]. split; [by exists x|done].
Qed.

(** ** What a poll reports *)

Abbreviation submission := (result_entry * Z)%type.
Definition feed (subs : list submission) (s : result_store) : result_store := fold_left (fun s x => (submit true x.1 x.2 s).2) subs s.
(** The submissions for one key, in their order *)
Definition history (k : cppstring) (subs : list submission) : list submission := List.filter (fun x => bool_decide (key x.1 = k)) subs.
Definition submitted_keys (subs : list submission) : gset cppstring := list_to_set (map (fun x => key x.1) subs).

(** Which submission stands: the last one, or the last of the worst ones. *)
Definition stands (m : cache_mode) (h : list submission) (e : result_entry) (t : Z) : Prop :=
  exists before after, h = before ++ (e, t) :: after /\
  match m with
  | mode_last => after = []
  | mode_worst => Forall (fun x => status x.1 <= status e) before /\ Forall (fun x => status x.1 < status e) after
  end.

Definition tells (m : cache_mode) (h : list submission) (x : result_entry) : Prop :=
  (exists e t, stands m h e t /\ payload_of x = payload_of e /\ result_seen x = t) /\
  count x = zlength h /\ Some (first_seen x) = snd <$> head h /\ Some (last_seen x) = snd <$> last h.

Lemma stands_worst h e t : stands mode_worst h e t -> Forall (fun x => status x.1 <= status e) h.
Proof.
  intros (b & a & -> & Fb & Fa). apply Forall_app. split; [done|]. constructor; [done|]. eapply Forall_impl; [exact Fa|]. simpl. lia.
Qed.

Lemma history_snoc k subs x : history k (subs ++ [x]) = history k subs ++ if bool_decide (key x.1 = k) then [x] else [].
Proof. unfold history. rewrite List.filter_app. simpl. by case_bool_decide. Qed.
Lemma history_nil k subs : history k subs = [] <-> k ∉ submitted_keys subs.
Proof.
  unfold submitted_keys. rewrite elem_of_list_to_set. induction subs as [|x subs IH]; simpl; [set_solver|]. case_bool_decide as E; [subst; set_solver|].
  rewrite IH. set_solver.
Qed.

Lemma first_tells m e t idx : tells m [(e, t)] (stamp e idx 1 t t t).
Proof.
  split; [|done]. exists e, t. split; [|done]. exists [], []. split; [done|]. by destruct m.
Qed.

Lemma next_tells m h e t cur idx : tells m h cur -> h <> [] ->
  let keep := bool_decide (m = mode_worst) && (status e <? status cur) in
  tells m (h ++ [(e, t)]) (stamp (if keep then cur else e) idx (count cur + 1) (first_seen cur) t (if keep then result_seen cur else t)).
Proof.
  intros ((e0 & t0 & (b & a & Eh & St) & Ep & Er) & Hc & Hf & _) Hne keep. split.
  - assert (status cur = status e0) as Es by (apply (f_equal status) in Ep; done). destruct keep eqn:Ek; unfold keep in Ek.
    + apply andb_prop in Ek as [->%bool_decide_eq_true Ek%Z.ltb_lt]. exists e0, t0. split; [|done]. exists b, (a ++ [(e, t)]). destruct St as [Fb Fa].
      split; [by rewrite Eh, <-app_assoc|]. split; [done|]. apply Forall_app. split; [done|]. apply Forall_singleton. simpl. lia.
    + exists e, t. split; [|done]. exists h, []. split; [done|]. destruct m; [done|]. split; [|constructor].
      rewrite bool_decide_eq_true_2 in Ek by done. apply Z.ltb_ge in Ek. eapply Forall_impl; [apply (stands_worst h e0 t0); by exists b, a|]. simpl. lia.
  - simpl. rewrite zlength_app. change (zlength [(e, t)]) with 1. split; [lia|]. split; [|by rewrite last_snoc]. destruct h; [done|]. done.
Qed.

Section feeding.
Context (s : result_store) (Hon : enabled_ s = true) (Hage : max_age_ s = 0) (Hempty : entries_ s = ∅) (Hidx : 0 <= next_index_ s).

Definition fed (subs : list submission) (x : result_store) : Prop :=
    enabled_ x = true /\ max_age_ x = 0 /\ max_entries_ x = max_entries_ s /\ mode_ x = mode_ s /\ 0 <= next_index_ x <= next_index_ s + zlength subs /\
    dom (entries_ x) = submitted_keys subs /\ forall k, history k subs <> [] -> exists e, entries_ x !! k = Some e /\ tells (mode_ s) (history k subs) e.

Lemma history_length k subs : zlength (history k subs) <= zlength subs.
Proof using. induction subs as [|x subs IH]; [done|]. unfold history. cbn [List.filter]. fold (history k subs). destruct (bool_decide _); rewrite ?zlength_cons; lia. Qed.

Lemma feed_tells subs : next_index_ s + zlength subs < 2 ^ 64 -> Z.of_nat (size (submitted_keys subs)) <= max_entries_ s -> fed subs (feed subs s).
Proof using Hon Hage Hempty Hidx.
    induction subs as [|[e t] subs IH] using rev_ind; intros Ln Lk.
    { unfold fed. simpl. change (zlength (@nil submission)) with 0. split_and!; try done; try lia. by rewrite Hempty, dom_empty_L. }
    assert (submitted_keys (subs ++ [(e, t)]) = submitted_keys subs ∪ {[key e]}) as Ek by (unfold submitted_keys; rewrite map_app, list_to_set_app_L; simpl; set_solver).
    rewrite zlength_app in Ln. change (zlength [(e, t)]) with 1 in Ln. rewrite Ek in Lk.
    assert (size (submitted_keys subs) <= size (submitted_keys subs ∪ {[key e]}))%nat by (apply subseteq_size; set_solver).
    destruct (IH ltac:(lia) ltac:(lia)) as (F1 & F2 & F3 & F4 & F5 & F6 & F7). unfold feed. rewrite fold_left_app. cbn [fold_left fst snd]. fold (feed subs s).
    set (x := feed subs s) in *. unfold submit. rewrite F1. simpl negb. cbv iota. unfold expire. rewrite F2. cbn [Z.leb Z.compare]. cbv iota.
    assert (wrap_u 64 (next_index_ x + 1) = next_index_ x + 1) as Ew by (apply wrap_u_id; unfold in_u; lia).
    assert (forall k, k <> key e -> history k (subs ++ [(e, t)]) = history k subs) as Ho.
    { intros k N. rewrite history_snoc. cbn [fst]. by rewrite bool_decide_eq_false_2, app_nil_r by congruence. }
    assert (history (key e) (subs ++ [(e, t)]) = history (key e) subs ++ [(e, t)]) as Hk by (rewrite history_snoc; cbn [fst]; by rewrite bool_decide_eq_true_2).
    destruct (entries_ x !! key e) as [cur|] eqn:Ec; cbn [next_index snd].
    - assert (history (key e) subs <> []) as Hne. { intros N%history_nil. apply N. rewrite <-F6. apply elem_of_dom. by exists cur. }
      destruct (F7 _ Hne) as (cur' & Ec' & Tc). simplify_eq. unfold fed. simpl. rewrite zlength_app. change (zlength [(e, t)]) with 1. split_and!; try done; try lia.
      + rewrite dom_insert_L, Ek, F6. set_solver.
      + intros k Hh. destruct (decide (k = key e)) as [->|Nk].
        * rewrite lookup_insert_eq, Hk. eexists. split; [done|]. rewrite F4. destruct Tc as (T1 & Tn & T2). pose proof (history_length (key e) subs). pose proof (zlength_nonneg (history (key e) subs)).
          rewrite wrap_u_id by (unfold in_u; lia). by apply next_tells.
        * rewrite lookup_insert_ne by done. rewrite Ho in Hh |- * by done. by apply F7.
    - assert (history (key e) subs = []) as Hn. { apply history_nil. rewrite <-F6. by apply not_elem_of_dom. }
      unfold trim, fed. simpl. rewrite zlength_app. change (zlength [(e, t)]) with 1.
      set (st := stamp e (next_index_ x) 1 t t t). assert (dom (<[key e := st]> (entries_ x)) = submitted_keys (subs ++ [(e, t)])) as Ed by (rewrite dom_insert_L, Ek, F6; set_solver).
      rewrite (trim_loop_room _ _ (<[key e := st]> (entries_ x))) by (rewrite <-size_dom, Ed, Ek, F3; done).
      split_and!; try done; try lia. intros k Hh. destruct (decide (k = key e)) as [->|Nk].
      + rewrite lookup_insert_eq, Hk, Hn. eexists. split; [done|]. apply first_tells.
      + rewrite lookup_insert_ne by done. rewrite Ho in Hh |- * by done. by apply F7.
Qed.
End feeding.

Lemma in_order_in m e : e ∈ in_order m <-> exists k, m !! k = Some e.
Proof.
  unfold in_order. rewrite list_elem_of_fmap. split.
  - intros ([k x] & -> & H). exists k. by apply in_sorted.
  - intros [k H]. exists (k, e). split; [done|]. by apply in_sorted.
Qed.
Lemma in_order_keys m : (forall k e, m !! k = Some e -> key e = k) ->
  StronglySorted (fun a b => key_leb (key a) (key b) = true) (in_order m) /\ NoDup (map key (in_order m)).
Proof.
  intros Hk. unfold in_order. pose proof (sort_by_key_sorted (map_to_list m)) as S.
  assert (NoDup (sort_by_key (map_to_list m)).*1) as N by (rewrite sort_by_key_perm; apply NoDup_fst_map_to_list).
  assert (Forall (fun kv => key kv.2 = kv.1) (sort_by_key (map_to_list m))) as F by (apply Forall_forall; intros [k e] H; apply in_sorted in H; by apply Hk).
  induction S as [|[k e] l S IH Fl]; [split; constructor|]. apply Forall_cons in F as [E F]. apply NoDup_cons in N as [N1 N2]. destruct (IH N2 F) as [S' N']. cbn [fst snd] in *. split.
  - constructor; [done|]. apply Forall_fmap. rewrite Forall_forall in Fl, F |- *. intros [k' e'] H. pose proof (F _ H) as E'. simpl in E'. change (key_leb (key e) (key e') = true). rewrite E, E'. apply (Fl _ H).
  - cbn [fmap list_fmap map snd]. constructor; [|done]. rewrite E. intros (e' & Ee & H)%list_elem_of_fmap. apply N1. apply list_elem_of_fmap in H as ([k'' e''] & -> & H).
    rewrite Forall_forall in F. pose proof (F _ H) as E''. simpl in *. apply list_elem_of_fmap. exists (k'', e''). split; [simpl; congruence|done].
Qed.

Lemma filter_true {A} (p : A -> bool) l : (forall x, x ∈ l -> p x = true) -> List.filter p l = l.
Proof.
  induction l as [|x l IH]; intros H; [done|]. simpl. rewrite H by left. f_equal. apply IH. intros y Hy. apply H. by right.
Qed.
Lemma matches_any e : matches any e = true.
Proof. done. Qed.

(** C18. In a cache that is enabled and keeps entries whatever their age (max age 0): after any
    submissions to the empty cache with room for their keys, a draining poll returns exactly one
    entry per key, in the order of the keys, and empties the cache; each entry carries the last
    submission of its key, or in worst mode the last of the worst ones, with the number of
    submissions and the times of the first, of the last and of the one that stands: no problem
    that recovers between two polls goes unseen. *)
Theorem poll_reports_the_worst (s : result_store) (subs : list submission) (now : Z)
  (Hon : enabled_ s = true) (Hage : max_age_ s = 0) (Hempty : entries_ s = ∅) (Hidx : 0 <= next_index_ s)
  (Ln : next_index_ s + zlength subs < 2 ^ 64) (Lk : Z.of_nat (size (submitted_keys subs)) <= max_entries_ s) :
  let '(l, s') := drain true any now (feed subs s) in
  entries_ s' = ∅ /\ StronglySorted (fun a b => key_leb (key a) (key b) = true) l /\ NoDup (map key l) /\
  (forall k, k ∈ map key l <-> k ∈ submitted_keys subs) /\
  (forall x, x ∈ l -> tells (mode_ s) (history (key x) subs) x) /\
  (mode_ s = mode_worst -> forall x y, x ∈ l -> y ∈ subs -> key y.1 = key x -> status y.1 <= status x).
Proof.
  destruct (feed_tells s Hon Hage Hempty Hidx subs Ln Lk) as (_ & F2 & _ & _ & _ & F6 & F7). unfold drain. simpl negb. cbv iota.
  set (x := feed subs s) in *. assert (forall e, too_old x now e = false) as Hold by (intros e; unfold too_old; by rewrite F2).
  assert (forall k e, entries_ x !! k = Some e -> tells (mode_ s) (history k subs) e /\ key e = k) as Ht.
  { intros k e He. assert (history k subs <> []) as Hne. { intros N%history_nil. apply N. rewrite <-F6. apply elem_of_dom. by exists e. }
    destruct (F7 k Hne) as (e' & He' & T). simplify_eq. split; [done|]. destruct T as ((e0 & t0 & (b & a & Eh & _) & Ep & _) & _).
    assert ((e0, t0) ∈ history k subs) as Hin by (rewrite Eh; apply elem_of_app; right; left).
    unfold history in Hin. apply list_elem_of_In, List.filter_In in Hin as [_ Hin%bool_decide_eq_true]. apply (f_equal key) in Ep. simpl in *. congruence. }
  rewrite filter_true by (intros e _; rewrite Hold, matches_any; done). destruct (in_order_keys (entries_ x)) as [S N]; [intros k e He; by apply Ht|].
  assert (forall y, y ∈ in_order (entries_ x) -> tells (mode_ s) (history (key y) subs) y) as Htells.
  { intros y (k & Hk)%in_order_in. destruct (Ht k y Hk) as [T <-]. done. }
  split_and!; try done.
  - simpl. apply map_empty. intros k. apply map_lookup_filter_None. right. intros e _ [_ H]. by rewrite matches_any in H.
  - intros k. rewrite list_elem_of_fmap, <-F6, elem_of_dom. split.
    + intros (y & -> & (k' & Hy)%in_order_in). destruct (Ht k' y Hy) as [_ <-]. by exists y.
    + intros [y Hy]. exists y. destruct (Ht k y Hy) as [_ E]. split; [done|]. apply in_order_in. by exists k.
  - intros Em y z Hy Hz Ek. destruct (Htells y Hy) as ((e & t & St & Ep & _) & _). rewrite Em in St. apply stands_worst in St. rewrite Forall_forall in St.
    apply (f_equal status) in Ep. simpl in Ep. rewrite Ep. apply St. unfold history. apply list_elem_of_In, List.filter_In.
    split; [by apply list_elem_of_In|by apply bool_decide_eq_true].
Qed.

(** A filtered draining poll returns what a plain one would, drops exactly the entries it
    returns, and keeps every other entry that is not too old. *)
Theorem drain_loses_nothing (f : result_filter) (now : Z) (s : result_store) :
  let '(l, s') := drain true f now s in
  l = list_results true f now s /\
  forall k e, entries_ s !! k = Some e -> too_old s now e = false ->
    (matches f e = true -> e ∈ l /\ entries_ s' !! k = None) /\ (matches f e = false -> e ∉ l /\ entries_ s' !! k = Some e).
Proof.
  unfold drain. simpl negb. cbv iota. split; [done|]. intros k e He Ho. rewrite list_elem_of_In, List.filter_In. simpl. split; intros Hm.
  - split; [|apply map_lookup_filter_None; right; intros x Hx [_ H]; simplify_eq; simpl in H; congruence].
    split; [apply list_elem_of_In, in_order_in; by exists k|by rewrite Ho, Hm].
  - split; [|by apply map_lookup_filter_Some]. intros [_ H]. by rewrite Ho, Hm in H.
Qed.

(** ** Keys *)

Lemma encode_decode_char c rest : result_key_decode (encode_char c ++ rest) = c :: result_key_decode rest.
Proof.
  unfold encode_char. destruct (is_unreserved c) eqn:E.
  - cbn [app]. assert (c <> "%"%char) as N by (intros ->; done). destruct rest as [|h [|l rest]]; [done|done|]. cbn [result_key_decode]. by rewrite bool_decide_eq_false_2.
  - clear E. cbn [app]. cbn [result_key_decode]. rewrite bool_decide_eq_true_2 by done.
    assert (hex_value (hex_digit (nat_of_ascii c / 16)) = Some (nat_of_ascii c / 16)%nat /\ hex_value (hex_digit (nat_of_ascii c mod 16)) = Some (nat_of_ascii c mod 16)%nat) as [-> ->]
      by (destruct c as [[] [] [] [] [] [] [] []]; vm_compute; done).
    f_equal. replace (nat_of_ascii c / 16 * 16 + nat_of_ascii c mod 16)%nat with (nat_of_ascii c); [apply ascii_nat_embedding|].
    rewrite Nat.mul_comm. apply Nat.div_mod. done.
Qed.
Lemma encoded_char c : Forall (fun x => is_unreserved x = true \/ x = "%"%char) (encode_char c).
Proof.
  assert (forallb (fun x => is_unreserved x || bool_decide (x = "%"%char)) (encode_char c) = true) as H by (destruct c as [[] [] [] [] [] [] [] []]; vm_compute; done).
  rewrite forallb_forall in H. apply Forall_forall. intros x Hx%list_elem_of_In%H. apply orb_prop in Hx as [?|?%bool_decide_eq_true]; auto.
Qed.

Lemma key_roundtrip k : result_key_decode (result_key_encode k) = k /\ Forall (fun x => is_unreserved x = true \/ x = "%"%char) (result_key_encode k).
Proof.
  unfold result_key_encode. induction k as [|c k [IH1 IH2]]; [by split; [|constructor]|]. cbn [map concat]. rewrite encode_decode_char, IH1. split; [done|].
  apply Forall_app. split; [apply encoded_char|done].
Qed.

(** The encoded form of a key is made of unreserved characters and percent signs, and a request
    for it is served the entry of the key, whatever characters the key has. *)
Theorem result_key_roundtrip (k : cppstring) :
  Forall (fun x => is_unreserved x = true \/ x = "%"%char) (result_key_encode k) /\
  forall s e now, entries_ s !! k = Some e -> enabled_ s = true -> too_old s now e = false ->
    get_result (mkLocks true true true) (result_key_encode k) now s = Found e (age_of now e) (result_key_encode (key e)) /\
    (delete_result (mkLocks true true true) (result_key_encode k) now s).1 = Removed 1.
Proof.
  destruct (key_roundtrip k) as [R F]. split; [done|]. intros s e now He En Ho. unfold get_result, delete_result, get, remove. cbn [l_enabled l_read is_enabled andb negb].
  rewrite En, R, He, Ho. done.
Qed.

(** ** Submissions *)

(** A submitter that is told its result was cached finds it in the cache under a non-empty key,
    or in worst mode a worse one of that key; one that is told otherwise has changed nothing. *)
Theorem submissions_are_answered_truly (s : result_store) (owns_first owns_second : bool) (cfg : result_config) (now : Z) (chan : cppstring) (request : Response) (hd : Header)
  (I : store_inv s) (Hn : 0 <= next_index_ s < 2 ^ 64 - 1) :
  let '((ok, _), s') := handleNotification owns_first owns_second cfg now chan request hd s in
  if ok then key (entry_of cfg chan request hd) <> [] /\
             exists x, entries_ s' !! key (entry_of cfg chan request hd) = Some x /\ left_by s (entry_of cfg chan request hd) now x
  else s' = s.
Proof.
  unfold handleNotification. destruct (is_enabled owns_first s) eqn:En; [|done]. cbn [negb]. apply andb_prop in En as [_ En].
  set (e := entry_of cfg chan request hd). destruct (key e) as [|c r] eqn:Ek; [done|]. destruct owns_second.
  - destruct (submit_evicts e now s I Hn En) as [(x & Hx & Hl) _]. assert ((submit true e now s).1 = true) as Hs.
    { unfold submit. rewrite En. simpl negb. cbv iota. by destruct (entries_ (expire now s) !! key e). }
    destruct (submit true e now s) as [st s']. cbn [fst snd] in *. subst st. rewrite <-Ek. split; [by rewrite Ek|]. by exists x.
  - done.
Qed.

(** ** The primary index *)

(** An expression for the keys with an unknown variable is reported and replaced by the default
    one; any other is used as written, and the tokens in use name only the six known variables. *)
Theorem formatter_fails_safe (expression : cppstring) :
  let '(ts, err) := formatter_parse expression in
  Forall (fun t => tvariable t <> [] -> tvariable t ∈ key_variables) ts /\
  (err <> [] -> ts = default_tokens) /\
  (err = [] -> expression <> [] -> ts = map token_of (Expression.parse expression)).
Proof.
  assert (forall es, match tokens_of es with inl ts => ts = map token_of es /\ Forall (fun t => tvariable t <> [] -> tvariable t ∈ key_variables) ts | inr err => err <> [] end) as K.
  { induction es as [|e es IH]; cbn [tokens_of]; [by split; [|constructor]|]. destruct (negb (is_variable e) || _) eqn:V; [|done].
    destruct (tokens_of es) as [ts|err]; [|done]. destruct IH as [-> F]. split; [done|]. constructor; [|done]. unfold token_of.
    destruct (is_variable e); [|done]. cbn [negb orb] in V. apply bool_decide_eq_true in V. done. }
  unfold formatter_parse. set (src := match expression with [] => kDefaultExpression | _ => expression end). specialize (K (Expression.parse src)).
  destruct (tokens_of (Expression.parse src)) as [ts|err].
  - destruct K as [-> F]. split; [done|]. split; [done|]. intros _ Hne. unfold src. by destruct expression.
  - split; [|done]. assert (forallb (fun t => bool_decide (tvariable t = []) || bool_decide (tvariable t ∈ key_variables)) default_tokens = true) as D by (vm_compute; reflexivity).
    rewrite forallb_forall in D. apply Forall_forall. intros t Ht%list_elem_of_In%D Hne. apply orb_prop in Ht as [?%bool_decide_eq_true|?%bool_decide_eq_true]; done.
Qed.

(** ** Examples *)

Module Demo.
Definition report (k : String.string) (st : Z) (msg : String.string) : result_entry :=
  mkResult (str k) (str "CACHE") (str "srv1") [] (str "check_cpu") [] st (str msg) [] 0 0 0 0 0.
Definition worst_store : result_store := mkStore ∅ true mode_worst true 5 2 0.
(** A problem that has recovered before the poll, and another check *)
Definition reports : list submission :=
  [(report "srv1/cpu" 0 "fine", 100); (report "srv1/cpu" 2 "busy", 110); (report "srv1/mem" 1 "tight", 115); (report "srv1/cpu" 0 "fine again", 120)].

Lemma poll_witness :
  let '(l, s') := drain true any 130 (feed reports worst_store) in
  map (fun e => (key e, status e, message e, count e, first_seen e, result_seen e, last_seen e)) l =
    [(str "srv1/cpu", 2, str "busy", 3, 100, 110, 120); (str "srv1/mem", 1, str "tight", 1, 115, 115, 115)] /\
  entries_ s' = ∅ /\ (forall x y, x ∈ l -> y ∈ reports -> key y.1 = key x -> status y.1 <= status x).
Proof.
  assert (next_index_ worst_store + zlength reports < 2 ^ 64) as Ln by (vm_compute; reflexivity).
  assert (Z.of_nat (size (submitted_keys reports)) <= max_entries_ worst_store) as Lk by (vm_compute; discriminate).
  assert (0 <= next_index_ worst_store) as H0 by (vm_compute; discriminate).
  pose proof (poll_reports_the_worst worst_store reports 130 eq_refl eq_refl eq_refl H0 Ln Lk) as P.
  assert (map (fun e => (key e, status e, message e, count e, first_seen e, result_seen e, last_seen e)) (drain true any 130 (feed reports worst_store)).1 =
    [(str "srv1/cpu", 2, str "busy", 3, 100, 110, 120); (str "srv1/mem", 1, str "tight", 1, 115, 115, 115)]) as E by (vm_compute; reflexivity).
  destruct (drain true any 130 (feed reports worst_store)) as [l s']. destruct P as (P1 & _ & _ & _ & _ & P6). split; [exact E|]. split; [exact P1|]. exact (P6 eq_refl).
Defined.

Definition demo_ops : list (bool * op) :=
  [(true, op_enabled true); (true, op_max_entries 1); (true, op_submit (report "a" 0 "x") 1); (false, op_submit (report "c" 0 "x") 1); (true, op_submit (report "b" 0 "x") 2)].
Lemma store_witness : zlength demo_ops < 2 ^ 64 - 1 /\ Z.of_nat (size (entries_ (run demo_ops))) <= max_entries_ (run demo_ops) /\
  map fst (map_to_list (entries_ (run demo_ops))) = [str "b"].
Proof.
  assert (zlength demo_ops < 2 ^ 64 - 1) as L by (vm_compute; reflexivity). split; [exact L|]. split; [|vm_compute; reflexivity].
  exact (proj1 (proj2 (proj2 (result_store_invariant demo_ops L)))).
Defined.

Definition config : result_config := mkConfig (str "laptop") default_tokens.
Definition request : Response := mkResponse (str "check_cpu") [] CRITICAL [mkLine (str "busy") []].
Lemma submission_witness : store_inv worst_store /\
  (handleNotification true true config 100 (str "CACHE") request (mkHeader [] []) worst_store).1 = (true, str "Result has been cached") /\
  exists x, entries_ (handleNotification true true config 100 (str "CACHE") request (mkHeader [] []) worst_store).2 !! str "laptop/check_cpu" = Some x /\ last_seen x = 100.
Proof.
  assert (store_inv worst_store) as I by (split; simpl; [split; intros *; rewrite lookup_empty; discriminate|vm_compute; discriminate|lia|lia|discriminate]).
  assert (0 <= next_index_ worst_store < 2 ^ 64 - 1) as Hn by (split; vm_compute; [discriminate|reflexivity]). split; [exact I|].
  assert ((handleNotification true true config 100 (str "CACHE") request (mkHeader [] []) worst_store).1 = (true, str "Result has been cached")) as E by (vm_compute; reflexivity).
  split; [exact E|]. pose proof (submissions_are_answered_truly worst_store true true config 100 (str "CACHE") request (mkHeader [] []) I Hn) as P.
  destruct (handleNotification true true config 100 (str "CACHE") request (mkHeader [] []) worst_store) as [[ok msg] s']. cbn [fst snd] in *. injection E as -> _.
  destruct P as (_ & x & Hx & _ & Hl & _). exists x. split; [|exact Hl]. exact Hx.
Defined.

Example formatter_examples :
  formatter_parse (str "${host}:${service}") = (default_tokens, str "Invalid primary index variable: service") /\
  result_key_encode (str "srv 1/100%") = str "srv%201/100%25".
Proof. vm_compute. done. Qed.
End Demo.
