(* ===== verification/EventStore.v ===== *)
(** The events the web server keeps for its clients: modules/WEBServer/event_store.cpp and the
    listener of modules/WEBServer/WEBServer.cpp that fills it.

    As for the results, whether the lock was got in time is an argument. *)

From stdpp Require Import base list gmap strings.
From Stdlib Require Import Ascii ZArith Lia.
From S2P Require Import Prelude.

Local Open Scope Z_scope.

Record event_entry := mkEvent { index : Z; event : cppstring; date : cppstring; edata : gmap cppstring cppstring }.
Record event_store := mkStore { entries_ : list event_entry; next_index_ : Z; max_entries_ : Z }.
Definition new_store : event_store := mkStore [] 0 1000.

(** Events go from the front until the rest fits. *)
Definition pop_front (s : event_store) : event_store :=
  mkStore (drop (length (entries_ s) - Z.to_nat (max_entries_ s)) (entries_ s)) (next_index_ s) (max_entries_ s).

Definition add (owns_lock : bool) (ev : cppstring) (now : cppstring) (data : gmap cppstring cppstring) (s : event_store) : event_store :=
  if negb owns_lock then s
  else pop_front (mkStore (entries_ s ++ [mkEvent (next_index_ s) ev now data]) (wrap_u 64 (next_index_ s + 1)) (max_entries_ s)).
Definition list_events (owns_lock : bool) (s : event_store) : list event_entry := if owns_lock then entries_ s else [].
Definition pop_all (owns_lock : bool) (s : event_store) : list event_entry * event_store :=
  if owns_lock then (entries_ s, mkStore [] (next_index_ s) (max_entries_ s)) else ([], s).
Definition size_of (owns_lock : bool) (s : event_store) : Z := if owns_lock then zlength (entries_ s) else 0.
Definition set_max_entries (owns_lock : bool) (value : Z) (s : event_store) : event_store :=
  if negb owns_lock then s else pop_front (mkStore (entries_ s) (next_index_ s) (if value =? 0 then 1 else value)).

(** One request of an event message: a name and its fields, of which the last of a name counts *)
Record event_request := mkRequest { e_event : cppstring; e_data : list (cppstring * cppstring) }.
Definition fields_of (l : list (cppstring * cppstring)) : gmap cppstring cppstring := fold_left (fun m kv => <[kv.1 := kv.2]> m) l ∅.
(** Every line takes the lock for itself. *)
Definition onEvent (now : cppstring) (lines : list (bool * event_request)) (s : event_store) : event_store :=
  fold_left (fun s l => add l.1 (e_event l.2) now (fields_of (e_data l.2)) s) lines s.

(** ** Numbering *)

(** The events kept are the latest ones, numbered without a gap. *)
Fixpoint numbered (n : Z) (l : list event_entry) : Prop :=
  match l with [] => True | e :: l' => index e = n /\ numbered (n + 1) l' end.
Record store_inv (s : event_store) : Prop := {
  si_numbered : numbered (next_index_ s - zlength (entries_ s)) (entries_ s);
  si_size : zlength (entries_ s) <= max_entries_ s;
  si_max : 1 <= max_entries_ s }.

Lemma numbered_app n l l' : numbered n (l ++ l') <-> numbered n l /\ numbered (n + zlength l) l'.
Proof.
  revert n. induction l as [|e l IH]; intros n; cbn [app numbered]; [change (zlength (@nil event_entry)) with 0; rewrite Z.add_0_r; tauto|].
  rewrite IH, zlength_cons. replace (n + 1 + zlength l) with (n + (1 + zlength l)) by lia. tauto.
Qed.
Lemma numbered_drop k n l : numbered n l -> numbered (n + Z.of_nat (Nat.min k (length l))) (drop k l).
Proof.
  revert n l. induction k as [|k IH]; intros n l H; [by rewrite drop_0, Nat.min_0_l, Z.add_0_r|]. destruct l as [|e l]; [done|]. destruct H as [_ H].
  cbn [drop length Nat.min]. specialize (IH (n + 1) l H). by replace (n + Z.of_nat (S (Nat.min k (length l)))) with (n + 1 + Z.of_nat (Nat.min k (length l))) by lia.
Qed.

Lemma pop_front_inv s : numbered (next_index_ s - zlength (entries_ s)) (entries_ s) -> 1 <= max_entries_ s -> store_inv (pop_front s).
Proof.
  intros H M. split; simpl; [|unfold zlength; rewrite length_drop; lia|done]. apply (numbered_drop (length (entries_ s) - Z.to_nat (max_entries_ s))) in H.
  unfold zlength in *. rewrite length_drop.
  by replace (next_index_ s - Z.of_nat (length (entries_ s) - (length (entries_ s) - Z.to_nat (max_entries_ s))))
    with (next_index_ s - Z.of_nat (length (entries_ s)) + Z.of_nat (Nat.min (length (entries_ s) - Z.to_nat (max_entries_ s)) (length (entries_ s)))) by lia.
Qed.
Lemma add_inv owns ev now d s : store_inv s -> 0 <= next_index_ s < 2 ^ 64 - 1 -> store_inv (add owns ev now d s) /\ next_index_ (add owns ev now d s) <= next_index_ s + 1 /\
  next_index_ s <= next_index_ (add owns ev now d s).
Proof.
  intros [H S M] Hn. unfold add. destruct owns; [|split; [done|simpl; lia]]. simpl negb. cbv iota. simpl next_index_.
  assert (wrap_u 64 (next_index_ s + 1) = next_index_ s + 1) as Ew by (apply wrap_u_id; unfold in_u; lia). rewrite Ew. split; [|lia].
  apply pop_front_inv; [|done]. simpl. rewrite zlength_app. change (zlength [_]) with 1. apply numbered_app.
  replace (next_index_ s + 1 - (zlength (entries_ s) + 1)) with (next_index_ s - zlength (entries_ s)) by lia. split; [done|]. simpl. split; [lia|done].
Qed.

(** ** Operations *)

Inductive op := op_add (ev now : cppstring) (d : gmap cppstring cppstring) | op_pop | op_max (n : N).
Definition step (s : event_store) (o : bool * op) : event_store :=
  match o.2 with
  | op_add ev now d => add o.1 ev now d s
  | op_pop => (pop_all o.1 s).2
  | op_max n => set_max_entries o.1 (Z.of_N n) s
  end.
Definition run (ops : list (bool * op)) : event_store := fold_left step ops new_store.

Lemma event_step_inv s o : store_inv s -> 0 <= next_index_ s < 2 ^ 64 - 1 -> store_inv (step s o) /\ next_index_ s <= next_index_ (step s o) <= next_index_ s + 1.
Proof.
  intros I Hn. destruct o as [owns [ev now d| |n]]; unfold step; cbn [fst snd].
  - destruct (add_inv owns ev now d s I Hn) as (? & ? & ?). split; [done|lia].
  - destruct I as [H S M]. unfold pop_all. destruct owns; (split; [|simpl; lia]); [|done]. split; simpl; [done|change (zlength (@nil event_entry)) with 0; lia|done].
  - destruct I as [H S M]. unfold set_max_entries. destruct owns; (split; [|simpl; lia]); [|done]. apply pop_front_inv; [done|]. simpl. destruct (Z.eqb_spec (Z.of_N n) 0); lia.
Qed.
Lemma event_run_inv ops : zlength ops < 2 ^ 64 -> store_inv (run ops) /\ 0 <= next_index_ (run ops) <= zlength ops.
Proof.
  induction ops as [|o ops IH] using rev_ind; intros L; [split; [split; simpl; done|done]|]. rewrite zlength_app in L. change (zlength [o]) with 1 in L.
  destruct (IH ltac:(lia)) as [I Hn]. unfold run. rewrite fold_left_app. cbn [fold_left]. fold (run ops). destruct (event_step_inv _ o I ltac:(lia)) as [I' Hn'].
  split; [done|]. rewrite zlength_app. change (zlength [o]) with 1. lia.
Qed.

(** However it is used, the event store keeps at most its limit of events, and those it keeps
    are the latest ones, numbered without a gap. *)
Theorem event_store_invariant (ops : list (bool * op)) (L : zlength ops < 2 ^ 64) : store_inv (run ops).
Proof. by apply event_run_inv. Qed.

Module Demo.
Definition ops : list (bool * op) :=
  [(true, op_max 2); (true, op_add (str "a") [] ∅); (true, op_add (str "b") [] ∅); (false, op_add (str "x") [] ∅); (true, op_add (str "c") [] ∅)].
Lemma event_store_witness : zlength ops < 2 ^ 64 /\ store_inv (run ops) /\ map (fun e => (index e, event e)) (entries_ (run ops)) = [(1, str "b"); (2, str "c")].
Proof.
  assert (zlength ops < 2 ^ 64) as L by (vm_compute; reflexivity). split; [exact L|]. split; [exact (event_store_invariant ops L)|vm_compute; reflexivity].
Defined.
End Demo.
