(* ===== verification/Collectd.v ===== *)
(** The collectd client: include/net/collectd/collectd_packet.hpp and .cpp.

    A builder holds the metrics of a snapshot, expands the configured mappings into value
    lists, and renders them into datagrams of the collectd binary protocol.  CollectdLaws reads
    the datagrams back. *)

From stdpp Require Import base list gmap sets strings.
From coqutil Require Import Byte Word.LittleEndianList.
From Stdlib Require Import Ascii ZArith Lia SpecFloat.
From Stdlib Require String.
From S2P Require Import Prelude Bytes Strings Format NumberText PerfData Expression Ordering.
Import String.StringSyntax.

Local Open Scope Z_scope.

(** ** Constants *)

Definition part_host : Z := 0x0000.
Definition part_time_hr : Z := 0x0008.
Definition part_plugin : Z := 0x0002.
Definition part_plugin_instance : Z := 0x0003.
Definition part_type : Z := 0x0004.
Definition part_type_instance : Z := 0x0005.
Definition part_values : Z := 0x0006.
Definition part_interval_hr : Z := 0x0009.

Definition value_gauge : Z := 0x01.
Definition value_derive : Z := 0x02.

Definition max_packet_size : Z := 1452.
Definition max_string_length : Z := 127.
Definition string_part_overhead : Z := 5.
Definition values_part_overhead : Z := 6.
Definition number_part_size : Z := 12.
Definition bytes_per_value : Z := 9.

(** ** Packets *)

Definition to_bytes (s : cppstring) : list byte := map byte_of_ascii s.
Definition of_bytes (l : list byte) : cppstring := map ascii_of_byte l.

(** The bits of a double, as [memcpy] copies them. *)
Definition double_bits (v : double) : Z :=
  let sign (s : bool) := if s then 2 ^ 63 else 0 in
  match v with
  | S754_zero s => sign s
  | S754_infinity s => sign s + 2047 * 2 ^ 52
  | S754_nan => 2047 * 2 ^ 52 + 2 ^ 51
  | S754_finite s m e => sign s + if Zpos m <? 2 ^ 52 then Zpos m else (e + 1075) * 2 ^ 52 + (Zpos m - 2 ^ 52)
  end.

Record packet := mkPacket { buffer : list byte; clamped_values_ : Z }.
Definition empty_packet : packet := mkPacket [] 0.
Definition append (bs : list byte) (p : packet) : packet := mkPacket (buffer p ++ bs) (clamped_values_ p).
Definition clamp (n : Z) (p : packet) : packet := mkPacket (buffer p) (clamped_values_ p + n).

Definition remaining (p : packet) : Z := if zlength (buffer p) >=? max_packet_size then 0 else max_packet_size - zlength (buffer p).

Definition append_string (type : Z) (s : cppstring) (p : packet) : packet :=
  let budget := remaining p in
  if budget <? string_part_overhead then p
  else
    let data_len := Z.min (zlength s) (Z.min max_string_length (budget - string_part_overhead)) in
    let len := wrap_s 16 (data_len + string_part_overhead) in
    append (be_bytes 2 type ++ be_bytes 2 len ++ to_bytes (take (Z.to_nat data_len) s) ++ [x00]) p.

Definition append_int (type : Z) (v : Z) (p : packet) : packet :=
  append (be_bytes 2 type ++ be_bytes 2 number_part_size ++ be_bytes 8 v) p.

(** [append_value]: a gauge in little-endian, a derive in big-endian order *)
Definition gauge_bytes (v : double) : list byte := le_split 8 (double_bits v).
Definition derive_bytes (v : Z) : list byte := be_bytes 8 v.

Definition append_values {A} (value_type : Z) (value_bytes : A -> list byte) (values : list A) (p : packet) : packet :=
  let budget := remaining p in
  if budget <? values_part_overhead + bytes_per_value then clamp (zlength values) p
  else
    let count := Z.min (zlength values) ((budget - values_part_overhead) / bytes_per_value) in
    let body := replicate (Z.to_nat count) (byte.of_Z value_type) ++ concat (map value_bytes (take (Z.to_nat count) values)) in
    let len := wrap_s 16 (values_part_overhead + zlength body) in
    append (be_bytes 2 part_values ++ be_bytes 2 len ++ be_bytes 2 (wrap_s 16 count) ++ body) (clamp (zlength values - count) p).

Definition add_host := append_string part_host.
Definition add_plugin := append_string part_plugin.
Definition add_plugin_instance := append_string part_plugin_instance.
Definition add_type := append_string part_type.
Definition add_type_instance := append_string part_type_instance.
Definition add_gauge_value := append_values value_gauge gauge_bytes.
Definition add_derive_value := append_values value_derive derive_bytes.
Definition add_time_hr := append_int part_time_hr.
Definition add_interval_hr := append_int part_interval_hr.

(** ** The builder *)

Record metric_container := mkMetric {
  plugin_name : cppstring; plugin_instance : option cppstring; type_name : cppstring; type_instance : option cppstring;
  gauges : list double; derives : list Z }.

Record collectd_builder := mkBuilder {
  variables : list (cppstring * cppstring);
  metrics : gmap cppstring cppstring;
  counters : gset cppstring;
  labels : gmap cppstring (gset cppstring);
  rendererd_metrics : list metric_container;
  time_hr : Z; interval_hr : Z; host : cppstring }.

(** What the code uses of Boost.Regex: a pattern compiles or throws, and a match of the whole
    text yields the texts of its groups (or throws, past the engine's complexity limit). *)
Class regex_groups := {
  regex : Type;
  compile : cppstring -> result cppstring regex;
  match_groups : regex -> cppstring -> result cppstring (option (list cppstring)) }.

(** [boost::replace_all_copy] of a key that is not empty *)
Fixpoint replace_all (fuel : nat) (s key with_ : cppstring) : cppstring :=
  match fuel with
  | O => s
  | S fuel =>
      match find s key 0 with
      | Some j => take j s ++ with_ ++ replace_all fuel (drop (j + length key) s) key with_
      | None => s
      end
  end.
Definition replace_all_copy (s key with_ : cppstring) : cppstring := replace_all (S (length s)) s key with_.

Definition variable_names (keyword : cppstring) : list cppstring := map name (List.filter is_variable (Expression.parse keyword)).
(** [equal_range] of the multimap: the values of a name in the order they were inserted *)
Definition values_of (vars : list (cppstring * cppstring)) (n : cppstring) : list cppstring :=
  map snd (List.filter (fun kv => bool_decide (kv.1 = n)) vars).
Definition placeholder (n : cppstring) : cppstring := str "${" ++ n ++ str "}".

Definition expand_keyword (b : collectd_builder) (keyword value : cppstring) : list (cppstring * cppstring) :=
  match variable_names keyword with
  | [] => [(keyword, value)]
  | vars => concat (map (fun n => map (fun v => (replace_all_copy keyword (placeholder n) v, replace_all_copy value (placeholder n) v)) (values_of (variables b) n)) vars)
  end.

Definition set_variables (vs : list (cppstring * cppstring)) (b : collectd_builder) : collectd_builder :=
  mkBuilder vs (metrics b) (counters b) (labels b) (rendererd_metrics b) (time_hr b) (interval_hr b) (host b).
Definition label_prefix : cppstring := str "label:".

(** The metrics in the order of their keys *)
Definition metric_keys (b : collectd_builder) : list cppstring := (sort_by_key (map_to_list (metrics b))).*1.

Section variables_section.
Context `{regex_groups}.
Fixpoint matched_values (re : regex) (keys : list cppstring) : result cppstring (list cppstring) :=
  match keys with
  | [] => Ok []
  | k :: ks =>
      let* g := match_groups re k in
      let* rest := matched_values re ks in
      Ok (match g with Some groups => groups ++ rest | None => rest end)
  end.

Definition add_variable (key value : cppstring) (b : collectd_builder) : result cppstring collectd_builder :=
  if is_prefix label_prefix value then
    match labels b !! drop (length label_prefix) value with
    | None => Ok b
    | Some vs => Ok (set_variables (variables b ++ map (fun v => (key, v)) (sort_strings (elements vs))) b)
    end
  else
    let* re := compile value in
    let* vs := matched_values re (metric_keys b) in
    Ok (set_variables (variables b ++ map (fun v => (key, v)) vs) b).
End variables_section.

Definition add_label (n v : cppstring) (b : collectd_builder) : collectd_builder :=
  match n, v with
  | [], _ | _, [] => b
  | _, _ => mkBuilder (variables b) (metrics b) (counters b) (<[n := {[v]} ∪ default ∅ (labels b !! n)]> (labels b)) (rendererd_metrics b) (time_hr b) (interval_hr b) (host b)
  end.
Definition set_time (t i : Z) (b : collectd_builder) : collectd_builder :=
  mkBuilder (variables b) (metrics b) (counters b) (labels b) (rendererd_metrics b) t i (host b).
Definition set_host (h : cppstring) (b : collectd_builder) : collectd_builder :=
  mkBuilder (variables b) (metrics b) (counters b) (labels b) (rendererd_metrics b) (time_hr b) (interval_hr b) h.
Definition set_metric (key value : cppstring) (b : collectd_builder) : collectd_builder :=
  mkBuilder (variables b) (<[key := value]> (metrics b)) (counters b) (labels b) (rendererd_metrics b) (time_hr b) (interval_hr b) (host b).
Definition set_typed_metric (key value : cppstring) (is_counter : bool) (b : collectd_builder) : collectd_builder :=
  mkBuilder (variables b) (<[key := value]> (metrics b)) (if is_counter then {[key]} ∪ counters b else counters b ∖ {[key]}) (labels b)
    (rendererd_metrics b) (time_hr b) (interval_hr b) (host b).
Definition push_metric (m : metric_container) (b : collectd_builder) : collectd_builder :=
  mkBuilder (variables b) (metrics b) (counters b) (labels b) (rendererd_metrics b ++ [m]) (time_hr b) (interval_hr b) (host b).

(** ** Values *)

Section values_section.
Context `{lexical_double} `{lexical_int}.

Definition stox_double (s : cppstring) : double := default (S754_zero false) (cast_double s).
Definition stox_ull (s : cppstring) : Z := default 0 (lexical_cast 0 (2 ^ 64 - 1) s).

Definition starts_with_digit (s : cppstring) : bool := match s with c :: _ => isdigit c | [] => false end.

Fixpoint resolves_loop (b : collectd_builder) (keys : list cppstring) : bool :=
  match keys with
  | [] => false
  | k :: ks =>
      if bool_decide (k = []) || starts_with_digit k then resolves_loop b ks
      else match metrics b !! k with
           | None => resolves_loop b ks
           | Some _ => bool_decide (k ∈ counters b)
           end
  end.
Definition resolves_to_derive (b : collectd_builder) (keys : cppstring) : bool := resolves_loop b (default [] (split_lst keys (str ","))).

Definition with_gauge (m : metric_container) (v : double) : metric_container :=
  mkMetric (plugin_name m) (plugin_instance m) (type_name m) (type_instance m) (gauges m ++ [v]) (derives m).
Definition with_derive (m : metric_container) (v : Z) : metric_container :=
  mkMetric (plugin_name m) (plugin_instance m) (type_name m) (type_instance m) (gauges m) (derives m ++ [v]).

(** The value a key stands for; a counter is read as an unsigned number and kept as a signed
    one. *)
Definition append_value (b : collectd_builder) (m : metric_container) (vkey : cppstring) (is_derive : bool) : option metric_container :=
  match vkey with
  | [] => None
  | _ =>
      if starts_with_digit vkey then
        Some (if is_derive then with_derive m (to_int64_saturating (stox_double vkey)) else with_gauge m (stox_double vkey))
      else match metrics b !! vkey with
           | None => None
           | Some v => Some (if is_derive then with_derive m (wrap_s 64 (stox_ull v)) else with_gauge m (stox_double v))
           end
  end.

Fixpoint append_all (b : collectd_builder) (m : metric_container) (keys : list cppstring) (is_derive : bool) : option metric_container :=
  match keys with
  | [] => Some m
  | k :: ks => match append_value b m k is_derive with Some m' => append_all b m' ks is_derive | None => None end
  end.

(** [None] for a value list that must not be sent *)
Definition add_value (b : collectd_builder) (m : metric_container) (value : cppstring) : option metric_container :=
  let '(kind, keys) := split2 value (str ":") in
  let kind := if bool_decide (kind = str "auto") then (if resolves_to_derive b keys then str "derive" else str "gauge") else kind in
  if negb (bool_decide (kind = str "gauge")) && negb (bool_decide (kind = str "derive")) then None
  else
    match default [] (split_lst keys (str ",")) with
    | [] => None
    | ks => append_all b m ks (bool_decide (kind = str "derive"))
    end.

Definition render_value_list (b : collectd_builder) (m : metric_container) (value : cppstring) : collectd_builder :=
  match add_value b m value with Some m' => push_metric m' b | None => b end.

Definition add_types (value plugin : cppstring) (p_instance : option cppstring) (tpe : cppstring) (t_instance : option cppstring) (b : collectd_builder) : collectd_builder :=
  fold_left (fun b et =>
    match t_instance with
    | Some ti => fold_left (fun b ei => render_value_list b (mkMetric plugin p_instance et.1 (Some ei.1) [] []) ei.2) (expand_keyword b ti et.2) b
    | None => render_value_list b (mkMetric plugin p_instance et.1 None [] []) et.2
    end) (expand_keyword b tpe value) b.

(** A name and the instance behind its first dash *)
Definition split_instance (s : cppstring) : cppstring * option cppstring :=
  match find s (str "-") 0 with Some pos => (take pos s, Some (drop (pos + 1) s)) | None => (s, None) end.

Definition add_metric (key value : cppstring) (b : collectd_builder) : collectd_builder :=
  let '(plugin0, tpe0) := split2 key (str "/") in
  let '(plugin, p_instance) := split_instance plugin0 in
  let '(tpe, t_instance) := split_instance tpe0 in
  fold_left (fun b ep =>
    match p_instance with
    | Some pi => fold_left (fun b ei => add_types ei.2 ep.1 (Some ei.1) tpe t_instance b) (expand_keyword b pi ep.2) b
    | None => add_types ep.2 ep.1 None tpe t_instance b
    end) (expand_keyword b plugin value) b.
End values_section.

(** ** Rendering *)

(** The identifiers the current packet already carries *)
Record context := mkContext { last_plugin : cppstring; last_plugin_instance : cppstring; last_type : cppstring; last_type_instance : cppstring }.
Definition fresh_context : context := mkContext [] [] [] [].

Definition string_part_size (v : cppstring) : Z := string_part_overhead + Z.min (zlength v) max_string_length.
Definition name_size (v last : cppstring) : Z := if bool_decide (v = last) then 0 else string_part_size v.
Definition instance_size (v : option cppstring) (last : cppstring) : Z :=
  match v with
  | Some i => if bool_decide (last = i) then 0 else string_part_size i
  | None => match last with [] => 0 | _ => string_part_size [] end
  end.
Definition values_size (n : Z) : Z := if n =? 0 then 0 else values_part_overhead + bytes_per_value * n.

Definition metric_size (h : cppstring) (c : context) (m : metric_container) (fresh : bool) : Z :=
  let c := if fresh then fresh_context else c in
  (if fresh then string_part_size h + 2 * number_part_size else 0) +
  name_size (plugin_name m) (last_plugin c) + instance_size (plugin_instance m) (last_plugin_instance c) +
  name_size (type_name m) (last_type c) + instance_size (type_instance m) (last_type_instance c) +
  values_size (zlength (gauges m)) + values_size (zlength (derives m)).

Definition put_name (add : cppstring -> packet -> packet) (v last : cppstring) (p : packet) : packet := if bool_decide (v = last) then p else add v p.
Definition put_instance (add : cppstring -> packet -> packet) (v : option cppstring) (last : cppstring) (p : packet) : packet * cppstring :=
  match v with
  | Some i => if bool_decide (last = i) then (p, last) else (add i p, i)
  | None => match last with [] => (p, last) | _ => (add [] p, []) end
  end.
Definition put_values {A} (add : list A -> packet -> packet) (l : list A) (p : packet) : packet := match l with [] => p | _ => add l p end.

Record rendering := mkRendering { packets : list packet; current : packet; is_new : bool; ctx : context }.

Definition put_metric (m : metric_container) (p : packet) (c : context) : packet * context :=
  let p := put_name add_plugin (plugin_name m) (last_plugin c) p in
  let '(p, pi) := put_instance add_plugin_instance (plugin_instance m) (last_plugin_instance c) p in
  let p := put_name add_type (type_name m) (last_type c) p in
  let '(p, ti) := put_instance add_type_instance (type_instance m) (last_type_instance c) p in
  let p := put_values add_gauge_value (gauges m) p in
  let p := put_values add_derive_value (derives m) p in
  (p, mkContext (plugin_name m) pi (type_name m) ti).

Definition start_packet (b : collectd_builder) : packet :=
  add_interval_hr (interval_hr b) (add_time_hr (time_hr b) (add_host (host b) empty_packet)).

Definition render_metric (b : collectd_builder) (r : rendering) (m : metric_container) : rendering :=
  let r := if negb (is_new r) && (remaining (current r) <? metric_size (host b) (ctx r) m false)
           then mkRendering (packets r ++ [current r]) empty_packet true (ctx r) else r in
  let '(p, c) := if is_new r then (add_interval_hr (interval_hr b) (add_time_hr (time_hr b) (add_host (host b) (current r))), fresh_context) else (current r, ctx r) in
  let '(p, c) := put_metric m p c in
  mkRendering (packets r) p false c.

Definition render (b : collectd_builder) : list packet :=
  let r := fold_left (render_metric b) (rendererd_metrics b) (mkRendering [] empty_packet true fresh_context) in
  if zlength (buffer (current r)) >? 0 then packets r ++ [current r] else packets r.
