(* ===== verification/CollectdLaws.v ===== *)
(** What the datagrams of Collectd mean to a receiver.

    The receiver below is the protocol's side, as the comments of
    include/net/collectd/collectd_packet.hpp give it: a datagram is a sequence of parts, each
    type(2) length(2) payload; string and number parts set the identifiers that are in force, a
    values part ends a value list.  The theorems say that no datagram exceeds the size the
    receiver reads, and that the receiver gets exactly the value lists the builder holds. *)

From stdpp Require Import base list gmap sets strings.
From coqutil Require Import Byte Word.LittleEndianList.
From Stdlib Require Import Ascii ZArith Lia SpecFloat.
From Stdlib Require String.
From S2P Require Import Prelude Bytes Strings Format NumberText NumberRoundtrip PerfData Expression Ordering Collectd.
Import String.StringSyntax.

Local Open Scope Z_scope.

(** ** The receiver *)

Definition double_of_bits (z : Z) : double :=
  let s := 2 ^ 63 <=? z in
  let ex := z / 2 ^ 52 mod 2048 in
  let fr := z mod 2 ^ 52 in
  if ex =? 0 then match fr with Zpos m => S754_finite s m (-1074) | _ => S754_zero s end
  else if ex =? 2047 then (if fr =? 0 then S754_infinity s else S754_nan)
  else match fr + 2 ^ 52 with Zpos m => S754_finite s m (ex - 1075) | _ => S754_nan end.

Inductive value := Gauge (v : double) | Derive (v : Z).

Record identifiers := mkIds {
  id_host : list byte; id_time : Z; id_interval : Z;
  id_plugin : list byte; id_plugin_instance : list byte; id_type : list byte; id_type_instance : list byte }.
Definition no_ids : identifiers := mkIds [] 0 0 [] [] [] [].
Record value_list := mkValues { ids : identifiers; vals : list value }.

Definition set_string (type : Z) (s : list byte) (i : identifiers) : identifiers :=
  let '(mkIds h t n p pi ty ti) := i in
  if type =? part_host then mkIds s t n p pi ty ti
  else if type =? part_plugin then mkIds h t n s pi ty ti
  else if type =? part_plugin_instance then mkIds h t n p s ty ti
  else if type =? part_type then mkIds h t n p pi s ti
  else if type =? part_type_instance then mkIds h t n p pi ty s
  else i.
Definition set_number (type : Z) (v : Z) (i : identifiers) : identifiers :=
  let '(mkIds h t n p pi ty ti) := i in
  if type =? part_time_hr then mkIds h v n p pi ty ti else if type =? part_interval_hr then mkIds h t v p pi ty ti else i.

Definition is_string_part (type : Z) : bool :=
  (type =? part_host) || (type =? part_plugin) || (type =? part_plugin_instance) || (type =? part_type) || (type =? part_type_instance).
Definition is_number_part (type : Z) : bool := (type =? part_time_hr) || (type =? part_interval_hr).

Definition read_value (type : byte) (bs : list byte) : option value :=
  if byte.unsigned type =? value_gauge then Some (Gauge (double_of_bits (le_combine bs)))
  else if byte.unsigned type =? value_derive then Some (Derive (wrap_s 64 (be_value bs)))
  else None.

(** One value of eight bytes for each type code *)
Fixpoint read_values (types body : list byte) : option (list value) :=
  match types with
  | [] => match body with [] => Some [] | _ => None end
  | t :: ts => v ← read_value t (take 8 body); vs ← read_values ts (drop 8 body); Some (v :: vs)
  end.

Definition read_part (type : Z) (payload : list byte) (i : identifiers) : option (identifiers * list value_list) :=
  if is_string_part type then
    match last payload with Some x00 => Some (set_string type (cstr payload) i, []) | _ => None end
  else if is_number_part type then
    if decide (length payload = 8%nat) then Some (set_number type (be_value payload) i, []) else None
  else if type =? part_values then
    let count := Z.to_nat (be_value (take 2 payload)) in
    let body := drop 2 payload in
    if decide (length body = 9 * count)%nat
    then vs ← read_values (take count body) (drop count body); Some (i, [mkValues i vs]) else None
  else Some (i, []).

Fixpoint read_parts (fuel : nat) (bs : list byte) (i : identifiers) : option (identifiers * list value_list) :=
  match bs, fuel with
  | [], _ => Some (i, [])
  | _, O => None
  | _, S fuel =>
      let type := be_value (take 2 bs) in
      let len := Z.to_nat (be_value (read_at 2 2 bs)) in
      if decide (4 <= len <= length bs)%nat then
        '(i, out) ← read_part type (drop 4 (take len bs)) i;
        '(i, more) ← read_parts fuel (drop len bs) i;
        Some (i, out ++ more)
      else None
  end.

(** A datagram starts with no identifiers in force. *)
Definition receive (bs : list byte) : option (list value_list) := snd <$> read_parts (length bs) bs no_ids.
Fixpoint receive_all (l : list (list byte)) : option (list value_list) :=
  match l with [] => Some [] | d :: ds => a ← receive d; b ← receive_all ds; Some (a ++ b) end.

(** ** What was meant *)

(** A name as the wire carries it: up to a NUL, at most 127 bytes *)
Definition wire_name (s : cppstring) : list byte := cstr (to_bytes (take (Z.to_nat max_string_length) s)).
Definition wire_instance (s : option cppstring) : list byte := wire_name (default [] s).

Definition metric_ids (b : collectd_builder) (m : metric_container) : identifiers :=
  mkIds (wire_name (host b)) (time_hr b) (interval_hr b) (wire_name (plugin_name m)) (wire_instance (plugin_instance m))
    (wire_name (type_name m)) (wire_instance (type_instance m)).
Definition one_list (i : identifiers) (vs : list value) : list value_list := match vs with [] => [] | _ => [mkValues i vs] end.
Definition metric_lists (b : collectd_builder) (m : metric_container) : list value_list :=
  one_list (metric_ids b m) (map Gauge (gauges m)) ++ one_list (metric_ids b m) (map Derive (derives m)).

(** ** The bits of a double *)

Lemma double_bits_range v : d_valid v -> 0 <= double_bits v < 2 ^ 64.
Proof.
  unfold d_valid. destruct v as [[]|[]| |s m e]; cbn [double_bits]; [lia..|]. cbn [valid_binary]. intros H.
  destruct (bounded_cases m e H) as (He & Hm & _). destruct s, (Z.ltb_spec (Zpos m) (2 ^ 52)); lia.
Qed.

Lemma fields s ex fr : 0 <= ex < 2048 -> 0 <= fr < 2 ^ 52 ->
  let z := (if s : bool then 2 ^ 63 else 0) + (ex * 2 ^ 52 + fr) in
  (2 ^ 63 <=? z) = s /\ z / 2 ^ 52 mod 2048 = ex /\ z mod 2 ^ 52 = fr.
Proof.
  intros He Hf z. unfold z. split_and!.
  - destruct s; [apply Z.leb_le|apply Z.leb_gt]; lia.
  - replace (_ + _) with ((ex + (if s then 2048 else 0)) * 2 ^ 52 + fr) by (destruct s; lia).
    rewrite Z.div_add_l, (Z.div_small fr) by lia. destruct s; rewrite ?Z.add_0_r; [|by rewrite Z.mod_small by lia].
    replace (ex + 2048) with (ex + 1 * 2048) by lia. rewrite Z.mod_add by lia. by rewrite Z.mod_small by lia.
  - replace (_ + _) with (fr + (ex + (if s then 2048 else 0)) * 2 ^ 52) by (destruct s; lia).
    rewrite Z.mod_add by lia. by rewrite Z.mod_small by lia.
Qed.

Lemma double_bits_roundtrip v : d_valid v -> double_of_bits (double_bits v) = v.
Proof.
  unfold d_valid. destruct v as [[]|[]| |s m e]; [by vm_compute..|]. cbn [valid_binary]. intros H.
  destruct (bounded_cases m e H) as (He & Hm & Hsub & _). unfold double_bits. set (p52 := 2 ^ 52) in *.
  destruct (Z.ltb_spec (Zpos m) p52) as [L|G].
  - destruct (fields s 0 (Zpos m) ltac:(lia) ltac:(fold p52; lia)) as (A & B & C). unfold double_of_bits.
    replace (_ + _) with ((if s then 2 ^ 63 else 0) + (0 * 2 ^ 52 + Zpos m)) by lia.
    rewrite A, B, C. cbn. destruct Hsub as [?| ->]; [lia|done].
  - destruct (fields s (e + 1075) (Zpos m - p52) ltac:(lia) ltac:(unfold p52 in *; lia)) as (A & B & C). unfold double_of_bits.
    fold p52 in A, B, C |- *. rewrite A, B, C.
    destruct (Z.eqb_spec (e + 1075) 0); [lia|]. destruct (Z.eqb_spec (e + 1075) 2047); [lia|].
    replace (Zpos m - p52 + p52) with (Zpos m) by lia. f_equal. lia.
Qed.

(** ** Parts *)

Inductive part := PString (type : Z) (s : cppstring) | PNumber (type v : Z) | PGauges (l : list double) | PDerives (l : list Z).

Definition part_code (p : part) : Z := match p with PString t _ | PNumber t _ => t | PGauges _ | PDerives _ => part_values end.
Definition values_payload (type : Z) (vs : list (list byte)) : list byte :=
  be_bytes 2 (zlength vs) ++ replicate (length vs) (byte.of_Z type) ++ concat vs.
Definition payload (p : part) : list byte :=
  match p with
  | PString _ s => to_bytes (take (Z.to_nat max_string_length) s) ++ [x00]
  | PNumber _ v => be_bytes 8 v
  | PGauges l => values_payload value_gauge (map gauge_bytes l)
  | PDerives l => values_payload value_derive (map derive_bytes l)
  end.
Definition encode (p : part) : list byte := be_bytes 2 (part_code p) ++ be_bytes 2 (4 + zlength (payload p)) ++ payload p.

Definition part_kind (p : part) : Prop :=
  match p with
  | PString t _ => is_string_part t = true
  | PNumber t v => is_number_part t = true /\ in_u 64 v
  | PGauges l => Forall d_valid l
  | PDerives l => Forall (in_s 64) l
  end.
Definition part_ok (p : part) : Prop := part_kind p /\ 4 + zlength (payload p) <= max_packet_size.

Definition part_effect (p : part) (i : identifiers) : identifiers * list value_list :=
  match p with
  | PString t s => (set_string t (wire_name s) i, [])
  | PNumber t v => (set_number t v i, [])
  | PGauges l => (i, [mkValues i (map Gauge l)])
  | PDerives l => (i, [mkValues i (map Derive l)])
  end.

Lemma cstr_snoc_nul a : cstr (a ++ [x00]) = cstr a.
Proof. induction a as [|c a IH]; simpl; [done|]. case_if; [done|by rewrite IH]. Qed.

Lemma be_value_small n v : 0 <= v < 2 ^ (Z.of_nat n * 8) -> be_value (be_bytes n v) = v.
Proof. intros. rewrite be_value_be_bytes. by apply wrap_u_id. Qed.

Lemma read_values_spec {A} (type : Z) (enc : A -> list byte) (dec : A -> value) l :
  (forall a, length (enc a) = 8%nat) -> Forall (fun a => read_value (byte.of_Z type) (enc a) = Some (dec a)) l ->
  read_values (replicate (length l) (byte.of_Z type)) (concat (map enc l)) = Some (map dec l).
Proof.
  intros Hlen. induction 1 as [|a l Ha Hl IH]; [done|]. cbn [length replicate map concat read_values].
  rewrite (take_app_length' _ _ 8) by done. rewrite (drop_app_length' _ _ 8) by done.
  rewrite Ha. cbn. by rewrite IH.
Qed.

Lemma length_concat_map {A} (enc : A -> list byte) n l : (forall a, length (enc a) = n) -> length (concat (map enc l)) = (n * length l)%nat.
Proof. intros H. induction l as [|a l IH]; cbn; [lia|]. rewrite length_app, H, IH. lia. Qed.

Lemma length_values_payload {A} (type : Z) (enc : A -> list byte) l : (forall a, length (enc a) = 8%nat) ->
  zlength (values_payload type (map enc l)) = 2 + 9 * zlength l.
Proof.
  intros H. unfold values_payload, zlength. rewrite !length_app, length_be_bytes, length_replicate, (length_concat_map _ 8), length_map by done. lia.
Qed.

Lemma read_values_part {A} (type : Z) (enc : A -> list byte) (dec : A -> value) l i :
  (forall a, length (enc a) = 8%nat) -> Forall (fun a => read_value (byte.of_Z type) (enc a) = Some (dec a)) l -> zlength l < 2 ^ 16 ->
  read_part part_values (values_payload type (map enc l)) i = Some (i, [mkValues i (map dec l)]).
Proof.
  intros Hlen Hl Hsz. unfold read_part. change (is_string_part part_values) with false. change (is_number_part part_values) with false.
  change (part_values =? part_values) with true. cbv iota. unfold values_payload.
  rewrite (take_app_length' _ _ 2), (drop_app_length' _ _ 2) by by rewrite length_be_bytes.
  rewrite be_value_small by (unfold zlength in *; rewrite length_map; lia). unfold zlength. rewrite Nat2Z.id, length_map.
  rewrite decide_True by (rewrite length_app, length_replicate, (length_concat_map _ 8) by done; lia).
  rewrite take_app_length', drop_app_length' by by rewrite length_replicate. by rewrite (read_values_spec _ _ dec).
Qed.

Lemma read_gauge v : d_valid v -> read_value (byte.of_Z value_gauge) (gauge_bytes v) = Some (Gauge v).
Proof.
  intros Hv. unfold read_value, gauge_bytes. change (byte.unsigned (byte.of_Z value_gauge) =? value_gauge) with true. cbv iota.
  rewrite le_combine_split, Z.mod_small by (apply double_bits_range in Hv; lia). by rewrite double_bits_roundtrip.
Qed.
Lemma read_derive v : in_s 64 v -> read_value (byte.of_Z value_derive) (derive_bytes v) = Some (Derive v).
Proof.
  intros Hv. unfold read_value, derive_bytes. change (byte.unsigned (byte.of_Z value_derive) =? value_gauge) with false.
  change (byte.unsigned (byte.of_Z value_derive) =? value_derive) with true. cbv iota.
  rewrite be_value_be_bytes. change (Z.of_nat 8 * 8) with 64. by rewrite wrap_s_u.
Qed.

Lemma read_part_spec p i : part_ok p -> read_part (part_code p) (payload p) i = Some (part_effect p i).
Proof.
  unfold part_ok. destruct p as [t s|t v|l|l]; cbn [part_code payload part_effect part_kind]; intros [H Hsz].
  - unfold read_part. rewrite H, last_snoc, cstr_snoc_nul. done.
  - destruct H as [H Hv]. unfold read_part. replace (is_string_part t) with false.
    + rewrite H, decide_True by apply length_be_bytes. by rewrite be_value_small.
    + unfold is_number_part in H. apply orb_true_iff in H. destruct H as [E%Z.eqb_eq|E%Z.eqb_eq]; by rewrite E.
  - apply read_values_part; [intros; apply length_le_split| |].
    + eapply Forall_impl; [done|]. apply read_gauge.
    + rewrite length_values_payload in Hsz by (intros; apply length_le_split). unfold max_packet_size in Hsz. lia.
  - apply read_values_part; [intros; apply length_be_bytes| |].
    + eapply Forall_impl; [done|]. apply read_derive.
    + rewrite length_values_payload in Hsz by (intros; apply length_be_bytes). unfold max_packet_size in Hsz. lia.
Qed.

Lemma part_code_range p : part_ok p -> 0 <= part_code p < 2 ^ 16.
Proof.
  unfold part_ok, part_kind, is_string_part, is_number_part. destruct p; cbn [part_code]; [intros [H _]|intros [[H _] _]|unfold part_values; lia..];
    rewrite ?orb_true_iff in H; repeat destruct H as [H|H]; apply Z.eqb_eq in H; subst; by vm_compute.
Qed.

Fixpoint parts_effect (ps : list part) (i : identifiers) : identifiers * list value_list :=
  match ps with
  | [] => (i, [])
  | p :: ps => let '(i, out) := part_effect p i in let '(i, more) := parts_effect ps i in (i, out ++ more)
  end.

Lemma zlength_encode p : zlength (encode p) = 4 + zlength (payload p).
Proof. unfold encode, zlength. rewrite !length_app, !length_be_bytes. lia. Qed.

(** The receiver reads a sequence of parts as their effects. *)
Lemma read_parts_spec ps i fuel : Forall part_ok ps -> (length (concat (map encode ps)) <= fuel)%nat ->
  read_parts fuel (concat (map encode ps)) i = Some (parts_effect ps i).
Proof.
  intros H. revert i fuel. induction H as [|p ps Hp Hps IH]; intros i fuel Hf; [by destruct fuel|].
  cbn [map concat parts_effect] in *. rewrite length_app in Hf. pose proof (zlength_encode p) as Hl.
  set (rest := concat (map encode ps)) in *. pose proof (proj2 Hp) as Hsz. unfold max_packet_size in Hsz.
  assert (encode p ++ rest <> []) as Hne by (intros E; apply app_eq_nil in E as [E _]; rewrite E in Hl; unfold zlength in Hl; cbn in Hl; lia).
  destruct fuel as [|fuel]; [unfold zlength in *; lia|]. cbn [read_parts].
  destruct (encode p ++ rest) eqn:E; [done|]. rewrite <- E. clear Hne.
  assert (take 2 (encode p ++ rest) = be_bytes 2 (part_code p)) as ->.
  { unfold encode. rewrite <- app_assoc. apply take_app_length'. by rewrite length_be_bytes. }
  assert (read_at 2 2 (encode p ++ rest) = be_bytes 2 (4 + zlength (payload p))) as ->.
  { unfold encode. rewrite <- !app_assoc, (read_at_app_r 2) by by rewrite length_be_bytes. apply take_app_length'. by rewrite length_be_bytes. }
  rewrite !be_value_small by (first [apply part_code_range; done|unfold zlength in *; lia]). rewrite <- Hl. unfold zlength. rewrite Nat2Z.id.
  rewrite decide_True by (rewrite length_app; unfold zlength in Hl; lia).
  rewrite take_app_length, drop_app_length.
  assert (drop 4 (encode p) = payload p) as ->.
  { unfold encode. rewrite app_assoc. apply drop_app_length'. by rewrite length_app, !length_be_bytes. }
  rewrite read_part_spec by done. cbn. destruct (part_effect p i) as [i' out]. rewrite IH by (unfold zlength in *; lia).
  cbn. by destruct (parts_effect ps i').
Qed.

Lemma parts_effect_app ps qs i :
  parts_effect (ps ++ qs) i = let '(i, a) := parts_effect ps i in let '(i, b) := parts_effect qs i in (i, a ++ b).
Proof.
  revert i. induction ps as [|p ps IH]; intros i; cbn; [by destruct (parts_effect qs i)|].
  destruct (part_effect p i) as [i' out]. rewrite IH. destruct (parts_effect ps i') as [i2 a]. destruct (parts_effect qs i2). by rewrite app_assoc.
Qed.

(** ** Appending parts that fit *)

Definition parts_bytes (ps : list part) : list byte := concat (map encode ps).
Definition wrote (ps : list part) (p : packet) : packet := append (parts_bytes ps) p.

Lemma parts_bytes_app ps qs : parts_bytes (ps ++ qs) = parts_bytes ps ++ parts_bytes qs.
Proof. unfold parts_bytes. by rewrite map_app, concat_app. Qed.
Lemma wrote_nil p : wrote [] p = p.
Proof. destruct p. unfold wrote, append. cbn. by rewrite app_nil_r. Qed.
Lemma wrote_wrote ps qs p : wrote qs (wrote ps p) = wrote (ps ++ qs) p.
Proof. unfold wrote, append. cbn. by rewrite parts_bytes_app, app_assoc. Qed.
Lemma wrote_one q p : wrote [q] p = append (encode q) p.
Proof. unfold wrote, parts_bytes. cbn. by rewrite app_nil_r. Qed.


Lemma remaining_wrote ps p : zlength (parts_bytes ps) <= remaining p -> remaining (wrote ps p) = remaining p - zlength (parts_bytes ps).
Proof.
  unfold remaining, wrote, append. cbn [buffer]. rewrite zlength_app. pose proof (zlength_nonneg (parts_bytes ps)).
  destruct (Z.geb_spec (zlength (buffer p)) max_packet_size), (Z.geb_spec (zlength (buffer p) + zlength (parts_bytes ps)) max_packet_size); lia.
Qed.
Lemma remaining_max p : remaining p <= max_packet_size.
Proof. unfold remaining, max_packet_size. pose proof (zlength_nonneg (buffer p)). destruct (Z.geb_spec (zlength (buffer p)) 1452); lia. Qed.
Lemma remaining_nonneg p : 0 <= remaining p.
Proof. unfold remaining. destruct (Z.geb_spec (zlength (buffer p)) max_packet_size); lia. Qed.

Lemma be_bytes_wrap_s v : 0 <= v < 2 ^ 15 -> be_bytes 2 (wrap_s 16 v) = be_bytes 2 v.
Proof. intros. rewrite wrap_s_id; [done|lia|]. split; [transitivity 0; [by vm_compute|lia]|apply H]. Qed.

Lemma zlength_payload_string s t : 4 + zlength (payload (PString t s)) = string_part_size s.
Proof.
  cbn [payload]. unfold string_part_size, string_part_overhead, max_string_length, to_bytes, zlength.
  rewrite length_app, length_map, length_take. cbn [length]. lia.
Qed.

Lemma append_string_fits t s p : string_part_size s <= remaining p -> append_string t s p = wrote [PString t s] p.
Proof.
  intros H. rewrite wrote_one. unfold append_string. pose proof (remaining_max p). pose proof (zlength_payload_string s t) as Hp.
  unfold string_part_size, string_part_overhead, max_string_length, max_packet_size in *. pose proof (zlength_nonneg s).
  destruct (Z.ltb_spec (remaining p) 5); [lia|].
  replace (Z.min (zlength s) (Z.min 127 (remaining p - 5))) with (Z.min (zlength s) 127) by lia.
  f_equal. unfold encode. cbn [part_code]. f_equal. rewrite be_bytes_wrap_s by lia. f_equal.
  - f_equal. lia.
  - cbn [payload]. do 2 f_equal. unfold max_string_length. destruct (Z.min_spec (zlength s) 127) as [[? ->]|[? ->]]; [|done].
    unfold zlength in *. rewrite !take_ge by lia. done.
Qed.

Lemma append_values_fits {A} (type : Z) (enc : A -> list byte) l p : (forall a, length (enc a) = 8%nat) -> l <> [] ->
  values_size (zlength l) <= remaining p ->
  append_values type enc l p = append (be_bytes 2 part_values ++ be_bytes 2 (4 + zlength (values_payload type (map enc l))) ++ values_payload type (map enc l)) p.
Proof.
  intros Hlen Hne H. unfold append_values. pose proof (remaining_max p). unfold values_size, values_part_overhead, bytes_per_value, max_packet_size in *.
  assert (0 < zlength l) by (destruct l; [done|unfold zlength; cbn; lia]). destruct (Z.eqb_spec (zlength l) 0); [lia|].
  destruct (Z.ltb_spec (remaining p) (6 + 9)); [lia|].
  assert (zlength l <= (remaining p - 6) / 9) by (apply Z.div_le_lower_bound; lia).
  rewrite Z.min_l by done. replace (zlength l - zlength l) with 0 by lia.
  replace (clamp 0 p) with p by (destruct p; unfold clamp; cbn; by rewrite Z.add_0_r).
  rewrite length_values_payload by done. assert (Z.to_nat (zlength l) = length l) as -> by (unfold zlength; lia). rewrite take_ge by lia.
  assert (zlength (replicate (length l) (byte.of_Z type) ++ concat (map enc l)) = 9 * zlength l) as Hb.
  { unfold zlength. rewrite length_app, length_replicate, (length_concat_map _ 8) by done. lia. }
  f_equal. f_equal. rewrite Hb, !be_bytes_wrap_s by lia. f_equal; [f_equal; lia|].
  unfold values_payload, zlength. by rewrite length_map.
Qed.

Lemma add_gauge_fits l p : l <> [] -> values_size (zlength l) <= remaining p -> add_gauge_value l p = wrote [PGauges l] p.
Proof. intros. rewrite wrote_one. apply append_values_fits; [intros; apply length_le_split|done..]. Qed.
Lemma add_derive_fits l p : l <> [] -> values_size (zlength l) <= remaining p -> add_derive_value l p = wrote [PDerives l] p.
Proof. intros. rewrite wrote_one. apply append_values_fits; [intros; apply length_be_bytes|done..]. Qed.

(** ** One metric *)

Definition name_parts (t : Z) (v last : cppstring) : list part := if bool_decide (v = last) then [] else [PString t v].
Definition instance_parts (t : Z) (v : option cppstring) (last : cppstring) : list part := name_parts t (default [] v) last.
Definition values_parts {A} (f : list A -> part) (l : list A) : list part := match l with [] => [] | _ => [f l] end.
Definition metric_parts (c : context) (m : metric_container) : list part :=
  name_parts part_plugin (plugin_name m) (last_plugin c) ++ instance_parts part_plugin_instance (plugin_instance m) (last_plugin_instance c) ++
  name_parts part_type (type_name m) (last_type c) ++ instance_parts part_type_instance (type_instance m) (last_type_instance c) ++
  values_parts PGauges (gauges m) ++ values_parts PDerives (derives m).
Definition next_context (m : metric_container) : context :=
  mkContext (plugin_name m) (default [] (plugin_instance m)) (type_name m) (default [] (type_instance m)).

Lemma zlength_part p : zlength (parts_bytes [p]) = 4 + zlength (payload p).
Proof. unfold parts_bytes. cbn [map concat]. rewrite app_nil_r. apply zlength_encode. Qed.

Lemma zlength_name_parts t v last : zlength (parts_bytes (name_parts t v last)) = name_size v last.
Proof. unfold name_parts, name_size. case_bool_decide; [done|]. by rewrite zlength_part, zlength_payload_string. Qed.

Lemma instance_size_name v last : instance_size v last = name_size (default [] v) last.
Proof.
  unfold instance_size, name_size. destruct v as [i|]; cbn [from_option id].
  - repeat case_bool_decide; congruence.
  - destruct last; case_bool_decide; congruence.
Qed.

Lemma zlength_gauge_parts l : zlength (parts_bytes (values_parts PGauges l)) = values_size (zlength l).
Proof.
  destruct l as [|v l]; [done|]. cbn [values_parts]. rewrite zlength_part. cbn [payload]. rewrite length_values_payload by (intros; apply length_le_split).
  unfold values_size, values_part_overhead, bytes_per_value. destruct (Z.eqb_spec (zlength (v :: l)) 0); [unfold zlength in *; cbn in *|]; lia.
Qed.
Lemma zlength_derive_parts l : zlength (parts_bytes (values_parts PDerives l)) = values_size (zlength l).
Proof.
  destruct l as [|v l]; [done|]. cbn [values_parts]. rewrite zlength_part. cbn [payload]. rewrite length_values_payload by (intros; apply length_be_bytes).
  unfold values_size, values_part_overhead, bytes_per_value. destruct (Z.eqb_spec (zlength (v :: l)) 0); [unfold zlength in *; cbn in *|]; lia.
Qed.

Lemma zlength_metric_parts h c m : zlength (parts_bytes (metric_parts c m)) = metric_size h c m false.
Proof.
  unfold metric_parts, metric_size, instance_parts. rewrite !parts_bytes_app, !zlength_app, !zlength_name_parts, zlength_gauge_parts, zlength_derive_parts, !instance_size_name.
  lia.
Qed.

Lemma put_name_fits t v last p : zlength (parts_bytes (name_parts t v last)) <= remaining p ->
  put_name (append_string t) v last p = wrote (name_parts t v last) p.
Proof. rewrite zlength_name_parts. unfold put_name, name_size, name_parts. case_bool_decide; intros; [by rewrite wrote_nil|by apply append_string_fits]. Qed.

Lemma put_instance_name add v last p : put_instance add v last p = (put_name add (default [] v) last p, default [] v).
Proof.
  unfold put_instance, put_name. destruct v as [i|]; cbn [from_option id].
  - repeat case_bool_decide; congruence.
  - destruct last; case_bool_decide; congruence.
Qed.

Lemma put_gauges_fits l p : zlength (parts_bytes (values_parts PGauges l)) <= remaining p ->
  put_values add_gauge_value l p = wrote (values_parts PGauges l) p.
Proof. rewrite zlength_gauge_parts. destruct l; intros; [by rewrite wrote_nil|by apply add_gauge_fits]. Qed.
Lemma put_derives_fits l p : zlength (parts_bytes (values_parts PDerives l)) <= remaining p ->
  put_values add_derive_value l p = wrote (values_parts PDerives l) p.
Proof. rewrite zlength_derive_parts. destruct l; intros; [by rewrite wrote_nil|by apply add_derive_fits]. Qed.

Lemma part_size_nonneg ps : 0 <= zlength (parts_bytes ps).
Proof. apply zlength_nonneg. Qed.

Lemma put_metric_fits h c m p : metric_size h c m false <= remaining p -> put_metric m p c = (wrote (metric_parts c m) p, next_context m).
Proof.
  intros H. rewrite <- (zlength_metric_parts h) in H. unfold metric_parts, put_metric in *. rewrite !put_instance_name.
  unfold instance_parts in *. rewrite !parts_bytes_app, !zlength_app in H.
  pose proof (part_size_nonneg (name_parts part_plugin (plugin_name m) (last_plugin c))).
  pose proof (part_size_nonneg (name_parts part_plugin_instance (default [] (plugin_instance m)) (last_plugin_instance c))).
  pose proof (part_size_nonneg (name_parts part_type (type_name m) (last_type c))).
  pose proof (part_size_nonneg (name_parts part_type_instance (default [] (type_instance m)) (last_type_instance c))).
  pose proof (part_size_nonneg (values_parts PGauges (gauges m))). pose proof (part_size_nonneg (values_parts PDerives (derives m))).
  unfold next_context. f_equal. unfold add_plugin, add_plugin_instance, add_type, add_type_instance.
  rewrite (put_name_fits part_plugin) by lia.
  rewrite (put_name_fits part_plugin_instance) by (rewrite remaining_wrote; lia). rewrite wrote_wrote.
  rewrite (put_name_fits part_type) by (rewrite remaining_wrote; rewrite !parts_bytes_app, !zlength_app; lia). rewrite wrote_wrote.
  rewrite (put_name_fits part_type_instance) by (rewrite remaining_wrote; rewrite !parts_bytes_app, !zlength_app; lia). rewrite wrote_wrote.
  rewrite put_gauges_fits by (rewrite remaining_wrote; rewrite !parts_bytes_app, !zlength_app; lia). rewrite wrote_wrote.
  rewrite put_derives_fits by (rewrite remaining_wrote; rewrite !parts_bytes_app, !zlength_app; lia).
  rewrite wrote_wrote. by rewrite <- !app_assoc.
Qed.

(** The identifiers in force after a packet whose context is [c] *)
Definition context_ids (b : collectd_builder) (c : context) : identifiers :=
  mkIds (wire_name (host b)) (time_hr b) (interval_hr b) (wire_name (last_plugin c)) (wire_name (last_plugin_instance c))
    (wire_name (last_type c)) (wire_name (last_type_instance c)).

Lemma name_parts_effect t v last i : set_string t (wire_name last) i = i ->
  parts_effect (name_parts t v last) i = (set_string t (wire_name v) i, []).
Proof. unfold name_parts. case_bool_decide as E; [intros H|done]. by rewrite E, H. Qed.

Lemma values_parts_effect b m :
  parts_effect (values_parts PGauges (gauges m) ++ values_parts PDerives (derives m)) (metric_ids b m) = (metric_ids b m, metric_lists b m).
Proof. unfold metric_lists. destruct (gauges m), (derives m); done. Qed.

Lemma metric_parts_effect b c m : parts_effect (metric_parts c m) (context_ids b c) = (context_ids b (next_context m), metric_lists b m).
Proof.
  change (context_ids b (next_context m)) with (metric_ids b m).
  unfold metric_parts, instance_parts. do 4 (rewrite parts_effect_app, name_parts_effect by done; cbv beta iota).
  match goal with |- context [parts_effect _ ?i] => change i with (metric_ids b m) end. by rewrite values_parts_effect.
Qed.

(** Values of the types the wire carries *)
Definition metric_ok (m : metric_container) : Prop := Forall d_valid (gauges m) /\ Forall (in_s 64) (derives m).
Definition builder_ok (b : collectd_builder) : Prop :=
  in_u 64 (time_hr b) /\ in_u 64 (interval_hr b) /\ Forall metric_ok (rendererd_metrics b).

Lemma name_parts_kind t v last : is_string_part t = true -> Forall part_kind (name_parts t v last).
Proof. unfold name_parts. case_bool_decide; repeat constructor. done. Qed.
Lemma metric_parts_kind c m : metric_ok m -> Forall part_kind (metric_parts c m).
Proof.
  intros [Hg Hd]. unfold metric_parts, instance_parts. rewrite !Forall_app. split_and!; try (by apply name_parts_kind).
  - destruct (gauges m); cbn; [constructor|]. by constructor.
  - destruct (derives m); cbn; [constructor|]. by constructor.
Qed.

Lemma parts_ok ps : Forall part_kind ps -> zlength (parts_bytes ps) <= max_packet_size -> Forall part_ok ps.
Proof.
  induction 1 as [|p ps Hp _ IH]; [constructor|]. unfold parts_bytes in *. cbn [map concat]. rewrite zlength_app, zlength_encode.
  pose proof (zlength_nonneg (concat (map encode ps))). pose proof (zlength_nonneg (payload p)).
  intros. constructor; [split; [done|lia]|apply IH; lia].
Qed.

(** ** Rendering *)

Definition header_parts (b : collectd_builder) : list part :=
  [PString part_host (host b); PNumber part_time_hr (time_hr b); PNumber part_interval_hr (interval_hr b)].

Lemma append_int_wrote t v p : append_int t v p = wrote [PNumber t v] p.
Proof. by rewrite wrote_one. Qed.

Lemma string_part_size_bound s : 5 <= string_part_size s <= 132.
Proof. unfold string_part_size, string_part_overhead, max_string_length. pose proof (zlength_nonneg s). lia. Qed.

Lemma start_packet_wrote b : start_packet b = wrote (header_parts b) empty_packet.
Proof.
  unfold start_packet, add_interval_hr, add_time_hr, add_host. pose proof (string_part_size_bound (host b)).
  rewrite append_string_fits by (change (remaining empty_packet) with 1452; lia). by rewrite !append_int_wrote, !wrote_wrote.
Qed.
Lemma zlength_header_parts b : zlength (parts_bytes (header_parts b)) = string_part_size (host b) + 2 * number_part_size.
Proof.
  unfold header_parts. change ([?a; ?b; ?c]) with ([a] ++ [b] ++ [c]). rewrite !parts_bytes_app, !zlength_app, !zlength_part, zlength_payload_string.
  cbn [payload]. unfold number_part_size, zlength. rewrite !length_be_bytes. lia.
Qed.
Lemma header_parts_effect b : parts_effect (header_parts b) no_ids = (context_ids b fresh_context, []).
Proof. done. Qed.
Lemma header_parts_kind b : in_u 64 (time_hr b) -> in_u 64 (interval_hr b) -> Forall part_kind (header_parts b).
Proof. intros. repeat apply Forall_cons_2; [done..|constructor]. Qed.

(** What a rendering has sent and holds, in terms of the metrics it has seen *)
Definition packet_means (b : collectd_builder) (p : packet) (c : context) (out : list value_list) : Prop :=
  exists ps, p = wrote ps empty_packet /\ Forall part_kind ps /\ zlength (parts_bytes ps) <= max_packet_size /\
    parts_effect ps no_ids = (context_ids b c, out).
Definition sent (l : list packet) (out : list value_list) : Prop :=
  receive_all (map buffer l) = Some out /\ Forall (fun p => zlength (buffer p) <= max_packet_size /\ clamped_values_ p = 0) l.
Definition rendered (b : collectd_builder) (r : rendering) (ms : list metric_container) : Prop :=
  exists done out, sent (packets r) done /\ done ++ out = concat (map (metric_lists b) ms) /\
    (if is_new r then current r = empty_packet /\ out = [] else packet_means b (current r) (ctx r) out).

Lemma packet_means_receive b p c out : packet_means b p c out ->
  receive (buffer p) = Some out /\ zlength (buffer p) <= max_packet_size /\ clamped_values_ p = 0.
Proof.
  intros (ps & -> & Hk & Hsz & He). unfold wrote, append. cbn [buffer clamped_values_ empty_packet]. rewrite app_nil_l. split_and!; [|done..].
  unfold receive, parts_bytes. rewrite read_parts_spec by (done || by apply parts_ok). by rewrite He.
Qed.

Lemma receive_all_snoc l d a o : receive_all l = Some a -> receive d = Some o -> receive_all (l ++ [d]) = Some (a ++ o).
Proof.
  revert a. induction l as [|e l IH]; cbn; intros a.
  - intros [= <-] ->. cbn. by rewrite app_nil_r.
  - destruct (receive e) as [x|]; [|done]. cbn. destruct (receive_all l) as [y|]; [|done]. cbn. intros [= <-] Hd.
    rewrite (IH y) by done. cbn. by rewrite app_assoc.
Qed.

Lemma sent_snoc b l p c a o : sent l a -> packet_means b p c o -> sent (l ++ [p]) (a ++ o).
Proof.
  intros [Hr Hl] (R & S1 & S2)%packet_means_receive. split.
  - rewrite map_app. by apply receive_all_snoc.
  - apply Forall_app. split; [done|]. by repeat constructor.
Qed.

Lemma packet_means_put b p c out m : packet_means b p c out -> metric_ok m -> metric_size (host b) c m false <= remaining p ->
  put_metric m p c = (wrote (metric_parts c m) p, next_context m) /\
  packet_means b (wrote (metric_parts c m) p) (next_context m) (out ++ metric_lists b m).
Proof.
  intros (ps & -> & Hk & Hsz & He) Hm Hr. split; [by eapply put_metric_fits|]. exists (ps ++ metric_parts c m).
  rewrite wrote_wrote. split_and!; [done|apply Forall_app; split; [done|by apply metric_parts_kind]| |].
  - rewrite remaining_wrote in Hr by (change (remaining empty_packet) with max_packet_size; done).
    rewrite parts_bytes_app, zlength_app, (zlength_metric_parts (host b)). change (remaining empty_packet) with max_packet_size in Hr. lia.
  - by rewrite parts_effect_app, He, metric_parts_effect.
Qed.

Lemma packet_means_start b m : builder_ok b -> metric_size (host b) fresh_context m true <= max_packet_size ->
  packet_means b (start_packet b) fresh_context [] /\ metric_size (host b) fresh_context m false <= remaining (start_packet b).
Proof.
  intros (Ht & Hi & _) Hs. rewrite start_packet_wrote. pose proof (zlength_header_parts b) as Hl. pose proof (string_part_size_bound (host b)).
  assert (metric_size (host b) fresh_context m true = string_part_size (host b) + 2 * number_part_size + metric_size (host b) fresh_context m false) as Hm
    by (unfold metric_size; lia).
  assert (zlength (parts_bytes (header_parts b)) <= max_packet_size) by (rewrite Hl; unfold number_part_size, max_packet_size; lia). split.
  - exists (header_parts b). split_and!; [done|by apply header_parts_kind|done|apply header_parts_effect].
  - rewrite remaining_wrote by done. change (remaining empty_packet) with max_packet_size. lia.
Qed.

Lemma render_metric_spec b r ms m : builder_ok b -> metric_ok m -> metric_size (host b) fresh_context m true <= max_packet_size ->
  rendered b r ms -> rendered b (render_metric b r m) (ms ++ [m]).
Proof.
  intros Hb Hm Hs (done & out & Hsent & Hcat & Hcur). destruct (packet_means_start b m Hb Hs) as [Hst Hroom].
  unfold rendered. rewrite map_app, concat_app. cbn [map concat]. rewrite app_nil_r, <- Hcat. clear Hcat.
  unfold render_metric. destruct (is_new r) eqn:En; cbn [negb andb].
  - destruct Hcur as [-> ->]. rewrite En. fold (start_packet b). destruct (packet_means_put b _ _ _ m Hst Hm Hroom) as [-> Hp].
    exists done, (metric_lists b m). by rewrite app_nil_r.
  - destruct (Z.ltb_spec (remaining (current r)) (metric_size (host b) (ctx r) m false)) as [L|G].
    + cbn [is_new current ctx packets]. fold (start_packet b). destruct (packet_means_put b _ _ _ m Hst Hm Hroom) as [-> Hp].
      exists (done ++ out), (metric_lists b m). cbn [packets is_new current ctx]. split_and!; [by eapply sent_snoc|done|done].
    + rewrite En. destruct (packet_means_put b _ _ _ m Hcur Hm G) as [-> Hp]. exists done, (out ++ metric_lists b m).
      cbn [packets is_new current ctx]. by rewrite app_assoc.
Qed.

Lemma render_loop_spec b ms r seen : builder_ok b -> Forall metric_ok ms ->
  Forall (fun m => metric_size (host b) fresh_context m true <= max_packet_size) ms -> rendered b r seen ->
  rendered b (fold_left (render_metric b) ms r) (seen ++ ms).
Proof.
  intros Hb Hm. revert r seen. induction Hm as [|m ms Hm Hms IH]; intros r seen Hs Hr; [by rewrite app_nil_r|].
  apply Forall_cons in Hs as [? Hs]. cbn [fold_left]. rewrite (cons_middle m seen ms), app_assoc. apply IH; [done|]. by apply render_metric_spec.
Qed.

(** C17. A receiver of the collectd protocol that reads the datagrams in order gets exactly the
    value lists of the snapshot, in order, each with its host, time, interval, names (up to a
    NUL, at most 127 bytes) and values, although a datagram leaves out the names it has already
    sent; no value is dropped and no datagram exceeds 1452 bytes, if each list alone fits one. *)
Theorem datagrams_deliver_the_value_lists (b : collectd_builder) (Hb : builder_ok b)
  (Hfit : Forall (fun m => metric_size (host b) fresh_context m true <= max_packet_size) (rendererd_metrics b)) :
  receive_all (map buffer (render b)) = Some (concat (map (metric_lists b) (rendererd_metrics b))) /\
  Forall (fun p => zlength (buffer p) <= max_packet_size /\ clamped_values_ p = 0) (render b).
Proof.
  unfold render. set (r0 := mkRendering [] empty_packet true fresh_context).
  assert (rendered b r0 []) as H0 by (exists [], []; split_and!; [by split|done|done]).
  pose proof (render_loop_spec b (rendererd_metrics b) r0 [] Hb (proj2 (proj2 Hb)) Hfit H0) as Hr.
  set (r := fold_left _ _ _) in *. rewrite app_nil_l in Hr. destruct Hr as (done & out & Hsent & <- & Hcur).
  destruct (Z.gtb_spec (zlength (buffer (current r))) 0) as [G|L].
  - destruct (is_new r); [destruct Hcur as [E _]; rewrite E in G; unfold zlength in G; cbn in G; lia|]. by eapply sent_snoc.
  - assert (out = []) as ->; [|by rewrite app_nil_r; apply Hsent].
    destruct (is_new r); [by destruct Hcur|]. apply packet_means_receive in Hcur as (R & _). destruct (buffer (current r)) eqn:E; [by injection R as <-|].
    unfold zlength in L. cbn in L. lia.
Qed.

(** ** No datagram is larger than the receiver reads *)

Definition within (p : packet) : Prop := zlength (buffer p) <= max_packet_size.

Lemma remaining_within p : within p -> remaining p = max_packet_size - zlength (buffer p).
Proof. unfold within, remaining. intros. destruct (Z.geb_spec (zlength (buffer p)) max_packet_size); lia. Qed.
Lemma within_append bs p : within p -> zlength bs <= remaining p -> within (append bs p).
Proof. intros Hp. rewrite remaining_within by done. unfold within, append. cbn [buffer]. rewrite zlength_app. lia. Qed.

Lemma within_append_string t s p : within p -> within (append_string t s p).
Proof.
  intros Hp. unfold append_string. destruct (Z.ltb_spec (remaining p) string_part_overhead); [done|]. apply within_append; [done|].
  unfold zlength, to_bytes, string_part_overhead, max_string_length in *. rewrite !length_app, !length_be_bytes, length_map, length_take. cbn [length]. lia.
Qed.

Lemma within_append_values {A} type (enc : A -> list byte) l p : (forall a, length (enc a) = 8%nat) -> within p -> within (append_values type enc l p).
Proof.
  intros He Hp. unfold append_values. destruct (Z.ltb_spec (remaining p) (values_part_overhead + bytes_per_value)); [done|].
  set (count := Z.min _ _). apply within_append; [done|]. change (remaining (clamp _ p)) with (remaining p).
  unfold values_part_overhead, bytes_per_value in *. assert (count <= (remaining p - 6) / 9) by (unfold count; lia).
  pose proof (Z.mul_div_le (remaining p - 6) 9 ltac:(lia)). assert (0 <= count) by (unfold count; pose proof (zlength_nonneg l); pose proof (Z.div_pos (remaining p - 6) 9); lia).
  unfold zlength in *. rewrite !length_app, !length_be_bytes, length_replicate, (length_concat_map _ 8), length_take by done. lia.
Qed.

Lemma within_put_name t v last p : within p -> within (put_name (append_string t) v last p).
Proof. unfold put_name. case_bool_decide; [done|apply within_append_string]. Qed.

Lemma within_put_metric m p c : within p -> within (put_metric m p c).1.
Proof.
  intros Hp. unfold put_metric. rewrite !put_instance_name. cbn [fst]. unfold put_values, add_gauge_value, add_derive_value.
  assert (within (put_name add_type_instance (default [] (type_instance m)) (last_type_instance c) (put_name add_type (type_name m) (last_type c)
    (put_name add_plugin_instance (default [] (plugin_instance m)) (last_plugin_instance c) (put_name add_plugin (plugin_name m) (last_plugin c) p))))) as H
    by (do 4 apply within_put_name; done).
  destruct (gauges m), (derives m); [done|..];
    repeat (apply within_append_values; [intros; first [apply length_be_bytes|apply length_le_split]|]); done.
Qed.

Lemma within_start b : within (start_packet b).
Proof.
  rewrite start_packet_wrote. unfold within, wrote, append. cbn [buffer empty_packet]. rewrite app_nil_l, zlength_header_parts.
  pose proof (string_part_size_bound (host b)). unfold number_part_size, max_packet_size. lia.
Qed.

Definition rendering_within (r : rendering) : Prop :=
  Forall within (packets r) /\ within (current r) /\ (is_new r = true -> current r = empty_packet).

Lemma render_metric_within b r m : rendering_within r -> rendering_within (render_metric b r m).
Proof.
  intros (Hp & Hc & He). pose proof (within_put_metric m (start_packet b) fresh_context (within_start b)) as Hs.
  pose proof (within_put_metric m (current r) (ctx r) Hc) as Ho.
  unfold render_metric, rendering_within. destruct (is_new r) eqn:En; cbn [negb andb].
  - rewrite En, He by done. fold (start_packet b). destruct (put_metric m (start_packet b) fresh_context). by split_and!.
  - destruct (remaining (current r) <? metric_size (host b) (ctx r) m false); cbn [is_new current ctx packets].
    + fold (start_packet b). destruct (put_metric m (start_packet b) fresh_context). split_and!; [|done..]. apply Forall_app. by rewrite Forall_singleton.
    + rewrite En. destruct (put_metric m (current r) (ctx r)). by split_and!.
Qed.

(** Whatever the mappings ask for, no datagram is larger than the 1452 bytes a receiver reads. *)
Theorem datagrams_never_exceed_the_read_size (b : collectd_builder) : Forall (fun p => zlength (buffer p) <= max_packet_size) (render b).
Proof.
  unfold render. assert (rendering_within (mkRendering [] empty_packet true fresh_context)) as H0 by (split_and!; by repeat constructor).
  assert (forall ms r, rendering_within r -> rendering_within (fold_left (render_metric b) ms r)) as Hl.
  { intros ms. induction ms; intros; [done|]. cbn. auto using render_metric_within. }
  destruct (Hl (rendererd_metrics b) _ H0) as (Hp & Hc & _). case_if; [|done]. apply Forall_app. by rewrite Forall_singleton.
Qed.

(** ** Value expressions *)

(** Comparisons of literals *)
Ltac literals :=
  repeat match goal with
  | |- context [bool_decide (str ?a = str ?b)] =>
      first [rewrite (bool_decide_eq_true_2 (str a = str b)) by done | rewrite (bool_decide_eq_false_2 (str a = str b)) by done]
  end.

Section expressions.
Context `{lexical_double} `{lexical_int}.

(** What one key of an expression stands for, and the kind of a list *)
Definition key_value (b : collectd_builder) (is_derive : bool) (k : cppstring) : option value :=
  if bool_decide (k = []) then None
  else if starts_with_digit k then Some (if is_derive then Derive (to_int64_saturating (stox_double k)) else Gauge (stox_double k))
  else v ← metrics b !! k; Some (if is_derive then Derive (wrap_s 64 (stox_ull v)) else Gauge (stox_double v)).
Definition list_kind (b : collectd_builder) (kind keys : cppstring) : option bool :=
  if bool_decide (kind = str "gauge") then Some false
  else if bool_decide (kind = str "derive") then Some true
  else if bool_decide (kind = str "auto") then Some (resolves_to_derive b keys)
  else None.

Definition metric_values (m : metric_container) : list value := map Gauge (gauges m) ++ map Derive (derives m).
(** A value list holds values of one kind. *)
Definition of_kind (is_derive : bool) (m : metric_container) : Prop := if is_derive then gauges m = [] else derives m = [].
Definition names (m : metric_container) : cppstring * option cppstring * cppstring * option cppstring :=
  (plugin_name m, plugin_instance m, type_name m, type_instance m).

Lemma append_value_spec b m k d : of_kind d m ->
  match append_value b m k d with
  | Some m' => names m' = names m /\ of_kind d m' /\ exists v, key_value b d k = Some v /\ metric_values m' = metric_values m ++ [v]
  | None => key_value b d k = None
  end.
Proof.
  unfold append_value, key_value, metric_values, of_kind. intros Hk. destruct k as [|c k]; [done|]. rewrite bool_decide_eq_false_2 by done.
  destruct (starts_with_digit (c :: k)); [|destruct (metrics b !! (c :: k)) as [v|] eqn:E; cbn [mbind option_bind]; [|done]];
    destruct d; cbn; (split_and!; [done|done|]); eexists; (split; [done|]); rewrite Hk, ?map_app; cbn; by rewrite ?app_nil_r.
Qed.

Lemma append_all_spec b d ks m : of_kind d m ->
  match append_all b m ks d with
  | Some m' => names m' = names m /\ of_kind d m' /\ exists vs, mapM (key_value b d) ks = Some vs /\ metric_values m' = metric_values m ++ vs
  | None => mapM (key_value b d) ks = None
  end.
Proof.
  revert m. induction ks as [|k ks IH]; intros m Hm; cbn [append_all mapM].
  { split_and!; [done..|]. exists []. by rewrite app_nil_r. }
  pose proof (append_value_spec b m k d Hm) as Hk. destruct (append_value b m k d) as [m1|].
  - destruct Hk as (N & K & v & -> & V). cbn. specialize (IH m1 K). destruct (append_all b m1 ks d) as [m2|].
    + destruct IH as (N2 & K2 & vs & -> & V2). split_and!; [congruence|done|]. exists (v :: vs). split; [done|]. by rewrite V2, V, <- app_assoc.
    + by rewrite IH.
  - by rewrite Hk.
Qed.

(** A value list is sent only if its type is known, it names at least one key and every key has
    a value; it then has one value per key, in the order of the keys and of one kind, which for
    auto is the kind of the first key of the snapshot. *)
Theorem value_expression_is_all_or_nothing (b : collectd_builder) p pi t ti (value : cppstring) :
  let '(kind, keys) := split2 value (str ":") in
  let ks := default [] (split_lst keys (str ",")) in
  (names <$> add_value b (mkMetric p pi t ti [] []) value) =
    (d ← list_kind b kind keys; if bool_decide (ks = []) then None else vs ← mapM (key_value b d) ks; Some (p, pi, t, ti)) /\
  (metric_values <$> add_value b (mkMetric p pi t ti [] []) value) =
    (d ← list_kind b kind keys; if bool_decide (ks = []) then None else mapM (key_value b d) ks).
Proof.
  unfold add_value, list_kind. destruct (split2 value (str ":")) as [kind keys]. set (ks := default [] _).
  assert (forall d, (names <$> match ks with [] => None | k :: ks' => append_all b (mkMetric p pi t ti [] []) (k :: ks') d end) =
      (if bool_decide (ks = []) then None else vs ← mapM (key_value b d) ks; Some (p, pi, t, ti)) /\
    (metric_values <$> match ks with [] => None | k :: ks' => append_all b (mkMetric p pi t ti [] []) (k :: ks') d end) =
      (if bool_decide (ks = []) then None else mapM (key_value b d) ks)) as Hall.
  { intros d. pose proof (append_all_spec b d ks (mkMetric p pi t ti [] []) ltac:(by destruct d)) as Ha. destruct ks as [|k ks']; [done|].
    rewrite bool_decide_eq_false_2 by done. destruct (append_all b _ (k :: ks') d) as [m'|].
    - destruct Ha as (N & _ & vs & -> & V). cbn [fmap option_fmap option_map mbind option_bind]. by rewrite N, V.
    - by rewrite Ha. }
  destruct (decide (kind = str "auto")) as [->|N1].
  { destruct (resolves_to_derive b keys); literals; apply Hall. }
  rewrite (bool_decide_eq_false_2 (kind = str "auto")) by done.
  destruct (decide (kind = str "gauge")) as [->|N2]; [literals; apply (Hall false)|].
  rewrite (bool_decide_eq_false_2 (kind = str "gauge")) by done.
  destruct (decide (kind = str "derive")) as [->|N3]; [literals; apply (Hall true)|].
  by rewrite (bool_decide_eq_false_2 (kind = str "derive")) by done.
Qed.

(** A [double] the cast returns is a double. *)
Hypothesis cast_double_valid : forall s v, cast_double s = Some v -> d_valid v.

Lemma stox_double_valid s : d_valid (stox_double s).
Proof. unfold stox_double. destruct (cast_double s) eqn:E; [by eapply cast_double_valid|done]. Qed.

Lemma append_value_ok b m k d m' : metric_ok m -> append_value b m k d = Some m' -> metric_ok m'.
Proof.
  intros [Hg Hd]. unfold append_value, with_derive, with_gauge. destruct k as [|c k]; [done|].
  destruct (starts_with_digit (c :: k)); [|destruct (metrics b !! (c :: k)); [|done]]; destruct d; intros [= <-]; split; cbn; try done;
    apply Forall_app; (split; [done|]); apply Forall_singleton; auto using stox_double_valid, to_int64_saturating_range.
  by apply wrap_s_range.
Qed.
Lemma append_all_ok b d ks m m' : metric_ok m -> append_all b m ks d = Some m' -> metric_ok m'.
Proof.
  revert m. induction ks as [|k ks IH]; intros m Hm; cbn; [by intros [= <-]|]. destruct (append_value b m k d) eqn:E; [|done].
  apply IH. by eapply append_value_ok.
Qed.
Lemma render_value_list_ok b m value : metric_ok m -> builder_ok b -> builder_ok (render_value_list b m value).
Proof.
  intros Hm Hb. unfold render_value_list. destruct (add_value b m value) as [m'|] eqn:E; [|done]. destruct Hb as (Ht & Hi & Hms).
  split_and!; [done..|]. cbn. apply Forall_app. split; [done|]. apply Forall_singleton. revert E. unfold add_value.
  destruct (split2 value (str ":")) as [kind keys]. destruct (negb _ && negb _); [done|]. destruct (default [] _); [done|]. by apply append_all_ok.
Qed.

Lemma fold_left_keeps {A B} (P : B -> Prop) (f : B -> A -> B) l b : (forall b a, P b -> P (f b a)) -> P b -> P (fold_left f l b).
Proof. intros Hf. revert b. induction l; cbn; auto. Qed.

Lemma add_types_ok v p pi t ti b : builder_ok b -> builder_ok (add_types v p pi t ti b).
Proof.
  intros. unfold add_types. apply fold_left_keeps; [|done]. intros b' et Hb'. destruct ti as [ti|].
  - apply fold_left_keeps; [|done]. intros. apply render_value_list_ok; [by split|done].
  - apply render_value_list_ok; [by split|done].
Qed.

Lemma add_metric_keeps_wire_values (b : collectd_builder) (key value : cppstring) (Hb : builder_ok b) : builder_ok (add_metric key value b).
Proof.
  unfold add_metric. destruct (split2 key (str "/")) as [p0 t0], (split_instance p0) as [p pi], (split_instance t0) as [t ti].
  apply fold_left_keeps; [|done]. intros b' ep Hb'. destruct pi as [pi|]; [|by apply add_types_ok].
  apply fold_left_keeps; [|done]. intros. by apply add_types_ok.
Qed.
End expressions.

(** ** Examples *)

Module Demo.
#[local] Existing Instance PerfData.Demo.strict_double.
#[local] Existing Instance plain_lexical_int.

Definition snapshot : collectd_builder :=
  set_time 1000 10 (set_host (str "web01")
    (set_typed_metric (str "disk.c.reads") (str "18446744073709551615") true
    (set_typed_metric (str "disk.c.free") (str "12.5") false
    (add_label (str "core") (str "1") (add_label (str "core") (str "0")
      (set_metric (str "cpu.0") (str "3") (set_metric (str "cpu.1") (str "4")
        (mkBuilder [(str "core", str "0"); (str "core", str "1")] ∅ ∅ ∅ [] 0 0 [])))))))).
Definition mapped : collectd_builder :=
  add_metric (str "disk-c/ops") (str "auto:disk.c.reads,7")
    (add_metric (str "disk-c/free") (str "gauge:disk.c.free,disk.c.none")
      (add_metric (str "cpu-${core}/percent-user") (str "gauge:cpu.${core}") snapshot)).

(** Three value lists: one per core, and the counters; the list with a missing key is dropped. *)
Example mapped_lists : map (fun m => (names m, gauges m, derives m)) (rendererd_metrics mapped) =
  [(str "cpu", Some (str "0"), str "percent", Some (str "user"), [to_double 3], []);
   (str "cpu", Some (str "1"), str "percent", Some (str "user"), [to_double 4], []);
   (str "disk", Some (str "c"), str "ops", None, [], [-1; 7])].
Proof. vm_compute. reflexivity. Qed.

Lemma datagrams_deliver_witness : builder_ok mapped /\
  receive_all (map buffer (render mapped)) = Some (concat (map (metric_lists mapped) (rendererd_metrics mapped))) /\ length (render mapped) = 1%nat.
Proof.
  assert (builder_ok mapped) as Hb by (unfold builder_ok, metric_ok, d_valid; vm_decide).
  split_and!; [exact Hb| |vm_compute; reflexivity].
  apply datagrams_deliver_the_value_lists; [exact Hb|vm_decide].
Defined.

(** Two placeholders in one name: every expansion fills one of them and leaves the other. *)
Example two_placeholders_half_expanded :
  expand_keyword (set_variables [(str "a", str "x"); (str "b", str "y")] snapshot) (str "${a}.${b}") (str "gauge:1") =
  [(str "x.${b}", str "gauge:1"); (str "${a}.y", str "gauge:1")].
Proof. vm_compute. reflexivity. Qed.
End Demo.
