(* ===== verification/LogFile.v ===== *)
(** Log files: modules/CheckLogFile (bookmark_state.hpp, bookmarks.cpp, file_reader.hpp,
    realtime_data.cpp and the command [check_logfile] of CheckLogFile.cpp).

    A file is the text it holds when it is opened, and does not change while it is read.  The
    filter of a check is the list of records it is handed, in order.  LogFileLaws states what
    the readers and the bookmarks guarantee. *)

From stdpp Require Import base list gmap sets strings.
From Stdlib Require Import Ascii ZArith Lia.
From Stdlib Require String.
From S2P Require Import Prelude Strings Format AccessPolicy Ordering Eviction.
Import String.StringSyntax.

Local Open Scope Z_scope.

(** ** Positions *)

Definition max_fingerprint_len : Z := 256.

Definition fnv1a (data : cppstring) : Z :=
  fold_left (fun hash c => wrap_u 64 (Z.lxor hash (Z.of_nat (nat_of_ascii c)) * 1099511628211)) data 14695981039346656037.

Definition hex_digits : cppstring := str "0123456789abcdef".
Fixpoint to_hex_loop (n : nat) (value : Z) : cppstring :=
  match n with
  | O => []
  | S n => to_hex_loop n (Z.shiftr value 4) ++ take 1 (drop (Z.to_nat (Z.land value 0xf)) hex_digits)
  end.
Definition to_hex (value : Z) : cppstring := to_hex_loop 16 value.

Record position := mkPosition { valid : bool; offset : Z; fingerprint_len : Z; fingerprint : Z }.
Definition no_position : position := mkPosition false 0 0 0.
#[global] Instance position_eq_dec : EqDecision position.
Proof. solve_decision. Defined.

Definition format_position (p : position) : cppstring :=
  if negb (valid p) then []
  else str "1|" ++ show (offset p) ++ str "|" ++ show (fingerprint_len p) ++ str "|" ++ show (fingerprint p).

(** The chunks between bars *)
Fixpoint bar_chunks (fuel : nat) (data : cppstring) (pos : nat) : list cppstring :=
  match fuel with
  | O => []
  | S fuel =>
      match find data (str "|") pos with
      | None => [drop pos data]
      | Some next => substr data pos (next - pos) :: bar_chunks fuel data (next + 1)
      end
  end.
Definition is_number (s : cppstring) : bool := negb (bool_decide (s = [])) && forallb isdigit s.
(** [std::stoull] of digits; out of range throws *)
Definition stoull (s : cppstring) : option Z := if decimal s <? 2 ^ 64 then Some (decimal s) else None.

Definition parse_position (data : cppstring) : position :=
  match data with
  | [] => no_position
  | _ =>
      match bar_chunks (S (length data)) data 0 with
      | [tag; o; l; f] =>
          if negb (bool_decide (tag = str "1")) then no_position
          else if negb (is_number o && is_number l && is_number f) then no_position
          else match stoull o, stoull l, stoull f with
               | Some o, Some l, Some f => mkPosition true o l f
               | _, _, _ => no_position
               end
      | _ => no_position
      end
  end.

Record resume_decision := mkResume { skip : bool; resume_at : Z; restarted : bool }.

Definition compute_resume (prev : position) (cur_size head_fingerprint : Z) (head_valid : bool) : resume_decision :=
  if cur_size =? 0 then mkResume true 0 (valid prev && negb (offset prev =? 0))
  else if negb (valid prev) then mkResume false 0 false
  else if (cur_size <? offset prev) || ((fingerprint_len prev >? 0) && (negb head_valid || negb (head_fingerprint =? fingerprint prev)))
  then mkResume false 0 true
  else if cur_size =? offset prev then mkResume true (offset prev) false
  else mkResume false (offset prev) false.

(** ** The store of positions *)

Definition max_positions : Z := 1000.

Record stored := mkStored { stored_value : cppstring; used : Z }.
Record store := mkStore { max_entries_ : Z; clock_ : Z; entries_ : gmap cppstring stored }.
Definition new_store (max_entries : Z) : store := mkStore (if max_entries =? 0 then 1 else max_entries) 0 ∅.

Definition least_used (m : gmap cppstring stored) : option cppstring := oldest_by used m.
Definition trim_loop (fuel : nat) (max : Z) (m : gmap cppstring stored) : gmap cppstring stored := evict_loop used fuel max m.
Definition trim (s : store) : store := mkStore (max_entries_ s) (clock_ s) (trim_loop (size (entries_ s)) (max_entries_ s) (entries_ s)).

Definition put (key value : cppstring) (s : store) : store :=
  let c := wrap_u 64 (clock_ s + 1) in
  trim (mkStore (max_entries_ s) c (<[key := mkStored value c]> (entries_ s))).
Definition get (key : cppstring) (s : store) : cppstring * store :=
  match entries_ s !! key with
  | None => ([], s)
  | Some e =>
      let c := wrap_u 64 (clock_ s + 1) in
      (stored_value e, mkStore (max_entries_ s) c (<[key := mkStored (stored_value e) c]> (entries_ s)))
  end.
Definition snapshot (s : store) : gmap cppstring cppstring := stored_value <$> entries_ s.

(** [bookmarks]: whether the lock was taken in time is the first argument *)
Definition bookmarks_add (locked : bool) (key value : cppstring) (s : store) : store := if locked then put key value s else s.
Definition bookmarks_get (locked : bool) (key : cppstring) (s : store) : position * store :=
  if locked then let '(v, s) := get key s in (parse_position v, s) else (no_position, s).
Definition get_copy (locked : bool) (s : store) : gmap cppstring cppstring := if locked then snapshot s else ∅.
Definition c_unit_separator : ascii := "031"%char.
Definition make_key (bookmark file : cppstring) : cppstring := bookmark ++ c_unit_separator :: file.

(** ** Readers *)

Definition record_scan_chunk_size : Z := 64 * 1024.

Definition ends_with (suffix s : cppstring) : bool :=
  Nat.leb (length suffix) (length s) && bool_decide (drop (length s - length suffix) s = suffix).
(** A trailing carriage return is dropped *)
Definition strip_return (s : cppstring) : cppstring :=
  if bool_decide (last s = Some c_return) then take (length s - 1) s else s.

(** [getline_str]: the record and what is left of the stream, [None] at its end *)
Fixpoint getline_char (d : ascii) (s out : cppstring) (any : bool) : option (cppstring * cppstring) :=
  match s with
  | [] => if any then Some (out, []) else None
  | c :: s => if bool_decide (c = d) then Some (if bool_decide (d = c_newline) then strip_return out else out, s) else getline_char d s (out ++ [c]) true
  end.
Fixpoint getline_multi (delim s out : cppstring) (any : bool) : option (cppstring * cppstring) :=
  match s with
  | [] => if any then Some (out, []) else None
  | c :: s =>
      let out := out ++ [c] in
      if ends_with delim out then
        let out := take (length out - length delim) out in
        Some (if bool_decide (last delim = Some c_newline) then strip_return out else out, s)
      else getline_multi delim s out true
  end.
Definition getline_str (s delim : cppstring) : option (cppstring * cppstring) :=
  match delim with
  | [] => match s with [] => None | _ => Some (s, []) end
  | [d] => getline_char d s [] false
  | _ => getline_multi delim s [] false
  end.

Definition compute_seek (prev_size cur_size : Z) (read_from_start : bool) : bool * Z :=
  if read_from_start then (if cur_size =? 0 then (true, 0) else (false, 0))
  else if cur_size =? 0 then (true, 0)
  else if cur_size <? prev_size then (false, 0)
  else if cur_size =? prev_size then (true, prev_size)
  else (false, prev_size).

Definition delim_can_overlap (delim : cppstring) : bool :=
  existsb (fun k => bool_decide (take k delim = drop (length delim - k) delim)) (seq 1 (length delim - 1)).

(** [std::string::rfind]: the last occurrence that starts at [pos] or before *)
Fixpoint rfind_at (s key : cppstring) (i : nat) : option nat :=
  if is_prefix key (drop i s) then Some i else match i with O => None | S i => rfind_at s key i end.
Definition rfind (s key : cppstring) (pos : nat) : option nat :=
  if Nat.ltb (length s) (length key) then None else rfind_at s key (Nat.min pos (length s - length key)).

(** The occurrences in one buffer, from the end: either the one that makes the count, or the
    count *)
Fixpoint count_back (fuel : nat) (buf delim : cppstring) (search_to : nat) (found wanted : Z) : nat + Z :=
  match fuel with
  | O => inr found
  | S fuel =>
      match rfind buf delim search_to with
      | None => inr found
      | Some hit =>
          if found + 1 =? wanted then inl hit
          else match hit with O => inr (found + 1) | S h => count_back fuel buf delim h (found + 1) wanted end
      end
  end.

Fixpoint tail_loop (fuel : nat) (file delim : cppstring) (wanted : Z) (pos : nat) (carry : cppstring) (found : Z) : nat :=
  match fuel, pos with
  | O, _ | _, O => 0%nat
  | S fuel, _ =>
      let want := Nat.min (Z.to_nat record_scan_chunk_size) pos in
      let start := (pos - want)%nat in
      let buf := take want (drop start file) ++ carry in
      match count_back (S (length buf)) buf delim (length buf) found wanted with
      | inl hit => (start + hit + length delim)%nat
      | inr found => tail_loop fuel file delim wanted start (take (length delim - 1) buf) found
      end
  end.

Definition find_tail_offset (file delim : cppstring) (max_records : Z) : nat :=
  if (max_records =? 0) || bool_decide (delim = []) || delim_can_overlap delim then 0%nat
  else if bool_decide (file = []) then 0%nat
  else if Nat.ltb (length file) (length delim) then 0%nat
  else
    let wanted := wrap_u 64 (max_records + if ends_with delim file then 1 else 0) in
    tail_loop (length file) file delim wanted (length file) [] 0.

(** [read_leading_records], from the current position *)
Fixpoint count_forward (fuel : nat) (out delim : cppstring) (search_from : nat) (found max_records : Z) : nat + nat * Z :=
  match fuel with
  | O => inr (search_from, found)
  | S fuel =>
      match find out delim search_from with
      | None => inr (search_from, found)
      | Some hit =>
          let search_from := (hit + length delim)%nat in
          if found + 1 =? max_records then inl search_from else count_forward fuel out delim search_from (found + 1) max_records
      end
  end.
Fixpoint leading_loop (fuel : nat) (rest out delim : cppstring) (max_records : Z) (search_from : nat) (found : Z) : cppstring :=
  match fuel with
  | O => out
  | S fuel =>
      match rest with
      | [] => out
      | _ =>
          let chunk := Z.to_nat record_scan_chunk_size in
          let out := out ++ take chunk rest in
          match count_forward (S (length out)) out delim search_from found max_records with
          | inl search_from => take search_from out
          | inr (search_from, found) =>
              let scanned := if Nat.leb (length delim) (length out) then (length out - length delim + 1)%nat else 0%nat in
              leading_loop fuel (drop chunk rest) out delim max_records (Nat.max search_from scanned) found
          end
      end
  end.
Definition read_leading_records (rest delim : cppstring) (max_records : Z) : cppstring :=
  if bool_decide (delim = []) || (max_records =? 0) then rest else leading_loop (S (length rest)) rest [] delim max_records 0 0.

(** [read_capped], from the current position: the bytes, and whether any are left *)
Fixpoint capped_loop (fuel : nat) (rest out : cppstring) (max_bytes : Z) : cppstring * bool :=
  match fuel with
  | O => (out, false)
  | S fuel =>
      if zlength out <? max_bytes then
        let want := Z.to_nat (Z.min (max_bytes - zlength out) record_scan_chunk_size) in
        match rest with [] => (out, false) | _ => capped_loop fuel (drop want rest) (out ++ take want rest) max_bytes end
      else (out, negb (bool_decide (rest = [])))
  end.
Definition read_capped (rest : cppstring) (max_bytes : Z) : cppstring * bool := capped_loop (S (length rest)) rest [] max_bytes.

Definition complete_record_end (contents delim : cppstring) : nat :=
  match delim with
  | [] => length contents
  | _ => match rfind contents delim (length contents) with None => 0%nat | Some last => (last + length delim)%nat end
  end.

(** ** Matching *)

(** A record as the filter sees it *)
Record filter_obj := mkObj { filename : cppstring; line : cppstring; chunks : list cppstring }.

(** The ranges that are kept for [max_lines] > 0 *)
Definition keep_range {A} (max_lines : Z) (newest_first : bool) (kept : list A) (r : A) : list A :=
  if newest_first then (if zlength kept <? max_lines then kept ++ [r] else kept)
  else let kept := kept ++ [r] in if zlength kept >? max_lines then drop 1 kept else kept.

(** The ranges between delimiters, in order, and the end of the last delimiter *)
Fixpoint ranges (fuel : nat) (contents delim : cppstring) (lpos : nat) : list (nat * nat) * nat :=
  match fuel with
  | O => ([], lpos)
  | S fuel =>
      match find contents delim lpos with
      | None => ([], lpos)
      | Some pos => let '(rs, e) := ranges fuel contents delim (pos + length delim)%nat in ((lpos, (pos - lpos)%nat) :: rs, e)
      end
  end.

Definition match_records (file contents line_split column_split : cppstring) (strip_cr include_tail : bool) (max_lines : Z) (newest_first : bool)
    : nat * list filter_obj :=
  let match_one (r : nat * nat) :=
    let text := substr contents r.1 r.2 in
    let text := if strip_cr then strip_return text else text in
    mkObj file text (default [] (split_lst text column_split)) in
  let '(rs, lpos) := ranges (S (length contents)) contents line_split 0 in
  let rs := if include_tail && Nat.ltb lpos (length contents) then rs ++ [(lpos, (length contents - lpos)%nat)] else rs in
  let taken := if max_lines =? 0 then rs else fold_left (keep_range max_lines newest_first) rs [] in
  (lpos, map match_one taken).

Definition read_head (file : cppstring) (len : Z) : cppstring := take (Z.to_nat len) file.

Definition describe_too_large (name limit : cppstring) : cppstring :=
  str "File is larger than max-size (" ++ limit ++ str "): " ++ name ++
  str ". Without a bookmark the whole file has to be held in memory, so this check reads nothing rather than half of it. Add bookmark=auto to read only what is new, add max-lines to read only the newest lines, or raise max-size.".

(** ** The command *)

Record arguments := mkArgs {
  arg_line_split : cppstring; arg_column_split : cppstring; arg_files : list cppstring; arg_files_string : cppstring;
  arg_bookmark : option cppstring; arg_max_lines : Z; arg_newest : cppstring; arg_max_size : cppstring;
  arg_filter : list cppstring; arg_warn : list cppstring; arg_crit : list cppstring }.

(** What a check depends on besides its arguments: the files, the access gate, whether the
    filter compiles, and whether the lock of the bookmarks is free for a read and for a write. *)
Record environment := mkEnv {
  files : gmap cppstring cppstring; file_access : cppstring -> decision; build_filter : bool;
  lock_get : cppstring -> bool; lock_add : cppstring -> bool }.

Fixpoint joinEx_loop (l : list cppstring) (key ret : cppstring) : cppstring :=
  match l with [] => ret | s :: l => joinEx_loop l key ((match ret with [] => [] | _ => ret ++ key end) ++ s) end.
Definition joinEx (l : list cppstring) (key : cppstring) : cppstring := joinEx_loop l key [].

(** [str::utils::replace] with one iteration per character *)
Definition replace_text (s key w : cppstring) : cppstring := default s (replace (S (length s)) s key w).
Definition unescape_split (s : cppstring) : cppstring :=
  replace_text (replace_text s (str "\t") [c_tab]) (str "\n") [c_newline].

Definition auto_suffix (a : arguments) : cppstring :=
  let expressions := str "filter[" ++ joinEx (arg_filter a) (str ",") ++ str "],warn[" ++ joinEx (arg_warn a) (str ",") ++
                     str "],crit[" ++ joinEx (arg_crit a) (str ",") ++ str "]" in
  str "],expr[" ++ to_hex (fnv1a expressions) ++ str "]".

(** The name given with [bookmark], empty when it is not given at all *)
Definition bookmark_of (a : arguments) : cppstring :=
  match arg_bookmark a with None => [] | Some [] => str "auto" | Some v => v end.
Definition bookmark_key (a : arguments) (name : cppstring) : cppstring :=
  let b := bookmark_of a in
  make_key (if bool_decide (b = str "auto") then str "auto,file[" ++ name ++ auto_suffix a else b) name.

(** A check ends in an error, or hands the filter its records *)
Inductive outcome := Bad (message : cppstring) | FilterError | Matched (records : list filter_obj).

(** The files that were named, as the access gate returns them *)
Definition extra_files (s : cppstring) : list cppstring :=
  List.filter (fun n => negb (bool_decide (n = []))) (map trim_space (pieces "," s)).
Fixpoint resolve_files (gate : cppstring -> decision) (names : list cppstring) : result cppstring (list cppstring) :=
  match names with
  | [] => Ok []
  | n :: ns => match gate n with
               | refuse e => Throw e
               | accept v => let* vs := resolve_files gate ns in Ok (v :: vs)
               end
  end.

Section command.
Context `{lexical_int}.

Definition max_bytes_of (max_size : cppstring) : result cppstring Z :=
  match decode_byte_text max_size with
  | Throw _ => Throw (str "Invalid max-size: " ++ max_size ++ str " (expected a byte count, optionally suffixed k/m/g)")
  | Ok parsed =>
      if parsed <? 0 then Throw (str "Invalid max-size: " ++ max_size ++ str " (must not be negative)")
      else Ok (if parsed =? 0 then 2 ^ 64 - 1 else parsed)
  end.

(** What the loop over the files works with *)
Record options := mkOptions { line_split : cppstring; column_split : cppstring; max_lines : Z; newest_first : bool; max_bytes : Z; max_size : cppstring }.
Definition strip_cr (o : options) : bool := bool_decide (last (line_split o) = Some c_newline).

(** One file without a bookmark *)
Definition read_plain (o : options) (name file : cppstring) : result cppstring (list filter_obj) :=
  let* contents :=
    if (max_lines o >? 0) && newest_first o then
      let contents := read_leading_records file (line_split o) (max_lines o) in
      guard! zlength contents <=? max_bytes o else describe_too_large name (max_size o) in Ok contents
    else
      let from := if max_lines o >? 0 then find_tail_offset file (line_split o) (max_lines o) else 0%nat in
      let '(contents, truncated) := read_capped (drop from file) (max_bytes o) in
      guard! negb truncated else describe_too_large name (max_size o) in Ok contents in
  Ok (match_records name contents (line_split o) (column_split o) (strip_cr o) true (max_lines o) (newest_first o)).2.

(** One file with a bookmark: its records and the position to store *)
Definition read_bookmarked (o : options) (prev : position) (name file : cppstring) : result cppstring (list filter_obj * position) :=
  let size := zlength file in
  let head := read_head file (Z.min (Z.max size (fingerprint_len prev)) max_fingerprint_len) in
  let head_valid := fingerprint_len prev <=? zlength head in
  let head_fingerprint := if head_valid then fnv1a (take (Z.to_nat (fingerprint_len prev)) head) else 0 in
  let decision := compute_resume prev size head_fingerprint head_valid in
  let* matched :=
    if skip decision then Ok (0%nat, [])
    else
      let '(contents, truncated) := read_capped (drop (Z.to_nat (resume_at decision)) file) (max_bytes o) in
      let keep := complete_record_end contents (line_split o) in
      guard! negb (truncated && Nat.eqb keep 0) else
        (str "No complete line in the first " ++ max_size o ++ str " of " ++ name ++ str " (max-size): raise max-size or check line-split") in
      let contents := if truncated then take keep contents else contents in
      Ok (match_records name contents (line_split o) (column_split o) (strip_cr o) false (max_lines o) (newest_first o)) in
  Ok (matched.2, mkPosition true (wrap_u 64 (resume_at decision + Z.of_nat matched.1)) (zlength head) (fnv1a head)).

(** The files in turn; the positions to store are collected, and every look-up counts as a use
    of its bookmark. *)
Fixpoint read_files (env : environment) (a : arguments) (o : options) (names : list cppstring) (matched : list filter_obj)
    (pending : list (cppstring * cppstring)) (s : store) : result cppstring (list filter_obj * list (cppstring * cppstring)) * store :=
  match names with
  | [] => (Ok (matched, pending), s)
  | n :: ns =>
      match files env !! n with
      | None => (Throw (str "Failed to open file: " ++ n), s)
      | Some file =>
          if bool_decide (bookmark_of a = []) then
            match read_plain o n file with
            | Throw e => (Throw e, s)
            | Ok records => read_files env a o ns (matched ++ records) pending s
            end
          else
            let key := bookmark_key a n in
            let '(prev, s) := bookmarks_get (lock_get env key) key s in
            match read_bookmarked o prev n file with
            | Throw e => (Throw e, s)
            | Ok (records, next) => read_files env a o ns (matched ++ records) (pending ++ [(key, format_position next)]) s
            end
      end
  end.

Definition options_of (a : arguments) : result cppstring options :=
  let* max_bytes := max_bytes_of (arg_max_size a) in
  let first := bool_decide (arg_newest a = str "first") in
  guard! first || bool_decide (arg_newest a = str "last") else (str "Invalid newest: " ++ arg_newest a ++ str " (expected first or last)") in
  guard! negb (first && negb (bool_decide (bookmark_of a = []))) else
    str "newest=first cannot be combined with bookmark: a file which is rewritten from the top has no position to resume from" in
  Ok (mkOptions (unescape_split (arg_line_split a)) (unescape_split (arg_column_split a)) (arg_max_lines a) first max_bytes (arg_max_size a)).

Definition check_logfile (env : environment) (a : arguments) (s : store) : outcome * store :=
  let names := arg_files a ++ extra_files (arg_files_string a) in
  if bool_decide (arg_column_split a = []) then (Bad (str "No column-split specified"), s)
  else if bool_decide (arg_line_split a = []) then (Bad (str "No line-split specified"), s)
  else if bool_decide (names = []) then (Bad (str "Need to specify at least one file: file=foo.txt"), s)
  else
    match (let* names := resolve_files (file_access env) names in let* o := options_of a in Ok (names, o)) with
    | Throw e => (Bad e, s)
    | Ok (names, o) =>
        if negb (build_filter env) then (FilterError, s)
        else
          match read_files env a o names [] [] s with
          | (Throw e, s) => (Bad e, s)
          | (Ok (matched, pending), s) => (Matched matched, fold_left (fun s p => bookmarks_add (lock_add env p.1) p.1 p.2 s) pending s)
          end
    end.
End command.

(** ** Loading and unloading *)

(** The rows of the core's storage; the live positions and the keys that were persisted *)
Definition load_bookmarks (locked : bool) (rows : list (cppstring * cppstring)) (s : store) (persisted : gset cppstring) : store * gset cppstring :=
  fold_left (fun st e => match e.2 with
                         | [] => st
                         | _ => (bookmarks_add locked e.1 e.2 st.1, {[e.1]} ∪ st.2)
                         end) rows (s, persisted).
(** The rows that are written: the live positions, and a blank for a persisted key that is gone *)
Definition unload_bookmarks (locked : bool) (s : store) (persisted : gset cppstring) (rows : gmap cppstring cppstring) : gmap cppstring cppstring :=
  let live := get_copy locked s in
  set_fold (fun key rows => match live !! key with None => <[key := []]> rows | Some _ => rows end) (live ∪ rows) persisted.

(** ** Real-time monitoring (realtime_data.cpp) *)

Record file_container := mkContainer { fc_file : cppstring; fc_size : Z; fc_time : Z }.
Record runtime_data := mkRuntime { rt_files : list file_container; rt_column_split : cppstring; rt_line_split : cppstring; read_from_start : bool; check_time : bool }.

(** A file system with contents and modification times *)
Abbreviation watched := (gmap cppstring (cppstring * Z)).
Definition file_size (fs : watched) (f : cppstring) : option Z := (fun e => zlength e.1) <$> fs !! f.

Definition touch (fs : watched) (d : runtime_data) : runtime_data :=
  mkRuntime (map (fun fc => mkContainer (fc_file fc) (default 0 (file_size fs (fc_file fc))) (fc_time fc)) (rt_files d))
    (rt_column_split d) (rt_line_split d) (read_from_start d) (check_time d).
Definition file_changed (fs : watched) (d : runtime_data) (fc : file_container) : bool :=
  match fs !! fc_file fc with
  | None => false
  | Some (text, time) => if check_time d then negb (time =? fc_time fc) else negb (zlength text =? fc_size fc)
  end.
Definition has_changed (fs : watched) (d : runtime_data) : bool := existsb (file_changed fs d) (rt_files d).
Definition add_file (fs : watched) (path : cppstring) (d : runtime_data) : runtime_data :=
  mkRuntime (rt_files d ++ [mkContainer path (default 0 (file_size fs path)) 0]) (rt_column_split d) (rt_line_split d) (read_from_start d) (check_time d).
Definition set_read_from_start (b : bool) (d : runtime_data) : runtime_data :=
  mkRuntime (rt_files d) (rt_column_split d) (rt_line_split d) b (if b then true else check_time d).
Definition set_comparison (b : bool) (d : runtime_data) : runtime_data :=
  mkRuntime (rt_files d) (rt_column_split d) (rt_line_split d) (read_from_start d) b.

(** A separator with its escapes replaced, a default for an empty one, and quotes removed *)
Definition split_setting (value fallback empty_after : cppstring) : cppstring :=
  let s := unescape_split (match value with [] => fallback | _ => value end) in
  let len := length s in
  let s := if Nat.eqb len 0 then empty_after else s in
  if Nat.ltb 2 len && bool_decide (head s = Some c_dquote) && bool_decide (last s = Some c_dquote) then substr s 1 (len - 2) else s.
Definition set_split (ln column : cppstring) (d : runtime_data) : runtime_data :=
  mkRuntime (rt_files d) (split_setting column [c_tab] (str " ")) (split_setting ln [c_newline] [c_newline]) (read_from_start d) (check_time d).

(** The lines of a stream *)
Fixpoint lines_of (fuel : nat) (s delim : cppstring) : list cppstring :=
  match fuel with
  | O => []
  | S fuel => match getline_str s delim with None => [] | Some (l, rest) => l :: lines_of fuel rest delim end
  end.

(** One file: the container as it is left and the records; a file that is gone throws *)
Definition process_file (fs : watched) (d : runtime_data) (c : file_container) : file_container * result cppstring (list filter_obj) :=
  match fs !! fc_file c with
  | None => (c, Throw (str "file_size: " ++ fc_file c))
  | Some (text, time) =>
      let sz := zlength text in
      if sz =? 0 then (mkContainer (fc_file c) 0 time, Ok [])
      else if negb (file_changed fs d c) then (c, Ok [])
      else
        let '(skip, from) := compute_seek (fc_size c) sz (read_from_start d) in
        let c := mkContainer (fc_file c) sz time in
        if skip then (c, Ok [])
        else
          let split := match rt_line_split d with [] => [c_newline] | l => l end in
          let rest := drop (Z.to_nat from) text in
          let lines := List.filter (fun l => negb (bool_decide (l = []))) (lines_of (S (length rest)) rest split) in
          (c, Ok (map (fun l => mkObj (fc_file c) l (default [] (split_lst l (rt_column_split d)))) lines))
  end.
(** The files in turn; an exception leaves the ones before it read and the ones after it alone. *)
Fixpoint process_files (fs : watched) (d : runtime_data) (cs : list file_container) : list file_container * result cppstring (list filter_obj) :=
  match cs with
  | [] => ([], Ok [])
  | c :: cs =>
      match process_file fs d c with
      | (c, Throw e) => (c :: cs, Throw e)
      | (c, Ok records) =>
          let '(cs, r) := process_files fs d cs in
          (c :: cs, match r with Ok more => Ok (records ++ more) | Throw e => Throw e end)
      end
  end.
Definition process_item (fs : watched) (d : runtime_data) : runtime_data * result cppstring (list filter_obj) :=
  let '(cs, r) := process_files fs d (rt_files d) in
  (mkRuntime cs (rt_column_split d) (rt_line_split d) (read_from_start d) (check_time d), r).
