(* ===== verification/LogRecords.v ===== *)
(** Records of a log file: the scan of LogFile against a reference definition.

    [records] are the texts between delimiters, from left to right, and [consumed] the end of
    the last delimiter.  The scan of a text continues the scan of any part of it that ends at a
    delimiter, which is what both the bookmarks and the limited readers rest on. *)

From stdpp Require Import base list gmap sets strings.
From Stdlib Require Import Ascii ZArith Lia.
From Stdlib Require String.
From S2P Require Import Prelude Strings Format AccessPolicy Ordering LogFile.
Import String.StringSyntax.

Local Open Scope nat_scope.

(** ** Occurrences *)

Definition occurs (d s : cppstring) (i : nat) : Prop := is_prefix d (drop i s) = true.
#[global] Instance occurs_dec d s i : Decision (occurs d s i).
Proof. unfold occurs. apply _. Defined.

Section occurrences.
Context (d : cppstring) (Hd : d <> []).

Lemma occurs_bound s i : occurs d s i -> i + length d <= length s.
Proof.
  unfold occurs. intros (b & E)%is_prefix_iff. apply (f_equal length) in E. rewrite length_drop, length_app in E.
  destruct d; [done|]. cbn in *. lia.
Qed.
Lemma occurs_app s t i : occurs d s i -> occurs d (s ++ t) i.
Proof.
  intros H. pose proof (occurs_bound s i H). unfold occurs in *. apply is_prefix_iff in H as [b E]. apply is_prefix_iff.
  rewrite drop_app_le by lia. rewrite E. exists (b ++ t). by rewrite <- app_assoc.
Qed.
Lemma occurs_app_inv s t i : occurs d (s ++ t) i -> i + length d <= length s -> occurs d s i.
Proof.
  unfold occurs. intros (b & E)%is_prefix_iff Hb. apply is_prefix_iff. rewrite drop_app_le in E by lia.
  exists (drop (length d) (drop i s)). apply (f_equal (take (length d))) in E.
  rewrite take_app_le, take_app_length in E by (rewrite length_drop; lia). rewrite <- E at 1. by rewrite take_drop.
Qed.
Lemma occurs_drop s n i : occurs d (drop n s) i <-> occurs d s (n + i).
Proof. unfold occurs. by rewrite drop_drop. Qed.
Lemma occurs_take s n i : occurs d (take n s) i <-> occurs d s i /\ i + length d <= n.
Proof.
  split.
  - intros H. pose proof (occurs_bound _ _ H) as B. rewrite length_take in B. split; [|lia].
    rewrite <- (take_drop n s). by apply occurs_app.
  - intros [H B]. pose proof (occurs_bound _ _ H). rewrite <- (take_drop n s) in H. apply occurs_app_inv in H; [done|]. rewrite length_take. lia.
Qed.

(** [find] returns the first occurrence. *)
Lemma find_at_first s k :
  match find_at d s k with
  | Some j => k <= j /\ occurs d s (j - k) /\ forall i, i < j - k -> ~ occurs d s i
  | None => forall i, ~ occurs d s i
  end.
Proof.
  revert k. induction s as [|c s IH]; intros k; cbn [find_at].
  - destruct (is_prefix d []) eqn:E; [destruct d; done|]. intros i Hi. apply occurs_bound in Hi. destruct d; [done|]. cbn in Hi. lia.
  - destruct (is_prefix d (c :: s)) eqn:E.
    + rewrite Nat.sub_diag. split_and!; [lia|done|lia].
    + specialize (IH (S k)). destruct (find_at d s (S k)) as [j|].
      * destruct IH as (L & O & N). replace (j - k) with (S (j - S k)) by lia. split_and!; [lia|done|].
        intros [|i] Hi; [unfold occurs; cbn; congruence|]. intros Ho. apply (N i); [lia|done].
      * intros [|i]; [unfold occurs; cbn; congruence|]. apply IH.
Qed.
Lemma find_first s pos :
  match find s d pos with
  | Some j => pos <= j /\ occurs d s j /\ forall i, pos <= i < j -> ~ occurs d s i
  | None => forall i, pos <= i -> ~ occurs d s i
  end.
Proof.
  unfold find. destruct (Nat.leb_spec pos (length s)) as [L|G].
  - pose proof (find_at_first (drop pos s) pos) as H. destruct (find_at d (drop pos s) pos) as [j|].
    + destruct H as (H1 & H2 & H3). rewrite occurs_drop in H2. replace (pos + (j - pos)) with j in H2 by lia. split_and!; [done..|].
      intros i Hi Ho. apply (H3 (i - pos)); [lia|]. rewrite occurs_drop. by replace (pos + (i - pos)) with i by lia.
    + intros i Hi Ho. apply (H (i - pos)). rewrite occurs_drop. by replace (pos + (i - pos)) with i by lia.
  - intros i Hi Ho. apply occurs_bound in Ho. lia.
Qed.
Lemma find_Some_iff s pos j : find s d pos = Some j <-> pos <= j /\ occurs d s j /\ forall i, pos <= i < j -> ~ occurs d s i.
Proof.
  pose proof (find_first s pos) as H. split; [by intros E; rewrite E in H|]. intros (L & O & N).
  destruct (find s d pos) as [k|]; [|by destruct (H j)]. destruct H as (L' & O' & N'). f_equal.
  destruct (decide (j < k)) as [G|G]; [by destruct (N' j)|]. destruct (decide (k < j)); [by destruct (N k)|lia].
Qed.
Lemma find_None_iff s pos : find s d pos = None <-> forall i, pos <= i -> ~ occurs d s i.
Proof.
  pose proof (find_first s pos) as H. split; [by intros E; rewrite E in H|]. intros N.
  destruct (find s d pos) as [k|]; [|done]. destruct H as (L' & O' & _). by destruct (N k).
Qed.

(** ** The scan *)

Definition scan (s : cppstring) (lpos : nat) : list (nat * nat) * nat := ranges (S (length s)) s d lpos.

Lemma ranges_fuel s f g lpos : length s - lpos < f -> length s - lpos < g -> ranges f s d lpos = ranges g s d lpos.
Proof.
  revert g lpos. induction f as [|f IH]; intros [|g] lpos Hf Hg; try lia. cbn [ranges]. destruct (find s d lpos) as [pos|] eqn:E; [|done].
  apply find_Some_iff in E as (L & O & _). apply occurs_bound in O. assert (0 < length d) by (destruct d; [done|cbn; lia]).
  by rewrite (IH g) by lia.
Qed.
Lemma scan_eq s lpos :
  scan s lpos = match find s d lpos with
                | None => ([], lpos)
                | Some pos => let '(rs, e) := scan s (pos + length d) in ((lpos, pos - lpos) :: rs, e)
                end.
Proof.
  unfold scan at 1. cbn [ranges]. destruct (find s d lpos) as [pos|] eqn:E; [|done].
  apply find_Some_iff in E as (L & O & _). apply occurs_bound in O. assert (0 < length d) by (destruct d; [done|cbn; lia]).
  unfold scan. by rewrite (ranges_fuel s (length s) (S (length s))) by lia.
Qed.
#[local] Opaque scan.

(** Induction along the scan of a text *)
Lemma scan_ind (s : cppstring) (P : nat -> Prop) :
  (forall lpos, find s d lpos = None -> P lpos) ->
  (forall lpos pos, find s d lpos = Some pos -> P (pos + length d) -> P lpos) -> forall lpos, P lpos.
Proof.
  intros Hn Hs lpos. remember (length s - lpos) as n eqn:En. revert lpos En. induction (lt_wf n) as [n _ IH]. intros lpos ->.
  destruct (find s d lpos) as [pos|] eqn:E; [|by apply Hn]. apply (Hs lpos pos E).
  apply find_Some_iff in E as (L & O & _). apply occurs_bound in O. assert (0 < length d) by (destruct d; [done|cbn; lia]).
  eapply IH; [|done]. lia.
Qed.

Lemma scan_bounds s lpos :
  lpos <= (scan s lpos).2 /\ (lpos <= length s -> (scan s lpos).2 <= length s) /\
  Forall (fun r => lpos <= r.1 /\ r.1 + r.2 + length d <= (scan s lpos).2 /\ r.1 + r.2 + length d <= length s) (scan s lpos).1 /\ find s d (scan s lpos).2 = None.
Proof.
  induction lpos as [lpos E|lpos pos E IH] using (scan_ind s); rewrite scan_eq, E.
  - by split_and!; cbn; [lia..|constructor|].
  - apply find_Some_iff in E as (L & O & _). apply occurs_bound in O. destruct (scan s (pos + length d)) as [rs e]. cbn in *.
    destruct IH as (I1 & I2 & I3 & I4). split_and!; [lia|intros; apply I2; lia| |done].
    constructor; [cbn; split_and!; try lia; specialize (I2 ltac:(lia)); lia|]. eapply Forall_impl; [done|]. cbn. intros r. lia.
Qed.

(** The scan of a longer text takes up where the scan of its beginning ends. *)
Lemma scan_app s t lpos : scan (s ++ t) lpos = let '(rs, e) := scan s lpos in let '(rs', e') := scan (s ++ t) e in (rs ++ rs', e').
Proof.
  induction lpos as [lpos E|lpos pos E IH] using (scan_ind s).
  - rewrite (scan_eq s), E. by destruct (scan (s ++ t) lpos).
  - rewrite (scan_eq s lpos), E. apply find_Some_iff in E as (L & O & N). pose proof (occurs_bound _ _ O) as B.
    rewrite (scan_eq (s ++ t) lpos). rewrite (proj2 (find_Some_iff (s ++ t) lpos pos)).
    + rewrite IH. destruct (scan s (pos + length d)) as [rs e]. by destruct (scan (s ++ t) e).
    + split_and!; [done|by apply occurs_app|]. intros i Hi Ho. apply (N i Hi). apply occurs_app_inv in Ho; [done|lia].
Qed.

Definition shift (n : nat) (x : list (nat * nat) * nat) : list (nat * nat) * nat := (map (fun r => (n + r.1, r.2)) x.1, n + x.2).
Lemma scan_drop s n k : n + k <= length s -> scan s (n + k) = shift n (scan (drop n s) k).
Proof.
  revert k. intros k. induction k as [k E|k pos E IH] using (scan_ind (drop n s)); intros Hk; rewrite (scan_eq (drop n s)), E.
  - unfold shift. cbn. rewrite scan_eq, (proj2 (find_None_iff _ _)); [done|]. intros i Hi Ho. rewrite find_None_iff in E.
    apply (E (i - n)); [lia|]. rewrite occurs_drop. by replace (n + (i - n)) with i by lia.
  - apply find_Some_iff in E as (L & O & N). rewrite occurs_drop in O. pose proof (occurs_bound _ _ O) as B.
    rewrite scan_eq, (proj2 (find_Some_iff _ _ (n + pos))).
    + replace (n + pos + length d) with (n + (pos + length d)) by lia. rewrite IH by lia.
      destruct (scan (drop n s) (pos + length d)) as [rs e]. unfold shift. cbn. do 3 f_equal. lia.
    + split_and!; [lia|done|]. intros i Hi Ho. apply (N (i - n)); [lia|]. rewrite occurs_drop. by replace (n + (i - n)) with i by lia.
Qed.

(** What lies behind the last delimiter does not matter. *)
Lemma scan_take s e lpos : (scan s lpos).2 <= e -> scan (take e s) lpos = scan s lpos.
Proof.
  induction lpos as [lpos E|lpos pos E IH] using (scan_ind s); intros He; rewrite (scan_eq s), E in He |- *; rewrite (scan_eq (take e s)).
  - rewrite (proj2 (find_None_iff _ _)); [done|]. intros i Hi Ho. rewrite find_None_iff in E. apply (E i Hi). by apply occurs_take in Ho as [? _].
  - destruct (scan_bounds s (pos + length d)) as (B & _). destruct (scan s (pos + length d)) as [rs e'] eqn:S. cbn in *.
    apply find_Some_iff in E as (L & O & N). rewrite (proj2 (find_Some_iff _ _ pos)).
    + by rewrite IH.
    + split_and!; [done|apply occurs_take; split; [done|lia]|]. intros i Hi Ho. apply (N i Hi). by apply occurs_take in Ho as [? _].
Qed.

(** ** Records *)

Definition range_text (s : cppstring) (r : nat * nat) : cppstring := substr s r.1 r.2.
Definition records (s : cppstring) : list cppstring := map (range_text s) (scan s 0).1.
Definition consumed (s : cppstring) : nat := (scan s 0).2.
Definition all_records (s : cppstring) : list cppstring := records s ++ if Nat.ltb (consumed s) (length s) then [drop (consumed s) s] else [].

Lemma consumed_le s : consumed s <= length s.
Proof. apply scan_bounds. lia. Qed.

Lemma range_text_app s t r : r.1 + r.2 <= length s -> range_text (s ++ t) r = range_text s r.
Proof. intros. unfold range_text, substr. rewrite drop_app_le, take_app_le by (rewrite ?length_drop; lia). done. Qed.

(** The records of a text are those of its beginning, then those behind its last delimiter. *)
Lemma records_app s t :
  consumed (s ++ t) = consumed s + consumed (drop (consumed s) (s ++ t)) /\
  records (s ++ t) = records s ++ records (drop (consumed s) (s ++ t)).
Proof.
  unfold consumed, records. rewrite (scan_app s t 0). destruct (scan_bounds s 0) as (_ & B & F & _). destruct (scan s 0) as [rs e]. cbn [fst snd] in *.
  specialize (B ltac:(lia)). assert (scan (s ++ t) e = shift e (scan (drop e (s ++ t)) 0)) as -> by (rewrite <- scan_drop; [by rewrite Nat.add_0_r|rewrite length_app; lia]).
  destruct (scan (drop e (s ++ t)) 0) as [rs' e']. cbn [shift fst snd]. split; [done|]. rewrite map_app, map_map. f_equal.
  - apply map_ext_Forall. eapply Forall_impl; [done|]. cbn. intros r Hr. apply range_text_app. lia.
  - apply map_ext. intros r. unfold range_text, substr. cbn. by rewrite drop_drop.
Qed.

Lemma records_take s e : consumed s <= e -> consumed (take e s) = consumed s /\ records (take e s) = records s.
Proof.
  unfold consumed, records. intros He. rewrite scan_take by done. split; [done|].
  destruct (scan_bounds s 0) as (_ & _ & F & _). apply map_ext_Forall. eapply Forall_impl; [done|]. cbn. intros r Hr.
  unfold range_text, substr. rewrite <- (take_drop e s) at 2. rewrite drop_app_le, take_app_le by (rewrite ?length_drop, length_take; lia). done.
Qed.

(** A text that ends with its last delimiter *)
Definition complete (s : cppstring) : Prop := consumed s = length s.
Lemma complete_take s : complete (take (consumed s) s).
Proof. unfold complete. rewrite (proj1 (records_take s (consumed s) ltac:(lia))), length_take. pose proof (consumed_le s). lia. Qed.
Lemma records_complete s t : complete s -> consumed (s ++ t) = length s + consumed t /\ records (s ++ t) = records s ++ records t.
Proof. intros C. pose proof (records_app s t) as [E1 E2]. rewrite C, drop_app_length in *. by rewrite E1, E2. Qed.
Lemma all_records_complete s t : complete s -> all_records (s ++ t) = records s ++ all_records t.
Proof.
  intros C. destruct (records_complete s t C) as [E1 E2]. unfold all_records. rewrite E1, E2, length_app, <- app_assoc, <- drop_drop, drop_app_length.
  do 2 f_equal. replace (length s + consumed t <? length s + length t) with (consumed t <? length t); [done|].
  destruct (Nat.ltb_spec (consumed t) (length t)), (Nat.ltb_spec (length s + consumed t) (length s + length t)); lia.
Qed.
End occurrences.

(** ** What is matched *)

Definition lastn {A} (n : nat) (l : list A) : list A := drop (length l - n) l.
Lemma lastn_app {A} n (l k : list A) : n <= length k -> lastn n (l ++ k) = lastn n k.
Proof. intros. unfold lastn. rewrite length_app, drop_app_ge by lia. f_equal. lia. Qed.
Lemma lastn_all {A} n (l : list A) : length l <= n -> lastn n l = l.
Proof. intros. unfold lastn. by replace (length l - n) with 0 by lia. Qed.
Lemma lastn_map {A B} (f : A -> B) n l : lastn n (map f l) = map f (lastn n l).
Proof. unfold lastn. rewrite length_map. by rewrite <- skipn_map. Qed.

(** The records a limit leaves, the newest at the named end *)
Definition limit {A} (max_lines : Z) (newest_first : bool) (l : list A) : list A :=
  if (max_lines =? 0)%Z then l else if newest_first then take (Z.to_nat max_lines) l else lastn (Z.to_nat max_lines) l.
Lemma limit_map {A B} (f : A -> B) n b l : limit n b (map f l) = map f (limit n b l).
Proof. unfold limit. destruct (n =? 0)%Z, b; [done|done|by rewrite firstn_map|apply lastn_map]. Qed.

Lemma keep_first {A} n (rs kept : list A) : (0 < n)%Z -> length kept <= Z.to_nat n ->
  fold_left (keep_range n true) rs kept = kept ++ take (Z.to_nat n - length kept) rs.
Proof.
  intros Hn. revert kept. induction rs as [|r rs IH]; intros kept Hk; cbn [fold_left]; [by rewrite take_nil, app_nil_r|].
  unfold keep_range at 2, zlength. destruct (Z.ltb_spec (Z.of_nat (length kept)) n).
  - rewrite IH by (rewrite length_app; cbn; lia). rewrite length_app, <- app_assoc. cbn [length].
    destruct (Z.to_nat n - length kept) as [|k] eqn:E; [lia|]. replace (Z.to_nat n - (length kept + 1)) with k by lia. done.
  - rewrite IH by done. by replace (Z.to_nat n - length kept) with 0 by lia.
Qed.
Lemma keep_last {A} n (rs kept : list A) : (0 < n)%Z -> length kept <= Z.to_nat n ->
  fold_left (keep_range n false) rs kept = lastn (Z.to_nat n) (kept ++ rs).
Proof.
  intros Hn. revert kept. induction rs as [|r rs IH]; intros kept Hk; cbn [fold_left]; [by rewrite app_nil_r, lastn_all|].
  unfold keep_range at 2, zlength. rewrite length_app. cbn [length]. destruct (Z.gtb_spec (Z.of_nat (length kept + 1)) n).
  - rewrite IH by (rewrite length_drop, length_app; cbn; lia). assert (exists k kept', kept = k :: kept') as (k & kept' & ->) by (destruct kept; [cbn in *; lia|eauto]).
    change (drop 1 ((k :: kept') ++ [r])) with (kept' ++ [r]). rewrite <- app_assoc. symmetry. apply (lastn_app _ [k]). rewrite length_app. cbn in *. lia.
  - rewrite IH by (rewrite length_app; cbn; lia). by rewrite <- app_assoc.
Qed.
Lemma keep_limit {A} n b (rs : list A) : (0 <= n)%Z -> (if (n =? 0)%Z then rs else fold_left (keep_range n b) rs []) = limit n b rs.
Proof.
  intros Hn. unfold limit. destruct (Z.eqb_spec n 0); [done|]. destruct b.
  - rewrite keep_first by (cbn; lia). by rewrite Nat.sub_0_r.
  - by rewrite keep_last by (cbn; lia).
Qed.

(** A record as it is handed to the filter *)
Definition record_obj (name column_split : cppstring) (strip : bool) (text : cppstring) : filter_obj :=
  let text := if strip then strip_return text else text in mkObj name text (default [] (split_lst text column_split)).

Lemma match_records_spec name c d col strip tail n b : d <> [] -> (0 <= n)%Z ->
  match_records name c d col strip tail n b =
    (consumed d c, map (record_obj name col strip) (limit n b (if tail : bool then all_records d c else records d c))).
Proof.
  intros Hd Hn. unfold match_records, all_records, records, consumed. fold (scan d c 0). pose proof (consumed_le d Hd c) as Hc.
  unfold consumed in *. destruct (scan d c 0) as [rs e]. cbn [fst snd] in *. rewrite keep_limit by done. f_equal.
  match goal with |- map ?f _ = _ => assert (forall l, map f l = map (record_obj name col strip) (map (range_text c) l)) as -> by (intros; by rewrite map_map) end.
  rewrite <- limit_map. do 2 f_equal. destruct tail; cbn [andb]; [|done].
  destruct (Nat.ltb_spec e (length c)); [|by rewrite app_nil_r]. rewrite map_app. cbn. f_equal. unfold range_text, substr. cbn. f_equal.
  rewrite take_ge; [done|]. rewrite length_drop. lia.
Qed.

(** ** Bounded reading *)

Lemma capped_loop_spec fuel rest out max : length rest < fuel -> (zlength out <= max)%Z ->
  capped_loop fuel rest out max =
    (out ++ take (Z.to_nat (max - zlength out)) rest, bool_decide (max < zlength out + zlength rest)%Z).
Proof.
  revert rest out. induction fuel as [|fuel IH]; intros rest out Hf Ho; [lia|]. cbn [capped_loop]. destruct (Z.ltb_spec (zlength out) max) as [L|G].
  - destruct rest as [|c rest]; [rewrite take_nil, app_nil_r, bool_decide_eq_false_2 by (unfold zlength in *; cbn; lia); done|].
    set (want := Z.to_nat (Z.min (max - zlength out) record_scan_chunk_size)). set (r := c :: rest) in *.
    assert (0 < want) by (unfold want, record_scan_chunk_size; lia). assert (Z.of_nat want <= max - zlength out)%Z by (unfold want, record_scan_chunk_size in *; lia).
    assert (length (drop want r) < fuel) by (rewrite length_drop; unfold r in *; cbn [length] in *; lia).
    assert (zlength (out ++ take want r) = zlength out + Z.of_nat (Nat.min want (length r)))%Z as E by (unfold zlength; rewrite length_app, length_take; lia).
    rewrite IH by (rewrite ?E; lia). rewrite E. unfold zlength in *. rewrite length_drop. f_equal.
    + rewrite <- app_assoc. f_equal. destruct (decide (want <= length r)).
      * rewrite Nat.min_l by lia. rewrite <- (take_drop want r) at 3. rewrite take_app_ge by (rewrite length_take; lia). f_equal.
        rewrite length_take, Nat.min_l by lia. f_equal. lia.
      * rewrite (take_ge r want), (drop_ge r want), take_nil, app_nil_r by lia. rewrite take_ge by lia. done.
    + apply bool_decide_ext. lia.
  - replace (max - zlength out)%Z with 0%Z by lia. cbn [Z.to_nat take]. rewrite app_nil_r. f_equal.
    destruct rest; [rewrite bool_decide_eq_true_2 by done; rewrite bool_decide_eq_false_2 by (unfold zlength in *; cbn; lia); done|].
    rewrite (bool_decide_eq_false_2 (_ = [])) by done. rewrite bool_decide_eq_true_2 by (unfold zlength in *; cbn [length]; lia). done.
Qed.
Lemma read_capped_spec rest max : (0 <= max)%Z -> read_capped rest max = (take (Z.to_nat max) rest, bool_decide (max < zlength rest)%Z).
Proof. intros. unfold read_capped. rewrite capped_loop_spec by (unfold zlength; cbn; lia). cbn [app]. by rewrite Z.sub_0_r, Z.add_0_l. Qed.

(** ** Reading the last records only *)

Lemma rfind_at_spec s key i :
  match rfind_at s key i with
  | Some j => j <= i /\ occurs key s j /\ forall k, j < k <= i -> ~ occurs key s k
  | None => forall k, k <= i -> ~ occurs key s k
  end.
Proof.
  induction i as [|i IH]; cbn [rfind_at].
  - destruct (is_prefix key (drop 0 s)) eqn:E; [split_and!; [lia|done|lia]|]. intros k Hk. assert (k = 0) as -> by lia. unfold occurs. congruence.
  - destruct (is_prefix key (drop (S i) s)) eqn:E; [split_and!; [lia|done|lia]|].
    destruct (rfind_at s key i) as [j|].
    + destruct IH as (L & O & N). split_and!; [lia|done|]. intros k Hk Ho. destruct (decide (k = S i)) as [->|]; [unfold occurs in Ho; congruence|]. apply (N k); [lia|done].
    + intros k Hk Ho. destruct (decide (k = S i)) as [->|]; [unfold occurs in Ho; congruence|]. apply (IH k); [lia|done].
Qed.

Section tail.
Context (d : cppstring) (Hd : d <> []).

Lemma rfind_spec s pos :
  match rfind s d pos with
  | Some j => j <= pos /\ occurs d s j /\ forall k, j < k <= pos -> ~ occurs d s k
  | None => forall k, k <= pos -> ~ occurs d s k
  end.
Proof.
  unfold rfind. destruct (Nat.ltb_spec (length s) (length d)) as [L|G].
  { intros k _ O. apply (occurs_bound d Hd) in O. lia. }
  pose proof (rfind_at_spec s d (Nat.min pos (length s - length d))) as H. destruct (rfind_at s d _) as [j|].
  - destruct H as (A & B & C). split_and!; [lia|done|]. intros k Hk O. pose proof (occurs_bound d Hd _ _ O). apply (C k); [lia|done].
  - intros k Hk O. pose proof (occurs_bound d Hd _ _ O). apply (H k); [lia|done].
Qed.

(** The number of occurrences that start in [a, b) *)
Definition count (s : cppstring) (a b : nat) : nat := length (filter (occurs d s) (seq a (b - a))).

Lemma count_split s a b c : a <= b <= c -> count s a c = count s a b + count s b c.
Proof.
  intros H. unfold count. replace (c - a) with ((b - a) + (c - b)) by lia. rewrite seq_app, filter_app, length_app.
  by replace (a + (b - a)) with b by lia.
Qed.
Lemma count_none s a b : (forall i, a <= i < b -> ~ occurs d s i) -> count s a b = 0.
Proof.
  intros H. unfold count. remember (b - a) as k eqn:E. assert (forall i, a <= i < a + k -> ~ occurs d s i) as Hk by (intros; apply H; lia). clear E H.
  revert a Hk. induction k as [|k IH]; intros a Hk; [done|]. cbn [seq]. rewrite filter_cons_False by (apply Hk; lia). apply IH. intros. apply Hk. lia.
Qed.
Lemma count_one s a : occurs d s a -> count s a (S a) = 1.
Proof. intros H. unfold count. replace (S a - a) with 1 by lia. cbn [seq]. by rewrite filter_cons_True, filter_nil. Qed.
Lemma count_first s a p b : a <= p < b -> occurs d s p -> (forall i, a <= i < p -> ~ occurs d s i) -> count s a b = S (count s (S p) b).
Proof. intros H O N. rewrite (count_split s a p b), (count_split s p (S p) b), count_none, count_one by (done || lia). lia. Qed.
Lemma count_ext s t a b n : (forall i, a <= i < b -> occurs d s i <-> occurs d t (n + i)) -> count s a b = count t (n + a) (n + b).
Proof.
  intros H. unfold count. replace (n + b - (n + a)) with (b - a) by lia. destruct (decide (a <= b)) as [L|G]; [|by replace (b - a) with 0 by lia].
  remember (b - a) as k eqn:E. assert (b = a + k) as -> by lia. clear E L. revert a H. induction k as [|k IH]; intros a H; [done|]. cbn [seq].
  specialize (IH (S a) ltac:(intros; apply H; lia)). replace (n + S a) with (S (n + a)) in IH by lia.
  pose proof (H a ltac:(lia)). rewrite !filter_cons. repeat case_decide; cbn [length]; (tauto || congruence).
Qed.

Lemma count_back_spec fuel buf to_ found wanted : to_ < fuel ->
  match count_back fuel buf d to_ found wanted with
  | inl hit => hit <= to_ /\ occurs d buf hit /\ (found + 1 + Z.of_nat (count buf (S hit) (S to_)) = wanted)%Z
  | inr f => f = (found + Z.of_nat (count buf 0 (S to_)))%Z
  end.
Proof.
  revert to_ found. induction fuel as [|fuel IH]; intros to_ found Hf; [lia|]. cbn [count_back]. pose proof (rfind_spec buf to_) as R.
  destruct (rfind buf d to_) as [hit|].
  2: { rewrite count_none; [lia|]. intros i Hi. apply R. lia. }
  destruct R as (L & O & N). assert (count buf (S hit) (S to_) = 0) as C0 by (apply count_none; intros i Hi; apply N; lia).
  destruct (Z.eqb_spec (found + 1) wanted) as [E|E]; [split_and!; [done..|lia]|].
  assert (forall a, a <= hit -> count buf a (S to_) = count buf a hit + 1) as Cs.
  { intros a Ha. rewrite (count_split buf a hit), (count_split buf hit (S hit)), count_one by (done || lia). lia. }
  destruct hit as [|h]; [rewrite (Cs 0) by lia; unfold count; cbn; lia|].
  specialize (IH h (found + 1)%Z ltac:(lia)). destruct (count_back fuel buf d h _ wanted) as [hit|f].
  - destruct IH as (A & B & C). split_and!; [lia|done|]. rewrite (Cs (S hit)) by lia. lia.
  - rewrite (Cs 0) by lia. lia.
Qed.

Lemma tail_loop_spec fuel file wanted pos carry found : pos <= fuel -> pos <= length file -> carry = take (length d - 1) (drop pos file) ->
  found = Z.of_nat (count file pos (length file)) ->
  let r := tail_loop fuel file d wanted pos carry found in
  r = 0 \/ exists p, occurs d file p /\ r = p + length d /\ (Z.of_nat (count file p (length file)) = wanted)%Z.
Proof.
  revert pos carry found. induction fuel as [|fuel IH]; intros pos carry found Hf Hp Hc Hfound; cbn zeta; [by left|]. cbn [tail_loop].
  destruct (decide (pos = 0)) as [->|P0]; [by left|]. destruct pos as [|pos']; [done|]. set (pos := S pos') in *.
  set (want := Nat.min (Z.to_nat record_scan_chunk_size) pos). assert (1 <= want <= pos) by (unfold want, record_scan_chunk_size; lia).
  set (start := pos - want). assert (take want (drop start file) ++ carry = take (want + (length d - 1)) (drop start file)) as Ebuf.
  { rewrite Hc. rewrite <- (take_drop want (drop start file)) at 2. rewrite drop_drop. replace (start + want) with pos by lia.
    rewrite take_app_ge by (rewrite length_take; lia). f_equal. f_equal. rewrite length_take, length_drop. lia. }
  rewrite Ebuf. set (buf := take (want + (length d - 1)) (drop start file)).
  assert (length buf = Nat.min (want + (length d - 1)) (length file - start)) as Lb by (unfold buf; rewrite length_take, length_drop; done).
  assert (0 < length d) by (destruct d; [done|cbn; lia]).
  assert (forall i, occurs d buf i <-> occurs d file (start + i) /\ i < want) as Ob.
  { intros i. unfold buf. rewrite (occurs_take d Hd), (occurs_drop d). split; [intros [? ?]; split; [done|lia]|intros [? ?]; split; [done|lia]]. }
  pose proof (count_back_spec (S (length buf)) buf (length buf) found wanted ltac:(lia)) as B.
  assert (forall a, a <= want -> count buf a (S (length buf)) = count file (start + a) pos) as Cb.
  { intros a Ha. rewrite (count_split buf a (Nat.min want (S (length buf)))) by lia. rewrite (count_none buf (Nat.min want (S (length buf)))).
    2: { intros i Hi Ho%Ob. lia. }
    rewrite (count_ext buf file a _ start) by (intros i Hi; rewrite Ob; split; [tauto|split; [done|lia]]).
    replace (start + Nat.min want (S (length buf))) with pos by lia. lia. }
  destruct (count_back (S (length buf)) buf d (length buf) found wanted) as [hit|f].
  - destruct B as (B1 & [B2 B2']%Ob & B3). right. exists (start + hit). split_and!; [done|lia|].
    rewrite Cb in B3 by lia. rewrite (count_split file (start + hit) (S (start + hit)) (length file)), count_one by (done || (apply (occurs_bound d Hd) in B2; lia)).
    rewrite (count_split file (S (start + hit)) pos (length file)) by lia. replace (start + S hit) with (S (start + hit)) in B3 by lia. lia.
  - rewrite Cb in B by lia. rewrite Nat.add_0_r in B. apply IH; [lia|lia| |].
    + unfold buf. rewrite take_take. f_equal. lia.
    + rewrite (count_split file start pos) by lia. lia.
Qed.

(** Occurrences of a delimiter that cannot overlap itself are disjoint. *)
Lemma no_overlap s i j : delim_can_overlap d = false -> occurs d s i -> occurs d s j -> i < j -> i + length d <= j.
Proof.
  intros H Oi Oj Hij. destruct (decide (i + length d <= j)) as [|G]; [done|exfalso]. unfold delim_can_overlap in H. apply not_true_iff_false in H. apply H.
  apply existsb_exists. exists (i + length d - j). split; [apply in_seq; lia|]. apply bool_decide_eq_true.
  unfold occurs in *. apply is_prefix_iff in Oi as [bi Ei], Oj as [bj Ej]. set (k := i + length d - j).
  replace (drop j s) with (drop (j - i) (drop i s)) in Ej by (rewrite drop_drop; f_equal; lia). rewrite Ei in Ej.
  rewrite drop_app_le in Ej by lia. apply (f_equal (take k)) in Ej. rewrite !take_app_le in Ej by (rewrite ?length_drop; lia).
  rewrite (take_ge (drop (j - i) d)) in Ej by (rewrite length_drop; lia). rewrite <- Ej. f_equal. lia.
Qed.

Lemma consumed_end s : consumed d s = 0 \/ exists q, occurs d s q /\ consumed d s = q + length d.
Proof.
  unfold consumed. enough (forall lpos, (scan d s lpos).2 = lpos \/ exists q, occurs d s q /\ (scan d s lpos).2 = q + length d) as H by apply H.
  intros lpos. induction lpos as [lpos E|lpos pos E IH] using (scan_ind d Hd s); rewrite (scan_eq d Hd), E; [by left|].
  right. apply (find_Some_iff d Hd) in E as (_ & O & _). destruct (scan d s (pos + length d)) as [rs e]. cbn in *. destruct IH as [->|IH]; [by exists pos|done].
Qed.
Lemma no_later_occurrence s i : consumed d s <= i -> ~ occurs d s i.
Proof. pose proof (scan_bounds d Hd s 0) as (_ & _ & _ & N). rewrite (find_None_iff d Hd) in N. apply N. Qed.

Section disjoint.
Context (Ho : delim_can_overlap d = false).

(** Every occurrence ends a record. *)
Lemma complete_at s p : occurs d s p -> complete d (take (p + length d) s).
Proof.
  intros O. unfold complete. pose proof (occurs_bound d Hd _ _ O) as B. set (t := take (p + length d) s).
  assert (length t = p + length d) as Lt by (unfold t; rewrite length_take; lia). assert (occurs d t p) as Ot by (apply (occurs_take d Hd); split; [done|lia]).
  pose proof (consumed_le d Hd t). assert (p < consumed d t) by (destruct (decide (p < consumed d t)); [done|]; by destruct (no_later_occurrence t p); [lia|]).
  destruct (consumed_end t) as [E|(q & Oq & E)]; [lia|]. pose proof (occurs_bound d Hd _ _ Oq).
  destruct (decide (q < p)); [pose proof (no_overlap t q p Ho Oq Ot ltac:(done)); lia|]. lia.
Qed.

Lemma length_records s : length (records d s) = count s 0 (length s).
Proof.
  unfold records. rewrite length_map. enough (forall lpos, lpos <= length s -> length (scan d s lpos).1 = count s lpos (length s)) as H by (apply H; lia).
  intros lpos. induction lpos as [lpos E|lpos pos E IH] using (scan_ind d Hd s); intros L; rewrite (scan_eq d Hd), E.
  - rewrite (find_None_iff d Hd) in E. rewrite count_none; [done|]. intros. apply E. lia.
  - apply (find_Some_iff d Hd) in E as (Lp & O & N). pose proof (occurs_bound d Hd _ _ O). assert (0 < length d) by (destruct d; [done|cbn; lia]).
    destruct (scan d s (pos + length d)) as [rs e]. cbn [fst length] in *. rewrite IH by lia.
    rewrite (count_first s lpos pos) by (done || lia). rewrite (count_split s (S pos) (pos + length d)) by lia.
    rewrite (count_none s (S pos)); [done|]. intros i Hi Oi. pose proof (no_overlap s pos i Ho O Oi). lia.
Qed.

Lemma ends_with_consumed s : d <> [] -> length d <= length s -> ends_with d s = bool_decide (consumed d s = length s).
Proof.
  intros _ Hl. assert (0 < length d) by (destruct d; [done|cbn; lia]). unfold ends_with. rewrite (proj2 (Nat.leb_le _ _)) by done. cbn [andb]. apply bool_decide_ext. split.
  - intros E. assert (occurs d s (length s - length d)) as O by (unfold occurs; rewrite E; apply is_prefix_iff; exists []; by rewrite app_nil_r).
    pose proof (complete_at s _ O) as C. replace (length s - length d + length d) with (length s) in C by lia. by rewrite take_ge in C.
  - intros E. destruct (consumed_end s) as [E0|(q & Oq & Eq)]; [lia|]. unfold occurs in Oq. apply is_prefix_iff in Oq as [b Eb].
    replace (length s - length d) with q by lia. rewrite Eb. pose proof (f_equal length Eb) as L. rewrite length_drop, length_app in L.
    destruct b; [by rewrite app_nil_r|cbn in L; lia].
Qed.

Lemma length_all_records s : length d <= length s -> length (all_records d s) + (if ends_with d s then 1 else 0) = S (count s 0 (length s)).
Proof.
  intros Hl. rewrite ends_with_consumed by done. unfold all_records. rewrite length_app, length_records. pose proof (consumed_le d Hd s).
  case_bool_decide as E; [rewrite E, Nat.ltb_irrefl; cbn; lia|]. destruct (Nat.ltb_spec (consumed d s) (length s)); cbn; lia.
Qed.
End disjoint.

(** Reading from the offset gives the same last records as reading everything. *)
Lemma find_tail_offset_spec file n : (0 <= n < 2 ^ 64)%Z ->
  lastn (Z.to_nat n) (all_records d (drop (find_tail_offset file d n) file)) = lastn (Z.to_nat n) (all_records d file).
Proof.
  intros Hn. unfold find_tail_offset. destruct ((n =? 0)%Z || bool_decide (d = []) || delim_can_overlap d) eqn:G; [done|].
  rewrite !orb_false_iff in G. destruct G as [[Gn%Z.eqb_neq _] Ho]. case_bool_decide; [done|]. destruct (Nat.ltb_spec (length file) (length d)) as [|L]; [done|].
  set (wanted := wrap_u 64 _). pose proof (tail_loop_spec (length file) file wanted (length file) [] 0 ltac:(lia) ltac:(lia)
    ltac:(by rewrite drop_all, take_nil) ltac:(unfold count; by rewrite Nat.sub_diag)) as T. cbn zeta in T.
  destruct T as [->|(p & O & -> & C)]; [done|]. pose proof (occurs_bound d Hd _ _ O) as B.
  pose proof (complete_at Ho file p O) as K. set (off := p + length d) in *. assert (off = p + length d) as Eoff by done.
  assert (all_records d file = records d (take off file) ++ all_records d (drop off file)) as E by (rewrite <- (all_records_complete d Hd) by done; by rewrite take_drop).
  rewrite E. symmetry. apply lastn_app. apply (f_equal length) in E. rewrite length_app, (length_records Ho), length_take in E.
  pose proof (length_all_records Ho file L) as A. assert (0 < length d) by (destruct d; [done|cbn; lia]).
  assert (count file 0 (length file) = count file 0 p + count file p (length file)) as Cp by (apply count_split; lia).
  assert (count (take off file) 0 (Nat.min off (length file)) = S (count file 0 p)) as Ct.
  { rewrite Nat.min_l by lia. rewrite (count_split _ 0 p) by lia. rewrite (count_ext (take off file) file 0 p 0) by (intros i Hi; rewrite (occurs_take d Hd); split; [tauto|split; [done|unfold off; lia]]).
    cbn [Nat.add]. rewrite (count_first (take off file) p p) by first [intros; lia|apply (occurs_take d Hd); split; [done|lia]]. rewrite (count_none (take off file) (S p)); [lia|].
    intros i Hi (Oi & Hi')%(occurs_take d Hd). unfold off in Hi'. lia. }
  assert (Z.of_nat (count file p (length file)) <> 0)%Z as C0.
  { rewrite (count_first file p p) by (done || lia). lia. }
  unfold wanted, wrap_u in C. destruct (decide (n + (if ends_with d file then 1 else 0) = 2 ^ 64)%Z) as [W|W].
  { rewrite W, Z.mod_same in C by lia. lia. }
  rewrite Z.mod_small in C by (destruct (ends_with d file); lia). destruct (ends_with d file); lia.
Qed.
End tail.

(** ** Reading the first records only *)

Section leading.
Context (d : cppstring) (Hd : d <> []).

(** The next occurrence behind a complete beginning ends one more record. *)
Lemma complete_next F b hit : complete d (take b F) -> b <= length F -> find F d b = Some hit ->
  complete d (take (hit + length d) F) /\ length (records d (take (hit + length d) F)) = S (length (records d (take b F))).
Proof.
  intros C Hb E. apply (find_Some_iff d Hd) in E as (L & O & N). pose proof (occurs_bound d Hd _ _ O) as B.
  set (t := take (hit + length d - b) (drop b F)). assert (take (hit + length d) F = take b F ++ t) as ->.
  { unfold t. rewrite <- (take_drop b F) at 1. rewrite take_app_ge, length_take by (rewrite length_take; lia). by rewrite Nat.min_l by lia. }
  assert (length t = hit + length d - b) as Lt by (unfold t; rewrite length_take, length_drop; lia). assert (0 < length d) by (destruct d; [done|cbn; lia]).
  assert (forall i, occurs d t i <-> occurs d F (b + i) /\ i + length d <= hit + length d - b) as Ot.
  { intros i. unfold t. by rewrite (occurs_take d Hd), (occurs_drop d). }
  assert (scan d t 0 = ([(0, hit - b)], length t)) as S.
  { rewrite (scan_eq d Hd), (proj2 (find_Some_iff d Hd t 0 (hit - b))).
    - rewrite (scan_eq d Hd), (proj2 (find_None_iff d Hd _ _)); [by rewrite Nat.sub_0_r; repeat f_equal; lia|].
      intros i Hi (Oi & Li)%Ot. lia.
    - split_and!; [lia|apply Ot; replace (b + (hit - b)) with hit by lia; split; [done|lia]|]. intros i Hi (Oi & _)%Ot. apply (N (b + i)); [lia|done]. }
  destruct (records_complete d Hd (take b F) t C) as [E1 E2]. unfold complete. rewrite E1, E2, !length_app. unfold consumed, records at 2. rewrite S.
  cbn [fst snd map length]. split; lia.
Qed.

(** [b] is the end of [k] records of [F], and nothing starts between [b] and [sf]. *)
Definition reached (F : cppstring) (b sf : nat) (k : Z) : Prop :=
  b <= sf /\ b <= length F /\ complete d (take b F) /\ Z.of_nat (length (records d (take b F))) = k /\ forall i, b <= i < sf -> ~ occurs d F i.

Lemma count_forward_spec fuel F out more b sf k n : F = out ++ more -> reached F b sf k -> length out - sf < fuel ->
  match count_forward fuel out d sf k n with
  | inl e => e <= length out /\ complete d (take e F) /\ Z.of_nat (length (records d (take e F))) = n
  | inr (sf', k') => exists b', reached F b' sf' k' /\ forall i, sf' <= i -> ~ occurs d out i
  end.
Proof.
  intros HF. revert b sf k. induction fuel as [|fuel IH]; intros b sf k HR Hf; [lia|]. cbn [count_forward]. destruct (find out d sf) as [hit|] eqn:E.
  2: { exists b. split; [done|]. by apply (find_None_iff d Hd). }
  apply (find_Some_iff d Hd) in E as (L & O & N). pose proof (occurs_bound d Hd _ _ O) as B. destruct HR as (R1 & R2 & R3 & R4 & R5).
  assert (0 < length d) by (destruct d; [done|cbn; lia]).
  assert (find F d b = Some hit) as EF.
  { apply (find_Some_iff d Hd). split_and!; [lia|rewrite HF; by apply (occurs_app d Hd)|]. intros i Hi Oi. destruct (decide (i < sf)) as [Ls|Gs]; [apply (R5 i); [lia|done]|].
    apply (N i); [lia|]. rewrite HF in Oi. apply (occurs_app_inv d) in Oi; [done|lia]. }
  destruct (complete_next F b hit R3 R2 EF) as [C1 C2].
  destruct (Z.eqb_spec (k + 1) n) as [<-|]; [split_and!; [lia|done|lia]|]. apply (IH (hit + length d)); [|lia].
  split_and!; [lia|rewrite HF, length_app; lia|done|lia|intros; lia].
Qed.

Lemma leading_loop_spec fuel F rest out b sf k n : F = out ++ rest -> length rest < fuel -> reached F b sf k ->
  let r := leading_loop fuel rest out d n sf k in
  r = F \/ exists e, r = take e F /\ complete d (take e F) /\ Z.of_nat (length (records d (take e F))) = n.
Proof.
  revert rest out b sf k. induction fuel as [|fuel IH]; intros rest out b sf k HF Hf HR; cbn zeta; [lia|]. cbn [leading_loop].
  destruct rest as [|c rest']; [left; by rewrite HF, app_nil_r|]. set (rest := c :: rest') in *. set (chunk := Z.to_nat record_scan_chunk_size).
  assert (0 < chunk) by (unfold chunk, record_scan_chunk_size; lia).
  assert (F = (out ++ take chunk rest) ++ drop chunk rest) as HF' by (rewrite <- app_assoc, take_drop; done). set (out' := out ++ take chunk rest) in *.
  pose proof (count_forward_spec (S (length out')) F out' (drop chunk rest) b sf k n HF' HR ltac:(lia)) as CF.
  destruct (count_forward (S (length out')) out' d sf k n) as [e|[sf' k']].
  - destruct CF as (S1 & S2 & S3). right. exists e. split_and!; [|done..]. rewrite HF'. by rewrite take_app_le.
  - destruct CF as (b' & (R1 & R2 & R3 & R4 & R5) & N). assert (0 < length d) by (destruct d; [done|cbn; lia]).
    eapply (IH (drop chunk rest) out' b'); [done|rewrite length_drop; unfold rest in *; cbn [length] in *; lia|].
    split_and!; [lia|done|done|done|]. intros i Hi Oi. destruct (decide (i < sf')) as [|G]; [apply (R5 i); [lia|done]|].
    apply (N i); [lia|]. rewrite HF' in Oi. apply (occurs_app_inv d) in Oi; [done|].
    destruct (Nat.leb_spec (length d) (length out')); lia.
Qed.

Lemma reached_start file : reached file 0 0 0.
Proof.
  assert (scan d [] 0 = ([], 0)) as S0.
  { rewrite (scan_eq d Hd), (proj2 (find_None_iff d Hd _ _)); [done|]. intros i _ O. apply (occurs_bound d Hd) in O. destruct d; [done|]. cbn in O. lia. }
  split_and!; [lia|lia| | |intros; lia]; rewrite take_0; unfold complete, consumed, records; by rewrite S0.
Qed.

(** The part that is read has the same first records as the whole. *)
Lemma read_leading_records_spec file n : (0 <= n)%Z ->
  take (Z.to_nat n) (all_records d (read_leading_records file d n)) = take (Z.to_nat n) (all_records d file).
Proof.
  intros Hn. unfold read_leading_records. rewrite bool_decide_eq_false_2 by done. cbn [orb]. destruct (Z.eqb_spec n 0) as [->|]; [done|].
  pose proof (leading_loop_spec (S (length file)) file file [] 0 0 0 n eq_refl ltac:(lia) (reached_start file)) as L. cbn zeta in L.
  destruct L as [->|(e & -> & C & K)]; [done|].
  assert (all_records d file = records d (take e file) ++ all_records d (drop e file)) as -> by (rewrite <- (all_records_complete d Hd) by done; by rewrite take_drop).
  unfold all_records at 1. rewrite C, Nat.ltb_irrefl, app_nil_r, take_ge, take_app_ge by lia. rewrite <- K, Nat2Z.id, Nat.sub_diag.
  by rewrite take_0, app_nil_r.
Qed.

Lemma read_leading_records_le file n : (0 <= n)%Z -> (zlength (read_leading_records file d n) <= zlength file)%Z.
Proof.
  intros Hn. unfold read_leading_records. rewrite bool_decide_eq_false_2 by done. cbn [orb]. destruct (Z.eqb_spec n 0); [done|].
  pose proof (leading_loop_spec (S (length file)) file file [] 0 0 0 n eq_refl ltac:(lia) (reached_start file)) as L. cbn zeta in L.
  destruct L as [->|(e & -> & _)]; [done|]. unfold zlength. rewrite length_take. lia.
Qed.
End leading.

(** ** Reading line by line *)

Section lines.
Context (d : cppstring) (Hd : d <> []).

Lemma records_find s :
  match find s d 0 with
  | Some j => records d s = take j s :: records d (drop (j + length d) s) /\ consumed d s = j + length d + consumed d (drop (j + length d) s)
  | None => records d s = [] /\ consumed d s = 0
  end.
Proof.
  unfold records, consumed. rewrite (scan_eq d Hd s). destruct (find s d 0) as [j|] eqn:E; [|done].
  apply (find_Some_iff d Hd) in E as (_ & O & _). apply (occurs_bound d Hd) in O. rewrite Nat.sub_0_r.
  assert (scan d s (j + length d) = shift (j + length d) (scan d (drop (j + length d) s) 0)) as -> by (rewrite <- (scan_drop d Hd); [by rewrite Nat.add_0_r|lia]).
  destruct (scan d (drop (j + length d) s) 0) as [rs e]. cbn [shift fst snd map]. split; [|done]. f_equal. rewrite map_map.
  apply map_ext. intros r. unfold range_text, substr. cbn. by rewrite drop_drop.
Qed.
Lemma all_records_find s :
  all_records d s = match find s d 0 with
                    | Some j => take j s :: all_records d (drop (j + length d) s)
                    | None => match s with [] => [] | _ => [s] end
                    end.
Proof.
  unfold all_records. pose proof (records_find s) as R. destruct (find s d 0) as [j|] eqn:E; destruct R as [-> ->].
  - apply (find_Some_iff d Hd) in E as (_ & O & _). apply (occurs_bound d Hd) in O. set (e := j + length d) in *. rewrite <- drop_drop, length_drop. cbn [app]. do 2 f_equal.
    destruct (Nat.ltb_spec (e + consumed d (drop e s)) (length s)), (Nat.ltb_spec (consumed d (drop e s)) (length s - e)); first [done|lia].
  - by destruct s.
Qed.

Definition strip_end (text : cppstring) : cppstring := if bool_decide (last d = Some c_newline) then strip_return text else text.

Lemma ends_with_occurs s : ends_with d s = bool_decide (length d <= length s /\ occurs d s (length s - length d)).
Proof.
  unfold ends_with. destruct (Nat.leb_spec (length d) (length s)) as [L|G]; cbn [andb].
  - apply bool_decide_ext. unfold occurs. rewrite is_prefix_iff. split.
    + intros E. split; [done|]. exists []. by rewrite app_nil_r, E.
    + intros [_ [b E]]. rewrite E. apply (f_equal length) in E. rewrite length_drop, length_app in E. destruct b; [by rewrite app_nil_r|cbn in E; lia].
  - by rewrite bool_decide_eq_false_2 by lia.
Qed.

Lemma getline_multi_spec s out any : (forall i, occurs d (out ++ s) i -> length out < i + length d) ->
  getline_multi d s out any =
    match find (out ++ s) d 0 with
    | Some j => Some (strip_end (take j (out ++ s)), drop (j + length d) (out ++ s))
    | None => if any || negb (bool_decide (s = [])) then Some (out ++ s, []) else None
    end.
Proof.
  revert out any. induction s as [|c s IH]; intros out any N; cbn [getline_multi].
  - rewrite app_nil_r in *. rewrite (proj2 (find_None_iff d Hd out 0)); [by rewrite bool_decide_eq_true_2, orb_false_r|].
    intros i _ O. pose proof (N i O). apply (occurs_bound d Hd) in O. lia.
  - rewrite ends_with_occurs. set (F := out ++ c :: s) in *. assert (F = (out ++ [c]) ++ s) as EF by (unfold F; by rewrite <- app_assoc).
    assert (0 < length d) by (destruct d; [done|cbn; lia]). assert (length (out ++ [c]) = S (length out)) as L by (rewrite length_app; cbn; lia).
    destruct (decide (length d <= length (out ++ [c]) /\ occurs d (out ++ [c]) (length (out ++ [c]) - length d))) as [E|E];
      [rewrite bool_decide_eq_true_2 by done|rewrite bool_decide_eq_false_2 by done].
    + destruct E as [E1 E2]. apply (occurs_app d Hd _ s) in E2. rewrite <- EF in E2. rewrite L in *. set (j := S (length out) - length d) in *.
      rewrite (proj2 (find_Some_iff d Hd F 0 j)) by (split_and!; [lia|done|intros i Hi O; apply N in O; lia]).
      assert (take j F = take j (out ++ [c])) as -> by (rewrite EF; apply take_app_le; lia). unfold strip_end. f_equal. f_equal.
      replace (j + length d) with (length (out ++ [c])) by lia. by rewrite EF, drop_app_length.
    + rewrite IH; rewrite <- EF.
      * rewrite (bool_decide_eq_false_2 (c :: s = [])) by done. cbn [negb orb]. by rewrite orb_true_r.
      * intros i O. pose proof (N i O). rewrite L. destruct (decide (i + length d = S (length out))) as [Ei|]; [|lia]. exfalso. apply E. rewrite L. split; [lia|].
        replace (S (length out) - length d) with i by lia. rewrite EF in O. apply (occurs_app_inv d) in O; [done|lia].
Qed.

Lemma getline_char_multi c s out any : getline_char c s out any = getline_multi [c] s out any.
Proof.
  revert out any. induction s as [|x s IH]; intros out any; cbn [getline_char getline_multi]; [done|].
  assert (ends_with [c] (out ++ [x]) = bool_decide (x = c)) as ->.
  { unfold ends_with. rewrite length_app. cbn [length]. rewrite (proj2 (Nat.leb_le _ _)) by lia. cbn [andb]. replace (length out + 1 - 1) with (length out) by lia.
    rewrite drop_app_length. apply bool_decide_ext. split; [by intros [=]|by intros ->]. }
  case_bool_decide; [|apply IH]. rewrite length_app. cbn [length]. replace (length out + 1 - 1) with (length out) by lia. rewrite take_app_length.
  do 2 f_equal. cbn [last]. rewrite (bool_decide_ext (Some c = Some c_newline) (c = c_newline)); [done|]. split; [by intros [=]|by intros ->].
Qed.

Lemma getline_str_spec s :
  getline_str s d = match find s d 0 with
                    | Some j => Some (strip_end (take j s), drop (j + length d) s)
                    | None => match s with [] => None | _ => Some (s, []) end
                    end.
Proof.
  assert (getline_str s d = getline_multi d s [] false) as ->.
  { unfold getline_str. destruct d as [|c [|c' d']]; [done|apply getline_char_multi|done]. }
  rewrite getline_multi_spec; [|intros i; cbn; destruct d; [done|cbn; lia]]. cbn [app]. destruct (find s d 0); [done|]. by destruct s.
Qed.

(** The lines of a stream are its records, the last one kept although no delimiter ends it. *)
Lemma lines_of_spec fuel s : length s < fuel ->
  lines_of fuel s d = map strip_end (records d s) ++ if Nat.ltb (consumed d s) (length s) then [drop (consumed d s) s] else [].
Proof.
  revert s. induction fuel as [|fuel IH]; intros s Hf; [lia|]. cbn [lines_of]. rewrite getline_str_spec. pose proof (records_find s) as R.
  destruct (find s d 0) as [j|] eqn:E; destruct R as [-> ->].
  - apply (find_Some_iff d Hd) in E as (_ & O & _). apply (occurs_bound d Hd) in O. assert (0 < length d) by (destruct d; [done|cbn; lia]).
    rewrite IH by (rewrite length_drop; lia). set (e := j + length d) in *. rewrite <- drop_drop, length_drop. cbn [map app]. do 2 f_equal.
    destruct (Nat.ltb_spec (e + consumed d (drop e s)) (length s)), (Nat.ltb_spec (consumed d (drop e s)) (length s - e)); first [done|lia].
  - destruct s; [done|]. cbn [map app]. destruct fuel; [cbn in Hf; lia|]. cbn [lines_of]. rewrite getline_str_spec.
    rewrite (proj2 (find_None_iff d Hd [] 0)); [done|]. intros i _ O. apply (occurs_bound d Hd) in O. destruct d; [done|cbn in O; lia].
Qed.
End lines.
