(* ===== verification/LogFileLaws.v ===== *)
(** What the checks of log files guarantee (LogFile): a line is reported once however the
    file grows and however the limits cut the reading, a file that was replaced is read anew, a
    limit on the lines is only a shorter way to the same lines, and the store of positions
    forgets the least recently used one. *)

From stdpp Require Import base list gmap sets strings.
From Stdlib Require Import Ascii ZArith Lia.
From Stdlib Require String.
From S2P Require Import Prelude Strings Format AccessPolicy Ordering Eviction LogFile LogRecords.
Import String.StringSyntax.

Local Open Scope Z_scope.

(** ** The text of a position *)

Lemma bar_chunks_next fuel pre a b : "|"%char ∉ a ->
  bar_chunks (S fuel) (pre ++ a ++ "|"%char :: b) (length pre) = a :: bar_chunks fuel (pre ++ a ++ "|"%char :: b) (length (pre ++ a ++ ["|"%char])).
Proof.
  intros N. cbn [bar_chunks]. change (str "|") with ["|"%char]. rewrite find_char_next by done. f_equal.
  - unfold substr. rewrite drop_app_length. replace (length pre + length a - length pre)%nat with (length a) by lia. apply take_app_length.
  - f_equal. rewrite !length_app. cbn [length]. lia.
Qed.
Lemma bar_chunks_last fuel pre a : "|"%char ∉ a -> bar_chunks (S fuel) (pre ++ a) (length pre) = [a].
Proof.
  intros N. cbn [bar_chunks]. change (str "|") with ["|"%char]. pose proof (find_char a "|"%char pre) as F. destruct (find (pre ++ a) ["|"%char] (length pre)).
  - destruct F as (x & y & -> & _). set_solver.
  - by rewrite drop_app_length.
Qed.

Fixpoint bars (x : cppstring) (xs : list cppstring) : cppstring := match xs with [] => x | y :: ys => x ++ "|"%char :: bars y ys end.
Lemma bar_chunks_bars x xs fuel pre : Forall (fun y => "|"%char ∉ y) (x :: xs) -> (length xs < fuel)%nat -> bar_chunks fuel (pre ++ bars x xs) (length pre) = x :: xs.
Proof.
  revert x fuel pre. induction xs as [|y ys IH]; intros x [|fuel] pre H Hf; try (cbn in Hf; lia); apply Forall_cons in H as [Hx H]; cbn [bars].
  - by apply bar_chunks_last.
  - rewrite bar_chunks_next by done. f_equal.
    replace (pre ++ x ++ "|"%char :: bars y ys) with ((pre ++ x ++ ["|"%char]) ++ bars y ys) by (by rewrite <- !app_assoc).
    apply IH; [done|cbn in Hf; lia].
Qed.

Definition position_ok (p : position) : Prop := valid p = true /\ in_u 64 (offset p) /\ in_u 64 (fingerprint_len p) /\ in_u 64 (fingerprint p).

Lemma stoull_show z : in_u 64 z -> is_number (show z) = true /\ stoull (show z) = Some z.
Proof.
  intros [Hz Hz']. destruct (show_digits z Hz) as (Hn & Hd & Hv). unfold is_number, stoull. rewrite bool_decide_eq_false_2, Hd, Hv by done.
  split; [done|]. by rewrite (proj2 (Z.ltb_lt _ _)).
Qed.

Lemma parse_format_position p : position_ok p -> parse_position (format_position p) = p.
Proof.
  destruct p as [v o l f]. intros (Hv & Ho & Hl & Hf). cbn in *. subst v. unfold format_position, parse_position. cbn [negb valid offset fingerprint_len fingerprint].
  assert (forall z, in_u 64 z -> "|"%char ∉ show z) as N by (intros z [Hz _]; by apply show_not_in).
  change (str "1|" ++ show o ++ str "|" ++ show l ++ str "|" ++ show f) with (bars (str "1") [show o; show l; show f]). set (data := bars _ _).
  assert (bar_chunks (S (length data)) data 0 = [str "1"; show o; show l; show f]) as E.
  { apply (bar_chunks_bars (str "1") [show o; show l; show f] _ []); [repeat apply Forall_cons_2; auto; by vm_decide|]. unfold data. cbn [bars]. rewrite !length_app. cbn [length]. rewrite !length_app. cbn [length].
    rewrite !length_app. cbn [length]. lia. }
  destruct data as [|c data'] eqn:Ed; [done|]. rewrite E. rewrite bool_decide_eq_true_2 by done. cbn [negb].
  destruct (stoull_show o Ho) as [-> ->], (stoull_show l Hl) as [-> ->], (stoull_show f Hf) as [-> ->]. done.
Qed.

(** ** One bookmarked file *)

Lemma take_length_prefix {A} n (l : list A) : take n l ++ drop (length (take n l)) l = l.
Proof.
  rewrite length_take. destruct (decide (n <= length l)%nat); [rewrite Nat.min_l by lia; apply take_drop|].
  rewrite Nat.min_r, take_ge, drop_all by lia. apply app_nil_r.
Qed.

Lemma fnv1a_range s : in_u 64 (fnv1a s).
Proof.
  unfold fnv1a. assert (in_u 64 14695981039346656037) as H by (split; lia). revert H. generalize 14695981039346656037.
  induction s as [|c s IH]; intros h Hh; [done|]. cbn [fold_left]. apply IH. by apply wrap_u_range.
Qed.

(** [p] is where the reading of [file] stopped once the records [rep] were reported. *)
Definition tracks (d file : cppstring) (p : position) (rep : list cppstring) : Prop :=
  exists o l : nat, p = mkPosition true (Z.of_nat o) (Z.of_nat l) (fnv1a (take l file)) /\
    (o <= length file)%nat /\ (l <= length file)%nat /\ Z.of_nat l <= max_fingerprint_len /\
    complete d (take o file) /\ rep = records d (take o file).

Lemma tracks_grow d file t p rep : tracks d file p rep -> tracks d (file ++ t) p rep.
Proof.
  intros (o & l & -> & Ho & Hl & Hm & C & ->). exists o, l. rewrite length_app, !take_app_le by lia. split_and!; (done || lia).
Qed.

(** What a check may have to go on: a position, or nothing yet *)
Definition known (d file : cppstring) (p : position) (rep : list cppstring) : Prop :=
  (p = no_position /\ rep = []) \/ tracks d file p rep.
Lemma known_grow d file t p rep : known d file p rep -> known d (file ++ t) p rep.
Proof. intros [?|?]; [by left|right; by apply tracks_grow]. Qed.

Section bookmarked.
Context (o : options) (name : cppstring).
Hypothesis split_nonempty : line_split o <> [].
Hypothesis no_limit : max_lines o = 0.
Hypothesis bytes_pos : 0 < max_bytes o.
Abbreviation d := (line_split o).
Abbreviation obj := (record_obj name (column_split o) (strip_cr o)).

Lemma complete_nil : complete d [].
Proof. pose proof (consumed_le d split_nonempty []). unfold complete. cbn in *. lia. Qed.
Lemma records_nil : records d [] = [].
Proof.
  pose proof (records_find d split_nonempty []) as R. destruct (find [] d 0) eqn:E; [|tauto].
  apply (find_Some_iff d split_nonempty) in E as (_ & O & _). apply (occurs_bound d split_nonempty) in O. destruct d; [done|cbn in O; lia].
Qed.
Lemma records_nonempty c i : occurs d c i -> records d c <> [].
Proof.
  intros O. pose proof (records_find d split_nonempty c) as R. destruct (find c d 0) eqn:E; [by destruct R as [-> _]|].
  rewrite (find_None_iff d split_nonempty) in E. by destruct (E i); [lia|].
Qed.

(** Reading [c] behind a complete beginning *)
Lemma records_extend file (from : nat) c rest : complete d (take from file) -> (from <= length file)%nat -> drop from file = c ++ rest ->
  let n := (from + consumed d c)%nat in
  (n <= length file)%nat /\ complete d (take n file) /\ records d (take n file) = records d (take from file) ++ records d c.
Proof.
  intros C Hf E n. pose proof (consumed_le d split_nonempty c) as B. pose proof (f_equal length E) as L. rewrite length_drop, length_app in L.
  assert (take n file = take from file ++ take (consumed d c) c) as ->.
  { rewrite <- (take_drop from file) at 1. rewrite E, take_app_ge by (rewrite length_take; lia). rewrite length_take. f_equal.
    rewrite take_app_le by lia. f_equal. lia. }
  destruct (records_take d split_nonempty c (consumed d c) ltac:(lia)) as [T1 T2]. destruct (records_complete d split_nonempty (take from file) (take (consumed d c) c) C) as [R1 R2].
  split_and!; [lia| |by rewrite R2, T2]. unfold complete. rewrite R1, T1, length_app, (length_take c). lia.
Qed.

(** The start of the reading, and the records reported before it *)
Lemma resume_known file p rep : known d file p rep -> file <> [] ->
  exists from : nat, (from <= length file)%nat /\ complete d (take from file) /\ rep = records d (take from file) /\ offset p = Z.of_nat from /\
    let head := read_head file (Z.min (Z.max (zlength file) (fingerprint_len p)) max_fingerprint_len) in
    let ok := fingerprint_len p <=? zlength head in
    let decision := compute_resume p (zlength file) (if ok then fnv1a (take (Z.to_nat (fingerprint_len p)) head) else 0) ok in
    resume_at decision = Z.of_nat from /\ skip decision = Nat.eqb from (length file) /\ head = take (Z.to_nat max_fingerprint_len) file.
Proof.
  intros K Hne. assert (0 < length file)%nat as Hlen by (destruct file; [done|cbn; lia]).
  destruct K as [[-> ->]|(f & l & -> & Hf & Hl & Hm & C & ->)].
  - exists 0%nat. pose proof records_nil. rewrite take_0. split_and!; [lia|apply complete_nil|done|done|]. cbn [fingerprint_len no_position]. unfold compute_resume, read_head.
    rewrite (proj2 (Z.eqb_neq (zlength file) 0)) by (unfold zlength; lia). cbn [negb valid no_position resume_at skip]. split_and!; [done|destruct file; done|].
    unfold zlength. rewrite Z.max_l by lia. destruct (Z.min_spec (Z.of_nat (length file)) max_fingerprint_len) as [[L ->]|[L ->]]; [|done].
    rewrite !take_ge by lia. done.
  - exists f. split_and!; [done..|]. cbn [fingerprint_len offset]. set (head := read_head _ _).
    assert (head = take (Z.to_nat max_fingerprint_len) file) as Eh.
    { unfold head, read_head, zlength. rewrite Z.max_l by lia. destruct (Z.min_spec (Z.of_nat (length file)) max_fingerprint_len) as [[L ->]|[L ->]]; [|done]. by rewrite !take_ge by lia. }
    assert (Z.of_nat l <= zlength head) as Hlh by (rewrite Eh; unfold zlength; rewrite length_take; lia).
    rewrite (proj2 (Z.leb_le _ _)) by done. rewrite Nat2Z.id. assert (take l head = take l file) as -> by (rewrite Eh, take_take; f_equal; lia).
    unfold compute_resume. cbn [valid offset fingerprint_len fingerprint]. unfold zlength in *. rewrite (proj2 (Z.eqb_neq _ 0)) by lia. cbn [negb orb].
    rewrite Z.eqb_refl. cbn [negb]. rewrite andb_false_r, orb_false_r. rewrite (proj2 (Z.ltb_ge _ _)) by lia.
    destruct (Z.eqb_spec (Z.of_nat (length file)) (Z.of_nat f)) as [E|E]; cbn [resume_at skip]; (split_and!; [done| |done]);
      [by rewrite (proj2 (Nat.eqb_eq _ _)) by lia|by rewrite (proj2 (Nat.eqb_neq _ _)) by lia].
Qed.

Lemma complete_record_end_prefix c : complete_record_end c d = 0%nat \/ exists i, occurs d c i /\ complete_record_end c d = (i + length d)%nat.
Proof.
  pose proof (rfind_spec d split_nonempty c (length c)) as R. unfold complete_record_end.
  destruct (rfind c d (length c)) as [i|].
  - right. exists i. destruct R as (_ & ? & _). split; [done|]. by destruct d.
  - left. destruct d; done.
Qed.

(** Reading on: the new records follow the reported ones, and the position follows them. *)
Lemma bookmarked_step file p rep : known d file p rep -> Z.of_nat (length file) < 2 ^ 64 ->
  match read_bookmarked o p name file with
  | Ok (objs, p') => exists new, objs = map obj new /\ tracks d file p' (rep ++ new) /\
      (zlength file - offset p <= max_bytes o -> rep ++ new = records d file) /\ (max_bytes o < zlength file - offset p -> new <> [])
  | Throw _ => max_bytes o < zlength file - offset p
  end.
Proof.
  intros K Hsz. destruct (decide (file = [])) as [->|Hne].
  { assert (offset p = 0 /\ rep = [] /\ records d [] = []) as (Eo & Er & R).
    { pose proof records_nil. destruct K as [[-> ->]|(f & l & -> & Hf & _ & _ & _ & ->)]; [done|]. cbn in Hf. assert (f = 0%nat) as -> by lia. by rewrite take_0. }
    unfold read_bookmarked, compute_resume. cbn [zlength length Z.of_nat Z.eqb skip resume_at rbind fst snd]. exists [].
    rewrite Er, R. split_and!; [done| |done|intros Hb; rewrite Eo in Hb; unfold zlength in Hb; cbn [length] in Hb; lia]. exists 0%nat, 0%nat. unfold read_head. rewrite take_nil. split_and!; (done || (cbn; lia) || apply complete_nil || (cbn; by rewrite R)). }
  destruct (resume_known file p rep K Hne) as (from & Hf & C & -> & Eo & Er). cbn zeta in Er.
  unfold read_bookmarked. set (head := read_head _ _) in *. set (decision := compute_resume _ _ _ _) in *. destruct Er as (-> & -> & Eh).
  assert (forall (n : nat), (from <= n <= length file)%nat -> complete d (take n file) ->
    tracks d file (mkPosition true (wrap_u 64 (Z.of_nat n)) (zlength head) (fnv1a head)) (records d (take n file))) as Tr.
  { intros n Hn Cn. exists n, (length head). rewrite wrap_u_id by (split; lia). assert (take (length head) file = head) as -> by (rewrite Eh, length_take; destruct (decide (Z.to_nat max_fingerprint_len <= length file)%nat);
      [by rewrite Nat.min_l|rewrite Nat.min_r, !take_ge by lia; done]).
    assert (Z.of_nat (length head) <= max_fingerprint_len /\ (length head <= length file)%nat) as [? ?] by (rewrite Eh, length_take; unfold max_fingerprint_len; lia). split_and!; (done || lia). }
  rewrite Eo. destruct (Nat.eqb_spec from (length file)) as [Ef|Nf].
  { cbn [rbind fst snd]. exists []. rewrite Z.add_0_r, app_nil_r. split_and!; [done|by apply Tr; [lia|]| |unfold zlength; intros; lia].
    intros _. rewrite take_ge by lia. done. }
  rewrite Nat2Z.id, read_capped_spec by lia. set (rest := drop from file). set (c := take (Z.to_nat (max_bytes o)) rest).
  assert (zlength rest = zlength file - Z.of_nat from) as Lr by (unfold rest, zlength; rewrite length_drop; lia). rewrite Lr.
  destruct (decide (max_bytes o < zlength file - Z.of_nat from)) as [Tc|Tc]; [rewrite bool_decide_eq_true_2 by done|rewrite bool_decide_eq_false_2 by done]; cbn [andb].
  - destruct (complete_record_end_prefix c) as [Ek|(i & Oi & Ek)]; rewrite Ek.
    { done. }
    pose proof (occurs_bound d split_nonempty _ _ Oi). assert (0 < length d)%nat by (destruct d; [done|cbn; lia]). rewrite (proj2 (Nat.eqb_neq _ _)) by lia. cbn [negb rbind].
    rewrite match_records_spec, no_limit by (done || lia). cbn [limit Z.eqb rbind fst snd]. set (c' := take _ c).
    assert (rest = c' ++ drop (length c') rest) as Er by (symmetry; unfold c', c; rewrite take_take; apply take_length_prefix).
    destruct (records_extend file from c' _ C Hf Er) as (N1 & N2 & N3).
    exists (records d c'). rewrite <- N3, <- Nat2Z.inj_add. split_and!; [done|apply Tr; [lia|done]|lia|].
    intros _. apply (records_nonempty c' i). apply (occurs_take d split_nonempty). split; [done|lia].
  - cbn [negb rbind]. assert (c = rest) as -> by (unfold c; rewrite take_ge; [done|unfold zlength in *; lia]).
    rewrite match_records_spec, no_limit by (done || lia). cbn [limit Z.eqb rbind fst snd].
    destruct (records_extend file from rest [] C Hf ltac:(by rewrite app_nil_r)) as (N1 & N2 & N3).
    exists (records d rest). rewrite <- N3, <- Nat2Z.inj_add. split_and!; [done|apply Tr; [lia|done]| |lia]. intros _. rewrite N3.
    destruct (records_complete d split_nonempty (take from file) rest C) as [_ R]. unfold rest in *. rewrite take_drop in R. by rewrite R.
Qed.
End bookmarked.

(** The head that is hashed does not depend on the stored position. *)
Lemma read_head_known file l : 0 <= l -> read_head file (Z.min (Z.max (zlength file) l) max_fingerprint_len) = take (Z.to_nat max_fingerprint_len) file.
Proof.
  intros Hl. unfold read_head, zlength. destruct (decide (Z.of_nat (length file) < max_fingerprint_len)) as [L|G].
  - rewrite !take_ge by lia. done.
  - f_equal. lia.
Qed.

(** A file that has shrunk below the stored offset, or whose beginning no longer has the stored
    fingerprint, is read as if it had never been seen. *)
Theorem replaced_file_is_read_anew (o : options) (p : position) (name file : cppstring) (Hp : position_ok p) (Hne : file <> [])
  (Hrep : zlength file < offset p \/ 0 < fingerprint_len p /\ fnv1a (take (Z.to_nat (fingerprint_len p)) file) <> fingerprint p) :
  read_bookmarked o p name file = read_bookmarked o no_position name file.
Proof.
  destruct Hp as (Hv & Ho & [Hl _] & _). unfold read_bookmarked. rewrite !read_head_known by (cbn; lia). set (head := take _ file).
  assert (zlength file <> 0) as Hz by (destruct file; [done|unfold zlength; cbn; lia]).
  enough (compute_resume p (zlength file) (if fingerprint_len p <=? zlength head then fnv1a (take (Z.to_nat (fingerprint_len p)) head) else 0) (fingerprint_len p <=? zlength head) = mkResume false 0 true) as ->.
  { unfold compute_resume. rewrite (proj2 (Z.eqb_neq _ _)) by done. done. }
  unfold compute_resume. rewrite (proj2 (Z.eqb_neq _ _)) by done. rewrite Hv. cbn [negb].
  destruct (Z.ltb_spec (zlength file) (offset p)); [done|]. cbn [orb]. destruct Hrep as [|[Hfl Hfp]]; [lia|]. rewrite (proj2 (Z.gtb_lt _ _)) by lia. cbn [andb].
  destruct (Z.leb_spec (fingerprint_len p) (zlength head)) as [L|]; [|done]. cbn [negb orb].
  assert (take (Z.to_nat (fingerprint_len p)) head = take (Z.to_nat (fingerprint_len p)) file) as ->.
  { unfold head in *. rewrite take_take. f_equal. unfold zlength in L. rewrite length_take in L. lia. }
  by rewrite (proj2 (Z.eqb_neq _ _)).
Qed.

(** ** Without a bookmark *)

(** With max-lines only the end or the beginning of the file is read, in blocks, yet the lines
    that are matched are exactly the newest ones of the whole file, for every separator; a check
    without bookmark fails only for a file larger than max-size. *)
Theorem line_limit_only_shortens_the_reading (o : options) (name file : cppstring) (Hd : line_split o <> []) (Hn : 0 <= max_lines o < 2 ^ 64) (Hb : 0 <= max_bytes o) :
  let newest := limit (max_lines o) (newest_first o) (all_records (line_split o) file) in
  match read_plain o name file with
  | Ok objs => objs = map (record_obj name (column_split o) (strip_cr o)) newest
  | Throw _ => max_bytes o < zlength file
  end.
Proof.
  cbn zeta. unfold read_plain. destruct ((max_lines o >? 0) && newest_first o) eqn:E.
  - apply andb_prop in E as [Hpos%Z.gtb_lt Hf]. rewrite Hf. set (c := read_leading_records _ _ _). destruct (Z.leb_spec (zlength c) (max_bytes o)) as [L|G]; cbn [rbind].
    + rewrite match_records_spec by (done || lia). cbn [snd]. f_equal. unfold limit. rewrite (proj2 (Z.eqb_neq _ _)) by lia.
      apply read_leading_records_spec; [done|lia].
    + eapply Z.lt_le_trans; [done|]. apply read_leading_records_le; [done|lia].
  - set (from := if max_lines o >? 0 then _ else _). rewrite read_capped_spec by done. case_bool_decide as T; cbn [negb rbind].
    + unfold zlength in *. rewrite length_drop in T. lia.
    + rewrite take_ge by (unfold zlength in T; lia). rewrite match_records_spec by (done || lia). cbn [snd]. f_equal.
      unfold from. destruct (Z.gtb_spec (max_lines o) 0) as [P|Z0]; [|by rewrite drop_0].
      cbn [andb] in E. rewrite E. unfold limit. rewrite (proj2 (Z.eqb_neq _ _)) by lia. by apply find_tail_offset_spec.
Qed.

(** ** The store of positions *)

Record store_ok (s : store) : Prop := {
  ok_max : 1 <= max_entries_ s;
  ok_size : Z.of_nat (size (entries_ s)) <= max_entries_ s;
  ok_clock : 0 <= clock_ s;
  ok_used k e : entries_ s !! k = Some e -> used e <= clock_ s;
  ok_inj k k' e e' : entries_ s !! k = Some e -> entries_ s !! k' = Some e' -> used e = used e' -> k = k' }.

Lemma new_store_ok n : 0 <= n -> store_ok (new_store n).
Proof. intros. unfold new_store. destruct (Z.eqb_spec n 0); split; cbn; intros; (done || lia || rewrite ?map_size_empty; lia). Qed.

(** Using a key gives it the latest stamp. *)
Definition use (key value : cppstring) (s : store) : store :=
  mkStore (max_entries_ s) (clock_ s + 1) (<[key := mkStored value (clock_ s + 1)]> (entries_ s)).

Lemma put_use key value s : store_ok s -> clock_ s + 1 < 2 ^ 64 -> put key value s = trim (use key value s).
Proof. intros H Hc. pose proof (ok_clock s H). unfold put, use. by rewrite wrap_u_id by (split; lia). Qed.
Lemma get_use key s : store_ok s -> clock_ s + 1 < 2 ^ 64 ->
  get key s = match entries_ s !! key with Some e => (stored_value e, use key (stored_value e) s) | None => ([], s) end.
Proof. intros H Hc. pose proof (ok_clock s H). unfold get, use. destruct (entries_ s !! key); [|done]. by rewrite wrap_u_id by (split; lia). Qed.

Lemma use_stamps key value s k e : entries_ (use key value s) !! k = Some e ->
  (k = key /\ e = mkStored value (clock_ s + 1)) \/ (k <> key /\ entries_ s !! k = Some e).
Proof. cbn. intros [[<- <-]|[? ?]]%lookup_insert_Some; auto. Qed.

Lemma trim_ok s : 1 <= max_entries_ s -> 0 <= clock_ s -> (forall k e, entries_ s !! k = Some e -> used e <= clock_ s) ->
  (forall k k' e e', entries_ s !! k = Some e -> entries_ s !! k' = Some e' -> used e = used e' -> k = k') -> store_ok (trim s).
Proof.
  intros H1 H2 H3 H4. pose proof (evict_subset used (size (entries_ s)) (max_entries_ s) (entries_ s)) as Sub.
  split; cbn; [done|apply evict_size; lia|done| |].
  - intros k e Hk. apply (H3 k). by eapply lookup_weaken.
  - intros k k' e e' Hk Hk'. apply H4; by eapply lookup_weaken.
Qed.
Lemma use_inj key value s : store_ok s ->
  (forall k e, entries_ (use key value s) !! k = Some e -> used e <= clock_ s + 1) /\
  (forall k k' e e', entries_ (use key value s) !! k = Some e -> entries_ (use key value s) !! k' = Some e' -> used e = used e' -> k = k').
Proof.
  intros H. split.
  - intros k e [[-> ->]|[_ Hk]]%use_stamps; [cbn; lia|]. pose proof (ok_used s H k e Hk). lia.
  - intros k k' e e' [[-> ->]|[_ Hk]]%use_stamps [[-> ->]|[_ Hk']]%use_stamps; cbn; [done|..].
    + intros E. pose proof (ok_used s H k' e' Hk'). lia.
    + intros E. pose proof (ok_used s H k e Hk). lia.
    + by apply (ok_inj s H).
Qed.
Lemma put_ok key value s : store_ok s -> clock_ s + 1 < 2 ^ 64 -> store_ok (put key value s).
Proof.
  intros H Hc. rewrite put_use by done. destruct (use_inj key value s H) as [U1 U2]. pose proof (ok_max s H). pose proof (ok_clock s H). apply trim_ok; cbn; (done || lia).
Qed.
Lemma get_ok key s : store_ok s -> clock_ s + 1 < 2 ^ 64 -> store_ok (get key s).2.
Proof.
  intros H Hc. rewrite get_use by done. destruct (entries_ s !! key) as [e|] eqn:E; [|done]. destruct (use_inj key (stored_value e) s H) as [U1 U2].
  pose proof (ok_max s H). pose proof (ok_clock s H). pose proof (ok_size s H). split; cbn [snd]; cbn; [done| |lia|done|done].
  rewrite map_size_insert_Some by (by exists e). lia.
Qed.

(** [k] is stored with [v], and whatever was used after it is one of [T]. *)
Definition recent (k v : cppstring) (T : gset cppstring) (s : store) : Prop :=
  exists e, entries_ s !! k = Some e /\ stored_value e = v /\ forall k' e', entries_ s !! k' = Some e' -> used e < used e' -> k' ∈ T.

Lemma use_recent k v key value T s : store_ok s -> k <> key -> recent k v T s -> recent k v ({[key]} ∪ T) (use key value s).
Proof.
  intros H Ne (e & He & Hv & HT). exists e. split_and!; [cbn; by rewrite lookup_insert_ne|done|].
  intros k' e' [[-> ->]|[_ Hk']]%use_stamps L; [set_solver|]. apply elem_of_union_r. by eapply HT.
Qed.

Lemma trim_recent k v T s : 1 <= max_entries_ s -> Z.of_nat (size (entries_ s)) <= max_entries_ s + 1 ->
  (forall k k' e e', entries_ s !! k = Some e -> entries_ s !! k' = Some e' -> used e = used e' -> k = k') ->
  Z.of_nat (size T) < max_entries_ s -> recent k v T s -> recent k v T (trim s).
Proof.
  intros Hm Hs Hinj HT (e & He & Hv & Hnew). pose proof (evict_subset used (size (entries_ s)) (max_entries_ s) (entries_ s)) as Sub.
  assert (entries_ (trim s) !! k = Some e) as Hk.
  { cbn. destruct (evict_loop used (size (entries_ s)) (max_entries_ s) (entries_ s) !! k) as [e'|] eqn:E.
    - eapply lookup_weaken in Sub; [|done]. unfold trim_loop. congruence.
    - exfalso. destruct (evict_one used _ _ _ _ Hs He E) as [Hsz Hmin]. assert (dom (delete k (entries_ s)) ⊆ T) as Hd.
      { intros k' (e' & Hk')%elem_of_dom. apply lookup_delete_Some in Hk' as [Ne Hk']. apply (Hnew k' e' Hk'). pose proof (Hmin k' e' Hk').
        destruct (decide (used e = used e')) as [Eq|]; [|lia]. by destruct Ne; apply (Hinj k k' e e'). }
      apply subseteq_size in Hd. rewrite size_dom, map_size_delete_Some in Hd by (by exists e). lia. }
  exists e. split_and!; [done..|]. intros k' e' Hk'. apply Hnew. eapply lookup_weaken; [exact Hk'|exact Sub].
Qed.

Inductive store_op := op_put (key value : cppstring) | op_get (key : cppstring).
Definition op_key (x : store_op) : cppstring := match x with op_put k _ | op_get k => k end.
Definition run_op (s : store) (x : store_op) : store := match x with op_put k v => put k v s | op_get k => (get k s).2 end.

Lemma put_clock key value s : store_ok s -> clock_ s + 1 < 2 ^ 64 -> clock_ (put key value s) = clock_ s + 1 /\ max_entries_ (put key value s) = max_entries_ s.
Proof. intros. by rewrite put_use. Qed.
Lemma get_clock key s : store_ok s -> clock_ s + 1 < 2 ^ 64 -> clock_ s <= clock_ (get key s).2 <= clock_ s + 1 /\ max_entries_ (get key s).2 = max_entries_ s.
Proof. intros. rewrite get_use by done. destruct (entries_ s !! key); cbn; lia. Qed.

Lemma use_size key value s : Z.of_nat (size (entries_ (use key value s))) <= Z.of_nat (size (entries_ s)) + 1.
Proof. cbn. rewrite map_size_insert. destruct (entries_ s !! key); unfold id; lia. Qed.

Lemma put_recent k v s : store_ok s -> clock_ s + 1 < 2 ^ 64 -> recent k v ∅ (put k v s).
Proof.
  intros H Hc. rewrite put_use by done. pose proof (ok_max s H). pose proof (ok_size s H). pose proof (use_size k v s). destruct (use_inj k v s H) as [U1 U2].
  apply trim_recent; [done|cbn in *; lia|done|rewrite size_empty; cbn; lia|]. exists (mkStored v (clock_ s + 1)). split_and!; [apply lookup_insert_eq|done|].
  intros k' e' Hk' L. apply U1 in Hk'. cbn in L. lia.
Qed.

Lemma run_op_recent k v T s x : store_ok s -> clock_ s + 1 < 2 ^ 64 -> k <> op_key x -> op_key x ∈ T -> Z.of_nat (size T) < max_entries_ s ->
  recent k v T s -> recent k v T (run_op s x).
Proof.
  intros H Hc Ne HT Hs Hr. pose proof (ok_max s H). pose proof (ok_size s H). assert ({[op_key x]} ∪ T = T) as ET by set_solver.
  destruct x as [key value|key]; cbn [run_op op_key] in *.
  - rewrite put_use by done. pose proof (use_size key value s). apply trim_recent; [done|cbn in *; lia|by apply use_inj|done|]. rewrite <- ET. by apply use_recent.
  - rewrite get_use by done. destruct (entries_ s !! key); [|done]. cbn [snd]. rewrite <- ET. by apply use_recent.
Qed.

(** The store of positions never exceeds its limit, and a position that was just stored is still
    there as long as fewer other bookmarks than the limit have been used since. *)
Theorem store_keeps_recent_positions (s : store) (k v : cppstring) (ops : list store_op) (T : gset cppstring) (Hs : store_ok s)
  (Hk : k ∉ T) (Hops : Forall (fun x => op_key x ∈ T) ops) (HT : Z.of_nat (size T) < max_entries_ s) (Hc : clock_ s + 2 + zlength ops < 2 ^ 64) :
  let s' := fold_left run_op ops (put k v s) in
  store_ok s' /\ Z.of_nat (size (entries_ s')) <= max_entries_ s /\ (get k s').1 = v.
Proof.
  cbn zeta. pose proof (ok_clock s Hs) as C0. unfold zlength in Hc. assert (clock_ s + 1 < 2 ^ 64) as Hc1 by lia.
  assert (recent k v T (put k v s)) as Hr by (destruct (put_recent k v s Hs Hc1) as (e & ? & ? & N); exists e; split_and!; [done..|]; intros k' e' Hk' L; specialize (N k' e' Hk' L); set_solver).
  pose proof (put_ok k v s Hs Hc1) as Ho. destruct (put_clock k v s Hs Hc1) as [Ec Em]. set (s1 := put k v s) in *. rewrite <- Em in HT |- *.
  assert (clock_ s1 + 1 + Z.of_nat (length ops) < 2 ^ 64) as Hc2 by lia. clearbody s1. clear Hc Hc1 Ec Em C0. revert s1 Ho Hr HT Hc2.
  induction Hops as [|x ops Hx Hops IH]; intros s1 Ho Hr HT Hc2; cbn [fold_left].
  - pose proof (ok_clock s1 Ho). destruct Hr as (e & He & Hv & _). split_and!; [done|by apply ok_size|]. rewrite get_use by (done || lia). by rewrite He.
  - cbn [length] in Hc2. assert (clock_ s1 + 1 < 2 ^ 64) as Hb by lia.
    assert (clock_ (run_op s1 x) <= clock_ s1 + 1 /\ max_entries_ (run_op s1 x) = max_entries_ s1 /\ store_ok (run_op s1 x)) as (E1 & E2 & E3).
    { destruct x as [key value|key]; cbn [run_op]; [destruct (put_clock key value s1 Ho Hb)|destruct (get_clock key s1 Ho Hb)]; split_and!; try lia; [by apply put_ok|by apply get_ok]. }
    rewrite <- E2. apply IH; [done| |lia|lia]. apply run_op_recent; try done. set_solver.
Qed.

(** ** Checks of a growing file *)

Definition outcome_records (x : outcome) : list filter_obj := match x with Matched l => l | _ => [] end.
Definition reported (xs : list outcome) : list filter_obj := concat (map outcome_records xs).

(** Every version of the file continues the one before. *)
Fixpoint grows (file : cppstring) (files : list cppstring) : Prop :=
  match files with [] => True | f :: fs => file `prefix_of` f /\ grows f fs end.

Section growing.
Context `{lexical_int}.

Lemma options_of_Ok a o : options_of a = Ok o -> 0 < max_bytes o /\ max_lines o = arg_max_lines a.
Proof.
  unfold options_of. intros (mb & Hb & E)%rbind_Ok_inv.
  destruct (bool_decide (arg_newest a = str "first") || bool_decide (arg_newest a = str "last")); [|done].
  destruct (negb _); [|done]. injection E as <-. cbn. split; [|done]. revert Hb. unfold max_bytes_of. destruct (decode_byte_text (arg_max_size a)) as [z|]; [|done].
  destruct (Z.ltb_spec z 0); [done|]. destruct (Z.eqb_spec z 0); intros [= <-]; lia.
Qed.

Context (a : arguments) (name : cppstring) (gate : cppstring -> decision) (o : options).
Hypothesis one_file : arg_files a = [name] /\ arg_files_string a = [].
Hypothesis allowed : gate name = accept name.
Hypothesis splits : arg_column_split a <> [] /\ arg_line_split a <> [] /\ line_split o <> [].
Hypothesis with_bookmark : bookmark_of a <> [].
Hypothesis no_line_limit : arg_max_lines a = 0.
Hypothesis valid_options : options_of a = Ok o.

(** One check of the file, both locks of the bookmark store taken in time: a check that waits for
    one longer than five seconds goes on without it, and reads again or loses a position. *)
Definition check (file : cppstring) (s : store) : outcome * store :=
  check_logfile (mkEnv {[name := file]} gate true (fun _ => true) (fun _ => true)) a s.
Fixpoint checks (files : list cppstring) (s : store) : list outcome * store :=
  match files with
  | [] => ([], s)
  | f :: fs => let '(x, s) := check f s in let '(xs, s) := checks fs s in (x :: xs, s)
  end.
Abbreviation key := (bookmark_key a name).
Abbreviation d := (line_split o).
Abbreviation obj := (record_obj name (column_split o) (strip_cr o)).

Lemma check_eq file s :
  check file s = let '(v, s) := get key s in
                 match read_bookmarked o (parse_position v) name file with
                 | Throw e => (Bad e, s)
                 | Ok (objs, p) => (Matched objs, put key (format_position p) s)
                 end.
Proof.
  destruct one_file as [E1 E2], splits as (S1 & S2 & _). unfold check, check_logfile. rewrite E1, E2. cbn [app extra_files pieces map List.filter].
  rewrite !bool_decide_eq_false_2 by done. cbn [resolve_files file_access]. rewrite allowed. cbn [rbind]. rewrite valid_options. cbn [rbind build_filter negb].
  cbn [read_files files]. rewrite lookup_singleton_eq. rewrite bool_decide_eq_false_2 by done. cbn [bookmarks_get lock_get].
  destruct (get key s) as [v s1]. destruct (read_bookmarked o (parse_position v) name file) as [[objs p]|e]; done.
Qed.

(** The position the store holds for the bookmark *)
Definition position_of (s : store) : position := match entries_ s !! key with Some e => parse_position (stored_value e) | None => no_position end.

Lemma tracks_ok file p rep : tracks d file p rep -> Z.of_nat (length file) < 2 ^ 64 -> position_ok p.
Proof.
  intros (n & l & -> & Hn & Hl & Hm & _) Hf. unfold max_fingerprint_len in Hm. repeat split; cbn; try lia; apply fnv1a_range.
Qed.

Lemma check_step file s rep : store_ok s -> clock_ s + 2 < 2 ^ 64 -> Z.of_nat (length file) < 2 ^ 64 -> known d file (position_of s) rep ->
  let '(x, s') := check file s in
  store_ok s' /\ clock_ s' <= clock_ s + 2 /\ exists new, outcome_records x = map obj new /\ known d file (position_of s') (rep ++ new) /\
    rep ++ new `prefix_of` records d file /\ (zlength file <= max_bytes o -> rep ++ new = records d file).
Proof.
  intros Hs Hc Hf HK. destruct (options_of_Ok a o valid_options) as [Hb Hl]. rewrite no_line_limit in Hl. destruct splits as (_ & _ & Hd).
  assert (forall p r, known d file p r -> r `prefix_of` records d file) as Hpre.
  { intros p r [[_ ->]|(n & l & _ & _ & _ & _ & _ & ->)]; [apply prefix_nil|]. rewrite <- (take_drop n file) at 2.
    destruct (records_app d Hd (take n file) (drop n file)) as [_ ->]. by apply prefix_app_r. }
  assert (0 <= offset (position_of s)) as Hoff by (destruct HK as [[-> _]|(? & ? & -> & _)]; cbn; lia).
  rewrite check_eq, get_use by (done || lia). unfold position_of in HK, Hoff.
  assert (forall s1 v, v = match entries_ s !! key with Some e => stored_value e | None => [] end -> store_ok s1 -> clock_ s1 <= clock_ s + 1 ->
    position_of s1 = parse_position v ->
    let '(x, s') := match read_bookmarked o (parse_position v) name file with Throw e => (Bad e, s1) | Ok (objs, p) => (Matched objs, put key (format_position p) s1) end in
    store_ok s' /\ clock_ s' <= clock_ s + 2 /\ exists new, outcome_records x = map obj new /\ known d file (position_of s') (rep ++ new) /\
      rep ++ new `prefix_of` records d file /\ (zlength file <= max_bytes o -> rep ++ new = records d file)) as Main.
  { intros s1 v Ev Hs1 Hc1 Hp1. assert (known d file (parse_position v) rep /\ 0 <= offset (parse_position v)) as [HK' Ho'] by (subst v; destruct (entries_ s !! key); done).
    pose proof (bookmarked_step o name Hd Hl Hb file (parse_position v) rep HK' Hf) as B.
    destruct (read_bookmarked o (parse_position v) name file) as [[objs p]|e].
    - destruct B as (new & -> & T & Hall & _). assert (clock_ s1 + 1 < 2 ^ 64) as Hc2 by lia. destruct (put_clock key (format_position p) s1 Hs1 Hc2) as [Ec _].
      destruct (put_recent key (format_position p) s1 Hs1 Hc2) as (e & He & Hv & _).
      split_and!; [by apply put_ok|lia|]. exists new. assert (known d file (position_of (put key (format_position p) s1)) (rep ++ new)) as HK2.
      { right. unfold position_of. rewrite He, Hv, parse_format_position; [done|]. by eapply tracks_ok. }
      split_and!; [done|done|by eapply Hpre|intros; apply Hall; lia].
    - split_and!; [done|lia|]. exists []. rewrite app_nil_r, Hp1. split_and!; [done|done|by eapply Hpre|intros; lia]. }
  destruct (entries_ s !! key) as [e|] eqn:E.
  - apply Main; [done| |cbn; lia|unfold position_of; cbn; by rewrite lookup_insert_eq].
    pose proof (get_ok key s Hs ltac:(lia)) as G. rewrite get_use, E in G by (done || lia). done.
  - apply Main; [done|done|lia|]. unfold position_of. by rewrite E.
Qed.

Lemma checks_spec files : forall file s rep, store_ok s -> clock_ s + 2 * zlength files < 2 ^ 64 -> Forall (fun f => Z.of_nat (length f) < 2 ^ 64) files ->
  known d file (position_of s) rep -> grows file files ->
  let '(xs, s') := checks files s in
  exists new, reported xs = map obj new /\ match last files with
    | None => new = []
    | Some final => rep ++ new `prefix_of` records d final /\ (zlength final <= max_bytes o -> rep ++ new = records d final)
    end.
Proof.
  induction files as [|f fs IH]; intros file s rep Hs Hc Hf HK HG; cbn [checks]; [by exists []|]. apply Forall_cons in Hf as [Hf Hfs]. destruct HG as [[t ->] HG].
  unfold zlength in Hc. cbn [length] in Hc. apply (known_grow _ _ t) in HK. pose proof (check_step (file ++ t) s rep Hs ltac:(lia) Hf HK) as C.
  destruct (check (file ++ t) s) as [x s1]. destruct C as (Hs1 & Hc1 & new & Ex & HK1 & Hp1 & Ha1).
  specialize (IH (file ++ t) s1 (rep ++ new) Hs1 ltac:(unfold zlength; lia) Hfs HK1 HG). destruct (checks fs s1) as [xs s2]. destruct IH as (new2 & E2 & R2).
  exists (new ++ new2). unfold reported in *. cbn [map concat]. rewrite Ex, E2, map_app. split; [done|]. rewrite last_cons. destruct (last fs); [by rewrite app_assoc|].
  subst new2. by rewrite app_nil_r.
Qed.
End growing.

(** C16. However a log file grows between checks with a bookmark and without a max-lines limit,
    and whatever part of it a check may read at once, the checks together report the complete
    lines of the file in order, each exactly once and none in halves; if the last version fits
    the size limit, all of them. Positions travel through their stored text. Each check is taken
    to get the lock of the bookmarks both times, within the five seconds it waits, the file to
    be let through by the access policy under its own name, and the bookmark to be new. *)
Theorem bookmarked_lines_are_reported_once `{lexical_int} (a : arguments) (name : cppstring) (gate : cppstring -> decision) (o : options) (s : store)
  (files : list cppstring) (final : cppstring)
  (Hone : arg_files a = [name] /\ arg_files_string a = []) (Hgate : gate name = accept name)
  (Hsplit : arg_column_split a <> [] /\ arg_line_split a <> [] /\ line_split o <> []) (Hbm : bookmark_of a <> [])
  (Hall : arg_max_lines a = 0) (Hopt : options_of a = Ok o)
  (Hs : store_ok s) (Hfresh : entries_ s !! bookmark_key a name = None) (Hc : clock_ s + 2 * zlength files < 2 ^ 64)
  (Hg : grows [] files) (Hsz : Forall (fun f => Z.of_nat (length f) < 2 ^ 64) files) (Hlast : last files = Some final) :
  exists new, reported (checks a name gate files s).1 = map (record_obj name (column_split o) (strip_cr o)) new /\
    new `prefix_of` records (line_split o) final /\ (zlength final <= max_bytes o -> new = records (line_split o) final).
Proof.
  pose proof (checks_spec a name gate o Hone Hgate Hsplit Hbm Hall Hopt files [] s [] Hs Hc Hsz) as C. rewrite Hlast in C.
  destruct (checks a name gate files s) as [xs s']. apply C; [|done]. left. unfold position_of. by rewrite Hfresh.
Qed.

(** ** Real-time monitoring *)

(** The real-time monitor reads exactly what was appended since it last looked, line by line,
    and remembers the new size. *)
Theorem realtime_reports_what_was_appended (fs : watched) (rt : runtime_data) (c : file_container) (text added : cppstring) (time : Z)
  (Hfile : fs !! fc_file c = Some (text ++ added, time)) (Hsize : fc_size c = zlength text) (Hadd : added <> [])
  (Hmode : read_from_start rt = false /\ check_time rt = false) :
  let d := match rt_line_split rt with [] => [c_newline] | l => l end in
  let obj l := mkObj (fc_file c) l (default [] (split_lst l (rt_column_split rt))) in
  process_file fs rt c = (mkContainer (fc_file c) (zlength (text ++ added)) time,
    Ok (map obj (List.filter (fun l => negb (bool_decide (l = [])))
      (map (strip_end d) (records d added) ++ if Nat.ltb (consumed d added) (length added) then [drop (consumed d added) added] else [])))).
Proof.
  cbn zeta. set (d := match rt_line_split rt with [] => [c_newline] | l => l end). assert (d <> []) as Hd by (unfold d; by destruct (rt_line_split rt)).
  destruct Hmode as [Hm1 Hm2]. assert (zlength (text ++ added) = zlength text + zlength added /\ 0 <= zlength text /\ 0 < zlength added) as (El & Ht & Ha).
  { unfold zlength. rewrite length_app. destruct added; [done|]. cbn [length]. lia. }
  unfold process_file, file_changed. rewrite Hfile, Hm2, Hsize, El. rewrite (proj2 (Z.eqb_neq _ 0)) by lia. rewrite (proj2 (Z.eqb_neq _ (zlength text))) by lia. cbn [negb].
  unfold compute_seek. rewrite Hm1. rewrite (proj2 (Z.eqb_neq _ 0)), (proj2 (Z.ltb_ge _ _)), (proj2 (Z.eqb_neq _ _)) by lia.
  fold d. assert (drop (Z.to_nat (zlength text)) (text ++ added) = added) as -> by (unfold zlength; rewrite Nat2Z.id; apply drop_app_length).
  by rewrite lines_of_spec by (done || lia).
Qed.

(** ** Examples *)

Module Demo.
#[local] Existing Instance plain_lexical_int.

Definition nl : cppstring := [c_newline].
Definition log : cppstring := str "a.log".
Definition args : arguments := mkArgs (str "\n") (str "\t") [log] [] (Some []) 0 (str "last") (str "12") [] [] [].
Definition opts : options := mkOptions nl [c_tab] 0 false 12 (str "12").
(** A line is written in two steps, then more than one check can read is added. *)
Definition version1 : cppstring := str "one" ++ nl ++ str "tw".
Definition version2 : cppstring := version1 ++ str "o" ++ nl.
Definition version3 : cppstring := version2 ++ str "three" ++ nl ++ str "four" ++ nl.

Lemma bookmarked_lines_witness :
  exists new, reported (checks args log accept [version1; version2; version3; version3] (new_store 1000)).1 = map (record_obj log [c_tab] true) new /\
    new `prefix_of` records nl version3 /\ (zlength version3 <= 12 -> new = records nl version3).
Proof.
  apply (bookmarked_lines_are_reported_once args log accept opts (new_store 1000) [version1; version2; version3; version3] version3);
    [done|done|done|vm_decide|done|vm_compute; reflexivity|by apply new_store_ok|done|vm_compute; done| |vm_decide|done].
  cbn. split_and!; [apply prefix_nil|by eexists|by eexists|by exists []|done].
Defined.
(** The limit of twelve bytes only delays the last line. *)
Example bookmarked_lines : map line (reported (checks args log accept [version1; version2; version3; version3] (new_store 1000)).1) =
  [str "one"; str "two"; str "three"; str "four"].
Proof. vm_compute. reflexivity. Qed.

Lemma replaced_file_witness :
  let p := mkPosition true 8 8 (fnv1a version2) in
  read_bookmarked opts p log (str "new" ++ nl) = read_bookmarked opts no_position log (str "new" ++ nl).
Proof. apply (replaced_file_is_read_anew opts (mkPosition true 8 8 (fnv1a version2)) log (str "new" ++ nl)); [repeat split; vm_compute; done|done|]. left. by vm_compute. Defined.

Lemma line_limit_witness :
  read_plain (mkOptions nl [c_tab] 2 false 100 (str "100")) log version3 = Ok (map (record_obj log [c_tab] true) [str "three"; str "four"]).
Proof.
  pose proof (line_limit_only_shortens_the_reading (mkOptions nl [c_tab] 2 false 100 (str "100")) log version3 ltac:(done) ltac:(cbn; lia) ltac:(cbn; lia)) as L.
  cbn zeta in L. destruct (read_plain _ _ _) as [objs|e]; [|exfalso; revert L; by vm_compute]. rewrite L. by vm_compute.
Defined.

Lemma positions_witness :
  (get (str "k") (fold_left run_op [op_put (str "x") (str "1"); op_get (str "x"); op_put (str "x") (str "2")] (put (str "k") (str "v") (new_store 2)))).1 = str "v".
Proof.
  apply (store_keeps_recent_positions (new_store 2) (str "k") (str "v") [op_put (str "x") (str "1"); op_get (str "x"); op_put (str "x") (str "2")] {[str "x"]}).
  - by apply new_store_ok.
  - vm_decide.
  - vm_decide.
  - by vm_compute.
  - by vm_compute.
Defined.

Definition rt : runtime_data := mkRuntime [mkContainer log 0 0] [c_tab] nl false false.
Lemma realtime_witness :
  process_file {[log := (str "old" ++ nl ++ str "new" ++ nl, 5)]} rt (mkContainer log 4 1) = (mkContainer log 8 5, Ok [mkObj log (str "new") [str "new"]]).
Proof.
  rewrite (realtime_reports_what_was_appended {[log := (str "old" ++ nl ++ str "new" ++ nl, 5)]} rt (mkContainer log 4 1) (str "old" ++ nl) (str "new" ++ nl) 5 ltac:(done) ltac:(done) ltac:(done) ltac:(done)).
  by vm_compute.
Defined.

(** The monitor does not hold back a line that is not finished: it reports both halves. *)
Example half_written_line_is_split :
  let r1 := process_item {[log := (version1, 1)]} rt in
  let r2 := process_item {[log := (version2, 2)]} r1.1 in
  (match r1.2 with Ok l => map line l | _ => [] end, match r2.2 with Ok l => map line l | _ => [] end) = ([str "one"; str "tw"], [str "o"]).
Proof. vm_compute. reflexivity. Qed.
End Demo.
