(* ===== verification/Scheduler.v ===== *)
(** The task scheduler: include/scheduler/simple_scheduler.hpp and .cpp, with the schedules of
    modules/Scheduler/schedules_handler.cpp on top.

    Each operation is a function on the state its mutexes guard; the worker threads, the
    watchdog and the module threads interleave in the step relation at the end, one step for
    each critical section.  Times are ticks of a millisecond on the scheduler's clock.  The
    random number of the jitter, the answer of the handler, the time an operation reads and
    whether a lock is taken within its five seconds are labels of the steps.  Which of several
    instances of the same time a priority queue yields is left open. *)

From stdpp Require Import base list gmap strings.
From Stdlib Require Import Ascii ZArith QArith Lia Lqa.
From Stdlib Require String.
From S2P Require Import Prelude Strings Samples Cron.
Import String.StringSyntax.

Local Open Scope Z_scope.

(** The scheduler's clock as the calendar time that a cron expression is matched with. *)
Class clock := { to_ptime : Z -> ptime; of_ptime : ptime -> Z }.

Section Scheduler.
Context `{real} `{calendar} `{clock}.

(** ** Tasks *)

Record task := mkTask {
  id : Z; tag : cppstring; duration : Z; schedule_ : option schedule; has_duration : bool; jitter_factor_ : R
}.
Definition has_schedule (t : task) : bool := bool_decide (is_Some (schedule_ t)).
Definition is_disabled (t : task) : bool := negb (has_duration t) && negb (has_schedule t).

(** [dist]: the random number between 0 and 1.  A default-constructed schedule has no value
    that matches. *)
Definition get_next (dist : R) (now_time : Z) (t : task) : result cron_error Z :=
  if has_duration t && (0 <? duration t) then
    let total_delay := of_Z (duration t) in
    let val := rmul (rmul total_delay (jitter_factor_ t)) dist in
    let time_to_wait := radd (rmul total_delay (rsub (of_Z 1) (jitter_factor_ t))) val in
    let time_to_wait := if rlt time_to_wait (of_Z 1) then of_Z 1 else time_to_wait in
    Ok (now_time + 1000 * trunc time_to_wait)
  else if has_duration t then Ok now_time
  else match schedule_ t with
       | Some s => match schedule_find_next s (to_ptime now_time) with Ok t => Ok (of_ptime t) | Throw e => Throw e end
       | None => Throw FailedToFindMatch
       end.

Record schedule_instance := mkInstance { time : Z; i_tag : cppstring; schedule_id : Z; suppress_late_warning : bool }.

Record scheduler := mkScheduler {
  schedule_id_ : Z;
  stop_requested_ : bool;
  running_ : bool;
  has_watchdog_ : bool;
  thread_count_ : Z;
  tasks_ : gmap Z task;
  queue_ : list schedule_instance;
  metric_executed : Z; metric_compleated : Z; metric_errors : Z; metric_time : Z; metric_count : Z
}.
Definition new_scheduler : scheduler := mkScheduler 0 false false false 10 ∅ [] 0 0 0 0 0.

Definition with_tasks tid tasks queue (s : scheduler) : scheduler :=
  mkScheduler tid (stop_requested_ s) (running_ s) (has_watchdog_ s) (thread_count_ s) tasks queue
    (metric_executed s) (metric_compleated s) (metric_errors s) (metric_time s) (metric_count s).
Definition with_queue queue (s : scheduler) : scheduler := with_tasks (schedule_id_ s) (tasks_ s) queue s.
Definition with_flags stop running watchdog threads (s : scheduler) : scheduler :=
  mkScheduler (schedule_id_ s) stop running watchdog threads (tasks_ s) (queue_ s)
    (metric_executed s) (metric_compleated s) (metric_errors s) (metric_time s) (metric_count s).
Definition with_metrics executed compleated errors t n (s : scheduler) : scheduler :=
  mkScheduler (schedule_id_ s) (stop_requested_ s) (running_ s) (has_watchdog_ s) (thread_count_ s) (tasks_ s) (queue_ s) executed compleated errors t n.
Definition count_executed (s : scheduler) : scheduler :=
  with_metrics (wrap_u 32 (metric_executed s + 1)) (metric_compleated s) (metric_errors s) (metric_time s) (metric_count s) s.
Definition count_compleated (s : scheduler) : scheduler :=
  with_metrics (metric_executed s) (wrap_u 32 (metric_compleated s + 1)) (metric_errors s) (metric_time s) (metric_count s) s.
Definition count_error (s : scheduler) : scheduler :=
  with_metrics (metric_executed s) (metric_compleated s) (wrap_u 32 (metric_errors s + 1)) (metric_time s) (metric_count s) s.
Definition count_time (ms : Z) (s : scheduler) : scheduler :=
  with_metrics (metric_executed s) (metric_compleated s) (metric_errors s) (wrap_u 32 (metric_time s + wrap_u 32 ms)) (wrap_u 32 (metric_count s + 1)) s.

Definition get_avg_time (s : scheduler) : Z * scheduler :=
  if metric_count s =? 0 then (0, s) else
  (metric_time s / metric_count s,
   if 4000000000 <? metric_time s then with_metrics (metric_executed s) (metric_compleated s) (metric_errors s) 0 0 s else s).

(** ** Queue *)

(** [push]; [ok]: the lock was taken in time. *)
Definition push (ok : bool) (i : schedule_instance) (s : scheduler) : scheduler := if ok then with_queue (i :: queue_ s) s else s.
Definition reschedule_at (ok : bool) (t : cppstring) (tid : Z) (new_time : Z) (suppress : bool) (s : scheduler) : scheduler :=
  push ok (mkInstance new_time t tid suppress) s.
Definition reschedule (dist : R) (ok : bool) (item : task) (now_time : Z) (s : scheduler) : result cron_error scheduler :=
  if is_disabled item then Ok s else
  match get_next dist now_time item with
  | Throw e => Throw e
  | Ok t => Ok (reschedule_at ok (tag item) (id item) t false s)
  end.

(** ** Tasks of the scheduler *)

(** The first part of [add_task], under the lock: [++schedule_id_] is unsigned, an id is an [int]. *)
Definition add_task_register (item : task) (s : scheduler) : task * scheduler :=
  let n := wrap_u 32 (schedule_id_ s + 1) in
  let item := mkTask (wrap_s 32 n) (tag item) (duration item) (schedule_ item) (has_duration item) (jitter_factor_ item) in
  (item, with_tasks n (<[id item := item]> (tasks_ s)) (queue_ s) s).
Definition get_task (tid : Z) (s : scheduler) : option task := tasks_ s !! tid.
Definition remove_task (tid : Z) (s : scheduler) : scheduler := with_tasks (schedule_id_ s) (delete tid (tasks_ s)) (queue_ s) s.
Definition run_now (ok : bool) (tid : Z) (now delay : Z) (s : scheduler) : scheduler :=
  match get_task tid s with
  | None => s
  | Some item => reschedule_at ok (tag item) tid (now + delay) true s
  end.
Definition clear_tasks_list (s : scheduler) : scheduler := with_tasks (schedule_id_ s) ∅ (queue_ s) s.
Definition clear_queue (ok : bool) (s : scheduler) : scheduler := if ok then with_queue [] s else s.

(** ** A task that is run *)

(** What the handler did. *)
Inductive handled := NoHandler | Returned (to_reschedule : bool) | Threw.
Inductive worker :=
| Looping
| Waiting (i : schedule_instance)
| Executing (i : schedule_instance) (item : task) (now_time : Z)
| Dead.

(** The [catch (...)] around a task: a second exception leaves the loop and ends the thread. *)
Definition catch_task (dist : R) (ok : bool) (item : task) (now_time : Z) (s : scheduler) : worker * scheduler :=
  let s := count_error s in
  match reschedule dist ok item now_time s with Ok s => (Looping, s) | Throw _ => (Dead, count_error s) end.
(** From the call of the handler on; the first random number and lock are of the [try], the
    second of the [catch]. *)
Definition finish_task (h : handled) (ms : Z) (dist dist' : R) (ok ok' : bool) (item : task) (now_time : Z) (s : scheduler) : worker * scheduler :=
  match h with
  | Threw => catch_task dist' ok' item now_time s
  | Returned true =>
      let s := count_time ms s in
      match reschedule dist ok item now_time s with
      | Ok s => (Looping, count_compleated s)
      | Throw _ => catch_task dist' ok' item now_time s
      end
  | Returned false | NoHandler => (Looping, count_error (count_time ms s))
  end.

(** ** The pool *)

Record system := mkSystem {
  sched : scheduler;
  workers : list worker;
  (** live watchdogs, each with its [maximum_threads_reached] *)
  watchdogs : list bool;
  (** [add_task] between its two parts *)
  adding : list task;
  (** [stop] holds [pool_mutex_] while it joins *)
  joining : bool
}.
Definition new_system : system := mkSystem new_scheduler [] [] [] false.
Definition is_live (w : worker) : bool := match w with Dead => false | _ => true end.
(** [threads_.count()]: every live thread of the group. *)
Definition count (y : system) : Z := zlength (List.filter is_live (workers y)) + zlength (watchdogs y).

Definition spawn_missing_locked (y : system) : system :=
  let s := sched y in
  if negb (running_ s) || stop_requested_ s then y else
  let missing_threads := if count y <? thread_count_ s then thread_count_ s - count y else 0 in
  let workers' := if (0 <? missing_threads) && (missing_threads <=? thread_count_ s) then workers y ++ replicate (Z.to_nat missing_threads) Looping else workers y in
  if has_watchdog_ s then mkSystem s workers' (watchdogs y) (adding y) (joining y)
  else mkSystem (with_flags (stop_requested_ s) (running_ s) true (thread_count_ s) s) workers' (false :: watchdogs y) (adding y) (joining y).
Definition start_threads (y : system) : system := spawn_missing_locked y.
Definition scale_up (y : system) : system := if joining y then y else spawn_missing_locked y.
Definition with_sched (s : scheduler) (y : system) : system := mkSystem s (workers y) (watchdogs y) (adding y) (joining y).
(** The two parts of [start], each under the mutex of the pool, and those of [set_threads],
    whose first is an atomic write without it. *)
Definition open_pool (y : system) : system :=
  with_sched (with_flags false true (has_watchdog_ (sched y)) (thread_count_ (sched y)) (sched y)) y.
Definition start (y : system) : system := start_threads (open_pool y).
Definition write_threads (threads : Z) (y : system) : system :=
  with_sched (with_flags (stop_requested_ (sched y)) (running_ (sched y)) (has_watchdog_ (sched y)) threads (sched y)) y.
Definition set_threads (threads : Z) (y : system) : system := start_threads (write_threads threads y).
Definition request_stop (s : scheduler) : scheduler := with_flags true false false (thread_count_ s) s.
(** The end of [stop]: the joined threads are forgotten, with a timeout those that still run
    go on by themselves. *)
Definition stop_joined (y : system) : system :=
  let s := sched y in
  mkSystem (with_flags (stop_requested_ s) (running_ s) (has_watchdog_ s) 0 s) (List.filter is_live (workers y)) (watchdogs y) (adding y) false.

(** [queue_.top()] is more than five seconds late: then some instance is. *)
Definition is_late (now : Z) (s : scheduler) : bool := existsb (fun i => 5 <? Z.quot (now - time i) 1000) (queue_ s).
(** One round of the watchdog. *)
Definition watch_dog_round (late : bool) (maximum_threads_reached : bool) (y : system) : bool * system :=
  let s := sched y in
  if negb late then (maximum_threads_reached, y)
  else if thread_count_ s <? 10 then
    (maximum_threads_reached,
     scale_up (with_sched (with_flags (stop_requested_ s) (running_ s) (has_watchdog_ s) (thread_count_ s + 1) s) y))
  else (true, y).

(** ** Schedules of the module *)

Record schedule_object := mkTarget { alias : cppstring; t_duration : option Z; t_schedule : option cppstring; randomness : R; run_on_startup : bool }.
(** [schedules::scheduler::add_task] up to the call: the task and whether its first run is
    queued; [parse] is [cron_parser::parse], [tenth] the literal 0.1. *)
Definition target_task (parse : cppstring -> result cron_error schedule) (tenth : R) (target : schedule_object) : result cron_error (task * bool) :=
  let schedule_first_run := negb (run_on_startup target) in
  match t_duration target, t_schedule target with
  | Some d, _ => Ok (mkTask 0 (alias target) d None true (randomness target), schedule_first_run)
  | None, Some text =>
      match parse text with
      | Ok s => Ok (mkTask 0 (alias target) 0 (Some s) false (of_Z 0), schedule_first_run)
      | Throw e => Throw e
      end
  | None, None => Ok (mkTask 0 (alias target) 300 None true tenth, schedule_first_run)
  end.

(** The loop of [run_startup_tasks], each id with the time that [run_now] reads. *)
Fixpoint run_startup_loop (ok : bool) (step offset : Z) (ids : list (Z * Z)) (s : scheduler) : scheduler :=
  match ids with
  | [] => s
  | (tid, now) :: ids' => run_startup_loop ok step (offset + step) ids' (run_now ok tid now offset s)
  end.
Definition run_startup_tasks (ok : bool) (window : Z) (ids : list (Z * Z)) (s : scheduler) : scheduler :=
  if bool_decide (ids = []) then s else run_startup_loop ok (Z.quot window (zlength ids)) 0 ids s.

(** ** Interleaving *)

Inductive label :=
| LRegister (item : task) (schedule_first_run : bool)
| LQueueFirst (dist : R) (ok : bool) (now : Z)
| LRunNow (ok : bool) (tid now delay : Z)
| LRemove (tid : Z)
| LClearTasks
| LClearQueue (ok : bool)
| LStart
| LWriteThreads (n : Z)
| LStartThreads
| LPrepareShutdown
| LStop
| LJoined
| LAbandoned
| LPop
| LQuit
| LPutBack (ok : bool)
| LWaitFailed (ok : bool)
| LRun (now : Z)
| LFinish (h : handled) (ms : Z) (dist dist' : R) (ok ok' : bool)
| LWatch (now : Z) (locked : bool)
| LWatchQuit.

(** The instances that are on their way: queued, held by a worker or about to be queued. *)
Definition held (w : worker) : list Z :=
  match w with Waiting i | Executing i _ _ => [schedule_id i] | Looping | Dead => [] end.
Definition chains (y : system) : list Z := map schedule_id (queue_ (sched y)) ++ concat (map held (workers y)) ++ map id (adding y).

Definition with_worker (s : scheduler) (w1 : list worker) (w : worker) (w2 : list worker) (y : system) : system :=
  mkSystem s (w1 ++ w :: w2) (watchdogs y) (adding y) (joining y).

Inductive step (y : system) : label -> system -> Prop :=
| st_register item first :
    let r := add_task_register item (sched y) in
    step y (LRegister item first) (mkSystem r.2 (workers y) (watchdogs y) (if first then r.1 :: adding y else adding y) (joining y))
| st_queue_first a1 item a2 dist ok now :
    adding y = a1 ++ item :: a2 ->
    step y (LQueueFirst dist ok now)
      (mkSystem (match reschedule dist ok item now (sched y) with Ok s => s | Throw _ => sched y end) (workers y) (watchdogs y) (a1 ++ a2) (joining y))
(** the documented use: not for a task that already has an instance *)
| st_run_now ok tid now delay :
    tid ∉ chains y -> step y (LRunNow ok tid now delay) (with_sched (run_now ok tid now delay (sched y)) y)
| st_remove tid : step y (LRemove tid) (with_sched (remove_task tid (sched y)) y)
| st_clear_tasks : step y LClearTasks (with_sched (clear_tasks_list (sched y)) y)
| st_clear_queue ok : step y (LClearQueue ok) (with_sched (clear_queue ok (sched y)) y)
| st_start : joining y = false -> step y LStart (open_pool y)
(** while [stop] joins as well *)
| st_write_threads n : step y (LWriteThreads n) (write_threads n y)
| st_start_threads : joining y = false -> step y LStartThreads (start_threads y)
| st_prepare : joining y = false -> step y LPrepareShutdown (with_sched (request_stop (sched y)) y)
| st_stop : joining y = false ->
    step y LStop (mkSystem (request_stop (sched y)) (workers y) (watchdogs y) (adding y) true)
| st_joined : joining y = true -> Forall (fun w => w = Dead) (workers y) -> watchdogs y = [] -> step y LJoined (stop_joined y)
| st_abandoned : joining y = true -> step y LAbandoned (stop_joined y)
| st_pop w1 w2 i rest :
    workers y = w1 ++ Looping :: w2 -> stop_requested_ (sched y) = false -> queue_ (sched y) ≡ₚ i :: rest ->
    Forall (fun j => time i <= time j) rest ->
    step y LPop (with_worker (with_queue rest (sched y)) w1 (Waiting i) w2 y)
| st_quit w1 w2 :
    workers y = w1 ++ Looping :: w2 -> stop_requested_ (sched y) = true -> step y LQuit (with_worker (sched y) w1 Dead w2 y)
| st_put_back w1 w2 i ok :
    workers y = w1 ++ Waiting i :: w2 -> stop_requested_ (sched y) = true ->
    step y (LPutBack ok) (with_worker (push ok i (sched y)) w1 Dead w2 y)
(** the catch-all around the wait *)
| st_wait_failed w1 w2 i ok :
    workers y = w1 ++ Waiting i :: w2 ->
    step y (LWaitFailed ok) (with_worker (if ok then push ok i (sched y) else count_error (sched y)) w1 Looping w2 y)
| st_run w1 w2 i now :
    workers y = w1 ++ Waiting i :: w2 -> stop_requested_ (sched y) = false -> time i <= now ->
    step y (LRun now)
      (match get_task (schedule_id i) (sched y) with
       | Some item => with_worker (count_executed (sched y)) w1 (Executing i item now) w2 y
       | None => with_worker (count_error (count_executed (sched y))) w1 Looping w2 y
       end)
| st_finish w1 w2 i item now h ms dist dist' ok ok' :
    workers y = w1 ++ Executing i item now :: w2 ->
    let r := finish_task h ms dist dist' ok ok' item now (sched y) in
    step y (LFinish h ms dist dist' ok ok') (with_worker r.2 w1 r.1 w2 y)
| st_watch d1 b d2 now locked :
    watchdogs y = d1 ++ b :: d2 -> stop_requested_ (sched y) = false ->
    let r := watch_dog_round (locked && is_late now (sched y)) b y in
    let started := take (length (watchdogs r.2) - length (watchdogs y)) (watchdogs r.2) in
    step y (LWatch now locked) (mkSystem (sched r.2) (workers r.2) (started ++ d1 ++ r.1 :: d2) (adding r.2) (joining r.2))
| st_watch_quit d1 b d2 :
    watchdogs y = d1 ++ b :: d2 -> stop_requested_ (sched y) = true ->
    step y LWatchQuit (mkSystem (sched y) (workers y) (d1 ++ d2) (adding y) (joining y)).

Inductive steps : system -> list label -> system -> Prop :=
| steps_nil y : steps y [] y
| steps_snoc y ls y' l y'' : steps y ls y' -> step y' l y'' -> steps y (ls ++ [l]) y''.

(** ** One chain of runs per task *)

Record consistent (y : system) : Prop := {
  tasks_keyed : forall k t, tasks_ (sched y) !! k = Some t -> id t = k;
  adding_known : forall t, t ∈ adding y -> 1 <= id t <= schedule_id_ (sched y);
  executing_own : forall i t n, Executing i t n ∈ workers y -> id t = schedule_id i;
  tasks_known : forall k t, tasks_ (sched y) !! k = Some t -> 1 <= k <= schedule_id_ (sched y);
  chains_known : Forall (fun k => 1 <= k <= schedule_id_ (sched y)) (chains y);
  chains_single : NoDup (chains y)
}.

Lemma spawn_keeps y :
  let y' := spawn_missing_locked y in
  queue_ (sched y') = queue_ (sched y) /\ tasks_ (sched y') = tasks_ (sched y) /\ schedule_id_ (sched y') = schedule_id_ (sched y) /\
  adding y' = adding y /\ (exists n, workers y' = workers y ++ replicate n Looping).
Proof.
  unfold spawn_missing_locked. destruct (negb (running_ (sched y)) || _); [split_and!; try done; exists 0%nat; by rewrite app_nil_r|].
  set (missing := if count y <? _ then _ else 0). destruct ((0 <? missing) && _), (has_watchdog_ (sched y)); simpl; split_and!; try done;
    solve [by eexists | exists 0%nat; by rewrite app_nil_r].
Qed.
Lemma held_looping l n : concat (map held (l ++ replicate n Looping)) = concat (map held l).
Proof. rewrite map_app, concat_app. assert (concat (map held (replicate n Looping)) = []) as ->; [by induction n|by rewrite app_nil_r]. Qed.
Lemma held_filter l : concat (map held (List.filter is_live l)) = concat (map held l).
Proof. induction l as [|[] l IH]; simpl; by rewrite ?IH. Qed.

(** What a step may do to the chains without breaking the invariant. *)
Lemma consistent_sub y y' :
  consistent y ->
  schedule_id_ (sched y) <= schedule_id_ (sched y') ->
  (forall k t, tasks_ (sched y') !! k = Some t -> tasks_ (sched y) !! k = Some t) ->
  (forall t, t ∈ adding y' -> t ∈ adding y) ->
  (forall i t n, Executing i t n ∈ workers y' -> Executing i t n ∈ workers y \/ tasks_ (sched y) !! schedule_id i = Some t) ->
  chains y' ⊆+ chains y ->
  consistent y'.
Proof.
  intros [K1 K2 K3 K4 K5 K6] I T A E C. split.
  - intros k t Ht. by apply K1, T.
  - intros t Ht. specialize (K2 t (A t Ht)). lia.
  - intros i t n Hi. destruct (E i t n Hi) as [Hw|Ht]; [by eapply K3|by apply K1].
  - intros k t Ht. specialize (K4 k t (T k t Ht)). lia.
  - rewrite Forall_forall in *. intros k Hk. apply (elem_of_submseteq _ _ _ Hk) in C. specialize (K5 k C). simpl in K5. lia.
  - apply submseteq_Permutation in C as [k C]. rewrite C in K6. by apply NoDup_app in K6 as [? _].
Qed.

Lemma chains_worker s w1 w w2 y :
  chains (with_worker s w1 w w2 y) ≡ₚ held w ++ map schedule_id (queue_ s) ++ concat (map held (w1 ++ w2)) ++ map id (adding y).
Proof.
  unfold chains, with_worker. simpl. rewrite !map_app, !concat_app. simpl. rewrite <-!app_assoc.
  rewrite (Permutation_app_swap_app (concat (map held w1))). apply Permutation_app_swap_app.
Qed.
Lemma chains_split y w1 w w2 :
  workers y = w1 ++ w :: w2 ->
  chains y ≡ₚ held w ++ map schedule_id (queue_ (sched y)) ++ concat (map held (w1 ++ w2)) ++ map id (adding y).
Proof.
  intros E. rewrite <-(chains_worker (sched y) w1 w w2 y). unfold chains, with_worker. simpl. by rewrite E.
Qed.

Lemma with_worker_consistent y s w1 w w' w2 :
  consistent y -> workers y = w1 ++ w :: w2 ->
  schedule_id_ s = schedule_id_ (sched y) -> tasks_ s = tasks_ (sched y) ->
  (forall i t n, w' = Executing i t n -> tasks_ (sched y) !! schedule_id i = Some t) ->
  held w' ++ map schedule_id (queue_ s) ⊆+ held w ++ map schedule_id (queue_ (sched y)) ->
  consistent (with_worker s w1 w' w2 y).
Proof.
  intros K W I T E C. apply (consistent_sub y); try done; simpl.
  - lia.
  - by rewrite T.
  - intros i t n. rewrite W, !elem_of_app, !elem_of_cons. intros [Hi|[Hi|Hi]]; [by auto| |by auto].
    right. by eapply E.
  - rewrite chains_worker, (chains_split y w1 w w2 W), !app_assoc. by do 2 apply submseteq_skips_r.
Qed.

(** [reschedule] queues at most the task itself. *)
Lemma reschedule_queue dist ok item now s s' :
  reschedule dist ok item now s = Ok s' ->
  schedule_id_ s' = schedule_id_ s /\ tasks_ s' = tasks_ s /\
  (map schedule_id (queue_ s') = map schedule_id (queue_ s) \/ map schedule_id (queue_ s') = id item :: map schedule_id (queue_ s)).
Proof.
  unfold reschedule, reschedule_at, push. destruct (is_disabled item); [intros [= <-]; auto|].
  destruct (get_next dist now item); [|done]. intros [= <-]. destruct ok; simpl; auto.
Qed.
Lemma catch_task_queue dist ok item now s :
  let r := catch_task dist ok item now s in
  schedule_id_ r.2 = schedule_id_ s /\ tasks_ r.2 = tasks_ s /\ (r.1 = Looping \/ r.1 = Dead) /\
  (map schedule_id (queue_ r.2) = map schedule_id (queue_ s) \/ map schedule_id (queue_ r.2) = id item :: map schedule_id (queue_ s)).
Proof.
  unfold catch_task. destruct (reschedule dist ok item now (count_error s)) as [s'|e] eqn:E; simpl; [|by auto].
  apply reschedule_queue in E as (-> & -> & Q). auto.
Qed.
Lemma finish_task_queue h ms dist dist' ok ok' item now s :
  let r := finish_task h ms dist dist' ok ok' item now s in
  schedule_id_ r.2 = schedule_id_ s /\ tasks_ r.2 = tasks_ s /\ (r.1 = Looping \/ r.1 = Dead) /\
  (map schedule_id (queue_ r.2) = map schedule_id (queue_ s) \/ map schedule_id (queue_ r.2) = id item :: map schedule_id (queue_ s)).
Proof.
  unfold finish_task. destruct h as [|[]|]; simpl; auto; [|apply catch_task_queue].
  destruct (reschedule dist ok item now (count_time ms s)) as [s'|e] eqn:E; simpl; [|apply (catch_task_queue dist' ok' item now (count_time ms s))].
  apply reschedule_queue in E as (-> & -> & Q). auto.
Qed.
Lemma watch_round_keeps late b y :
  let y' := (watch_dog_round late b y).2 in
  queue_ (sched y') = queue_ (sched y) /\ tasks_ (sched y') = tasks_ (sched y) /\ schedule_id_ (sched y') = schedule_id_ (sched y) /\
  adding y' = adding y /\ (exists n, workers y' = workers y ++ replicate n Looping).
Proof.
  unfold watch_dog_round, scale_up. assert (exists n, workers y = workers y ++ replicate n Looping) by (exists 0%nat; by rewrite app_nil_r).
  destruct late; simpl; [|done]. destruct (_ <? 10); simpl; [|done]. destruct (joining y); simpl; [done|].
  match goal with |- context [spawn_missing_locked ?z] => destruct (spawn_keeps z) as (-> & -> & -> & -> & ?) end. done.
Qed.
Lemma executing_spawned w n i t m : Executing i t m ∈ w ++ replicate n Looping -> Executing i t m ∈ w.
Proof. rewrite elem_of_app. intros [|[Hx _]%elem_of_replicate]; done. Qed.

(** A step of the pool: new idle workers at most. *)
Lemma pool_consistent y y' :
  consistent y -> queue_ (sched y') = queue_ (sched y) -> tasks_ (sched y') = tasks_ (sched y) -> schedule_id_ (sched y') = schedule_id_ (sched y) ->
  adding y' = adding y -> (exists n, workers y' = workers y ++ replicate n Looping) -> consistent y'.
Proof.
  intros K Q T I A [n W]. apply (consistent_sub y); try done; [lia|by rewrite T|by rewrite A| |].
  - intros i t m. rewrite W. intros Hi%executing_spawned. auto.
  - unfold chains. by rewrite Q, A, W, held_looping.
Qed.

Lemma register_consistent item (first : bool) y :
  consistent y -> 0 <= schedule_id_ (sched y) < 2 ^ 31 - 1 ->
  let r := add_task_register item (sched y) in
  consistent (mkSystem r.2 (workers y) (watchdogs y) (if first then r.1 :: adding y else adding y) (joining y)).
Proof.
  intros K B. assert (wrap_u 32 (schedule_id_ (sched y) + 1) = schedule_id_ (sched y) + 1) as E1 by (apply wrap_u_id; unfold in_u; lia).
  assert (wrap_s 32 (schedule_id_ (sched y) + 1) = schedule_id_ (sched y) + 1) as E2 by (apply wrap_s_id; [lia|unfold in_s; lia]).
  unfold add_task_register. cbn zeta. rewrite E1, E2. cbn [fst snd id]. set (n := schedule_id_ (sched y) + 1) in *.
  set (item' := mkTask n (tag item) (duration item) (schedule_ item) (has_duration item) (jitter_factor_ item)).
  destruct K as [K1 K2 K3 K4 K5 K6].
  assert (n ∉ chains y) as Hn. { intros Hin. rewrite Forall_forall in K5. specialize (K5 n Hin). simpl in K5. lia. }
  split; cbn [sched workers adding tasks_ schedule_id_ with_tasks].
  - intros k t. rewrite lookup_insert_Some. intros [[<- <-]|[_ Ht]]; [done|by apply K1].
  - intros t Ht. assert (t = item' \/ t ∈ adding y) as [-> | Ha] by (destruct first; set_solver); [simpl; lia|]. specialize (K2 t Ha). lia.
  - done.
  - intros k t. rewrite lookup_insert_Some. intros [[<- _]|[_ Ht]]; [lia|]. specialize (K4 k t Ht). lia.
  - assert (Forall (fun k => 1 <= k <= n) (chains y)) as F by (eapply Forall_impl; [exact K5|]; simpl; lia).
    destruct first; [|exact F]. unfold chains in *. simpl. rewrite !Forall_app in *. destruct F as (F1 & F2 & F3). split_and!; auto.
    constructor; [lia|done].
  - destruct first; [|exact K6]. assert (chains (mkSystem (with_tasks n (<[n:=item']> (tasks_ (sched y))) (queue_ (sched y)) (sched y)) (workers y) (watchdogs y) (item' :: adding y) (joining y)) ≡ₚ n :: chains y) as ->.
    { unfold chains. simpl. rewrite !app_assoc. symmetry. apply Permutation_middle. }
    by constructor.
Qed.

Lemma run_now_consistent ok tid now delay y :
  consistent y -> tid ∉ chains y -> consistent (with_sched (run_now ok tid now delay (sched y)) y).
Proof.
  intros K N. unfold run_now, get_task. destruct (tasks_ (sched y) !! tid) as [t|] eqn:E; [|by destruct y].
  unfold reschedule_at, push. destruct ok; [|by destruct y]. pose proof (tasks_known _ K tid t E). destruct K as [K1 K2 K3 K4 K5 K6].
  split; try done; unfold chains in *; simpl; [by constructor|]. by constructor.
Qed.

Definition bounded_ids (y : system) : Prop := 0 <= schedule_id_ (sched y) < 2 ^ 31 - 1.
Lemma step_consistent y l y' : bounded_ids y -> step y l y' -> consistent y -> consistent y'.
Proof.
  intros B S K. destruct S as [item first|a1 item a2 dist ok now A|ok tid now delay N|tid| |ok|J|n|J|J|J|J D1 D2|J|w1 w2 i rest W St Q L|w1 w2 W St|
    w1 w2 i ok W St|w1 w2 i ok W|w1 w2 i now W St L|w1 w2 i item now h ms dist dist' ok ok' W|d1 b d2 now locked D St|d1 b d2 D St].
  - by apply register_consistent.
  - assert (chains y ≡ₚ id item :: map schedule_id (queue_ (sched y)) ++ concat (map held (workers y)) ++ map id (a1 ++ a2)) as Hc.
    { unfold chains. rewrite A, !map_app. simpl. rewrite !app_assoc. symmetry. apply Permutation_middle. }
    destruct (reschedule dist ok item now (sched y)) as [s'|e] eqn:E.
    + apply reschedule_queue in E as (E1 & E2 & Q). apply (consistent_sub y); simpl; try done; [lia|by rewrite E2|intros t; rewrite A, !elem_of_app, elem_of_cons; tauto|auto|].
      rewrite Hc. unfold chains. simpl. destruct Q as [-> | ->]; [by apply submseteq_cons|done].
    + apply (consistent_sub y); simpl; try done; [intros t; rewrite A, !elem_of_app, elem_of_cons; tauto|auto|]. rewrite Hc. by apply submseteq_cons.
  - by apply run_now_consistent.
  - apply (consistent_sub y); simpl; try done; [|auto]. intros k t. by rewrite lookup_delete_Some; intros [_ ?].
  - apply (consistent_sub y); simpl; try done. auto.
  - unfold clear_queue. destruct ok; [|by destruct y]. apply (consistent_sub y); simpl; try done; [auto|]. unfold chains. simpl.
    by apply submseteq_inserts_l.
  - apply (pool_consistent y); try done. exists 0%nat. simpl. by rewrite app_nil_r.
  - apply (pool_consistent y); try done. exists 0%nat. simpl. by rewrite app_nil_r.
  - unfold start_threads. match goal with |- context [spawn_missing_locked ?z] => destruct (spawn_keeps z) as (? & ? & ? & ? & ?) end. by apply (pool_consistent y).
  - apply (pool_consistent y); try done. exists 0%nat. simpl. by rewrite app_nil_r.
  - apply (pool_consistent y); try done. exists 0%nat. simpl. by rewrite app_nil_r.
  - apply (consistent_sub y); simpl; try done.
    + intros i t n I. left. apply list_elem_of_In in I. apply List.filter_In in I as [I _]. by apply list_elem_of_In.
    + unfold chains. simpl. by rewrite held_filter.
  - apply (consistent_sub y); simpl; try done.
    + intros i t n I. left. apply list_elem_of_In in I. apply List.filter_In in I as [I _]. by apply list_elem_of_In.
    + unfold chains. simpl. by rewrite held_filter.
  - apply (with_worker_consistent y _ w1 Looping); try done. simpl. by rewrite Q.
  - by apply (with_worker_consistent y _ w1 Looping).
  - apply (with_worker_consistent y _ w1 (Waiting i)); try done; unfold push; destruct ok; try done. simpl. by apply submseteq_cons.
  - apply (with_worker_consistent y _ w1 (Waiting i)); try done; unfold push; destruct ok; try done. simpl. by apply submseteq_cons.
  - unfold get_task. destruct (tasks_ (sched y) !! schedule_id i) as [item|] eqn:E; apply (with_worker_consistent y _ w1 (Waiting i)); try done.
    + by intros ? ? ? [= <- <- _].
    + simpl. by apply submseteq_cons.
  - pose proof (finish_task_queue h ms dist dist' ok ok' item now (sched y)) as (E1 & E2 & E3 & Q).
    cbn zeta in *. destruct (finish_task h ms dist dist' ok ok' item now (sched y)) as [w' s']. simpl in *.
    apply (with_worker_consistent y _ w1 (Executing i item now)); try done; [by destruct E3 as [-> | ->]|].
    assert (held w' = []) as -> by by destruct E3 as [-> | ->].
    cbn [held app]. rewrite <-(executing_own _ K i item now) by (rewrite W; set_solver). destruct Q as [-> | ->]; [by apply submseteq_cons|done].
  - pose proof (watch_round_keeps (locked && is_late now (sched y)) b y) as (? & ? & ? & ? & ?). by apply (pool_consistent y).
  - apply (pool_consistent y); try done. exists 0%nat. simpl. by rewrite app_nil_r.
Qed.

Definition is_register (l : label) : bool := match l with LRegister _ _ => true | _ => false end.
Definition registers (ls : list label) : Z := zlength (List.filter is_register ls).
Lemma step_ids y l y' : bounded_ids y -> step y l y' -> schedule_id_ (sched y') = schedule_id_ (sched y) + if is_register l then 1 else 0.
Proof.
  intros B S. destruct S; simpl; try lia.
  - apply wrap_u_id. unfold bounded_ids in B. unfold in_u. lia.
  - destruct (reschedule dist ok item now (sched y)) eqn:E; [|lia]. apply reschedule_queue in E as (-> & _). lia.
  - unfold run_now. destruct (get_task tid (sched y)); [|lia]. unfold reschedule_at, push. destruct ok; simpl; lia.
  - unfold clear_queue. destruct ok; simpl; lia.
  - unfold start_threads. match goal with |- context [spawn_missing_locked ?z] => destruct (spawn_keeps z) as (_ & _ & -> & _) end. simpl. lia.
  - unfold push. destruct ok; simpl; lia.
  - unfold push. destruct ok; simpl; lia.
  - destruct (get_task _ _); simpl; lia.
  - pose proof (finish_task_queue h ms dist dist' ok ok' item now (sched y)) as (E & _). subst r. rewrite E. lia.
  - pose proof (watch_round_keeps (locked && is_late now (sched y)) b y) as (_ & _ & E & _). subst r. rewrite E. lia.
Qed.
Lemma new_consistent : consistent new_system.
Proof. split; simpl; try done; try set_solver; by constructor. Qed.
Lemma steps_consistent ls y : steps new_system ls y -> registers ls < 2 ^ 31 - 1 -> consistent y /\ schedule_id_ (sched y) = registers ls.
Proof.
  remember new_system as y0 eqn:E0. induction 1 as [y|y ls y' l y'' S IH St]; intros B; subst y; [split; [apply new_consistent|done]|].
  assert (registers (ls ++ [l]) = registers ls + if is_register l then 1 else 0) as R.
  { unfold registers. rewrite List.filter_app, zlength_app. simpl. by destruct (is_register l). }
  rewrite R in B. destruct IH as [K E]; [done|destruct (is_register l); lia|].
  assert (bounded_ids y') as Bd. { unfold bounded_ids. rewrite E. pose proof (zlength_nonneg (List.filter is_register ls)). unfold registers in *. destruct (is_register l); lia. }
  split; [by eapply step_consistent|]. rewrite (step_ids _ _ _ Bd St), E, R. done.
Qed.

Lemma held_twice l j k w w' x : l !! j = Some w -> l !! k = Some w' -> x ∈ held w -> x ∈ held w' -> NoDup (concat (map held l)) -> j = k.
Proof.
  revert j k. induction l as [|v l IH]; intros j k J K X X' N; [done|]. simpl in N. apply NoDup_app in N as (_ & D & N).
  assert (forall m u, l !! m = Some u -> x ∈ held u -> x ∈ concat (map held l)) as Hin.
  { intros m u M U. apply list_elem_of_In, in_concat. exists (held u). split; [|by apply list_elem_of_In].
    apply in_map, list_elem_of_In. by eapply list_elem_of_lookup_2. }
  destruct j as [|j], k as [|k]; simpl in *; simplify_eq; try done.
  - exfalso. by apply (D x X), (Hin k w').
  - exfalso. by apply (D x X'), (Hin j w).
  - f_equal. by apply IH.
Qed.

(** C9. In every interleaving of module threads, workers and the watchdog in which run_now is
    used as documented (not for a task that has an instance), fewer than 2^31 tasks are added
    and locking and notifying the idle workers does not throw, each task has at most one
    instance queued, held by a worker or about to be queued; no two workers ever run the same
    task at once and a running task is not queued. *)
Theorem one_run_per_task (ls : list label) (y : system) :
  steps new_system ls y -> registers ls < 2 ^ 31 - 1 ->
  NoDup (chains y) /\
  (forall j k i i' t t' n n', workers y !! j = Some (Executing i t n) -> workers y !! k = Some (Executing i' t' n') -> id t = id t' -> j = k) /\
  (forall j i t n, workers y !! j = Some (Executing i t n) -> Forall (fun q => schedule_id q <> id t) (queue_ (sched y))).
Proof.
  intros S B. destruct (steps_consistent ls y S B) as [K _]. pose proof (chains_single y K) as N. split; [done|]. unfold chains in N.
  apply NoDup_app in N as (_ & D & N). apply NoDup_app in N as (N & _ & _). split.
  - intros j k i i' t t' n n' J K' E. pose proof (executing_own y K i t n ltac:(by eapply list_elem_of_lookup_2)) as E1.
    pose proof (executing_own y K i' t' n' ltac:(by eapply list_elem_of_lookup_2)) as E2.
    apply (held_twice _ _ _ _ _ (schedule_id i) J K'); [by apply list_elem_of_singleton|apply list_elem_of_singleton; congruence|done].
  - intros j i t n J. pose proof (executing_own y K i t n ltac:(by eapply list_elem_of_lookup_2)) as ->.
    apply Forall_forall. intros q Q E. apply (D (schedule_id q)); [by apply list_elem_of_fmap_2|]. rewrite E. apply elem_of_app. left.
    apply list_elem_of_In, in_concat. exists (held (Executing i t n)). split; [|by left]. apply in_map, list_elem_of_In. by eapply list_elem_of_lookup_2.
Qed.

(** ** No run is lost *)

(** A task whose next time can always be computed. *)
Definition regular (t : task) : Prop := is_disabled t = false /\ forall dist now, exists n, get_next dist now t = Ok n.
(** The steps that may end the chain of a task that is still there: a lock that was not taken,
    a cleared queue, a handler that gave the task up. *)
Definition gives_up (l : label) : bool :=
  match l with
  | LQueueFirst _ ok _ | LPutBack ok | LWaitFailed ok => negb ok
  | LClearQueue ok => ok
  | LFinish h _ _ _ ok ok' => match h with Returned true => negb ok | Threw => negb ok' | _ => true end
  | _ => false
  end.

Lemma reschedule_regular dist item now s : regular item -> exists n, reschedule dist true item now s = Ok (with_queue (mkInstance n (tag item) (id item) false :: queue_ s) s).
Proof. intros [D G]. unfold reschedule. rewrite D. destruct (G dist now) as [n ->]. by exists n. Qed.

Lemma finish_regular h ms dist dist' ok ok' item now s :
  regular item -> gives_up (LFinish h ms dist dist' ok ok') = false ->
  map schedule_id (queue_ (finish_task h ms dist dist' ok ok' item now s).2) = id item :: map schedule_id (queue_ s).
Proof.
  intros G D. unfold finish_task. destruct h as [|[]|]; simpl in D; try done.
  - destruct ok; [|done]. destruct (reschedule_regular dist item now (count_time ms s) G) as [n ->]. done.
  - destruct ok'; [|done]. unfold catch_task. destruct (reschedule_regular dist' item now (count_error s) G) as [n ->]. done.
Qed.

Lemma worker_chain tid s w1 w w2 y :
  tid ∈ chains (with_worker s w1 w w2 y) <-> tid ∈ held w \/ tid ∈ map schedule_id (queue_ s) \/ tid ∈ concat (map held (w1 ++ w2)) \/ tid ∈ map id (adding y).
Proof. by rewrite chains_worker, !elem_of_app. Qed.

(** A task that is about to be queued. *)
Definition present (t : task) (y : system) : Prop := t ∈ adding y \/ exists i n, Executing i t n ∈ workers y.

Lemma step_keeps_chain y l y' tid :
  consistent y -> step y l y' -> gives_up l = false -> is_Some (tasks_ (sched y') !! tid) ->
  (forall t, present t y -> id t = tid -> regular t) -> tid ∈ chains y -> tid ∈ chains y'.
Proof.
  intros K S G T R. destruct S as [item first|a1 item a2 dist ok now A|ok k now delay N|k| |ok|J|n|J|J|J|J D1 D2|J|w1 w2 i rest W St Q L|w1 w2 W St|
    w1 w2 i ok W St|w1 w2 i ok W|w1 w2 i now W St L|w1 w2 i item now h ms dist dist' ok ok' W|d1 b d2 now locked D St|d1 b d2 D St]; simpl in G.
  - unfold chains. simpl. rewrite !elem_of_app. destruct first; simpl; [rewrite elem_of_cons|]; tauto.
  - destruct ok; [|done]. unfold chains. simpl. rewrite A, !elem_of_app, !map_app, !elem_of_app. simpl. rewrite elem_of_cons.
    destruct (decide (id item = tid)) as [E|E].
    + intros _. left. destruct (reschedule_regular dist item now (sched y)) as [n ->]; [apply R; [left; rewrite A; set_solver|done]|]. simpl. rewrite elem_of_cons. by left.
    + intros [Hq|[Hw|[Ha|[Hx|Ha]]]]; [|tauto|tauto|congruence|tauto]. left.
      destruct (reschedule dist true item now (sched y)) as [s'|] eqn:Es; [|done].
      apply reschedule_queue in Es as (_ & _ & [-> | ->]); [done|]. by rewrite elem_of_cons; right.
  - unfold run_now. destruct (get_task k (sched y)); [|by destruct y]. unfold reschedule_at, push. destruct ok; [|by destruct y].
    unfold chains. simpl. rewrite elem_of_cons. tauto.
  - done.
  - done.
  - unfold clear_queue. destruct ok; [done|]. by destruct y.
  - done.
  - done.
  - unfold start_threads, chains. match goal with |- context [spawn_missing_locked ?z] => destruct (spawn_keeps z) as (-> & _ & _ & -> & m & ->) end.
    by rewrite held_looping.
  - done.
  - done.
  - unfold chains. simpl. by rewrite held_filter.
  - unfold chains. simpl. by rewrite held_filter.
  - rewrite (chains_split y _ _ _ W), worker_chain, !elem_of_app. simpl. rewrite Q. simpl. set_solver.
  - by rewrite (chains_split y _ _ _ W), worker_chain, !elem_of_app.
  - destruct ok; [|done]. rewrite (chains_split y _ _ _ W), worker_chain, !elem_of_app. simpl. set_solver.
  - destruct ok; [|done]. rewrite (chains_split y _ _ _ W), worker_chain, !elem_of_app. simpl. set_solver.
  - rewrite (chains_split y _ _ _ W), !elem_of_app. unfold get_task in *. destruct (tasks_ (sched y) !! schedule_id i) as [item|] eqn:E.
    + by rewrite worker_chain.
    + simpl in T. rewrite worker_chain. simpl. rewrite list_elem_of_singleton. intros [->|]; [|tauto]. rewrite E in T. by destruct T.
  - rewrite (chains_split y _ _ _ W), worker_chain, !elem_of_app. simpl held at 1. rewrite list_elem_of_singleton.
    pose proof (executing_own _ K i item now ltac:(rewrite W; set_solver)) as O. intros [->|[Hq|Hr]]; [| |tauto].
    + subst r. assert (regular item) as Rg by (apply R; [right; exists i, now; rewrite W; set_solver|done]). rewrite finish_regular by done. rewrite elem_of_cons, O. tauto.
    + pose proof (finish_task_queue h ms dist dist' ok ok' item now (sched y)) as (_ & _ & _ & Qf). subst r.
      right. left. destruct Qf as [-> | ->]; [done|]. by rewrite elem_of_cons; right.
  - pose proof (watch_round_keeps (locked && is_late now (sched y)) b y) as (E1 & _ & _ & E2 & n & E3). subst r. unfold chains. simpl.
    rewrite E1, E2, E3. by rewrite held_looping.
  - done.
Qed.

(** C37. A task that is still registered never drops out of the schedule: whatever step is taken
    in a reachable state, stop and a worker that puts its instance back included, an instance of
    it is still on its way afterwards, unless a lock was not taken in time, the queue was
    cleared or the handler gave it up. For a task that is enabled and whose next time can always
    be computed, so not for a cron schedule that never matches. *)
Theorem scheduled_task_keeps_running (ls : list label) (y : system) (l : label) (y' : system) (tid : Z) :
  steps new_system ls y -> registers ls < 2 ^ 31 - 1 -> step y l y' -> gives_up l = false ->
  is_Some (tasks_ (sched y') !! tid) -> (forall t, present t y -> id t = tid -> regular t) ->
  tid ∈ chains y -> tid ∈ chains y'.
Proof. intros S B. destruct (steps_consistent ls y S B) as [K _]. by apply step_keeps_chain. Qed.

(** ** Stopping *)

Definition stopped (y : system) : Prop := stop_requested_ (sched y) = true /\ running_ (sched y) = false.
Definition is_start (l : label) : bool := match l with LStart => true | _ => false end.
(** The steps of the workers and the watchdog. *)
Definition of_pool (l : label) : bool :=
  match l with LPop | LQuit | LPutBack _ | LWaitFailed _ | LRun _ | LFinish _ _ _ _ _ _ | LWatch _ _ | LWatchQuit => true | _ => false end.
Definition work_of (w : worker) : nat := match w with Dead => 0 | Looping => 1 | Waiting _ | Executing _ _ _ => 2 end.
Definition work (y : system) : nat := list_sum (map work_of (workers y)) + length (watchdogs y).

Lemma list_sum_app l k : list_sum (l ++ k) = (list_sum l + list_sum k)%nat.
Proof. induction l; simpl; lia. Qed.
Lemma work_split y w1 w w2 : workers y = w1 ++ w :: w2 -> work y = (list_sum (map work_of (w1 ++ w2)) + work_of w + length (watchdogs y))%nat.
Proof. intros W. unfold work. rewrite W, !map_app, !list_sum_app. simpl. lia. Qed.
Lemma work_with_worker s w1 w w2 y : work (with_worker s w1 w w2 y) = (list_sum (map work_of (w1 ++ w2)) + work_of w + length (watchdogs y))%nat.
Proof. by rewrite (work_split _ w1 w w2). Qed.
Lemma work_filter l : list_sum (map work_of (List.filter is_live l)) = list_sum (map work_of l).
Proof. induction l as [|[] l IH]; simpl; lia. Qed.
Lemma spawn_stopped y : stopped y -> spawn_missing_locked y = y.
Proof. intros [S R]. unfold spawn_missing_locked. by rewrite R, S. Qed.

Lemma reschedule_flags d o t n s s' :
  reschedule d o t n s = Ok s' -> stop_requested_ s' = stop_requested_ s /\ running_ s' = running_ s.
Proof.
  unfold reschedule, reschedule_at, push. destruct (is_disabled t); [by intros [= <-]|].
  destruct (get_next _ _ _); [|done]. intros [= <-]. by destruct o.
Qed.
Lemma catch_flags d o t n s :
  stop_requested_ (catch_task d o t n s).2 = stop_requested_ s /\ running_ (catch_task d o t n s).2 = running_ s.
Proof.
  unfold catch_task. destruct (reschedule d o t n (count_error s)) as [s'|] eqn:E; [|done]. by apply reschedule_flags in E.
Qed.
Lemma finish_flags h ms d d' o o' t n s :
  let r := finish_task h ms d d' o o' t n s in stop_requested_ r.2 = stop_requested_ s /\ running_ r.2 = running_ s.
Proof.
  unfold finish_task. destruct h as [|[]|]; try done; [|apply catch_flags].
  destruct (reschedule d o t n (count_time ms s)) as [s'|] eqn:E; [by apply reschedule_flags in E|]. apply (catch_flags d' o' t n (count_time ms s)).
Qed.

Lemma step_stopped y l y' :
  stopped y -> step y l y' -> is_start l = false ->
  stopped y' /\ ((if of_pool l then 1 else 0) + work y' <= work y)%nat.
Proof.
  intros St S N. pose proof St as [F1 F2]. destruct S; simpl in N |- *; try done; try congruence.
  - destruct (reschedule dist ok item now (sched y)) as [s'|] eqn:E; [|done]. split; [|done]. apply reschedule_flags in E as [E1 E2].
    split; simpl; congruence.
  - unfold run_now. destruct (get_task _ _); [|done]. by destruct ok.
  - by destruct ok.
  - unfold start_threads. by rewrite spawn_stopped.
  - split; [done|]. unfold work. simpl. by rewrite work_filter.
  - split; [done|]. unfold work. simpl. by rewrite work_filter.
  - split; [done|]. rewrite work_with_worker, (work_split _ _ _ _ H2). simpl. lia.
  - rewrite work_with_worker, (work_split _ _ _ _ H2). simpl. split; [by destruct ok|lia].
  - rewrite work_with_worker, (work_split _ _ _ _ H2). simpl. split; [by destruct ok|lia].
  - rewrite work_with_worker, (work_split _ _ _ _ H2). simpl. split.
    + destruct (finish_flags h ms dist dist' ok ok' item now (sched y)) as [E1 E2]. subst r. split; simpl; congruence.
    + pose proof (finish_task_queue h ms dist dist' ok ok' item now (sched y)) as (_ & _ & E & _). subst r. destruct E as [-> | ->]; simpl; lia.
  - split; [done|]. unfold work. simpl. rewrite H2, !length_app. simpl. lia.
Qed.

Lemma pool_progress y : stopped y -> work y <> 0%nat -> exists l y', of_pool l = true /\ step y l y'.
Proof.
  intros [F _] W. destruct (watchdogs y) as [|b d] eqn:D.
  - assert (exists w1 w w2, workers y = w1 ++ w :: w2 /\ w <> Dead) as (w1 & w & w2 & E & L).
    { unfold work in W. rewrite D in W. simpl in W. clear -W. induction (workers y) as [|w l IH]; [done|]. destruct w; [by exists [], Looping, l| | |].
      - by eexists [], _, l.
      - by eexists [], _, l.
      - destruct IH as (w1 & w & w2 & E & L); [done|]. exists (Dead :: w1), w, w2. by rewrite E. }
    destruct w; [| | |done].
    + eexists LQuit, _. split; [done|]. by eapply st_quit.
    + eexists (LPutBack true), _. split; [done|]. by eapply st_put_back.
    + eexists (LFinish NoHandler 0 (of_Z 0) (of_Z 0) true true), _. split; [done|]. by eapply st_finish.
  - eexists LWatchQuit, _. split; [done|]. by apply (st_watch_quit y [] b d).
Qed.

(** C39. Once stop is requested the pool empties: without a new start the workers and the
    watchdog take at most as many steps as the work left, they can always take one until all are
    gone, and then the join returns. *)
Theorem stop_drains_the_pool (y : system) (ls : list label) (y' : system) :
  stopped y -> steps y ls y' -> forallb (fun l => negb (is_start l)) ls = true ->
  (length (List.filter of_pool ls) + work y' <= work y)%nat /\
  (work y' = 0%nat -> Forall (fun w => w = Dead) (workers y') /\ watchdogs y' = []) /\
  (work y' <> 0%nat -> exists l y'', of_pool l = true /\ step y' l y'').
Proof.
  intros St S N. assert (stopped y' /\ (length (List.filter of_pool ls) + work y' <= work y)%nat) as [St' B].
  { induction S as [y|y ls y1 l y2 S IH S1]; [simpl; split; [done|lia]|]. rewrite forallb_app in N. apply andb_prop in N as [N1 N2]. simpl in N2.
    destruct (IH St N1) as [St1 B1]. destruct (step_stopped y1 l y2 St1 S1) as [St2 B2]; [by destruct (is_start l)|]. split; [done|].
    rewrite List.filter_app, length_app. simpl. destruct (of_pool l); simpl in *; lia. }
  split; [done|]. split; [|by apply pool_progress]. unfold work. intros Z0. split; [|apply nil_length_inv; lia].
  assert (list_sum (map work_of (workers y')) = 0%nat) as Zs by lia. clear -Zs. induction (workers y') as [|w l IH]; [done|]. simpl in Zs.
  constructor; [destruct w; simpl in Zs; done || lia|]. apply IH. lia.
Qed.

(** ** The size of the pool *)

Definition live_workers (y : system) : Z := zlength (List.filter is_live (workers y)).
Lemma live_spawned l n : zlength (List.filter is_live (l ++ replicate n Looping)) = zlength (List.filter is_live l) + Z.of_nat n.
Proof. rewrite List.filter_app, zlength_app. f_equal. unfold zlength. f_equal. by induction n as [|n IH]; simpl; [|rewrite IH]. Qed.

(** Starting an empty pool starts exactly the configured number of workers and one watchdog. *)
Theorem start_fills_the_pool (y : system) :
  0 <= thread_count_ (sched y) -> count y = 0 -> has_watchdog_ (sched y) = false ->
  live_workers (start y) = thread_count_ (sched y) /\ watchdogs (start y) = [false] /\
  stop_requested_ (sched (start y)) = false /\ running_ (sched (start y)) = true.
Proof.
  intros T C W. unfold start, open_pool, start_threads, spawn_missing_locked. simpl. set (y0 := with_sched _ y). assert (count y0 = 0) as -> by exact C.
  rewrite W. unfold live_workers. unfold count in C. pose proof (zlength_nonneg (List.filter is_live (workers y))).
  pose proof (zlength_nonneg (watchdogs y)). assert (watchdogs y = []) as D by (destruct (watchdogs y) as [|b d]; [done|]; rewrite zlength_cons in *; pose proof (zlength_nonneg d); lia).
  destruct (Z.ltb_spec 0 (thread_count_ (sched y))).
  - rewrite (proj2 (Z.ltb_lt 0 _)), (proj2 (Z.leb_le _ _)) by lia. simpl. rewrite live_spawned, D. split; [lia|done].
  - simpl. rewrite D. split; [lia|done].
Qed.

(** Raising the thread count of a running pool adds one worker too few, since the watchdog
    counts as one. *)
Theorem raised_pool_is_one_short (y : system) (b : bool) (k : Z) :
  running_ (sched y) = true -> stop_requested_ (sched y) = false -> has_watchdog_ (sched y) = true -> watchdogs y = [b] -> 1 <= k ->
  live_workers (set_threads (live_workers y + k) y) = live_workers y + k - 1.
Proof.
  intros Rn St Hw D K. unfold set_threads, write_threads, start_threads, spawn_missing_locked. simpl. rewrite Rn, St, Hw. simpl. set (y0 := with_sched _ y).
  assert (count y0 = live_workers y + 1) as -> by (unfold count; simpl; by rewrite D). pose proof (zlength_nonneg (List.filter is_live (workers y))).
  unfold live_workers in *. simpl. set (n := zlength (List.filter is_live (workers y))) in *.
  destruct (Z.ltb_spec (n + 1) (n + k)).
  - rewrite (proj2 (Z.ltb_lt _ _)), (proj2 (Z.leb_le _ _)) by lia. simpl. rewrite live_spawned. fold n. lia.
  - simpl. lia.
Qed.

(** ** Startup runs *)

(** The instances that startup queues, newest first. *)
Fixpoint startup_instances (step offset : Z) (ids : list (Z * Z)) : list (Z * Z) :=
  match ids with [] => [] | (tid, now) :: ids' => startup_instances step (offset + step) ids' ++ [(tid, now + offset)] end.
Lemma run_startup_loop_queue step offset ids s :
  Forall (fun p => is_Some (tasks_ s !! p.1)) ids ->
  let s' := run_startup_loop true step offset ids s in
  map (fun q => (schedule_id q, time q)) (queue_ s') = startup_instances step offset ids ++ map (fun q => (schedule_id q, time q)) (queue_ s) /\
  tasks_ s' = tasks_ s.
Proof.
  revert offset s. induction ids as [|[tid now] ids IH]; intros offset s F; [done|]. apply Forall_cons in F as [[t E] F]. simpl in E |- *.
  unfold run_now, get_task, reschedule_at, push. rewrite E. specialize (IH (offset + step) (with_queue (mkInstance (now + offset) (tag t) tid true :: queue_ s) s)).
  destruct IH as [IH1 IH2]; [exact F|]. rewrite IH1. simpl. split; [by rewrite <-app_assoc|done].
Qed.
Lemma startup_instances_spread step offset ids window tid t :
  0 <= step -> 0 <= offset -> offset + step * (zlength ids - 1) <= window -> (tid, t) ∈ startup_instances step offset ids ->
  exists now, (tid, now) ∈ ids /\ now <= t <= now + window.
Proof.
  revert offset. induction ids as [|[k now] ids IH]; intros offset S O W; simpl; [set_solver|]. rewrite zlength_cons in W.
  pose proof (zlength_nonneg ids). rewrite elem_of_app, list_elem_of_singleton. intros [I|[= -> ->]].
  - destruct ids as [|p ids]; [set_solver|]. rewrite zlength_cons in *. pose proof (zlength_nonneg ids).
    destruct (IH (offset + step)) as (n & N & B); [done|lia|nia|done|]. exists n. split; [set_solver|done].
  - exists now. split; [set_solver|]. nia.
Qed.

(** Every startup schedule is queued once, within the startup window. *)
Theorem startup_runs_spread (window : Z) (ids : list (Z * Z)) (s : scheduler) :
  0 <= window -> ids <> [] -> Forall (fun p => is_Some (tasks_ s !! p.1)) ids ->
  let s' := run_startup_tasks true window ids s in
  exists started, map (fun q => (schedule_id q, time q)) (queue_ s') = started ++ map (fun q => (schedule_id q, time q)) (queue_ s) /\
    map fst started = reverse (map fst ids) /\
    (forall tid t, (tid, t) ∈ started -> exists now, (tid, now) ∈ ids /\ now <= t <= now + window) /\ tasks_ s' = tasks_ s.
Proof.
  intros W N F. unfold run_startup_tasks. rewrite bool_decide_eq_false_2 by done. assert (1 <= zlength ids) as L.
  { destruct ids; [done|]. rewrite zlength_cons. pose proof (zlength_nonneg ids). lia. }
  destruct (run_startup_loop_queue (Z.quot window (zlength ids)) 0 ids s F) as [Q T]. eexists. split; [exact Q|].
  rewrite Z.quot_div_nonneg by lia. pose proof (Z.div_mod window (zlength ids) ltac:(lia)). pose proof (Z.mod_pos_bound window (zlength ids) ltac:(lia)).
  assert (0 <= window / zlength ids) by (apply Z.div_pos; lia). split; [|split; [|by rewrite <-Z.quot_div_nonneg by lia]].
  - clear. generalize 0 (window / zlength ids). intros o st. revert o. induction ids as [|[k n] ids IH]; intros o; [done|]. simpl.
    rewrite map_app, IH, reverse_cons. done.
  - intros tid t I. apply (startup_instances_spread (window / zlength ids) 0 ids); [done|done|nia|done].
Qed.

(** A task whose next time cannot be computed takes its worker with it: the exception of the
    first attempt is caught, the one of the second is not. *)
Theorem unschedulable_task_ends_worker (item : task) (now : Z) (h : handled) ms dist dist' ok ok' (s : scheduler) :
  is_disabled item = false -> (forall d, exists e, get_next d now item = Throw e) -> h = Returned true \/ h = Threw ->
  (finish_task h ms dist dist' ok ok' item now s).1 = Dead.
Proof.
  intros D G. unfold finish_task, catch_task, reschedule. rewrite D. destruct (G dist) as [e ->], (G dist') as [e' ->]. by intros [-> | ->].
Qed.
End Scheduler.

(** ** Jitter *)

Section Jitter.
Context `{calendar} `{clock}.
#[local] Existing Instance exact_real.

Lemma trunc_floor (q : Q) : (1 <= q)%Q -> (inject_Z (trunc q) <= q /\ q < inject_Z (trunc q + 1))%Q /\ 1 <= trunc q.
Proof.
  intros L. destruct q as [n d]. simpl. assert (0 <= n) by (unfold Qle in L; simpl in L; lia). rewrite Z.quot_div_nonneg by lia.
  pose proof (Z.div_mod n (Z.pos d) ltac:(lia)). pose proof (Z.mod_pos_bound n (Z.pos d) ltac:(lia)).
  unfold Qle, Qlt in *. simpl in *. repeat split; nia.
Qed.

(** In exact arithmetic the next run of an interval task is at least a second and at most the
    interval away, and not earlier than the interval less its jitter, rounded down to seconds. *)
Theorem jittered_interval (t : task) (dist : Q) (now : Z) :
  has_duration t = true -> 0 < duration t -> (0 <= jitter_factor_ t <= 1)%Q -> (0 <= dist <= 1)%Q ->
  exists n, get_next dist now t = Ok (now + 1000 * n) /\ 1 <= n <= duration t /\
    (inject_Z (duration t) * (1 - jitter_factor_ t) < inject_Z (n + 1))%Q.
Proof.
  intros Hd Pd [J0 J1] [D0 D1]. unfold get_next. rewrite Hd, (proj2 (Z.ltb_lt 0 _)) by done. cbn [andb]. cbn -[trunc inject_Z].
  set (d := inject_Z (duration t)). set (j := jitter_factor_ t : Q) in *.
  assert (1 <= d)%Q as P by (unfold d, Qle; simpl; lia). set (w := (d * (inject_Z 1 - j) + d * j * dist)%Q).
  assert (0 <= d * j)%Q as Q1 by (apply Qmult_le_0_compat; lra).
  assert (0 <= d * j * dist)%Q as Q2 by (apply Qmult_le_0_compat; lra).
  assert (d * j * dist <= d * j * 1)%Q as Q3 by (rewrite (Qmult_comm _ dist), (Qmult_comm _ 1); apply Qmult_le_compat_r; lra).
  assert (w <= d)%Q as W1 by (unfold w; change (inject_Z 1) with 1%Q; lra).
  assert (d * (1 - j) <= w)%Q as W2 by (unfold w; change (inject_Z 1) with 1%Q; lra).
  set (w' := if negb (Qle_bool (inject_Z 1) w) then inject_Z 1 else w).
  assert (1 <= w' /\ w <= w' /\ w' <= d)%Q as (V1 & V2 & V3).
  { unfold w'. destruct (Qle_bool (inject_Z 1) w) eqn:E; simpl.
    - apply Qle_bool_imp_le in E. change (inject_Z 1) with 1%Q in *. lra.
    - assert (w < 1)%Q. { apply Qnot_le_lt. intros L. apply Qle_bool_iff in L. change (inject_Z 1) with 1%Q in E. congruence. }
      change (inject_Z 1) with 1%Q. lra. }
  destruct (trunc_floor w' V1) as ((F1 & F2) & F3). exists (@trunc exact_real w'). split; [done|]. split; [split; [done|]|lra].
  assert (inject_Z (@trunc exact_real w') <= d)%Q as F4 by lra. unfold d, Qle in F4. simpl in F4. simpl. lia.
Qed.
End Jitter.

(** ** Witnesses *)

Module Demo.
#[local] Existing Instance exact_real.
#[local] Instance demo_clock : clock := {| to_ptime _ := mkTime 2026 1 1 0 0; of_ptime := stamp |}.

Definition q0 : @R exact_real := 0%Q.
Definition q2 : @R exact_real := (1 # 2)%Q.
Definition minutely : task := mkTask 0 (str "minutely") 60 None true q0.
Definition minutely1 : task := mkTask 1 (str "minutely") 60 None true q0.
Definition first_run : schedule_instance := mkInstance 60000 (str "minutely") 1 false.
Definition to_execution : list label := [LRegister minutely true; LQueueFirst q0 true 0; LWriteThreads 2; LStart; LStartThreads; LPop; LRun 60000].

Definition registered : system := mkSystem (with_tasks 1 {[1 := minutely1]} [] new_scheduler) [] [] [minutely1] false.
Definition queued : system := mkSystem (with_tasks 1 {[1 := minutely1]} [first_run] new_scheduler) [] [] [] false.
Definition two_threads : system := mkSystem (with_flags false false false 2 (sched queued)) [] [] [] false.
Definition started : system := mkSystem (with_flags false true true 2 (sched queued)) [Looping; Looping] [false] [] false.
Definition popped : system := mkSystem (with_queue [] (sched started)) [Waiting first_run; Looping] [false] [] false.
Definition executing : system := mkSystem (count_executed (sched popped)) [Executing first_run minutely1 60000; Looping] [false] [] false.

Lemma demo_steps : steps new_system to_execution executing.
Proof.
  assert (steps new_system [] new_system) as S0 by constructor.
  assert (step new_system (LRegister minutely true) registered) as S1 by exact (st_register new_system minutely true).
  assert (step registered (LQueueFirst q0 true 0) queued) as S2 by exact (st_queue_first registered [] minutely1 [] q0 true 0 eq_refl).
  assert (step queued (LWriteThreads 2) two_threads) as S3 by exact (st_write_threads queued 2).
  assert (step two_threads LStart (open_pool two_threads)) as S4 by exact (st_start two_threads eq_refl).
  assert (step (open_pool two_threads) LStartThreads started) as S4' by exact (st_start_threads (open_pool two_threads) eq_refl).
  assert (step started LPop popped) as S5 by exact (st_pop started [] [Looping] first_run [] eq_refl eq_refl (Permutation_refl _) (Forall_nil_2 _)).
  assert (step popped (LRun 60000) executing) as S6 by exact (st_run popped [] [Looping] first_run 60000 eq_refl eq_refl (Z.le_refl _)).
  exact (steps_snoc _ _ _ _ _ (steps_snoc _ _ _ _ _ (steps_snoc _ _ _ _ _ (steps_snoc _ _ _ _ _ (steps_snoc _ _ _ _ _ (steps_snoc _ _ _ _ _ (steps_snoc _ _ _ _ _ S0 S1) S2) S3) S4) S4') S5) S6).
Qed.

Lemma one_run_witness : NoDup (chains executing) /\ chains executing = [1].
Proof. split; [apply (one_run_per_task to_execution executing demo_steps); reflexivity|reflexivity]. Defined.

Lemma keeps_running_witness :
  1 ∈ chains (with_worker (finish_task (Returned true) 5 q0 q0 true true minutely1 60000 (sched executing)).2 [] Looping [Looping] executing).
Proof.
  apply (scheduled_task_keeps_running to_execution executing (LFinish (Returned true) 5 q0 q0 true true) _ 1 demo_steps).
  - reflexivity.
  - exact (st_finish executing [] [Looping] first_run minutely1 60000 (Returned true) 5 q0 q0 true true eq_refl).
  - reflexivity.
  - by exists minutely1.
  - intros t [P|(i & n & P)] _; [by apply elem_of_nil in P|]. apply elem_of_cons in P as [[= -> -> ->]|P]; [|by apply list_elem_of_singleton in P].
    split; [done|]. intros d m. by eexists.
  - by apply list_elem_of_singleton.
Defined.

Definition stopping : system := mkSystem (request_stop (sched executing)) (workers executing) (watchdogs executing) [] true.
Lemma stop_witness :
  (length (List.filter of_pool [LWatchQuit]) + work (mkSystem (sched stopping) (workers stopping) [] [] true) <= work stopping)%nat /\ work stopping = 4%nat.
Proof.
  split; [|reflexivity].
  apply (stop_drains_the_pool stopping [LWatchQuit] (mkSystem (sched stopping) (workers stopping) [] [] true)); [done| |done].
  exact (steps_snoc _ [] _ _ _ (steps_nil _) (st_watch_quit stopping [] false [] eq_refl eq_refl)).
Defined.

Lemma start_witness : live_workers (start two_threads) = 2 /\ watchdogs (start two_threads) = [false].
Proof. destruct (start_fills_the_pool two_threads) as (A & B & _); [vm_compute; discriminate|reflexivity|reflexivity|]. split; [exact A|exact B]. Defined.

Lemma jitter_witness : exists n, get_next q2 0 (mkTask 1 [] 60 None true q2) = Ok (0 + 1000 * n) /\ 1 <= n <= 60.
Proof.
  destruct (jittered_interval (mkTask 1 [] 60 None true q2) q2 0) as (n & E & B & _); [reflexivity|reflexivity| | |].
  - split; vm_compute; discriminate.
  - split; vm_compute; discriminate.
  - exists n. split; [exact E|exact B].
Defined.

Lemma startup_witness :
  exists l, map (fun q => (schedule_id q, time q)) (queue_ (run_startup_tasks true 10000 [(1, 500)] (sched registered))) = l ++ [] /\
    map fst l = [1] /\ forall tid t, (tid, t) ∈ l -> exists now, (tid, now) ∈ [(1, 500)] /\ now <= t <= now + 10000.
Proof.
  destruct (startup_runs_spread 10000 [(1, 500)] (sched registered)) as (l & A & B & C & _); [lia|done|by repeat constructor; exists minutely1|].
  exists l. split; [exact A|]. split; [exact B|exact C].
Defined.

(** The 31st of February: the run itself succeeds, its worker is gone. *)
Definition never : schedule :=
  mkSchedule (mkItem [0] 0 59 false) (mkItem [0] 0 23 false) (mkItem [31] 1 31 false) (mkItem [2] 1 12 false) (mkItem [] 0 6 true).
Example february_31st_ends_worker :
  (finish_task (Returned true) 5 q0 q0 true true (mkTask 1 (str "x") 0 (Some never) false q0) 0 new_scheduler).1 = Dead.
Proof. vm_compute. reflexivity. Qed.
End Demo.
