(* ===== verification/SimpleIni.v ===== *)
(** INI files: include/simpleini/simpleini.h as the settings use it (one value per key, one line
    per value, spaces around the equals sign), its data and its text, and the theorem that the
    text is read back as the data.

    A map of sections that is ordered by name and carries a load order is kept as the list of
    its sections in load order; a name is looked up ignoring the case of ASCII letters.
    Characters stand for themselves: the conversion between UTF-8 and wide characters is left
    out, and so is running out of memory. *)

From stdpp Require Import base list sets strings.
From Stdlib Require Import Ascii ZArith Lia.
From Stdlib Require String.
From S2P Require Import Prelude Strings NumberText.
Import String.StringSyntax.

(** ** Characters *)

Definition IsSpace (c : ascii) : bool := bool_decide (c ∈ [c_blank; c_tab; c_return; c_newline]).
Definition IsComment (c : ascii) : bool := bool_decide (c ∈ [";"%char; "#"%char]).
Definition IsNewLineChar (c : ascii) : bool := bool_decide (c ∈ [c_newline; c_return; Ascii.zero]).
Definition starts (p : ascii -> bool) (s : cppstring) : bool := match s with c :: _ => p c | [] => false end.
Definition SkipNewLine (s : cppstring) : cppstring :=
  match s with
  | c :: s' => if bool_decide (c = c_return) && starts (fun d => bool_decide (d = c_newline)) s' then drop 1 s' else s'
  | [] => []
  end.

(** [SI_GenericNoCase] *)
Definition locase (c : ascii) : ascii :=
  let n := nat_of_ascii c in if Nat.leb 65 n && Nat.leb n 90 then ascii_of_nat (n + 32) else c.
Definition fold_name (s : cppstring) : cppstring := map locase s.
Definition same_name (a b : cppstring) : bool := bool_decide (fold_name a = fold_name b).

(** ** Data *)

Record entry := mkEntry { e_name : cppstring; e_comment : option cppstring; e_value : cppstring }.
Record section := mkSection { s_name : cppstring; s_comment : option cppstring; s_keys : list entry }.
Record ini := mkIni { m_pFileComment : option cppstring; m_data : list section }.
Definition empty_ini : ini := mkIni None [].

Definition find_section (sec : cppstring) (l : list section) : option section := List.find (fun s => same_name sec (s_name s)) l.
Definition find_key (key : cppstring) (l : list entry) : option entry := List.find (fun e => same_name key (e_name e)) l.
Definition GetValue (d : list section) (sec key : cppstring) : option cppstring :=
  match find_section sec d with
  | Some s => match find_key key (s_keys s) with Some e => Some (e_value e) | None => None end
  | None => None
  end.
Definition GetSectionSize (d : list section) (sec : cppstring) : Z :=
  match find_section sec d with Some s => zlength (s_keys s) | None => -1 end.
(** The names as they are spelled; the callers sort them. *)
Definition GetAllSections (d : list section) : list cppstring := map s_name d.
Definition GetAllKeys (d : list section) (sec : cppstring) : list cppstring :=
  match find_section sec d with Some s => map e_name (s_keys s) | None => [] end.

(** [AddEntry]: an existing key keeps its spelling and its comment, an existing section its
    comment. *)
Fixpoint put_key (key value : cppstring) (comment : option cppstring) (l : list entry) : list entry :=
  match l with
  | [] => [mkEntry key comment value]
  | e :: l' => if same_name key (e_name e) then mkEntry (e_name e) (e_comment e) value :: l' else e :: put_key key value comment l'
  end.
Fixpoint put_section (sec : cppstring) (comment : option cppstring) (f : list entry -> list entry) (l : list section) : list section :=
  match l with
  | [] => [mkSection sec comment (f [])]
  | s :: l' =>
      if same_name sec (s_name s) then mkSection (s_name s) (s_comment s) (f (s_keys s)) :: l' else s :: put_section sec comment f l'
  end.
Definition AddEntry (sec : cppstring) (item : option (cppstring * cppstring)) (comment : option cppstring) (l : list section) : list section :=
  match item with
  | None => put_section sec comment (fun ks => ks) l
  | Some (k, v) => put_section sec None (put_key k v comment) l
  end.

(** [Delete]: one key, and its section when that leaves it empty and [a_bRemoveEmpty] is set; or
    a whole section. *)
Fixpoint Delete (sec : cppstring) (key : option cppstring) (a_bRemoveEmpty : bool) (l : list section) : list section :=
  match l with
  | [] => []
  | s :: l' =>
      if same_name sec (s_name s) then
        match key with
        | None => l'
        | Some k =>
            if negb (existsb (fun e => same_name k (e_name e)) (s_keys s)) then s :: l' else
            let ks := List.filter (fun e => negb (same_name k (e_name e))) (s_keys s) in
            if negb a_bRemoveEmpty || negb (bool_decide (ks = [])) then mkSection (s_name s) (s_comment s) ks :: l' else l'
        end
      else s :: Delete sec key a_bRemoveEmpty l'
  end.

(** ** Reading text *)

Definition skip_while (p : ascii -> bool) (s : cppstring) : cppstring := (span p s).2.
Definition trim_right (s : cppstring) : cppstring := rev (skip_while IsSpace (rev s)).
Definition in_line (c : ascii) : bool := negb (IsNewLineChar c).

(** Blank lines between comment lines: how many, and what follows them. *)
Fixpoint blank_lines (fuel : nat) (s : cppstring) (n : nat) : nat * cppstring :=
  match fuel, s with
  | S fuel', c :: s' =>
      if IsSpace c then if IsNewLineChar c then blank_lines fuel' (SkipNewLine s) (S n) else blank_lines fuel' s' n else (n, s)
  | _, _ => (n, s)
  end.
(** [LoadMultiLineText] without a tag: the comment that begins here and what follows it;
    [acc] is what was read. *)
Fixpoint load_comment (fuel : nat) (a_bAllowBlankLines : bool) (s acc : cppstring) : cppstring * cppstring :=
  match fuel with
  | O => (acc, s)
  | S fuel' =>
      if starts IsComment s then
        let '(line, r) := span in_line s in
        match r with
        | [] => (acc ++ line, [])
        | _ => load_comment fuel' a_bAllowBlankLines (SkipNewLine r) (acc ++ line ++ [c_newline])
        end
      else if negb a_bAllowBlankLines then (removelast acc, s)
      else
        let '(n, pCurr) := blank_lines (length s) s 0 in
        if starts IsComment pCurr then load_comment fuel' a_bAllowBlankLines pCurr (acc ++ replicate n c_newline) else (removelast acc, s)
  end.
Definition comment_fuel (s : cppstring) : nat := S (2 * length s).

(** The section that entries go to.  A header without its bracket leaves the name open: it
    runs on to the next string the parser ends. *)
Inductive current := named (name : cppstring) | running (from : cppstring).
(** The text of a running name before the rest [s], ended by [piece]. *)
Definition end_name (cur : current) (s piece : cppstring) : current :=
  match cur with named _ => cur | running from => named (take (length from - length s) from ++ piece) end.
Definition name_of (cur : current) : cppstring := match cur with named n => n | running from => from end.

Inductive found := found_section (name : cppstring) | found_pair (key value : cppstring).

(** [FindEntry]: the next entry with its comment, and the state behind it. *)
Fixpoint FindEntry (fuel : nat) (s : cppstring) (cur : current) (comment : option cppstring) : option (found * option cppstring * current * cppstring) :=
  match fuel with
  | O => None
  | S fuel' =>
      let s := skip_while IsSpace s in
      match s with
      | [] => None
      | c :: s' =>
          if IsComment c then
            let '(text, r) := load_comment (comment_fuel s) true s [] in FindEntry fuel' r (end_name cur s text) (Some text)
          else if bool_decide (c = "["%char) then
            let t := skip_while IsSpace s' in
            let '(name, r) := span (fun c => negb (bool_decide (c = "]"%char)) && in_line c) t in
            match r with
            | d :: r' =>
                if bool_decide (d = "]"%char) then
                  let name := trim_right name in Some (found_section name, comment, named name, skip_while in_line r')
                else FindEntry fuel' r (running t) comment
            | [] => FindEntry fuel' r (running t) comment
            end
          else
            let '(key, r) := span (fun c => negb (bool_decide (c = "="%char)) && in_line c) s in
            match r with
            | d :: r' =>
                if negb (bool_decide (d = "="%char)) then FindEntry fuel' r cur comment
                else if bool_decide (key = []) then FindEntry fuel' (skip_while in_line r) cur comment
                else
                  let key := trim_right key in
                  let '(value, rest) := span in_line (skip_while (fun c => in_line c && IsSpace c) r') in
                  Some (found_pair key (trim_right value), comment, end_name cur s key, SkipNewLine rest)
            | [] => FindEntry fuel' r cur comment
            end
      end
  end.

(** The loop of [LoadData]. *)
Fixpoint load_entries (fuel : nat) (s : cppstring) (cur : current) (l : list section) : list section :=
  match fuel with
  | O => l
  | S fuel' =>
      match FindEntry (S (length s)) s cur None with
      | None => l
      | Some (f, comment, cur', rest) =>
          load_entries fuel' rest cur'
            (AddEntry (name_of cur') (match f with found_section _ => None | found_pair k v => Some (k, v) end) comment l)
      end
  end.

Definition SI_UTF8_SIGNATURE : cppstring := ["239"%char; "187"%char; "191"%char].
Definition strip_signature (s : cppstring) : cppstring := if bool_decide (take 3 s = SI_UTF8_SIGNATURE) then drop 3 s else s.
(** [LoadData] of UTF-8 text into data that may be there already. *)
Definition LoadData (text : cppstring) (d : ini) : ini :=
  let s := (span (fun c => negb (bool_decide (c = Ascii.zero))) (strip_signature text)).1 in
  let '(comment, s) :=
    match m_pFileComment d with
    | Some c => (Some c, s)
    | None => if starts IsComment s then let '(c, r) := load_comment (comment_fuel s) false s [] in (Some c, r) else (None, s)
    end in
  mkIni comment (load_entries (S (length s)) s (named []) (m_data d)).

(** ** Writing text *)

Section Text.
(** [SI_NEWLINE_A]: CR LF on Windows, LF elsewhere *)
Context (newline : cppstring).

(** The lines of a text, the one behind its last line feed included. *)
Fixpoint text_lines (s : cppstring) : list cppstring :=
  match s with
  | [] => [[]]
  | c :: s' =>
      if bool_decide (c = c_newline) then [] :: text_lines s'
      else match text_lines s' with [] => [[c]] | l :: ls => (c :: l) :: ls end
  end.
Definition OutputMultiLineText (text : cppstring) : cppstring :=
  match text with [] => [] | _ => concat (map (fun l => l ++ newline) (text_lines text)) end.
Definition save_key (e : entry) : cppstring :=
  (match e_comment e with Some c => newline ++ OutputMultiLineText c | None => [] end) ++ e_name e ++ str " = " ++ e_value e ++ newline.
Definition save_section (bNeedNewLine : bool) (s : section) : cppstring :=
  (match s_comment s with
   | Some c => (if bNeedNewLine then newline ++ newline else []) ++ OutputMultiLineText c
   | None => if bNeedNewLine then newline ++ newline else []
   end) ++
  (if bool_decide (s_name s = []) then [] else str "[" ++ s_name s ++ str "]" ++ newline) ++
  concat (map save_key (s_keys s)).
Fixpoint save_sections (bNeedNewLine : bool) (l : list section) : cppstring :=
  match l with [] => [] | s :: l' => save_section bNeedNewLine s ++ save_sections true l' end.
Definition Save (m_bStoreIsUtf8 : bool) (d : ini) : cppstring :=
  (if m_bStoreIsUtf8 then SI_UTF8_SIGNATURE else []) ++
  (match m_pFileComment d with Some c => OutputMultiLineText c | None => [] end) ++
  save_sections (bool_decide (is_Some (m_pFileComment d))) (m_data d).
End Text.

(** ** What is read back *)

(** Sections and keys with their values, without the comments. *)
Definition bare_key (e : entry) : cppstring * cppstring := (e_name e, e_value e).
Definition bare (l : list section) : list (cppstring * list (cppstring * cppstring)) := map (fun s => (s_name s, map bare_key (s_keys s))) l.

Fixpoint bare_put (k v : cppstring) (l : list (cppstring * cppstring)) : list (cppstring * cppstring) :=
  match l with [] => [(k, v)] | e :: l' => if same_name k e.1 then (e.1, v) :: l' else e :: bare_put k v l' end.
Fixpoint bare_add (sec : cppstring) (f : list (cppstring * cppstring) -> list (cppstring * cppstring)) (l : list (cppstring * list (cppstring * cppstring))) :=
  match l with [] => [(sec, f [])] | s :: l' => if same_name sec s.1 then (s.1, f s.2) :: l' else s :: bare_add sec f l' end.
Definition bare_entry (sec : cppstring) (item : option (cppstring * cppstring)) (l : list (cppstring * list (cppstring * cppstring))) :=
  match item with None => bare_add sec (fun ks => ks) l | Some (k, v) => bare_add sec (bare_put k v) l end.

Lemma bare_put_key k v c l : map bare_key (put_key k v c l) = bare_put k v (map bare_key l).
Proof. induction l as [|e l IH]; cbn; [done|]. destruct (same_name k (e_name e)); cbn; [done|by rewrite IH]. Qed.
Lemma bare_AddEntry sec item c l : bare (AddEntry sec item c l) = bare_entry sec item (bare l).
Proof.
  destruct item as [[k v]|]; cbn; induction l as [|s l IH]; cbn; try done; destruct (same_name sec (s_name s)); cbn; rewrite ?bare_put_key, ?IH; done.
Qed.

Fixpoint bare_find (k : cppstring) (l : list (cppstring * cppstring)) : option cppstring :=
  match l with [] => None | e :: l' => if same_name k e.1 then Some e.2 else bare_find k l' end.
Fixpoint bare_value (l : list (cppstring * list (cppstring * cppstring))) (sec key : cppstring) : option cppstring :=
  match l with [] => None | s :: l' => if same_name sec s.1 then bare_find key s.2 else bare_value l' sec key end.
Lemma GetValue_bare l sec key : GetValue l sec key = bare_value (bare l) sec key.
Proof.
  unfold GetValue, find_section. induction l as [|s l IH]; cbn; [done|]. destruct (same_name sec (s_name s)); [|done].
  unfold find_key. induction (s_keys s) as [|e ks IHk]; cbn; [done|]. by destruct (same_name key (e_name e)).
Qed.

(** ** Lines *)

(** A written file: lines that are blank or a comment, headers and pairs. *)
Inductive item := Junk (line : cppstring) | Head (name : cppstring) | Pair (key value : cppstring).

Definition nonspace_ends (s : cppstring) : Prop := starts IsSpace s = false /\ starts IsSpace (rev s) = false.
Definition clean_section (n : cppstring) : Prop := n <> [] /\ nonspace_ends n /\ Forall (fun c => in_line c = true /\ c <> "]"%char) n.
Definition clean_key (k : cppstring) : Prop :=
  k <> [] /\ nonspace_ends k /\ starts IsComment k = false /\ head k <> Some "["%char /\ Forall (fun c => in_line c = true /\ c <> "="%char) k.
Definition clean_value (v : cppstring) : Prop := nonspace_ends v /\ Forall (fun c => in_line c = true) v.
Definition ok_item (i : item) : Prop :=
  match i with
  | Junk l => l = [] \/ starts IsComment l = true /\ Forall (fun c => in_line c = true) l
  | Head n => clean_section n
  | Pair k v => clean_key k /\ clean_value v
  end.

Lemma in_line_space c : in_line c = false -> c <> Ascii.zero -> IsSpace c = true.
Proof. destruct c as [[] [] [] [] [] [] [] []]; vm_compute; try done. Qed.
Lemma comment_no_space c : IsComment c = true -> IsSpace c = false.
Proof. destruct c as [[] [] [] [] [] [] [] []]; vm_compute; done. Qed.

Lemma skip_while_none p s : starts p s = false -> skip_while p s = s.
Proof. unfold skip_while. destruct s as [|c s]; cbn; [done|]. by intros ->. Qed.
Lemma skip_while_cons p c s : p c = true -> skip_while p (c :: s) = skip_while p s.
Proof. intros H. unfold skip_while. cbn. rewrite H. by destruct (span p s). Qed.
Lemma trim_right_id s : starts IsSpace (rev s) = false -> trim_right s = s.
Proof. intros H. unfold trim_right. rewrite skip_while_none by done. apply rev_involutive. Qed.
Lemma trim_right_blank s : starts IsSpace (rev s) = false -> trim_right (s ++ [c_blank]) = s.
Proof. intros H. unfold trim_right. rewrite rev_app_distr. cbn [rev app]. rewrite skip_while_cons by done. rewrite skip_while_none by done. apply rev_involutive. Qed.

Section ReadBack.
Context (newline : cppstring) (Hnl : newline = [c_newline] \/ newline = [c_return; c_newline]).

Definition item_text (i : item) : cppstring :=
  match i with
  | Junk l => l ++ newline
  | Head n => str "[" ++ n ++ str "]" ++ newline
  | Pair k v => k ++ str " = " ++ v ++ newline
  end.
Definition text (l : list item) : cppstring := concat (map item_text l).

Lemma skip_newline T : SkipNewLine (newline ++ T) = T.
Proof. by destruct Hnl as [-> | ->]. Qed.
Lemma skip_blank_line T : skip_while IsSpace (newline ++ T) = skip_while IsSpace T.
Proof. destruct Hnl as [-> | ->]; cbn [app]; by rewrite !skip_while_cons. Qed.
Lemma newline_ends T c r : newline ++ T = c :: r -> in_line c = false.
Proof. destruct Hnl as [-> | ->]; by intros [= <- _]. Qed.
Lemma span_line l T : Forall (fun c => in_line c = true) l -> span in_line (l ++ newline ++ T) = (l, newline ++ T).
Proof. intros Hl. apply span_exact; [done|]. intros c r. apply newline_ends. Qed.

Lemma blank_lines_skip fuel : forall s n, (length s <= fuel)%nat -> (blank_lines fuel s n).2 = skip_while IsSpace s.
Proof.
  induction fuel as [|fuel IH]; intros [|c s] n Hl; cbn [blank_lines length] in *; try done; [lia|].
  destruct (IsSpace c) eqn:Es; [|by rewrite skip_while_none]. rewrite skip_while_cons by done.
  destruct (IsNewLineChar c); [|apply IH; lia]. unfold SkipNewLine. destruct (bool_decide (c = c_return) && _) eqn:E.
  - apply andb_prop in E as [_ E]. destruct s as [|d s]; [done|]. cbn in E. apply bool_decide_eq_true in E as ->.
    change (drop 1 (c_newline :: s)) with s. cbn [length] in Hl. rewrite IH by lia. by rewrite skip_while_cons.
  - apply IH. lia.
Qed.

(** *** Blank lines and comments are passed over *)

Fixpoint drop_blank_lines (l : list item) : list item :=
  match l with Junk [] :: l' => drop_blank_lines l' | _ => l end.
Fixpoint first_entry (l : list item) : option (item * list item) :=
  match l with
  | [] => None
  | Junk _ :: l' => first_entry l'
  | Head n :: l' => Some (Head n, Junk [] :: l')
  | Pair k v :: l' => Some (Pair k v, l')
  end.
(** What is left of the items after some of the first blank lines and comments. *)
Inductive passed : list item -> list item -> Prop :=
| passed_refl l : passed l l
| passed_junk x l l' : passed l l' -> passed (Junk x :: l) l'.

Lemma passed_trans a b c : passed a b -> passed b c -> passed a c.
Proof. induction 1; [done|]. intros. constructor. auto. Qed.
Lemma passed_first a b : passed a b -> first_entry a = first_entry b.
Proof. induction 1; [done|]. by cbn. Qed.
Lemma passed_ok a b : passed a b -> Forall ok_item a -> Forall ok_item b.
Proof. induction 1; [done|]. intros Hf. inversion Hf; subst. auto. Qed.
Lemma passed_length a b : passed a b -> (length (text b) <= length (text a))%nat.
Proof. induction 1 as [|x l l' _ IH]; [done|]. unfold text in *. cbn. rewrite length_app. lia. Qed.
Lemma drop_blank_passed l : passed l (drop_blank_lines l).
Proof. induction l as [|[[|c x]|n|k v] l IH]; cbn; by constructor. Qed.
Lemma drop_blank_skip l : Forall ok_item l -> skip_while IsSpace (text l) = text (drop_blank_lines l).
Proof.
  induction 1 as [|i l Hi Hl IH]; [done|]. destruct i as [[|c x]|n|k v]; cbn [drop_blank_lines].
  - unfold text in *. cbn [map concat item_text app]. by rewrite skip_blank_line.
  - apply skip_while_none. destruct Hi as [?|[Hc _]]; [done|]. cbn in *. by apply comment_no_space.
  - by apply skip_while_none.
  - apply skip_while_none. destruct Hi as [(Hn & [Hs _] & _) _]. destruct k; [done|]. exact Hs.
Qed.
Lemma drop_blank_head l : match drop_blank_lines l with Junk [] :: _ => False | _ => True end.
Proof. induction l as [|[[|c x]|n|k v] l IH]; cbn; done. Qed.
Lemma text_cons i l : text (i :: l) = item_text i ++ text l.
Proof. done. Qed.
Lemma comment_start l : Forall ok_item l -> starts IsComment (text l) = true -> exists c x l', l = Junk (c :: x) :: l' /\ Forall (fun c => in_line c = true) (c :: x).
Proof.
  intros Hl. destruct Hl as [|i l Hi Hl]; [done|]. rewrite text_cons. destruct i as [[|c x]|n|k v]; cbn [item_text app].
  - by destruct Hnl as [-> | ->].
  - intros _. destruct Hi as [?|[_ Hi]]; [done|]. by exists c, x, l.
  - done.
  - destruct Hi as [(Hn & _ & Hc & _) _]. destruct k as [|c k]; [done|]. cbn in *. congruence.
Qed.

Lemma load_comment_items fuel allow : forall l acc, Forall ok_item l -> (length (text l) < fuel)%nat ->
  exists c l', load_comment fuel allow (text l) acc = (c, text l') /\ passed l l' /\
    (starts IsComment (text l) = true -> (length (text l') < length (text l))%nat).
Proof.
  induction fuel as [|fuel IH]; intros l acc Hl Hf; [lia|]. cbn [load_comment]. destruct (starts IsComment (text l)) eqn:Es.
  - destruct (comment_start l Hl Es) as (c & x & l' & -> & Hx). rewrite text_cons. cbn [item_text]. rewrite <-app_assoc, span_line by done.
    inversion Hl as [|? ? _ Hl']; subst. assert (length (text l') < length ((c :: x) ++ newline ++ text l'))%nat as Hlt by (rewrite !length_app; cbn; lia).
    rewrite text_cons in Hf. cbn [item_text] in Hf. rewrite <-app_assoc in Hf.
    destruct (newline ++ text l') as [|d r] eqn:E; [by destruct Hnl as [-> | ->]|]. rewrite <-E in *. rewrite skip_newline.
    destruct (IH l' (acc ++ (c :: x) ++ [c_newline]) Hl' ltac:(lia)) as (c' & l'' & Hc & Hp & _). exists c', l''.
    split; [exact Hc|]. split; [by constructor|]. intros _. pose proof (passed_length _ _ Hp). lia.
  - destruct allow; cbn [negb]; [|exists (removelast acc), l; by split_and!; try constructor].
    pose proof (blank_lines_skip (length (text l)) (text l) 0 (le_n _)) as Hb. destruct (blank_lines _ _ 0) as [n p]. cbn [snd] in Hb.
    rewrite drop_blank_skip in Hb by done. subst p. pose proof (drop_blank_passed l) as Hp.
    destruct (starts IsComment (text (drop_blank_lines l))) eqn:Ec; [|exists (removelast acc), l; by split_and!; try constructor].
    assert (length (text (drop_blank_lines l)) < length (text l))%nat as Hlt.
    { destruct Hp as [|x l0 l1 Hp]; [congruence|]. pose proof (passed_length _ _ Hp). rewrite text_cons. cbn [item_text].
      rewrite !length_app. destruct Hnl as [-> | ->]; cbn; lia. }
    destruct (IH (drop_blank_lines l) (acc ++ replicate n c_newline) (passed_ok _ _ Hp Hl) ltac:(lia)) as (c' & l'' & Hc & Hq & _).
    exists c', l''. split; [exact Hc|]. split; [by eapply passed_trans|done].
Qed.

(** *** Headers and pairs are read back *)

Definition as_found (i : item) : found := match i with Pair k v => found_pair k v | Head n => found_section n | Junk l => found_section l end.
Definition next_section (cur : cppstring) (i : item) : cppstring := match i with Head n => n | _ => cur end.

Lemma clean_span (q : ascii) n T : Forall (fun c => in_line c = true /\ c <> q) n ->
  span (fun c => negb (bool_decide (c = q)) && in_line c) (n ++ q :: T) = (n, q :: T).
Proof.
  intros Hn. apply span_exact.
  - eapply Forall_impl; [exact Hn|]. intros c [H1 H2]. cbn. by rewrite bool_decide_eq_false_2, H1.
  - intros c r [= <- _]. by rewrite bool_decide_eq_true_2.
Qed.
Lemma head_entry fuel n l cur com : clean_section n ->
  FindEntry (S fuel) (text (Head n :: l)) cur com = Some (found_section n, com, named n, text (Junk [] :: l)).
Proof.
  intros (Hne & [H1 H2] & Hn). rewrite !text_cons. cbn [item_text app FindEntry]. rewrite (skip_while_none IsSpace) by done.
  change (str "[") with ["["%char]. change (str "]") with ["]"%char]. cbn [app]. change (IsComment "["%char) with false. cbv iota beta.
  rewrite bool_decide_eq_true_2 by done. rewrite <-!app_assoc. cbn [app].
  rewrite (skip_while_none IsSpace) by (by destruct n). rewrite clean_span by done. rewrite bool_decide_eq_true_2 by done.
  rewrite trim_right_id by done. do 2 f_equal. apply skip_while_none. destruct (newline ++ text l) as [|c r] eqn:E; [done|]. by apply newline_ends in E.
Qed.
Lemma value_span v T : clean_value v ->
  span in_line (skip_while (fun c => in_line c && IsSpace c) (c_blank :: v ++ newline ++ T)) = (v, newline ++ T).
Proof.
  intros [[H1 _] Hv]. rewrite skip_while_cons by done. rewrite skip_while_none; [by apply span_line|].
  destruct v as [|c v]; cbn [app].
  - destruct (newline ++ T) as [|c r] eqn:E; [done|]. apply newline_ends in E. cbn. by rewrite E.
  - cbn in *. rewrite H1. apply andb_false_r.
Qed.
Lemma pair_entry fuel k v l cur com : clean_key k -> clean_value v ->
  FindEntry (S fuel) (text (Pair k v :: l)) (named cur) com = Some (found_pair k v, com, named cur, text l).
Proof.
  intros (Hne & [H1 H2] & Hc & Hb & Hk) Hv. rewrite text_cons. cbn [item_text FindEntry]. rewrite <-!app_assoc.
  change (str " = ") with [c_blank; "="%char; c_blank]. cbn [app]. rewrite (skip_while_none IsSpace) by (by destruct k).
  destruct k as [|c k]; [done|]. cbn [app]. cbn in Hc, Hb. rewrite Hc, bool_decide_eq_false_2 by congruence.
  change (c :: k ++ c_blank :: "="%char :: c_blank :: v ++ newline ++ text l) with ((c :: k) ++ c_blank :: "="%char :: c_blank :: v ++ newline ++ text l).
  replace ((c :: k) ++ c_blank :: "="%char :: c_blank :: v ++ newline ++ text l) with (((c :: k) ++ [c_blank]) ++ "="%char :: c_blank :: v ++ newline ++ text l)
    by by rewrite <-app_assoc.
  rewrite clean_span by (apply Forall_app; split; [done|]; by repeat constructor). rewrite bool_decide_eq_true_2 by done. cbn [negb].
  rewrite bool_decide_eq_false_2 by done. rewrite trim_right_blank by done. rewrite value_span by done.
  rewrite trim_right_id by apply Hv. by rewrite skip_newline.
Qed.

Lemma FindEntry_items fuel : forall l cur com, Forall ok_item l -> (length (text l) < fuel)%nat ->
  match first_entry l with
  | None => FindEntry fuel (text l) (named cur) com = None
  | Some (i, l') => exists com', FindEntry fuel (text l) (named cur) com = Some (as_found i, com', named (next_section cur i), text l')
  end.
Proof.
  induction fuel as [|fuel IH]; intros l cur com Hl Hf; [lia|].
  pose proof (drop_blank_passed l) as Hp. rewrite (passed_first _ _ Hp). pose proof (passed_ok _ _ Hp Hl) as Hd. pose proof (passed_length _ _ Hp) as Hlen.
  assert (FindEntry (S fuel) (text l) (named cur) com = FindEntry (S fuel) (text (drop_blank_lines l)) (named cur) com) as ->.
  { cbn [FindEntry]. rewrite drop_blank_skip by done. rewrite (drop_blank_skip (drop_blank_lines l)) by done.
    assert (drop_blank_lines (drop_blank_lines l) = drop_blank_lines l) as -> by (pose proof (drop_blank_head l); by destruct (drop_blank_lines l) as [|[[|]| |] ?]). done. }
  pose proof (drop_blank_head l) as Hh. destruct (drop_blank_lines l) as [|i r]; [done|]. destruct i as [[|c x]|n|k v]; [done| | |].
  - destruct (load_comment_items (comment_fuel (text (Junk (c :: x) :: r))) true (Junk (c :: x) :: r) [] Hd ltac:(unfold comment_fuel; lia)) as (t & l' & Hc & Hq & Hlt).
    assert (IsComment c = true) as Ec by (inversion Hd as [|? ? Hx _]; subst; destruct Hx as [?|[Hx _]]; [done|exact Hx]).
    assert (starts IsComment (text (Junk (c :: x) :: r)) = true) as Es by exact Ec. specialize (Hlt Es).
    assert (FindEntry (S fuel) (text (Junk (c :: x) :: r)) (named cur) com = FindEntry fuel (text l') (named cur) (Some t)) as ->.
    { cbn [FindEntry]. rewrite (skip_while_none IsSpace (text (Junk (c :: x) :: r))) by (cbn; by apply comment_no_space). rewrite Hc.
      cbn [text map concat item_text app]. by rewrite Ec. }
    rewrite (passed_first _ _ Hq). apply IH; [by eapply passed_ok|lia].
  - inversion Hd; subst. exists com. by apply head_entry.
  - inversion Hd as [|? ? Hx _]; subst. destruct Hx as [Hk Hv]. exists com. by apply pair_entry.
Qed.

(** The items as entries, in the section they stand in. *)
Fixpoint run_items (l : list item) (cur : cppstring) (b : list (cppstring * list (cppstring * cppstring))) :=
  match l with
  | [] => b
  | Junk _ :: l' => run_items l' cur b
  | Head n :: l' => run_items l' n (bare_entry n None b)
  | Pair k v :: l' => run_items l' cur (bare_entry cur (Some (k, v)) b)
  end.
Lemma run_first l cur b : run_items l cur b =
  match first_entry l with
  | None => b
  | Some (i, l') => run_items l' (next_section cur i) (bare_entry (next_section cur i) (match i with Pair k v => Some (k, v) | _ => None end) b)
  end.
Proof. induction l as [|[x|n|k v] l IH]; cbn; done. Qed.
Lemma first_entry_spec l i l' : Forall ok_item l -> first_entry l = Some (i, l') ->
  Forall ok_item l' /\ (length (text l') < length (text l))%nat /\ match i with Junk _ => False | _ => True end.
Proof.
  induction 1 as [|j l Hj Hl IH]; [done|]. destruct j as [x|n|k v]; cbn [first_entry].
  - intros E. destruct (IH E) as (H1 & H2 & H3). split; [done|]. split; [|done]. rewrite text_cons, length_app. lia.
  - intros [= <- <-]. split; [constructor; [by left|done]|]. split; [|done]. rewrite !text_cons, !length_app. cbn. rewrite !length_app. cbn. lia.
  - intros [= <- <-]. split; [done|]. split; [|done]. rewrite text_cons, length_app. cbn. rewrite !length_app. cbn. lia.
Qed.
Lemma load_entries_items fuel : forall l cur d, Forall ok_item l -> (length (text l) < fuel)%nat ->
  bare (load_entries fuel (text l) (named cur) d) = run_items l cur (bare d).
Proof.
  induction fuel as [|fuel IH]; intros l cur d Hl Hf; [lia|]. cbn [load_entries]. rewrite run_first.
  pose proof (FindEntry_items (S (length (text l))) l cur None Hl ltac:(lia)) as Hfind.
  destruct (first_entry l) as [[i l']|] eqn:E; [|by rewrite Hfind]. destruct Hfind as [com' ->].
  destruct (first_entry_spec l i l' Hl E) as (Hl' & Hlt & Hi). rewrite IH by (done || lia). rewrite bare_AddEntry. by destruct i.
Qed.

(** *** The items of a file *)

Definition comment_items (c : option cppstring) : list item :=
  match c with Some [] | None => [] | Some t => map Junk (text_lines t) end.
Definition key_items (e : entry) : list item :=
  (match e_comment e with Some _ => [Junk []] | None => [] end) ++ comment_items (e_comment e) ++ [Pair (e_name e) (e_value e)].
Definition section_items (bNeedNewLine : bool) (s : section) : list item :=
  (if bNeedNewLine then [Junk []; Junk []] else []) ++ comment_items (s_comment s) ++
  (if bool_decide (s_name s = []) then [] else [Head (s_name s)]) ++ concat (map key_items (s_keys s)).
Fixpoint sections_items (bNeedNewLine : bool) (l : list section) : list item :=
  match l with [] => [] | s :: l' => section_items bNeedNewLine s ++ sections_items true l' end.
Definition ini_items (d : ini) : list item :=
  comment_items (m_pFileComment d) ++ sections_items (bool_decide (is_Some (m_pFileComment d))) (m_data d).

Lemma text_app a b : text (a ++ b) = text a ++ text b.
Proof. unfold text. by rewrite map_app, concat_app. Qed.
Lemma comment_text c : text (comment_items c) = match c with Some t => OutputMultiLineText newline t | None => [] end.
Proof.
  destruct c as [[|x t]|]; [done| |done]. unfold comment_items, OutputMultiLineText, text. by rewrite map_map.
Qed.
Lemma keys_text ks : text (concat (map key_items ks)) = concat (map (save_key newline) ks).
Proof.
  induction ks as [|e ks IH]; [done|]. cbn [map concat]. rewrite text_app, IH. f_equal. unfold key_items, save_key.
  rewrite !text_app, comment_text. destruct (e_comment e); cbn [text map concat item_text app]; rewrite ?app_nil_r; by rewrite <-?app_assoc.
Qed.
Lemma sections_text l : forall b, text (sections_items b l) = save_sections newline b l.
Proof.
  induction l as [|s l IH]; intros b; [done|]. cbn [sections_items save_sections]. rewrite text_app, IH. f_equal.
  unfold section_items, save_section. rewrite !text_app, comment_text, keys_text. rewrite (app_assoc (text _)). f_equal; [|f_equal].
  - destruct b, (s_comment s); cbn [text map concat item_text app]; rewrite ?app_nil_r; by rewrite <-?app_assoc.
  - destruct (bool_decide _); [done|]. cbn [text map concat item_text]. by rewrite app_nil_r.
Qed.
Lemma Save_items utf8 d : Save newline utf8 d = (if utf8 then SI_UTF8_SIGNATURE else []) ++ text (ini_items d).
Proof. unfold Save, ini_items. by rewrite text_app, comment_text, sections_text. Qed.

(** ** Data that can be written *)

Definition ok_line (l : cppstring) : Prop := ok_item (Junk l).
Definition ok_comment (c : option cppstring) : Prop := match c with Some t => Forall ok_line (text_lines t) | None => True end.
Record sound_entry (e : entry) : Prop := {
  se_key : clean_key (e_name e);
  se_value : clean_value (e_value e);
  se_comment : ok_comment (e_comment e)
}.
Record sound_section (s : section) : Prop := {
  ss_name : s_name s = [] \/ clean_section (s_name s);
  ss_comment : ok_comment (s_comment s);
  ss_keys : Forall sound_entry (s_keys s);
  ss_unique : NoDup (map (fun e => fold_name (e_name e)) (s_keys s))
}.
Record sound_ini (d : ini) : Prop := {
  si_comment : ok_comment (m_pFileComment d);
  si_sections : Forall sound_section (m_data d);
  si_unique : NoDup (map (fun s => fold_name (s_name s)) (m_data d));
  (** the section without a name has no header: it comes first, and not without keys *)
  si_named : Forall (fun s => s_name s <> []) (tail (m_data d));
  si_first : match m_data d with s :: _ => s_name s = [] -> s_keys s <> [] | [] => True end
}.

Lemma comment_items_ok c : ok_comment c -> Forall ok_item (comment_items c).
Proof. destruct c as [[|x t]|]; [constructor| |constructor]. unfold comment_items. intros Hc. apply Forall_map. exact Hc. Qed.
Lemma key_items_ok e : sound_entry e -> Forall ok_item (key_items e).
Proof.
  intros [H1 H2 H3]. unfold key_items. rewrite !Forall_app. split; [|split].
  - destruct (e_comment e); [|constructor]. constructor; [by left|constructor].
  - by apply comment_items_ok.
  - constructor; [by split|constructor].
Qed.
Lemma sections_items_ok l : Forall sound_section l -> forall b, Forall ok_item (sections_items b l).
Proof.
  induction 1 as [|s l [H1 H2 H3 _] Hl IH]; intros b; [constructor|]. cbn [sections_items]. unfold section_items. rewrite !Forall_app. split; [split; [|split; [|split]]|apply IH].
  - destruct b; [|constructor]. by repeat (constructor; [by left|]).
  - by apply comment_items_ok.
  - case_bool_decide; [constructor|]. constructor; [|constructor]. by destruct H1.
  - apply Forall_concat, Forall_map. eapply Forall_impl; [exact H3|]. apply key_items_ok.
Qed.
Lemma ini_items_ok d : sound_ini d -> Forall ok_item (ini_items d).
Proof. intros [H1 H2 _ _ _]. unfold ini_items. apply Forall_app. split; [by apply comment_items_ok|by apply sections_items_ok]. Qed.

Lemma run_app a : forall b cur c, Forall (fun i => match i with Junk _ => True | _ => False end) a -> run_items (a ++ b) cur c = run_items b cur c.
Proof. induction a as [|[x|n|k v] a IH]; intros b cur c Ha; inversion Ha; subst; try done. by apply IH. Qed.
Lemma comment_items_junk c : Forall (fun i => match i with Junk _ => True | _ => False end) (comment_items c).
Proof. destruct c as [[|x t]|]; [constructor| |constructor]. apply Forall_map. by apply Forall_forall. Qed.

Lemma bare_add_last sec f b ks : Forall (fun s => fold_name s.1 <> fold_name sec) b -> bare_add sec f (b ++ [(sec, ks)]) = b ++ [(sec, f ks)].
Proof.
  induction 1 as [|s b Hs Hb IH]; cbn; unfold same_name; [by rewrite bool_decide_eq_true_2|]. rewrite bool_decide_eq_false_2 by congruence. by rewrite IH.
Qed.
Lemma bare_add_new sec f b : Forall (fun s => fold_name s.1 <> fold_name sec) b -> bare_add sec f b = b ++ [(sec, f [])].
Proof. induction 1 as [|s b Hs Hb IH]; cbn; [done|]. unfold same_name. rewrite bool_decide_eq_false_2 by congruence. by rewrite IH. Qed.
Lemma bare_put_new k v ks : Forall (fun e => fold_name e.1 <> fold_name k) ks -> bare_put k v ks = ks ++ [(k, v)].
Proof. induction 1 as [|e ks He Hk IH]; cbn; [done|]. unfold same_name. rewrite bool_decide_eq_false_2 by congruence. by rewrite IH. Qed.

Lemma run_keys sec b rest : Forall (fun s => fold_name s.1 <> fold_name sec) b -> forall ks dn,
  NoDup (map (fun e => fold_name e.1) dn ++ map (fun e => fold_name (e_name e)) ks) ->
  run_items (concat (map key_items ks) ++ rest) sec (b ++ [(sec, dn)]) = run_items rest sec (b ++ [(sec, dn ++ map bare_key ks)]).
Proof.
  intros Hb. induction ks as [|e ks IH]; intros dn Hn; cbn [map concat app]; [by rewrite app_nil_r|].
  unfold key_items at 1. rewrite <-!app_assoc. rewrite run_app by (destruct (e_comment e); by repeat constructor).
  rewrite run_app by apply comment_items_junk. cbn [app run_items bare_entry]. rewrite bare_add_last by done.
  rewrite bare_put_new.
  - rewrite IH; [by rewrite <-app_assoc|]. rewrite map_app. cbn [map]. by rewrite <-app_assoc.
  - apply Forall_forall. intros e' He' E. apply NoDup_app in Hn as (_ & Hd & _). apply (Hd (fold_name e'.1)).
    + apply list_elem_of_fmap. eauto.
    + rewrite E. cbn. left.
Qed.
Lemma run_sections l : forall need b cur, Forall sound_section l -> Forall (fun s => s_name s <> []) l ->
  NoDup (map (fun s => fold_name s.1) b ++ map (fun s => fold_name (s_name s)) l) ->
  run_items (sections_items need l) cur b = b ++ bare l.
Proof.
  induction l as [|s l IH]; intros need b cur Hs Hne Hn; [by rewrite app_nil_r|]. inversion Hs as [|? ? H1 Hs']; inversion Hne as [|? ? H2 Hne']; subst.
  cbn [sections_items]. unfold section_items. rewrite <-!app_assoc. rewrite run_app by (destruct need; by repeat constructor).
  rewrite run_app by apply comment_items_junk. rewrite bool_decide_eq_false_2 by done. cbn [app run_items bare_entry].
  assert (Forall (fun x => fold_name x.1 <> fold_name (s_name s)) b) as Hb.
  { apply Forall_forall. intros x Hx E. apply NoDup_app in Hn as (_ & Hd & _). apply (Hd (fold_name x.1)); [apply list_elem_of_fmap; eauto|]. rewrite E. left. }
  rewrite bare_add_new, (run_keys (s_name s) b _ Hb _ []) by (done || apply H1). cbn [app]. rewrite IH.
  - by rewrite <-app_assoc.
  - done.
  - done.
  - rewrite map_app. cbn [map fst]. by rewrite <-app_assoc.
Qed.
Lemma run_ini d : sound_ini d -> run_items (ini_items d) [] [] = bare (m_data d).
Proof.
  intros [_ H2 H3 H4 H5]. unfold ini_items. rewrite run_app by apply comment_items_junk. destruct (m_data d) as [|s l]; [done|].
  cbn [tail] in H4. destruct (decide (s_name s = [])) as [E|N].
  - inversion H2 as [|? ? [_ _ _ Hu] H2']; subst. cbn [sections_items]. unfold section_items. rewrite <-!app_assoc.
    rewrite run_app by (by destruct (bool_decide _); repeat constructor). rewrite run_app by apply comment_items_junk.
    rewrite bool_decide_eq_true_2 by done. cbn [app]. specialize (H5 E). destruct (s_keys s) as [|e ks] eqn:Ek; [done|].
    cbn [map concat]. rewrite <-app_assoc. unfold key_items at 1. rewrite <-!app_assoc.
    rewrite run_app by (destruct (e_comment e); by repeat constructor). rewrite run_app by apply comment_items_junk.
    cbn [app run_items bare_entry bare_add bare_put]. change [([] : cppstring, [(e_name e, e_value e)])] with ([] ++ [([] : cppstring, [bare_key e])]).
    rewrite (run_keys [] [] _ ltac:(constructor) ks [bare_key e]) by (cbn; exact Hu). cbn [app]. rewrite run_sections; try done.
    + cbn. by rewrite E, Ek.
    + cbn [map fst app]. cbn [map] in H3. by rewrite E in H3.
  - apply run_sections; try done. by constructor.
Qed.

Lemma passed_run a b : passed a b -> forall cur c, run_items a cur c = run_items b cur c.
Proof. induction 1; intros; cbn; auto. Qed.
Lemma in_line_nul l : Forall (fun c => in_line c = true) l -> Ascii.zero ∉ l.
Proof. rewrite Forall_forall. intros Hl Hin. by apply Hl in Hin. Qed.
Lemma item_no_nul i : ok_item i -> Ascii.zero ∉ item_text i.
Proof.
  assert (Ascii.zero ∉ newline) as Hn by (destruct Hnl as [-> | ->]; vm_decide).
  destruct i as [l|n|k v]; cbn [item_text]; intros Hi; rewrite !not_elem_of_app; split_and!; try done; try vm_decide.
  - apply in_line_nul. destruct Hi as [->|[_ Hi]]; [constructor|done].
  - apply in_line_nul. destruct Hi as (_ & _ & Hi). eapply Forall_impl; [exact Hi|]. tauto.
  - apply in_line_nul. destruct Hi as [(_ & _ & _ & _ & Hi) _]. eapply Forall_impl; [exact Hi|]. tauto.
  - apply in_line_nul. by destruct Hi as [_ [_ Hi]].
Qed.
Lemma text_no_nul l : Forall ok_item l -> span (fun c => negb (bool_decide (c = Ascii.zero))) (text l) = (text l, []).
Proof.
  intros Hl. rewrite <-(app_nil_r (text l)) at 1. apply span_exact; [|done]. apply Forall_forall. intros c Hc. rewrite bool_decide_eq_false_2; [done|].
  intros ->. induction Hl as [|i l Hi Hl IH]; [by apply elem_of_nil in Hc|]. rewrite text_cons, elem_of_app in Hc. destruct Hc as [Hc|Hc]; [by apply item_no_nul in Hc|auto].
Qed.

(** Data that was not read as UTF-8 is written without the signature, and does not begin with
    one by itself when every section has a name. *)
Definition sound_file (utf8 : bool) (d : ini) : Prop := sound_ini d /\ (utf8 = true \/ Forall (fun s => s_name s <> []) (m_data d)).

Lemma strip_written utf8 d : sound_file utf8 d -> strip_signature (Save newline utf8 d) = text (ini_items d).
Proof.
  intros [Hd Hu]. rewrite Save_items. destruct utf8; [reflexivity|]. destruct Hu as [?|Hu]; [done|]. cbn [app].
  assert (forall c r, text (ini_items d) = c :: r -> c <> "239"%char) as Hc.
  { pose proof (ini_items_ok d Hd) as Hok. assert (match ini_items d with Pair _ _ :: _ => False | _ => True end) as Hp.
    { unfold ini_items. destruct (comment_items_junk (m_pFileComment d)) as [|i ? Hi _]; [|by destruct i].
      destruct (m_data d) as [|s l]; [done|]. inversion Hu; subst. cbn [app sections_items]. unfold section_items. destruct (bool_decide (is_Some _)); [done|].
      cbn [app]. destruct (comment_items_junk (s_comment s)) as [|i ? Hi _]; [|by destruct i]. by rewrite bool_decide_eq_false_2. }
    destruct Hok as [|i l Hi _]; [done|]. rewrite text_cons. destruct i as [[|x l']|n|k v]; cbn [item_text app]; [| |by intros c r [= <- _]|done].
    - destruct Hnl as [-> | ->]; by intros c r [= <- _].
    - intros c r [= <- _] ->. by destruct Hi as [?|[? _]]. }
  unfold strip_signature. rewrite bool_decide_eq_false_2; [done|]. destruct (text (ini_items d)) as [|c r]; [done|]. intros [= -> _]. by apply (Hc _ _ eq_refl).
Qed.

(** What is saved is what is loaded: a new reader of the written text has every section and key
    in order, spelled as it was, with its value. *)
Theorem written_ini_is_read_back (utf8 : bool) (d : ini) : sound_file utf8 d ->
  let d' := LoadData (Save newline utf8 d) empty_ini in
  bare (m_data d') = bare (m_data d) /\ forall sec key, GetValue (m_data d') sec key = GetValue (m_data d) sec key.
Proof.
  intros Hf. enough (bare (m_data (LoadData (Save newline utf8 d) empty_ini)) = bare (m_data d)) as E.
  { cbv zeta. split; [exact E|]. intros sec key. by rewrite !GetValue_bare, E. }
  unfold LoadData. rewrite strip_written by done. destruct Hf as [Hd _]. pose proof (ini_items_ok d Hd) as Hok. rewrite text_no_nul by done. cbn [fst].
  cbn [m_pFileComment empty_ini]. destruct (starts IsComment (text (ini_items d))).
  - destruct (load_comment_items (comment_fuel (text (ini_items d))) false (ini_items d) [] Hok ltac:(unfold comment_fuel; lia)) as (c & l' & -> & Hp & _).
    cbn [m_data]. rewrite load_entries_items by (done || lia || by eapply passed_ok). rewrite <-(passed_run _ _ Hp). by apply run_ini.
  - cbn [m_data]. rewrite load_entries_items by (done || lia). by apply run_ini.
Qed.
End ReadBack.

(** ** What the operations do to the values *)

Lemma same_name_eq a b c : same_name a b = true -> same_name a c = same_name b c.
Proof. unfold same_name. intros E%bool_decide_eq_true. by rewrite E. Qed.
Lemma same_name_refl a : same_name a a = true.
Proof. by apply bool_decide_eq_true. Qed.
Lemma same_name_sym a b : same_name a b = same_name b a.
Proof. unfold same_name. apply bool_decide_ext. split; congruence. Qed.
Lemma same_name_false a b c : same_name a b = true -> same_name a c = false -> same_name b c = false.
Proof. intros E <-. symmetry. by apply same_name_eq. Qed.

Lemma put_key_find k v c l k' : find_key k' (put_key k v c l) =
  if same_name k k' then Some (match find_key k l with Some e => mkEntry (e_name e) (e_comment e) v | None => mkEntry k c v end) else find_key k' l.
Proof.
  unfold find_key. induction l as [|e l IH]; cbn.
  - rewrite same_name_sym. by destruct (same_name k k').
  - destruct (same_name k (e_name e)) eqn:E; cbn.
    + rewrite (same_name_eq k (e_name e)) by done. rewrite same_name_sym. by destruct (same_name (e_name e) k').
    + rewrite IH. destruct (same_name k k') eqn:Ek; [|done]. rewrite <-(same_name_eq k k') by done. by rewrite E.
Qed.
Lemma put_section_find sec c f l sec' : find_section sec' (put_section sec c f l) =
  if same_name sec sec' then Some (match find_section sec l with Some s => mkSection (s_name s) (s_comment s) (f (s_keys s)) | None => mkSection sec c (f []) end)
  else find_section sec' l.
Proof.
  unfold find_section. induction l as [|s l IH]; cbn.
  - rewrite same_name_sym. by destruct (same_name sec sec').
  - destruct (same_name sec (s_name s)) eqn:E; cbn.
    + rewrite (same_name_eq sec (s_name s)) by done. rewrite same_name_sym. by destruct (same_name (s_name s) sec').
    + rewrite IH. destruct (same_name sec sec') eqn:Ek; [|done]. rewrite <-(same_name_eq sec sec') by done. by rewrite E.
Qed.
Lemma GetValue_same l sec sec' key key' : same_name sec sec' = true -> same_name key key' = true -> GetValue l sec key = GetValue l sec' key'.
Proof.
  intros H1 H2. rewrite !GetValue_bare. induction (bare l) as [|s b IH]; cbn; [done|]. rewrite (same_name_eq sec sec') by done.
  destruct (same_name sec' s.1); [|done]. induction s.2 as [|e ks IHk]; cbn; [done|]. rewrite (same_name_eq key key') by done. by destruct (same_name key' e.1).
Qed.

Lemma GetValue_AddEntry sec k v c l sec' k' :
  GetValue (AddEntry sec (Some (k, v)) c l) sec' k' = if same_name sec sec' && same_name k k' then Some v else GetValue l sec' k'.
Proof.
  unfold GetValue, AddEntry. rewrite put_section_find. destruct (same_name sec sec') eqn:E; cbn [andb]; [|done].
  assert (find_section sec' l = find_section sec l) as ->.
  { unfold find_section. induction l as [|s l IH]; cbn; [done|]. rewrite (same_name_eq sec sec') by done. by destruct (same_name sec' (s_name s)). }
  destruct (find_section sec l) as [s|]; cbn [s_keys]; rewrite put_key_find; destruct (same_name k k'); try done.
  by destruct (find_key k (s_keys s)).
Qed.
Lemma GetValue_AddSection sec c l sec' k' : GetValue (AddEntry sec None c l) sec' k' = GetValue l sec' k'.
Proof.
  unfold GetValue, AddEntry. rewrite put_section_find. destruct (same_name sec sec') eqn:E; [|done].
  assert (find_section sec' l = find_section sec l) as ->.
  { unfold find_section. induction l as [|s l IH]; cbn; [done|]. rewrite (same_name_eq sec sec') by done. by destruct (same_name sec' (s_name s)). }
  by destruct (find_section sec l).
Qed.

Definition unique (l : list section) : Prop := NoDup (map (fun s => fold_name (s_name s)) l).
Lemma find_section_none sec l : fold_name sec ∉ map (fun s => fold_name (s_name s)) l -> find_section sec l = None.
Proof.
  induction l as [|s l IH]; cbn; [done|]. rewrite not_elem_of_cons. intros [Hs Hl]. unfold same_name. rewrite bool_decide_eq_false_2 by done. auto.
Qed.
Lemma find_key_filter k l k' :
  find_key k' (List.filter (fun e => negb (same_name k (e_name e))) l) = if same_name k k' then None else find_key k' l.
Proof.
  unfold find_key. induction l as [|e l IH]; cbn; [by destruct (same_name k k')|]. destruct (same_name k (e_name e)) eqn:E; cbn.
  - rewrite IH. destruct (same_name k k') eqn:E'; [done|]. rewrite (same_name_sym k'). by rewrite (same_name_false k (e_name e) k').
  - rewrite IH. destruct (same_name k k') eqn:E'; [|done]. rewrite <-(same_name_eq k k') by done. by rewrite E.
Qed.
Lemma find_key_absent k l : existsb (fun e => same_name k (e_name e)) l = false -> find_key k l = None.
Proof. induction l as [|e l IH]; cbn; [done|]. intros [-> H]%orb_false_iff. auto. Qed.

Lemma GetValue_Delete sec k remove_empty l sec' k' : unique l ->
  GetValue (Delete sec (Some k) remove_empty l) sec' k' = if same_name sec sec' && same_name k k' then None else GetValue l sec' k'.
Proof.
  unfold unique. induction l as [|s l IH]; intros Hu; [cbn; by destruct (_ && _)|]. cbn [map] in Hu. apply NoDup_cons in Hu as [Hn Hu]. cbn [Delete].
  destruct (same_name sec (s_name s)) eqn:E.
  - rewrite (same_name_eq sec (s_name s) sec'), (same_name_sym (s_name s) sec') by done.
    assert (same_name sec' (s_name s) = true -> find_section sec' l = None) as Hnone.
    { intros Es%bool_decide_eq_true. apply find_section_none. congruence. }
    destruct (existsb _ (s_keys s)) eqn:Ex; cbn [negb].
    + set (ks := List.filter _ _). assert (forall x, find_key x ks = if same_name k x then None else find_key x (s_keys s)) as Hks by (intros; apply find_key_filter).
      clearbody ks. unfold GetValue, find_section in *. destruct (negb remove_empty || negb (bool_decide (ks = []))) eqn:Ek; cbn [List.find s_name];
        destruct (same_name sec' (s_name s)); cbn [andb s_keys]; try done.
      * rewrite Hks. by destruct (same_name k k').
      * rewrite Hnone by done. apply orb_false_iff in Ek as [_ Ek]. apply negb_false_iff, bool_decide_eq_true in Ek.
        specialize (Hks k'). rewrite Ek in Hks. cbn in Hks. destruct (same_name k k'); [done|]. by rewrite <-Hks.
    + destruct (same_name sec' (s_name s) && same_name k k') eqn:Eb; [|done]. apply andb_prop in Eb as [E1 E2].
      rewrite <-(GetValue_same _ sec sec' k k'); [|by rewrite (same_name_eq sec (s_name s)), same_name_sym by done|done].
      unfold GetValue. cbn. rewrite E. by rewrite find_key_absent.
  - unfold GetValue in *. cbn [find_section List.find]. destruct (same_name sec' (s_name s)) eqn:Es; [|by apply IH].
    destruct (same_name sec sec') eqn:E2; [|done]. by rewrite (same_name_eq sec sec'), Es in E by done.
Qed.

(** ** Writable data stays writable *)

Lemma put_key_cases k v c l :
  (exists l1 e l2, l = l1 ++ e :: l2 /\ same_name k (e_name e) = true /\ put_key k v c l = l1 ++ mkEntry (e_name e) (e_comment e) v :: l2) \/
  Forall (fun e => same_name k (e_name e) = false) l /\ put_key k v c l = l ++ [mkEntry k c v].
Proof.
  induction l as [|e l IH]; cbn; [by right|]. destruct (same_name k (e_name e)) eqn:E; [left; by exists [], e, l|].
  destruct IH as [(l1 & e' & l2 & -> & H1 & ->)|[H1 ->]]; [left; by exists (e :: l1), e', l2|right; by split; [constructor|]].
Qed.
Lemma put_section_cases sec c f l :
  (exists l1 s l2, l = l1 ++ s :: l2 /\ same_name sec (s_name s) = true /\ put_section sec c f l = l1 ++ mkSection (s_name s) (s_comment s) (f (s_keys s)) :: l2) \/
  Forall (fun s => same_name sec (s_name s) = false) l /\ put_section sec c f l = l ++ [mkSection sec c (f [])].
Proof.
  induction l as [|s l IH]; cbn; [by right|]. destruct (same_name sec (s_name s)) eqn:E; [left; by exists [], s, l|].
  destruct IH as [(l1 & e' & l2 & -> & H1 & ->)|[H1 ->]]; [left; by exists (s :: l1), e', l2|right; by split; [constructor|]].
Qed.
Lemma fresh_name {A} (name : A -> cppstring) n l : Forall (fun x => same_name n (name x) = false) l ->
  NoDup (map (fun x => fold_name (name x)) l) -> NoDup (map (fun x => fold_name (name x)) l ++ [fold_name n]).
Proof.
  intros Hl Hn. apply NoDup_app. split; [done|]. split; [|apply NoDup_singleton]. intros x (y & -> & Hy)%list_elem_of_fmap Hx%list_elem_of_singleton.
  rewrite Forall_forall in Hl. specialize (Hl y Hy). apply bool_decide_eq_false in Hl. congruence.
Qed.

Definition sound_keys (ks : list entry) : Prop := Forall sound_entry ks /\ NoDup (map (fun e => fold_name (e_name e)) ks).
Lemma put_key_sound k v c ks : clean_key k -> clean_value v -> ok_comment c -> sound_keys ks -> sound_keys (put_key k v c ks) /\ put_key k v c ks <> [].
Proof.
  intros Hk Hv Hc [H1 H2]. destruct (put_key_cases k v c ks) as [(l1 & e & l2 & -> & _ & ->)|[Hf ->]].
  - split; [|by destruct l1]. apply Forall_app in H1 as [H1 [He H3]%Forall_cons]. split; [|by rewrite map_app in *].
    apply Forall_app. split; [done|]. constructor; [|done]. destruct He. by split.
  - split; [|by destruct ks]. split; [apply Forall_app; split; [done|]; constructor; [by split|constructor]|]. rewrite map_app. by apply fresh_name.
Qed.

Lemma put_section_sound sec c f d : clean_section sec -> ok_comment c -> (forall ks, sound_keys ks -> sound_keys (f ks)) -> (forall ks, f ks = [] -> ks = []) ->
  sound_ini d -> sound_ini (mkIni (m_pFileComment d) (put_section sec c f (m_data d))).
Proof.
  intros Hsec Hc Hf Hne [H1 H2 H3 H4 H5]. destruct (put_section_cases sec c f (m_data d)) as [(l1 & s & l2 & E & _ & ->)|[Hn ->]].
  - rewrite E in *. apply Forall_app in H2 as [H2 [[S1 S2 S3 S4] H2']%Forall_cons]. destruct (Hf (s_keys s) (conj S3 S4)) as [F1 F2]. split; cbn [m_pFileComment m_data].
    + done.
    + apply Forall_app. split; [done|]. constructor; [by split|done].
    + by rewrite map_app in *.
    + destruct l1 as [|x l1]; cbn [app tail] in *; [done|]. apply Forall_app in H4 as [H4 [? ?]%Forall_cons]. apply Forall_app. split; [done|]. by constructor.
    + destruct l1 as [|x l1]; cbn [app s_name s_keys] in *; [|done]. intros En Ek. by apply H5, Hne.
  - destruct (Hf [] ltac:(by split; constructor)) as [F1 F2]. split; cbn [m_pFileComment m_data].
    + done.
    + apply Forall_app. split; [done|]. constructor; [|done]. split; [by right|done..].
    + rewrite map_app. by apply fresh_name.
    + destruct (m_data d) as [|x l]; cbn [app tail] in *; [done|]. apply Forall_app. split; [done|]. constructor; [by apply Hsec|done].
    + destruct (m_data d) as [|x l]; cbn [app s_name s_keys] in *; [|done]. intros En. by destruct Hsec.
Qed.
Lemma AddEntry_sound sec item c d : clean_section sec -> ok_comment c ->
  (match item with Some (k, v) => clean_key k /\ clean_value v | None => True end) ->
  sound_ini d -> sound_ini (mkIni (m_pFileComment d) (AddEntry sec item c (m_data d))).
Proof.
  intros Hsec Hc Hi. destruct item as [[k v]|]; cbn [AddEntry].
  - destruct Hi as [Hk Hv]. apply put_section_sound; [done|done| |].
    + intros ks. by apply put_key_sound.
    + intros ks. destruct (put_key_cases k v c ks) as [(l1 & e & l2 & -> & _ & ->)|[_ ->]]; intros E; [by destruct l1|by destruct ks].
  - by apply put_section_sound.
Qed.

Lemma filter_names p (ks : list entry) : sound_keys ks -> sound_keys (List.filter p ks).
Proof.
  intros [H1 H2]. split.
  - induction H1 as [|e ks He Hk IH]; cbn [List.filter]; [constructor|]. apply NoDup_cons in H2 as [_ H2]. destruct (p e); [constructor; auto|auto].
  - clear H1. induction ks as [|e ks IH]; cbn [List.filter map] in *; [constructor|]. apply NoDup_cons in H2 as [Hn H2]. destruct (p e); [|auto]. cbn [map].
    apply NoDup_cons. split; [|auto]. intros (y & E & Hy)%list_elem_of_fmap. apply Hn, list_elem_of_fmap. exists y. split; [done|].
    apply list_elem_of_In. apply list_elem_of_In, List.filter_In in Hy. tauto.
Qed.
Lemma Delete_cases sec k remove_empty l :
  Delete sec (Some k) remove_empty l = l \/
  exists l1 s l2 ks, l = l1 ++ s :: l2 /\ same_name sec (s_name s) = true /\ (sound_keys (s_keys s) -> sound_keys ks) /\
    (Delete sec (Some k) remove_empty l = l1 ++ mkSection (s_name s) (s_comment s) ks :: l2 \/ Delete sec (Some k) remove_empty l = l1 ++ l2).
Proof.
  induction l as [|s l IH]; cbn; [by left|]. destruct (same_name sec (s_name s)) eqn:E.
  - destruct (existsb _ _); cbn [negb]; [|by left]. right. eexists [], s, l, _. split; [done|]. split; [done|]. split; [apply filter_names|].
    destruct (negb remove_empty || _); [by left|by right].
  - destruct IH as [->|(l1 & s' & l2 & ks & -> & H1 & H2 & [->| ->])]; [by left|right; exists (s :: l1), s', l2, ks; split_and!; try done; by left|].
    right. exists (s :: l1), s', l2, ks. split_and!; try done. by right.
Qed.
Lemma Delete_sound sec k remove_empty d : clean_section sec -> sound_ini d -> sound_ini (mkIni (m_pFileComment d) (Delete sec (Some k) remove_empty (m_data d))).
Proof.
  intros Hsec [H1 H2 H3 H4 H5]. destruct (Delete_cases sec k remove_empty (m_data d)) as [->|(l1 & s & l2 & ks & E & Hs & Hk & Hc)]; [by split|].
  rewrite E in *. apply Forall_app in H2 as [H2 [[S1 S2 S3 S4] H2']%Forall_cons]. destruct (Hk (conj S3 S4)) as [F1 F2].
  assert (s_name s <> []) as Hne. { intros En. rewrite En in Hs. apply bool_decide_eq_true in Hs. destruct Hsec as [Hx _]. by destruct sec. }
  destruct Hc as [->| ->]; split; cbn [m_pFileComment m_data]; try done.
  - apply Forall_app. split; [done|]. constructor; [by split|done].
  - by rewrite map_app in *.
  - destruct l1 as [|x l1]; cbn [app tail] in *; [done|]. apply Forall_app in H4 as [? [? ?]%Forall_cons]. apply Forall_app. split; [done|]. by constructor.
  - destruct l1 as [|x l1]; cbn [app s_name s_keys] in *; done.
  - by apply Forall_app.
  - rewrite map_app in *. cbn [map] in H3. apply NoDup_app in H3 as (N1 & N2 & [N3 N4]%NoDup_cons). apply NoDup_app. split; [done|]. split; [|done].
    intros x Hx Hy. apply (N2 x Hx). by right.
  - destruct l1 as [|x l1]; cbn [app tail] in *; [by destruct H4; [constructor|cbn]|]. apply Forall_app in H4 as [? [? ?]%Forall_cons]. by apply Forall_app.
  - destruct l1 as [|x l1]; cbn [app] in *; [|done]. destruct l2 as [|y l2]; [done|]. inversion H4; subst. done.
Qed.
Lemma GetValue_clean d sec key v : sound_ini d -> GetValue (m_data d) sec key = Some v -> clean_value v.
Proof.
  intros [_ H2 _ _ _]. unfold GetValue, find_section, find_key. destruct (List.find _ (m_data d)) as [s|] eqn:E; [|done]. apply List.find_some in E as [Hs _].
  destruct (List.find _ (s_keys s)) as [e|] eqn:E2; [|done]. apply List.find_some in E2 as [He _]. intros [= <-].
  rewrite Forall_forall in H2. destruct (H2 s ltac:(by apply list_elem_of_In)) as [_ _ Hk _]. rewrite Forall_forall in Hk. by apply Hk, list_elem_of_In.
Qed.

(** A header without its bracket is not skipped: the entries behind it go to a section whose
    name runs on to the end of the next key, line break included. *)
Example unfinished_header_names_a_section :
  let d := LoadData (str "[/modules" ++ [c_newline] ++ str "a=1" ++ [c_newline]) empty_ini in
  GetAllSections (m_data d) = [str "/modules" ++ [c_newline] ++ str "a"] /\
  GetValue (m_data d) (str "/modules") (str "a") = None /\ GetValue (m_data d) [] (str "a") = None.
Proof. vm_compute. done. Qed.
