(* ===== verification/Settings.v ===== *)
(** The settings store: include/settings/settings_interface_impl.hpp.

    A store keeps a cache of values, the changes that are staged until [save], and the stores
    of its includes.  What a backend (INI file, registry, ...) does is the interface [backend],
    with its laws in [lawful].  Values are strings: the one handler the code instantiates its
    getter and setter with is that of strings.  Every call takes the mutex of its store, which
    is taken to succeed.  The dirty flag of the settings core is returned by the calls that
    set it. *)

From stdpp Require Import base list gmap strings.
From Stdlib Require Import Ascii ZArith Lia.
From Stdlib Require String.
From S2P Require Import Prelude Strings Ordering FactRepository.
Import String.StringSyntax.

Abbreviation key_path := (cppstring * cppstring)%type.

Record conainer := mkValue { get_value : cppstring; is_dirty : bool }.
Definition make_dirty (c : conainer) : conainer := mkValue (get_value c) true.
Definition make_clean (c : conainer) : conainer := mkValue (get_value c) false.

(** What a store keeps its values in. *)
Class backend := {
  B : Type;
  get_real_string : B -> key_path -> option cppstring;
  has_real_key : B -> key_path -> bool;
  has_real_path : B -> cppstring -> bool;
  get_real_keys : B -> cppstring -> list cppstring;
  get_real_sections : B -> cppstring -> list cppstring;
  set_real_value : key_path -> conainer -> B -> B;
  remove_real_value : key_path -> B -> B;
  remove_real_path : cppstring -> B -> B;
  set_real_path : cppstring -> B -> B;
  (** the file is read again, into what is there *)
  real_clear_cache : B -> B;
  (** what the backend's own [save] does after the one of the store: the file is written *)
  write_file : B -> B;
  (** a new store of the file that was written *)
  reread : B -> B
}.

(** What the store relies on: a backend in a [sound] state keeps what it is given, for [fine]
    keys, paths and values. *)
Class lawful `{backend} := {
  fine : key_path -> Prop;
  fine_path : cppstring -> Prop;
  fine_value : cppstring -> Prop;
  sound : B -> Prop;
  fine_key_path k : fine k -> fine_path k.1;
  has_real_spec b k : has_real_key b k = bool_decide (is_Some (get_real_string b k));
  set_real_spec b k c k' : sound b -> fine k -> fine_value (get_value c) -> fine k' ->
    get_real_string (set_real_value k c b) k' = if is_dirty c && bool_decide (k = k') then Some (get_value c) else get_real_string b k';
  remove_real_spec b k k' : sound b -> fine k -> fine k' ->
    get_real_string (remove_real_value k b) k' = if bool_decide (k = k') then None else get_real_string b k';
  set_path_spec b p k : get_real_string (set_real_path p b) k = get_real_string b k;
  write_spec b k : get_real_string (write_file b) k = get_real_string b k;
  value_spec b k v : sound b -> get_real_string b k = Some v -> fine_value v;
  set_sound b k c : sound b -> fine k -> fine_value (get_value c) -> sound (set_real_value k c b);
  remove_sound b k : sound b -> fine k -> sound (remove_real_value k b);
  path_sound b p : sound b -> fine_path p -> sound (set_real_path p b);
  write_sound b : sound b -> sound (write_file b)
}.
(** Moreover what is written is what a new store reads. *)
Class durable `{lawful} := reread_spec b k : sound b -> get_real_string (reread (write_file b)) k = get_real_string b k.

Section Store.
Context `{backend}.

Inductive store := mkStore {
  settings_cache_ : gmap key_path conainer;
  settings_delete_cache_ : gset key_path;
  path_cache_ : gset cppstring;
  settings_delete_path_cache_ : gset cppstring;
  key_cache_ : gmap cppstring (gset cppstring);
  real : B;
  children_ : list store
}.
Definition fresh_store (b : B) (children : list store) : store := mkStore ∅ ∅ ∅ ∅ ∅ b children.

(** [remove_key] or [remove_path] has staged it. *)
Definition staged_deleted (k : key_path) (s : store) : bool :=
  bool_decide (k ∈ settings_delete_cache_ s) || bool_decide (k.1 ∈ settings_delete_path_cache_ s).

(** ** Reading *)

Fixpoint has_key (k : key_path) (s : store) {struct s} : bool :=
  if staged_deleted k s then false else
  if bool_decide (is_Some (settings_cache_ s !! k)) then true else
  if has_real_key (real s) k then true else existsb (has_key k) (children_ s).
(** [find_child_unsafe] and an operation on the child it finds. *)
Definition in_child {A} (k : key_path) (f : store -> A * store) : list store -> option (A * list store) :=
  fix go l :=
    match l with
    | [] => None
    | c :: l' =>
        if has_key k c then let '(r, c') := f c in Some (r, c' :: l')
        else match go l' with Some (r, l'') => Some (r, c :: l'') | None => None end
    end.

Definition with_cache cache (s : store) : store :=
  mkStore cache (settings_delete_cache_ s) (path_cache_ s) (settings_delete_path_cache_ s) (key_cache_ s) (real s) (children_ s).
Definition with_children children (s : store) : store :=
  mkStore (settings_cache_ s) (settings_delete_cache_ s) (path_cache_ s) (settings_delete_path_cache_ s) (key_cache_ s) (real s) children.
Definition with_staged deleted deleted_paths (s : store) : store :=
  mkStore (settings_cache_ s) deleted (path_cache_ s) deleted_paths (key_cache_ s) (real s) (children_ s).
Definition with_names paths keys (s : store) : store :=
  mkStore (settings_cache_ s) (settings_delete_cache_ s) paths (settings_delete_path_cache_ s) keys (real s) (children_ s).

Fixpoint getter (k : key_path) (s : store) {struct s} : option cppstring * store :=
  if staged_deleted k s then (None, s) else
  match settings_cache_ s !! k with
  | Some c => (Some (get_value c), s)
  | None =>
      match get_real_string (real s) k with
      | Some v => (Some v, with_cache (<[k := mkValue v false]> (settings_cache_ s)) s)
      | None =>
          match in_child k (getter k) (children_ s) with
          | Some (r, l) => (r, with_children l s)
          | None => (None, s)
          end
      end
  end.
Definition get_string (path key : cppstring) (s : store) : option cppstring * store := getter (path, key) s.
Definition get_string_default (path key def : cppstring) (s : store) : cppstring * store :=
  let '(v, s) := get_string path key s in (default def v, s).

Definition get_cached_keys (path : cppstring) (s : store) : list cppstring :=
  match key_cache_ s !! path with Some ks => elements ks | None => [] end.
(** [ret.sort(); ret.unique()] *)
Definition sort_unique (l : list cppstring) : list cppstring := map fst (sort_by_key (map (fun x => (x, tt)) (elements (list_to_set l : gset cppstring)))).
Definition strip_slash (path : cppstring) : cppstring :=
  match last path with Some c => if bool_decide (c = "/"%char) then removelast path else path | None => path end.
Fixpoint get_keys (path : cppstring) (s : store) {struct s} : list cppstring :=
  let path := strip_slash path in
  if bool_decide (path ∈ settings_delete_path_cache_ s) then [] else
  let ret := get_cached_keys path s ++ get_real_keys (real s) path ++ concat (map (get_keys path) (children_ s)) in
  List.filter (fun k => negb (bool_decide ((path, k) ∈ settings_delete_cache_ s))) (sort_unique ret).
Definition has_section (path : cppstring) (s : store) : bool :=
  if bool_decide (path ∈ settings_delete_path_cache_ s) then false else
  if bool_decide (path ∈ path_cache_ s) then true else has_real_path (real s) path.

Definition clean_path (tmp : cppstring) : cppstring :=
  let tmp := match tmp with c :: t => if bool_decide (c = "/"%char) then t else tmp | [] => tmp end in strip_slash tmp.
(** The section that one cached path contributes. *)
Definition cached_section (path s : cppstring) : list cppstring :=
  if bool_decide (path = []) then
    if Nat.ltb 1 (length s) then
      match find s (str "/") 1 with Some pos => [substr s 0 (pos - 1)] | None => [s] end
    else []
  else
    let path_len := length path in
    if Nat.ltb (path_len + 1) (length s) && bool_decide (substr s 0 path_len = path) then
      match find s (str "/") (path_len + 1) with
      | Some pos => [clean_path (substr s path_len (pos - 1))]
      | None => [clean_path (substr_from s path_len)]
      end
    else [].
Definition get_cached_sections (path : cppstring) (s : store) : list cppstring := concat (map (cached_section path) (elements (path_cache_ s))).
Definition get_local_sections (path : cppstring) (s : store) : list cppstring :=
  sort_unique (get_cached_sections path s ++ get_real_sections (real s) path).
Definition base_of (path : cppstring) : cppstring :=
  match last path with None => [] | Some c => if bool_decide (c = "/"%char) then path else path ++ str "/" end.
Fixpoint get_sections (path : cppstring) (s : store) {struct s} : list cppstring :=
  let ret := sort_unique (get_cached_sections path s ++ get_real_sections (real s) path ++ concat (map (get_sections path) (children_ s))) in
  List.filter (fun section => negb (bool_decide (base_of path ++ section ∈ settings_delete_path_cache_ s))) ret.

(** ** Writing; the boolean says that the core was set dirty *)

Definition add_key (path key : cppstring) (s : store) : store :=
  with_names (path_cache_ s) (<[path := {[key]} ∪ default ∅ (key_cache_ s !! path)]> (key_cache_ s)) s.
Definition add_path (path : cppstring) (s : store) : store := with_names ({[path]} ∪ path_cache_ s) (key_cache_ s) s.

Fixpoint setter (k : key_path) (value : cppstring) (s : store) {struct s} : bool * store :=
  let s1 := with_staged (settings_delete_cache_ s ∖ {[k]}) (settings_delete_path_cache_ s ∖ {[k.1]}) s in
  if match settings_cache_ s !! k with Some c => bool_decide (get_value c = value) | None => false end then (false, s1) else
  let current := get_real_string (real s) k in
  match (if bool_decide (current = None)
         then in_child k (setter k value) (children_ s) else None) with
  | Some (r, l) => (r, with_children l s1)
  | None =>
      let unchanged := match current with Some v => bool_decide (v = value) | None => bool_decide (value = []) end in
      let s2 := add_path k.1 (with_cache (<[k := mkValue value (negb unchanged)]> (settings_cache_ s1)) s1) in
      if unchanged then (false, s2) else (true, add_key k.1 k.2 s2)
  end.
Definition set_string (path key value : cppstring) (s : store) : bool * store := setter (path, key) value s.

Definition remove_key (path key : cppstring) (s : store) : store :=
  mkStore (delete (path, key) (settings_cache_ s)) ({[(path, key)]} ∪ settings_delete_cache_ s) (path_cache_ s) (settings_delete_path_cache_ s)
    (alter (fun ks => ks ∖ {[key]}) path (key_cache_ s)) (real s) (children_ s).
Definition remove_path (path : cppstring) (s : store) : store :=
  mkStore (settings_cache_ s) (settings_delete_cache_ s) (path_cache_ s ∖ {[path]}) ({[path]} ∪ settings_delete_path_cache_ s)
    (delete path (key_cache_ s)) (real s) (children_ s).

(** ** Saving and loading *)

(** The backend after the writes of [save]; the containers are walked in some order. *)
Definition saved_real (cache : gmap key_path conainer) (re_save_all : bool) (s : store) : B :=
  let b := fold_right remove_real_value (real s) (elements (settings_delete_cache_ s)) in
  let b := fold_right remove_real_path b (elements (settings_delete_path_cache_ s)) in
  let b := fold_right set_real_path b (elements (path_cache_ s)) in
  let b := fold_right (fun e b => set_real_value e.1 e.2 b) b (map_to_list cache) in
  if re_save_all then fold_right set_real_path b (elements (set_map fst (dom cache) : gset cppstring)) else b.
Fixpoint save (re_save_all : bool) (s : store) {struct s} : store :=
  let cache := if re_save_all then make_dirty <$> settings_cache_ s else settings_cache_ s in
  let b := saved_real cache re_save_all s in
  mkStore (map_imap (fun k c => Some (if has_real_key b k then make_clean c else c)) cache)
    (filter (fun k => has_real_key b k = true) (settings_delete_cache_ s))
    (filter (fun p => has_real_path b p = false) (path_cache_ s))
    (filter (fun p => has_real_path b p = true) (settings_delete_path_cache_ s))
    (key_cache_ s) (write_file b) (map (save re_save_all) (children_ s)).
(** [load]: reading the file again adds a store for each include that it names to those that
    are there. *)
Definition load (added : list store) (s : store) : store := fresh_store (real_clear_cache (real s)) (children_ s ++ added).
(** The stores of the same files, opened by a new agent. *)
Fixpoint reopen (s : store) : store := fresh_store (reread (real s)) (map reopen (children_ s)).

(** ** Pending changes *)

Inductive change_kind := added | modified | removed | path_added | path_removed.
Record change_entry := mkChange { ce_path : cppstring; ce_key : cppstring; ce_old : cppstring; ce_new : cppstring; kind : change_kind }.
Definition key_change (s : store) (e : key_path * conainer) : list change_entry :=
  if is_dirty e.2 then
    match get_real_string (real s) e.1 with
    | Some old => [mkChange e.1.1 e.1.2 old (get_value e.2) modified]
    | None => [mkChange e.1.1 e.1.2 [] (get_value e.2) added]
    end
  else [].
Fixpoint get_changes (s : store) : list change_entry :=
  concat (map (key_change s) (map_to_list (settings_cache_ s))) ++
  map (fun k => mkChange k.1 k.2 (default [] (get_real_string (real s) k)) [] removed) (elements (settings_delete_cache_ s)) ++
  map (fun p => mkChange p [] [] [] path_removed) (elements (settings_delete_path_cache_ s)) ++
  map (fun p => mkChange p [] [] [] path_added) (List.filter (fun p => negb (has_real_path (real s) p)) (elements (path_cache_ s))) ++
  concat (map get_changes (children_ s)).
End Store.

(** ** What a store answers *)

Section View.
Context `{lawful}.

Lemma store_rect' (P : store -> Prop) : (forall s, Forall P (children_ s) -> P s) -> forall s, P s.
Proof.
  intros I. fix IH 1. intros [c d pa dp ks b l]. apply I. simpl. induction l as [|x l IHl]; constructor; [apply IH|exact IHl].
Qed.

Definition value_of (k : key_path) (s : store) : option cppstring := (getter k s).1.
(** The answer of the first include that has the key. *)
Fixpoint first_view (k : key_path) (l : list store) : option cppstring :=
  match l with [] => None | c :: l' => if has_key k c then value_of k c else first_view k l' end.

Lemma in_child_getter k l :
  match in_child k (getter k) l with Some (r, _) => r = first_view k l | None => first_view k l = None /\ existsb (has_key k) l = false end.
Proof.
  induction l as [|c l IH]; simpl; [done|]. destruct (has_key k c); simpl.
  - unfold value_of. by destruct (getter k c).
  - destruct (in_child k (getter k) l) as [[r l']|]; done.
Qed.
Lemma getter_eq k s :
  getter k s =
  if staged_deleted k s then (None, s) else
  match settings_cache_ s !! k with
  | Some c => (Some (get_value c), s)
  | None =>
      match get_real_string (real s) k with
      | Some v => (Some v, with_cache (<[k := mkValue v false]> (settings_cache_ s)) s)
      | None => match in_child k (getter k) (children_ s) with Some (r, l) => (r, with_children l s) | None => (None, s) end
      end
  end.
Proof. by destruct s. Qed.
Lemma view_eq k s :
  value_of k s = if staged_deleted k s then None else
    match settings_cache_ s !! k with
    | Some c => Some (get_value c)
    | None => match get_real_string (real s) k with Some v => Some v | None => first_view k (children_ s) end
    end.
Proof.
  unfold value_of. rewrite getter_eq. destruct (staged_deleted k s); [done|]. destruct (settings_cache_ s !! k); [done|].
  destruct (get_real_string (real s) k); [done|]. pose proof (in_child_getter k (children_ s)) as I.
  destruct (in_child k (getter k) (children_ s)) as [[r l]|]; simpl; [done|]. by destruct I as [-> _].
Qed.
Lemma has_key_eq k s :
  has_key k s = if staged_deleted k s then false else
    if bool_decide (is_Some (settings_cache_ s !! k)) then true else
    if has_real_key (real s) k then true else existsb (has_key k) (children_ s).
Proof. by destruct s. Qed.

Lemma first_view_spec k l :
  Forall (fun c => has_key k c = bool_decide (is_Some (value_of k c))) l -> existsb (has_key k) l = bool_decide (is_Some (first_view k l)).
Proof.
  induction 1 as [|c l E F IH]; simpl; [done|]. destruct (has_key k c) eqn:Hk; simpl; [by rewrite <-E|done].
Qed.
Lemma has_key_view k s : has_key k s = bool_decide (is_Some (value_of k s)).
Proof.
  induction s as [s IH] using store_rect'. rewrite has_key_eq, view_eq. destruct (staged_deleted k s); [done|].
  destruct (settings_cache_ s !! k); [done|]. simpl. rewrite has_real_spec. destruct (get_real_string (real s) k); [done|]. simpl. by apply first_view_spec.
Qed.
Lemma children_view k l : existsb (has_key k) l = bool_decide (is_Some (first_view k l)).
Proof. apply first_view_spec, Forall_forall. intros c _. apply has_key_view. Qed.
Lemma first_view_none k l : existsb (has_key k) l = false <-> first_view k l = None.
Proof. rewrite children_view, bool_decide_eq_false. symmetry. apply eq_None_not_Some. Qed.
Lemma first_view_cons k c l : first_view k (c :: l) = match value_of k c with Some v => Some v | None => first_view k l end.
Proof. simpl. rewrite has_key_view. by destruct (value_of k c). Qed.

(** What the store holds can be given to its backend. *)
Record tidy (s : store) : Prop := {
  tidy_real : sound (real s);
  tidy_cache k c : settings_cache_ s !! k = Some c -> fine k /\ fine_value (get_value c);
  tidy_deleted k : k ∈ settings_delete_cache_ s -> fine k;
  tidy_paths p : p ∈ path_cache_ s -> fine_path p
}.

(** A store in which no path is staged for deletion and in which nothing is held both by a
    staged change and by an include. *)
Inductive orderly : store -> Prop :=
| orderly_intro s :
    settings_delete_path_cache_ s = ∅ ->
    (forall k, k ∈ settings_delete_cache_ s -> settings_cache_ s !! k = None /\ first_view k (children_ s) = None) ->
    (forall k c, settings_cache_ s !! k = Some c -> get_real_string (real s) k = None -> first_view k (children_ s) = None) ->
    (forall k c, settings_cache_ s !! k = Some c -> is_dirty c = false ->
       get_real_string (real s) k = Some (get_value c) \/ (get_real_string (real s) k = None /\ get_value c = [])) ->
    Forall orderly (children_ s) -> tidy s -> orderly s.

Lemma orderly_inv s : orderly s ->
  settings_delete_path_cache_ s = ∅ /\
  (forall k, k ∈ settings_delete_cache_ s -> settings_cache_ s !! k = None /\ first_view k (children_ s) = None) /\
  (forall k c, settings_cache_ s !! k = Some c -> get_real_string (real s) k = None -> first_view k (children_ s) = None) /\
  (forall k c, settings_cache_ s !! k = Some c -> is_dirty c = false ->
     get_real_string (real s) k = Some (get_value c) \/ (get_real_string (real s) k = None /\ get_value c = [])) /\
  Forall orderly (children_ s).
Proof. by destruct 1. Qed.
Lemma orderly_tidy s : orderly s -> tidy s.
Proof. by destruct 1. Qed.
Lemma orderly_staged k s : orderly s -> staged_deleted k s = bool_decide (k ∈ settings_delete_cache_ s).
Proof. destruct 1 as [s D]. unfold staged_deleted. rewrite D, (bool_decide_eq_false_2 (k.1 ∈ ∅)) by set_solver. by rewrite orb_false_r. Qed.

(** An operation on the first include that has a key. *)
Lemma in_child_found {A} k (f : store -> A * store) l r l' :
  in_child k f l = Some (r, l') ->
  exists l1 c l2, l = l1 ++ c :: l2 /\ l' = l1 ++ (f c).2 :: l2 /\ r = (f c).1 /\ has_key k c = true /\ first_view k l1 = None.
Proof.
  revert l'. induction l as [|c l IH]; simpl; [done|]. intros l'. destruct (has_key k c) eqn:Hk.
  - destruct (f c) as [r' c'] eqn:E. intros [= <- <-]. exists [], c, l. rewrite E. done.
  - destruct (in_child k f l) as [[r' l'']|]; [|done]. intros [= <- <-]. destruct (IH l'' eq_refl) as (l1 & c1 & l2 & -> & -> & -> & K & N).
    exists (c :: l1), c1, l2. split_and!; try done. simpl. by rewrite Hk.
Qed.
Lemma first_view_app k l1 l2 : first_view k (l1 ++ l2) = match first_view k l1 with Some v => Some v | None => first_view k l2 end.
Proof. induction l1 as [|c l1 IH]; [done|]. rewrite <-app_comm_cons, !first_view_cons, IH. by destruct (value_of k c). Qed.

(** ** Reading changes nothing *)

Lemma getter_spec k s : (forall k', value_of k' (getter k s).2 = value_of k' s) /\ (fine k -> orderly s -> orderly (getter k s).2).
Proof.
  induction s as [s IH] using store_rect'. rewrite getter_eq. destruct (staged_deleted k s) eqn:St; [done|].
  destruct (settings_cache_ s !! k) as [c|] eqn:Ec; [done|]. destruct (get_real_string (real s) k) as [v|] eqn:Er; simpl.
  - split.
    + intros k'. rewrite !view_eq. simpl. change (staged_deleted k' (with_cache _ s)) with (staged_deleted k' s). destruct (staged_deleted k' s); [done|].
      destruct (decide (k = k')) as [<-|N]; [by rewrite lookup_insert_eq, Ec, Er|]. by rewrite lookup_insert_ne.
    + intros Fk O. pose proof (orderly_tidy s O) as T. pose proof (orderly_staged k s O) as Sd. rewrite St in Sd. symmetry in Sd. apply bool_decide_eq_false in Sd.
      destruct (orderly_inv s O) as (D1 & D2 & D3 & D4 & D5). constructor; simpl; try done.
      * intros k' K'. rewrite lookup_insert_ne by (intros ->; done). by apply D2.
      * intros k' c'. rewrite lookup_insert_Some. intros [[<- <-]|[_ E]]; [by rewrite Er|]. by eapply D3.
      * intros k' c'. rewrite lookup_insert_Some. intros [[<- <-]|[_ E]]; [by rewrite Er; left|]. by apply D4.
      * split; simpl; try apply T. intros k' c'. rewrite lookup_insert_Some. intros [[<- <-]|[_ E]]; [split; [done|by eapply value_spec; [apply T|]]|by eapply tidy_cache].
  - destruct (in_child k (getter k) (children_ s)) as [[r l]|] eqn:Ei; simpl; [|done].
    destruct (in_child_found _ _ _ _ _ Ei) as (l1 & c & l2 & El & -> & _ & _ & _).
    rewrite El in IH. apply Forall_app in IH as [_ IH]. apply Forall_cons in IH as [[V O] _].
    assert (forall k', first_view k' (l1 ++ (getter k c).2 :: l2) = first_view k' (children_ s)) as Fv.
    { intros k'. rewrite El, !first_view_app, !first_view_cons, V. done. }
    split.
    + intros k'. rewrite !view_eq. simpl. change (staged_deleted k' (with_children _ s)) with (staged_deleted k' s). by rewrite Fv.
    + intros Fk O'. destruct (orderly_inv s O') as (D1 & D2 & D3 & D4 & D5). constructor; simpl; try done; [| | |by destruct (orderly_tidy s O')].
      * intros k' K'. rewrite Fv. by apply D2.
      * intros k' c'. rewrite Fv. by apply D3.
      * rewrite El in D5. apply Forall_app in D5 as [Q1 [Q2 Q3]%Forall_cons]. apply Forall_app. split; [done|]. constructor; [by apply O|done].
Qed.

(** ** Writing *)

Lemma setter_eq k value s :
  setter k value s =
  let s1 := with_staged (settings_delete_cache_ s ∖ {[k]}) (settings_delete_path_cache_ s ∖ {[k.1]}) s in
  if match settings_cache_ s !! k with Some c => bool_decide (get_value c = value) | None => false end then (false, s1) else
  let current := get_real_string (real s) k in
  match (if bool_decide (current = None) then in_child k (setter k value) (children_ s) else None) with
  | Some (r, l) => (r, with_children l s1)
  | None =>
      let unchanged := match current with Some v => bool_decide (v = value) | None => bool_decide (value = []) end in
      let s2 := add_path k.1 (with_cache (<[k := mkValue value (negb unchanged)]> (settings_cache_ s1)) s1) in
      if unchanged then (false, s2) else (true, add_key k.1 k.2 s2)
  end.
Proof. by destruct s. Qed.

Lemma in_child_none {A} k (f : store -> A * store) l : in_child k f l = None -> first_view k l = None.
Proof.
  induction l as [|c l IH]; simpl; [done|]. destruct (has_key k c); [by destruct (f c)|]. destruct (in_child k f l) as [[]|]; [done|]. auto.
Qed.

(** What the setter does to the store itself, when no include takes the value. *)
Definition stored (k : key_path) (c : conainer) (paths : gset cppstring) keys (s : store) : store :=
  mkStore (<[k := c]> (settings_cache_ s)) (settings_delete_cache_ s ∖ {[k]}) paths ∅ keys (real s) (children_ s).
Lemma stored_spec k c paths keys s :
  fine k -> fine_value (get_value c) -> (forall p, p ∈ paths -> fine_path p) ->
  orderly s -> (get_real_string (real s) k = None -> first_view k (children_ s) = None) ->
  (is_dirty c = false -> get_real_string (real s) k = Some (get_value c) \/ (get_real_string (real s) k = None /\ get_value c = [])) ->
  (forall k', value_of k' (stored k c paths keys s) = if bool_decide (k' = k) then Some (get_value c) else value_of k' s) /\ orderly (stored k c paths keys s).
Proof.
  intros Fk Fv Fp O R Cl. split.
  - intros k'. rewrite (view_eq k' s), (orderly_staged k' s O), view_eq. unfold staged_deleted, stored. simpl.
    rewrite (bool_decide_eq_false_2 (k'.1 ∈ ∅)), orb_false_r by set_solver.
    destruct (decide (k' = k)) as [->|E].
    + rewrite (bool_decide_eq_true_2 (k = k)), bool_decide_eq_false_2 by set_solver. by rewrite lookup_insert_eq.
    + rewrite (bool_decide_eq_false_2 (k' = k)), lookup_insert_ne by done. rewrite (bool_decide_ext (k' ∈ settings_delete_cache_ s ∖ {[k]}) (k' ∈ settings_delete_cache_ s)) by set_solver. done.
  - destruct (orderly_inv s O) as (D1 & D2 & D3 & D4 & D5). constructor; simpl; try done.
    + intros k' K'. rewrite lookup_insert_ne by set_solver. apply D2. set_solver.
    + intros k' c'. rewrite lookup_insert_Some. intros [[<- <-]|[_ E]]; [done|]. by eapply D3.
    + intros k' c'. rewrite lookup_insert_Some. intros [[<- <-]|[_ E]]; [done|]. by apply D4.
    + pose proof (orderly_tidy s O) as T. split; simpl; [apply T| | |done].
      * intros k' c'. rewrite lookup_insert_Some. intros [[<- <-]|[_ E]]; [done|by eapply tidy_cache].
      * intros k' K'. apply (tidy_deleted s T). set_solver.
Qed.

(** The last lines of the setter. *)
Definition keep (k : key_path) (value : cppstring) (s : store) : bool * store :=
  let s1 := with_staged (settings_delete_cache_ s ∖ {[k]}) (settings_delete_path_cache_ s ∖ {[k.1]}) s in
  let unchanged := match get_real_string (real s) k with Some v => bool_decide (v = value) | None => bool_decide (value = []) end in
  let s2 := add_path k.1 (with_cache (<[k := mkValue value (negb unchanged)]> (settings_cache_ s1)) s1) in
  if unchanged then (false, s2) else (true, add_key k.1 k.2 s2).
Lemma keep_spec k value s :
  fine k -> fine_value value -> orderly s -> (get_real_string (real s) k = None -> first_view k (children_ s) = None) ->
  (forall k', value_of k' (keep k value s).2 = if bool_decide (k' = k) then Some value else value_of k' s) /\ orderly (keep k value s).2.
Proof.
  intros Fk Fv O R. destruct (orderly_inv s O) as (D1 & _). unfold keep. cbv zeta.
  set (u := match get_real_string (real s) k with Some v => bool_decide (v = value) | None => bool_decide (value = []) end).
  assert (exists paths keys, (if u then (false, add_path k.1 (with_cache (<[k:=mkValue value (negb u)]> (settings_cache_ s)) (with_staged (settings_delete_cache_ s ∖ {[k]}) (settings_delete_path_cache_ s ∖ {[k.1]}) s)))
    else (true, add_key k.1 k.2 (add_path k.1 (with_cache (<[k:=mkValue value (negb u)]> (settings_cache_ s)) (with_staged (settings_delete_cache_ s ∖ {[k]}) (settings_delete_path_cache_ s ∖ {[k.1]}) s))))).2
    = stored k (mkValue value (negb u)) paths keys s /\ forall p, p ∈ paths -> fine_path p) as (paths & keys & E & Fp).
  { assert (settings_delete_path_cache_ s ∖ {[k.1]} = ∅) as Dp by set_solver. unfold stored. rewrite Dp.
    assert (forall p, p ∈ {[k.1]} ∪ path_cache_ s -> fine_path p) as Fp.
    { intros p [->%elem_of_singleton|Hp]%elem_of_union; [by apply fine_key_path|by apply (tidy_paths s (orderly_tidy s O))]. }
    destruct u; eexists _, _; (split; [reflexivity|exact Fp]). }
  simpl in E |- *. rewrite E. apply (stored_spec k (mkValue value (negb u))); [done|done|done|done|done|]. simpl. unfold u.
  destruct (get_real_string (real s) k) as [v|].
  - intros Hv. apply negb_false_iff, bool_decide_eq_true in Hv as ->. by left.
  - intros Hv. apply negb_false_iff, bool_decide_eq_true in Hv as ->. by right.
Qed.

Lemma setter_spec k value s :
  fine k -> fine_value value -> orderly s ->
  (forall k', value_of k' (setter k value s).2 = if bool_decide (k' = k) then Some value else value_of k' s) /\ orderly (setter k value s).2.
Proof.
  intros Fkey Fval. induction s as [s IH] using store_rect'. intros O. pose proof (orderly_tidy s O) as T. rewrite setter_eq. destruct (orderly_inv s O) as (D1 & D2 & D3 & D4 & D5).
  assert (settings_delete_path_cache_ s ∖ {[k.1]} = ∅) as Dp by set_solver.
  destruct (settings_cache_ s !! k) as [c|] eqn:Ec; [destruct (bool_decide_reflect (get_value c = value)) as [Ev|Nv]|]; cbv zeta.
  - assert (with_staged (settings_delete_cache_ s ∖ {[k]}) (settings_delete_path_cache_ s ∖ {[k.1]}) s = stored k c (path_cache_ s) (key_cache_ s) s) as ->.
    { unfold with_staged, stored. by rewrite Dp, insert_id. }
    rewrite <-Ev. apply stored_spec; [done|by rewrite Ev|apply T|done| |]; intros; [by eapply D3|by apply D4].
  - assert (in_child k (setter k value) (children_ s) = None \/ bool_decide (get_real_string (real s) k = None) = false) as Hn.
    { destruct (get_real_string (real s) k) eqn:Er; [by right|left]. specialize (D3 k c Ec Er). apply first_view_none in D3.
      clear -D3. induction (children_ s) as [|x l IHl]; [done|]. simpl in *. apply orb_false_iff in D3 as [-> D3]. by rewrite IHl. }
    assert ((if bool_decide (get_real_string (real s) k = None) then in_child k (setter k value) (children_ s) else None) = None) as ->
      by (destruct Hn as [-> | ->]; [by destruct (bool_decide _)|done]).
    apply (keep_spec k value s Fkey Fval O). by eapply D3.
  - destruct (bool_decide (get_real_string (real s) k = None)) eqn:Er.
    + apply bool_decide_eq_true in Er. destruct (in_child k (setter k value) (children_ s)) as [[r l]|] eqn:Ei.
      * destruct (in_child_found _ _ _ _ _ Ei) as (l1 & x & l2 & El & -> & -> & Hk & N). simpl.
        pose proof IH as IHx. rewrite El in IHx, D5. apply Forall_app in IHx as [_ IHx]. apply Forall_cons in IHx as [IHx _].
        apply Forall_app in D5 as [O1 [Ox O2]%Forall_cons]. destruct (IHx Ox) as [V Ox'].
        assert (forall k', first_view k' (l1 ++ (setter k value x).2 :: l2) = if bool_decide (k' = k) then Some value else first_view k' (children_ s)) as Fv.
        { intros k'. rewrite El, !first_view_app, !first_view_cons, V. case_bool_decide as E; [|done]. subst k'. by rewrite N. }
        rewrite has_key_view in Hk. apply bool_decide_eq_true in Hk as [w Hw].
        assert (first_view k (children_ s) = Some w) as Fk by by rewrite El, first_view_app, first_view_cons, N, Hw.
        assert (k ∉ settings_delete_cache_ s) as Nd by (intros K; destruct (D2 k K); congruence).
        split.
        -- intros k'. rewrite (view_eq k' s), (orderly_staged k' s O), view_eq. unfold staged_deleted. simpl. rewrite Dp.
           rewrite (bool_decide_eq_false_2 (k'.1 ∈ ∅)), orb_false_r by set_solver.
           rewrite (bool_decide_ext (k' ∈ settings_delete_cache_ s ∖ {[k]}) (k' ∈ settings_delete_cache_ s)) by (destruct (decide (k' = k)) as [->|]; set_solver).
           rewrite Fv. destruct (decide (k' = k)) as [->|E].
           ++ by rewrite (bool_decide_eq_true_2 (k = k)), (bool_decide_eq_false_2 (k ∈ _)), Ec, Er by done.
           ++ by rewrite (bool_decide_eq_false_2 (k' = k)) by done.
        -- constructor; simpl; try done.
           ++ intros k' K'. rewrite Fv, bool_decide_eq_false_2 by set_solver. apply D2. set_solver.
           ++ intros k' c' E E'. rewrite Fv, bool_decide_eq_false_2 by congruence. by eapply D3.
           ++ apply Forall_app. split; [done|]. by constructor.
           ++ split; simpl; try apply T. intros k' K'. apply (tidy_deleted s T). set_solver.
      * apply in_child_none in Ei. by apply (keep_spec k value s Fkey Fval O).
    + apply bool_decide_eq_false in Er. apply (keep_spec k value s Fkey Fval O). done.
Qed.

Lemma remove_key_spec path key s :
  let k := (path, key) in
  fine k -> orderly s -> first_view k (children_ s) = None ->
  (forall k', value_of k' (remove_key path key s) = if bool_decide (k' = k) then None else value_of k' s) /\ orderly (remove_key path key s).
Proof.
  intros k Fk O F. destruct (orderly_inv s O) as (D1 & D2 & D3 & D4 & D5). split.
  - intros k'. rewrite (view_eq k' s), (orderly_staged k' s O), view_eq. unfold staged_deleted, remove_key. simpl. fold k.
    rewrite D1, (bool_decide_eq_false_2 (k'.1 ∈ ∅)), orb_false_r by set_solver. destruct (decide (k' = k)) as [->|E].
    + by rewrite (bool_decide_eq_true_2 (k = k)), bool_decide_eq_true_2 by set_solver.
    + rewrite (bool_decide_eq_false_2 (k' = k)) by done. rewrite (bool_decide_ext (k' ∈ {[k]} ∪ settings_delete_cache_ s) (k' ∈ settings_delete_cache_ s)) by set_solver.
      by rewrite lookup_delete_ne.
  - constructor; simpl; fold k; try done.
    + intros k' K'. destruct (decide (k' = k)) as [->|E]; [by rewrite lookup_delete_eq|]. rewrite lookup_delete_ne by done. apply D2. set_solver.
    + intros k' c' [_ E]%lookup_delete_Some. by eapply D3.
    + intros k' c' [_ E]%lookup_delete_Some. by apply D4.
    + pose proof (orderly_tidy s O) as T. split; simpl; try apply T.
      * intros k' c' [_ E]%lookup_delete_Some. by eapply tidy_cache.
      * fold k. intros k' [->%elem_of_singleton|K']%elem_of_union; [done|by apply (tidy_deleted s T)].
Qed.
Lemma names_spec paths keys s :
  (forall k, value_of k (with_names paths keys s) = value_of k s) /\
  ((forall p, p ∈ paths -> fine_path p) -> orderly s -> orderly (with_names paths keys s)).
Proof.
  split; [intros k; rewrite !view_eq; done|]. intros Fp O. destruct (orderly_inv s O) as (D1 & D2 & D3 & D4 & D5). constructor; try done.
  destruct (orderly_tidy s O). by split.
Qed.

(** ** Saving *)

Lemma fold_set_path l b k : get_real_string (fold_right set_real_path b l) k = get_real_string b k.
Proof. induction l as [|p l IH]; simpl; [done|]. by rewrite set_path_spec. Qed.
Lemma fold_set_path_sound l b : sound b -> (forall p, p ∈ l -> fine_path p) -> sound (fold_right set_real_path b l).
Proof. intros Sb F. induction l as [|p l IH]; simpl; [done|]. apply path_sound; [apply IH|apply F]; set_solver. Qed.
Lemma fold_remove_sound l b : sound b -> (forall k, k ∈ l -> fine k) -> sound (fold_right remove_real_value b l).
Proof. intros Sb F. induction l as [|x l IH]; simpl; [done|]. apply remove_sound; [apply IH|apply F]; set_solver. Qed.
Lemma fold_remove l b k : sound b -> (forall x, x ∈ l -> fine x) -> fine k ->
  get_real_string (fold_right remove_real_value b l) k = if bool_decide (k ∈ l) then None else get_real_string b k.
Proof.
  intros Sb F Fk. induction l as [|x l IH]; simpl; [done|].
  rewrite remove_real_spec by first [done|apply F; set_solver|apply fold_remove_sound; [done|intros; apply F; set_solver]]. rewrite IH by set_solver. destruct (decide (x = k)) as [->|E].
  - by rewrite (bool_decide_eq_true_2 (k = k)), bool_decide_eq_true_2 by set_solver.
  - rewrite (bool_decide_eq_false_2 (x = k)) by done. by rewrite (bool_decide_ext (k ∈ x :: l) (k ∈ l)) by set_solver.
Qed.
Definition fine_entry (e : key_path * conainer) : Prop := fine e.1 /\ fine_value (get_value e.2).
Lemma fold_set_sound l b : sound b -> Forall fine_entry l -> sound (fold_right (fun e b => set_real_value e.1 e.2 b) b l).
Proof. intros Sb F. induction F as [|e l [F1 F2] F IH]; simpl; [done|]. by apply set_sound. Qed.
Lemma fold_set l b k : sound b -> Forall fine_entry l -> fine k -> NoDup l.*1 ->
  get_real_string (fold_right (fun e b => set_real_value e.1 e.2 b) b l) k =
  match (list_to_map l : gmap key_path conainer) !! k with
  | Some c => if is_dirty c then Some (get_value c) else get_real_string b k
  | None => get_real_string b k
  end.
Proof.
  intros Sb F Fk. induction F as [|[x c] l [F1 F2] F IH]; simpl; intros N; [done|]. apply NoDup_cons in N as [N1 N2].
  rewrite set_real_spec by first [done|by apply fold_set_sound]. rewrite (IH N2).
  destruct (decide (x = k)) as [->|E].
  - rewrite (bool_decide_eq_true_2 (k = k)), andb_true_r, lookup_insert_eq by done. destruct (is_dirty c); [done|].
    by rewrite (not_elem_of_list_to_map_1 l k N1).
  - rewrite (bool_decide_eq_false_2 (x = k)), andb_false_r by done. by rewrite lookup_insert_ne.
Qed.

(** The values of a save are those of the cache. *)
Definition fine_cache (cache : gmap key_path conainer) : Prop := forall k c, cache !! k = Some c -> fine k /\ fine_value (get_value c).
Lemma fine_cache_list cache : fine_cache cache -> Forall fine_entry (map_to_list cache).
Proof. intros F. apply Forall_forall. intros [k c] K. apply elem_of_map_to_list in K. by apply (F k c). Qed.
Lemma tidy_parts s : tidy s -> sound (fold_right set_real_path (fold_right remove_real_value (real s) (elements (settings_delete_cache_ s))) (elements (path_cache_ s))).
Proof.
  intros T. apply fold_set_path_sound; [apply fold_remove_sound; [apply T|]|]; intros x Hx.
  - apply (tidy_deleted s T). set_solver.
  - apply (tidy_paths s T). set_solver.
Qed.
Lemma saved_real_sound cache re s : tidy s -> fine_cache cache -> settings_delete_path_cache_ s = ∅ -> sound (saved_real cache re s).
Proof.
  intros T F D. unfold saved_real. rewrite D, elements_empty. simpl. pose proof (fold_set_sound _ _ (tidy_parts s T) (fine_cache_list cache F)) as Sb.
  destruct re; [|exact Sb]. apply fold_set_path_sound; [exact Sb|]. intros p Hp. rewrite elem_of_elements, elem_of_map in Hp.
  destruct Hp as (k & -> & Hk). apply elem_of_dom in Hk as [c Hk]. apply fine_key_path. by apply (F k c).
Qed.
Lemma saved_real_spec cache re s k :
  tidy s -> fine_cache cache -> fine k -> settings_delete_path_cache_ s = ∅ ->
  get_real_string (saved_real cache re s) k =
  match cache !! k with
  | Some c => if is_dirty c then Some (get_value c) else if bool_decide (k ∈ settings_delete_cache_ s) then None else get_real_string (real s) k
  | None => if bool_decide (k ∈ settings_delete_cache_ s) then None else get_real_string (real s) k
  end.
Proof.
  intros T F Fk D. unfold saved_real. rewrite D, elements_empty. simpl.
  transitivity (get_real_string (fold_right (fun e b => set_real_value e.1 e.2 b)
    (fold_right set_real_path (fold_right remove_real_value (real s) (elements (settings_delete_cache_ s))) (elements (path_cache_ s))) (map_to_list cache)) k).
  { destruct re; [apply fold_set_path|done]. }
  rewrite fold_set by first [done|by apply tidy_parts|by apply fine_cache_list|apply NoDup_fst_map_to_list].
  rewrite list_to_map_to_list, fold_set_path, fold_remove by first [done|apply T|intros x Hx; apply (tidy_deleted s T); set_solver].
  rewrite (bool_decide_ext (k ∈ elements (settings_delete_cache_ s)) (k ∈ settings_delete_cache_ s)) by set_solver. done.
Qed.

Definition save_cache (re : bool) (s : store) : gmap key_path conainer := if re then make_dirty <$> settings_cache_ s else settings_cache_ s.
Lemma save_eq re s :
  save re s =
  let b := saved_real (save_cache re s) re s in
  mkStore (map_imap (fun k c => Some (if has_real_key b k then make_clean c else c)) (save_cache re s))
    (filter (fun k => has_real_key b k = true) (settings_delete_cache_ s)) (filter (fun p => has_real_path b p = false) (path_cache_ s))
    (filter (fun p => has_real_path b p = true) (settings_delete_path_cache_ s)) (key_cache_ s) (write_file b) (map (save re) (children_ s)).
Proof. by destruct s. Qed.
Lemma save_cache_lookup re s k : save_cache re s !! k = (fun c => if re then make_dirty c else c) <$> settings_cache_ s !! k.
Proof. unfold save_cache. destruct re; [apply lookup_fmap|]. by destruct (settings_cache_ s !! k). Qed.

Lemma save_cache_fine re s : tidy s -> fine_cache (save_cache re s).
Proof.
  intros T k c. rewrite save_cache_lookup, fmap_Some. intros (c' & E & ->). pose proof (tidy_cache s T k c' E). by destruct re.
Qed.

(** The file after a save: what is cached and not yet there, without what is staged for
    deletion. *)
Lemma saved_value re s k :
  orderly s -> fine k ->
  get_real_string (saved_real (save_cache re s) re s) k =
  match settings_cache_ s !! k with
  | Some c => if re || is_dirty c then Some (get_value c) else get_real_string (real s) k
  | None => if bool_decide (k ∈ settings_delete_cache_ s) then None else get_real_string (real s) k
  end.
Proof.
  intros O Fk. pose proof (orderly_tidy s O) as T. destruct (orderly_inv s O) as (D1 & D2 & _).
  rewrite saved_real_spec, save_cache_lookup by first [done|by apply save_cache_fine].
  destruct (settings_cache_ s !! k) as [c|] eqn:E; simpl; [|done].
  assert (k ∉ settings_delete_cache_ s) by (intros K; destruct (D2 k K); congruence). rewrite (bool_decide_eq_false_2 (k ∈ _)) by done. by destruct re, (is_dirty c) eqn:Dc; simpl; rewrite ?Dc.
Qed.
Lemma save_real re s : real (save re s) = write_file (saved_real (save_cache re s) re s).
Proof. by rewrite save_eq. Qed.
Lemma save_children_eq re s : children_ (save re s) = map (save re) (children_ s).
Proof. by rewrite save_eq. Qed.

Lemma save_children re l :
  Forall (fun c => orderly c -> (forall k, fine k -> value_of k (save re c) = value_of k c) /\ orderly (save re c)) l -> Forall orderly l ->
  (forall k, fine k -> first_view k (map (save re) l) = first_view k l) /\ Forall orderly (map (save re) l).
Proof.
  induction 1 as [|c l Ic Il IH]; intros O; [by split|]. apply Forall_cons in O as [Oc Ol]. destruct (Ic Oc) as [Vc Oc']. destruct (IH Ol) as [Vl Ol'].
  split; [|by constructor]. intros k Fk. rewrite map_cons, !first_view_cons, Vc, Vl by done. done.
Qed.

(** A saved store has no staged change of a key left. *)
Lemma saved_or_default re s k c :
  orderly s -> settings_cache_ s !! k = Some c ->
  get_real_string (real (save re s)) k = Some (get_value c) \/
  (re = false /\ is_dirty c = false /\ get_real_string (real (save re s)) k = None /\ get_real_string (real s) k = None /\ get_value c = []).
Proof.
  intros O E. destruct (orderly_inv s O) as (_ & _ & _ & D4 & _). destruct (tidy_cache s (orderly_tidy s O) k c E) as [Fk _].
  rewrite save_real, write_spec, (saved_value re s k O Fk), E. destruct re; [by left|]. simpl.
  destruct (is_dirty c) eqn:Dc; [by left|]. destruct (D4 k c E Dc) as [->|[-> ->]]; [by left|by right].
Qed.
Lemma save_clean re s :
  orderly s ->
  settings_delete_cache_ (save re s) = ∅ /\ settings_delete_path_cache_ (save re s) = ∅ /\
  (forall k, settings_cache_ (save re s) !! k = make_clean <$> settings_cache_ s !! k).
Proof.
  intros O. pose proof (orderly_tidy s O) as T. destruct (orderly_inv s O) as (D1 & D2 & _). set (b := saved_real (save_cache re s) re s).
  assert (forall k, get_real_string (real (save re s)) k = get_real_string b k) as Eb by (intros k; by rewrite save_real, write_spec). split_and!.
  - rewrite save_eq. cbn -[saved_real]. fold b. apply set_eq. intros k. rewrite elem_of_filter, has_real_spec, bool_decide_eq_true.
    split; [|set_solver]. intros [Hk K]. destruct (D2 k K) as [Ec _]. unfold b in Hk.
    rewrite (saved_value re s k O (tidy_deleted s T k K)), Ec, bool_decide_eq_true_2 in Hk by done. by destruct Hk.
  - rewrite save_eq. cbn -[saved_real]. rewrite D1. apply set_eq. intros p. rewrite elem_of_filter. set_solver.
  - intros k. rewrite save_eq. cbn -[saved_real]. fold b. rewrite map_lookup_imap, save_cache_lookup. destruct (settings_cache_ s !! k) as [c|] eqn:E; [|done]. simpl.
    rewrite has_real_spec, <-Eb. destruct (saved_or_default re s k c O E) as [->|(-> & Dc & -> & _)]; simpl; [by destruct re|].
    f_equal. destruct c. unfold make_clean. simpl in *. congruence.
Qed.
Lemma save_tidy re s : orderly s -> tidy (save re s).
Proof.
  intros O. pose proof (orderly_tidy s O) as T. destruct (orderly_inv s O) as (D1 & _). destruct (save_clean re s O) as (S1 & S2 & S3). split.
  - rewrite save_real. apply write_sound, saved_real_sound; [done|by apply save_cache_fine|done].
  - intros k c. rewrite S3, fmap_Some. intros (c' & E & ->). by apply (tidy_cache s T k c').
  - rewrite S1. set_solver.
  - intros p. rewrite save_eq. cbn -[saved_real]. rewrite elem_of_filter. intros [_ Hp]. by apply (tidy_paths s T).
Qed.

Lemma save_spec re s : orderly s -> (forall k, fine k -> value_of k (save re s) = value_of k s) /\ orderly (save re s).
Proof.
  induction s as [s IH] using store_rect'. intros O. destruct (orderly_inv s O) as (D1 & D2 & D3 & D4 & D5).
  destruct (save_children re (children_ s) IH D5) as [Fv Oc]. destruct (save_clean re s O) as (S1 & S2 & S3). pose proof (save_children_eq re s) as Ec. split.
  - intros k Fk. rewrite (view_eq k s), (orderly_staged k s O), view_eq. unfold staged_deleted. rewrite S1, S2, S3, Ec, Fv, save_real, write_spec, (saved_value re s k O Fk) by done.
    rewrite !(bool_decide_eq_false_2 (_ ∈ ∅)) by set_solver. simpl. destruct (settings_cache_ s !! k) as [c|] eqn:E; simpl.
    + rewrite bool_decide_eq_false_2; [done|]. intros K. destruct (D2 k K). congruence.
    + case_bool_decide as K; [|done]. by apply D2.
  - constructor; [done|rewrite S1; set_solver| | |by rewrite Ec|by apply save_tidy].
    + intros k c. rewrite S3, fmap_Some. intros (c' & E & ->). destruct (tidy_cache s (orderly_tidy s O) k c' E) as [Fk _]. rewrite Ec, Fv by done. intros N.
      destruct (saved_or_default re s k c' O E) as [X|(_ & _ & _ & X & _)]; [congruence|]. by eapply D3.
    + intros k c. rewrite S3, fmap_Some. intros (c' & E & ->) _. simpl. destruct (saved_or_default re s k c' O E) as [X|(_ & _ & X & _ & Y)]; auto.
Qed.

(** ** Sequences of calls *)

Inductive call :=
| CGet (k : key_path) | CHas (k : key_path) | CSet (k : key_path) (v : cppstring) | CRemove (k : key_path)
| CAddPath (p : cppstring) | CAddKey (p k : cppstring) | CSave (re_save_all : bool).
Inductive answer := AValue (v : option cppstring) | AHas (b : bool) | ANone.
Definition run_call (o : call) (s : store) : answer * store :=
  match o with
  | CGet k => let '(v, s) := getter k s in (AValue v, s)
  | CHas k => (AHas (has_key k s), s)
  | CSet k v => (ANone, (setter k v s).2)
  | CRemove k => (ANone, remove_key k.1 k.2 s)
  | CAddPath p => (ANone, add_path p s)
  | CAddKey p k => (ANone, add_key p k s)
  | CSave re => (ANone, save re s)
  end.
Fixpoint run_calls (l : list call) (s : store) : list answer * store :=
  match l with
  | [] => ([], s)
  | o :: l' => let '(a, s) := run_call o s in let '(r, s) := run_calls l' s in (a :: r, s)
  end.

(** The specification: a plain map. *)
Definition spec_call (o : call) (m : key_path -> option cppstring) : answer * (key_path -> option cppstring) :=
  match o with
  | CGet k => (AValue (m k), m)
  | CHas k => (AHas (bool_decide (is_Some (m k))), m)
  | CSet k v => (ANone, fun k' => if bool_decide (k' = k) then Some v else m k')
  | CRemove k => (ANone, fun k' => if bool_decide (k' = k) then None else m k')
  | _ => (ANone, m)
  end.
Fixpoint spec_calls (l : list call) (m : key_path -> option cppstring) : list answer * (key_path -> option cppstring) :=
  match l with
  | [] => ([], m)
  | o :: l' => let '(a, m) := spec_call o m in let '(r, m) := spec_calls l' m in (a :: r, m)
  end.

(** No include defines the key. *)
Definition own (k : key_path) (s : store) : Prop := first_view k (children_ s) = None.
Definition removes_own (s : store) (o : call) : Prop := match o with CRemove k => own k s | _ => True end.
(** A call with keys, paths and values that the backend keeps. *)
Definition fine_call (o : call) : Prop :=
  match o with
  | CGet k | CHas k | CRemove k => fine k
  | CSet k v => fine k /\ fine_value v
  | CAddPath p => fine_path p
  | CAddKey _ _ | CSave _ => True
  end.

Lemma getter_own k k' s : own k' (getter k s).2 <-> own k' s.
Proof.
  unfold own. rewrite getter_eq. destruct (staged_deleted k s); [done|]. destruct (settings_cache_ s !! k); [done|].
  destruct (get_real_string (real s) k); [done|]. destruct (in_child k (getter k) (children_ s)) as [[r l]|] eqn:Ei; [|done].
  destruct (in_child_found _ _ _ _ _ Ei) as (l1 & c & l2 & El & -> & _ & _ & _). simpl.
  rewrite El, !first_view_app, !first_view_cons. by rewrite (proj1 (getter_spec k c)).
Qed.
Lemma setter_own k v k' s : fine k -> fine_value v -> orderly s -> own k' s -> own k' (setter k v s).2.
Proof.
  intros Fk Fv O. unfold own. rewrite setter_eq. cbv zeta. destruct (orderly_inv s O) as (_ & _ & _ & _ & D5).
  destruct (match settings_cache_ s !! k with Some c => _ | None => _ end); [done|].
  destruct (if bool_decide _ then _ else None) as [[r l]|] eqn:Ei; [|by destruct (match get_real_string (real s) k with Some v => _ | None => _ end)].
  destruct (bool_decide _); [|done]. destruct (in_child_found _ _ _ _ _ Ei) as (l1 & c & l2 & El & -> & _ & Hk & N). simpl.
  rewrite El in D5. apply Forall_app in D5 as [_ [Oc _]%Forall_cons].
  rewrite El, !first_view_app, !first_view_cons, (proj1 (setter_spec k v c Fk Fv Oc)). case_bool_decide as E; [|done]. subst k'.
  rewrite N. rewrite has_key_view in Hk. apply bool_decide_eq_true in Hk as [w ->]. done.
Qed.
Lemma save_own re k s : fine k -> orderly s -> own k s -> own k (save re s).
Proof.
  intros Fk O. unfold own. destruct (orderly_inv s O) as (_ & _ & _ & _ & D5). rewrite save_children_eq.
  rewrite (proj1 (save_children re (children_ s) ltac:(apply Forall_forall; intros; by apply save_spec) D5)) by done. done.
Qed.

Lemma run_call_spec o s :
  orderly s -> fine_call o -> removes_own s o ->
  (run_call o s).1 = (spec_call o (fun k => value_of k s)).1 /\ orderly (run_call o s).2 /\
  (forall k, fine k -> value_of k (run_call o s).2 = (spec_call o (fun k => value_of k s)).2 k) /\ (forall k, fine k -> own k s -> own k (run_call o s).2).
Proof.
  intros O F R. destruct o as [k|k|k v|k|p|p k|re]; simpl in *.
  - destruct (getter_spec k s) as [V O']. pose proof (fun k' => getter_own k k' s) as Ow. unfold value_of at 1. destruct (getter k s) as [r s'].
    split_and!; [done|by apply O'|done|]. intros k' _ Hk. by apply Ow.
  - by rewrite has_key_view.
  - destruct F as [Fk Fv]. destruct (setter_spec k v s Fk Fv O) as [V O']. split_and!; [done|done|done|]. intros k' _ Hk. by apply setter_own.
  - destruct k as [p k]. destruct (remove_key_spec p k s F O R) as [V O']. by split_and!.
  - destruct (names_spec ({[p]} ∪ path_cache_ s) (key_cache_ s) s) as [V O']. split_and!; try done. apply O'; [|done].
    intros q [->%elem_of_singleton|Hq]%elem_of_union; [done|]. by apply (tidy_paths s (orderly_tidy s O)).
  - destruct (names_spec (path_cache_ s) (<[p := {[k]} ∪ default ∅ (key_cache_ s !! p)]> (key_cache_ s)) s) as [V O']. split_and!; try done. apply O'; [|done].
    intros q. apply (tidy_paths s (orderly_tidy s O)).
  - destruct (save_spec re s O) as [V O']. split_and!; try done. intros k Fk. by apply save_own.
Qed.
Lemma spec_calls_ext l m m' : Forall fine_call l -> (forall k, fine k -> m k = m' k) ->
  (spec_calls l m).1 = (spec_calls l m').1 /\ forall k, fine k -> (spec_calls l m).2 k = (spec_calls l m').2 k.
Proof.
  intros F. revert m m'. induction F as [|o l Fo F IH]; intros m m' E; [done|]. simpl.
  assert ((spec_call o m).1 = (spec_call o m').1 /\ forall k, fine k -> (spec_call o m).2 k = (spec_call o m').2 k) as [E1 E2].
  { destruct o; simpl in *; rewrite ?E by done; split; try done; intros k' Fk'; case_bool_decide; auto. }
  destruct (spec_call o m) as [a n], (spec_call o m') as [a' n']. simpl in *. destruct (IH n n' E2) as [F1 F2].
  destruct (spec_calls l n), (spec_calls l n'). simpl in *. split; [congruence|done].
Qed.
Lemma run_calls_spec l s :
  orderly s -> Forall fine_call l -> Forall (removes_own s) l ->
  (run_calls l s).1 = (spec_calls l (fun k => value_of k s)).1 /\ orderly (run_calls l s).2 /\
  (forall k, fine k -> value_of k (run_calls l s).2 = (spec_calls l (fun k => value_of k s)).2 k).
Proof.
  intros O F. revert s O. induction F as [|o l Fo F IH]; intros s O R; [done|]. apply Forall_cons in R as [R1 R2]. simpl.
  destruct (run_call_spec o s O Fo R1) as (A & O' & V & Ow). destruct (run_call o s) as [a s']. destruct (spec_call o _) as [a' m]. simpl in *.
  assert (Forall (removes_own s') l) as R'.
  { rewrite Forall_forall in *. intros x Hx. specialize (R2 x Hx). specialize (F x Hx). destruct x; simpl in *; auto. }
  destruct (IH s' O' R') as (A' & O'' & V'). destruct (spec_calls_ext l (fun k => value_of k s') m F V) as [E1 E2].
  destruct (run_calls l s') as [r s'']. destruct (spec_calls l m) as [r' m']. simpl in *. split_and!; [congruence|done|]. intros k Fk. by rewrite V', E2.
Qed.

(** The stores of a file and its includes, as they are opened. *)
Inductive file := File (b : B) (includes : list file).
Fixpoint open_store (f : file) : store := match f with File b includes => fresh_store b (map open_store includes) end.
Fixpoint sound_files (f : file) : Prop := match f with File b includes => sound b /\ fold_right (fun f P => sound_files f /\ P) True includes end.
Lemma open_orderly f : sound_files f -> orderly (open_store f).
Proof.
  revert f. fix IH 1. intros [b includes] [Sb Si]. simpl. constructor; simpl; try done.
  clear Sb. induction includes as [|f l IHl]; constructor; [apply IH, Si|apply IHl, Si].
Qed.

(** ** Includes hold only what their files define *)

Inductive backed : store -> Prop :=
| backed_intro s :
    settings_delete_cache_ s = ∅ -> (forall k c, settings_cache_ s !! k = Some c -> is_Some (get_real_string (real s) k)) ->
    Forall backed (children_ s) -> backed s.
Lemma backed_inv s : backed s ->
  settings_delete_cache_ s = ∅ /\ (forall k c, settings_cache_ s !! k = Some c -> is_Some (get_real_string (real s) k)) /\ Forall backed (children_ s).
Proof. by destruct 1. Qed.
Definition includes_backed (s : store) : Prop := Forall backed (children_ s).

Lemma middle_backed (l1 : list store) c c' l2 : (backed c -> backed c') -> Forall backed (l1 ++ c :: l2) -> Forall backed (l1 ++ c' :: l2).
Proof. intros Hc. rewrite !Forall_app, !Forall_cons. tauto. Qed.
Lemma getter_backed k s : (backed s -> backed (getter k s).2) /\ (includes_backed s -> includes_backed (getter k s).2).
Proof.
  induction s as [s IH] using store_rect'. rewrite getter_eq. destruct (staged_deleted k s); [done|]. destruct (settings_cache_ s !! k); [done|].
  destruct (get_real_string (real s) k) as [v|] eqn:Er; simpl.
  - split; [|done]. intros (B1 & B2 & B3)%backed_inv. constructor; simpl; try done. intros k' c'. rewrite lookup_insert_Some. intros [[<- <-]|[_ E]]; [by rewrite Er|by eapply B2].
  - destruct (in_child k (getter k) (children_ s)) as [[r l]|] eqn:Ei; simpl; [|done].
    destruct (in_child_found _ _ _ _ _ Ei) as (l1 & c & l2 & El & -> & _ & _ & _). rewrite El in IH. apply Forall_app in IH as [_ IH]. apply Forall_cons in IH as [[IH _] _].
    assert (Forall backed (children_ s) -> Forall backed (l1 ++ (getter k c).2 :: l2)) as Hm by (rewrite El; by apply middle_backed).
    split; [|exact Hm]. intros (B1 & B2 & B3)%backed_inv. constructor; simpl; auto.
Qed.
Lemma in_child_some {A} k (f : store -> A * store) l : existsb (has_key k) l = true -> is_Some (in_child k f l).
Proof.
  induction l as [|c l IH]; simpl; [done|]. destruct (has_key k c); simpl; [by destruct (f c)|]. intros [[r l'] ->]%IH. done.
Qed.
Lemma setter_backed k v s : (has_key k s = true -> backed s -> backed (setter k v s).2) /\ (includes_backed s -> includes_backed (setter k v s).2).
Proof.
  induction s as [s IH] using store_rect'. rewrite setter_eq. cbv zeta. set (s1 := with_staged _ _ s).
  destruct (match settings_cache_ s !! k with Some c => _ | None => _ end) eqn:Em; simpl.
  { split; [|done]. intros _ (B1 & B2 & B3)%backed_inv. constructor; simpl; [set_solver|done|done]. }
  destruct (in_child k (setter k v) (children_ s)) as [[r l]|] eqn:Ei.
  - destruct (in_child_found _ _ _ _ _ Ei) as (l1 & c & l2 & El & -> & _ & Hk & _). pose proof IH as IHc. rewrite El in IHc. apply Forall_app in IHc as [_ IHc]. apply Forall_cons in IHc as [[IHc _] _].
    assert (Forall backed (children_ s) -> Forall backed (l1 ++ (setter k v c).2 :: l2)) as Hm by (rewrite El; apply middle_backed; auto).
    destruct (bool_decide_reflect (get_real_string (real s) k = None)) as [Er|Nr]; simpl.
    + split; [|exact Hm]. intros _ (B1 & B2 & B3)%backed_inv. constructor; simpl; [set_solver|done|auto].
    + split; [|by destruct (match get_real_string (real s) k with Some v => _ | None => _ end)].
      intros _ (B1 & B2 & B3)%backed_inv. destruct (match get_real_string (real s) k with Some v => _ | None => _ end); constructor; simpl; try done; try set_solver;
        (intros k' c'; rewrite lookup_insert_Some; intros [[<- _]|[_ E]]; [by apply not_eq_None_Some|by eapply B2]).
  - replace (if bool_decide (get_real_string (real s) k = None) then None else None) with (@None (bool * list store)) by by destruct (bool_decide _).
    split; [|by destruct (match get_real_string (real s) k with Some v => _ | None => _ end)]. intros Hk (B1 & B2 & B3)%backed_inv.
    assert (is_Some (get_real_string (real s) k)) as Hr.
    { rewrite has_key_eq in Hk. destruct (staged_deleted k s); [done|]. destruct (settings_cache_ s !! k) as [c|] eqn:Ec; [by eapply B2|]. simpl in Hk.
      rewrite has_real_spec in Hk. destruct (get_real_string (real s) k); [done|]. simpl in Hk. apply (in_child_some k (setter k v)) in Hk. rewrite Ei in Hk. by destruct Hk. }
    destruct (match get_real_string (real s) k with Some v => _ | None => _ end); constructor; simpl; try done; try set_solver;
      (intros k' c'; rewrite lookup_insert_Some; intros [[<- _]|[_ E]]; [done|by eapply B2]).
Qed.
Lemma save_backed re s : orderly s -> (backed s -> backed (save re s)) /\ (includes_backed s -> includes_backed (save re s)).
Proof.
  induction s as [s IH] using store_rect'. intros O. destruct (orderly_inv s O) as (_ & _ & _ & _ & D5). destruct (save_clean re s O) as (S1 & _ & S3).
  assert (includes_backed s -> includes_backed (save re s)) as Hi.
  { unfold includes_backed. rewrite save_children_eq. intros Hb. induction Hb as [|c l Hc Hl IHl]; simpl; [constructor|].
    apply Forall_cons in IH as [IHc IHs]. apply Forall_cons in D5 as [Oc Os]. constructor; [by apply IHc|]. by apply IHl. }
  split; [|exact Hi]. intros (B1 & B2 & B3)%backed_inv. constructor; [done| |by apply Hi].
  intros k c. rewrite S3, fmap_Some. intros (c' & E & ->). destruct (saved_or_default re s k c' O E) as [->|(_ & _ & _ & X & _)]; [done|].
  destruct (B2 k c' E) as [w Y]. congruence.
Qed.
Lemma open_backed f : backed (open_store f).
Proof.
  revert f. fix IH 1. intros [b includes]. simpl. constructor; simpl; [done|done|]. induction includes as [|f l IHl]; constructor; [apply IH|apply IHl].
Qed.
Lemma run_calls_backed l s : orderly s -> Forall fine_call l -> Forall (removes_own s) l -> includes_backed s -> includes_backed (run_calls l s).2.
Proof.
  intros O F. revert s O. induction F as [|o l Fo F IH]; intros s O R Hb; [done|]. apply Forall_cons in R as [R1 R2]. simpl.
  destruct (run_call_spec o s O Fo R1) as (_ & O' & _ & Ow). assert (includes_backed (run_call o s).2) as Hb'.
  { destruct o as [k|k|k v|k|p|p k|re]; simpl; try done.
    - pose proof (proj2 (getter_backed k s) Hb). by destruct (getter k s).
    - by apply setter_backed.
    - by apply save_backed. }
  destruct (run_call o s) as [a s']. simpl in *. specialize (IH s' O'). destruct (run_calls l s') as [r s'']. simpl in *. apply IH; [|done].
  rewrite Forall_forall in *. intros x Hx. specialize (R2 x Hx). specialize (F x Hx). destruct x; simpl in *; auto.
Qed.

(** The store of any backend that keeps its laws is a map. *)
Lemma store_is_a_map (f : file) (l : list call) :
  sound_files f -> Forall fine_call l -> Forall (removes_own (open_store f)) l ->
  (run_calls l (open_store f)).1 = (spec_calls l (fun k => value_of k (open_store f))).1.
Proof. intros Sf. by apply run_calls_spec, open_orderly. Qed.

(** An include that is saved and opened anew answers as before. *)
Lemma reopen_eq s : reopen s = fresh_store (reread (real s)) (map reopen (children_ s)).
Proof. by destruct s. Qed.
Lemma reopened_real `{!durable} re s k : orderly s -> get_real_string (reread (real (save re s))) k = get_real_string (saved_real (save_cache re s) re s) k.
Proof. intros O. rewrite save_real. apply reread_spec, saved_real_sound; [by apply orderly_tidy|by apply save_cache_fine, orderly_tidy|apply (orderly_inv s O)]. Qed.
Lemma reopened_view re s k : value_of k (reopen (save re s)) =
  match get_real_string (reread (real (save re s))) k with Some v => Some v | None => first_view k (map reopen (map (save re) (children_ s))) end.
Proof. by rewrite view_eq, reopen_eq, save_children_eq. Qed.
Lemma backed_reopened `{!durable} re k : fine k -> forall s, orderly s -> backed s -> value_of k (reopen (save re s)) = value_of k s.
Proof.
  intros Fk s. induction s as [s IH] using store_rect'. intros O (B1 & B2 & B3)%backed_inv. destruct (orderly_inv s O) as (_ & _ & _ & D4 & D5).
  assert (first_view k (map reopen (map (save re) (children_ s))) = first_view k (children_ s)) as Ev.
  { induction B3 as [|c l Hc Hl IHl]; simpl map; [done|]. apply Forall_cons in IH as [IHc IHs]. apply Forall_cons in D5 as [Oc Os].
    rewrite !first_view_cons, (IHc Oc Hc), IHl by done. done. }
  rewrite reopened_view, Ev, (reopened_real re s k O), (saved_value re s k O Fk), view_eq, (orderly_staged k s O), B1.
  rewrite !bool_decide_eq_false_2 by set_solver. destruct (settings_cache_ s !! k) as [c|] eqn:E; [|done].
  destruct (re || is_dirty c) eqn:Ed; [done|]. apply orb_false_iff in Ed as [_ Ed]. destruct (D4 k c E Ed) as [->|[N _]]; [done|]. destruct (B2 k c E) as [w Y]. congruence.
Qed.

(** The store of a durable one is read back. *)
Lemma store_is_read_back `{!durable} (f : file) (l : list call) (re_save_all : bool) (k : key_path) :
  sound_files f -> Forall fine_call l -> Forall (removes_own (open_store f)) l -> fine k ->
  let s := (run_calls l (open_store f)).2 in
  default [] (value_of k (reopen (save re_save_all s))) = default [] ((spec_calls l (fun k => value_of k (open_store f))).2 k) /\
  (re_save_all = true -> value_of k (reopen (save re_save_all s)) = (spec_calls l (fun k => value_of k (open_store f))).2 k).
Proof.
  intros Sf F R Fk s. pose proof (open_orderly f Sf) as O0. destruct (run_calls_spec l (open_store f) O0 F R) as (_ & O & V). fold s in O, V. rewrite <-V by done.
  assert (includes_backed s) as Hb by (apply run_calls_backed; try done; by destruct (backed_inv _ (open_backed f)) as (_ & _ & ?)).
  destruct (orderly_inv s O) as (_ & D2 & D3 & D4 & D5).
  assert (first_view k (map reopen (map (save re_save_all) (children_ s))) = first_view k (children_ s)) as Ev.
  { unfold includes_backed in Hb. clear D2 D3 D4 O R V. clearbody s. induction Hb as [|x xs Hc Hl IHl]; simpl map; [done|]. apply Forall_cons in D5 as [Oc Os].
    rewrite !first_view_cons, (backed_reopened re_save_all k Fk x Oc Hc), IHl by done. done. }
  rewrite reopened_view, Ev, (reopened_real re_save_all s k O), (saved_value re_save_all s k O Fk), view_eq, (orderly_staged k s O).
  destruct (settings_cache_ s !! k) as [c|] eqn:E.
  - rewrite bool_decide_eq_false_2 by (intros K; destruct (D2 k K); congruence). destruct re_save_all; [done|]. simpl. destruct (is_dirty c) eqn:Dc; [done|].
    destruct (D4 k c E Dc) as [->|[N ->]]; [done|]. by rewrite N, (D3 k c E N).
  - case_bool_decide as K; [|done]. by rewrite (proj2 (D2 k K)).
Qed.

Lemma get_changes_eq s :
  get_changes s =
  concat (map (key_change s) (map_to_list (settings_cache_ s))) ++
  map (fun k => mkChange k.1 k.2 (default [] (get_real_string (real s) k)) [] removed) (elements (settings_delete_cache_ s)) ++
  map (fun p => mkChange p [] [] [] path_removed) (elements (settings_delete_path_cache_ s)) ++
  map (fun p => mkChange p [] [] [] path_added) (List.filter (fun p => negb (has_real_path (real s) p)) (elements (path_cache_ s))) ++
  concat (map get_changes (children_ s)).
Proof. by destruct s. Qed.
Lemma save_no_changes re s : orderly s -> Forall (fun c => kind c = path_added) (get_changes (save re s)).
Proof.
  induction s as [s IH] using store_rect'. intros O. destruct (save_clean re s O) as (S1 & S2 & S3). rewrite get_changes_eq, S1, S2, !elements_empty.
  simpl. rewrite !Forall_app. split_and!.
  - rewrite Forall_concat, Forall_map. apply Forall_forall. intros [k c] K. apply elem_of_map_to_list in K. rewrite S3, fmap_Some in K.
    destruct K as (c' & _ & ->). by constructor.
  - rewrite Forall_map. apply Forall_forall. done.
  - assert (children_ (save re s) = map (save re) (children_ s)) as -> by by destruct s. destruct (orderly_inv s O) as (_ & _ & _ & _ & D5).
    rewrite Forall_concat, !Forall_map. rewrite Forall_forall in *. intros c C. simpl. by apply IH, D5.
Qed.

(** After a save no pending change of a key is reported any more, in the store or in any of its
    includes. *)
Theorem save_leaves_no_change (f : file) (l : list call) (re_save_all : bool) :
  sound_files f -> Forall fine_call l -> Forall (removes_own (open_store f)) l ->
  Forall (fun c => kind c = path_added) (get_changes (save re_save_all (run_calls l (open_store f)).2)).
Proof. intros Sf F R. apply save_no_changes. by apply (run_calls_spec l (open_store f) (open_orderly f Sf) F R). Qed.
End View.

(** ** A file of values *)

Module Demo.
#[local] Instance values : backend := {|
  B := gmap key_path cppstring;
  get_real_string b k := b !! k;
  has_real_key b k := bool_decide (is_Some (b !! k));
  has_real_path b p := existsb (fun e => bool_decide (e.1.1 = p)) (map_to_list b);
  get_real_keys b p := map (fun e => e.1.2) (List.filter (fun e => bool_decide (e.1.1 = p)) (map_to_list b));
  get_real_sections b q := map (fun e => e.1.1) (List.filter (fun e => is_prefix q e.1.1) (map_to_list b));
  set_real_value k c b := if is_dirty c then <[k := get_value c]> b else b;
  remove_real_value k b := delete k b;
  remove_real_path p b := filter (fun e => e.1.1 <> p) b;
  set_real_path _ b := b;
  real_clear_cache b := b;
  write_file b := b;
  reread b := b |}.
#[local] Instance values_lawful : lawful.
Proof.
  refine {| fine _ := True; fine_path _ := True; fine_value _ := True; sound _ := True |}; try done.
  - intros b k c k' _ _ _ _. simpl. destruct (is_dirty c); simpl; [|done]. destruct (decide (k = k')) as [->|N].
    + by rewrite bool_decide_eq_true_2, lookup_insert_eq.
    + by rewrite bool_decide_eq_false_2, lookup_insert_ne.
  - intros b k k' _ _ _. simpl. destruct (decide (k = k')) as [->|N].
    + by rewrite bool_decide_eq_true_2, lookup_delete_eq.
    + by rewrite bool_decide_eq_false_2, lookup_delete_ne.
Defined.

Definition p : cppstring := str "/p".
Definition a : key_path := (p, str "a").
Definition b : key_path := (p, str "b").
Definition v1 : cppstring := str "1".
Definition v2 : cppstring := str "2".
Definition disk : file := File {[a := v1]} [File {[b := v2]} []].
Definition calls : list call := [CGet a; CSet b (str "3"); CRemove a; CSave false; CGet a; CGet b].

Lemma removes_own_demo : Forall (removes_own (open_store disk)) calls.
Proof. repeat constructor. Qed.
Lemma no_change_witness : Forall (fun c => kind c = path_added) (get_changes (save false (run_calls calls (open_store disk)).2)).
Proof. apply (save_leaves_no_change disk calls false); [by repeat split|by repeat constructor|exact removes_own_demo]. Defined.

(** A value that was read once outlives the deletion of its path, and setting it again writes
    nothing. *)
Example removed_path_still_answers :
  let s := save false (remove_path p (getter a (open_store (File {[a := v1]} []))).2) in
  real s !! a = None /\ value_of a s = Some v1 /\ real (save false (setter a v1 s).2) !! a = None.
Proof. vm_compute. done. Qed.
(** A value that was set but not yet saved is written by the save that deletes its path. *)
Example removed_path_is_written :
  let s := save false (remove_path p (setter a v1 (open_store (File ∅ []))).2) in real s !! a = Some v1.
Proof. vm_compute. done. Qed.
(** A removed key of an included file comes back with the next save. *)
Example removed_include_key_returns :
  let s := remove_key p (str "b") (open_store disk) in value_of b s = None /\ value_of b (save false s) = Some v2.
Proof. vm_compute. done. Qed.
(** Setting one key of a path staged for deletion brings back the others. *)
Example set_revives_path :
  let s := remove_path p (open_store (File {[a := v1; b := v2]} [])) in
  value_of b s = None /\ value_of b (setter a (str "3") s).2 = Some v2.
Proof. vm_compute. done. Qed.
(** A section that is not yet saved is listed cut short, or with more than its own name. *)
Example cached_sections_are_cut :
  cached_section [] (str "/modules/x") = [str "/module"] /\ cached_section (str "/settings") (str "/settings/x/y/z") = [str "x/y/z"].
Proof. vm_compute. done. Qed.
End Demo.
