(* ===== verification/SettingsIni.v ===== *)
(** The INI files behind the settings: include/settings/impl/settings_ini.hpp over the files of
    SimpleIni, as a backend of the store of Settings, and what the two promise together.

    A build other than Windows: a value that points to the credential manager is answered as it
    is written.  The file exists or not, opening, reading and writing it succeed, and the
    descriptions the core has of keys and paths are parameters. *)

From stdpp Require Import base list gmap strings.
From Stdlib Require Import Ascii ZArith Lia.
From Stdlib Require String.
From S2P Require Import Prelude Strings NumberText SimpleIni Settings.
Import String.StringSyntax.

(** ** The backend *)

(** The platform's line ends, and the title and description of registered keys and paths. *)
Class installation := {
  line_end : cppstring;
  registered_key : key_path -> option (cppstring * cppstring);
  registered_path : cppstring -> option (cppstring * cppstring);
  line_end_ok : line_end = [c_newline] \/ line_end = [c_return; c_newline]
}.

(** [INISettings]: the data, whether it is written as UTF-8, and the text of the file. *)
Record ini_settings := mkIniSettings { ini_ : ini; m_bStoreIsUtf8 : bool; disk : option cppstring }.

Definition load_data (b : ini_settings) : ini_settings :=
  match disk b with None => b | Some text => mkIniSettings (LoadData text (ini_ b)) true (disk b) end.
Definition new_ini_settings (file : option cppstring) : ini_settings := load_data (mkIniSettings empty_ini false file).

Definition ini_get_real_string (b : ini_settings) (k : key_path) : option cppstring := c_str <$> GetValue (m_data (ini_ b)) (c_str k.1) (c_str k.2).
Definition ini_has_real_key (b : ini_settings) (k : key_path) : bool := bool_decide (is_Some (GetValue (m_data (ini_ b)) (c_str k.1) (c_str k.2))).
Definition ini_has_real_path (b : ini_settings) (path : cppstring) : bool := (0 <? GetSectionSize (m_data (ini_ b)) (c_str path))%Z.

(** [str::utils::replace(comment, newline, blank)] *)
Definition one_line (s : cppstring) : cppstring := default s (replace (S (length s)) s [c_newline] (str " ")).
Definition render_description (desc : cppstring * cppstring) : cppstring :=
  one_line (str "; " ++ (if bool_decide (desc.1 = []) then [] else desc.1 ++ str " - ") ++ desc.2).
Definition render_comment (desc : option (cppstring * cppstring)) : cppstring := match desc with Some d => render_description d | None => [] end.

Definition with_data (d : list section) (b : ini_settings) : ini_settings := mkIniSettings (mkIni (m_pFileComment (ini_ b)) d) (m_bStoreIsUtf8 b) (disk b).

Definition ini_set_real_value `{installation} (key : key_path) (value : conainer) (b : ini_settings) : ini_settings :=
  if negb (is_dirty value) then b else
  let comment := render_comment (registered_key key) in
  let d := Delete (c_str key.1) (Some (c_str key.2)) false (m_data (ini_ b)) in
  with_data (AddEntry (c_str key.1) (Some (c_str key.2, c_str (get_value value))) (Some (c_str comment)) d) b.
Definition ini_set_real_path `{installation} (path : cppstring) (b : ini_settings) : ini_settings :=
  let comment := match registered_path path with Some d => render_description d | None => str "; Undocumented section" end in
  if bool_decide (comment = []) then b else with_data (AddEntry (c_str path) None (Some (c_str comment)) (m_data (ini_ b))) b.
Definition ini_remove_real_value (key : key_path) (b : ini_settings) : ini_settings :=
  with_data (Delete (c_str key.1) (Some (c_str key.2)) true (m_data (ini_ b))) b.
Definition ini_remove_real_path (path : cppstring) (b : ini_settings) : ini_settings := with_data (Delete (c_str path) None true (m_data (ini_ b))) b.

(** The section that one section of the file contributes to the sections below a path. *)
Definition ini_section (path key : cppstring) : list cppstring :=
  let slash := str "/" in
  if bool_decide (path = []) then
    if Nat.ltb 1 (length key) then match find key slash 1 with Some pos => [substr key 0 pos] | None => [key] end else [key]
  else
    let path_len := length path in
    if Nat.ltb (path_len + 1) (length key) && bool_decide (substr key 0 path_len = path) then
      let skip := if Nat.ltb 1 path_len && match key !! path_len with Some c => bool_decide (c = "/"%char) || bool_decide (c = c_backslash) | None => false end then 1%nat else 0%nat in
      match find key slash (path_len + 1) with
      | Some pos => [substr key (path_len + skip) (pos - path_len - skip)]
      | None => [substr_from key (path_len + skip)]
      end
    else [].
Definition ini_get_real_sections (b : ini_settings) (path : cppstring) : list cppstring := concat (map (ini_section path) (GetAllSections (m_data (ini_ b)))).
Definition ini_get_real_keys (b : ini_settings) (path : cppstring) : list cppstring := GetAllKeys (m_data (ini_ b)) (c_str path).

(** The end of [save]: [SaveFile], with the signature of UTF-8. *)
Definition ini_write_file `{installation} (b : ini_settings) : ini_settings :=
  mkIniSettings (ini_ b) (m_bStoreIsUtf8 b) (Some (Save line_end (m_bStoreIsUtf8 b) (ini_ b))).

#[export] Instance ini_backend `{installation} : backend := {|
  B := ini_settings;
  get_real_string := ini_get_real_string;
  has_real_key := ini_has_real_key;
  has_real_path := ini_has_real_path;
  get_real_keys := ini_get_real_keys;
  get_real_sections := ini_get_real_sections;
  set_real_value := ini_set_real_value;
  remove_real_value := ini_remove_real_value;
  remove_real_path := ini_remove_real_path;
  set_real_path := ini_set_real_path;
  real_clear_cache := load_data;
  write_file := ini_write_file;
  reread b := new_ini_settings (disk b) |}.

(** ** Its laws *)

Definition no_nul (s : cppstring) : Prop := Ascii.zero ∉ s.
Lemma c_str_no_nul s : no_nul (c_str s).
Proof. unfold no_nul. induction s as [|c s IH]; cbn [c_str]; [apply not_elem_of_nil|]. case_bool_decide; [apply not_elem_of_nil|]. apply not_elem_of_cons. by split. Qed.

(** Keys that are equal ignoring the case of letters are equal. *)
Definition fold_key (k : key_path) : key_path := (fold_name k.1, fold_name k.2).
Definition apart (U : key_path -> Prop) : Prop := forall k k', U k -> U k' -> fold_key k = fold_key k' -> k = k'.
Definition plain_key (k : key_path) : Prop := no_nul k.1 /\ no_nul k.2.

Section Laws.
Context `{installation}.

Lemma same_keys U k k' : apart U -> U k -> U k' -> same_name k.1 k'.1 && same_name k.2 k'.2 = bool_decide (k = k').
Proof.
  intros HU H1 H2. unfold same_name. destruct (decide (k = k')) as [->|N].
  - by rewrite !bool_decide_eq_true_2.
  - rewrite (bool_decide_eq_false_2 (k = k')) by done. destruct (bool_decide (fold_name k.1 = fold_name k'.1)) eqn:E1; [|done].
    destruct (bool_decide (fold_name k.2 = fold_name k'.2)) eqn:E2; [|done]. apply bool_decide_eq_true in E1, E2. exfalso. apply N, HU; [done|done|].
    unfold fold_key. by rewrite E1, E2.
Qed.
Lemma get_set_law U b k c k' : apart U -> U k -> U k' -> plain_key k -> plain_key k' -> no_nul (get_value c) -> unique (m_data (ini_ b)) ->
  ini_get_real_string (ini_set_real_value k c b) k' = if is_dirty c && bool_decide (k = k') then Some (get_value c) else ini_get_real_string b k'.
Proof.
  intros HU H1 H2 [P1 P2] [P3 P4] Hv Hu. unfold ini_get_real_string, ini_set_real_value. destruct (is_dirty c); cbn [negb andb with_data ini_ m_data]; [|done].
  rewrite !(c_str_id k.1), !(c_str_id k.2), !(c_str_id k'.1), !(c_str_id k'.2), (c_str_id (get_value c)) by done.
  rewrite GetValue_AddEntry, (same_keys U) by done. destruct (bool_decide (k = k')) eqn:E; cbn [fmap option_fmap option_map]; [by rewrite c_str_id|].
  by rewrite GetValue_Delete, (same_keys U), E by done.
Qed.
Lemma get_remove_law U b k k' : apart U -> U k -> U k' -> plain_key k -> plain_key k' -> unique (m_data (ini_ b)) ->
  ini_get_real_string (ini_remove_real_value k b) k' = if bool_decide (k = k') then None else ini_get_real_string b k'.
Proof.
  intros HU H1 H2 [P1 P2] [P3 P4] Hu. unfold ini_get_real_string, ini_remove_real_value. cbn [with_data ini_ m_data].
  rewrite !(c_str_id k.1), !(c_str_id k.2), !(c_str_id k'.1), !(c_str_id k'.2) by done.
  rewrite GetValue_Delete, (same_keys U) by done. by destruct (bool_decide (k = k')).
Qed.
Lemma get_path_law b p k : ini_get_real_string (ini_set_real_path p b) k = ini_get_real_string b k.
Proof. unfold ini_get_real_string, ini_set_real_path. destruct (bool_decide _); [done|]. cbn [with_data ini_ m_data]. by rewrite GetValue_AddSection. Qed.
Lemma has_law b k : ini_has_real_key b k = bool_decide (is_Some (ini_get_real_string b k)).
Proof. unfold ini_has_real_key, ini_get_real_string. by destruct (GetValue _ _ _). Qed.
Lemma get_value_law b k v : ini_get_real_string b k = Some v -> no_nul v.
Proof. unfold ini_get_real_string. rewrite fmap_Some. intros (w & _ & ->). apply c_str_no_nul. Qed.

Lemma AddEntry_unique sec item c l : unique l -> unique (AddEntry sec item c l).
Proof.
  assert (forall c f, unique l -> unique (put_section sec c f l)) as Hp.
  { intros c' f Hu. unfold unique in *. destruct (put_section_cases sec c' f l) as [(l1 & s & l2 & -> & _ & ->)|[Hn ->]].
    - by rewrite map_app in *.
    - rewrite map_app. by apply fresh_name. }
  destruct item as [[k v]|]; simpl; apply Hp.
Qed.
Lemma Delete_unique sec k e l : unique l -> unique (Delete sec (Some k) e l).
Proof.
  unfold unique. intros Hu. destruct (Delete_cases sec k e l) as [->|(l1 & s & l2 & ks & E & _ & _ & [->| ->])]; [done| |]; rewrite E in Hu; rewrite map_app in *; [done|].
  simpl in Hu. apply NoDup_app in Hu as (N1 & N2 & [_ N4]%NoDup_cons). apply NoDup_app. split; [done|]. split; [|done]. intros x Hx Hy. apply (N2 x Hx). by right.
Qed.
Lemma load_entries_unique fuel : forall s cur l, unique l -> unique (load_entries fuel s cur l).
Proof.
  induction fuel as [|fuel IH]; intros s cur l Hu; cbn [load_entries]; [done|]. destruct (FindEntry (S (length s)) s cur None) as [[[[f c] cur'] rest]|]; [|exact Hu]. apply IH. by apply AddEntry_unique.
Qed.
Lemma new_unique file : unique (m_data (ini_ (new_ini_settings file))).
Proof.
  unfold new_ini_settings, load_data. cbn [disk]. destruct file as [text|]; [|constructor]. cbn [ini_]. unfold LoadData. cbn [m_pFileComment empty_ini].
  destruct (if starts IsComment _ then _ else _) as [c s]. cbn [m_data]. apply load_entries_unique. constructor.
Qed.

(** ** Comments that can be written *)

(** No title and no description has a carriage return. *)
Definition plain_descriptions : Prop :=
  (forall k d, registered_key k = Some d -> c_return ∉ d.1 ++ d.2) /\ (forall p d, registered_path p = Some d -> c_return ∉ d.1 ++ d.2).

Lemma one_line_subst s : one_line s = subst_char c_newline (str " ") s.
Proof. unfold one_line. by rewrite (proj2 (replace_correct s [] (str " ") c_newline)). Qed.
Lemma text_lines_one s : c_newline ∉ s -> text_lines s = [s].
Proof. induction s as [|c s IH]; cbn [text_lines]; [done|]. rewrite not_elem_of_cons. intros [Hc Hs]. rewrite bool_decide_eq_false_2 by congruence. by rewrite IH. Qed.
Lemma subst_char_elem c w s x : x ∈ subst_char c w s -> x ∈ w \/ x ∈ s /\ x <> c.
Proof.
  unfold subst_char. induction s as [|y s IH]; cbn [map concat]; [by intros ?%elem_of_nil|]. rewrite elem_of_app. case_bool_decide as E.
  - intros [Hx|Hx]; [by left|]. destruct (IH Hx) as [?|[? ?]]; [by left|]. right. split; [by right|done].
  - intros [->%list_elem_of_singleton|Hx]; [right; split; [left|done]|]. destruct (IH Hx) as [?|[? ?]]; [by left|]. right. split; [by right|done].
Qed.
Lemma c_str_elem x s : x ∈ c_str s -> x ∈ s.
Proof.
  induction s as [|c s IH]; cbn [c_str]; [done|]. case_bool_decide; [by intros ?%elem_of_nil|]. intros [->|Hx]%elem_of_cons; [left|right; auto].
Qed.
Lemma ok_one_line c s : IsComment c = true -> c <> c_newline -> c_return ∉ s -> c_return <> c -> c <> Ascii.zero -> ok_comment (Some (c_str (subst_char c_newline (str " ") (c :: s)))).
Proof.
  intros H1 H2 H3 H4 H5. assert (forall x, x ∈ c_str (subst_char c_newline (str " ") (c :: s)) -> in_line x = true) as Hin.
  { intros x Hx. pose proof (c_str_no_nul (subst_char c_newline (str " ") (c :: s))) as Hz. destruct (decide (x = Ascii.zero)) as [->|Nz]; [done|].
    apply c_str_elem, subst_char_elem in Hx as [->%list_elem_of_singleton|[Hx Nx]]; [done|]. unfold in_line, IsNewLineChar. rewrite bool_decide_eq_false_2; [done|].
    intros [?|[->|?%list_elem_of_singleton]%elem_of_cons]%elem_of_cons; try done. apply elem_of_cons in Hx as [?|?]; done. }
  cbn [ok_comment]. rewrite text_lines_one by (intros Hn; by apply Hin in Hn). constructor; [|constructor]. right. split; [|by apply Forall_forall].
  unfold subst_char. cbn [map concat]. rewrite bool_decide_eq_false_2 by done. cbn [app c_str]. by rewrite bool_decide_eq_false_2.
Qed.
Lemma description_comment d : c_return ∉ d.1 ++ d.2 -> ok_comment (Some (c_str (render_description d))).
Proof.
  intros Hd. unfold render_description. rewrite one_line_subst. apply (ok_one_line ";"%char (str " " ++ (if bool_decide (d.1 = []) then [] else d.1 ++ str " - ") ++ d.2)); try done.
  apply not_elem_of_app in Hd as [H1 H2]. rewrite !not_elem_of_app. split_and!; [vm_decide| |done]. destruct (bool_decide _); [by apply not_elem_of_nil|].
  apply not_elem_of_app. split; [done|vm_decide].
Qed.
Lemma key_comment k : plain_descriptions -> ok_comment (Some (c_str (render_comment (registered_key k)))).
Proof. intros [Hk _]. specialize (Hk k). destruct (registered_key k) as [d|]; [by apply description_comment, Hk|]. constructor; [by left|constructor]. Qed.

Lemma clean_no_nul v : Forall (fun c => in_line c = true) v -> c_str v = v.
Proof. intros Hv. by apply c_str_id, in_line_nul. Qed.
Lemma clean_value_str v : clean_value v -> c_str v = v.
Proof. intros [_ Hv]. by apply clean_no_nul. Qed.
Lemma clean_section_str n : clean_section n -> c_str n = n.
Proof. intros (_ & _ & Hn). apply clean_no_nul. eapply Forall_impl; [exact Hn|]. by intros x [? _]. Qed.
Lemma clean_key_str k : clean_key k -> c_str k = k.
Proof. intros (_ & _ & _ & _ & Hn). apply clean_no_nul. eapply Forall_impl; [exact Hn|]. by intros x [? _]. Qed.

(** A file that can be written, [utf8] as it was read. *)
Definition sound_settings (b : ini_settings) : Prop := sound_file (m_bStoreIsUtf8 b) (ini_ b).

Lemma AddEntry_names sec item c l : sec <> [] -> Forall (fun s => s_name s <> []) l -> Forall (fun s => s_name s <> []) (AddEntry sec item c l).
Proof.
  intros Hs Hl. assert (forall c f, Forall (fun s => s_name s <> []) (put_section sec c f l)) as Hp.
  { intros c' f. destruct (put_section_cases sec c' f l) as [(l1 & s & l2 & E & _ & ->)|[_ ->]].
    - rewrite E in Hl. apply Forall_app in Hl as [? [? ?]%Forall_cons]. apply Forall_app. split; [done|]. by constructor.
    - apply Forall_app. split; [done|]. by repeat constructor. }
  destruct item as [[k v]|]; apply Hp.
Qed.
Lemma Delete_names sec k e l : Forall (fun s => s_name s <> []) l -> Forall (fun s => s_name s <> []) (Delete sec (Some k) e l).
Proof.
  intros Hl. destruct (Delete_cases sec k e l) as [->|(l1 & s & l2 & ks & E & _ & _ & [->| ->])]; [done| |]; rewrite E in Hl; apply Forall_app in Hl as [? [? ?]%Forall_cons];
    apply Forall_app; (split; [done|]); [by constructor|done].
Qed.

Lemma set_value_sound b k c : plain_descriptions -> clean_section k.1 -> clean_key k.2 -> clean_value (get_value c) -> sound_settings b -> sound_settings (ini_set_real_value k c b).
Proof.
  intros Hd H1 H2 H3 [Hs Hu]. unfold ini_set_real_value. destruct (is_dirty c); cbn [negb]; [|done].
  rewrite (clean_section_str k.1), (clean_key_str k.2), (clean_value_str (get_value c)) by done. split; cbn [with_data m_bStoreIsUtf8 ini_ m_data].
  - apply (AddEntry_sound k.1 (Some (k.2, get_value c)) _ (mkIni (m_pFileComment (ini_ b)) (Delete k.1 (Some k.2) false (m_data (ini_ b)))) H1 (key_comment k Hd) (conj H2 H3)).
    by apply Delete_sound.
  - destruct Hu as [?|Hu]; [by left|]. right. apply AddEntry_names; [apply H1|]. by apply Delete_names.
Qed.
Lemma remove_value_sound b k : clean_section k.1 -> sound_settings b -> sound_settings (ini_remove_real_value k b).
Proof.
  intros H1 [Hs Hu]. unfold ini_remove_real_value. rewrite (clean_section_str k.1) by done. split; cbn [with_data m_bStoreIsUtf8 ini_ m_data]; [by apply Delete_sound|].
  destruct Hu as [?|Hu]; [by left|]. right. by apply Delete_names.
Qed.
Lemma set_path_sound b p : plain_descriptions -> clean_section p -> sound_settings b -> sound_settings (ini_set_real_path p b).
Proof.
  intros [_ Hd] H1 [Hs Hu]. unfold ini_set_real_path. destruct (bool_decide _); [done|]. rewrite (clean_section_str p) by done. split; cbn [with_data m_bStoreIsUtf8 ini_ m_data].
  - apply AddEntry_sound; [done| |done|done]. specialize (Hd p). destruct (registered_path p) as [d|]; [by apply description_comment, Hd|].
    constructor; [|constructor]. right. split; [done|]. by vm_decide.
  - destruct Hu as [?|Hu]; [by left|]. right. apply AddEntry_names; [apply H1|done].
Qed.
Lemma write_reread b k : sound_settings b -> ini_get_real_string (new_ini_settings (disk (ini_write_file b))) k = ini_get_real_string b k.
Proof.
  intros Hs. unfold ini_get_real_string, new_ini_settings, load_data, ini_write_file. cbn [disk ini_].
  by rewrite (proj2 (written_ini_is_read_back line_end line_end_ok (m_bStoreIsUtf8 b) (ini_ b) Hs)).
Qed.
End Laws.

(** ** The settings of an agent with INI files *)

(** A file and its includes, by their text; a file need not be there. *)
Inductive texts := Texts (text : option cppstring) (includes : list texts).
Section Agent.
Context `{installation}.

Fixpoint files (t : texts) : file := match t with Texts text includes => File (new_ini_settings text) (map files includes) end.
Definition open_settings (t : texts) : store := open_store (files t).

(** What a file says of a key, and then what its includes say, in order. *)
Fixpoint file_value (k : key_path) (t : texts) : option cppstring :=
  match t with
  | Texts text includes =>
      match ini_get_real_string (new_ini_settings text) k with
      | Some v => Some v
      | None => fold_right (fun t later => match file_value k t with Some v => Some v | None => later end) None includes
      end
  end.
Definition include_value (k : key_path) (t : texts) : option cppstring :=
  match t with Texts _ includes => fold_right (fun t later => match file_value k t with Some v => Some v | None => later end) None includes end.

(** A call on keys of [U] that has no NUL in it, and removes no key of an include. *)
Definition plain_call (U : key_path -> Prop) (t : texts) (o : call) : Prop :=
  match o with
  | CGet k | CHas k => U k /\ plain_key k
  | CSet k v => U k /\ plain_key k /\ no_nul v
  | CRemove k => U k /\ plain_key k /\ include_value k t = None
  | CAddPath _ | CAddKey _ _ | CSave _ => True
  end.
(** A call on keys of [U] that a file can hold: a name or a value on one line and without outer
    blanks, no bracket in a path, no equals sign in a key nor one that begins like a comment or a
    header. *)
Definition writable_key (k : key_path) : Prop := clean_section k.1 /\ clean_key k.2.
Definition writable_call (U : key_path -> Prop) (t : texts) (o : call) : Prop :=
  match o with
  | CGet k | CHas k => U k /\ writable_key k
  | CSet k v => U k /\ writable_key k /\ clean_value v
  | CRemove k => U k /\ writable_key k /\ include_value k t = None
  | CAddPath p => clean_section p
  | CAddKey _ _ | CSave _ => True
  end.

Section Universe.
Context (U : key_path -> Prop) (HU : apart U).

(** As long as an agent runs, the data in memory keeps every key and value without a NUL. *)
Definition in_memory : lawful.
Proof.
  refine {| fine k := U k /\ plain_key k; fine_path _ := True; fine_value := no_nul; sound b := unique (m_data (ini_ b)) |}; cbn -[ini_set_real_value ini_get_real_string].
  - done.
  - exact has_law.
  - intros b k c k' Hs [? ?] ? [? ?]. by apply (get_set_law U).
  - intros b k k' Hs [? ?] [? ?]. by apply (get_remove_law U).
  - exact get_path_law.
  - done.
  - intros b k v _. apply get_value_law.
  - intros b k c Hs _ _. unfold ini_set_real_value. destruct (is_dirty c); [|done]. by apply AddEntry_unique, Delete_unique.
  - intros b k Hs _. by apply Delete_unique.
  - intros b p Hs _. unfold ini_set_real_path. destruct (bool_decide _); [done|]. by apply AddEntry_unique.
  - done.
Defined.

Context (Hd : plain_descriptions).
Lemma writable_plain k : writable_key k -> plain_key k.
Proof.
  intros [(_ & _ & H1) (_ & _ & _ & _ & H2)]. split; apply in_line_nul; (eapply Forall_impl; [eassumption|]); by intros x [? _].
Qed.
Lemma sound_unique b : sound_settings b -> unique (m_data (ini_ b)).
Proof. intros [[_ _ Hs _ _] _]. exact Hs. Qed.
(** A file that was well-formed keeps what a line of it can hold. *)
Definition on_disk : lawful.
Proof.
  refine {| fine k := U k /\ writable_key k; fine_path := clean_section; fine_value := clean_value; sound := sound_settings |}; cbn -[ini_set_real_value ini_get_real_string].
  - by intros k [_ [? _]].
  - exact has_law.
  - intros b k c k' Hs [? ?%writable_plain] [_ ?%in_line_nul] [? ?%writable_plain]. apply (get_set_law U); try done. by apply sound_unique.
  - intros b k k' Hs [? ?%writable_plain] [? ?%writable_plain]. apply (get_remove_law U); try done. by apply sound_unique.
  - exact get_path_law.
  - done.
  - intros b k v [Hs _]. unfold ini_get_real_string. rewrite fmap_Some. intros (w & Hw & ->). apply (GetValue_clean _ _ _ _ Hs) in Hw. by rewrite clean_value_str.
  - intros b k c Hs [_ [? ?]] ?. by apply set_value_sound.
  - intros b k Hs [_ [? ?]]. by apply remove_value_sound.
  - intros b p Hs ?. by apply set_path_sound.
  - done.
Defined.
Lemma on_disk_durable : @durable _ on_disk.
Proof. intros b k Hs. by apply write_reread. Qed.
End Universe.

Lemma opened_view k : forall t, value_of k (open_settings t) = file_value k t /\ first_view k (children_ (open_settings t)) = include_value k t.
Proof.
  pose (in_memory (fun _ => False) ltac:(by intros ? ? [])) as L. fix IH 1. intros [text includes].
  assert (first_view k (children_ (open_settings (Texts text includes))) = include_value k (Texts text includes)) as E.
  { cbn [open_settings files open_store fresh_store children_ include_value]. induction includes as [|t l IHl]; [done|]. cbn [map fold_right].
    rewrite first_view_cons, IHl. change (open_store (files t)) with (open_settings t). by rewrite (proj1 (IH t)). }
  split; [|exact E]. rewrite view_eq, E. done.
Qed.
Lemma files_unique U HU : forall t, @sound_files _ (in_memory U HU) (files t).
Proof. fix IH 1. intros [text includes]. split; [apply new_unique|]. induction includes as [|t l IHl]; [done|]. split; [apply IH|exact IHl]. Qed.
Lemma plain_fine U HU t o : plain_call U t o -> @fine_call _ (in_memory U HU) o /\ removes_own (open_settings t) o.
Proof. destruct o; cbn; try tauto. intros (? & ? & ?). split; [done|]. unfold own. by rewrite (proj2 (opened_view _ t)). Qed.
Lemma writable_fine U HU Hd t o : writable_call U t o -> @fine_call _ (on_disk U HU Hd) o /\ removes_own (open_settings t) o.
Proof. destruct o; cbn; try tauto. intros (? & ? & ?). split; [done|]. unfold own. by rewrite (proj2 (opened_view _ t)). Qed.

(** The files can be written back: their keys, values and comments are as a line holds them. *)
Fixpoint sound_texts (t : texts) : Prop :=
  match t with Texts text includes => sound_settings (new_ini_settings text) /\ fold_right (fun t P => sound_texts t /\ P) True includes end.
Lemma files_sound U HU Hd : forall t, sound_texts t -> @sound_files _ (on_disk U HU Hd) (files t).
Proof. fix IH 1. intros [text includes] [H1 H2]. split; [exact H1|]. clear H1. induction includes as [|t l IHl]; [done|]. destruct H2. split; [by apply IH|by apply IHl]. Qed.

Lemma spec_calls_pointwise l : forall m m' : key_path -> option cppstring, (forall k, m k = m' k) ->
  (spec_calls l m).1 = (spec_calls l m').1 /\ forall k, (spec_calls l m).2 k = (spec_calls l m').2 k.
Proof.
  induction l as [|o l IH]; intros m m' E; [done|]. cbn [spec_calls].
  assert ((spec_call o m).1 = (spec_call o m').1 /\ forall k, (spec_call o m).2 k = (spec_call o m').2 k) as [E1 E2].
  { destruct o; cbn; split; try done; try (by rewrite E); intros k'; by rewrite E. }
  destruct (spec_call o m) as [a n], (spec_call o m') as [a' n']. cbn in E1, E2. destruct (IH n n' E2) as [E3 E4].
  destruct (spec_calls l n), (spec_calls l n'). cbn in *. split; [congruence|done].
Qed.


End Agent.

(** ** An agent with two files *)

Module IniDemo.
#[local] Instance demo : installation.
Proof.
  refine {| line_end := [c_newline];
            registered_key k := if bool_decide (k = (str "/settings/log", str "level")) then Some (str "LOG LEVEL", str "How much" ++ [c_newline] ++ str "to log") else None;
            registered_path p := if bool_decide (p = str "/modules") then Some ([], str "Modules") else None |}.
  by left.
Defined.

Definition lines (l : list String.string) : cppstring := concat (map (fun x => str x ++ [c_newline]) l).
(** A main file with a comment, blanks around its values and one include, and the include. *)
Definition two_files : texts :=
  Texts (Some (lines ["; the agent"; "[/modules]"; "CheckSystem=enabled"; ""; "# scripts"; "[ /settings/external ]"; "  allow   =   true  "; "[/includes]"; "local=local.ini"]%string))
    [Texts (Some (lines ["[/settings/log]"; "level = debug"]%string)) []].
Definition allow : key_path := (str "/settings/external", str "allow").
Definition level : key_path := (str "/settings/log", str "level").
Definition size : key_path := (str "/settings/log", str "size").
Definition check : key_path := (str "/modules", str "CheckSystem").
Definition used (k : key_path) : Prop := k ∈ [allow; level; size; check].
(** One key of the include is changed, one of the main file is removed, one is new. *)
Definition session : list call := [CGet allow; CSet level (str "info"); CRemove check; CSave false; CSet size (str "10 MB"); CHas check; CGet level].

Lemma used_apart : apart used.
Proof.
  intros k k' Hk Hk'. unfold used in *. rewrite !elem_of_cons, elem_of_nil in Hk, Hk'.
  destruct Hk as [->|[->|[->|[->|[]]]]], Hk' as [->|[->|[->|[->|[]]]]]; vm_compute; congruence.
Qed.

Lemma demo_descriptions : plain_descriptions.
Proof.
  split; cbn.
  - intros k d. case_bool_decide; [|done]. intros [= <-]. vm_decide.
  - intros p d. case_bool_decide; [|done]. intros [= <-]. vm_decide.
Qed.
End IniDemo.
