(* ===== verification/OpenMetrics.v ===== *)
(** The parser of metrics expositions: include/metrics/openmetrics_parser.cpp.

    A [string_view] is its text, and a [cursor] is the text it has not read yet: the code only
    moves forward, and what it takes out of a line is what it has just passed.  A size is a [Z];
    a limit of 0 is no limit.  An index is a [nat] and [npos] is [None].  A method that returns
    [false] has set the error and changed nothing else, so the methods return the next state or
    the reason to stop, and [read_line] records that reason.  The body is read one line at a
    time, [std::map] lookups are [gmap] lookups. *)

From stdpp Require Import base list gmap strings pretty.
From Stdlib Require Import Ascii ZArith Lia SpecFloat.
From Stdlib Require String.
From S2P Require Import Prelude Strings Ordering Format NumberText.
Import String.StringSyntax.

Local Open Scope Z_scope.

(** ** Characters and lines *)

Definition is_blank (c : ascii) : bool := bool_decide (c = c_blank) || bool_decide (c = c_tab).
Definition is_alpha (c : ascii) : bool :=
  let n := nat_of_ascii c in (Nat.leb 97 n && Nat.leb n 122) || (Nat.leb 65 n && Nat.leb n 90).
Definition is_digit (c : ascii) : bool := isdigit c.
Definition is_name_start (c : ascii) : bool := is_alpha c || bool_decide (c = "_"%char) || bool_decide (c = ":"%char).
Definition is_name_char (c : ascii) : bool := is_name_start c || is_digit c.
Definition is_label_start (c : ascii) : bool := is_alpha c || bool_decide (c = "_"%char).
Definition is_label_char (c : ascii) : bool := is_label_start c || is_digit c.

(** [char_at(text, 0)]: NUL past the end *)
Definition front (s : cppstring) : ascii := match s with c :: _ => c | [] => Ascii.zero end.
Definition ascii_lower (c : ascii) : ascii := tolower c.

(** [value] without [suffix], when it is longer and ends with it *)
Definition ends_with (value suffix : cppstring) : bool :=
  Nat.ltb (length suffix) (length value) && bool_decide (drop (length value - length suffix) value = suffix).
Definition without_suffix (value suffix : cppstring) : cppstring := take (length value - length suffix) value.

Fixpoint skip_blanks (c : cppstring) : cppstring :=
  match c with x :: c' => if is_blank x then skip_blanks c' else c | [] => [] end.
Definition trim_blanks (text : cppstring) : cppstring := rev (skip_blanks (rev (skip_blanks text))).

Definition normalise (line : cppstring) : cppstring :=
  match rev line with
  | c :: r => if bool_decide (c = c_return) then trim_blanks (rev r) else trim_blanks line
  | [] => trim_blanks line
  end.

Definition is_eof_marker (line : cppstring) : bool :=
  match line with
  | c :: rest => bool_decide (c = "#"%char) && bool_decide (trim_blanks rest = str "EOF")
  | [] => false
  end.

Definition equals_word (raw word : cppstring) : bool := bool_decide (map ascii_lower raw = word).

(** ** cursor *)

Abbreviation cursor := cppstring.
Definition done (c : cursor) : bool := match c with [] => true | _ => false end.
Definition peek (c : cursor) : ascii := front c.
Definition token (c : cursor) : cppstring * cursor := span (fun x => negb (is_blank x)) c.

Definition metric_name (c : cursor) : cppstring * cursor :=
  if is_name_start (peek c) then span is_name_char c else ([], c).

(** ** Numbers *)

Definition is_decimal (raw : cppstring) : bool :=
  let '(whole, r1) := span is_digit (skip_sign raw) in
  let '(frac, r2) := read_fraction r1 in
  match whole ++ frac with
  | [] => false
  | _ =>
      if bool_decide (front r2 = "e"%char) || bool_decide (front r2 = "E"%char) then
        let '(exponent, r3) := span is_digit (skip_sign (tail r2)) in
        match exponent with [] => false | _ => done r3 end
      else done r2
  end.

Definition is_integer (raw : cppstring) : bool :=
  match skip_sign raw with [] => false | ds => done (span is_digit ds).2 end.

(** A number that is read whole and does not overflow. *)
Definition to_double (raw : cppstring) : option double :=
  match raw with
  | [] => None
  | _ => let '(value, rest) := strtod raw in if done rest && isfinite value then Some value else None
  end.

Definition read_value (raw : cppstring) : option double :=
  if equals_word raw (str "nan") then Some S754_nan
  else if equals_word raw (str "inf") || equals_word raw (str "+inf")
          || equals_word raw (str "infinity") || equals_word raw (str "+infinity") then Some (S754_infinity false)
  else if equals_word raw (str "-inf") || equals_word raw (str "-infinity") then Some (S754_infinity true)
  else if is_decimal raw then to_double raw else None.

Inductive format := openmetrics_1_0 | prometheus_text_0_0_4.
#[global] Instance format_eq_dec : EqDecision format. Proof. solve_decision. Defined.

Definition read_timestamp (raw : cppstring) (f : format) : option double :=
  match f with
  | prometheus_text_0_0_4 => if is_integer raw then to_double raw else None
  | openmetrics_1_0 => if is_decimal raw then to_double raw else None
  end.

(** ** Families *)

Inductive family_type := unknown | counter | gauge | histogram | gaugehistogram | summary | info | stateset.
#[global] Instance family_type_eq_dec : EqDecision family_type. Proof. solve_decision. Defined.

Definition type_name (t : family_type) : cppstring :=
  match t with
  | counter => str "counter" | gauge => str "gauge" | histogram => str "histogram"
  | gaugehistogram => str "gaugehistogram" | summary => str "summary" | info => str "info"
  | stateset => str "stateset" | unknown => str "unknown"
  end.

Definition is_word (a : cppstring) (b : cppstring) : bool := bool_decide (a = b).

Definition parse_type (word : cppstring) (f : format) : option family_type :=
  if is_word word (str "counter") then Some counter
  else if is_word word (str "gauge") then Some gauge
  else if is_word word (str "histogram") then Some histogram
  else if is_word word (str "summary") then Some summary
  else match f with
  | prometheus_text_0_0_4 => if is_word word (str "untyped") then Some unknown else None
  | openmetrics_1_0 =>
      if is_word word (str "gaugehistogram") then Some gaugehistogram
      else if is_word word (str "info") then Some info
      else if is_word word (str "stateset") then Some stateset
      else if is_word word (str "unknown") then Some unknown
      else None
  end.

Definition owns_suffix (f : format) (t : family_type) (suffix : cppstring) : bool :=
  let sfx s := is_word suffix (str s) in
  match f, t with
  | prometheus_text_0_0_4, histogram => sfx "_bucket" || sfx "_sum" || sfx "_count"
  | prometheus_text_0_0_4, summary => sfx "" || sfx "_sum" || sfx "_count"
  | prometheus_text_0_0_4, _ => sfx ""
  | openmetrics_1_0, counter => sfx "_total" || sfx "_created"
  | openmetrics_1_0, histogram => sfx "_bucket" || sfx "_sum" || sfx "_count" || sfx "_created"
  | openmetrics_1_0, gaugehistogram => sfx "_bucket" || sfx "_gsum" || sfx "_gcount"
  | openmetrics_1_0, summary => sfx "" || sfx "_sum" || sfx "_count" || sfx "_created"
  | openmetrics_1_0, info => sfx "_info"
  | openmetrics_1_0, (gauge | stateset | unknown) => sfx ""
  end.

Definition sample_suffixes : list cppstring :=
  map str [""; "_total"; "_created"; "_bucket"; "_sum"; "_count"; "_gsum"; "_gcount"; "_info"]%string.

Fixpoint unescape_help (raw : cppstring) : cppstring :=
  match raw with
  | [] => []
  | c :: raw' =>
      if bool_decide (c = c_backslash) then
        match raw' with
        | next :: raw'' =>
            if bool_decide (next = c_backslash) || bool_decide (next = c_dquote) then next :: unescape_help raw''
            else if bool_decide (next = "n"%char) then c_newline :: unescape_help raw''
            else c :: unescape_help raw'
        | [] => [c]
        end
      else c :: unescape_help raw'
  end.

Abbreviation label_list := (list (cppstring * cppstring)).
Record sample := mkSample { s_name : cppstring; s_labels : label_list; s_value : double; s_timestamp : option double }.
Record family := mkFamily { f_name : cppstring; f_type : family_type; f_help : cppstring; f_unit : cppstring; f_samples : list sample }.
Record limits := mkLimits { max_series : Z; max_families : Z; max_labels_per_sample : Z; max_labels : Z; max_line_bytes : Z }.

(** What a parse returns. *)
Record om_result := mkResult { families : list family; sample_count : Z; saw_eof : bool; error : cppstring; error_line : Z }.
Definition ok (r : om_result) : bool := match error r with [] => true | _ => false end.

Definition find_label (s : sample) (name : cppstring) : option cppstring :=
  snd <$> List.find (fun l => bool_decide (l.1 = name)) (s_labels s).

(** ** The parser's state *)

Record family_state := mkState { st_help : bool; st_type : bool; st_unit : bool; tentative : bool }.
Record name_entry := mkEntry { first : nat; second : option nat }.
Record match_ := mkMatch { owner : option nat; same_name : option nat }.

Inductive line_kind := k_blank | k_eof | k_eof_with_text | k_comment | k_metadata | k_sample.
#[global] Instance line_kind_eq_dec : EqDecision line_kind. Proof. solve_decision. Defined.

(** [after_name]: the text that follows the name *)
Record line_shape := mkShape { what : line_kind; keyword : cppstring; sh_name : cppstring; after_name : cursor; whole_name : bool }.

Definition is_counter (t : family_type) : bool := bool_decide (t = counter).
Definition pair_types (a b : family_type) : bool := xorb (is_counter a) (is_counter b).

Record parser := mkParser {
  out : om_result;
  format_ : format;
  bounds_ : limits;
  line_number : Z;
  block_opened_on : Z;
  families_by_name : gmap cppstring name_entry;
  state_ : list family_state;
  current : option nat;
  current_block_failed : bool;
  label_count : Z }.

Definition new_parser (f : format) (bounds : limits) : parser :=
  mkParser (mkResult [] 0 false [] 0) f bounds 0 0 ∅ [] None false 0.

Definition set_out (r : om_result) (p : parser) : parser :=
  mkParser r (format_ p) (bounds_ p) (line_number p) (block_opened_on p) (families_by_name p) (state_ p) (current p)
    (current_block_failed p) (label_count p).
Definition set_families (fs : list family) (p : parser) : parser :=
  set_out (mkResult fs (sample_count (out p)) (saw_eof (out p)) (error (out p)) (error_line (out p))) p.
Definition set_state (st : list family_state) (p : parser) : parser :=
  mkParser (out p) (format_ p) (bounds_ p) (line_number p) (block_opened_on p) (families_by_name p) st (current p)
    (current_block_failed p) (label_count p).
Definition set_failed (b : bool) (p : parser) : parser :=
  mkParser (out p) (format_ p) (bounds_ p) (line_number p) (block_opened_on p) (families_by_name p) (state_ p) (current p)
    b (label_count p).
Definition begin_line (number : Z) (p : parser) : parser :=
  mkParser (out p) (format_ p) (bounds_ p) number (block_opened_on p) (families_by_name p) (state_ p) (current p)
    (current_block_failed p) (label_count p).
Definition fail_on (why : cppstring) (line : Z) (p : parser) : parser :=
  set_out (mkResult (families (out p)) (sample_count (out p)) (saw_eof (out p)) why line) p.
Definition fail (why : cppstring) (p : parser) : parser := fail_on why (line_number p) p.

Definition no_family : family := mkFamily [] unknown [] [] [].
Definition no_state : family_state := mkState false false false false.

(** [out_.families[at]], [state_[at]]: the index is in range *)
Definition family_at (p : parser) (at_ : nat) : family := nth at_ (families (out p)) no_family.
Definition state_at (p : parser) (at_ : nat) : family_state := nth at_ (state_ p) no_state.

(** Why a line stops the parse: a message, or the repeated name of the open block. *)
Inductive stop := Fail (why : cppstring) | RefuseBlock.

Definition quoted (s : cppstring) : cppstring := str "'" ++ s ++ str "'".
Definition invariant_broken (w : cppstring) : stop := Fail (str "internal error: " ++ w).
Definition declared_again (name : cppstring) : cppstring :=
  str "metadata for " ++ quoted name ++ str " after that family was already declared or sampled".

(** The block of a repeated name is given up: its first line is the line at fault. *)
Definition refuse_block (p : parser) : parser :=
  let p' := set_failed true p in
  match current p with
  | Some at_ => fail_on (declared_again (f_name (family_at p at_))) (block_opened_on p) p'
  | None => p'
  end.

Definition owns (p : parser) (at_ : nat) (name : cppstring) : bool :=
  let target := family_at p at_ in
  is_prefix (f_name target) name && owns_suffix (format_ p) (f_type target) (drop (length (f_name target)) name).

Definition block_open (p : parser) : bool := match current p with Some at_ => tentative (state_at p at_) | None => false end.

Definition in_own_block (p : parser) (name : cppstring) : bool :=
  match current p with
  | Some at_ => bool_decide (f_name (family_at p at_) = name) && match f_samples (family_at p at_) with [] => true | _ => false end
  | None => false
  end.

(** [block_admits]: the lines an open block takes *)
Definition block_admits (p : parser) (shape : line_shape) : bool :=
  match current p with
  | None => true
  | Some at_ =>
      if negb (tentative (state_at p at_)) then true
      else match what shape with
      | k_blank | k_comment => true
      | k_eof | k_eof_with_text => false
      | k_metadata => whole_name shape && bool_decide (sh_name shape = f_name (family_at p at_))
      | k_sample => st_type (state_at p at_) && negb (bool_decide (sh_name shape = [])) && owns p at_ (sh_name shape)
      end
  end.

Definition may_end_unterminated (p : parser) (text : cppstring) : bool :=
  match format_ p with
  | openmetrics_1_0 => is_eof_marker text || (saw_eof (out p) && bool_decide (text = []))
  | prometheus_text_0_0_4 => false
  end.

Definition shape_of (f : format) (text : cppstring) : line_shape :=
  match text with
  | [] => mkShape k_blank [] [] [] false
  | c :: rest =>
      if negb (bool_decide (c = "#"%char)) then
        let '(name, after) := metric_name text in mkShape k_sample [] name after false
      else if bool_decide (f = openmetrics_1_0) && is_eof_marker text then mkShape k_eof [] [] [] false
      else
        let '(kw, after) := token (skip_blanks rest) in
        if bool_decide (f = openmetrics_1_0) && is_word kw (str "EOF") then mkShape k_eof_with_text kw [] [] false
        else if negb (is_word kw (str "HELP") || is_word kw (str "TYPE") || is_word kw (str "UNIT")) then mkShape k_comment kw [] [] false
        else if negb (is_blank (peek after)) then mkShape k_metadata kw [] [] false
        else
          let '(name, after') := metric_name (skip_blanks after) in
          mkShape k_metadata kw name after' (negb (bool_decide (name = [])) && (done after' || is_blank (peek after')))
  end.

(** ** Looking families up *)

Fixpoint find_in (p : parser) (name : cppstring) (suffixes : list cppstring) (ret : match_) : match_ :=
  match suffixes with
  | [] => ret
  | tail_ :: rest =>
      if negb (ends_with name tail_) then find_in p name rest ret
      else match families_by_name p !! without_suffix name tail_ with
      | None => find_in p name rest ret
      | Some e =>
          if owns p (first e) name then mkMatch (Some (first e)) (same_name ret)
          else match second e with
          | Some at_ =>
              if owns p at_ name then mkMatch (Some at_) (same_name ret)
              else find_in p name rest (if bool_decide (tail_ = []) then mkMatch (owner ret) (Some (first e)) else ret)
          | None => find_in p name rest (if bool_decide (tail_ = []) then mkMatch (owner ret) (Some (first e)) else ret)
          end
      end
  end.
Definition find (p : parser) (name : cppstring) : match_ := find_in p name sample_suffixes (mkMatch None None).

Definition room_for_family (p : parser) : result stop unit :=
  if negb (max_families (bounds_ p) =? 0) && (zlength (families (out p)) >=? max_families (bounds_ p))
  then Throw (Fail (str "more than " ++ show (max_families (bounds_ p)) ++ str " families"))
  else Ok tt.

Definition switch_to (at_ : nat) (p : parser) : parser :=
  mkParser (out p) (format_ p) (bounds_ p) (line_number p) (block_opened_on p) (families_by_name p) (state_ p) (Some at_)
    false (label_count p).

(** The new family is the last one. *)
Definition add_family (name : cppstring) (repeated : bool) (p : parser) : parser :=
  let at_ := length (families (out p)) in
  let entry := match families_by_name p !! name with
               | Some e => if repeated then mkEntry (first e) (Some at_) else mkEntry at_ (second e)
               | None => mkEntry at_ None
               end in
  let p1 := set_families (families (out p) ++ [mkFamily name unknown [] [] []]) p in
  switch_to at_
    (mkParser (out p1) (format_ p) (bounds_ p) (line_number p) (if repeated then line_number p else block_opened_on p)
       (<[name := entry]> (families_by_name p)) (state_ p ++ [mkState false false false repeated]) (current p)
       (current_block_failed p) (label_count p)).

Definition drop_current (p : parser) : parser :=
  match current p with
  | Some at_ =>
      let p1 := set_families (delete at_ (families (out p))) p in
      mkParser (out p1) (format_ p) (bounds_ p) (line_number p) (block_opened_on p) (families_by_name p)
        (delete at_ (state_ p)) None (current_block_failed p) (label_count p)
  | None => p
  end.

Definition set_tentative (b : bool) (s : family_state) : family_state := mkState (st_help s) (st_type s) (st_unit s) b.

(** The state and the index of the family a sample of this name belongs to. *)
Definition family_for (p : parser) (name : cppstring) : result stop (parser * nat) :=
  let elsewhere :=
    match owner (find p name) with
    | Some o =>
        match format_ p with
        | prometheus_text_0_0_4 => Ok (switch_to o p, o)
        | openmetrics_1_0 =>
            Throw (Fail (quoted name ++ str " comes after another family, apart from the rest of the family " ++
                         quoted (f_name (family_at p o))))
        end
    | None =>
        match same_name (find p name) with
        | Some o => Throw (Fail (quoted name ++ str " is not a sample of the " ++ type_name (f_type (family_at p o)) ++
                                 str " family " ++ quoted name))
        | None => let* _ := room_for_family p in Ok (add_family name false p, length (families (out p)))
        end
    end in
  match current p with
  | Some at_ =>
      if tentative (state_at p at_) then
        if negb (st_type (state_at p at_)) || negb (owns p at_ name)
        then Throw (invariant_broken (quoted name ++ str " reached the block of a repeated name it does not belong to"))
        else Ok (set_state (alter (set_tentative false) at_ (state_ p)) p, at_)
      else if owns p at_ name then Ok (p, at_)
      else elsewhere
  | None => elsewhere
  end.

(** ** Metadata lines *)

Definition declared_in (kw : cppstring) (s : family_state) : bool :=
  if is_word kw (str "HELP") then st_help s else if is_word kw (str "TYPE") then st_type s else st_unit s.

(** The payload of a metadata line and the type a [# TYPE] line names. *)
Definition read_payload (f : format) (kw name : cppstring) (c : cursor) : result stop (cppstring * family_type) :=
  if is_word kw (str "HELP") then Ok (c, unknown)
  else
    let '(payload, c1) := token c in
    if negb (done (skip_blanks c1)) then
      Throw (Fail (str "unexpected text after the " ++ str (if is_word kw (str "UNIT") then "unit" else "type") ++
                   str " of " ++ quoted name))
    else if is_word kw (str "TYPE") then
      match parse_type payload f with
      | Some t => Ok (payload, t)
      | None => Throw (Fail (str "unknown type " ++ quoted payload ++ str " for " ++ quoted name))
      end
    else Ok (payload, unknown).

(** Whether a name not being declared may be declared now, and whether it repeats one. *)
Definition may_declare (p : parser) (kw name : cppstring) (t : family_type) : result stop bool :=
  let* _ := match owner (find p name) with
            | Some o => if negb (bool_decide (f_name (family_at p o) = name))
                        then Throw (Fail (quoted name ++ str " is a sample of the family " ++ quoted (f_name (family_at p o))))
                        else Ok tt
            | None => Ok tt
            end in
  let* repeated :=
    match families_by_name p !! name with
    | Some taken =>
        if negb (bool_decide (format_ p = openmetrics_1_0)) || negb (bool_decide (second taken = None))
           || negb (st_type (state_at p (first taken)))
        then Throw (Fail (declared_again name))
        else if is_word kw (str "TYPE") && negb (pair_types (f_type (family_at p (first taken))) t)
        then Throw (Fail (declared_again name))
        else Ok true
    | None => Ok false
    end in
  let* _ := room_for_family p in Ok repeated.

(** A type may not claim samples that came before its line. *)
Fixpoint claims_earlier (p : parser) (name : cppstring) (t : family_type) (suffixes : list cppstring) : result stop unit :=
  match suffixes with
  | [] => Ok tt
  | suffix :: rest =>
      if bool_decide (suffix = []) || negb (owns_suffix (format_ p) t suffix) then claims_earlier p name t rest
      else match families_by_name p !! (name ++ suffix) with
      | Some _ => Throw (Fail (quoted (name ++ suffix) ++ str " came before the '# TYPE' line of " ++ quoted name))
      | None => claims_earlier p name t rest
      end
  end.

Definition check_type (p : parser) (at_ : option nat) (name : cppstring) (t : family_type) : result stop unit :=
  let refused := match at_, families_by_name p !! name with
                 | Some a, Some e => tentative (state_at p a) && negb (pair_types (f_type (family_at p (first e))) t)
                 | _, _ => false
                 end in
  if refused then Throw RefuseBlock else claims_earlier p name t sample_suffixes.

Definition record_help (payload : cppstring) (f : family) : family :=
  mkFamily (f_name f) (f_type f) (unescape_help payload) (f_unit f) (f_samples f).
Definition record_unit (payload : cppstring) (f : family) : family :=
  mkFamily (f_name f) (f_type f) (f_help f) payload (f_samples f).
Definition record_type (t : family_type) (f : family) : family :=
  mkFamily (f_name f) t (f_help f) (f_unit f) (f_samples f).

Definition declare (kw payload : cppstring) (t : family_type) (at_ : nat) (p : parser) : parser :=
  let upd st fm := set_families (alter fm at_ (families (out p))) (set_state (alter st at_ (state_ p)) p) in
  if is_word kw (str "HELP")
  then upd (fun s => mkState true (st_type s) (st_unit s) (tentative s)) (record_help payload)
  else if is_word kw (str "UNIT")
  then upd (fun s => mkState (st_help s) (st_type s) true (tentative s)) (record_unit payload)
  else upd (fun s => mkState (st_help s) true (st_unit s) (tentative s)) (record_type t).

Definition metadata_line (p : parser) (shape : line_shape) : result stop parser :=
  let kw := keyword shape in
  let name := sh_name shape in
  if bool_decide (name = []) then Throw (Fail (str "expected a metric name after '# " ++ kw ++ str "'"))
  else if negb (whole_name shape)
  then Throw (Fail (str "invalid character in metric name " ++ quoted (name ++ (token (after_name shape)).1)))
  else
    let own_block := in_own_block p name in
    let* (payload, declared_type) := read_payload (format_ p) kw name (skip_blanks (after_name shape)) in
    let at_ := if own_block then current p else None in
    let* repeated :=
      match at_ with
      | None => may_declare p kw name declared_type
      | Some a => if declared_in kw (state_at p a)
                  then Throw (Fail (str "second '# " ++ kw ++ str "' line for " ++ quoted name))
                  else Ok false
      end in
    let* _ := if is_word kw (str "TYPE") then check_type p at_ name declared_type else Ok tt in
    match at_ with
    | Some a => Ok (declare kw payload declared_type a p)
    | None => Ok (declare kw payload declared_type (length (families (out p))) (add_family name repeated p))
    end.

(** ** Sample lines *)

Fixpoint label_value (c : cursor) : option (cppstring * cursor) :=
  match c with
  | [] => None
  | x :: c' =>
      if bool_decide (x = c_dquote) then Some ([], c')
      else if bool_decide (x = c_backslash) then
        match c' with
        | escaped :: c'' =>
            if bool_decide (escaped = c_backslash) || bool_decide (escaped = c_dquote)
            then (fun r => (escaped :: r.1, r.2)) <$> label_value c''
            else if bool_decide (escaped = "n"%char) then (fun r => (c_newline :: r.1, r.2)) <$> label_value c''
            else None
        | [] => None
        end
      else (fun r => (x :: r.1, r.2)) <$> label_value c'
  end.

(** One label, from its name to the blanks after its value. *)
Definition read_label (name : cppstring) (c : cursor) : result stop (cppstring * cppstring * cursor) :=
  if negb (is_label_start (peek c)) then Throw (Fail (str "invalid label name on " ++ quoted name))
  else
    let '(label, c1) := span is_label_char c in
    let c2 := skip_blanks c1 in
    if negb (bool_decide (peek c2 = c_equals))
    then Throw (Fail (str "expected '=' after label " ++ quoted label ++ str " on " ++ quoted name))
    else
      let c3 := skip_blanks (tail c2) in
      if negb (bool_decide (peek c3 = c_dquote))
      then Throw (Fail (str "expected a quoted value for label " ++ quoted label ++ str " on " ++ quoted name))
      else match label_value (tail c3) with
      | None => Throw (Fail (str "unterminated or badly escaped value for label " ++ quoted label ++ str " on " ++ quoted name))
      | Some (value, c4) => Ok (label, value, c4)
      end.

Definition unique_labels (name : cppstring) (labels : label_list) : result stop unit :=
  match adjacent_find (sort_strings labels.*1) with
  | Some repeated => Throw (Fail (str "label " ++ quoted repeated ++ str " twice on " ++ quoted name))
  | None => Ok tt
  end.

Definition room_for_label (p : parser) (name : cppstring) (scratch : label_list) : result stop unit :=
  if negb (max_labels_per_sample (bounds_ p) =? 0) && (zlength scratch >=? max_labels_per_sample (bounds_ p))
  then Throw (Fail (str "more than " ++ show (max_labels_per_sample (bounds_ p)) ++ str " labels on " ++ quoted name))
  else if negb (max_labels (bounds_ p) =? 0) && (label_count p + zlength scratch >=? max_labels (bounds_ p))
  then Throw (Fail (str "more than " ++ show (max_labels (bounds_ p)) ++ str " labels"))
  else Ok tt.

(** The loop of [labels], from after the brace or a comma; every turn reads on, so the length
    of the text is fuel enough. *)
Fixpoint labels_loop (fuel : nat) (p : parser) (name : cppstring) (c : cursor) (scratch : label_list)
  : result stop (label_list * cursor) :=
  match fuel with
  | O => Throw (Fail [])
  | S fuel =>
      let c := skip_blanks c in
      if done c then Throw (Fail (str "unterminated label set on " ++ quoted name))
      else if bool_decide (peek c = "}"%char) then
        let* _ := unique_labels name scratch in Ok (scratch, tail c)
      else
        let* (label, value, c1) := read_label name c in
        let* _ := room_for_label p name scratch in
        let scratch' := scratch ++ [(label, value)] in
        let c2 := skip_blanks c1 in
        if done c2 then Throw (Fail (str "unterminated label set on " ++ quoted name))
        else if bool_decide (peek c2 = ","%char) then labels_loop fuel p name (tail c2) scratch'
        else if negb (bool_decide (peek c2 = "}"%char))
        then Throw (Fail (str "expected ',' or '}' after label " ++ quoted label ++ str " on " ++ quoted name))
        else labels_loop fuel p name c2 scratch'
  end.
Definition labels (p : parser) (name : cppstring) (c : cursor) : result stop (label_list * cursor) :=
  labels_loop (S (length c)) p name (tail c) [].

(** The blanks before the value, or before the labels and the value. *)
Definition separate (c : cursor) : bool * cursor := if is_blank (peek c) then (true, skip_blanks c) else (false, c).

Definition read_sample (p : parser) (name : cppstring) (c0 : cursor) : result stop sample :=
  let '(separated0, c1) := separate c0 in
  let* (labels_, separated, c2) :=
    if bool_decide (peek c1 = "{"%char) then
      let* (l, c) := labels p name c1 in
      let '(sep, c') := separate c in Ok (l, sep, c')
    else Ok ([], separated0, c1) in
  if done c2 then Throw (Fail (str "missing value for " ++ quoted name))
  else if negb separated then Throw (Fail (str "invalid character after " ++ quoted name))
  else
    let '(value, c3) := token c2 in
    match read_value value with
    | None => Throw (Fail (str "invalid value " ++ quoted value ++ str " for " ++ quoted name))
    | Some v =>
        let c4 := skip_blanks c3 in
        let* (stamp, c5) :=
          if negb (done c4) && negb (bool_decide (peek c4 = "#"%char)) then
            let '(stamp, c) := token c4 in
            match read_timestamp stamp (format_ p) with
            | None => Throw (Fail (str "invalid timestamp " ++ quoted stamp ++ str " for " ++ quoted name))
            | Some t => Ok (Some t, skip_blanks c)
            end
          else Ok (None, c4) in
        if negb (done c5) && (bool_decide (format_ p = prometheus_text_0_0_4) || negb (bool_decide (peek c5 = "#"%char)))
        then Throw (Fail (str "unexpected text after the value of " ++ quoted name))
        else Ok (mkSample name labels_ v stamp)
    end.

Definition add_sample (s : sample) (at_ : nat) (p : parser) : parser :=
  let push f := mkFamily (f_name f) (f_type f) (f_help f) (f_unit f) (f_samples f ++ [s]) in
  mkParser (mkResult (alter push at_ (families (out p))) (sample_count (out p) + 1) (saw_eof (out p)) (error (out p)) (error_line (out p)))
    (format_ p) (bounds_ p) (line_number p) (block_opened_on p) (families_by_name p) (state_ p) (current p)
    (current_block_failed p) (label_count p + zlength (s_labels s)).

Definition sample_line (p : parser) (shape : line_shape) : result stop parser :=
  let name := sh_name shape in
  if bool_decide (name = []) then Throw (Fail (str "expected a metric name at the start of the line"))
  else
    let* parsed := read_sample p name (after_name shape) in
    if negb (max_series (bounds_ p) =? 0) && (sample_count (out p) >=? max_series (bounds_ p))
    then Throw (Fail (str "more than " ++ show (max_series (bounds_ p)) ++ str " series"))
    else
      let* (p', at_) := family_for p name in
      Ok (add_sample parsed at_ p').

(** ** Lines and bodies *)

Definition set_eof (p : parser) : parser :=
  set_out (mkResult (families (out p)) (sample_count (out p)) true (error (out p)) (error_line (out p))) p.

Definition read_shaped (p : parser) (raw : cppstring) (shape : line_shape) : result stop parser :=
  if negb (max_line_bytes (bounds_ p) =? 0) && (zlength raw >? max_line_bytes (bounds_ p))
  then Throw (Fail (str "line longer than " ++ show (max_line_bytes (bounds_ p)) ++ str " bytes"))
  else match what shape with
  | k_blank => Ok p
  | k => if saw_eof (out p) then Throw (Fail (str "text after '# EOF'"))
         else match k with
         | k_metadata => metadata_line p shape
         | k_sample => sample_line p shape
         | k_eof_with_text => Throw (Fail (str "unexpected text after '# EOF'"))
         | k_eof => Ok (set_eof p)
         | _ => Ok p
         end
  end.

Definition stop_with (s : stop) (p : parser) : parser := match s with Fail why => fail why p | RefuseBlock => refuse_block p end.

Definition read_line (p : parser) (raw : cppstring) (terminated : bool) : parser * bool :=
  let text := normalise raw in
  if negb terminated && negb (may_end_unterminated p text) then (fail (str "the body ends in the middle of a line") p, false)
  else
    let shape := shape_of (format_ p) text in
    if negb (block_admits p shape) then (refuse_block p, false)
    else
      let own_metadata := negb (saw_eof (out p)) && whole_name shape && in_own_block p (sh_name shape) in
      match read_shaped p raw shape with
      | Ok p' => (p', true)
      | Throw s => (if own_metadata then set_failed true (stop_with s p) else stop_with s p, false)
      end.

Definition finish (p : parser) : parser :=
  let p1 :=
    if block_open p && saw_eof (out p) && ok (out p)
    then set_failed true (stop_with (invariant_broken (str "a repeated name's block was still open at '# EOF'")) p)
    else p in
  match current p1 with
  | None => p1
  | Some at_ =>
      let seen := state_at p1 at_ in
      if current_block_failed p1 || (tentative seen && negb (st_type seen)) then drop_current p1 else p1
  end.

(** The lines of a body without their line feeds, and whether each had one. *)
Fixpoint lines_of (text : cppstring) : list (cppstring * bool) :=
  match text with
  | [] => []
  | c :: text' =>
      if bool_decide (c = c_newline) then ([], true) :: lines_of text'
      else match lines_of text' with
      | [] => [([c], false)]
      | (l, t) :: rest => (c :: l, t) :: rest
      end
  end.

Fixpoint read_lines (number : Z) (lines : list (cppstring * bool)) (p : parser) : parser :=
  match lines with
  | [] => p
  | (line, terminated) :: rest =>
      let '(p', go) := read_line (begin_line (number + 1) p) line terminated in
      if go then read_lines (number + 1) rest p' else p'
  end.

Definition parse (body : cppstring) (f : format) (bounds : limits) : om_result :=
  out (finish (read_lines 0 (lines_of body) (new_parser f bounds))).

Definition format_for_content_type (content_type : cppstring) : format :=
  match Strings.find (map ascii_lower content_type) (str "application/openmetrics-text") 0 with
  | Some _ => openmetrics_1_0
  | None => prometheus_text_0_0_4
  end.

Definition default_limits : limits := mkLimits 500000 50000 256 2500000 (1024 * 1024).
