(* ===== verification/OpenMetricsLaws.v ===== *)
(** What the parser of metrics expositions promises: the families it returns are told apart,
    every sample is where it belongs, the limits hold, and its internal errors never happen. *)

From stdpp Require Import base list gmap strings.
From Stdlib Require Import Ascii ZArith Lia.
From Stdlib Require String.
From S2P Require Import Prelude Strings Ordering Format NumberText OpenMetrics.
Import String.StringSyntax.

Local Open Scope Z_scope.

(** ** Ownership of sample names *)

Definition owns_name (f : format) (fam : family) (name : cppstring) : bool :=
  is_prefix (f_name fam) name && owns_suffix f (f_type fam) (drop (length (f_name fam)) name).

Lemma owns_at p i fam name : families (out p) !! i = Some fam -> owns p i name = owns_name (format_ p) fam name.
Proof. intros H. unfold owns, family_at, owns_name. by rewrite (nth_lookup_Some _ _ _ _ H). Qed.
Lemma family_at_lookup p i fam : families (out p) !! i = Some fam -> family_at p i = fam.
Proof. intros H. unfold family_at. by apply nth_lookup_Some. Qed.
Lemma state_at_lookup p i st : state_ p !! i = Some st -> state_at p i = st.
Proof. intros H. unfold state_at. by apply nth_lookup_Some. Qed.

Lemma owns_name_iff f fam name :
  owns_name f fam name = true <-> exists s, name = f_name fam ++ s /\ owns_suffix f (f_type fam) s = true.
Proof.
  unfold owns_name. rewrite andb_true_iff, is_prefix_iff. split.
  - intros [[b ->] H]. rewrite drop_app_length in H. eauto.
  - intros (s & -> & H). rewrite drop_app_length. eauto.
Qed.

Lemma owns_suffix_listed f t s : owns_suffix f t s = true -> s ∈ sample_suffixes.
Proof.
  unfold owns_suffix, is_word, sample_suffixes. simpl. intros H.
  destruct f, t; repeat (apply orb_prop in H as [H|H]); apply bool_decide_eq_true in H as ->; set_solver.
Qed.

(** No suffix of a sample continues another one, so a name splits in one way up to an owner
    whose own name is the other owner's sample. *)
Lemma name_suffix_split a b s t : s ∈ sample_suffixes -> t ∈ sample_suffixes -> a ++ s = b ++ t ->
  s = t /\ a = b \/ s = [] /\ a = b ++ t \/ t = [] /\ b = a ++ s.
Proof.
  intros Hs Ht E. destruct (decide (s = [])) as [->|Ns]; [right; left; by rewrite app_nil_r in E|].
  destruct (decide (t = [])) as [->|Nt]; [right; right; by rewrite app_nil_r in E|]. left.
  assert (forall u, u ∈ sample_suffixes -> u <> [] -> exists v, u = "_"%char :: v /\ ("_"%char ∉ v)) as U.
  { intros u Hu Nu. apply list_elem_of_In in Hu. unfold sample_suffixes in Hu. cbn in Hu.
    repeat (destruct Hu as [<-|Hu]; [first [done | eexists; split; [reflexivity|]; vm_decide]|]). done. }
  destruct (U s Hs Ns) as (s' & -> & Is), (U t Ht Nt) as (t' & -> & It).
  apply (f_equal (@rev ascii)) in E. rewrite !rev_app_distr in E. simpl in E. rewrite <-!app_assoc in E. simpl in E.
  apply first_split_unique in E as [E1 E2]; [|by rewrite list_elem_of_In, <-in_rev, <-list_elem_of_In..].
  apply (f_equal (@rev ascii)) in E1, E2. rewrite !rev_involutive in *. by subst.
Qed.

(** Only a family of type counter shares a sample name with another of its name, [_created]. *)
Lemma pair_suffix f a b s : pair_types a b = true -> owns_suffix f a s = true -> owns_suffix f b s = true ->
  f = openmetrics_1_0 -> s = str "_created".
Proof.
  intros P A B ->. unfold owns_suffix, is_word in A, B.
  destruct a, b; try discriminate P;
  repeat (apply orb_prop in A as [A|A]); apply bool_decide_eq_true in A as ->;
    first [reflexivity | vm_compute in B; discriminate B].
Qed.

(** ** The parser's invariant *)

Definition label_total (fs : list family) : Z :=
  Z.of_nat (sum_list_with (fun f => sum_list_with (fun s => length (s_labels s)) (f_samples f)) fs).
Definition sample_total (fs : list family) : Z := Z.of_nat (sum_list_with (fun f => length (f_samples f)) fs).

(** The second family under a name is open, or is the other half of a pair. *)
Definition paired (f : format) (fs : list family) (st : list family_state) (i j : nat) : Prop :=
  i <> j /\ f = openmetrics_1_0 /\
  exists fi fj si sj, fs !! i = Some fi /\ fs !! j = Some fj /\ st !! i = Some si /\ st !! j = Some sj /\
    f_name fj = f_name fi /\ st_type si = true /\ tentative si = false /\
    (st_type sj = true -> pair_types (f_type fi) (f_type fj) = true) /\
    (tentative sj = false -> st_type sj = true).

Record wf (p : parser) : Prop := {
  wf_states : length (state_ p) = length (families (out p));
  wf_current i : current p = Some i -> (i < length (families (out p)))%nat;
  wf_names i f : families (out p) !! i = Some f -> f_name f <> [];
  wf_index n e : families_by_name p !! n = Some e ->
    (exists f, families (out p) !! first e = Some f /\ f_name f = n) /\
    (forall j, second e = Some j -> paired (format_ p) (families (out p)) (state_ p) (first e) j);
  wf_indexed i f : families (out p) !! i = Some f ->
    exists e, families_by_name p !! f_name f = Some e /\ (first e = i \/ second e = Some i);
  wf_tentative i st : state_ p !! i = Some st -> tentative st = true ->
    current p = Some i /\ saw_eof (out p) = false /\
    (exists f, families (out p) !! i = Some f /\ f_samples f = []) /\
    (exists n e, families_by_name p !! n = Some e /\ second e = Some i);
  wf_untyped i st f : state_ p !! i = Some st -> families (out p) !! i = Some f -> st_type st = false -> f_type f = unknown;
  wf_apart i j f g : families (out p) !! i = Some f -> families (out p) !! j = Some g -> f_name f <> f_name g ->
    owns_name (format_ p) f (f_name g) = false;
  wf_owned i f s : families (out p) !! i = Some f -> s ∈ f_samples f -> owns_name (format_ p) f (s_name s) = true;
  wf_unique_labels i f s : families (out p) !! i = Some f -> s ∈ f_samples f -> NoDup (s_labels s).*1;
  wf_failed : current_block_failed p = true ->
    exists i f, current p = Some i /\ families (out p) !! i = Some f /\ f_samples f = [];
  wf_count : sample_count (out p) = sample_total (families (out p));
  wf_label_count : label_count p = label_total (families (out p)) }.

(** The limits, each of them off at 0. *)
Definition within (limit n : Z) : Prop := limit = 0 \/ n <= limit.
Definition within_limits (b : limits) (fs : list family) : Prop :=
  within (max_families b) (zlength fs) /\ within (max_series b) (sample_total fs) /\ within (max_labels b) (label_total fs) /\
  Forall (fun f => Forall (fun s => within (max_labels_per_sample b) (zlength (s_labels s))) (f_samples f)) fs.

(** A parser that goes on reading. *)
Record live (f : format) (b : limits) (p : parser) : Prop := {
  live_wf : wf p;
  live_going : current_block_failed p = false;
  live_no_error : error (out p) = [];
  live_format : format_ p = f;
  live_bounds : bounds_ p = b;
  live_lines : block_open p = true -> 1 <= block_opened_on p <= line_number p;
  live_limits : within_limits b (families (out p)) }.

Lemma paired_index p n e i : wf p -> families_by_name p !! n = Some e -> first e = i \/ second e = Some i ->
  exists f, families (out p) !! i = Some f /\ f_name f = n.
Proof.
  intros W He Hi. destruct (wf_index p W _ _ He) as [(f & Hf & En) P]. destruct Hi as [<-|Hi]; [eauto|].
  destruct (P _ Hi) as (_ & _ & fi & fj & _ & _ & H1 & H2 & _ & _ & En' & _). rewrite Hf in H1. simplify_eq. eauto.
Qed.

Lemma state_lookup p i f : wf p -> families (out p) !! i = Some f -> exists st, state_ p !! i = Some st.
Proof. intros W H. apply lookup_lt_is_Some. rewrite (wf_states p W). by eapply lookup_lt_Some. Qed.

(** ** Looking up *)

Lemma without_suffix_app a s : without_suffix (a ++ s) s = a.
Proof. unfold without_suffix. rewrite length_app, Nat.add_sub. apply take_app_length. Qed.
Lemma ends_with_app a s : a <> [] -> ends_with (a ++ s) s = true.
Proof.
  intros N. unfold ends_with. rewrite length_app, Nat.add_sub, drop_app_length, bool_decide_eq_true_2 by done.
  destruct a; [done|]. simpl. rewrite andb_true_r. apply Nat.ltb_lt. lia.
Qed.

Lemma find_in_None p name suffixes : forall ret, owner (find_in p name suffixes ret) = None ->
  owner ret = None /\ forall s e, s ∈ suffixes -> ends_with name s = true -> families_by_name p !! without_suffix name s = Some e ->
    owns p (first e) name = false /\ forall j, second e = Some j -> owns p j name = false.
Proof.
  induction suffixes as [|s l IH]; intros ret; simpl; [set_solver|].
  destruct (ends_with name s) eqn:Ew; simpl.
  2: { intros H. destruct (IH _ H) as [H1 H2]. split; [done|]. intros s' e [->|Hin]%elem_of_cons E; [congruence|eauto]. }
  destruct (families_by_name p !! without_suffix name s) as [e|] eqn:El.
  2: { intros H. destruct (IH _ H) as [H1 H2]. split; [done|]. intros s' e [->|Hin]%elem_of_cons E; [congruence|eauto]. }
  destruct (owns p (first e) name) eqn:O1; [done|].
  assert (forall r, owner r = owner ret -> owner (find_in p name l r) = None -> (forall j, second e = Some j -> owns p j name = false) ->
    owner ret = None /\ (forall s' e', s' ∈ s :: l -> ends_with name s' = true -> families_by_name p !! without_suffix name s' = Some e' ->
    owns p (first e') name = false /\ forall j, second e' = Some j -> owns p j name = false)) as K.
  { intros r Hr H Hj. destruct (IH _ H) as [H1 H2]. split; [congruence|].
    intros s' e' [->|Hin]%elem_of_cons E L; [|eauto]. rewrite El in L. simplify_eq. auto. }
  destruct (second e) as [j|] eqn:Es.
  - destruct (owns p j name) eqn:O2; [done|]. intros H. eapply K; [|exact H|naive_solver]. by case_bool_decide.
  - intros H. eapply K; [|exact H|done]. by case_bool_decide.
Qed.

Lemma find_in_Some p name suffixes o : forall ret, (owner ret = Some o -> owns p o name = true) ->
  owner (find_in p name suffixes ret) = Some o -> owns p o name = true /\
  (owner ret = Some o \/ exists n e, families_by_name p !! n = Some e /\ (first e = o \/ second e = Some o)).
Proof.
  induction suffixes as [|s l IH]; intros ret Hr; simpl; [eauto|].
  destruct (ends_with name s); simpl; [|by apply IH].
  destruct (families_by_name p !! without_suffix name s) as [e|] eqn:El; [|by apply IH].
  destruct (owns p (first e) name) eqn:O1; simpl.
  { intros [= <-]. split; [done|]. right. exists (without_suffix name s), e. by auto. }
  destruct (second e) as [j|] eqn:Es; [destruct (owns p j name) eqn:O2; simpl|].
  { intros [= <-]. split; [done|]. right. exists (without_suffix name s), e. by auto. }
  all: case_bool_decide; [|by apply IH]; intros H'; apply IH in H'; simpl in *; auto.
Qed.

Lemma find_in_unnamed p name suffixes : forall ret, owner (find_in p name suffixes ret) = None ->
  same_name (find_in p name suffixes ret) = None ->
  same_name ret = None /\ ([] ∈ suffixes -> name <> [] -> families_by_name p !! name = None).
Proof.
  induction suffixes as [|s l IH]; intros ret; cbn [find_in]; [intros _ H; split; [done|set_solver]|].
  assert (forall r, same_name r = same_name ret -> owner (find_in p name l r) = None -> same_name (find_in p name l r) = None ->
    (s = [] -> name <> [] -> families_by_name p !! name = None) ->
    same_name ret = None /\ ([] ∈ s :: l -> name <> [] -> families_by_name p !! name = None)) as K.
  { intros r Er H1 H2 H3. destruct (IH _ H1 H2) as [H4 H5]. split; [congruence|]. intros [E|Hin]%elem_of_cons; auto. }
  destruct (ends_with name s) eqn:Ew; simpl.
  2: { intros H1 H2. eapply K; [done|done|done|]. intros -> Hn. rewrite <-(app_nil_r name), (ends_with_app name []) in Ew by done. done. }
  destruct (families_by_name p !! without_suffix name s) as [e|] eqn:El.
  2: { intros H1 H2. eapply K; [done|done|done|]. intros -> Hn. 
       pose proof (without_suffix_app name []) as E0. rewrite app_nil_r in E0. by rewrite E0 in El. }
  destruct (owns p (first e) name); [done|]. destruct (second e) as [j|]; [destruct (owns p j name); [done|]|].
  all: case_bool_decide as Es; [intros H1 H2; exfalso; by destruct (IH _ H1 H2)|intros H1 H2; by eapply K].
Qed.

Lemma find_eq p name : find p name = find_in p name sample_suffixes (mkMatch None None).
Proof. reflexivity. Qed.

Lemma find_in_owner p name l i f : wf p -> sample_suffixes ⊆ l -> owner (find_in p name l (mkMatch None None)) = None ->
  families (out p) !! i = Some f -> owns_name (format_ p) f name = false.
Proof.
  intros W Hl H Hf. destruct (owns_name (format_ p) f name) eqn:O; [|done].
  pose proof O as O'. apply owns_name_iff in O' as (s & -> & Os).
  apply find_in_None in H as [_ K]. destruct (wf_indexed p W _ _ Hf) as (e & He & Hi).
  specialize (K s e (Hl _ (owns_suffix_listed _ _ _ Os)) (ends_with_app _ _ (wf_names p W _ _ Hf))).
  rewrite without_suffix_app in K. destruct (K He) as [K1 K2].
  destruct Hi as [<-|Hi]; [by rewrite (owns_at _ _ _ _ Hf), O in K1|].
  specialize (K2 _ Hi). by rewrite (owns_at _ _ _ _ Hf), O in K2.
Qed.

Lemma find_None p name i f : wf p -> owner (find p name) = None -> families (out p) !! i = Some f ->
  owns_name (format_ p) f name = false.
Proof. intros W. rewrite find_eq. by apply find_in_owner. Qed.

Lemma find_unnamed p name : owner (find p name) = None -> same_name (find p name) = None -> name <> [] -> families_by_name p !! name = None.
Proof. rewrite find_eq. intros H1 H2 Hn. destruct (find_in_unnamed _ _ _ _ H1 H2) as [_ H]. apply H; [|done]. vm_decide. Qed.

Lemma find_Some p name o : wf p -> owner (find p name) = Some o -> exists f, families (out p) !! o = Some f /\ owns_name (format_ p) f name = true.
Proof.
  intros W H. rewrite find_eq in H. apply find_in_Some in H as [O [?|(n & e & He & Hi)]]; [done| |done].
  destruct (paired_index p n e o W He Hi) as (f & Hf & _). exists f. split; [done|]. by rewrite <-(owns_at _ _ _ _ Hf).
Qed.
#[local] Opaque find sample_suffixes.

(** ** Every operation keeps the invariant *)

Lemma alter_insert {A} (l : list A) i x f : l !! i = Some x -> alter f i l = <[i := f x]> l.
Proof. intros H. revert i H. induction l as [|y l IH]; intros [|i] H; simplify_eq/=; [done|]. f_equal. by apply IH. Qed.
Lemma sum_insert {A} (g : A -> nat) l i x y : l !! i = Some x ->
  (sum_list_with g (<[i := y]> l) + g x = sum_list_with g l + g y)%nat.
Proof. revert i. induction l as [|z l IH]; intros [|i] H; simplify_eq/=; [lia|]. specialize (IH _ H). lia. Qed.
Lemma lookup_insert_inv {A} (l : list A) i j x y : <[i := x]> l !! j = Some y -> i = j /\ y = x \/ i <> j /\ l !! j = Some y.
Proof. rewrite list_lookup_insert_Some. naive_solver. Qed.

Lemma wf_new f b : wf (new_parser f b).
Proof. by constructor. Qed.
Lemma wf_fail_on why line p : wf p -> wf (fail_on why line p).
Proof. intros []. by constructor. Qed.
Lemma wf_begin_line n p : wf p -> wf (begin_line n p).
Proof. intros []. by constructor. Qed.
Lemma wf_set_failed p i f : wf p -> current p = Some i -> families (out p) !! i = Some f -> f_samples f = [] -> wf (set_failed true p).
Proof. intros []. constructor; eauto. Qed.

Lemma not_open_settled p i st : wf p -> block_open p = false -> state_ p !! i = Some st -> tentative st = false.
Proof.
  intros W B H. destruct (tentative st) eqn:T; [|done]. destruct (wf_tentative p W _ _ H T) as (C & _).
  unfold block_open in B. rewrite C, (state_at_lookup _ _ _ H) in B. congruence.
Qed.

Lemma wf_switch p i : wf p -> block_open p = false -> (i < length (families (out p)))%nat -> wf (switch_to i p).
Proof.
  intros W B Hi. pose proof (fun k st => not_open_settled p k st W B) as NS. destruct W. constructor; eauto.
  - intros j [= <-]. done.
  - intros k st Hk T. rewrite (NS _ _ Hk) in T. discriminate.
  - done.
Qed.

Lemma wf_set_eof p : wf p -> block_open p = false -> wf (set_eof p).
Proof.
  intros W B. pose proof (fun k st => not_open_settled p k st W B) as NS. destruct W. constructor; eauto.
  intros k st Hk T. rewrite (NS _ _ Hk) in T. discriminate.
Qed.

(** What a new family of this name needs. *)
Definition addable (p : parser) (name : cppstring) (repeated : bool) : Prop :=
  name <> [] /\
  (forall i f, families (out p) !! i = Some f -> f_name f <> name -> owns_name (format_ p) f name = false) /\
  match families_by_name p !! name with
  | Some e => repeated = true /\ format_ p = openmetrics_1_0 /\ saw_eof (out p) = false /\ second e = None /\
              exists st, state_ p !! first e = Some st /\ st_type st = true
  | None => repeated = false
  end.

Lemma paired_snoc f fs st i j x y : paired f fs st i j -> paired f (fs ++ [x]) (st ++ [y]) i j.
Proof.
  intros (N & F & fi & fj & si & sj & H1 & H2 & H3 & H4 & K). split; [done|]. split; [done|].
  exists fi, fj, si, sj. split_and!; try (by apply lookup_app_l_Some); tauto.
Qed.

Lemma owns_unknown f fam name : f_type fam = unknown -> owns_name f fam name = true -> name = f_name fam.
Proof.
  intros T (s & -> & O)%owns_name_iff. rewrite T in O. unfold owns_suffix, is_word in O.
  destruct f; apply bool_decide_eq_true in O as ->; by rewrite app_nil_r.
Qed.

Lemma wf_add_family p name repeated : wf p -> block_open p = false -> addable p name repeated -> wf (add_family name repeated p).
Proof.
  intros W B (Hn & Hap & Hidx). pose proof (fun k st => not_open_settled p k st W B) as NS. pose proof W as W'. destruct W'.
  assert (forall i f, (families (out p) ++ [mkFamily name unknown [] [] []]) !! i = Some f ->
    families (out p) !! i = Some f \/ i = length (families (out p)) /\ f = mkFamily name unknown [] [] []) as Inv.
  { intros i f H. apply lookup_snoc_Some in H as [[_ ?]|[-> <-]]; auto. }
  constructor; simpl.
  - rewrite !length_app. simpl. lia.
  - intros i [= <-]. rewrite length_app. simpl. lia.
  - intros i f [H|[-> ->]]%Inv; eauto.
  - intros n e. destruct (decide (n = name)) as [->|Ne].
    2: { rewrite lookup_insert_ne by done. intros He. destruct (wf_index0 _ _ He) as [(f & Hf & En) P]. split.
         - exists f. split; [by apply lookup_app_l_Some|done].
         - intros j Hj. by apply paired_snoc, P. }
    rewrite lookup_insert_eq. intros [= <-]. destruct (families_by_name p !! name) as [e|] eqn:El.
    + destruct Hidx as (-> & F & Hs & H2 & st & Hst & Ht). destruct (wf_index0 _ _ El) as [(f & Hf & En) _]. split.
      * exists f. split; [by apply lookup_app_l_Some|done].
      * intros j [= <-]. pose proof (lookup_lt_Some _ _ _ Hf). split; [simpl; lia|]. split; [done|].
        exists f, (mkFamily name unknown [] [] []), st, (mkState false false false true).
        split_and!; try done; [by apply lookup_app_l_Some|by apply lookup_snoc_Some; right|by apply lookup_app_l_Some| |by eapply NS].
        apply lookup_snoc_Some. right. by rewrite wf_states0.
    + split; [|done]. exists (mkFamily name unknown [] [] []). split; [by apply lookup_snoc_Some; right|done].
  - intros i f [H|[-> ->]]%Inv; simpl.
    + destruct (wf_indexed0 _ _ H) as (e & He & Hi). destruct (decide (f_name f = name)) as [En|En].
      * rewrite <-En, lookup_insert_eq. eexists. split; [reflexivity|]. rewrite En in He. rewrite En, He. rewrite He in Hidx.
        destruct Hidx as (-> & _ & _ & H2 & _). simpl. destruct Hi; [auto|congruence].
      * rewrite lookup_insert_ne by done. eauto.
    + rewrite lookup_insert_eq. eexists. split; [reflexivity|]. destruct (families_by_name p !! name); [|auto].
      destruct Hidx as (-> & _). auto.
  - intros i st [[Hl Hi]|[-> <-]]%lookup_snoc_Some; simpl.
    + intros T. rewrite (NS _ _ Hi) in T. discriminate.
    + intros ->. rewrite wf_states0. destruct (families_by_name p !! name) as [e|] eqn:El; [|done].
      destruct Hidx as (_ & _ & Hs & _). split; [done|]. split; [done|]. split.
      * eexists. split; [apply lookup_snoc_Some; right; eauto|done].
      * eexists name, _. rewrite lookup_insert_eq. eauto.
  - intros i st f Hst [H|[-> ->]]%Inv Ht; [|done]. apply lookup_snoc_Some in Hst as [[_ Hst]|[-> _]]; [eauto|].
    apply lookup_lt_Some in H. lia.
  - intros i j f g [H|[-> ->]]%Inv [K|[-> ->]]%Inv Ne; simpl in *; eauto.
    + destruct (owns_name _ _ _) eqn:O; [|done]. apply owns_unknown in O; simpl in *; congruence.
    + done.
  - intros i f s [H|[-> ->]]%Inv; [eauto|]. simpl. set_solver.
  - intros i f s [H|[-> ->]]%Inv; [eauto|]. simpl. set_solver.
  - done.
  - rewrite wf_count0. unfold sample_total. rewrite sum_list_with_app. simpl. lia.
  - rewrite wf_label_count0. unfold label_total. rewrite sum_list_with_app. simpl. lia.
Qed.

(** A pair survives a change of one family that keeps its name, and of its declared type at
    most settles an open second half. *)
Lemma paired_update fmt fs st a b i f f' s s' : paired fmt fs st a b -> fs !! i = Some f -> st !! i = Some s ->
  f_name f' = f_name f -> (tentative s' = true -> tentative s = true) ->
  (st_type s = true -> st_type s' = true /\ f_type f' = f_type f) ->
  (i = b -> (st_type s' = true -> forall fa, fs !! a = Some fa -> pair_types (f_type fa) (f_type f') = true) /\
            (tentative s' = false -> st_type s' = true)) ->
  paired fmt (<[i := f']> fs) (<[i := s']> st) a b.
Proof.
  intros (N & F & fa & fb & sa & sb & H1 & H2 & H3 & H4 & En & Ta & Na & Pt & Ts) Hf Hs En' Ht Hty Hb.
  split; [done|]. split; [done|].
  destruct (decide (i = a)) as [->|Nia].
  - simplify_eq. exists f', fb, s', sb. destruct (Hty Ta) as [-> ->].
    rewrite !list_lookup_insert_eq by (by eapply lookup_lt_Some). rewrite !list_lookup_insert_ne by done.
    split_and!; try done; [congruence|]. destruct (tentative s'); [|done]. rewrite Ht in Na; done.
  - destruct (decide (i = b)) as [->|Nib].
    + simplify_eq. destruct (Hb eq_refl) as [Hp Hs']. exists fa, f', sa, s'.
      rewrite !list_lookup_insert_eq by (by eapply lookup_lt_Some). rewrite !list_lookup_insert_ne by done. split_and!; try done; [congruence|eauto].
    + exists fa, fb, sa, sb. by rewrite !list_lookup_insert_ne by done.
Qed.

(** One family changes: its name and owned samples stay within the rules. *)
Lemma wf_update p i f s f' s' p' : wf p -> families (out p) !! i = Some f -> state_ p !! i = Some s ->
  families (out p') = <[i := f']> (families (out p)) -> state_ p' = <[i := s']> (state_ p) ->
  format_ p' = format_ p -> saw_eof (out p') = saw_eof (out p) -> families_by_name p' = families_by_name p -> current p' = current p ->
  f_name f' = f_name f -> (tentative s' = true -> tentative s = true /\ f_samples f' = []) ->
  (st_type s = true -> st_type s' = true /\ f_type f' = f_type f) -> (st_type s' = false -> f_type f' = unknown) ->
  (forall n e, families_by_name p !! n = Some e -> second e = Some i ->
     (st_type s' = true -> forall fa, families (out p) !! first e = Some fa -> pair_types (f_type fa) (f_type f') = true) /\
     (tentative s' = false -> st_type s' = true)) ->
  (forall j g, families (out p) !! j = Some g -> f_name g <> f_name f -> owns_name (format_ p) f' (f_name g) = false) ->
  (forall x, x ∈ f_samples f' -> owns_name (format_ p) f' (s_name x) = true /\ NoDup (s_labels x).*1) ->
  (current_block_failed p' = true -> current_block_failed p = true /\ f_samples f' = f_samples f) ->
  sample_count (out p') + zlength (f_samples f) = sample_count (out p) + zlength (f_samples f') ->
  label_count p' + label_total [f] = label_count p + label_total [f'] ->
  wf p'.
Proof.
  intros W Hf Hs Ef Es Efm Eeof Ebn Ecu En Ht Hty Hu Hp Hap Hown Hfl Hsc Hlc. destruct W.
  assert (f' = mkFamily (f_name f) (f_type f') (f_help f') (f_unit f') (f_samples f')) as Ef' by (rewrite <-En; by destruct f').
  constructor; rewrite ?Ef, ?Es, ?Efm, ?Eeof, ?Ebn, ?Ecu, ?length_insert; eauto.
  - intros j g [[<- ->]|[Nij H]]%lookup_insert_inv; [rewrite En|]; eauto.
  - intros n e He. destruct (wf_index0 _ _ He) as [(g & Hg & Eg) P]. split.
    + destruct (decide (i = first e)) as [->|Nie].
      * exists f'. rewrite list_lookup_insert_eq by (by eapply lookup_lt_Some). rewrite Hf in Hg. simplify_eq. done.
      * exists g. by rewrite list_lookup_insert_ne.
    + intros j Hj. eapply paired_update; [by apply P|done..| |done|].
      * intros T. by destruct (Ht T).
      * intros ->. by apply Hp with n.
  - intros j g [[<- ->]|[Nij H]]%lookup_insert_inv; [rewrite En|]; eauto.
  - intros j st [[<- ->]|[Nij H]]%lookup_insert_inv T.
    + destruct (Ht T) as [T0 Sf]. destruct (wf_tentative0 _ _ Hs T0) as (? & ? & _ & ?). split_and!; try done.
      exists f'. by rewrite list_lookup_insert_eq by (by eapply lookup_lt_Some).
    + destruct (wf_tentative0 _ _ H T) as (? & ? & (g & Hg & Sg) & ?). split_and!; try done.
      exists g. by rewrite list_lookup_insert_ne.
  - intros j st g [[<- ->]|[Nij H]]%lookup_insert_inv [[E ->]|[Nij' H']]%lookup_insert_inv; try done; eauto.
  - intros j k g h [[<- ->]|[Nij H]]%lookup_insert_inv [[E ->]|[Nij' H']]%lookup_insert_inv Ne; try done; rewrite ?En in *; eauto.
  - intros j g x [[<- ->]|[Nij H]]%lookup_insert_inv Hx; [by apply Hown|eauto].
  - intros j g x [[<- ->]|[Nij H]]%lookup_insert_inv Hx; [by apply Hown|eauto].
  - intros C. destruct (Hfl C) as [C0 Sf]. destruct (wf_failed0 C0) as (k & g & Hk & Hg & Sg). exists k.
    destruct (decide (i = k)) as [->|Nik].
    + exists f'. rewrite list_lookup_insert_eq by (by eapply lookup_lt_Some). simplify_eq. by rewrite Sf.
    + exists g. by rewrite list_lookup_insert_ne.
  - unfold sample_total. pose proof (sum_insert (fun f => length (f_samples f)) _ _ _ f' Hf).
    rewrite wf_count0 in Hsc. unfold sample_total, zlength in Hsc. lia.
  - unfold label_total in *. pose proof (sum_insert (fun f => sum_list_with (fun s => length (s_labels s)) (f_samples f)) _ _ _ f' Hf).
    rewrite wf_label_count0 in Hlc. simpl in Hlc. lia.
Qed.

Lemma wf_settle p i st : wf p -> state_ p !! i = Some st -> st_type st = true -> current_block_failed p = false ->
  wf (set_state (alter (set_tentative false) i (state_ p)) p).
Proof.
  intros W H T NF. rewrite (alter_insert _ _ _ _ H).
  destruct (lookup_lt_is_Some_2 (families (out p)) i) as [f Hf]; [rewrite <-(wf_states p W); by eapply lookup_lt_Some|].
  apply (wf_update p i f st f (set_tentative false st)); try done.
  - simpl. by rewrite list_insert_id.
  - simpl. congruence.
  - intros n e He Hi. split; [|done]. intros _ fa Ha. destruct (wf_index p W _ _ He) as [_ P].
    destruct (P _ Hi) as (_ & _ & fi & fj & si & sj & H1 & H2 & H3 & H4 & _ & _ & _ & Pt & _). simplify_eq. auto.
  - intros j g Hj Ne. by apply (wf_apart p W i j f g).
  - intros x Hx. split; [by eapply wf_owned|by eapply wf_unique_labels].
Qed.

Lemma label_total_snoc f s : label_total [mkFamily (f_name f) (f_type f) (f_help f) (f_unit f) (f_samples f ++ [s])] =
  label_total [f] + zlength (s_labels s).
Proof. unfold label_total, zlength. simpl. rewrite sum_list_with_app. simpl. lia. Qed.

Lemma wf_add_sample p i f st s : wf p -> families (out p) !! i = Some f -> state_ p !! i = Some st -> tentative st = false ->
  current_block_failed p = false -> owns_name (format_ p) f (s_name s) = true -> NoDup (s_labels s).*1 -> wf (add_sample s i p).
Proof.
  intros W Hf Hs T NF O ND. set (f' := mkFamily (f_name f) (f_type f) (f_help f) (f_unit f) (f_samples f ++ [s])).
  apply (wf_update p i f st f' st); try done; simpl.
  - by rewrite (alter_insert _ _ _ _ Hf).
  - by rewrite list_insert_id.
  - congruence.
  - intros. by eapply wf_untyped.
  - intros n e He Hi. destruct (wf_index p W _ _ He) as [_ P].
    destruct (P _ Hi) as (_ & _ & fi & fj & si & sj & H1 & H2 & H3 & H4 & _ & _ & _ & Pt & Pn). simplify_eq. split; [|auto].
    intros Ty fa Ha. simplify_eq. auto.
  - intros j g Hj Ne. by apply (wf_apart p W i j f g).
  - intros x [Hx| ->%list_elem_of_singleton]%elem_of_app; [|done]. split; [by apply (wf_owned p W i f x)|by apply (wf_unique_labels p W i f x)].
  - congruence.
  - rewrite zlength_app. unfold zlength. simpl. lia.
  - unfold f'. rewrite label_total_snoc. lia.
Qed.

(** ** Metadata lines *)

Definition metadata_word (kw : cppstring) : Prop := kw = str "HELP" \/ kw = str "TYPE" \/ kw = str "UNIT".

Lemma shape_of_metadata f text : what (shape_of f text) = k_metadata -> metadata_word (keyword (shape_of f text)).
Proof.
  destruct text as [|c rest]; [done|]. cbn -[is_eof_marker token skip_blanks metric_name]. case_match; [by destruct (metric_name _)|].
  case_match; [done|]. destruct (token _) as [kw after]. case_match; [done|]. case_match eqn:E; [done|].
  apply negb_false_iff in E. unfold is_word in E. case_match; [|destruct (metric_name _)]; simpl; intros _;
    repeat (apply orb_prop in E as [E|E]); apply bool_decide_eq_true in E; unfold metadata_word; auto.
Qed.
Lemma shape_of_whole f text : whole_name (shape_of f text) = true -> what (shape_of f text) = k_metadata /\ sh_name (shape_of f text) <> [].
Proof.
  destruct text as [|c rest]; [done|]. cbn -[is_eof_marker token skip_blanks metric_name]. case_match; [by destruct (metric_name _)|].
  case_match; [done|]. destruct (token _) as [kw after]. case_match; [done|]. case_match; [done|]. case_match; [done|].
  destruct (metric_name _). simpl. intros [Hn _]%andb_prop. by apply negb_true_iff, bool_decide_eq_false in Hn.
Qed.

(** The family a metadata line continues: the current one, with no sample yet. *)
Lemma own_block_current p name : wf p -> in_own_block p name = true ->
  exists i f, current p = Some i /\ families (out p) !! i = Some f /\ f_name f = name /\ f_samples f = [].
Proof.
  intros W H. unfold in_own_block in H. destruct (current p) as [i|] eqn:C; [|done].
  destruct (lookup_lt_is_Some_2 (families (out p)) i (wf_current p W i C)) as [f Hf].
  rewrite (family_at_lookup _ _ _ Hf) in H. apply andb_prop in H as [H1 H2]. apply bool_decide_eq_true in H1.
  exists i, f. split_and!; try done. by destruct (f_samples f).
Qed.

Lemma claims_earlier_None p name t l s : claims_earlier p name t l = Ok tt -> s ∈ l -> s <> [] -> owns_suffix (format_ p) t s = true ->
  families_by_name p !! (name ++ s) = None.
Proof.
  induction l as [|x l IH]; simpl; [set_solver|]. intros H [->|Hin]%elem_of_cons N O.
  - rewrite bool_decide_eq_false_2, O in H by done. simpl in H. by case_match.
  - apply IH; try done. case_match; [done|]. by case_match.
Qed.
(** Every suffix a type owns is looked up, so the claim stands against all families. *)
Lemma claims_earlier_apart p name t i g : wf p -> claims_earlier p name t sample_suffixes = Ok tt -> families (out p) !! i = Some g ->
  f_name g <> name -> forall h u sm, owns_name (format_ p) (mkFamily name t h u sm) (f_name g) = false.
Proof.
  intros W H Hg Ne h u sm. destruct (owns_name _ _ _) eqn:O; [|done]. apply owns_name_iff in O as (s & En & Os). simpl in En, Os.
  assert (s <> []) as Ns by (intros ->; rewrite app_nil_r in En; congruence).
  pose proof (claims_earlier_None _ _ _ _ _ H (owns_suffix_listed _ _ _ Os) Ns Os) as K.
  destruct (wf_indexed p W _ _ Hg) as (e & He & _). rewrite En in He. congruence.
Qed.

(** What a line that names a type has been checked for. *)
Definition type_checked (p : parser) (i : nat) (name : cppstring) (t : family_type) : Prop :=
  (forall e fa, families_by_name p !! name = Some e -> second e = Some i -> families (out p) !! first e = Some fa ->
     pair_types (f_type fa) t = true) /\
  (forall j g h u sm, families (out p) !! j = Some g -> f_name g <> name -> owns_name (format_ p) (mkFamily name t h u sm) (f_name g) = false).

Lemma wf_declare p i f st kw payload t : wf p -> metadata_word kw -> current p = Some i -> families (out p) !! i = Some f ->
  state_ p !! i = Some st -> f_samples f = [] -> declared_in kw st = false ->
  (kw = str "TYPE" -> type_checked p i (f_name f) t) ->
  wf (declare kw payload t i p).
Proof.
  intros W K C Hf Hs Sf D T. unfold declare.
  assert (forall st' f', alter st' i (state_ p) = <[i := st' st]> (state_ p) /\
                         alter f' i (families (out p)) = <[i := f' f]> (families (out p))) as AL
    by (intros; split; by apply alter_insert).
  assert (forall n e, families_by_name p !! n = Some e -> second e = Some i -> n = f_name f /\
    (st_type st = true -> forall fa, families (out p) !! first e = Some fa -> pair_types (f_type fa) (f_type f) = true) /\
    (tentative st = false -> st_type st = true)) as PR.
  { intros n e He Hi. destruct (wf_index p W _ _ He) as [(fa & Ha & En) P].
    destruct (P _ Hi) as (_ & _ & fi & fj & si & sj & H1 & H2 & H3 & H4 & Enm & _ & _ & Pt & Pn). simplify_eq.
    split; [congruence|]. split; [|auto]. intros Ty fa' Ha'. simplify_eq. auto. }
  pose proof (wf_untyped p W _ _ _ Hs Hf) as Un.
  assert (label_total [f] = 0) as L0 by (unfold label_total; simpl; by rewrite Sf).
  destruct K as [->|[->| ->]]; simpl in *.
  - apply (wf_update p i f st (record_help payload f) (mkState true (st_type st) (st_unit st) (tentative st))); simpl; try done;
      try (by apply AL); try (intros x Hx; rewrite Sf in Hx; by apply not_elem_of_nil in Hx).
    + intros n e He Hi. by apply (PR n e).
    + intros j g Hj Ne. by apply (wf_apart p W i j f g).
  - apply (wf_update p i f st (record_type t f) (mkState (st_help st) true (st_unit st) (tentative st))); simpl; try done;
      try (by apply AL); try (intros x Hx; rewrite Sf in Hx; by apply not_elem_of_nil in Hx).
    + unfold declared_in in D. simpl in D. intros. congruence.
    + intros n e He Hi. split; [|done]. intros _ fa Ha. destruct (PR n e He Hi) as [-> _]. by eapply (proj1 (T eq_refl)).
    + intros j g Hj Ne. by eapply (proj2 (T eq_refl)).
  - apply (wf_update p i f st (record_unit payload f) (mkState (st_help st) (st_type st) true (tentative st))); simpl; try done;
      try (by apply AL); try (intros x Hx; rewrite Sf in Hx; by apply not_elem_of_nil in Hx).
    + intros n e He Hi. by apply (PR n e).
    + intros j g Hj Ne. by apply (wf_apart p W i j f g).
Qed.

(** A test that throws when it holds did not hold. *)
Ltac not_thrown H E := match type of H with (if ?b then Throw _ else _) = Ok _ => destruct b eqn:E; [discriminate H|] end.

Lemma open_block_own p shape : wf p -> what shape = k_metadata -> block_admits p shape = true -> block_open p = true ->
  in_own_block p (sh_name shape) = true.
Proof.
  unfold block_admits, block_open, in_own_block. intros W -> H B. destruct (current p) as [i|] eqn:C; [|done].
  rewrite B in H. simpl in H. apply andb_prop in H as [_ H]. apply bool_decide_eq_true in H.
  destruct (lookup_lt_is_Some_2 (families (out p)) i (wf_current p W i C)) as [f Hf].
  destruct (state_lookup p i f W Hf) as [st Hst]. rewrite (state_at_lookup _ _ _ Hst) in B.
  destruct (wf_tentative p W _ _ Hst B) as (_ & _ & (f' & Hf' & Sf) & _).
  rewrite (family_at_lookup _ _ _ Hf'), Sf in *. by rewrite bool_decide_eq_true_2.
Qed.

Lemma room_for_family_ok p : room_for_family p = Ok tt -> within (max_families (bounds_ p)) (zlength (families (out p)) + 1).
Proof. unfold room_for_family, within. case_match; [done|]. breflect. intros _. destruct H; breflect; lia. Qed.

Lemma may_declare_ok p kw name t r : wf p -> name <> [] -> saw_eof (out p) = false -> may_declare p kw name t = Ok r ->
  addable p name r /\ within (max_families (bounds_ p)) (zlength (families (out p)) + 1) /\
  (kw = str "TYPE" -> forall e fa, families_by_name p !! name = Some e -> families (out p) !! first e = Some fa -> pair_types (f_type fa) t = true).
Proof.
  intros W Hn Heof H. unfold may_declare in H. inv_ok. subst. destruct x, x1.
  split; [split; [done|split]|split].
  - intros i f Hf Ne. destruct (owner (find p name)) as [o|] eqn:O; [|by eapply find_None].
    destruct (find_Some p name o W O) as (g & Hg & _). rewrite (family_at_lookup _ _ _ Hg) in Hok.
    destruct (bool_decide (f_name g = name)) eqn:Eb; [|done]. apply bool_decide_eq_true in Eb as <-.
    by apply (wf_apart p W i o f g).
  - destruct (families_by_name p !! name) as [e|] eqn:E; [|congruence]. not_thrown Hok0 H1. not_thrown Hok0 H2. simplify_eq.
    apply orb_false_elim in H1 as [H1 H3]. apply orb_false_elim in H1 as [H1 H4].
    apply negb_false_iff, bool_decide_eq_true in H1, H4. apply negb_false_iff in H3.
    destruct (wf_index p W _ _ E) as [(f & Hf & _) _]. destruct (state_lookup p _ f W Hf) as [st Hst].
    rewrite (state_at_lookup _ _ _ Hst) in H3. split_and!; eauto.
  - by apply room_for_family_ok.
  - intros -> e fa He Hfa. rewrite He in Hok0. not_thrown Hok0 H1. not_thrown Hok0 H2.
    rewrite (family_at_lookup _ _ _ Hfa) in H2. by apply negb_false_iff in H2.
Qed.

Lemma type_checked_new p name r t : wf p -> addable p name r ->
  (forall e fa, families_by_name p !! name = Some e -> families (out p) !! first e = Some fa -> pair_types (f_type fa) t = true) ->
  claims_earlier p name t sample_suffixes = Ok tt -> type_checked (add_family name r p) (length (families (out p))) name t.
Proof.
  intros W (_ & _ & A) Hp Hc. split.
  - intros e fa. simpl. rewrite lookup_insert_eq. destruct (families_by_name p !! name) as [e0|] eqn:E.
    + destruct A as (-> & _). intros [= <-] _ Hfa. simpl in Hfa. destruct (wf_index p W _ _ E) as [(g & Hg & _) _].
      rewrite (lookup_app_l_Some _ _ _ _ Hg) in Hfa. simplify_eq. eauto.
    + intros [= <-]. done.
  - intros j g h u sm [[_ Hg]|[-> <-]]%lookup_snoc_Some Ne; [by apply (claims_earlier_apart p name t j g)|done].
Qed.

Lemma check_type_ok p at_ name t : check_type p at_ name t = Ok tt -> claims_earlier p name t sample_suffixes = Ok tt /\
  forall a st e fa, at_ = Some a -> state_ p !! a = Some st -> tentative st = true -> families_by_name p !! name = Some e ->
    families (out p) !! first e = Some fa -> pair_types (f_type fa) t = true.
Proof.
  unfold check_type. intros H. not_thrown H E. split; [done|]. intros a st e fa -> Hst T He Hfa.
  rewrite He, (state_at_lookup _ _ _ Hst), T, (family_at_lookup _ _ _ Hfa) in E. by apply negb_false_iff in E.
Qed.

Lemma within_limits_same b fs i f f' : within_limits b fs -> fs !! i = Some f -> f_samples f' = f_samples f -> within_limits b (<[i := f']> fs).
Proof.
  intros (L1 & L2 & L3 & L4) H E. unfold within_limits, sample_total, label_total, zlength in *. rewrite length_insert.
  pose proof (sum_insert (fun f => length (f_samples f)) _ _ _ f' H) as S1.
  pose proof (sum_insert (fun f => sum_list_with (fun s => length (s_labels s)) (f_samples f)) _ _ _ f' H) as S2. simpl in *.
  rewrite E in S1, S2. apply Nat.add_cancel_r in S1, S2. rewrite S1, S2. split_and!; try done.
  apply Forall_insert; [done|]. rewrite E. by apply (proj1 (Forall_lookup _ _) L4 i f).
Qed.

Lemma declare_frame kw payload t i p : let p' := declare kw payload t i p in
  current_block_failed p' = current_block_failed p /\ error (out p') = error (out p) /\ format_ p' = format_ p /\ bounds_ p' = bounds_ p /\
  saw_eof (out p') = saw_eof (out p) /\ line_number p' = line_number p /\ block_opened_on p' = block_opened_on p /\ current p' = current p /\
  map tentative (state_ p') = map tentative (state_ p) /\
  forall f, families (out p) !! i = Some f -> exists f', f_samples f' = f_samples f /\ families (out p') = <[i := f']> (families (out p)).
Proof.
  assert (forall g, (forall s, tentative (g s) = tentative s) -> map tentative (alter g i (state_ p)) = map tentative (state_ p)) as M.
  { intros g Hg. generalize i. induction (state_ p) as [|x l IH]; intros [|j]; try done; simpl; [by rewrite Hg|]. by rewrite <-(IH j). }
  unfold declare. destruct (is_word kw (str "HELP")); [|destruct (is_word kw (str "UNIT"))]; simpl; split_and!;
    try done; try (by apply M); intros f Hf; rewrite (alter_insert _ _ _ _ Hf); (eexists; split; [|reflexivity]; done).
Qed.

Lemma block_open_frame p p' : map tentative (state_ p') = map tentative (state_ p) -> current p' = current p -> block_open p' = block_open p.
Proof.
  intros E C. unfold block_open, state_at. rewrite C. destruct (current p) as [i|]; [|done].
  change (tentative (nth i (state_ p') no_state) = tentative (nth i (state_ p) no_state)). rewrite <-!(map_nth tentative). by rewrite E.
Qed.

Lemma live_declare f b p i fam st kw payload t : live f b p -> metadata_word kw -> current p = Some i -> families (out p) !! i = Some fam ->
  state_ p !! i = Some st -> f_samples fam = [] -> declared_in kw st = false -> (kw = str "TYPE" -> type_checked p i (f_name fam) t) ->
  live f b (declare kw payload t i p).
Proof.
  intros [W NF NE Fm Bd Ln Lm] K C Hf Hs Sf D T. destruct (declare_frame kw payload t i p) as (F1 & F2 & F3 & F4 & F5 & F6 & F7 & F8 & F9 & F10).
  destruct (F10 fam Hf) as (fam' & Sf' & Ef). constructor; rewrite ?F1, ?F2, ?F3, ?F4, ?F6, ?F7; try done.
  - by eapply wf_declare.
  - by rewrite (block_open_frame p).
  - rewrite Ef. by eapply within_limits_same.
Qed.

Lemma live_add_family f b p name r : live f b p -> block_open p = false -> addable p name r -> 1 <= line_number p ->
  within (max_families b) (zlength (families (out p)) + 1) -> live f b (add_family name r p).
Proof.
  intros [W NF NE Fm Bd Ln Lm] B A L1 R. constructor; try done.
  - by apply wf_add_family.
  - unfold block_open. simpl. rewrite <-(wf_states p W). unfold state_at. simpl.
    rewrite (nth_lookup_Some _ _ _ (mkState false false false r)) by (by apply lookup_snoc_Some; right). simpl. intros ->. lia.
  - simpl. destruct Lm as (M1 & M2 & M3 & M4). unfold within_limits, sample_total, label_total in *. rewrite zlength_app, !sum_list_with_app.
    simpl. rewrite !Nat.add_0_r. split_and!; try done. apply Forall_app. split; [done|]. by repeat constructor.
Qed.

Lemma metadata_line_live f b p shape p' : live f b p -> 1 <= line_number p -> saw_eof (out p) = false -> what shape = k_metadata ->
  metadata_word (keyword shape) -> block_admits p shape = true -> metadata_line p shape = Ok p' ->
  live f b p' /\ line_number p' = line_number p.
Proof.
  intros L Hl Heof Hw K Ha H. pose proof (live_wf _ _ _ L) as W. unfold metadata_line in H.
  destruct (bool_decide (sh_name shape = [])) eqn:En; [done|]. apply bool_decide_eq_false in En.
  not_thrown H Wn. apply rbind_Ok_inv in H as ([payload t] & _ & H). apply rbind_Ok_inv in H as (r & Hr & H). apply rbind_Ok_inv in H as ([] & Ht & H).
  assert (keyword shape = str "TYPE" -> check_type p (if in_own_block p (sh_name shape) then current p else None) (sh_name shape) t = Ok tt) as CT
    by (intros E; by rewrite E in Ht). clear Ht.
  destruct (in_own_block p (sh_name shape)) eqn:O.
  - destruct (own_block_current p _ W O) as (i & fam & C & Hf & Enm & Sf). rewrite C in Hr, H, CT. injection H as <-. not_thrown Hr D.
    destruct (state_lookup p i fam W Hf) as [st Hst]. rewrite (state_at_lookup _ _ _ Hst) in D.
    split; [|apply declare_frame]. eapply live_declare; try done. intros E. destruct (check_type_ok _ _ _ _ (CT E)) as [Hc Hp]. rewrite Enm. split.
    + intros e fa He Hi Hfa. eapply Hp; try done. destruct (wf_index p W _ _ He) as [_ P].
      destruct (P _ Hi) as (_ & _ & fi & fj & si & sj & H1 & H2 & H3 & H4 & _ & _ & _ & _ & Pn). simplify_eq.
      destruct (tentative st) eqn:T; [done|]. unfold declared_in in D. rewrite E in D. simpl in D. rewrite Pn in D; done.
    + intros j g h u sm Hg Ne. by eapply claims_earlier_apart.
  - assert (block_open p = false) as B.
    { destruct (block_open p) eqn:B; [|done]. rewrite (open_block_own p shape) in O by done. done. }
    injection H as <-. destruct (may_declare_ok _ _ _ _ _ W En Heof Hr) as (A & R & Hp).
    rewrite (live_bounds _ _ _ L) in R. pose proof (live_add_family f b p _ r L B A Hl R) as L1.
    split; [|by rewrite (proj1 (proj2 (proj2 (proj2 (proj2 (proj2 (declare_frame _ _ _ _ _)))))))].
    eapply (live_declare f b (add_family (sh_name shape) r p) _ (mkFamily (sh_name shape) unknown [] [] []) (mkState false false false r)); try done.
    + simpl. by apply lookup_snoc_Some; right.
    + simpl. rewrite <-(wf_states p W). by apply lookup_snoc_Some; right.
    + destruct K as [->|[->| ->]]; done.
    + intros E. destruct (check_type_ok _ _ _ _ (CT E)) as [Hc _]. apply (type_checked_new p (sh_name shape)); [done|done|exact (Hp E)|done].
Qed.

(** ** Sample lines *)

Lemma room_for_label_ok p name scratch : room_for_label p name scratch = Ok tt ->
  within (max_labels_per_sample (bounds_ p)) (zlength scratch + 1) /\ within (max_labels (bounds_ p)) (label_count p + zlength scratch + 1).
Proof.
  unfold room_for_label, within. intros H. not_thrown H E1. not_thrown H E2. split; [destruct (andb_false_elim _ _ E1)|destruct (andb_false_elim _ _ E2)];
    breflect; lia.
Qed.

Lemma unique_labels_ok name l : unique_labels name l = Ok tt -> NoDup l.*1.
Proof. unfold unique_labels. destruct (adjacent_find _) eqn:E; [done|]. intros _. by apply sorted_repeats. Qed.

Definition labels_fit (p : parser) (l : label_list) : Prop :=
  within (max_labels_per_sample (bounds_ p)) (zlength l) /\ (l = [] \/ within (max_labels (bounds_ p)) (label_count p + zlength l)).

Lemma labels_loop_ok p name fuel : forall c scratch l c', labels_fit p scratch -> labels_loop fuel p name c scratch = Ok (l, c') ->
  labels_fit p l /\ NoDup l.*1.
Proof.
  induction fuel as [|fuel IH]; intros c scratch l c' F; [done|]. cbn [labels_loop].
  destruct (done (skip_blanks c)); [done|]. destruct (bool_decide (peek (skip_blanks c) = "}"%char)).
  { intros H. apply rbind_Ok_inv in H as ([] & Hu & H). injection H as <- <-. split; [done|]. by eapply unique_labels_ok. }
  intros H. apply rbind_Ok_inv in H as ([[label value] c1] & _ & H). apply rbind_Ok_inv in H as ([] & Hr & H).
  destruct (room_for_label_ok _ _ _ Hr) as [R1 R2].
  assert (labels_fit p (scratch ++ [(label, value)])) as F'.
  { split; [|right]; rewrite zlength_app; [done|by rewrite Z.add_assoc]. }
  destruct (done (skip_blanks c1)); [done|]. destruct (bool_decide _); [by eapply IH|]. destruct (negb _); [done|]. by eapply IH.
Qed.

Lemma within_nonneg limit : 0 <= limit -> within limit 0.
Proof. unfold within. lia. Qed.

Lemma read_sample_ok p name c s : 0 <= max_labels_per_sample (bounds_ p) -> read_sample p name c = Ok s -> s_name s = name /\ labels_fit p (s_labels s) /\ NoDup (s_labels s).*1.
Proof.
  intros Hb. unfold read_sample. destruct (separate c) as [sep0 c1]. intros H. apply rbind_Ok_inv in H as ([[l sep] c2] & Hl & H).
  assert (labels_fit p l /\ NoDup l.*1) as [F N].
  { destruct (bool_decide (peek c1 = _)).
    - apply rbind_Ok_inv in Hl as ([l' c'] & Hl' & Hl). destruct (separate c'). injection Hl as <- _ _. eapply labels_loop_ok; [|exact Hl'].
      split; [|auto]. by apply within_nonneg.
    - injection Hl as <- _ _. split; [|constructor]. split; [|auto]. by apply within_nonneg. }
  not_thrown H E1. not_thrown H E2. destruct (token c2) as [v c3]. destruct (read_value v) as [d|]; [|done].
  apply rbind_Ok_inv in H as ([st c5] & _ & H). not_thrown H E3. by injection H as <-.
Qed.

(** What [family_for] gives a sample. *)
Definition placed (f : format) (b : limits) (p p' : parser) (i : nat) (name : cppstring) : Prop :=
  live f b p' /\ line_number p' = line_number p /\ label_count p' = label_count p /\
  sample_count (out p') = sample_count (out p) /\
  exists fam st, families (out p') !! i = Some fam /\ state_ p' !! i = Some st /\ tentative st = false /\ owns_name f fam name = true.

Lemma family_for_ok f b p name p' i : live f b p -> 1 <= line_number p -> saw_eof (out p) = false -> name <> [] ->
  family_for p name = Ok (p', i) -> placed f b p p' i name.
Proof.
  intros L Hl Heof Hn H. pose proof (live_wf _ _ _ L) as W. pose proof L as [_ NF NE Fm Bd Ln Lm]. unfold family_for in H.
  set (elsewhere := match owner (find p name) with Some _ => _ | None => _ end) in H.
  assert (block_open p = false -> elsewhere = Ok (p', i) -> placed f b p p' i name) as EW.
  { clear H. subst elsewhere. intros B H. destruct (owner (find p name)) as [o|] eqn:O.
    - destruct (find_Some p name o W O) as (fam & Hf & Ow). destruct (format_ p) eqn:Ef; [done|]. injection H as <- <-.
      destruct (state_lookup p o fam W Hf) as [st Hst]. split; [|split_and!; try done].
      + constructor; try done; [apply wf_switch; [done..|by eapply lookup_lt_Some]|by rewrite <-Fm|]. unfold block_open. simpl.
        unfold state_at. simpl. rewrite (nth_lookup_Some _ _ _ _ Hst), (not_open_settled p o st); done.
      + exists fam, st. split_and!; try done; [by eapply not_open_settled|congruence].
    - destruct (same_name (find p name)) eqn:Sn; [done|]. apply rbind_Ok_inv in H as ([] & Hok & H). injection H as <- <-.
      apply room_for_family_ok in Hok. rewrite Bd in Hok.
      assert (addable p name false) as A.
      { split; [done|]. split; [intros; by eapply find_None|]. destruct (families_by_name p !! name) as [e|] eqn:E; [|done].
        by rewrite (find_unnamed p name) in E. }
      pose proof (live_add_family f b p name false L B A Hl Hok) as L1. split; [done|]. split_and!; try done.
      exists (mkFamily name unknown [] [] []), (mkState false false false false). split_and!; try done.
      + by apply lookup_snoc_Some; right.
      + rewrite <-(wf_states p W). by apply lookup_snoc_Some; right.
      + apply owns_name_iff. exists []. rewrite app_nil_r. split; [done|]. by destruct f. }
  destruct (current p) as [c|] eqn:C; [|apply EW; [unfold block_open; by rewrite C|done]].
  destruct (lookup_lt_is_Some_2 (families (out p)) c (wf_current p W c C)) as [fam Hf]. destruct (state_lookup p c fam W Hf) as [st Hst].
  rewrite (state_at_lookup _ _ _ Hst), (owns_at _ _ _ _ Hf), Fm in H.
  destruct (tentative st) eqn:T.
  - not_thrown H E. injection H as <- <-. apply orb_false_elim in E as [E1 E2]. apply negb_false_iff in E1, E2.
    assert (state_ (set_state (alter (set_tentative false) c (state_ p)) p) !! c = Some (set_tentative false st)) as Hst'.
    { simpl. rewrite (alter_insert _ _ _ _ Hst). apply list_lookup_insert_eq. by eapply lookup_lt_Some. }
    split; [|split_and!; try done]; [|by exists fam, (set_tentative false st)].
    constructor; try done; [by apply (wf_settle p c st)|]. unfold block_open.
    change (current (set_state _ p)) with (current p). rewrite C, (state_at_lookup _ _ _ Hst'). done.
  - destruct (owns_name f fam name) eqn:Ow.
    + injection H as <- <-. split; [done|]. split_and!; try done. by exists fam, st.
    + apply EW; [|done]. unfold block_open. by rewrite C, (state_at_lookup _ _ _ Hst).
Qed.

Lemma within_limits_add b fs i f s (f' := mkFamily (f_name f) (f_type f) (f_help f) (f_unit f) (f_samples f ++ [s])) :
  within_limits b fs -> fs !! i = Some f -> within (max_series b) (sample_total fs + 1) ->
  s_labels s = [] \/ within (max_labels b) (label_total fs + zlength (s_labels s)) ->
  within (max_labels_per_sample b) (zlength (s_labels s)) -> within_limits b (<[i := f']> fs).
Proof.
  intros (L1 & L2 & L3 & L4) H M1 M2 M3.
  pose proof (sum_insert (fun f => length (f_samples f)) _ _ _ f' H) as S1.
  pose proof (sum_insert (fun f => sum_list_with (fun s => length (s_labels s)) (f_samples f)) _ _ _ f' H) as S2.
  simpl in S1, S2. rewrite length_app in S1. rewrite sum_list_with_app in S2. simpl in S1, S2.
  unfold within_limits. replace (zlength (<[i := f']> fs)) with (zlength fs) by (unfold zlength; by rewrite length_insert). split_and!; [done| | |].
  - unfold within, sample_total in *. lia.
  - unfold within, label_total, zlength in *. destruct M2 as [E|M2]; [rewrite E in S2; simpl in S2|]; lia.
  - apply Forall_insert; [done|]. apply Forall_app. split; [|by apply Forall_singleton]. by apply (proj1 (Forall_lookup _ _) L4 i f).
Qed.

Definition limits_wf (b : limits) : Prop :=
  0 <= max_series b /\ 0 <= max_families b /\ 0 <= max_labels_per_sample b /\ 0 <= max_labels b /\ 0 <= max_line_bytes b.

Lemma sample_line_live f b p shape p' : limits_wf b -> live f b p -> 1 <= line_number p -> saw_eof (out p) = false -> sample_line p shape = Ok p' ->
  live f b p' /\ line_number p' = line_number p.
Proof.
  intros Lw L Hl Heof H. unfold sample_line in H. destruct (bool_decide (sh_name shape = [])) eqn:En; [done|]. apply bool_decide_eq_false in En.
  apply rbind_Ok_inv in H as (s & Hs & H). not_thrown H Eb. apply rbind_Ok_inv in H as ([p1 i] & Hf & H). injection H as <-.
  pose proof (live_bounds _ _ _ L) as Bd. apply read_sample_ok in Hs as (Nm & [LF1 LF2] & ND); [|rewrite Bd; apply Lw].
  apply family_for_ok with (f := f) (b := b) in Hf as (L1 & Ln & Lc & Sc & fam & st & Hfam & Hst & T & Ow); [|done..].
  split; [|done]. pose proof L1 as [W1 NF NE Fm Bd1 Bl Lm].
  constructor; try done.
  - eapply wf_add_sample; try done. by rewrite Nm, Fm.
  - simpl. rewrite (alter_insert _ _ _ _ Hfam). apply within_limits_add; try done.
    + rewrite <-(wf_count p1 W1), Sc. unfold within. rewrite Bd in Eb. apply andb_false_iff in Eb. destruct Eb; breflect; lia.
    + rewrite <-(wf_label_count p1 W1), Lc. by rewrite <-Bd.
    + by rewrite <-Bd.
Qed.

(** ** Stopping *)

Definition internal (why : cppstring) : bool := is_prefix (str "internal error") why.
Definition plain (s : stop) : Prop := match s with Fail why => why <> [] /\ internal why = false | RefuseBlock => False end.

Ltac inv_throw := repeat match goal with
  | H : Throw _ = Throw _ |- _ => injection H as <-
  | H : Ok _ = Throw _ |- _ => discriminate H
  | H : rbind ?m _ = Throw _ |- _ => let E := fresh "E" in destruct m eqn:E; cbn [rbind] in H
  | H : (if ?c then _ else _) = Throw _ |- _ => let E := fresh "E" in destruct c eqn:E
  | H : match ?x with _ => _ end = Throw _ |- _ => let E := fresh "E" in destruct x eqn:E
  end.
Ltac plain_msg := solve [split; [discriminate|reflexivity]].

Lemma room_for_family_plain p s : room_for_family p = Throw s -> plain s.
Proof. unfold room_for_family. intros H. inv_throw. plain_msg. Qed.
Lemma read_payload_plain f kw name c s : read_payload f kw name c = Throw s -> plain s.
Proof. unfold read_payload. intros H. inv_throw; plain_msg. Qed.
Lemma claims_earlier_plain p name t l s : claims_earlier p name t l = Throw s -> plain s.
Proof. induction l as [|x l IH]; cbn [claims_earlier]; intros H; inv_throw; auto; plain_msg. Qed.
Lemma may_declare_plain p kw name t s : may_declare p kw name t = Throw s -> plain s.
Proof. unfold may_declare. intros H. inv_throw; first [plain_msg|by eapply room_for_family_plain]. Qed.

Lemma metadata_line_stop p shape s : wf p -> metadata_line p shape = Throw s -> plain s \/ s = RefuseBlock /\ block_open p = true.
Proof.
  unfold metadata_line. intros W H. destruct (bool_decide _); [inv_throw; left; plain_msg|]. destruct (negb _); [inv_throw; left; plain_msg|].
  destruct (read_payload _ _ _ _) as [[payload t]|x] eqn:E0; cbn [rbind] in H; [|injection H as <-; left; by eapply read_payload_plain].
  match type of H with rbind ?m _ = _ => destruct m eqn:E1 end; cbn [rbind] in H.
  2: { injection H as <-. left. destruct (if in_own_block _ _ then _ else _); [inv_throw; plain_msg|by eapply may_declare_plain]. }
  match type of H with rbind ?m _ = _ => destruct m eqn:E2 end; cbn [rbind] in H.
  1: { by destruct (if in_own_block _ _ then _ else _). }
  injection H as <-. destruct (is_word _ _); [|done]. unfold check_type in E2.
  match type of E2 with (if ?b then _ else _) = _ => destruct b eqn:E3 end; [|left; by eapply claims_earlier_plain].
  injection E2 as <-. right. split; [done|]. destruct (in_own_block p (sh_name shape)) eqn:O; [|done]. unfold block_open.
  destruct (current p) as [i|]; [|done]. destruct (families_by_name p !! _); [|done]. by apply andb_prop in E3 as [-> _].
Qed.

Lemma skip_blanks_length c : (length (skip_blanks c) <= length c)%nat.
Proof. induction c as [|x c IH]; simpl; [lia|]. destruct (is_blank x); simpl; lia. Qed.
Lemma tail_length {A} (l : list A) : (length (tail l) <= length l)%nat.
Proof. destruct l; simpl; lia. Qed.
Lemma span_length q c : (length (span q c).2 <= length c)%nat.
Proof. pose proof (span_app q c) as E. destruct (span q c) as [a r]. subst. rewrite length_app. simpl. lia. Qed.

Lemma label_value_length n : forall c v c', (length c <= n)%nat -> label_value c = Some (v, c') -> (length c' < length c)%nat.
Proof.
  induction n as [|n IH]; intros [|x c] v c' Hn; cbn [label_value]; simpl in Hn; try done; try lia.
  destruct (bool_decide (x = c_dquote)); [intros [= <- <-]; simpl; lia|].
  assert (forall d h, (length d <= n)%nat -> (length d <= length c)%nat -> (fun r => (h :: r.1, r.2)) <$> label_value d = Some (v, c') ->
    (length c' < length (x :: c))%nat) as K.
  { intros d h Hd Hd'. destruct (label_value d) as [[w e]|] eqn:E; [|done]. intros [= _ <-]. apply IH in E; simpl; lia. }
  destruct (bool_decide (x = c_backslash)); [|apply K; lia].
  destruct c as [|e c]; [done|]. simpl in Hn, K. destruct (_ || _); [apply K; lia|]. destruct (bool_decide _); [apply K; lia|done].
Qed.

Lemma read_label_length name c label value c1 : read_label name c = Ok (label, value, c1) -> (length c1 < length c)%nat.
Proof.
  unfold read_label. intros H. not_thrown H E1. pose proof (span_length is_label_char c) as L1. destruct (span is_label_char c) as [l r].
  not_thrown H E2. not_thrown H E3. destruct (label_value _) as [[v e]|] eqn:E; [|done]. injection H as <- <- <-.
  apply (label_value_length _ _ _ _ (le_n _)) in E. simpl in L1.
  pose proof (skip_blanks_length r). pose proof (tail_length (skip_blanks r)).
  pose proof (skip_blanks_length (tail (skip_blanks r))). pose proof (tail_length (skip_blanks (tail (skip_blanks r)))). lia.
Qed.

Lemma read_label_plain name c s : read_label name c = Throw s -> plain s.
Proof. unfold read_label. intros H. inv_throw; plain_msg. Qed.
Lemma room_for_label_plain p name l s : room_for_label p name l = Throw s -> plain s.
Proof. unfold room_for_label. intros H. inv_throw; plain_msg. Qed.
Lemma unique_labels_plain name l s : unique_labels name l = Throw s -> plain s.
Proof. unfold unique_labels. intros H. inv_throw; plain_msg. Qed.

(** The fuel of the loop over the labels is never used up. *)
Lemma labels_loop_plain p name fuel : forall c scratch s, (length c < fuel)%nat -> labels_loop fuel p name c scratch = Throw s -> plain s.
Proof.
  induction fuel as [|fuel IH]; intros c scratch s Hl H; [lia|]. cbn [labels_loop] in H.
  destruct (done (skip_blanks c)); [inv_throw; plain_msg|]. destruct (bool_decide (peek (skip_blanks c) = "}"%char)).
  { destruct (unique_labels _ _) eqn:E; cbn [rbind] in H; inv_throw. by eapply unique_labels_plain. }
  destruct (read_label name (skip_blanks c)) as [[[label value] c1]|] eqn:E1; cbn [rbind] in H;
    [|injection H as <-; by eapply read_label_plain].
  destruct (room_for_label p name scratch) eqn:E2; cbn [rbind] in H; [|injection H as <-; by eapply room_for_label_plain].
  apply read_label_length in E1. pose proof (skip_blanks_length c). pose proof (skip_blanks_length c1). pose proof (tail_length (skip_blanks c1)).
  destruct (done (skip_blanks c1)); [inv_throw; plain_msg|]. destruct (bool_decide _); [eapply IH; [|exact H]; lia|].
  destruct (negb _); [inv_throw; plain_msg|]. eapply IH; [|exact H]; lia.
Qed.

Lemma read_sample_plain p name c s : read_sample p name c = Throw s -> plain s.
Proof.
  unfold read_sample. destruct (separate c) as [sep0 c1]. intros H.
  match type of H with rbind ?m _ = _ => destruct m as [[[l sep] c2]|] eqn:E0 end; cbn [rbind] in H.
  2: { injection H as <-. destruct (bool_decide _); [|done]. unfold labels in E0.
       destruct (labels_loop _ _ _ _ _) as [[l r]|] eqn:E1; cbn [rbind] in E0; [by destruct (separate r)|]. injection E0 as <-.
       eapply labels_loop_plain; [|exact E1]. pose proof (tail_length c1). lia. }
  inv_throw; plain_msg.
Qed.

Lemma sample_line_plain p shape s : wf p -> what shape = k_sample -> block_admits p shape = true -> sample_line p shape = Throw s -> plain s.
Proof.
  intros W Hw Ha H. unfold sample_line in H. destruct (bool_decide _); [inv_throw; plain_msg|].
  destruct (read_sample _ _ _) eqn:E; cbn [rbind] in H; [|injection H as <-; by eapply read_sample_plain].
  destruct (_ && _); [inv_throw; plain_msg|]. destruct (family_for _ _) as [[p1 i]|] eqn:E1; cbn [rbind] in H; inv_throw.
  unfold family_for in E1. unfold block_admits in Ha. rewrite Hw in Ha.
  destruct (current p) as [c|]; [destruct (tentative (state_at p c))|]; simpl in Ha.
  - apply andb_prop in Ha as [Ha O]. apply andb_prop in Ha as [Ty _]. by rewrite O, Ty in E1.
  - inv_throw; first [plain_msg|by eapply room_for_family_plain].
  - inv_throw; first [plain_msg|by eapply room_for_family_plain].
Qed.

(** ** Bodies *)

(** A parser that has stopped on a line at fault. *)
Record halted (f : format) (b : limits) (p : parser) : Prop := {
  halted_wf : wf p;
  halted_format : format_ p = f;
  halted_limits : within_limits b (families (out p));
  halted_error : error (out p) <> [];
  halted_plain : internal (error (out p)) = false;
  halted_line : 1 <= error_line (out p) <= line_number p }.

Lemma live_fail f b p why : live f b p -> 1 <= line_number p -> plain (Fail why) -> halted f b (fail why p).
Proof. intros [W NF NE Fm Bd Ln Lm] L [N I]. constructor; try done. by apply wf_fail_on. Qed.

Lemma halted_set_failed f b p i fam : halted f b p -> current p = Some i -> families (out p) !! i = Some fam -> f_samples fam = [] ->
  halted f b (set_failed true p).
Proof. intros [] C Hf Sf. constructor; try done. by eapply wf_set_failed. Qed.

Lemma live_refuse f b p : live f b p -> block_open p = true -> halted f b (refuse_block p).
Proof.
  intros [W NF NE Fm Bd Ln Lm] B. specialize (Ln B). unfold refuse_block, block_open in *. destruct (current p) as [i|] eqn:C; [|done].
  destruct (lookup_lt_is_Some_2 (families (out p)) i (wf_current p W i C)) as [fam Hf]. destruct (state_lookup p i fam W Hf) as [st Hst].
  rewrite (state_at_lookup _ _ _ Hst) in B. destruct (wf_tentative p W _ _ Hst B) as (_ & _ & (f' & Hf' & Sf) & _).
  constructor; try done. apply wf_fail_on. by eapply wf_set_failed.
Qed.

Lemma read_shaped_live f b p raw shape text p' : limits_wf b -> live f b p -> 1 <= line_number p -> shape = shape_of (format_ p) text ->
  block_admits p shape = true -> read_shaped p raw shape = Ok p' -> live f b p' /\ line_number p' = line_number p.
Proof.
  intros Lw L Hl Es Ha H. unfold read_shaped in H. not_thrown H E0. destruct (what shape) eqn:Hw; [by injection H as <-|..].
  all: destruct (saw_eof (out p)) eqn:Eo; [done|].
  - injection H as <-. pose proof L as [W NF NE Fm Bd Ln Lm]. split; [|done].
    assert (block_open p = false) as B.
    { unfold block_admits in Ha. rewrite Hw in Ha. unfold block_open. destruct (current p) as [i|]; [|done]. by destruct (tentative _). }
    constructor; try done. by apply wf_set_eof.
  - done.
  - by injection H as <-.
  - eapply metadata_line_live; try done. rewrite Es. apply shape_of_metadata. by rewrite <-Es.
  - by eapply sample_line_live.
Qed.

Lemma read_shaped_stop p raw shape s : wf p -> block_admits p shape = true -> read_shaped p raw shape = Throw s ->
  plain s \/ s = RefuseBlock /\ block_open p = true.
Proof.
  intros W Ha H. unfold read_shaped in H. destruct (_ && _); [inv_throw; left; plain_msg|]. destruct (what shape) eqn:Hw; [done|..].
  all: destruct (saw_eof (out p)); [inv_throw; left; plain_msg|]; try done.
  - inv_throw. left. plain_msg.
  - by eapply metadata_line_stop.
  - left. by eapply sample_line_plain.
Qed.

Lemma read_line_ok f b p raw t p' go : limits_wf b -> live f b p -> 1 <= line_number p -> read_line p raw t = (p', go) ->
  line_number p' = line_number p /\ if go then live f b p' else halted f b p'.
Proof.
  intros Lw L Hl H. pose proof (live_wf _ _ _ L) as W. unfold read_line in H.
  assert (line_number (refuse_block p) = line_number p) as Lr by (unfold refuse_block; by destruct (current p)).
  destruct (negb t && _).
  { injection H as <- <-. split; [done|]. apply live_fail; [done..|plain_msg]. }
  set (shape := shape_of _ _) in H. destruct (block_admits p shape) eqn:Ha; simpl in H.
  2: { injection H as <- <-. split; [done|]. apply live_refuse; [done|]. unfold block_admits in Ha. unfold block_open.
       destruct (current p); [|done]. by destruct (tentative _). }
  destruct (read_shaped p raw shape) as [p1|s] eqn:E.
  { injection H as <- <-. destruct (read_shaped_live f b p raw shape (normalise raw) p1) as [L1 Ln]; done. }
  assert (halted f b (stop_with s p) /\ line_number (stop_with s p) = line_number p) as [Hh Ln].
  { destruct (read_shaped_stop _ _ _ _ W Ha E) as [P|[-> B]]; [|split; [by apply live_refuse|done]].
    destruct s as [why|]; [|done]. split; [by apply live_fail|done]. }
  destruct (_ && in_own_block p (sh_name shape)) eqn:Eo; injection H as <- <-; [|done]. split; [done|].
  apply andb_prop in Eo as [_ O]. destruct (own_block_current p _ W O) as (i & fam & C & Hf & _ & Sf).
  assert (current (stop_with s p) = current p /\ families (out (stop_with s p)) = families (out p)) as [Ec Ef].
  { destruct s; [done|]. simpl. unfold refuse_block. by destruct (current p) eqn:Ec. }
  apply (halted_set_failed f b _ i fam); [done|by rewrite Ec|by rewrite Ef|done].
Qed.

Lemma live_begin f b p n : live f b p -> line_number p <= n -> live f b (begin_line n p).
Proof. intros [W NF NE Fm Bd Ln Lm] H. constructor; try done; [by apply wf_begin_line|]. intros B. specialize (Ln B). simpl. lia. Qed.

Lemma read_lines_ok f b l : limits_wf b -> forall n p, live f b p -> line_number p = n -> 0 <= n ->
  let p' := read_lines n l p in (live f b p' \/ halted f b p') /\ line_number p' <= n + zlength l.
Proof.
  intros Lw. induction l as [|[raw t] l IH]; intros n p L Hn H0; cbn [read_lines]; [split; [auto|unfold zlength; simpl; lia]|].
  pose proof (live_begin f b p (n + 1) L ltac:(lia)) as L1.
  destruct (read_line (begin_line (n + 1) p) raw t) as [p1 go] eqn:E.
  destruct (read_line_ok f b _ raw t p1 go Lw L1 ltac:(simpl; lia) E) as [Ln Hg]. simpl in Ln. rewrite zlength_cons.
  destruct go.
  - destruct (IH (n + 1) p1 Hg Ln ltac:(lia)) as [K1 K2]. split; [done|lia].
  - split; [auto|]. pose proof (zlength_nonneg l). lia.
Qed.

(** ** The result *)

(** Whether the family being read is dropped at the end. *)
Lemma finish_eq f b p : live f b p \/ halted f b p ->
  finish p = p /\ (forall i st, current p = Some i -> state_ p !! i = Some st -> tentative st = true -> st_type st = true) \/
  exists i fam, finish p = drop_current p /\ current p = Some i /\ families (out p) !! i = Some fam /\ f_samples fam = [].
Proof.
  intros H. assert (wf p) as W by (destruct H as [[]|[]]; done). unfold finish.
  assert (block_open p && saw_eof (out p) && ok (out p) = false) as ->.
  { destruct (block_open p) eqn:B; [|done]. destruct (saw_eof (out p)) eqn:Eo; [|done]. exfalso. unfold block_open in B.
    destruct (current p) as [i|] eqn:C; [|done]. destruct (lookup_lt_is_Some_2 (families (out p)) i (wf_current p W i C)) as [fam Hf].
    destruct (state_lookup p i fam W Hf) as [st Hst]. rewrite (state_at_lookup _ _ _ Hst) in B.
    destruct (wf_tentative p W _ _ Hst B) as (_ & E & _). congruence. }
  destruct (current p) as [i|] eqn:C; [|left; split; done].
  destruct (lookup_lt_is_Some_2 (families (out p)) i (wf_current p W i C)) as [fam Hf].
  destruct (state_lookup p i fam W Hf) as [st Hst]. rewrite (state_at_lookup _ _ _ Hst).
  destruct (current_block_failed p) eqn:F; simpl.
  { right. destruct (wf_failed p W F) as (k & g & Ck & Hg & Sg). rewrite C in Ck. by exists k, g. }
  destruct (tentative st) eqn:T; simpl.
  - destruct (st_type st) eqn:Ty; simpl.
    + left. split; [done|]. intros j st' [= <-] Hst'. simplify_eq. done.
    + right. destruct (wf_tentative p W _ _ Hst T) as (_ & _ & (g & Hg & Sg) & _). by exists i, g.
  - left. split; [done|]. intros j st' [= <-] Hst'. simplify_eq. congruence.
Qed.

Lemma lookup_delete_pair {A} (l : list A) k i j x y : delete k l !! i = Some x -> delete k l !! j = Some y -> i <> j ->
  exists i' j', i' <> j' /\ i' <> k /\ j' <> k /\ l !! i' = Some x /\ l !! j' = Some y.
Proof.
  intros Hi Hj N. exists (if decide (i < k)%nat then i else S i), (if decide (j < k)%nat then j else S j).
  repeat case_decide; rewrite ?list_lookup_delete_lt, ?list_lookup_delete_ge in Hi by lia;
    rewrite ?list_lookup_delete_lt, ?list_lookup_delete_ge in Hj by lia; split_and!; try done; lia.
Qed.
Lemma lookup_delete_one {A} (l : list A) k i x : delete k l !! i = Some x -> exists i', l !! i' = Some x.
Proof.
  intros H. destruct (decide (i < k)%nat); [rewrite list_lookup_delete_lt in H by lia|rewrite list_lookup_delete_ge in H by lia]; eauto.
Qed.
Lemma sum_delete {A} (g : A -> nat) l k x : l !! k = Some x -> (sum_list_with g (delete k l) + g x = sum_list_with g l)%nat.
Proof. revert k. induction l as [|y l IH]; intros [|k] H; simplify_eq/=; [lia|]. specialize (IH _ H). lia. Qed.

(** Two families of one name are the halves of a pair; they cannot be of one type. *)
Lemma same_name_paired p i j f g : wf p -> families (out p) !! i = Some f -> families (out p) !! j = Some g -> i <> j -> f_name f = f_name g ->
  format_ p = openmetrics_1_0 /\
  (exists st, state_ p !! i = Some st /\ current p = Some i /\ tentative st = true /\ st_type st = false) \/
  format_ p = openmetrics_1_0 /\
  (exists st, state_ p !! j = Some st /\ current p = Some j /\ tentative st = true /\ st_type st = false) \/
  format_ p = openmetrics_1_0 /\ pair_types (f_type f) (f_type g) = true.
Proof.
  intros W Hf Hg N E. destruct (wf_indexed p W _ _ Hf) as (e & He & Ei). destruct (wf_indexed p W _ _ Hg) as (e' & He' & Ej).
  rewrite <-E, He in He'. injection He' as <-. destruct (wf_index p W _ _ He) as [_ P].
  assert (forall a b fa fb, families (out p) !! a = Some fa -> families (out p) !! b = Some fb -> first e = a -> second e = Some b ->
    format_ p = openmetrics_1_0 /\ ((exists st, state_ p !! b = Some st /\ current p = Some b /\ tentative st = true /\ st_type st = false) \/
    pair_types (f_type fa) (f_type fb) = true)) as K.
  { intros a b fa fb Ha Hb <- Eb. destruct (P _ Eb) as (_ & F & fi & fj & si & sj & H1 & H2 & H3 & H4 & _ & _ & _ & Pt & Pn). simplify_eq.
    split; [done|]. destruct (st_type sj) eqn:Ty; [auto|]. left. exists sj. destruct (tentative sj) eqn:T; [|by specialize (Pn eq_refl)].
    destruct (wf_tentative p W _ _ H4 T) as (C & _). done. }
  destruct Ei as [Ei|Ei], Ej as [Ej|Ej]; simplify_eq.
  - destruct (K (first e) j f g) as [F [S|S]]; auto.
  - destruct (K (first e) i g f) as [F [S|S]]; auto. right. right. split; [done|]. unfold pair_types in *. by rewrite xorb_comm.
Qed.

Lemma live_new f b : limits_wf b -> live f b (new_parser f b).
Proof.
  intros (? & ? & ? & ? & ?). constructor; try done. split_and!; [by apply within_nonneg..|constructor].
Qed.

(** The families of the result and where they come from. *)
Lemma parse_families body f b : limits_wf b -> exists p, wf p /\ format_ p = f /\
  sample_count (parse body f b) = sample_total (families (parse body f b)) /\
  (forall i F, families (parse body f b) !! i = Some F -> exists i', families (out p) !! i' = Some F) /\
  (forall i j F G, families (parse body f b) !! i = Some F -> families (parse body f b) !! j = Some G -> i <> j ->
     exists i' j', i' <> j' /\ families (out p) !! i' = Some F /\ families (out p) !! j' = Some G /\
       forall k st, k = i' \/ k = j' -> current p = Some k -> state_ p !! k = Some st -> tentative st = true -> st_type st = true).
Proof.
  intros Lw. set (p := read_lines 0 (lines_of body) (new_parser f b)). exists p.
  destruct (read_lines_ok f b (lines_of body) Lw 0 (new_parser f b)) as [H _]; [|done|done|].
  { by apply live_new. }
  fold p in H. assert (wf p /\ format_ p = f) as [W Fm] by (destruct H as [[]|[]]; done). split; [done|]. split; [done|].
  unfold parse. fold p. destruct (finish_eq f b p H) as [[-> K]|(k & fam & -> & C & Hk & Sk)].
  - split; [apply wf_count, W|]. split; [eauto|]. intros i j F G HF HG N. exists i, j. split_and!; eauto.
  - unfold drop_current. rewrite C. simpl. split.
    + rewrite (wf_count p W). unfold sample_total. pose proof (sum_delete (fun f => length (f_samples f)) _ _ _ Hk) as S. simpl in S.
      rewrite Sk in S. simpl in S. lia.
    + split; [intros i F; apply lookup_delete_one|]. intros i j F G HF HG N.
      destruct (lookup_delete_pair _ _ _ _ _ _ HF HG N) as (i' & j' & N' & Ni & Nj & Hi & Hj). exists i', j'. split_and!; try done.
      intros k' st [->| ->]; congruence.
Qed.

(** C24. Whatever the body, no two families of a result share both name and type, every sample
    belongs to its family by the rules of the format and has distinct labels, a sample name is
    in one family only (but for the creation time of a same-name pair), and the samples are
    counted right. *)
Theorem parsed_families_are_told_apart (body : cppstring) (f : format) (b : limits) (Hb : limits_wf b) :
  let r := parse body f b in
  sample_count r = sample_total (families r) /\
  (forall i F s, families r !! i = Some F -> s ∈ f_samples F -> owns_name f F (s_name s) = true /\ NoDup (s_labels s).*1) /\
  forall i j F G, families r !! i = Some F -> families r !! j = Some G -> i <> j ->
    (f_name F, f_type F) <> (f_name G, f_type G) /\
    forall s t, s ∈ f_samples F -> t ∈ f_samples G -> s_name s = s_name t ->
      f = openmetrics_1_0 /\ f_name F = f_name G /\ s_name s = f_name F ++ str "_created".
Proof.
  destruct (parse_families body f b Hb) as (p & W & Fm & Hc & Ho & Hp). intros r. split; [done|]. split.
  { intros i F s HF Hs. destruct (Ho _ _ HF) as (i' & Hi). split; [rewrite <-Fm; by eapply wf_owned|by eapply wf_unique_labels]. }
  intros i j F G HF HG N. destruct (Hp _ _ _ _ HF HG N) as (i' & j' & N' & Hi & Hj & Hk).
  assert (f_name F = f_name G -> f = openmetrics_1_0 /\ pair_types (f_type F) (f_type G) = true) as PT.
  { intros E. destruct (same_name_paired p i' j' F G W Hi Hj N' E) as [[_ (st & H1 & H2 & H3 & H4)]|[[_ (st & H1 & H2 & H3 & H4)]|[Ef P]]].
    - rewrite (Hk i' st) in H4; auto. done.
    - rewrite (Hk j' st) in H4; auto. done.
    - rewrite <-Fm. done. }
  split.
  - intros [= E1 E2]. destruct (PT E1) as [_ P]. rewrite E2 in P. unfold pair_types in P. by rewrite xorb_nilpotent in P.
  - intros s t Hs Ht E. pose proof (wf_owned p W _ _ _ Hi Hs) as O1. pose proof (wf_owned p W _ _ _ Hj Ht) as O2. rewrite Fm in O1, O2.
    apply owns_name_iff in O1 as (s1 & E1 & O1), O2 as (s2 & E2 & O2).
    assert (f_name F = f_name G) as En.
    { destruct (decide (f_name F = f_name G)) as [|Ne]; [done|]. exfalso.
      destruct (name_suffix_split (f_name F) (f_name G) s1 s2) as [[_ ?]|[[-> EF]|[-> EG]]];
        [by eapply owns_suffix_listed..|congruence|done| |].
      - pose proof (wf_apart p W j' i' G F Hj Hi ltac:(congruence)) as A. rewrite EF, Fm in A.
        rewrite (proj2 (owns_name_iff _ _ _)) in A by eauto. done.
      - pose proof (wf_apart p W i' j' F G Hi Hj Ne) as A. rewrite EG, Fm in A. rewrite (proj2 (owns_name_iff _ _ _)) in A by eauto. done. }
    destruct (PT En) as [Ef P]. split; [done|]. split; [done|]. rewrite E1. f_equal. rewrite E1, E2, En in E. apply app_inv_head in E as ->.
    by eapply pair_suffix.
Qed.

(** Whether every line of the body is accepted. *)
Fixpoint read_whole (n : Z) (l : list (cppstring * bool)) (p : parser) : bool :=
  match l with
  | [] => true
  | (raw, t) :: rest => let '(p', go) := read_line (begin_line (n + 1) p) raw t in go && read_whole (n + 1) rest p'
  end.

Lemma read_whole_live f b l : limits_wf b -> forall n p, live f b p -> line_number p = n -> 0 <= n ->
  let p' := read_lines n l p in if read_whole n l p then live f b p' else halted f b p'.
Proof.
  intros Lw. induction l as [|[raw t] l IH]; intros n p L Hn H0; cbn [read_lines read_whole]; [done|].
  pose proof (live_begin f b p (n + 1) L ltac:(lia)) as L1.
  destruct (read_line (begin_line (n + 1) p) raw t) as [p1 go] eqn:E.
  destruct (read_line_ok f b _ raw t p1 go Lw L1 ltac:(simpl; lia) E) as [Ln Hg]. simpl in Ln.
  destruct go; simpl; [|done]. apply IH; [done|done|lia].
Qed.

Lemma finish_error f b p : live f b p \/ halted f b p -> error (out (finish p)) = error (out p) /\ error_line (out (finish p)) = error_line (out p).
Proof.
  intros H. destruct (finish_eq f b p H) as [[-> _]|(i & fam & -> & C & _)]; [done|]. unfold drop_current. by rewrite C.
Qed.

(** The parser never reports one of its internal errors; the error is empty exactly when every
    line of the body was accepted, and otherwise the line it names is a line of the body. *)
Theorem parse_reports_the_line_at_fault (body : cppstring) (f : format) (b : limits) (Hb : limits_wf b) :
  let r := parse body f b in
  internal (error r) = false /\
  (error r = [] <-> read_whole 0 (lines_of body) (new_parser f b) = true) /\
  (error r <> [] -> 1 <= error_line r <= zlength (lines_of body)).
Proof.
  intros r. pose proof (live_new f b Hb) as L0.
  destruct (read_lines_ok f b (lines_of body) Hb 0 (new_parser f b) L0 eq_refl ltac:(done)) as [H Hl].
  pose proof (read_whole_live f b (lines_of body) Hb 0 (new_parser f b) L0 eq_refl ltac:(done)) as R. simpl in R.
  subst r. unfold parse. destruct (finish_error f b _ H) as [-> ->]. destruct (read_whole _ _ _).
  - rewrite (live_no_error _ _ _ R). done.
  - split; [apply R|]. split; [|intros _; destruct (halted_line _ _ _ R); lia]. split; [|done]. intros E. by destruct (halted_error _ _ _ R).
Qed.

Lemma within_limits_delete b fs i f : within_limits b fs -> fs !! i = Some f -> within_limits b (delete i fs).
Proof.
  intros (L1 & L2 & L3 & L4) H. pose proof (sum_delete (fun f => length (f_samples f)) _ _ _ H) as S1.
  pose proof (sum_delete (fun f => sum_list_with (fun s => length (s_labels s)) (f_samples f)) _ _ _ H) as S2.
  pose proof (length_delete fs i ltac:(by eexists)) as S3. simpl in S1, S2. unfold within_limits, within, zlength, sample_total, label_total in *.
  split_and!; [lia..|]. by apply Forall_delete.
Qed.

(** The families, samples, labels and labels per sample of a result never exceed the limits the
    caller set, for any body. *)
Theorem parse_within_limits (body : cppstring) (f : format) (b : limits) (Hb : limits_wf b) :
  within_limits b (families (parse body f b)).
Proof.
  destruct (read_lines_ok f b (lines_of body) Hb 0 (new_parser f b) (live_new f b Hb) eq_refl ltac:(done)) as [H _].
  unfold parse. set (p := read_lines _ _ _) in *. assert (within_limits b (families (out p))) as L by (destruct H as [[]|[]]; done).
  destruct (finish_eq f b p H) as [[-> _]|(i & fam & -> & C & Hf & _)]; [done|]. unfold drop_current. rewrite C. by eapply within_limits_delete.
Qed.

(** ** Examples *)

Module Demo.
Definition line (s : String.string) : cppstring := str s ++ [c_newline].
(** What client_golang writes: the counter and the gauge of one name. *)
Definition pair_body : cppstring := concat (map line ["# TYPE foo counter"; "foo_total 1"; "# TYPE foo gauge"; "foo 2"; "# EOF"]%string).

Lemma told_apart_witness : limits_wf default_limits /\
  (map (fun f => (f_name f, f_type f, length (f_samples f))) (families (parse pair_body openmetrics_1_0 default_limits)) =
     [(str "foo", counter, 1%nat); (str "foo", gauge, 1%nat)]) /\
  sample_count (parse pair_body openmetrics_1_0 default_limits) = 2.
Proof.
  assert (limits_wf default_limits) as Hb by (vm_compute; intuition discriminate).
  split; [done|]. split; [vm_compute; reflexivity|].
  rewrite (proj1 (parsed_families_are_told_apart pair_body openmetrics_1_0 default_limits Hb)). vm_compute. reflexivity.
Defined.

Definition bad_body : cppstring := concat (map line ["# TYPE foo gauge"; "foo 1"; "bar x"; "# EOF"]%string).
Lemma fault_witness : limits_wf default_limits /\
  error (parse bad_body openmetrics_1_0 default_limits) = str "invalid value 'x' for 'bar'" /\
  1 <= error_line (parse bad_body openmetrics_1_0 default_limits) <= 4.
Proof.
  assert (limits_wf default_limits) as Hb by (vm_compute; intuition discriminate).
  split; [done|]. split; [vm_compute; reflexivity|].
  apply (proj2 (proj2 (parse_reports_the_line_at_fault bad_body openmetrics_1_0 default_limits Hb))). vm_compute. discriminate.
Defined.

Definition two_series : limits := mkLimits 2 0 0 0 0.
Definition long_body : cppstring := concat (map line ["a 1"; "b 2"; "c 3"]%string).
Lemma limits_witness : limits_wf two_series /\ length (families (parse long_body prometheus_text_0_0_4 two_series)) = 2%nat /\
  within_limits two_series (families (parse long_body prometheus_text_0_0_4 two_series)).
Proof.
  assert (limits_wf two_series) as Hb by (vm_compute; intuition discriminate).
  split; [done|]. split; [vm_compute; reflexivity|]. apply (parse_within_limits long_body prometheus_text_0_0_4 two_series Hb).
Defined.
End Demo.
