(* ===== verification/OpenMetricsRender.v ===== *)
(** The metrics exposition of the web server: modules/WEBServer/openmetrics_renderer.cpp.

    The messages are those of libs/protobuf/metrics.proto, read through the accessors of the
    generated classes.  A snapshot is walked into a set of families, and one of the two dialects
    is written out of it.  [problems] is [None] when the caller passes no list.  An index into
    the families is a [nat]; [std::map] is a [gmap], [std::set] a [gset]. *)

From stdpp Require Import base list gmap strings.
From Stdlib Require Import Ascii ZArith Lia SpecFloat.
From Stdlib Require String.
From S2P Require Import Prelude Strings Format NumberText.
Import String.StringSyntax.

Local Open Scope Z_scope.

(** ** Messages *)

Record Quantile := mkQuantile { quantile : double; q_value : double }.
Record Summary := mkSummary { sum_count : Z; sum_sum : double; sum_quantile : list Quantile }.
Record Bucket := mkBucket { cumulative_count : Z; upper_bound : double }.
Record Histogram := mkHistogram { his_count : Z; his_sum : double; his_bucket : list Bucket }.

(** The member of the [value] oneof that is set. *)
Inductive metric_value :=
| no_value | gauge_value (d : double) | counter_value (d : double) | untyped_value (d : double)
| string_value (s : cppstring) | summary_value (s : Summary) | histogram_value (h : Histogram).
Record Metric := mkMetric { key : cppstring; alias : cppstring; desc : cppstring; unit_ : cppstring;
                            dims : list (cppstring * cppstring); value : metric_value }.
Inductive MetricsBundle := mkMetrics (b_key : cppstring) (b_desc : cppstring) (b_value : list Metric) (b_children : list MetricsBundle).
(** The bundles of every payload of a message. *)
Abbreviation MetricsMessage := (list (list MetricsBundle)).

(** ** Names *)

Definition legal (c : ascii) : bool :=
  let n := nat_of_ascii c in (Nat.leb 97 n && Nat.leb n 122) || (Nat.leb 65 n && Nat.leb n 90) || (Nat.leb 48 n && Nat.leb n 57).
Definition letter (c : ascii) : bool :=
  let n := nat_of_ascii c in (Nat.leb 97 n && Nat.leb n 122) || (Nat.leb 65 n && Nat.leb n 90).

(** [after_]: the name so far ends with an underscore *)
Fixpoint collapse (after_ : bool) (s : cppstring) : cppstring :=
  match s with
  | [] => []
  | c :: s' => if legal c then c :: collapse false s' else if after_ then collapse true s' else "_"%char :: collapse true s'
  end.
Definition to_grammar (raw : cppstring) : cppstring :=
  collapse false (concat (map (fun c => if bool_decide (c = "%"%char) then str "percent" else [c]) raw)).

Definition sanitize_name (raw : cppstring) : cppstring :=
  match to_grammar raw with
  | [] => str "metric"
  | (c :: rest) as ret =>
      if letter c then ret
      else let tail_ := if bool_decide (c = "_"%char) then rest else ret in
           match tail_ with [] => str "metric" | _ => str "metric_" ++ tail_ end
  end.

Fixpoint skip_underscores (s : cppstring) : cppstring :=
  match s with c :: s' => if bool_decide (c = "_"%char) then skip_underscores s' else s | [] => [] end.
Definition sanitize_unit (raw : cppstring) : cppstring := rev (skip_underscores (rev (skip_underscores (to_grammar raw)))).

Definition ends_with (value suffix : cppstring) : bool :=
  Nat.ltb (length suffix) (length value) && bool_decide (drop (length value - length suffix) value = suffix).
Definition with_unit (name unit : cppstring) : cppstring :=
  match unit with
  | [] => name
  | _ => if ends_with name (str "_" ++ unit) || bool_decide (name = unit) then name else name ++ str "_" ++ unit
  end.

(** ** Types *)

Inductive metric_type := t_none | t_gauge | t_counter | t_unknown | t_info | t_summary | t_histogram.
#[global] Instance metric_type_eq_dec : EqDecision metric_type. Proof. solve_decision. Defined.
Inductive dialect := om_1_0 | text_0_0_4.
#[global] Instance dialect_eq_dec : EqDecision dialect. Proof. solve_decision. Defined.

Definition sample_suffix (t : metric_type) : cppstring :=
  match t with t_counter => str "_total" | t_info => str "_info" | _ => [] end.
Definition type_word (t : metric_type) (d : dialect) : cppstring :=
  match t with
  | t_counter => str "counter"
  | t_unknown => match d with om_1_0 => str "unknown" | text_0_0_4 => str "untyped" end
  | t_info => match d with om_1_0 => str "info" | text_0_0_4 => str "gauge" end
  | t_summary => str "summary"
  | t_histogram => str "histogram"
  | _ => str "gauge"
  end.
Definition metadata_suffix (t : metric_type) (d : dialect) : cppstring :=
  match d with om_1_0 => [] | text_0_0_4 => sample_suffix t end.
Definition without_type_suffix (name : cppstring) (t : metric_type) : cppstring :=
  let suffix := sample_suffix t in
  if bool_decide (suffix = []) || negb (ends_with name suffix) then name else take (length name - length suffix) name.
Definition suffixes_of (t : metric_type) : list cppstring :=
  match t with
  | t_summary => [str "_sum"; str "_count"]
  | t_histogram => [str "_sum"; str "_count"; str "_bucket"]
  | _ => []
  end.
Definition type_of (m : Metric) : metric_type :=
  match value m with
  | gauge_value _ => t_gauge | counter_value _ => t_counter | untyped_value _ => t_unknown | string_value _ => t_info
  | summary_value _ => t_summary | histogram_value _ => t_histogram | no_value => t_none
  end.

(** ** Values and text *)

Definition render_value (v : double) : cppstring :=
  match v with
  | S754_nan => str "NaN"
  | S754_infinity s => if s then str "-Inf" else str "+Inf"
  | _ => render_shortest v
  end.
(** [static_cast<double>] of a [uint64_t] *)
Definition render_count (n : Z) : cppstring := render_value (to_double n).

Definition escape_help (raw : cppstring) : cppstring :=
  concat (map (fun c => if bool_decide (c = c_backslash) then [c_backslash; c_backslash]
                        else if bool_decide (c = c_newline) then [c_backslash; "n"%char]
                        else if bool_decide (c = c_return) then [] else [c]) raw).
Definition escape_label_value (raw : cppstring) : cppstring :=
  concat (map (fun c => if bool_decide (c = c_backslash) then [c_backslash; c_backslash]
                        else if bool_decide (c = c_dquote) then [c_backslash; c_dquote]
                        else if bool_decide (c = c_newline) then [c_backslash; "n"%char]
                        else if bool_decide (c = c_return) then [] else [c]) raw).

Abbreviation label_list := (list (cppstring * cppstring)).
Definition render_label (l : cppstring * cppstring) : cppstring := l.1 ++ str "=" ++ [c_dquote] ++ escape_label_value l.2 ++ [c_dquote].
Fixpoint render_more (labels : label_list) : cppstring :=
  match labels with [] => [] | l :: rest => str "," ++ render_label l ++ render_more rest end.
Definition render_labels (labels : label_list) : cppstring :=
  match labels with [] => [] | l :: rest => str "{" ++ render_label l ++ render_more rest ++ str "}" end.

Definition dims_of (m : Metric) : label_list :=
  map (fun d => (sanitize_name d.1, d.2)) (List.filter (fun d => negb (bool_decide (d.1 = []))) (dims m)).

(** ** The set of families *)

Record sample := mkSample { suffix : cppstring; labels : cppstring; s_value : cppstring }.
Record family := mkFamily { name : cppstring; type : metric_type; help : cppstring; unit : cppstring;
                            samples : list sample; series : gset cppstring }.
Record family_set := mkSet { families : list family; index : gmap cppstring nat; claimed : gset cppstring }.
Definition empty_set : family_set := mkSet [] ∅ ∅.

Definition wanted (n : cppstring) (t : metric_type) (suffixes : list cppstring) : gset cppstring :=
  {[ n ]} ∪ {[ n ++ sample_suffix t ]} ∪ list_to_set (map (fun s => n ++ s) suffixes).
Definition claim (n : cppstring) (t : metric_type) (suffixes : list cppstring) (s : family_set) : option family_set :=
  if bool_decide (wanted n t suffixes ## claimed s) then Some (mkSet (families s) (index s) (claimed s ∪ wanted n t suffixes)) else None.

Definition no_family : family := mkFamily [] t_gauge [] [] [] ∅.
Definition open (n : cppstring) (t : metric_type) (h u : cppstring) (suffixes : list cppstring) (s : family_set) : option (nat * family_set) :=
  match index s !! n with
  | Some existing =>
      let f := nth existing (families s) no_family in
      if negb (bool_decide (type f = t)) || negb (bool_decide (unit f = u)) then None else Some (existing, s)
  | None =>
      match claim n t suffixes s with
      | None => None
      | Some s' => Some (length (families s'), mkSet (families s' ++ [mkFamily n t h u [] ∅]) (<[n := length (families s')]> (index s')) (claimed s'))
      end
  end.

Definition add_samples (l : list sample) (f : family) : family :=
  mkFamily (name f) (type f) (help f) (unit f) (samples f ++ l) (series f).
Definition add_series (rendered : cppstring) (f : family) : family :=
  mkFamily (name f) (type f) (help f) (unit f) (samples f) ({[ rendered ]} ∪ series f).
Definition update (at_ : nat) (g : family -> family) (s : family_set) : family_set :=
  mkSet (alter g at_ (families s)) (index s) (claimed s).

(** [target.series.insert(rendered).second] *)
Definition new_series (at_ : nat) (rendered : cppstring) (s : family_set) : bool :=
  negb (bool_decide (rendered ∈ series (nth at_ (families s) no_family))).

Definition numeric_sample (t : metric_type) (rendered : cppstring) (v : double) : list sample := [mkSample (sample_suffix t) rendered (render_value v)].
Definition summary_samples (ls : label_list) (rendered : cppstring) (s : Summary) : list sample :=
  map (fun q => mkSample [] (render_labels (ls ++ [(str "quantile", render_value (quantile q))])) (render_value (q_value q))) (sum_quantile s) ++
  [mkSample (str "_sum") rendered (render_value (sum_sum s)); mkSample (str "_count") rendered (render_count (sum_count s))].
Definition histogram_samples (ls : label_list) (rendered : cppstring) (h : Histogram) : list sample :=
  map (fun b => mkSample (str "_bucket") (render_labels (ls ++ [(str "le", render_value (upper_bound b))])) (render_count (cumulative_count b))) (his_bucket h) ++
  [mkSample (str "_sum") rendered (render_value (his_sum h)); mkSample (str "_count") rendered (render_count (his_count h))].

(** ** Strings of a bundle *)

Record info_series := mkInfo { dims_key : cppstring; i_labels : label_list; i_help : cppstring }.
Definition key_of_dims (ds : label_list) : cppstring := concat (map (fun d => d.1 ++ str "=" ++ d.2 ++ ["031"%char]) ds).
Definition has_label (ls : label_list) (n : cppstring) : bool := existsb (fun l => bool_decide (l.1 = n)) ls.

(** The series of a label set takes one more label, unless it has one of that name. *)
Definition extend_info (label_name v h : cppstring) (i : info_series) : info_series * bool :=
  if has_label (i_labels i) label_name then (i, false)
  else (mkInfo (dims_key i) (i_labels i ++ [(label_name, v)]) (if bool_decide (i_help i = []) then h else i_help i), true).
Fixpoint add_info (info : list info_series) (ds : label_list) (label_name v h : cppstring) : list info_series * bool :=
  match info with
  | [] => let '(i, ok) := extend_info label_name v h (mkInfo (key_of_dims ds) ds h) in ([i], ok)
  | i :: rest =>
      if bool_decide (dims_key i = key_of_dims ds) then let '(i', ok) := extend_info label_name v h i in (i' :: rest, ok)
      else let '(rest', ok) := add_info rest ds label_name v h in (i :: rest', ok)
  end.

(** ** Walking a snapshot *)

Abbreviation problems := (option (list cppstring)).
Definition report (trail k n why : cppstring) (ps : problems) : problems :=
  (fun l => l ++ [str "Dropping metric '" ++ trail ++ str "." ++ k ++ str "' from the OpenMetrics exposition: it renders as '" ++ n ++
                  str "' and " ++ why ++ str "."]) <$> ps.
Definition report_unit (trail k raw used : cppstring) (ps : problems) : problems :=
  (fun l => l ++ [match used with
                  | [] => str "Ignoring the unit '" ++ raw ++ str "' on metric '" ++ trail ++ str "." ++ k ++
                          str "': a unit has to be spelled in [a-zA-Z0-9_] to be part of an OpenMetrics name."
                  | _ => str "Rewriting the unit '" ++ raw ++ str "' on metric '" ++ trail ++ str "." ++ k ++ str "' to '" ++ used ++
                         str "': a unit has to be spelled in [a-zA-Z0-9_] to be part of an OpenMetrics name."
                  end]) <$> ps.
Definition already_claimed : cppstring := str "another metric already claimed that name".

Definition samples_of (m : Metric) (ls : label_list) (rendered : cppstring) : list sample :=
  match value m with
  | gauge_value d => numeric_sample t_gauge rendered d
  | counter_value d => numeric_sample t_counter rendered d
  | untyped_value d => numeric_sample t_unknown rendered d
  | summary_value s => summary_samples ls rendered s
  | histogram_value h => histogram_samples ls rendered h
  | string_value _ | no_value => []
  end.

Definition leaf (m : Metric) : cppstring := match alias m with [] => key m | a => a end.
Definition help_of (b_desc : cppstring) (m : Metric) : cppstring := match desc m with [] => b_desc | d => d end.
Definition family_name (trail : cppstring) (m : Metric) : cppstring :=
  without_type_suffix (with_unit (sanitize_name (trail ++ str "_" ++ leaf m)) (sanitize_unit (unit_ m))) (type_of m).

(** One numeric metric: its family, its series, its samples. *)
Definition add_metric (trail b_desc : cppstring) (m : Metric) (out : family_set) (ps : problems) : family_set * problems :=
  let u := sanitize_unit (unit_ m) in
  let ps1 := if bool_decide (u = unit_ m) then ps else report_unit trail (key m) (unit_ m) u ps in
  let n := family_name trail m in
  match open n (type_of m) (help_of b_desc m) u (suffixes_of (type_of m)) out with
  | None => (out, report trail (key m) n already_claimed ps1)
  | Some (at_, out') =>
      let rendered := render_labels (dims_of m) in
      if negb (new_series at_ rendered out') then (out', report trail (key m) n already_claimed ps1)
      else (update at_ (fun f => add_samples (samples_of m (dims_of m) rendered) (add_series rendered f)) out', ps1)
  end.

Record walk := mkWalk { w_info : list info_series; w_out : family_set; w_problems : problems }.
Definition walk_metric (trail b_desc : cppstring) (w : walk) (m : Metric) : walk :=
  match value m with
  | no_value => w
  | string_value s =>
      let label_name := sanitize_name (leaf m) in
      let '(info, ok) := add_info (w_info w) (dims_of m) label_name s (help_of b_desc m) in
      mkWalk info (w_out w)
        (if ok then w_problems w else report trail (key m) label_name (str "that label is already on this bundle's info series") (w_problems w))
  | _ => let '(out, ps) := add_metric trail b_desc m (w_out w) (w_problems w) in mkWalk (w_info w) out ps
  end.

Definition info_sample (rendered : cppstring) : list sample := [mkSample (str "_info") rendered (str "1")].
Definition add_info_series (at_ : nat) (out : family_set) (i : info_series) : family_set :=
  let rendered := render_labels (i_labels i) in
  if new_series at_ rendered out then update at_ (fun f => add_samples (info_sample rendered) (add_series rendered f)) out else out.
Definition close_info (trail : cppstring) (w : walk) : family_set * problems :=
  match w_info w with
  | [] => (w_out w, w_problems w)
  | i :: _ =>
      let n := sanitize_name trail in
      match open n t_info (i_help i) [] (suffixes_of t_info) (w_out w) with
      | None => (w_out w, report trail (str "<strings>") n already_claimed (w_problems w))
      | Some (at_, out) => (fold_left (add_info_series at_) (w_info w) out, w_problems w)
      end
  end.

Definition b_key (b : MetricsBundle) : cppstring := match b with mkMetrics k _ _ _ => k end.
Fixpoint collect (bundle : MetricsBundle) (trail : cppstring) (acc : family_set * problems) {struct bundle} : family_set * problems :=
  match bundle with
  | mkMetrics _ b_desc b_value b_children =>
      let '(out, ps) := fold_left (fun acc child => collect child (trail ++ str "_" ++ b_key child) acc) b_children acc in
      close_info trail (fold_left (walk_metric trail b_desc) b_value (mkWalk [] out ps))
  end.
Definition collect_snapshot (response : MetricsMessage) (ps : problems) : family_set * problems :=
  fold_left (fun acc bundle => collect bundle (b_key bundle) acc) (concat response) (empty_set, ps).

(** ** Writing *)

Definition line (s : cppstring) : cppstring := s ++ [c_newline].
Definition described (f : family) (d : dialect) : cppstring := name f ++ metadata_suffix (type f) d.
Definition family_lines (d : dialect) (f : family) : list cppstring :=
  (match help f with [] => [] | h => [str "# HELP " ++ described f d ++ str " " ++ escape_help h] end) ++
  [str "# TYPE " ++ described f d ++ str " " ++ type_word (type f) d] ++
  (match unit f with [] => [] | u => [str "# UNIT " ++ described f d ++ str " " ++ u] end) ++
  map (fun s => name f ++ suffix s ++ labels s ++ str " " ++ s_value s) (samples f).
Definition emit (collected : family_set) (d : dialect) : cppstring :=
  concat (map line (concat (map (family_lines d) (families collected)) ++ [str "# EOF"])).

Definition dialect_for (accept : cppstring) : dialect :=
  match find accept (str "application/openmetrics-text") 0 with Some _ => om_1_0 | None => text_0_0_4 end.
Definition content_type_for (d : dialect) : cppstring :=
  match d with
  | om_1_0 => str "application/openmetrics-text; version=1.0.0; charset=utf-8"
  | text_0_0_4 => str "text/plain; version=0.0.4; charset=utf-8"
  end.

Definition render (response : MetricsMessage) (d : dialect) (ps : problems) : cppstring * problems :=
  let '(collected, ps') := collect_snapshot response ps in (emit collected d, ps').
Definition render_both (response : MetricsMessage) (ps : problems) : cppstring * cppstring * problems :=
  let '(collected, ps') := collect_snapshot response ps in (emit collected om_1_0, emit collected text_0_0_4, ps').

Fixpoint collect_legacy (bundle : MetricsBundle) (trail : cppstring) (body : cppstring) {struct bundle} : cppstring :=
  match bundle with
  | mkMetrics _ _ b_value b_children =>
      let body' := fold_left (fun body child => collect_legacy child (trail ++ str "_" ++ b_key child) body) b_children body in
      fold_left (fun body m => match value m with
                               | gauge_value v => body ++ line (trail ++ str "_" ++ key m ++ str " " ++ xtos_double v)
                               | _ => body
                               end) b_value body'
  end.
Definition render_legacy (response : MetricsMessage) : cppstring :=
  fold_left (fun body bundle => collect_legacy bundle (b_key bundle) body) (concat response) [].
