(* ===== verification/OpenMetricsRoundtrip.v ===== *)
(** The renderer and the parser of metrics expositions together: what the web server writes is
    read back as the families it was written from. *)

From stdpp Require Import base list gmap strings.
From Stdlib Require Import Ascii ZArith Lia SpecFloat.
From Stdlib Require String.
From S2P Require Import Prelude Strings Format NumberText OpenMetrics OpenMetricsLaws OpenMetricsRender.
Import String.StringSyntax.

Module P := OpenMetrics.
Module R := OpenMetricsRender.

Local Open Scope Z_scope.

(** ** Blanks *)

Definition rtrim (s : cppstring) : cppstring := rev (skip_blanks (rev s)).

Lemma trim_blanks_eq s : trim_blanks s = rtrim (skip_blanks s).
Proof. reflexivity. Qed.
Lemma rtrim_snoc_blank s c : is_blank c = true -> rtrim (s ++ [c]) = rtrim s.
Proof. intros H. unfold rtrim. rewrite rev_app_distr. simpl. by rewrite H. Qed.
Lemma rtrim_snoc s c : is_blank c = false -> rtrim (s ++ [c]) = s ++ [c].
Proof. intros H. unfold rtrim. rewrite rev_app_distr. simpl. rewrite H. simpl. by rewrite rev_involutive. Qed.
Lemma rtrim_app a c s : is_blank c = false -> rtrim (a ++ c :: s) = a ++ c :: rtrim s.
Proof.
  intros H. induction s as [|x s IH] using rev_ind; [by apply rtrim_snoc|].
  change (a ++ c :: s ++ [x]) with (a ++ (c :: s) ++ [x]). rewrite app_assoc.
  destruct (is_blank x) eqn:E.
  - rewrite rtrim_snoc_blank, (rtrim_snoc_blank s x) by done. exact IH.
  - rewrite rtrim_snoc, (rtrim_snoc s x) by done. by rewrite <-app_assoc.
Qed.
Lemma rtrim_nil_or s : rtrim s = [] \/ exists a c, is_blank c = false /\ rtrim s = a ++ [c].
Proof.
  induction s as [|x s IH] using rev_ind; [by left|]. destruct (is_blank x) eqn:E; [by rewrite rtrim_snoc_blank|].
  right. exists s, x. by rewrite rtrim_snoc.
Qed.
Lemma skip_rtrim s : skip_blanks (rtrim s) = rtrim (skip_blanks s).
Proof.
  induction s as [|c s IH]; [done|]. simpl. destruct (is_blank c) eqn:E.
  - destruct (rtrim_nil_or s) as [H|(a & x & Hx & H)].
    + rewrite <-IH, H. change (c :: s) with ([c] ++ s).
      assert (rtrim ([c] ++ s) = []) as ->; [|done].
      clear IH. induction s as [|y s IHs] using rev_ind; [unfold rtrim; simpl; by rewrite E|].
      destruct (is_blank y) eqn:Ey; [|rewrite rtrim_snoc in H by done; by destruct s].
      rewrite rtrim_snoc_blank in H by done. rewrite app_assoc, rtrim_snoc_blank by done. by apply IHs.
    + rewrite <-IH. assert (rtrim (c :: s) = c :: rtrim s) as ->; [|simpl; by rewrite E].
      clear IH. induction s as [|y s IHs] using rev_ind; [by destruct a|].
      change (c :: s ++ [y]) with ((c :: s) ++ [y]). destruct (is_blank y) eqn:Ey.
      * rewrite !rtrim_snoc_blank by done. rewrite rtrim_snoc_blank in H by done. by apply IHs.
      * by rewrite !rtrim_snoc by done.
  - pose proof (rtrim_app [] c s E) as H. simpl in H. rewrite H. simpl. by rewrite E.
Qed.

(** A line that begins and ends with something else than blanks is read as it is. *)
Lemma trim_solid c s d : is_blank c = false -> is_blank d = false -> trim_blanks (c :: s ++ [d]) = c :: s ++ [d].
Proof.
  intros Hc Hd. rewrite trim_blanks_eq. cbn [skip_blanks]. rewrite Hc.
  change (c :: s ++ [d]) with ((c :: s) ++ [d]). by apply rtrim_snoc.
Qed.
Lemma normalise_no_return l : c_return ∉ l -> normalise l = trim_blanks l.
Proof.
  intros H. unfold normalise. destruct (rev l) as [|c r] eqn:E; [done|]. rewrite bool_decide_eq_false_2; [done|]. intros ->.
  apply H. apply (f_equal (@rev ascii)) in E. rewrite rev_involutive in E. subst. rewrite list_elem_of_In, <-in_rev. by left.
Qed.

(** ** Escapes *)

(** What survives an escape: everything but the carriage returns. *)
Definition drop_returns (s : cppstring) : cppstring := List.filter (fun c => negb (bool_decide (c = c_return))) s.

Definition esc1 (c : ascii) : cppstring :=
  if bool_decide (c = c_backslash) then [c_backslash; c_backslash]
  else if bool_decide (c = c_newline) then [c_backslash; "n"%char] else [c].
Definition esc (s : cppstring) : cppstring := concat (map esc1 s).

Lemma escape_help_eq h : escape_help h = esc (drop_returns h).
Proof.
  induction h as [|c h IH]; [done|]. unfold escape_help in *. cbn [map concat drop_returns List.filter]. rewrite IH.
  destruct (bool_decide (c = c_return)) eqn:E; simpl.
  - apply bool_decide_eq_true in E. by subst c.
  - reflexivity.
Qed.
Lemma unescape_esc s : unescape_help (esc s) = s.
Proof.
  induction s as [|c s IH]; [done|]. unfold esc in *. simpl. unfold esc1 at 1.
  case_bool_decide as E1; [subst; simpl; by rewrite IH|]. case_bool_decide as E2; [subst; simpl; by rewrite IH|].
  simpl. rewrite bool_decide_eq_false_2 by done. by rewrite IH.
Qed.
Lemma esc1_blank c : is_blank c = true -> esc1 c = [c].
Proof. unfold is_blank, esc1. intros H. apply orb_prop in H as [H|H]; apply bool_decide_eq_true in H as ->; done. Qed.
Lemma esc1_solid c : is_blank c = false -> exists a d, esc1 c = a ++ [d] /\ is_blank d = false /\ is_blank (front (esc1 c)) = false.
Proof.
  intros H. unfold esc1. case_bool_decide; [by exists [c_backslash], c_backslash|]. case_bool_decide; [by exists [c_backslash], "n"%char|].
  by exists [], c.
Qed.
Lemma skip_esc s : skip_blanks (esc s) = esc (skip_blanks s).
Proof.
  induction s as [|c s IH]; [done|]. unfold esc in *. simpl. destruct (is_blank c) eqn:E.
  - rewrite (esc1_blank c E). simpl. by rewrite E.
  - destruct (esc1_solid c E) as (a & d & H & _ & F). simpl. destruct (esc1 c) as [|x r]; [by destruct a|]. simpl in *. by rewrite F.
Qed.
Lemma rtrim_esc s : rtrim (esc s) = esc (rtrim s).
Proof.
  induction s as [|c s IH] using rev_ind; [done|]. unfold esc in *. rewrite map_app, concat_app. simpl. rewrite app_nil_r.
  destruct (is_blank c) eqn:E.
  - rewrite (esc1_blank c E), !rtrim_snoc_blank by done. exact IH.
  - destruct (esc1_solid c E) as (a & d & H & Hd & _). rewrite H, app_assoc, !rtrim_snoc by done.
    rewrite map_app, concat_app. simpl. by rewrite app_nil_r, H, app_assoc.
Qed.
Lemma help_roundtrip h : unescape_help (trim_blanks (escape_help h)) = trim_blanks (drop_returns h).
Proof. by rewrite escape_help_eq, !trim_blanks_eq, skip_esc, rtrim_esc, unescape_esc. Qed.

Lemma label_value_roundtrip v rest : label_value (escape_label_value v ++ c_dquote :: rest) = Some (drop_returns v, rest).
Proof.
  induction v as [|c v IH]; [done|]. unfold escape_label_value in *. cbn [map concat]. rewrite <-app_assoc.
  case_bool_decide as E1; [subst; simpl; by rewrite IH|]. case_bool_decide as E2; [subst; simpl; by rewrite IH|].
  case_bool_decide as E3; [subst; simpl; by rewrite IH|]. case_bool_decide as E4; [subst; simpl; exact IH|].
  simpl. rewrite !bool_decide_eq_false_2 by done. by rewrite IH.
Qed.

(** ** Names *)

Definition name_ok (n : cppstring) : Prop := is_alpha (front n) = true /\ Forall (fun c => is_label_char c = true) n.

Lemma label_char_name c : is_label_char c = true -> is_name_char c = true.
Proof. unfold is_label_char, is_name_char, is_label_start, is_name_start. intros H. apply orb_prop in H as [->| ->]; by rewrite ?orb_true_r. Qed.
Lemma name_char_solid c : is_name_char c = true -> is_blank c = false /\ c <> "#"%char /\ c <> c_return /\ c <> c_newline.
Proof. intros H. destruct (is_blank c) eqn:E; split; try done;
  [unfold is_blank in E; apply orb_prop in E as [E|E]; apply bool_decide_eq_true in E as ->; done| |]; split_and!; intros ->; done. Qed.
Lemma name_ok_nonempty n : name_ok n -> n <> [].
Proof. intros [H _] ->. done. Qed.
Lemma name_ok_app n s : name_ok n -> Forall (fun c => is_label_char c = true) s -> name_ok (n ++ s).
Proof.
  intros [H F] Hs. split; [|by apply Forall_app]. destruct n; [done|]. exact H.
Qed.

Lemma metric_name_ok n rest : name_ok n -> (forall c r, rest = c :: r -> is_name_char c = false) -> metric_name (n ++ rest) = (n, rest).
Proof.
  intros [H F] Hr. unfold metric_name, peek. destruct n as [|c n]; [done|]. simpl front. unfold is_name_start. simpl in H. rewrite H. simpl orb.
  apply span_exact; [|done]. eapply Forall_impl; [exact F|]. intros x. apply label_char_name.
Qed.

(** ** Labels *)

Definition read_labels_of (l : R.label_list) : P.label_list := map (fun x => (x.1, drop_returns x.2)) l.

Lemma read_labels_names l : (read_labels_of l).*1 = l.*1.
Proof. induction l as [|x l IH]; [done|]. cbn. by f_equal. Qed.

Lemma skip_solid c s : is_blank c = false -> skip_blanks (c :: s) = c :: s.
Proof. intros H. simpl. by rewrite H. Qed.

Lemma read_label_rendered n l rest : name_ok l.1 -> read_label n (render_label l ++ rest) = Ok (l.1, drop_returns l.2, rest).
Proof.
  intros [H F]. unfold read_label, render_label. rewrite <-!app_assoc. set (tl := str "=" ++ _).
  assert (is_label_start (peek (l.1 ++ tl)) = true) as ->.
  { destruct (l.1) as [|c r]; [done|]. unfold peek, is_label_start. simpl in *. by rewrite H. }
  cbn [negb]. rewrite span_exact; [|done|intros c r E; subst tl; simpl in E; by injection E as <- _]. subst tl.
  change (str "=" ++ ?x) with ("="%char :: x). rewrite (skip_solid "="%char) by done. cbn [peek front tail app].
  rewrite bool_decide_eq_true_2 by done. cbn [negb]. rewrite (skip_solid c_dquote) by done. cbn [peek front tail].
  rewrite bool_decide_eq_true_2 by done. cbn [negb]. by rewrite label_value_roundtrip.
Qed.

Lemma render_label_head l : name_ok l.1 -> exists c r, render_label l = c :: r /\ is_alpha c = true.
Proof. intros [H _]. unfold render_label. destruct (l.1) as [|c n]; [done|]. eexists c, _. split; [reflexivity|done]. Qed.

Lemma alpha_solid c : is_alpha c = true -> is_blank c = false /\ c <> "}"%char /\ c <> ","%char /\ c <> "{"%char /\ c <> "#"%char.
Proof.
  intros H. split; [|by split_and!; intros ->].
  destruct (is_blank c) eqn:E; [|done]. unfold is_blank in E. apply orb_prop in E as [E|E]; apply bool_decide_eq_true in E as ->; done.
Qed.

(** There is room for the labels of [l] after [done_] of them. *)
Definition room_for (p : parser) (k : Z) : Prop :=
  within (max_labels_per_sample (bounds_ p)) k /\ within (max_labels (bounds_ p)) (label_count p + k).
Lemma room_for_label_yes p n scratch : room_for p (zlength scratch + 1) -> room_for_label p n scratch = Ok tt.
Proof.
  unfold room_for, within, room_for_label. intros [H1 H2].
  destruct (negb (max_labels_per_sample (bounds_ p) =? 0) && _) eqn:E1; [breflect; lia|].
  destruct (negb (max_labels (bounds_ p) =? 0) && _) eqn:E2; [breflect; lia|done].
Qed.

Lemma room_for_less p k j : room_for p k -> j <= k -> room_for p j.
Proof. unfold room_for, within. lia. Qed.

(** One turn of the loop over a rendered label, and the turn that closes the set. *)
Lemma labels_turn fuel p n l c scratch : name_ok l.1 -> room_for p (zlength scratch + 1) ->
  labels_loop (S fuel) p n (render_label l ++ c) scratch =
  let scratch' := scratch ++ read_labels_of [l] in let c2 := skip_blanks c in
  if done c2 then Throw (Fail (str "unterminated label set on " ++ quoted n))
  else if bool_decide (peek c2 = ","%char) then labels_loop fuel p n (tail c2) scratch'
  else if negb (bool_decide (peek c2 = "}"%char))
  then Throw (Fail (str "expected ',' or '}' after label " ++ quoted l.1 ++ str " on " ++ quoted n))
  else labels_loop fuel p n c2 scratch'.
Proof.
  intros Hl Rm. destruct (render_label_head l Hl) as (x & r & Er & Ha). destruct (alpha_solid x Ha) as (B & N1 & _).
  cbn [labels_loop]. assert (skip_blanks (render_label l ++ c) = render_label l ++ c) as -> by (rewrite Er; by apply skip_solid).
  rewrite read_label_rendered by done. cbn [rbind]. rewrite room_for_label_yes by done. cbn [rbind].
  rewrite Er. cbn [app done peek front]. by rewrite bool_decide_eq_false_2.
Qed.
Lemma labels_close fuel p n c scratch : NoDup scratch.*1 -> labels_loop (S fuel) p n ("}"%char :: c) scratch = Ok (scratch, c).
Proof.
  intros ND. cbn [labels_loop]. rewrite skip_solid by done. cbn [done peek front tail]. rewrite bool_decide_eq_true_2 by done.
  unfold unique_labels. by rewrite (proj2 (Ordering.sorted_repeats _) ND).
Qed.

Lemma labels_loop_rendered p n L : forall fuel l scratch rest, (length L + 1 < fuel)%nat -> Forall (fun x => name_ok x.1) (l :: L) ->
  NoDup (scratch ++ read_labels_of (l :: L)).*1 -> room_for p (zlength scratch + zlength (l :: L)) ->
  labels_loop fuel p n (render_label l ++ render_more L ++ str "}" ++ rest) scratch = Ok (scratch ++ read_labels_of (l :: L), rest).
Proof.
  induction L as [|l2 L IH]; intros [|fuel] l scratch rest Hf F ND Rm; try lia; apply Forall_cons in F as [Hl F];
    (rewrite labels_turn; [|done|eapply room_for_less; [exact Rm|unfold zlength; simpl; lia]]).
  - destruct fuel as [|fuel]; [simpl in Hf; lia|]. by apply labels_close.
  - cbn [render_more]. change (str "," ++ ?x) with (","%char :: x). cbn [app]. rewrite skip_solid by done. cbn [done peek front tail].
    rewrite bool_decide_eq_true_2 by done. rewrite <-app_assoc. rewrite IH; [by rewrite <-app_assoc|simpl in Hf; lia|done|by rewrite <-app_assoc|].
    unfold read_labels_of, zlength in *. rewrite length_app. simpl in *. eapply room_for_less; [exact Rm|lia].
Qed.

Lemma render_more_length L : (length L <= length (render_more L))%nat.
Proof. induction L as [|l L IH]; simpl; [lia|]. rewrite length_app. lia. Qed.

Lemma labels_rendered p n L rest : L <> [] -> Forall (fun x => name_ok x.1) L -> NoDup L.*1 -> room_for p (zlength L) ->
  P.labels p n (render_labels L ++ rest) = Ok (read_labels_of L, rest).
Proof.
  destruct L as [|l L]; [done|]. intros _ F ND Rm. unfold P.labels, render_labels.
  change (str "{" ++ ?x) with ("{"%char :: x). cbn [app tail]. rewrite <-!app_assoc.
  pose proof (render_more_length L). apply (labels_loop_rendered p n L _ l []); [|done| |done].
  - simpl. rewrite !length_app. simpl. lia.
  - rewrite app_nil_l, read_labels_names. exact ND.
Qed.

(** ** A sample line *)

(** A value the parser reads back, spelled without blanks or line breaks. *)
Definition value_ok (v : cppstring) (d : double) : Prop :=
  read_value v = Some d /\ v <> [] /\ Forall (fun c => is_blank c = false /\ c <> c_return /\ c <> c_newline) v.

Lemma value_token v : v <> [] -> Forall (fun c => is_blank c = false /\ c <> c_return /\ c <> c_newline) v -> token v = (v, []).
Proof.
  intros _ F. unfold token. rewrite <-(app_nil_r v) at 1. apply span_exact; [|done]. eapply Forall_impl; [exact F|]. by intros c [-> _].
Qed.

Lemma read_sample_rendered p n L v d : Forall (fun x => name_ok x.1) L -> NoDup L.*1 -> room_for p (zlength L) -> value_ok v d ->
  read_sample p n (render_labels L ++ str " " ++ v) = Ok (P.mkSample n (read_labels_of L) d None).
Proof.
  intros F ND Rm (Hv & Nv & Fv). unfold read_sample. destruct v as [|x v]; [done|]. pose proof Fv as Fv'. apply Forall_cons in Fv' as [[Bx _] _].
  assert (forall r, separate (str " " ++ r) = (true, skip_blanks r)) as SP by done.
  destruct L as [|l L].
  - cbn [render_labels app]. rewrite SP, skip_solid by done.
    assert (x <> "{"%char) as Nb by (intros ->; unfold read_value, equals_word in Hv; simpl in Hv; done).
    cbn [peek front]. rewrite bool_decide_eq_false_2 by done. cbn [rbind done negb]. rewrite (value_token _ Nv Fv), Hv. done.
  - assert (exists r, render_labels (l :: L) = "{"%char :: r) as [r Er] by (by eexists).
    assert (separate (render_labels (l :: L) ++ str " " ++ x :: v) = (false, render_labels (l :: L) ++ str " " ++ x :: v)) as ->
      by (by rewrite Er).
    assert (peek (render_labels (l :: L) ++ str " " ++ x :: v) = "{"%char) as -> by (by rewrite Er).
    rewrite bool_decide_eq_true_2 by done. rewrite labels_rendered by done. cbn [rbind]. rewrite SP, skip_solid by done.
    cbn [rbind done negb]. rewrite (value_token _ Nv Fv), Hv. done.
Qed.

(** ** Lines *)

Definition no_break (s : cppstring) : Prop := Forall (fun c => c <> c_return /\ c <> c_newline) s.

Lemma no_break_app a b : no_break (a ++ b) <-> no_break a /\ no_break b.
Proof. apply Forall_app. Qed.
Lemma no_break_name s : Forall (fun c => is_label_char c = true) s -> no_break s.
Proof. intros F. eapply Forall_impl; [exact F|]. intros c H. apply label_char_name, name_char_solid in H. tauto. Qed.
Lemma no_break_concat {A} (f : A -> cppstring) l : Forall (fun x => no_break (f x)) l -> no_break (concat (map f l)).
Proof. induction 1; simpl; [constructor|]. by apply no_break_app. Qed.
Lemma no_break_escape_help h : no_break (escape_help h).
Proof.
  apply no_break_concat, Forall_forall. intros c _. repeat case_bool_decide; try (by repeat constructor).
Qed.
Lemma no_break_escape_label v : no_break (escape_label_value v).
Proof. apply no_break_concat, Forall_forall. intros c _. repeat case_bool_decide; try (by repeat constructor). Qed.
Lemma no_break_render_label l : name_ok l.1 -> no_break (render_label l).
Proof.
  intros [_ H]. unfold render_label. rewrite !no_break_app. split_and!; [by apply no_break_name|by repeat constructor..|apply no_break_escape_label|by repeat constructor].
Qed.
Lemma no_break_render_labels L : Forall (fun x => name_ok x.1) L -> no_break (render_labels L).
Proof.
  destruct L as [|l L]; [constructor|]. intros [Hl F]%Forall_cons. unfold render_labels. rewrite !no_break_app.
  split_and!; [by repeat constructor|by apply no_break_render_label| |by repeat constructor].
  induction F as [|x L Hx F IH]; [constructor|]. cbn [render_more]. rewrite !no_break_app.
  split_and!; [by repeat constructor|by apply no_break_render_label|done].
Qed.
Lemma no_break_normalise s : no_break s -> normalise s = trim_blanks s.
Proof. intros H. apply normalise_no_return. intros Hin. unfold no_break in H. rewrite Forall_forall in H. by destruct (H _ Hin). Qed.

Lemma front_app c s : front (c :: s) = c.
Proof. done. Qed.
Lemma name_head n : name_ok n -> exists c r, n = c :: r /\ is_alpha c = true.
Proof. intros [H _]. destruct n as [|c n]; [done|]. by exists c, n. Qed.

Lemma sample_line_shape f n L v d : name_ok n -> Forall (fun x => name_ok x.1) L -> value_ok v d ->
  let raw := n ++ render_labels L ++ str " " ++ v in
  normalise raw = raw /\ shape_of f raw = mkShape k_sample [] n (render_labels L ++ str " " ++ v) false.
Proof.
  intros Hn F (Hv & Nv & Fv) raw. destruct (name_head n Hn) as (c & r & En & Ha). destruct (alpha_solid c Ha) as (B & _ & _ & _ & Nh).
  split.
  - rewrite no_break_normalise.
    + destruct v as [|x v0] using rev_ind; [done|]. subst raw. rewrite En. rewrite !app_assoc. cbn [app].
      apply trim_solid; [done|]. apply Forall_app in Fv as [_ Fv]. apply Forall_cons in Fv as [[-> _] _]. done.
    + subst raw. rewrite !no_break_app. split_and!; [by apply no_break_name, Hn|by apply no_break_render_labels|by repeat constructor|].
      eapply Forall_impl; [exact Fv|]. naive_solver.
  - unfold shape_of. subst raw. rewrite En at 1. cbn [app]. rewrite bool_decide_eq_false_2 by done. cbn [negb].
    rewrite metric_name_ok; [done|done|]. intros x t E. destruct L; simpl in E; by injection E as <- _.
Qed.

(** The text of a metadata line after its name: nothing, or a blank and more. *)
Definition after_ok (a : cppstring) : Prop := a = [] \/ exists c r, a = c :: r /\ is_blank c = true.

Lemma metadata_shape f kw n a : metadata_word kw -> name_ok n -> after_ok a ->
  shape_of f (str "# " ++ kw ++ str " " ++ n ++ a) = mkShape k_metadata kw n a true.
Proof.
  intros K Hn Ha. destruct (name_head n Hn) as (c & r & En & Hc). destruct (alpha_solid c Hc) as (B & _).
  assert (metric_name (n ++ a) = (n, a)) as MN.
  { apply metric_name_ok; [done|]. intros x t E. destruct Ha as [->|(y & z & -> & Hy)]; [done|]. injection E as -> _.
    destruct (is_name_char x) eqn:Ex; [|done]. apply name_char_solid in Ex. destruct Ex. congruence. }
  assert (done a || is_blank (peek a) = true) as WN by (destruct Ha as [->|(y & z & -> & Hy)]; [done|]; simpl; done).
  assert (forall w, metadata_word w -> exists x u, w = x :: u /\ is_blank x = false /\ x <> "E"%char /\
     token (w ++ str " " ++ n ++ a) = (w, str " " ++ n ++ a)) as TK.
  { intros w Hw. assert (token (w ++ str " " ++ n ++ a) = (w, str " " ++ n ++ a)) as E.
    { apply span_exact; [destruct Hw as [->|[->| ->]]; by repeat constructor|]. intros x t [= <- _]. done. }
    destruct Hw as [->|[->| ->]]; eexists _, _; (split; [reflexivity|]; split; [done|]; split; [done|exact E]). }
  destruct (TK kw K) as (x & u & Ek & Bx & Nx & Tk). unfold shape_of. change (str "# " ++ ?y) with ("#"%char :: " "%char :: y).
  cbn [app]. rewrite bool_decide_eq_true_2 by done. cbn [negb].
  assert (is_eof_marker ("#"%char :: " "%char :: kw ++ str " " ++ n ++ a) = false) as ->.
  { unfold is_eof_marker. rewrite bool_decide_eq_true_2 by done. cbn [andb]. apply bool_decide_eq_false. rewrite Ek, trim_blanks_eq.
    cbn [app skip_blanks]. change (is_blank " "%char) with true. cbn [negb]. rewrite Bx.
    pose proof (rtrim_app [] x (u ++ str " " ++ n ++ a) Bx) as E. cbn [app] in E. rewrite E. by intros [= ->]. }
  rewrite andb_false_r. cbn [skip_blanks]. change (is_blank " "%char) with true. cbn iota. rewrite Ek at 1. cbn [app skip_blanks]. rewrite Bx.
  change (x :: u ++ str " " ++ n ++ a) with ((x :: u) ++ str " " ++ n ++ a). rewrite <-Ek, Tk.
  assert (is_word kw (str "EOF") = false) as -> by (destruct K as [->|[->| ->]]; done). rewrite andb_false_r.
  assert (is_word kw (str "HELP") || is_word kw (str "TYPE") || is_word kw (str "UNIT") = true) as -> by (destruct K as [->|[->| ->]]; done).
  cbn [negb]. change (str " " ++ n ++ a) with (" "%char :: n ++ a). cbn [peek front]. change (is_blank " "%char) with true. cbn [negb skip_blanks].
  change (is_blank " "%char) with true. cbn iota. assert (skip_blanks (n ++ a) = n ++ a) as -> by (rewrite En; by apply skip_solid).
  rewrite MN, WN, andb_true_r, bool_decide_eq_false_2 by (by apply name_ok_nonempty). done.
Qed.

Lemma metadata_normalise kw n e : metadata_word kw -> name_ok n -> no_break e ->
  normalise (str "# " ++ kw ++ str " " ++ n ++ e) = str "# " ++ kw ++ str " " ++ n ++ rtrim e.
Proof.
  intros K Hn He. rewrite no_break_normalise.
  - destruct n as [|z n0 _] using rev_ind; [by destruct Hn|].
    assert (is_blank z = false) as Bz.
    { destruct Hn as [_ F]. apply Forall_app in F as [_ F]. apply Forall_cons in F as [F _]. by apply label_char_name, name_char_solid in F as [? _]. }
    assert (forall x, str "# " ++ kw ++ str " " ++ (n0 ++ [z]) ++ x = (str "# " ++ kw ++ str " " ++ n0) ++ z :: x) as A.
    { intros x. rewrite <-!app_assoc. done. }
    rewrite !A, <-rtrim_app, trim_blanks_eq by done. done.
  - rewrite !no_break_app. split_and!; [by repeat constructor| |by repeat constructor|by apply no_break_name, Hn|done].
    destruct K as [->|[->| ->]]; by repeat constructor.
Qed.

Lemma rtrim_prefix s : exists t, s = rtrim s ++ t.
Proof.
  induction s as [|c s [t IH]] using rev_ind; [by exists []|]. destruct (is_blank c) eqn:E.
  - rewrite rtrim_snoc_blank by done. exists (t ++ [c]). by rewrite app_assoc, <-IH.
  - rewrite rtrim_snoc by done. exists []. by rewrite app_nil_r.
Qed.
Lemma rtrim_after e : after_ok (rtrim (" "%char :: e)).
Proof.
  destruct (rtrim_prefix (" "%char :: e)) as [t E]. destruct (rtrim (" "%char :: e)) as [|c r]; [by left|]. right.
  injection E as <- _. by eexists _, _.
Qed.

(** ** Reading one family *)

Definition apply_kw (kw payload : cppstring) (t : family_type) (g : P.family) : P.family :=
  if is_word kw (str "HELP") then record_help payload g else if is_word kw (str "UNIT") then record_unit payload g else record_type t g.
Definition apply_st (kw : cppstring) (s : family_state) : family_state :=
  if is_word kw (str "HELP") then mkState true (st_type s) (st_unit s) (tentative s)
  else if is_word kw (str "UNIT") then mkState (st_help s) (st_type s) true (tentative s)
  else mkState (st_help s) true (st_unit s) (tentative s).
Definition with_sample (s : P.sample) (g : P.family) : P.family :=
  P.mkFamily (f_name g) (f_type g) (f_help g) (f_unit g) (f_samples g ++ [s]).

Section Run.
Context (f : format) (b : limits) (Hb : limits_wf b).

(** Between families, and inside the family [g] that is read after [before]. *)
Record ready (p : parser) (before : list P.family) : Prop := {
  ready_live : live f b p;
  ready_line : 0 <= line_number p;
  ready_eof : saw_eof (out p) = false;
  ready_settled : block_open p = false;
  ready_families : P.families (out p) = before }.
Record inside (p : parser) (before : list P.family) (g : P.family) (st : family_state) : Prop := {
  inside_ready : ready p (before ++ [g]);
  inside_current : current p = Some (length before);
  inside_state : state_ p !! length before = Some st }.

Lemma alter_snoc {A} (h : A -> A) l x : alter h (length l) (l ++ [x]) = l ++ [h x].
Proof. induction l; simpl; [done|]. by f_equal. Qed.

Lemma declare_eq kw payload t i p : declare kw payload t i p =
  set_families (alter (apply_kw kw payload t) i (P.families (out p))) (set_state (alter (apply_st kw) i (state_ p)) p).
Proof.
  unfold declare, apply_kw, apply_st. destruct (is_word kw (str "HELP")); [done|]. by destruct (is_word kw (str "UNIT")).
Qed.

Lemma admits_settled p shape : block_open p = false -> block_admits p shape = true.
Proof. unfold block_open, block_admits. destruct (current p); [|done]. by intros ->. Qed.

(** A line of the body, its feed included, that is read as [shape]. *)
Lemma read_line_shape p raw shape p' : shape_of (format_ p) (normalise raw) = shape -> block_open p = false ->
  read_shaped p raw shape = Ok p' -> read_line p raw true = (p', true).
Proof. intros Hs B H. unfold read_line. cbn [negb andb]. rewrite Hs, admits_settled by done. cbn [negb]. by rewrite H. Qed.

Lemma read_shaped_meta p raw shape : within (max_line_bytes (bounds_ p)) (zlength raw) -> saw_eof (out p) = false -> what shape = k_metadata ->
  read_shaped p raw shape = metadata_line p shape.
Proof.
  intros L E W. unfold read_shaped. rewrite W, E. destruct (negb _ && _) eqn:X; [|done]. unfold within in L. breflect. lia.
Qed.
Lemma read_shaped_sample p raw shape : within (max_line_bytes (bounds_ p)) (zlength raw) -> saw_eof (out p) = false -> what shape = k_sample ->
  read_shaped p raw shape = sample_line p shape.
Proof.
  intros L E W. unfold read_shaped. rewrite W, E. destruct (negb _ && _) eqn:X; [|done]. unfold within in L. breflect. lia.
Qed.

(** A family named [n] has nothing to do with the families before it. *)
Definition fresh_name (n : cppstring) (before : list P.family) : Prop :=
  Forall (fun a => f_name a <> n /\ owns_name f a n = false) before.
Definition claims_nothing (n : cppstring) (t : family_type) (before : list P.family) : Prop :=
  Forall (fun a => forall s, owns_suffix f t s = true -> f_name a <> n ++ s) before.

Lemma unindexed p n : wf p -> Forall (fun a => f_name a <> n) (P.families (out p)) -> families_by_name p !! n = None.
Proof.
  intros W F. destruct (families_by_name p !! n) as [e|] eqn:E; [|done]. destruct (wf_index p W _ _ E) as [(g & Hg & En) _].
  by destruct (proj1 (Forall_lookup _ _) F _ _ Hg).
Qed.
Lemma unowned p n : wf p -> Forall (fun a => owns_name (format_ p) a n = false) (P.families (out p)) -> owner (P.find p n) = None.
Proof.
  intros W F. destruct (owner (P.find p n)) as [o|] eqn:E; [|done]. destruct (find_Some p n o W E) as (g & Hg & O).
  rewrite (proj1 (Forall_lookup _ _) F _ _ Hg) in O. done.
Qed.
Lemma claims_earlier_yes p n t l : (forall s, s ∈ l -> s <> [] -> owns_suffix (format_ p) t s = true -> families_by_name p !! (n ++ s) = None) ->
  claims_earlier p n t l = Ok tt.
Proof.
  induction l as [|s l IH]; [done|]. intros H. cbn [claims_earlier]. rewrite IH by (intros; apply H; [by right|done..]).
  case_bool_decide as E; [done|]. destruct (owns_suffix (format_ p) t s) eqn:O; [|done]. simpl. rewrite H; [done|by left|done..].
Qed.

Lemma inside_declared p i before g kw payload t : live f b (declare kw payload t i p) -> 0 <= line_number p -> saw_eof (out p) = false ->
  block_open p = false -> i = length before -> P.families (out p) = before ++ [g] -> current p = Some i -> forall st, state_ p !! i = Some st ->
  inside (declare kw payload t i p) before (apply_kw kw payload t g) (apply_st kw st).
Proof.
  intros L Hl E B -> Ef C st Hst. destruct (declare_frame kw payload t (length before) p) as (_ & _ & _ & _ & F5 & F6 & _ & F8 & F9 & _).
  constructor; [constructor|..]; rewrite ?F5, ?F6, ?F8; try done.
  - by rewrite (block_open_frame p).
  - rewrite declare_eq. simpl. by rewrite Ef, alter_snoc.
  - rewrite declare_eq. simpl. rewrite (alter_insert _ _ _ _ Hst). apply list_lookup_insert_eq. by eapply lookup_lt_Some.
Qed.

Lemma open_family p before n kw a payload t : ready p before -> 1 <= line_number p -> name_ok n -> metadata_word kw ->
  read_payload f kw n (skip_blanks a) = Ok (payload, t) -> fresh_name n before -> (kw = str "TYPE" -> claims_nothing n t before) ->
  within (max_families b) (zlength before + 1) ->
  exists p', metadata_line p (mkShape k_metadata kw n a true) = Ok p' /\ line_number p' = line_number p /\
    inside p' before (apply_kw kw payload t (P.mkFamily n unknown [] [] [])) (apply_st kw no_state).
Proof.
  intros [L _ Eo B Ef] Hl Hn K Hp Fr Cl Rm. pose proof (live_wf _ _ _ L) as W. pose proof L as [_ NF NE Fm Bd _ _].
  set (shape := mkShape k_metadata kw n a true).
  assert (families_by_name p !! n = None) as Un.
  { apply unindexed; [done|]. rewrite Ef. eapply Forall_impl; [exact Fr|]. naive_solver. }
  assert (metadata_line p shape = Ok (declare kw payload t (length before) (add_family n false p))) as E.
  { unfold metadata_line. cbn [sh_name keyword whole_name after_name shape]. rewrite bool_decide_eq_false_2 by (by apply name_ok_nonempty).
    cbn [negb]. rewrite Fm, Hp. cbn [rbind].
    assert (in_own_block p n = false) as ->.
    { destruct (in_own_block p n) eqn:O; [|done]. destruct (own_block_current p n W O) as (i & g & _ & Hg & En & _). rewrite Ef in Hg.
      by destruct (proj1 (Forall_lookup _ _) Fr _ _ Hg). }
    assert (may_declare p kw n t = Ok false) as ->.
    { unfold may_declare. rewrite (unowned p n), Un; [|done|rewrite Ef, Fm; eapply Forall_impl; [exact Fr|]; naive_solver]. cbn [rbind].
      unfold room_for_family. rewrite Ef, Bd. destruct (negb _ && _) eqn:X; [|done]. unfold within in Rm. breflect. lia. }
    cbn [rbind]. rewrite Ef. destruct (is_word kw (str "TYPE")) eqn:T; [|done]. apply bool_decide_eq_true in T.
    unfold check_type. rewrite claims_earlier_yes; [done|]. intros s _ Ns O. apply unindexed; [done|]. rewrite Ef.
    rewrite Fm in O. eapply Forall_impl; [exact (Cl T)|]. intros g Hg. by apply Hg. }
  exists (declare kw payload t (length before) (add_family n false p)). split; [done|].
  destruct (metadata_line_live f b p shape _ L Hl Eo eq_refl K (admits_settled _ _ B) E) as [L' Ln]. split; [done|].
  destruct (declare_frame kw payload t (length before) (add_family n false p)) as (_ & _ & _ & _ & _ & _ & _ & F8 & _ & _).
  apply (inside_declared _ (length before)); try done.
  - simpl. lia.
  - unfold block_open. simpl. rewrite Ef. unfold state_at. simpl. rewrite <-Ef, <-(wf_states p W).
    by rewrite (nth_lookup_Some _ _ _ (mkState false false false false)) by (by apply lookup_snoc_Some; right).
  - simpl. by rewrite Ef.
  - simpl. by rewrite Ef.
  - simpl. rewrite <-Ef, <-(wf_states p W). by apply lookup_snoc_Some; right.
Qed.

Lemma more_metadata p before g st kw a payload t : inside p before g st -> 1 <= line_number p -> f_samples g = [] -> name_ok (f_name g) ->
  metadata_word kw -> read_payload f kw (f_name g) (skip_blanks a) = Ok (payload, t) -> declared_in kw st = false ->
  (kw = str "TYPE" -> claims_nothing (f_name g) t before) ->
  exists p', metadata_line p (mkShape k_metadata kw (f_name g) a true) = Ok p' /\ line_number p' = line_number p /\
    inside p' before (apply_kw kw payload t g) (apply_st kw st).
Proof.
  intros [[L _ Eo B Ef] C Hst] Hl Sg Hn K Hp D Cl. pose proof (live_wf _ _ _ L) as W. pose proof L as [_ NF NE Fm Bd _ _].
  set (shape := mkShape k_metadata kw (f_name g) a true).
  assert (P.families (out p) !! length before = Some g) as Hg by (rewrite Ef; by apply lookup_snoc_Some; right).
  assert (metadata_line p shape = Ok (declare kw payload t (length before) p)) as E.
  { unfold metadata_line. cbn [sh_name keyword whole_name after_name shape]. rewrite bool_decide_eq_false_2 by (by apply name_ok_nonempty).
    cbn [negb]. rewrite Fm, Hp. cbn [rbind].
    assert (in_own_block p (f_name g) = true) as ->.
    { unfold in_own_block. rewrite C, (family_at_lookup _ _ _ Hg), Sg. by rewrite bool_decide_eq_true_2. }
    rewrite C, (state_at_lookup _ _ _ Hst), D. cbn [rbind]. destruct (is_word kw (str "TYPE")) eqn:T; [|done]. apply bool_decide_eq_true in T.
    unfold check_type. rewrite (state_at_lookup _ _ _ Hst), (not_open_settled p (length before) st) by done. cbn [andb].
    assert (forall (x : bool), (match families_by_name p !! f_name g with Some _ => false | None => false end = x) -> x = false) as Z
      by (intros x <-; by destruct (families_by_name p !! f_name g)).
    rewrite (Z _ eq_refl). rewrite claims_earlier_yes; [done|]. intros s _ Ns O. apply unindexed; [done|]. rewrite Ef, Fm in *.
    apply Forall_app. split; [eapply Forall_impl; [exact (Cl T)|]; intros h Hh; by apply Hh|]. apply Forall_singleton.
    intros X. apply (f_equal length) in X. rewrite length_app in X. destruct s; [done|]. simpl in X. lia. }
  exists (declare kw payload t (length before) p). split; [done|].
  destruct (metadata_line_live f b p shape _ L Hl Eo eq_refl K (admits_settled _ _ B) E) as [L' Ln]. split; [done|].
  apply (inside_declared _ (length before)); try done. lia.
Qed.

Lemma more_sample p before g st n rest s : inside p before g st -> 1 <= line_number p -> n <> [] -> owns_name f g n = true ->
  read_sample p n rest = Ok s -> within (max_series b) (sample_total (before ++ [g]) + 1) ->
  exists p', sample_line p (mkShape k_sample [] n rest false) = Ok p' /\ line_number p' = line_number p /\ inside p' before (with_sample s g) st.
Proof.
  intros [[L _ Eo B Ef] C Hst] Hl Hn O Hs Sr. pose proof (live_wf _ _ _ L) as W. pose proof L as [_ NF NE Fm Bd _ _].
  assert (P.families (out p) !! length before = Some g) as Hg by (rewrite Ef; by apply lookup_snoc_Some; right).
  assert (sample_line p (mkShape k_sample [] n rest false) = Ok (add_sample s (length before) p)) as E.
  { unfold sample_line. cbn [sh_name after_name]. rewrite bool_decide_eq_false_2 by done. rewrite Hs. cbn [rbind].
    rewrite (wf_count p W), Ef, Bd. destruct (negb _ && _) eqn:X; [unfold within in Sr; breflect; lia|].
    unfold family_for. rewrite C, (state_at_lookup _ _ _ Hst), (not_open_settled p (length before) st), (owns_at _ _ _ _ Hg), Fm, O by done. done. }
  exists (add_sample s (length before) p). split; [done|]. destruct (sample_line_live f b p _ _ Hb L Hl Eo E) as [L' Ln]. split; [done|].
  constructor; [constructor|..]; try done; [simpl; lia|]. simpl. by rewrite Ef, alter_snoc.
Qed.

(** ** Lines of a family *)

Definition fed (ls : list cppstring) : list (cppstring * bool) := map (fun l => (l, true)) ls.
Definition short_line (l : cppstring) : Prop := within (max_line_bytes b) (zlength l).

Lemma ready_begin p before n : ready p before -> line_number p = n -> ready (begin_line (n + 1) p) before.
Proof. intros [L Hl E B Ef] <-. constructor; try done; [by apply live_begin; [|lia]|simpl; lia]. Qed.
Lemma inside_begin p before g st n : inside p before g st -> line_number p = n -> inside (begin_line (n + 1) p) before g st.
Proof. intros [R C H] E. constructor; try done. by apply ready_begin. Qed.

Lemma read_lines_step n l rest p p' : read_line (begin_line (n + 1) p) l true = (p', true) ->
  read_lines n ((l, true) :: rest) p = read_lines (n + 1) rest p'.
Proof. intros H. cbn [read_lines]. by rewrite H. Qed.

Definition meta_line (kw n e : cppstring) : cppstring := str "# " ++ kw ++ str " " ++ n ++ e.

(** What a metadata line with this text after its name declares. *)
Record meta_text (kw n e payload : cppstring) (t : family_type) : Prop := {
  mt_word : metadata_word kw;
  mt_name : name_ok n;
  mt_break : no_break e;
  mt_after : after_ok (rtrim e);
  mt_payload : read_payload f kw n (skip_blanks (rtrim e)) = Ok (payload, t) }.

Lemma meta_text_shape p kw n e payload t : meta_text kw n e payload t ->
  shape_of (format_ p) (normalise (meta_line kw n e)) = mkShape k_metadata kw n (rtrim e) true.
Proof. intros [K Hn He Ha _]. unfold meta_line. rewrite metadata_normalise by done. by apply metadata_shape. Qed.

Lemma line_open p before n m kw e payload t rest : ready p before -> line_number p = m -> meta_text kw n e payload t -> short_line (meta_line kw n e) ->
  fresh_name n before -> (kw = str "TYPE" -> claims_nothing n t before) -> within (max_families b) (zlength before + 1) ->
  exists p', read_lines m ((meta_line kw n e, true) :: rest) p = read_lines (m + 1) rest p' /\ line_number p' = m + 1 /\
    inside p' before (apply_kw kw payload t (P.mkFamily n unknown [] [] [])) (apply_st kw no_state).
Proof.
  intros R Em M Sl Fr Cl Rm. pose proof (ready_begin p before m R Em) as R1. pose proof (ready_line _ _ R) as H0.
  destruct (open_family _ before n kw (rtrim e) payload t R1) as (p' & E & Ln & I); try (by apply M); try done; [simpl; lia|].
  exists p'. split; [|done]. apply read_lines_step. eapply read_line_shape; [by eapply meta_text_shape|apply R1|].
  rewrite read_shaped_meta; [done|rewrite (live_bounds _ _ _ (ready_live _ _ R1)); exact Sl|apply R1|done].
Qed.

Lemma line_more p before g st m kw e payload t rest : inside p before g st -> line_number p = m -> f_samples g = [] ->
  meta_text kw (f_name g) e payload t -> short_line (meta_line kw (f_name g) e) -> declared_in kw st = false ->
  (kw = str "TYPE" -> claims_nothing (f_name g) t before) ->
  exists p', read_lines m ((meta_line kw (f_name g) e, true) :: rest) p = read_lines (m + 1) rest p' /\ line_number p' = m + 1 /\
    inside p' before (apply_kw kw payload t g) (apply_st kw st).
Proof.
  intros I Em Sg M Sl D Cl. pose proof (inside_begin p before g st m I Em) as I1. pose proof (ready_line _ _ (inside_ready _ _ _ _ I)) as H0.
  destruct (more_metadata _ before g st kw (rtrim e) payload t I1) as (p' & E & Ln & I'); try (by apply M); try done; [simpl; lia|].
  pose proof (inside_ready _ _ _ _ I1) as R1.
  exists p'. split; [|done]. apply read_lines_step. eapply read_line_shape; [by eapply meta_text_shape|apply R1|].
  rewrite read_shaped_meta; [done|rewrite (live_bounds _ _ _ (ready_live _ _ R1)); exact Sl|apply R1|done].
Qed.

(** ** The samples *)

Definition sample_text (n : cppstring) (s : R.sample) : cppstring := n ++ suffix s ++ R.labels s ++ str " " ++ R.s_value s.

(** The sample a rendered one is read as. *)
Definition sample_shows (n : cppstring) (s : R.sample) (x : P.sample) : Prop :=
  P.s_name x = n ++ suffix s /\ name_ok (P.s_name x) /\ s_timestamp x = None /\ value_ok (R.s_value s) (P.s_value x) /\
  exists L, R.labels s = render_labels L /\ Forall (fun l => name_ok l.1) L /\ NoDup L.*1 /\ s_labels x = read_labels_of L.

Definition with_samples (xs : list P.sample) (g : P.family) : P.family :=
  P.mkFamily (f_name g) (f_type g) (f_help g) (f_unit g) (f_samples g ++ xs).

Lemma zlength_labels L : zlength (read_labels_of L) = zlength L.
Proof. unfold zlength, read_labels_of. by rewrite length_map. Qed.

(** The limits hold on the way to a document within them. *)
Lemma within_less limit k j : within limit k -> j <= k -> within limit j.
Proof. unfold within. lia. Qed.
Lemma limits_for_sample before g x xs : within_limits b (before ++ [with_samples (x :: xs) g]) ->
  within (max_series b) (sample_total (before ++ [g]) + 1) /\ within (max_labels_per_sample b) (zlength (s_labels x)) /\
  within (max_labels b) (label_total (before ++ [g]) + zlength (s_labels x)).
Proof.
  intros (_ & L2 & L3 & L4). split_and!.
  - eapply within_less; [exact L2|]. unfold sample_total. rewrite !sum_list_with_app. simpl. rewrite length_app. simpl. lia.
  - apply Forall_app in L4 as [_ L4]. apply Forall_cons in L4 as [L4 _]. simpl in L4. apply Forall_app in L4 as [_ L4]. by apply Forall_cons in L4 as [? _].
  - eapply within_less; [exact L3|]. unfold label_total, zlength. rewrite !sum_list_with_app. simpl. rewrite !sum_list_with_app. simpl. lia.
Qed.

Lemma run_samples before st n ss xs : Forall2 (sample_shows n) ss xs -> forall p g m rest, inside p before g st -> line_number p = m ->
  Forall (fun x => owns_name f g (P.s_name x) = true) xs -> within_limits b (before ++ [with_samples xs g]) ->
  Forall (fun s => short_line (sample_text n s)) ss ->
  exists p', read_lines m (fed (map (sample_text n) ss) ++ rest) p = read_lines (m + zlength ss) rest p' /\
    line_number p' = m + zlength ss /\ inside p' before (with_samples xs g) st.
Proof.
  induction 1 as [|s x ss xs (En & Hn & Ht & Hv & Lb & El & Fl & ND & Ex) F2 IH]; intros p g m rest I Em O Lm Sl.
  { exists p. change (zlength []) with 0. rewrite Z.add_0_r. split; [done|]. split; [done|]. unfold with_samples. rewrite app_nil_r. by destruct g. }
  apply Forall_cons in O as [Ox O], Sl as [Sx Sl]. destruct (limits_for_sample _ _ _ _ Lm) as (M1 & M2 & M3).
  pose proof (inside_begin p before g st m I Em) as I1. pose proof (inside_ready _ _ _ _ I1) as R1. pose proof (ready_line _ _ (inside_ready _ _ _ _ I)) as H0.
  assert (sample_text n s = P.s_name x ++ render_labels Lb ++ str " " ++ R.s_value s) as Et.
  { unfold sample_text. by rewrite En, El, <-app_assoc. }
  rewrite Ex, zlength_labels in M2, M3.
  pose proof (live_bounds _ _ _ (ready_live _ _ R1)) as Bd.
  assert (read_sample (begin_line (m + 1) p) (P.s_name x) (render_labels Lb ++ str " " ++ R.s_value s) = Ok x) as Rd.
  { rewrite (read_sample_rendered _ _ _ _ (P.s_value x)); try done; [by rewrite <-Ex, <-Ht; destruct x|]. split; rewrite Bd; [done|].
    rewrite (wf_label_count _ (live_wf _ _ _ (ready_live _ _ R1))), (ready_families _ _ R1). done. }
  destruct (more_sample _ before g st (P.s_name x) (render_labels Lb ++ str " " ++ R.s_value s) x I1) as (p' & E & Ln & I'); [simpl; lia|by apply name_ok_nonempty|done|exact Rd|done|].
  destruct (IH p' (with_sample x g) (m + 1) rest I' Ln) as (p2 & E2 & Ln2 & I2); [done| |done|].
  { unfold with_samples, with_sample in *. simpl in *. by rewrite <-app_assoc. }
  exists p2. rewrite zlength_cons. replace (m + (1 + zlength ss)) with (m + 1 + zlength ss) by lia.
  split; [|split; [done|]; unfold with_samples, with_sample in *; simpl in *; by rewrite <-app_assoc in I2].
  rewrite <-E2. cbn [map fed app]. apply read_lines_step. rewrite Et.
  destruct (sample_line_shape (format_ (begin_line (m + 1) p)) (P.s_name x) Lb (R.s_value s) (P.s_value x) Hn Fl Hv) as [Nm Sh].
  eapply read_line_shape; [by rewrite Nm|apply R1|]. rewrite read_shaped_sample; [done| |apply R1|done]. rewrite Bd, <-Et. exact Sx.
Qed.
End Run.

(** ** The text of metadata lines *)

Definition solid (w : cppstring) : Prop := w <> [] /\ Forall (fun c => is_blank c = false /\ c <> c_return /\ c <> c_newline) w.

Lemma solid_text w : solid w -> no_break (str " " ++ w) /\ rtrim (str " " ++ w) = str " " ++ w /\ skip_blanks (str " " ++ w) = w /\ token w = (w, []).
Proof.
  intros [Nw F]. split_and!.
  - apply no_break_app. split; [by repeat constructor|]. eapply Forall_impl; [exact F|]. naive_solver.
  - destruct w as [|x w _] using rev_ind; [done|]. rewrite app_assoc. apply rtrim_snoc. apply Forall_app in F as [_ F]. by apply Forall_cons in F as [[? _] _].
  - destruct w as [|x w]; [done|]. change (str " " ++ x :: w) with (" "%char :: x :: w). cbn [skip_blanks]. change (is_blank " "%char) with true. cbn iota.
    apply Forall_cons in F as [[B _] _]. by rewrite B.
  - by apply value_token.
Qed.

Lemma meta_text_word f kw n w t : metadata_word kw -> name_ok n -> solid w -> kw <> str "HELP" ->
  (kw = str "TYPE" -> parse_type w f = Some t) -> (kw = str "UNIT" -> t = unknown) -> meta_text f kw n (str " " ++ w) w t.
Proof.
  intros K Hn Sw Nh Ht Hu. destruct (solid_text w Sw) as (T1 & T2 & T3 & T4). constructor; try done; rewrite T2.
  - right. by exists " "%char, w.
  - rewrite T3. unfold read_payload. destruct K as [->|[->| ->]]; [done|..]; simpl is_word; cbn iota.
    + change (is_word (str "TYPE") (str "HELP")) with false. cbn iota. rewrite T4. cbn [skip_blanks done negb].
      change (is_word (str "TYPE") (str "TYPE")) with true. cbn iota. by rewrite Ht.
    + change (is_word (str "UNIT") (str "HELP")) with false. cbn iota. rewrite T4. cbn [skip_blanks done negb].
      change (is_word (str "UNIT") (str "TYPE")) with false. cbn iota. by rewrite Hu.
Qed.

Lemma meta_text_help f n h : name_ok n -> meta_text f (str "HELP") n (str " " ++ escape_help h) (trim_blanks (escape_help h)) unknown.
Proof.
  intros Hn. constructor; try done; [by left|apply no_break_app; split; [by repeat constructor|apply no_break_escape_help]|apply rtrim_after|].
  rewrite skip_rtrim. change (str " " ++ escape_help h) with (" "%char :: escape_help h). cbn [skip_blanks].
  change (is_blank " "%char) with true. cbn iota. by rewrite trim_blanks_eq.
Qed.

(** ** Reading back a family *)

Definition fmt_of (d : dialect) : format := match d with om_1_0 => openmetrics_1_0 | text_0_0_4 => prometheus_text_0_0_4 end.
Definition ptype (t : metric_type) (d : dialect) : family_type :=
  match t with
  | t_counter => counter | t_unknown => unknown | t_summary => summary | t_histogram => histogram
  | t_info => match d with om_1_0 => info | text_0_0_4 => gauge end
  | t_gauge | t_none => gauge
  end.
Lemma parse_type_word t d : parse_type (type_word t d) (fmt_of d) = Some (ptype t d) /\ solid (type_word t d).
Proof. destruct t, d; (split; [reflexivity|split; [done|by repeat constructor]]). Qed.

(** The family the exposition shows for a collected one. *)
Definition family_shows (d : dialect) (F : R.family) (G : P.family) : Prop :=
  f_name G = described F d /\ name_ok (f_name G) /\ f_type G = ptype (type F) d /\ f_help G = trim_blanks (drop_returns (help F)) /\
  f_unit G = unit F /\ Forall (fun c => is_label_char c = true) (unit F) /\
  Forall2 (sample_shows (name F)) (samples F) (f_samples G) /\
  Forall (fun x => owns_name (fmt_of d) G (P.s_name x) = true) (f_samples G).

Lemma unit_solid u : Forall (fun c => is_label_char c = true) u -> u <> [] -> solid u.
Proof.
  intros F N. split; [done|]. eapply Forall_impl; [exact F|]. intros c H. apply label_char_name, name_char_solid in H. naive_solver.
Qed.

Section Family.
Context (d : dialect) (b : limits) (Hb : limits_wf b).
Let f := fmt_of d.

Definition unit_lines (F : R.family) : list cppstring := match unit F with [] => [] | u => [str "# UNIT " ++ described F d ++ str " " ++ u] end.

Lemma fed_app l k : fed (l ++ k) = fed l ++ fed k.
Proof. apply map_app. Qed.
Lemma zlength_map {A B} (h : A -> B) l : zlength (map h l) = zlength l.
Proof. unfold zlength. by rewrite length_map. Qed.
Lemma zlength_one {A} (x : A) : zlength [x] = 1.
Proof. done. Qed.

(** The lines after [# TYPE]. *)
Lemma run_tail p before g st F G m rest : inside f b p before g st -> line_number p = m -> family_shows d F G ->
  f_name g = f_name G -> f_type g = f_type G -> f_help g = f_help G -> f_unit g = [] -> f_samples g = [] -> st_unit st = false ->
  within_limits b (before ++ [G]) ->
  Forall (short_line b) (unit_lines F) -> Forall (fun s => short_line b (sample_text (name F) s)) (samples F) ->
  let ls := unit_lines F ++ map (sample_text (name F)) (samples F) in
  exists p', read_lines m (fed ls ++ rest) p = read_lines (m + zlength ls) rest p' /\ line_number p' = m + zlength ls /\ ready f b p' (before ++ [G]).
Proof.
  intros I Em (E1 & Hn & E2 & E3 & E4 & Fu & F2 & Ow) En Et Eh Eu Es Su Lm Sl Ss.
  assert (forall p1 g1 st1 m1, inside f b p1 before g1 st1 -> line_number p1 = m1 -> f_name g1 = f_name G -> f_type g1 = f_type G ->
    f_help g1 = f_help G -> f_unit g1 = f_unit G -> f_samples g1 = [] ->
    exists p', read_lines m1 (fed (map (sample_text (name F)) (samples F)) ++ rest) p1 = read_lines (m1 + zlength (samples F)) rest p' /\
      line_number p' = m1 + zlength (samples F) /\ ready f b p' (before ++ [G])) as SM.
  { intros p1 g1 st1 m1 I1 Em1 N1 T1 H1 U1 S1.
    assert (with_samples (f_samples G) g1 = G) as EG by (unfold with_samples; rewrite N1, T1, H1, U1, S1; by destruct G).
    destruct (run_samples f b Hb before st1 (name F) _ _ F2 p1 g1 m1 rest I1 Em1) as (p' & Ep & Ln & I'); [|by rewrite EG|done|].
    - eapply Forall_impl; [exact Ow|]. intros x. unfold owns_name. by rewrite N1, T1.
    - exists p'. rewrite EG in I'. split_and!; try done. apply I'. }
  unfold unit_lines in *. destruct (unit F) as [|u0 u] eqn:EuF.
  - simpl app. cbv zeta. rewrite zlength_map. apply (SM p g st m); try done. congruence.
  - destruct (line_more f b p before g st m (str "UNIT") (str " " ++ u0 :: u) (u0 :: u) unknown
      (fed (map (sample_text (name F)) (samples F)) ++ rest) I Em Es) as (p1 & Ep & Ln & I1); try done.
    + rewrite En. apply meta_text_word; try done; [by right; right|]. by apply unit_solid.
    + apply Forall_cons in Sl as [Sl _]. by rewrite En, E1.
    + destruct (SM p1 _ _ (m + 1) I1 Ln) as (p2 & Ep2 & Ln2 & R2); try done.
      exists p2. cbv zeta. rewrite zlength_app, zlength_one, zlength_map.
      replace (m + (1 + zlength (samples F))) with (m + 1 + zlength (samples F)) by lia. split; [|done].
      rewrite fed_app, <-app_assoc, <-Ep2, <-Ep. unfold meta_line. by rewrite En, E1.
Qed.

Lemma line_eq kw n e : meta_line kw n (str " " ++ e) = str "# " ++ kw ++ str " " ++ n ++ str " " ++ e.
Proof. done. Qed.

Lemma run_family p before F G m rest : ready f b p before -> line_number p = m -> family_shows d F G ->
  fresh_name f (f_name G) before -> claims_nothing f (f_name G) (f_type G) before -> within_limits b (before ++ [G]) ->
  Forall (short_line b) (family_lines d F) ->
  exists p', read_lines m (fed (family_lines d F) ++ rest) p = read_lines (m + zlength (family_lines d F)) rest p' /\
    line_number p' = m + zlength (family_lines d F) /\ ready f b p' (before ++ [G]).
Proof.
  intros R Em Sh Fr Cl Lm Sl. pose proof Sh as (E1 & Hn & E2 & E3 & E4 & Fu & F2 & Ow). destruct (parse_type_word (type F) d) as [Pt Sw].
  assert (within (max_families b) (zlength before + 1)) as Rm.
  { destruct Lm as [L1 _]. by rewrite zlength_app, zlength_one in L1. }
  set (tail_ := unit_lines F ++ map (sample_text (name F)) (samples F)).
  set (tline := meta_line (str "TYPE") (f_name G) (str " " ++ type_word (type F) d)).
  assert (meta_text f (str "TYPE") (f_name G) (str " " ++ type_word (type F) d) (type_word (type F) d) (ptype (type F) d)) as MT.
  { apply meta_text_word; try done. by right; left. }
  assert (family_lines d F = match help F with [] => [] | h => [meta_line (str "HELP") (f_name G) (str " " ++ escape_help h)] end ++ tline :: tail_) as EL.
  { unfold family_lines, tline. rewrite !line_eq, E1. by destruct (help F). }
  rewrite EL in *. apply Forall_app in Sl as [Sh0 Sl]. apply Forall_cons in Sl as [Slt Sl]. apply Forall_app in Sl as [Slu Sls].
  assert (Forall (fun s => short_line b (sample_text (name F) s)) (samples F)) as Sls' by (exact (proj1 (List.Forall_map _ _ _) Sls)).
  destruct (help F) as [|h0 h] eqn:EhF.
  - destruct (line_open f b p before (f_name G) m (str "TYPE") (str " " ++ type_word (type F) d) (type_word (type F) d) (ptype (type F) d)
      (fed tail_ ++ rest) R Em) as (p1 & Ep & Ln & I1); try done; [intros _; by rewrite <-E2|].
    destruct (run_tail p1 before _ _ F G (m + 1) rest I1 Ln Sh) as (p2 & Ep2 & Ln2 & R2); try done.
    exists p2. fold tail_ in Ep2, Ln2. rewrite app_nil_l, zlength_cons, Z.add_assoc. split; [|done]. rewrite <-Ep2, <-Ep. done.
  - destruct (line_open f b p before (f_name G) m (str "HELP") (str " " ++ escape_help (h0 :: h)) (trim_blanks (escape_help (h0 :: h))) unknown
      (fed (tline :: tail_) ++ rest) R Em) as (p1 & Ep & Ln & I1); try done; [by apply meta_text_help|by apply Forall_cons in Sh0 as [? _]|].
    destruct (line_more f b p1 before _ _ (m + 1) (str "TYPE") (str " " ++ type_word (type F) d) (type_word (type F) d) (ptype (type F) d)
      (fed tail_ ++ rest) I1 Ln) as (p2 & Ep2 & Ln2 & I2); try done; [intros _; simpl; by rewrite <-E2|].
    destruct (run_tail p2 before _ _ F G (m + 1 + 1) rest I2 Ln2 Sh) as (p3 & Ep3 & Ln3 & R3); try done.
    { simpl. by rewrite help_roundtrip, E3. }
    exists p3. fold tail_ in Ep3, Ln3. rewrite zlength_app, zlength_one, zlength_cons.
    replace (m + (1 + (1 + zlength tail_))) with (m + 1 + 1 + zlength tail_) by lia. split; [|done]. rewrite <-Ep3, <-Ep2.
    change (fed (?x ++ ?y)) with (map (fun l : cppstring => (l, true)) (x ++ y)). exact Ep.
Qed.
End Family.

(** ** Reading back a document *)

(** No family's name is another's, or a sample of another. *)
Definition apart (f : format) (gs : list P.family) : Prop :=
  forall i j g h, gs !! i = Some g -> gs !! j = Some h -> i <> j -> f_name g <> f_name h /\ owns_name f g (f_name h) = false.

Lemma apart_before f before g rest : apart f (before ++ g :: rest) ->
  fresh_name f (f_name g) before /\ claims_nothing f (f_name g) (f_type g) before.
Proof.
  intros A. assert (forall i h, before !! i = Some h -> (before ++ g :: rest) !! i = Some h /\ i <> length before) as K.
  { intros i h H. pose proof (lookup_lt_Some _ _ _ H). split; [by apply lookup_app_l_Some|lia]. }
  assert ((before ++ g :: rest) !! length before = Some g) as Hg by (by apply list_lookup_middle).
  split; apply Forall_lookup; intros i h H; destruct (K i h H) as [Hi Ni].
  - by apply (A i (length before)).
  - intros s Os E. destruct (A (length before) i g h Hg Hi ltac:(lia)) as [_ O]. rewrite (proj2 (owns_name_iff f g (f_name h))) in O by eauto. done.
Qed.

Lemma within_limits_prefix b gs hs : within_limits b (gs ++ hs) -> within_limits b gs.
Proof.
  intros (L1 & L2 & L3 & L4). unfold sample_total, label_total in *. rewrite zlength_app in L1. rewrite sum_list_with_app in L2, L3.
  apply Forall_app in L4 as [L4 _]. pose proof (zlength_nonneg hs).
  split_and!; [eapply within_less; [exact L1|lia]|eapply within_less; [exact L2|unfold sample_total; lia]|eapply within_less; [exact L3|unfold label_total; lia]|done].
Qed.

Section Document.
Context (d : dialect) (b : limits) (Hb : limits_wf b).
Let f := fmt_of d.

Lemma run_families Fs Gs : Forall2 (family_shows d) Fs Gs -> forall p before m rest, ready f b p before -> line_number p = m ->
  apart f (before ++ Gs) -> within_limits b (before ++ Gs) -> Forall (short_line b) (concat (map (family_lines d) Fs)) ->
  let ls := concat (map (family_lines d) Fs) in
  exists p', read_lines m (fed ls ++ rest) p = read_lines (m + zlength ls) rest p' /\ line_number p' = m + zlength ls /\ ready f b p' (before ++ Gs).
Proof.
  induction 1 as [|F G Fs Gs Sh F2 IH]; intros p before m rest R Em A Lm Sl; cbn [map concat] in *.
  { exists p. rewrite app_nil_r. change (zlength []) with 0. by rewrite Z.add_0_r. }
  apply Forall_app in Sl as [S1 S2]. destruct (apart_before f before G Gs A) as [Fr Cl].
  destruct (run_family d b Hb p before F G m (fed (concat (map (family_lines d) Fs)) ++ rest) R Em Sh Fr Cl) as (p1 & E1 & Ln1 & R1); [|done|].
  { apply (within_limits_prefix b (before ++ [G]) Gs). by rewrite <-app_assoc. }
  destruct (IH p1 (before ++ [G]) _ rest R1 Ln1) as (p2 & E2 & Ln2 & R2); [by rewrite <-app_assoc..|done|].
  exists p2. rewrite zlength_app, Z.add_assoc, fed_app, <-app_assoc, E1, E2. rewrite <-app_assoc in R2. done.
Qed.

(** The lines of a body are the lines it was put together from. *)
Lemma lines_of_line l rest : c_newline ∉ l -> lines_of (l ++ c_newline :: rest) = (l, true) :: lines_of rest.
Proof.
  induction l as [|c l IH]; intros Hn; [done|]. apply not_elem_of_cons in Hn as [Nc Hn]. cbn [app lines_of].
  rewrite bool_decide_eq_false_2 by congruence. by rewrite IH.
Qed.
Lemma lines_of_lines ls : Forall (fun l => no_break l) ls -> lines_of (concat (map R.line ls)) = fed ls.
Proof.
  induction 1 as [|l ls H F IH]; [done|]. cbn [map concat fed]. unfold R.line at 1. rewrite <-app_assoc. cbn [app].
  rewrite lines_of_line; [by rewrite IH|]. intros Hin. unfold no_break in H. rewrite Forall_forall in H. by destruct (H _ Hin).
Qed.

Lemma no_break_word kw : metadata_word kw -> no_break kw.
Proof. intros [->|[->| ->]]; by repeat constructor. Qed.
Lemma solid_no_break w : solid w -> no_break w.
Proof. intros [_ F]. eapply Forall_impl; [exact F|]. naive_solver. Qed.

Lemma family_lines_no_break F G : family_shows d F G -> Forall (fun l => no_break l) (family_lines d F).
Proof.
  intros (E1 & Hn & E2 & E3 & E4 & Fu & F2 & Ow). rewrite E1 in Hn. pose proof (no_break_name _ (proj2 Hn)) as Nn.
  assert (no_break (str " ")) as Nb by (by repeat constructor).
  unfold family_lines. rewrite !Forall_app. split_and!.
  - destruct (help F); constructor; [|constructor]. rewrite !no_break_app. split_and!; [by repeat constructor|done|done|apply no_break_escape_help].
  - constructor; [|constructor]. rewrite !no_break_app. split_and!; [by repeat constructor|done|done|apply solid_no_break, parse_type_word].
  - destruct (unit F) eqn:U; constructor; [|constructor]. rewrite !no_break_app. split_and!; [by repeat constructor|done|done|by apply no_break_name].
  - apply List.Forall_map. eapply Forall2_Forall_l; [exact F2|].
    apply Forall_forall. intros x _ s (En & Hx & _ & Hv & L & El & Fl & _). rewrite app_assoc, <-En, El, !no_break_app.
    split_and!; [by apply no_break_name, Hx|by apply no_break_render_labels|done|]. apply solid_no_break. destruct Hv as (_ & Nv & Fv). done.
Qed.

Lemma finish_ready p gs : ready f b p gs -> out (finish p) = out p.
Proof.
  intros [L _ E B Ef]. unfold finish. rewrite B. cbn [andb]. destruct (current p) as [i|] eqn:C; [|done].
  unfold block_open in B. rewrite C in B. rewrite (live_going _ _ _ L), B. done.
Qed.

Definition eof_line : cppstring := str "# EOF".
Definition doc_lines (c : R.family_set) : list cppstring := concat (map (family_lines d) (R.families c)) ++ [eof_line].

(** What the parser says of a document. *)
Definition reads_as (r : om_result) (gs : list P.family) : Prop :=
  P.families r = gs /\ sample_count r = sample_total gs /\ saw_eof r = bool_decide (d = om_1_0) /\ error r = [].

(** The last line: the end of an OpenMetrics document, a comment in the older format. *)
Lemma run_eof p gs m : ready f b p gs -> line_number p = m -> short_line b eof_line ->
  reads_as (out (finish (read_lines m (fed [eof_line]) p))) gs.
Proof.
  intros R Em Sl. pose proof (ready_begin f b p gs m R Em) as R1. pose proof R1 as [L1 _ E1 B1 Ef]. pose proof L1 as [W1 NF NE Fm Bd _ _].
  set (q := begin_line (m + 1) p) in *. set (q' := if bool_decide (d = om_1_0) then set_eof q else q).
  assert (read_line q eof_line true = (q', true)) as Rl.
  { eapply read_line_shape; [reflexivity|done|]. unfold read_shaped. rewrite Bd. destruct (negb _ && _) eqn:X; [unfold short_line, within in Sl; breflect; lia|].
    rewrite Fm, E1. subst q' f. by destruct d. }
  cbn [fed map read_lines]. fold q. rewrite Rl.
  assert (out (finish q') = out q') as ->.
  { unfold finish. assert (block_open q' = false) as -> by (subst q'; by case_bool_decide). cbn [andb].
    assert (current q' = current q /\ current_block_failed q' = current_block_failed q /\ state_ q' = state_ q) as (Cq & Ec & Es)
      by (subst q'; by case_bool_decide). rewrite Cq. destruct (current q) as [i|] eqn:C; [|done]. rewrite Ec, NF. unfold state_at. rewrite Es.
    unfold block_open, state_at in B1. rewrite C in B1. by rewrite B1. }
  pose proof (wf_count q W1) as Wc. rewrite Ef in Wc. subst q'. unfold reads_as. case_bool_decide; done.
Qed.

Lemma ready_new : ready f b (new_parser f b) [].
Proof. constructor; try done. by apply live_new. Qed.

Lemma emit_parse (c : R.family_set) (Gs : list P.family) :
  Forall2 (family_shows d) (R.families c) Gs -> apart f Gs -> within_limits b Gs -> Forall (short_line b) (doc_lines c) ->
  reads_as (parse (emit c d) f b) Gs.
Proof.
  intros Sh A Lm Sl. unfold parse. change (emit c d) with (concat (map R.line (doc_lines c))).
  assert (lines_of (concat (map R.line (doc_lines c))) = fed (doc_lines c)) as ->.
  { apply lines_of_lines. apply Forall_app. split; [|repeat constructor; done]. apply Forall_concat. apply List.Forall_map.
    eapply Forall2_Forall_l; [exact Sh|]. apply Forall_forall. intros G _ F HF. by eapply family_lines_no_break. }
  apply Forall_app in Sl as [Sl Se]. apply Forall_cons in Se as [Se _].
  destruct (run_families _ _ Sh (new_parser f b) [] 0 (fed [eof_line]) ready_new eq_refl A Lm Sl) as (p & E & Ln & R).
  unfold doc_lines. rewrite fed_app, E. by apply run_eof.
Qed.
End Document.
