(* ===== verification/OpenMetricsExposition.v ===== *)
(** The exposition of a metrics snapshot: what the walk over the snapshot collects is well
    formed, and the parser reads it back. *)

From stdpp Require Import base list gmap strings.
From Stdlib Require Import Ascii ZArith Lia SpecFloat.
From Stdlib Require String.
From S2P Require Import Prelude Strings Format NumberText NumberRoundtrip OpenMetrics OpenMetricsLaws OpenMetricsRender OpenMetricsRoundtrip.
Import String.StringSyntax.

Local Open Scope Z_scope.

(** ** Names the renderer makes *)

Abbreviation label_chars := (Forall (fun c => is_label_char c = true)).

Lemma legal_label c : legal c = true -> is_label_char c = true.
Proof.
  unfold legal, is_label_char, is_label_start, is_alpha, is_digit, isdigit. intros H. apply orb_prop in H as [->| ->]; [done|]. by rewrite orb_true_r.
Qed.
Lemma collapse_chars s : forall u, label_chars (collapse u s).
Proof.
  induction s as [|c s IH]; intros u; cbn [collapse]; [constructor|]. destruct (legal c) eqn:E; [constructor; [by apply legal_label|done]|].
  destruct u; [done|]. by constructor.
Qed.
Lemma to_grammar_chars s : label_chars (to_grammar s).
Proof. apply collapse_chars. Qed.

Lemma sanitize_name_ok s : name_ok (sanitize_name s).
Proof.
  unfold sanitize_name. pose proof (to_grammar_chars s) as F. destruct (to_grammar s) as [|c r]; [split; [done|by repeat constructor]|].
  destruct (letter c) eqn:E; [by split|]. apply Forall_cons in F as [Fc F].
  assert (forall t, label_chars t -> name_ok (match t with [] => str "metric" | _ => str "metric_" ++ t end)) as K.
  { intros [|x t] Ht; (split; [done|]); [by repeat constructor|]. apply Forall_app. split; [by repeat constructor|done]. }
  apply K. case_bool_decide; [done|by constructor].
Qed.

Lemma skip_underscores_suffix s : exists a, s = a ++ skip_underscores s.
Proof.
  induction s as [|c s [a IH]]; [by exists []|]. cbn [skip_underscores]. case_bool_decide; [|by exists []]. exists (c :: a). simpl. by f_equal.
Qed.
Lemma skip_underscores_chars s : label_chars s -> label_chars (skip_underscores s).
Proof. intros F. destruct (skip_underscores_suffix s) as [a E]. rewrite E in F. by apply Forall_app in F as [_ F]. Qed.
Lemma sanitize_unit_chars s : label_chars (sanitize_unit s).
Proof.
  unfold sanitize_unit. apply List.Forall_rev, skip_underscores_chars, List.Forall_rev, skip_underscores_chars, to_grammar_chars.
Qed.

Lemma with_unit_ok n u : name_ok n -> label_chars u -> name_ok (with_unit n u).
Proof.
  intros Hn Hu. unfold with_unit. destruct u as [|c u]; [done|]. destruct (_ || _); [done|]. apply name_ok_app; [done|].
  apply Forall_app. split; [by repeat constructor|done].
Qed.
Lemma take_name n k : name_ok n -> (0 < k)%nat -> name_ok (take k n).
Proof. intros [H F] Hk. split; [|by apply Forall_take]. destruct n; [done|]. destruct k; [lia|]. exact H. Qed.
Lemma without_type_suffix_ok n t : name_ok n -> name_ok (without_type_suffix n t).
Proof.
  intros Hn. unfold without_type_suffix. destruct (_ || _) eqn:E; [done|]. apply orb_false_elim in E as [_ E]. apply negb_false_iff in E.
  apply take_name; [done|]. unfold OpenMetricsRender.ends_with in E. apply andb_prop in E as [E _]. apply Nat.ltb_lt in E. lia.
Qed.
Lemma family_name_ok trail m : name_ok (family_name trail m).
Proof. apply without_type_suffix_ok, with_unit_ok; [apply sanitize_name_ok|apply sanitize_unit_chars]. Qed.

Lemma dims_of_names m : Forall (fun l => name_ok l.1) (dims_of m).
Proof. unfold dims_of. apply List.Forall_map, Forall_forall. intros x _. apply sanitize_name_ok. Qed.

(** ** Numbers the renderer writes *)

Definition readable (v : cppstring) : Prop := exists x, value_ok v x.

(** Text that [strtod] reads to its end is in the grammar of a number. *)
Lemma strtod_decimal raw w : raw <> [] -> strtod raw = (w, []) -> is_decimal raw = true.
Proof.
  intros Hne. unfold strtod, is_decimal. change is_digit with isdigit. destruct (span isdigit (skip_sign raw)) as [whole r1].
  destruct (read_fraction r1) as [frac r2]. destruct (whole ++ frac) as [|x xs]; [congruence|].
  destruct r2 as [|c r]; [done|]. unfold read_exponent. cbn [front tail]. destruct (_ || _); [|done].
  destruct (span isdigit (skip_sign r)) as [ds r3]. destruct ds; [done|]. by intros [= _ ->].
Qed.
Definition number_char (c : ascii) : bool := isdigit c || is_sign c || bool_decide (c ∈ ["."%char; "e"%char; "E"%char]).
Abbreviation number_chars := (Forall (fun c => number_char c = true)).

Lemma digits_number s : Forall (fun c => isdigit c = true) s -> number_chars s.
Proof. intros F. eapply Forall_impl; [exact F|]. intros c Hc. unfold number_char. by rewrite Hc. Qed.
Lemma skip_sign_number s : number_chars (skip_sign s) -> number_chars s.
Proof.
  destruct s as [|c s]; [done|]. cbn [skip_sign]. destruct (is_sign c) eqn:E; [|done]. intros F. constructor; [|done].
  unfold number_char. rewrite E, orb_true_r. done.
Qed.
Lemma span_number s : number_chars (span isdigit s).2 -> number_chars s.
Proof.
  intros F. pose proof (span_app isdigit s) as E. pose proof (span_all isdigit s) as A. destruct (span isdigit s) as [a b]. subst s.
  apply Forall_app. split; [by apply digits_number|done].
Qed.

Lemma decimal_number raw : is_decimal raw = true -> number_chars raw.
Proof.
  unfold is_decimal. change is_digit with isdigit. intros H. apply skip_sign_number, span_number. destruct (span isdigit (skip_sign raw)) as [whole r1]. cbn [snd].
  assert (number_chars (read_fraction r1).2 -> number_chars r1) as K.
  { unfold read_fraction. destruct r1 as [|c r]; [done|]. case_bool_decide as E; [|done]. intros F. constructor; [by subst|by apply span_number]. }
  apply K. destruct (read_fraction r1) as [frac r2]. cbn [snd]. clear K. destruct (whole ++ frac); [done|].
  destruct r2 as [|c r]; [constructor|]. cbn [front tail] in H. destruct (_ || _) eqn:E; [|done].
  constructor; [apply orb_prop in E as [->%bool_decide_eq_true| ->%bool_decide_eq_true]; done|].
  apply skip_sign_number, span_number. destruct (span isdigit (skip_sign r)) as [ds r3]. cbn [snd]. destruct ds; [done|]. by destruct r3.
Qed.

(** The words for the values that are no numbers have letters no number has. *)
Lemma word_is_no_number raw word c : is_decimal raw = true -> c ∈ word -> (forall x, tolower x = c -> number_char x = false) ->
  equals_word raw word = false.
Proof.
  intros H Hc Hx. unfold equals_word. apply bool_decide_eq_false_2. intros E. rewrite <-E in Hc.
  apply list_elem_of_fmap in Hc as (x & Ex & Hin). pose proof (decimal_number raw H) as F. rewrite Forall_forall in F. specialize (F x Hin).
  rewrite Hx in F; [done|]. by rewrite Ex.
Qed.
Lemma lower_n x : tolower x = "n"%char -> number_char x = false.
Proof. destruct x as [[] [] [] [] [] [] [] []]; vm_compute; done. Qed.

Lemma read_value_number raw w : raw <> [] -> strtod raw = (w, []) -> isfinite w = true -> value_ok raw w.
Proof.
  intros Hne R Fw. pose proof (strtod_decimal raw w Hne R) as D. split; [|split; [done|]].
  - assert (forall word, "n"%char ∈ word -> equals_word raw word = false) as W.
    { intros word Hw. by apply (word_is_no_number raw word "n"%char D Hw), lower_n. }
    unfold read_value. rewrite !W by (vm_compute; set_solver). cbn [orb]. rewrite D. unfold to_double. rewrite R. destruct raw; [done|]. cbn [done andb]. by rewrite Fw.
  - eapply Forall_impl; [by apply decimal_number|]. intros c. destruct c as [[] [] [] [] [] [] [] []]; vm_compute; done.
Qed.

(** Equal as numbers, or both not a number. *)
Definition same_number (x y : double) : Prop := d_eq x y = true \/ isnan x = true /\ isnan y = true.

Lemma render_value_readable v : valid_binary 53 1024 v = true -> exists x, value_ok (render_value v) x /\ same_number x v.
Proof.
  intros Hv. assert (isfinite v = true -> exists x, value_ok (render_shortest v) x /\ same_number x v) as K.
  { intros Hf. destruct (render_shortest_spec v Hv Hf) as (Hne & w & R & Fw & E). exists w. split; [by apply read_value_number|by left]. }
  destruct v as [s|s| |s m e]; [by apply K| | |by apply K].
  - exists (S754_infinity s). split; [|by destruct s; left]. destruct s; (split; [vm_compute; reflexivity|split; [done|by repeat constructor]]).
  - exists (@S754_nan). split; [|by right]. split; [vm_compute; reflexivity|split; [done|by repeat constructor]].
Qed.

(** ** What the walk keeps *)

(** The suffixes the samples of a family carry. *)
Definition written_suffixes (t : metric_type) : list cppstring :=
  match t with
  | t_gauge | t_unknown => [[]] | t_counter => [str "_total"] | t_info => [str "_info"]
  | t_summary => [[]; str "_sum"; str "_count"] | t_histogram => [str "_bucket"; str "_sum"; str "_count"] | t_none => []
  end.
Definition good_labels (r : cppstring) : Prop := exists L, r = render_labels L /\ Forall (fun l => name_ok l.1) L /\ NoDup L.*1.
Definition good_sample (t : metric_type) (s : OpenMetricsRender.sample) : Prop :=
  suffix s ∈ written_suffixes t /\ good_labels (OpenMetricsRender.labels s) /\ readable (OpenMetricsRender.s_value s).
Definition good_family (F : OpenMetricsRender.family) : Prop :=
  name_ok (name F) /\ type F <> t_none /\ label_chars (unit F) /\ Forall (good_sample (type F)) (samples F).
Definition claims (F : OpenMetricsRender.family) : gset cppstring := wanted (name F) (type F) (suffixes_of (type F)).

Record good_set (c : family_set) : Prop := {
  gs_families i F : OpenMetricsRender.families c !! i = Some F -> good_family F;
  gs_index n i : index c !! n = Some i -> exists F, OpenMetricsRender.families c !! i = Some F /\ name F = n;
  gs_claimed i F : OpenMetricsRender.families c !! i = Some F -> claims F ⊆ claimed c;
  gs_apart i j F G : OpenMetricsRender.families c !! i = Some F -> OpenMetricsRender.families c !! j = Some G -> i <> j -> claims F ## claims G }.

Lemma good_empty : good_set empty_set.
Proof. by constructor. Qed.

Lemma open_good n t h u c i c' : good_set c -> name_ok n -> t <> t_none -> label_chars u -> open n t h u (suffixes_of t) c = Some (i, c') ->
  good_set c' /\ exists F, OpenMetricsRender.families c' !! i = Some F /\ type F = t.
Proof.
  intros G Hn Ht Hu H. unfold open in H. destruct (index c !! n) as [k|] eqn:E.
  - destruct (gs_index c G _ _ E) as (F & HF & En). rewrite (nth_lookup_Some _ _ _ _ HF) in H. destruct (_ || _) eqn:X; [done|].
    apply orb_false_elim in X as [X _]. apply negb_false_iff, bool_decide_eq_true in X. injection H as <- <-. eauto.
  - unfold claim in H. case_bool_decide as D; [|done]. injection H as <- <-. simpl. split.
    + constructor; simpl.
      * intros j F [[_ HF]|[-> <-]]%lookup_snoc_Some; [by eapply gs_families|]. by split_and!.
      * intros m j. destruct (decide (m = n)) as [->|Ne]; [rewrite lookup_insert_eq|rewrite lookup_insert_ne by done].
        -- intros [= <-]. eexists. split; [apply lookup_snoc_Some; right; done|done].
        -- intros Hm. destruct (gs_index c G _ _ Hm) as (F & HF & En). exists F. split; [by apply lookup_app_l_Some|done].
      * intros j F [[_ HF]|[-> <-]]%lookup_snoc_Some; [|apply union_subseteq_r].
        etrans; [by eapply gs_claimed|apply union_subseteq_l].
      * rewrite elem_of_disjoint in D.
        assert (forall k F x, OpenMetricsRender.families c !! k = Some F -> x ∈ claims F -> x ∈ wanted n t (suffixes_of t) -> False) as DJ.
        { intros k F x HF Hx Hw. apply (D x Hw). by apply (gs_claimed c G _ _ HF). }
        intros j k F F' [[Lj HF]|[-> <-]]%lookup_snoc_Some [[Lk HF']|[-> <-]]%lookup_snoc_Some N; try done.
        -- by apply (gs_apart c G j k).
        -- apply elem_of_disjoint. intros x. by apply DJ with j.
        -- apply elem_of_disjoint. intros x Hw Hx. by apply (DJ k F' x).
    + eexists. split; [apply lookup_snoc_Some; right; done|done].
Qed.

Lemma update_good i F g c : good_set c -> OpenMetricsRender.families c !! i = Some F ->
  name (g F) = name F -> type (g F) = type F -> unit (g F) = unit F -> Forall (good_sample (type F)) (samples (g F)) -> good_set (update i g c).
Proof.
  intros G HF En Et Eu Fs. assert (claims (g F) = claims F) as Ec by (unfold claims; by rewrite En, Et).
  assert (forall j H, alter g i (OpenMetricsRender.families c) !! j = Some H -> exists H0, OpenMetricsRender.families c !! j = Some H0 /\ claims H = claims H0 /\ good_family H /\ name H = name H0) as K.
  { intros j H. rewrite (alter_insert _ _ _ _ HF). intros [[<- ->]|[N Hj]]%lookup_insert_inv.
    - exists F. split_and!; try done. destruct (gs_families c G _ _ HF) as (? & ? & ? & _). unfold good_family. rewrite En, Et, Eu. done.
    - exists H. split_and!; try done. by eapply gs_families. }
  constructor; simpl.
  - intros j H HH. by destruct (K j H HH) as (_ & _ & _ & ? & _).
  - intros n j Hn. destruct (gs_index c G _ _ Hn) as (H & HH & Enm). rewrite (alter_insert _ _ _ _ HF).
    destruct (decide (i = j)) as [->|N].
    + exists (g F). rewrite list_lookup_insert_eq by (by eapply lookup_lt_Some). simplify_eq. by rewrite En.
    + exists H. by rewrite list_lookup_insert_ne.
  - intros j H HH. destruct (K j H HH) as (H0 & HH0 & -> & _). by eapply gs_claimed.
  - intros j k H H' HH HH' N. destruct (K j H HH) as (H0 & HH0 & -> & _), (K k H' HH') as (H1 & HH1 & -> & _). by apply (gs_apart c G j k).
Qed.

(** ** What a snapshot has to offer

    The dimensions of a metric have distinct label names and leave the names of the format
    alone; its numbers are doubles, and its counts 64-bit numbers. *)

Definition free_label (n : cppstring) (m : Metric) : Prop := n ∉ (dims_of m).*1.
Definition value_readable (m : Metric) : Prop :=
  match value m with
  | gauge_value x | counter_value x | untyped_value x => readable (render_value x)
  | summary_value s => free_label (str "quantile") m /\ Forall (fun q => readable (render_value (q_value q))) (sum_quantile s) /\
                       readable (render_value (sum_sum s)) /\ readable (render_count (sum_count s))
  | histogram_value h => free_label (str "le") m /\ Forall (fun k => readable (render_count (cumulative_count k))) (his_bucket h) /\
                         readable (render_value (his_sum h)) /\ readable (render_count (his_count h))
  | string_value _ | no_value => True
  end.
Definition metric_readable (m : Metric) : Prop := NoDup (dims_of m).*1 /\ value_readable m.

Definition is_double (v : double) : Prop := valid_binary 53 1024 v = true.
Definition value_good (m : Metric) : Prop :=
  match value m with
  | gauge_value x | counter_value x | untyped_value x => is_double x
  | summary_value s => free_label (str "quantile") m /\ Forall (fun q => is_double (q_value q)) (sum_quantile s) /\ is_double (sum_sum s) /\ in_u 64 (sum_count s)
  | histogram_value h => free_label (str "le") m /\ Forall (fun k => in_u 64 (cumulative_count k)) (his_bucket h) /\ is_double (his_sum h) /\ in_u 64 (his_count h)
  | string_value _ | no_value => True
  end.
Definition metric_good (m : Metric) : Prop := NoDup (dims_of m).*1 /\ value_good m.

Lemma double_readable v : is_double v -> readable (render_value v).
Proof. intros Hv. destruct (render_value_readable v Hv) as (x & Hx & _). by exists x. Qed.
Lemma count_readable n : in_u 64 n -> readable (render_count n).
Proof.
  intros Hn. apply double_readable, to_double_valid. unfold in_u in Hn. assert (2 ^ 64 <= 2 ^ 1000) by (vm_compute; discriminate). lia.
Qed.
Lemma metric_good_readable m : metric_good m -> metric_readable m.
Proof.
  intros [N V]. split; [done|]. unfold value_good in V. unfold value_readable. destruct (value m); try done; try by apply double_readable.
  all: destruct V as (V1 & V2 & V3 & V4); split_and!; [done| |by apply double_readable|by apply count_readable].
  - eapply Forall_impl; [exact V2|]. intros q. apply double_readable.
  - eapply Forall_impl; [exact V2|]. intros k. apply count_readable.
Qed.

Fixpoint bundle_metrics (b : MetricsBundle) : list Metric :=
  match b with mkMetrics _ _ values children => values ++ concat (map bundle_metrics children) end.
Definition message_metrics (msg : MetricsMessage) : list Metric := concat (map bundle_metrics (concat msg)).

Lemma good_labels_dims m : NoDup (dims_of m).*1 -> good_labels (render_labels (dims_of m)).
Proof. intros N. exists (dims_of m). split_and!; [done|apply dims_of_names|done]. Qed.
Lemma good_labels_more m n v : NoDup (dims_of m).*1 -> free_label n m -> name_ok n -> good_labels (render_labels (dims_of m ++ [(n, v)])).
Proof.
  intros N Fr Hn. exists (dims_of m ++ [(n, v)]). split_and!; [done| |].
  - apply Forall_app. split; [apply dims_of_names|by apply Forall_singleton].
  - rewrite fmap_app. apply NoDup_app. split; [done|]. split; [|apply NoDup_singleton]. intros x Hx ->%list_elem_of_singleton. done.
Qed.

Lemma samples_good m : metric_readable m -> Forall (good_sample (type_of m)) (samples_of m (dims_of m) (render_labels (dims_of m))).
Proof.
  intros [N V]. pose proof (good_labels_dims m N) as Gl. unfold value_readable in V. unfold samples_of, type_of.
  destruct (value m) as [|x|x|x|x|s|h]; try constructor; try (by constructor).
  - split_and!; [apply list_elem_of_singleton|..]; done.
  - split_and!; [apply list_elem_of_singleton|..]; done.
  - split_and!; [apply list_elem_of_singleton|..]; done.
  - destruct V as (Fr & Vq & V1 & V2). apply Forall_app. split.
    + apply List.Forall_map. eapply Forall_impl; [exact Vq|]. intros q Hq. split_and!; [by left| |done].
      apply good_labels_more; [done|done|]. split; [done|by repeat constructor].
    + repeat constructor; try done; simpl; set_solver.
  - destruct V as (Fr & Vb & V1 & V2). apply Forall_app. split.
    + apply List.Forall_map. eapply Forall_impl; [exact Vb|]. intros q Hq. split_and!; [by left| |done].
      apply good_labels_more; [done|done|]. split; [done|by repeat constructor].
    + repeat constructor; try done; simpl; set_solver.
Qed.

Lemma add_metric_readable trail bd m c ps : metric_readable m -> type_of m <> t_none -> good_set c -> good_set (add_metric trail bd m c ps).1.
Proof.
  intros Hm Ht G. unfold add_metric. destruct (open _ _ _ _ _ _) as [[i c']|] eqn:E; [|done].
  apply open_good in E as (G' & F & HF & Et); [|done|apply family_name_ok|done|apply sanitize_unit_chars].
  destruct (negb _); [done|]. simpl. apply (update_good i F); try done. simpl. apply Forall_app. split.
  - by destruct (gs_families c' G' _ _ HF) as (_ & _ & _ & ?).
  - rewrite Et. by apply samples_good.
Qed.

(** The info series of a bundle have distinct labels. *)
Definition good_info (i : info_series) : Prop := Forall (fun l => name_ok l.1) (i_labels i) /\ NoDup (i_labels i).*1.

Lemma has_label_false ls n : has_label ls n = false -> n ∉ ls.*1.
Proof.
  induction ls as [|l ls IH]; simpl; [set_solver|]. intros [H1 H2]%orb_false_elim. apply bool_decide_eq_false in H1. apply IH in H2.
  rewrite not_elem_of_cons. split; [congruence|done].
Qed.
Lemma extend_info_good n v h i : good_info i -> name_ok n -> good_info (extend_info n v h i).1.
Proof.
  intros [F N] Hn. unfold extend_info. destruct (has_label _ _) eqn:E; [done|]. split; simpl.
  - apply Forall_app. split; [done|by apply Forall_singleton].
  - rewrite fmap_app. apply NoDup_app. split; [done|]. split; [|apply NoDup_singleton]. intros x Hx ->%list_elem_of_singleton. by apply (has_label_false _ _ E).
Qed.
Lemma add_info_good info ds n v h : Forall good_info info -> Forall (fun l => name_ok l.1) ds -> NoDup ds.*1 -> name_ok n ->
  Forall good_info (add_info info ds n v h).1.
Proof.
  intros Fi Fd Nd Hn. induction Fi as [|i info Hi Fi IH]; cbn [add_info].
  - pose proof (extend_info_good n v h (mkInfo (key_of_dims ds) ds h) ltac:(done) Hn) as K. destruct (extend_info _ _ _ _). by apply Forall_singleton.
  - case_bool_decide.
    + pose proof (extend_info_good n v h i Hi Hn) as K. destruct (extend_info n v h i). by constructor.
    + destruct (add_info info ds n v h). by constructor.
Qed.

Lemma walk_metric_readable trail bd w m : metric_readable m -> Forall good_info (w_info w) -> good_set (w_out w) ->
  Forall good_info (w_info (walk_metric trail bd w m)) /\ good_set (w_out (walk_metric trail bd w m)).
Proof.
  intros Hm Fi G. unfold walk_metric.
  assert (type_of m <> t_none -> let '(out, ps) := add_metric trail bd m (w_out w) (w_problems w) in
    Forall good_info (w_info (mkWalk (w_info w) out ps)) /\ good_set (w_out (mkWalk (w_info w) out ps))) as K.
  { intros Ht. pose proof (add_metric_readable trail bd m (w_out w) (w_problems w) Hm Ht G). by destruct (add_metric _ _ _ _ _). }
  destruct (value m) as [|x|x|x|x|s|h] eqn:Ev; try done; try (specialize (K ltac:(unfold type_of; by rewrite Ev)); by destruct (add_metric _ _ _ _ _)).
  pose proof (add_info_good (w_info w) (dims_of m) (sanitize_name (leaf m)) x (help_of bd m) Fi (dims_of_names m) (proj1 Hm) (sanitize_name_ok _)) as Ki.
  by destruct (add_info _ _ _ _ _).
Qed.

Lemma one_readable : readable (str "1").
Proof. exists (Format.to_double 1). split; [vm_compute; reflexivity|]. split; [done|by repeat constructor]. Qed.

Lemma add_info_series_good i l : forall c F, Forall good_info l -> good_set c -> OpenMetricsRender.families c !! i = Some F -> type F = t_info ->
  good_set (fold_left (add_info_series i) l c).
Proof.
  induction l as [|x l IH]; intros c F Fl G HF Et; [done|]. apply Forall_cons in Fl as [[Fx Nx] Fl]. cbn [fold_left]. unfold add_info_series at 2.
  destruct (new_series _ _ _); [|by eapply IH].
  set (g := fun f => add_samples (info_sample (render_labels (i_labels x))) (add_series (render_labels (i_labels x)) f)).
  assert (good_set (update i g c)) as G'.
  { apply (update_good i F); try done. simpl. apply Forall_app. split; [by destruct (gs_families c G _ _ HF) as (_ & _ & _ & ?)|].
    rewrite Et. apply Forall_singleton. split_and!; [by apply list_elem_of_singleton|by exists (i_labels x)|apply one_readable]. }
  eapply IH; [done|done| |].
  - simpl. rewrite (alter_insert _ _ _ _ HF). apply list_lookup_insert_eq. by eapply lookup_lt_Some.
  - done.
Qed.

Lemma close_info_good trail w : Forall good_info (w_info w) -> good_set (w_out w) -> good_set (close_info trail w).1.
Proof.
  intros Fi G. unfold close_info. destruct (w_info w) as [|i l] eqn:E; [done|]. destruct (open _ _ _ _ _ _) as [[k c]|] eqn:O; [|done].
  apply open_good in O as (G' & F & HF & Et); [|done|apply sanitize_name_ok|done|done]. simpl.
  change (good_set (fold_left (add_info_series k) (i :: l) c)). by eapply add_info_series_good.
Qed.

Lemma collect_good : forall b trail acc, Forall metric_readable (bundle_metrics b) -> good_set acc.1 -> good_set (collect b trail acc).1.
Proof.
  fix IH 1. intros [k bd values children] trail acc F G. cbn [bundle_metrics] in F. apply Forall_app in F as [Fv Fc]. cbn [collect].
  set (step := fun a c => collect c (trail ++ str "_" ++ b_key c) a).
  assert (good_set (fold_left step children acc).1) as Gc.
  { clear Fv. revert acc G Fc. induction children as [|c children IHc]; intros acc G Fc; [done|]. cbn [map concat] in Fc. apply Forall_app in Fc as [F1 F2].
    cbn [fold_left]. apply IHc; [|done]. by apply IH. }
  destruct (fold_left step children acc) as [out ps]. apply close_info_good.
  all: assert (Forall good_info (w_info (fold_left (walk_metric trail bd) values (mkWalk [] out ps))) /\
               good_set (w_out (fold_left (walk_metric trail bd) values (mkWalk [] out ps)))) as [? ?]; [|done].
  all: assert (forall w, Forall good_info (w_info w) -> good_set (w_out w) ->
         Forall good_info (w_info (fold_left (walk_metric trail bd) values w)) /\ good_set (w_out (fold_left (walk_metric trail bd) values w))) as K;
       [|by apply K].
  all: clear Fc Gc; induction Fv as [|m values Hm Fv IHv]; intros w W1 W2; [done|]; cbn [fold_left];
       destruct (walk_metric_readable trail bd w m Hm W1 W2); by apply IHv.
Qed.

Lemma collect_snapshot_good msg ps : Forall metric_readable (message_metrics msg) -> good_set (collect_snapshot msg ps).1.
Proof.
  unfold collect_snapshot, message_metrics. intros F. assert (forall acc, good_set acc.1 ->
    good_set (fold_left (fun acc bundle => collect bundle (b_key bundle) acc) (concat msg) acc).1) as K; [|apply K, good_empty].
  induction (concat msg) as [|b bs IH]; intros acc G; [done|]. cbn [map concat] in F. apply Forall_app in F as [F1 F2]. cbn [fold_left].
  apply IH; [done|]. by apply collect_good.
Qed.

(** ** Reading the exposition back *)

Lemma sample_is_shown t n s : name_ok n -> good_sample t s -> exists x, sample_shows n s x /\ OpenMetrics.s_name x = n ++ suffix s.
Proof.
  intros Hn (Hs & (L & El & Fl & ND) & (v & Hv)). exists (OpenMetrics.mkSample (n ++ suffix s) (read_labels_of L) v None). split; [|done].
  split_and!; try done; [|by exists L]. simpl. apply name_ok_app; [done|].
  assert (Forall (fun x => label_chars x) (written_suffixes t)) as F by (destruct t; by repeat constructor).
  rewrite Forall_forall in F. by apply F.
Qed.

(** A family owns the samples that are written for it, in both dialects. *)
Lemma written_owned d t n s : s ∈ written_suffixes t ->
  exists r, n ++ s = (n ++ metadata_suffix t d) ++ r /\ owns_suffix (fmt_of d) (ptype t d) r = true.
Proof.
  intros H. apply list_elem_of_In in H.
  destruct d; [exists s; simpl metadata_suffix; rewrite app_nil_r|exists (match t with t_counter | t_info => [] | _ => s end)];
    (split; [destruct t; simpl in H |- *; rewrite ?app_nil_r; naive_solver|]);
    destruct t; simpl in H; repeat (destruct H as [<-|H]; [reflexivity|]); done.
Qed.

Lemma family_is_shown d F : good_family F -> exists G, family_shows d F G.
Proof.
  intros (Hn & Ht & Hu & Fs).
  assert (name_ok (described F d)) as Hd.
  { apply name_ok_app; [done|]. unfold metadata_suffix, sample_suffix. destruct d, (type F); by repeat constructor. }
  assert (exists xs, Forall2 (fun s x => sample_shows (name F) s x /\ OpenMetrics.s_name x = name F ++ suffix s /\ suffix s ∈ written_suffixes (type F)) (samples F) xs) as [xs F2].
  { induction Fs as [|s l Hs Fs IH]; [by exists []|]. destruct IH as [xs IH]. destruct (sample_is_shown _ _ _ Hn Hs) as (x & Hx & Ex).
    exists (x :: xs). constructor; [|done]. split_and!; try done. apply Hs. }
  exists (OpenMetrics.mkFamily (described F d) (ptype (type F) d) (trim_blanks (drop_returns (help F))) (unit F) xs). split_and!; try done.
  - simpl. eapply Forall2_impl; [exact F2|]. naive_solver.
  - eapply Forall2_Forall_r; [exact F2|]. apply Forall_forall. intros s _ x (_ & -> & Hw). apply owns_name_iff. simpl.
    apply (written_owned d (type F) (name F) (suffix s) Hw).
Qed.

(** Every name a family may own, but for [_created], is claimed for it. *)
Lemma owned_claimed d F G s : family_shows d F G -> owns_suffix (fmt_of d) (f_type G) s = true ->
  f_name G ++ s ∈ claims F \/ d = om_1_0 /\ type F ∈ [t_counter; t_summary; t_histogram] /\ f_name G ++ s = name F ++ str "_created".
Proof.
  intros (En & _ & Et & _) O. rewrite En, Et in *. unfold described, claims, wanted.
  assert (forall w, w ∈ [[]; sample_suffix (type F)] ++ suffixes_of (type F) ->
    name F ++ w ∈ ({[name F]} ∪ {[name F ++ sample_suffix (type F)]} ∪ list_to_set (map (fun s => name F ++ s) (suffixes_of (type F))) : gset cppstring)) as C.
  { intros w [[->|[->|?]%elem_of_cons]%elem_of_cons|Hw]%elem_of_app; [rewrite app_nil_r; set_solver|set_solver|set_solver|].
    apply elem_of_union_r, elem_of_list_to_set, list_elem_of_fmap. eauto. }
  rewrite <-app_assoc.
  assert (metadata_suffix (type F) d ++ s ∈ [[]; sample_suffix (type F)] ++ suffixes_of (type F) \/
    d = om_1_0 /\ type F ∈ [t_counter; t_summary; t_histogram] /\ metadata_suffix (type F) d ++ s = str "_created") as [H|(-> & H & ->)]; [|left; by apply C|by right].
  clear C En Et. unfold owns_suffix, is_word in O. destruct d, (type F); cbn in O |- *;
    repeat (apply orb_prop in O as [O|O]); apply bool_decide_eq_true in O as ->;
    first [left; vm_decide|right; split; [done|]; split; [vm_decide|done]].
Qed.

Lemma name_claimed d F G : family_shows d F G -> f_name G ∈ claims F.
Proof.
  intros (-> & _). unfold described, claims, wanted. destruct d; simpl metadata_suffix; rewrite ?app_nil_r; set_solver.
Qed.

(** No family is named like the creation time of another. *)
Definition no_created (c : family_set) : Prop :=
  forall i j F G, OpenMetricsRender.families c !! i = Some F -> OpenMetricsRender.families c !! j = Some G -> i <> j ->
    type F ∈ [t_counter; t_summary; t_histogram] -> name G <> name F ++ str "_created".

Lemma shown_apart d c Gs : good_set c -> (d = om_1_0 -> no_created c) -> Forall2 (family_shows d) (OpenMetricsRender.families c) Gs -> apart (fmt_of d) Gs.
Proof.
  intros G Nc F2 i j g h Hg Hh N.
  destruct (Forall2_lookup_r _ _ _ _ _ F2 Hg) as (F & HF & Sg), (Forall2_lookup_r _ _ _ _ _ F2 Hh) as (H & HH & Sh).
  pose proof (gs_apart c G i j F H HF HH N) as D. rewrite elem_of_disjoint in D. pose proof (name_claimed d H h Sh) as Ch. split.
  - intros E. apply (D (f_name g)); [by apply name_claimed with d|by rewrite E].
  - destruct (owns_name _ _ _) eqn:O; [|done]. exfalso. apply owns_name_iff in O as (s & E & Os).
    destruct (owned_claimed d F g s Sg Os) as [K|(-> & K1 & K2)].
    + apply (D (f_name h)); [by rewrite E|done].
    + apply (Nc eq_refl i j F H HF HH N K1). rewrite <-K2, <-E. destruct Sh as (-> & _). unfold described. simpl. by rewrite app_nil_r.
Qed.

Definition no_limits : limits := mkLimits 0 0 0 0 0.
Lemma no_limits_wf : limits_wf no_limits.
Proof. unfold limits_wf. simpl. lia. Qed.
Lemma within_zero n : within 0 n.
Proof. by left. Qed.


(** ** Examples *)

Module Demo.
Definition plain_metric (k : String.string) (v : metric_value) : Metric := mkMetric (str k) [] [] [] [] v.
Definition half (n : Z) : double := d_div (Format.to_double n) (Format.to_double 2).

Definition snapshot : MetricsMessage :=
  [[mkMetrics (str "system") (str "The host")
      [plain_metric "jobs.run" (counter_value (Format.to_double 42));
       mkMetric (str "C: free") (str "free") (str "Free \ space ") (str "bytes") [(str "drive", str "C:\")] (gauge_value (half 195));
       plain_metric "host" (string_value (str "web-01"));
       plain_metric "latency" (histogram_value (mkHistogram 8 (half 9) [mkBucket 3 (half 1); mkBucket 8 (S754_infinity false)]))]
      [mkMetrics (str "odd") [] [plain_metric "nan" (gauge_value S754_nan); plain_metric "inf" (gauge_value (S754_infinity true))] []]]].

Lemma snapshot_good : Forall metric_good (message_metrics snapshot).
Proof. repeat apply Forall_cons_2; try apply Forall_nil_2; split; vm_decide. Qed.

Lemma snapshot_no_created : no_created (collect_snapshot snapshot None).1.
Proof.
  assert (Forall (fun G => match rev (name G) with "d"%char :: _ => False | _ => True end) (OpenMetricsRender.families (collect_snapshot snapshot None).1)) as K.
  { vm_compute. repeat constructor. }
  intros i j F G HF HG N _ E. pose proof (proj1 (Forall_lookup _ _) K _ _ HG) as KG. simpl in KG. rewrite E, rev_app_distr in KG. exact KG.
Qed.


(** A counter [x] and a gauge [x.created] are both published, and the OpenMetrics body is one the
    agent's own parser refuses: the renderer does not claim [x_created] for a counter. *)
Definition created_clash : MetricsMessage :=
  [[mkMetrics (str "jobs") [] [plain_metric "run" (counter_value (Format.to_double 1)); plain_metric "run.created" (gauge_value (Format.to_double 2))] []]].
Example created_gauge_breaks_the_exposition :
  (render created_clash om_1_0 (Some [])).2 = Some [] /\
  error (parse (render created_clash om_1_0 None).1 openmetrics_1_0 no_limits) = str "'jobs_run_created' is a sample of the family 'jobs_run'".
Proof. vm_compute. split; reflexivity. Qed.

(** Two dimensions whose names sanitise to one label name are written twice on one sample. *)
Definition twice_labelled : MetricsMessage :=
  [[mkMetrics (str "disk") [] [mkMetric (str "free") [] [] [] [(str "mount point", str "/"); (str "mount.point", str "/")] (gauge_value (Format.to_double 1))] []]].
Example repeated_dimension_breaks_the_exposition :
  (render twice_labelled om_1_0 (Some [])).2 = Some [] /\
  error (parse (render twice_labelled om_1_0 None).1 openmetrics_1_0 no_limits) = str "label 'mount_point' twice on 'disk_free'".
Proof. vm_compute. split; reflexivity. Qed.
End Demo.
