(* ===== verification/FactsPacer.v ===== *)
(** When the fleet sync uploads the host's facts document: the pacer of
    include/onboarding/facts_pacer.hpp, the answers service/fleet_sync.cpp feeds it with, and
    the turn of the sync loop they make up.

    The pacer is the record of its members, one function per member function.  A time point of
    the steady clock is its count of nanoseconds (a 64-bit count that stands for 292 years, so
    it is left unbounded); the counters keep their 32 and 64 bits. *)

From stdpp Require Import base list strings.
From Stdlib Require Import Ascii ZArith Lia.
From S2P Require Import Prelude Strings.

Local Open Scope Z_scope.

(** ** The clock *)

Definition seconds (n : Z) : Z := n * 1000000000.
Definition hours (n : Z) : Z := seconds (3600 * n).
(** [clock::time_point()] *)
Definition epoch : Z := 0.

(** ** The members *)

Record pacer := Pacer {
  server_ : option cppstring;
  refused_ : cppstring;
  refused_until_ : Z;
  refused_server_ : option cppstring;
  hold_until_ : Z;
  skip_this_turn_ : bool;
  skip_next_turn_ : bool;
  rejected_hash_ : cppstring;
  rejections_ : Z;
  retry_at_ : Z;
  acked_ : cppstring;
  resends_ : Z;
  resend_at_ : Z;
  loss_episode_ : Z;
  mismatch_hash_ : cppstring;
  mismatch_digest_ : cppstring;
  confirmed_ : bool;
  unconfirmed_ : Z }.

Definition new_pacer : pacer :=
  Pacer None [] epoch None epoch false false [] 0 epoch [] 0 epoch 0 [] [] false 0.

(** Assignments to the members that change together *)
Definition set_server (p : pacer) (s : option cppstring) : pacer :=
  Pacer s (refused_ p) (refused_until_ p) (refused_server_ p) (hold_until_ p) (skip_this_turn_ p) (skip_next_turn_ p)
    (rejected_hash_ p) (rejections_ p) (retry_at_ p) (acked_ p) (resends_ p) (resend_at_ p) (loss_episode_ p)
    (mismatch_hash_ p) (mismatch_digest_ p) (confirmed_ p) (unconfirmed_ p).
Definition set_refusal (p : pacer) (h : cppstring) (until : Z) (s : option cppstring) : pacer :=
  Pacer (server_ p) h until s (hold_until_ p) (skip_this_turn_ p) (skip_next_turn_ p)
    (rejected_hash_ p) (rejections_ p) (retry_at_ p) (acked_ p) (resends_ p) (resend_at_ p) (loss_episode_ p)
    (mismatch_hash_ p) (mismatch_digest_ p) (confirmed_ p) (unconfirmed_ p).
Definition set_hold (p : pacer) (until : Z) : pacer :=
  Pacer (server_ p) (refused_ p) (refused_until_ p) (refused_server_ p) until (skip_this_turn_ p) (skip_next_turn_ p)
    (rejected_hash_ p) (rejections_ p) (retry_at_ p) (acked_ p) (resends_ p) (resend_at_ p) (loss_episode_ p)
    (mismatch_hash_ p) (mismatch_digest_ p) (confirmed_ p) (unconfirmed_ p).
Definition set_skips (p : pacer) (this next : bool) : pacer :=
  Pacer (server_ p) (refused_ p) (refused_until_ p) (refused_server_ p) (hold_until_ p) this next
    (rejected_hash_ p) (rejections_ p) (retry_at_ p) (acked_ p) (resends_ p) (resend_at_ p) (loss_episode_ p)
    (mismatch_hash_ p) (mismatch_digest_ p) (confirmed_ p) (unconfirmed_ p).
Definition set_rejection (p : pacer) (h : cppstring) (n at_ : Z) : pacer :=
  Pacer (server_ p) (refused_ p) (refused_until_ p) (refused_server_ p) (hold_until_ p) (skip_this_turn_ p) (skip_next_turn_ p)
    h n at_ (acked_ p) (resends_ p) (resend_at_ p) (loss_episode_ p)
    (mismatch_hash_ p) (mismatch_digest_ p) (confirmed_ p) (unconfirmed_ p).
Definition set_acked (p : pacer) (h : cppstring) (n at_ : Z) : pacer :=
  Pacer (server_ p) (refused_ p) (refused_until_ p) (refused_server_ p) (hold_until_ p) (skip_this_turn_ p) (skip_next_turn_ p)
    (rejected_hash_ p) (rejections_ p) (retry_at_ p) h n at_ (loss_episode_ p)
    (mismatch_hash_ p) (mismatch_digest_ p) (confirmed_ p) (unconfirmed_ p).
Definition set_episode (p : pacer) (n : Z) : pacer :=
  Pacer (server_ p) (refused_ p) (refused_until_ p) (refused_server_ p) (hold_until_ p) (skip_this_turn_ p) (skip_next_turn_ p)
    (rejected_hash_ p) (rejections_ p) (retry_at_ p) (acked_ p) (resends_ p) (resend_at_ p) n
    (mismatch_hash_ p) (mismatch_digest_ p) (confirmed_ p) (unconfirmed_ p).
Definition set_mismatch (p : pacer) (h digest : cppstring) : pacer :=
  Pacer (server_ p) (refused_ p) (refused_until_ p) (refused_server_ p) (hold_until_ p) (skip_this_turn_ p) (skip_next_turn_ p)
    (rejected_hash_ p) (rejections_ p) (retry_at_ p) (acked_ p) (resends_ p) (resend_at_ p) (loss_episode_ p)
    h digest (confirmed_ p) (unconfirmed_ p).
Definition set_confirmed (p : pacer) (b : bool) (n : Z) : pacer :=
  Pacer (server_ p) (refused_ p) (refused_until_ p) (refused_server_ p) (hold_until_ p) (skip_this_turn_ p) (skip_next_turn_ p)
    (rejected_hash_ p) (rejections_ p) (retry_at_ p) (acked_ p) (resends_ p) (resend_at_ p) (loss_episode_ p)
    (mismatch_hash_ p) (mismatch_digest_ p) b n.

Definition same (a b : cppstring) : bool := bool_decide (a = b).
(** [s.empty()] *)
Definition none_of (s : cppstring) : bool := bool_decide (s = []).

(** ** The private helpers *)

(** The wait after [taken] earlier steps *)
Definition step (taken : Z) : Z :=
  let shift := Z.min taken 6 in
  seconds (Z.min (Z.shiftl 60 shift) 3600).

Definition confirm (p : pacer) (now : Z) : pacer :=
  let p := set_confirmed p true 0 in
  if (resends_ p =? 0) || (now >=? resend_at_ p) then set_acked p (acked_ p) 0 epoch else p.

Definition clear_refusal (p : pacer) : pacer := set_confirmed (set_refusal p [] epoch None) (confirmed_ p) 0.
Definition clear_rejections (p : pacer) : pacer := set_rejection p [] 0 epoch.

(** ** The turns *)

Definition start (p : pacer) : pacer := set_skips p false false.
Definition begin_turn (p : pacer) : pacer := set_skips p (skip_next_turn_ p) false.
Definition trouble_this_turn (p : pacer) : pacer := set_skips p true (skip_next_turn_ p).
Definition quiet_next_turn (p : pacer) : pacer := set_skips p (skip_this_turn_ p) true.

(** ** What the server says it holds *)

Definition server_holds (p : pacer) (hash : cppstring) (now : Z) : pacer :=
  let p := set_server p (Some hash) in
  let p := if negb (none_of (acked_ p)) && same hash (acked_ p) then confirm p now else p in
  if negb (none_of (refused_ p)) then
    match refused_server_ p with
    | None => set_refusal p (refused_ p) (refused_until_ p) (Some hash)
    | Some held => if negb (same hash held) && negb (same hash (acked_ p)) then clear_refusal p else p
    end
  else p.

Definition server_silent (p : pacer) : pacer := set_server p None.

(** ** Whether to upload *)

Definition should_upload (p : pacer) (current : cppstring) (now : Z) : bool :=
  if skip_this_turn_ p then false else
  match server_ p with
  | None => false
  | Some held =>
      if none_of current then false else
      if same current held then false else
      if same current (refused_ p) && (now <? refused_until_ p) then false else
      if now <? hold_until_ p then false else
      if same current (rejected_hash_ p) && (now <? retry_at_ p) then false else
      if same current (acked_ p) && (now <? resend_at_ p) then false else
      true
  end.

(** ** How the upload went *)

Definition refused (p : pacer) (hash : cppstring) (now : Z) : pacer :=
  set_confirmed (set_refusal p hash (now + hours 24) None) (confirmed_ p) 0.

Definition rejected (p : pacer) (hash : cppstring) (now : Z) : pacer :=
  let p := if negb (same hash (rejected_hash_ p)) then set_rejection p hash 0 (retry_at_ p) else p in
  set_rejection p (rejected_hash_ p) (wrap_u 32 (rejections_ p + 1)) (now + step (rejections_ p)).

Definition hold (p : pacer) (now secs : Z) : pacer :=
  if secs =? 0 then p else set_hold p (Z.max (hold_until_ p) (now + seconds secs)).

Record ack := Ack { resends : Z; mismatch : bool; hashed_differently : bool; confirmed : bool; loss_episode : Z }.

Definition unconfirmed_verdict : Z := 3.
Definition empty_facts_hash : cppstring := str "44136fa355b3678a1146ad16f7e8649e94fb4fc21fe77e8310c060f61caaff8a".

(** What the acknowledgement does to the re-sends of the document *)
Definition count_acknowledgement (p : pacer) (hash : cppstring) (now : Z) : pacer :=
  let p := clear_rejections p in
  let p := if negb (none_of (refused_ p)) && same hash (refused_ p)
           then let p := clear_refusal p in set_acked p [] (resends_ p) (resend_at_ p) else p in
  let p :=
    if same hash (acked_ p) then
      if confirmed_ p then
        let p := if resends_ p =? 0 then set_episode p (wrap_u 64 (loss_episode_ p + 1)) else p in
        let n := wrap_u 32 (resends_ p + 1) in
        set_confirmed (set_acked p (acked_ p) n (now + step (wrap_u 32 (n - 1)))) (confirmed_ p) 0
      else set_acked p (acked_ p) (resends_ p) (now + step (unconfirmed_ p))
    else set_confirmed (set_acked p hash 0 (now + step 0)) (confirmed_ p) 0 in
  set_server (set_confirmed p false (wrap_u 32 (unconfirmed_ p + 1))) (Some hash).

(** What the digest in the acknowledgement says: whether the server hashes the document
    differently, and whether it confirmed it *)
Definition read_acknowledgement (p : pacer) (held_before : option cppstring) (hash : cppstring) (now : Z)
    (server_says : option cppstring) : bool * bool * pacer :=
  match server_says with
  | None => (false, false, p)
  | Some says =>
      if same says hash then
        let p := confirm p now in
        (false, true, if same hash (mismatch_hash_ p) then set_mismatch p [] [] else p)
      else if same hash (mismatch_hash_ p) && same says (mismatch_digest_ p) then (true, false, p)
      else if same says empty_facts_hash || match held_before with Some held => same says held | None => false end
      then (false, false, set_server p (Some says))
      else (true, false, p)
  end.

Definition acknowledged (p : pacer) (hash : cppstring) (now : Z) (server_says : option cppstring) : ack * pacer :=
  let held_before := server_ p in
  let p := count_acknowledgement p hash now in
  let '(differently, held, p) := read_acknowledgement p held_before hash now server_says in
  let verdict := differently || (unconfirmed_ p >=? unconfirmed_verdict) in
  let p :=
    if verdict then
      let p := refused p hash now in
      let p := match server_says with Some _ => set_refusal p (refused_ p) (refused_until_ p) server_says | None => p end in
      if differently then set_mismatch p hash (default [] server_says) else p
    else p in
  (Ack (resends_ p) verdict differently held (loss_episode_ p), p).

(** When the document may next be tried *)
Definition retry_at (p : pacer) (hash : cppstring) : Z :=
  let at_ := hold_until_ p in
  let at_ := if same hash (rejected_hash_ p) then Z.max at_ (retry_at_ p) else at_ in
  if same hash (acked_ p) then Z.max at_ (resend_at_ p) else at_.
