(* ===== verification/FleetSync.v ===== *)
(** The fleet sync loop (service/fleet_sync.cpp) as far as it paces its calls: what an answer
    of the server does to the pacer of the facts uploads, the upload itself, and how long the
    loop sleeps after a poll.

    A call is what the transport made of it: [None] where [do_call] throws, the response
    otherwise.  The readings of the steady clock are part of the input, in the order they are
    taken. *)

From stdpp Require Import base list strings gmap.
From Stdlib Require Import Ascii ZArith Lia.
From S2P Require Import Prelude Strings FactsPacer.

Local Open Scope Z_scope.

(** ** Responses and their headers *)

Record response := Response { status_code_ : Z; headers_ : gmap cppstring cppstring }.
Definition is_2xx (r : response) : bool := (status_code_ r >=? 200) && (status_code_ r <? 300).

(** [s.find_first_not_of(" \t")] to [s.find_last_not_of(" \t")], where there is one *)
Definition blank (c : ascii) : bool := bool_decide (c = c_blank) || bool_decide (c = c_tab).
Fixpoint skip_blanks (s : cppstring) : cppstring :=
  match s with c :: s' => if blank c then skip_blanks s' else s | [] => [] end.
Definition trim_blanks (s : cppstring) : cppstring := rev (skip_blanks (rev (skip_blanks s))).

Definition parse_retry_after (header_value : cppstring) : option Z :=
  let digits := trim_blanks header_value in
  if bool_decide (digits = []) then None else
  if Nat.ltb 9 (length digits) then None else
  if negb (forallb isdigit digits) then None else Some (decimal digits).

Definition get_retry_after (r : response) : option Z :=
  match headers_ r !! str "retry-after" with None => None | Some v => parse_retry_after v end.

Definition isxdigit (c : ascii) : bool :=
  let n := nat_of_ascii c in isdigit c || (Nat.leb 65 n && Nat.leb n 70) || (Nat.leb 97 n && Nat.leb n 102).
Definition is_sha256_hex (value : cppstring) : bool := Nat.eqb (length value) 64 && forallb isxdigit value.

Definition facts_hash_header : cppstring := str "x-facts-hash".
Definition parse_facts_hash (header_value : cppstring) : option cppstring :=
  let value := to_lower header_value in
  if bool_decide (value = str "none") then Some empty_facts_hash else
  if negb (is_sha256_hex value) then None else Some value.

Definition read_facts_hash_header (r : response) : option cppstring :=
  match headers_ r !! facts_hash_header with None => None | Some v => parse_facts_hash v end.

(** ** Answers *)

Inductive fleet_call := poll | report | upload.
#[export] Instance fleet_call_eq_dec : EqDecision fleet_call.
Proof. solve_decision. Defined.

Definition max_sleep_seconds : Z := 86400.
Definition clamp_sleep_seconds (secs : Z) : Z := Z.max 1 (Z.min secs max_sleep_seconds).

Definition note_server_response (p : pacer) (r : response) (call : fleet_call) (now : Z) : pacer :=
  if negb (is_2xx r) && negb (status_code_ r =? 304) then
    let p := match call with
             | upload => if (status_code_ r =? 429) || (status_code_ r =? 503) then quiet_next_turn p else p
             | _ => trouble_this_turn p
             end in
    match get_retry_after r, call with
    | None, _ | _, poll => p
    | Some retry_after, _ => hold p now (clamp_sleep_seconds retry_after)
    end
  else
    match call with
    | upload => p
    | _ =>
        match read_facts_hash_header r, call with
        | None, poll => server_silent p
        | None, _ => p
        | Some advertised, _ => server_holds p advertised now
        end
    end.

(** ** The upload *)

(** What the call meets: the cached hash, the snapshot's, whether the body could be built, what
    became of the call, and the clock when it is asked, asked again and when the call is over *)
Record upload_run := UploadRun {
  cached_hash : cppstring;
  snapshot_hash : cppstring;
  body_built : bool;
  answer : option response;
  asked_at : Z;
  sent_at : Z;
  done_at : Z }.

(** Whether the document left the host, and the acknowledgement where there was one *)
Definition maybe_upload_facts (p : pacer) (u : upload_run) : option (option ack) * pacer :=
  if negb (should_upload p (cached_hash u) (asked_at u)) then (None, p) else
  if negb (should_upload p (snapshot_hash u) (sent_at u)) then (None, p) else
  if negb (body_built u) then (None, refused p (snapshot_hash u) (done_at u)) else
  match answer u with
  | None => (Some None, rejected p (snapshot_hash u) (done_at u))
  | Some r =>
      if is_2xx r then
        let '(a, p) := acknowledged p (snapshot_hash u) (done_at u) (read_facts_hash_header r) in (Some (Some a), p)
      else
        let p := note_server_response p r upload (done_at u) in
        if status_code_ r =? 413 then (Some None, refused p (snapshot_hash u) (done_at u))
        else (Some None, rejected p (snapshot_hash u) (done_at u))
  end.

(** ** The turns of the loop, as the pacer sees them *)

Inductive event :=
| Run (now : Z)
| Turn (now : Z)
| Answer (call : fleet_call) (r : response) (now : Z)
| Upload (u : upload_run).

Definition event_step (p : pacer) (e : event) : option (option ack) * pacer :=
  match e with
  | Run _ => (None, start p)
  | Turn _ => (None, begin_turn p)
  | Answer call r now => (None, note_server_response p r call now)
  | Upload u => maybe_upload_facts p u
  end.

Definition began (e : event) : Z := match e with Run t | Turn t | Answer _ _ t => t | Upload u => asked_at u end.
Definition over (e : event) : Z := match e with Run t | Turn t | Answer _ _ t => t | Upload u => done_at u end.

Fixpoint run_events (p : pacer) (evs : list event) : pacer :=
  match evs with [] => p | e :: evs => run_events (event_step p e).2 evs end.

(** When the uploads of a kind were over: those acknowledged, those that left the host *)
Definition is_acknowledged (out : option (option ack)) : bool := match out with Some (Some _) => true | _ => false end.
Definition is_sent (out : option (option ack)) : bool := match out with Some _ => true | None => false end.

Fixpoint times (seen : option (option ack) -> bool) (p : pacer) (evs : list event) : list Z :=
  match evs with
  | [] => []
  | e :: evs =>
      let '(out, p') := event_step p e in
      if seen out then over e :: times seen p' evs else times seen p' evs
  end.

(** The clock does not run backwards. *)
Definition timely (e : event) : Prop :=
  match e with Upload u => asked_at u <= sent_at u /\ sent_at u <= done_at u | _ => True end.
Fixpoint clocked (t : Z) (evs : list event) : Prop :=
  match evs with [] => True | e :: evs => t <= began e /\ timely e /\ clocked (over e) evs end.

(** The reports and polls of the loop do not answer as uploads: the answer to an upload is
    part of it. *)
Definition of_loop (e : event) : Prop := match e with Answer call _ _ => call <> upload | _ => True end.
(** Moreover every upload is of [d]. *)
Definition about (d : cppstring) (e : event) : Prop :=
  match e with Upload u => snapshot_hash u = d | Answer call _ _ => call <> upload | _ => True end.

(** ** How long the loop sleeps *)

Record poll_sleep := PollSleep { sleep_seconds : Z; at_least : bool }.

Definition with_jitter_ms (secs : Z) (at_least : bool) (rd : Z) : Z :=
  let base := wrap_u 64 (secs * 1000) in
  let spread := wrap_u 64 (base / 5 + 1) in
  wrap_u 64 ((if at_least then base else wrap_u 64 (base * 9) / 10) + rd mod spread).

(** The backoff of a failed poll, after the failure was counted *)
Definition poll_backoff (poll_interval failures : Z) : Z :=
  Z.min (wrap_u 64 (Z.shiftl poll_interval (Z.min failures 5))) (wrap_u 64 (poll_interval * 5)).

Record poll_state := PollState { poll_interval_ : Z; failures_ : Z }.

(** What a poll does to the interval and the count of failures, and the sleep it asks for.
    [next_304] is the hint of a 304 ([parse_next_poll]), [next_state] the one of a desired state
    that was read ([None] where it could not be) *)
Definition poll_once (st : poll_state) (call : option response) (next_304 next_state : option Z) : poll_sleep * poll_state :=
  match call with
  | None =>
      let st := PollState (poll_interval_ st) (wrap_u 32 (failures_ st + 1)) in
      (PollSleep (poll_backoff (poll_interval_ st) (failures_ st)) false, st)
  | Some r =>
      if status_code_ r =? 304 then
        let interval := match next_304 with Some n => Z.max 1 n | None => poll_interval_ st end in
        (PollSleep interval false, PollState interval 0)
      else
        let retry := get_retry_after r in
        if status_code_ r =? 429 then
          match retry with
          | None => (PollSleep (poll_interval_ st) false, st)
          | Some n => (PollSleep (clamp_sleep_seconds n) true, st)
          end
        else if negb (is_2xx r) then
          let st := PollState (poll_interval_ st) (wrap_u 32 (failures_ st + 1)) in
          let backoff := poll_backoff (poll_interval_ st) (failures_ st) in
          match retry with
          | None => (PollSleep backoff false, st)
          | Some n => (PollSleep (Z.max backoff (clamp_sleep_seconds n)) true, st)
          end
        else
          let interval := match next_state with Some n => Z.max 1 n | None => poll_interval_ st end in
          (PollSleep interval false, PollState interval 0)
  end.

(** The milliseconds the loop sleeps after the poll *)
Definition loop_sleep_ms (s : poll_sleep) (rd : Z) : Z :=
  Z.min (with_jitter_ms (sleep_seconds s) (at_least s) rd) (max_sleep_seconds * 1000).

(** The wait of [thread_proc] after the [n]-th restart *)
Definition restart_delay_min_seconds : Z := 30.
Definition restart_delay_max_seconds : Z := 600.
Definition next_restart_delay (d : Z) : Z := Z.min (d * 2) restart_delay_max_seconds.
