(* ===== verification/FleetPacing.v ===== *)
(** What the pacing of the facts uploads promises the fleet server and the host, for every
    sequence of turns, answers and uploads of the sync loop: how often one document can be
    drawn, and that no wait outlasts a day. *)

From stdpp Require Import base list strings gmap.
From Stdlib Require Import Ascii ZArith Lia.
From S2P Require Import Prelude Strings FactsPacer FleetSync.

Local Open Scope Z_scope.

Lemma same_spec a b : same a b = true <-> a = b.
Proof. apply bool_decide_eq_true. Qed.
Lemma same_refl a : same a a = true.
Proof. by apply same_spec. Qed.

Lemma hours_day t : t + seconds 60 <= t + hours 24.
Proof. unfold hours, seconds. lia. Qed.

(** Every step of the backoff is between a minute and an hour. *)
Lemma step_bounds n : 0 <= n -> seconds 60 <= step n <= seconds 3600.
Proof.
  intros Hn. unfold step. rewrite Z.shiftl_mul_pow2 by lia.
  assert (1 <= 2 ^ Z.min n 6) by (pose proof (Z.pow_pos_nonneg 2 (Z.min n 6)); lia).
  unfold seconds. lia.
Qed.
Lemma step_wrapped n : seconds 60 <= step (wrap_u 32 n) <= seconds 3600.
Proof. apply step_bounds. by apply wrap_u_range. Qed.

(** Read members through assignments *)
Ltac pcbn := cbn [server_ refused_ refused_until_ refused_server_ hold_until_ skip_this_turn_ skip_next_turn_ rejected_hash_
  rejections_ retry_at_ acked_ resends_ resend_at_ loss_episode_ mismatch_hash_ mismatch_digest_ confirmed_ unconfirmed_
  set_server set_refusal set_hold set_skips set_rejection set_acked set_episode set_mismatch set_confirmed fst snd] in *.

(** ** What one event does

    An event that is no upload changes the server's last word, the skips and the hold, or is an
    answer that says what the server holds; an upload passed the gate. *)

Definition set_quiet (p : pacer) (s : option cppstring) (this next : bool) (until : Z) : pacer :=
  set_server (set_hold (set_skips p this next) until) s.

Definition quiet (p : pacer) (now : Z) (p' : pacer) : Prop :=
  exists s this next until, p' = set_quiet p s this next until /\ (s = server_ p \/ s = None) /\
    hold_until_ p <= until <= Z.max (hold_until_ p) (now + hours 24).

Inductive outcome (p : pacer) : event -> option (option ack) -> pacer -> Prop :=
| out_quiet e p' : quiet p (over e) p' -> outcome p e None p'
| out_holds call r now h : read_facts_hash_header r = Some h -> outcome p (Answer call r now) None (server_holds p h now)
| out_unbuilt u : should_upload p (snapshot_hash u) (sent_at u) = true ->
    outcome p (Upload u) None (refused p (snapshot_hash u) (done_at u))
| out_rejected u p' : should_upload p (snapshot_hash u) (sent_at u) = true -> quiet p (done_at u) p' ->
    outcome p (Upload u) (Some None) (rejected p' (snapshot_hash u) (done_at u))
| out_too_large u r p' : should_upload p (snapshot_hash u) (sent_at u) = true -> quiet p (done_at u) p' ->
    answer u = Some r -> status_code_ r = 413 ->
    outcome p (Upload u) (Some None) (refused p' (snapshot_hash u) (done_at u))
| out_acked u r a p' : should_upload p (snapshot_hash u) (sent_at u) = true -> answer u = Some r ->
    acknowledged p (snapshot_hash u) (done_at u) (read_facts_hash_header r) = (a, p') ->
    outcome p (Upload u) (Some (Some a)) p'.

Lemma quiet_refl p now : quiet p now p.
Proof. exists (server_ p), (skip_this_turn_ p), (skip_next_turn_ p), (hold_until_ p). split; [by destruct p|]. split; [by left|lia]. Qed.

Lemma quiet_hold p now s this next n :
  quiet p now (hold (set_skips (set_server p s) this next) now (clamp_sleep_seconds n)) <-> s = server_ p \/ s = None.
Proof.
  assert (1 <= clamp_sleep_seconds n <= 86400) by (unfold clamp_sleep_seconds, max_sleep_seconds; lia).
  unfold hold. rewrite (proj2 (Z.eqb_neq _ 0)) by lia. split; [|intros Hs].
  - intros (s' & t' & n' & u' & E & Hs & _). injection E as <-. done.
  - exists s, this, next, (Z.max (hold_until_ p) (now + seconds (clamp_sleep_seconds n))). split; [done|]. split; [done|]. unfold hours, seconds. lia.
Qed.

Lemma quiet_skips p now this next : quiet p now (set_skips p this next).
Proof. exists (server_ p), this, next, (hold_until_ p). split; [done|]. split; [by left|lia]. Qed.

(** An error answer, to any call, only makes the pacer quieter. *)
Lemma error_answer_quiet p r call now : is_2xx r = false -> status_code_ r <> 304 -> quiet p now (note_server_response p r call now).
Proof.
  intros H1 H2. unfold note_server_response. rewrite H1, (proj2 (Z.eqb_neq _ _) H2). cbn [negb andb].
  set (q := match call with upload => _ | _ => _ end).
  assert (Hq : exists a b, q = set_skips p a b).
  { subst q. destruct call; [by eexists _, _..|]. destruct (_ || _); [by eexists _, _|]. exists (skip_this_turn_ p), (skip_next_turn_ p). by destruct p. }
  destruct Hq as (a & b & ->). destruct (get_retry_after r) as [n|], call; try apply quiet_skips;
    apply (quiet_hold p now (server_ p) a b n); by left.
Qed.

Lemma about_of_loop d e : about d e -> of_loop e.
Proof. by destruct e. Qed.

Lemma event_outcome p e : of_loop e -> outcome p e (event_step p e).1 (event_step p e).2.
Proof.
  intros Ha. destruct e as [t|t|call r t|u]; cbn [event_step fst snd of_loop] in *.
  - apply out_quiet, quiet_skips.
  - apply out_quiet, quiet_skips.
  - destruct (is_2xx r || (status_code_ r =? 304)) eqn:E.
    + unfold note_server_response. replace (negb (is_2xx r) && negb (status_code_ r =? 304)) with false by (destruct (is_2xx r), (status_code_ r =? 304); done).
      destruct call; [| |done]; (destruct (read_facts_hash_header r) as [h|] eqn:Eh; [by apply out_holds|]).
      * apply out_quiet. exists None, (skip_this_turn_ p), (skip_next_turn_ p), (hold_until_ p). split; [by destruct p|]. split; [by right|lia].
      * apply out_quiet, quiet_refl.
    + breflect. by apply out_quiet, error_answer_quiet.
  - unfold maybe_upload_facts. destruct (should_upload p (cached_hash u) _); cbn [negb fst snd]; [|apply out_quiet, quiet_refl].
    destruct (should_upload p (snapshot_hash u) (sent_at u)) eqn:Hg; cbn [negb fst snd]; [|apply out_quiet, quiet_refl].
    destruct (body_built u); cbn [negb fst snd]; [|by apply out_unbuilt].
    destruct (answer u) as [r|] eqn:Er; cbn [fst snd]; [|by apply out_rejected, quiet_refl].
    destruct (is_2xx r) eqn:E2.
    + destruct (acknowledged _ _ _ _) as [a p'] eqn:Ea. by apply (out_acked p u r).
    + destruct (Z.eqb_spec (status_code_ r) 413) as [E3|N3]; cbn [fst snd].
      * apply (out_too_large p u r); [done| |done|done]. apply error_answer_quiet; [done|lia].
      * apply out_rejected; [done|]. destruct (Z.eqb_spec (status_code_ r) 304) as [E4|N4]; [|by apply error_answer_quiet].
        unfold note_server_response. rewrite E2, E4. apply quiet_refl.
Qed.

(** ** Counting uploads in a window of time *)

Lemma timely_order e : timely e -> began e <= over e.
Proof. destruct e; cbn; lia. Qed.

Lemma times_after seen evs : forall p t, clocked t evs -> Forall (fun x => t <= x) (times seen p evs).
Proof.
  induction evs as [|e evs IH]; intros p t Hc; cbn [times clocked] in *; [constructor|]. destruct Hc as (Ht & He & Hc).
  apply timely_order in He. destruct (event_step p e) as [out p']. pose proof (IH p' _ Hc) as IHp.
  assert (Forall (fun x => t <= x) (times seen p' evs)) by (eapply Forall_impl; [exact IHp|]; cbn; lia).
  destruct (seen out); [constructor; [lia|done]|done].
Qed.

Section window.
Context (ok : event -> Prop) (seen : option (option ack) -> bool) (from until : Z) (allowed : nat -> pacer -> Prop).

(** [allowed k] is kept by every event of the window that is not counted, and what is counted
    uses one of the [k] up. *)
Hypothesis window_step : forall k p e, ok e -> timely e -> from <= began e -> over e < until -> allowed k p ->
  let '(out, p') := event_step p e in
  if seen out then match k with O => False | S k => allowed k p' end else allowed k p'.

Lemma window_count evs : forall k p t x, clocked t evs -> from <= t -> Forall ok evs -> allowed k p ->
  times seen p evs !! k = Some x -> until <= x.
Proof.
  induction evs as [|e evs IH]; intros k p t x Hc Ht Hok Ha Hx; cbn [times clocked] in *; [done|].
  destruct Hc as (Hb & He & Hc). inversion Hok as [|? ? Hoe Hoe']; subst.
  pose proof (timely_order e He). destruct (Z.lt_ge_cases (over e) until) as [L|G].
  - pose proof (window_step k p e Hoe He ltac:(lia) L Ha) as Hs. destruct (event_step p e) as [out p'].
    destruct (seen out); [destruct k as [|k]; [done|]|]; eapply (IH _ p' (over e)); eauto; lia.
  - pose proof (times_after seen evs (event_step p e).2 _ Hc) as Hall. destruct (event_step p e) as [out p']. cbn [snd] in Hall.
    assert (Forall (fun x => until <= x) (if seen out then over e :: times seen p' evs else times seen p' evs)) as Hf.
    { assert (Forall (fun x => until <= x) (times seen p' evs)) by (eapply Forall_impl; [exact Hall|]; cbn; lia).
      destruct (seen out); [constructor; [lia|done]|done]. }
    rewrite Forall_lookup in Hf. by eapply Hf.
Qed.
End window.

(** What passed the gate *)
Lemma should_upload_inv p d now : should_upload p d now = true ->
  skip_this_turn_ p = false /\ d <> [] /\ (exists held, server_ p = Some held /\ d <> held) /\
  (refused_ p = d -> refused_until_ p <= now) /\ hold_until_ p <= now /\
  (rejected_hash_ p = d -> retry_at_ p <= now) /\ (acked_ p = d -> resend_at_ p <= now).
Proof.
  unfold should_upload, none_of, same. destruct (skip_this_turn_ p); [done|]. destruct (server_ p) as [held|]; [|done].
  destruct (bool_decide_reflect (d = [])); [done|]. destruct (bool_decide_reflect (d = held)); [done|].
  destruct (bool_decide_reflect (d = refused_ p)), (Z.ltb_spec now (refused_until_ p)); try done; cbn [andb];
  destruct (Z.ltb_spec now (hold_until_ p)); try done;
  destruct (bool_decide_reflect (d = rejected_hash_ p)), (Z.ltb_spec now (retry_at_ p)); try done; cbn [andb];
  destruct (bool_decide_reflect (d = acked_ p)), (Z.ltb_spec now (resend_at_ p)); try done; intros _;
  (split_and!; [done|done|by eexists|..]); intros; first [congruence|lia].
Qed.

(** ** What an acknowledgement does *)

(** The counters are unsigned. *)
Definition counted (p : pacer) : Prop := 0 <= unconfirmed_ p /\ 0 <= rejections_ p.

Section acknowledgement.
Context (p : pacer) (d : cppstring) (now : Z) (Hd : d <> []) (Hp : counted p).

Lemma count_fields : let q := count_acknowledgement p d now in
  acked_ q = d /\ confirmed_ q = false /\ server_ q = Some d /\ now + seconds 60 <= resend_at_ q <= now + hours 1 /\ refused_ q <> d /\
  rejected_hash_ q = [] /\ rejections_ q = 0 /\ hold_until_ q = hold_until_ p /\ mismatch_hash_ q = mismatch_hash_ p /\ 0 <= unconfirmed_ q.
Proof.
  assert (Hs : forall n, 0 <= n -> now + seconds 60 <= now + step n <= now + hours 1)
    by (intros n Hn; pose proof (step_bounds n Hn); unfold hours, seconds in *; lia).
  assert (Hw : forall n, 0 <= wrap_u 32 n) by (intros n; by apply wrap_u_range).
  destruct Hp as [Hu _]. unfold count_acknowledgement, none_of, same, clear_rejections, clear_refusal. pcbn.
  repeat match goal with
  | |- context [bool_decide (?a = ?b)] => destruct (bool_decide_reflect (a = b)); cbn [negb andb]; pcbn
  | |- context [if ?b then _ else _] => destruct b eqn:?; pcbn
  end; split_and!; try done; try (by subst); try (apply Hs; first [apply Hw|lia]); try congruence.
Qed.

(** The count of re-sends and of unconfirmed acknowledgements *)
Lemma count_lost : acked_ p = d -> confirmed_ p = true -> resends_ p = 0 -> refused_ p <> d -> resends_ (count_acknowledgement p d now) = 1.
Proof.
  intros Ha Hc Hr Hf. unfold count_acknowledgement, none_of, same, clear_rejections, clear_refusal. pcbn.
  rewrite (bool_decide_eq_false_2 (d = refused_ p)) by congruence. rewrite andb_false_r. pcbn. rewrite Ha, bool_decide_eq_true_2, Hc by done. pcbn. rewrite Hr. cbn [Z.eqb]. pcbn. by rewrite Hr.
Qed.
Lemma count_unconfirmed : acked_ p = d -> confirmed_ p = false -> refused_ p <> d ->
  unconfirmed_ (count_acknowledgement p d now) = wrap_u 32 (unconfirmed_ p + 1).
Proof.
  intros Ha Hc Hf. unfold count_acknowledgement, none_of, same, clear_rejections, clear_refusal. pcbn.
  rewrite (bool_decide_eq_false_2 (d = refused_ p)) by congruence. rewrite andb_false_r. pcbn. rewrite Ha, bool_decide_eq_true_2, Hc by done. done.
Qed.

Lemma confirm_fields q : acked_ (confirm q now) = acked_ q /\ refused_ (confirm q now) = refused_ q /\
  refused_until_ (confirm q now) = refused_until_ q /\ refused_server_ (confirm q now) = refused_server_ q /\
  confirmed_ (confirm q now) = true /\ unconfirmed_ (confirm q now) = 0 /\ hold_until_ (confirm q now) = hold_until_ q /\
  rejected_hash_ (confirm q now) = rejected_hash_ q /\ rejections_ (confirm q now) = rejections_ q /\ retry_at_ (confirm q now) = retry_at_ q /\
  server_ (confirm q now) = server_ q /\ mismatch_hash_ (confirm q now) = mismatch_hash_ q /\
  (resend_at_ (confirm q now) = resend_at_ q /\ resends_ (confirm q now) = resends_ q /\ resends_ q <> 0 /\ now < resend_at_ q \/
   resend_at_ (confirm q now) = epoch /\ resends_ (confirm q now) = 0 /\ (resends_ q = 0 \/ resend_at_ q <= now)).
Proof.
  unfold confirm. pcbn. destruct (_ || _) eqn:E; pcbn; split_and!; try done.
  - right. split_and!; [done..|]. apply orb_prop in E as [E|E]; breflect; [by left|right; lia].
  - left. breflect. split_and!; [done..|lia].
Qed.

(** A verdict aside, what the digest in the answer changes *)
Lemma acknowledged_fields says a p' : acknowledged p d now says = (a, p') ->
  acked_ p' = d /\ counted p' /\
  (now + seconds 60 <= resend_at_ p' \/ confirmed_ p' = true /\ resends_ p' = 0 /\ says = Some d) /\
  (refused_ p' = d -> now + hours 24 <= refused_until_ p') /\
  (acked_ p = d -> confirmed_ p = true -> resends_ p = 0 -> refused_ p <> d -> resends_ p' <> 0 /\ now + seconds 60 <= resend_at_ p') /\
  (says <> Some d -> confirmed_ p' = false).
Proof.
  pose proof count_fields as Hq. pose proof count_lost as Hl. unfold acknowledged. cbv zeta in Hq.
  set (q := count_acknowledgement p d now) in *. clearbody q. destruct Hq as (Q1 & Q2 & Q3 & Q4 & Q5 & Q6 & Q7 & Q8 & Q9 & Q10).
  destruct (read_acknowledgement q (server_ p) d now says) as [[diff held] q'] eqn:E.
  assert (Hq' : acked_ q' = d /\ 0 <= unconfirmed_ q' /\ rejections_ q' = 0 /\ refused_ q' <> d /\
    (resend_at_ q' = resend_at_ q /\ resends_ q' = resends_ q \/ confirmed_ q' = true /\ resends_ q' = 0 /\ resends_ q = 0 /\ says = Some d) /\
    (says <> Some d -> confirmed_ q' = false)).
  { unfold read_acknowledgement in E. destruct says as [says|]; [|injection E as _ _ <-; split_and!; try done; by left].
    destruct (same says d) eqn:Es; [apply same_spec in Es as ->|].
    - pose proof (confirm_fields q) as (C1 & C2 & C3 & C4 & C5 & C6 & C7 & C8 & C9 & C10 & C11 & C12 & C13).
      assert (acked_ q' = acked_ (confirm q now) /\ unconfirmed_ q' = unconfirmed_ (confirm q now) /\ rejections_ q' = rejections_ (confirm q now) /\
        refused_ q' = refused_ (confirm q now) /\ resend_at_ q' = resend_at_ (confirm q now) /\ resends_ q' = resends_ (confirm q now) /\
        confirmed_ q' = confirmed_ (confirm q now)) as (-> & -> & -> & -> & -> & -> & ->)
        by (injection E as _ _ <-; by destruct (same d _)).
      rewrite C1, C2, C5, C6, C9. split_and!; try done. destruct C13 as [(-> & -> & _)|(_ & -> & [Hz|Hz])]; [by left|by right|]. unfold seconds in Q4. lia.
    - destruct (same d _ && _); [injection E as _ _ <-; split_and!; try done; by left|].
      destruct (_ || _); injection E as _ _ <-; split_and!; try done; by left. }
  clear E. destruct Hq' as (R1 & R2 & R3 & R4 & R5 & R6). intros E. injection E as <- <-.
  assert (Hres : resends_ q' <> 0 -> now + seconds 60 <= resend_at_ q') by (intros Hn; destruct R5 as [[-> _]|(_ & Hz & _)]; [lia|done]).
  assert (Hlost : acked_ p = d -> confirmed_ p = true -> resends_ p = 0 -> refused_ p <> d -> resends_ q' <> 0 /\ now + seconds 60 <= resend_at_ q').
  { intros H1 H2 H3 H4. specialize (Hl H1 H2 H3 H4). destruct R5 as [[-> ->]|(_ & _ & Hz & _)]; lia. }
  assert (Hpace : now + seconds 60 <= resend_at_ q' \/ confirmed_ q' = true /\ resends_ q' = 0 /\ says = Some d)
    by (destruct R5 as [[-> _]|(H1 & H2 & _ & H3)]; [left; lia|by right]).
  destruct (diff || _); [|split_and!; try done; split; lia]. destruct diff, says; unfold refused; pcbn; split_and!; try done; try (split; pcbn; lia); intros; unfold hours, seconds; lia.
Qed.
End acknowledgement.

(** ** What the other events leave alone *)

Lemma holds_fields p h now : counted p -> let q := server_holds p h now in
  acked_ q = acked_ p /\ hold_until_ q = hold_until_ p /\ rejected_hash_ q = rejected_hash_ p /\ rejections_ q = rejections_ p /\
  retry_at_ q = retry_at_ p /\ server_ q = Some h /\ counted q /\
  (refused_ q = [] \/ refused_ q = refused_ p /\ refused_until_ q = refused_until_ p) /\
  ((h <> acked_ p \/ acked_ p = []) /\ resend_at_ q = resend_at_ p /\ resends_ q = resends_ p /\ confirmed_ q = confirmed_ p \/
   h = acked_ p /\ confirmed_ q = true /\
     (resend_at_ q = resend_at_ p /\ resends_ q = resends_ p /\ resends_ p <> 0 \/
      resend_at_ q = epoch /\ resends_ q = 0 /\ (resends_ p = 0 \/ resend_at_ p <= now))).
Proof.
  intros [Hc Hc']. unfold server_holds, none_of. pcbn. set (p1 := if negb _ && _ then _ else _).
  assert (H1 : acked_ p1 = acked_ p /\ hold_until_ p1 = hold_until_ p /\ rejected_hash_ p1 = rejected_hash_ p /\ rejections_ p1 = rejections_ p /\
    retry_at_ p1 = retry_at_ p /\ server_ p1 = Some h /\ counted p1 /\ refused_ p1 = refused_ p /\ refused_until_ p1 = refused_until_ p /\
    ((h <> acked_ p \/ acked_ p = []) /\ resend_at_ p1 = resend_at_ p /\ resends_ p1 = resends_ p /\ confirmed_ p1 = confirmed_ p \/
     h = acked_ p /\ confirmed_ p1 = true /\
      (resend_at_ p1 = resend_at_ p /\ resends_ p1 = resends_ p /\ resends_ p <> 0 \/
       resend_at_ p1 = epoch /\ resends_ p1 = 0 /\ (resends_ p = 0 \/ resend_at_ p <= now)))).
  { subst p1. destruct (bool_decide_reflect (acked_ p = [])) as [E|N]; cbn [negb andb].
    - pcbn. split_and!; try done. left. split_and!; [by right|done..].
    - unfold same. destruct (bool_decide_reflect (h = acked_ p)) as [E|N'].
      + pose proof (confirm_fields now (set_server p (Some h))) as (C1 & C2 & C3 & C4 & C5 & C6 & C7 & C8 & C9 & C10 & C11 & C12 & C13).
        rewrite C1, C2, C3, C5, C7, C8, C9, C10, C11. pcbn. split_and!; try done.
        { split; [by rewrite C6|by rewrite C9]. }
        right. split_and!; [done..|]. destruct C13 as [(-> & -> & Hn & _)|(-> & -> & Hz)]; [by left|by right].
      + pcbn. split_and!; try done. left. split_and!; [by left|done..]. }
  clearbody p1. destruct H1 as (A1 & A2 & A3 & A4 & A5 & A6 & [A7 A7'] & A8 & A9 & A10).
  assert (refused_ p1 = [] \/ refused_ p1 = refused_ p /\ refused_until_ p1 = refused_until_ p) by (right; by rewrite A8, A9).
  destruct (bool_decide_reflect (refused_ p1 = [])); cbn [negb]; [by split_and!|].
  destruct (refused_server_ p1) as [held|]; [|split_and!; done].
  destruct (negb (same h held) && _); [|by split_and!]. unfold clear_refusal. pcbn. split_and!; try done. by left.
Qed.

Lemma rejected_fields p h now : counted p -> let q := rejected p h now in
  server_ q = server_ p /\ refused_ q = refused_ p /\ refused_until_ q = refused_until_ p /\ refused_server_ q = refused_server_ p /\
  hold_until_ q = hold_until_ p /\ acked_ q = acked_ p /\ resends_ q = resends_ p /\ resend_at_ q = resend_at_ p /\
  confirmed_ q = confirmed_ p /\ unconfirmed_ q = unconfirmed_ p /\ mismatch_hash_ q = mismatch_hash_ p /\ counted q /\
  rejected_hash_ q = h /\ now + seconds 60 <= retry_at_ q <= now + hours 1.
Proof.
  intros [Hc Hc']. unfold rejected, same. cbv zeta. unfold counted.
  assert (Hs : forall n, 0 <= n -> now + seconds 60 <= now + step n <= now + hours 1)
    by (intros n Hn; pose proof (step_bounds n Hn); unfold hours, seconds in *; lia).
  destruct (bool_decide_reflect (h = rejected_hash_ p)); cbn [negb]; pcbn; split_and!; try done; try (by apply wrap_u_range); by apply Hs.
Qed.

Ltac quiet_inv H :=
  let s := fresh "s" in let this := fresh "this" in let next := fresh "next" in let until := fresh "until" in
  let Hs := fresh "Hs" in let Hu := fresh "Hu" in destruct H as (s & this & next & until & -> & Hs & Hu); unfold set_quiet in *; pcbn.

(** The counters stay unsigned. *)
Lemma event_counted p e : of_loop e -> counted p -> counted (event_step p e).2.
Proof.
  intros Ha Hc. pose proof (event_outcome p e Ha) as Ho. destruct (event_step p e) as [out p']. cbn [fst snd] in *.
  destruct Ho as [e p' Hq|call r now h Hh|u Hg|u p' Hg Hq|u r p' Hg Hq _ _|u r a p' Hg Hr Hk].
  - by quiet_inv Hq.
  - by apply holds_fields.
  - split; [done|apply Hc].
  - apply rejected_fields. by quiet_inv Hq.
  - quiet_inv Hq. split; [done|apply Hc].
  - apply acknowledged_fields in Hk; [apply Hk| |done]. by apply should_upload_inv in Hg as (_ & ? & _).
Qed.

(** ** One document cannot be drawn over and over *)

(** After an acknowledgement at [t]: one more within the minute is possible, where the server
    confirmed the document and lost it again, and none after that. *)
Definition drawn (d : cppstring) (t : Z) (k : nat) (p : pacer) : Prop :=
  counted p /\ acked_ p = d /\
  match k with
  | O => resends_ p <> 0 /\ t + seconds 60 <= resend_at_ p
  | S O => (refused_ p = d -> t + hours 24 <= refused_until_ p) /\
      (t + seconds 60 <= resend_at_ p \/ confirmed_ p = true /\ resends_ p = 0)
  | _ => False
  end.

Lemma drawn_holds d t k p h now : d <> [] -> now < t + seconds 60 -> drawn d t k p -> drawn d t k (server_holds p h now).
Proof.
  intros Hd Hn (Hc & Ha & Hk). pose proof (holds_fields p h now Hc) as (H1 & _ & _ & _ & _ & _ & H7 & H8 & H9).
  split_and!; [done|by rewrite H1|]. destruct k as [|[|k]]; [| |done].
  - destruct H9 as [(_ & -> & -> & _)|(_ & _ & [(-> & -> & _)|(_ & _ & [?|?])])]; [done|done|tauto|lia].
  - destruct Hk as [Hf Hr]. split.
    + destruct H8 as [->|[-> ->]]; [by intros <-|done].
    + destruct H9 as [(_ & -> & -> & ->)|(_ & -> & [(-> & -> & Hz)|(-> & -> & _)])]; [done| |by right].
      destruct Hr as [?|[_ ?]]; [by left|done].
Qed.

Lemma drawn_step d t k p e : d <> [] -> about d e -> timely e -> t <= began e -> over e < t + seconds 60 -> drawn d t k p ->
  let '(out, p') := event_step p e in
  if is_acknowledged out then match k with O => False | S k => drawn d t k p' end else drawn d t k p'.
Proof.
  intros Hd Ha He Hb Ho Hk. pose proof (event_outcome p e (about_of_loop d e Ha)) as Hout. destruct (event_step p e) as [out p']. cbn [fst snd] in *.
  pose proof (timely_order e He) as Hbo.
  assert (Hg : forall u, e = Upload u -> should_upload p (snapshot_hash u) (sent_at u) = true ->
    snapshot_hash u = d /\ t <= done_at u < t + seconds 60 /\ k <> O /\ refused_ p <> d /\ (k = S O -> confirmed_ p = true /\ resends_ p = 0)).
  { intros u -> Hg. cbn in Ha, He, Ho, Hb, Hbo. rewrite Ha in Hg. apply should_upload_inv in Hg as (_ & _ & _ & G4 & _ & _ & G7).
    destruct Hk as (_ & Hk2 & Hk3). specialize (G7 Hk2). pose proof (hours_day t). destruct k as [|[|k]]; [lia| |done].
    destruct Hk3 as [Hf Hr]. split_and!; [done|lia|lia|done| |intros _; destruct Hr; [lia|done]].
    intros Hrf. specialize (Hf Hrf). specialize (G4 Hrf). lia. }
  destruct Hout as [e p' Hq|call r now h Hh|u Hgu|u p' Hgu Hq|u r p' Hgu Hq _ _|u r a p' Hgu Hr Hack]; cbn [is_acknowledged].
  - by quiet_inv Hq.
  - by apply drawn_holds.
  - destruct (Hg u eq_refl Hgu) as (-> & Ht & Hk0 & Hrf & Hc). destruct Hk as (K1 & K2 & K3). destruct k as [|[|k]]; [done| |done].
    split_and!; [split; [done|apply K1]|done|unfold refused; pcbn; intros; lia|apply K3].
  - destruct (Hg u eq_refl Hgu) as (-> & Ht & Hk0 & Hrf & Hc). destruct Hk as (K1 & K2 & K3). destruct k as [|[|k]]; [done| |done].
    quiet_inv Hq. match goal with |- drawn _ _ _ (rejected ?q _ _) => pose proof (rejected_fields q d (done_at u) K1) as R end.
    cbv zeta in R. pcbn. destruct R as (_ & R2 & R3 & _ & _ & R6 & R7 & R8 & R9 & _ & _ & R12 & _).
    split_and!; [done|by rewrite R6|by rewrite R2, R3|rewrite R7, R8, R9; apply K3].
  - destruct (Hg u eq_refl Hgu) as (-> & Ht & Hk0 & Hrf & Hc). destruct Hk as (K1 & K2 & K3). destruct k as [|[|k]]; [done| |done].
    quiet_inv Hq. split_and!; [split; [done|apply K1]|done|unfold refused; pcbn; intros; lia|apply K3].
  - destruct (Hg u eq_refl Hgu) as (E & Ht & Hk0 & Hrf & Hc). rewrite E in *. destruct Hk as (K1 & K2 & K3). destruct k as [|[|k]]; [done| |done].
    apply acknowledged_fields in Hack as (A1 & A2 & _ & _ & A5 & _); [|done|done]. destruct (Hc eq_refl). destruct A5; [done..|].
    split_and!; [done|done|done|lia].
Qed.

Lemma drawn_after_ack d p u r a p' : d <> [] -> counted p -> acknowledged p d (done_at u) r = (a, p') -> drawn d (done_at u) 1 p'.
Proof. intros Hd Hc Ha. apply acknowledged_fields in Ha as (A1 & A2 & A3 & A4 & _); [|done|done]. split_and!; [done|done|done|tauto]. Qed.

(** Whatever the server answers, losing and confirming the document as it likes, it cannot draw
    one document three times within a minute: of any three consecutive acknowledged uploads the
    last is at least a minute after the first. *)
Theorem no_third_upload_within_a_minute d p t0 evs i t1 t3 :
  counted p -> clocked t0 evs -> Forall (about d) evs ->
  times is_acknowledged p evs !! i = Some t1 -> times is_acknowledged p evs !! (i + 2)%nat = Some t3 ->
  t1 + seconds 60 <= t3.
Proof.
  revert p t0 i. induction evs as [|e evs IH]; intros p t0 i Hc Hk Hall H1 H3; [done|]. inversion Hall as [|? ? Ha Hall']; subst.
  cbn [times clocked] in *. destruct Hk as (Hb & He & Hk). pose proof (event_outcome p e (about_of_loop d e Ha)) as Hout. pose proof (event_counted p e (about_of_loop d e Ha) Hc) as Hc'.
  destruct (event_step p e) as [out p']. cbn [fst snd] in *. destruct (is_acknowledged out) eqn:Eo; [|by eapply (IH p')].
  destruct i as [|i]; [|by eapply (IH p')]. cbn in H1. injection H1 as <-.
  destruct Hout as [| | | | |u r a p' Hgu Hr Hack]; try done. cbn in Ha, Hk, He, H3 |- *. rewrite Ha in *.
  assert (Hd : d <> []) by (by apply should_upload_inv in Hgu as (_ & ? & _)).
  refine (window_count (about d) is_acknowledged (done_at u) (done_at u + seconds 60) (drawn d (done_at u)) _ evs 1 p' (done_at u) t3 Hk _ Hall' _ H3).
  - intros. by apply drawn_step.
  - lia.
  - exact (drawn_after_ack d p u _ a p' Hd Hc Hack).
Qed.

(** ** A server that never confirms a document is sent it three times a day *)

(** The server's answers, where they say what it holds, say [b]. *)
Definition answers_with (b : cppstring) (e : event) : Prop :=
  match e with
  | Answer _ r _ | Upload {| answer := Some r |} => read_facts_hash_header r = None \/ read_facts_hash_header r = Some b
  | _ => True
  end.

Record unheld (d b : cppstring) (p : pacer) : Prop := Unheld {
  unheld_counted : counted p;
  unheld_server : server_ p = None \/ server_ p = Some b \/ server_ p = Some d;
  unheld_refused : refused_ p = [] \/ refused_ p = d;
  unheld_baseline : refused_server_ p = None \/ refused_server_ p = Some b;
  unheld_mismatch : mismatch_hash_ p = [];
  unheld_acked : acked_ p = [] \/ acked_ p = d;
  unheld_confirmed : confirmed_ p = false;
  unheld_count : unconfirmed_ p <= 2 }.

Section unheld.
Context (d b : cppstring) (Hd : d <> []) (Hb : b <> d).

Lemma unheld_count_fields p now : unheld d b p -> let q := count_acknowledgement p d now in
  refused_ q = [] /\ refused_server_ q = refused_server_ (if same d (refused_ p) then clear_refusal p else p) /\
  unconfirmed_ q = (if same d (refused_ p) then 1 else if same d (acked_ p) then unconfirmed_ p + 1 else 1).
Proof.
  intros [Hc _ Hr _ _ Ha Hf Hu]. unfold counted in Hc. unfold count_acknowledgement, none_of, same, clear_rejections, clear_refusal. pcbn. rewrite Hf.
  assert (Hn : d <> []) by done. assert (Hw : wrap_u 32 (unconfirmed_ p + 1) = unconfirmed_ p + 1) by (apply wrap_u_id; split; lia).
  destruct Hr as [Hr|Hr], Ha as [Ha|Ha]; rewrite Hr, Ha;
    repeat first [rewrite (bool_decide_eq_true_2 (d = d)) by done|rewrite (bool_decide_eq_false_2 (d = [])) by done|rewrite (bool_decide_eq_true_2 ([] = [])) by done];
    cbn [negb andb]; pcbn; rewrite ?Ha, ?Hf;
    repeat first [rewrite (bool_decide_eq_true_2 (d = d)) by done|rewrite (bool_decide_eq_false_2 (d = [])) by done]; pcbn; rewrite ?Hr, ?Hw; done.
Qed.

Lemma unheld_ack p now says a p' : unheld d b p -> server_ p = Some b -> says = None \/ says = Some b ->
  acknowledged p d now says = (a, p') ->
  unheld d b p' /\ acked_ p' = d /\
  (refused_ p' = d /\ refused_until_ p' = now + hours 24 \/
   refused_ p' = [] /\ unconfirmed_ p' = (if same d (refused_ p) then 1 else if same d (acked_ p) then unconfirmed_ p + 1 else 1)).
Proof.
  intros Hh Hsv Hsays. pose proof (unheld_count_fields p now Hh) as (U1 & U2 & U3).
  pose proof (count_fields p d now Hd (unheld_counted _ _ _ Hh)) as (Q1 & Q2 & Q3 & _ & _ & _ & Q7 & _ & Q9 & Q10). destruct Hh as [Hc _ Hr Hs Hm _ _ _].
  unfold acknowledged. cbv zeta. rewrite Hsv. set (q := count_acknowledgement p d now) in *. clearbody q. rewrite Hm in Q9.
  assert (Hread : exists sv, (sv = Some b \/ sv = Some d) /\ read_acknowledgement q (Some b) d now says = (false, false, set_server q sv)).
  { unfold read_acknowledgement. destruct Hsays as [->| ->]; [exists (Some d); split; [by right|]; rewrite <-Q3; by destruct q|].
    exists (Some b). split; [by left|]. unfold same. rewrite Q9, (bool_decide_eq_false_2 (b = d)), (bool_decide_eq_false_2 (d = [])), (bool_decide_eq_true_2 (b = b)) by done.
    cbn [andb]. by rewrite orb_true_r. }
  destruct Hread as (sv & Hsv' & ->). cbn [orb]. pcbn.
  assert (Hbase : refused_server_ q = None \/ refused_server_ q = Some b) by (rewrite U2; destruct (same d _); [by left|done]).
  unfold unconfirmed_verdict. destruct (Z.geb_spec (unconfirmed_ q) 3) as [G|L]; intros E; injection E as <- <-.
  - split; [|split; [by destruct Hsays as [->| ->]|left; by destruct Hsays as [->| ->]]].
    destruct Hsays as [->| ->]; split; unfold refused, counted; pcbn; try done; try tauto; try lia; by right.
  - split; [split; unfold counted; pcbn; try done; try tauto; try lia; try (by left); by right|]. split; [done|by right].
Qed.

Lemma unheld_holds p now : unheld d b p -> exists base, (base = None \/ base = Some b) /\
  server_holds p b now = set_refusal (set_server p (Some b)) (refused_ p) (refused_until_ p) base.
Proof.
  intros [_ _ _ Hs _ Ha _ _]. unfold server_holds, none_of. pcbn.
  replace (negb (bool_decide (acked_ p = [])) && same b (acked_ p)) with false
    by (symmetry; unfold same; destruct Ha as [->| ->]; [done|]; rewrite (bool_decide_eq_false_2 (b = d)) by done; apply andb_false_r).
  pcbn. destruct (bool_decide_reflect (refused_ p = [])); cbn [negb]; [exists (refused_server_ p); split; [done|by destruct p]|].
  destruct Hs as [Hs|Hs]; rewrite Hs; [exists (Some b); split; [by right|done]|]. rewrite same_refl. exists (Some b). split; [by right|]. by destruct p; pcbn; subst.
Qed.

Lemma unheld_refuse p now : unheld d b p -> unheld d b (refused p d now).
Proof. intros [Hc Hs Hr Hb' Hm Ha Hf Hu]. unfold counted in Hc. split; unfold refused, counted; pcbn; try done; try lia; first [by left|by right]. Qed.
Lemma unheld_quiet p now p' : unheld d b p -> quiet p now p' -> unheld d b p'.
Proof. intros Hh Hq. quiet_inv Hq. destruct Hh. split; pcbn; try done. destruct Hs as [->| ->]; [done|by left]. Qed.
Lemma unheld_reject p now : unheld d b p -> unheld d b (rejected p d now).
Proof.
  intros [Hc Hs Hr Hb' Hm Ha Hf Hu]. pose proof (rejected_fields p d now Hc) as (R1 & R2 & _ & R4 & _ & R6 & _ & _ & R9 & R10 & R11 & R12 & _).
  split; rewrite ?R1, ?R2, ?R4, ?R6, ?R9, ?R10, ?R11; done.
Qed.

(** What each event does to a document the server never confirmed *)
Lemma unheld_step p e : about d e -> answers_with b e -> unheld d b p ->
  let '(out, p') := event_step p e in
  unheld d b p' /\
  ((refused_ p' = refused_ p /\ refused_until_ p' = refused_until_ p /\ unconfirmed_ p' = unconfirmed_ p \/
    refused_ p' = d /\ refused_until_ p' = over e + hours 24) /\ acked_ p' = acked_ p /\ is_acknowledged out = false \/
   is_acknowledged out = true /\ acked_ p' = d /\ (exists u, e = Upload u /\ should_upload p d (sent_at u) = true) /\
   (refused_ p' = d /\ refused_until_ p' = over e + hours 24 \/
    refused_ p' = [] /\ unconfirmed_ p' = (if same d (refused_ p) then 1 else if same d (acked_ p) then unconfirmed_ p + 1 else 1))).
Proof.
  intros Ha Hw Hh. pose proof (event_outcome p e (about_of_loop d e Ha)) as Hout. destruct (event_step p e) as [out p']. cbn [fst snd] in Hout.
  destruct Hout as [e p' Hq|call r now h Hr|u Hg|u p' Hg Hq|u r p' Hg Hq _ _|u r a p' Hg Hr Hack].
  - split; [by eapply unheld_quiet|]. quiet_inv Hq. left. split_and!; [by left|done|done].
  - cbn in Hw. rewrite Hr in Hw. destruct Hw as [|Hw]; [done|]. injection Hw as ->.
    destruct (unheld_holds p now Hh) as (base & Hbase & ->). split; [|left; split_and!; [by left|done|done]].
    destruct Hh. split; pcbn; try done. by right; left.
  - cbn in Ha. rewrite Ha. split; [by apply unheld_refuse|]. left. split_and!; [by right|done|done].
  - cbn in Ha. rewrite Ha. pose proof (unheld_quiet _ _ _ Hh Hq) as Hq'. split; [by apply unheld_reject|]. left.
    pose proof (rejected_fields p' d (done_at u) (unheld_counted _ _ _ Hq')) as (_ & R2 & R3 & _ & _ & R6 & _ & _ & _ & R10 & _).
    rewrite R2, R3, R6, R10. quiet_inv Hq. split_and!; [by left|done|done].
  - cbn in Ha. rewrite Ha. pose proof (unheld_quiet _ _ _ Hh Hq) as Hq'. split; [by apply unheld_refuse|]. left. quiet_inv Hq. split_and!; [by right|done|done].
  - cbn in Ha. rewrite Ha in *. pose proof (should_upload_inv _ _ _ Hg) as (_ & _ & (held & Hsv & Hne) & _).
    assert (Hsvb : server_ p = Some b) by (destruct (unheld_server _ _ _ Hh) as [E|[E|E]]; congruence).
    assert (Hsays : read_facts_hash_header r = None \/ read_facts_hash_header r = Some b) by (destruct u; cbn in *; subst; done).
    destruct (unheld_ack p (done_at u) _ a p' Hh Hsvb Hsays Hack) as (U1 & U2 & U3). split; [done|]. right. split_and!; [done|done|by eexists|done].
Qed.

Definition unheld_allowed (t : Z) (k : nat) (p : pacer) : Prop :=
  unheld d b p /\ acked_ p = d /\
  (refused_ p = d /\ t + hours 24 <= refused_until_ p \/ refused_ p = [] /\ 3 - Z.of_nat k <= unconfirmed_ p).

Lemma unheld_window t k p e : about d e /\ answers_with b e -> timely e -> t <= began e -> over e < t + hours 24 -> unheld_allowed t k p ->
  let '(out, p') := event_step p e in
  if is_acknowledged out then match k with O => False | S k => unheld_allowed t k p' end else unheld_allowed t k p'.
Proof.
  intros [Ha Hw] He Hbe Ho (Hh & Hk & Hr). pose proof (unheld_step p e Ha Hw Hh) as Hs. pose proof (timely_order e He). pose proof (unheld_count _ _ _ Hh).
  destruct (event_step p e) as [out p']. destruct Hs as [Hh' [(Hs & Hk' & ->)|(-> & Hk' & (u & -> & Hg) & Hs)]].
  - split_and!; [done|congruence|]. destruct Hs as [(-> & -> & ->)|[-> ->]]; [done|left; split; [done|lia]].
  - apply should_upload_inv in Hg as (_ & _ & _ & Hg & _). cbn in *. destruct Hr as [[Hr Hr']|[Hr Hr']]; [specialize (Hg Hr); lia|].
    destruct k as [|k]; [lia|]. split_and!; [done|done|]. destruct Hs as [[-> ->]|[-> ->]]; [left; split; [done|lia]|right; split; [done|]].
    rewrite Hr, Hk, same_refl. unfold same. rewrite bool_decide_eq_false_2 by done. lia.
Qed.
End unheld.

Lemma unheld_new d b : unheld d b new_pacer.
Proof. split; try done; by left. Qed.

(** C20. From the start of the agent and while the host has one document: a server whose
    answers, where they name a document at all, always name the same other one is sent the
    document at most three times in a day: any four acknowledged uploads span at least 24 hours. *)
Theorem unconfirmed_document_is_sent_thrice_a_day d b t0 evs i t1 t4 :
  d <> [] -> b <> d -> clocked t0 evs -> Forall (fun e => about d e /\ answers_with b e) evs ->
  times is_acknowledged new_pacer evs !! i = Some t1 -> times is_acknowledged new_pacer evs !! (i + 3)%nat = Some t4 ->
  t1 + hours 24 <= t4.
Proof.
  intros Hd Hb. pose proof (unheld_new d b) as Hp. revert Hp. generalize new_pacer as p. revert t0 i.
  induction evs as [|e evs IH]; intros t0 i p Hp Hk Hall H1 H4; [done|]. inversion Hall as [|? ? [Ha Hw] Hall']; subst.
  cbn [times clocked] in *. destruct Hk as (Hbe & He & Hk). 
  pose proof (unheld_step d b Hd Hb p e Ha Hw Hp) as Hs.
  destruct (event_step p e) as [out p']. destruct Hs as [Hh' [(_ & _ & Eo)|(Eo & Hk' & (u & -> & Hg) & Hs)]]; rewrite Eo in *; [by eapply (IH (over e) i p')|].
  destruct i as [|i]; [|by eapply (IH _ i p')]. cbn in H1. injection H1 as <-.
  refine (window_count (fun e => about d e /\ answers_with b e) is_acknowledged (done_at u) (done_at u + hours 24) (unheld_allowed d b (done_at u)) _ evs 2 p' (done_at u) t4 Hk _ Hall' _ H4).
  - intros. by apply unheld_window.
  - lia.
  - split_and!; [done|done|]. cbn in Hs. destruct Hs as [[-> ->]|[-> ->]]; [by left|right]. split; [done|].
    pose proof (unheld_counted _ _ _ Hp) as [Hu _]. destruct (same d (refused_ p)); [lia|]. destruct (same d (acked_ p)); lia.
Qed.

(** ** A refused document stays where it is *)

Definition refused_for (d b : cppstring) (until : Z) (p : pacer) : Prop :=
  counted p /\ refused_ p = d /\ until <= refused_until_ p /\ (refused_server_ p = None \/ refused_server_ p = Some b).

Lemma refused_for_holds d b until p now : d <> [] -> refused_for d b until p -> refused_for d b until (server_holds p b now).
Proof.
  intros Hd (Hc & Hr & Hu & Hs). pose proof (holds_fields p b now Hc) as (_ & _ & _ & _ & _ & _ & Hc' & _).
  revert Hc'. unfold server_holds, none_of. set (p1 := if negb _ && _ then _ else _).
  assert (Hp1 : refused_ p1 = d /\ refused_until_ p1 = refused_until_ p /\ refused_server_ p1 = refused_server_ p).
  { subst p1. destruct (negb _ && _); [|pcbn; done]. pose proof (confirm_fields now (set_server p (Some b))) as (_ & C2 & C3 & C4 & _).
    rewrite C2, C3, C4. pcbn. done. }
  clearbody p1. destruct Hp1 as (E1 & E2 & E3). rewrite (bool_decide_eq_false_2 (refused_ p1 = [])), E3 by congruence. cbn [negb].
  destruct Hs as [Hs|Hs]; rewrite Hs, ?same_refl; cbn [negb andb]; intros Hc'; unfold refused_for; pcbn; rewrite ?E1, ?E2, ?E3; (split; [exact Hc'|]); split_and!; try done; by right.
Qed.

Lemma refused_for_step d b from until k p e : d <> [] -> about d e /\ answers_with b e -> timely e -> from <= began e -> over e < until -> refused_for d b until p ->
  let '(out, p') := event_step p e in
  if is_sent out then match k : nat with O => False | S k => refused_for d b until p' end else refused_for d b until p'.
Proof.
  intros Hd [Ha Hw] He _ Ho Hp. pose proof (event_outcome p e (about_of_loop d e Ha)) as Hout. destruct (event_step p e) as [out p']. cbn [fst snd] in Hout.
  assert (Hno : forall u, e = Upload u -> should_upload p (snapshot_hash u) (sent_at u) = true -> False).
  { intros u -> Hg. destruct Hp as (_ & Hr & Hu & _). cbn in *. rewrite Ha in Hg. apply should_upload_inv in Hg as (_ & _ & _ & Hg & _). specialize (Hg Hr). lia. }
  destruct Hout as [e p' Hq|call r now h Hr|u Hg|u p' Hg Hq|u r p' Hg Hq _ _|u r a p' Hg Hr Hack]; try (destruct (Hno u eq_refl Hg)).
  - by quiet_inv Hq.
  - cbn in Hw. rewrite Hr in Hw. destruct Hw as [|Hw]; [done|]. injection Hw as ->. by apply refused_for_holds.
Qed.

(** A refused document is not sent for a day as long as it stays the current one and the
    server's answers stay the same. *)
Theorem refused_document_is_not_sent_for_a_day p d b t evs :
  d <> [] -> counted p -> clocked t evs -> Forall (fun e => about d e /\ answers_with b e) evs ->
  Forall (fun x => t + hours 24 <= x) (times is_sent (refused p d t) evs).
Proof.
  intros Hd Hc Hk Hall. apply Forall_lookup_2. intros i x Hx.
  refine (window_count _ is_sent t (t + hours 24) (fun _ => refused_for d b (t + hours 24)) _ evs i _ t x Hk _ Hall _ Hx); [|lia|].
  - intros k q e. by apply refused_for_step.
  - split_and!; [split; [done|apply Hc]|done|unfold refused; pcbn; lia|by left].
Qed.

(** ** A rejected document backs off *)

Definition fails (d : cppstring) (e : event) : Prop :=
  about d e /\ match e with Upload {| answer := Some r |} => is_2xx r = false /\ status_code_ r <> 413 | _ => True end.

(** [n] rejections of [d] in a row so far *)
Definition rejected_times (d : cppstring) (n : Z) (p : pacer) : Prop :=
  counted p /\ (rejected_hash_ p = d /\ rejections_ p = n \/ rejected_hash_ p <> d /\ n = 0).

Lemma fails_step d n p e : fails d e -> in_u 32 (n + 1) -> rejected_times d n p ->
  let '(out, p') := event_step p e in
  if is_sent out then rejected_times d (n + 1) p' /\ rejected_hash_ p' = d /\ retry_at_ p' = over e + step n
  else rejected_times d n p' /\ rejected_hash_ p' = rejected_hash_ p /\ retry_at_ p' = retry_at_ p.
Proof.
  intros [Ha Hf] Hn [Hc Hp]. pose proof (event_outcome p e (about_of_loop d e Ha)) as Hout. pose proof (event_counted p e (about_of_loop d e Ha) Hc) as Hc'.
  assert (Hack : is_acknowledged (event_step p e).1 = false /\ ((event_step p e).1 = Some None -> forall u r, e = Upload u -> answer u = Some r -> status_code_ r <> 413)).
  { destruct e as [| | |u]; try (split; [done|by intros]). split; [|intros _ u' r [= <-] E; destruct u; cbn in *; subst; by destruct Hf].
    cbn. unfold maybe_upload_facts. destruct (negb _); [done|]. destruct (negb _); [done|]. destruct (negb _); [done|]. destruct u as [? ? ? [r|] ? ? ?]; cbn in *; [|done].
    destruct Hf as [-> Hs]. by rewrite (proj2 (Z.eqb_neq _ _) Hs). }
  destruct (event_step p e) as [out p']. cbn [fst snd] in *. destruct Hack as [Hna H413].
  destruct Hout as [e p' Hq|call r now h Hr|u Hg|u p' Hg Hq|u r p' Hg Hq Hr Hs|u r a p' Hg Hr Hack]; cbn [is_sent].
  - quiet_inv Hq. done.
  - pose proof (holds_fields p h now Hc) as (_ & _ & H3 & H4 & H5 & _). unfold rejected_times. rewrite H3, H4, H5. done.
  - unfold rejected_times, refused. pcbn. done.
  - cbn in Ha. rewrite Ha in *. quiet_inv Hq. unfold rejected_times. unfold rejected, same. pcbn. destruct Hp as [[Hp Hp']|[Hp ->]].
    + rewrite bool_decide_eq_true_2 by done. cbn [negb]. pcbn. rewrite Hp, Hp', wrap_u_id by done. split_and!; [|by left|done|done].
      split; pcbn; [apply Hc|]. destruct Hn; rewrite ?Hp', ?wrap_u_id; lia.
    + rewrite bool_decide_eq_false_2 by congruence. cbn [negb]. pcbn. split_and!; [|by left|done|done]. split; [apply Hc|done].
  - by destruct (H413 eq_refl u r).
  - done.
Qed.

Lemma fails_window d from until k p e : fails d e -> timely e -> from <= began e -> over e < until ->
  counted p /\ rejected_hash_ p = d /\ until <= retry_at_ p ->
  let '(out, p') := event_step p e in
  if is_sent out then match k : nat with O => False | S k => counted p' /\ rejected_hash_ p' = d /\ until <= retry_at_ p' end
  else counted p' /\ rejected_hash_ p' = d /\ until <= retry_at_ p'.
Proof.
  intros [Ha Hf] He _ Ho (Hc & Hr & Hu). pose proof (event_outcome p e (about_of_loop d e Ha)) as Hout. pose proof (event_counted p e (about_of_loop d e Ha) Hc) as Hc'.
  destruct (event_step p e) as [out p']. cbn [fst snd] in *.
  assert (Hno : forall u, e = Upload u -> should_upload p (snapshot_hash u) (sent_at u) = true -> False).
  { intros u -> Hg. cbn in *. rewrite Ha in Hg. apply should_upload_inv in Hg as (_ & _ & _ & _ & _ & Hg & _). specialize (Hg Hr). lia. }
  destruct Hout as [e p' Hq|call r now h Hh|u Hg|u p' Hg Hq|u r p' Hg Hq _ _|u r a p' Hg Hh Hack]; try (destruct (Hno u eq_refl Hg)).
  - by quiet_inv Hq.
  - pose proof (holds_fields p h now Hc) as (_ & _ & -> & _ & -> & _). done.
Qed.

Lemma failing_sends d evs : forall p n t0 i t t', rejected_times d n p -> 0 <= n -> n + Z.of_nat (length evs) < 2 ^ 32 ->
  clocked t0 evs -> Forall (fails d) evs ->
  times is_sent p evs !! i = Some t -> times is_sent p evs !! S i = Some t' -> t + step (n + Z.of_nat i) <= t'.
Proof.
  induction evs as [|e evs IH]; intros p n t0 i t t' Hp Hn Hl Hk Hall H1 H2; [done|]. inversion Hall as [|? ? Hf Hall']; subst.
  cbn [times clocked length] in *. destruct Hk as (_ & He & Hk). pose proof (fails_step d n p e Hf ltac:(split; lia) Hp) as Hs.
  destruct (event_step p e) as [out p']. destruct (is_sent out); [|eapply (IH p' n); eauto; [apply Hs|lia]].
  destruct Hs as (Hp' & Hr & Ht). destruct i as [|i]; cbn in H1, H2.
  - injection H1 as <-. replace (n + Z.of_nat 0) with n by lia.
    refine (window_count (fails d) is_sent (over e) (over e + step n) (fun _ q => counted q /\ rejected_hash_ q = d /\ over e + step n <= retry_at_ q) _ evs 0 p' (over e) t' Hk _ Hall' _ H2); [|lia|].
    + intros k q e'. by apply fails_window.
    + split_and!; [apply Hp'..|done|lia].
  - replace (n + Z.of_nat (S i)) with (n + 1 + Z.of_nat i) by lia. eapply (IH p' (n + 1)); eauto; lia.
Qed.

(** While every upload of a document is rejected, the next try waits a minute, then two,
    doubling up to an hour. *)
Theorem rejected_uploads_back_off d p t0 evs i t t' :
  counted p -> rejected_hash_ p <> d -> Z.of_nat (length evs) < 2 ^ 32 -> clocked t0 evs -> Forall (fails d) evs ->
  times is_sent p evs !! i = Some t -> times is_sent p evs !! S i = Some t' -> t + step (Z.of_nat i) <= t'.
Proof. intros Hc Hr Hl Hk Hall H1 H2. apply (failing_sends d evs p 0 t0 i t t'); try done. split; [done|by right]. Qed.

(** ** No wait outlasts a day *)

Definition waits_within (now : Z) (p : pacer) : Prop :=
  counted p /\ refused_until_ p <= now + hours 24 /\ hold_until_ p <= now + hours 24 /\
  retry_at_ p <= now + hours 1 /\ resend_at_ p <= now + hours 1.

Lemma waits_mono now now' p : now <= now' -> waits_within now p -> waits_within now' p.
Proof. unfold waits_within. intros H (H1 & H2 & H3 & H4 & H5). split_and!; [done|lia..]. Qed.

Lemma count_waits p d now : 0 <= now -> waits_within now p ->
  refused_until_ (count_acknowledgement p d now) <= now + hours 24 /\ retry_at_ (count_acknowledgement p d now) = epoch.
Proof.
  intros Hn (_ & H & _). assert (epoch <= now + hours 24) by (unfold epoch, hours, seconds; lia).
  unfold count_acknowledgement, same, none_of, clear_rejections, clear_refusal. pcbn.
  repeat match goal with
  | |- context [bool_decide ?P] => destruct (bool_decide P); cbn [negb andb]; pcbn
  | |- context [if ?b then _ else _] => destruct b eqn:?; pcbn
  end; done.
Qed.

Lemma waits_ack p d now says a p' : d <> [] -> 0 <= now -> waits_within now p -> acknowledged p d now says = (a, p') -> waits_within now p'.
Proof.
  intros Hd Hn Hw Hack. pose proof (acknowledged_fields p d now Hd ltac:(apply Hw) says a p' Hack) as (_ & Hc & _). split; [exact Hc|]. clear Hc.
  pose proof (count_fields p d now Hd ltac:(apply Hw)) as (_ & _ & _ & Q4 & _ & _ & _ & Q8 & _). pose proof (count_waits p d now Hn Hw) as [Q1 Q2].
  destruct Hw as (_ & _ & Hh & _). unfold acknowledged in Hack. cbv zeta in *. set (q := count_acknowledgement p d now) in *. clearbody q.
  destruct (read_acknowledgement _ _ _ _ _) as [[diff held] q'] eqn:E.
  assert (epoch <= now + hours 24 /\ epoch <= now + hours 1) as [He He'] by (unfold epoch, hours, seconds; lia).
  assert (refused_until_ q' <= now + hours 24 /\ hold_until_ q' <= now + hours 24 /\ retry_at_ q' <= now + hours 1 /\ resend_at_ q' <= now + hours 1) as (R1 & R2 & R3 & R4).
  { assert (Hq : refused_until_ q <= now + hours 24 /\ hold_until_ q <= now + hours 24 /\ retry_at_ q <= now + hours 1 /\ resend_at_ q <= now + hours 1)
      by (split_and!; lia). pose proof (confirm_fields now q) as (_ & _ & C3 & _ & _ & _ & C7 & _ & _ & C10 & _ & _ & C13).
    assert (Hq' : refused_until_ (confirm q now) <= now + hours 24 /\ hold_until_ (confirm q now) <= now + hours 24 /\
      retry_at_ (confirm q now) <= now + hours 1 /\ resend_at_ (confirm q now) <= now + hours 1)
      by (rewrite C3, C7, C10; destruct C13 as [(-> & _)|(-> & _)]; split_and!; lia).
    unfold read_acknowledgement in E. destruct says as [says|]; [|by injection E as _ _ <-]. destruct (same says d); [injection E as _ _ <-; by destruct (same d _)|].
    destruct (same d _ && _); [by injection E as _ _ <-|]. destruct (_ || _); by injection E as _ _ <-. }
  injection Hack as _ <-. destruct (diff || _); [|done]. destruct diff, says; unfold refused; pcbn; split_and!; try done; lia.
Qed.

Lemma waits_step p now e : of_loop e -> timely e -> 0 <= now -> now <= began e -> waits_within now p -> waits_within (over e) (event_step p e).2.
Proof.
  intros Ha He Hn Hb Hw. pose proof (event_outcome p e Ha) as Hout. pose proof (event_counted p e Ha ltac:(apply Hw)) as Hc. pose proof (timely_order e He).
  apply (waits_mono now (over e)) in Hw; [|lia]. destruct (event_step p e) as [out p']. cbn [fst snd] in *. split; [exact Hc|].
  assert (epoch <= over e + hours 1) by (unfold epoch, hours, seconds; lia). pose proof Hw as (Hc0 & W1 & W2 & W3 & W4).
  destruct Hout as [e p' Hq|call r t h Hr|u Hg|u p' Hg Hq|u r p' Hg Hq _ _|u r a p' Hg Hr Hack]; cbn [over began of_loop timely] in *.
  - quiet_inv Hq. split_and!; lia.
  - pose proof (holds_fields p h t Hc0) as (_ & -> & _ & _ & -> & _ & _ & H8 & H9). split_and!; [|lia|lia|].
    + clear H9. revert H8. unfold server_holds, none_of. pcbn. set (p1 := if negb _ && _ then _ else _). intros _.
      assert (refused_until_ p1 = refused_until_ p) as Ep by (subst p1; destruct (negb _ && _); [apply (confirm_fields t (set_server p (Some h)))|done]). clearbody p1.
      destruct (negb _); [|lia]. destruct (refused_server_ p1); [|pcbn; lia]. destruct (_ && _); [|lia]. unfold clear_refusal. pcbn. unfold epoch, hours, seconds in *; lia.
    + destruct H9 as [(_ & -> & _)|(_ & _ & [(-> & _)|(-> & _)])]; lia.
  - unfold refused. pcbn. split_and!; lia.
  - quiet_inv Hq. match goal with |- context [rejected ?q _ _] => pose proof (rejected_fields q (snapshot_hash u) (done_at u) Hc0) as R end. pcbn.
    destruct R as (_ & _ & -> & _ & -> & _ & _ & -> & _ & _ & _ & _ & _ & R). split_and!; lia.
  - quiet_inv Hq. unfold refused. pcbn. split_and!; lia.
  - apply waits_ack in Hack; [apply Hack|by apply should_upload_inv in Hg as (_ & ? & _)|lia|done].
Qed.

(** The time after the last event *)
Fixpoint finished (t : Z) (evs : list event) : Z := match evs with [] => t | e :: evs => finished (over e) evs end.

Lemma waits_run evs : forall p t, 0 <= t -> clocked t evs -> Forall of_loop evs -> waits_within t p -> waits_within (finished t evs) (run_events p evs).
Proof.
  induction evs as [|e evs IH]; intros p t Ht Hk Hall Hw; [done|]. inversion Hall; subst. cbn [finished run_events clocked] in *.
  destruct Hk as (Hb & He & Hk). pose proof (timely_order e He). apply IH; [lia|done|done|]. by eapply (waits_step p t).
Qed.

Lemma should_upload_waits now p d : waits_within now p -> skip_this_turn_ p = false -> d <> [] -> (exists held, server_ p = Some held /\ d <> held) ->
  forall t, now + hours 24 <= t -> should_upload p d t = true.
Proof.
  intros (_ & W1 & W2 & W3 & W4) Hs Hd (held & Hh & Hn) t Ht. assert (hours 1 <= hours 24) by done.
  unfold should_upload, none_of, same. rewrite Hs, Hh, (bool_decide_eq_false_2 (d = [])), (bool_decide_eq_false_2 (d = held)) by done.
  rewrite !(proj2 (Z.ltb_ge t _)), !andb_false_r by lia. done.
Qed.


(** ** How long the loop sleeps *)

Lemma jitter_bounds secs (b : bool) rd : 1 <= secs <= 432000 -> 0 <= rd ->
  (if b then secs * 1000 else secs * 900) <= with_jitter_ms secs b rd <= secs * 1200.
Proof.
  intros Hs Hr. unfold with_jitter_ms.
  assert (0 <= secs * 1000 / 5 <= 86400000) by (split; [apply Z.div_pos; lia|apply Z.div_le_upper_bound; lia]).
  assert (H5 : secs * 1000 / 5 = secs * 200) by (replace (secs * 1000) with (secs * 200 * 5) by lia; apply Z.div_mul; lia).
  assert (H9 : secs * 1000 * 9 / 10 = secs * 900) by (replace (secs * 1000 * 9) with (secs * 900 * 10) by lia; apply Z.div_mul; lia).
  rewrite (wrap_u_id 64 (secs * 1000)) by (split; lia). rewrite (wrap_u_id 64 (secs * 1000 / 5 + 1)) by (split; lia). rewrite H5.
  rewrite (wrap_u_id 64 (secs * 1000 * 9)), H9 by (split; lia).
  pose proof (Z.mod_pos_bound rd (secs * 200 + 1) ltac:(lia)). destruct b; rewrite wrap_u_id by (split; lia); lia.
Qed.

Lemma poll_backoff_bounds i f : 1 <= i <= 86400 -> in_u 32 f -> 1 <= poll_backoff i f <= 432000.
Proof.
  intros Hi [Hf _]. unfold poll_backoff. rewrite Z.shiftl_mul_pow2 by lia.
  assert (1 <= 2 ^ Z.min f 5) by (pose proof (Z.pow_pos_nonneg 2 (Z.min f 5)); lia).
  assert (2 ^ Z.min f 5 <= 2 ^ 5) by (apply Z.pow_le_mono_r; lia). rewrite !wrap_u_id by (split; nia). nia.
Qed.

Lemma poll_once_sleep st call (next_304 next_state : option Z) : 1 <= poll_interval_ st <= 86400 -> in_u 32 (failures_ st) ->
  (forall n, next_304 = Some n \/ next_state = Some n -> n <= 86400) ->
  let '(s, st') := poll_once st call next_304 next_state in
  1 <= poll_interval_ st' <= 86400 /\ in_u 32 (failures_ st') /\ 1 <= sleep_seconds s <= 432000 /\
  (forall r n, call = Some r -> is_2xx r = false -> status_code_ r <> 304 -> get_retry_after r = Some n ->
    at_least s = true /\ clamp_sleep_seconds n <= sleep_seconds s).
Proof.
  intros Hi Hf Hn. unfold poll_once.
  assert (H0 : in_u 32 0) by (split; lia).
  assert (Hw : in_u 32 (wrap_u 32 (failures_ st + 1))) by (by apply wrap_u_range).
  pose proof (poll_backoff_bounds (poll_interval_ st) _ Hi Hw) as Hb.
  assert (Hc : forall n, 1 <= clamp_sleep_seconds n <= 86400) by (intros; unfold clamp_sleep_seconds, max_sleep_seconds; lia).
  assert (H304 : forall n, next_304 = Some n -> 1 <= Z.max 1 n <= 86400) by (intros n E; specialize (Hn n (or_introl E)); lia).
  assert (H200 : forall n, next_state = Some n -> 1 <= Z.max 1 n <= 86400) by (intros n E; specialize (Hn n (or_intror E)); lia).
  destruct call as [r|]; cbn [poll_interval_ failures_ sleep_seconds at_least]; [|split_and!; try done; lia].
  assert (Hother : forall A : Z -> Prop, (is_2xx r = false -> status_code_ r <> 304 -> get_retry_after r = None) ->
    forall r0 n, Some r = Some r0 -> is_2xx r0 = false -> status_code_ r0 <> 304 -> get_retry_after r0 = Some n -> A n).
  { intros A H r0 n [= <-] E1 E2 E3. specialize (H E1 E2). congruence. }
  destruct (Z.eqb_spec (status_code_ r) 304) as [E3|N3].
  { destruct next_304 as [n|]; cbn [poll_interval_ failures_ sleep_seconds at_least].
    - specialize (H304 n eq_refl). split_and!; try lia; try exact H0. apply (Hother (fun n => _ /\ clamp_sleep_seconds n <= _)). by intros _ ?.
    - split_and!; try lia; try exact H0. apply (Hother (fun n => _ /\ clamp_sleep_seconds n <= _)). by intros _ ?. }
  destruct (Z.eqb_spec (status_code_ r) 429) as [E4|N4].
  { destruct (get_retry_after r) as [n|] eqn:Er; cbn [poll_interval_ failures_ sleep_seconds at_least].
    - specialize (Hc n). split_and!; try lia; try exact Hf; try exact Hw; try done. intros r0 n0 [= <-] _ _ E'. rewrite Er in E'. injection E' as <-. split; [done|lia].
    - split_and!; try lia; try exact Hf; try exact Hw; try done. apply (Hother (fun n => _ /\ clamp_sleep_seconds n <= _)); done. }
  destruct (is_2xx r) eqn:E2; cbn [negb].
  { destruct next_state as [n|]; cbn [poll_interval_ failures_ sleep_seconds at_least].
    - specialize (H200 n eq_refl). split_and!; try lia; try exact H0. by apply (Hother (fun n => _ /\ clamp_sleep_seconds n <= _)).
    - split_and!; try lia; try exact H0. by apply (Hother (fun n => _ /\ clamp_sleep_seconds n <= _)). }
  destruct (get_retry_after r) as [n|] eqn:Er; cbn [poll_interval_ failures_ sleep_seconds at_least].
  - specialize (Hc n). split_and!; try lia; try exact Hf; try exact Hw; try done. intros r0 n0 [= <-] _ _ E'. rewrite Er in E'. injection E' as <-. split; [done|lia].
  - split_and!; try lia; try exact Hf; try exact Hw; try done. apply (Hother (fun n => _ /\ clamp_sleep_seconds n <= _)); done.
Qed.

(** The loop sleeps between 0.9 seconds and a day after every poll, and not less than a Retry-
    After asks for within that day. *)
Theorem loop_sleeps_at_least_what_was_asked st call (next_304 next_state : option Z) rd :
  1 <= poll_interval_ st <= 86400 -> in_u 32 (failures_ st) -> 0 <= rd ->
  (forall n, next_304 = Some n \/ next_state = Some n -> n <= 86400) ->
  let '(s, st') := poll_once st call next_304 next_state in
  1 <= poll_interval_ st' <= 86400 /\ in_u 32 (failures_ st') /\ 900 <= loop_sleep_ms s rd <= 86400000 /\
  (forall r n, call = Some r -> is_2xx r = false -> status_code_ r <> 304 -> get_retry_after r = Some n ->
    clamp_sleep_seconds n * 1000 <= loop_sleep_ms s rd).
Proof.
  intros Hi Hf Hr Hn. pose proof (poll_once_sleep st call next_304 next_state Hi Hf Hn) as H.
  destruct (poll_once st call next_304 next_state) as [s st']. destruct H as (H1 & H2 & H3 & H4).
  pose proof (jitter_bounds (sleep_seconds s) (at_least s) rd H3 Hr) as Hj. unfold loop_sleep_ms, max_sleep_seconds.
  split_and!; [lia|lia|exact H2|destruct (at_least s); lia|lia|].
  intros r n Hc E1 E2 E3. destruct (H4 r n Hc E1 E2 E3) as [Ha Hl]. rewrite Ha in *. unfold clamp_sleep_seconds, max_sleep_seconds in *. lia.
Qed.

(** ** The rules at work *)

Module PacingSamples.
Definition doc : cppstring := replicate 64 "a"%char.
Definition says (v : option cppstring) : response := Response 200 (match v with Some h => {[facts_hash_header := h]} | None => ∅ end).
Definition poll_at (v : cppstring) (s : Z) : event := Answer poll (says (Some v)) (seconds s).
Definition upload_at (h : cppstring) (r : option response) (s : Z) : event := Upload (UploadRun h h true r (seconds s) (seconds s) (seconds s)).

(** The document is confirmed, lost, sent again at once, and then waits. *)
Definition lossy : list event :=
  [poll_at (str "none") 0; upload_at doc (Some (says (Some doc))) 1; poll_at (str "none") 2; upload_at doc (Some (says None)) 3;
   poll_at (str "none") 4; upload_at doc (Some (says None)) 5; poll_at (str "none") 63; upload_at doc (Some (says None)) 64].
(** The document is never confirmed. *)
Definition forgetful : list event :=
  flat_map (fun s => [poll_at (str "none") s; upload_at doc (Some (says None)) s]) [0; 30; 60; 120; 180; 240; 3600; 86000; 86580].
(** Then another document is refused as too large. *)
Definition eventful : list event :=
  forgetful ++ [poll_at (str "none") 86581; upload_at (replicate 64 "b"%char) (Some (Response 413 ∅)) 86582; poll_at (str "none") 86583].
(** The uploads fail. *)
Definition failing : list event :=
  poll_at (str "none") 0 :: map (upload_at doc (Some (Response 500 ∅))) [0; 59; 60; 120; 180; 299; 420].
End PacingSamples.

Lemma no_third_upload_within_a_minute_witness : seconds 1 + seconds 60 <= seconds 64.
Proof.
  apply (no_third_upload_within_a_minute PacingSamples.doc new_pacer 0 PacingSamples.lossy 0 (seconds 1) (seconds 64)).
  - split; cbn; lia.
  - cbn. unfold seconds. lia.
  - repeat constructor; done.
  - vm_compute. reflexivity.
  - vm_compute. reflexivity.
Defined.

Lemma unconfirmed_document_is_sent_thrice_a_day_witness :
  times is_acknowledged new_pacer PacingSamples.forgetful = map seconds [0; 60; 180; 86580] /\ seconds 0 + hours 24 <= seconds 86580.
Proof.
  split; [vm_compute; reflexivity|].
  apply (unconfirmed_document_is_sent_thrice_a_day PacingSamples.doc empty_facts_hash 0 PacingSamples.forgetful 0).
  - done.
  - done.
  - cbn. unfold seconds. lia.
  - unfold PacingSamples.forgetful, PacingSamples.poll_at, PacingSamples.upload_at. cbn [flat_map app]. repeat (constructor; [split; [done|cbn; first [by left|by right]]|]). constructor.
  - vm_compute. reflexivity.
  - vm_compute. reflexivity.
Defined.

Lemma rejected_uploads_back_off_witness :
  times is_sent new_pacer PacingSamples.failing = map seconds [0; 60; 180; 420] /\ seconds 60 + step 1 <= seconds 180.
Proof.
  split; [vm_compute; reflexivity|].
  apply (rejected_uploads_back_off PacingSamples.doc new_pacer 0 PacingSamples.failing 1); try (vm_compute; reflexivity).
  - split; cbn; lia.
  - done.
  - cbn. unfold seconds. lia.
  - repeat constructor; done.
Defined.

Lemma refused_document_is_not_sent_for_a_day_witness :
  Forall (fun x => seconds 5 + hours 24 <= x) (times is_sent (refused new_pacer PacingSamples.doc (seconds 5)) [PacingSamples.poll_at (str "none") 6; PacingSamples.upload_at PacingSamples.doc None 7]).
Proof.
  apply (refused_document_is_not_sent_for_a_day new_pacer PacingSamples.doc empty_facts_hash (seconds 5)).
  - done.
  - split; cbn; lia.
  - cbn. unfold seconds. lia.
  - repeat (constructor; [split; [done|cbn; first [by left|by right|done]]|]). constructor.
Defined.


Lemma loop_sleeps_at_least_what_was_asked_witness :
  let r := Response 503 {[str "retry-after" := str " 120 "]} in
  let '(s, _) := poll_once (PollState 60 0) (Some r) None None in clamp_sleep_seconds 120 * 1000 <= loop_sleep_ms s 7.
Proof.
  intros r. pose proof (loop_sleeps_at_least_what_was_asked (PollState 60 0) (Some r) None None 7
    ltac:(cbn; lia) ltac:(split; cbn; lia) ltac:(lia) ltac:(by intros n [?|?])) as H.
  destruct (poll_once _ _ _ _) as [s st']. destruct H as (_ & _ & _ & H). apply (H r); [done|done|done|vm_compute; reflexivity].
Defined.

(** The count of unconfirmed acknowledgements is one for all documents: releasing the refusal of
    another document starts it over, and the verdict on this one takes more than three. *)
Lemma release_of_another_document_delays_the_verdict :
  let other := replicate 64 "b"%char in let c := replicate 64 "c"%char in let p := set_server new_pacer (Some empty_facts_hash) in
  let p := server_holds (refused p other 0) empty_facts_hash 0 in
  let '(a1, p) := acknowledged p PacingSamples.doc (seconds 1) None in
  let '(a2, p) := acknowledged (server_holds p empty_facts_hash (seconds 100)) PacingSamples.doc (seconds 100) None in
  let '(a3, p) := acknowledged (server_holds p c (seconds 300)) PacingSamples.doc (seconds 300) None in
  mismatch a1 = false /\ mismatch a2 = false /\ mismatch a3 = false /\ unconfirmed_ p = 1.
Proof. vm_compute. done. Qed.
