(* ===== verification/DesiredState.v ===== *)
(** What the fleet server sends (libs/onboarding/sync.cpp, json_util.hpp): the desired state and
    its validation, the merging of configuration documents, their rendering as an INI file, and
    the bytes a bundle signature covers (verify.cpp).

    A JSON value is a value of [json]; an object is the list of its members in their order.  The
    JSON library itself (parsing, printing, the order in which an object keeps its members) is
    the interface [JsonLib]; [JsonLaws] states what it documents of it. *)

From stdpp Require Import base list strings gmap sorting.
From Stdlib Require Import Ascii ZArith Lia.
From S2P Require Import Prelude Strings Format PerfData Ordering FleetSync.

Local Open Scope Z_scope.

(** ** JSON *)

Inductive json :=
| JNull
| JBool (b : bool)
| JInt (z : Z)
| JUint (z : Z)
| JDouble (d : double)
| JString (s : cppstring)
| JArray (l : list json)
| JObject (o : list (cppstring * json)).

Abbreviation json_object := (list (cppstring * json)).
Abbreviation ini_sections := (gmap cppstring (gmap cppstring cppstring)).

Definition is_null (v : json) : bool := match v with JNull => true | _ => false end.

(** [object.if_contains(key)] *)
Fixpoint if_contains (o : json_object) (key : cppstring) : option json :=
  match o with
  | [] => None
  | (k, v) :: o => if bool_decide (k = key) then Some v else if_contains o key
  end.

Definition keys (o : json_object) : list cppstring := map fst o.

Class JsonLib := {
  (** [json::parse(text)], or what the exception says *)
  parse_value : cppstring -> result cppstring json;
  (** what [as_object] throws for another value *)
  not_object : cppstring;
  json_serialize : json -> cppstring;
  (** [to_number<long long>] of a double *)
  double_to_int64 : double -> result cppstring Z;
  (** what [to_number] throws for a number out of range *)
  not_exact : cppstring;
  (** [object.erase(key)] and [object[key] = value] *)
  obj_erase : cppstring -> json_object -> json_object;
  obj_put : cppstring -> json -> json_object -> json_object }.

(** [json::parse(body).as_object()] *)
Definition parse_root `{JsonLib} (body : cppstring) : result cppstring json_object :=
  let* v := parse_value body in match v with JObject o => Ok o | _ => Throw not_object end.

(** The members of an object have distinct names, numbers have their 64 bits. *)
Inductive well_typed : json -> Prop :=
| wt_null : well_typed JNull
| wt_bool b : well_typed (JBool b)
| wt_int z : in_s 64 z -> well_typed (JInt z)
| wt_uint z : in_u 64 z -> well_typed (JUint z)
| wt_double d : well_typed (JDouble d)
| wt_string s : well_typed (JString s)
| wt_array l : Forall well_typed l -> well_typed (JArray l)
| wt_object o : NoDup (keys o) -> Forall (fun m => well_typed m.2) o -> well_typed (JObject o).

Class JsonLaws `{JsonLib} : Prop := {
  parse_well_typed text v : parse_value text = Ok v -> well_typed v;
  double_to_int64_range d z : double_to_int64 d = Ok z -> in_s 64 z;
  erase_nodup k o : NoDup (keys o) -> NoDup (keys (obj_erase k o));
  put_nodup k v o : NoDup (keys o) -> NoDup (keys (obj_put k v o));
  erase_lookup k o j : NoDup (keys o) -> if_contains (obj_erase k o) j = if decide (k = j) then None else if_contains o j;
  put_lookup k v o j : NoDup (keys o) -> if_contains (obj_put k v o) j = if decide (k = j) then Some v else if_contains o j }.

(** ** Reading members *)

Section reading.
Context `{JsonLib}.

Definition bad_field (context key why : cppstring) : cppstring := context ++ str " " ++ key ++ str " " ++ why.

Definition require_string (o : json_object) (key context : cppstring) : result cppstring cppstring :=
  match if_contains o key with
  | Some (JString (c :: s)) => Ok (c :: s)
  | _ => Throw (context ++ str " is missing " ++ key)
  end.
Definition optional_string (o : json_object) (key fallback : cppstring) : cppstring :=
  match if_contains o key with
  | Some (JString (c :: s)) => c :: s
  | _ => fallback
  end.

Definition max_hash_length : nat := 128.
Definition max_id_length : nat := 128.
Definition max_url_length : nat := 1024.
Definition max_signature_length : nat := 512.
Definition default_poll_seconds : Z := 60.
Definition max_poll_seconds : Z := 86400.
Definition token_extra_chars : cppstring := str "-._:=+/~".
Definition id_extra_chars : cppstring := str "-._".
Definition signature_extra_chars : cppstring := str "+/=-_".
Definition url_bad_chars : cppstring := [c_backslash; c_dquote] ++ str "<>^{}|`#".

Definition isalnum (c : ascii) : bool :=
  let n := nat_of_ascii c in isdigit c || (Nat.leb 65 n && Nat.leb n 90) || (Nat.leb 97 n && Nat.leb n 122).
Definition is_allowed_char (extra : cppstring) (c : ascii) : bool :=
  if isalnum c then true else if bool_decide (c = Ascii.zero) then false else has_char c extra.

Definition too_long (value : cppstring) (max_length : nat) : cppstring :=
  str "is too long (" ++ show (Z.of_nat (length value)) ++ str " > " ++ show (Z.of_nat max_length) ++ str ")".

Definition require_token (o : json_object) (key context extra : cppstring) (max_length : nat) : result cppstring cppstring :=
  let* value := require_string o key context in
  guard! Nat.leb (length value) max_length else bad_field context key (too_long value max_length) in
  guard! forallb (is_allowed_char extra) value else bad_field context key (str "contains an illegal character") in
  Ok value.

Definition require_id (o : json_object) (key context : cppstring) : result cppstring cppstring :=
  let* value := require_token o key context id_extra_chars max_id_length in
  guard! negb (bool_decide (is_Some (find value (str "..") 0))) else bad_field context key (str "must not contain '..'") in
  guard! negb (bool_decide (value = str ".")) else bad_field context key (str "must not be '.'") in
  Ok value.

Definition require_sha256_hex (o : json_object) (key context : cppstring) : result cppstring cppstring :=
  let* value := require_string o key context in
  guard! is_sha256_hex value else bad_field context key (str "must be a 64 character SHA-256 hex digest") in
  Ok value.

Definition url_char (c : ascii) : bool :=
  let u := nat_of_ascii c in negb (Nat.leb u 32 || Nat.leb 127 u || has_char c url_bad_chars).
Definition require_relative_url (o : json_object) (key context : cppstring) : result cppstring cppstring :=
  let* value := require_string o key context in
  guard! Nat.leb (length value) max_url_length else bad_field context key (too_long value max_url_length) in
  guard! bool_decide (head value = Some "/"%char) else bad_field context key (str "must be a server-relative path starting with '/'") in
  guard! forallb url_char value else bad_field context key (str "contains an illegal character") in
  Ok value.

Definition parse_object (body context : cppstring) : result cppstring json_object :=
  match parse_root body with Ok o => Ok o | Throw what => Throw (str "Failed to parse " ++ context ++ str ": " ++ what) end.

Definition require_int (o : json_object) (key context : cppstring) : result cppstring Z :=
  match if_contains o key with
  | None => Throw (bad_field context key (str "is missing"))
  | Some (JInt z) => Ok z
  | Some (JUint z) => if z <=? 2 ^ 63 - 1 then Ok z else Throw (bad_field context key (str "is not an integer"))
  | Some _ => Throw (bad_field context key (str "is not an integer"))
  end.

Definition require_signed_string (o : json_object) (key context fallback : cppstring) : result cppstring cppstring :=
  let value := optional_string o key fallback in
  guard! negb (has_char Ascii.zero value) else bad_field context key (str "contains a NUL character") in
  Ok value.

(** [value->to_number<long long>()]; [None] where the value is no number *)
Definition to_number (v : json) : option (result cppstring Z) :=
  match v with
  | JInt z => Some (Ok z)
  | JUint z => Some (if z <=? 2 ^ 63 - 1 then Ok z else Throw not_exact)
  | JDouble d => Some (double_to_int64 d)
  | _ => None
  end.
Definition optional_int (o : json_object) (key : cppstring) (fallback : Z) : result cppstring Z :=
  match if_contains o key with
  | None => Ok fallback
  | Some v => match to_number v with None => Ok fallback | Some r => r end
  end.

Definition clamp_poll_seconds (secs : Z) : Z :=
  if secs <=? 0 then default_poll_seconds else Z.min secs max_poll_seconds.

(** ** The desired state *)

Record bundle_info := BundleInfo {
  id : cppstring; name : cppstring; version : cppstring; sha256 : cppstring; signature : cppstring; url : cppstring;
  priority : Z; format : cppstring }.

Record desired_state := DesiredState {
  tenant_id : Z; state_hash : cppstring; next_poll_in_seconds : Z; merged_config_json : cppstring; bundles : list bundle_info }.

Definition parse_bundle (entry : json) : result cppstring bundle_info :=
  match entry with
  | JObject b =>
      let* id := require_id b (str "id") (str "Bundle") in
      let* sha256 := require_sha256_hex b (str "sha256") (str "Bundle") in
      let* signature := require_token b (str "signature") (str "Bundle") signature_extra_chars max_signature_length in
      let* url := require_relative_url b (str "url") (str "Bundle") in
      let* name := require_signed_string b (str "name") (str "Bundle") [] in
      let* version := require_signed_string b (str "version") (str "Bundle") [] in
      let* priority := optional_int b (str "priority") 0 in
      let* format := require_signed_string b (str "format") (str "Bundle") [] in
      Ok (BundleInfo id name version sha256 signature url priority format)
  | _ => Throw (str "Desired state bundle entry is not an object")
  end.

Fixpoint parse_bundles (entries : list json) : result cppstring (list bundle_info) :=
  match entries with
  | [] => Ok []
  | e :: entries => let* b := parse_bundle e in let* bs := parse_bundles entries in Ok (b :: bs)
  end.

(** [std::stable_sort] by priority *)
Fixpoint insert_bundle (b : bundle_info) (l : list bundle_info) : list bundle_info :=
  match l with
  | [] => [b]
  | c :: l' => if priority c <? priority b then c :: insert_bundle b l' else b :: l
  end.
Fixpoint sort_bundles (l : list bundle_info) : list bundle_info :=
  match l with [] => [] | b :: l => insert_bundle b (sort_bundles l) end.

Definition has_bundles (root : json_object) : bool :=
  match if_contains root (str "bundles") with Some (JArray (_ :: _)) => true | _ => false end.

Definition parse_desired_state (body : cppstring) : result cppstring desired_state :=
  let* root := parse_object body (str "desired state") in
  let* tenant_id := if has_bundles root then require_int root (str "tenant_id") (str "Desired state") else optional_int root (str "tenant_id") 0 in
  let* state_hash := require_token root (str "state_hash") (str "Desired state") token_extra_chars max_hash_length in
  let* hint := optional_int root (str "next_poll_in_seconds") default_poll_seconds in
  let* merged := match if_contains root (str "merged_config_json") with
                 | Some (JObject o) => Ok (json_serialize (JObject o))
                 | None | Some JNull => Ok (str "{}")
                 | Some _ => Throw (str "Desired state merged_config_json is not an object")
                 end in
  let* bundles := match if_contains root (str "bundles") with
                  | Some (JArray entries) => parse_bundles entries
                  | None | Some JNull => Ok []
                  | Some _ => Throw (str "Desired state bundles is not an array")
                  end in
  Ok (DesiredState tenant_id state_hash (clamp_poll_seconds hint) merged (sort_bundles bundles)).

Definition parse_next_poll (body : cppstring) : option Z :=
  match parse_root body with
  | Throw _ => None
  | Ok root =>
      match if_contains root (str "next_poll_in_seconds") with
      | None => None
      | Some v =>
          match to_number v with
          | Some (Ok secs) => if secs <=? 0 then None else Some (Z.min secs max_poll_seconds)
          | _ => None
          end
      end
  end.

(** ** Merging configuration documents *)

Fixpoint json_merge_patch (target patch : json) {struct patch} : json :=
  match patch with
  | JObject members =>
      JObject (fold_left (fun result m =>
        if is_null m.2 then obj_erase m.1 result
        else obj_put m.1 (json_merge_patch (default JNull (if_contains result m.1)) m.2) result) members (match target with JObject o => o | _ => [] end))
  | _ => patch
  end.

(** How [apply_state] puts the configuration together: the bundles' documents in their order,
    the host's own last *)
Definition merged_config (configs : list json) (host_override : json) : json :=
  json_merge_patch (fold_left json_merge_patch configs (JObject [])) host_override.

(** ** Rendering a configuration as an INI file *)

Definition reject_control_chars (value what : cppstring) : result cppstring Datatypes.unit :=
  guard! forallb (fun c => let u := nat_of_ascii c in negb ((Nat.ltb u 32 && negb (Nat.eqb u 9)) || Nat.eqb u 127)) value
    else str "Managed configuration " ++ what ++ str " contains a control character" in
  Ok tt.

Definition format_ini_value (v : json) : cppstring :=
  match v with
  | JString s => s
  | JBool b => if b then str "true" else str "false"
  | JDouble d => xtos_non_sci d
  | _ => json_serialize v
  end.

(** [sections[path][key] = value] *)
Definition put_entry (path key value : cppstring) (sections : ini_sections) : ini_sections :=
  <[path := <[key := value]> (default ∅ (sections !! path))]> sections.
Definition section_of (path : cppstring) : cppstring := if bool_decide (path = []) then str "/" else path.

Definition join_element (joined : cppstring) (element : json) : cppstring :=
  (if bool_decide (joined = []) then [] else joined ++ str ",") ++ format_ini_value element.

Fixpoint collect_ini (object : json) (path : cppstring) (sections : ini_sections) {struct object} : result cppstring ini_sections :=
  match object with
  | JObject members =>
      fold_left (fun acc m =>
        let* sections := acc in
        let* _ := reject_control_chars m.1 (str "key") in
        match m.2 with
        | JObject _ => collect_ini m.2 (path ++ str "/" ++ m.1) sections
        | JNull => Ok sections
        | JArray elements =>
            let joined := fold_left join_element elements [] in
            let* _ := reject_control_chars joined (str "value") in Ok (put_entry (section_of path) m.1 joined sections)
        | v =>
            let rendered := format_ini_value v in
            let* _ := reject_control_chars rendered (str "value") in Ok (put_entry (section_of path) m.1 rendered sections)
        end) members (Ok sections)
  | _ => Ok sections
  end.

Definition nl : cppstring := [c_newline].
Definition ini_header : cppstring := str "; Managed by the fleet sync - DO NOT EDIT, changes are overwritten on the next sync.".
Definition write_section (s : cppstring * gmap cppstring cppstring) : cppstring :=
  nl ++ str "[" ++ s.1 ++ str "]" ++ nl ++ concat (map (fun e => e.1 ++ str "=" ++ e.2 ++ nl) (sort_by_key (map_to_list s.2))).
Definition render_ini (config : json) : result cppstring cppstring :=
  match config with
  | JObject _ =>
      let* sections := collect_ini config [] ∅ in
      Ok (ini_header ++ nl ++ concat (map write_section (sort_by_key (map_to_list sections))))
  | _ => Throw (str "Managed configuration must be a JSON object")
  end.
End reading.

(** ** What a bundle signature covers *)

Record bundle_descriptor := Descriptor {
  d_tenant_id : Z; d_bundle_id : cppstring; d_name : cppstring; d_version : cppstring; d_format : cppstring; d_sha256_hex : cppstring }.

(** The digits of [magnitude], least significant first; a 64-bit value has at most twenty *)
Fixpoint decimal_digits (fuel : nat) (magnitude : Z) : cppstring :=
  match fuel with
  | O => []
  | S fuel =>
      let c := ascii_of_nat (48 + Z.to_nat (magnitude mod 10)) in
      c :: (if magnitude / 10 =? 0 then [] else decimal_digits fuel (magnitude / 10))
  end.
Definition decimal_text (value : Z) : cppstring :=
  let negative := value <? 0 in
  let magnitude := if negative then wrap_u 64 (0 - wrap_u 64 value) else wrap_u 64 value in
  rev (decimal_digits 20 magnitude ++ (if negative then str "-" else [])).

Definition kBundleSigDomain : cppstring := str "nsclient-fleet/bundle-sig/v2".
Definition signing_bytes (d : bundle_descriptor) : cppstring :=
  fold_left (fun out field => out ++ [Ascii.zero] ++ field)
    [decimal_text (d_tenant_id d); d_bundle_id d; d_name d; d_version d; d_format d; d_sha256_hex d] kBundleSigDomain.
Definition describe_bundle (tenant_id : Z) (b : bundle_info) : bundle_descriptor :=
  Descriptor tenant_id (id b) (name b) (version b) (format b) (sha256 b).
