(* ===== verification/DesiredStateLaws.v ===== *)
(** What the host relies on when it acts on the fleet server's answers: one signature covers one
    bundle, what was parsed is harmless where it is used, the last document that names a setting
    decides it, and a configuration renders no line of its own making. *)

From stdpp Require Import base list strings gmap sorting.
From Stdlib Require Import Ascii ZArith Lia.
From S2P Require Import Prelude Strings Format PerfData Ordering FleetSync DesiredState.

Local Open Scope Z_scope.

(** ** Fields between separators *)

Definition sep_fields (z : ascii) (fs : list cppstring) : cppstring := concat (map (cons z) fs).

Lemma cut_at (z : ascii) f : forall g r r', z ∉ f -> z ∉ g -> (r = [] \/ exists t, r = z :: t) -> (r' = [] \/ exists t, r' = z :: t) ->
  f ++ r = g ++ r' -> f = g /\ r = r'.
Proof.
  induction f as [|c f IH]; intros [|e g] r r' Hf Hg Hr Hr' E; cbn in E.
  - done.
  - exfalso. destruct Hr as [->|[t ->]]; [done|]. injection E as -> _. apply Hg. by left.
  - exfalso. destruct Hr' as [->|[t ->]]; [done|]. injection E as -> _. apply Hf. by left.
  - injection E as -> E. apply not_elem_of_cons in Hf as [_ Hf], Hg as [_ Hg]. destruct (IH g r r' Hf Hg Hr Hr' E) as [-> ->]. done.
Qed.

Lemma sep_fields_head z fs : sep_fields z fs = [] \/ exists t, sep_fields z fs = z :: t.
Proof. destruct fs as [|f fs]; [by left|right; by eexists]. Qed.

Lemma sep_fields_inj z fs : forall gs, Forall (fun f => z ∉ f) fs -> Forall (fun f => z ∉ f) gs -> sep_fields z fs = sep_fields z gs -> fs = gs.
Proof.
  induction fs as [|f fs IH]; intros [|g gs] Hf Hg E; try done. inversion Hf; inversion Hg; subst. injection E as E.
  apply (cut_at z) in E as [-> E]; [|done|done|apply sep_fields_head|apply sep_fields_head]. f_equal. by apply IH.
Qed.

(** ** The decimal text of the tenant *)

Definition digit_value (c : ascii) : Z := Z.of_nat (nat_of_ascii c) - 48.
Fixpoint lsf_value (s : cppstring) : Z := match s with [] => 0 | c :: s => digit_value c + 10 * lsf_value s end.

Lemma decimal_digit m : nat_of_ascii (ascii_of_nat (48 + Z.to_nat (m mod 10))) = (48 + Z.to_nat (m mod 10))%nat.
Proof. pose proof (Z.mod_pos_bound m 10 ltac:(lia)). apply nat_ascii_embedding. lia. Qed.

Lemma decimal_digits_value fuel : forall m, 0 <= m < 10 ^ Z.of_nat fuel -> lsf_value (decimal_digits fuel m) = m.
Proof.
  induction fuel as [|fuel IH]; intros m Hm; cbn [decimal_digits lsf_value]; [cbn in *; lia|].
  pose proof (Z.mod_pos_bound m 10 ltac:(lia)). pose proof (Z.div_mod m 10 ltac:(lia)).
  unfold digit_value. rewrite decimal_digit. rewrite Nat2Z.inj_succ, Z.pow_succ_r in Hm by lia.
  destruct (Z.eqb_spec (m / 10) 0) as [E|N]; cbn [lsf_value]; [lia|].
  rewrite IH; [lia|]. split; [apply Z.div_pos; lia|apply Z.div_lt_upper_bound; lia].
Qed.
Lemma decimal_digits_digits fuel : forall m, Forall (fun c => isdigit c = true) (decimal_digits fuel m).
Proof.
  induction fuel as [|fuel IH]; intros m; cbn [decimal_digits]; constructor.
  - unfold isdigit. rewrite decimal_digit. pose proof (Z.mod_pos_bound m 10 ltac:(lia)). apply andb_true_intro. split; apply Nat.leb_le; lia.
  - destruct (_ =? 0); [constructor|apply IH].
Qed.

Lemma magnitude_of v : in_s 64 v -> (if v <? 0 then wrap_u 64 (0 - wrap_u 64 v) else wrap_u 64 v) = Z.abs v.
Proof.
  unfold in_s. intros Hv. destruct (Z.ltb_spec v 0).
  - unfold wrap_u. rewrite Zminus_mod_idemp_r, Z.mod_small by lia. lia.
  - rewrite wrap_u_id by (split; lia). lia.
Qed.

Lemma decimal_text_inj v w : in_s 64 v -> in_s 64 w -> decimal_text v = decimal_text w -> v = w.
Proof.
  intros Hv Hw. unfold decimal_text. rewrite (magnitude_of v Hv), (magnitude_of w Hw). intros E. apply rev_inj in E.
  unfold in_s in *. pose proof (decimal_digits_value 20 (Z.abs v) ltac:(cbn; lia)) as Ev. pose proof (decimal_digits_value 20 (Z.abs w) ltac:(cbn; lia)) as Ew.
  pose proof (decimal_digits_digits 20 (Z.abs v)) as Dv. pose proof (decimal_digits_digits 20 (Z.abs w)) as Dw.
  assert (Hm : forall s, Forall (fun c => isdigit c = true) s -> "-"%char ∉ s) by (intros s Hs Hin; rewrite Forall_forall in Hs; by specialize (Hs _ Hin)).
  apply (cut_at "-"%char) in E as [E1 E2]; [|by apply Hm|by apply Hm|destruct (v <? 0); [right; by exists []|by left]|destruct (w <? 0); [right; by exists []|by left]].
  rewrite E1 in Ev. destruct (Z.ltb_spec v 0), (Z.ltb_spec w 0); try done; lia.
Qed.

Lemma decimal_text_no_nul v : Ascii.zero ∉ decimal_text v.
Proof.
  unfold decimal_text. rewrite list_elem_of_In, <-in_rev, <-list_elem_of_In, elem_of_app. intros [Hin|Hin].
  - pose proof (decimal_digits_digits 20 (if v <? 0 then wrap_u 64 (0 - wrap_u 64 v) else wrap_u 64 v)) as D. rewrite Forall_forall in D. by specialize (D _ Hin).
  - destruct (v <? 0); [|by apply elem_of_nil in Hin]. by apply list_elem_of_singleton in Hin.
Qed.

(** ** One signature, one bundle *)

Definition descriptor_fields (d : bundle_descriptor) : list cppstring :=
  [decimal_text (d_tenant_id d); d_bundle_id d; d_name d; d_version d; d_format d; d_sha256_hex d].
Definition nul_free (d : bundle_descriptor) : Prop :=
  in_s 64 (d_tenant_id d) /\ Ascii.zero ∉ d_bundle_id d /\ Ascii.zero ∉ d_name d /\ Ascii.zero ∉ d_version d /\
  Ascii.zero ∉ d_format d /\ Ascii.zero ∉ d_sha256_hex d.

Lemma signing_bytes_fields d : signing_bytes d = kBundleSigDomain ++ sep_fields Ascii.zero (descriptor_fields d).
Proof. unfold signing_bytes, sep_fields, descriptor_fields. cbn [fold_left map concat app]. rewrite <-!app_assoc. cbn [app]. by rewrite app_nil_r. Qed.

Lemma cons_both {A} (x y : A) l k : x :: l = y :: k -> x = y /\ l = k.
Proof. intros E. by injection E. Qed.

Lemma signing_bytes_inj d e : nul_free d -> nul_free e -> signing_bytes d = signing_bytes e -> d = e.
Proof.
  intros (D1 & D2 & D3 & D4 & D5 & D6) (E1 & E2 & E3 & E4 & E5 & E6). rewrite !signing_bytes_fields. intros E. apply app_inv_head in E.
  apply sep_fields_inj in E; [|repeat constructor; try done; apply decimal_text_no_nul..].
  destruct d as [t i n v f s], e as [t' i' n' v' f' s']. 
  unfold descriptor_fields in E. cbn [d_tenant_id d_bundle_id d_name d_version d_format d_sha256_hex] in *.
  apply cons_both in E as [Et E]. apply (decimal_text_inj t t' D1 E1) in Et as ->. by injection E as -> -> -> -> ->.
Qed.

(** ** What was parsed is harmless where it is used *)

Lemma allowed_not_in extra c s : forallb (is_allowed_char extra) s = true -> is_allowed_char extra c = false -> c ∉ s.
Proof. intros Hs Hc Hin. rewrite forallb_forall in Hs. rewrite list_elem_of_In in Hin. specialize (Hs c Hin). congruence. Qed.

(** A name for one file: no separator, no drive, not a directory *)
Definition file_name (s : cppstring) : Prop :=
  s <> [] /\ s <> str "." /\ s <> str ".." /\ (length s <= 128)%nat /\ "/"%char ∉ s /\ c_backslash ∉ s /\ ":"%char ∉ s /\ Ascii.zero ∉ s.
(** A path of a request line: it starts at the root, and neither ends the line nor the path *)
Definition request_path (s : cppstring) : Prop :=
  head s = Some "/"%char /\ (length s <= 1024)%nat /\ Forall (fun c => (33 <= nat_of_ascii c <= 126)%nat) s /\
  "#"%char ∉ s /\ c_dquote ∉ s /\ c_backslash ∉ s.
(** A value of a query string that cannot end it or start another parameter *)
Definition query_value (s : cppstring) : Prop :=
  s <> [] /\ (length s <= 128)%nat /\ "&"%char ∉ s /\ "#"%char ∉ s /\ "?"%char ∉ s /\ "%"%char ∉ s /\ c_blank ∉ s /\
  c_newline ∉ s /\ c_return ∉ s /\ Ascii.zero ∉ s.

Definition harmless_bundle (b : bundle_info) : Prop :=
  file_name (id b) /\ is_sha256_hex (sha256 b) = true /\ request_path (url b) /\ (length (signature b) <= 512)%nat /\
  Ascii.zero ∉ name b /\ Ascii.zero ∉ version b /\ Ascii.zero ∉ format b /\ in_s 64 (priority b).

Section parsing.
Context `{JsonLaws}.

Lemma require_string_ok o key context v : require_string o key context = Ok v -> v <> [].
Proof. unfold require_string. destruct (if_contains o key) as [[]|]; try done. destruct s; [done|]. by intros [= <-]. Qed.

Lemma require_token_ok o key context extra n v : require_token o key context extra n = Ok v ->
  v <> [] /\ (length v <= n)%nat /\ forallb (is_allowed_char extra) v = true.
Proof. unfold require_token. intros E. inv_ok. subst. apply require_string_ok in Hok. breflect. done. Qed.

Lemma find_prefix s key : is_prefix key s = true -> is_Some (find s key 0).
Proof. intros E. unfold find. cbn [Nat.leb drop]. destruct s; cbn in *; rewrite E; by eexists. Qed.

Lemma require_id_ok o key context v : require_id o key context = Ok v -> file_name v.
Proof.
  unfold require_id. intros E. inv_ok. subst. apply require_token_ok in Hok as (H1 & H2 & H3).
  apply negb_true_iff, bool_decide_eq_false in Hg, Hg0.
  split_and!; try done; try (by apply (allowed_not_in id_extra_chars)). intros ->. apply Hg. by apply find_prefix.
Qed.

Lemma require_sha256_ok o key context v : require_sha256_hex o key context = Ok v -> is_sha256_hex v = true.
Proof. unfold require_sha256_hex. intros E. inv_ok. by subst. Qed.

Lemma require_url_ok o key context v : require_relative_url o key context = Ok v -> request_path v.
Proof.
  unfold require_relative_url. intros E. inv_ok. subst. apply bool_decide_eq_true in Hg0. apply Nat.leb_le in Hg.
  assert (Hu : forall c, c ∈ v -> url_char c = true) by (intros c Hc; rewrite forallb_forall in Hg1; apply Hg1; by apply list_elem_of_In).
  split_and!; try done.
  - apply Forall_forall. intros c Hc. specialize (Hu c Hc). unfold url_char in Hu. breflect. lia.
  - intros Hin. by specialize (Hu _ Hin).
  - intros Hin. by specialize (Hu _ Hin).
  - intros Hin. by specialize (Hu _ Hin).
Qed.

Lemma require_signed_ok o key context fallback v : require_signed_string o key context fallback = Ok v -> Ascii.zero ∉ v.
Proof. unfold require_signed_string. intros E. inv_ok. subst. apply negb_true_iff in Hg. by apply bool_decide_eq_false in Hg. Qed.

Lemma member_well_typed o key v : well_typed (JObject o) -> if_contains o key = Some v -> well_typed v.
Proof.
  intros Hw. inversion Hw as [| | | | | | |? _ Hall]; subst. clear Hw. induction Hall as [|[k x] o Hx Hall IH]; cbn [if_contains]; [done|].
  destruct (bool_decide (k = key)); [by intros [= <-]|done].
Qed.

Lemma to_number_range v z : well_typed v -> to_number v = Some (Ok z) -> in_s 64 z.
Proof.
  intros Hw. inversion Hw as [| |? Hz|? Hz|d| | |]; subst; cbn [to_number]; try done.
  - by intros [= <-].
  - destruct (Z.leb_spec z0 (2 ^ 63 - 1)); [|done]. intros [= <-]. destruct Hz. split; lia.
  - intros [= E]. by apply double_to_int64_range in E.
Qed.

Lemma optional_int_range o key fallback z : well_typed (JObject o) -> in_s 64 fallback -> optional_int o key fallback = Ok z -> in_s 64 z.
Proof.
  intros Hw Hf. unfold optional_int. destruct (if_contains o key) as [v|] eqn:E; [|by intros [= <-]].
  destruct (to_number v) as [r|] eqn:En; [|by intros [= <-]]. intros ->. apply to_number_range in En; [done|]. by eapply member_well_typed.
Qed.

Lemma require_int_range o key context z : well_typed (JObject o) -> require_int o key context = Ok z -> in_s 64 z.
Proof.
  intros Hw. unfold require_int. destruct (if_contains o key) as [v|] eqn:E; [|done]. apply member_well_typed in E; [|done].
  destruct v; try done; [by intros [= <-]; inversion E|]. destruct (Z.leb_spec z0 (2 ^ 63 - 1)); [|done]. intros [= <-].
  inversion E as [| | |? Hz| | | |]; subst. destruct Hz. split; lia.
Qed.

Lemma parse_bundle_harmless e b : well_typed e -> parse_bundle e = Ok b -> harmless_bundle b.
Proof.
  intros Hw. unfold parse_bundle. destruct e; try done. intros E. inv_ok. subst b.
  apply require_id_ok in Hok. apply require_sha256_ok in Hok0. apply require_token_ok in Hok1 as (_ & Hs & _). apply require_url_ok in Hok2.
  apply require_signed_ok in Hok3, Hok4, Hok6. apply optional_int_range in Hok5; [|done|split; lia]. split_and!; done.
Qed.

Lemma parse_bundles_harmless l : forall bs, Forall well_typed l -> parse_bundles l = Ok bs -> Forall harmless_bundle bs.
Proof.
  induction l as [|e l IH]; intros bs Hw E; cbn [parse_bundles] in E; [injection E as <-; constructor|]. inversion Hw; subst. inv_ok. subst bs.
  constructor; [by eapply parse_bundle_harmless|by apply IH].
Qed.
End parsing.

(** *** The order of the bundles *)

Lemma insert_bundle_perm b l : insert_bundle b l ≡ₚ b :: l.
Proof. induction l as [|c l IH]; cbn; [done|]. destruct (_ <? _); [|done]. rewrite IH. constructor. Qed.
Lemma sort_bundles_perm l : sort_bundles l ≡ₚ l.
Proof. induction l as [|b l IH]; cbn; [done|]. by rewrite insert_bundle_perm, IH. Qed.
Lemma insert_bundle_sorted b l : StronglySorted (fun x y => priority x <= priority y) l -> StronglySorted (fun x y => priority x <= priority y) (insert_bundle b l).
Proof.
  induction 1 as [|c l S IH F]; cbn; [by repeat constructor|]. destruct (Z.ltb_spec (priority c) (priority b)).
  - constructor; [done|]. rewrite insert_bundle_perm. constructor; [lia|done].
  - constructor; [by constructor|]. constructor; [lia|]. eapply Forall_impl; [exact F|]. cbn. lia.
Qed.
Lemma sort_bundles_sorted l : StronglySorted (fun x y => priority x <= priority y) (sort_bundles l).
Proof. induction l; cbn; [constructor|by apply insert_bundle_sorted]. Qed.
(** Bundles of one priority keep the server's order. *)
Lemma insert_bundle_stable p b l : filter (fun c => priority c = p) (insert_bundle b l) = filter (fun c => priority c = p) (b :: l).
Proof.
  induction l as [|c l IH]; cbn [insert_bundle]; [done|]. destruct (Z.ltb_spec (priority c) (priority b)); [|done].
  rewrite !filter_cons in *. rewrite IH. destruct (decide (priority c = p)), (decide (priority b = p)); try done. lia.
Qed.
Lemma sort_bundles_stable p l : filter (fun c => priority c = p) (sort_bundles l) = filter (fun c => priority c = p) l.
Proof. induction l as [|b l IH]; cbn [sort_bundles]; [done|]. rewrite insert_bundle_stable, !filter_cons, IH. done. Qed.

Record harmless_state (st : desired_state) : Prop := Harmless {
  harmless_tenant : in_s 64 (tenant_id st);
  harmless_hash : query_value (state_hash st);
  harmless_poll : 1 <= next_poll_in_seconds st <= 86400;
  harmless_bundles : Forall harmless_bundle (bundles st);
  harmless_order : StronglySorted (fun x y => priority x <= priority y) (bundles st) }.

Lemma parse_root_typed `{JsonLaws} body o : parse_root body = Ok o -> well_typed (JObject o).
Proof. unfold parse_root. intros E. inv_ok. apply parse_well_typed in Hok. by destruct x; try done; injection E as ->. Qed.

Lemma parsed_harmless `{JsonLaws} body st : parse_desired_state body = Ok st -> harmless_state st.
Proof.
  unfold parse_desired_state, parse_object. intros E. destruct (parse_root body) as [root|] eqn:Er; [|done]. cbn [rbind] in E.
  apply parse_root_typed in Er. inv_ok. subst st. constructor; cbn [tenant_id state_hash next_poll_in_seconds bundles].
  - destruct (has_bundles root); [by eapply require_int_range|eapply optional_int_range; [done| |done]; split; lia].
  - apply require_token_ok in Hok0 as (H1 & H2 & H3). split_and!; try done; by apply (allowed_not_in token_extra_chars).
  - unfold clamp_poll_seconds, default_poll_seconds, max_poll_seconds. destruct (Z.leb_spec x1 0); lia.
  - rewrite sort_bundles_perm. destruct (if_contains root (str "bundles")) as [v|] eqn:Eb; [|injection Hok3 as <-; constructor].
    apply member_well_typed in Eb; [|done]. destruct v; try done; [injection Hok3 as <-; constructor|].
    inversion Eb; subst. by eapply parse_bundles_harmless.
  - apply sort_bundles_sorted.
Qed.

(** The hint of a 304 is one the loop can sleep by. *)
Lemma next_poll_bounds `{JsonLib} body n : parse_next_poll body = Some n -> 1 <= n <= 86400.
Proof.
  unfold parse_next_poll, max_poll_seconds. destruct (parse_root body) as [root|]; [|done]. destruct (if_contains _ _) as [v|]; [|done].
  destruct (to_number v) as [[z|]|]; [|done|done]. destruct (Z.leb_spec z 0); [done|]. intros [= <-]. lia.
Qed.

(** A desired state that was accepted has a hash that cannot leave its query parameter, a poll
    interval between a second and a day, bundles in the order of their priority, and for each an
    id that names a single file, a request path that cannot end the request line, and no NUL in
    a signed field. *)
Theorem parsed_state_is_harmless `{JsonLaws} body st : parse_desired_state body = Ok st -> harmless_state st.
Proof. apply parsed_harmless. Qed.

Lemma describe_nul_free tenant b : in_s 64 tenant -> harmless_bundle b -> nul_free (describe_bundle tenant b).
Proof.
  intros Ht (Hid & Hsha & _ & _ & Hn & Hv & Hf & _). split_and!; try done; [apply Hid|]. cbn. intros Hin.
  unfold is_sha256_hex in Hsha. apply andb_prop in Hsha as [_ Hall]. rewrite forallb_forall in Hall.
  rewrite list_elem_of_In in Hin. by specialize (Hall _ Hin).
Qed.

(** C10. Two bundles of desired states that were accepted, in whatever responses, have the same
    signing bytes only if tenant, id, name, version, format and digest are the same: no
    signature can be moved to another bundle. *)
Theorem a_signature_covers_one_bundle `{JsonLaws} body1 st1 b1 body2 st2 b2 :
  parse_desired_state body1 = Ok st1 -> b1 ∈ bundles st1 -> parse_desired_state body2 = Ok st2 -> b2 ∈ bundles st2 ->
  signing_bytes (describe_bundle (tenant_id st1) b1) = signing_bytes (describe_bundle (tenant_id st2) b2) ->
  tenant_id st1 = tenant_id st2 /\ id b1 = id b2 /\ name b1 = name b2 /\ version b1 = version b2 /\ format b1 = format b2 /\ sha256 b1 = sha256 b2.
Proof.
  intros P1 B1 P2 B2 E. apply parsed_harmless in P1 as [T1 _ _ F1 _], P2 as [T2 _ _ F2 _]. rewrite Forall_forall in F1, F2.
  apply signing_bytes_inj in E; [|by apply describe_nul_free; [|apply F1]|by apply describe_nul_free; [|apply F2]].
  unfold describe_bundle in E. by injection E as -> -> -> -> -> ->.
Qed.

(** ** The last document that names a setting decides it *)

Section json_induction.
Context (P : json -> Prop)
  (Pnull : P JNull) (Pbool : forall b, P (JBool b)) (Pint : forall z, P (JInt z)) (Puint : forall z, P (JUint z))
  (Pdouble : forall d, P (JDouble d)) (Pstring : forall s, P (JString s))
  (Parray : forall l, Forall P l -> P (JArray l)) (Pobject : forall o, Forall (fun m => P m.2) o -> P (JObject o)).
Fixpoint json_ind_nested (v : json) : P v :=
  match v with
  | JNull => Pnull | JBool b => Pbool b | JInt z => Pint z | JUint z => Puint z | JDouble d => Pdouble d | JString s => Pstring s
  | JArray l => Parray l ((fix go l := match l return Forall P l with
                            | [] => Forall_nil_2 P | x :: l => Forall_cons_2 P x l (json_ind_nested x) (go l) end) l)
  | JObject o => Pobject o ((fix go o := match o return Forall (fun m => P m.2) o with
                              | [] => Forall_nil_2 _ | (k, x) :: o => Forall_cons_2 (fun m => P m.2) (k, x) o (json_ind_nested x) (go o) end) o)
  end.
End json_induction.

Section merging.
Context `{JsonLaws}.

Definition members_of (v : json) : json_object := match v with JObject o => o | _ => [] end.
Definition merge_member (result : json_object) (m : cppstring * json) : json_object :=
  if is_null m.2 then obj_erase m.1 result else obj_put m.1 (json_merge_patch (default JNull (if_contains result m.1)) m.2) result.

Lemma merge_object t o : json_merge_patch t (JObject o) = JObject (fold_left merge_member o (members_of t)).
Proof. done. Qed.

Lemma if_contains_not k o : k ∉ keys o -> if_contains o k = None.
Proof.
  unfold keys. induction o as [|[j v] o IH]; cbn; [done|]. rewrite not_elem_of_cons. intros [Hn Ho]. rewrite bool_decide_eq_false_2 by done. by apply IH.
Qed.

(** What the members of the patch do to one name *)
Lemma merge_lookup o : forall r k, NoDup (keys o) -> NoDup (keys r) ->
  NoDup (keys (fold_left merge_member o r)) /\
  if_contains (fold_left merge_member o r) k =
    match if_contains o k with
    | None => if_contains r k
    | Some v => if is_null v then None else Some (json_merge_patch (default JNull (if_contains r k)) v)
    end.
Proof.
  induction o as [|[j v] o IH]; intros r k Ho Hr; cbn [fold_left if_contains]; [done|]. cbn [keys map fst] in Ho.
  apply NoDup_cons in Ho as [Hj Ho].
  assert (Hm : NoDup (keys (merge_member r (j, v)))) by (unfold merge_member; destruct (is_null _); [by apply erase_nodup|by apply put_nodup]).
  destruct (IH (merge_member r (j, v)) k Ho Hm) as [N E]. split; [done|]. rewrite E.
  assert (Hl : if_contains (merge_member r (j, v)) k = if decide (j = k) then (if is_null v then None else Some (json_merge_patch (default JNull (if_contains r j)) v)) else if_contains r k).
  { unfold merge_member. cbn [fst snd]. destruct (is_null v); [rewrite erase_lookup by done|rewrite put_lookup by done]; by destruct (decide (j = k)). }
  destruct (bool_decide_reflect (j = k)) as [<-|N'].
  - rewrite (if_contains_not j o) by done. rewrite Hl. by destruct (decide (j = j)).
  - rewrite Hl. by destruct (decide (j = k)).
Qed.

Lemma members_nodup v : well_typed v -> NoDup (keys (members_of v)).
Proof. intros Hw. inversion Hw; subst; cbn; try apply NoDup_nil_2. done. Qed.

Lemma member_in o k v : if_contains o k = Some v -> (k, v) ∈ o.
Proof.
  induction o as [|[j x] o IH]; cbn [if_contains]; [done|]. destruct (bool_decide_reflect (j = k)) as [->|]; [intros [= ->]; by left|].
  intros E. right. by apply IH.
Qed.
Lemma in_member o k v : NoDup (keys o) -> (k, v) ∈ o -> if_contains o k = Some v.
Proof.
  induction o as [|[j x] o IH]; cbn [if_contains keys map fst]; [by intros _ ?%elem_of_nil|]. rewrite NoDup_cons. intros [Hj Ho] [E|E]%elem_of_cons.
  - injection E as -> ->. by rewrite bool_decide_eq_true_2.
  - rewrite bool_decide_eq_false_2; [by apply IH|]. intros ->. apply Hj. apply list_elem_of_fmap. by exists (k, v).
Qed.
Lemma object_well_typed o : NoDup (keys o) -> (forall k v, if_contains o k = Some v -> well_typed v) -> well_typed (JObject o).
Proof. intros Hn Hv. constructor; [done|]. apply Forall_forall. intros [k v] Hin. apply (Hv k). by apply in_member. Qed.

Lemma merge_well_typed p : forall t, well_typed t -> well_typed p -> well_typed (json_merge_patch t p).
Proof.
  induction p using json_ind_nested; intros t Ht Hp; try exact Hp. rename H1 into IH. rewrite merge_object. inversion Hp as [| | | | | | |? Ho Hall]; subst.
  apply object_well_typed; [by apply (merge_lookup o (members_of t) []); [|apply members_nodup]|].
  intros k v. destruct (merge_lookup o (members_of t) k Ho (members_nodup t Ht)) as [_ ->].
  assert (Hr : forall v, if_contains (members_of t) k = Some v -> well_typed v).
  { intros x. destruct t; cbn [members_of]; try done. by apply member_well_typed. }
  destruct (if_contains o k) as [x|] eqn:Ex; [|apply Hr]. destruct (is_null x); [done|]. intros [= <-]. apply member_in in Ex.
  rewrite Forall_forall in IH, Hall. apply (IH (k, x) Ex); [|by apply (Hall (k, x))].
  destruct (if_contains (members_of t) k) as [y|]; cbn; [by apply Hr|constructor].
Qed.

(** The setting at a path, where it is one and no further object *)
Fixpoint setting_at (path : list cppstring) (v : json) : option json :=
  match v, path with
  | JObject o, k :: path => match if_contains o k with Some v => setting_at path v | None => None end
  | JObject _, [] => None
  | _, [] => Some v
  | _, _ :: _ => None
  end.

(** What a document says of a path: nothing, or the setting there, or that there is none *)
Fixpoint opinion (path : list cppstring) (v : json) : option (option json) :=
  match v, path with
  | JObject o, k :: path =>
      match if_contains o k with
      | None => None
      | Some v => if is_null v then Some None else opinion path v
      end
  | JObject _, [] => Some None
  | _, [] => Some (Some v)
  | _, _ :: _ => Some None
  end.

Lemma merge_setting path : forall t p, well_typed t -> well_typed p ->
  setting_at path (json_merge_patch t p) = match opinion path p with Some d => d | None => setting_at path t end.
Proof.
  induction path as [|k path IH]; intros t p Ht Hp; destruct p as [| | | | | | |o]; try done.
  rewrite merge_object. cbn [setting_at opinion]. inversion Hp as [| | | | | | |? Ho Hall]; subst.
  destruct (merge_lookup o (members_of t) k Ho (members_nodup t Ht)) as [_ ->]. destruct (if_contains o k) as [v|] eqn:Ev.
  - destruct (is_null v) eqn:En; [done|]. rewrite IH; [| |by eapply member_well_typed].
    + destruct (opinion path v) as [d|] eqn:Ed; [done|]. destruct path as [|k' path]; [by destruct v|].
      destruct t as [| | | | | | |o0]; cbn [members_of if_contains]; try done. destruct (if_contains o0 k); reflexivity.
    + destruct t as [| | | | | | |o0]; cbn [members_of]; try constructor. destruct (if_contains o0 k) as [j|] eqn:E; [exact (member_well_typed o0 k j Ht E)|constructor].
  - destruct t; cbn [members_of if_contains setting_at]; done.
Qed.

Lemma fold_setting path configs : forall base, well_typed base -> Forall well_typed configs ->
  well_typed (fold_left json_merge_patch configs base) /\
  setting_at path (fold_left json_merge_patch configs base) =
    fold_left (fun acc d => default acc (opinion path d)) configs (setting_at path base).
Proof.
  induction configs as [|c configs IH]; intros base Hb Hc; [done|]. inversion Hc; subst. cbn [fold_left].
  destruct (IH (json_merge_patch base c)) as [H1 H2]; [by apply merge_well_typed|done|]. split; [done|]. rewrite H2, merge_setting by done.
  by destruct (opinion path c).
Qed.

(** C21. For every path of settings, the merged configuration has what the last document that
    says anything about the path says: the host's own document if it does, else the last bundle
    in the order of priority; a null, or a plain value above the path, removes it. *)
Theorem last_document_decides configs host_override path :
  Forall well_typed configs -> well_typed host_override ->
  setting_at path (merged_config configs host_override) =
    default (fold_left (fun acc d => default acc (opinion path d)) configs None) (opinion path host_override).
Proof.
  intros Hc Hh. unfold merged_config. destruct (fold_setting path configs (JObject [])) as [H1 H2]; [by constructor; [apply NoDup_nil_2|]|done|].
  rewrite merge_setting, H2 by done. replace (setting_at path (JObject [])) with (@None json) by (by destruct path). by destruct (opinion path host_override).
Qed.
End merging.

(** ** A configuration renders no line of its own making *)

Fixpoint ini_lines (s : cppstring) : list cppstring :=
  match s with
  | [] => [[]]
  | c :: s => if bool_decide (c = c_newline) then [] :: ini_lines s
              else match ini_lines s with l :: ls => (c :: l) :: ls | [] => [[c]] end
  end.

Lemma ini_lines_cons l s : c_newline ∉ l -> ini_lines (l ++ nl ++ s) = l :: ini_lines s.
Proof.
  induction l as [|c l IH]; intros Hl; [done|]. apply not_elem_of_cons in Hl as [Hc Hl]. cbn [app ini_lines].
  rewrite bool_decide_eq_false_2 by done. by rewrite IH.
Qed.
Lemma ini_lines_join ls : Forall (fun l => c_newline ∉ l) ls -> ini_lines (concat (map (fun l => l ++ nl) ls)) = ls ++ [[]].
Proof.
  induction 1 as [|l ls Hl Hall IH]; [done|]. cbn [map concat app]. rewrite <-app_assoc, ini_lines_cons by done. by rewrite IH.
Qed.

(** No control character but the tab *)
Definition clean (s : cppstring) : Prop := forall w, reject_control_chars s w = Ok tt.

Lemma rejected_unless_clean s w : reject_control_chars s w = Ok tt -> clean s.
Proof. unfold clean, reject_control_chars. destruct (forallb _ s); [done|done]. Qed.
Lemma clean_app s t : clean s -> clean t -> clean (s ++ t).
Proof.
  unfold clean, reject_control_chars. intros Hs Ht w. specialize (Hs w). specialize (Ht w). rewrite forallb_app.
  destruct (forallb _ s); [|done]. destruct (forallb _ t); [|done]. done.
Qed.
Lemma clean_not s c : clean s -> reject_control_chars [c] [] <> Ok tt -> c ∉ s.
Proof.
  unfold clean, reject_control_chars. intros Hs Hc Hin. specialize (Hs []). destruct (forallb _ s) eqn:E; [|done].
  rewrite forallb_forall in E. rewrite list_elem_of_In in Hin. specialize (E c Hin). apply Hc. cbn [forallb]. by rewrite E.
Qed.

Definition clean_sections (m : ini_sections) : Prop :=
  forall path sec, m !! path = Some sec -> clean path /\ forall k v, sec !! k = Some v -> clean k /\ clean v.

Section rendering.
Context `{JsonLib}.

Lemma put_entry_clean path key value m : clean path -> clean key -> clean value -> clean_sections m -> clean_sections (put_entry path key value m).
Proof.
  intros Hp Hk Hv Hm path' sec. unfold put_entry. destruct (decide (path = path')) as [<-|N]; [|rewrite lookup_insert_ne by done; apply Hm].
  rewrite lookup_insert_eq. intros [= <-]. split; [done|]. intros k v. destruct (decide (key = k)) as [<-|N].
  - rewrite lookup_insert_eq. by intros [= <-].
  - rewrite lookup_insert_ne by done. destruct (m !! path) as [old|] eqn:E; cbn; [|by rewrite lookup_empty]. apply (Hm path old E).
Qed.

Definition collect_member (path : cppstring) (acc : result cppstring ini_sections) (m : cppstring * json) : result cppstring ini_sections :=
  let* sections := acc in
  let* _ := reject_control_chars m.1 (str "key") in
  match m.2 with
  | JObject _ => collect_ini m.2 (path ++ str "/" ++ m.1) sections
  | JNull => Ok sections
  | JArray elements =>
      let joined := fold_left join_element elements [] in
      let* _ := reject_control_chars joined (str "value") in Ok (put_entry (section_of path) m.1 joined sections)
  | v =>
      let rendered := format_ini_value v in
      let* _ := reject_control_chars rendered (str "value") in Ok (put_entry (section_of path) m.1 rendered sections)
  end.
Lemma collect_object o path m : collect_ini (JObject o) path m = fold_left (collect_member path) o (Ok m).
Proof. reflexivity. Qed.
Lemma collect_thrown path o e : fold_left (collect_member path) o (Throw e) = Throw e.
Proof. induction o; [done|]. cbn [fold_left collect_member rbind]. done. Qed.

Lemma section_of_clean path : clean path -> clean (section_of path).
Proof. intros Hp. unfold section_of. by destruct (bool_decide _). Qed.

Lemma collect_clean v : forall path m m', clean path -> clean_sections m -> collect_ini v path m = Ok m' -> clean_sections m'.
Proof.
  induction v using json_ind_nested; intros path m m' Hp Hm E; try (injection E as <-; exact Hm).
  rewrite collect_object in E. revert m Hm E. induction H0 as [|[k v] o IHv Hall IHo]; intros m Hm E; cbn [fold_left] in E; [by injection E as <-|].
  destruct (collect_member path (Ok m) (k, v)) as [m1|e] eqn:E1; [|by rewrite collect_thrown in E]. apply (IHo m1); [|done].
  clear IHo E Hall. unfold collect_member in E1. cbn [rbind fst snd] in E1. apply rbind_Ok_inv in E1 as ([] & Hk & E1). apply rejected_unless_clean in Hk.
  assert (Hput : forall r, (let* _ := reject_control_chars r (str "value") in Ok (put_entry (section_of path) k r m)) = Ok m1 -> clean_sections m1).
  { intros r Er. apply rbind_Ok_inv in Er as ([] & Hr & Er). injection Er as <-. apply rejected_unless_clean in Hr. apply put_entry_clean; try done. by apply section_of_clean. }
  destruct v; try (by apply Hput in E1); [by injection E1 as <-|]. apply (IHv (path ++ str "/" ++ k) m); [|done|done].
  apply clean_app; [done|]. by apply clean_app.
Qed.

Definition section_lines (s : cppstring * gmap cppstring cppstring) : list cppstring :=
  [] :: (str "[" ++ s.1 ++ str "]") :: map (fun e => e.1 ++ str "=" ++ e.2) (sort_by_key (map_to_list s.2)).
Lemma write_section_lines s : write_section s = concat (map (fun l => l ++ nl) (section_lines s)).
Proof.
  unfold write_section, section_lines. cbn [map concat app]. rewrite <-!app_assoc. rewrite map_map. do 5 f_equal. apply (f_equal (@concat ascii)), map_ext. intros e. by rewrite <-!app_assoc.
Qed.

Lemma section_lines_clean m s : clean_sections m -> s ∈ map_to_list m -> Forall (fun l => c_newline ∉ l) (section_lines s).
Proof.
  intros Hm Hin. destruct s as [path sec]. apply elem_of_map_to_list in Hin. destruct (Hm path sec Hin) as [Hp Hs].
  assert (Hnl : forall s, clean s -> c_newline ∉ s) by (intros s Hc; by apply clean_not).
  constructor; [by apply not_elem_of_nil|]. constructor.
  - apply Hnl, clean_app; [done|]. by apply clean_app.
  - apply Forall_fmap, Forall_forall. intros [k v] Hkv. rewrite sort_by_key_perm, elem_of_map_to_list in Hkv. destruct (Hs k v Hkv).
    cbn [fst snd]. apply Hnl, clean_app; [done|]. by apply clean_app.
Qed.

Lemma ini_lines_sections (ss : list (list cppstring)) : Forall (Forall (fun l => c_newline ∉ l)) ss ->
  ini_lines (concat (map (fun ls => concat (map (fun l => l ++ nl) ls)) ss)) = concat ss ++ [[]].
Proof.
  intros Hs. rewrite <-ini_lines_join by (by apply Forall_concat). f_equal. clear Hs. induction ss as [|ls ss IH]; [done|].
  cbn [map concat]. by rewrite map_app, concat_app, IH.
Qed.

(** The lines of a rendered configuration are exactly the header, one line per section and one
    per entry: no key, value or section name starts a line of its own. *)
Theorem rendering_adds_no_line config text : render_ini config = Ok text ->
  exists sections, collect_ini config [] ∅ = Ok sections /\ clean_sections sections /\
    ini_lines text = ini_header :: concat (map section_lines (sort_by_key (map_to_list sections))) ++ [[]].
Proof.
  unfold render_ini. destruct config; try done. intros E. apply rbind_Ok_inv in E as (m & Em & E).
  assert (Et : text = ini_header ++ nl ++ concat (map write_section (sort_by_key (map_to_list m)))) by congruence. clear E. subst text. exists m. split; [done|].
  assert (Hm : clean_sections m) by (eapply collect_clean; [| |exact Em]; [done|]; intros ? ?; by rewrite lookup_empty). split; [done|].
  rewrite ini_lines_cons by vm_decide. f_equal. 
  rewrite (map_ext _ _ write_section_lines), <-(map_map section_lines (fun ls => concat (map (fun l => l ++ nl) ls))), ini_lines_sections; [done|].
  apply Forall_fmap, Forall_forall. intros sec Hs. rewrite sort_by_key_perm in Hs. by eapply section_lines_clean.
Qed.
End rendering.

(** ** The library at work: objects that keep their members in order *)

(** A closed value is well typed *)
Ltac well_typed :=
  repeat match goal with
  | |- well_typed (_, _).2 => cbn [snd]
  | |- well_typed (JObject _) => constructor; [vm_decide|]
  | |- well_typed _ => constructor
  | |- Forall _ _ => constructor
  | |- in_s _ _ => split; cbn; lia
  | |- in_u _ _ => split; cbn; lia
  end.

Module JsonSamples.
Definition erase_member (k : cppstring) (o : json_object) : json_object := filter (fun m => m.1 <> k) o.
Fixpoint put_member (k : cppstring) (v : json) (o : json_object) : json_object :=
  match o with [] => [(k, v)] | (j, x) :: o => if bool_decide (j = k) then (j, v) :: o else (j, x) :: put_member k v o end.

Lemma erase_member_keys k o : keys (erase_member k o) = filter (fun j => j <> k) (keys o).
Proof. unfold keys, erase_member. induction o as [|[j x] o IH]; [done|]. cbn [map fst]. rewrite !filter_cons. cbn [fst]. destruct (decide (j <> k)); cbn [map fst]; by rewrite IH. Qed.
Lemma erase_member_lookup k o j : if_contains (erase_member k o) j = if decide (k = j) then None else if_contains o j.
Proof.
  unfold erase_member. induction o as [|[i x] o IH]; [by destruct (decide _)|]. rewrite filter_cons. cbn [fst if_contains].
  destruct (decide (i <> k)) as [N|E]; cbn [if_contains]; rewrite IH.
  - destruct (bool_decide_reflect (i = j)) as [->|]; [|done]. by destruct (decide (k = j)).
  - apply dec_stable in E as ->. destruct (decide (k = j)) as [->|N]; [done|]. by rewrite bool_decide_eq_false_2.
Qed.
Lemma put_member_lookup k v o j : if_contains (put_member k v o) j = if decide (k = j) then Some v else if_contains o j.
Proof.
  induction o as [|[i x] o IH]; cbn [put_member if_contains].
  - destruct (decide (k = j)); [by rewrite bool_decide_eq_true_2|by rewrite bool_decide_eq_false_2].
  - destruct (bool_decide_reflect (i = k)) as [->|N]; cbn [if_contains].
    + destruct (decide (k = j)); [by rewrite bool_decide_eq_true_2|by rewrite bool_decide_eq_false_2].
    + rewrite IH. destruct (bool_decide_reflect (i = j)) as [->|]; [|done]. by destruct (decide (k = j)).
Qed.
Lemma put_member_in k v o j : j ∈ keys (put_member k v o) -> j = k \/ j ∈ keys o.
Proof.
  unfold keys. induction o as [|[i x] o IH]; cbn [put_member map fst]; [intros ?%list_elem_of_singleton; by left|].
  destruct (bool_decide_reflect (i = k)); cbn [map fst]; [by right|]. intros [->|Hin]%elem_of_cons; [right; by left|].
  destruct (IH Hin); [by left|right; by right].
Qed.
Lemma put_member_nodup k v o : NoDup (keys o) -> NoDup (keys (put_member k v o)).
Proof.
  induction o as [|[i x] o IH]; cbn [put_member keys map fst]; [intros _; apply NoDup_singleton|]. rewrite NoDup_cons. intros [Hi Ho].
  destruct (bool_decide_reflect (i = k)); cbn [keys map fst]; rewrite NoDup_cons; [done|]. split; [|by apply IH].
  intros Hin. destruct (put_member_in k v o i Hin); [done|]. by apply Hi.
Qed.

Definition lib (root : json_object) : JsonLib :=
  {| parse_value _ := Ok (JObject root); not_object := str "not an object"; json_serialize _ := str "{}"; double_to_int64 _ := Throw (str "not exact"); not_exact := str "not exact";
     obj_erase := erase_member; obj_put := put_member |}.
Lemma lib_laws root : well_typed (JObject root) -> @JsonLaws (lib root).
Proof.
  intros Hw. split; cbn.
  - by intros _ o [= <-].
  - done.
  - intros k o Ho. rewrite erase_member_keys. by apply NoDup_filter.
  - intros k v o. apply put_member_nodup.
  - intros k o j _. apply erase_member_lookup.
  - intros k v o j _. apply put_member_lookup.
Qed.

Definition bundle : json := JObject
  [(str "id", JString (str "01HB")); (str "sha256", JString (replicate 64 "a"%char)); (str "signature", JString (str "c2ln"));
   (str "url", JString (str "/agent/v1/bundles/01HB")); (str "name", JString (str "base")); (str "version", JString (str "1.0")); (str "priority", JInt 5)].
Definition root : json_object :=
  [(str "tenant_id", JInt (-7)); (str "state_hash", JString (str "abc123")); (str "next_poll_in_seconds", JUint (2 ^ 62)); (str "bundles", JArray [bundle])].
Lemma root_typed : well_typed (JObject root).
Proof. unfold root, bundle. well_typed. Qed.
End JsonSamples.

Lemma parsed_state_is_harmless_witness :
  exists st, @parse_desired_state (JsonSamples.lib JsonSamples.root) [] = Ok st /\ harmless_state st.
Proof.
  eexists. split; [vm_compute; reflexivity|].
  apply (@parsed_state_is_harmless (JsonSamples.lib JsonSamples.root) (JsonSamples.lib_laws _ JsonSamples.root_typed) []). vm_compute. reflexivity.
Defined.

Lemma a_signature_covers_one_bundle_witness :
  exists st b, @parse_desired_state (JsonSamples.lib JsonSamples.root) [] = Ok st /\ b ∈ bundles st /\ version b = version b.
Proof.
  destruct (@parse_desired_state (JsonSamples.lib JsonSamples.root) []) as [st|] eqn:E; [|exfalso; vm_compute in E; discriminate E].
  destruct (bundles st) as [|b bs] eqn:Eb; [exfalso; vm_compute in E; injection E as <-; discriminate Eb|].
  assert (Hb : b ∈ bundles st) by (rewrite Eb; by left). exists st, b. split; [done|]. split; [done|].
  apply (@a_signature_covers_one_bundle (JsonSamples.lib JsonSamples.root) (JsonSamples.lib_laws _ JsonSamples.root_typed) [] st b [] st b E Hb E Hb eq_refl).
Defined.

Lemma last_document_decides_witness :
  let a := JObject [(str "x", JObject [(str "k", JString (str "bundle")); (str "gone", JBool true)])] in
  let h := JObject [(str "x", JObject [(str "k", JString (str "host")); (str "gone", JNull)])] in
  @setting_at [str "x"; str "k"] (@merged_config (JsonSamples.lib []) [a] h) = Some (JString (str "host")) /\
  setting_at [str "x"; str "gone"] (@merged_config (JsonSamples.lib []) [a] h) = None.
Proof.
  intros a h. assert (Hl : well_typed (JObject [])) by well_typed. assert (Ha : Forall well_typed [a]) by (unfold a; well_typed).
  assert (Hh : well_typed h) by (unfold h; well_typed).
  split; rewrite (@last_document_decides (JsonSamples.lib []) (JsonSamples.lib_laws _ Hl) [a] h _ Ha Hh); vm_compute; reflexivity.
Defined.

Lemma rendering_adds_no_line_witness :
  exists text, @render_ini (JsonSamples.lib []) (JObject [(str "settings", JObject [(str "port", JInt 8443); (str "on", JBool true)])]) = Ok text /\
    exists sections, ini_lines text = ini_header :: concat (map section_lines (sort_by_key (map_to_list (M := ini_sections) sections))) ++ [[]].
Proof.
  eexists. split; [vm_compute; reflexivity|].
  destruct (@rendering_adds_no_line (JsonSamples.lib []) (JObject [(str "settings", JObject [(str "port", JInt 8443); (str "on", JBool true)])]) _ eq_refl) as (m & _ & _ & E).
  exists m. exact E.
Defined.

(** A key is not kept from looking like a section: this entry is one of the section [/x], and
    its line starts as a section header does. *)
Lemma key_can_look_like_a_section :
  @render_ini (JsonSamples.lib []) (JObject [(str "x", JObject [(str "[/modules]", JString []); (str "evil", JString (str "enabled"))])]) =
  Ok (ini_header ++ nl ++ nl ++ str "[/x]" ++ nl ++ str "[/modules]=" ++ nl ++ str "evil=enabled" ++ nl).
Proof. vm_compute. reflexivity. Qed.
