(* ===== verification/FleetTrust.v ===== *)
(** What the host trusts of the fleet server (libs/onboarding): the signature of a bundle
    (verify.cpp), the rotation of the signing key at renewal ([parse_renew_response] of
    sync.cpp), the sealed envelopes bundles travel in (bundle_crypto.cpp) and the enrollment
    manifest that keeps the keys (state.cpp).

    The cryptography is OpenSSL's and an interface here: [FleetCrypto] its operations,
    [FleetCryptoLaws] what the envelopes rely on. *)

From stdpp Require Import base list strings gmap.
From Stdlib Require Import Ascii ZArith Lia.
From S2P Require Import Prelude Strings Base64 FleetSync DesiredState.

Local Open Scope Z_scope.

Class FleetCrypto := {
  pubkey : Type;
  sha256_raw : cppstring -> cppstring;
  (** [PEM_read_bio_PUBKEY] *)
  read_pem : cppstring -> option pubkey;
  (** [EVP_PKEY_eq] *)
  pubkey_eq : pubkey -> pubkey -> bool;
  (** [EVP_DigestVerifyInit] and [EVP_DigestVerify]: [None] where the first fails *)
  digest_verify : pubkey -> cppstring -> cppstring -> option bool;
  (** AES-256-GCM: key, nonce, associated data, text; the second component is the tag *)
  gcm_seal : cppstring -> cppstring -> cppstring -> cppstring -> cppstring * cppstring;
  gcm_open : cppstring -> cppstring -> cppstring -> cppstring -> cppstring -> option cppstring }.

Class FleetCryptoLaws `{FleetCrypto} : Prop := {
  sha256_length s : length (sha256_raw s) = 32%nat;
  gcm_tag_length k n a p : length (gcm_seal k n a p).2 = 16%nat;
  gcm_open_seal k n a p : length k = 32%nat -> length n = 12%nat ->
    gcm_open k n a (gcm_seal k n a p).1 (gcm_seal k n a p).2 = Some p }.

(** ** Digests *)

Definition hex_digits : cppstring := str "0123456789abcdef".
Definition to_hex (bytes : cppstring) : cppstring :=
  concat (map (fun c => let b := nat_of_ascii c in
    [nth (b / 16) hex_digits Ascii.zero; nth (b mod 16) hex_digits Ascii.zero]) bytes).

Section trust.
Context `{FleetCrypto}.

(** ** Signatures *)

(** The size [b64_decode] reports without a source: an upper bound *)
Definition decoded_bound (n : nat) : nat :=
  if Nat.eqb (n / 4) 0 || negb (Nat.eqb (n mod 4) 0) then 0%nat else (n / 4 * 3)%nat.

(** [Throw] is the error the source leaves in [error] with [false] *)
Definition verify_ed25519 (pub_pem message signature_b64 : cppstring) : result cppstring () :=
  let max_len := decoded_bound (length signature_b64) in
  if Nat.eqb max_len 0 then Throw (str "invalid base64 signature") else
  let signature := b64_decode signature_b64 max_len in
  if bool_decide (signature = []) then Throw (str "invalid base64 signature") else
  match read_pem pub_pem with
  | None => Throw (str "invalid signing public key")
  | Some key =>
      match digest_verify key signature message with
      | None => Throw (str "failed to initialize signature verification")
      | Some false => Throw (str "signature verification failed")
      | Some true => Ok tt
      end
  end.

Definition same_public_key (left_pem right_pem : cppstring) : bool :=
  if bool_decide (left_pem = right_pem) then true else
  match read_pem left_pem, read_pem right_pem with
  | Some k1, Some k2 => pubkey_eq k1 k2
  | _, _ => false
  end.

Definition verify_bundle (pub_pem bytes : cppstring) (descriptor : bundle_descriptor) (signature_b64 : cppstring) : result cppstring () :=
  let digest := to_hex (sha256_raw bytes) in
  if negb (bool_decide (digest = to_lower (d_sha256_hex descriptor)))
  then Throw (str "checksum mismatch: expected " ++ d_sha256_hex descriptor ++ str " got " ++ digest)
  else verify_ed25519 pub_pem (signing_bytes descriptor) signature_b64.

(** ** The enrolled identity and its renewal *)

Record enrolled_identity := Identity {
  private_key_pem : cppstring; cert_pem : cppstring; ca_pem : cppstring; bundle_signing_pub_pem : cppstring;
  server_url : cppstring; mtls_url : cppstring; mtls_server_cert_pem : cppstring;
  bundle_keys : list cppstring; require_encrypted_bundles : bool; allow_plaintext : bool }.

Definition refused_no_key : cppstring := str "Renewal response supplies a bundle signing key, but this host has none to endorse it with, so there is nothing to check it against. Keeping the host without a signing key; re-enroll it to adopt one.".
Definition refused_no_sig : cppstring := str "Renewal response rotates the bundle signing key without a bundle_signing_pub_sig endorsing it with the previous key. Keeping the current key; re-enroll this host to adopt a new one.".
Definition refused_bad_sig (error : cppstring) : cppstring :=
  str "Renewal response rotates the bundle signing key but bundle_signing_pub_sig did not verify with the previous key (" ++ error ++
  str "). Keeping the current key; re-enroll this host to adopt a new one.".

Context `{JsonLib}.

(** Why the new signing key is not taken; empty where it is *)
Definition signing_key_refusal (root : json_object) (new_key current_key : cppstring) : cppstring :=
  if same_public_key new_key current_key then [] else
  if bool_decide (current_key = []) then refused_no_key else
  match if_contains root (str "bundle_signing_pub_sig") with
  | Some (JString signature) =>
      match verify_ed25519 current_key new_key (c_str signature) with Ok _ => [] | Throw error => refused_bad_sig error end
  | _ => refused_no_sig
  end.

(** The renewed identity and why its signing key was kept *)
Definition parse_renew_response (body fresh_private_key : cppstring) (current : enrolled_identity) : result cppstring (enrolled_identity * cppstring) :=
  let ctx := str "Renewal response" in
  let* root := parse_object body (str "renewal response") in
  let* cert := require_string root (str "cert_pem") ctx in
  let* ca := require_string root (str "ca_pem") ctx in
  let* new_signing_key := require_string root (str "bundle_signing_pub_pem") ctx in
  let refusal := signing_key_refusal root new_signing_key (bundle_signing_pub_pem current) in
  let key := if bool_decide (refusal = []) then new_signing_key else bundle_signing_pub_pem current in
  let* server_cert := require_string root (str "mtls_server_cert_pem") ctx in
  Ok (Identity fresh_private_key cert ca key (server_url current) (mtls_url current) server_cert
        (bundle_keys current) (require_encrypted_bundles current) (allow_plaintext current), refusal).

(** ** The manifest *)

Definition serialize_state (s : enrolled_identity) : cppstring :=
  let o := [] in
  let o := obj_put (str "version") (JInt 1) o in
  let o := obj_put (str "private_key_pem") (JString (private_key_pem s)) o in
  let o := obj_put (str "cert_pem") (JString (cert_pem s)) o in
  let o := obj_put (str "ca_pem") (JString (ca_pem s)) o in
  let o := obj_put (str "bundle_signing_pub_pem") (JString (bundle_signing_pub_pem s)) o in
  let o := obj_put (str "server_url") (JString (server_url s)) o in
  let o := obj_put (str "mtls_url") (JString (mtls_url s)) o in
  let o := obj_put (str "mtls_server_cert_pem") (JString (mtls_server_cert_pem s)) o in
  let o := obj_put (str "bundle_keys") (JArray (map JString (bundle_keys s))) o in
  let o := obj_put (str "require_encrypted_bundles") (JBool (require_encrypted_bundles s)) o in
  let o := obj_put (str "allow_plaintext") (JBool (allow_plaintext s)) o in
  json_serialize (JObject o).

Definition read_state_string (o : json_object) (key : cppstring) (required : bool) : result cppstring cppstring :=
  match if_contains o key with
  | Some (JString s) => if required && bool_decide (s = []) then Throw (str "empty field " ++ key) else Ok s
  | _ => Throw (str "missing field " ++ key)
  end.
Fixpoint read_keys (l : list json) : result cppstring (list cppstring) :=
  match l with
  | [] => Ok []
  | JString s :: l => let* ks := read_keys l in Ok (s :: ks)
  | _ :: _ => Throw (str "bundle_keys entry is not a string")
  end.
Definition read_flag (o : json_object) (key : cppstring) : result cppstring bool :=
  match if_contains o key with
  | None => Ok false
  | Some (JBool b) => Ok b
  | Some _ => Throw (key ++ str " is not a boolean")
  end.

(** The manifest that was read; [Throw] is what follows ["is corrupt: "] *)
Definition load_state (text : cppstring) : result cppstring enrolled_identity :=
  let* root := parse_root text in
  let* _ := match if_contains root (str "version") with
            | Some (JInt 1) => Ok tt
            | _ => Throw (str "unsupported state file version")
            end in
  let* key := read_state_string root (str "private_key_pem") true in
  let* cert := read_state_string root (str "cert_pem") true in
  let* ca := read_state_string root (str "ca_pem") true in
  let* signing := read_state_string root (str "bundle_signing_pub_pem") true in
  let* server := read_state_string root (str "server_url") false in
  let* mtls := read_state_string root (str "mtls_url") true in
  let* server_cert := read_state_string root (str "mtls_server_cert_pem") true in
  let* keys := match if_contains root (str "bundle_keys") with
               | None => Ok []
               | Some (JArray l) => read_keys l
               | Some _ => Throw (str "bundle_keys is not an array")
               end in
  let* sealed := read_flag root (str "require_encrypted_bundles") in
  let* plaintext := read_flag root (str "allow_plaintext") in
  Ok (Identity key cert ca signing server mtls server_cert keys sealed plaintext).

(** ** Bundle keys *)

Definition key_separator (c : ascii) : bool := bool_decide (c = ","%char) || bool_decide (c = ";"%char) || isspace c.
Fixpoint split_keys_loop (l current : cppstring) : list cppstring :=
  match l with
  | [] => if bool_decide (current = []) then [] else [current]
  | c :: l =>
      if key_separator c then (if bool_decide (current = []) then [] else [current]) ++ split_keys_loop l []
      else split_keys_loop l (current ++ [c])
  end.
Definition split_bundle_keys (l : cppstring) : list cppstring := split_keys_loop l [].

(** [s.find_last_not_of('=') + 1] *)
Fixpoint skip_equals (s : cppstring) : cppstring := match s with c :: s' => if bool_decide (c = c_equals) then skip_equals s' else s | [] => [] end.
Definition data_length (s : cppstring) : nat := length (skip_equals (rev s)).
Definition key_char (c : ascii) : bool := isalnum c || bool_decide (c = "+"%char) || bool_decide (c = "/"%char).

Definition parse_bundle_key (key_b64 : cppstring) : result cppstring cppstring :=
  let trimmed := trim_space key_b64 in
  if bool_decide (trimmed = []) then Throw (str "bundle key is empty") else
  let data_len := data_length trimmed in
  if Nat.eqb data_len 0 || Nat.ltb 2 (length trimmed - data_len) then Throw (str "bundle key is not base64") else
  if negb (forallb key_char (take data_len trimmed)) then Throw (str "bundle key is not base64") else
  let max_len := decoded_bound (length trimmed) in
  if Nat.eqb max_len 0 then Throw (str "bundle key is not base64") else
  let decoded := b64_decode trimmed max_len in
  if negb (Nat.eqb (length decoded) 32) then Throw (str "bundle key must decode to 32 bytes") else Ok decoded.

(** ** Envelopes *)

Definition magic : cppstring := str "NSEB1".
Definition header_len : nat := 5 + 8 + 12.
Definition raw_fingerprint (raw_key : cppstring) : cppstring := take 8 (sha256_raw raw_key).
Definition bundle_key_fingerprint (raw_key : cppstring) : cppstring := to_hex (raw_fingerprint raw_key).
Definition aad_for (name version : cppstring) : cppstring := name ++ [Ascii.zero] ++ version.

Definition is_encrypted_bundle (bytes : cppstring) : bool := Nat.leb 5 (length bytes) && bool_decide (take 5 bytes = magic).
Definition encrypted_bundle_fingerprint (bytes : cppstring) : cppstring :=
  if negb (is_encrypted_bundle bytes) || Nat.ltb (length bytes) (header_len + 16) then [] else to_hex (substr bytes 5 8).

Inductive unseal := unsealed (plaintext : cppstring) | not_encrypted | corrupt | wrong_key | failed (error : cppstring).

Definition authentication_failed : cppstring := str "authentication failed: the bundle was tampered with, or is served under another name or version".

Definition decrypt_bundle (raw_key name version blob : cppstring) : unseal :=
  if negb (Nat.eqb (length raw_key) 32) then failed (str "bundle key must be 32 bytes") else
  if negb (is_encrypted_bundle blob) then not_encrypted else
  if Nat.ltb (length blob) (header_len + 16) then corrupt else
  if negb (bool_decide (substr blob 5 8 = raw_fingerprint raw_key)) then wrong_key else
  let nonce := substr blob 13 12 in
  let ct := substr blob header_len (length blob - header_len - 16) in
  let tag := drop (length blob - 16) blob in
  match gcm_open raw_key nonce (aad_for name version) ct tag with
  | Some plaintext => unsealed plaintext
  | None => failed authentication_failed
  end.

Definition encrypt_bundle (raw_key nonce name version plaintext : cppstring) : result cppstring cppstring :=
  if negb (Nat.eqb (length raw_key) 32) then Throw (str "bundle key must be 32 bytes") else
  if negb (Nat.eqb (length nonce) 12) then Throw (str "nonce must be 12 bytes") else
  let '(out, tag) := gcm_seal raw_key nonce (aad_for name version) plaintext in
  Ok (magic ++ raw_fingerprint raw_key ++ nonce ++ out ++ tag).

Definition unseal_error (u : unseal) : cppstring :=
  match u with
  | unsealed _ => []
  | not_encrypted => str "not an encrypted bundle"
  | corrupt => str "encrypted bundle is truncated"
  | wrong_key => str "sealed with another key"
  | failed e => e
  end.

Fixpoint try_keys (index : Z) (keys_b64 : list cppstring) (name version bytes sealed_with : cppstring) : result cppstring cppstring :=
  match keys_b64 with
  | [] => Throw (str "no configured bundle key matches this bundle (sealed with key " ++ sealed_with ++ str ")")
  | key_b64 :: keys_b64 =>
      match parse_bundle_key key_b64 with
      | Throw key_error => Throw (str "bundle key " ++ show index ++ str " in the enrollment manifest is invalid: " ++ key_error)
      | Ok raw_key =>
          match decrypt_bundle raw_key name version bytes with
          | unsealed plaintext => Ok plaintext
          | wrong_key => try_keys (index + 1) keys_b64 name version bytes sealed_with
          | u => Throw (str "encrypted bundle could not be opened: " ++ unseal_error u)
          end
      end
  end.

Definition open_bundle (keys_b64 : list cppstring) (name version bytes : cppstring) (require_encrypted : bool) : result cppstring cppstring :=
  if negb (is_encrypted_bundle bytes) then
    if require_encrypted then Throw (str "bundle is not encrypted but this host requires encrypted bundles") else Ok bytes
  else
    let sealed_with := encrypted_bundle_fingerprint bytes in
    if bool_decide (sealed_with = []) then Throw (str "encrypted bundle is truncated") else
    if bool_decide (keys_b64 = []) then
      Throw (str "bundle is encrypted (key " ++ sealed_with ++ str ") but this host has no bundle key: add it with `nscp enroll --bundle-key`")
    else try_keys 1 keys_b64 name version bytes sealed_with.
End trust.
