(* ===== verification/FleetTrustLaws.v ===== *)
(** What the keys of the host guarantee: the signing key moves only with its holder's
    endorsement, a sealed bundle opens with the key it was sealed with and with none other's
    identity, and the enrollment manifest keeps all of it. *)

From stdpp Require Import base list strings gmap.
From Stdlib Require Import Ascii ZArith Lia.
From S2P Require Import Prelude Strings Base64 FleetSync DesiredState DesiredStateLaws FleetTrust.

Local Open Scope Z_scope.

(** ** Keys in their text form *)

Lemma sextet_chars c v : b64_sextet c = Some v -> key_char c = true /\ isspace c = false /\ c <> c_equals.
Proof. destruct c as [[] [] [] [] [] [] [] []]; try (by vm_compute); intros _; split_and!; by vm_compute. Qed.

(** The letters of the alphabet, then the padding *)
Lemma encode_groups_parts s : s <> [] -> exists body pads, encode_groups s = body ++ replicate pads pad /\ body <> [] /\ (pads <= 2)%nat /\
  Forall (fun c => exists v, b64_sextet c = Some v) body.
Proof.
  assert (Hl : forall v s, 0 <= v -> 0 <= s -> exists x, b64_sextet (letter v s) = Some x) by (intros v i Hv Hi; eexists; by apply letter_spec).
  induction s as [|a|a b|a b c s IH] using list_ind3; intros Hs; [done|..]; pose proof (octet_range a); try pose proof (octet_range b); try pose proof (octet_range c);
    cbn [encode_groups].
  - eexists [_; _], 2%nat. split; [reflexivity|]. split_and!; [done|lia|]. repeat constructor; apply Hl; rewrite ?Z.lor_nonneg, ?Z.shiftl_nonneg; lia.
  - eexists [_; _; _], 1%nat. split; [reflexivity|]. split_and!; [done|lia|]. repeat constructor; apply Hl; rewrite ?Z.lor_nonneg, ?Z.shiftl_nonneg; lia.
  - assert (Hg : forall x, x = 18 \/ x = 12 \/ x = 6 \/ x = 0 ->
      exists y, b64_sextet (letter (Z.lor (Z.lor (Z.shiftl (octet a) 16) (Z.shiftl (octet b) 8)) (octet c)) x) = Some y)
      by (intros x Hx; apply Hl; rewrite ?Z.lor_nonneg, ?Z.shiftl_nonneg; lia).
    destruct s as [|d s].
    + eexists [_; _; _; _], 0%nat. split; [reflexivity|]. split_and!; [done|lia|]. repeat constructor; apply Hg; lia.
    + destruct (IH ltac:(done)) as (body & pads & -> & _ & Hp & Hb). eexists (_ :: _ :: _ :: _ :: body), pads. split; [reflexivity|].
      split_and!; [done|lia|]. repeat constructor; [apply Hg; lia..|done].
Qed.

Lemma skip_equals_pads n s : skip_equals (replicate n pad ++ s) = skip_equals s.
Proof. induction n; [done|]. cbn [replicate app skip_equals]. done. Qed.

Lemma rev_repeat_pads n : rev (replicate n pad) = replicate n pad.
Proof. induction n as [|n IH]; [done|]. cbn [replicate rev]. rewrite IH. by rewrite replicate_cons_app. Qed.
Lemma skip_equals_none s : Forall (fun c => c <> c_equals) s -> skip_equals s = s.
Proof. destruct 1; [done|]. cbn. by rewrite bool_decide_eq_false_2. Qed.
Lemma skip_space_none s : Forall (fun c => isspace c = false) s -> skip_space s = s.
Proof. destruct 1 as [|c s Hc]; [done|]. cbn. by rewrite Hc. Qed.
Lemma trim_space_none s : Forall (fun c => isspace c = false) s -> trim_space s = s.
Proof. intros Hs. unfold trim_space. rewrite (skip_space_none s Hs), skip_space_none by (by apply Forall_rev). apply rev_involutive. Qed.

(** A key of 32 bytes, as the operator writes it, is read back. *)
Lemma bundle_key_roundtrip k : length k = 32%nat -> parse_bundle_key (base64_encode k) = Ok k.
Proof.
  intros Hk. assert (Hn : k <> []) by (by intros ->). rewrite base64_encode_groups by (unfold zlength, size_max; rewrite Hk; by vm_compute).
  pose proof (decode_encode k 33 Hn ltac:(lia)) as Hdec. pose proof (length_encode_groups k) as Hlen. rewrite Hk in Hlen. change (4 * ((32 + 2) / 3))%nat with 44%nat in Hlen.
  destruct (encode_groups_parts k Hn) as (body & pads & E & Hb & Hp & Hall). set (t := encode_groups k) in *.
  assert (Hchars : Forall (fun c => key_char c = true /\ isspace c = false /\ c <> c_equals) body) by (eapply Forall_impl; [exact Hall|]; intros c [v Hv]; by eapply sextet_chars).
  assert (Hspace : Forall (fun c => isspace c = false) t).
  { rewrite E. apply Forall_app. split; [eapply Forall_impl; [exact Hchars|]; by intros ? (_ & ? & _)|]. by apply Forall_replicate. }
  assert (Hdata : data_length t = length body).
  { unfold data_length. rewrite E, rev_app_distr, rev_repeat_pads, skip_equals_pads, skip_equals_none, length_rev; [done|].
    apply Forall_rev. eapply Forall_impl; [exact Hchars|]. by intros ? (_ & _ & ?). }
  assert (Htl : length t = (length body + pads)%nat) by (by rewrite E, length_app, length_replicate).
  assert (Hbl : length body <> 0%nat) by (by destruct body).
  unfold parse_bundle_key. rewrite trim_space_none by done. rewrite bool_decide_eq_false_2 by (intros Et; rewrite Et in Hlen; done). rewrite Hdata.
  rewrite (proj2 (Nat.eqb_neq _ _) Hbl). cbn [orb]. destruct (Nat.ltb_spec 2 (length t - length body)); [lia|].
  replace (take (length body) t) with body by (rewrite E; by rewrite take_app_length).
  replace (forallb key_char body) with true by (symmetry; apply forallb_forall; intros c Hc; rewrite Forall_forall in Hchars; apply Hchars; by apply list_elem_of_In).
  cbn [negb]. rewrite Hlen. cbn [decoded_bound]. change (Nat.eqb (decoded_bound 44) 0) with false. cbv iota. change (decoded_bound 44) with 33%nat.
  rewrite Hdec, Hk. done.
Qed.

(** ** Envelopes *)

Section envelopes.
Context `{FleetCryptoLaws}.

(** Where the parts of an envelope lie *)
Lemma envelope_parts fp nonce out tag : length fp = 8%nat -> length nonce = 12%nat -> length tag = 16%nat ->
  let blob := magic ++ fp ++ nonce ++ out ++ tag in
  is_encrypted_bundle blob = true /\ Nat.ltb (length blob) (header_len + 16) = false /\ substr blob 5 8 = fp /\ substr blob 13 12 = nonce /\
  substr blob header_len (length blob - header_len - 16) = out /\ drop (length blob - 16) blob = tag.
Proof.
  intros Hf Hn Ht blob. assert (Hm : length magic = 5%nat) by done.
  assert (Hl : length blob = (41 + length out)%nat) by (unfold blob; rewrite !length_app, Hf, Hn, Ht; cbn [length]; rewrite Hm; lia).
  assert (D5 : drop 5 blob = fp ++ nonce ++ out ++ tag) by done.
  assert (D13 : drop 13 blob = nonce ++ out ++ tag) by (change 13%nat with (5 + 8)%nat; rewrite <-drop_drop, D5; by rewrite drop_app_length').
  assert (D25 : drop 25 blob = out ++ tag) by (change 25%nat with (13 + 12)%nat; rewrite <-drop_drop, D13; by rewrite drop_app_length').
  unfold substr, is_encrypted_bundle, header_len. cbn [Nat.add]. rewrite Hl, D5, D13, D25. split_and!.
  - by rewrite bool_decide_eq_true_2.
  - apply Nat.ltb_ge. lia.
  - by apply take_app_length'.
  - by apply take_app_length'.
  - apply take_app_length'. lia.
  - replace (41 + length out - 16)%nat with (25 + length out)%nat by lia. rewrite <-drop_drop, D25. by apply drop_app_length.
Qed.

Lemma raw_fingerprint_length k : length (raw_fingerprint k) = 8%nat.
Proof. unfold raw_fingerprint. rewrite length_take, sha256_length. done. Qed.

Lemma to_hex_nonempty s : s <> [] -> to_hex s <> [].
Proof. by destruct s. Qed.

(** What an envelope of [k] is to any key *)
Lemma decrypt_envelope k nonce name version pt blob k' : encrypt_bundle k nonce name version pt = Ok blob -> length k' = 32%nat ->
  decrypt_bundle k' name version blob =
    if bool_decide (raw_fingerprint k = raw_fingerprint k') then
      match gcm_open k' nonce (aad_for name version) (gcm_seal k nonce (aad_for name version) pt).1 (gcm_seal k nonce (aad_for name version) pt).2 with
      | Some plaintext => unsealed plaintext | None => failed authentication_failed end
    else wrong_key.
Proof.
  unfold encrypt_bundle. destruct (Nat.eqb_spec (length k) 32) as [Hk|]; [|done]. destruct (Nat.eqb_spec (length nonce) 12) as [Hn|]; [|done]. cbn [negb].
  pose proof (gcm_tag_length k nonce (aad_for name version) pt) as Ht. destruct (gcm_seal _ _ _ _) as [out tag]. cbn [fst snd] in *. intros E Hk'.
  assert (Eb : blob = magic ++ raw_fingerprint k ++ nonce ++ out ++ tag) by congruence. clear E. subst blob.
  destruct (envelope_parts (raw_fingerprint k) nonce out tag (raw_fingerprint_length k) Hn Ht) as (P1 & P2 & P3 & P4 & P5 & P6).
  unfold decrypt_bundle. rewrite Hk', P1, P2, P3, P4, P5, P6. cbn [Nat.eqb negb]. by destruct (bool_decide _).
Qed.

(** Another key of the manifest: readable, and of another fingerprint *)
Definition other_key (k : cppstring) (kb64 : cppstring) : Prop :=
  exists k', parse_bundle_key kb64 = Ok k' /\ raw_fingerprint k <> raw_fingerprint k'.

Lemma parse_bundle_key_length kb64 k : parse_bundle_key kb64 = Ok k -> length k = 32%nat.
Proof.
  unfold parse_bundle_key. destruct (bool_decide _); [done|]. destruct (_ || _); [done|]. destruct (negb (forallb _ _)); [done|]. destruct (Nat.eqb _ 0); [done|].
  destruct (Nat.eqb_spec (length (b64_decode (trim_space kb64) (decoded_bound (length (trim_space kb64))))) 32); [|done]. by intros [= <-].
Qed.

Lemma try_keys_finds k nonce name version pt blob kb64 after sealed : encrypt_bundle k nonce name version pt = Ok blob -> parse_bundle_key kb64 = Ok k ->
  forall before i, Forall (other_key k) before -> try_keys i (before ++ kb64 :: after) name version blob sealed = Ok pt.
Proof.
  intros He Hk before. assert (Hl := parse_bundle_key_length _ _ Hk).
  induction before as [|kb before IH]; intros i Hall; cbn [app try_keys].
  - rewrite Hk, (decrypt_envelope k nonce name version pt blob k He Hl), bool_decide_eq_true_2 by done.
    unfold encrypt_bundle in He. destruct (Nat.eqb_spec (length nonce) 12) as [Hn|]; [|by destruct (Nat.eqb (length k) 32)]. by rewrite gcm_open_seal.
  - inversion Hall as [|? ? (k' & Hk' & Hne) Hall']; subst. rewrite Hk', (decrypt_envelope k nonce name version pt blob k' He (parse_bundle_key_length _ _ Hk')).
    rewrite bool_decide_eq_false_2 by done. by apply IH.
Qed.

(** C23. A bundle sealed with a key opens to its plaintext on a host whose manifest holds that
    key in its text form, at any place among other keys, under the same name and version. *)
Theorem sealed_bundle_opens k nonce name version pt blob before after require_encrypted :
  encrypt_bundle k nonce name version pt = Ok blob -> Forall (other_key k) before ->
  open_bundle (before ++ base64_encode k :: after) name version blob require_encrypted = Ok pt.
Proof.
  intros He Hb. pose proof He as He'. unfold encrypt_bundle in He'.
  destruct (Nat.eqb_spec (length k) 32) as [Hk|]; [|done]. destruct (Nat.eqb_spec (length nonce) 12) as [Hn|]; [|done]. cbn [negb] in He'.
  pose proof (gcm_tag_length k nonce (aad_for name version) pt) as Ht. destruct (gcm_seal _ _ _ _) as [out tag]. cbn [snd] in Ht.
  assert (Eb : blob = magic ++ raw_fingerprint k ++ nonce ++ out ++ tag) by congruence. clear He'.
  destruct (envelope_parts (raw_fingerprint k) nonce out tag (raw_fingerprint_length k) Hn Ht) as (P1 & P2 & P3 & _). rewrite <-Eb in *.
  unfold open_bundle, encrypted_bundle_fingerprint. rewrite P1, P2, P3. cbn [negb orb].
  rewrite bool_decide_eq_false_2. 2: { apply to_hex_nonempty. intros E. pose proof (raw_fingerprint_length k) as L. by rewrite E in L. }
  rewrite bool_decide_eq_false_2 by (by destruct before). eapply try_keys_finds; [exact He|by apply bundle_key_roundtrip|done].
Qed.

(** What [open_bundle] lets through *)
Definition opened_with (keys_b64 : list cppstring) (name version bytes pt : cppstring) : Prop :=
  exists kb64 k, kb64 ∈ keys_b64 /\ parse_bundle_key kb64 = Ok k /\ substr bytes 5 8 = raw_fingerprint k /\
    gcm_open k (substr bytes 13 12) (aad_for name version) (substr bytes header_len (length bytes - header_len - 16)) (drop (length bytes - 16) bytes) = Some pt.

Lemma decrypt_unsealed k name version bytes pt : decrypt_bundle k name version bytes = unsealed pt -> substr bytes 5 8 = raw_fingerprint k /\
  gcm_open k (substr bytes 13 12) (aad_for name version) (substr bytes header_len (length bytes - header_len - 16)) (drop (length bytes - 16) bytes) = Some pt.
Proof.
  unfold decrypt_bundle. destruct (negb _); [done|]. destruct (negb _); [done|]. destruct (Nat.ltb _ _); [done|].
  destruct (bool_decide_reflect (substr bytes 5 8 = raw_fingerprint k)); [|done]. cbn [negb]. destruct (gcm_open _ _ _ _ _); [|done]. by intros [= <-].
Qed.

Lemma try_keys_opened name version bytes sealed pt keys_b64 : forall i, try_keys i keys_b64 name version bytes sealed = Ok pt -> opened_with keys_b64 name version bytes pt.
Proof.
  induction keys_b64 as [|kb64 keys IH]; intros i; cbn [try_keys]; [done|]. destruct (parse_bundle_key kb64) as [k|] eqn:Ek; [|done].
  destruct (decrypt_bundle k name version bytes) as [x| | | |] eqn:Ed; try done.
  - intros [= <-]. apply decrypt_unsealed in Ed as [E1 E2]. exists kb64, k. split_and!; [by left|done..].
  - intros E. destruct (IH _ E) as (kb & k' & Hin & Hrest). exists kb, k'. split; [by right|done].
Qed.

(** A bundle that is opened either is no envelope, where the host does not require one, or was
    authenticated under a key of the manifest whose fingerprint it names, for exactly this name
    and version. *)
Theorem opened_bundle_was_authenticated keys_b64 name version bytes require_encrypted pt :
  open_bundle keys_b64 name version bytes require_encrypted = Ok pt ->
  is_encrypted_bundle bytes = false /\ require_encrypted = false /\ pt = bytes \/
  is_encrypted_bundle bytes = true /\ opened_with keys_b64 name version bytes pt.
Proof.
  unfold open_bundle. destruct (is_encrypted_bundle bytes); cbn [negb].
  - destruct (bool_decide _); [done|]. destruct (bool_decide _); [done|]. intros E. right. split; [done|]. by eapply try_keys_opened.
  - destruct require_encrypted; [done|]. intros [= <-]. by left.
Qed.

(** The associated data tells names and versions apart. *)
Lemma aad_for_inj n v n' v' : Ascii.zero ∉ n -> Ascii.zero ∉ n' -> aad_for n v = aad_for n' v' -> n = n' /\ v = v'.
Proof.
  intros Hn Hn' E. unfold aad_for in E. apply (cut_at Ascii.zero) in E as [-> E]; [|done|done|right; by eexists|right; by eexists]. by injection E as ->.
Qed.
End envelopes.

(** ** The signing key *)

Section renewal.
Context `{FleetCrypto} `{JsonLib}.

(** A valid signature, said of the cryptography alone *)
Definition signed_by (pub_pem message signature_b64 : cppstring) : Prop :=
  exists key raw, read_pem pub_pem = Some key /\ b64_decode signature_b64 (decoded_bound (length signature_b64)) = raw /\ raw <> [] /\
    digest_verify key raw message = Some true.
Lemma verify_ed25519_ok pub_pem message signature : verify_ed25519 pub_pem message signature = Ok tt <-> signed_by pub_pem message signature.
Proof.
  unfold verify_ed25519, signed_by. destruct (Nat.eqb_spec (decoded_bound (length signature)) 0) as [E|_].
  - split; [done|]. intros (key & raw & _ & <- & Hr & _). destruct Hr. unfold decoded_bound in E. unfold b64_decode.
    destruct (_ || _) eqn:Eg; [done|]. apply orb_false_iff in Eg as [Eg _]. apply Nat.eqb_neq in Eg. exfalso. apply Eg. lia.
  - destruct (bool_decide_reflect (b64_decode signature (decoded_bound (length signature)) = [])) as [E|E]; [split; [done|]; intros (? & ? & _ & <- & Hr & _); done|].
    destruct (read_pem pub_pem) as [key|]; [|split; [done|]; by intros (? & ? & ? & _)].
    split; [|intros (k & raw & [= <-] & <- & _ & ->); done]. destruct (digest_verify key _ message) as [[]|] eqn:Ev; try done. intros _. by eexists key, _.
Qed.

Definition same_key (left_pem right_pem : cppstring) : Prop :=
  left_pem = right_pem \/ exists k1 k2, read_pem left_pem = Some k1 /\ read_pem right_pem = Some k2 /\ pubkey_eq k1 k2 = true.
Lemma same_public_key_ok l r : same_public_key l r = true <-> same_key l r.
Proof.
  unfold same_public_key, same_key. destruct (bool_decide_reflect (l = r)) as [->|Hn]; [split; [by left|done]|].
  destruct (read_pem l) as [k1|], (read_pem r) as [k2|]; split; try done; try (intros [?|(? & ? & ? & ? & ?)]; by simplify_eq).
  intros E. right. by exists k1, k2.
Qed.

(** The holder of [old] signed [new], and [root] carries the signature (up to a NUL in it). *)
Definition endorsed (root : json_object) (old new : cppstring) : Prop :=
  old <> [] /\ exists signature, if_contains root (str "bundle_signing_pub_sig") = Some (JString signature) /\ signed_by old new (c_str signature).

Lemma refusal_iff root new old : signing_key_refusal root new old = [] <-> same_key new old \/ endorsed root old new.
Proof.
  unfold signing_key_refusal. rewrite <-same_public_key_ok. unfold endorsed. destruct (same_public_key new old); [split; [by left|done]|].
  destruct (bool_decide_reflect (old = [])) as [->|Ho]; [split; [done|]; intros [?|[? _]]; done|]. setoid_rewrite <-verify_ed25519_ok.
  destruct (if_contains root (str "bundle_signing_pub_sig")) as [[]|] eqn:Er; try (split; [done|]; intros [?|[_ (? & ? & _)]]; done).
  destruct (verify_ed25519 old new (c_str s)) as [[]|e] eqn:Ev; (split; [|intros [?|[_ (x & [= <-] & Hx)]]; try done; congruence]).
  - intros _. right. split; [done|]. by exists s.
  - unfold refused_bad_sig. by destruct e.
Qed.

(** A member of the response that is a text with something in it *)
Definition text_of (root : json_object) (key v : cppstring) : Prop := if_contains root key = Some (JString v) /\ v <> [].
Lemma require_string_iff root key context v : require_string root key context = Ok v <-> text_of root key v.
Proof.
  unfold require_string, text_of. destruct (if_contains root key) as [[]|]; try (split; [done|]; by intros [? _]). destruct s as [|c s]; split; try done.
  - intros [[= <-] ?]. done.
  - by intros [= <-].
  - by intros [[= <-] _].
Qed.

(** C22. What a renewal does, exactly: an answer that parses and has the four texts renews the
    certificate, the authority, the server certificate and the private key, whatever it says
    about the signing key; it changes the bundle signing key if and only if the one it brings is
    the same key written differently or carries a signature of the current key, and otherwise
    keeps the current one and says why; urls, bundle keys and policies stay. Any other answer is
    an error. *)
Theorem signing_key_moves_only_when_endorsed body fresh current renewed refusal :
  parse_renew_response body fresh current = Ok (renewed, refusal) <->
  exists root cert ca key server_cert, parse_root body = Ok root /\
    text_of root (str "cert_pem") cert /\ text_of root (str "ca_pem") ca /\ text_of root (str "bundle_signing_pub_pem") key /\
    text_of root (str "mtls_server_cert_pem") server_cert /\
    refusal = signing_key_refusal root key (bundle_signing_pub_pem current) /\
    (refusal = [] <-> same_key key (bundle_signing_pub_pem current) \/ endorsed root (bundle_signing_pub_pem current) key) /\
    private_key_pem renewed = fresh /\ cert_pem renewed = cert /\ ca_pem renewed = ca /\ mtls_server_cert_pem renewed = server_cert /\
    bundle_signing_pub_pem renewed = (if bool_decide (refusal = []) then key else bundle_signing_pub_pem current) /\
    server_url renewed = server_url current /\ mtls_url renewed = mtls_url current /\ bundle_keys renewed = bundle_keys current /\
    require_encrypted_bundles renewed = require_encrypted_bundles current /\ allow_plaintext renewed = allow_plaintext current.
Proof.
  unfold parse_renew_response, parse_object. split.
  - destruct (parse_root body) as [root|] eqn:Er; [|done]. cbn [rbind]. intros E. inv_ok. subst renewed. apply require_string_iff in Hok, Hok0, Hok1, Hok2.
    exists root, x, x0, x1, x2. cbn [private_key_pem cert_pem ca_pem mtls_server_cert_pem bundle_signing_pub_pem server_url mtls_url bundle_keys require_encrypted_bundles allow_plaintext].
    pose proof (refusal_iff root x1 (bundle_signing_pub_pem current)) as Hiff. split_and!; try done; by rewrite <-H1.
  - intros (root & cert & ca & key & srv & -> & H1 & H2 & H3 & H4 & -> & _ & E1 & E2 & E3 & E4 & E5 & E6 & E7 & E8 & E9 & E10). cbn [rbind].
    rewrite (proj2 (require_string_iff _ _ _ _) H1), (proj2 (require_string_iff _ _ _ _) H2), (proj2 (require_string_iff _ _ _ _) H3), (proj2 (require_string_iff _ _ _ _) H4). cbn [rbind].
    destruct renewed. cbn in *. by subst.
Qed.

(** The endorsement is read up to its first NUL: what follows it is not looked at. *)
Lemma endorsement_is_cut_at_nul root root' new old sig junk : Ascii.zero ∉ sig ->
  if_contains root (str "bundle_signing_pub_sig") = Some (JString sig) ->
  if_contains root' (str "bundle_signing_pub_sig") = Some (JString (sig ++ [Ascii.zero] ++ junk)) ->
  signing_key_refusal root' new old = signing_key_refusal root new old.
Proof.
  intros Hs E E'. assert (Hc : c_str (sig ++ [Ascii.zero] ++ junk) = c_str sig).
  { rewrite (c_str_id sig Hs). clear E E'. induction sig as [|c sig IH]; [done|]. apply not_elem_of_cons in Hs as [Hn Hs]. cbn [app c_str].
    rewrite bool_decide_eq_false_2 by congruence. f_equal. by apply IH. }
  unfold signing_key_refusal. by rewrite E, E', Hc.
Qed.
End renewal.

(** A bundle is taken for the digest it has and the identity that was signed. *)
Lemma verify_bundle_ok `{FleetCrypto} pub bytes d sig : verify_bundle pub bytes d sig = Ok tt <->
  to_hex (sha256_raw bytes) = to_lower (d_sha256_hex d) /\ signed_by pub (signing_bytes d) sig.
Proof. rewrite <-verify_ed25519_ok. unfold verify_bundle. destruct (bool_decide_reflect (to_hex (sha256_raw bytes) = to_lower (d_sha256_hex d))); cbn [negb]; [tauto|]. split; [done|]. by intros [? _]. Qed.

(** ** The manifest survives a restart *)

(** Values the library prints and reads back: text in ASCII, and no number but an integer *)
Inductive printable : json -> Prop :=
| pr_bool b : printable (JBool b)
| pr_int z : in_s 64 z -> printable (JInt z)
| pr_string s : Forall (fun c => (nat_of_ascii c < 128)%nat) s -> printable (JString s)
| pr_array l : Forall printable l -> printable (JArray l).

Class JsonPrinting `{JsonLib} : Prop := {
  parse_printed o : NoDup (keys o) -> (forall k v, if_contains o k = Some v -> printable v) ->
    exists o', parse_root (json_serialize (JObject o)) = Ok o' /\ forall k, if_contains o' k = if_contains o k }.

Definition ascii_text (s : cppstring) : Prop := Forall (fun c => (nat_of_ascii c < 128)%nat) s.
#[export] Instance ascii_text_dec s : Decision (ascii_text s).
Proof. unfold ascii_text. apply _. Defined.

(** An identity that can be kept: ASCII texts, and the required ones not empty *)
Definition complete (s : enrolled_identity) : Prop :=
  Forall (fun t => ascii_text t /\ t <> []) [private_key_pem s; cert_pem s; ca_pem s; bundle_signing_pub_pem s; mtls_url s; mtls_server_cert_pem s] /\
  ascii_text (server_url s) /\ Forall ascii_text (bundle_keys s).

Section manifest.
Context `{JsonLaws} `{!JsonPrinting}.

(** What the members of the manifest are, in the order they are put *)
Definition manifest_members (s : enrolled_identity) : list (cppstring * json) :=
  [(str "version", JInt 1); (str "private_key_pem", JString (private_key_pem s)); (str "cert_pem", JString (cert_pem s)); (str "ca_pem", JString (ca_pem s));
   (str "bundle_signing_pub_pem", JString (bundle_signing_pub_pem s)); (str "server_url", JString (server_url s)); (str "mtls_url", JString (mtls_url s));
   (str "mtls_server_cert_pem", JString (mtls_server_cert_pem s)); (str "bundle_keys", JArray (map JString (bundle_keys s)));
   (str "require_encrypted_bundles", JBool (require_encrypted_bundles s)); (str "allow_plaintext", JBool (allow_plaintext s))].

Lemma serialize_members s : serialize_state s = json_serialize (JObject (fold_left (fun o m => obj_put m.1 m.2 o) (manifest_members s) [])).
Proof. reflexivity. Qed.

Lemma put_all_lookup ms : forall o, NoDup (keys o) -> NoDup (keys ms) ->
  NoDup (keys (fold_left (fun o m => obj_put m.1 m.2 o) ms o)) /\
  forall k, if_contains (fold_left (fun o m => obj_put m.1 m.2 o) ms o) k = match if_contains ms k with Some v => Some v | None => if_contains o k end.
Proof.
  induction ms as [|[j v] ms IH]; intros o Ho Hm; cbn [fold_left if_contains fst snd]; [done|]. cbn [keys map fst] in Hm. apply NoDup_cons in Hm as [Hj Hm].
  destruct (IH (obj_put j v o)) as [N L]; [by apply put_nodup|done|]. split; [done|]. intros k. rewrite L, put_lookup by done.
  destruct (bool_decide_reflect (j = k)) as [->|Hn]; [rewrite if_contains_not by done; by destruct (decide (k = k))|]. by destruct (decide (j = k)).
Qed.

Lemma manifest_printable s k v : complete s -> if_contains (manifest_members s) k = Some v -> printable v.
Proof.
  intros (Hr & Hu & Hk) E. repeat (apply Forall_cons in Hr as [[? _] Hr]). apply member_in in E. unfold manifest_members in E.
  rewrite !elem_of_cons in E. repeat (destruct E as [E|E]; [injection E as _ ->; first [by constructor|constructor; split; lia|idtac]|]); [|by apply elem_of_nil in E].
  constructor. apply Forall_fmap. eapply Forall_impl; [exact Hk|]. intros t Ht. by constructor.
Qed.

Lemma read_keys_map ks : read_keys (map JString ks) = Ok ks.
Proof. induction ks as [|k ks IH]; [done|]. cbn [map read_keys]. by rewrite IH. Qed.

Lemma read_required o key s : if_contains o key = Some (JString s) -> s <> [] -> read_state_string o key true = Ok s.
Proof. intros E Hs. unfold read_state_string. rewrite E, bool_decide_eq_false_2 by done. done. Qed.

(** *)
Theorem manifest_survives_a_restart s : complete s -> load_state (serialize_state s) = Ok s.
Proof.
  intros Hs. assert (Hn : NoDup (keys (manifest_members s))) by (change (keys (manifest_members s)) with (keys (manifest_members (Identity [] [] [] [] [] [] [] [] false false))); vm_decide).
  destruct (put_all_lookup (manifest_members s) [] (NoDup_nil_2) Hn) as [Hput Hlook]. rewrite serialize_members.
  destruct (parse_printed _ Hput) as (o' & Ep & Hl). { intros k v. rewrite Hlook. destruct (if_contains (manifest_members s) k) eqn:E; [|done]. intros [= <-]. by eapply manifest_printable. }
  assert (Hall : forall k, if_contains o' k = if_contains (manifest_members s) k) by (intros k; rewrite Hl, Hlook; by destruct (if_contains (manifest_members s) k)).
  destruct Hs as (Hr & _ & _). repeat (apply Forall_cons in Hr as [[_ ?] Hr]). destruct s as [pk cert ca sig su mu mc ks re ap].
  assert (Hv : if_contains o' (str "version") = Some (JInt 1)) by (rewrite Hall; reflexivity).
  assert (Hu : if_contains o' (str "server_url") = Some (JString su)) by (rewrite Hall; reflexivity).
  assert (Hk : if_contains o' (str "bundle_keys") = Some (JArray (map JString ks))) by (rewrite Hall; reflexivity).
  assert (He : if_contains o' (str "require_encrypted_bundles") = Some (JBool re)) by (rewrite Hall; reflexivity).
  assert (Hp : if_contains o' (str "allow_plaintext") = Some (JBool ap)) by (rewrite Hall; reflexivity).
  unfold load_state. rewrite Ep. cbn [rbind]. rewrite Hv. cbn [rbind].
  rewrite (read_required o' (str "private_key_pem") pk), (read_required o' (str "cert_pem") cert), (read_required o' (str "ca_pem") ca),
    (read_required o' (str "bundle_signing_pub_pem") sig), (read_required o' (str "mtls_url") mu), (read_required o' (str "mtls_server_cert_pem") mc)
    by first [done|rewrite Hall; reflexivity].
  unfold read_state_string, read_flag. rewrite Hu, Hk, He, Hp. cbn [rbind andb]. by rewrite read_keys_map.
Qed.
End manifest.

(** ** The interfaces at work *)

Module TrustSamples.
(** Stand-ins for the cryptography: they have its shapes and its round trip, not its strength. *)
Definition crypto : FleetCrypto :=
  {| pubkey := cppstring; sha256_raw s := take 32 (s ++ replicate 32 Ascii.zero); read_pem s := Some s;
     pubkey_eq a b := bool_decide (a = b); digest_verify k s m := Some (bool_decide (s = k ++ m));
     gcm_seal k n a p := (p, replicate 16 "t"%char); gcm_open k n a c t := Some c |}.
Lemma crypto_laws : @FleetCryptoLaws crypto.
Proof.
  split; cbn.
  - intros s. rewrite length_take, length_app. cbn [length]. lia.
  - done.
  - done.
Qed.
Definition key1 : cppstring := replicate 32 "1"%char.
Definition key2 : cppstring := replicate 32 "2"%char.
Definition nonce : cppstring := replicate 12 "n"%char.
Definition blob : cppstring := magic ++ @raw_fingerprint crypto key2 ++ nonce ++ str "zip" ++ replicate 16 "t"%char.

Definition identity : enrolled_identity := Identity (str "pk0") (str "cert0") (str "ca0") (str "key") [] (str "https://f") (str "srv0") [] true false.
Definition renewal : json_object :=
  [(str "cert_pem", JString (str "cert1")); (str "ca_pem", JString (str "ca1")); (str "bundle_signing_pub_pem", JString (str "new"));
   (str "bundle_signing_pub_sig", JString (base64_encode (str "key" ++ str "new"))); (str "mtls_server_cert_pem", JString (str "srv1"))].
End TrustSamples.

Lemma sealed_bundle_opens_witness :
  @encrypt_bundle TrustSamples.crypto TrustSamples.key2 TrustSamples.nonce (str "base") (str "1") (str "zip") = Ok TrustSamples.blob /\
  @open_bundle TrustSamples.crypto [base64_encode TrustSamples.key1; base64_encode TrustSamples.key2] (str "base") (str "1") TrustSamples.blob true = Ok (str "zip").
Proof.
  split; [vm_compute; reflexivity|].
  apply (@sealed_bundle_opens TrustSamples.crypto TrustSamples.crypto_laws TrustSamples.key2 TrustSamples.nonce (str "base") (str "1") (str "zip") TrustSamples.blob [base64_encode TrustSamples.key1] [] true).
  - vm_compute. reflexivity.
  - constructor; [|constructor]. exists TrustSamples.key1. split; [vm_compute; reflexivity|]. vm_compute. discriminate.
Defined.

Lemma opened_bundle_was_authenticated_witness :
  @is_encrypted_bundle TrustSamples.blob = true /\ @opened_with TrustSamples.crypto [base64_encode TrustSamples.key2] (str "base") (str "1") TrustSamples.blob (str "zip").
Proof.
  destruct (@opened_bundle_was_authenticated TrustSamples.crypto [base64_encode TrustSamples.key2] (str "base") (str "1") TrustSamples.blob true (str "zip")) as [(_ & H & _)|H].
  - vm_compute. reflexivity.
  - discriminate H.
  - exact H.
Defined.

Lemma signing_key_moves_only_when_endorsed_witness :
  let forged := [(str "cert_pem", JString (str "cert1")); (str "ca_pem", JString (str "ca1")); (str "bundle_signing_pub_pem", JString (str "evil"));
    (str "bundle_signing_pub_sig", JString (base64_encode (str "key" ++ str "new"))); (str "mtls_server_cert_pem", JString (str "srv1"))] in
  exists renewed refusal, @parse_renew_response TrustSamples.crypto (JsonSamples.lib forged) [] (str "pk1") TrustSamples.identity = Ok (renewed, refusal) /\
    bundle_signing_pub_pem renewed = str "key" /\ refusal <> [] /\ cert_pem renewed = str "cert1" /\
  exists renewed', @parse_renew_response TrustSamples.crypto (JsonSamples.lib TrustSamples.renewal) [] (str "pk1") TrustSamples.identity = Ok (renewed', []) /\
    bundle_signing_pub_pem renewed' = str "new" /\ cert_pem renewed' = str "cert1".
Proof.
  intros forged. destruct (@parse_renew_response TrustSamples.crypto (JsonSamples.lib forged) [] (str "pk1") TrustSamples.identity) as [[r f]|] eqn:E; [|exfalso; vm_compute in E; discriminate E].
  exists r, f. split; [done|]. pose proof (proj1 (@signing_key_moves_only_when_endorsed TrustSamples.crypto (JsonSamples.lib forged) [] (str "pk1") TrustSamples.identity r f) E) as H.
  destruct H as (root & cert & ca & key & srv & Hroot & _). clear Hroot. vm_compute in E. injection E as <- <-. split_and!; [done|done|done|].
  eexists. split; [vm_compute; reflexivity|done].
Defined.
