(* ===== verification/FleetApply.v ===== *)
(** How a desired state lands on disk ([apply_state] of service/fleet_sync.cpp from the staged
    tree on): which archive entries are staged, the swap of the live files for the staged ones
    one file operation at a time, and what a restart makes of a swap that was cut short.

    A tree of scripts is a map from relative paths to contents; a directory that may not exist
    is an [option].  The swap is a step relation, because [promote_tree] and [remove_all] take
    their files in the order the file system lists them. *)

From stdpp Require Import base list strings gmap fin_maps relations.
From Stdlib Require Import Ascii ZArith Lia.
From S2P Require Import Prelude Strings.

Local Open Scope Z_scope.

(** ** Staging the scripts of a bundle *)

Definition max_script_bytes : Z := 16 * 1024 * 1024.
Definition max_bundle_script_bytes : Z := 64 * 1024 * 1024.

Definition is_safe_entry (name : cppstring) : bool :=
  match name with
  | [] => false
  | c :: _ =>
      if bool_decide (c = "/"%char) || bool_decide (c = c_backslash) then false else
      if bool_decide (is_Some (find name (str "..") 0)) then false else
      negb (has_char ":"%char name)
  end.

Record file_entry := FileEntry { filename : cppstring; uncompressed_size : Z; content : option cppstring }.

(** [std::replace(name.begin(), name.end(), '\\', '/')] *)
Definition forward_slashes (name : cppstring) : cppstring := map (fun c => if bool_decide (c = c_backslash) then "/"%char else c) name.

Abbreviation tree := (gmap cppstring cppstring).

(** The loop over the entries of an archive; [Throw] is the message that fails the apply.
    An entry whose [stat] fails is not in the list, a [content] of [None] cannot be extracted.
    The tree is what the staging directory has below scripts/: the unsealed archives that lie
    beside it and the staged fleet.ini, which the record of the disk has as a field of its own,
    are not in it. *)
Fixpoint stage_entries (bundle_id : cppstring) (entries : list file_entry) (staged_bytes : Z) (staging : tree) : result cppstring tree :=
  match entries with
  | [] => Ok staging
  | e :: entries =>
      let name := forward_slashes (filename e) in
      if negb (is_safe_entry name) then Throw (str "Bundle " ++ bundle_id ++ str " contains unsafe path: " ++ filename e) else
      if negb (is_prefix (str "scripts/") name) || bool_decide (last name = Some "/"%char) then stage_entries bundle_id entries staged_bytes staging else
      let staged_bytes := wrap_u 64 (staged_bytes + uncompressed_size e) in
      if (uncompressed_size e >? max_script_bytes) || (staged_bytes >? max_bundle_script_bytes)
      then Throw (str "Bundle " ++ bundle_id ++ str " scripts exceed the size limit (16MB per file, 64MB per bundle)") else
      match content e with
      | None => Throw (str "Bundle " ++ bundle_id ++ str ": failed to extract " ++ filename e)
      | Some c => stage_entries bundle_id entries staged_bytes (<[name := c]> staging)
      end
  end.

(** ** The swap *)

(** What applied-state.json keeps, and the members loaded from it *)
Record applied := Applied { current_hash_ : cppstring; content_hash_ : cppstring }.
Definition nothing_applied : applied := Applied [] [].

Record disk := Disk {
  fleet_ini : option cppstring;
  scripts : option tree;
  scripts_old : option tree;
  staged_ini : option cppstring;
  staged : option tree;
  recorded : option applied }.

Definition set_scripts (d : disk) (s old : option tree) : disk := Disk (fleet_ini d) s old (staged_ini d) (staged d) (recorded d).

(** Where [apply_state] stands: before the operation its name says, or after the whole *)
Inductive phase := rename_ini | drop_stale | set_aside | promote | roll_clear | roll_back | drop_old | drop_staging | save | promote_failed | save_failed | applied_ok.
#[export] Instance phase_eq_dec : EqDecision phase.
Proof. solve_decision. Defined.

Definition no_files (t : option tree) : Prop := default ∅ t = ∅.

(** [fs::remove_all] takes a file at a time, and the directory when it is empty; where its error
    is ignored it may leave what it likes ([_left]).  A rename onto a directory with files
    throws.  [write_file] empties the file it writes first, and a text cut short is not read
    back. *)
Inductive swap (new : applied) : phase * disk * applied -> phase * disk * applied -> Prop :=
| swap_ini d m : swap new (rename_ini, d, m) (drop_stale, Disk (staged_ini d) (scripts d) (scripts_old d) None (staged d) (recorded d), m)
| swap_stale_file d m t p : scripts_old d = Some t -> swap new (drop_stale, d, m) (drop_stale, set_scripts d (scripts d) (Some (delete p t)), m)
| swap_stale_dir d m : no_files (scripts_old d) -> swap new (drop_stale, d, m) (set_aside, set_scripts d (scripts d) None, m)
| swap_stale_left d m : swap new (drop_stale, d, m) (set_aside, d, m)
| swap_aside_throws d m : swap new (set_aside, d, m) (promote_failed, d, m)
| swap_clear_left d m : swap new (roll_clear, d, m) (roll_back, d, m)
| swap_back_throws d m : swap new (roll_back, d, m) (promote_failed, d, m)
| swap_old_left d m : swap new (drop_old, d, m) (drop_staging, d, m)
| swap_staging_left d m : swap new (drop_staging, d, m) (save, d, new)
| swap_aside d m t : scripts d = Some t -> no_files (scripts_old d) -> swap new (set_aside, d, m) (promote, set_scripts d None (Some t), m)
| swap_aside_none d m : scripts d = None -> swap new (set_aside, d, m) (promote, d, m)
| swap_promote d m t p c : staged d = Some t -> t !! p = Some c ->
    swap new (promote, d, m) (promote, Disk (fleet_ini d) (Some (<[p := c]> (default ∅ (scripts d)))) (scripts_old d) (staged_ini d) (Some (delete p t)) (recorded d), m)
| swap_promoted d m : no_files (staged d) -> swap new (promote, d, m) (drop_old, d, m)
| swap_throws d m : swap new (promote, d, m) (roll_clear, d, m)
| swap_clear_file d m t p : scripts d = Some t -> swap new (roll_clear, d, m) (roll_clear, set_scripts d (Some (delete p t)) (scripts_old d), m)
| swap_clear_dir d m : no_files (scripts d) -> swap new (roll_clear, d, m) (roll_back, set_scripts d None (scripts_old d), m)
| swap_back d m t : scripts_old d = Some t -> no_files (scripts d) -> swap new (roll_back, d, m) (promote_failed, set_scripts d (Some t) None, m)
| swap_back_none d m : scripts_old d = None -> swap new (roll_back, d, m) (promote_failed, d, m)
| swap_old_file d m t p : scripts_old d = Some t -> swap new (drop_old, d, m) (drop_old, set_scripts d (scripts d) (Some (delete p t)), m)
| swap_old_dir d m : no_files (scripts_old d) -> swap new (drop_old, d, m) (drop_staging, set_scripts d (scripts d) None, m)
| swap_staging d m : swap new (drop_staging, d, m) (save, Disk (fleet_ini d) (scripts d) (scripts_old d) None None (recorded d), new)
| swap_save_torn d m : swap new (save, d, m) (save, Disk (fleet_ini d) (scripts d) (scripts_old d) (staged_ini d) (staged d) None, m)
| swap_save d : swap new (save, d, new) (applied_ok, Disk (fleet_ini d) (scripts d) (scripts_old d) (staged_ini d) (staged d) (Some new), new)
| swap_save_throws d : swap new (save, d, new) (save_failed, d, new).

(** ** The restart *)

Definition load_applied_state (d : disk) : applied := default nothing_applied (recorded d).

Definition recover_interrupted_apply (d : disk) (m : applied) : disk * applied :=
  match scripts_old d with
  | None => (d, m)
  | Some t => (set_scripts d (Some t) None, nothing_applied)
  end.

Definition restart (d : disk) : disk * applied := recover_interrupted_apply d (load_applied_state d).

(** Whether [poll_once] asks for a reload after the apply *)
Definition reloads (ph : phase) (before new : applied) : bool :=
  bool_decide (ph = applied_ok) && negb (bool_decide (content_hash_ new = content_hash_ before)).

(** ** What is staged *)

Lemma stage_entries_ok bid entries : forall bytes t t', 0 <= bytes <= max_bundle_script_bytes ->
  stage_entries bid entries bytes t = Ok t' ->
  forall p c, t' !! p = Some c -> t !! p = Some c \/ is_prefix (str "scripts/") p = true /\ find p (str "..") 0 = None /\ ":"%char ∉ p /\
    exists e, e ∈ entries /\ forward_slashes (filename e) = p /\ content e = Some c /\ uncompressed_size e <= max_script_bytes.
Proof.
  induction entries as [|e entries IH]; intros bytes t t' Hb E p c Hp; cbn [stage_entries] in E; [injection E as <-; by left|].
  destruct (is_safe_entry (forward_slashes (filename e))) eqn:Es; [|done]. cbn [negb] in E.
  assert (Hskip : forall bytes t1, 0 <= bytes <= max_bundle_script_bytes -> stage_entries bid entries bytes t1 = Ok t' -> t1 !! p = Some c \/ is_prefix (str "scripts/") p = true /\ find p (str "..") 0 = None /\ ":"%char ∉ p /\
    exists e', e' ∈ e :: entries /\ forward_slashes (filename e') = p /\ content e' = Some c /\ uncompressed_size e' <= max_script_bytes).
  { intros b1 t1 Hb1 E1. destruct (IH b1 t1 t' Hb1 E1 p c Hp) as [?|(? & ? & ? & e' & Hin & ?)]; [by left|right]. split_and!; try done. exists e'. split; [by right|done]. }
  destruct (is_prefix (str "scripts/") (forward_slashes (filename e))) eqn:Epre; cbn [negb orb] in E; [|by eapply Hskip].
  destruct (bool_decide _); [by eapply Hskip|]. rewrite !Z.gtb_ltb in E.
  destruct (Z.ltb_spec max_script_bytes (uncompressed_size e)) as [|Hsz]; [done|]. cbn [orb] in E.
  destruct (Z.ltb_spec max_bundle_script_bytes (wrap_u 64 (bytes + uncompressed_size e))) as [|Htot]; [done|].
  destruct (content e) as [c'|] eqn:Ec; [|done].
  assert (Hw : 0 <= wrap_u 64 (bytes + uncompressed_size e) <= max_bundle_script_bytes) by (split; [by apply wrap_u_range|done]).
  destruct (Hskip _ _ Hw E) as [Hl|?]; [|by right]. destruct (decide (forward_slashes (filename e) = p)) as [<-|Hn]; [|rewrite lookup_insert_ne in Hl by done; by left].
  rewrite lookup_insert_eq in Hl. injection Hl as ->. right. unfold is_safe_entry in Es. destruct (forward_slashes (filename e)) as [|x s] eqn:Ef; [done|]. rewrite <-Ef in *.
  destruct (_ || _); [done|]. destruct (bool_decide_reflect (is_Some (find (forward_slashes (filename e)) (str "..") 0))) as [|Hf]; [done|].
  apply negb_true_iff, bool_decide_eq_false in Es. split_and!; [done| |done|exists e; split; [by left|done]].
  destruct (find _ _ 0) eqn:E2; [|done]. exfalso. apply Hf. by eexists.
Qed.

(** The scripts of an archive, in the order of its entries *)
Definition script_of (e : file_entry) : option (cppstring * cppstring) :=
  let name := forward_slashes (filename e) in
  if is_prefix (str "scripts/") name && negb (bool_decide (last name = Some "/"%char)) then (fun c => (name, c)) <$> content e else None.
Definition put_script (t : tree) (s : cppstring * cppstring) : tree := <[s.1 := s.2]> t.

(** Staging puts exactly them, a later one over an earlier one of the same path. *)
Lemma stage_entries_exact bid entries : forall bytes t t', stage_entries bid entries bytes t = Ok t' ->
  t' = fold_left put_script (omap script_of entries) t /\ Forall (fun e => is_safe_entry (forward_slashes (filename e)) = true) entries.
Proof.
  induction entries as [|e entries IH]; intros bytes t t' E; cbn [stage_entries] in E; [injection E as <-; by split|].
  destruct (is_safe_entry (forward_slashes (filename e))) eqn:Es; [|done]. cbn [negb] in E. cbn [omap list_omap]. unfold script_of at 1.
  destruct (is_prefix (str "scripts/") (forward_slashes (filename e))); cbn [negb orb andb] in *; [|destruct (IH _ _ _ E) as [H1 H2]; split; [exact H1|by constructor]].
  destruct (bool_decide (last (forward_slashes (filename e)) = Some "/"%char)); cbn [negb] in *; [destruct (IH _ _ _ E) as [H1 H2]; split; [exact H1|by constructor]|].
  destruct (_ || _); [done|]. destruct (content e) as [c|]; [|done]. destruct (IH _ _ _ E) as [H1 H2]. split; [exact H1|by constructor].
Qed.

(** ** A restart finds whole trees *)

Section swap.
Context (new : applied) (d0 : disk) (m0 : applied) (live : tree) (ini : cppstring).
Hypothesis start_scripts : scripts d0 = Some live.
Hypothesis start_old : scripts_old d0 = None.
Hypothesis start_ini : staged_ini d0 = Some ini.

Definition target : tree := default ∅ (staged d0).

(** What the clean-up leaves of the old tree *)
Definition left_over (d : disk) : Prop := forall t, scripts_old d = Some t -> t ⊆ live.

Definition swap_inv (s : phase * disk * applied) : Prop :=
  let '(ph, d, m) := s in
  match ph with
  | rename_ini => d = d0 /\ m = m0
  | drop_stale | set_aside => scripts d = Some live /\ scripts_old d = None /\ staged d = staged d0 /\ recorded d = recorded d0 /\ m = m0 /\ fleet_ini d = Some ini
  | promote => scripts_old d = Some live /\ (default ∅ (scripts d) : tree) ∪ default ∅ (staged d) = target /\
      (default ∅ (scripts d) : tree) ##ₘ default ∅ (staged d) /\ recorded d = recorded d0 /\ m = m0 /\ fleet_ini d = Some ini
  | roll_clear | roll_back => scripts_old d = Some live /\ recorded d = recorded d0 /\ m = m0 /\ fleet_ini d = Some ini
  | promote_failed => (scripts d = Some live /\ scripts_old d = None \/ scripts_old d = Some live) /\ recorded d = recorded d0 /\ m = m0 /\ fleet_ini d = Some ini
  | drop_old => (default ∅ (scripts d) : tree) = target /\ (exists t, scripts_old d = Some t /\ t ⊆ live) /\ recorded d = recorded d0 /\ m = m0 /\ fleet_ini d = Some ini
  | drop_staging => (default ∅ (scripts d) : tree) = target /\ left_over d /\ recorded d = recorded d0 /\ m = m0 /\ fleet_ini d = Some ini
  | save | save_failed => (default ∅ (scripts d) : tree) = target /\ left_over d /\ (recorded d = recorded d0 \/ recorded d = None) /\ m = new /\ fleet_ini d = Some ini
  | applied_ok => (default ∅ (scripts d) : tree) = target /\ left_over d /\ recorded d = Some new /\ m = new /\ fleet_ini d = Some ini
  end.

Lemma promote_one (a b : tree) p c : b !! p = Some c -> a ##ₘ b -> <[p := c]> a ##ₘ delete p b /\ <[p := c]> a ∪ delete p b = a ∪ b.
Proof.
  intros Hb Hd. assert (Ha : a !! p = None) by (by eapply map_disjoint_Some_r). split.
  - apply map_disjoint_insert_l. split; [apply lookup_delete_eq|]. by apply map_disjoint_delete_r.
  - rewrite <-insert_union_l, insert_union_r by done. by rewrite insert_delete_id.
Qed.

Lemma swap_preserves s s' : swap new s s' -> swap_inv s -> swap_inv s'.
Proof.
  destruct 1 as [d m|d m t p Ht|d m Ht|d m|d m|d m|d m|d m|d m|d m t Ht Hn|d m Ht|d m t p c Ht Hp|d m Ht|d m|d m t p Ht|d m Ht|d m t Ht Hn|d m Ht|d m t p Ht|d m Ht|d m|d m|d|d];
    cbn [swap_inv]; cbn; intros Hi.
  - destruct Hi as [-> ->]. rewrite start_scripts, start_old, start_ini. done.
  - destruct Hi as (H1 & H2 & _). congruence.
  - destruct Hi as (H1 & H2 & H3 & H4 & H5 & H6). done.
  - exact Hi.
  - destruct Hi as (H1 & H2 & H3 & H4 & H5 & H6). split_and!; try done. by left.
  - exact Hi.
  - destruct Hi as (H1 & H4 & H5 & H6). split_and!; try done. by right.
  - destruct Hi as (H1 & (t & H2 & H3) & H4 & H5 & H6). split_and!; try done. intros t' Ht'. rewrite H2 in Ht'. by injection Ht' as <-.
  - destruct Hi as (H1 & H2 & H4 & H5 & H6). split_and!; try done. by left.
  - destruct Hi as (H1 & H2 & H3 & H4 & H5 & H6). rewrite H1 in Ht. injection Ht as <-. rewrite H3. split_and!; try done; [apply map_empty_union|apply map_disjoint_empty_l].
  - destruct Hi as (H1 & _). congruence.
  - destruct Hi as (H1 & H2 & H3 & H4 & H5 & H6). rewrite Ht in H2, H3. cbn in H2, H3. destruct (promote_one _ _ p c Hp H3) as [D1 D2]. split_and!; try done. by rewrite D2.
  - destruct Hi as (H1 & H2 & H3 & H4 & H5 & H6). unfold no_files in Ht. rewrite Ht, map_union_empty in H2. split_and!; try done. by exists live.
  - destruct Hi as (H1 & _ & _ & H4 & H5 & H6). done.
  - exact Hi.
  - exact Hi.
  - destruct Hi as (H1 & H4 & H5 & H6). rewrite H1 in Ht. injection Ht as <-. split_and!; try done. by left.
  - destruct Hi as (H1 & _). congruence.
  - destruct Hi as (H1 & (t' & H2 & H3) & H4 & H5 & H6). rewrite H2 in Ht. injection Ht as <-. split_and!; try done. eexists. split; [done|]. etrans; [apply delete_subseteq|done].
  - destruct Hi as (H1 & _ & H4 & H5 & H6). split_and!; try done.
  - destruct Hi as (H1 & H2 & H4 & H5 & H6). split_and!; try done. by left.
  - destruct Hi as (H1 & H2 & H4 & H5 & H6). split_and!; try done. by right.
  - destruct Hi as (H1 & H2 & H4 & H5 & H6). done.
  - exact Hi.
Qed.
End swap.

(** The clean-up of the old tree has begun. *)
Definition cleaning (ph : phase) : bool := bool_decide (ph ∈ [drop_old; drop_staging; save; save_failed; applied_ok]).

(** C11. For a host with a script tree, no scripts.old and a staged configuration: however the
    swap of the live files is interrupted - between any two file operations, in any order of the
    files, with a failed promotion, a rename that throws, a removal that fails and is ignored,
    or a torn record - the restart, if its own file operations succeed, leaves no scripts.old,
    and either forgets the applied hash, with the previous scripts in place (a part of them only
    once the removal of the old tree has begun) or the new ones, or keeps the previous hash with
    the previous or the new tree whole, or has the new hash with the new tree and configuration. *)
Theorem interrupted_apply_restarts_whole new d0 m0 live ini ph d m :
  scripts d0 = Some live -> scripts_old d0 = None -> staged_ini d0 = Some ini ->
  rtc (swap new) (rename_ini, d0, m0) (ph, d, m) ->
  let '(d', m') := restart d in
  scripts_old d' = None /\
  (m' = nothing_applied /\ (exists t, scripts d' = Some t /\ t ⊆ live /\ (cleaning ph = false -> t = live)) \/
   m' = load_applied_state d0 /\ (default ∅ (scripts d') = live \/ default ∅ (scripts d') = target d0) \/
   m' = nothing_applied /\ default ∅ (scripts d') = target d0 \/
   m' = new /\ default ∅ (scripts d') = target d0 /\ fleet_ini d' = Some ini).
Proof.
  intros Hs Ho Hi Hr.
  assert (Hinv : swap_inv new d0 m0 live ini (ph, d, m)).
  { revert Hr. generalize (ph, d, m). intros s Hr. remember (rename_ini, d0, m0) as s0 eqn:E0.
    assert (H0 : swap_inv new d0 m0 live ini s0) by (by subst s0). clear E0. induction Hr; [done|]. apply IHHr. by eapply swap_preserves. }
  unfold restart, recover_interrupted_apply, load_applied_state in *. clear Hr.
  destruct ph; cbn [swap_inv] in Hinv.
  - destruct Hinv as [-> ->]. rewrite Ho. split; [done|]. right; left. split; [done|]. left. by rewrite Hs.
  - destruct Hinv as (H1 & H2 & _ & H4 & _). rewrite H2. split; [done|]. right; left. rewrite H1, H4. split; [done|by left].
  - destruct Hinv as (H1 & H2 & _ & H4 & _). rewrite H2. split; [done|]. right; left. rewrite H1, H4. split; [done|by left].
  - destruct Hinv as (-> & _). split; [done|]. left. split; [done|]. by exists live.
  - destruct Hinv as (-> & _). split; [done|]. left. split; [done|]. by exists live.
  - destruct Hinv as (-> & _). split; [done|]. left. split; [done|]. by exists live.
  - destruct Hinv as (_ & (t & -> & Ht) & _). split; [done|]. left. split; [done|]. by exists t.
  - destruct Hinv as (H1 & H2 & H4 & _). destruct (scripts_old d) as [t|] eqn:Eo.
    + split; [done|]. left. split; [done|]. exists t. split_and!; [done|by apply H2|done].
    + rewrite H4, Eo. split; [done|]. right; left. split; [done|by right].
  - destruct Hinv as (H1 & H2 & H4 & _). destruct (scripts_old d) as [t|] eqn:Eo.
    + split; [done|]. left. split; [done|]. exists t. split_and!; [done|by apply H2|done].
    + rewrite Eo. split; [done|]. destruct H4 as [->| ->]; [right; left; split; [done|by right]|]. right; right; left. done.
  - destruct Hinv as ([[H1 H2]|H2] & H4 & _).
    + rewrite H2. split; [done|]. right; left. rewrite H1, H4. split; [done|by left].
    + rewrite H2. split; [done|]. left. split; [done|]. by exists live.
  - destruct Hinv as (H1 & H2 & H4 & _). destruct (scripts_old d) as [t|] eqn:Eo.
    + split; [done|]. left. split; [done|]. exists t. split_and!; [done|by apply H2|done].
    + rewrite Eo. split; [done|]. destruct H4 as [->| ->]; [right; left; split; [done|by right]|]. right; right; left. done.
  - destruct Hinv as (H1 & H2 & H4 & _ & H6). destruct (scripts_old d) as [t|] eqn:Eo.
    + split; [done|]. left. split; [done|]. exists t. split_and!; [done|by apply H2|done].
    + rewrite Eo, H4. split; [done|]. right; right; right. done.
Qed.

(** ** Runs of the swap *)

Module SwapSamples.
Definition old_state : applied := Applied (str "h0") (str "c0").
Definition new_state : applied := Applied (str "h1") (str "c1").
Definition live : tree := {[str "a.sh" := str "old"; str "b.sh" := str "old"]}.
Definition next_tree : tree := {[str "a.sh" := str "new"; str "c.sh" := str "new"]}.
Definition before : disk := Disk (Some (str "ini0")) (Some live) None (Some (str "ini1")) (Some next_tree) (Some old_state).

Definition after_ini (d : disk) : disk := Disk (staged_ini d) (scripts d) (scripts_old d) None (staged d) (recorded d).
(** The first script is promoted and the rest is not *)
Definition half_promoted : disk :=
  Disk (Some (str "ini1")) (Some {[str "a.sh" := str "new"]}) (Some live) None (Some {[str "c.sh" := str "new"]}) (Some old_state).
(** The old tree is half removed *)
Definition half_dropped : disk := Disk (Some (str "ini1")) (Some next_tree) (Some {[str "b.sh" := str "old"]}) None (Some ∅) (Some old_state).

Lemma reach_promote : rtc (swap new_state) (rename_ini, before, old_state) (promote, set_scripts (after_ini before) None (Some live), old_state).
Proof.
  eapply rtc_l; [apply swap_ini|]. eapply rtc_l; [by apply swap_stale_dir|]. eapply rtc_l; [by apply (swap_aside _ _ _ live)|]. apply rtc_refl.
Qed.
Lemma reach_half_promoted : rtc (swap new_state) (rename_ini, before, old_state) (promote, half_promoted, old_state).
Proof.
  etrans; [exact reach_promote|]. eapply rtc_l; [by apply (swap_promote _ _ _ next_tree (str "a.sh") (str "new"))|].
  apply reflexive_eq. by vm_compute.
Qed.
Lemma reach_half_dropped : rtc (swap new_state) (rename_ini, before, old_state) (drop_old, half_dropped, old_state).
Proof.
  etrans; [exact reach_half_promoted|]. eapply rtc_l; [by apply (swap_promote _ _ _ {[str "c.sh" := str "new"]} (str "c.sh") (str "new"))|].
  eapply rtc_l; [apply swap_promoted; by vm_compute|]. eapply rtc_l; [by apply (swap_old_file _ _ _ live (str "a.sh"))|].
  apply reflexive_eq. by vm_compute.
Qed.
End SwapSamples.

Lemma interrupted_apply_restarts_whole_witness :
  (restart SwapSamples.half_promoted).1 = Disk (Some (str "ini1")) (Some SwapSamples.live) None None (Some {[str "c.sh" := str "new"]}) (Some SwapSamples.old_state) /\
  scripts_old (restart SwapSamples.half_promoted).1 = None.
Proof.
  split; [reflexivity|].
  apply (interrupted_apply_restarts_whole SwapSamples.new_state SwapSamples.before SwapSamples.old_state SwapSamples.live (str "ini1") promote
    SwapSamples.half_promoted SwapSamples.old_state eq_refl eq_refl eq_refl SwapSamples.reach_half_promoted).
Defined.

(** A swap cut short while the old scripts are cleared away restores what is left of them. *)
Lemma interrupted_cleanup_restores_a_part : exists d, rtc (swap SwapSamples.new_state) (rename_ini, SwapSamples.before, SwapSamples.old_state) (drop_old, d, SwapSamples.old_state) /\
  scripts (restart d).1 = Some {[str "b.sh" := str "old"]} /\ (restart d).2 = nothing_applied.
Proof. exists SwapSamples.half_dropped. split; [exact SwapSamples.reach_half_dropped|]. done. Qed.

(** A swap cut short after its first operation runs the new configuration under the old hash. *)
Lemma interrupted_swap_keeps_the_old_hash : exists d, rtc (swap SwapSamples.new_state) (rename_ini, SwapSamples.before, SwapSamples.old_state) (drop_stale, d, SwapSamples.old_state) /\
  fleet_ini (restart d).1 = Some (str "ini1") /\ scripts (restart d).1 = Some SwapSamples.live /\ (restart d).2 = SwapSamples.old_state.
Proof. eexists. split; [eapply rtc_l; [apply swap_ini|apply rtc_refl]|]. done. Qed.

(** Where there was no tree to set aside, a swap cut short while it promotes is not noticed. *)
Lemma interrupted_first_promotion_is_kept : exists d0 d, scripts d0 = None /\ recorded d0 = Some SwapSamples.old_state /\
  rtc (swap SwapSamples.new_state) (rename_ini, d0, SwapSamples.old_state) (promote, d, SwapSamples.old_state) /\
  scripts (restart d).1 = Some {[str "a.sh" := str "new"]} /\ target d0 = SwapSamples.next_tree /\ (restart d).2 = SwapSamples.old_state.
Proof.
  exists (Disk (Some (str "ini0")) None None (Some (str "ini1")) (Some SwapSamples.next_tree) (Some SwapSamples.old_state)). eexists. split; [done|]. split; [done|].
  split.
  - eapply rtc_l; [apply swap_ini|]. eapply rtc_l; [by apply swap_stale_dir|]. eapply rtc_l; [by apply swap_aside_none|].
    eapply rtc_l; [by apply (swap_promote _ _ _ SwapSamples.next_tree (str "a.sh") (str "new"))|]. apply rtc_refl.
  - split; [vm_compute; reflexivity|]. split; reflexivity.
Qed.

(** A clean-up whose error is ignored leaves the old tree, and the next restart takes it for the
    tree of an interrupted swap: the state that was applied is undone. *)
Lemma failed_cleanup_undoes_the_apply : exists d, rtc (swap SwapSamples.new_state) (rename_ini, SwapSamples.before, SwapSamples.old_state) (applied_ok, d, SwapSamples.new_state) /\
  recorded d = Some SwapSamples.new_state /\ scripts d = Some SwapSamples.next_tree /\
  scripts (restart d).1 = Some SwapSamples.live /\ (restart d).2 = nothing_applied.
Proof.
  eexists. split.
  - etrans; [exact SwapSamples.reach_half_promoted|]. eapply rtc_l; [by apply (swap_promote _ _ _ {[str "c.sh" := str "new"]} (str "c.sh") (str "new"))|].
    eapply rtc_l; [apply swap_promoted; by vm_compute|]. eapply rtc_l; [apply swap_old_left|]. eapply rtc_l; [apply swap_staging|].
    eapply rtc_l; [apply swap_save|]. apply rtc_refl.
  - cbn [recorded scripts restart recover_interrupted_apply scripts_old SwapSamples.half_promoted set_scripts fst snd]. split_and!; [done| |done|done]. vm_compute. reflexivity.
Qed.

(** An apply whose last write fails has swapped everything and counts as applied in memory, but
    asks for no reload. *)
Lemma failed_save_skips_the_reload : exists d, rtc (swap SwapSamples.new_state) (drop_old, SwapSamples.half_dropped, SwapSamples.old_state) (save_failed, d, SwapSamples.new_state) /\
  default ∅ (scripts d) = SwapSamples.next_tree /\ reloads save_failed SwapSamples.old_state SwapSamples.new_state = false /\
  reloads applied_ok SwapSamples.old_state SwapSamples.new_state = true.
Proof.
  eexists. split.
  - eapply rtc_l; [by apply (swap_old_file _ _ _ {[str "b.sh" := str "old"]} (str "b.sh"))|]. eapply rtc_l; [apply swap_old_dir; by vm_compute|].
    eapply rtc_l; [apply swap_staging|]. eapply rtc_l; [apply swap_save_throws|]. apply rtc_refl.
  - done.
Qed.
