(* ===== verification/FleetAgent.v ===== *)
(** [apply_state] of service/fleet_sync.cpp up to the swap, put together from its parts: a
    bundle is fetched from the cache or the server, verified, opened and unpacked, its
    configuration merged and its scripts staged; the host's own configuration goes last.

    The archive reader is the parameter [unzip].  The cache and the staging directory are maps
    from file names to contents. *)

From stdpp Require Import base list strings gmap.
From Stdlib Require Import Ascii ZArith Lia.
From S2P Require Import Prelude Strings Base64 Ordering FleetSync DesiredState DesiredStateLaws FleetTrust FleetTrustLaws FleetApply.

Local Open Scope Z_scope.

Record archive := Archive { config_json : option cppstring; archive_entries : list file_entry }.

(** What the download of a bundle comes to *)
Inductive download := Unreachable (what : cppstring) | Answered (status : Z) (payload : cppstring).

Record installed_bundle := Installed { i_id : cppstring; i_version : cppstring }.

(** The cache, the merged configuration, the staged scripts and what is installed by then *)
Record work := Work { cache : tree; merged : json; staging : tree; installed : list installed_bundle }.

(** Why an apply stops: the message, and whether the desired state is stale *)
Abbreviation stop := (bool * cppstring)%type.

Section agent.
Context `{FleetCrypto} `{JsonLib} (unzip : cppstring -> option archive) (identity : enrolled_identity) (download_of : bundle_info -> download).

Definition cache_name (b : bundle_info) : cppstring := id b ++ str "-" ++ take 16 (sha256 b) ++ str ".zip".

Definition fetch_bundle (b : bundle_info) (d : bundle_descriptor) (cache : tree) : result stop (cppstring * tree) :=
  match cache !! cache_name b with
  | Some bytes => Ok (bytes, cache)
  | None =>
      match download_of b with
      | Unreachable what => Throw (false, str "Failed to download bundle " ++ id b ++ str ": " ++ what)
      | Answered status payload =>
          if status =? 403 then Throw (true, str "Bundle " ++ id b ++ str " no longer in effective set") else
          if negb ((status >=? 200) && (status <? 300)) then Throw (false, str "Failed to download bundle " ++ id b ++ str ": " ++ show status) else
          match verify_bundle (bundle_signing_pub_pem identity) payload d (signature b) with
          | Throw e => Throw (false, str "Bundle " ++ id b ++ str " failed verification: " ++ e)
          | Ok _ => Ok (payload, <[cache_name b := payload]> cache)
          end
      end
  end.

(** One turn of the loop over the bundles *)
Definition apply_bundle (tenant : Z) (b : bundle_info) (w : work) : result stop work :=
  let d := describe_bundle tenant b in
  let* (bytes, cache) := fetch_bundle b d (cache w) in
  match verify_bundle (bundle_signing_pub_pem identity) bytes d (signature b) with
  | Throw e => Throw (false, str "Bundle " ++ id b ++ str " failed verification: " ++ e)
  | Ok _ =>
      match open_bundle (bundle_keys identity) (name b) (version b) bytes (require_encrypted_bundles identity) with
      | Throw e => Throw (false, str "Bundle " ++ id b ++ str ": " ++ e)
      | Ok plaintext =>
          match unzip plaintext with
          | None => Throw (false, str "Bundle " ++ id b ++ str " is not a readable zip archive")
          | Some a =>
              let* merged :=
                match config_json a with
                | None => Ok (merged w)
                | Some text =>
                    match parse_value text with
                    | Ok config => Ok (json_merge_patch (merged w) config)
                    | Throw e => Throw (false, str "Bundle " ++ id b ++ str " config.json is invalid: " ++ e)
                    end
                end in
              match stage_entries (id b) (archive_entries a) 0 (staging w) with
              | Throw e => Throw (false, e)
              | Ok staging => Ok (Work cache merged staging (installed w ++ [Installed (id b) (version b)]))
              end
          end
      end
  end.

Fixpoint apply_bundles (tenant : Z) (bs : list bundle_info) (w : work) : result stop work :=
  match bs with
  | [] => Ok w
  | b :: bs => let* w := apply_bundle tenant b w in apply_bundles tenant bs w
  end.

(** The staged state: the text of fleet.ini and the rest *)
Definition stage_state (st : desired_state) (cache : tree) : result stop (cppstring * work) :=
  let failed {A} (r : result cppstring A) : result stop A :=
    match r with Ok a => Ok a | Throw e => Throw (false, str "Apply failed: " ++ e) end in
  let* host_override := failed (parse_value (if bool_decide (merged_config_json st = []) then str "{}" else merged_config_json st)) in
  let* w := apply_bundles (tenant_id st) (bundles st) (Work cache (JObject []) ∅ []) in
  let* text := failed (render_ini (json_merge_patch (merged w) host_override)) in
  Ok (text, w).

(** ** Nothing unsigned reaches the disk *)

(** The bytes of the bundle [b]: their digest is the one of the bundle, and the pinned key signed
    it together with the tenant and the bundle's id, name, version and format. *)
Definition signed_text (tenant : Z) (b : bundle_info) : cppstring :=
  str "nsclient-fleet/bundle-sig/v2" ++ concat (map (cons Ascii.zero) [decimal_text tenant; id b; name b; version b; format b; sha256 b]).
Definition signed_bytes (tenant : Z) (b : bundle_info) (bytes : cppstring) : Prop :=
  to_hex (sha256_raw bytes) = to_lower (sha256 b) /\ signed_by (bundle_signing_pub_pem identity) (signed_text tenant b) (signature b).

(** The archive [a] came out of such bytes: they are the archive, where the host takes plain
    ones, or they were opened with a key of the host for this name and version. *)
Definition authentic (tenant : Z) (b : bundle_info) (a : archive) : Prop :=
  exists bytes plaintext, signed_bytes tenant b bytes /\
    (is_encrypted_bundle bytes = false /\ require_encrypted_bundles identity = false /\ plaintext = bytes \/
     is_encrypted_bundle bytes = true /\ opened_with (bundle_keys identity) (name b) (version b) bytes plaintext) /\
    unzip plaintext = Some a.

Lemma verified_signed tenant b bytes : verify_bundle (bundle_signing_pub_pem identity) bytes (describe_bundle tenant b) (signature b) = Ok tt -> signed_bytes tenant b bytes.
Proof.
  intros [H1 H2]%verify_bundle_ok. split; [exact H1|]. unfold signed_text. unfold signing_bytes, describe_bundle in H2. cbn [fold_left map concat d_tenant_id d_bundle_id d_name d_version d_format d_sha256_hex] in *.
  rewrite app_nil_r. rewrite <-!app_assoc in H2. exact H2.
Qed.

(** A file of the cache that is new is one of the bundles, verified. *)
Definition cached_ok (tenant : Z) (bs : list bundle_info) (before after : tree) : Prop :=
  forall f bytes, after !! f = Some bytes -> before !! f = Some bytes \/ exists b, b ∈ bs /\ f = cache_name b /\ signed_bytes tenant b bytes.

Definition configs_of (archives : list archive) : list cppstring := omap config_json archives.

Lemma fetch_cache tenant b c bytes c' : fetch_bundle b (describe_bundle tenant b) c = Ok (bytes, c') -> cached_ok tenant [b] c c'.
Proof.
  unfold fetch_bundle. destruct (c !! cache_name b); [intros [= <- <-]; intros ? ? ?; by left|]. destruct (download_of b) as [|status payload]; [done|].
  destruct (status =? 403); [done|]. destruct (negb _); [done|]. destruct (verify_bundle _ _ _ _) as [[]|] eqn:Ev; [|done]. intros [= <- <-] f x.
  destruct (decide (cache_name b = f)) as [<-|N]; [|rewrite lookup_insert_ne by done; by left]. rewrite lookup_insert_eq. intros [= <-]. right. exists b. split_and!; [by left|done|by apply verified_signed].
Qed.

Lemma apply_bundle_ok tenant b w w' : apply_bundle tenant b w = Ok w' ->
  exists a, authentic tenant b a /\ cached_ok tenant [b] (cache w) (cache w') /\
    match config_json a with None => merged w' = merged w | Some text => exists v, parse_value text = Ok v /\ merged w' = json_merge_patch (merged w) v end /\
    stage_entries (id b) (archive_entries a) 0 (staging w) = Ok (staging w') /\ installed w' = installed w ++ [Installed (id b) (version b)].
Proof.
  unfold apply_bundle. intros E. apply rbind_Ok_inv in E as ([bytes c'] & Hf & E). apply fetch_cache in Hf.
  destruct (verify_bundle _ _ _ _) as [[]|] eqn:Ev; [|done]. destruct (open_bundle _ _ _ _ _) as [pt|] eqn:Eo; [|done].
  destruct (unzip pt) as [a|] eqn:Ea; [|done]. apply rbind_Ok_inv in E as (m & Em & E).
  destruct (stage_entries _ _ _ _) as [t|] eqn:Es; [|done]. injection E as <-. exists a.
  split; [exists bytes, pt; split_and!; [by apply verified_signed|by apply opened_bundle_was_authenticated|done]|]. split; [done|]. split; [|done].
  destruct (config_json a) as [text|]; [|by injection Em as <-]. destruct (parse_value text) as [v|] eqn:Ep; [|done]. injection Em as <-. by exists v.
Qed.

(** What a run over the bundles leaves: their archives, authentic and in their order *)
Lemma apply_bundles_ok tenant bs : forall w w', apply_bundles tenant bs w = Ok w' ->
  exists archives configs, Forall2 (authentic tenant) bs archives /\ Forall2 (fun t v => parse_value t = Ok v) (configs_of archives) configs /\
    merged w' = fold_left json_merge_patch configs (merged w) /\ cached_ok tenant bs (cache w) (cache w') /\
    installed w' = installed w ++ map (fun b => Installed (id b) (version b)) bs /\
    fold_left (fun acc x => let* t := acc in stage_entries (id x.1) (archive_entries x.2) 0 t) (zip bs archives) (Ok (staging w)) = Ok (staging w').
Proof.
  induction bs as [|b bs IH]; intros w w' E; cbn [apply_bundles] in E.
  - injection E as <-. exists [], []. split_and!; first [done|intros f x Hx; by left|by rewrite app_nil_r|by constructor].
  - apply rbind_Ok_inv in E as (w1 & E1 & E). apply apply_bundle_ok in E1 as (a & Ha & Hc & Hm & Hs & Hi).
    destruct (IH w1 w' E) as (archives & configs & F1 & F2 & M & C & I & S).
    assert (HC : cached_ok tenant (b :: bs) (cache w) (cache w')).
    { intros f x Hx. destruct (C f x Hx) as [H1|(b' & ? & ? & ?)]; [|right; exists b'; split_and!; [by right|done..]].
      destruct (Hc f x H1) as [?|(b' & Hb%list_elem_of_singleton & ? & ?)]; [by left|right]. subst b'. exists b. split_and!; [by left|done..]. }
    assert (HI : installed w' = installed w ++ map (fun b => Installed (id b) (version b)) (b :: bs)) by (rewrite I, Hi, <-app_assoc; done).
    assert (HS : forall l, fold_left (fun acc x => let* t := acc in stage_entries (id x.1) (archive_entries x.2) 0 t) ((b, a) :: l) (Ok (staging w)) =
      fold_left (fun acc x => let* t := acc in stage_entries (id x.1) (archive_entries x.2) 0 t) l (Ok (staging w1))) by (intros l; cbn [fold_left fst snd rbind]; by rewrite Hs).
    destruct (config_json a) as [text|] eqn:Et.
    + destruct Hm as (v & Hv & Hm). exists (a :: archives), (v :: configs). split_and!; [by constructor| |by rewrite M, Hm|done|done|].
      * unfold configs_of. cbn. rewrite Et. by constructor.
      * cbn [zip zip_with]. by rewrite HS.
    + exists (a :: archives), configs. split_and!; [by constructor| |by rewrite M, Hm|done|done|].
      * unfold configs_of. cbn. by rewrite Et.
      * cbn [zip zip_with]. by rewrite HS.
Qed.

(** The scripts of the archives, in order *)
Definition scripts_of (archives : list archive) : list (cppstring * cppstring) := concat (map (fun a => omap script_of (archive_entries a)) archives).
(** A path below scripts/ with no way out of it *)
Definition confined (p : cppstring) : Prop := is_prefix (str "scripts/") p = true /\ find p (str "..") 0 = None /\ ":"%char ∉ p.

Lemma fold_staged bs : forall archives t t', length archives = length bs ->
  fold_left (fun acc x => let* t := acc in stage_entries (id x.1) (archive_entries x.2) 0 t) (zip bs archives) (Ok t) = Ok (t' : tree) ->
  t' = fold_left put_script (scripts_of archives) t /\ ((forall p c, t !! p = Some c -> confined p) -> forall p c, t' !! p = Some c -> confined p).
Proof.
  induction bs as [|b bs IH]; intros [|a archives] t t' Hl E; cbn [zip zip_with fold_left fst snd rbind] in E; try done; [injection E as <-; by split|].
  destruct (stage_entries (id b) (archive_entries a) 0 t) as [t1|e] eqn:E1; [|exfalso; clear -E; induction (zip bs archives) as [|x l IH]; [done|by apply IH]].
  destruct (IH archives t1 t' ltac:(by injection Hl) E) as [H1 H2]. destruct (stage_entries_exact _ _ _ _ _ E1) as [H3 _]. unfold scripts_of. cbn [map concat]. rewrite fold_left_app, <-H3. split; [exact H1|].
  intros Ht. apply H2. intros p c Hp. destruct (stage_entries_ok (id b) (archive_entries a) 0 t t1 ltac:(unfold max_bundle_script_bytes; lia) E1 p c Hp) as [?|(? & ? & ? & _)]; [by eapply Ht|done].
Qed.

(** C7. When a desired state is staged, every bundle of it came as bytes with the announced
    digest, and the pinned key has signed the text of its tenant, id, name, version, format and
    digest; the archive is those bytes where the host takes plain bundles, or what a key of the
    host opens them to for that name and version. The configuration is what those archives and
    the host's own document merge to, the staged scripts are exactly the entries of those
    archives under scripts/, each at its own path and later bundles over earlier ones, no path
    leaves scripts/, the installed list is that of the bundles, and a new file of the cache is
    one of the verified bundles. Only the script tree of the staging area is covered, not the
    unsealed archives and the rendered file that lie beside it. *)
Theorem nothing_unsigned_is_staged st cache0 text w : stage_state st cache0 = Ok (text, w) ->
  exists archives configs host_override,
    Forall2 (authentic (tenant_id st)) (bundles st) archives /\
    Forall2 (fun t v => parse_value t = Ok v) (configs_of archives) configs /\
    parse_value (if bool_decide (merged_config_json st = []) then str "{}" else merged_config_json st) = Ok host_override /\
    render_ini (merged_config configs host_override) = Ok text /\
    staging w = fold_left put_script (scripts_of archives) ∅ /\ (forall p c, staging w !! p = Some c -> confined p) /\
    cached_ok (tenant_id st) (bundles st) cache0 (cache w) /\
    installed w = map (fun b => Installed (id b) (version b)) (bundles st).
Proof.
  unfold stage_state. intros E. apply rbind_Ok_inv in E as (host & Eh & E). match type of Eh with context [parse_value ?t] => destruct (parse_value t) as [h|] eqn:Ep end; [|done]. injection Eh as ->.
  apply rbind_Ok_inv in E as (w1 & Ew & E). apply rbind_Ok_inv in E as (txt & Et & E). injection E as -> ->.
  apply apply_bundles_ok in Ew as (archives & configs & F1 & F2 & M & C & I & S). exists archives, configs, host. cbn [merged staging cache installed] in *.
  destruct (fold_staged (bundles st) archives ∅ (staging w)) as [S1 S2]; [symmetry; by eapply Forall2_length|done|].
  split_and!; try done.
  - rewrite M in Et. unfold merged_config. destruct (render_ini _); [|done]. by injection Et as ->.
  - apply S2. intros ? ?. by rewrite lookup_empty.
Qed.
End agent.

Module AgentSamples.
Definition zip : cppstring := str "zip".
Definition unzip (s : cppstring) : option archive :=
  if bool_decide (s = zip) then Some (Archive (Some (str "config")) [FileEntry (str "scripts\x.sh") 3 (Some (str "run"))]) else None.
Definition sha : cppstring := to_hex (@sha256_raw TrustSamples.crypto zip).
Definition unsigned_bundle : bundle_info := BundleInfo (str "b1") (str "base") (str "1") sha [] (str "/b1") 0 (str "plain").
Definition bundle : bundle_info :=
  BundleInfo (str "b1") (str "base") (str "1") sha (base64_encode (str "key" ++ signing_bytes (describe_bundle 7 unsigned_bundle))) (str "/b1") 0 (str "plain").
Definition state : desired_state := DesiredState 7 (str "h") 60 [] [bundle].
Definition host : enrolled_identity := Identity (str "pk") (str "cert") (str "ca") (str "key") [] (str "https://f") (str "srv") [] false false.
Definition json_lib : JsonLib := JsonSamples.lib [(str "settings", JObject [(str "k", JString (str "v"))])].
Definition staged := @stage_state TrustSamples.crypto json_lib unzip host (fun _ => Answered 200 zip) state ∅.
End AgentSamples.

Lemma nothing_unsigned_is_staged_witness : exists text w, AgentSamples.staged = Ok (text, w) /\ staging w = {[str "scripts/x.sh" := str "run"]} /\
  installed w = [Installed (str "b1") (str "1")] /\ exists bytes, @signed_bytes TrustSamples.crypto AgentSamples.host 7 AgentSamples.bundle bytes.
Proof.
  destruct AgentSamples.staged as [[text w]|] eqn:E; [|exfalso; vm_compute in E; discriminate E].
  exists text, w. split; [done|]. split; [vm_compute in E; injection E as <- <-; reflexivity|].
  unfold AgentSamples.staged in E. apply nothing_unsigned_is_staged in E as (archives & configs & h & Ha & _ & _ & _ & _ & _ & _ & Hi). split; [exact Hi|].
  inversion Ha as [|? ? ? ? (bytes & pt & Hb & _)]; subst. by exists bytes.
Defined.
