(* ===== verification/HttpWire.v ===== *)
(** The HTTP client's own wire code (include/net/http): requests and forms (http_request.hpp),
    responses (http_response.hpp), chunked bodies, URLs and the size limit of a body
    (client.hpp), proxies (proxy_config.hpp).  The transport is not part of it: a body arrives as
    the list of the pieces that were read. *)

From stdpp Require Import base list strings gmap.
From Stdlib Require Import Ascii ZArith Lia.
From S2P Require Import Prelude Strings Format Base64 Ordering FleetSync.

Local Open Scope Z_scope.

Definition crlf : cppstring := [c_return; c_newline].

(** ** Chunked bodies *)

(** [std::stoul(s, nullptr, 16)], [unsigned long] of 64 bits; [None] where it throws *)
Definition hex_val (c : ascii) : Z :=
  let n := Z.of_nat (nat_of_ascii c) in
  if isdigit c then n - 48 else if (97 <=? n) && (n <=? 102) then n - 87 else n - 55.
Fixpoint hex_digits_of (s : cppstring) : cppstring :=
  match s with c :: s' => if isxdigit c then c :: hex_digits_of s' else [] | [] => [] end.
Definition hex_value (s : cppstring) : Z := fold_left (fun v c => v * 16 + hex_val c) s 0.
Definition skip_0x (s : cppstring) : cppstring :=
  match s with
  | z :: x :: h :: s' =>
      if bool_decide (z = "0"%char) && (bool_decide (x = "x"%char) || bool_decide (x = "X"%char)) && isxdigit h then h :: s' else s
  | _ => s
  end.
Definition stoul16 (s : cppstring) : option Z :=
  let s := skip_space s in
  let '(negative, s) := match s with
                        | c :: s' => if bool_decide (c = "-"%char) then (true, s') else if bool_decide (c = "+"%char) then (false, s') else (false, s)
                        | [] => (false, [])
                        end in
  let digits := hex_digits_of (skip_0x s) in
  if bool_decide (digits = []) then None else
  let v := hex_value digits in
  if v <? 2 ^ 64 then Some (if negative then wrap_u 64 (- v) else v) else None.

(** The size of a chunk: the line up to an extension, without the blanks behind it *)
Definition chunk_size (line : cppstring) : option Z :=
  let line := match find line (str ";") 0 with Some semi => take semi line | None => line end in
  stoul16 (rev (skip_space (rev line))).

(** The loop from [rest = raw.substr(pos)] on *)
Fixpoint chunk_loop (fuel : nat) (rest out : cppstring) : cppstring :=
  match fuel with
  | O => out
  | S fuel =>
      if bool_decide (rest = []) then out else
      match find rest crlf 0 with
      | None => out
      | Some i =>
          match chunk_size (take i rest) with
          | None => out
          | Some size =>
              let rest := drop (i + 2) rest in
              if size =? 0 then out else
              if size >? zlength rest then out ++ rest else
              let out := out ++ take (Z.to_nat size) rest in
              let rest := drop (Z.to_nat size) rest in
              chunk_loop fuel (if is_prefix crlf rest then drop 2 rest else rest) out
          end
      end
  end.
Definition decode_chunked (raw : cppstring) : cppstring := chunk_loop (S (length raw)) raw [].

(** ** URLs *)

Record parsed_url := ParsedUrl { protocol : cppstring; url_host : cppstring; url_port : cppstring; url_path : cppstring }.

Definition parse_url (url : cppstring) : parsed_url :=
  match find url (str "://") 0 with
  | None => ParsedUrl [] [] [] []
  | Some p =>
      let proto := take p url in
      let rest := drop (p + 3) url in
      let '(hostport, path) := match find rest (str "/") 0 with Some s => (take s rest, drop s rest) | None => (rest, str "/") end in
      match find hostport (str ":") 0 with
      | Some c => ParsedUrl proto (take c hostport) (drop (c + 1) hostport) path
      | None => ParsedUrl proto hostport (if bool_decide (proto = str "https") then str "443" else str "80") path
      end
  end.

Fixpoint percent_decode (s : cppstring) : cppstring :=
  match s with
  | p :: ((a :: b :: s') as t) =>
      if bool_decide (p = "%"%char) && isxdigit a && isxdigit b
      then ascii_of_nat (Z.to_nat (Z.lor (Z.shiftl (hex_val a) 4) (hex_val b))) :: percent_decode s'
      else p :: percent_decode t
  | p :: t => p :: percent_decode t
  | [] => []
  end.

(** ** Proxies *)

Inductive proxy_type := NONE | HTTP | SOCKS5.
#[export] Instance proxy_type_eq_dec : EqDecision proxy_type.
Proof. solve_decision. Defined.
Record proxy_config := ProxyConfig { type : proxy_type; host : cppstring; port : cppstring; username : cppstring; password : cppstring; no_proxy : list cppstring }.

Definition is_set (p : proxy_config) : bool := negb (bool_decide (type p = NONE)).
Definition credentials (p : proxy_config) : cppstring := if bool_decide (username p = []) then [] else username p ++ str ":" ++ password p.

(** [s.rfind(c)] *)
Fixpoint rfind_char (c : ascii) (s : cppstring) : option nat :=
  match s with
  | [] => None
  | d :: s => match rfind_char c s with Some i => Some (S i) | None => if bool_decide (d = c) then Some 0%nat else None end
  end.

(** [user:pass@] and what follows it *)
Definition proxy_credentials (rest : cppstring) : cppstring * cppstring * cppstring :=
  match rfind_char "@"%char rest with
  | None => ([], [], rest)
  | Some at_pos =>
      let creds := take at_pos rest in
      let rest := drop (at_pos + 1) rest in
      match find creds (str ":") 0 with
      | Some colon => (percent_decode (take colon creds), percent_decode (drop (colon + 1) creds), rest)
      | None => (percent_decode creds, [], rest)
      end
  end.
(** [host:port], without the path *)
Definition proxy_endpoint (ty : proxy_type) (rest : cppstring) : cppstring * cppstring :=
  let rest := match find rest (str "/") 0 with Some slash_pos => take slash_pos rest | None => rest end in
  match find rest (str ":") 0 with
  | Some colon_pos => (take colon_pos rest, drop (colon_pos + 1) rest)
  | None => (rest, if bool_decide (ty = SOCKS5) then str "1080" else str "3128")
  end.
Definition parse_proxy_url (url : cppstring) : proxy_config :=
  let none := ProxyConfig NONE [] [] [] [] [] in
  if bool_decide (url = []) then none else
  match find url (str "://") 0 with
  | None => none
  | Some scheme_end =>
      let scheme := take scheme_end url in
      let rest := drop (scheme_end + 3) url in
      let ty := if bool_decide (scheme = str "http") then HTTP else if bool_decide (scheme = str "socks5") then SOCKS5 else NONE in
      if bool_decide (ty = NONE) then none else
      let '(user, pass, rest) := proxy_credentials rest in
      let '(h, p) := proxy_endpoint ty rest in
      ProxyConfig ty h p user pass []
  end.

Definition bypass_pattern (target_lc pattern : cppstring) : bool :=
  if bool_decide (pattern = []) then false else
  if bool_decide (pattern = str "*") then true else
  let pattern_lc := to_lower pattern in
  if bool_decide (head pattern_lc = Some "."%char) then
    (Nat.leb (length pattern_lc) (length target_lc) && bool_decide (drop (length target_lc - length pattern_lc) target_lc = pattern_lc)) ||
    bool_decide (target_lc = tail pattern_lc)
  else bool_decide (target_lc = pattern_lc).
Definition should_bypass (target_host : cppstring) (no_proxy_list : list cppstring) : bool :=
  existsb (bypass_pattern (to_lower target_host)) no_proxy_list.

(** ** Requests *)

(** A digit of [charToHex], of a value from 0 to 15 *)
Definition hex_digit (v : nat) : ascii := ascii_of_nat (if Nat.ltb 9 v then v + 55 else v + 48).
Definition charToHex (c : ascii) : cppstring := let n := nat_of_ascii c in [hex_digit (n / 16); hex_digit (n mod 16)].
Definition uri_plain : cppstring := str "ABCDEFGHIJKLMNOPQRSTUVWXYZabcdefghijklmnopqrstuvwxyz0123456789-_.!~*'()".
Definition uri_encode_char (c : ascii) : cppstring :=
  if bool_decide (c = c_blank) then str "+" else if has_char c uri_plain then [c] else "%"%char :: charToHex c.
Definition uri_encode (src : cppstring) : cppstring := concat (map uri_encode_char src).

Inductive http_version := http_1_0 | http_1_1.
Record request := Request { req_headers : gmap cppstring cppstring; verb_ : cppstring; server_name : cppstring; path_ : cppstring; req_payload : cppstring; version_ : http_version }.

Definition add_request_header (key value : cppstring) (r : request) : request :=
  Request (<[key := value]> (req_headers r)) (verb_ r) (server_name r) (path_ r) (req_payload r) (version_ r).
Definition add_default_headers (r : request) : request :=
  add_request_header (str "Connection") (str "close") (add_request_header (str "Accept") (str "*/*") r).
Definition new_request (verb server path payload : cppstring) : request := add_default_headers (Request ∅ verb server path payload http_1_0).

Definition get_header (r : request) : cppstring :=
  verb_ r ++ str " " ++ path_ r ++ (match version_ r with http_1_1 => str " HTTP/1.1" | http_1_0 => str " HTTP/1.0" end) ++ crlf ++
  (if bool_decide (server_name r = []) then [] else str "Host: " ++ server_name r ++ crlf) ++
  concat (map (fun h => h.1 ++ str ": " ++ h.2 ++ crlf) (sort_by_key (map_to_list (req_headers r)))) ++ crlf.
Definition get_packet (r : request) : cppstring := get_header r ++ req_payload r.
Definition build_request (r : request) : cppstring := get_header r ++ req_payload r ++ crlf ++ crlf.

Definition set_post (content_type data : cppstring) (r : request) : request :=
  let r := add_request_header (str "Content-Type") content_type (add_request_header (str "Content-Length") (show (zlength data)) r) in
  Request (req_headers r) (str "POST") (server_name r) (path_ r) data (version_ r).
(** The fields of a form, in the order of the map *)
Definition form_step (data : cppstring) (v : cppstring * cppstring) : cppstring :=
  (if bool_decide (data = []) then [] else data ++ str "&") ++ uri_encode v.1 ++ str "=" ++ uri_encode v.2.
Definition form_data (payload : gmap cppstring cppstring) : cppstring := fold_left form_step (sort_by_key (map_to_list payload)) [].
Definition add_post_form (payload : gmap cppstring cppstring) (r : request) : request :=
  set_post (str "application/x-www-form-urlencoded") (form_data payload) r.
Definition add_post_payload (content_type payload : cppstring) (r : request) : request := set_post content_type payload r.

Definition make_proxy_request (original : request) (server port_ : cppstring) (proxy : proxy_config) : request :=
  let abs_path := str "http://" ++ server ++ (if negb (bool_decide (port_ = [])) && negb (bool_decide (port_ = str "80")) then str ":" ++ port_ else []) ++ path_ original in
  let p := Request (req_headers original) (verb_ original) (server_name original) abs_path (req_payload original) (version_ original) in
  if bool_decide (credentials proxy = []) then p
  else add_request_header (str "Proxy-Authorization") (str "Basic " ++ base64_encode (credentials proxy)) p.

(** Where [connect_and_send] connects to, and the request it sends there.  Behind a SOCKS or an
    HTTPS tunnel the transport itself goes through the proxy. *)
Definition connect_and_send (proxy : proxy_config) (is_https : bool) (server port_ : cppstring) (req : request) : cppstring * cppstring * request :=
  let use_proxy := is_set proxy && negb (should_bypass server (no_proxy proxy)) in
  if use_proxy && negb is_https then (host proxy, port proxy, make_proxy_request req server port_ proxy)
  else (server, port_, req).

(** ** Responses *)

Record http_response := HttpResponse { r_headers : gmap cppstring cppstring; r_version : cppstring; r_status : Z; r_message : cppstring; r_payload : cppstring }.
Definition no_response : http_response := HttpResponse ∅ [] 0 [] [].

(** [find_first_not_of(" \t\r\n")] to [find_last_not_of] *)
Definition header_blank (c : ascii) : bool := bool_decide (c = c_blank) || bool_decide (c = c_tab) || bool_decide (c = c_return) || bool_decide (c = c_newline).
Fixpoint skip_header_blanks (s : cppstring) : cppstring :=
  match s with c :: s' => if header_blank c then skip_header_blanks s' else s | [] => [] end.
Definition trim_header (s : cppstring) : cppstring := rev (skip_header_blanks (rev (skip_header_blanks s))).

Definition add_header (line : cppstring) (headers : gmap cppstring cppstring) : gmap cppstring cppstring :=
  match find line (str ":") 0 with
  | None => <[to_lower line := []]> headers
  | Some p => <[to_lower (take p line) := trim_header (drop (p + 1) line)]> headers
  end.

Fixpoint strip_line_end (s : cppstring) : cppstring :=
  match s with c :: s' => if bool_decide (c = c_return) || bool_decide (c = c_newline) then strip_line_end s' else s | [] => [] end.

Section responses.
Context `{lexical_int}.

(** Version, status and message *)
Definition parse_status_line (line : cppstring) : cppstring * Z * cppstring :=
  match find line (str " ") 0 with
  | None => (line, 500, [])
  | Some p =>
      let rest := drop (p + 1) line in
      let code text := default 500 (lexical_cast 0 (2 ^ 32 - 1) (c_str text)) in
      match find rest (str " ") 0 with
      | None => (take p line, code rest, [])
      | Some e => (take p line, code (take e rest), rev (strip_line_end (rev (drop (e + 1) rest))))
      end
  end.

Fixpoint parse_headers (fuel : nat) (data : cppstring) (headers : gmap cppstring cppstring) : gmap cppstring cppstring * cppstring :=
  match fuel with
  | O => (headers, [])
  | S fuel =>
      match find data crlf 0 with
      | None => (headers, [])
      | Some O => (headers, drop 2 data)
      | Some i => parse_headers fuel (drop (i + 2) data) (add_header (take i data) headers)
      end
  end.

Definition parse_response (data : cppstring) : http_response :=
  match find data crlf 0 with
  | None => no_response
  | Some i =>
      let '(version, code, message) := parse_status_line (take i data) in
      let rest := drop (i + 2) data in
      let '(headers, payload) := parse_headers (S (length rest)) rest ∅ in
      HttpResponse headers version code message payload
  end.
End responses.

(** ** The body of a fetched response *)

(** The pieces as they are read, under the limit; [None] is the exception *)
Fixpoint read_body (limit : Z) (body : cppstring) (pieces : list cppstring) : option cppstring :=
  if negb (limit =? 0) && (zlength body >? limit) then None else
  match pieces with [] => Some body | piece :: pieces => read_body limit (body ++ piece) pieces end.

Definition last_coding (v : cppstring) : cppstring :=
  to_lower (let last := match rfind_char ","%char v with Some i => drop (i + 1) v | None => v end in
            if bool_decide (trim_blanks last = []) then last else trim_blanks last).
Definition fetch_body (limit : Z) (headers : gmap cppstring cppstring) (first : cppstring) (pieces : list cppstring) : option cppstring :=
  match read_body limit first pieces with
  | None => None
  | Some raw =>
      match headers !! str "transfer-encoding" with
      | Some v => Some (if bool_decide (last_coding v = str "chunked") then decode_chunked raw else raw)
      | None => Some raw
      end
  end.
