(* ===== verification/CheckMk.v ===== *)
(** The agent output of Checkmk: include/net/check_mk/data.hpp (sections with their header
    decorations, piggyback blocks, writing and reading), and the two ends of a connection,
    server_protocol.hpp and client_protocol.hpp. *)

From stdpp Require Import base list strings.
From Stdlib Require Import Ascii ZArith Lia.
From S2P Require Import Prelude Strings.

Local Open Scope Z_scope.

Module CheckMk.

(** ** Lines and sections *)

Definition line : Type := list cppstring.

(** [static_cast<char>(sep_char)] *)
Definition sep_char (sep : Z) : ascii := ascii_of_nat (Z.to_nat (wrap_u 8 sep)).
Definition line_to_string (sep : Z) (items : line) : cppstring := join_with (sep_char sep) items.
(** [std::getline] up to the end of the text gives the [pieces] between the separators. *)
Definition set_line (data : cppstring) (items : line) : line := items ++ pieces c_blank data.
Definition set_raw (data : cppstring) : line := [data].
Definition get_item (items : line) (id : nat) : option cppstring := items !! id.

Record section := mkSection {
  title : cppstring;
  separator : option Z;
  cached : option (Z * Z);
  persist_until : option Z;
  lines : list line
}.
Definition new_section : section := mkSection [] None None None [].
Definition empty (s : section) : bool := bool_decide (title s = []) && bool_decide (lines s = []).
Definition add_line (l : line) (s : section) : section := mkSection (title s) (separator s) (cached s) (persist_until s) (lines s ++ [l]).
Definition push (data : cppstring) (s : section) : section := add_line (set_line data []) s.
Definition get_line (s : section) (id : nat) : option line := lines s !! id.

Definition opt_text {A} (f : A -> cppstring) (o : option A) : cppstring := match o with Some a => f a | None => [] end.
Definition render_header (s : section) : cppstring :=
  str "<<<" ++ title s ++
  opt_text (fun n => str ":sep(" ++ show n ++ str ")") (separator s) ++
  opt_text (fun c => str ":cached(" ++ show c.1 ++ str "," ++ show c.2 ++ str ")") (cached s) ++
  opt_text (fun n => str ":persist(" ++ show n ++ str ")") (persist_until s) ++
  str ">>>" ++ [c_newline].
Definition section_to_string (s : section) : cppstring :=
  render_header s ++ concat (map (fun l => line_to_string (default 32 (separator s)) l ++ [c_newline]) (lines s)).

(** ** Packets *)

Record piggyback_block := mkBlock { host : cppstring; block_sections : list section }.
Record packet := mkPacket { section_list : list section; piggybacks : list piggyback_block }.
Definition new_packet : packet := mkPacket [] [].
Definition add_section (s : section) (p : packet) : packet := mkPacket (section_list p ++ [s]) (piggybacks p).
Definition get_section (p : packet) (id : nat) : option section := section_list p !! id.

Definition block_to_string (b : piggyback_block) : cppstring :=
  str "<<<<" ++ host b ++ str ">>>>" ++ [c_newline] ++ concat (map section_to_string (block_sections b)) ++ str "<<<<>>>>" ++ [c_newline].
Definition write (p : packet) : cppstring :=
  concat (map section_to_string (section_list p)) ++ concat (map block_to_string (piggybacks p)).

(** ** Reading *)

(** [std::stoi], of which [std::stoll] is the wider part; [None] where it throws *)
Definition stoi (s : cppstring) : option Z :=
  match stoll s with Some z => if bool_decide (in_s 32 z) then Some z else None | None => None end.

Definition set_separator (n : Z) (s : section) : section := mkSection (title s) (Some n) (cached s) (persist_until s) (lines s).
Definition set_cached (c : Z * Z) (s : section) : section := mkSection (title s) (separator s) (Some c) (persist_until s) (lines s).
Definition set_persist (n : Z) (s : section) : section := mkSection (title s) (separator s) (cached s) (Some n) (lines s).

(** One decoration; a malformed one is ignored *)
Definition apply_option (opt : cppstring) (s : section) : section :=
  match find opt (str "(") 0 with
  | None => s
  | Some lparen =>
      if negb (bool_decide (last opt = Some ")"%char)) then s else
      let name := take lparen opt in
      let args := take (length opt - lparen - 2) (drop (lparen + 1) opt) in
      if bool_decide (name = str "sep") then match stoi args with Some n => set_separator n s | None => s end
      else if bool_decide (name = str "cached") then
        match find args (str ",") 0 with
        | None => s
        | Some comma =>
            match stoll (take comma args), stoll (drop (comma + 1) args) with Some g, Some i => set_cached (g, i) s | _, _ => s end
        end
      else if bool_decide (name = str "persist") then match stoll args with Some n => set_persist n s | None => s end
      else s
  end.

(** The loop, [rest] being what follows the colon at [pos] *)
Fixpoint options_loop (fuel : nat) (rest : cppstring) (s : section) : section :=
  match fuel with
  | O => s
  | S fuel =>
      match find rest (str ":") 0 with
      | None => apply_option rest s
      | Some next => options_loop fuel (drop (next + 1) rest) (apply_option (take next rest) s)
      end
  end.
Definition titled (t : cppstring) : section := mkSection t None None None [].
Definition parse_section_header (inner : cppstring) : section :=
  match find inner (str ":") 0 with
  | None => titled inner
  | Some first_colon => options_loop (S (length inner)) (drop (first_colon + 1) inner) (titled (take first_colon inner))
  end.

(** The locals of [read]: the packet, the section [s] being read, and [active_pb], the place of a
    block in the list (blocks are only appended, so the pointer stays valid). *)
Record reader := mkReader { pkt : packet; cur : section; active_pb : option nat }.

Definition block_add_section (s : section) (b : piggyback_block) : piggyback_block := mkBlock (host b) (block_sections b ++ [s]).
Definition flush_section (r : reader) : reader :=
  if empty (cur r) then r else
  let p := pkt r in
  mkReader (match active_pb r with
            | Some i => mkPacket (section_list p) (alter (block_add_section (cur r)) i (piggybacks p))
            | None => add_section (cur r) p
            end) new_section (active_pb r).

(** [piggyback_for]: the place of the block of a host, made if there is none *)
Fixpoint block_of (h : cppstring) (bs : list piggyback_block) : option nat :=
  match bs with [] => None | b :: bs => if bool_decide (host b = h) then Some 0%nat else S <$> block_of h bs end.
Definition piggyback_for (h : cppstring) (p : packet) : packet * nat :=
  match block_of h (piggybacks p) with
  | Some i => (p, i)
  | None => (mkPacket (section_list p) (piggybacks p ++ [mkBlock h []]), length (piggybacks p))
  end.

Definition ends_with (s key : cppstring) : bool := bool_decide (drop (length s - length key) s = key).
Definition is_pb (chunk : cppstring) : bool := Nat.leb 8 (length chunk) && is_prefix (str "<<<<") chunk && ends_with chunk (str ">>>>").
Definition is_section (chunk : cppstring) : bool :=
  negb (is_pb chunk) && Nat.leb 6 (length chunk) && is_prefix (str "<<<") chunk && ends_with chunk (str ">>>").
Definition strip_cr (chunk : cppstring) : cppstring :=
  if bool_decide (last chunk = Some c_return) then take (length chunk - 1) chunk else chunk.

Definition read_line (r : reader) (chunk : cppstring) : reader :=
  let chunk := strip_cr chunk in
  if is_pb chunk then
    let r := flush_section r in
    let h := take (length chunk - 8) (drop 4 chunk) in
    if bool_decide (h = []) then mkReader (pkt r) (cur r) None
    else let '(p, i) := piggyback_for h (pkt r) in mkReader p (cur r) (Some i)
  else if is_section chunk then
    let r := flush_section r in
    mkReader (pkt r) (parse_section_header (take (length chunk - 6) (drop 3 chunk))) (active_pb r)
  else mkReader (pkt r) (push chunk (cur r)) (active_pb r).

Definition read (data : cppstring) (p : packet) : packet :=
  pkt (flush_section (fold_left read_line (pieces c_newline data) (mkReader p new_section None))).

(** ** The two ends of a connection *)

Inductive server_state := srv_none | srv_connected | srv_got_request | srv_done.
#[export] Instance server_state_eq_dec : EqDecision server_state.
Proof. solve_decision. Defined.
Record read_protocol := mkServer { data_ : cppstring; server_current : server_state }.
Definition new_read_protocol : read_protocol := mkServer [] srv_none.
(** [handler_->process()] is the packet of the script, an argument *)
Definition server_on_connect (process : packet) (c : read_protocol) : read_protocol := mkServer (write process) srv_connected.
Definition server_has_data (c : read_protocol) : bool := bool_decide (server_current c = srv_connected).
Definition server_on_write (c : read_protocol) : read_protocol := mkServer (data_ c) srv_done.

Inductive client_state := cl_none | cl_connected | cl_wants_response | cl_done.
#[export] Instance client_state_eq_dec : EqDecision client_state.
Proof. solve_decision. Defined.
Record client_protocol := mkClient { current_state_ : client_state; read_buffer_ : cppstring; data_buffer_ : cppstring }.
Definition new_client_protocol : client_protocol := mkClient cl_none (replicate (Z.to_nat 40960) Ascii.zero) [].
Definition on_connect (c : client_protocol) : client_protocol := mkClient cl_connected (read_buffer_ c) (data_buffer_ c).
Definition prepare_request (c : client_protocol) : client_protocol := mkClient cl_wants_response (read_buffer_ c) (data_buffer_ c).
Definition wants_data (c : client_protocol) : bool := bool_decide (current_state_ c = cl_wants_response).
(** A read puts the bytes at the front of the buffer. *)
Definition received (bytes : cppstring) (c : client_protocol) : client_protocol :=
  mkClient (current_state_ c) (bytes ++ drop (length bytes) (read_buffer_ c)) (data_buffer_ c).
Definition on_read (bytes_transferred : nat) (c : client_protocol) : client_protocol :=
  mkClient (current_state_ c) (read_buffer_ c) (data_buffer_ c ++ take bytes_transferred (read_buffer_ c)).
Definition on_read_error (eof : bool) (c : client_protocol) : client_protocol :=
  if eof then mkClient cl_done (read_buffer_ c) (data_buffer_ c) else c.
Definition get_response (c : client_protocol) : packet := read (data_buffer_ c) new_packet.

End CheckMk.
