(* ===== verification/CheckMkLaws.v ===== *)
(** What a Checkmk packet written by the agent says to a reader: the sections with their
    decorations, the piggyback blocks, and the lines as the reader splits them, over any
    fragmentation of the connection. *)

From stdpp Require Import base list strings.
From Stdlib Require Import Ascii ZArith Lia.
From S2P Require Import Prelude Strings CheckMk.

Local Open Scope Z_scope.
Import CheckMk.

(** ** Decorations *)

Definition decoration (name args : cppstring) : cppstring := name ++ str "(" ++ args ++ str ")".

(** Name and arguments of a decoration are told apart. *)
Lemma decoration_parts name args : "("%char ∉ name ->
  find (decoration name args) (str "(") 0 = Some (length name) /\ last (decoration name args) = Some ")"%char /\
  take (length name) (decoration name args) = name /\
  take (length (decoration name args) - length name - 2) (drop (length name + 1) (decoration name args)) = args.
Proof.
  intros Hn. unfold decoration. change (str "(" ++ args ++ str ")") with ("("%char :: args ++ [")"%char]). split_and!.
  - by apply (find_char_first name "("%char).
  - by rewrite app_comm_cons, app_assoc, last_snoc.
  - apply take_app_length.
  - rewrite drop_separator, length_app. cbn [length]. rewrite length_app. cbn [length].
    replace (length name + S (length args + 1) - length name - 2)%nat with (length args) by lia. apply take_app_length.
Qed.

Lemma show_whole z : in_s 64 z -> stoll (show z) = Some z.
Proof. intros Hz. rewrite <-(app_nil_r (show z)). by apply stoll_show. Qed.

Lemma apply_sep n s : in_s 32 n -> apply_option (decoration (str "sep") (show n)) s = set_separator n s.
Proof.
  intros Hn. destruct (decoration_parts (str "sep") (show n)) as (E1 & E2 & E3 & E4); [vm_decide|]. unfold apply_option. rewrite E1, E2, E3, E4. cbn [bool_decide negb].
  unfold stoi. rewrite show_whole by (unfold in_s in *; lia). by rewrite !bool_decide_eq_true_2.
Qed.
Lemma apply_persist n s : in_s 64 n -> apply_option (decoration (str "persist") (show n)) s = set_persist n s.
Proof.
  intros Hn. destruct (decoration_parts (str "persist") (show n)) as (E1 & E2 & E3 & E4); [vm_decide|]. unfold apply_option. rewrite E1, E2, E3, E4.
  rewrite bool_decide_eq_true_2, !bool_decide_eq_false_2, bool_decide_eq_true_2 by done. by rewrite show_whole.
Qed.
Lemma not_shown c z : isdigit c = false -> c <> "-"%char -> c ∉ show z.
Proof.
  intros Hc Hm. destruct z as [|p|p]; [apply show_not_in; [lia|done]|apply show_not_in; [lia|done]|].
  rewrite show_neg. apply not_elem_of_cons. split; [done|]. apply show_not_in; [lia|done].
Qed.
Lemma apply_cached c s : in_s 64 c.1 -> in_s 64 c.2 -> apply_option (decoration (str "cached") (show c.1 ++ str "," ++ show c.2)) s = set_cached c s.
Proof.
  intros H1 H2. destruct (decoration_parts (str "cached") (show c.1 ++ str "," ++ show c.2)) as (E1 & E2 & E3 & E4); [vm_decide|]. unfold apply_option. rewrite E1, E2, E3, E4.
  rewrite bool_decide_eq_true_2, !bool_decide_eq_false_2, bool_decide_eq_true_2 by done. cbn [negb]. change (str "," ++ show c.2) with (","%char :: show c.2). change (str ",") with [","%char].
  rewrite find_char_first by (by apply not_shown). rewrite take_app_length, drop_separator, !show_whole by done. by destruct c.
Qed.

(** The decorations of a section, in the order they are written *)
Definition cached_args (c : Z * Z) : cppstring := show c.1 ++ str "," ++ show c.2.
Definition decorations (s : section) : list cppstring :=
  option_list ((fun n => decoration (str "sep") (show n)) <$> separator s) ++
  option_list ((fun c => decoration (str "cached") (cached_args c)) <$> cached s) ++
  option_list ((fun n => decoration (str "persist") (show n)) <$> persist_until s).

Definition in_range (s : section) : Prop :=
  (forall n, separator s = Some n -> in_s 32 n) /\ (forall c, cached s = Some c -> in_s 64 c.1 /\ in_s 64 c.2) /\ (forall n, persist_until s = Some n -> in_s 64 n).

Lemma apply_decorations s : in_range s ->
  fold_left (fun s o => apply_option o s) (decorations s) (titled (title s)) = mkSection (title s) (separator s) (cached s) (persist_until s) [].
Proof.
  destruct s as [t sep c p ls]. unfold in_range, decorations, titled. cbn [title separator cached persist_until lines]. intros (Hs & Hc & Hp). rewrite !fold_left_app.
  replace (fold_left _ (option_list (_ <$> sep)) _) with (mkSection t sep None None []) by (destruct sep; [symmetry; apply apply_sep; auto|done]).
  replace (fold_left _ (option_list (_ <$> c)) _) with (mkSection t sep c None []) by (destruct c; [symmetry; apply apply_cached; by apply Hc|done]).
  destruct p; [apply apply_persist; auto|done].
Qed.

(** Bytes that no decoration contains *)
Lemma decoration_safe c s : c = ":"%char \/ c = c_newline -> Forall (fun o => c ∉ o) (decorations s).
Proof.
  intros Hc. assert (Hz : forall z, c ∉ show z) by (intros z; apply not_shown; by destruct Hc as [->| ->]).
  assert (Hd : forall name args, c ∉ name -> c ∉ args -> c ∉ decoration name args).
  { intros name args Hn Ha. unfold decoration. rewrite !elem_of_app. intros [?|[H|[?|H]]]; [done| |done|]; revert H; destruct Hc as [->| ->]; vm_decide. }
  assert (Hl : c ∉ str "sep" /\ c ∉ str "cached" /\ c ∉ str "persist" /\ c ∉ str ",") by (destruct Hc as [->| ->]; vm_decide).
  destruct Hl as (H1 & H2 & H3 & H4). unfold decorations. rewrite !Forall_app. split_and!.
  - destruct (separator s); repeat constructor. by apply Hd.
  - destruct (cached s) as [[g i]|]; repeat constructor. apply Hd; [done|]. unfold cached_args. rewrite !elem_of_app. intros [H|[H|H]]; revert H; [apply Hz|done|apply Hz].
  - destruct (persist_until s); repeat constructor. by apply Hd.
Qed.

Lemma options_joined os : forall o fuel s, Forall (fun o => ":"%char ∉ o) (o :: os) -> (length (join_with ":"%char (o :: os)) < fuel)%nat ->
  options_loop fuel (join_with ":"%char (o :: os)) s = fold_left (fun s o => apply_option o s) (o :: os) s.
Proof.
  induction os as [|o' os IH]; intros o fuel s Ho Hf; (destruct fuel as [|fuel]; [lia|]); inversion Ho as [|? ? H1 H2]; subst; cbn [options_loop]; change (str ":") with [":"%char].
  - cbn [join_with fold_left]. by rewrite find_char_None.
  - change (join_with ":"%char (o :: o' :: os)) with (o ++ ":"%char :: join_with ":"%char (o' :: os)) in *.
    rewrite find_char_first, take_app_length, drop_separator by done. rewrite length_app in Hf. cbn [length] in Hf. rewrite IH by (done || lia). done.
Qed.

(** The text between the brackets of a header, and what is read from it *)
Definition header_inner (s : section) : cppstring := join_with ":"%char (title s :: decorations s).
Lemma parse_header_inner s : ":"%char ∉ title s -> in_range s ->
  parse_section_header (header_inner s) = mkSection (title s) (separator s) (cached s) (persist_until s) [].
Proof.
  intros Ht Hr. rewrite <-(apply_decorations s Hr). unfold header_inner, parse_section_header. change (str ":") with [":"%char].
  pose proof (decoration_safe ":"%char s (or_introl eq_refl)) as Hd. destruct (decorations s) as [|o os].
  - cbn [join_with fold_left]. by rewrite find_char_None.
  - change (join_with ":"%char (title s :: o :: os)) with (title s ++ ":"%char :: join_with ":"%char (o :: os)).
    rewrite find_char_first, take_app_length, drop_separator by done. apply options_joined; [done|]. rewrite length_app. cbn [length]. lia.
Qed.
Lemma join_after c os : forall (t : cppstring), join_with c (t :: os) = t ++ concat (map (cons c) os).
Proof.
  induction os as [|o os IH]; intros t; [cbn; by rewrite app_nil_r|].
  change (join_with c (t :: o :: os)) with (t ++ c :: join_with c (o :: os)). by rewrite IH.
Qed.
Lemma render_header_inner s : render_header s = str "<<<" ++ header_inner s ++ str ">>>" ++ [c_newline].
Proof.
  unfold header_inner, decorations. rewrite join_after, !map_app, !concat_app, <-!app_assoc. unfold render_header. apply (f_equal (app (str "<<<"))), (f_equal (app (title s))).
  assert (Happ : forall a a' b b' : cppstring, a = a' -> b = b' -> a ++ b = a' ++ b') by (by intros ? ? ? ? -> ->).
  apply Happ; [|apply Happ; [|apply Happ; [|done]]].
  - destruct (separator s); [symmetry; apply app_nil_r|done].
  - destruct (cached s); [|done]. symmetry. etransitivity; [apply app_nil_r|]. unfold decoration, cached_args. by rewrite <-!app_assoc.
  - destruct (persist_until s); [symmetry; apply app_nil_r|done].
Qed.
Lemma header_inner_line s : c_newline ∉ title s -> c_newline ∉ header_inner s.
Proof.
  intros Ht. unfold header_inner. assert (H : Forall (fun o => c_newline ∉ o) (title s :: decorations s)) by (constructor; [done|apply decoration_safe; by right]).
  induction H as [|o os Ho Hos IH]; [by apply not_elem_of_nil|]. destruct os as [|o' os]; [done|].
  change (join_with ":"%char (o :: o' :: os)) with (o ++ ":"%char :: join_with ":"%char (o' :: os)). rewrite elem_of_app, elem_of_cons. naive_solver.
Qed.

(** ** Lines *)

Lemma pieces_of_lines ls : Forall (fun l => c_newline ∉ l) ls -> pieces c_newline (concat (map (fun l => l ++ [c_newline]) ls)) = ls.
Proof. induction 1 as [|l ls Hl Hls IH]; [done|]. cbn [map concat]. rewrite <-app_assoc. cbn [app]. by rewrite pieces_cons, IH. Qed.

(** A section and a packet as the lines they are written in *)
Definition sep_of (s : section) : Z := default 32 (separator s).
Definition header_line (s : section) : cppstring := str "<<<" ++ header_inner s ++ str ">>>".
Definition section_lines (s : section) : list cppstring := header_line s :: map (line_to_string (sep_of s)) (lines s).
Definition open_line (h : cppstring) : cppstring := str "<<<<" ++ h ++ str ">>>>".
Definition block_lines (b : piggyback_block) : list cppstring := open_line (host b) :: concat (map section_lines (block_sections b)) ++ [open_line []].
Definition packet_lines (p : packet) : list cppstring := concat (map section_lines (section_list p)) ++ concat (map block_lines (piggybacks p)).

Definition with_ends (ls : list cppstring) : cppstring := concat (map (fun l => l ++ [c_newline]) ls).
Lemma with_ends_app a b : with_ends (a ++ b) = with_ends a ++ with_ends b.
Proof. unfold with_ends. by rewrite map_app, concat_app. Qed.
Lemma with_ends_concat {A} (f : A -> list cppstring) l : with_ends (concat (map f l)) = concat (map (fun x => with_ends (f x)) l).
Proof. induction l as [|x l IH]; [done|]. cbn [map concat]. by rewrite with_ends_app, IH. Qed.

Lemma section_text s : section_to_string s = with_ends (section_lines s).
Proof.
  unfold section_to_string, section_lines. change (with_ends (?l :: ?ls)) with ((l ++ [c_newline]) ++ with_ends ls). rewrite render_header_inner. unfold header_line, with_ends.
  rewrite map_map, <-!app_assoc. done.
Qed.
Lemma write_lines p : write p = with_ends (packet_lines p).
Proof.
  unfold write, packet_lines. rewrite with_ends_app, !with_ends_concat. f_equal; f_equal; apply map_ext; [intros s; apply section_text|]. intros b. unfold block_to_string, block_lines.
  change (with_ends (?l :: ?ls)) with ((l ++ [c_newline]) ++ with_ends ls). rewrite with_ends_app, with_ends_concat, (map_ext _ _ section_text). unfold open_line.
  rewrite <-!app_assoc. done.
Qed.

(** ** What can be told apart *)

(** A line that is no header and survives the reading of line ends *)
Definition plain_line (t : cppstring) : Prop := c_newline ∉ t /\ last t <> Some c_return /\ is_pb t = false /\ is_section t = false.
Definition sane_section (s : section) : Prop :=
  title s <> [] /\ ":"%char ∉ title s /\ c_newline ∉ title s /\ head (title s) <> Some "<"%char /\ in_range s /\
  Forall (fun l => plain_line (line_to_string (sep_of s) l)) (lines s).
Definition sane_packet (p : packet) : Prop :=
  Forall sane_section (section_list p) /\
  Forall (fun b => host b <> [] /\ c_newline ∉ host b /\ Forall sane_section (block_sections b)) (piggybacks p) /\
  NoDup (map host (piggybacks p)).

(** What a reader gets: the lines split at blanks *)
Definition reread (s : section) : section :=
  mkSection (title s) (separator s) (cached s) (persist_until s) (map (fun l => pieces c_blank (line_to_string (sep_of s) l)) (lines s)).
Definition reread_block (b : piggyback_block) : piggyback_block := mkBlock (host b) (map reread (block_sections b)).
Definition reread_packet (p : packet) : packet := mkPacket (map reread (section_list p)) (map reread_block (piggybacks p)).

(** ** Headers *)

Lemma ends_with_suffix a key : ends_with (a ++ key) key = true.
Proof. unfold ends_with. apply bool_decide_eq_true_2. rewrite length_app. replace (length a + length key - length key)%nat with (length a) by lia. apply drop_app_length. Qed.
Lemma strip_cr_not t : last t <> Some c_return -> strip_cr t = t.
Proof. intros H. unfold strip_cr. by rewrite bool_decide_eq_false_2. Qed.
Lemma is_prefix_app key s : is_prefix key (key ++ s) = true.
Proof. induction key as [|k key IH]; [done|]. cbn. by rewrite bool_decide_eq_true_2. Qed.

Lemma open_line_read h : strip_cr (open_line h) = open_line h /\ is_pb (open_line h) = true /\ take (length (open_line h) - 8) (drop 4 (open_line h)) = h.
Proof.
  unfold open_line. split_and!.
  - apply strip_cr_not. change (str ">>>>") with ([">"%char; ">"%char; ">"%char] ++ [">"%char]). by rewrite !app_assoc, last_snoc.
  - unfold is_pb. rewrite is_prefix_app, app_assoc, ends_with_suffix, andb_true_r. cbn [andb]. rewrite andb_true_r. apply Nat.leb_le. rewrite !length_app. cbn. lia.
  - change (drop 4 (str "<<<<" ++ h ++ str ">>>>")) with (h ++ str ">>>>"). rewrite !length_app. cbn [length str].
    replace (_ - 8)%nat with (length h) by (cbn; lia). apply take_app_length.
Qed.
Lemma header_line_read s : title s <> [] -> head (title s) <> Some "<"%char ->
  strip_cr (header_line s) = header_line s /\ is_pb (header_line s) = false /\ is_section (header_line s) = true /\
  take (length (header_line s) - 6) (drop 3 (header_line s)) = header_inner s.
Proof.
  intros Ht Hh. unfold header_line. assert (Hpb : is_prefix (str "<<<<") (str "<<<" ++ header_inner s ++ str ">>>") = false).
  { unfold header_inner. rewrite join_after. destruct (title s) as [|c t]; [done|].
    match goal with |- is_prefix _ (_ ++ ?r) = _ => change (is_prefix (str "<") r = false) end. cbn [app is_prefix str].
    apply andb_false_iff. left. apply bool_decide_eq_false_2. intros E. apply Hh. cbn. by rewrite E. }
  split_and!.
  - apply strip_cr_not. change (str ">>>") with ([">"%char; ">"%char] ++ [">"%char]). by rewrite !app_assoc, last_snoc.
  - unfold is_pb. by rewrite Hpb, andb_false_r.
  - unfold is_section, is_pb. rewrite Hpb, andb_false_r. cbn [negb andb]. rewrite is_prefix_app, app_assoc, ends_with_suffix, !andb_true_r. apply Nat.leb_le. rewrite !length_app. cbn. lia.
  - change (drop 3 (str "<<<" ++ header_inner s ++ str ">>>")) with (header_inner s ++ str ">>>"). rewrite !length_app.
    replace (_ - 6)%nat with (length (header_inner s)) by (cbn; lia). apply take_app_length.
Qed.

(** ** The reader *)

(** The section being read has a title or is fresh. *)
Definition tidy (r : reader) : Prop := title (cur r) <> [] \/ cur r = new_section.
Definition set_cur (s : section) (r : reader) : reader := mkReader (pkt r) s (active_pb r).

Lemma flush_fresh r : tidy r -> cur (flush_section r) = new_section.
Proof.
  intros [Ht|E]; unfold flush_section; [|by rewrite E]. unfold empty. by rewrite bool_decide_eq_false_2.
Qed.
Lemma flush_idle r : cur r = new_section -> flush_section r = r.
Proof. intros E. unfold flush_section. by rewrite E. Qed.
Lemma flush_active r : active_pb (flush_section r) = active_pb r.
Proof. unfold flush_section. by destruct (empty (cur r)). Qed.

(** A finished section goes to the open block, or to the packet. *)
Definition put_section (r : reader) (s : section) : reader :=
  let p := pkt r in
  mkReader (match active_pb r with
            | Some i => mkPacket (section_list p) (alter (block_add_section s) i (piggybacks p))
            | None => add_section s p
            end) (cur r) (active_pb r).
Lemma flush_put s r : title s <> [] -> cur r = new_section -> flush_section (set_cur s r) = put_section r s.
Proof. intros Ht E. unfold flush_section, set_cur, empty, put_section. cbn. by rewrite bool_decide_eq_false_2, E. Qed.

Lemma read_plain_lines sep ls : forall r, Forall (fun l => plain_line (line_to_string sep l)) ls ->
  fold_left read_line (map (line_to_string sep) ls) r =
    set_cur (mkSection (title (cur r)) (separator (cur r)) (cached (cur r)) (persist_until (cur r)) (lines (cur r) ++ map (fun l => pieces c_blank (line_to_string sep l)) ls)) r.
Proof.
  induction ls as [|l ls IH]; intros r Hl; cbn [map fold_left].
  - rewrite app_nil_r. by destruct r as [? [] ?].
  - inversion Hl as [|? ? (_ & Hc & Hp & Hs) Hl']; subst. unfold read_line at 2. rewrite strip_cr_not, Hp, Hs by done. rewrite IH by done. unfold set_cur, push, add_line, set_line. cbn.
    by rewrite <-app_assoc.
Qed.
Lemma read_section s r : sane_section s -> fold_left read_line (section_lines s) r = set_cur (reread s) (flush_section r).
Proof.
  intros (Ht & Hc & Hn & Hh & Hr & Hl). unfold section_lines. cbn [fold_left]. destruct (header_line_read s Ht Hh) as (E1 & E2 & E3 & E4).
  unfold read_line at 2. rewrite E1, E2, E3, E4, parse_header_inner by done. rewrite read_plain_lines by done. done.
Qed.
Lemma read_sections ss : forall r, tidy r -> Forall sane_section ss ->
  let r' := fold_left read_line (concat (map section_lines ss)) r in
  flush_section r' = fold_left put_section (map reread ss) (flush_section r) /\ tidy r'.
Proof.
  induction ss as [|s ss IH]; intros r Hr Hs; [done|]. inversion Hs as [|? ? H1 H2]; subst. cbn [map concat fold_left]. rewrite fold_left_app, read_section by done.
  pose proof H1 as (Ht & _). destruct (IH (set_cur (reread s) (flush_section r))) as [E T]; [by left|done|]. split; [|done].
  rewrite E, flush_put; [done|done|by apply flush_fresh].
Qed.

(** ** Blocks *)

Lemma put_outside ss : forall r, active_pb r = None -> fold_left put_section ss r = mkReader (mkPacket (section_list (pkt r) ++ ss) (piggybacks (pkt r))) (cur r) None.
Proof.
  induction ss as [|s ss IH]; intros r Hr; cbn [fold_left]; [rewrite app_nil_r; destruct r as [[] ? ?]; cbn in *; by rewrite Hr|].
  rewrite IH by (unfold put_section; cbn; done). unfold put_section. rewrite Hr. cbn. by rewrite <-app_assoc.
Qed.
Lemma alter_last {A} (f : A -> A) bs x : alter f (length bs) (bs ++ [x]) = bs ++ [f x].
Proof. induction bs as [|b bs IH]; [done|]. cbn. by f_equal. Qed.
Lemma put_inside h bs ss : forall done_ r, piggybacks (pkt r) = bs ++ [mkBlock h done_] -> active_pb r = Some (length bs) ->
  fold_left put_section ss r = mkReader (mkPacket (section_list (pkt r)) (bs ++ [mkBlock h (done_ ++ ss)])) (cur r) (Some (length bs)).
Proof.
  induction ss as [|s ss IH]; intros d r Hb Ha; cbn [fold_left]; [rewrite app_nil_r; destruct r as [[] ? ?]; cbn in *; by subst|].
  rewrite (IH (d ++ [s])); [|by unfold put_section; rewrite Ha; cbn; rewrite Hb, alter_last|done].
  unfold put_section. rewrite Ha. cbn. by rewrite <-app_assoc.
Qed.

Lemma block_of_None h bs : h ∉ map host bs -> block_of h bs = None.
Proof.
  induction bs as [|b bs IH]; [done|]. cbn [map]. intros [Hb Hn]%not_elem_of_cons. cbn. rewrite bool_decide_eq_false_2 by done. by rewrite IH.
Qed.

Definition outside (p : packet) : reader := mkReader p new_section None.
Lemma read_block b r : tidy r -> host b <> [] -> Forall sane_section (block_sections b) -> host b ∉ map host (piggybacks (pkt (flush_section r))) ->
  fold_left read_line (block_lines b) r =
    outside (mkPacket (section_list (pkt (flush_section r))) (piggybacks (pkt (flush_section r)) ++ [reread_block b])).
Proof.
  intros Hr Hh Hs Hn. unfold block_lines. cbn [fold_left]. rewrite fold_left_app. cbn [fold_left]. destruct (open_line_read (host b)) as (E1 & E2 & E3), (open_line_read []) as (F1 & F2 & F3).
  unfold read_line at 3. rewrite E1, E2, E3, bool_decide_eq_false_2 by done. unfold piggyback_for. rewrite block_of_None by done.
  pose proof (flush_fresh r Hr) as Hf. set (q := flush_section r) in *. set (r0 := mkReader _ (cur q) _).
  destruct (read_sections (block_sections b) r0) as [E T]; [by right|done|]. unfold read_line at 1. rewrite F1, F2, F3, bool_decide_eq_true_2 by done.
  cbn zeta in E, T. rewrite E. rewrite (flush_idle r0) by done. rewrite (put_inside (host b) (piggybacks (pkt q)) _ []) by done. unfold outside. cbn. by rewrite Hf.
Qed.
Lemma read_blocks bs : forall p, Forall (fun b => host b <> [] /\ c_newline ∉ host b /\ Forall sane_section (block_sections b)) bs -> NoDup (map host (piggybacks p ++ bs)) ->
  fold_left read_line (concat (map block_lines bs)) (outside p) = outside (mkPacket (section_list p) (piggybacks p ++ map reread_block bs)).
Proof.
  induction bs as [|b bs IH]; intros p Hb Hn; cbn [map concat fold_left]; [rewrite app_nil_r; by destruct p|].
  inversion Hb as [|? ? (H1 & _ & H2) Hb']; subst. rewrite fold_left_app, read_block; [|by right|done|done|]; rewrite ?(flush_idle (outside p)) by done.
  - rewrite IH; [cbn; by rewrite <-app_assoc|done|]. cbn [piggybacks pkt outside]. rewrite !map_app in *. cbn [map reread_block host] in *. rewrite <-app_assoc. done.
  - cbn. rewrite map_app in Hn. apply NoDup_app in Hn as (_ & Hn & _). intros Hin. apply (Hn _ Hin). left.
Qed.

(** ** Packets *)

Lemma newline_free_section s : sane_section s -> Forall (fun l => c_newline ∉ l) (section_lines s).
Proof.
  intros (_ & _ & Hn & _ & _ & Hl). constructor.
  - unfold header_line. rewrite !elem_of_app. intros [H|[H|H]]; revert H; [vm_decide|by apply header_inner_line|vm_decide].
  - apply Forall_map. eapply Forall_impl; [done|]. by intros l (? & _).
Qed.
Lemma newline_free_open h : c_newline ∉ h -> c_newline ∉ open_line h.
Proof. intros Hh. unfold open_line. rewrite !elem_of_app. intros [H|[H|H]]; revert H; [vm_decide|done|vm_decide]. Qed.
Lemma Forall_concat_map {A B} (P : B -> Prop) (Q : A -> Prop) (f : A -> list B) l : (forall x, Q x -> Forall P (f x)) -> Forall Q l -> Forall P (concat (map f l)).
Proof. intros Hf. induction 1; cbn [map concat]; [constructor|]. apply Forall_app. auto. Qed.
Lemma newline_free_packet p : sane_packet p -> Forall (fun l => c_newline ∉ l) (packet_lines p).
Proof.
  intros (Hs & Hb & _). unfold packet_lines. apply Forall_app. split; [eapply Forall_concat_map; [|exact Hs]; apply newline_free_section|].
  eapply Forall_concat_map; [|exact Hb]. intros b (_ & Hn & Hss). unfold block_lines. constructor; [by apply newline_free_open|].
  apply Forall_app. split; [eapply Forall_concat_map; [|exact Hss]; apply newline_free_section|]. constructor; [vm_decide|constructor].
Qed.

Lemma read_write p : sane_packet p -> read (write p) new_packet = reread_packet p.
Proof.
  intros Hp. unfold read. rewrite write_lines. unfold with_ends. rewrite pieces_of_lines by (by apply newline_free_packet). destruct Hp as (Hs & Hb & Hn).
  unfold packet_lines. rewrite fold_left_app. fold (outside new_packet). destruct (read_sections (section_list p) (outside new_packet)) as [E T]; [by right|done|].
  cbn zeta in E, T. rewrite (flush_idle (outside new_packet)), put_outside in E by done. cbn in E.
  destruct (piggybacks p) as [|b bs] eqn:Eb; [cbn [map concat fold_left]; rewrite E; cbn; unfold reread_packet; by rewrite Eb|].
  cbn [map concat]. rewrite fold_left_app. inversion Hb as [|? ? (H1 & _ & H2) Hb']; subst.
  rewrite read_block; [|done|done|done|rewrite E; cbn; by apply not_elem_of_nil]. rewrite E. cbn [pkt section_list piggybacks app].
  rewrite read_blocks; [|done|done]. rewrite flush_idle by done. unfold reread_packet. by rewrite Eb.
Qed.

(** Items as a script makes them: separated by blanks *)
Definition plain_items (l : line) : Prop := Forall (fun i => c_blank ∉ i) l /\ last l <> Some [].
Definition plain_section (s : section) : Prop := sep_of s = 32 /\ Forall plain_items (lines s).
Lemma reread_plain s : plain_section s -> reread s = s.
Proof.
  intros [Hsep Hl]. unfold reread. rewrite Hsep. destruct s as [t sep c p ls]. cbn [title separator cached persist_until lines] in *. f_equal.
  induction Hl as [|l ls [Hi Hlast] _ IH]; [done|]. cbn [map]. f_equal; [by apply pieces_join|]. by apply IH.
Qed.

(** What the agent writes is read back: titles, decorations with numbers of the whole 64-bit
    range, the order of the sections, and which host each piggyback block belongs to; a line
    comes back split at its blanks, which are its items when it was made of blank-free items with
    the default separator. *)
Theorem check_mk_packet_is_read_back (p : packet) : sane_packet p ->
  read (write p) new_packet = reread_packet p /\
  (Forall plain_section (section_list p) -> Forall (fun b => Forall plain_section (block_sections b)) (piggybacks p) -> read (write p) new_packet = p).
Proof.
  intros Hp. split; [by apply read_write|]. intros Hs Hb. rewrite read_write by done. unfold reread_packet. destruct p as [ss bs]. cbn [section_list piggybacks] in *.
  assert (Hm : forall l, Forall plain_section l -> map reread l = l) by (induction 1 as [|s l H1 _ IH]; [done|]; cbn [map]; by rewrite reread_plain, IH).
  rewrite Hm by done. f_equal. clear Hp. induction Hb as [|[h l] bs H1 _ IH]; [done|]. cbn [map]. unfold reread_block at 1. cbn in *. by rewrite Hm, IH.
Qed.

Definition sample_packet : packet :=
  mkPacket [mkSection (str "check_mk") None None None [[str "Version:"; str "0.6"]; [str "AgentOS:"; str "windows"]];
            mkSection (str "mrpe") None (Some (1700000000, 60)) (Some (-1)) [[str "ok"]; []]]
           [mkBlock (str "db1") [mkSection (str "local") (Some 32) None None [[str "0"; str "CPU"; str "-"; str "fine"]]]; mkBlock (str "db2") []].
Lemma sample_section t sep c p ls : t <> [] -> ":"%char ∉ t -> c_newline ∉ t -> head t <> Some "<"%char ->
  in_s 32 (default 0 sep) -> in_s 64 (fst (default (0, 0) c)) -> in_s 64 (snd (default (0, 0) c)) -> in_s 64 (default 0 p) ->
  Forall (fun l => plain_line (line_to_string (default 32 sep) l)) ls -> sane_section (mkSection t sep c p ls).
Proof. intros. unfold sane_section, in_range. cbn. split_and!; try done; intros; subst; try done. Qed.
Lemma sample_packet_sane : sane_packet sample_packet.
Proof.
  unfold sample_packet. split_and!; cbn [section_list piggybacks].
  - repeat (apply Forall_cons_2; [apply sample_section; vm_decide|]). apply Forall_nil_2.
  - apply Forall_cons_2; [split_and!; [done|vm_decide|]|apply Forall_cons_2; [split_and!; [done|vm_decide|apply Forall_nil_2]|apply Forall_nil_2]].
    apply Forall_cons_2; [apply sample_section; vm_decide|apply Forall_nil_2].
  - vm_decide.
Qed.
Lemma check_mk_packet_is_read_back_witness : read (write sample_packet) new_packet = sample_packet.
Proof. exact (proj2 (check_mk_packet_is_read_back sample_packet sample_packet_sane) ltac:(vm_decide) ltac:(vm_decide)). Defined.

(** ** A connection *)

Definition deliver (c : client_protocol) (f : cppstring) : client_protocol := on_read (length f) (received f c).
Lemma delivered frags : forall c, Forall (fun f => (length f <= length (read_buffer_ c))%nat) frags ->
  let c' := fold_left deliver frags c in
  current_state_ c' = current_state_ c /\ length (read_buffer_ c') = length (read_buffer_ c) /\ data_buffer_ c' = data_buffer_ c ++ concat frags.
Proof.
  induction frags as [|f frags IH]; intros c Hf; cbn [fold_left concat]; [by rewrite app_nil_r|]. inversion Hf as [|? ? H1 H2]; subst.
  assert (Hb : length (read_buffer_ (deliver c f)) = length (read_buffer_ c)) by (cbn; rewrite length_app, length_drop; lia).
  destruct (IH (deliver c f)) as (E1 & E2 & E3); [by rewrite Hb|]. cbn zeta. rewrite E1, E2, E3, Hb. split_and!; [done|done|].
  unfold deliver, on_read, received. cbn. rewrite take_app_length. by rewrite <-app_assoc.
Qed.

(** A monitoring server that connects gets the packet the agent's script made, however the bytes
    are cut into reads of at most the buffer's size: the client asks for data until the agent
    closes the connection, and then reads the packet; the agent has data to send once. *)
Theorem check_mk_connection_delivers (p : packet) (frags : list cppstring) :
  sane_packet p -> Forall (fun f => (length f <= Z.to_nat 40960)%nat) frags ->
  let server := server_on_connect p new_read_protocol in
  concat frags = data_ server ->
  let client := fold_left deliver frags (prepare_request (on_connect new_client_protocol)) in
  server_has_data server = true /\ server_has_data (server_on_write server) = false /\
  wants_data client = true /\ wants_data (on_read_error true client) = false /\
  get_response (on_read_error true client) = reread_packet p.
Proof.
  intros Hp Hf server Hc client. destruct (delivered frags (prepare_request (on_connect new_client_protocol))) as (E1 & _ & E3).
  { eapply Forall_impl; [exact Hf|]. intros f Hl. unfold prepare_request, on_connect, new_client_protocol. cbn [read_buffer_]. by rewrite length_replicate. }
  fold client in E1, E3. split_and!; [done|done| |done|].
  - unfold wants_data. by rewrite E1.
  - unfold get_response, on_read_error. cbn [data_buffer_]. rewrite E3. change (data_buffer_ _ ++ concat frags) with (concat frags). rewrite Hc. by apply read_write.
Qed.
Lemma check_mk_connection_delivers_witness :
  get_response (on_read_error true (fold_left deliver [take 7 (write sample_packet); drop 7 (write sample_packet)] (prepare_request (on_connect new_client_protocol)))) = reread_packet sample_packet.
Proof.
  refine (proj2 (proj2 (proj2 (proj2 (check_mk_connection_delivers sample_packet [take 7 (write sample_packet); drop 7 (write sample_packet)] sample_packet_sane _ _))))); [|by vm_compute].
  repeat (apply Forall_cons_2; [apply Nat2Z.inj_le; rewrite Z2Nat.id by lia; apply Z.leb_le; by vm_compute|]). apply Forall_nil_2.
Defined.

(** A section with a separator of its own is not read with it: its lines are split at blanks, and
    writing what was read gives another text. *)
Lemma separator_is_not_read_back :
  let s := mkSection (str "df") (Some 124) None None [[str "C: drive"; str "NTFS"]] in
  write (mkPacket [s] []) = str "<<<df:sep(124)>>>" ++ [c_newline] ++ str "C: drive|NTFS" ++ [c_newline] /\
  section_list (read (write (mkPacket [s] [])) new_packet) = [mkSection (str "df") (Some 124) None None [[str "C:"; str "drive|NTFS"]]] /\
  write (read (write (mkPacket [s] [])) new_packet) = str "<<<df:sep(124)>>>" ++ [c_newline] ++ str "C:|drive|NTFS" ++ [c_newline].
Proof. by vm_compute. Qed.

(** Text in front of the first header goes into a section without a title, and that section is
    written with an empty header. *)
Lemma stray_text_gains_a_header : write (read (str "hello") new_packet) = str "<<<>>>" ++ [c_newline] ++ str "hello" ++ [c_newline].
Proof. by vm_compute. Qed.
