(* ===== verification/MetricsStore.v ===== *)
(** How a module declares a metric (include/nscapi/nscapi_metrics_helper.hpp and .cpp) and the
    store of the last snapshot (include/metrics/metrics_store_map.cpp).  The messages are those
    of OpenMetricsRender; a value that the source casts is already a [double].  Whether a lock
    with a time-out was obtained is an argument. *)

From stdpp Require Import base list gmap strings.
From Stdlib Require Import Ascii ZArith Lia.
From S2P Require Import Prelude Strings Format OpenMetricsRender.

Module MetricsStore.

(** ** Declaring metrics *)

Record metric_builder := mkBuilder { name_ : cppstring; key_ : cppstring; help_ : cppstring; builder_unit_ : cppstring; labels_ : list (cppstring * cppstring) }.

Definition metric (name : cppstring) : metric_builder := mkBuilder name [] [] [] [].
Definition help (text : cppstring) (m : metric_builder) : metric_builder := mkBuilder (name_ m) (key_ m) text (builder_unit_ m) (labels_ m).
Definition unit (u : cppstring) (m : metric_builder) : metric_builder := mkBuilder (name_ m) (key_ m) (help_ m) u (labels_ m).
Definition set_key (k : cppstring) (m : metric_builder) : metric_builder := mkBuilder (name_ m) k (help_ m) (builder_unit_ m) (labels_ m).
Definition instance (i : cppstring) (m : metric_builder) : metric_builder :=
  if bool_decide (i = []) then m else set_key (i ++ str "." ++ name_ m) m.
Definition label (k v : cppstring) (m : metric_builder) : metric_builder :=
  if bool_decide (k = []) || bool_decide (v = []) then m
  else mkBuilder (name_ m) (key_ m) (help_ m) (builder_unit_ m) (labels_ m ++ [(k, v)]).

(** [add()] and the value a terminal call sets; an unset field of a message is empty. *)
Definition built (m : metric_builder) (v : metric_value) : Metric :=
  mkMetric (if bool_decide (key_ m = []) then name_ m else key_ m)
    (if bool_decide (labels_ m = []) then [] else name_ m)
    (help_ m) (builder_unit_ m) (labels_ m) v.
Definition add_value (x : Metric) (b : MetricsBundle) : MetricsBundle :=
  let '(mkMetrics k d vs cs) := b in mkMetrics k d (vs ++ [x]) cs.
Definition add (m : metric_builder) (v : metric_value) (b : MetricsBundle) : MetricsBundle := add_value (built m v) b.
Definition gauge (d : double) (m : metric_builder) : MetricsBundle -> MetricsBundle := add m (gauge_value d).
Definition counter (d : double) (m : metric_builder) : MetricsBundle -> MetricsBundle := add m (counter_value d).
Definition untyped (d : double) (m : metric_builder) : MetricsBundle -> MetricsBundle := add m (untyped_value d).
Definition info (s : cppstring) (m : metric_builder) : MetricsBundle -> MetricsBundle := add m (string_value s).

Definition add_metric (k : cppstring) (d : double) (b : MetricsBundle) : MetricsBundle := add_value (mkMetric k [] [] [] [] (gauge_value d)) b.
Definition add_metric_text (k s : cppstring) (b : MetricsBundle) : MetricsBundle := add_value (mkMetric k [] [] [] [] (string_value s)) b.
Definition describe (d : cppstring) (b : MetricsBundle) : MetricsBundle := let '(mkMetrics k _ vs cs) := b in mkMetrics k d vs cs.

Definition core_label (cpu_key : cppstring) : cppstring :=
  let prefix := str "core" in
  if Nat.leb (length cpu_key) (length prefix) || negb (bool_decide (take (length prefix) cpu_key = prefix)) then cpu_key else
  match drop (length prefix) cpu_key with
  | separator :: core =>
      if negb (bool_decide (separator = " "%char)) && negb (bool_decide (separator = "_"%char)) then cpu_key
      else if bool_decide (core = []) then cpu_key else core
  | [] => cpu_key
  end.

Record instance_scope := mkScope { instance_ : cppstring; label_ : cppstring; value_ : cppstring }.
Definition for_instance (i l : cppstring) : instance_scope := mkScope i l i.
Definition for_instance_value (i l v : cppstring) : instance_scope := mkScope i l v.
Definition scope_metric (sc : instance_scope) (name : cppstring) : metric_builder := label (label_ sc) (value_ sc) (instance (instance_ sc) (metric name)).

(** ** The store *)

Definition numeric_value (m : Metric) : option double :=
  match value m with gauge_value d | counter_value d | untyped_value d => Some d | _ => None end.

Abbreviation values_map := (gmap cppstring cppstring).

Definition put_metric (p : cppstring) (metrics : values_map) (v : Metric) : values_map :=
  match numeric_value v with
  | Some d => <[p ++ str "." ++ key v := xtos_double d]> metrics
  | None => match value v with string_value s => <[p ++ str "." ++ key v := s]> metrics | _ => metrics end
  end.
Definition bundle_path (path k : cppstring) : cppstring := if bool_decide (path = []) then k else path ++ str "." ++ k.
Fixpoint build_metrics (b : MetricsBundle) (path : cppstring) (metrics : values_map) : values_map :=
  match b with
  | mkMetrics k _ vs children =>
      let p := bundle_path path k in
      fold_left (put_metric p) vs (fold_left (fun m b2 => build_metrics b2 p m) children metrics)
  end.

Record metrics_store := mkStore { values_ : values_map }.

Definition set (owns_lock : bool) (response : MetricsMessage) (s : metrics_store) : metrics_store :=
  let tmp := fold_left (fun m p => fold_left (fun m b => build_metrics b [] m) p m) response ∅ in
  if owns_lock then mkStore tmp else s.
Definition get (owns_lock : bool) (filter_ : cppstring) (s : metrics_store) : values_map :=
  if owns_lock then filter (fun kv => filter_ = [] \/ is_Some (find kv.1 filter_ 0)) (values_ s) else ∅.

(** ** A snapshot *)

(** What a bundle says, in the order it is walked *)
Definition metric_text (v : Metric) : option cppstring :=
  match numeric_value v with Some d => Some (xtos_double d) | None => match value v with string_value s => Some s | _ => None end end.
Fixpoint says (b : MetricsBundle) (path : cppstring) : list (cppstring * cppstring) :=
  match b with
  | mkMetrics k _ vs children =>
      let p := bundle_path path k in
      concat (map (fun b2 => says b2 p) children) ++ omap (fun v => (fun t => (p ++ str "." ++ key v, t)) <$> metric_text v) vs
  end.
Definition message_says (msg : MetricsMessage) : list (cppstring * cppstring) := concat (map (fun p => concat (map (fun b => says b []) p)) msg).

Definition put (m : values_map) (kv : cppstring * cppstring) : values_map := <[kv.1 := kv.2]> m.

Lemma put_metrics p vs : forall m, fold_left (put_metric p) vs m = fold_left put (omap (fun v => (fun t => (p ++ str "." ++ key v, t)) <$> metric_text v) vs) m.
Proof.
  induction vs as [|v vs IH]; intros m; [done|]. cbn [fold_left omap list_omap]. unfold put_metric at 2, metric_text at 1. rewrite IH.
  destruct (numeric_value v); [done|]. by destruct (value v).
Qed.
Lemma fold_concat {A} (f : A -> list (cppstring * cppstring)) (g : values_map -> A -> values_map) l : Forall (fun x => forall m, g m x = fold_left put (f x) m) l ->
  forall m, fold_left g l m = fold_left put (concat (map f l)) m.
Proof. induction 1 as [|x l Hx _ IH]; intros m; [done|]. cbn [fold_left map concat]. by rewrite fold_left_app, Hx, IH. Qed.
Lemma build_metrics_says : forall b path m, build_metrics b path m = fold_left put (says b path) m.
Proof.
  fix IH 1. intros [k d vs children] path m. cbn [build_metrics says]. rewrite put_metrics, fold_left_app. f_equal.
  apply fold_concat. clear -IH. generalize (bundle_path path k). intros p. induction children as [|b bs IHl]; constructor; [intros m; apply IH|exact IHl].
Qed.

(** The last entry of a key *)
Fixpoint last_of (k : cppstring) (l : list (cppstring * cppstring)) : option cppstring :=
  match l with [] => None | (k', v) :: l => match last_of k l with Some w => Some w | None => if bool_decide (k' = k) then Some v else None end end.
Lemma put_entries_lookup l k : forall m, fold_left put l m !! k = match last_of k l with Some v => Some v | None => m !! k end.
Proof.
  induction l as [|[k' v] l IH]; intros m; [done|]. cbn [fold_left last_of]. rewrite IH. destruct (last_of k l); [done|]. unfold put. cbn [fst snd].
  destruct (bool_decide_reflect (k' = k)) as [->|Hk]; [apply lookup_insert_eq|by apply lookup_insert_ne].
Qed.

(** The store holds exactly what the last message says, whatever it held before: under every
    dotted path the last value the message gives it, numbers as text.  A reader gets the entries
    whose key contains the filter, all of them without one; a lock that is not obtained leaves
    the store and gives an empty answer. *)
Theorem store_holds_the_last_message (msg : MetricsMessage) (s : metrics_store) (k v filter_ : cppstring) :
  values_ (set true msg s) !! k = last_of k (message_says msg) /\
  (get true filter_ s !! k = Some v <-> values_ s !! k = Some v /\ exists a b, k = a ++ filter_ ++ b) /\
  set false msg s = s /\ get false filter_ s = ∅.
Proof.
  split_and!; [| |done|done].
  - unfold set, message_says. cbn [values_]. rewrite (fold_concat (fun p => concat (map (fun b => says b []) p))).
    + rewrite put_entries_lookup. by destruct (last_of _ _).
    + apply Forall_true. intros p m. apply fold_concat. apply Forall_true. intros b m'. apply build_metrics_says.
  - unfold get. rewrite map_lookup_filter_Some. cbn [fst]. apply and_iff_compat_l. split.
    + intros [->|[j Hj]]; [exists k, []; by rewrite app_nil_r|]. unfold find in Hj. rewrite drop_0 in Hj. destruct (Nat.leb _ _); [|done].
      apply find_at_Some in Hj as (a & b & E & _). by exists a, b.
    + intros (a & b & E). destruct (find k filter_ 0) as [j|] eqn:Ef; [right; eauto|]. exfalso. unfold find in Ef. rewrite drop_0 in Ef. cbn [Nat.leb] in Ef.
      by eapply find_at_None.
Qed.

(** ** What a declared metric carries *)

Inductive declared : metric_builder -> Prop :=
| declared_new n : declared (metric n)
| declared_help t m : declared m -> declared (help t m)
| declared_unit u m : declared m -> declared (unit u m)
| declared_key k m : declared m -> declared (set_key k m)
| declared_instance i m : declared m -> declared (instance i m)
| declared_label k v m : declared m -> declared (label k v m).

(** However a metric is declared, the message has a label only with a name and a value, names
    the family exactly when it has labels (if the metric has a name), and the store finds it
    under the key that was composed. *)
Theorem declared_metrics_are_well_formed (m : metric_builder) (v : metric_value) : declared m ->
  Forall (fun l => l.1 <> [] /\ l.2 <> []) (dims (built m v)) /\
  (name_ m <> [] -> (alias (built m v) <> [] <-> dims (built m v) <> [])) /\
  (forall i, i <> [] -> key (built (instance i m) v) = i ++ str "." ++ name_ m).
Proof.
  intros Hm. split_and!.
  - cbn [dims built]. induction Hm as [n|t m _ IH|u m _ IH|k m _ IH|i m _ IH|k w m _ IH]; [constructor|done|done|done| |].
    + unfold instance. by destruct (bool_decide _).
    + unfold label. destruct (bool_decide_reflect (k = [])), (bool_decide_reflect (w = [])); cbn [orb]; try done. cbn [labels_]. apply Forall_app. split; [done|]. by repeat constructor.
  - intros Hn. cbn [alias dims built]. destruct (bool_decide_reflect (labels_ m = [])) as [->|]; naive_solver.
  - intros i Hi. unfold instance. rewrite bool_decide_eq_false_2 by done. cbn [key built key_ set_key]. rewrite bool_decide_eq_false_2; [done|]. by destruct i.
Qed.

(** The label of a core does not depend on the system that named it, and is never empty. *)
Theorem core_labels_agree (n k : cppstring) :
  (n <> [] -> core_label (str "core " ++ n) = n /\ core_label (str "core_" ++ n) = n) /\ (k <> [] -> core_label k <> []).
Proof.
  split.
  - intros Hn. destruct n as [|c n]; [done|]. by vm_compute.
  - intros Hk. unfold core_label. destruct (_ || _); [done|]. destruct (drop _ k) as [|c core]; [done|]. destruct (_ && _); [done|].
    by destruct (bool_decide_reflect (core = [])).
Qed.

End MetricsStore.
